(* ===== verification/_CoqProject ===== *)
-Q . S2P
Prelude.v
GoStrings.v
Wildcard.v
GoPath.v
Json.v
JsonProps.v
GoTime.v
Base64.v
Backoff.v
Policy.v
PolicyProps.v
GoErrors.v
Sql.v
JsonStruct.v
Envelope.v
EnvelopeProps.v
Storage.v
LocalStorage.v
LocalStorageProps.v
Keyset.v
Http.v
Spaces.v
SpacesStore.v
SpacesInvariant.v
SpacesCommands.v
Access.v
AccessProps.v
Limits.v
AuthKeys.v
SigV4.v
SigV4Body.v
AuthRegistry.v
AuthMiddleware.v
SpacesProbes.v
SpacesQueries.v
AccessStore.v
AccessManager.v
AccessStoreProps.v
AccessInvariant.v
ManagerProps.v
Outbox.v
OutboxProps.v
Objects.v
ObjectsInvariant.v
ObjectsProps.v
ObjectsListProps.v
EventPayload.v
EventPayloadProps.v
EventLog.v
Repo.v
RepoProps.v
Service.v
ServiceWrite.v
ServiceDelete.v
ServiceRead.v
ServiceMultipart.v
ServiceBuckets.v
ServiceSample.v
ServiceGate.v
ServiceProtection.v
ServiceProps.v
Lease.v
Reconcile.v
ReconcileJob.v
ReconcileProps.v
EventBoundary.v
EventRelay.v
EventRelayProps.v
EventBus.v
EventBusProps.v
EventWebhook.v
EventWebhookProps.v
EventNotifier.v
EventTransport.v
CircuitBreaker.v
ByteRange.v
Jobs.v
JobsProps.v
Cors.v
Chain.v
