(* ===== verification/Prelude.v ===== *)
(** * aero-vault: a verification library of the file platform's core logic

    aero-vault is a multi-tenant file platform: HTTP front ends (REST, S3, WebDAV) call
    a file service over pluggable storage backends and an SQL repository.  Every
    request passes an access decision; background work goes through a durable job
    queue; storage calls go through a circuit breaker.  This library models the parts
    that decide and keep state, translated from the Go sources under src/internal, and
    proves what makes them correct.

    ** Conventions

    A Go string is a byte string ([string]); an int64 is a [Z] with its wrap-around
    written out where it matters; a time is its nanoseconds since the zero time; an
    (T, error) result is [result T], a nil error [None]; a method that changes a store
    is a [prog], a function from the store to the store it leaves and its result.  The
    clock, new identifiers, random tokens and the answers of external calls are
    arguments of the operations that read them.  Code outside the repository is a
    class with the operations the code uses ([NetLib] for net's address parsing,
    [UUIDLib] for google/uuid, [Crypto] and [SHA2] for SHA-256 and HMAC, [AEAD] for
    AES-GCM, [MD5], [URLLib] for net/url's parser, [CaseTables] and [FoldTables] for
    Unicode's cases and case folding,
    [MapOrder] for the order a Go map is ranged in), instantiated by concrete functions
    in the witnesses.  A laws class next to it states the documented behaviour a theorem
    relies on.  Parts of the program that take another part as an interface are proved
    against a class that the implementation instantiates: [AccessReader], [AccessStore],
    [BindingAuthority], [Storage], [Maintained] (what the background jobs ask of a
    backend beyond [Storage]), [PersistentStore].

    ** Files

    - Prelude (this file): string equality notations, the result type, tactics, int64,
      [iter_fuel] and its termination lemma.  GoStrings, GoPath, GoTime,
      Json, JsonProps, JsonStruct, Base64, GoErrors, Sql: what the sources
      use of the Go standard library (package strings on bytes, path cleaning, RFC 3339
      texts in both directions, encoding/json's printing and decoding with its round
      trip, base64), error trees with errors.Is and stateful programs, SQL statements on
      tables, recursive queries.
    - Wildcard: [wildcardMatch] (auth/policy.go) and [matchGlob] (auth/arn.go), one
      backtracking loop with two literal tests, with a fuel quadratic in the lengths
      that is proved sufficient; the specification [glob_spec]; ARNs (auth/arn.go).
    - Policy, PolicyProps: bucket policies (auth/policy.go): decoding of the
      statement's fields, validation, evaluation; an IPv4 instance for witnesses.
    - Spaces: validators of src/internal/spaces with UTF-8 decoding.
    - SpacesStore: the spaces store (repository/sql_spaces*.go, migration 0048) with its
      transactions, constraints and error mapping.  SpacesInvariant, SpacesCommands,
      SpacesProbes, SpacesQueries: its theorems;
      SpacesProbes states what the boundary asks of a binding reader as the class
      [BindingAuthority] and shows that the store provides it.  Keyset: keyset
      pagination over any strict total order.
    - Access, AccessProps: the decision point (access/authorizer.go, types.go,
      context.go, permissions.go) behind the deny-only resource boundary
      (resource_boundary.go), over the port [AccessReader].
    - AccessStore, AccessStoreProps: the store port (access/store.go) as the class
      [AccessStore] and its SQL implementation (repository/sql_access*.go) on the
      tables of migration 0037.
    - AccessManager: the manager (access/manager.go, acl_write.go, shares.go) over any
      [AccessStore].  AccessInvariant, ManagerProps: its theorems,
      over any store or over the SQL store.
    - Envelope, EnvelopeProps: envelope encryption (storage/encrypt.go, secret.go,
      rewrap.go) with its key ring.
    - Storage: the backend's interface (storage/storage.go) as the class [Storage] with
      the laws [StorageLaws].  LocalStorage, LocalStorageProps: the file-system backend
      (storage/local*.go) on a tree of files and directories.  CircuitBreaker:
      storage/circuitbreaker.go with interleaved requests.
    - Outbox, OutboxProps, Backoff: the event outbox (repository/event_outbox.go).
    - Http: requests, header names, queries, responses (net/http, net/url, strings).  AuthKeys:
      keys, tokens and presigned URLs (auth/auth.go, store.go, jwt.go, presign_put.go,
      principal.go).  SigV4, SigV4Body: signed S3 requests and their bodies
      (auth/sigv4*.go).  AuthRegistry: the key table, its cache and the registry
      (repository/apikeys.go, auth/key_cache.go, key_tenant.go, snaplink.go, auth.go).
      AuthMiddleware: auth/auth_middleware.go and the server's settings
      (cmd/server/auth.go).
    - Limits: rate limiter, concurrency limiters and the reader that limits a body
      (middleware/ratelimit.go, middleware.go, validation.go).  Cors: middleware/cors.go and
      cors_bucket.go.  Chain: the twelve rings as functions on handlers and their
      composition (server/chain.go, middleware/middleware.go, tenant_status.go,
      validation.go).
    - Objects: the object tables (repository/sql_objects*.go,
      sql_legal_holds.go, audit.go), with ObjectsInvariant, ObjectsProps,
      ObjectsListProps.
    - EventPayload, EventPayloadProps, EventLog, EventBoundary, EventRelay,
      EventRelayProps, EventBus, EventBusProps, EventWebhook,
      EventWebhookProps, EventNotifier, EventTransport: src/internal/events with its
      tables (repository/sql_events.go, webhook_failures.go).
    - Repo, RepoProps: the tables of buckets, quotas, tenants, uploads,
      idempotency records and lifecycle queries, gathered with the object tables in the
      database [RepoDB]; RepoProps has the theorems on all the writers of the object tables.
    - Service: the world a request runs in ([World]: clock, faults of calls, fresh ids,
      other randomness), the state [Sys] (repository and blobs), authorization, quota and
      protection steps.  ServiceWrite, ServiceDelete, ServiceRead, ServiceMultipart,
      ServiceBuckets: the operations of src/internal/service over any
      backend of class [Storage].  It also holds the JSON of an object in idempotency
      records.  ServiceSample: a concrete service for the witnesses.  ServiceGate,
      ServiceProtection, ServiceProps: its theorems.
    - Lease: the table of leases and the singleton that gates a job (repository/leases.go,
      cluster/singleton.go).  Reconcile: the scope of a background sweep, protection and
      deletion (reconcile/scope.go, protection.go, deletion.go, chunk_scope.go).
      ReconcileJob: the reconciler, the scrub, retention, lifecycle and the garbage
      collection of uploads (reconcile/job.go, scrub.go, retention.go, lifecycle.go,
      upload_gc.go).  ReconcileProps: their theorems.
    - ByteRange: service/range.go.
    - Jobs, JobsProps: repository/jobs.go and jobs/jobs.go.

    ** What is proved

    - Matching: the policy matcher decides wildcard matching on values without the
      star, both matchers terminate and are sound; where a literal star makes the
      policy matcher miss.
    - Policies: deny overrides; accepted documents are evaluable; a string principal
      grants everyone.  ARNs: parse/print round trip, tenant isolation, normal forms.
    - Decision: the code refines a declarative permission relation; explicit denies
      dominate, tenants are isolated, deletes need an explicit grant, a deny entry
      never grants; the boundary admits exactly on authoritative observations.
    - Store: an invariant of all reachable databases (constraints, valid normalized
      entries, share limits, references); which entries apply to a key by path
      components; department membership as reachability, with termination on cycles;
      no dangling principals after a department is deleted.
    - Spaces: over all interleavings every space keeps an active user admin and its
      history replays to its membership, revision by revision; when a member command
      goes through; one command per revision and per command id; creations read back;
      the binding and coverage probes answer the tables' facts, so that the boundary
      fences exactly the backing buckets; paging loses and repeats nothing.
    - Manager: entries are written with authorization; consuming a share is sound,
      counted and irreversible once revoked; publishing and resolving agree within a
      bucket; three authorization and ordering defects by evaluation.
    - File service: a mutating operation that changes stored data has been granted
      its permission on the row it changes (setting a tenant's quota, which asks for none,
      apart); an object under a hold or a retention date
      survives hard deletes, version deletes and overwrites; what Put stored is what Get
      returns until the row or the blob is written again; accepted metadata is small,
      printable and holds no reserved key.
    - Authentication: a request that carries a key is entitled to its method and pinned to
      the key's tenant, a guarded route needs its scope, and what passes without a key; a
      configured registry is enabled, a broken setting locks it; a revoked key is answered
      no longer than the cache's time to live, whatever the interleaving; tokens and
      presigned URLs round trip and bind what they sign; a request signed as the protocol
      says verifies, equal signatures mean equal requests unless these requests make a hash
      collide, and a reader of a chunked body gets only signed data in order.
    - Middleware: what holds of every request that reaches a handler through the chain; a
      panic is answered and leaves no slot taken; running requests stay within the limits
      under every interleaving; bodies end at their limit; the limiter's state is bounded.
    - Background jobs: a lease excludes other holders until it expires; however often
      retention and lifecycle run, in whatever order, they leave what is under retention or
      legal hold; over a backend whose listing reports no part of another object, the
      sweep of orphan blobs leaves what a row refers to, what is young, what belongs to
      another tenant and everything under a boundary; a purge takes every version of its
      key, which loses an object that was uploaded again.
    - Storage: for keys that name something below its root the backend touches nothing else,
      and two inputs that leave it; what it stored it returns,
      under no, the store's or the customer's key; encryption round trips, across
      rotation; re-wrapping retires a key; a forged sidecar.
    - Objects: an invariant of the tables over every writer; held rows survive all but the
      removal of the hold, the bucket or the tenant; deletes and their facts
      commit together; a restore undoes a delete; paging enumerates.
    - Events: outbox invariant and exclusive leases; a delivery releases its claim unless
      the database refuses its last call; no post without admission; subscribers see a
      gapless stream of their buffer; the bus never panics; retries end after ten attempts
      when the calls that count them succeed.
    - Lifecycle queries: the expired objects are exactly the live ones older than the
      rule of their bucket, and from which number of days the arithmetic overflows.
    - Breaker: counter invariants over all interleavings, opening exactly at the
      threshold, fail-fast while open, what a probe decides, and a wedge.
    - Ranges: the parser equals the range semantics over unbounded numbers, answers
      stay inside the object, and the stream is the slice.
    - Jobs: claim order, attempt budget and exclusivity while leases are respected,
      unique live jobs per key, backoff range, and a run where a stale worker breaks
      the budget.

    ** Bounds and limits of the model

    Fuel appears in the matchers (proved sufficient), in the worklist closure (proved
    sufficient: one iteration per distinct row) and in [department_tree], whose
    UNION ALL has no end on a cycle of parents: one iteration per department is enough
    exactly when there is none, and running out is modelled as the statement not
    answering.  SQL is modelled for SQLite: texts compare by bytes, statements run one
    at a time, keys are valid UTF-8; the spaces store has PostgreSQL's statements and
    errors too.  The clients that follow page cursors take one call per row and one
    more, which is proved enough; a walk of the reconciler over the rows of a bucket takes
    one page per row and one more.  A listing of the backend takes as many pages as the
    argument [rounds] says, and one that does not end by then is an error of the sweep:
    the theorems on sweeps hold for every [rounds].  Run takes the number of ticks before
    its context ends.  RFC 3339 texts cover years 1 to 9999.

    The stores are modelled without failures inside a transaction: a call of the
    repository or the backend fails as a whole, before its effect, as the fault of the
    world says.  Identifiers of inserted rows count up without the gaps that rolled back
    inserts leave on PostgreSQL; counters stay within int64; JSON columns are kept as the
    values they decode to; texts of errors are kept up to the sentinels errors.Is sees.
    The file system has no disk errors and no other process.

    A sweep and the requests it runs beside are not interleaved: a theorem on a sweep is
    about the rows and blobs at its start, every call of which may fail.

    Not modelled: the handlers of the HTTP front ends (decoding, routing and rendering around
    the services), request timeouts, metrics and traces, vendor storage backends and the
    browser login (calls of vendors' SDKs), thumbnails (image libraries), antivirus (an
    external scanner), AI, billing and replication (external services), governance, the
    command line and the server's assembly. *)

From Stdlib Require Import Bool ZArith Lia.
From stdpp Require Import base gmap strings list numbers option.

Declare Scope aero_scope.
Delimit Scope aero_scope with aero.

(** ** Boolean equality of Go strings *)

Notation "a =s b" := (String.eqb a b) (at level 70, no associativity) : aero_scope.
Notation "a <>s b" := (negb (String.eqb a b)) (at level 70, no associativity) : aero_scope.

Open Scope aero_scope.

#[global] Arguments String.append !s1 s2 : simpl nomatch.

Create HintDb aero.
Create Rewrite HintDb aero.

Lemma streqb_true (a b : string) : (a =s b) = true <-> a = b.
Proof. apply String.eqb_eq. Qed.

Lemma streqb_false (a b : string) : (a =s b) = false <-> a <> b.
Proof. apply String.eqb_neq. Qed.

Lemma streqb_refl (a : string) : (a =s a) = true.
Proof. apply String.eqb_refl. Qed.

#[export] Hint Rewrite streqb_true streqb_false streqb_refl
  andb_true_iff andb_false_iff orb_true_iff orb_false_iff
  negb_true_iff negb_false_iff : aero.

(** [slices.Contains] on a []string. *)
Definition contains (l : list string) (x : string) : bool :=
  existsb (String.eqb x) l.

Lemma contains_spec (l : list string) (x : string) :
  contains l x = true <-> x ∈ l.
Proof.
  unfold contains. rewrite existsb_exists. split.
  - intros (y & Hy & Heq). apply String.eqb_eq in Heq. subst.
    by apply list_elem_of_In.
  - intros Hx. exists x. split; [by apply list_elem_of_In|apply String.eqb_refl].
Qed.

Lemma existsb_elem {A} (f : A -> bool) (l : list A) :
  existsb f l = true <-> exists x, x ∈ l /\ f x = true.
Proof.
  rewrite existsb_exists. split; intros (x & Hx & Hf); exists x;
    (split; [by apply list_elem_of_In|done]).
Qed.

Lemma existsb_none {A} (f : A -> bool) (l : list A) :
  existsb f l = false <-> forall x, x ∈ l -> f x = false.
Proof.
  split.
  - intros H x Hx. destruct (f x) eqn:E; [|done].
    assert (existsb f l = true) by (apply existsb_elem; eauto). congruence.
  - intros H. destruct (existsb f l) eqn:E; [|done].
    apply existsb_elem in E as (x & Hx & Hf). rewrite H in Hf; done.
Qed.

Lemma forallb_elem {A} (f : A -> bool) (l : list A) :
  forallb f l = true <-> forall x, x ∈ l -> f x = true.
Proof.
  rewrite forallb_forall. split; intros H x Hx; apply H; by apply list_elem_of_In.
Qed.

Lemma existsb_filter {A} (f g : A -> bool) (l : list A) :
  existsb f (List.filter g l) = existsb (fun x => g x && f x) l.
Proof.
  induction l as [|x l IH]; [done|]. cbn. destruct (g x); cbn; by rewrite IH.
Qed.

(** ** Fallible results: Go's (T, error) pairs whose T is the zero value on error *)

Section Result.
Context {E : Type}.

Inductive res (A : Type) : Type :=
| Ok (a : A)
| Err (e : E).

Definition res_bind {A B} (r : res A) (k : A -> res B) : res B :=
  match r with
  | Ok _ a => k a
  | Err _ e => Err _ e
  end.

Definition is_ok {A} (r : res A) : bool :=
  match r with Ok _ _ => true | Err _ _ => false end.
End Result.
Arguments res : clear implicits.
Arguments Ok {E A} a.
Arguments Err {E A} e.

Notation "'let!' x := r 'in' k" := (res_bind r (fun x => k))
  (at level 10, x name, r at level 100, k at level 200) : aero_scope.
Notation "'check!' r 'in' k" := (res_bind r (fun _ => k))
  (at level 10, r at level 100, k at level 200) : aero_scope.

Lemma res_bind_Ok {E A B} (r : res E A) (k : A -> res E B) b :
  res_bind r k = Ok b -> exists a, r = Ok a /\ k a = Ok b.
Proof. destruct r; cbn; [eauto|done]. Qed.

Lemma res_bind_Err {E A B} (r : res E A) (k : A -> res E B) e :
  res_bind r k = Err e -> r = Err e \/ exists a, r = Ok a /\ k a = Err e.
Proof. destruct r; cbn; [eauto|]. intros [= ->]. by left. Qed.

Lemma is_ok_true {E A} (r : res E A) : is_ok r = true <-> exists a, r = Ok a.
Proof. destruct r; cbn; split; [eauto|done|done|by intros (? & ?)]. Qed.

(** Splits a successful chain of checks into the success of each check. *)
Ltac res_inv :=
  repeat match goal with
  | H : res_bind _ _ = Ok _ |- _ =>
      let a := fresh "v" in let H1 := fresh "Hok" in
      apply res_bind_Ok in H as (a & H1 & H)
  | H : Ok _ = Ok _ |- _ => injection H as H; subst
  | H : Err _ = Ok _ |- _ => discriminate H
  | H : Ok _ = Err _ |- _ => discriminate H
  end.

(** Case analysis on the guards of a handler. *)
Ltac guards :=
  repeat match goal with
  | H : context [if ?b then _ else _] |- _ => destruct b eqn:?; try discriminate
  | H : context [match ?x with _ => _ end] |- _ => destruct x eqn:?; try discriminate
  end.

(** A concrete byte is not among the bytes of a concrete string. *)
Ltac no_byte :=
  vm_compute; let Hc := fresh "Hc" in intros Hc;
  repeat (apply elem_of_cons in Hc as [Hc|Hc]; [discriminate Hc|]);
  by apply not_elem_of_nil in Hc.

Ltac bool_split := autorewrite with aero in *; destruct_and?.

(** ** int64 *)

Definition MinInt64 : Z := - 2 ^ 63.
Definition MaxInt64 : Z := 2 ^ 63 - 1.
Definition int64 (n : Z) : Prop := (MinInt64 <= n <= MaxInt64)%Z.

(** Two's complement wrap-around of a 64-bit result. *)
Definition wrap64 (n : Z) : Z := ((n + 2 ^ 63) mod 2 ^ 64 - 2 ^ 63)%Z.

Lemma wrap64_id (n : Z) : int64 n -> wrap64 n = n.
Proof.
  unfold int64, MinInt64, MaxInt64, wrap64. intros H.
  rewrite Z.mod_small; lia.
Qed.

Lemma wrap64_int64 (n : Z) : int64 (wrap64 n).
Proof.
  unfold int64, MinInt64, MaxInt64, wrap64.
  pose proof (Z.mod_pos_bound (n + 2 ^ 63) (2 ^ 64) eq_refl). lia.
Qed.

(** ** Iterating a loop body with fuel *)

(** [iter_fuel] runs [step] until it answers [inr]; [None] means the fuel ran out. *)
Fixpoint iter_fuel {S R : Type} (step : S -> S + R) (fuel : nat) (s : S) : option R :=
  match fuel with
  | O => None
  | S fuel' =>
      match step s with
      | inl s' => iter_fuel step fuel' s'
      | inr r => Some r
      end
  end.

Lemma iter_fuel_more {S R} (step : S -> S + R) n m s r :
  iter_fuel step n s = Some r -> n <= m -> iter_fuel step m s = Some r.
Proof.
  revert m s. induction n as [|n IH]; intros m s H Hle; [done|].
  destruct m as [|m]; [lia|]. cbn in *. destruct (step s); [|done].
  apply IH; [done|lia].
Qed.

(** A loop whose body decreases a measure under an invariant answers within
    [S (measure s)] iterations, and the answer satisfies the postcondition. *)
Lemma iter_fuel_total {S R} (step : S -> S + R) (Inv : S -> Prop)
    (Post : R -> Prop) (measure : S -> nat) :
  (forall s s', Inv s -> step s = inl s' -> Inv s' /\ measure s' < measure s) ->
  (forall s r, Inv s -> step s = inr r -> Post r) ->
  forall fuel s, Inv s -> measure s < fuel ->
  exists r, iter_fuel step fuel s = Some r /\ Post r.
Proof.
  intros Hstep Hpost fuel. induction fuel as [|fuel IH]; intros s Hinv Hm; [lia|].
  cbn. destruct (step s) as [s'|r] eqn:E.
  - destruct (Hstep _ _ Hinv E) as [Hinv' Hlt]. apply IH; [done|lia].
  - exists r. eauto.
Qed.
