(* ===== verification/GoStrings.v ===== *)
(** * Go's strings package on byte strings

    A Go string is a sequence of bytes; [string] (Stdlib) is one too.  These are
    the functions of package strings (and slicing) the modelled code calls,
    written as the documentation of package strings defines them, with the
    lemmas the components share. *)
From Stdlib Require Import Ascii Lia Bool ZArith String.
From stdpp Require Import base strings list numbers option.
From S2P Require Import Prelude.

(** len(s), an int. *)
Definition len (s : string) : Z := Z.of_nat (String.length s).

(** [s[i:j]] for indices in range. *)
Definition slice (s : string) (i j : nat) : string := String.substring i (j - i) s.

(** [s[i:]] for an index in range. *)
Definition from (s : string) (i : nat) : string := String.substring i (String.length s - i) s.

Definition HasPrefix (s prefix : string) : bool := String.prefix prefix s.

Definition HasSuffix (s suffix : string) : bool :=
  (String.length suffix <=? String.length s) &&
  (from s (String.length s - String.length suffix) =s suffix).

(** strings.TrimSuffix. *)
Definition TrimSuffix (s suffix : string) : string :=
  if HasSuffix s suffix then slice s 0 (String.length s - String.length suffix) else s.

Definition TrimPrefix (s prefix : string) : string :=
  if HasPrefix s prefix then from s (String.length prefix) else s.

(** [strings.IndexByte]: [None] is the source's [-1]. *)
Fixpoint IndexByte (s : string) (c : ascii) : option nat :=
  match s with
  | EmptyString => None
  | String a s' => if Ascii.eqb a c then Some 0 else S <$> IndexByte s' c
  end.

(** [strings.Contains]. *)
Fixpoint Contains (s sub : string) : bool :=
  String.prefix sub s ||
  match s with
  | EmptyString => false
  | String _ s' => Contains s' sub
  end.

(** [strings.ContainsAny]. *)
Fixpoint ContainsAny (s chars : string) : bool :=
  match s with
  | EmptyString => false
  | String a s' => (match IndexByte chars a with Some _ => true | None => false end)
                   || ContainsAny s' chars
  end.

(** [strings.SplitN(s, sep, n)] for a one-byte separator and [n >= 1]: at most
    [n] pieces, the last one unsplit. *)
Fixpoint SplitN (s : string) (sep : ascii) (n : nat) : list string :=
  match n with
  | 0 => []
  | 1 => [s]
  | S n' =>
      match IndexByte s sep with
      | None => [s]
      | Some i => slice s 0 i :: SplitN (from s (i + 1)) sep n'
      end
  end.

(** [strings.Split(s, sep)] for a one-byte separator. *)
Definition Split (s : string) (sep : ascii) : list string :=
  SplitN s sep (String.length s + 1).

(** [strings.Join]. *)
Fixpoint Join (l : list string) (sep : string) : string :=
  match l with
  | [] => EmptyString
  | [x] => x
  | x :: l' => (x ++ sep ++ Join l' sep)%string
  end.

(** Dropping leading and trailing bytes that satisfy a test. *)
Fixpoint trim_left (f : ascii -> bool) (s : string) : string :=
  match s with
  | EmptyString => EmptyString
  | String a s' => if f a then trim_left f s' else s
  end.

Fixpoint trim_right (f : ascii -> bool) (s : string) : string :=
  match s with
  | EmptyString => EmptyString
  | String a s' =>
      match trim_right f s' with
      | EmptyString => if f a then EmptyString else String a EmptyString
      | t => String a t
      end
  end.

(** [strings.Trim] with an ASCII cutset. *)
Definition Trim (s cutset : string) : string :=
  let f a := match IndexByte cutset a with Some _ => true | None => false end in
  trim_right f (trim_left f s).

Definition byte_val (a : ascii) : Z := Z.of_nat (nat_of_ascii a).

Lemma byte_val_range a : (0 <= byte_val a < 256)%Z.
Proof. unfold byte_val. pose proof (nat_ascii_bounded a). lia. Qed.

(** The UTF-8 encodings of the runes [unicode.IsSpace] accepts, by length. *)
Definition space1 (a : ascii) : bool :=
  let x := byte_val a in ((9 <=? x) && (x <=? 13) || (x =? 32))%Z.

Definition space2 (a b : ascii) : bool :=
  let x := byte_val a in let y := byte_val b in ((x =? 194) && ((y =? 133) || (y =? 160)))%Z.

Definition space3 (a b c : ascii) : bool :=
  let x := byte_val a in let y := byte_val b in let z := byte_val c in
  ((x =? 225) && (y =? 154) && (z =? 128) ||
   (x =? 226) && (y =? 128) && ((128 <=? z) && (z <=? 138) || (z =? 168) || (z =? 169) || (z =? 175)) ||
   (x =? 226) && (y =? 129) && (z =? 159) ||
   (x =? 227) && (y =? 128) && (z =? 128))%Z.

(** Drops leading whitespace; [back] reads the bytes of a reversed string. *)
Fixpoint skip_spaces (back : bool) (l : list ascii) : list ascii :=
  match l with
  | a :: l1 =>
      if space1 a then skip_spaces back l1
      else match l1 with
      | b :: l2 =>
          if (if back then space2 b a else space2 a b) then skip_spaces back l2
          else match l2 with
          | c :: l3 => if (if back then space3 c b a else space3 a b c)
                       then skip_spaces back l3 else l
          | [] => l
          end
      | [] => l
      end
  | [] => []
  end.

(** [strings.TrimSpace]; UTF-8 is self-synchronizing, so scanning backwards meets the
    same whitespace runes. *)
Definition TrimSpace (s : string) : string :=
  String.string_of_list_ascii
    (rev (skip_spaces true (rev (skip_spaces false (String.list_ascii_of_string s))))).

(** ** Lemmas *)

Lemma string_app_assoc (a b c : string) : ((a ++ b) ++ c = a ++ b ++ c)%string.
Proof. induction a; cbn; congruence. Qed.

Lemma string_app_nil (a : string) : (a ++ "" = a)%string.
Proof. induction a; cbn; congruence. Qed.

Lemma string_length_app (a b : string) :
  String.length (a ++ b)%string = String.length a + String.length b.
Proof. induction a; cbn; congruence. Qed.

Lemma len_app a b : (len (a ++ b) = len a + len b)%Z.
Proof. unfold len. rewrite string_length_app. lia. Qed.

Lemma len_nonneg s : (0 <= len s)%Z.
Proof. unfold len. lia. Qed.

Lemma len_0 s : (len s <= 0)%Z -> s = ""%string.
Proof. destruct s; [done|]. unfold len. cbn. lia. Qed.

Lemma substring_full (s : string) : String.substring 0 (String.length s) s = s.
Proof. induction s; cbn; congruence. Qed.

Lemma from_app (a b : string) : from (a ++ b)%string (String.length a) = b.
Proof.
  unfold from. rewrite string_length_app.
  replace (String.length a + String.length b - String.length a) with (String.length b) by lia.
  induction a; cbn; [apply substring_full|done].
Qed.

Lemma HasPrefix_spec (s p : string) :
  HasPrefix s p = true <-> exists t, s = (p ++ t)%string.
Proof.
  unfold HasPrefix. revert s. induction p as [|a p IH]; intros s; cbn.
  - split; [intros _; by exists s|by destruct s].
  - destruct s as [|b s]; [split; [done|intros [t Ht]; discriminate Ht]|].
    cbn. destruct (ascii_dec a b) as [->|Hne].
    + rewrite IH. split; intros [t Ht]; exists t; congruence.
    + split; [done|]. intros [t [= ? _]]. congruence.
Qed.

Lemma HasPrefix_app (p t : string) : HasPrefix (p ++ t)%string p = true.
Proof. apply HasPrefix_spec. eauto. Qed.

Lemma TrimPrefix_app (p t : string) : TrimPrefix (p ++ t)%string p = t.
Proof. unfold TrimPrefix. by rewrite HasPrefix_app, from_app. Qed.

Lemma HasSuffix_spec (s p : string) :
  HasSuffix s p = true <-> exists t, s = (t ++ p)%string.
Proof.
  unfold HasSuffix. rewrite andb_true_iff, Nat.leb_le, streqb_true. split.
  - intros [Hl Hf]. exists (String.substring 0 (String.length s - String.length p) s).
    rewrite <- Hf at 2. unfold from.
    generalize (String.length s - String.length p) as n. clear.
    intros n. revert n. induction s as [|a s IH]; intros n; [by destruct n|].
    destruct n as [|n]; cbn; [by rewrite substring_full|]. by rewrite <- IH.
  - intros [t ->]. rewrite string_length_app. split; [lia|].
    replace (String.length t + String.length p - String.length p) with (String.length t) by lia.
    apply from_app.
Qed.

Lemma IndexByte_None (s : string) (c : ascii) :
  IndexByte s c = None <-> c ∉ String.list_ascii_of_string s.
Proof.
  induction s as [|a s IH]; cbn; [by split; [intros _; apply not_elem_of_nil|]|].
  rewrite not_elem_of_cons. destruct (Ascii.eqb_spec a c) as [->|Hne].
  - split; [done|]. by intros [? _].
  - rewrite fmap_None, IH. split; [|tauto]. intros ?. split; [congruence|done].
Qed.

Lemma IndexByte_app (x rest : string) (c : ascii) :
  c ∉ String.list_ascii_of_string x ->
  IndexByte (x ++ String c rest)%string c = Some (String.length x).
Proof.
  induction x as [|a x IH]; cbn; intros Hx; [by rewrite Ascii.eqb_refl|].
  apply not_elem_of_cons in Hx as [Hne Hx].
  destruct (Ascii.eqb_spec a c) as [->|_]; [done|]. by rewrite IH.
Qed.

Lemma slice_app (x y : string) : slice (x ++ y)%string 0 (String.length x) = x.
Proof. unfold slice. rewrite Nat.sub_0_r. induction x; cbn; [by destruct y|congruence]. Qed.

Lemma string_split (s : string) n : (n <= String.length s)%nat -> exists a b, s = (a ++ b)%string /\ String.length a = n.
Proof.
  revert s. induction n as [|n IH]; intros s Hn; [by exists "", s|]. destruct s as [|c s]; [cbn in Hn; lia|].
  destruct (IH s) as (a & b & -> & Ha); [cbn in Hn; lia|]. exists (String c a), b. cbn. by rewrite Ha.
Qed.

Lemma from_app_sep (x rest : string) (c : ascii) :
  from (x ++ String c rest)%string (String.length x + 1) = rest.
Proof.
  change (x ++ String c rest)%string with (x ++ (String c "" ++ rest))%string.
  rewrite <- string_app_assoc.
  replace (String.length x + 1) with (String.length (x ++ String c "")%string)
    by by rewrite string_length_app.
  apply from_app.
Qed.

Lemma IndexByte_Some (s : string) (c : ascii) (i : nat) :
  IndexByte s c = Some i ->
  s = (slice s 0 i ++ String c (from s (i + 1)))%string /\
  c ∉ String.list_ascii_of_string (slice s 0 i) /\ String.length (slice s 0 i) = i.
Proof.
  intros H.
  assert (exists x rest, s = (x ++ String c rest)%string /\
      c ∉ String.list_ascii_of_string x /\ String.length x = i) as (x & rest & -> & Hx & <-).
  { revert i H. induction s as [|a s IH]; cbn; intros i H; [done|].
    destruct (Ascii.eqb_spec a c) as [->|Hne].
    - simplify_eq. exists EmptyString, s. repeat split. apply not_elem_of_nil.
    - apply fmap_Some in H as (k & Hk & ->). destruct (IH _ Hk) as (x & rest & -> & Hx & <-).
      exists (String a x), rest. repeat split. cbn. apply not_elem_of_cons. by split. }
  by rewrite slice_app, from_app_sep.
Qed.

(** ** Splitting and joining *)

Lemma SplitN_step (s : string) (sep : ascii) (n : nat) :
  1 <= n -> SplitN s sep (S n) =
  match IndexByte s sep with
  | None => [s]
  | Some i => slice s 0 i :: SplitN (from s (i + 1)) sep n
  end.
Proof. by destruct n; [lia|]. Qed.

Lemma SplitN_nosep (s : string) (sep : ascii) (n : nat) :
  1 <= n -> sep ∉ String.list_ascii_of_string s -> SplitN s sep n = [s].
Proof.
  intros Hn Hs. destruct n as [|[|n]]; [lia|done|]. cbn.
  apply IndexByte_None in Hs. by rewrite Hs.
Qed.

Lemma SplitN_sep (x rest : string) (sep : ascii) (n : nat) :
  1 <= n -> sep ∉ String.list_ascii_of_string x ->
  SplitN (x ++ String sep rest)%string sep (S n) = x :: SplitN rest sep n.
Proof.
  intros Hn Hx. rewrite SplitN_step by done.
  by rewrite IndexByte_app, slice_app, from_app_sep.
Qed.

Lemma SplitN_nonempty (s : string) (sep : ascii) (n : nat) : 1 <= n -> SplitN s sep n <> [].
Proof. destruct n as [|[|n]]; [lia|done|]. intros _. cbn. by destruct (IndexByte s sep). Qed.

Lemma Join_cons (x : string) (l : list string) (sep : string) :
  l <> [] -> Join (x :: l) sep = (x ++ sep ++ Join l sep)%string.
Proof. by destruct l. Qed.

Lemma SplitN_join (s : string) (sep : ascii) (n : nat) :
  1 <= n -> Join (SplitN s sep n) (String sep "") = s.
Proof.
  revert s. induction n as [|n IHn]; intros s Hn; [lia|].
  destruct (decide (n = 0)) as [->|]; [done|]. rewrite SplitN_step by lia.
  destruct (IndexByte s sep) as [i|] eqn:E; [|done].
  apply IndexByte_Some in E as (Hs & _ & _).
  rewrite Join_cons by (apply SplitN_nonempty; lia). rewrite IHn by lia. cbn. by rewrite <- Hs.
Qed.

Lemma SplitN_length (s : string) (sep : ascii) (n : nat) : length (SplitN s sep n) <= n.
Proof.
  revert s. induction n as [|n IHn]; intros s; [done|].
  destruct (decide (n = 0)) as [->|]; [done|]. rewrite SplitN_step by lia.
  destruct (IndexByte s sep) as [i|]; cbn; [specialize (IHn (from s (i + 1)))|]; lia.
Qed.

Lemma SplitN_Join (l : list string) (sep : ascii) (n : nat) :
  l <> [] -> length l <= n -> Forall (fun x => sep ∉ String.list_ascii_of_string x) l ->
  SplitN (Join l (String sep "")) sep n = l.
Proof.
  revert n. induction l as [|x l IH]; [done|]. intros n _ Hn [Hx Hl]%list.Forall_cons. cbn in Hn.
  destruct l as [|y l]; [by apply SplitN_nosep|]. rewrite Join_cons by done. destruct n as [|n]; [lia|].
  cbn [String.append]. rewrite SplitN_sep by (cbn in *; lia || done). f_equal. apply IH; [done|lia|done].
Qed.

Lemma Join_length (l : list string) (a : ascii) : length l <= String.length (Join l (String a "")) + 1.
Proof.
  induction l as [|x l IH]; [cbn; lia|]. destruct l as [|y l]; [cbn; lia|].
  rewrite Join_cons by done. rewrite !string_length_app. cbn [length] in *. cbn [String.length]. lia.
Qed.

Lemma Split_Join (l : list string) (sep : ascii) :
  l <> [] -> Forall (fun x => sep ∉ String.list_ascii_of_string x) l -> Split (Join l (String sep "")) sep = l.
Proof. intros Hl Hf. apply SplitN_Join; [done|apply Join_length|done]. Qed.

Lemma Join_Split (s : string) (sep : ascii) : Join (Split s sep) (String sep "") = s.
Proof. apply SplitN_join. lia. Qed.

Lemma SplitN_elems (s : string) (sep : ascii) (n : nat) :
  String.length s < n -> Forall (fun x => sep ∉ String.list_ascii_of_string x) (SplitN s sep n).
Proof.
  revert s. induction n as [|n IHn]; intros s Hn; [lia|]. destruct (decide (n = 0)) as [->|].
  - destruct s; [|cbn in Hn; lia]. repeat constructor. apply not_elem_of_nil.
  - rewrite SplitN_step by lia. destruct (IndexByte s sep) as [i|] eqn:E.
    + apply IndexByte_Some in E as (Hs & Hi & Hl). constructor; [done|]. apply IHn.
      assert (String.length s = i + S (String.length (from s (i + 1)))) as Hlen by
        (rewrite Hs at 1; rewrite string_length_app, Hl; done). lia.
    + constructor; [by apply IndexByte_None|constructor].
Qed.

Lemma Split_elems (s : string) (sep : ascii) :
  Forall (fun x => sep ∉ String.list_ascii_of_string x) (Split s sep).
Proof. apply SplitN_elems. lia. Qed.

Lemma Split_nonempty (s : string) (sep : ascii) : Split s sep <> [].
Proof. apply SplitN_nonempty. lia. Qed.

(** ** Trimming *)

Fixpoint all_bytes (p : ascii -> bool) (s : string) : bool :=
  match s with
  | EmptyString => true
  | String a rest => p a && all_bytes p rest
  end.

(** A byte that is no whitespace and part of none. *)
Definition plain (a : ascii) : bool := ((byte_val a <? 128) && negb (space1 a))%Z.

Lemma skip_spaces_plain back a l : plain a = true -> skip_spaces back (a :: l) = a :: l.
Proof.
  unfold plain. intros [Ha Hs]%andb_true_iff. apply negb_true_iff in Hs. cbn. rewrite Hs.
  assert (forall b, space2 b a = false /\ space2 a b = false) as H2.
  { intros b. unfold space2. split; apply not_true_is_false; lia. }
  assert (forall b c, space3 c b a = false /\ space3 a b c = false) as H3.
  { intros b c. unfold space3. split; apply not_true_is_false; lia. }
  destruct l as [|b [|c l]]; [done|..]; destruct back;
    rewrite ?(proj1 (H2 b)), ?(proj2 (H2 b)), ?(proj1 (H3 b c)), ?(proj2 (H3 b c)); done.
Qed.

Lemma all_bytes_app p s t : all_bytes p (s ++ t)%string = all_bytes p s && all_bytes p t.
Proof. induction s as [|a s IH]; [done|]. cbn. by rewrite IH, andb_assoc. Qed.

Lemma all_bytes_list p s : all_bytes p s = forallb p (String.list_ascii_of_string s).
Proof. induction s as [|a s IH]; [done|]. cbn. by rewrite IH. Qed.

Lemma TrimSpace_plain s : all_bytes plain s = true -> TrimSpace s = s.
Proof.
  intros Hp. unfold TrimSpace. rewrite all_bytes_list in Hp.
  assert (forall back l, forallb plain l = true -> skip_spaces back l = l) as Hskip.
  { intros back [|a l]; [by destruct back|]. cbn [forallb]. intros [Ha _]%andb_true_iff.
    by apply skip_spaces_plain. }
  rewrite (Hskip false) by done. rewrite (Hskip true), rev_involutive; [apply String.string_of_list_ascii_of_string|].
  rewrite forallb_forall in *. intros x Hx. apply Hp. by apply in_rev.
Qed.

Definition head_plain (l : list ascii) : Prop := match l with [] => True | a :: _ => plain a = true end.

Lemma skip_spaces_head back l : head_plain l -> skip_spaces back l = l.
Proof. destruct l as [|a l]; [by destruct back|]. apply skip_spaces_plain. Qed.

Lemma TrimSpace_ends s :
  head_plain (String.list_ascii_of_string s) -> head_plain (rev (String.list_ascii_of_string s)) -> TrimSpace s = s.
Proof.
  intros Hh Ht. unfold TrimSpace. rewrite !skip_spaces_head by (done || by rewrite skip_spaces_head).
  rewrite rev_involutive. apply String.string_of_list_ascii_of_string.
Qed.

Lemma TrimSpace_space s : TrimSpace (String " " s) = TrimSpace s.
Proof. done. Qed.

(** * UTF-8 (package unicode/utf8) and rune classes

    Strings are byte strings; [runes] decodes one, [None] when it is not valid UTF-8.
    [DecodeRune] reads the first rune of a byte sequence. *)
#[local] Open Scope Z_scope.

Definition in_range (lo hi b : Z) : bool := (lo <=? b) && (b <=? hi).
Definition cont (b : Z) : bool := in_range 128 191 b.

(** Decoding; [None] when [utf8.ValidString] is false. *)
Fixpoint decode (bs : list Z) : option (list Z) :=
  match bs with
  | [] => Some []
  | b0 :: r0 =>
      if b0 <? 128 then (cons b0) <$> decode r0
      else match r0 with
      | b1 :: r1 =>
          if in_range 194 223 b0 then
            if cont b1 then (cons ((b0 - 192) * 64 + (b1 - 128))) <$> decode r1 else None
          else match r1 with
          | b2 :: r2 =>
              if in_range 224 239 b0 then
                let lo := if b0 =? 224 then 160 else 128 in
                let hi := if b0 =? 237 then 159 else 191 in
                if in_range lo hi b1 && cont b2 then
                  (cons ((b0 - 224) * 4096 + (b1 - 128) * 64 + (b2 - 128))) <$> decode r2
                else None
              else match r2 with
              | b3 :: r3 =>
                  let lo := if b0 =? 240 then 144 else 128 in
                  let hi := if b0 =? 244 then 143 else 191 in
                  if in_range 240 244 b0 && in_range lo hi b1 && cont b2 && cont b3 then
                    (cons ((b0 - 240) * 262144 + (b1 - 128) * 4096 + (b2 - 128) * 64 + (b3 - 128)))
                      <$> decode r3
                  else None
              | [] => None
              end
          | [] => None
          end
      | [] => None
      end
  end.

Definition runes (s : string) : option (list Z) :=
  decode (map byte_val (String.list_ascii_of_string s)).

Definition utf8_ValidString (s : string) : bool :=
  match runes s with Some _ => true | None => false end.

(** [unicode.IsControl]. *)
Definition IsControl (r : Z) : bool := in_range 0 31 r || in_range 127 159 r.

(** [unicode.IsSpace]. *)
Definition IsSpace (r : Z) : bool :=
  in_range 9 13 r || (r =? 32) || (r =? 133) || (r =? 160) || (r =? 5760) ||
  in_range 8192 8202 r || (r =? 8232) || (r =? 8233) || (r =? 8239) || (r =? 8287) || (r =? 12288).

(** ** One rune (utf8.DecodeRune) *)

(** The first rune and its width; [None] when the bytes do not start with a valid
    encoding (RuneError of width 1). *)
Definition DecodeRune (bs : list Z) : option (Z * nat) :=
  match bs with
  | [] => None
  | b0 :: r0 =>
      if b0 <? 128 then Some (b0, 1%nat)
      else match r0 with
      | b1 :: r1 =>
          if in_range 194 223 b0 then
            if cont b1 then Some ((b0 - 192) * 64 + (b1 - 128), 2%nat) else None
          else match r1 with
          | b2 :: r2 =>
              if in_range 224 239 b0 then
                let lo := if b0 =? 224 then 160 else 128 in
                let hi := if b0 =? 237 then 159 else 191 in
                if in_range lo hi b1 && cont b2 then
                  Some ((b0 - 224) * 4096 + (b1 - 128) * 64 + (b2 - 128), 3%nat)
                else None
              else match r2 with
              | b3 :: _ =>
                  let lo := if b0 =? 240 then 144 else 128 in
                  let hi := if b0 =? 244 then 143 else 191 in
                  if in_range 240 244 b0 && in_range lo hi b1 && cont b2 && cont b3 then
                    Some ((b0 - 240) * 262144 + (b1 - 128) * 4096 + (b2 - 128) * 64 + (b3 - 128), 4%nat)
                  else None
              | [] => None
              end
          | [] => None
          end
      | [] => None
      end
  end.

(** utf8.EncodeRune; a surrogate or a number above 0x10FFFF encodes as U+FFFD. *)
Definition EncodeRune (c : Z) : list Z :=
  let trail k := 128 + (c / 64 ^ k) mod 64 in
  if in_range 0 127 c then [c]
  else if in_range 128 2047 c then [192 + c / 64; trail 0]
  else if in_range 55296 57343 c || negb (in_range 0 1114111 c) then [239; 191; 189]
  else if c <=? 65535 then [224 + c / 4096; trail 1; trail 0]
  else [240 + c / 262144; trail 2; trail 1; trail 0].

Ltac rune_cases :=
  repeat match goal with
  | H : Some _ = Some _ |- _ => injection H as <- <-
  | H : context [match ?l with [] => _ | _ :: _ => _ end] |- _ => is_var l; destruct l; try discriminate
  | H : context [if ?c then _ else _] |- _ => destruct c eqn:?; try discriminate
  end.

(** Decoding a string rune by rune. *)
Lemma decode_step b r :
  decode (b :: r) = match DecodeRune (b :: r) with
                    | Some (c, w) => cons c <$> decode (drop w (b :: r))
                    | None => None
                    end.
Proof.
  unfold DecodeRune. cbn [decode]. destruct (b <? 128); [done|].
  destruct r as [|b1 [|b2 [|b3 r]]]; cbn; try done;
    repeat (match goal with |- context [if ?c then _ else _] => destruct c end; try done).
Qed.

(** A rune depends on its own bytes only. *)
Lemma DecodeRune_prefix bs c w rest :
  DecodeRune bs = Some (c, w) ->
  (1 <= w <= 4)%nat /\ (w <= length bs)%nat /\ DecodeRune (take w bs ++ rest) = Some (c, w).
Proof.
  intros H. unfold DecodeRune in H. destruct bs as [|b0 r]; [done|].
  rune_cases; cbn; repeat match goal with H : _ = true |- _ => rewrite H | H : _ = false |- _ => rewrite H end;
    repeat split; try lia; done.
Qed.

Lemma DecodeRune_ascii b r : (b <? 128) = true -> DecodeRune (b :: r) = Some (b, 1%nat).
Proof. intros H. cbn. by rewrite H. Qed.
