(* ===== verification/Wildcard.v ===== *)
(** * Wildcard matchers and resource names

    [wildcardMatch] (src/internal/auth/policy.go) matches policy resources and
    [matchGlob] (src/internal/auth/arn.go) matches ARN resources.  Both are the
    same backtracking loop over two indices; they differ in the test that lets a
    pattern byte consume a value byte.  The loop is modelled once, as a step on
    the four loop variables, over the abstract test [lit].

    The reference meaning of a pattern is [glob_spec]: a star stands for any
    sequence of bytes.  The theorems: the loop always answers within a quadratic
    number of iterations; a positive answer is always right; and the answer is
    exactly [glob_spec] on every value without a literal star byte. *)
From Stdlib Require Import Ascii Lia Bool.
From stdpp Require Import base strings list numbers.
From S2P Require Import Prelude GoStrings.

Definition star_byte : ascii := "*".
Definition question_byte : ascii := "?".

(** The loop variables; [g_star] is [None] for the source's [-1]. *)
Record gstate := GState {
  g_px : nat;            (* patternIndex / px *)
  g_sx : nat;            (* valueIndex / sx *)
  g_star : option nat;   (* starIndex / star *)
  g_match : nat          (* retryIndex / match *)
}.

Section Loop.
(** [lit pc c]: the pattern byte [pc] consumes the value byte [c]. *)
Variable lit : ascii -> ascii -> bool.
Variables (p s : list ascii).

(** One iteration of [for sx < len(s)]; [inr None] is [return false] and
    [inr (Some px)] leaves the loop with the pattern index [px]. *)
Definition glob_step (st : gstate) : gstate + option nat :=
  match s !! g_sx st with
  | None => inr (Some (g_px st))
  | Some c =>
      let on_mismatch :=
        match g_star st with
        | None => inr None
        | Some star =>
            inl (GState (star + 1) (g_match st + 1) (Some star) (g_match st + 1))
        end in
      match p !! g_px st with
      | None => on_mismatch
      | Some pc =>
          if lit pc c then
            inl (GState (g_px st + 1) (g_sx st + 1) (g_star st) (g_match st))
          else if Ascii.eqb pc star_byte then
            inl (GState (g_px st + 1) (g_sx st) (Some (g_px st)) (g_sx st))
          else on_mismatch
      end
  end.

(** [for px < len(p) && p[px] == '*' { px++ }; return px == len(p)]. *)
Fixpoint trailing_stars (fuel px : nat) : bool :=
  match fuel with
  | O => px =? length p
  | S fuel' =>
      match p !! px with
      | Some c => if Ascii.eqb c star_byte then trailing_stars fuel' (px + 1)
                  else px =? length p
      | None => px =? length p
      end
  end.

Definition glob_fuel : nat := (length p + length s + 2) * (length s + 2).

(** The whole function; [None] would mean the fuel ran out. *)
Definition glob_run : option bool :=
  match iter_fuel glob_step glob_fuel (GState 0 0 None 0) with
  | Some None => Some false
  | Some (Some px) => Some (trailing_stars (length p) px)
  | None => None
  end.
End Loop.

Definition wildcard_lit (pc c : ascii) : bool := Ascii.eqb pc c.
Definition glob_lit (pc c : ascii) : bool := Ascii.eqb pc question_byte || Ascii.eqb pc c.

Definition wildcardMatch (pattern value : string) : bool :=
  default false (glob_run wildcard_lit (String.list_ascii_of_string pattern) (String.list_ascii_of_string value)).

Definition matchGlob (pattern s : string) : bool :=
  default false (glob_run glob_lit (String.list_ascii_of_string pattern) (String.list_ascii_of_string s)).

(** ** Reference meaning *)

Section Spec.
Variable lit : ascii -> ascii -> bool.

Inductive glob_spec : list ascii -> list ascii -> Prop :=
| glob_nil : glob_spec [] []
| glob_star_skip p s : glob_spec p s -> glob_spec (star_byte :: p) s
| glob_star_eat p c s : glob_spec (star_byte :: p) s -> glob_spec (star_byte :: p) (c :: s)
| glob_lit_eat pc p c s :
    pc <> star_byte -> lit pc c = true -> glob_spec p s -> glob_spec (pc :: p) (c :: s).

Hint Constructors glob_spec : core.

Lemma glob_star_drop p s k :
  glob_spec (star_byte :: p) (drop k s) -> glob_spec (star_byte :: p) s.
Proof. revert s. induction k; intros [|c s] H; cbn in *; auto. Qed.

Lemma glob_star_split p s :
  glob_spec (star_byte :: p) s <-> exists k, glob_spec p (drop k s).
Proof.
  split.
  - intros H. remember (star_byte :: p) as q eqn:Hq. induction H; simplify_eq.
    + by exists 0.
    + destruct IHglob_spec as [k Hk]; [done|]. by exists (S k).
  - intros [k Hk]. apply (glob_star_drop _ _ k). auto.
Qed.

Lemma glob_nil_l s : glob_spec [] s -> s = [].
Proof. by inversion 1. Qed.

Lemma glob_lit_inv pc p s :
  pc <> star_byte -> glob_spec (pc :: p) s ->
  exists c s', s = c :: s' /\ lit pc c = true /\ glob_spec p s'.
Proof. intros Hne H. inversion H; simplify_eq. eauto. Qed.

(** A star-free segment of the pattern consumes as many bytes as it has. *)
Lemma glob_seg_inv seg p s :
  star_byte ∉ seg -> glob_spec (seg ++ p) s -> glob_spec p (drop (length seg) s).
Proof.
  revert s. induction seg as [|pc seg IH]; intros s Hn H; cbn in *; [by rewrite drop_0|].
  apply not_elem_of_cons in Hn as [Hpc Hn].
  apply glob_lit_inv in H as (c & s' & -> & _ & H); [|done]. cbn. auto.
Qed.

Lemma glob_seg_len seg p s :
  star_byte ∉ seg -> glob_spec (seg ++ p) s -> length seg <= length s.
Proof.
  revert s. induction seg as [|pc seg IH]; intros s Hn H; cbn in *; [lia|].
  apply not_elem_of_cons in Hn as [Hpc Hn].
  apply glob_lit_inv in H as (c & s' & -> & _ & H); [|done].
  apply IH in H; [cbn; lia|done].
Qed.

Lemma glob_all_stars p : glob_spec p [] <-> Forall (eq star_byte) p.
Proof.
  induction p as [|c p IH]; [by split; auto|].
  rewrite List.Forall_cons_iff, <- IH. split.
  - inversion 1; simplify_eq; auto.
  - intros [<- H]. auto.
Qed.
End Spec.

(** ** Correctness of the loop *)

Section Correct.
Variable lit : ascii -> ascii -> bool.
Variables (p s : list ascii).

Abbreviation step := (glob_step lit p s).
Abbreviation spec := (glob_spec lit).

(** The cases of one iteration. *)
Inductive gview (px sx : nat) (star : option nat) (mt : nat) : gstate + option nat -> Prop :=
| view_exit :
    s !! sx = None -> gview px sx star mt (inr (Some px))
| view_lit pc c :
    s !! sx = Some c -> p !! px = Some pc -> lit pc c = true ->
    gview px sx star mt (inl (GState (px + 1) (sx + 1) star mt))
| view_star c :
    s !! sx = Some c -> p !! px = Some star_byte -> lit star_byte c = false ->
    gview px sx star mt (inl (GState (px + 1) sx (Some px) sx))
| view_back c k :
    s !! sx = Some c -> star = Some k -> ~ spec (drop px p) (drop sx s) ->
    gview px sx star mt (inl (GState (k + 1) (mt + 1) (Some k) (mt + 1)))
| view_refuse c :
    s !! sx = Some c -> star = None -> ~ spec (drop px p) (drop sx s) ->
    gview px sx star mt (inr None).

Lemma glob_step_view px sx star mt :
  gview px sx star mt (step (GState px sx star mt)).
Proof.
  unfold glob_step; cbn. destruct (s !! sx) as [c|] eqn:Es; [|by constructor].
  destruct (p !! px) as [pc|] eqn:Ep.
  - destruct (lit pc c) eqn:El; [by econstructor|].
    destruct (Ascii.eqb_spec pc star_byte) as [->|Hne]; [by econstructor|].
    assert (~ spec (drop px p) (drop sx s)).
    { erewrite (drop_S p), (drop_S s) by eassumption.
      intros (? & ? & [= <- <-] & ? & _)%glob_lit_inv; congruence. }
    destruct star; by econstructor.
  - assert (~ spec (drop px p) (drop sx s)).
    { erewrite (drop_S s) by eassumption.
      rewrite drop_ge by (by apply lookup_ge_None). by intros ?%glob_nil_l. }
    destruct star; by econstructor.
Qed.

Definition g_measure (st : gstate) : nat :=
  let stars := match g_star st with None => 0 | Some k => k + 1 end in
  (length p + length s + 1 - stars - g_match st) * (length s + 2) + (length s + 1 - g_sx st).

(** Bounds of the loop variables. *)
Definition g_bounds (st : gstate) : Prop :=
  g_px st <= length p /\ g_sx st <= length s /\ g_match st <= g_sx st /\
  match g_star st with
  | None => g_match st = 0 /\ g_px st = g_sx st
  | Some k => k < g_px st
  end.

Lemma g_bounds_step st st' :
  g_bounds st -> step st = inl st' -> g_bounds st' /\ g_measure st' < g_measure st.
Proof.
  destruct st as [px sx star mt]. intros Hb Hs.
  pose proof (glob_step_view px sx star mt) as Hv. rewrite Hs in Hv.
  unfold g_bounds, g_measure in *. inversion Hv; subst; cbn in *;
    repeat match goal with
    | H : _ !! _ = Some _ |- _ => apply lookup_lt_Some in H
    end; try destruct star; split; try lia; nia.
Qed.

(** The segment of the pattern matched since the last star. *)
Definition g_seg (st : gstate) : Prop :=
  match g_star st with
  | None => True
  | Some k => exists seg,
      drop (k + 1) p = seg ++ drop (g_px st) p /\
      length seg = g_sx st - g_match st /\ star_byte ∉ seg
  end.

(** What the remaining run has still to decide. *)
Definition g_open (st : gstate) : Prop :=
  spec (drop (g_px st) p) (drop (g_sx st) s) \/
  match g_star st with
  | None => False
  | Some k => exists j, g_match st < j /\ j <= length s /\ spec (drop (k + 1) p) (drop j s)
  end.

(** Every answer the rest of the run can give was already open. *)
Lemma g_open_back st st' : g_bounds st -> step st = inl st' -> g_open st' -> g_open st.
Proof.
  destruct st as [px sx star mt]. intros Hb Hs.
  pose proof (glob_step_view px sx star mt) as Hv. rewrite Hs in Hv.
  unfold g_bounds, g_open in *.
  inversion Hv as [|pc c Es Ep El|c Es Ep El|c k Es -> Hno|]; subst; cbn in *;
    rewrite ?Nat.add_1_r in *; destruct_and!.
  - intros [Ho|Ho]; [left|by right].
    erewrite (drop_S p), (drop_S s) by eassumption.
    destruct (decide (pc = star_byte)) as [->|]; by repeat constructor.
  - intros Ho. left. erewrite (drop_S p) by eassumption.
    destruct Ho as [Ho|(j & Hj & Hlen & Ho)]; [by constructor|].
    apply (glob_star_drop _ _ _ (j - sx)). rewrite drop_drop.
    replace (sx + (j - sx)) with j by lia. by constructor.
  - apply lookup_lt_Some in Es.
    intros [Ho|(j & Hj & Hlen & Ho)]; right; [exists (S mt)|exists j]; repeat split; (done || lia).
Qed.

(** Conversely nothing is lost, as long as a star of the pattern is never
    consumed as a literal. *)
Hypothesis no_lit_star : forall c, c ∈ s -> lit star_byte c = false.

Lemma lit_not_star pc c i : s !! i = Some c -> lit pc c = true -> pc <> star_byte.
Proof.
  intros Hi Hl ->. rewrite no_lit_star in Hl; [done|]. apply list_elem_of_lookup. eauto.
Qed.

Lemma g_seg_step st st' :
  g_bounds st -> g_seg st -> step st = inl st' -> g_seg st'.
Proof.
  destruct st as [px sx star mt]. intros Hb Hseg Hs.
  pose proof (glob_step_view px sx star mt) as Hv. rewrite Hs in Hv.
  unfold g_bounds, g_seg in *.
  inversion Hv as [|pc c Es Ep El|c Es Ep El|c k Es -> Hno|]; subst; cbn in *.
  - destruct star as [k|]; [|done]. destruct Hseg as (seg & Hd & Hlen & Hns).
    exists (seg ++ [pc]). rewrite <- app_assoc, length_app, elem_of_app, list_elem_of_singleton.
    cbn. rewrite (drop_S p pc px) in Hd by done. rewrite (Nat.add_1_r px).
    pose proof (lit_not_star _ _ _ Es El).
    repeat split; [done|lia|]. intros [?|?]; [by apply Hns|congruence].
  - exists []. rewrite Nat.sub_diag. repeat split; [done..|apply not_elem_of_nil].
  - exists []. rewrite Nat.sub_diag. repeat split; [done..|apply not_elem_of_nil].
Qed.

Lemma g_open_fwd st st' :
  g_bounds st -> g_seg st -> step st = inl st' -> g_open st -> g_open st'.
Proof.
  destruct st as [px sx star mt]. intros Hb Hseg Hs.
  pose proof (glob_step_view px sx star mt) as Hv. rewrite Hs in Hv.
  unfold g_bounds, g_seg, g_open in *.
  inversion Hv as [|pc c Es Ep El|c Es Ep El|c k Es -> Hno|]; subst; cbn in *;
    rewrite ?Nat.add_1_r in *; destruct_and!.
  - intros [Ho|Ho]; [left|by right]. erewrite (drop_S p), (drop_S s) in Ho by eassumption.
    apply glob_lit_inv in Ho as (? & ? & [= <- <-] & _ & Ho); [done|].
    by eapply lit_not_star.
  - intros Ho. assert (spec (star_byte :: drop (S px) p) (drop sx s)) as Hst.
    { erewrite (drop_S p) in Ho by eassumption.
      destruct Ho as [Ho|Ho]; [done|]. destruct star as [k|]; [|done].
      destruct Ho as (j & Hj & Hlen & Ho). destruct Hseg as (seg & Hd & Hl & Hns).
      rewrite Nat.add_1_r in *. rewrite (drop_S p star_byte px) in Hd by done. rewrite Hd in Ho.
      apply glob_seg_inv in Ho; [|done]. rewrite drop_drop in Ho.
      apply (glob_star_drop _ _ _ (j + length seg - sx)). rewrite drop_drop.
      by replace (sx + (j + length seg - sx)) with (j + length seg) by lia. }
    apply glob_star_split in Hst as [k Hk]. rewrite drop_drop in Hk.
    destruct k as [|k]; [left; by rewrite Nat.add_0_r in Hk|right].
    exists (min (length s) (sx + S k)). apply lookup_lt_Some in Es.
    repeat split; [lia|lia|].
    destruct (decide (sx + S k <= length s)); [by rewrite Nat.min_r by lia|].
    rewrite Nat.min_l by lia. rewrite (drop_ge s (length s)) by lia.
    by rewrite (drop_ge s) in Hk by lia.
  - intros [Ho|(j & Hj & Hlen & Ho)]; [done|].
    destruct (decide (j = S mt)) as [->|]; [by left|right].
    exists j. repeat split; (done || lia).
Qed.
End Correct.

(** The trailing loop accepts exactly the patterns that end in stars only. *)
Lemma trailing_stars_spec p fuel px :
  px <= length p -> length p <= fuel + px ->
  trailing_stars p fuel px = true <-> Forall (eq star_byte) (drop px p).
Proof.
  revert px. induction fuel as [|fuel IH]; intros px Hpx Hf; cbn.
  - rewrite drop_ge by lia. rewrite Nat.eqb_eq. split; [done|lia].
  - destruct (p !! px) as [c|] eqn:E.
    + erewrite drop_S by eassumption. rewrite List.Forall_cons_iff.
      apply lookup_lt_Some in E.
      destruct (Ascii.eqb_spec c star_byte) as [->|Hne].
      * rewrite Nat.add_1_r, IH by lia. tauto.
      * rewrite Nat.eqb_eq. split; [lia|]. intros [? _]. congruence.
    + apply lookup_ge_None in E. rewrite drop_ge, Nat.eqb_eq by done.
      split; [done|lia].
Qed.

Section Run.
Variable lit : ascii -> ascii -> bool.
Variables (p s : list ascii).

Abbreviation spec := (glob_spec lit).

Lemma g_init_bounds : g_bounds p s (GState 0 0 None 0).
Proof. repeat split; cbn; lia. Qed.

Lemma g_init_fuel : g_measure p s (GState 0 0 None 0) < glob_fuel p s.
Proof. unfold g_measure, glob_fuel. cbn. nia. Qed.

Lemma g_init_open : g_open lit p s (GState 0 0 None 0) <-> spec p s.
Proof. unfold g_open. cbn. tauto. Qed.

(** The loop answers within [glob_fuel] iterations, whatever the strings. *)
Lemma glob_run_total : exists b, glob_run lit p s = Some b.
Proof.
  unfold glob_run.
  destruct (iter_fuel_total (glob_step lit p s) (g_bounds p s) (fun _ => True) (g_measure p s)
    ltac:(intros; by eapply g_bounds_step) ltac:(done) (glob_fuel p s) _
    g_init_bounds g_init_fuel) as ([px|] & -> & _); eauto.
Qed.

(** Leaving the loop at [px] means the rest of the pattern must match nothing. *)
Lemma g_exit_sound st px :
  g_bounds p s st -> glob_step lit p s st = inr (Some px) ->
  px <= length p /\ (trailing_stars p (length p) px = true -> g_open lit p s st).
Proof.
  destruct st as [qx sx star mt]. intros Hb Hs.
  pose proof (glob_step_view lit p s qx sx star mt) as Hv. rewrite Hs in Hv.
  unfold g_bounds in Hb. inversion Hv as [Es| | | |]; subst; cbn in *.
  apply lookup_ge_None in Es. split; [lia|].
  rewrite trailing_stars_spec, <- (glob_all_stars lit) by lia.
  intros H. left. cbn. by rewrite (drop_ge s) by lia.
Qed.

Lemma glob_run_sound : glob_run lit p s = Some true -> spec p s.
Proof.
  unfold glob_run.
  destruct (iter_fuel_total (glob_step lit p s)
    (fun st => g_bounds p s st /\ (g_open lit p s st -> spec p s))
    (fun r => forall px, r = Some px -> trailing_stars p (length p) px = true -> spec p s)
    (g_measure p s)) with (fuel := glob_fuel p s) (s := GState 0 0 None 0)
    as ([px|] & -> & Hpost).
  - intros st st' [Hb Ho] Hs. destruct (g_bounds_step _ _ _ _ _ Hb Hs) as [Hb' Hm].
    repeat split; [by apply Hb'..| |done]. intros H. apply Ho. by eapply g_open_back.
  - intros st r [Hb Ho] Hs px ->. destruct (g_exit_sound _ _ Hb Hs) as [_ H]. auto.
  - split; [apply g_init_bounds|apply g_init_open].
  - apply g_init_fuel.
  - intros [= H]. eauto.
  - done.
Qed.

Lemma g_exit_complete st r :
  g_bounds p s st -> g_seg p st -> glob_step lit p s st = inr r -> g_open lit p s st ->
  exists px, r = Some px /\ trailing_stars p (length p) px = true.
Proof.
  destruct st as [qx sx star mt]. intros Hb Hseg Hs Ho.
  pose proof (glob_step_view lit p s qx sx star mt) as Hv. rewrite Hs in Hv.
  unfold g_bounds, g_seg, g_open in *. inversion Hv as [Es| | | |c Es ? Hno]; subst; cbn in *.
  - exists qx. split; [done|]. apply lookup_ge_None in Es.
    rewrite trailing_stars_spec, <- (glob_all_stars lit) by lia.
    destruct Ho as [Ho|Ho]; [by rewrite (drop_ge s) in Ho by lia|].
    destruct star as [k|]; [|done]. destruct Ho as (j & Hj & Hl & Ho).
    destruct Hseg as (seg & Hd & Hlen & Hns). rewrite Hd in Ho.
    apply glob_seg_len in Ho; [|done]. rewrite length_drop in Ho. lia.
  - by destruct Ho.
Qed.

Lemma glob_run_complete :
  (forall c, c ∈ s -> lit star_byte c = false) ->
  spec p s -> glob_run lit p s = Some true.
Proof.
  intros Hns Hspec. unfold glob_run.
  destruct (iter_fuel_total (glob_step lit p s)
    (fun st => g_bounds p s st /\ g_seg p st /\ g_open lit p s st)
    (fun r => exists px, r = Some px /\ trailing_stars p (length p) px = true)
    (g_measure p s)) with (fuel := glob_fuel p s) (s := GState 0 0 None 0)
    as (r & -> & px & -> & ->); [| | |apply g_init_fuel|done].
  - intros st st' (Hb & Hg & Ho) Hs. destruct (g_bounds_step _ _ _ _ _ Hb Hs) as [Hb' Hm].
    split; [|done]. split; [done|].
    split; eauto using g_seg_step, g_open_fwd.
  - intros st r (Hb & Hg & Ho) Hs. by eapply g_exit_complete.
  - split; [apply g_init_bounds|]. split; [done|by apply g_init_open].
Qed.
End Run.

(** ** The two matchers *)

Definition bytes (x : string) : list ascii := String.list_ascii_of_string x.

(** IAM wildcards and ARN globs, as relations on strings. *)
Definition wildcard_matches (pattern value : string) : Prop :=
  glob_spec wildcard_lit (bytes pattern) (bytes value).
Definition glob_matches (pattern value : string) : Prop :=
  glob_spec glob_lit (bytes pattern) (bytes value).

Lemma wildcardMatch_sound pattern value :
  wildcardMatch pattern value = true -> wildcard_matches pattern value.
Proof.
  unfold wildcardMatch, wildcard_matches, bytes. intros H. apply glob_run_sound.
  by destruct (glob_run_total wildcard_lit (String.list_ascii_of_string pattern)
    (String.list_ascii_of_string value)) as [[] Hb]; rewrite Hb in *.
Qed.

Lemma wildcardMatch_complete pattern value :
  star_byte ∉ bytes value -> wildcard_matches pattern value -> wildcardMatch pattern value = true.
Proof.
  intros Hn H. unfold wildcardMatch. rewrite glob_run_complete; [done| |done].
  intros c Hc. unfold wildcard_lit. apply Ascii.eqb_neq. by intros <-.
Qed.

Lemma matchGlob_sound pattern value :
  matchGlob pattern value = true -> glob_matches pattern value.
Proof.
  unfold matchGlob, glob_matches, bytes. intros H. apply glob_run_sound.
  by destruct (glob_run_total glob_lit (String.list_ascii_of_string pattern)
    (String.list_ascii_of_string value)) as [[] Hb]; rewrite Hb in *.
Qed.

Lemma matchGlob_complete pattern value :
  star_byte ∉ bytes value -> glob_matches pattern value -> matchGlob pattern value = true.
Proof.
  intros Hn H. unfold matchGlob. rewrite glob_run_complete; [done| |done].
  intros c Hc. change (Ascii.eqb star_byte c = false). apply Ascii.eqb_neq. by intros <-.
Qed.

(** ** A pattern never matches a longer string that begins with the pattern itself *)

Lemma refuse_extension_loop lit p s k :
  (forall a, lit a a = true) -> (forall i, i < length p -> s !! i = p !! i) ->
  length p < length s ->
  forall i fuel, i + k = length p -> k < fuel ->
  iter_fuel (glob_step lit p s) fuel (GState i i None 0) = Some None.
Proof.
  intros Hrefl Hpre Hlen. induction k as [|k IH]; intros i fuel Hi Hf;
    (destruct fuel as [|fuel]; [lia|]); cbn.
  - destruct (lookup_lt_is_Some_2 s i ltac:(lia)) as [c Hc]. unfold glob_step. cbn.
    rewrite Hc. assert (p !! i = None) as -> by (apply lookup_ge_None; lia). done.
  - destruct (lookup_lt_is_Some_2 p i ltac:(lia)) as [c Hc].
    unfold glob_step at 1. cbn. rewrite Hpre, Hc, Hrefl by lia. apply IH; lia.
Qed.

Lemma glob_run_refuses_extension lit p c rest :
  (forall a, lit a a = true) -> glob_run lit p (p ++ c :: rest) = Some false.
Proof.
  intros Hrefl. unfold glob_run.
  rewrite (refuse_extension_loop lit p (p ++ c :: rest) (length p)); try done.
  - intros i Hi. by rewrite lookup_app_l.
  - rewrite length_app. cbn. lia.
  - unfold glob_fuel. rewrite length_app. cbn. nia.
Qed.

Lemma bytes_app (a b : string) : bytes (a ++ b)%string = bytes a ++ bytes b.
Proof. induction a as [|c a IH]; cbn; [done|]. unfold bytes in *. by rewrite IH. Qed.

Lemma glob_spec_refl_prefix lit p q s :
  (forall a, lit a a = true) -> glob_spec lit q s -> glob_spec lit (p ++ q) (p ++ s).
Proof.
  intros Hrefl Hq. induction p as [|a p IH]; cbn; [done|].
  destruct (decide (a = star_byte)) as [->|].
  - by apply glob_star_eat, glob_star_skip.
  - by apply glob_lit_eat.
Qed.

Lemma glob_star_all lit s : glob_spec lit [star_byte] s.
Proof. induction s; [apply glob_star_skip, glob_nil|by apply glob_star_eat]. Qed.

(** C12: [wildcardMatch] decides IAM wildcard matching on every value that has no
    star byte of its own: it answers true exactly when the pattern's stars can be
    replaced by byte sequences to give the value. *)
Theorem wildcardMatch_correct pattern value :
  star_byte ∉ bytes value ->
  wildcardMatch pattern value = true <-> wildcard_matches pattern value.
Proof.
  split; [apply wildcardMatch_sound|by apply wildcardMatch_complete].
Qed.

Lemma wildcardMatch_correct_witness :
  wildcard_matches "arn:aws:s3:::b/*/x" "arn:aws:s3:::b/k/y/x".
Proof.
  apply (wildcardMatch_correct "arn:aws:s3:::b/*/x" "arn:aws:s3:::b/k/y/x").
  - no_byte.
  - vm_compute. reflexivity.
Defined.

(** Both matchers answer within [glob_fuel] iterations, quadratic in the lengths,
    for all strings, and a positive answer is always justified by the reference
    meaning, star bytes in the value included. *)
Theorem matchers_terminate_and_are_sound lit p s :
  exists b, glob_run lit p s = Some b /\ (b = true -> glob_spec lit p s).
Proof.
  destruct (glob_run_total lit p s) as [b Hb]. exists b. split; [done|].
  intros ->. by apply glob_run_sound.
Qed.

(** A value that contains the pattern's own bytes as a proper prefix is always
    refused, so a resource pattern ending in a star does not cover the keys that
    begin with a literal star, although the reference meaning covers them. *)
Theorem wildcardMatch_misses_star_keys prefix c rest :
  wildcard_matches (prefix ++ "*") ((prefix ++ "*") ++ String c rest)%string /\
  wildcardMatch (prefix ++ "*") ((prefix ++ "*") ++ String c rest)%string = false.
Proof.
  split.
  - unfold wildcard_matches. rewrite !bytes_app, <- (app_assoc (bytes prefix)).
    apply glob_spec_refl_prefix; [intros a; apply Ascii.eqb_refl|apply glob_star_all].
  - unfold wildcardMatch. change (String.list_ascii_of_string) with bytes.
    rewrite (bytes_app (prefix ++ "*") (String c rest)).
    change (bytes (String c rest)) with (c :: bytes rest).
    rewrite glob_run_refuses_extension; [done|]. intros a. apply Ascii.eqb_refl.
Qed.

(** ** Resource names (src/internal/auth/arn.go)

    Parsing, printing and matching of ARNs.  Errors of [ParseARN] carry no data the
    callers use, so a failed parse is [None]. *)
Record ARN := {
  Partition : string;
  Service : string;
  Region : string;
  Account : string;
  ARNResource : string
}.

Definition ParseARN (s : string) : option ARN :=
  match SplitN s ":" 6 with
  | p0 :: p1 :: p2 :: p3 :: p4 :: ((_ :: _) as resourceParts) =>
      if (p0 <>s "arn") then None
      else Some {| Partition := p1; Service := p2; Region := p3; Account := p4;
                   ARNResource := Join resourceParts ":" |}
  | _ => None
  end.

Definition MatchARN (pattern arn : string) : bool :=
  match ParseARN pattern, ParseARN arn with
  | Some p, Some a =>
      if (Partition p <>s Partition a) then false
      else if (Service p <>s "*") && (Service p <>s Service a) then false
      else if (Region p <>s "*") && (Region p <>s Region a) then false
      else if (Account p <>s "*") && (Account p <>s Account a) then false
      else matchGlob (ARNResource p) (ARNResource a)
  | _, _ => false
  end.

Definition MatchARNList (patterns : list string) (arn : string) : bool :=
  existsb (fun pattern => MatchARN pattern arn) patterns.

Definition IsARN (s : string) : bool := HasPrefix s "arn:".

Definition ResourceARNFromParts (tenant bucket key : string) : string :=
  if (key =s "") then ("arn:aero:bucket:*:" ++ tenant ++ ":" ++ bucket)%string
  else ("arn:aero:bucket:*:" ++ tenant ++ ":" ++ bucket ++ "/" ++ key)%string.

Definition NormalizeARN (s : string) : string :=
  if HasPrefix s "arn:" then s
  else match SplitN s "/" 3 with
  | p0 :: p1 :: rest =>
      ("arn:aero:bucket:*:" ++ p0 ++ ":" ++ p1 ++ "/" ++ Join rest "/")%string
  | _ => ("arn:aero:bucket:*:" ++ "default" ++ ":" ++ s)%string
  end.

(** The textual form the parser reads. *)
Definition print_arn (a : ARN) : string :=
  ("arn:" ++ Partition a ++ ":" ++ Service a ++ ":" ++ Region a ++ ":" ++ Account a ++ ":" ++
   ARNResource a)%string.

(** The fields before the resource hold no colon. *)
Definition plain_arn (a : ARN) : Prop :=
  Forall (fun f => ":"%char ∉ bytes f) [Partition a; Service a; Region a; Account a].

Lemma parse_print_arn a : plain_arn a -> ParseARN (print_arn a) = Some a.
Proof.
  intros Hp. unfold plain_arn in Hp. rewrite !List.Forall_cons_iff in Hp. destruct_and!.
  unfold ParseARN, print_arn.
  change ("arn:" ++ ?x)%string with ("arn" ++ String ":" x)%string.
  repeat change (":" ++ ?x)%string with (String ":" x).
  rewrite !SplitN_sep by (first [lia | assumption |
    no_byte]).
  by destruct a.
Qed.

Lemma print_parse_arn s a : ParseARN s = Some a -> s = print_arn a /\ plain_arn a.
Proof.
  unfold ParseARN. intros H.
  pose proof (SplitN_join s ":" 6 ltac:(lia)) as Hj.
  pose proof (SplitN_length s ":" 6) as Hl.
  destruct (SplitN s ":" 6) as [|p0 [|p1 [|p2 [|p3 [|p4 [|p5 rest]]]]]] eqn:E; try done.
  destruct rest; [|cbn in Hl; lia].
  destruct (String.eqb_spec p0 "arn") as [->|]; [|done]. cbn in H. simplify_eq.
  split; [done|].
  assert (forall t (x y : string) n, 1 <= n -> forall l, SplitN t ":" (S n) = x :: y :: l ->
    ":"%char ∉ bytes x /\ exists t', SplitN t' ":" n = y :: l) as Hstep.
  { intros t x y n Hn l Ht. rewrite SplitN_step in Ht by done.
    destruct (IndexByte t ":") eqn:Ei; simplify_eq.
    apply IndexByte_Some in Ei as (_ & Hx & _). eauto. }
  do 5 (apply Hstep in E as [? [? E]]; [|lia]).
  unfold plain_arn. cbn. by repeat constructor.
Qed.

(** ARN parsing and printing are inverse: a string parses to [a] exactly when it is
    the printed form of [a] and none of the four fields before the resource has a
    colon. *)
Theorem ParseARN_roundtrip s a : ParseARN s = Some a <-> s = print_arn a /\ plain_arn a.
Proof.
  split; [apply print_parse_arn|]. intros [-> H]. by apply parse_print_arn.
Qed.

Lemma ResourceARN_print tenant bucket key :
  ResourceARNFromParts tenant bucket key =
  print_arn {| Partition := "aero"; Service := "bucket"; Region := "*"; Account := tenant;
     ARNResource := if (key =s "") then bucket else (bucket ++ "/" ++ key)%string |}.
Proof. unfold ResourceARNFromParts, print_arn. by destruct (key =s ""). Qed.

Lemma ResourceARN_parse tenant bucket key :
  ":"%char ∉ bytes tenant ->
  ParseARN (ResourceARNFromParts tenant bucket key) =
  Some {| Partition := "aero"; Service := "bucket"; Region := "*"; Account := tenant;
     ARNResource := if (key =s "") then bucket else (bucket ++ "/" ++ key)%string |}.
Proof.
  intros Ht. rewrite ResourceARN_print. apply parse_print_arn. unfold plain_arn. cbn.
  repeat constructor; try done; no_byte.
Qed.

(** A pattern whose account is a literal tenant never matches the resource of
    another tenant, and what it matches lies under the pattern's resource glob. *)
Theorem MatchARN_tenant_isolation pattern p tenant bucket key :
  ":"%char ∉ bytes tenant ->
  ParseARN pattern = Some p -> Account p <> "*"%string ->
  MatchARN pattern (ResourceARNFromParts tenant bucket key) = true ->
  Account p = tenant /\
  glob_matches (ARNResource p) (if (key =s "") then bucket else (bucket ++ "/" ++ key)%string).
Proof.
  intros Ht Hp Hne. unfold MatchARN. rewrite Hp, ResourceARN_parse by done. cbn.
  intros H. destruct (Account p =s tenant) eqn:Ea.
  - apply String.eqb_eq in Ea. split; [done|]. apply matchGlob_sound. guards; done.
  - apply String.eqb_neq in Hne. rewrite Hne in H. cbn in H. guards.
Qed.

Lemma MatchARN_tenant_isolation_witness :
  glob_matches "photos/*" "photos/2026/a.jpg".
Proof.
  apply (MatchARN_tenant_isolation "arn:aero:bucket:*:acme:photos/*"
    {| Partition := "aero"; Service := "bucket"; Region := "*"; Account := "acme";
       ARNResource := "photos/*" |} "acme" "photos" "2026/a.jpg").
  - no_byte.
  - reflexivity.
  - discriminate.
  - vm_compute. reflexivity.
Defined.

(** [NormalizeARN] gives the ARN of [ResourceARNFromParts] on tenant/bucket/key
    paths, but on a bare tenant/bucket path it appends a slash that the ARN of the
    bucket itself does not have. *)
Theorem NormalizeARN_paths tenant bucket key :
  "/"%char ∉ bytes tenant -> "/"%char ∉ bytes bucket -> key <> ""%string ->
  IsARN (tenant ++ "/" ++ bucket)%string = false ->
  IsARN (tenant ++ "/" ++ bucket ++ "/" ++ key)%string = false ->
  NormalizeARN (tenant ++ "/" ++ bucket ++ "/" ++ key)%string =
    ResourceARNFromParts tenant bucket key /\
  NormalizeARN (tenant ++ "/" ++ bucket)%string =
    (ResourceARNFromParts tenant bucket "" ++ "/")%string.
Proof.
  intros Ht Hb Hk H1 H2. unfold NormalizeARN, IsARN in *. rewrite H1, H2.
  repeat change ("/" ++ ?x)%string with (String "/" x).
  rewrite !SplitN_sep by (done || lia). rewrite (SplitN_nosep bucket) by (done || lia). cbn -[HasPrefix].
  unfold ResourceARNFromParts. apply String.eqb_neq in Hk. rewrite Hk. cbn.
  split; [done|]. by rewrite !string_app_assoc.
Qed.

Lemma NormalizeARN_paths_witness :
  NormalizeARN "acme/photos" = "arn:aero:bucket:*:acme:photos/"%string /\
  MatchARN (NormalizeARN "acme/photos") (ResourceARNFromParts "acme" "photos" "") = false.
Proof.
  split; [|vm_compute; reflexivity].
  apply (NormalizeARN_paths "acme" "photos" "k"); try reflexivity; try discriminate;
    no_byte.
Defined.
