(* ===== verification/GoPath.v ===== *)
(** * Slash-separated paths (packages path and path/filepath on Unix)

    [Clean] and [path_Join] as documented: empty and "." elements go, ".." takes the
    element before it, and goes itself at the root.  [elements] are the elements Clean
    keeps of a path.

    [elements_Clean]: a path without ".." elements is cleaned by dropping its empty and
    "." elements, and nothing else. *)

From Stdlib Require Import Ascii Lia Bool ZArith String.
From stdpp Require Import base strings list numbers option.
From S2P Require Import Prelude GoStrings.

#[local] Open Scope string_scope.

Definition slash : ascii := "/"%char.

(** strings.Split(s, "/"). *)
Fixpoint split_slash (s : string) : list string :=
  match s with
  | "" => [""]
  | String a r =>
      if (a =? slash)%char then "" :: split_slash r
      else match split_slash r with
           | x :: l => String a x :: l
           | [] => [String a ""]
           end
  end.

(** The elements read so far, the last one first. *)
Fixpoint clean_elems (rooted : bool) (stack segs : list string) : list string :=
  match segs with
  | [] => rev stack
  | s :: rest =>
      if (s =s "") || (s =s ".") then clean_elems rooted stack rest
      else if (s =s "..") then
        match stack with
        | top :: below => if (top =s "..") then clean_elems rooted (s :: stack) rest else clean_elems rooted below rest
        | [] => clean_elems rooted (if rooted then [] else [s]) rest
        end
      else clean_elems rooted (s :: stack) rest
  end.

Definition rooted (p : string) : bool := HasPrefix p "/".

Definition elements (p : string) : list string := clean_elems (rooted p) [] (split_slash p).

Definition Clean (p : string) : string :=
  if (p =s "") then "."
  else if rooted p then "/" ++ Join (elements p) "/"
  else match elements p with [] => "." | l => Join l "/" end.

(** path.Join: empty elements are ignored. *)
Definition path_Join (elems : list string) : string :=
  match List.filter (fun e => e <>s "") elems with
  | [] => ""
  | l => Clean (Join l "/")
  end.

(** ** Elements *)

(** An element that Clean keeps where it is. *)
Definition kept (s : string) : bool := negb ((s =s "") || (s =s ".")).

Definition no_slash (s : string) : Prop := Forall (fun a => a <> slash) (String.list_ascii_of_string s).

(** A name that is one path element. *)
Definition element (s : string) : Prop := s <> "" /\ s <> "." /\ s <> ".." /\ no_slash s.

Lemma split_nonempty s : split_slash s <> [].
Proof. destruct s as [|a s]; [done|]. cbn. destruct (_ =? _)%char; [done|]. by destruct (split_slash s). Qed.

Lemma split_app a b : split_slash (a ++ "/" ++ b) = (split_slash a ++ split_slash b)%list.
Proof.
  induction a as [|x a IH]; [done|]. change (split_slash (String x (a ++ "/" ++ b)) = (split_slash (String x a) ++ split_slash b)%list).
  cbn [split_slash]. rewrite IH. destruct (x =? slash)%char; [done|].
  pose proof (split_nonempty a). by destruct (split_slash a).
Qed.

Lemma split_no_slash s : no_slash s -> split_slash s = [s].
Proof.
  unfold no_slash. induction s as [|a s IH]; [done|]. cbn. intros [Ha Hs]%list.Forall_cons. rewrite IH by done.
  by rewrite (proj2 (Ascii.eqb_neq a slash)) by done.
Qed.

Lemma split_elems_no_slash s : Forall no_slash (split_slash s).
Proof.
  induction s as [|a s IH]; [by repeat constructor|]. cbn [split_slash]. destruct (Ascii.eqb_spec a slash).
  - constructor; [constructor|done].
  - destruct (split_slash s) as [|x l]; [by repeat constructor|]. apply list.Forall_cons in IH as [Hx Hl].
    constructor; [|done]. unfold no_slash in *. cbn. by constructor.
Qed.

Lemma split_Join l : l <> [] -> Forall no_slash l -> split_slash (Join l "/") = l.
Proof.
  induction l as [|x l IH]; [done|]. intros _ [Hx Hl]%list.Forall_cons. destruct l as [|y l]; [by apply split_no_slash|].
  rewrite Join_cons by done. rewrite split_app, split_no_slash by done. cbn. f_equal. by apply IH.
Qed.

Lemma Join_inj l k : Forall no_slash l -> Forall no_slash k -> l <> [] -> k <> [] -> Join l "/" = Join k "/" -> l = k.
Proof. intros Hl Hk Hne Hne' He. rewrite <- (split_Join l), <- (split_Join k) by done. by rewrite He. Qed.

Lemma clean_filter r segs stack :
  Forall (fun s => s <> "..") segs -> clean_elems r stack segs = (rev stack ++ List.filter kept segs)%list.
Proof.
  intros Hs. revert stack. induction Hs as [|s segs Hs _ IH]; intros stack; [by rewrite app_nil_r|]. cbn [clean_elems List.filter].
  unfold kept at 1. destruct ((s =s "") || (s =s ".")) eqn:E; cbn [negb]; [apply IH|].
  rewrite (proj2 (streqb_false _ _) Hs). rewrite IH. cbn [rev]. by rewrite <- app_assoc.
Qed.

Lemma elements_filter p : Forall (fun s => s <> "..") (split_slash p) -> elements p = List.filter kept (split_slash p).
Proof. intros H. unfold elements. by rewrite clean_filter. Qed.

Lemma elements_no_slash p : Forall (fun s => s <> "..") (split_slash p) -> Forall no_slash (elements p).
Proof.
  intros H. rewrite elements_filter by done. apply list.Forall_forall. intros x Hx.
  apply list_elem_of_In, filter_In in Hx as [Hx _]. pose proof (split_elems_no_slash p) as Hall.
  rewrite list.Forall_forall in Hall. apply Hall. by apply list_elem_of_In.
Qed.

Lemma element_kept s : element s -> kept s = true.
Proof.
  intros (H1 & H2 & _). unfold kept. by rewrite (proj2 (streqb_false _ _) H1), (proj2 (streqb_false _ _) H2).
Qed.

(** ** ".." as a substring *)

Lemma Contains_app a b sub : Contains b sub = true -> Contains (a ++ b) sub = true.
Proof.
  intros Hb. induction a as [|x a IH]; [done|]. change (Contains (String x (a ++ b)) sub = true).
  cbn [Contains]. rewrite IH. by destruct (String.prefix sub (String x (a ++ b))).
Qed.

Lemma Contains_prefix a sub : HasPrefix a sub = true -> Contains a sub = true.
Proof. unfold HasPrefix. destruct a; cbn; [by intros ->|]. by intros ->. Qed.

Lemma split_elem_Contains s e : e ∈ split_slash s -> Contains s e = true.
Proof.
  assert (forall s, match split_slash s with x :: l => HasPrefix s x = true /\ forall e, e ∈ l -> Contains s e = true | [] => False end) as H.
  { clear. induction s as [|a s IH]; [cbn; split; [done|]; by intros e ?%not_elem_of_nil|]. cbn [split_slash].
    destruct (split_slash s) as [|x l] eqn:E; [done|]. destruct IH as [Hx Hl].
    destruct (Ascii.eqb_spec a slash) as [->|Hne].
    - split; [done|]. intros e [->|He]%elem_of_cons.
      + apply (Contains_app "/" s x). by apply Contains_prefix.
      + apply (Contains_app "/" s e). by apply Hl.
    - split; [unfold HasPrefix in *; cbn; by destruct (ascii_dec a a)|]. intros e He. apply (Contains_app (String a "") s e). by apply Hl. }
  specialize (H s). destruct (split_slash s) as [|x l]; [done|]. destruct H as [Hx Hl].
  intros [->|He]%elem_of_cons; [by apply Contains_prefix|by apply Hl].
Qed.

Lemma no_dotdot_elems s : Contains s ".." = false -> Forall (fun e => e <> "..") (split_slash s).
Proof. intros Hs. apply list.Forall_forall. intros e He ->. apply split_elem_Contains in He. congruence. Qed.

Lemma elements_Clean p :
  p <> "" -> rooted p = false -> Contains p ".." = false -> elements p <> [] -> split_slash (Clean p) = elements p.
Proof.
  intros Hp Hr Hd He. unfold Clean. rewrite (proj2 (streqb_false _ _) Hp), Hr.
  destruct (elements p) as [|x l] eqn:E; [done|]. rewrite <- E. apply split_Join; [by rewrite E|].
  by apply elements_no_slash, no_dotdot_elems.
Qed.
