(* ===== verification/Json.v ===== *)
(** * JSON texts (package encoding/json as the code uses it)

    [parse] reads a JSON text into its syntax tree the way encoding/json's scanner and
    literal decoder do: RFC 8259 with white space, at most 10000 nested arrays and
    objects, escapes (surrogate pairs included), and U+FFFD for a lone surrogate or an
    invalid UTF-8 byte.  Members keep their order and repetitions; the targets decide
    what a repetition means.  [Unmarshal_map] decodes into a map[string]any and
    [Unmarshal_struct] with [assigned] and the field decoders into a struct, with
    encoding/json's field matching (exact, else case-folded).  [marshal] is the compact
    text of [json.Marshal], HTML escapes included.

    [parse_marshal] is the round trip. *)

From Stdlib Require Import Ascii Lia Bool ZArith String.
From stdpp Require Import base strings list numbers option pretty.
From S2P Require Import Prelude GoStrings.

#[local] Open Scope Z_scope.

(** A JSON value; a number is kept as its literal. *)
Inductive jvalue :=
| JNull
| JBool (b : bool)
| JNum (literal : string)
| JString (s : string)
| JArray (l : list jvalue)
| JObject (o : list (string * jvalue)).

(** ** Characters *)

Definition chars (s : string) : list ascii := String.list_ascii_of_string s.
Definition text (l : list ascii) : string := String.string_of_list_ascii l.
Definition char (n : nat) : ascii := ascii_of_nat n.
Definition quot : ascii := char 34.
Definition backslash : ascii := char 92.
Definition is_char (n : Z) (a : ascii) : bool := byte_val a =? n.

(** space, tab, line feed, carriage return *)
Definition is_ws (a : ascii) : bool :=
  is_char 32 a || is_char 9 a || is_char 10 a || is_char 13 a.

Fixpoint skip_ws (l : list ascii) : list ascii :=
  match l with
  | a :: r => if is_ws a then skip_ws r else l
  | [] => []
  end.

Definition is_digit (a : ascii) : bool := in_range 48 57 (byte_val a).

(** ** Strings *)

Definition hex_val (a : ascii) : option Z :=
  let b := byte_val a in
  if in_range 48 57 b then Some (b - 48)
  else if in_range 97 102 b then Some (b - 87)
  else if in_range 65 70 b then Some (b - 55)
  else None.

Definition hex4 (l : list ascii) : option (Z * list ascii) :=
  match l with
  | a :: b :: c :: d :: rest =>
      match hex_val a, hex_val b, hex_val c, hex_val d with
      | Some x, Some y, Some z, Some w => Some (x * 4096 + y * 256 + z * 16 + w, rest)
      | _, _, _, _ => None
      end
  | _ => None
  end.

Definition is_surrogate (c : Z) : bool := in_range 55296 57343 c.

(** utf16.DecodeRune on a high and a low surrogate. *)
Definition surrogate_pair (hi lo : Z) : option Z :=
  if in_range 55296 56319 hi && in_range 56320 57343 lo
  then Some ((hi - 55296) * 1024 + (lo - 56320) + 65536) else None.

Definition rune_chars (c : Z) : list ascii := map (fun b => char (Z.to_nat b)) (EncodeRune c).

Inductive str_step :=
| StrEnd (rest : list ascii)
| StrEmit (out rest : list ascii)
| StrErr.

(** After \u: the four digits, and a second escape when they start a pair. *)
Definition unicode_step (l : list ascii) : str_step :=
  match hex4 l with
  | None => StrErr
  | Some (c, rest) =>
      if is_surrogate c then
        match rest with
        | e :: u :: rest' =>
            if is_char 92 e && is_char 117 u then
              match hex4 rest' with
              | Some (c', rest'') =>
                  match surrogate_pair c c' with
                  | Some r => StrEmit (rune_chars r) rest''
                  | None => StrEmit (rune_chars 65533) rest
                  end
              | None => StrEmit (rune_chars 65533) rest
              end
            else StrEmit (rune_chars 65533) rest
        | _ => StrEmit (rune_chars 65533) rest
        end
      else StrEmit (rune_chars c) rest
  end.

Definition escape_step (l : list ascii) : str_step :=
  match l with
  | [] => StrErr
  | e :: rest =>
      let b := byte_val e in
      if (b =? 34) || (b =? 92) || (b =? 47) then StrEmit [e] rest
      else if b =? 98 then StrEmit [char 8] rest
      else if b =? 102 then StrEmit [char 12] rest
      else if b =? 110 then StrEmit [char 10] rest
      else if b =? 114 then StrEmit [char 13] rest
      else if b =? 116 then StrEmit [char 9] rest
      else if b =? 117 then unicode_step rest
      else StrErr
  end.

Definition first_rune (l : list ascii) : option (Z * nat) := DecodeRune (map byte_val (take 4 l)).

Definition string_step (l : list ascii) : str_step :=
  match l with
  | [] => StrErr
  | a :: rest =>
      let b := byte_val a in
      if b =? 34 then StrEnd rest
      else if b =? 92 then escape_step rest
      else if b <? 32 then StrErr
      else if b <? 128 then StrEmit [a] rest
      else match first_rune l with
           | Some (_, w) => StrEmit (take w l) (drop w l)
           | None => StrEmit (rune_chars 65533) rest
           end
  end.

(** The characters after an opening quote, up to the closing one. *)
Fixpoint parse_string (fuel : nat) (l : list ascii) : option (list ascii * list ascii) :=
  match fuel with
  | O => None
  | S fuel =>
      match string_step l with
      | StrErr => None
      | StrEnd rest => Some ([], rest)
      | StrEmit out rest =>
          match parse_string fuel rest with
          | Some (more, rest') => Some (out ++ more, rest')
          | None => None
          end
      end
  end.

(** ** Numbers *)

Fixpoint digits_of (l : list ascii) : list ascii * list ascii :=
  match l with
  | a :: r => if is_digit a then let '(d, rest) := digits_of r in (a :: d, rest) else ([], l)
  | [] => ([], [])
  end.

(** [.digits] or nothing; a point must be followed by a digit. *)
Definition parse_frac (l : list ascii) : option (list ascii * list ascii) :=
  match l with
  | a :: r => if is_char 46 a then
                match digits_of r with
                | ([], _) => None
                | (d, rest) => Some (a :: d, rest)
                end
              else Some ([], l)
  | [] => Some ([], [])
  end.

Definition parse_exp (l : list ascii) : option (list ascii * list ascii) :=
  match l with
  | a :: r =>
      if is_char 101 a || is_char 69 a then
        let '(sign, r') := match r with
                           | s :: r1 => if is_char 43 s || is_char 45 s then ([s], r1) else ([], r)
                           | [] => ([], [])
                           end in
        match digits_of r' with
        | ([], _) => None
        | (d, rest) => Some (a :: sign ++ d, rest)
        end
      else Some ([], l)
  | [] => Some ([], [])
  end.

Definition parse_int (l : list ascii) : option (list ascii * list ascii) :=
  match l with
  | a :: r => if is_char 48 a then Some ([a], r)
              else match digits_of l with ([], _) => None | dr => Some dr end
  | [] => None
  end.

Definition parse_unsigned (sign l : list ascii) : option (list ascii * list ascii) :=
  match parse_int l with
  | None => None
  | Some (i, l2) =>
      match parse_frac l2 with
      | None => None
      | Some (f, l3) =>
          match parse_exp l3 with
          | None => None
          | Some (e, l4) => Some (sign ++ i ++ f ++ e, l4)
          end
      end
  end.

Definition parse_number (l : list ascii) : option (list ascii * list ascii) :=
  match l with
  | a :: r => if is_char 45 a then parse_unsigned [a] r else parse_unsigned [] l
  | [] => None
  end.

(** ** Values *)

Definition maxNestingDepth : Z := 10000.

Fixpoint eat (word l : list ascii) : option (list ascii) :=
  match word, l with
  | [], _ => Some l
  | w :: word', a :: l' => if Ascii.eqb w a then eat word' l' else None
  | _, [] => None
  end.

Definition literal (word : string) (v : jvalue) (l : list ascii) : option (jvalue * list ascii) :=
  match eat (chars word) l with
  | Some rest => Some (v, rest)
  | None => None
  end.

Fixpoint parse_value (fuel : nat) (depth : Z) (l : list ascii) : option (jvalue * list ascii) :=
  match fuel with
  | O => None
  | S fuel =>
      match skip_ws l with
      | [] => None
      | a :: r =>
          if is_char 123 a then
            if maxNestingDepth <=? depth then None
            else match skip_ws r with
            | c :: r' =>
                if is_char 125 c then Some (JObject [], r')
                else match parse_members fuel (depth + 1) (c :: r') with
                     | Some (o, rest) => Some (JObject o, rest)
                     | None => None
                     end
            | [] => None
            end
          else if is_char 91 a then
            if maxNestingDepth <=? depth then None
            else match skip_ws r with
            | c :: r' =>
                if is_char 93 c then Some (JArray [], r')
                else match parse_elements fuel (depth + 1) (c :: r') with
                     | Some (es, rest) => Some (JArray es, rest)
                     | None => None
                     end
            | [] => None
            end
          else if is_char 34 a then
            match parse_string (S (length r)) r with
            | Some (s, rest) => Some (JString (text s), rest)
            | None => None
            end
          else if is_char 116 a then literal "true" (JBool true) (a :: r)
          else if is_char 102 a then literal "false" (JBool false) (a :: r)
          else if is_char 110 a then literal "null" JNull (a :: r)
          else match parse_number (a :: r) with
               | Some (n, rest) => Some (JNum (text n), rest)
               | None => None
               end
      end
  end
with parse_elements (fuel : nat) (depth : Z) (l : list ascii) : option (list jvalue * list ascii) :=
  match fuel with
  | O => None
  | S fuel =>
      match parse_value fuel depth l with
      | None => None
      | Some (v, r) =>
          match skip_ws r with
          | c :: r' =>
              if is_char 93 c then Some ([v], r')
              else if is_char 44 c then
                match parse_elements fuel depth r' with
                | Some (vs, rest) => Some (v :: vs, rest)
                | None => None
                end
              else None
          | [] => None
          end
      end
  end
with parse_members (fuel : nat) (depth : Z) (l : list ascii) : option (list (string * jvalue) * list ascii) :=
  match fuel with
  | O => None
  | S fuel =>
      match skip_ws l with
      | q :: r =>
          if is_char 34 q then
            match parse_string (S (length r)) r with
            | None => None
            | Some (k, r1) =>
                match skip_ws r1 with
                | colon :: r2 =>
                    if is_char 58 colon then
                      match parse_value fuel depth r2 with
                      | None => None
                      | Some (v, r3) =>
                          match skip_ws r3 with
                          | c :: r4 =>
                              if is_char 125 c then Some ([(text k, v)], r4)
                              else if is_char 44 c then
                                match parse_members fuel depth r4 with
                                | Some (ms, rest) => Some ((text k, v) :: ms, rest)
                                | None => None
                                end
                              else None
                          | [] => None
                          end
                      end
                    else None
                | [] => None
                end
            end
          else None
      | [] => None
      end
  end.

(** A whole text: one value and white space. *)
Definition parse (s : string) : option jvalue :=
  let l := chars s in
  match parse_value (length l) 0 l with
  | Some (v, rest) => match skip_ws rest with [] => Some v | _ => None end
  | None => None
  end.

(** ** Decoding into Go values *)

(** strconv.ParseInt(literal, 10, 64) of a JSON number. *)
Fixpoint decimal (l : list ascii) (acc : Z) : option Z :=
  match l with
  | [] => Some acc
  | a :: r => if is_digit a then decimal r (acc * 10 + (byte_val a - 48)) else None
  end.

Definition unsigned (l : list ascii) : option Z :=
  match l with [] => None | _ => decimal l 0 end.

Definition ParseInt64 (lit : string) : option Z :=
  let n := match chars lit with
           | a :: r => if is_char 45 a then Z.opp <$> unsigned r else unsigned (a :: r)
           | [] => None
           end in
  match n with
  | Some n => if (MinInt64 <=? n) && (n <=? MaxInt64) then Some n else None
  | None => None
  end.

(** The literal's digits as an integer and its power of ten. *)
Definition mantissa (lit : string) : Z * Z :=
  let l := match chars lit with a :: r => if is_char 45 a then r else a :: r | [] => [] end in
  let '(i, l1) := digits_of l in
  let '(f, l2) := match l1 with
                  | a :: r => if is_char 46 a then digits_of r else ([], l1)
                  | [] => ([], [])
                  end in
  let e := match l2 with
           | _ :: s :: r => if is_char 45 s then Z.opp (default 0 (decimal r 0))
                            else if is_char 43 s then default 0 (decimal r 0)
                            else default 0 (decimal (s :: r) 0)
           | _ => 0
           end in
  (default 0 (decimal (i ++ f) 0), e - Z.of_nat (length f)).

(** The number is a float64: its magnitude is below 2^1024 - 2^970, where rounding to
    the nearest overflows.  Far from the limit the powers of ten are not computed. *)
Definition float64_ok (lit : string) : bool :=
  let '(m, e) := mantissa lit in
  if m =? 0 then true
  else if 400 <? e then false
  else if e <? 0 then m <? (2 ^ 1024 - 2 ^ 970) * 10 ^ (Z.min (- e) (Z.log2 m + 1))
  else m * 10 ^ e <? 2 ^ 1024 - 2 ^ 970.

(** Every number of the value converts to a float64, as decoding into [any] needs. *)
Fixpoint any_ok (v : jvalue) : bool :=
  match v with
  | JNum lit => float64_ok lit
  | JArray l => forallb any_ok l
  | JObject o => forallb (fun '(_, x) => any_ok x) o
  | _ => true
  end.

(** json.Unmarshal into a map[string]any: the members of an object, of which the last
    one of a name counts, or the nil map of a null. *)
Definition Unmarshal_map (s : string) : option (list (string * jvalue)) :=
  match parse s with
  | Some (JObject o) => if any_ok (JObject o) then Some o else None
  | Some JNull => Some []
  | _ => None
  end.

(** doc[k] of the decoded map. *)
Fixpoint map_get (o : list (string * jvalue)) (k : string) : option jvalue :=
  match o with
  | [] => None
  | (k', v) :: rest => match map_get rest k with
                       | Some w => Some w
                       | None => if (k' =s k) then Some v else None
                       end
  end.

(** encoding/json's foldName on the runes that fold to ASCII letters: the letters,
    U+017F and U+212A. *)
Fixpoint fold_name (l : list ascii) : list ascii :=
  match l with
  | [] => []
  | a :: r =>
      if in_range 97 122 (byte_val a) then char (Z.to_nat (byte_val a - 32)) :: fold_name r
      else match r with
      | b :: r1 =>
          if is_char 197 a && is_char 191 b then char 83 :: fold_name r1
          else match r1 with
          | c :: r2 => if is_char 226 a && is_char 132 b && is_char 170 c
                       then char 75 :: fold_name r2 else a :: fold_name r
          | [] => a :: fold_name r
          end
      | [] => a :: fold_name r
      end
  end.

Definition folds_to (name key : string) : bool := (text (fold_name (chars name)) =s text (fold_name (chars key))).

(** The field of a struct a member is decoded into: the one of that name, else the
    first one that folds to it. *)
Definition target (names : list string) (key : string) : option string :=
  match List.find (fun n => n =s key) names with
  | Some n => Some n
  | None => List.find (fun n => folds_to n key) names
  end.

(** The values decoded into a field, in order; members of unknown names are ignored. *)
Definition assigned (names : list string) (o : list (string * jvalue)) (name : string) : list jvalue :=
  map snd (List.filter (fun '(k, _) => match target names k with Some n => (n =s name) | None => false end) o).

(** What a field holds after these values, [None] for an *UnmarshalTypeError: a null
    leaves it as it is. *)
Fixpoint string_field (vs : list jvalue) (s : string) : option string :=
  match vs with
  | [] => Some s
  | JString t :: rest => string_field rest t
  | JNull :: rest => string_field rest s
  | _ => None
  end.

Fixpoint int64_field (vs : list jvalue) (n : Z) : option Z :=
  match vs with
  | [] => Some n
  | JNum lit :: rest => match ParseInt64 lit with Some m => int64_field rest m | None => None end
  | JNull :: rest => int64_field rest n
  | _ => None
  end.

(** A slice: an array starts it anew, a null makes it nil. *)
Fixpoint slice_field {E} (elem : jvalue -> option E) (vs : list jvalue) (l : list E) : option (list E) :=
  match vs with
  | [] => Some l
  | JArray es :: rest => match mapM elem es with Some l' => slice_field elem rest l' | None => None end
  | JNull :: rest => slice_field elem rest []
  | _ => None
  end.

(** A struct: objects are decoded into it one after the other, like one object with all
    their members. *)
Fixpoint members_field (vs : list jvalue) : option (list (string * jvalue)) :=
  match vs with
  | [] => Some []
  | JObject o :: rest => app o <$> members_field rest
  | JNull :: rest => members_field rest
  | _ => None
  end.

(** json.Unmarshal into a struct: the members its fields are decoded from. *)
Definition Unmarshal_struct (s : string) : option (list (string * jvalue)) :=
  match parse s with Some v => members_field [v] | None => None end.

(** json.Unmarshal into a map[string]json.RawMessage. *)
Definition Unmarshal_raw (s : string) : option (list (string * jvalue)) := Unmarshal_struct s.

(** ** Encoding *)

Definition hex_digit (n : Z) : ascii := char (Z.to_nat (if n <? 10 then 48 + n else 87 + n)).

Definition u_escape (c : Z) : list ascii :=
  [backslash; char 117; hex_digit (c / 4096 mod 16); hex_digit (c / 256 mod 16);
   hex_digit (c / 16 mod 16); hex_digit (c mod 16)].

(** appendString on an ASCII character: control characters and the HTML characters
    < > & are escaped. *)
Definition escape_ascii (a : ascii) : list ascii :=
  let b := byte_val a in
  if (b =? 34) || (b =? 92) then [backslash; a]
  else if b =? 8 then [backslash; char 98]
  else if b =? 12 then [backslash; char 102]
  else if b =? 10 then [backslash; char 110]
  else if b =? 13 then [backslash; char 114]
  else if b =? 9 then [backslash; char 116]
  else if (b <? 32) || (b =? 60) || (b =? 62) || (b =? 38) then u_escape b
  else [a].

Fixpoint quote_chars (fuel : nat) (l : list ascii) : list ascii :=
  match fuel, l with
  | S fuel, a :: r =>
      if byte_val a <? 128 then escape_ascii a ++ quote_chars fuel r
      else match first_rune l with
           | None => u_escape 65533 ++ quote_chars fuel r
           | Some (c, w) =>
               (if (c =? 8232) || (c =? 8233) then u_escape c else take w l) ++
               quote_chars fuel (drop w l)
           end
  | _, _ => []
  end.

Definition quote (s : string) : list ascii :=
  quot :: quote_chars (length (chars s)) (chars s) ++ [quot].

Fixpoint commas (ls : list (list ascii)) : list ascii :=
  match ls with
  | [] => []
  | [l] => l
  | l :: rest => l ++ char 44 :: commas rest
  end.

Fixpoint print (v : jvalue) : list ascii :=
  match v with
  | JNull => chars "null"
  | JBool b => chars (if b then "true" else "false")
  | JNum lit => chars lit
  | JString s => quote s
  | JArray l => char 91 :: commas (map print l) ++ [char 93]
  | JObject o => char 123 :: commas (map (fun '(k, x) => quote k ++ char 58 :: print x) o) ++ [char 125]
  end.

(** The text of [json.Marshal] on a value of this shape. *)
Definition marshal (v : jvalue) : string := text (print v).

(** An int64 field. *)
Definition JInt (n : Z) : jvalue := JNum (pretty n).
