(* ===== verification/JsonProps.v ===== *)
(** * JSON: what is written is read back

    [parse_complete]: the fuel of [parse] refuses no text.  [parse_marshal]: the text
    [marshal] writes of a value whose strings are valid UTF-8 parses to that value.
    [ParseInt64_pretty]: an int64 survives its decimal text. *)

From Stdlib Require Import Ascii Lia Bool ZArith String.
From stdpp Require Import base strings list numbers option pretty.
From S2P Require Import Prelude GoStrings Json.

#[local] Open Scope Z_scope.

(** ** Fuel *)

Lemma skip_ws_length l : (length (skip_ws l) <= length l)%nat.
Proof. induction l as [|a l IH]; cbn; [done|]. destruct (is_ws a); cbn; lia. Qed.

Lemma hex4_length l c rest : hex4 l = Some (c, rest) -> (length rest < length l)%nat.
Proof.
  unfold hex4. destruct l as [|a [|b [|d [|e r]]]]; try done.
  destruct (hex_val a), (hex_val b), (hex_val d), (hex_val e); try done. intros [= _ <-]. cbn. lia.
Qed.

Lemma first_rune_width l c w : first_rune l = Some (c, w) -> (1 <= w <= 4)%nat /\ (w <= length l)%nat.
Proof.
  unfold first_rune. intros H. destruct (DecodeRune_prefix _ _ _ [] H) as (Hw & Hl & _).
  rewrite length_map, length_take in Hl. split; [done|lia].
Qed.

Definition step_shorter (l : list ascii) (st : str_step) : Prop :=
  match st with
  | StrEnd rest | StrEmit _ rest => (length rest < length l)%nat
  | StrErr => True
  end.

Lemma string_step_shorter l : step_shorter l (string_step l).
Proof.
  assert (forall r, (length r < length l)%nat -> step_shorter l (unicode_step r)) as Hu.
  { intros r Hr. unfold unicode_step. destruct (hex4 r) as [[c r1]|] eqn:E; [|done].
    apply hex4_length in E.
    repeat (case_match; try done); subst; unfold step_shorter;
      repeat match goal with H : hex4 _ = Some _ |- _ => apply hex4_length in H end; cbn in *; lia. }
  destruct l as [|a r]; [done|]. unfold string_step.
  repeat case_match; try done; try (cbn; lia).
  - unfold escape_step. destruct r as [|e r]; [done|].
    repeat case_match; try done; try (cbn; lia). apply Hu. cbn. lia.
  - subst. match goal with H : first_rune _ = _ |- _ => apply first_rune_width in H end.
    unfold step_shorter. rewrite length_drop. cbn in *. lia.
Qed.

Lemma parse_string_length fuel l s rest :
  parse_string fuel l = Some (s, rest) -> (length rest < length l)%nat.
Proof.
  revert l s rest. induction fuel as [|fuel IH]; intros l s rest; cbn; [done|].
  pose proof (string_step_shorter l) as Hs. destruct (string_step l) as [r|out r|]; cbn in Hs; [|..|done].
  - by intros [= _ <-].
  - destruct (parse_string fuel r) as [[m r']|] eqn:E; [|done]. intros [= _ <-]. apply IH in E. lia.
Qed.

Lemma eat_length w l rest : eat w l = Some rest -> (length rest + length w = length l)%nat.
Proof.
  revert l. induction w as [|a w IH]; intros [|b l]; cbn; try done.
  - intros [= <-]. cbn. lia.
  - intros [= <-]. cbn. lia.
  - destruct (Ascii.eqb a b); [|done]. intros H%IH. lia.
Qed.

Lemma literal_length w v l x rest :
  w <> ""%string -> literal w v l = Some (x, rest) -> (length rest < length l)%nat.
Proof.
  unfold literal. destruct (eat _ _) eqn:E; [|done]. intros Hw [= _ <-]. apply eat_length in E.
  destruct w; [done|]. cbn in E. lia.
Qed.

Lemma digits_of_length l d rest : digits_of l = (d, rest) -> (length d + length rest = length l)%nat.
Proof.
  revert d rest. induction l as [|a l IH]; intros d rest; cbn; [by intros [= <- <-]|].
  destruct (is_digit a); [|by intros [= <- <-]].
  destruct (digits_of l) as [d' r'] eqn:E. intros [= <- <-]. cbn. by rewrite (IH _ _ eq_refl).
Qed.

Ltac digits_tac := repeat match goal with H : digits_of _ = _ |- _ => apply digits_of_length in H end.

Lemma parse_unsigned_length sign l1 d rest :
  parse_unsigned sign l1 = Some (d, rest) -> (length rest < length l1)%nat.
Proof.
  unfold parse_unsigned. destruct (parse_int l1) as [[i l2]|] eqn:Ei; [|done].
  assert (length l2 < length l1)%nat.
  { unfold parse_int in Ei. destruct l1 as [|a r]; [done|]. destruct (is_char 48 a).
    - injection Ei as <- <-. cbn. lia.
    - destruct (digits_of (a :: r)) as [[|x dd] rr] eqn:E; [done|]. injection Ei as <- <-.
      digits_tac. cbn in *. lia. }
  destruct (parse_frac l2) as [[f l3]|] eqn:Ef; [|done].
  assert (length l3 <= length l2)%nat.
  { unfold parse_frac in Ef. destruct l2 as [|a r]; [injection Ef as <- <-; done|].
    destruct (is_char 46 a); [|injection Ef as <- <-; done].
    destruct (digits_of r) as [[|x dd] rr] eqn:E; [done|]. injection Ef as <- <-. digits_tac. cbn in *. lia. }
  destruct (parse_exp l3) as [[e l4]|] eqn:Ee; [|done]. intros [= _ <-].
  assert (length l4 <= length l3)%nat; [|lia].
  unfold parse_exp in Ee. destruct l3 as [|a r]; [injection Ee as <- <-; done|].
  destruct (is_char 101 a || is_char 69 a); [|injection Ee as <- <-; done].
  destruct (match r with [] => _ | _ => _ end) as [sg r'] eqn:Er.
  assert (length r' <= length r)%nat.
  { destruct r as [|s r1]; [injection Er as <- <-; done|].
    destruct (is_char 43 s || is_char 45 s); injection Er as <- <-; cbn; lia. }
  destruct (digits_of r') as [[|x dd] rr] eqn:E; [done|]. injection Ee as <- <-. digits_tac. cbn in *. lia.
Qed.

Lemma parse_number_length l d rest : parse_number l = Some (d, rest) -> (length rest < length l)%nat.
Proof.
  destruct l as [|a r]; [done|]. unfold parse_number.
  destruct (is_char 45 a); intros H%parse_unsigned_length; cbn in *; lia.
Qed.

Definition fuel_free {A} (p : nat -> Z -> list ascii -> option (A * list ascii)) (n : nat) : Prop :=
  forall d l x rest, p n d l = Some (x, rest) ->
  (length rest < length l)%nat /\
  forall m, (length l <= m + length rest)%nat -> p m d l = Some (x, rest).

Lemma value_fuel n : fuel_free parse_elements n -> fuel_free parse_members n -> fuel_free parse_value (S n).
Proof.
  intros He Hm d l v rest H. cbn [parse_value] in H.
  pose proof (skip_ws_length l) as Hl. destruct (skip_ws l) as [|a r] eqn:Es; [done|]. cbn in Hl.
  assert (forall m, (length l <= m + length rest)%nat -> (length rest < length l)%nat ->
                    exists m', m = S m' /\ (length l <= S m' + length rest)%nat) as Hpos.
  { intros [|m'] ? ?; [lia|eauto]. }
  destruct (is_char 123 a) eqn:E1; [|destruct (is_char 91 a) eqn:E2].
  1,2: destruct (maxNestingDepth <=? d) eqn:Ed; [done|];
       pose proof (skip_ws_length r) as Hr; destruct (skip_ws r) as [|c r'] eqn:Er; [done|];
       cbn in Hr.
  - destruct (is_char 125 c) eqn:E3.
    + injection H as <- <-. split; [lia|]. intros m Hle. destruct (Hpos m Hle) as (m' & -> & _); [lia|].
      cbn [parse_value]. by rewrite Es, E1, Ed, Er, E3.
    + destruct (parse_members n (d + 1) (c :: r')) as [[o rr]|] eqn:Ep; [|done]. injection H as <- <-.
      apply Hm in Ep as [Hlt Hf]. cbn in Hlt. split; [lia|]. intros m Hle.
      destruct (Hpos m Hle) as (m' & -> & Hm'); [lia|]. cbn [parse_value].
      rewrite Es, E1, Ed, Er, E3, Hf; [done|]. cbn. lia.
  - destruct (is_char 93 c) eqn:E3.
    + injection H as <- <-. split; [lia|]. intros m Hle. destruct (Hpos m Hle) as (m' & -> & _); [lia|].
      cbn [parse_value]. by rewrite Es, E1, E2, Ed, Er, E3.
    + destruct (parse_elements n (d + 1) (c :: r')) as [[o rr]|] eqn:Ep; [|done]. injection H as <- <-.
      apply He in Ep as [Hlt Hf]. cbn in Hlt. split; [lia|]. intros m Hle.
      destruct (Hpos m Hle) as (m' & -> & Hm'); [lia|]. cbn [parse_value].
      rewrite Es, E1, E2, Ed, Er, E3, Hf; [done|]. cbn. lia.
  - assert (length rest < length l)%nat as Hlt.
    { repeat (case_match; try done); simplify_eq;
      repeat match goal with
      | H : parse_string _ _ = _ |- _ => apply parse_string_length in H
      | H : literal _ _ _ = _ |- _ => apply literal_length in H; [|done]
      | H : parse_number _ = _ |- _ => apply parse_number_length in H
      end; cbn in *; lia. }
    split; [done|]. intros m Hle. destruct (Hpos m Hle Hlt) as (m' & -> & _).
    cbn [parse_value]. rewrite Es, E1, E2. exact H.
Qed.

Lemma elements_fuel n : fuel_free parse_value n -> fuel_free parse_elements n -> fuel_free parse_elements (S n).
Proof.
  intros Hv He d l es rest H. cbn [parse_elements] in H.
  destruct (parse_value n d l) as [[v r]|] eqn:Ev; [|done]. apply Hv in Ev as [Hlt Hf].
  pose proof (skip_ws_length r) as Hr. destruct (skip_ws r) as [|c r'] eqn:Er; [done|]. cbn in Hr.
  destruct (is_char 93 c) eqn:E1; [|destruct (is_char 44 c) eqn:E2; [|done]].
  - injection H as <- <-. split; [lia|]. intros [|m] Hle; [lia|]. cbn [parse_elements].
    rewrite Hf by lia. by rewrite Er, E1.
  - destruct (parse_elements n d r') as [[vs rr]|] eqn:Ep; [|done]. injection H as <- <-.
    apply He in Ep as [Hlt' Hf']. split; [lia|]. intros [|m] Hle; [lia|]. cbn [parse_elements].
    rewrite Hf, Er, E1, E2, Hf' by lia. done.
Qed.

Lemma members_fuel n : fuel_free parse_value n -> fuel_free parse_members n -> fuel_free parse_members (S n).
Proof.
  intros Hv Hm d l ms rest H. cbn [parse_members] in H.
  pose proof (skip_ws_length l) as Hl. destruct (skip_ws l) as [|q r] eqn:Es; [done|]. cbn in Hl.
  destruct (is_char 34 q) eqn:E0; [|done].
  destruct (parse_string (S (length r)) r) as [[k r1]|] eqn:Ek; [|done].
  pose proof (parse_string_length _ _ _ _ Ek) as Hk.
  pose proof (skip_ws_length r1) as Hr1. destruct (skip_ws r1) as [|colon r2] eqn:Er1; [done|]. cbn in Hr1.
  destruct (is_char 58 colon) eqn:E1; [|done].
  destruct (parse_value n d r2) as [[v r3]|] eqn:Ev; [|done]. apply Hv in Ev as [Hlt Hf].
  pose proof (skip_ws_length r3) as Hr3. destruct (skip_ws r3) as [|c r4] eqn:Er3; [done|]. cbn in Hr3.
  destruct (is_char 125 c) eqn:E2; [|destruct (is_char 44 c) eqn:E3; [|done]].
  - injection H as <- <-. split; [lia|]. intros [|m] Hle; [lia|]. cbn [parse_members].
    rewrite Es, E0, Ek, Er1, E1, Hf by lia. by rewrite Er3, E2.
  - destruct (parse_members n d r4) as [[o rr]|] eqn:Ep; [|done]. injection H as <- <-.
    apply Hm in Ep as [Hlt' Hf']. split; [lia|]. intros [|m] Hle; [lia|]. cbn [parse_members].
    rewrite Es, E0, Ek, Er1, E1, Hf, Er3, E2, E3, Hf' by lia. done.
Qed.

Lemma parse_fuel n : fuel_free parse_value n /\ fuel_free parse_elements n /\ fuel_free parse_members n.
Proof.
  induction n as [|n (Hv & He & Hm)]; [by repeat split|].
  split; [by apply value_fuel|]. split; [by apply elements_fuel|by apply members_fuel].
Qed.

(** The fuel of [parse] refuses no text: what any number of steps would read, [parse]
    reads. *)
Theorem parse_complete fuel s v rest :
  parse_value fuel 0 (chars s) = Some (v, rest) -> skip_ws rest = [] -> parse s = Some v.
Proof.
  intros H Hr. unfold parse. apply (parse_fuel fuel) in H as [_ H]. rewrite H by lia. by rewrite Hr.
Qed.

(** ** Strings *)

Lemma byte_val_inj a b : byte_val a = byte_val b -> a = b.
Proof.
  unfold byte_val. intros H. apply Nat2Z.inj in H.
  by rewrite <- (ascii_nat_embedding a), <- (ascii_nat_embedding b), H.
Qed.

Lemma string_step_ascii a tail :
  (byte_val a <? 128) = true -> string_step (escape_ascii a ++ tail) = StrEmit [a] tail.
Proof. destruct a as [[] [] [] [] [] [] [] []]; intros H; first [discriminate H|vm_compute; reflexivity]. Qed.

Lemma DecodeRune_take4 bs : DecodeRune (take 4 bs) = DecodeRune bs.
Proof. destruct bs as [|a [|b [|c [|d r]]]]; done. Qed.

Lemma first_rune_full l : first_rune l = DecodeRune (map byte_val l).
Proof.
  unfold first_rune. rewrite <- (DecodeRune_take4 (map byte_val l)).
  f_equal. change (map byte_val) with (fmap byte_val : list ascii -> list Z). by rewrite fmap_take.
Qed.

Lemma first_rune_prefix l c w tail : first_rune l = Some (c, w) -> first_rune (take w l ++ tail) = Some (c, w).
Proof.
  rewrite !first_rune_full. intros H. destruct (DecodeRune_prefix _ _ _ (map byte_val tail) H) as (_ & _ & H').
  rewrite <- H'. f_equal. change (map byte_val) with (fmap byte_val : list ascii -> list Z).
  by rewrite fmap_app, fmap_take.
Qed.

(** U+2028 and U+2029 have one encoding each. *)
Lemma DecodeRune_separator bs c w :
  DecodeRune bs = Some (c, w) -> c = 8232 \/ c = 8233 ->
  exists r, w = 3%nat /\ bs = 226 :: 128 :: c - 8064 :: r.
Proof.
  intros H Hc. unfold DecodeRune in H.
  destruct bs as [|b0 [|b1 [|b2 [|b3 r]]]]; [done|..]; rune_cases; try done;
    unfold cont, in_range in *; autorewrite with aero in *; destruct_and?;
    rewrite ?Z.leb_le, ?Z.ltb_lt in *; try lia.
  all: eexists; split; [done|]; repeat f_equal; lia.
Qed.

Lemma first_rune_separator l c w :
  first_rune l = Some (c, w) -> c = 8232 \/ c = 8233 -> take w l = rune_chars c.
Proof.
  rewrite first_rune_full. intros H Hc. destruct (DecodeRune_separator _ _ _ H Hc) as (r & -> & Hl).
  destruct l as [|a0 [|a1 [|a2 l]]]; try done. cbn [map] in Hl. injection Hl as H0 H1 H2 _.
  assert (forall a n, byte_val a = Z.of_nat n -> (n < 256)%nat -> a = char n) as Hchar.
  { intros a n Ha Hn. apply byte_val_inj. rewrite Ha. unfold byte_val, char. by rewrite nat_ascii_embedding. }
  rewrite (Hchar a0 226%nat), (Hchar a1 128%nat) by (done || lia).
  destruct Hc as [-> | ->]; [rewrite (Hchar a2 168%nat)|rewrite (Hchar a2 169%nat)]; done || lia.
Qed.

Lemma quote_chars_step fuel a l :
  is_Some (decode (map byte_val (a :: l))) ->
  exists chunk out rest,
    a :: l = chunk ++ rest /\ (1 <= length chunk)%nat /\
    quote_chars (S fuel) (a :: l) = out ++ quote_chars fuel rest /\
    is_Some (decode (map byte_val rest)) /\
    (forall tail, string_step (out ++ tail) = StrEmit chunk tail).
Proof.
  intros [rs Hd]. cbn [map] in Hd. rewrite decode_step in Hd.
  change (byte_val a :: map byte_val l) with (map byte_val (a :: l)) in Hd.
  destruct (byte_val a <? 128) eqn:Ha.
  - cbn [map] in Hd. rewrite (DecodeRune_ascii _ _ Ha) in Hd. cbn [drop] in Hd.
    exists [a], (escape_ascii a), l. split_and!; [done|cbn; lia|cbn [quote_chars]; by rewrite Ha| |].
    + rewrite drop_0 in Hd. destruct (decode (map byte_val l)); [by eexists|done].
    + intros tail. by apply string_step_ascii.
  - cbn [quote_chars]. rewrite Ha. rewrite <- first_rune_full in Hd.
    destruct (first_rune (a :: l)) as [[c w]|] eqn:Er; [|done].
    destruct (first_rune_width _ _ _ Er) as [Hw Hlen].
    assert (is_Some (decode (map byte_val (drop w (a :: l))))).
    { change (map byte_val) with (fmap byte_val : list ascii -> list Z) in *. rewrite fmap_drop.
      destruct (decode (drop w _)); [by eexists|done]. }
    exists (take w (a :: l)), (if (c =? 8232) || (c =? 8233) then u_escape c else take w (a :: l)), (drop w (a :: l)).
    split_and!; [by rewrite take_drop|rewrite length_take; lia|done|done|].
    intros tail. destruct ((c =? 8232) || (c =? 8233)) eqn:Es.
    + rewrite orb_true_iff, !Z.eqb_eq in Es. rewrite (first_rune_separator _ _ _ Er Es).
      by destruct Es as [-> | ->].
    + pose proof (first_rune_prefix _ _ _ tail Er) as Hp.
      destruct w as [|w]; [lia|]. cbn [take app] in *. unfold string_step.
      rewrite Ha, Hp. cbn [take drop]. apply Z.ltb_ge in Ha.
      rewrite (proj2 (Z.eqb_neq _ _)), (proj2 (Z.eqb_neq _ _)), (proj2 (Z.ltb_ge _ _)) by lia.
      f_equal; [f_equal|].
      * by rewrite take_app_length' by (cbn in Hlen; rewrite length_take; lia).
      * by rewrite drop_app_length' by (cbn in Hlen; rewrite length_take; lia).
Qed.

(** The quoted text of a valid string reads back as the string. *)
Lemma parse_quote_chars n l fuel tail :
  is_Some (decode (map byte_val l)) -> (length l <= n)%nat ->
  (length (quote_chars n l) < fuel)%nat ->
  parse_string fuel (quote_chars n l ++ quot :: tail) = Some (l, tail).
Proof.
  revert l fuel. induction n as [|n IH]; intros l fuel Hd Hn Hf.
  { destruct l; [|cbn in Hn; lia]. destruct fuel; [lia|]. done. }
  destruct l as [|a l]; [by destruct fuel; [lia|]|].
  destruct (quote_chars_step n a l Hd) as (chunk & out & rest & Hl & Hc & Hq & Hd' & Hs).
  rewrite Hq in *. rewrite <- app_assoc. destruct fuel as [|fuel]; [lia|]. cbn [parse_string].
  rewrite Hs. assert (length out <> 0)%nat.
  { destruct out; [|done]. specialize (Hs []). done. }
  rewrite length_app in Hf. rewrite (IH rest), Hl; [done|done| |lia].
  apply (f_equal length) in Hl. rewrite length_app in Hl. cbn in *. lia.
Qed.

Lemma text_chars s : text (chars s) = s.
Proof. apply String.string_of_list_ascii_of_string. Qed.
Lemma chars_text l : chars (text l) = l.
Proof. apply String.list_ascii_of_string_of_list_ascii. Qed.

Lemma chars_app s t : chars (s ++ t)%string = chars s ++ chars t.
Proof. unfold chars. induction s as [|a s IH]; [done|]. cbn. by rewrite IH. Qed.

(** The string parser on a quoted string, as the value parser calls it. *)
Lemma parse_quoted s tail :
  utf8_ValidString s = true ->
  let r := quote_chars (length (chars s)) (chars s) ++ quot :: tail in
  parse_string (S (length r)) r = Some (chars s, tail).
Proof.
  intros Hs r. unfold utf8_ValidString, runes in Hs. apply parse_quote_chars; [|done|].
  - change (String.list_ascii_of_string s) with (chars s) in Hs. by destruct (decode _).
  - unfold r. rewrite length_app. cbn. lia.
Qed.

(** ** Numbers *)

(** What may follow a number literal. *)
Definition stops (rest : list ascii) : bool :=
  match rest with
  | [] => true
  | a :: _ => negb (is_digit a || is_char 46 a || is_char 101 a || is_char 69 a)
  end.

Definition number_literal (lit : string) : bool :=
  bool_decide (parse_number (chars lit) = Some (chars lit, [])).

Lemma stops_head a r : stops (a :: r) = true ->
  is_digit a = false /\ is_char 46 a = false /\ is_char 101 a = false /\ is_char 69 a = false.
Proof. cbn. intros H. autorewrite with aero in H. tauto. Qed.

Section Stops.
Context (rest : list ascii) (Hstops : stops rest = true).

Lemma digits_of_app l d r : digits_of l = (d, r) -> digits_of (l ++ rest) = (d, r ++ rest).
Proof.
  revert d r. induction l as [|a l IH]; intros d r; cbn.
  - intros [= <- <-]. destruct rest as [|a r]; [done|]. cbn. by destruct (stops_head a r Hstops) as (-> & _).
  - destruct (is_digit a); [|by intros [= <- <-]].
    destruct (digits_of l) as [d' r'] eqn:E. intros [= <- <-]. by rewrite (IH _ _ eq_refl).
Qed.

Lemma parse_frac_app l d r : parse_frac l = Some (d, r) -> parse_frac (l ++ rest) = Some (d, r ++ rest).
Proof.
  destruct l as [|a l]; cbn.
  - intros [= <- <-]. destruct rest as [|a r]; [done|]. cbn. by destruct (stops_head a r Hstops) as (_ & -> & _).
  - destruct (is_char 46 a); [|by intros [= <- <-]].
    destruct (digits_of l) as [[|x d'] r'] eqn:E; [done|]. intros [= <- <-]. by rewrite (digits_of_app _ _ _ E).
Qed.

Lemma parse_exp_app l d r : parse_exp l = Some (d, r) -> parse_exp (l ++ rest) = Some (d, r ++ rest).
Proof.
  destruct l as [|a l]; cbn.
  - intros [= <- <-]. destruct rest as [|a r]; [done|]. cbn. by destruct (stops_head a r Hstops) as (_ & _ & -> & ->).
  - destruct (is_char 101 a || is_char 69 a); [|by intros [= <- <-]].
    destruct l as [|s l]; [done|]. cbn [app].
    destruct (is_char 43 s || is_char 45 s).
    + destruct (digits_of l) as [[|x d'] r'] eqn:E; [done|]. intros [= <- <-]. by rewrite (digits_of_app _ _ _ E).
    + destruct (digits_of (s :: l)) as [[|x d'] r'] eqn:E; [done|]. intros [= <- <-].
      change (s :: l ++ rest) with ((s :: l) ++ rest). by rewrite (digits_of_app _ _ _ E).
Qed.

Lemma parse_int_app l d r : parse_int l = Some (d, r) -> parse_int (l ++ rest) = Some (d, r ++ rest).
Proof.
  destruct l as [|a l]; [done|]. cbn [parse_int app]. destruct (is_char 48 a); [by intros [= <- <-]|].
  destruct (digits_of (a :: l)) as [[|x d'] r'] eqn:E; [done|]. intros [= <- <-].
  change (a :: l ++ rest) with ((a :: l) ++ rest). by rewrite (digits_of_app _ _ _ E).
Qed.

Lemma parse_unsigned_app sign l d r :
  parse_unsigned sign l = Some (d, r) -> parse_unsigned sign (l ++ rest) = Some (d, r ++ rest).
Proof.
  unfold parse_unsigned. destruct (parse_int l) as [[i l2]|] eqn:E1; [|done].
  destruct (parse_frac l2) as [[f l3]|] eqn:E2; [|done].
  destruct (parse_exp l3) as [[e l4]|] eqn:E3; [|done]. intros [= <- <-].
  by rewrite (parse_int_app _ _ _ E1), (parse_frac_app _ _ _ E2), (parse_exp_app _ _ _ E3).
Qed.

Lemma parse_number_app l d r : parse_number l = Some (d, r) -> parse_number (l ++ rest) = Some (d, r ++ rest).
Proof.
  destruct l as [|a l]; [done|]. cbn [parse_number app].
  destruct (is_char 45 a); intros H%parse_unsigned_app; exact H.
Qed.
End Stops.

(** The first character of a number. *)
Lemma parse_number_head l d r :
  parse_number l = Some (d, r) -> exists a l', l = a :: l' /\ (is_digit a = true \/ is_char 45 a = true).
Proof.
  destruct l as [|a l]; [done|]. unfold parse_number, parse_unsigned. intros H. exists a, l. split; [done|].
  destruct (is_char 45 a) eqn:E; [by right|left]. cbn [parse_int] in H. destruct (is_char 48 a) eqn:E0.
  - unfold is_char in E0. apply Z.eqb_eq in E0. unfold is_digit. by rewrite E0.
  - cbn [digits_of] in H. by destruct (is_digit a).
Qed.

(** *** Decimal numerals *)

Lemma pretty_N_char_digit (x : N) : (x < 10)%N ->
  is_digit (pretty_N_char x) = true /\ byte_val (pretty_N_char x) - 48 = Z.of_N x /\
  (is_char 48 (pretty_N_char x) = true -> x = 0%N).
Proof.
  intros H. assert (x = 0 \/ x = 1 \/ x = 2 \/ x = 3 \/ x = 4 \/ x = 5 \/ x = 6 \/ x = 7 \/ x = 8 \/ x = 9)%N as Hx by lia.
  destruct_or! Hx; subst; vm_compute; repeat split; intros; (done || discriminate).
Qed.

Lemma decimal_pretty_go x s : decimal (chars (pretty_N_go x s)) 0 = decimal (chars s) (Z.of_N x).
Proof.
  revert s. induction (N.lt_wf_0 x) as [x _ IH]; intros s. destruct (decide (x = 0)%N) as [->|Hx].
  { by rewrite pretty_N_go_0. }
  rewrite pretty_N_go_step by lia. rewrite IH by (apply N.div_lt; lia).
  destruct (pretty_N_char_digit (x `mod` 10)%N) as (Hd & Hv & _); [apply N.mod_lt; lia|].
  cbn. rewrite Hd, Hv. f_equal. rewrite <- N2Z.inj_mul with (m := 10%N), <- N2Z.inj_add. f_equal.
  rewrite N.mul_comm. symmetry. apply N.div_mod. lia.
Qed.

Lemma pretty_go_head x s :
  (0 < x)%N -> exists a r, chars (pretty_N_go x s) = a :: r ++ chars s /\
  is_digit a = true /\ is_char 48 a = false /\ Forall (fun c => is_digit c = true) r.
Proof.
  revert s. induction (N.lt_wf_0 x) as [x _ IH]; intros s Hx.
  rewrite pretty_N_go_step by lia.
  destruct (pretty_N_char_digit (x `mod` 10)%N) as (Hd & Hv & Hz); [apply N.mod_lt; lia|].
  destruct (decide (x `div` 10 = 0)%N) as [E|E].
  - rewrite E, pretty_N_go_0. eexists _, []. split; [done|]. split; [done|]. split; [|constructor].
    destruct (is_char 48 _) eqn:E0; [|done]. specialize (Hz eq_refl).
    pose proof (N.div_mod x 10). lia.
  - destruct (IH (x `div` 10)%N) with (s := String (pretty_N_char (x `mod` 10)) s)
      as (a & r & Hc & Ha & H0 & Hr); [by apply N.div_lt|by apply N.neq_0_lt_0|].
    exists a, (r ++ [pretty_N_char (x `mod` 10)]). rewrite Hc. cbn. rewrite <- app_assoc.
    split_and!; [done|done|done|]. apply Forall_app; split; [done|]. by constructor.
Qed.

Lemma digits_of_all l : Forall (fun c => is_digit c = true) l -> digits_of l = (l, []).
Proof. induction 1 as [|a l Ha _ IH]; cbn; [done|]. by rewrite Ha, IH. Qed.

Lemma parse_number_digits a r :
  is_digit a = true -> is_char 48 a = false -> Forall (fun c => is_digit c = true) r ->
  forall sign, sign = [] \/ sign = [char 45] ->
  parse_number (sign ++ a :: r) = Some (sign ++ a :: r, []).
Proof.
  intros Ha H0 Hr sign Hs. assert (is_char 45 a = false) as Hm.
  { unfold is_digit, in_range, is_char in *. autorewrite with aero in *. rewrite Z.leb_le in *. lia. }
  assert (parse_int (a :: r) = Some (a :: r, [])) as Hi.
  { unfold parse_int. rewrite H0, digits_of_all; [done|]. by constructor. }
  unfold parse_number, parse_unsigned. destruct Hs as [-> | ->]; cbn [app].
  - rewrite Hm, Hi. cbn. by rewrite app_nil_r.
  - change (is_char 45 (char 45)) with true. cbn iota. rewrite Hi. cbn. by rewrite app_nil_r.
Qed.

(** The decimal text of an integer is a JSON number and ParseInt reads it back. *)
Lemma pretty_number_literal (n : Z) : number_literal (pretty n) = true.
Proof.
  unfold number_literal. apply bool_decide_eq_true. destruct n as [|p|p]; [done| |].
  - destruct (pretty_go_head (N.pos p) "" eq_refl) as (a & r & Hc & Ha & H0 & Hr).
    change (pretty (Z.pos p)) with (pretty_N_go (N.pos p) ""). rewrite Hc, app_nil_r.
    by apply (parse_number_digits a r Ha H0 Hr []); left.
  - destruct (pretty_go_head (N.pos p) "" eq_refl) as (a & r & Hc & Ha & H0 & Hr).
    change (chars (pretty (Z.neg p))) with (char 45 :: chars (pretty_N_go (N.pos p) "")).
    rewrite Hc, app_nil_r. by apply (parse_number_digits a r Ha H0 Hr [char 45]); right.
Qed.

Lemma ParseInt64_pretty (n : Z) : int64 n -> ParseInt64 (pretty n) = Some n.
Proof.
  intros [Hlo Hhi]. unfold ParseInt64.
  assert (forall m : Z, m = n -> (if (MinInt64 <=? m) && (m <=? MaxInt64) then Some m else None) = Some n) as Hin.
  { intros m ->. by rewrite (proj2 (Z.leb_le _ _) Hlo), (proj2 (Z.leb_le _ _) Hhi). }
  destruct n as [|p|p]; [done| |].
  - change (pretty (Z.pos p)) with (pretty_N_go (N.pos p) "").
    destruct (pretty_go_head (N.pos p) "" eq_refl) as (a & r & Hc & Ha & H0 & Hr).
    pose proof (decimal_pretty_go (N.pos p) "") as Hd. rewrite Hc, app_nil_r in *.
    assert (is_char 45 a = false) as ->.
    { unfold is_digit, in_range, is_char in *. autorewrite with aero in *. rewrite Z.leb_le in *. lia. }
    unfold unsigned. rewrite Hd. cbn [chars String.list_ascii_of_string decimal]. by apply Hin.
  - change (chars (pretty (Z.neg p))) with (char 45 :: chars (pretty_N_go (N.pos p) "")).
    change (is_char 45 (char 45)) with true. cbn iota.
    destruct (pretty_go_head (N.pos p) "" eq_refl) as (a & r & Hc & _).
    pose proof (decimal_pretty_go (N.pos p) "") as Hd. rewrite Hc, app_nil_r in *.
    unfold unsigned. rewrite Hd. cbn. by apply Hin.
Qed.

(** An int64 is a float64. *)
Lemma float64_pretty (n : Z) : int64 n -> float64_ok (pretty n) = true.
Proof.
  intros Hn. assert (mantissa (pretty n) = (Z.abs n, 0)) as Hm.
  { destruct n as [|p|p]; [done| |].
    - change (pretty (Z.pos p)) with (pretty_N_go (N.pos p) "").
      destruct (pretty_go_head (N.pos p) "" eq_refl) as (a & r & Hc & Ha & H0 & Hr).
      pose proof (decimal_pretty_go (N.pos p) "") as Hd. unfold mantissa. rewrite Hc, app_nil_r in *.
      assert (is_char 45 a = false) as ->.
      { unfold is_digit, in_range, is_char in *. autorewrite with aero in *. rewrite Z.leb_le in *. lia. }
      rewrite digits_of_all by (by constructor). cbn [app length]. by rewrite app_nil_r, Hd.
    - unfold mantissa. change (chars (pretty (Z.neg p))) with (char 45 :: chars (pretty_N_go (N.pos p) "")).
      destruct (pretty_go_head (N.pos p) "" eq_refl) as (a & r & Hc & Ha & H0 & Hr).
      pose proof (decimal_pretty_go (N.pos p) "") as Hd. rewrite Hc, app_nil_r in *.
      change (is_char 45 (char 45)) with true. cbn iota.
      rewrite digits_of_all by (by constructor). cbn [app length]. by rewrite app_nil_r, Hd. }
  unfold float64_ok. rewrite Hm. destruct (Z.abs n =? 0); [done|]. cbn iota.
  change (400 <? 0) with false. change (0 <? 0) with false. cbn iota. rewrite Z.mul_1_r.
  apply Z.ltb_lt. apply (Z.le_lt_trans _ (2 ^ 63)); [unfold int64, MinInt64, MaxInt64 in Hn; lia|by vm_compute].
Qed.

(** ** Values *)

Section JvalueInd.
Context (P : jvalue -> Prop) (Hnull : P JNull) (Hbool : forall b, P (JBool b))
  (Hnum : forall lit, P (JNum lit)) (Hstr : forall s, P (JString s))
  (Harr : forall l, Forall P l -> P (JArray l))
  (Hobj : forall o, Forall (fun m => P (snd m)) o -> P (JObject o)).

Fixpoint jvalue_nested_ind (v : jvalue) : P v :=
  match v with
  | JNull => Hnull
  | JBool b => Hbool b
  | JNum lit => Hnum lit
  | JString s => Hstr s
  | JArray l =>
      Harr l ((fix go l : Forall P l :=
                 match l with
                 | [] => List.Forall_nil P
                 | x :: r => @List.Forall_cons _ P x r (jvalue_nested_ind x) (go r)
                 end) l)
  | JObject o =>
      Hobj o ((fix go o : Forall (fun m => P (snd m)) o :=
                 match o with
                 | [] => List.Forall_nil _
                 | m :: r => @List.Forall_cons _ (fun m => P (snd m)) m r (jvalue_nested_ind (snd m)) (go r)
                 end) o)
  end.
End JvalueInd.

(** Values [json.Marshal] writes and the decoder accepts at the given depth: JSON
    numbers, valid UTF-8, not too deep. *)
Fixpoint marshals (depth : Z) (v : jvalue) : bool :=
  match v with
  | JNull | JBool _ => true
  | JNum lit => number_literal lit
  | JString s => utf8_ValidString s
  | JArray l => (depth <? maxNestingDepth) && forallb (marshals (depth + 1)) l
  | JObject o => (depth <? maxNestingDepth) &&
                 forallb (fun '(k, x) => utf8_ValidString k && marshals (depth + 1) x) o
  end.

(** What a value starts with: the value parser takes its branch on it. *)
Definition starts (a : ascii) : bool := negb (is_ws a || is_char 93 a || is_char 125 a).

Lemma is_char_of_byte n m a : byte_val a = m -> n <> m -> is_char n a = false.
Proof. intros <- H. by apply Z.eqb_neq. Qed.

Lemma number_start a :
  is_digit a = true \/ is_char 45 a = true ->
  starts a = true /\ is_char 123 a = false /\ is_char 91 a = false /\ is_char 34 a = false /\
  is_char 116 a = false /\ is_char 102 a = false /\ is_char 110 a = false /\ is_ws a = false.
Proof.
  intros H. assert (45 <= byte_val a <= 57) as Hr.
  { destruct H as [H|H]; unfold is_digit, in_range, is_char in H; autorewrite with aero in H;
      rewrite ?Z.leb_le, ?Z.eqb_eq in H; lia. }
  assert (forall n, n < 45 \/ 57 < n -> is_char n a = false) as Hc by (intros n Hn; apply Z.eqb_neq; lia).
  unfold starts, is_ws. rewrite !Hc by lia. done.
Qed.

Lemma print_head d v :
  marshals d v = true -> exists a r, print v = a :: r /\ starts a = true.
Proof.
  destruct v as [|[]|lit|s|l|o]; cbn [marshals print]; intros Hm; try (by eexists _, _).
  unfold number_literal in Hm. apply bool_decide_eq_true in Hm.
  destruct (parse_number_head _ _ _ Hm) as (a & r & Hl & Ha). rewrite Hl. exists a, r.
  split; [done|]. by apply number_start.
Qed.

Lemma skip_ws_start a r : starts a = true -> skip_ws (a :: r) = a :: r.
Proof. unfold starts. cbn. intros H. autorewrite with aero in H. by destruct H as [[-> _] _]. Qed.

Lemma starts_not a : starts a = true -> is_char 93 a = false /\ is_char 125 a = false.
Proof. unfold starts. intros H. autorewrite with aero in H. tauto. Qed.

Lemma is_char_char n : (n < 256)%nat -> is_char (Z.of_nat n) (char n) = true.
Proof. intros H. unfold is_char, byte_val, char. rewrite nat_ascii_embedding by done. apply Z.eqb_refl. Qed.

Definition reads_back (v : jvalue) : Prop := forall d fuel rest,
  marshals d v = true -> stops rest = true -> (length (print v) <= fuel)%nat ->
  parse_value fuel d (print v ++ rest) = Some (v, rest).

Lemma elements_read_back l d fuel rest :
  Forall reads_back l -> l <> [] -> forallb (marshals d) l = true ->
  (S (length (commas (map print l))) <= fuel)%nat ->
  parse_elements fuel d (commas (map print l) ++ char 93 :: rest) = Some (l, rest).
Proof.
  intros Hl. revert fuel. induction Hl as [|v l Hv Hl IH]; intros fuel Hne Hm Hf; [done|].
  cbn [forallb] in Hm. apply andb_true_iff in Hm as [Hmv Hml]. destruct fuel as [|fuel]; [lia|].
  destruct l as [|v' l].
  - cbn [map commas] in *. cbn [parse_elements]. rewrite Hv; [done|done|done|lia].
  - change (commas (map print (v :: v' :: l))) with (print v ++ char 44 :: commas (map print (v' :: l))) in *.
    rewrite length_app in Hf. cbn [length] in Hf. rewrite <- app_assoc. cbn [parse_elements].
    rewrite Hv; [|done|done|lia]. cbn [app skip_ws]. change (is_ws (char 44)) with false. cbn iota.
    change (is_char 93 (char 44)) with false. change (is_char 44 (char 44)) with true. cbn iota.
    rewrite IH; [done|done|done|lia].
Qed.

Definition print_member '((k, x) : string * jvalue) : list ascii := quote k ++ char 58 :: print x.

Lemma members_read_back o d fuel rest :
  Forall (fun m => reads_back (snd m)) o -> o <> [] ->
  forallb (fun '(k, x) => utf8_ValidString k && marshals d x) o = true ->
  (S (length (commas (map print_member o))) <= fuel)%nat ->
  parse_members fuel d (commas (map print_member o) ++ char 125 :: rest) = Some (o, rest).
Proof.
  intros Ho. revert fuel. induction Ho as [|[k v] o Hv Ho IH]; intros fuel Hne Hm Hf; [done|].
  cbn [forallb] in Hm. apply andb_true_iff in Hm as [[Hk Hmv]%andb_true_iff Hmo].
  destruct fuel as [|fuel]; [lia|]. cbn [snd] in Hv.
  assert (exists tail more, commas (map print_member ((k, v) :: o)) ++ char 125 :: rest =
      quot :: quote_chars (length (chars k)) (chars k) ++ quot :: char 58 :: print v ++ tail /\
      (o = [] /\ tail = char 125 :: rest \/
       o <> [] /\ tail = char 44 :: more ++ char 125 :: rest /\ more = commas (map print_member o)) /\
      (length (print v) + length tail + 3 <= length (commas (map print_member ((k, v) :: o))) + S (length rest))%nat)
    as (tail & more & Heq & Htail & Hlen).
  { destruct o as [|m o].
    - exists (char 125 :: rest), []. split_and!; [|by left|].
      + unfold print_member, quote. cbn [map commas app]. rewrite <- !app_assoc. cbn [app]. by rewrite <- ?app_assoc.
      + unfold print_member, quote. cbn [map commas app length]. rewrite ?length_app. cbn [length]. rewrite ?length_app. cbn [length]. lia.
    - change (commas (map print_member ((k, v) :: m :: o))) with
        (print_member (k, v) ++ char 44 :: commas (map print_member (m :: o))).
      exists (char 44 :: commas (map print_member (m :: o)) ++ char 125 :: rest), (commas (map print_member (m :: o))).
      split_and!; [|by right|].
      + unfold print_member at 1, quote. rewrite <- !app_assoc. cbn [app]. by rewrite <- ?app_assoc.
      + unfold print_member at 2, quote. cbn [app length]. rewrite ?length_app. cbn [length].
        rewrite ?length_app. cbn [length]. rewrite ?length_app. cbn. lia. }
  rewrite Heq. cbn [parse_members skip_ws]. change (is_ws quot) with false. cbn iota.
  change (is_char 34 quot) with true. cbn iota.
  rewrite parse_quoted by done. cbn [skip_ws]. change (is_ws (char 58)) with false. cbn iota.
  change (is_char 58 (char 58)) with true. cbn iota.
  rewrite Hv; [|done|destruct Htail as [[_ ->]|(_ & -> & _)]; done|].
  2:{ destruct Htail as [[_ ->]|(_ & -> & ->)]; cbn [length] in Hlen; rewrite ?length_app in Hlen; cbn in *; lia. }
  rewrite text_chars. destruct Htail as [[-> ->]|(Hne' & -> & ->)]; [done|].
  cbn [skip_ws]. change (is_ws (char 44)) with false. cbn iota.
  change (is_char 125 (char 44)) with false. change (is_char 44 (char 44)) with true. cbn iota.
  rewrite IH; [done|done|done|]. cbn [length] in Hlen. rewrite length_app in Hlen. cbn [length] in Hlen. lia.
Qed.

Lemma value_reads_back v : reads_back v.
Proof.
  induction v as [|b|lit|s|l Hl|o Ho] using jvalue_nested_ind; intros d fuel rest Hm Hs Hf.
  - destruct fuel; [cbn in Hf; lia|]. done.
  - destruct fuel; [destruct b; cbn in Hf; lia|]. by destruct b.
  - cbn [marshals print] in *. unfold number_literal in Hm. apply bool_decide_eq_true in Hm.
    destruct (parse_number_head _ _ _ Hm) as (a & r & Hl & Ha).
    pose proof (parse_number_app rest Hs _ _ _ Hm) as Hp. rewrite Hl in *. cbn [app] in *.
    destruct fuel; [cbn in Hf; lia|]. cbn [parse_value].
    destruct (number_start a Ha) as (Hst & H1 & H2 & H3 & H4 & H5 & H6 & _).
    rewrite skip_ws_start by done. rewrite H1, H2, H3, H4, H5, H6, Hp, <- Hl. by rewrite text_chars.
  - cbn [marshals print] in *. destruct fuel; [cbn in Hf; lia|]. unfold quote. cbn [app parse_value skip_ws].
    rewrite <- app_assoc. cbn [app]. change (is_ws quot) with false. cbn iota.
    change (is_char 123 quot) with false. change (is_char 91 quot) with false. change (is_char 34 quot) with true. cbn iota.
    rewrite parse_quoted by done. by rewrite text_chars.
  - cbn [marshals print] in *. apply andb_true_iff in Hm as [Hd Hm]. destruct fuel as [|fuel]; [cbn in Hf; lia|].
    cbn [app parse_value skip_ws]. change (is_ws (char 91)) with false. cbn iota.
    change (is_char 123 (char 91)) with false. change (is_char 91 (char 91)) with true. cbn iota.
    rewrite (proj2 (Z.leb_gt _ _)) by (by apply Z.ltb_lt). cbn [length] in Hf. rewrite length_app in Hf. cbn in Hf.
    destruct l as [|v l]; [done|]. rewrite <- app_assoc. cbn [app].
    assert (exists a r, commas (map print (v :: l)) = a :: r /\ starts a = true) as (a & r & Hc & Ha).
    { cbn [forallb] in Hm. apply andb_true_iff in Hm as [Hmv _]. destruct (print_head _ _ Hmv) as (a & r & Hp & Ha).
      exists a. cbn [map commas]. rewrite Hp. destruct (map print l); eexists; split; done. }
    rewrite Hc in *. cbn [app]. rewrite skip_ws_start by done. destruct (starts_not a Ha) as [-> _].
    change (a :: r ++ char 93 :: rest) with ((a :: r) ++ char 93 :: rest). rewrite <- Hc.
    rewrite elements_read_back; [done|done|done|done|rewrite Hc; cbn in *; lia].
  - cbn [marshals print] in *. apply andb_true_iff in Hm as [Hd Hm]. destruct fuel as [|fuel]; [cbn in Hf; lia|].
    change (fun '(k, x) => quote k ++ char 58 :: print x) with print_member in *.
    cbn [app parse_value skip_ws]. change (is_ws (char 123)) with false. cbn iota.
    change (is_char 123 (char 123)) with true. cbn iota.
    rewrite (proj2 (Z.leb_gt _ _)) by (by apply Z.ltb_lt). cbn [length] in Hf. rewrite length_app in Hf. cbn in Hf.
    destruct o as [|[k x] o]; [done|]. rewrite <- app_assoc. cbn [app].
    assert (exists r, commas (map print_member ((k, x) :: o)) = quot :: r) as (r & Hc).
    { cbn [map commas]. destruct (map print_member o); eexists; done. }
    rewrite Hc in *. cbn [app skip_ws]. change (is_ws quot) with false. cbn iota.
    change (is_char 125 quot) with false. cbn iota.
    change (quot :: r ++ char 125 :: rest) with ((quot :: r) ++ char 125 :: rest). rewrite <- Hc.
    rewrite members_read_back; [done|done|done|done|rewrite Hc; cbn in *; lia].
Qed.

(** The text of a value parses to the value. *)
Theorem parse_marshal v : marshals 0 v = true -> parse (marshal v) = Some v.
Proof.
  intros Hm. unfold parse, marshal. rewrite chars_text.
  pose proof (value_reads_back v 0 (length (print v)) [] Hm eq_refl ltac:(lia)) as H.
  rewrite app_nil_r in H. by rewrite H.
Qed.
