(* ===== verification/GoTime.v ===== *)
(** * Go times and their RFC 3339 text

    A [time.Time] in UTC is its number of nanoseconds since the zero time
    (0001-01-01T00:00:00Z), so that 0 is [time.Time{}].  [FormatRFC3339Nano] is
    [t.UTC().Format(time.RFC3339Nano)] for years 1 to 9999: the fraction is omitted
    when zero and otherwise loses its trailing zeros.  The texts of times in different
    seconds are ordered as the times.  At the end: integers in decimal, as the sources write
    them by hand. *)
From Stdlib Require Import ZArith Lia Ascii String Bool.
From stdpp Require Import base strings list numbers option pretty.
From S2P Require Import Prelude GoStrings Json JsonProps.

Open Scope Z_scope.

Definition time : Type := Z.
Definition IsZero (t : time) : bool := t =? 0.
Definition Before (a b : time) : bool := a <? b.
Definition After (a b : time) : bool := b <? a.

Definition Second : Z := 1000000000.
Definition Minute : Z := 60 * Second.
Definition Hour : Z := 60 * Minute.
Definition Day : Z := 24 * Hour.

(** time.Since and Time.Sub: the difference saturates. *)
Definition Since (now t : time) : Z := Z.max (- 2 ^ 63) (Z.min (2 ^ 63 - 1) (now - t)).

(** Year, month and day of a day number counted from 0001-01-01, by the proleptic
    Gregorian calendar with years starting in March. *)
Definition civil (day : Z) : Z * Z * Z :=
  let z := day + 306 in
  let era := z / 146097 in
  let doe := z mod 146097 in
  let yoe := (doe - doe / 1460 + doe / 36524 - doe / 146096) / 365 in
  let doy := doe - (365 * yoe + yoe / 4 - yoe / 100) in
  let mp := (5 * doy + 2) / 153 in
  let d := doy - (153 * mp + 2) / 5 + 1 in
  let m := if mp <? 10 then mp + 3 else mp - 9 in
  (yoe + era * 400 + (if m <=? 2 then 1 else 0), m, d).

Definition digit (n : Z) : ascii := ascii_of_nat (48 + Z.to_nat (n mod 10)).

(** The last [width] decimal digits of [n]. *)
Fixpoint digits (width : nat) (n : Z) (acc : string) : string :=
  match width with
  | O => acc
  | S w => digits w (n / 10) (String (digit n) acc)
  end.

Definition pad (width : nat) (n : Z) : string := digits width n EmptyString.

Definition fraction (nanos : Z) : string :=
  if nanos =? 0 then EmptyString
  else ("." ++ trim_right (fun a => Ascii.eqb a "0"%char) (pad 9 nanos))%string.

(** Date and time to the second, and a fraction. *)
Definition format_utc (frac : string) (t : time) : string :=
  let '(y, m, d) := civil (t / Day) in
  let s := (t mod Day) / Second in
  (pad 4 y ++ "-" ++ pad 2 m ++ "-" ++ pad 2 d ++ "T" ++
   pad 2 (s / 3600) ++ ":" ++ pad 2 (s / 60 mod 60) ++ ":" ++ pad 2 (s mod 60) ++ frac ++ "Z")%string.

Definition FormatRFC3339Nano (t : time) : string := format_utc (fraction (t mod Second)) t.

(** SQLite's strftime('%Y-%m-%dT%H:%M:%fZ'): always three digits. *)
Definition FormatMillis (t : time) : string := format_utc ("." ++ pad 3 (t mod Second / 1000000)) t.

(** A concrete instant, for witnesses: days, seconds and nanoseconds. *)
Definition instant (day sec nanos : Z) : time := day * Day + sec * Second + nanos.

Example format_leap_day :
  FormatRFC3339Nano (instant 738944 43200 500000000) = "2024-02-29T12:00:00.5Z"%string.
Proof. reflexivity. Qed.

(** ** Unix times *)

(** 1970-01-01T00:00:00Z is day 719162 after 0001-01-01. *)
Definition unixEpoch : time := 719162 * Day.
Definition UnixNano (t : time) : Z := wrap64 (t - unixEpoch).
Definition time_Unix (ns : Z) : time := ns + unixEpoch.

(** * Reading RFC 3339 times (package time)

    [ParseRFC3339] is time.Parse(time.RFC3339, s) as time.Time's UnmarshalJSON uses it:
    an hour may have one digit, a fraction may follow the seconds after a point or a
    comma and counts up to nine digits, an offset is Z or ±hh:mm.  The result is the
    instant.

    [ParseRFC3339_Format]: a time of the years 0 to 9999 survives its RFC3339Nano text. *)
Open Scope Z_scope.

(** ** Days *)

(** The day number of a date, counted from 0001-01-01. *)
Definition day_number (year month day : Z) : Z :=
  let y := if month <=? 2 then year - 1 else year in
  let era := y / 400 in
  let yoe := y mod 400 in
  let mp := (month + 9) mod 12 in
  era * 146097 + yoe * 365 + yoe / 4 - yoe / 100 + (153 * mp + 2) / 5 + day - 1 - 306.

Definition isLeap (year : Z) : bool := (year mod 4 =? 0) && (negb (year mod 100 =? 0) || (year mod 400 =? 0)).

Definition daysIn (month year : Z) : Z :=
  if month =? 2 then if isLeap year then 29 else 28
  else if (month =? 4) || (month =? 6) || (month =? 9) || (month =? 11) then 30 else 31.

(** ** The text *)

(** A value and the rest of the text. *)
Definition reader (A : Type) : Type := list ascii -> option (A * list ascii).

Definition digit_val (a : ascii) : Z := byte_val a - 48.

(** Exactly [n] digits. *)
Fixpoint fixed_digits (n : nat) (acc : Z) : reader Z := fun l =>
  match n with
  | O => Some (acc, l)
  | S n => match l with
           | a :: r => if is_digit a then fixed_digits n (acc * 10 + digit_val a) r else None
           | [] => None
           end
  end.

(** getnum(value, false): one digit or two. *)
Definition getnum : reader Z := fun l =>
  match fixed_digits 2 0 l with
  | Some r => Some r
  | None => fixed_digits 1 0 l
  end.

Definition expect (n : Z) : reader unit := fun l =>
  match l with a :: r => if is_char n a then Some (tt, r) else None | [] => None end.

(** parseNanoseconds: at most nine digits count. *)
Definition nanoseconds (ds : list ascii) : Z :=
  let ds := take 9 ds in default 0 (decimal ds 0) * 10 ^ Z.of_nat (9 - length ds).

(** The fraction after the seconds, if there is one. *)
Definition fraction_of (l : list ascii) : Z * list ascii :=
  match l with
  | p :: a :: r => if (is_char 46 p || is_char 44 p) && is_digit a
                   then let '(ds, rest) := digits_of (a :: r) in (nanoseconds ds, rest)
                   else (0, l)
  | _ => (0, l)
  end.

(** Z or the seconds of an offset. *)
Definition offset_of : reader Z := fun l =>
  match l with
  | a :: r =>
      if is_char 90 a then Some (0, r)
      else if is_char 43 a || is_char 45 a then
        match fixed_digits 2 0 r with
        | Some (hh, r1) =>
            match expect 58 r1 with
            | Some (_, r2) =>
                match fixed_digits 2 0 r2 with
                | Some (mm, r3) => if (24 <? hh) || (60 <? mm) then None
                                   else Some ((if is_char 45 a then -1 else 1) * (hh * 60 + mm) * 60, r3)
                | None => None
                end
            | None => None
            end
        | None => None
        end
      else None
  | [] => None
  end.

Definition ParseRFC3339 (s : string) : option time :=
  '(year, l) ← fixed_digits 4 0 (chars s); '(_, l) ← expect 45 l;
  '(month, l) ← fixed_digits 2 0 l; '(_, l) ← expect 45 l;
  '(day, l) ← fixed_digits 2 0 l; '(_, l) ← expect 84 l;
  '(hour, l) ← getnum l; '(_, l) ← expect 58 l;
  '(minute, l) ← fixed_digits 2 0 l; '(_, l) ← expect 58 l;
  '(second, l) ← fixed_digits 2 0 l;
  let '(nanos, l) := fraction_of l in
  '(offset, l) ← offset_of l;
  match l with
  | [] => if (month <? 1) || (12 <? month) || (24 <=? hour) || (60 <=? minute) || (60 <=? second) ||
             (day <? 1) || (daysIn month year <? day) then None
          else Some (day_number year month day * Day + (hour * 3600 + minute * 60 + second - offset) * Second + nanos)
  | _ => None
  end.

Example parse_offset : ParseRFC3339 "2024-02-29T9:30:00,5+01:30" = Some (instant 738944 28800 500000000).
Proof. reflexivity. Qed.
Example parse_bad_day : ParseRFC3339 "2023-02-29T09:30:00Z" = None.
Proof. reflexivity. Qed.

(** ** Days round-trip *)

Section Civil.
Context (doe : Z) (Hdoe : 0 <= doe < 146097).
Let yoe := (doe - doe / 1460 + doe / 36524 - doe / 146096) / 365.
Let doy := doe - (365 * yoe + yoe / 4 - yoe / 100).

Lemma year_of_era : 0 <= yoe < 400.
Proof. unfold yoe. Z.to_euclidean_division_equations; lia. Qed.

Lemma day_of_year : 0 <= doy <= 365.
Proof. subst doy yoe. Z.to_euclidean_division_equations; lia. Qed.

(** Only a leap year's February has a last day 366 of the year that starts in March. *)
Lemma last_day_leap era : doy = 365 -> isLeap (yoe + era * 400 + 1) = true.
Proof.
  intros Hd. pose proof year_of_era. unfold isLeap.
  assert (doe = 365 * yoe + yoe / 4 - yoe / 100 + 365) as Hs by (unfold doy in Hd; lia).
  assert ((yoe + 1) mod 4 = 0 /\ ((yoe + 1) mod 100 <> 0 \/ yoe = 399)) as [H4 H100].
  { clear Hd. subst doy. unfold yoe in *. Z.to_euclidean_division_equations; lia. }
  rewrite andb_true_iff, orb_true_iff, negb_true_iff, Z.eqb_neq, !Z.eqb_eq.
  clearbody yoe. clear -H4 H100 H. Z.to_euclidean_division_equations; lia.
Qed.
End Civil.

Lemma civil_date t : let '(y, m, d) := civil t in
  day_number y m d = t /\ 1 <= m <= 12 /\ 1 <= d <= daysIn m y.
Proof.
  unfold civil. set (z := t + 306). set (doe := z mod 146097). set (era := z / 146097).
  assert (0 <= doe < 146097) as Hdoe by (apply Z.mod_pos_bound; lia).
  assert (t = era * 146097 + doe - 306) as Ht by (unfold era, doe, z; Z.to_euclidean_division_equations; lia).
  pose proof (year_of_era doe Hdoe) as Hy. pose proof (day_of_year doe Hdoe) as Hdy.
  pose proof (last_day_leap doe Hdoe era) as Hleap. cbv zeta in *.
  set (yoe := (doe - doe / 1460 + doe / 36524 - doe / 146096) / 365) in *.
  set (doy := doe - (365 * yoe + yoe / 4 - yoe / 100)) in *.
  assert (doe = doy + (365 * yoe + yoe / 4 - yoe / 100)) as Hdd by (unfold doy; lia).
  set (mp := (5 * doy + 2) / 153).
  assert (0 <= mp <= 11) as Hmp by (unfold mp; Z.to_euclidean_division_equations; lia).
  assert (1 <= doy - (153 * mp + 2) / 5 + 1 <= 31) as Hd by (unfold mp; Z.to_euclidean_division_equations; lia).
  assert (((if mp <? 10 then mp + 3 else mp - 9) <=? 2) = negb (mp <? 10)) as Hm by (destruct (Z.ltb_spec mp 10); cbn; lia).
  rewrite Hm. split; [|split; [destruct (Z.ltb_spec mp 10); lia|]].
  - unfold day_number. rewrite Hm, Ht, Hdd.
    replace (if negb (mp <? 10) then _ else _) with (yoe + era * 400) by (destruct (mp <? 10); cbn; lia).
    rewrite Z.div_add, Z.div_small, Z.mod_add, Z.mod_small by lia.
    replace (((if mp <? 10 then mp + 3 else mp - 9) + 9) mod 12) with mp
      by (destruct (Z.ltb_spec mp 10); Z.to_euclidean_division_equations; lia).
    lia.
  - assert (153 * mp <= 5 * doy + 2 < 153 * (mp + 1)) as Hq by (unfold mp; Z.to_euclidean_division_equations; lia).
    clearbody mp doy yoe. clear Ht Hdd Hdoe Hm.
    assert (mp = 11 \/ mp < 11) as [->|Hlt] by lia.
    + change ((153 * 11 + 2) / 5) with 337 in *. change (11 <? 10) with false. cbn [negb]. change (11 - 9) with 2.
      unfold daysIn. change (2 =? 2) with true. cbn iota.
      destruct (Z.eqb_spec doy 365) as [E|E]; [rewrite (Hleap E)|destruct (isLeap _)]; lia.
    + assert (daysIn (if mp <? 10 then mp + 3 else mp - 9) (yoe + era * 400 + (if negb (mp <? 10) then 1 else 0)) =
              if (mp =? 1) || (mp =? 3) || (mp =? 6) || (mp =? 8) then 30 else 31) as ->.
      { unfold daysIn. assert (mp = 10 \/ mp < 10) as [->|] by lia; [done|].
        rewrite (proj2 (Z.ltb_lt mp 10)) by lia. rewrite (proj2 (Z.eqb_neq (mp + 3) 2)) by lia.
        replace (mp + 3 =? 4) with (mp =? 1) by (destruct (Z.eqb_spec mp 1); lia).
        replace (mp + 3 =? 6) with (mp =? 3) by (destruct (Z.eqb_spec mp 3); lia).
        replace (mp + 3 =? 9) with (mp =? 6) by (destruct (Z.eqb_spec mp 6); lia).
        replace (mp + 3 =? 11) with (mp =? 8) by (destruct (Z.eqb_spec mp 8); lia). done. }
      destruct ((mp =? 1) || (mp =? 3) || (mp =? 6) || (mp =? 8)) eqn:E; [|lia].
      rewrite !orb_true_iff, !Z.eqb_eq in E. clear Hleap. Z.to_euclidean_division_equations; lia.
Qed.

(** ** Texts round-trip *)


Lemma digit_char n : is_digit (digit n) = true /\ digit_val (digit n) = n mod 10.
Proof.
  unfold is_digit, digit_val, digit, in_range, byte_val. pose proof (Z.mod_pos_bound n 10 ltac:(lia)).
  rewrite nat_ascii_embedding by lia. rewrite Nat2Z.inj_add, Z2Nat.id by lia. change (Z.of_nat 48) with 48. split; [|lia].
  apply andb_true_iff. split; apply Z.leb_le; lia.
Qed.

Lemma pad_app w n s : (pad w n ++ s)%string = digits w n s.
Proof.
  unfold pad. change s with ("" ++ s)%string at 2. generalize EmptyString as acc. revert n.
  induction w as [|w IH]; intros n acc; [done|]. cbn. by rewrite IH.
Qed.

Lemma mod_digits n w : n mod 10 ^ Z.of_nat (S w) = (n / 10) mod 10 ^ Z.of_nat w * 10 + n mod 10.
Proof. rewrite Nat2Z.inj_succ, Z.pow_succ_r by lia. rewrite Z.rem_mul_r by lia. lia. Qed.

Lemma fixed_digits_pad w k a n s :
  fixed_digits (w + k) a (chars (digits w n s)) = fixed_digits k (a * 10 ^ Z.of_nat w + n mod 10 ^ Z.of_nat w) (chars s).
Proof.
  revert k n s. induction w as [|w IH]; intros k n s.
  { cbn [Nat.add digits]. rewrite Z.mod_1_r. f_equal. cbn. lia. }
  cbn [digits]. replace (S w + k)%nat with (w + S k)%nat by lia. rewrite IH. cbn [fixed_digits chars String.list_ascii_of_string].
  destruct (digit_char n) as [-> ->]. rewrite mod_digits. f_equal. rewrite Nat2Z.inj_succ, Z.pow_succ_r by lia. lia.
Qed.

Lemma read_pad w n s : 0 <= n < 10 ^ Z.of_nat w -> fixed_digits w 0 (chars (pad w n ++ s)%string) = Some (n, chars s).
Proof.
  intros Hn. rewrite pad_app. pose proof (fixed_digits_pad w 0 0 n s) as E. rewrite Nat.add_0_r in E. rewrite E.
  cbn [fixed_digits]. by rewrite Z.mod_small by lia.
Qed.

Lemma decimal_app l k a : decimal (l ++ k) a = decimal l a ≫= decimal k.
Proof. revert a. induction l as [|x l IH]; intros a; [done|]. cbn. destruct (is_digit x); [apply IH|done]. Qed.

Lemma fixed_decimal n l a x rest : fixed_digits n a l = Some (x, rest) -> rest = [] -> decimal l a = Some x.
Proof.
  revert l a. induction n as [|n IH]; intros l a; cbn; [by intros [= <- <-] ->|].
  destruct l as [|c l]; [done|]. cbn. destruct (is_digit c); [|done]. apply IH.
Qed.

Lemma decimal_pad n : 0 <= n < 10 ^ 9 -> decimal (chars (pad 9 n)) 0 = Some n.
Proof.
  intros Hn. eapply fixed_decimal; [|reflexivity]. pose proof (read_pad 9 n "" Hn) as E. by rewrite pad_app in E.
Qed.

Definition is_zero (a : ascii) : bool := Ascii.eqb a "0"%char.

Lemma trim_zeros s : exists k, chars s = chars (trim_right is_zero s) ++ repeat "0"%char k.
Proof.
  induction s as [|a s [k IH]]; [by exists 0%nat|]. cbn [trim_right chars String.list_ascii_of_string] in *. unfold chars in *.
  rewrite IH. destruct (trim_right is_zero s) as [|b t].
  - destruct (is_zero a) eqn:E; [|by exists k]. exists (S k). apply Ascii.eqb_eq in E as ->. done.
  - by exists k.
Qed.

Lemma decimal_zeros k a : decimal (repeat "0"%char k) a = Some (a * 10 ^ Z.of_nat k).
Proof.
  revert a. induction k as [|k IH]; intros a; cbn [repeat decimal]; [cbn; f_equal; lia|].
  change (is_digit "0"%char) with true. cbn iota. rewrite IH. f_equal. change (byte_val "0"%char - 48) with 0.
  rewrite Nat2Z.inj_succ, Z.pow_succ_r by lia. lia.
Qed.

Lemma pad_digits w n : Forall (fun c => is_digit c = true) (chars (pad w n)) /\ length (chars (pad w n)) = w.
Proof.
  unfold pad. assert (forall acc, Forall (fun c => is_digit c = true) (chars acc) ->
    Forall (fun c => is_digit c = true) (chars (digits w n acc)) /\ length (chars (digits w n acc)) = (w + length (chars acc))%nat) as H.
  { revert n. induction w as [|w IH]; intros n acc Hacc; [done|]. cbn [digits].
    destruct (IH (n / 10) (String (digit n) acc)) as [H1 H2].
    { constructor; [apply digit_char|done]. } split; [done|]. rewrite H2. cbn. unfold chars. lia. }
  destruct (H "" ltac:(constructor)) as [H1 H2]. split; [done|]. rewrite H2. cbn. lia.
Qed.

Lemma digits_of_until l a r : Forall (fun c => is_digit c = true) l -> is_digit a = false ->
  digits_of (l ++ a :: r) = (l, a :: r).
Proof. intros Hl Ha. induction Hl as [|c l Hc _ IH]; cbn; [by rewrite Ha|]. by rewrite Hc, IH. Qed.

(** The fraction of a formatted time reads back. *)
Lemma read_fraction nanos : 0 <= nanos < 10 ^ 9 -> fraction_of (chars (fraction nanos ++ "Z")%string) = (nanos, chars "Z").
Proof.
  intros Hn. unfold fraction. destruct (Z.eqb_spec nanos 0) as [->|Hz]; [done|].
  destruct (trim_zeros (pad 9 nanos)) as [k Hk]. pose proof (decimal_pad nanos Hn) as Hd.
  destruct (pad_digits 9 nanos) as [Hf Hl]. rewrite Hk in Hd, Hf, Hl.
  fold is_zero. set (t := trim_right is_zero (pad 9 nanos)) in *. rewrite !chars_app.
  apply Forall_app in Hf as [Hf _]. rewrite length_app, repeat_length in Hl.
  rewrite decimal_app in Hd. destruct (decimal (chars t) 0) as [x|] eqn:Ex; [|done]. cbn in Hd. rewrite decimal_zeros in Hd.
  injection Hd as Hd. destruct (chars t) as [|a r] eqn:Et. { cbn in Ex. injection Ex as <-. lia. }
  inversion Hf as [|? ? Ha Hr]; subst. change (chars ".") with ["."%char]. cbn [app fraction_of].
  change (is_char 46 ".") with true. rewrite Ha. cbn [andb orb].
  change (a :: r ++ chars "Z") with ((a :: r) ++ "Z"%char :: []). rewrite (digits_of_until (a :: r)) by done. unfold nanoseconds.
  rewrite take_ge by lia. rewrite Ex. cbn [default]. do 2 f_equal. by replace (9 - length (a :: r))%nat with k by lia.
Qed.

Definition Year (t : time) : Z := fst (fst (civil (t / Day))).

Theorem ParseRFC3339_Format t : 0 <= Year t <= 9999 -> ParseRFC3339 (FormatRFC3339Nano t) = Some t.
Proof.
  intros Hy. unfold FormatRFC3339Nano, format_utc, Year in *. pose proof (civil_date (t / Day)) as Hc.
  destruct (civil (t / Day)) as [[y m] d]. cbn [fst] in Hy. destruct Hc as (Hday & Hm & Hd).
  set (s := (t mod Day) / Second).
  assert (0 <= s < 86400 /\ t = t / Day * Day + s * Second + t mod Second) as [Hs Ht].
  { unfold s, Day, Hour, Minute, Second. Z.to_euclidean_division_equations; lia. }
  assert (d <= 31) as Hd31 by (unfold daysIn in Hd; repeat case_match; lia).
  assert (0 <= t mod Second < 10 ^ 9) as Hn by (unfold Second; apply Z.mod_pos_bound; lia).
  assert (0 <= s / 3600 < 24 /\ 0 <= s / 60 mod 60 < 60 /\ 0 <= s mod 60 < 60 /\ s / 3600 * 3600 + s / 60 mod 60 * 60 + s mod 60 = s)
    as (H1 & H2 & H3 & H4) by (Z.to_euclidean_division_equations; lia).
  unfold ParseRFC3339.
  assert (forall w n k x, 0 <= n < 10 ^ Z.of_nat w ->
    fixed_digits w 0 (chars (pad w n ++ String k "" ++ x)%string) = Some (n, k :: chars x)) as Hread
    by (intros; by apply read_pad).
  rewrite (Hread 4%nat) by lia. cbn [mbind option_bind expect]. change (is_char 45 "-") with true. cbn [mbind option_bind].
  rewrite (Hread 2%nat) by lia. cbn [mbind option_bind expect]. change (is_char 45 "-") with true. cbn [mbind option_bind].
  rewrite (Hread 2%nat) by lia. cbn [mbind option_bind expect]. change (is_char 84 "T") with true. cbn [mbind option_bind].
  unfold getnum. rewrite (Hread 2%nat) by lia. cbn [mbind option_bind expect]. change (is_char 58 ":") with true. cbn [mbind option_bind].
  rewrite (Hread 2%nat) by lia. cbn [mbind option_bind expect]. change (is_char 58 ":") with true. cbn [mbind option_bind].
  rewrite read_pad by lia. cbn [mbind option_bind].
  rewrite read_fraction by done. cbn [chars String.list_ascii_of_string offset_of].
  change (is_char 90 "Z") with true. cbn iota. cbn [mbind option_bind].
  rewrite !(proj2 (Z.ltb_ge _ _)), !(proj2 (Z.leb_gt _ _)) by lia. cbn [orb]. f_equal. rewrite Hday. lia.
Qed.

(** ** The order of the texts *)

Definition year_days (y : Z) : Z := 365 * y + y / 4 - y / 100 + y / 400.

Lemma day_number_days y m d :
  day_number y m d = year_days (if m <=? 2 then y - 1 else y) + (153 * ((m + 9) mod 12) + 2) / 5 + d - 1 - 306.
Proof.
  unfold day_number, year_days. set (x := if m <=? 2 then y - 1 else y).
  enough (x / 400 * 146097 + x mod 400 * 365 + (x mod 400) / 4 - (x mod 400) / 100 = 365 * x + x / 4 - x / 100 + x / 400) by lia.
  Z.to_euclidean_division_equations. lia.
Qed.

Lemma leap_days y : year_days y - year_days (y - 1) = if isLeap y then 366 else 365.
Proof. unfold year_days, isLeap. repeat case_match; try (Z.to_euclidean_division_equations; lia). Qed.

Lemma months (P : Z -> Prop) m : 1 <= m <= 12 ->
  P 1 -> P 2 -> P 3 -> P 4 -> P 5 -> P 6 -> P 7 -> P 8 -> P 9 -> P 10 -> P 11 -> P 12 -> P m.
Proof.
  intros Hm. intros. assert (m = 1 \/ m = 2 \/ m = 3 \/ m = 4 \/ m = 5 \/ m = 6 \/ m = 7 \/ m = 8 \/ m = 9 \/ m = 10 \/ m = 11 \/ m = 12)
    as Hc by lia. by destruct Hc as [->|[->|[->|[->|[->|[->|[->|[->|[->|[->|[->| ->]]]]]]]]]]].
Qed.

(** The days before a month of its year. *)
Definition days_before (m y : Z) : Z :=
  (367 * m - 362) / 12 - (if m <=? 2 then 0 else if isLeap y then 1 else 2).

Lemma day_in_year y m d : 1 <= m <= 12 ->
  day_number y m d = day_number y 1 1 + days_before m y + d - 1.
Proof.
  intros Hm. rewrite !day_number_days. pose proof (leap_days y). unfold days_before. revert d.
  pattern m. apply months; [done|..]; intros d; cbn; destruct (isLeap y); Z.to_euclidean_division_equations; lia.
Qed.

Lemma day_bounds y m d : 1 <= m <= 12 -> 1 <= d <= daysIn m y ->
  year_days (y - 1) <= day_number y m d < year_days y.
Proof.
  intros Hm Hd. rewrite day_in_year, day_number_days by done. pose proof (leap_days y). unfold days_before, daysIn in *. revert d Hd.
  pattern m. apply months; [done|..]; intros d; cbn; destruct (isLeap y); Z.to_euclidean_division_equations; lia.
Qed.

Lemma month_days y m m' : 1 <= m < m' -> m' <= 12 -> days_before m y + daysIn m y <= days_before m' y.
Proof.
  intros Hm Hm'. assert (1 <= m <= 12) as H1 by lia. assert (1 <= m' <= 12) as H2 by lia. clear Hm'.
  unfold days_before, daysIn. revert Hm. pattern m. apply months; [done|..]; pattern m'; (apply months; [done|..]); intros Hm;
    first [lia|cbn; destruct (isLeap y); Z.to_euclidean_division_equations; lia].
Qed.

Lemma year_days_mono y y' : y <= y' -> year_days y <= year_days y'.
Proof.
  intros Hy. replace y' with (y + Z.of_nat (Z.to_nat (y' - y))) by lia. induction (Z.to_nat (y' - y)) as [|n IH].
  - by rewrite Z.add_0_r.
  - pose proof (leap_days (y + Z.of_nat (S n))) as Hl. replace (y + Z.of_nat (S n) - 1) with (y + Z.of_nat n) in Hl by lia.
    destruct (isLeap _); lia.
Qed.

(** Dates compare like their days. *)
Lemma date_order y m d y' m' d' :
  1 <= m <= 12 -> 1 <= d <= daysIn m y -> 1 <= m' <= 12 -> 1 <= d' <= daysIn m' y' ->
  day_number y m d < day_number y' m' d' -> y < y' \/ y = y' /\ (m < m' \/ m = m' /\ d < d').
Proof.
  intros Hm Hd Hm' Hd' Hlt. pose proof (day_bounds y m d Hm Hd). pose proof (day_bounds y' m' d' Hm' Hd').
  destruct (Z.lt_trichotomy y y') as [?|[<-|Hy]]; [by left| |]; right.
  - split; [done|]. rewrite (day_in_year y m), (day_in_year y m') in Hlt by done. destruct (Z.lt_trichotomy m m') as [?|[<-|Hlm]]; [by left|right; lia|].
    pose proof (month_days y m' m ltac:(lia) ltac:(lia)). lia.
  - pose proof (year_days_mono y' (y - 1) ltac:(lia)). lia.
Qed.

Lemma ltb_cons x y a b :
  String.ltb (String x a) (String y b) = (byte_val x <? byte_val y) || ((byte_val x =? byte_val y) && String.ltb a b).
Proof.
  unfold String.ltb, byte_val. cbn [String.compare]. unfold Ascii.compare, nat_of_ascii. rewrite !N_nat_Z.
  destruct (N.compare_spec (N_of_ascii x) (N_of_ascii y)) as [->|Hl|Hl].
  - by rewrite Z.ltb_irrefl, Z.eqb_refl.
  - by rewrite (proj2 (Z.ltb_lt _ _)) by lia.
  - by rewrite (proj2 (Z.ltb_ge _ _)), (proj2 (Z.eqb_neq _ _)) by lia.
Qed.

Lemma digits_cons w n s : digits (S w) n s = String (digit (n / 10 ^ Z.of_nat w)) (digits w n s).
Proof.
  revert n s. induction w as [|w IH]; intros n s; [cbn; by rewrite Z.div_1_r|].
  cbn [digits] in *. rewrite IH. f_equal. f_equal. rewrite Z.div_div by lia. f_equal. rewrite Nat2Z.inj_succ, Z.pow_succ_r by lia. lia.
Qed.

Lemma digit_byte n : byte_val (digit n) = 48 + n mod 10.
Proof. destruct (digit_char n) as [_ E]. unfold digit_val in E. lia. Qed.

(** Padded numbers compare like the numbers, then like what follows them. *)
Lemma digits_order w a b x y :
  a mod 10 ^ Z.of_nat w < b mod 10 ^ Z.of_nat w \/ a mod 10 ^ Z.of_nat w = b mod 10 ^ Z.of_nat w /\ String.ltb x y = true ->
  String.ltb (digits w a x) (digits w b y) = true.
Proof.
  induction w as [|w IH]; intros Hc.
  - cbn [digits]. rewrite !Z.mod_1_r in Hc. destruct Hc as [?|[_ ?]]; [lia|done].
  - rewrite !digits_cons, ltb_cons, !digit_byte. apply orb_true_iff. rewrite andb_true_iff, Z.ltb_lt, Z.eqb_eq.
    rewrite Nat2Z.inj_succ, Z.pow_succ_r, (Z.mul_comm 10), !Z.rem_mul_r in Hc by lia.
    set (q := 10 ^ Z.of_nat w) in *. assert (0 < q) as Hq by (apply Z.pow_pos_nonneg; lia).
    pose proof (Z.mod_pos_bound a q Hq). pose proof (Z.mod_pos_bound b q Hq).
    destruct (Z.lt_trichotomy ((a / q) mod 10) ((b / q) mod 10)) as [?|[E|?]]; [left; lia|right|exfalso; nia].
    split; [lia|]. apply IH. rewrite E in Hc. destruct Hc as [?|[? ?]]; [left; lia|right; split; [lia|done]].
Qed.

Lemma pad_order w a b x y : 0 <= a < 10 ^ Z.of_nat w -> 0 <= b < 10 ^ Z.of_nat w ->
  a < b \/ a = b /\ String.ltb x y = true -> String.ltb (pad w a ++ x)%string (pad w b ++ y)%string = true.
Proof. intros Ha Hb Hc. rewrite !pad_app. apply digits_order. by rewrite !Z.mod_small by done. Qed.

Lemma second_of_day t : t / Second = t / Day * 86400 + t mod Day / Second /\ 0 <= t mod Day / Second < 86400.
Proof.
  assert (t mod Day / Second = t / Second - t / Day * 86400) as E.
  { rewrite Z.mod_eq by done. replace (t - Day * (t / Day)) with (t + - (t / Day * 86400) * Second).
    - rewrite Z.div_add by done. lia.
    - change Day with (86400 * Second). lia. }
  split; [lia|]. pose proof (Z.mod_pos_bound t Day ltac:(done)). split; [apply Z.div_pos; [lia|done]|].
  apply Z.div_lt_upper_bound; [done|]. change (Second * 86400) with Day. lia.
Qed.

(** The next of two texts' fields, after the same separator. *)
Ltac next_field :=
  cbn [String.append]; rewrite ltb_cons, Z.ltb_irrefl, Z.eqb_refl; cbn [orb andb];
  apply pad_order; [cbn; Z.to_euclidean_division_equations; lia..|].

(** Times of the years 0 to 9999 in different seconds compare like their texts. *)
Lemma seconds_order t t' : 0 <= Year t <= 9999 -> 0 <= Year t' <= 9999 -> t / Second < t' / Second ->
  String.ltb (FormatRFC3339Nano t) (FormatRFC3339Nano t') = true.
Proof.
  unfold FormatRFC3339Nano, format_utc, Year. intros Hy Hy' Hlt.
  destruct (second_of_day t) as [Ht Hs], (second_of_day t') as [Ht' Hs'].
  rewrite Ht, Ht' in Hlt. clear Ht Ht'. set (s := t mod Day / Second) in *. set (s' := t' mod Day / Second) in *.
  assert (civil (t / Day) = civil (t' / Day) /\ s < s' \/ t / Day < t' / Day) as Hcase.
  { destruct (Z.eq_dec (t / Day) (t' / Day)) as [E|E]; [left; rewrite E; split; [reflexivity|lia]|right; lia]. }
  pose proof (civil_date (t / Day)) as Hc. pose proof (civil_date (t' / Day)) as Hc'.
  destruct (civil (t / Day)) as [[y m] d], (civil (t' / Day)) as [[y' m'] d']. cbn [fst] in Hy, Hy'.
  destruct Hc as (Hd & Hm & Hdm), Hc' as (Hd' & Hm' & Hdm').
  assert (forall m y, daysIn m y <= 31) as H31 by (intros; unfold daysIn; repeat case_match; lia).
  assert (1 <= d <= 31 /\ 1 <= d' <= 31) as [? ?] by (pose proof (H31 m y); pose proof (H31 m' y'); lia).
  assert (y < y' \/ y = y' /\ (m < m' \/ m = m' /\ (d < d' \/ d = d' /\ s < s'))) as Hlex.
  { destruct Hcase as [[[= -> -> ->] ?]|Hday]; [lia|].
    assert (day_number y m d < day_number y' m' d') as Hdl by lia. pose proof (date_order y m d y' m' d'). tauto. }
  clear Hcase Hlt Hdm Hdm' Hd Hd'.
  apply pad_order; [cbn; lia..|]. destruct Hlex as [?|[-> Hlex]]; [by left|right; split; [done|]].
  next_field. destruct Hlex as [?|[-> Hlex]]; [by left|right; split; [done|]].
  next_field. destruct Hlex as [?|[-> Hlex]]; [by left|right; split; [done|]].
  next_field. destruct (Z.eq_dec (s / 3600) (s' / 3600)) as [E|E]; [right; split; [done|]|left; Z.to_euclidean_division_equations; lia].
  next_field. destruct (Z.eq_dec (s / 60 mod 60) (s' / 60 mod 60)) as [E'|E']; [right; split; [done|]|left; Z.to_euclidean_division_equations; lia].
  next_field. left. Z.to_euclidean_division_equations; lia.
Qed.

(** ** Numbers in decimal, as the sources write them by hand *)

(** The digits of a positive number, before [acc]; the buffer has twenty bytes. *)
Fixpoint fmt_digits (fuel : nat) (n : Z) (acc : string) : string :=
  match fuel with
  | O => acc
  | S fuel => if 0 <? n then fmt_digits fuel (n / 10) (String (digit n) acc) else acc
  end.

Definition signed_text (n : Z) : string :=
  if n =? 0 then "0"
  else let neg := n <? 0 in
       let text := fmt_digits 20 (if neg then wrap64 (- n) else n) "" in
       if neg then ("-" ++ text)%string else text.

Lemma digit_pretty n : 0 <= n -> digit n = pretty_N_char (Z.to_N n `mod` 10).
Proof.
  intros Hn. unfold digit. pose proof (Z.mod_pos_bound n 10 ltac:(lia)).
  replace (Z.to_N n `mod` 10)%N with (Z.to_N (n mod 10)) by (by rewrite Z2N.inj_mod).
  generalize dependent (n mod 10). intros r Hr. clear Hn.
  assert (r = 0 \/ r = 1 \/ r = 2 \/ r = 3 \/ r = 4 \/ r = 5 \/ r = 6 \/ r = 7 \/ r = 8 \/ r = 9) as H by lia.
  by repeat destruct H as [->|H]; subst.
Qed.

Lemma fmt_digits_pretty fuel n acc : 0 <= n < 10 ^ Z.of_nat fuel -> fmt_digits fuel n acc = pretty_N_go (Z.to_N n) acc.
Proof.
  revert n acc. induction fuel as [|fuel IH]; intros n acc Hn.
  { cbn in Hn. assert (n = 0) as -> by lia. cbn [fmt_digits]. symmetry. apply pretty_N_go_0. }
  cbn [fmt_digits]. destruct (Z.ltb_spec 0 n); [|assert (n = 0) as -> by lia; symmetry; apply pretty_N_go_0].
  rewrite Nat2Z.inj_succ, Z.pow_succ_r in Hn by lia.
  rewrite IH by (Z.to_euclidean_division_equations; lia).
  rewrite (pretty_N_go_step (Z.to_N n)) by lia. rewrite digit_pretty by lia. by rewrite Z2N.inj_div by lia.
Qed.

(** The text is the number's, for every int64 but the least one, whose negation overflows:
    that one is a bare minus sign. *)
Lemma signed_text_decimal n :
  int64 n -> signed_text n = if n =? MinInt64 then "-"%string else pretty n.
Proof.
  intros Hn. unfold signed_text. destruct (Z.eqb_spec n 0) as [->|H0]; [done|].
  destruct (Z.eqb_spec n MinInt64) as [->|Hmin]; [done|].
  unfold int64, MinInt64, MaxInt64 in *. change (10 ^ Z.of_nat 20) with 100000000000000000000 in *.
  destruct (Z.ltb_spec n 0).
  - rewrite wrap64_id by (unfold int64, MinInt64, MaxInt64; lia).
    rewrite fmt_digits_pretty by (change (10 ^ Z.of_nat 20) with 100000000000000000000; lia).
    destruct n as [|p|p]; try lia. done.
  - rewrite fmt_digits_pretty by (change (10 ^ Z.of_nat 20) with 100000000000000000000; lia).
    destruct n as [|p|p]; try lia. done.
Qed.
