(* ===== verification/Base64.v ===== *)
(** * Byte encodings (packages encoding/base64 and encoding/hex as the code uses them)

    [EncodeToString] and [DecodeString] of [base64.StdEncoding]: the decoder drops line
    breaks, wants full padded quanta and ignores the unused bits of the last one.
    [hex_EncodeToString] and [hex_DecodeString] are the two of encoding/hex.

    [DecodeString_Encode] and [hex_Decode_Encode] are the round trips. *)

From Stdlib Require Import Ascii Lia Bool ZArith String.
From stdpp Require Import base strings list numbers option.
From S2P Require Import Prelude GoStrings Json JsonProps.

#[local] Open Scope Z_scope.

Definition byte (n : Z) : ascii := char (Z.to_nat n).

(** The standard alphabet. *)
Definition b64_char (n : Z) : ascii :=
  byte (if n <? 26 then 65 + n else if n <? 52 then 71 + n else if n <? 62 then n - 4 else if n =? 62 then 43 else 47).

Definition b64_val (a : ascii) : option Z :=
  let b := byte_val a in
  if in_range 65 90 b then Some (b - 65)
  else if in_range 97 122 b then Some (b - 71)
  else if in_range 48 57 b then Some (b + 4)
  else if b =? 43 then Some 62
  else if b =? 47 then Some 63
  else None.

Definition pad_char : ascii := char 61.

(** The bytes three at a time; one or two that are left over are padded. *)
Fixpoint b64_encode (l : list ascii) : list ascii :=
  match l with
  | a :: b :: c :: rest =>
      let x := byte_val a in let y := byte_val b in let z := byte_val c in
      b64_char (x / 4) :: b64_char (x mod 4 * 16 + y / 16) :: b64_char (y mod 16 * 4 + z / 64) :: b64_char (z mod 64) ::
      b64_encode rest
  | [a; b] =>
      let x := byte_val a in let y := byte_val b in
      [b64_char (x / 4); b64_char (x mod 4 * 16 + y / 16); b64_char (y mod 16 * 4); pad_char]
  | [a] => let x := byte_val a in [b64_char (x / 4); b64_char (x mod 4 * 16); pad_char; pad_char]
  | [] => []
  end.

Definition EncodeToString (s : string) : string := text (b64_encode (chars s)).

(** Four characters: a full quantum, or the last one with one or two pad characters. *)
Fixpoint b64_decode (l : list ascii) : option (list ascii) :=
  match l with
  | [] => Some []
  | a :: b :: c :: d :: rest =>
      match b64_val a, b64_val b, b64_val c, b64_val d with
      | Some x, Some y, Some z, Some w =>
          app [byte (x * 4 + y / 16); byte (y mod 16 * 16 + z / 4); byte (z mod 4 * 64 + w)] <$> b64_decode rest
      | Some x, Some y, Some z, None =>
          if is_char 61 d && bool_decide (rest = [])
          then Some [byte (x * 4 + y / 16); byte (y mod 16 * 16 + z / 4)] else None
      | Some x, Some y, None, None =>
          if is_char 61 c && is_char 61 d && bool_decide (rest = []) then Some [byte (x * 4 + y / 16)] else None
      | _, _, _, _ => None
      end
  | _ => None
  end.

Definition line_break (a : ascii) : bool := is_char 10 a || is_char 13 a.

Definition DecodeString (s : string) : option string :=
  text <$> b64_decode (List.filter (fun a => negb (line_break a)) (chars s)).

Definition hex_EncodeToString (s : string) : string :=
  text (concat (map (fun a => [hex_digit (byte_val a / 16); hex_digit (byte_val a mod 16)]) (chars s))).

Fixpoint hex_decode (l : list ascii) : option (list ascii) :=
  match l with
  | [] => Some []
  | a :: b :: rest =>
      match hex_val a, hex_val b with
      | Some x, Some y => cons (byte (x * 16 + y)) <$> hex_decode rest
      | _, _ => None
      end
  | [_] => None
  end.

Definition hex_DecodeString (s : string) : option string := text <$> hex_decode (chars s).

(** ** Round trips *)

Lemma byte_val_byte n : 0 <= n < 256 -> byte_val (byte n) = n.
Proof. intros Hn. unfold byte_val, byte, char. rewrite nat_ascii_embedding by lia. lia. Qed.

Lemma byte_byte_val a n : n = byte_val a -> byte n = a.
Proof. intros ->. apply byte_val_inj, byte_val_byte, byte_val_range. Qed.

Lemma b64_val_char n : 0 <= n < 64 -> b64_val (b64_char n) = Some n /\ line_break (b64_char n) = false.
Proof.
  intros Hn. unfold b64_char.
  assert (exists b, (if n <? 26 then 65 + n else if n <? 52 then 71 + n else if n <? 62 then n - 4
                     else if n =? 62 then 43 else 47) = b /\ 0 <= b < 256 /\
    ((n < 26 /\ b = 65 + n) \/ (26 <= n < 52 /\ b = 71 + n) \/ (52 <= n < 62 /\ b = n - 4) \/ (n = 62 /\ b = 43) \/
     (n = 63 /\ b = 47))) as (b & -> & Hb & Hcase).
  { eexists. split; [done|]. destruct (Z.ltb_spec n 26); [lia|]. destruct (Z.ltb_spec n 52); [lia|].
    destruct (Z.ltb_spec n 62); [lia|]. destruct (Z.eqb_spec n 62); lia. }
  unfold b64_val, line_break, is_char, in_range. rewrite byte_val_byte by lia.
  repeat match goal with |- context [?a <=? ?b] => destruct (Z.leb_spec a b); try lia end;
  repeat match goal with |- context [?a =? ?b] => destruct (Z.eqb_spec a b); try lia end; cbn; split; try done; f_equal; lia.
Qed.

Lemma b64_read n : 0 <= n < 64 -> b64_val (b64_char n) = Some n.
Proof. apply b64_val_char. Qed.
Lemma b64_line n : 0 <= n < 64 -> line_break (b64_char n) = false.
Proof. apply b64_val_char. Qed.

Lemma b64_encode_ind (P : list ascii -> Prop) :
  P [] -> (forall a, P [a]) -> (forall a b, P [a; b]) -> (forall a b c l, P l -> P (a :: b :: c :: l)) -> forall l, P l.
Proof.
  intros H0 H1 H2 H3 l. assert (forall n l, (length l <= n)%nat -> P l) as H; [|by apply (H (length l))].
  intros n. induction n as [|n IH]; intros k Hk; [destruct k; [done|cbn in Hk; lia]|].
  destruct k as [|a [|b [|c k]]]; auto. apply H3, IH. cbn in Hk. lia.
Qed.

Ltac b64_ranges := repeat match goal with a : ascii |- _ =>
  lazymatch goal with H : 0 <= byte_val a < 256 |- _ => fail | _ => pose proof (byte_val_range a) end end.
Ltac b64_bound := b64_ranges; Z.to_euclidean_division_equations; lia.

(** Whatever the encoder emits has no line break. *)
Lemma b64_encode_lines l : List.filter (fun a => negb (line_break a)) (b64_encode l) = b64_encode l.
Proof.
  induction l as [|a|a b|a b c l IH] using b64_encode_ind; [done|..]; cbn [b64_encode List.filter];
    rewrite !b64_line by b64_bound; [done|done|by rewrite IH].
Qed.

Lemma b64_decode_encode l : b64_decode (b64_encode l) = Some l.
Proof.
  induction l as [|a|a b|a b c l IH] using b64_encode_ind; [done|..]; cbn [b64_encode b64_decode];
    rewrite !b64_read by b64_bound.
  - cbn. do 2 f_equal. apply byte_byte_val. b64_bound.
  - cbn. do 2 f_equal; [|f_equal]; apply byte_byte_val; b64_bound.
  - rewrite IH. cbn. do 2 f_equal; [|f_equal; [|f_equal]]; apply byte_byte_val; b64_bound.
Qed.

Lemma DecodeString_Encode s : DecodeString (EncodeToString s) = Some s.
Proof.
  unfold DecodeString, EncodeToString. rewrite chars_text, b64_encode_lines, b64_decode_encode. cbn. by rewrite text_chars.
Qed.

Lemma hex_val_digit n : 0 <= n < 16 -> hex_val (hex_digit n) = Some n.
Proof.
  intros Hn. unfold hex_digit. fold (byte (if n <? 10 then 48 + n else 87 + n)).
  unfold hex_val. rewrite byte_val_byte by (destruct (n <? 10); lia). unfold in_range.
  destruct (Z.ltb_spec n 10);
    repeat match goal with |- context [?a <=? ?b] => destruct (Z.leb_spec a b); try lia end; cbn; f_equal; lia.
Qed.

Lemma hex_Decode_Encode s : hex_DecodeString (hex_EncodeToString s) = Some s.
Proof.
  unfold hex_DecodeString, hex_EncodeToString. rewrite chars_text.
  assert (forall l, hex_decode (concat (map (fun a => [hex_digit (byte_val a / 16); hex_digit (byte_val a mod 16)]) l)) = Some l) as ->;
    [|cbn; by rewrite text_chars].
  induction l as [|a l IH]; [done|]. cbn [map concat app hex_decode].
  rewrite !hex_val_digit by b64_bound. rewrite IH. cbn. do 2 f_equal. apply byte_byte_val. b64_bound.
Qed.

(** ** Shapes *)

Lemma length_text l : String.length (text l) = length l.
Proof. unfold text. induction l as [|a l IH]; cbn; [done|]. by rewrite IH. Qed.

Lemma length_chars s : length (chars s) = String.length s.
Proof. induction s as [|a s IH]; cbn; [done|]. by rewrite <- IH. Qed.

Lemma hex_Encode_length s : String.length (hex_EncodeToString s) = (2 * String.length s)%nat.
Proof.
  unfold hex_EncodeToString. rewrite <- !length_chars, chars_text. induction (chars s) as [|a l IH]; [done|].
  cbn [map concat]. rewrite length_app, IH. cbn. lia.
Qed.

(** The encoder emits ASCII. *)
Lemma b64_char_ascii n : 0 <= n < 64 -> byte_val (b64_char n) < 128.
Proof.
  intros Hn. unfold b64_char.
  destruct (Z.ltb_spec n 26); [rewrite byte_val_byte; lia|]. destruct (Z.ltb_spec n 52); [rewrite byte_val_byte; lia|].
  destruct (Z.ltb_spec n 62); [rewrite byte_val_byte; lia|]. destruct (Z.eqb_spec n 62); rewrite byte_val_byte; lia.
Qed.

Lemma Encode_ascii s : Forall (fun a => byte_val a < 128) (chars (EncodeToString s)).
Proof.
  unfold EncodeToString. rewrite chars_text.
  induction (chars s) as [|a|a b|a b c l IH] using b64_encode_ind; cbn [b64_encode]; [done|..];
    repeat first [done|apply IH|apply Forall_cons_2; [first [apply b64_char_ascii; b64_bound|done]|]|apply Forall_nil_2].
Qed.

Lemma Encode_nonempty s : s <> ""%string -> EncodeToString s <> ""%string.
Proof. intros Hs He. apply Hs. pose proof (DecodeString_Encode s) as H. rewrite He in H. by injection H. Qed.

Lemma hex_Encode_ascii s : Forall (fun a => byte_val a < 128) (chars (hex_EncodeToString s)).
Proof.
  unfold hex_EncodeToString. rewrite chars_text. assert (forall n, 0 <= n < 16 -> byte_val (hex_digit n) < 128) as Hh.
  { intros n Hn. unfold hex_digit, byte_val, char. rewrite nat_ascii_embedding; destruct (_ <? _) eqn:?; lia. }
  induction (chars s) as [|a l IH]; [constructor|]. pose proof (byte_val_range a). cbn.
  repeat constructor; [apply Hh|apply Hh|exact IH]; Z.to_euclidean_division_equations; lia.
Qed.
