(* ===== verification/Backoff.v ===== *)
(** * Exponential backoff

    The doubling loop of the retry delays (src/internal/jobs/jobs.go,
    src/internal/events/event_outbox_relay.go, webhook.go) and the downward jitter of
    the events package.  Durations are nanoseconds. *)

From Stdlib Require Import Lia Bool ZArith.
From stdpp Require Import base numbers.
From S2P Require Import Prelude GoTime.

Open Scope Z_scope.

(** The doubling loop: at most [attempt - 1] times, while below the cap. *)
Fixpoint double (maxb : Z) (times : nat) (d : Z) : Z :=
  match times with
  | O => d
  | S k => if d <? maxb then double maxb k (wrap64 (d * 2)) else d
  end.

Lemma double_bound maxb k d :
  0 < d -> 0 < maxb -> 2 * maxb <= MaxInt64 -> d <= 2 * maxb ->
  d <= double maxb k d /\ (d <= maxb -> double maxb k d <= 2 * maxb) /\
  (Z.min (d * 2 ^ Z.of_nat k) maxb <= double maxb k d) /\
  (double maxb k d <= Z.max d (d * 2 ^ Z.of_nat k)).
Proof.
  revert d. induction k as [|k IH]; intros d Hd Hm Hov Hle; cbn [double].
  { change (2 ^ Z.of_nat 0) with 1. lia. }
  rewrite Nat2Z.inj_succ, Z.pow_succ_r by lia.
  pose proof (Z.pow_pos_nonneg 2 (Z.of_nat k) ltac:(lia) ltac:(lia)) as Hp.
  destruct (Z.ltb_spec d maxb) as [Hlt|Hge].
  - rewrite wrap64_id by (unfold int64, MinInt64 in *; lia).
    destruct (IH (d * 2)) as (H1 & H2 & H3 & H4); try lia.
    replace (d * (2 * 2 ^ Z.of_nat k)) with (d * 2 * 2 ^ Z.of_nat k) by lia.
    assert (d <= d * 2 * 2 ^ Z.of_nat k) by nia. assert (d * 2 <= d * 2 * 2 ^ Z.of_nat k) by nia.
    repeat split; try lia.
    intros _. destruct (Z.le_gt_cases (d * 2) maxb); [by apply H2|].
    assert (double maxb k (d * 2) = d * 2) as ->; [|lia].
    destruct k; [done|]. cbn. by destruct (Z.ltb_spec (d * 2) maxb); [lia|].
  - assert (d <= d * (2 * 2 ^ Z.of_nat k)) by nia. lia.
Qed.

(** The loop stops at the cap or after its turns. *)
Lemma double_pow maxb k d :
  0 < d -> 2 * maxb <= MaxInt64 ->
  exists j, (j <= k)%nat /\ double maxb k d = d * 2 ^ Z.of_nat j /\ (j = k \/ maxb <= double maxb k d) /\
    ((0 < j)%nat -> d * 2 ^ (Z.of_nat j - 1) < maxb).
Proof.
  revert d. induction k as [|k IH]; intros d Hd Hov; cbn [double].
  { exists 0%nat. split_and!; [done|lia|by left|lia]. }
  destruct (Z.ltb_spec d maxb) as [Hlt|Hge]; [|exists 0%nat; split_and!; [lia|lia|by right|lia]].
  rewrite wrap64_id by (unfold int64, MinInt64 in *; lia).
  destruct (IH (d * 2)) as (j & Hj & He & Hs & Hp); [lia|done|]. exists (S j).
  rewrite He, Nat2Z.inj_succ, Z.pow_succ_r by lia. split_and!; [lia|lia| |].
  - destruct Hs as [->|Hs]; [by left|right; lia].
  - intros _. replace (Z.succ (Z.of_nat j) - 1) with (Z.of_nat j) by lia.
    destruct j as [|j]; [cbn; lia|]. specialize (Hp ltac:(lia)).
    replace (Z.of_nat (S j)) with (Z.succ (Z.of_nat (S j) - 1)) by lia. rewrite Z.pow_succ_r by lia. lia.
Qed.

(** ** Delays of the events package *)

(** webhook.go; [rand] is the answer of rand.Int(rand.Reader, d/2), [None] when it
    fails. *)
Definition jitter (d : Z) (rand : option Z) : Z :=
  if d <=? 0 then d
  else match rand with
       | None => d
       | Some offset => d - d / 4 + offset / 2
       end.

(** What rand.Int answers. *)
Definition rand_ok (d : Z) (rand : option Z) : Prop :=
  match rand with Some offset => 0 <= offset < d / 2 | None => True end.

Lemma jitter_range d rand :
  0 < d -> rand_ok d rand -> d - d / 4 <= jitter d rand <= d /\ (rand <> None -> (4 | d) -> jitter d rand < d).
Proof.
  intros Hd Hr. unfold jitter. rewrite (proj2 (Z.leb_gt _ _)) by lia.
  destruct rand as [o|]; cbn in Hr; [|split; [Z.to_euclidean_division_equations; lia|done]].
  split; [Z.to_euclidean_division_equations; lia|]. intros _ [k ->]. Z.to_euclidean_division_equations. lia.
Qed.

Definition eventOutboxMaxBackoff : Z := 5 * Minute.

(** event_outbox_relay.go *)
Definition eventOutboxBackoff (attempt : Z) (rand : option Z) : Z :=
  let attempt := if attempt <? 1 then 1 else attempt in
  let base := double eventOutboxMaxBackoff (Z.to_nat (attempt - 1)) Second in
  let base := if eventOutboxMaxBackoff <? base then eventOutboxMaxBackoff else base in
  jitter base rand.

(** The delay of persistFailure and handleRetryFailure in webhook.go. *)
Definition webhookBackoff (attempt : Z) (rand : option Z) : Z :=
  jitter (double Hour (Z.to_nat (attempt - 1)) (30 * Second)) rand.

(** The delay before the jitter: a second doubled per attempt, at most five minutes. *)
Definition outbox_base (attempt : Z) : Z := Z.min (Second * 2 ^ (Z.max attempt 1 - 1)) eventOutboxMaxBackoff.

(** The relay's delay after an attempt is between three quarters of the base and the
    base, strictly below it when there is randomness; the base is a second, doubled per
    attempt and capped at five minutes, whatever the number of attempts. *)
Theorem eventOutboxBackoff_range attempt rand :
  rand_ok (outbox_base attempt) rand ->
  3 * outbox_base attempt <= 4 * eventOutboxBackoff attempt rand <= 4 * outbox_base attempt /\
  (rand <> None -> eventOutboxBackoff attempt rand < outbox_base attempt) /\
  750000000 <= eventOutboxBackoff attempt rand <= 5 * Minute.
Proof.
  set (a := Z.max attempt 1). assert (eventOutboxBackoff attempt rand = jitter (outbox_base attempt) rand) as ->.
  { unfold eventOutboxBackoff. replace (if attempt <? 1 then 1 else attempt) with a
      by (unfold a; destruct (Z.ltb_spec attempt 1); lia).
    f_equal. unfold outbox_base. fold a.
    destruct (double_bound eventOutboxMaxBackoff (Z.to_nat (a - 1)) Second) as (_ & _ & H3 & H4); [done|done|done|done|].
    rewrite Z2Nat.id in H3, H4 by (unfold a; lia).
    pose proof (Z.pow_pos_nonneg 2 (a - 1) ltac:(lia) ltac:(unfold a; lia)).
    rewrite Z.max_r in H4 by (unfold Second; nia).
    destruct (Z.ltb_spec eventOutboxMaxBackoff (double eventOutboxMaxBackoff (Z.to_nat (a - 1)) Second)); lia. }
  intros Hr. assert (exists k, 0 < k /\ outbox_base attempt = 4 * k /\ 250000000 <= k <= 75 * Second) as (k & Hk & E & Hkb).
  { unfold outbox_base. fold a. pose proof (Z.pow_pos_nonneg 2 (a - 1) ltac:(lia) ltac:(unfold a; lia)).
    destruct (Z.min_spec (Second * 2 ^ (a - 1)) eventOutboxMaxBackoff) as [[Hm ->]|[Hm ->]].
    - exists (250000000 * 2 ^ (a - 1)). unfold eventOutboxMaxBackoff, Minute, Second in *. lia.
    - exists (75 * Second). unfold eventOutboxMaxBackoff, Minute, Second in *. lia. }
  destruct (jitter_range (outbox_base attempt) rand) as [H1 H2]; [lia|done|].
  assert (outbox_base attempt / 4 = k) as E4 by (rewrite E; Z.to_euclidean_division_equations; lia).
  split; [lia|]. split.
  - intros Hn. apply H2; [done|]. exists k. lia.
  - unfold Minute, Second in *. lia.
Qed.

Lemma eventOutboxBackoff_range_witness :
  3 * outbox_base 4 <= 4 * eventOutboxBackoff 4 (Some 5) <= 4 * outbox_base 4 /\ outbox_base 4 = 8 * Second.
Proof.
  split; [apply (eventOutboxBackoff_range 4 (Some 5)); by vm_compute|by vm_compute].
Defined.

(** The webhook's delay is not capped at an hour: the doubling stops only above it,
    at 3840 seconds before the jitter, from the eighth attempt on. *)
Theorem webhookBackoff_passes_cap attempt rand :
  8 <= attempt -> rand_ok (3840 * Second) rand ->
  webhookBackoff attempt rand = jitter (3840 * Second) rand /\ webhookBackoff attempt None > Hour.
Proof.
  intros Ha Hr. unfold webhookBackoff.
  assert (double Hour (Z.to_nat (attempt - 1)) (30 * Second) = 3840 * Second) as ->; [|done].
  destruct (double_pow Hour (Z.to_nat (attempt - 1)) (30 * Second)) as (j & Hj & He & Hs & Hp); [done|done|].
  rewrite He in *. destruct (decide (j = 7)%nat) as [->|Hne]; [done|].
  exfalso. destruct (Nat.lt_ge_cases j 7) as [Hlt|Hge].
  - destruct Hs as [->|Hs]; [lia|].
    do 7 (destruct j as [|j]; [by vm_compute in Hs|]). lia.
  - specialize (Hp ltac:(lia)).
    assert (2 ^ 7 <= 2 ^ (Z.of_nat j - 1)) by (apply Z.pow_le_mono_r; lia). unfold Hour, Minute, Second in *. lia.
Qed.

Lemma webhookBackoff_passes_cap_witness : webhookBackoff 8 None > Hour.
Proof. apply (webhookBackoff_passes_cap 8 None); [done|exact I]. Defined.
