(* ===== verification/Policy.v ===== *)
(** * Bucket policies (src/internal/auth/policy.go)

    A parsed IAM-style policy and its evaluation.  A Go map that the code only
    ranges over is the list of its entries in iteration order: every theorem
    holds for every order.  [encoding/json]'s decoding of the document into the
    raw fields is a parameter ([unmarshal]); package net's address parsing is the
    class [NetLib]. *)
From Stdlib Require Import Ascii Lia Bool ZArith.
From stdpp Require Import base strings list numbers sorting.
From S2P Require Import Prelude Wildcard GoStrings Json.

(** What the code uses of package net. *)
Class NetLib := {
  IP : Type;
  IPNet : Type;
  ParseIP : string -> option IP;
  ParseCIDR : string -> option IPNet;
  NetContains : IPNet -> IP -> bool
}.

Inductive PolicyEffect := EffectAllow | EffectDeny | EffectImplicitDeny.

#[export] Instance PolicyEffect_eq_dec : EqDecision PolicyEffect.
Proof. solve_decision. Defined.

Record Statement := {
  st_Effect : string;
  st_Principal : list (string * jvalue);
  st_Action : list string;
  st_Resource : list string;
  st_Condition : list (string * list (string * list string))
}.

Record Policy := {
  pol_Version : string;
  pol_Statement : list Statement
}.

(** The raw struct of [Statement.UnmarshalJSON]. *)
Record rawStatement := {
  raw_Effect : string;
  raw_Principal : jvalue;
  raw_Action : jvalue;
  raw_Resource : jvalue;
  raw_Condition : list (string * list (string * jvalue))
}.

Definition s3Actions (action : string) : option string :=
  match action with
  | "GetObject" => Some "s3:GetObject"
  | "PutObject" => Some "s3:PutObject"
  | "DeleteObject" => Some "s3:DeleteObject"
  | "ListBucket" => Some "s3:ListBucket"
  | "HeadObject" => Some "s3:GetObject"
  | "s3:GetObject" => Some "s3:GetObject"
  | "s3:PutObject" => Some "s3:PutObject"
  | "s3:DeleteObject" => Some "s3:DeleteObject"
  | "s3:ListBucket" => Some "s3:ListBucket"
  | _ => None
  end%string.

(** [canonAction := s3Actions[action]; if canonAction == "" { canonAction = action }]. *)
Definition canonAction (action : string) : string := default action (s3Actions action).

Definition json_strings (l : list jvalue) : list string :=
  omap (fun v => match v with JString s => Some s | _ => None end) l.

Definition principalValues (v : jvalue) : list string :=
  match v with
  | JString s => [s]
  | JArray l => json_strings l
  | JObject o => json_strings (map snd o)
  | _ => []
  end.

Definition StringOrArray (v : jvalue) : list string :=
  match v with
  | JString s => [s]
  | JArray l => json_strings l
  | _ => []
  end.

Definition UnmarshalJSON (raw : rawStatement) : Statement := {|
  st_Effect := raw_Effect raw;
  st_Action := StringOrArray (raw_Action raw);
  st_Resource := StringOrArray (raw_Resource raw);
  st_Principal :=
    match raw_Principal raw with
    | JString v => if (v =s "*") then [("*", JString "*")] else []
    | JObject v => v
    | _ => []
    end;
  st_Condition :=
    map (fun '(op, conds) => (op, map (fun '(key, val) => (key, StringOrArray val)) conds))
      (raw_Condition raw)
|}.

Definition matchesResource (s : Statement) (resource : string) : bool :=
  if (resource =s "") || (length (st_Resource s) =? 0) then true
  else existsb (fun pattern => wildcardMatch pattern resource) (st_Resource s).

Definition matchesAction (s : Statement) (action : string) : bool :=
  existsb (fun a =>
    (a =s "*") || (a =s action) ||
    ((2 <? String.length a) && HasSuffix a "*" &&
     HasPrefix action (slice a 0 (String.length a - 1)))) (st_Action s).

Definition matchesPrincipal (s : Statement) : bool :=
  if length (st_Principal s) =? 0 then true
  else existsb (fun '(_, v) => existsb (fun candidate => candidate =s "*") (principalValues v))
         (st_Principal s).

Section WithNet.
Context `{NetLib}.

Definition ipInAnyCIDR (ip : string) (cidrs : list string) : bool :=
  match ParseIP ip with
  | None => false
  | Some parsed =>
      existsb (fun cidr => match ParseCIDR cidr with
                           | None => false
                           | Some cidrNet => NetContains cidrNet parsed
                           end) cidrs
  end.

(** One [switch] of [matchesConditions]: the condition does not rule the statement out. *)
Definition conditionHolds (sourceIP operator key : string) (values : list string) : bool :=
  if (operator =s "IpAddress") && (key =s "aws:SourceIp") then ipInAnyCIDR sourceIP values
  else if (operator =s "NotIpAddress") && (key =s "aws:SourceIp") then
    negb (ipInAnyCIDR sourceIP values)
  else false.

Definition matchesConditions (s : Statement) (sourceIP : string) : bool :=
  forallb (fun '(operator, conditions) =>
    forallb (fun '(key, values) => conditionHolds sourceIP operator key values) conditions)
    (st_Condition s).

(** [err == nil]; the texts of the errors are not modelled. *)
Definition validateConditions (s : Statement) : bool :=
  forallb (fun '(operator, conditions) =>
    ((operator =s "IpAddress") || (operator =s "NotIpAddress")) &&
    forallb (fun '(key, values) =>
      (key =s "aws:SourceIp") && negb (length values =? 0) &&
      forallb (fun value => match ParseCIDR value with Some _ => true | None => false end) values)
      conditions) (st_Condition s).

Definition validatePrincipal (s : Statement) : bool :=
  forallb (fun '(_, v) => forallb (fun candidate => candidate =s "*") (principalValues v))
    (st_Principal s).

(** The [range p.Statement] loop of [EvalResource], with its accumulator [allow]. *)
Fixpoint evalStatements (stmts : list Statement) (action resource sourceIP : string)
    (allow : bool) : PolicyEffect :=
  match stmts with
  | [] => if allow then EffectAllow else EffectImplicitDeny
  | stmt :: rest =>
      if negb (matchesAction stmt action) || negb (matchesResource stmt resource) then
        evalStatements rest action resource sourceIP allow
      else if (st_Effect stmt =s "Deny") then
        if negb (matchesPrincipal stmt) || negb (validateConditions stmt) then EffectDeny
        else if matchesConditions stmt sourceIP then EffectDeny
        else evalStatements rest action resource sourceIP allow
      else if (st_Effect stmt =s "Allow") then
        evalStatements rest action resource sourceIP
          (allow || (matchesPrincipal stmt && matchesConditions stmt sourceIP))
      else EffectDeny
  end.

Definition EvalResource (p : Policy) (action resource sourceIP : string) : PolicyEffect :=
  evalStatements (pol_Statement p) (canonAction action) resource sourceIP false.

Definition Eval (p : Policy) (action sourceIP : string) : PolicyEffect :=
  EvalResource p action "" sourceIP.

Definition Allowed (policy : option Policy) (action sourceIP : string) : bool :=
  match policy with
  | None => true
  | Some p => bool_decide (Eval p action sourceIP = EffectAllow)
  end.

Definition AllowedResource (policy : option Policy) (action resource sourceIP : string) : bool :=
  match policy with
  | None => true
  | Some p => bool_decide (EvalResource p action resource sourceIP = EffectAllow)
  end.

Inductive PolicyError :=
| MalformedPolicy
| InvalidEffect (index : nat)
| InvalidConditions (index : nat)
| InvalidPrincipal (index : nat).

(** The validation loop of [ParsePolicy]. *)
Fixpoint validateStatements (index : nat) (stmts : list Statement) : res PolicyError unit :=
  match stmts with
  | [] => Ok tt
  | stmt :: rest =>
      if (st_Effect stmt <>s "Allow") && (st_Effect stmt <>s "Deny") then Err (InvalidEffect index)
      else if negb (validateConditions stmt) then Err (InvalidConditions index)
      else if negb (validatePrincipal stmt) then Err (InvalidPrincipal index)
      else validateStatements (S index) rest
  end.

(** [ParsePolicy]: [Ok None] is the source's [nil, nil] (no policy).  [unmarshal]
    is encoding/json's decoding into the version and the raw statements. *)
Definition ParsePolicy (unmarshal : string -> option (string * list rawStatement))
    (jsonStr : string) : res PolicyError (option Policy) :=
  if (jsonStr =s "") then Ok None
  else match unmarshal jsonStr with
  | None => Err MalformedPolicy
  | Some (version, raws) =>
      let p := {| pol_Version := version; pol_Statement := map UnmarshalJSON raws |} in
      if length (pol_Statement p) =? 0 then Ok None
      else check! validateStatements 0 (pol_Statement p) in Ok (Some p)
  end.
End WithNet.

(** * The IPv4 part of package net, as a [NetLib]

    Dotted-quad addresses and a.b.c.d/n prefixes, parsed as package net documents
    it (no leading zeros, four fields, prefix length at most 32).  The concrete
    inputs of the witnesses use this instance; the theorems hold for every
    [NetLib]. *)
Open Scope Z_scope.

Fixpoint decimal (s : string) (acc : Z) : option Z :=
  match s with
  | EmptyString => Some acc
  | String a s' =>
      let d := byte_val a - 48 in
      if (0 <=? d) && (d <=? 9) then decimal s' (acc * 10 + d) else None
  end.

(** A decimal field without leading zeros, at most [limit]. *)
Definition field (limit : Z) (s : string) : option Z :=
  match s with
  | EmptyString => None
  | String "0" (String _ _) => None
  | _ => match decimal s 0 with
         | Some n => if n <=? limit then Some n else None
         | None => None
         end
  end.

Definition parse_ipv4 (s : string) : option Z :=
  match Split s "." with
  | [a; b; c; d] =>
      match field 255 a, field 255 b, field 255 c, field 255 d with
      | Some a, Some b, Some c, Some d => Some (((a * 256 + b) * 256 + c) * 256 + d)
      | _, _, _, _ => None
      end
  | _ => None
  end.

Definition parse_cidr (s : string) : option (Z * Z) :=
  match Split s "/" with
  | [a; n] =>
      match parse_ipv4 a, field 32 n with
      | Some ip, Some bits => Some (Z.shiftr ip (32 - bits), bits)
      | _, _ => None
      end
  | _ => None
  end.

Definition ipv4_contains (net : Z * Z) (ip : Z) : bool :=
  let '(prefix, bits) := net in Z.shiftr ip (32 - bits) =? prefix.

#[export] Instance ipv4 : NetLib := {|
  IP := Z;
  IPNet := Z * Z;
  ParseIP := parse_ipv4;
  ParseCIDR := parse_cidr;
  NetContains := ipv4_contains
|}.

Example ipv4_in : ipInAnyCIDR "10.1.2.3" ["192.168.0.0/16"; "10.0.0.0/8"] = true.
Proof. vm_compute. reflexivity. Qed.

Example ipv4_out : ipInAnyCIDR "11.1.2.3" ["192.168.0.0/16"; "10.0.0.0/8"] = false.
Proof. vm_compute. reflexivity. Qed.
