(* ===== verification/PolicyProps.v ===== *)
(** * Correctness of bucket policies

    Deny overrides, independence of the statement order, what a parsed policy
    guarantees, and the two places where evaluation is weaker than its comments
    say: a Principal given as a string, and keys with a literal star. *)

From Stdlib Require Import Ascii Lia Bool.
From stdpp Require Import base strings list numbers sorting.
From S2P Require Import Prelude Wildcard GoStrings Json Policy.

Section Eval.
Context `{NetLib}.

Definition applies (action resource : string) (s : Statement) : bool :=
  matchesAction s action && matchesResource s resource.

(** The statement forces an explicit Deny. *)
Definition blocks (action resource ip : string) (s : Statement) : bool :=
  applies action resource s &&
  (if (st_Effect s =s "Deny") then
     negb (matchesPrincipal s) || negb (validateConditions s) || matchesConditions s ip
   else (st_Effect s <>s "Allow")).

(** The statement grants. *)
Definition grants (action resource ip : string) (s : Statement) : bool :=
  applies action resource s && (st_Effect s =s "Allow") &&
  matchesPrincipal s && matchesConditions s ip.

Lemma evalStatements_spec stmts action resource ip allow :
  evalStatements stmts action resource ip allow =
  if existsb (blocks action resource ip) stmts then EffectDeny
  else if allow || existsb (grants action resource ip) stmts then EffectAllow
  else EffectImplicitDeny.
Proof.
  revert allow. induction stmts as [|s stmts IH]; intros allow; cbn.
  - by rewrite orb_false_r.
  - unfold blocks at 1, grants at 1, applies.
    destruct (matchesAction s action), (matchesResource s resource); cbn; try apply IH.
    destruct (String.eqb_spec (st_Effect s) "Deny") as [HD|HD]; cbn.
    + rewrite HD. cbn.
      destruct (matchesPrincipal s), (validateConditions s), (matchesConditions s ip);
        cbn; done || apply IH.
    + destruct (st_Effect s =s "Allow"); cbn; [|done].
      rewrite IH. by rewrite orb_assoc.
Qed.

Lemma EvalResource_cases p action resource ip :
  EvalResource p action resource ip =
  if existsb (blocks (canonAction action) resource ip) (pol_Statement p) then EffectDeny
  else if existsb (grants (canonAction action) resource ip) (pol_Statement p) then EffectAllow
  else EffectImplicitDeny.
Proof. apply evalStatements_spec. Qed.

Lemma existsb_Permutation {A} (f : A -> bool) (l l' : list A) :
  l ≡ₚ l' -> existsb f l = existsb f l'.
Proof.
  intros HP. apply eq_iff_eq_true. rewrite !existsb_elem.
  by setoid_rewrite HP.
Qed.

#[export] Instance evalStatements_Permutation :
  Proper ((≡ₚ) ==> eq ==> eq ==> eq ==> eq ==> eq) evalStatements.
Proof.
  intros l l' Hl a ? <- r ? <- ip ? <- b ? <-.
  by rewrite !evalStatements_spec, !(existsb_Permutation _ _ _ Hl).
Qed.

Lemma validateStatements_ok index stmts s :
  validateStatements index stmts = Ok tt -> s ∈ stmts ->
  ((st_Effect s = "Allow" \/ st_Effect s = "Deny") /\
   validateConditions s = true /\ validatePrincipal s = true)%string.
Proof.
  revert index. induction stmts as [|t stmts IH]; intros index Hv Hs; [by apply not_elem_of_nil in Hs|].
  cbn in Hv. guards. apply elem_of_cons in Hs as [->|Hs]; [|by eapply IH].
  bool_split. destruct (String.eqb_spec (st_Effect t) "Allow"); [by auto|].
  destruct (String.eqb_spec (st_Effect t) "Deny"); [by auto|]. naive_solver.
Qed.
End Eval.

(** C7: the evaluation is deny-overrides.  It answers Deny exactly when some statement
    that covers the action and the resource is a Deny that cannot be evaluated or
    matches, or carries an unknown effect; it answers Allow exactly when there is no
    such statement and some covering Allow has a wildcard principal and matching
    conditions. *)
Theorem EvalResource_deny_overrides `{NetLib} p action resource ip :
  let covers s := matchesAction s (canonAction action) = true /\ matchesResource s resource = true in
  let denies s := covers s /\
    ((st_Effect s = "Deny"%string /\
      (matchesPrincipal s = false \/ validateConditions s = false \/ matchesConditions s ip = true)) \/
     (st_Effect s <> "Deny"%string /\ st_Effect s <> "Allow"%string)) in
  let allows s := covers s /\ st_Effect s = "Allow"%string /\
    matchesPrincipal s = true /\ matchesConditions s ip = true in
  (EvalResource p action resource ip = EffectDeny <-> exists s, s ∈ pol_Statement p /\ denies s) /\
  (EvalResource p action resource ip = EffectAllow <->
     ~ (exists s, s ∈ pol_Statement p /\ denies s) /\ exists s, s ∈ pol_Statement p /\ allows s).
Proof.
  intros covers denies allows.
  assert (forall s, blocks (canonAction action) resource ip s = true <-> denies s) as Hb.
  { intros s. unfold blocks, applies, denies, covers.
    destruct (String.eqb_spec (st_Effect s) "Deny"), (String.eqb_spec (st_Effect s) "Allow");
      cbn; autorewrite with aero; intuition (congruence || eauto). }
  assert (forall s, grants (canonAction action) resource ip s = true <-> allows s) as Hg.
  { intros s. unfold grants, applies, allows, covers. autorewrite with aero. tauto. }
  setoid_rewrite <- Hb. setoid_rewrite <- Hg. rewrite <- !existsb_elem, EvalResource_cases.
  destruct (existsb (blocks _ _ _) _), (existsb (grants _ _ _) _); naive_solver.
Qed.

(** The decision does not depend on the order in which the document lists its
    statements. *)
Theorem EvalResource_order_irrelevant `{NetLib} version stmts stmts' action resource ip :
  stmts ≡ₚ stmts' ->
  EvalResource {| pol_Version := version; pol_Statement := stmts |} action resource ip =
  EvalResource {| pol_Version := version; pol_Statement := stmts' |} action resource ip.
Proof. intros Hp. unfold EvalResource. cbn. by rewrite Hp. Qed.

(** Statements for the concrete inputs below. *)
Definition demo_stmt (effect : string) (resource : list string)
    (cond : list (string * list (string * list string))) : Statement := {|
  st_Effect := effect; st_Principal := [("AWS", JString "*")];
  st_Action := ["s3:*"]; st_Resource := resource; st_Condition := cond |}.

Definition demo_ip_cond : list (string * list (string * list string)) :=
  [("IpAddress", [("aws:SourceIp", ["10.0.0.0/8"])])]%string.

Lemma EvalResource_order_irrelevant_witness :
  EvalResource {| pol_Version := ""; pol_Statement :=
      [demo_stmt "Allow" [] []; demo_stmt "Deny" [] demo_ip_cond] |}
    "GetObject" "arn:aws:s3:::b/k" "10.1.1.1" = EffectDeny.
Proof.
  rewrite (EvalResource_order_irrelevant "" _
    [demo_stmt "Deny" [] demo_ip_cond; demo_stmt "Allow" [] []]).
  - vm_compute. reflexivity.
  - apply perm_swap.
Defined.

(** A policy that [ParsePolicy] accepts has only Allow and Deny effects, valid CIDR
    conditions and wildcard principals, so its evaluation never takes the
    unknown-effect or unevaluable-condition branch: it denies exactly when a covering
    Deny matches the source address or has a principal without any value. *)
Theorem ParsePolicy_evaluable `{NetLib} unmarshal doc p action resource ip :
  ParsePolicy unmarshal doc = Ok (Some p) ->
  (forall s, s ∈ pol_Statement p ->
     (st_Effect s = "Allow" \/ st_Effect s = "Deny")%string /\
     validateConditions s = true /\
     forall k v x, (k, v) ∈ st_Principal s -> x ∈ principalValues v -> x = "*"%string) /\
  (EvalResource p action resource ip = EffectDeny <->
     exists s, s ∈ pol_Statement p /\ st_Effect s = "Deny"%string /\
       matchesAction s (canonAction action) = true /\ matchesResource s resource = true /\
       (matchesPrincipal s = false \/ matchesConditions s ip = true)).
Proof.
  unfold ParsePolicy. intros Hp. guards. res_inv. destruct v.
  match goal with H : _ = Ok tt |- _ => pose proof (fun s => validateStatements_ok _ _ s H) as Hv end.
  split.
  - intros st Hs. destruct (Hv st Hs) as (He & Hc & Hpr). repeat split; try done.
    intros k v x Hk Hx. unfold validatePrincipal in Hpr.
    rewrite forallb_elem in Hpr. specialize (Hpr _ Hk). cbn in Hpr.
    rewrite forallb_elem in Hpr. by apply String.eqb_eq, Hpr.
  - rewrite EvalResource_cases. destruct (existsb (blocks _ _ _) _) eqn:E.
    + split; [intros _|done]. apply existsb_elem in E as (st & Hs & Hb).
      destruct (Hv st Hs) as ([He|He] & Hc & _); unfold blocks, applies in Hb;
        rewrite He, ?Hc in Hb; cbn in Hb; autorewrite with aero in Hb; [naive_solver|].
      exists st. intuition congruence.
    + rewrite existsb_none in E. split; [by destruct (existsb (grants _ _ _) _)|].
      intros (st & Hs & He & Ha & Hr & Hm). specialize (E st Hs).
      unfold blocks, applies in E. rewrite He, Ha, Hr in E. cbn in E.
      autorewrite with aero in E. destruct Hm as [Hm|Hm]; rewrite Hm in E; naive_solver.
Qed.

Definition demo_raw (principal : jvalue) : rawStatement := {|
  raw_Effect := "Allow"; raw_Principal := principal; raw_Action := JString "s3:*";
  raw_Resource := JNull; raw_Condition := [] |}.

Definition demo_unmarshal (_ : string) : option (string * list rawStatement) :=
  Some ("2012-10-17", [demo_raw (JString "*")])%string.

Lemma ParsePolicy_evaluable_witness :
  EvalResource {| pol_Version := "2012-10-17";
                  pol_Statement := [UnmarshalJSON (demo_raw (JString "*"))] |}
    "GetObject" "" "10.1.1.1" <> EffectDeny.
Proof.
  intros Hd. eapply (proj2 (ParsePolicy_evaluable demo_unmarshal "{}"
      {| pol_Version := "2012-10-17"; pol_Statement := [UnmarshalJSON (demo_raw (JString "*"))] |}
      "GetObject" "" "10.1.1.1" eq_refl)) in Hd as (s & Hs & He & _).
  apply list_elem_of_singleton in Hs as ->. discriminate He.
Defined.

(** A Principal written as a JSON string other than the star is dropped by
    [UnmarshalJSON], so the statement is accepted and its Allow grants to every
    caller. *)
Theorem principal_string_grants_everyone `{NetLib} raw arn action resource ip :
  raw_Principal raw = JString arn -> arn <> "*"%string ->
  raw_Effect raw = "Allow"%string -> raw_Condition raw = [] ->
  matchesAction (UnmarshalJSON raw) (canonAction action) = true ->
  matchesResource (UnmarshalJSON raw) resource = true ->
  validateStatements 0 [UnmarshalJSON raw] = Ok tt /\
  EvalResource {| pol_Version := ""; pol_Statement := [UnmarshalJSON raw] |}
    action resource ip = EffectAllow.
Proof.
  intros Hp Hne He Hc Ha Hr.
  assert (st_Principal (UnmarshalJSON raw) = []) as HP.
  { cbn. rewrite Hp. apply String.eqb_neq in Hne. by rewrite Hne. }
  assert (st_Condition (UnmarshalJSON raw) = []) as HC by (cbn; by rewrite Hc).
  assert (st_Effect (UnmarshalJSON raw) = "Allow"%string) as HE by done.
  unfold EvalResource. cbn -[UnmarshalJSON]. rewrite Ha, Hr, HE. cbn -[UnmarshalJSON].
  unfold matchesPrincipal, matchesConditions, validateConditions, validatePrincipal.
  by rewrite HP, HC.
Qed.

Lemma principal_string_grants_everyone_witness :
  EvalResource {| pol_Version := ""; pol_Statement :=
      [UnmarshalJSON (demo_raw (JString "arn:aws:iam::1:user/alice"))] |}
    "GetObject" "arn:aws:s3:::b/k" "203.0.113.9" = EffectAllow.
Proof.
  apply (principal_string_grants_everyone (demo_raw (JString "arn:aws:iam::1:user/alice"))
    "arn:aws:iam::1:user/alice" "GetObject" "arn:aws:s3:::b/k" "203.0.113.9");
    first [done | vm_compute; reflexivity].
Defined.
