(* ===== verification/GoErrors.v ===== *)
(** * Go errors

    An error value is a tree: package-level sentinels, errors made at the call
    site, wrappers ([fmt.Errorf] with %w verbs, [errors.Join]), the error types of the
    modelled code with their own [Is] and [Unwrap] methods, and the error types of the
    two database drivers, which carry the database's code.  [Fault] is
    [resourceBoundaryFault] (src/internal/access/resource_boundary.go); [ClassFault] is
    an error type whose [Is] recognizes one sentinel, its class, such as the faults of
    src/internal/events.
    [errors_Is] is package errors' [Is].  A nil error is [None].

    Stateful programs [prog] follow, with lemmas that invert their runs, programs that keep
    a relation ([keeps]) and triples that carry an invariant ([triple]). *)

From Stdlib Require Import ZArith.
From stdpp Require Import base strings list option.
From S2P Require Import Prelude.

Inductive error :=
| Sentinel (name : string)
| NewError (text : string)
| Wrap (text : string) (causes : list error)
| Fault (operation : string) (cause : error)
| ClassFault (class : string) (cause : error)
| SqliteError (code : Z)
| PgError (code constraint : string).

(** Sentinels, named after the package that declares them. *)
Definition ErrDenied : string := "access.ErrDenied".
Definition ErrDisabled : string := "access.ErrDisabled".
Definition ErrInvalidArgument : string := "access.ErrInvalidArgument".
Definition ErrNotFound : string := "access.ErrNotFound".
Definition ErrShareExpired : string := "access.ErrShareExpired".
Definition ErrBadPassword : string := "access.ErrBadPassword".
Definition ErrResourceBoundaryFault : string := "access.ErrResourceBoundaryFault".
Definition ErrSpaceBound : string := "access.ErrSpaceBound".
Definition SpacesErrInvalidArgument : string := "spaces.ErrInvalidArgument".
Definition ErrTenantUnavailable : string := "spaces.ErrTenantUnavailable".
Definition SpacesErrNotFound : string := "spaces.ErrNotFound".
Definition ErrConflict : string := "spaces.ErrConflict".
Definition ErrMemberExists : string := "spaces.ErrMemberExists".
Definition ErrMemberRevoked : string := "spaces.ErrMemberRevoked".
Definition ErrLastAdmin : string := "spaces.ErrLastAdmin".
Definition ErrConcurrent : string := "spaces.ErrConcurrent".
Definition ErrPersistence : string := "spaces.ErrPersistence".
Definition RepoErrNotFound : string := "repository.ErrNotFound".
Definition ErrLegalHoldActive : string := "repository.ErrLegalHoldActive".
Definition ErrNoRows : string := "sql.ErrNoRows".
Definition context_Canceled : string := "context.Canceled".
Definition context_DeadlineExceeded : string := "context.DeadlineExceeded".

Fixpoint errors_Is (e : error) (target : string) : bool :=
  match e with
  | Sentinel name => name =s target
  | NewError _ => false
  | Wrap _ causes => existsb (fun c => errors_Is c target) causes
  | Fault _ cause => (target =s ErrResourceBoundaryFault) || errors_Is cause target
  | ClassFault class cause => (target =s class) || errors_Is cause target
  | SqliteError _ | PgError _ _ => false
  end.

(** [errors.Is] on a possibly nil error. *)
Definition Is (e : option error) (target : string) : bool :=
  match e with
  | Some e => errors_Is e target
  | None => false
  end.

(** [errors.Join]: nil arguments are dropped; all nil gives nil. *)
Definition errors_Join (es : list (option error)) : option error :=
  match omap id es with
  | [] => None
  | l => Some (Wrap "" l)
  end.

(** [fmt.Errorf("%w: text", sentinel)]. *)
Definition errorf (sentinel text : string) : error := Wrap text [Sentinel sentinel].

Abbreviation result A := (res error A).

Lemma errors_Join_two (a b : option error) :
  errors_Join [a; b] = None <-> a = None /\ b = None.
Proof. destruct a, b; cbn; naive_solver. Qed.

(** ** Stateful code with error returns

    A method that reads and writes a store is a function from the store to the store
    it leaves and its (T, error) result. *)

Section Prog.
Context {S : Type}.

Definition prog (A : Type) : Type := S -> S * result A.

Definition ret {A} (a : A) : prog A := fun s => (s, Ok a).
Definition fail {A} (e : error) : prog A := fun s => (s, Err e).

Definition bind {A B} (m : prog A) (k : A -> prog B) : prog B := fun s =>
  match m s with
  | (s', Ok a) => k a s'
  | (s', Err e) => (s', Err e)
  end.

(** A query of the store. *)
Definition reads {A} (f : S -> result A) : prog A := fun s => (s, f s).

(** A command on the store. *)
Definition writes (f : S -> S * option error) : prog unit := fun s =>
  match f s with
  | (s', None) => (s', Ok tt)
  | (s', Some e) => (s', Err e)
  end.

(** [if err := check; err != nil { return err }]. *)
Definition guard (check : S -> option error) : prog unit := fun s =>
  match check s with
  | None => (s, Ok tt)
  | Some e => (s, Err e)
  end.

(** [if cond { return err }]. *)
Definition refuse_if (cond : bool) (e : error) : prog unit :=
  if cond then fail e else ret tt.

Lemma bind_Ok {A B} (m : prog A) (k : A -> prog B) s s' b :
  bind m k s = (s', Ok b) -> exists s1 a, m s = (s1, Ok a) /\ k a s1 = (s', Ok b).
Proof. unfold bind. destruct (m s) as [s1 [a|e]]; [eauto|done]. Qed.

Lemma guard_Ok check s s' u : guard check s = (s', Ok u) -> s' = s /\ check s = None.
Proof. unfold guard. destruct (check s); [done|]. by intros [= <-]. Qed.

Lemma refuse_if_Ok cond e s s' u : refuse_if cond e s = (s', Ok u) -> s' = s /\ cond = false.
Proof. unfold refuse_if. destruct cond; [done|]. by intros [= <-]. Qed.

Lemma reads_Ok {A} (f : S -> result A) s s' a : reads f s = (s', Ok a) -> s' = s /\ f s = Ok a.
Proof. unfold reads. by intros [= <- ->]. Qed.

Lemma writes_Ok f s s' u : writes f s = (s', Ok u) -> f s = (s', None).
Proof. unfold writes. destruct (f s) as [s1 [e|]]; [done|]. by intros [= ->]. Qed.

Lemma ret_Ok {A} (a b : A) s s' : ret a s = (s', Ok b) -> s' = s /\ a = b.
Proof. by intros [= <- <-]. Qed.

(** Running the first step of a program. *)
Lemma run_guard {A} check (k : unit -> prog A) s :
  bind (guard check) k s = match check s with None => k tt s | Some e => (s, Err e) end.
Proof. unfold bind, guard. by destruct (check s). Qed.

Lemma run_refuse {A} c e (k : unit -> prog A) s :
  bind (refuse_if c e) k s = if c then (s, Err e) else k tt s.
Proof. by destruct c. Qed.

Lemma run_reads {A B} (f : S -> result A) (k : A -> prog B) s :
  bind (reads f) k s = match f s with Ok a => k a s | Err e => (s, Err e) end.
Proof. unfold bind, reads. by destruct (f s). Qed.

Lemma run_bind {A B C} (m : prog A) (k : A -> prog B) (h : B -> prog C) s :
  bind (bind m k) h s = bind m (fun a => bind (k a) h) s.
Proof. unfold bind. by destruct (m s) as [s' [a|e]]. Qed.

(** A relation every run of the program, failed ones included, keeps between the
    store before and after. *)
Definition keeps {A} (R : S -> S -> Prop) (m : prog A) : Prop := forall s, R s (fst (m s)).

Section Keeps.
Context (R : S -> S -> Prop) `{!PreOrder R}.

Lemma keeps_ret {A} (a : A) : keeps R (ret a).
Proof. by intros s. Qed.
Lemma keeps_fail {A} (e : error) : keeps R (@fail A e).
Proof. by intros s. Qed.
Lemma keeps_reads {A} (f : S -> result A) : keeps R (reads f).
Proof. by intros s. Qed.
Lemma keeps_guard f : keeps R (guard f).
Proof. intros s. unfold guard. by destruct (f s). Qed.
Lemma keeps_refuse_if c e : keeps R (refuse_if c e).
Proof. intros s. unfold refuse_if. by destruct c. Qed.
Lemma keeps_writes f : (forall s, R s (fst (f s))) -> keeps R (writes f).
Proof. intros Hf s. specialize (Hf s). unfold writes. by destruct (f s) as [s' []]. Qed.
Lemma keeps_bind {A B} (m : prog A) (k : A -> prog B) :
  keeps R m -> (forall a, keeps R (k a)) -> keeps R (bind m k).
Proof.
  intros Hm Hk s. specialize (Hm s). unfold bind.
  destruct (m s) as [s' [a|e]]; [|done]. etrans; [exact Hm|apply Hk].
Qed.

(** Guards whose check does not read the store inform the rest of the program. *)
Lemma keeps_refuse_bind {A} c e (k : unit -> prog A) :
  (c = false -> keeps R (k tt)) -> keeps R (bind (refuse_if c e) k).
Proof. intros Hk s. unfold bind, refuse_if. destruct c; [done|by apply Hk]. Qed.
Lemma keeps_check_bind {A} e (k : unit -> prog A) :
  (e = None -> keeps R (k tt)) -> keeps R (bind (guard (fun _ => e)) k).
Proof. intros Hk s. unfold bind, guard. destruct e; [done|by apply Hk]. Qed.
End Keeps.

(** A program whose only write is its last or its first step needs reflexivity alone. *)
Lemma keeps_read_bind {A B} (R : S -> S -> Prop) (m : prog A) (k : A -> prog B) :
  Reflexive R -> keeps eq m -> (forall a, keeps R (k a)) -> keeps R (bind m k).
Proof.
  intros Hr Hm Hk s. specialize (Hm s). unfold bind.
  destruct (m s) as [s' [a|e]]; cbn in Hm; subst s'; [apply Hk|done].
Qed.

Lemma keeps_bind_read {A B} (R : S -> S -> Prop) (m : prog A) (k : A -> prog B) :
  keeps R m -> (forall a, keeps eq (k a)) -> keeps R (bind m k).
Proof.
  intros Hm Hk s. specialize (Hm s). unfold bind.
  destruct (m s) as [s' [a|e]]; [|done]. by rewrite <- (Hk a s').
Qed.
(** A transaction.  The deferred Rollback: the transaction's writes survive only a commit. *)
Definition in_tx {A} (m : prog A) : prog A := fun db =>
  match m db with
  | (db', Ok a) => (db', Ok a)
  | (_, Err e) => (db, Err e)
  end.

(** [if err != nil { return f(err) }]. *)
Definition map_err {A} (f : error -> error) (m : prog A) : prog A := fun db =>
  match m db with
  | (db', Ok a) => (db', Ok a)
  | (db', Err e) => (db', Err (f e))
  end.

Lemma keeps_map_err {A} (R : S -> S -> Prop) f (m : prog A) : keeps R m -> keeps R (map_err f m).
Proof. intros Hm s. specialize (Hm s). unfold map_err. by destruct (m s) as [s' [a|e]]. Qed.
Lemma in_tx_Ok {A} (m : prog A) db db' a : in_tx m db = (db', Ok a) -> m db = (db', Ok a).
Proof. unfold in_tx. destruct (m db) as [s [x|e]]; [done|done]. Qed.

Lemma in_tx_Err {A} (m : prog A) db db' e : in_tx m db = (db', Err e) -> db' = db.
Proof. unfold in_tx. destruct (m db) as [s [x|e']]; [done|by intros [= <-]]. Qed.

Lemma map_err_Ok {A} f (m : prog A) db db' a :
  map_err f m db = (db', Ok a) -> m db = (db', Ok a).
Proof. unfold map_err. destruct (m db) as [s [x|e]]; [done|done]. Qed.

Lemma keeps_in_tx {A} (R : S -> S -> Prop) `{!Reflexive R} (m : prog A) :
  (forall s s' a, m s = (s', Ok a) -> R s s') -> keeps R (in_tx m).
Proof.
  intros Hm s. unfold in_tx. destruct (m s) as [s' [a|e]] eqn:E; cbn; [by eapply Hm|done].
Qed.
End Prog.
Arguments prog : clear implicits.

Notation "'do!' x := m 'in' k" := (bind m (fun x => k))
  (at level 10, x name, m at level 100, k at level 200) : aero_scope.
Notation "'run!' m 'in' k" := (bind m (fun _ => k))
  (at level 10, m at level 100, k at level 200) : aero_scope.

(** *** Hoare triples with one invariant *)

Section Triple.
Context {S : Type} (I : S -> Prop).

(** From a state with [I] every run ends in one, and a success answers [Q]. *)
Definition triple {A} (m : prog S A) (Q : A -> Prop) : Prop :=
  forall s, I s -> I (fst (m s)) /\ match snd (m s) with Ok a => Q a | Err _ => True end.

Lemma triple_bind {A C} (m : prog S A) (k : A -> prog S C) Q R :
  triple m Q -> (forall a, Q a -> triple (k a) R) -> triple (bind m k) R.
Proof.
  intros Hm Hk s Hi. specialize (Hm s Hi). unfold bind. destruct (m s) as [s' [a|e]]; [|by destruct Hm].
  destruct Hm as [Hi' Hq]. by apply Hk.
Qed.

Lemma triple_weaken {A} (m : prog S A) (Q R : A -> Prop) : (forall a, Q a -> R a) -> triple m Q -> triple m R.
Proof. intros Hw Hm s Hi. destruct (Hm s Hi) as [Hi' Hq]. split; [done|]. destruct (snd (m s)); [by apply Hw|done]. Qed.

Lemma triple_map_err {A} f (m : prog S A) Q : triple m Q -> triple (map_err f m) Q.
Proof. intros Hm s Hi. specialize (Hm s Hi). unfold map_err. by destruct (m s) as [s' [a|e]]. Qed.

Lemma triple_false {A} (m : prog S A) Q : triple m (fun _ => False) -> triple m Q.
Proof. by apply triple_weaken. Qed.

Lemma triple_ret {A} (a : A) (Q : A -> Prop) : Q a -> triple (ret a) Q.
Proof. by intros Hq s Hi. Qed.

Lemma triple_fail {A} e (Q : A -> Prop) : triple (fail e) Q.
Proof. by intros s Hi. Qed.

Lemma triple_refuse c e : triple (refuse_if c e) (fun _ => c = false).
Proof. intros s Hi. unfold refuse_if. by destruct c. Qed.

Lemma triple_guard check : triple (guard check) (fun _ => True).
Proof. intros s Hi. unfold guard. by destruct (check s). Qed.

Lemma triple_reads {A} (f : S -> result A) (Q : A -> Prop) : (forall s a, I s -> f s = Ok a -> Q a) -> triple (reads f) Q.
Proof. intros Hf s Hi. unfold reads. split; [done|]. destruct (f s) eqn:E; [by eapply Hf|done]. Qed.
End Triple.

(** Splits a successful run into the successes of its steps. *)
Ltac prog_inv :=
  repeat match goal with
  | H : bind _ _ _ = (_, Ok _) |- _ =>
      let s1 := fresh "st" in let a := fresh "v" in let H1 := fresh "Hrun" in
      apply bind_Ok in H as (s1 & a & H1 & H)
  | H : guard _ _ = (_, Ok _) |- _ => apply guard_Ok in H as [-> H]
  | H : refuse_if _ _ _ = (_, Ok _) |- _ => apply refuse_if_Ok in H as [-> H]
  | H : reads _ _ = (_, Ok _) |- _ => apply reads_Ok in H as [-> H]
  | H : writes _ _ = (_, Ok _) |- _ => apply writes_Ok in H
  | H : ret _ _ = (_, Ok _) |- _ => apply ret_Ok in H as [-> H]
  | H : fail _ _ = (_, Ok _) |- _ => discriminate H
  end.

(** Reduces [keeps] of a program to its writes and the calls it makes. *)
Ltac keeps_tac :=
  repeat match goal with
  | |- keeps _ (ret _) => apply keeps_ret; apply _
  | |- keeps _ (fail _) => apply keeps_fail; apply _
  | |- keeps _ (reads _) => apply keeps_reads; apply _
  | |- keeps _ (guard _) => apply keeps_guard; apply _
  | |- keeps _ (refuse_if _ _) => apply keeps_refuse_if; apply _
  | |- keeps _ (bind _ _) => apply keeps_bind; [apply _| |intros ?]
  | |- keeps _ (if ?c then _ else _) => destruct c
  end.
