(* ===== verification/Sql.v ===== *)
(** * SQL statements on tables

    A table is the list of its rows.  UPDATE, DELETE, single-row queries, ORDER BY and
    constraint violations as the repository's statements use them (SQLite's binary
    text order), with the lemmas about rows that the stores share. *)
From Stdlib Require Import Lia Bool ZArith.
From stdpp Require Import base strings list sorting relations.
From S2P Require Import Prelude GoErrors.

(** SQLITE_CONSTRAINT_UNIQUE and SQLITE_CONSTRAINT_FOREIGNKEY. *)
Definition unique_violation : error := SqliteError 2067.
Definition foreign_key_violation : error := SqliteError 787.

Inductive dialect := dialectSQLite | dialectPostgres.

#[export] Instance dialect_eq_dec : EqDecision dialect.
Proof. solve_decision. Defined.

(** Constraint violations by dialect: CHECK, PRIMARY KEY, UNIQUE, FOREIGN KEY. *)
Definition check_violation (d : dialect) : error :=
  match d with dialectSQLite => SqliteError 275 | dialectPostgres => PgError "23514" "" end.
Definition pkey_violation (d : dialect) (name : string) : error :=
  match d with dialectSQLite => SqliteError 1555 | dialectPostgres => PgError "23505" name end.
Definition uq_violation (d : dialect) (name : string) : error :=
  match d with dialectSQLite => unique_violation | dialectPostgres => PgError "23505" name end.
Definition fkey_violation (d : dialect) : error :=
  match d with dialectSQLite => foreign_key_violation | dialectPostgres => PgError "23503" "" end.

(** The id sequence is used up: SQLITE_FULL, or sequence_generator_limit_exceeded. *)
Definition sequence_exhausted (d : dialect) : error :=
  match d with dialectSQLite => SqliteError 13 | dialectPostgres => PgError "2200H" "" end.

(** sql_helpers.go. *)
Definition defaultTenant (t : string) : string := if (t =s "") then "default" else t.

(** [UPDATE ... SET f WHERE p] and [DELETE ... WHERE p]. *)
Definition update_where {A} (p : A -> bool) (f : A -> A) (l : list A) : list A :=
  map (fun x => if p x then f x else x) l.
Definition delete_where {A} (p : A -> bool) (l : list A) : list A :=
  List.filter (fun x => negb (p x)) l.

(** [QueryRow ... WHERE p]. *)
Definition query_row {A} (p : A -> bool) (l : list A) : result A :=
  match List.find p l with
  | Some x => Ok x
  | None => Err (Sentinel ErrNotFound)
  end.

(** QueryRow: sql.ErrNoRows when no row matches. *)
Definition query_one {A} (p : A -> bool) (l : list A) : result A :=
  match List.find p l with
  | Some x => Ok x
  | None => Err (Sentinel ErrNoRows)
  end.

(** A row of the table has the key: UNIQUE and FOREIGN KEY tests. *)
Definition clash {A K} `{EqDecision K} (key : A -> K) (l : list A) (k : K) : bool :=
  existsb (fun r => bool_decide (key r = k)) l.

(** Lexicographic [ORDER BY]: [lt] decides, ties go to the next column. *)
Definition then_by (lt_ab lt_ba rest : bool) : bool := if lt_ab then true else if lt_ba then false else rest.

Definition sort_by {A} (le : A -> A -> bool) (l : list A) : list A :=
  merge_sort (fun a b => Is_true (le a b)) l.

Definition text_le (a b : string) : bool := negb (String.ltb b a).

(** ** Rows *)

Lemma elem_sort_by {A} (le : A -> A -> bool) (l : list A) x : x ∈ sort_by le l <-> x ∈ l.
Proof. unfold sort_by. by rewrite merge_sort_Permutation. Qed.

Lemma length_sort_by {A} (le : A -> A -> bool) (l : list A) : length (sort_by le l) = length l.
Proof. apply Permutation_length, merge_sort_Permutation. Qed.

Lemma elem_filter_b {A} (p : A -> bool) (l : list A) x :
  x ∈ List.filter p l <-> x ∈ l /\ p x = true.
Proof. by rewrite !list_elem_of_In, filter_In. Qed.

Lemma elem_delete_where {A} (p : A -> bool) (l : list A) x :
  x ∈ delete_where p l <-> x ∈ l /\ p x = false.
Proof. unfold delete_where. by rewrite elem_filter_b, negb_true_iff. Qed.

Lemma elem_update_where {A} (p : A -> bool) (f : A -> A) (l : list A) y :
  y ∈ update_where p f l <-> (exists x, x ∈ l /\ p x = true /\ y = f x) \/ (y ∈ l /\ p y = false).
Proof.
  unfold update_where. rewrite list_elem_of_fmap. split.
  - intros (x & -> & Hx). destruct (p x) eqn:E; [left; eauto|by right].
  - intros [(x & Hx & E & ->)|[Hy E]]; [exists x|exists y]; by rewrite E.
Qed.

Lemma map_update_where {A B} (k : A -> B) (p : A -> bool) (f : A -> A) (l : list A) :
  (forall x, k (f x) = k x) -> map k (update_where p f l) = map k l.
Proof.
  intros Hk. unfold update_where. rewrite map_map. apply map_ext. intros x. by destruct (p x).
Qed.

Lemma map_delete_where_NoDup {A B} (k : A -> B) (p : A -> bool) (l : list A) :
  NoDup (map k l) -> NoDup (map k (delete_where p l)).
Proof.
  induction l as [|x l IH]; [done|]. cbn. intros [Hx Hl]%list.NoDup_cons.
  destruct (negb (p x)); cbn; [|by apply IH].
  apply list.NoDup_cons. split; [|by apply IH]. intros (y & Hy & Hin)%list_elem_of_fmap.
  apply elem_delete_where in Hin as [Hin _]. apply Hx. rewrite Hy. by apply list_elem_of_fmap_2.
Qed.

Lemma NoDup_map_inj {A B} (k : A -> B) (l : list A) x y :
  NoDup (map k l) -> x ∈ l -> y ∈ l -> k x = k y -> x = y.
Proof.
  induction l as [|z l IH]; cbn; [by intros _ ?%not_elem_of_nil|].
  intros [Hz Hl]%list.NoDup_cons Hx Hy Hk.
  apply elem_of_cons in Hx as [->|Hx]; apply elem_of_cons in Hy as [->|Hy]; auto.
  - destruct Hz. rewrite Hk. by apply list_elem_of_fmap_2.
  - destruct Hz. rewrite <- Hk. by apply list_elem_of_fmap_2.
Qed.

Lemma NoDup_map_snoc {A B} (k : A -> B) (l : list A) x :
  NoDup (map k l) -> (forall y, y ∈ l -> k y <> k x) -> NoDup (map k (l ++ [x])).
Proof.
  intros Hl Hx. rewrite map_app. apply list.NoDup_app. split; [done|].
  split; [|by apply list.NoDup_singleton].
  intros b (y & -> & Hy)%list_elem_of_fmap Hb. apply list_elem_of_singleton in Hb. by apply (Hx y).
Qed.

Lemma query_row_Ok {A} (p : A -> bool) (l : list A) x :
  query_row p l = Ok x -> x ∈ l /\ p x = true.
Proof.
  unfold query_row. destruct (List.find p l) eqn:E; [|done]. intros [= ->].
  apply find_some in E as [? ?]. split; [by apply list_elem_of_In|done].
Qed.

Lemma query_row_Err {A} (p : A -> bool) (l : list A) e :
  query_row p l = Err e -> e = Sentinel ErrNotFound /\ forall x, x ∈ l -> p x = false.
Proof.
  unfold query_row. destruct (List.find p l) eqn:E; [done|]. intros [= <-]. split; [done|].
  intros x Hx. apply (find_none _ _ E). by apply list_elem_of_In.
Qed.

(** A query by a unique column answers the row that has it. *)
Lemma query_row_unique {A} (k : A -> string) (l : list A) x :
  NoDup (map k l) -> x ∈ l -> query_row (fun y => k y =s k x) l = Ok x.
Proof.
  intros Hn Hx. destruct (query_row _ _) as [y|e] eqn:E.
  - apply query_row_Ok in E as [Hy Hk]. apply streqb_true in Hk.
    f_equal. by apply (NoDup_map_inj k l).
  - apply query_row_Err in E as [_ E]. specialize (E x Hx). by rewrite streqb_refl in E.
Qed.

Lemma query_one_Ok {A} (p : A -> bool) l x : query_one p l = Ok x -> List.find p l = Some x.
Proof. unfold query_one. destruct (List.find p l); [by intros [= ->]|done]. Qed.

Lemma clash_true {A K} `{EqDecision K} (key : A -> K) l k : clash key l k = true <-> k ∈ map key l.
Proof.
  unfold clash. rewrite existsb_elem, list_elem_of_fmap. setoid_rewrite bool_decide_eq_true.
  split; intros (x & Hx & Hk); exists x; split; congruence.
Qed.

Lemma clash_false {A K} `{EqDecision K} (key : A -> K) l k : clash key l k = false <-> k ∉ map key l.
Proof. rewrite <- clash_true. by destruct (clash key l k). Qed.

Lemma elem_map_update {A B} (k : A -> B) p f (l : list A) b :
  (forall x, k (f x) = k x) -> b ∈ map k (update_where p f l) <-> b ∈ map k l.
Proof. intros Hk. by rewrite map_update_where. Qed.

Lemma existsb_id {A} (k : A -> string) (l : list A) id :
  existsb (fun x => k x =s id) l = true <-> id ∈ map k l.
Proof.
  rewrite existsb_elem, list_elem_of_fmap. setoid_rewrite streqb_true.
  split; intros (x & Hx & Hk); exists x; split; congruence.
Qed.

(** The first row in the order of a total preorder is a least one. *)
Lemma sort_by_head {A} (le : A -> A -> bool) (l : list A) x rest :
  (forall a b, le a b = true \/ le b a = true) ->
  (forall a b c, le a b = true -> le b c = true -> le a c = true) ->
  sort_by le l = x :: rest -> x ∈ l /\ forall y, y ∈ l -> le x y = true.
Proof.
  intros Ht Htr Hs.
  assert (Sorted (fun a b => Is_true (le a b)) (sort_by le l)) as Hsort.
  { apply Sorted_merge_sort. intros a b. destruct (Ht a b) as [H|H]; [left|right]; by rewrite H. }
  apply Sorted_StronglySorted in Hsort; [|intros a b c H1 H2; apply Is_true_eq_true in H1, H2;
    apply Is_true_eq_left; eauto].
  assert (forall y, y ∈ l -> y ∈ sort_by le l) as Hin by (intros y; by rewrite elem_sort_by).
  split; [apply (elem_sort_by le); rewrite Hs; by left|].
  intros y Hy%Hin. rewrite Hs in *. apply StronglySorted_inv in Hsort as [_ Hall].
  apply elem_of_cons in Hy as [->|Hy].
  - destruct (Ht x x); done.
  - rewrite list.Forall_forall in Hall. by apply Is_true_eq_true, Hall.
Qed.

(** ** Filtered rows *)

Lemma filter_none {A} (p : A -> bool) l : (forall x, x ∈ l -> p x = false) -> List.filter p l = [].
Proof.
  induction l as [|x l IH]; cbn; [done|]. intros Hp. rewrite (Hp x) by by left.
  apply IH. intros y Hy. apply Hp. by right.
Qed.

Lemma filter_all {A} (p : A -> bool) (l : list A) : (forall x, x ∈ l -> p x = true) -> List.filter p l = l.
Proof.
  induction l as [|x l IH]; cbn; [done|]. intros Hp. rewrite (Hp x) by by left.
  f_equal. apply IH. intros y Hy. apply Hp. by right.
Qed.

Lemma filter_perm {A} (p : A -> bool) (l k : list A) : l ≡ₚ k -> List.filter p l ≡ₚ List.filter p k.
Proof.
  induction 1 as [|x l k _ IH|x y l|l k j _ IH1 _ IH2]; cbn; [done| | |by etrans].
  - destruct (p x); [by constructor|done].
  - destruct (p x), (p y); try done. constructor.
Qed.

Lemma NoDup_map_filter {A K} (key : A -> K) (p : A -> bool) (l : list A) :
  NoDup (map key l) -> NoDup (map key (List.filter p l)).
Proof.
  intros Hn. rewrite <- (List.filter_ext (fun x => negb (negb (p x)))) by (intros; apply negb_involutive).
  apply (map_delete_where_NoDup key (fun x => negb (p x)) l Hn).
Qed.

Lemma find_snoc {A} (p : A -> bool) l x :
  List.find p (l ++ [x]) =
  match List.find p l with Some y => Some y | None => if p x then Some x else None end.
Proof. induction l as [|y l IH]; cbn; [done|]. by destruct (p y). Qed.

Lemma filter_snoc {A} (p : A -> bool) l x :
  List.filter p (l ++ [x]) = List.filter p l ++ (if p x then [x] else []).
Proof. rewrite List.filter_app. cbn. by destruct (p x). Qed.

Lemma filter_filter {A} (p q : A -> bool) l :
  List.filter q (List.filter p l) = List.filter (fun x => p x && q x) l.
Proof. induction l as [|x l IH]; cbn; [done|]. destruct (p x); cbn; [by rewrite IH|done]. Qed.

(** ** Updates *)

(** Two updates of disjoint sets of rows are one. *)
Lemma update_where_union {A} (p q : A -> bool) (f : A -> A) l :
  (forall x, x ∈ l -> p x = true -> q (f x) = false) ->
  update_where q f (update_where p f l) = update_where (fun x => p x || q x) f l.
Proof.
  intros Hq. unfold update_where. rewrite map_map. apply map_ext_in. intros x Hx.
  destruct (p x) eqn:Hp; cbn; [|done]. rewrite Hq; [done| |done]. by apply list_elem_of_In.
Qed.

Lemma update_where_ext {A} (p q : A -> bool) (f : A -> A) l :
  (forall x, x ∈ l -> p x = q x) -> update_where p f l = update_where q f l.
Proof. intros H. apply map_ext_in. intros x Hx. rewrite H; [done|]. by apply list_elem_of_In. Qed.

Lemma update_where_none {A} (p : A -> bool) (f : A -> A) l :
  (forall x, x ∈ l -> p x = false) -> update_where p f l = l.
Proof.
  intros H. unfold update_where. rewrite <- (map_id l) at 2. apply map_ext_in. intros x Hx.
  rewrite H; [done|]. by apply list_elem_of_In.
Qed.

(** The rows of a table with a unique key that a condition on the key selects. *)
Lemma find_unique {A K} `{EqDecision K} (key : A -> K) (p : A -> bool) l x :
  NoDup (map key l) -> x ∈ l -> p x = true -> (forall y, y ∈ l -> p y = true -> key y = key x) ->
  List.find p l = Some x.
Proof.
  intros Hn Hx Hp Hk. destruct (List.find p l) as [y|] eqn:E.
  - apply find_some in E as [Hy Hpy]. apply list_elem_of_In in Hy. f_equal.
    apply (NoDup_map_inj key l); auto.
  - pose proof (find_none _ _ E x). rewrite H in Hp; [done|]. by apply list_elem_of_In.
Qed.

Lemma filter_unique {A K} `{EqDecision K} (key : A -> K) (p : A -> bool) l x :
  NoDup (map key l) -> x ∈ l -> p x = true -> (forall y, y ∈ l -> p y = true -> key y = key x) ->
  List.filter p l = [x].
Proof.
  induction l as [|y l IH]; intros Hn Hx Hp Hk; [by apply not_elem_of_nil in Hx|].
  cbn in Hn. apply list.NoDup_cons in Hn as [Hy Hn]. cbn. apply elem_of_cons in Hx as [->|Hx].
  - rewrite Hp. f_equal. apply filter_none. intros z Hz. destruct (p z) eqn:E; [|done].
    destruct Hy. rewrite <- (Hk z); [by apply list_elem_of_fmap_2|by right|done].
  - destruct (p y) eqn:E.
    + destruct Hy. rewrite (Hk y); [by apply list_elem_of_fmap_2|by left|done].
    + apply IH; [done|done|done|]. intros z Hz. apply Hk. by right.
Qed.

(** * Worklist closure of a finite graph

    The evaluation of a [WITH RECURSIVE ... UNION ...] query: rows enter the queue when
    they are new, each row is expanded once.  It terminates on every finite graph,
    cycles included, and computes exactly the reachable rows. *)
Section Closure.
Context {A : Type} `{EqDecision A} (succ : A -> list A).

(** The new rows among [l], without duplicates. *)
Definition fresh (seen l : list A) : list A :=
  remove_dups (List.filter (fun x => negb (bool_decide (x ∈ seen))) l).

Definition closure_step (st : list A * list A) : (list A * list A) + list A :=
  match st with
  | (seen, []) => inr seen
  | (seen, x :: queue) =>
      let new := fresh seen (succ x) in inl (seen ++ new, queue ++ new)
  end.

(** Rows reachable from [init]; the universe bounds the number of distinct rows. *)
Definition closure (universe init : list A) : option (list A) :=
  let start := remove_dups init in
  iter_fuel closure_step (S (length universe)) (start, start).

Definition edge (a b : A) : Prop := b ∈ succ a.
Definition reachable (init : list A) (x : A) : Prop := exists a, a ∈ init /\ rtc edge a x.

Lemma elem_fresh seen l x : x ∈ fresh seen l <-> x ∈ l /\ x ∉ seen.
Proof.
  unfold fresh. rewrite list.elem_of_remove_dups, list_elem_of_In, filter_In, <- list_elem_of_In.
  by rewrite negb_true_iff, bool_decide_eq_false.
Qed.

Context (universe init : list A).
Hypothesis Hinit : init ⊆ universe.
Hypothesis Hsucc : forall x y, x ∈ universe -> y ∈ succ x -> y ∈ universe.

Definition closure_inv (st : list A * list A) : Prop :=
  let '(seen, queue) := st in
  NoDup seen /\ seen ⊆ universe /\ queue ⊆ seen /\ init ⊆ seen /\
  (forall x, x ∈ seen -> reachable init x) /\
  (forall x, x ∈ seen -> x ∈ queue \/ succ x ⊆ seen) /\
  length queue <= length seen.

Definition closure_measure (st : list A * list A) : nat :=
  length (snd st) + (length universe - length (fst st)).

Lemma NoDup_bound (l : list A) : NoDup l -> l ⊆ universe -> length l <= length universe.
Proof. intros Hn Hs. by apply submseteq_length, NoDup_submseteq. Qed.

Lemma closure_step_inl st st' :
  closure_inv st -> closure_step st = inl st' ->
  closure_inv st' /\ closure_measure st' < closure_measure st.
Proof.
  destruct st as [seen [|x queue]]; [done|].
  intros (Hn & Hu & Hq & Hi & Hr & Hc & Hl) [= <-]. set (new := fresh seen (succ x)).
  assert (x ∈ seen) as Hx by (apply Hq; by left).
  assert (new ⊆ universe) as Hnu.
  { intros y Hy. apply elem_fresh in Hy as [Hy _]. by eapply Hsucc; [apply Hu|]. }
  assert (NoDup (seen ++ new)) as Hn'.
  { apply list.NoDup_app. split; [done|]. split; [|apply list.NoDup_remove_dups].
    intros y Hy Hy'. by apply elem_fresh in Hy' as [_ ?]. }
  assert (length (seen ++ new) <= length universe) as Hlen.
  { apply NoDup_bound; [done|]. intros y [?|?]%elem_of_app; auto. }
  rewrite length_app in Hlen. split.
  - repeat split; cbn -[length] in *; rewrite ?length_app; cbn in *; try lia.
    + done.
    + intros y [?|?]%elem_of_app; auto.
    + intros y [Hy|Hy]%elem_of_app; apply elem_of_app; [left; apply Hq; by right|by right].
    + intros y Hy. apply elem_of_app. left. auto.
    + intros y [Hy|Hy]%elem_of_app; [by apply Hr|]. apply elem_fresh in Hy as [Hy _].
      destruct (Hr x Hx) as (a & Ha & Hax). exists a. split; [done|].
      by eapply rtc_r.
    + intros y [Hy|Hy]%elem_of_app; [|left; apply elem_of_app; by right].
      destruct (Hc y Hy) as [Hyq|Hys].
      * apply elem_of_cons in Hyq as [->|Hyq]; [|left; apply elem_of_app; by left].
        right. intros z Hz. apply elem_of_app.
        destruct (decide (z ∈ seen)); [by left|right; by apply elem_fresh].
      * right. intros z Hz. apply elem_of_app. left. auto.
  - unfold closure_measure. cbn. rewrite !length_app. lia.
Qed.

Lemma closure_step_inr st out :
  closure_inv st -> closure_step st = inr out -> forall x, x ∈ out <-> reachable init x.
Proof.
  destruct st as [seen [|y queue]]; [|done].
  intros (_ & _ & _ & Hi & Hr & Hc & _) [= <-] x. split; [apply Hr|].
  intros (a & Ha & Hax). apply Hi in Ha. revert Ha. induction Hax as [|a b x Hab _ IH]; [done|].
  intros Ha. apply IH. destruct (Hc a Ha) as [Hq|Hs]; [by apply not_elem_of_nil in Hq|].
  by apply Hs.
Qed.

Lemma closure_spec :
  exists out, closure universe init = Some out /\ forall x, x ∈ out <-> reachable init x.
Proof.
  unfold closure. apply (iter_fuel_total _ closure_inv _ closure_measure).
  - intros s s'. apply closure_step_inl.
  - intros s r. apply closure_step_inr.
  - repeat split; [apply list.NoDup_remove_dups| | | | | |done]; intros x;
      rewrite ?list.elem_of_remove_dups; auto.
    intros Hx. by exists x.
  - unfold closure_measure. cbn.
    assert (length (remove_dups init) <= length universe); [|lia].
    apply NoDup_bound; [apply list.NoDup_remove_dups|].
    intros x. rewrite list.elem_of_remove_dups. auto.
Qed.
End Closure.
