(* ===== verification/JsonStruct.v ===== *)
(** * JSON of structs and of string maps

    How the code's structs are written ([str], [int] and the omitempty variants) and read
    ([string_elem], [pointer_field], [kv_field], [time_field]), and what survives the round trip:
    [sound] values are written and read back ([Unmarshal_object]), a map[string]string
    is read back whole ([kv_back]). *)

From Stdlib Require Import Ascii Lia Bool ZArith.
From stdpp Require Import base gmap strings list numbers option pretty sorting.
From S2P Require Import Prelude GoStrings Json JsonProps GoTime GoErrors Sql.

Open Scope Z_scope.

(** A map[string]string. *)
Abbreviation kv := (gmap string string).

(** ** Writing *)

Abbreviation member := (string * jvalue)%type.

Definition str (name value : string) : member := (name, JString value).
Definition int (name : string) (value : Z) : member := (name, JInt value).

(** omitempty. *)
Definition omit_str (name value : string) : list member := if (value =s "") then [] else [str name value].
Definition omit_int (name : string) (value : Z) : list member := if value =? 0 then [] else [int name value].
Definition omit_strs (name : string) (values : list string) : list member :=
  match values with [] => [] | _ => [(name, JArray (map JString values))] end.

(** The members of a map[string]string, in the order of the keys. *)
Definition kv_json (m : kv) : jvalue :=
  JObject (map (fun '(k, v) => (k, JString v)) (sort_by (fun a b => text_le (fst a) (fst b)) (map_to_list m))).

(** ** Reading *)

(** An element of a []string: a null is the zero string. *)
Definition string_elem (v : jvalue) : option string := string_field [v] "".

(** A field of type *int64, and of type map[string]string. *)
Fixpoint pointer_field (vs : list jvalue) (p : option Z) : option (option Z) :=
  match vs with
  | [] => Some p
  | JNum lit :: rest => match ParseInt64 lit with Some n => pointer_field rest (Some n) | None => None end
  | JNull :: rest => pointer_field rest None
  | _ => None
  end.

Fixpoint kv_members (o : list (string * jvalue)) (m : kv) : option kv :=
  match o with
  | [] => Some m
  | (k, v) :: rest => match string_elem v with Some s => kv_members rest (<[k := s]> m) | None => None end
  end.

Fixpoint kv_field (vs : list jvalue) (m : kv) : option kv :=
  match vs with
  | [] => Some m
  | JObject o :: rest => match kv_members o m with Some m' => kv_field rest m' | None => None end
  | JNull :: rest => kv_field rest ∅
  | _ => None
  end.

(** A field of type time.Time. *)
Fixpoint time_field (vs : list jvalue) (t : time) : option time :=
  match vs with
  | [] => Some t
  | JString s :: rest => match ParseRFC3339 s with Some t' => time_field rest t' | None => None end
  | JNull :: rest => time_field rest t
  | _ => None
  end.

(** ** Round trips *)

Lemma int64_JInt n d : int64 n -> int64_field [JInt n] d = Some n.
Proof. intros H. cbn. by rewrite ParseInt64_pretty. Qed.

Lemma strings_back l : mapM string_elem (map JString l) = Some l.
Proof. induction l as [|s l IH]; [done|]. cbn. by rewrite IH. Qed.

Definition members (v : jvalue) : list (string * jvalue) := match v with JObject o => o | _ => [] end.

Definition all_utf8 (l : list string) : Prop := Forall (fun s => utf8_ValidString s = true) l.

(** A value that is written and read back at a depth, also into [any]. *)
Definition sound (d : Z) (v : jvalue) : Prop := marshals d v = true /\ any_ok v = true.
Definition member_ok (d : Z) (m : string * jvalue) : Prop := utf8_ValidString (fst m) = true /\ sound d (snd m).

Lemma sound_object d o : d < maxNestingDepth -> Forall (member_ok (d + 1)) o -> sound d (JObject o).
Proof.
  intros Hd Ho. unfold sound. cbn [marshals any_ok]. rewrite (proj2 (Z.ltb_lt _ _) Hd). cbn [andb].
  induction Ho as [|[k x] o [Hk [Hx Ha]] _ [IH1 IH2]]; [done|]. cbn in *. rewrite Hk, Hx, Ha. by rewrite IH1, IH2.
Qed.

Lemma sound_array d l : d < maxNestingDepth -> Forall (sound (d + 1)) l -> sound d (JArray l).
Proof.
  intros Hd Hl. unfold sound. cbn [marshals any_ok]. rewrite (proj2 (Z.ltb_lt _ _) Hd). cbn [andb].
  induction Hl as [|x l [Hx Ha] _ [IH1 IH2]]; [done|]. cbn. rewrite Hx, Ha. by rewrite IH1, IH2.
Qed.

Lemma ok_str d k v : utf8_ValidString k = true -> utf8_ValidString v = true -> member_ok d (str k v).
Proof. by split. Qed.
Lemma ok_int d k n : utf8_ValidString k = true -> int64 n -> member_ok d (int k n).
Proof. split; [done|]. split; [apply pretty_number_literal|by apply float64_pretty]. Qed.
Lemma ok_omit_str d k v : utf8_ValidString k = true -> utf8_ValidString v = true -> Forall (member_ok d) (omit_str k v).
Proof. intros. unfold omit_str. destruct (_ =s _); [constructor|]. constructor; [by apply ok_str|constructor]. Qed.
Lemma ok_omit_int d k n : utf8_ValidString k = true -> int64 n -> Forall (member_ok d) (omit_int k n).
Proof. intros. unfold omit_int. destruct (_ =? _); [constructor|]. constructor; [by apply ok_int|constructor]. Qed.
Lemma ok_omit_strs d k l :
  d < maxNestingDepth -> utf8_ValidString k = true -> all_utf8 l -> Forall (member_ok d) (omit_strs k l).
Proof.
  intros Hd Hk Hl. unfold omit_strs. destruct l as [|s l]; [constructor|]. constructor; [|constructor].
  split; [done|]. apply sound_array; [done|]. apply Forall_map. eapply List.Forall_impl; [|exact Hl]. by split.
Qed.
Create HintDb payload.
#[export] Hint Resolve ok_str ok_int ok_omit_str ok_omit_int ok_omit_strs : payload.

Ltac members_ok := repeat first [apply Forall_nil_2|apply Forall_cons_2]; auto with payload; try done.

(** Fields that are left out when empty read back as what they were. *)
Lemma assigned_app names l1 l2 n : assigned names (l1 ++ l2) n = (assigned names l1 n ++ assigned names l2 n)%list.
Proof. unfold assigned. by rewrite List.filter_app, map_app. Qed.

Lemma assigned_one names k v n :
  target names k = Some k -> assigned names [(k, v)] n = if (k =s n) then [v] else [].
Proof. intros Hk. unfold assigned. cbn. rewrite Hk. by destruct (k =s n). Qed.

Lemma assigned_omit_str names k v n :
  target names k = Some k ->
  assigned names (omit_str k v) n = if (k =s n) then if (v =s "") then [] else [JString v] else [].
Proof. intros Hk. unfold omit_str. destruct (v =s ""); [by destruct (k =s n)|]. by apply assigned_one. Qed.

Lemma assigned_omit_int names k v n :
  target names k = Some k -> assigned names (omit_int k v) n = if (k =s n) then if v =? 0 then [] else [JInt v] else [].
Proof. intros Hk. unfold omit_int. destruct (v =? 0); [by destruct (k =s n)|]. by apply assigned_one. Qed.

Lemma assigned_omit_strs names k l n :
  target names k = Some k ->
  assigned names (omit_strs k l) n = if (k =s n) then match l with [] => [] | _ => [JArray (map JString l)] end else [].
Proof. intros Hk. unfold omit_strs. destruct l; [by destruct (k =s n)|]. by apply assigned_one. Qed.

Lemma string_omitted v : string_field (if (v =s "") then [] else [JString v]) "" = Some v.
Proof. destruct (v =s "") eqn:E; [by apply streqb_true in E as ->|done]. Qed.

Lemma int64_omitted n : int64 n -> int64_field (if n =? 0 then [] else [JInt n]) 0 = Some n.
Proof. intros Hn. destruct (Z.eqb_spec n 0) as [->|]; [done|]. cbn. by rewrite ParseInt64_pretty. Qed.

Lemma strings_omitted l :
  slice_field string_elem (match l with [] => [] | _ => [JArray (map JString l)] end) [] = Some l.
Proof. destruct l as [|s l]; [done|]. cbn [slice_field]. by rewrite strings_back. Qed.

(** The text of a sound object, decoded into a struct, a raw map and a map of any. *)
Lemma Unmarshal_object o :
  sound 0 (JObject o) -> Unmarshal_struct (marshal (JObject o)) = Some o /\ Unmarshal_map (marshal (JObject o)) = Some o.
Proof.
  intros [Hm Ha]. unfold Unmarshal_struct, Unmarshal_map. rewrite parse_marshal by done. rewrite Ha. cbn.
  by rewrite app_nil_r.
Qed.

Definition put_all (l : list (string * string)) (m : kv) : kv := foldl (fun m '(k, v) => <[k := v]> m) m l.

Lemma kv_members_put l m : kv_members (map (fun '(k, v) => (k, JString v)) l) m = Some (put_all l m).
Proof. revert m. induction l as [|[k v] l IH]; intros m; [done|]. cbn. by rewrite IH. Qed.

Lemma put_all_lookup l m k : NoDup l.*1 ->
  put_all l m !! k = match (list_to_map l : kv) !! k with Some v => Some v | None => m !! k end.
Proof.
  revert m. induction l as [|[k' v] l IH]; intros m Hn; [done|]. apply NoDup_cons in Hn as [Hk Hn].
  cbn [put_all foldl]. change (foldl _ ?x l) with (put_all l x). rewrite IH by done. cbn [list_to_map foldr].
  destruct (decide (k = k')) as [->|Hne].
  - rewrite lookup_insert_eq. rewrite (not_elem_of_list_to_map_1 l k') by done. cbn. by rewrite lookup_insert_eq.
  - rewrite !lookup_insert_ne by done. done.
Qed.

Lemma kv_back m : kv_field [kv_json m] ∅ = Some m.
Proof.
  unfold kv_json, kv_field. rewrite kv_members_put. f_equal. set (l := sort_by _ _).
  assert (l ≡ₚ map_to_list m) as Hp by apply merge_sort_Permutation.
  assert (NoDup l.*1) as Hn by (rewrite Hp; apply NoDup_fst_map_to_list).
  apply map_eq. intros k. rewrite put_all_lookup by done. rewrite (list_to_map_proper l (map_to_list m)) by done.
  rewrite list_to_map_to_list. by destruct (m !! k).
Qed.

Lemma sound_kv d m : d < maxNestingDepth ->
  (forall k v, m !! k = Some v -> utf8_ValidString k = true /\ utf8_ValidString v = true) -> sound d (kv_json m).
Proof.
  intros Hd Hm. apply sound_object; [done|]. apply Forall_map, list.Forall_forall. intros [k v] Hin%elem_sort_by.
  apply elem_of_map_to_list in Hin. destruct (Hm k v Hin). by split.
Qed.

Definition ascii_text (s : string) : Prop := Forall (fun a => byte_val a < 128) (chars s).

Lemma ascii_valid s : ascii_text s -> utf8_ValidString s = true.
Proof.
  unfold ascii_text, utf8_ValidString, runes. fold (chars s). induction 1 as [|a l Ha Hl IH]; [done|]. cbn [map].
  rewrite decode_step, DecodeRune_ascii by (by apply Z.ltb_lt). rewrite skipn_cons, drop_0. by destruct (decode (map byte_val l)).
Qed.

Lemma ascii_app s t : ascii_text s -> ascii_text t -> ascii_text (s ++ t)%string.
Proof. intros. unfold ascii_text. rewrite chars_app. by apply Forall_app_2. Qed.

(** *** Times are ASCII *)

Lemma digit_ascii l : Forall (fun c => is_digit c = true) l -> Forall (fun a => byte_val a < 128) l.
Proof. apply List.Forall_impl. intros a Ha. unfold is_digit, in_range in Ha. apply andb_true_iff in Ha. lia. Qed.

Lemma ascii_pad w n : ascii_text (pad w n).
Proof. apply digit_ascii, pad_digits. Qed.

Lemma ascii_fraction n : ascii_text (fraction n).
Proof.
  unfold fraction. destruct (n =? 0); [constructor|]. apply ascii_app; [by repeat constructor|].
  destruct (trim_zeros (pad 9 n)) as [k Hk]. destruct (pad_digits 9 n) as [Hf _]. rewrite Hk in Hf.
  apply Forall_app in Hf as [Hf _]. by apply digit_ascii.
Qed.

Lemma ascii_time t : ascii_text (FormatRFC3339Nano t).
Proof.
  unfold FormatRFC3339Nano, format_utc. destruct (civil _) as [[y m] d].
  repeat apply ascii_app; first [apply ascii_pad|apply ascii_fraction|by repeat constructor].
Qed.

(** *** JSON is valid UTF-8 *)

Definition well_encoded (l : list ascii) : Prop := is_Some (decode (map byte_val l)).

Lemma well_encoded_app l k : well_encoded l -> well_encoded k -> well_encoded (l ++ k).
Proof.
  unfold well_encoded. rewrite map_app. intros Hl Hk. remember (map byte_val l) as bs eqn:E. clear E l.
  revert Hl. induction bs as [bs IHb] using (induction_ltof1 _ (@length Z)). intros [x Hx].
  destruct bs as [|b bs]; [done|]. rewrite decode_step in Hx. destruct (DecodeRune (b :: bs)) as [[c w]|] eqn:E; [|done].
  destruct (DecodeRune_prefix _ _ _ (drop w (b :: bs) ++ map byte_val k) E) as (Hw & Hlen & Hd).
  rewrite app_assoc, take_drop in Hd. cbn [app] in *. rewrite decode_step, Hd.
  assert (is_Some (decode (drop w (b :: bs)))) as Hrest by (destruct (decode (drop w (b :: bs))); [by eexists|done]).
  change (b :: (bs ++ map byte_val k)) with ((b :: bs) ++ map byte_val k). rewrite drop_app_le by done.
  assert (is_Some (decode (drop w (b :: bs) ++ map byte_val k))) as [y ->]; [|by eexists].
  apply IHb; [unfold ltof; rewrite length_drop; cbn; lia|done].
Qed.

Lemma well_encoded_ascii l : Forall (fun a => byte_val a < 128) l -> well_encoded l.
Proof.
  intros Hl. assert (utf8_ValidString (text l) = true) as Hv by (apply ascii_valid; unfold ascii_text; by rewrite chars_text).
  unfold utf8_ValidString, runes in Hv. fold (chars (text l)) in Hv. rewrite chars_text in Hv.
  unfold well_encoded. by destruct (decode _); [eexists|].
Qed.

Lemma u_escape_ascii c : Forall (fun a => byte_val a < 128) (u_escape c).
Proof.
  assert (forall n, byte_val (hex_digit (n mod 16)) < 128) as Hh.
  { intros n. unfold hex_digit, byte_val, char. pose proof (Z.mod_pos_bound n 16). rewrite nat_ascii_embedding; destruct (_ <? _) eqn:?; lia. }
  unfold u_escape. repeat constructor; try done; apply Hh.
Qed.

Lemma escape_ascii_ascii a : byte_val a < 128 -> Forall (fun a => byte_val a < 128) (escape_ascii a).
Proof.
  intros Ha. unfold escape_ascii. repeat match goal with |- Forall _ (if ?c then _ else _) => destruct c end;
    try apply u_escape_ascii; repeat constructor; done.
Qed.

(** A quoted string is valid, whatever the string. *)
Lemma quote_encoded s : well_encoded (quote s).
Proof.
  unfold quote. apply (well_encoded_app [quot]); [by apply well_encoded_ascii; repeat constructor|].
  apply well_encoded_app; [|by apply well_encoded_ascii; repeat constructor]. generalize (length (chars s)) as n. generalize (chars s) as l.
  intros l n. revert l. induction n as [|n IH]; intros l; [by eexists|]. destruct l as [|a l]; [by eexists|]. cbn [quote_chars].
  destruct (byte_val a <? 128) eqn:Ha.
  - apply well_encoded_app; [|apply IH]. apply well_encoded_ascii, escape_ascii_ascii. lia.
  - destruct (first_rune (a :: l)) as [[c w]|] eqn:Er; (apply well_encoded_app; [|apply IH]).
    2: { apply well_encoded_ascii, u_escape_ascii. }
    destruct (_ || _); [apply well_encoded_ascii, u_escape_ascii|]. pose proof (first_rune_prefix _ _ _ [] Er) as Hp.
    destruct (first_rune_width _ _ _ Er) as [Hw Hlen]. rewrite app_nil_r, first_rune_full in Hp. unfold well_encoded.
    destruct w as [|w]; [lia|]. cbn [take map] in *. rewrite decode_step, Hp. rewrite drop_ge; [by eexists|].
    cbn [length]. rewrite length_map, length_take. lia.
Qed.

Lemma commas_encoded ls : Forall well_encoded ls -> well_encoded (commas ls).
Proof.
  induction 1 as [|l ls Hl Hls IH]; [by eexists|]. destruct ls as [|k ls]; [done|].
  change (well_encoded (l ++ [char 44] ++ commas (k :: ls))). repeat apply well_encoded_app; [done| |done].
  by apply well_encoded_ascii; repeat constructor.
Qed.

(** An object of strings is valid text itself. *)
Lemma marshal_strings_utf8 o :
  Forall (fun m => exists s, snd m = JString s) o -> utf8_ValidString (marshal (JObject o)) = true.
Proof.
  intros Ho. unfold utf8_ValidString, runes, marshal. fold (chars (text (print (JObject o)))). rewrite chars_text.
  enough (well_encoded (print (JObject o))) as [x ->] by done.
  change (print (JObject o)) with ([char 123] ++ commas (map (fun '(k, x) => quote k ++ [char 58] ++ print x) o) ++ [char 125]).
  assert (forall n, (n < 128)%nat -> well_encoded [char n]) as Hc.
  { intros n Hn. apply well_encoded_ascii. repeat constructor. unfold byte_val, char. rewrite nat_ascii_embedding; lia. }
  repeat apply well_encoded_app; try (apply Hc; lia). apply commas_encoded, Forall_map. eapply List.Forall_impl; [|exact Ho].
  intros [k v] [s Hs]. cbn in Hs. subst v. repeat apply well_encoded_app; [apply quote_encoded|apply Hc; lia|apply quote_encoded].
Qed.
