(* ===== verification/Envelope.v ===== *)
(** * Envelope encryption (src/internal/storage/encrypt.go, secret.go)

    An object's body is sealed with a fresh data key; the data key is wrapped by a master
    key or by a remote key service, and the envelope, a small JSON text, keeps the
    wrapped key, the id of the key that wrapped it and the nonce.  AES-GCM and HMAC-SHA256
    are the class [AEAD]; the random bytes of a call are an argument (crypto/rand does not
    fail); a key service is a record of its two operations.  A nil dereference is
    [Panic].  Of the providers, the ring is built from its JSON document; fetching the
    document is left out. *)

From Stdlib Require Import Ascii Lia Bool ZArith.
From stdpp Require Import base gmap strings list numbers option pretty.
From S2P Require Import Prelude GoStrings Json JsonProps Base64 GoErrors Sql JsonStruct.

Open Scope Z_scope.

(** cipher.AEAD's Seal and Open for AES-GCM without additional data, and HMAC-SHA256 of
    a message under a key. *)
Class AEAD := {
  gcm_Seal : string -> string -> string -> string;
  gcm_Open : string -> string -> string -> option string;
  hmac_SHA256 : string -> string -> string
}.

(** What the code relies on: Open undoes Seal, the tag has 16 bytes, HMAC-SHA256 has 32. *)
Class AEADLaws `{AEAD} := {
  open_seal key nonce p : gcm_Open key nonce (gcm_Seal key nonce p) = Some p;
  seal_length key nonce p : len (gcm_Seal key nonce p) = len p + 16;
  hmac_length key m : len (hmac_SHA256 key m) = 32
}.

Definition sseAlg : string := "AES-256-GCM".
Definition masterKeyLen : Z := 32.

(** ** Key sources (secret.go) *)

(** A nil key and an unknown id are [None]. *)
Record SecretProvider := { sp_Current : string * string; sp_Resolve : string -> option string }.

Record DataKeyWrapper := {
  dw_WrapKey : string -> result (string * string);
  dw_UnwrapKey : string -> string -> result string
}.

Section Providers.
Context `{AEAD}.

Definition deriveSSEKey (passphrase : string) : string := hmac_SHA256 "aero-vault/sse/v1" passphrase.

Definition newEnvProvider (passphrase : string) : result SecretProvider :=
  if (passphrase =s "") then Err (NewError "SSE master key (STORAGE_LOCAL_SSE_KEY) is required")
  else let key := deriveSSEKey passphrase in
       Ok {| sp_Current := (""%string, key); sp_Resolve := fun id => if (id =s "") then Some key else None |}.

(** keyRingProvider. *)
Record keyRing := { kr_primary : string; kr_keys : gmap string string; kr_legacy : option string }.

(** A missing id of the map reads as the nil key. *)
Definition ring_provider (p : keyRing) : SecretProvider := {|
  sp_Current := (kr_primary p, default ""%string (kr_keys p !! kr_primary p));
  sp_Resolve := fun id => if (id =s "") then kr_legacy p else kr_keys p !! id |}.

(** keyIDPattern: letters, digits, dot, underscore and hyphen, at least one. *)
Definition key_id_char (a : ascii) : bool :=
  let b := byte_val a in
  in_range 65 90 b || in_range 97 122 b || in_range 48 57 b || (b =? 46) || (b =? 95) || (b =? 45).
Definition keyIDPattern (id : string) : bool := (id <>s "") && forallb key_id_char (chars id).

(** The checks of one entry; Go visits the entries in no fixed order. *)
Definition ring_entry_error (entry : string * string) : option error :=
  let '(id, pass) := entry in
  if (id =s "") then Some (NewError "sse key ring: key id is reserved")
  else if negb (keyIDPattern id) then Some (NewError "sse key ring: key id has invalid characters")
  else if (pass =s "") then Some (NewError "sse key ring: key has an empty passphrase")
  else None.

Definition newKeyRing (raw legacyPassphrase : string) : result keyRing :=
  match Unmarshal_struct raw with
  | None => Err (Wrap "parse sse key ring" [])
  | Some o =>
      match string_field (assigned ["primary"; "keys"]%string o "primary") "",
            kv_field (assigned ["primary"; "keys"]%string o "keys") ∅ with
      | Some primary, Some keys =>
          if bool_decide (keys = ∅) then Err (NewError "sse key ring: no keys defined")
          else if (primary =s "") then Err (NewError "sse key ring: primary is required")
          else if bool_decide (keys !! primary = None) then Err (NewError "sse key ring: primary is not in keys")
          else match omap ring_entry_error (map_to_list keys) with
               | e :: _ => Err e
               | [] => Ok {| kr_primary := primary; kr_keys := deriveSSEKey <$> keys;
                             kr_legacy := if (legacyPassphrase =s "") then None else Some (deriveSSEKey legacyPassphrase) |}
               end
      | _, _ => Err (Wrap "parse sse key ring" [])
      end
  end.

Definition ssecKeyID : string := "__ssec__".

Definition newSSECProvider (key : string) : SecretProvider := {|
  sp_Current := (ssecKeyID, key); sp_Resolve := fun id => if (id =s ssecKeyID) then Some key else None |}.
End Providers.

(** ** The envelope *)

Record sseEnvelope := { en_Alg : string; en_Wrap : string; en_Kid : string; en_Kek : string; en_IV : string }.

Definition sseEnvelope_json (e : sseEnvelope) : jvalue := JObject (
  str "alg" (en_Alg e) :: omit_str "wrap" (en_Wrap e) ++ omit_str "kid" (en_Kid e) ++
  [str "kek" (en_Kek e); str "iv" (en_IV e)]).

Definition sseEnvelope_decode (o : list (string * jvalue)) : option sseEnvelope :=
  let s := fun name => string_field (assigned ["alg"; "wrap"; "kid"; "kek"; "iv"]%string o name) "" in
  alg ← s "alg"%string; wrap ← s "wrap"%string; kid ← s "kid"%string; kek ← s "kek"%string; iv ← s "iv"%string;
  Some {| en_Alg := alg; en_Wrap := wrap; en_Kid := kid; en_Kek := kek; en_IV := iv |}.

Definition buildEnvelope (wrap keyID wrapped iv : string) : string :=
  marshal (sseEnvelope_json {| en_Alg := sseAlg; en_Wrap := wrap; en_Kid := keyID;
                               en_Kek := EncodeToString wrapped; en_IV := EncodeToString iv |}).

Definition parseEnvelope (s : string) : result sseEnvelope :=
  match Unmarshal_struct s ≫= sseEnvelope_decode with
  | None => Err (Wrap "sse: malformed envelope" [])
  | Some env => if (en_Kek env =s "") || (en_IV env =s "") then Err (NewError "sse: envelope missing kek/iv") else Ok env
  end.

(** ** Wrapping *)

(** An encrypter wraps locally or remotely: its two constructors set one field each. *)
Inductive envelopeEncrypter :=
| LocalKeys (provider : SecretProvider)
| RemoteKeys (wrapper : DataKeyWrapper).

(** The random bytes of one call: the data key, the body's nonce, the wrap's nonce. *)
Record randomness := { rn_key : string; rn_iv : string; rn_nonce : string }.
Definition good_random (r : randomness) : Prop := len (rn_key r) = 32 /\ len (rn_iv r) = 12 /\ len (rn_nonce r) = 12.

(** A call that returns, or dereferences nil. *)
Inductive call_result A := Returns (r : result A) | Panic.
Arguments Returns {A}. Arguments Panic {A}.

Section Encrypt.
Context `{AEAD}.

(** aes.NewCipher accepts the key. *)
Definition aes_key (key : string) : option error :=
  if (len key =? 16) || (len key =? 24) || (len key =? 32) then None else Some (NewError "crypto/aes: invalid key size").

Definition gcmSeal (plaintext dataKey nonce : string) : result string :=
  match aes_key dataKey with Some e => Err e | None => Ok (gcm_Seal dataKey nonce plaintext) end.

Definition gcm_open (key nonce ct : string) : result string :=
  match gcm_Open key nonce ct with Some p => Ok p | None => Err (NewError "cipher: message authentication failed") end.

Definition wrapKey (nonce masterKey dataKey : string) : result string :=
  match aes_key masterKey with Some e => Err e | None => Ok (nonce ++ gcm_Seal masterKey nonce dataKey)%string end.

Definition unwrapKey (masterKey wrapped : string) : result string :=
  match aes_key masterKey with
  | Some e => Err e
  | None => if len wrapped <? 12 then Err (NewError "envelope: wrapped key too short")
            else gcm_open masterKey (slice wrapped 0 12) (from wrapped 12)
  end.

Definition bad_master_key : error := NewError "sse: master key has the wrong length".

Definition encrypt (e : envelopeEncrypter) (rnd : randomness) (plain : string) : result (string * string) :=
  let dataKey := rn_key rnd in let iv := rn_iv rnd in
  let! ct := gcmSeal plain dataKey iv in
  match e with
  | RemoteKeys w =>
      match dw_WrapKey w dataKey with
      | Err err => Err (Wrap "sse: kms wrap" [err])
      | Ok (wrapped, keyID) => Ok (ct, buildEnvelope "kms" keyID wrapped iv)
      end
  | LocalKeys p =>
      let '(keyID, masterKey) := sp_Current p in
      if negb (len masterKey =? masterKeyLen) then Err bad_master_key
      else let! wrapped := wrapKey (rn_nonce rnd) masterKey dataKey in
           Ok (ct, buildEnvelope "" keyID wrapped iv)
  end.

(** The master key of an id: unknown ids are refused, none is replaced by another key. *)
Definition resolve_key (p : SecretProvider) (kid : string) : result string :=
  match sp_Resolve p kid with
  | None => if (kid =s "") then Err (NewError "sse: object has no key id and no legacy key is configured")
            else Err (NewError "sse: unknown key version")
  | Some masterKey => if negb (len masterKey =? masterKeyLen) then Err bad_master_key else Ok masterKey
  end.

Definition unwrapDataKey (e : envelopeEncrypter) (env : sseEnvelope) (wrapped : string) : result string :=
  if (en_Wrap env =s "kms") then
    match e with
    | LocalKeys _ => Err (NewError "sse: object uses KMS wrapping but no KMS is configured")
    | RemoteKeys w => match dw_UnwrapKey w wrapped (en_Kid env) with
                      | Err err => Err (Wrap "sse: kms unwrap" [err])
                      | Ok dataKey => Ok dataKey
                      end
    end
  else if (en_Wrap env =s "") then
    match e with
    | RemoteKeys _ => Err (NewError "sse: object uses local wrapping but no key provider is configured")
    | LocalKeys p => let! masterKey := resolve_key p (en_Kid env) in
                     match unwrapKey masterKey wrapped with
                     | Err err => Err (Wrap "unwrap data key" [err])
                     | Ok dataKey => Ok dataKey
                     end
    end
  else Err (NewError "sse: unsupported wrap mode").

Definition decode_field (name value : string) : result string :=
  match DecodeString value with Some s => Ok s | None => Err (Wrap (("sse: decode ")%string ++ name) []) end.

Definition check_alg (env : sseEnvelope) : result unit :=
  if (en_Alg env <>s sseAlg) then Err (NewError "sse: unsupported envelope alg") else Ok tt.

Definition decode_iv (env : sseEnvelope) : result string :=
  let! iv := decode_field "iv" (en_IV env) in
  if negb (len iv =? 12) then Err (NewError "sse: envelope iv has the wrong length") else Ok iv.

Definition decrypt (e : envelopeEncrypter) (ct envelope : string) : result string :=
  let! env := parseEnvelope envelope in
  check! check_alg env in
  let! wrapped := decode_field "kek" (en_Kek env) in
  let! iv := decode_iv env in
  let! dataKey := unwrapDataKey e env wrapped in
  match aes_key dataKey with Some err => Err err | None => gcm_open dataKey iv ct end.

Definition validateEnvelope (e : envelopeEncrypter) (envelope : string) : option error :=
  match (let! env := parseEnvelope envelope in
         check! check_alg env in
         let! wrapped := decode_field "kek" (en_Kek env) in
         unwrapDataKey e env wrapped) with
  | Ok _ => None
  | Err err => Some err
  end.

(** ** Rotation *)

Definition rewrapObject (nonce : string) (env : sseEnvelope) (oldKey curKey curID : string) : result string :=
  let! wrapped := decode_field "kek" (en_Kek env) in
  let! iv := decode_iv env in
  match unwrapKey oldKey wrapped with
  | Err err => Err (Wrap "rewrap unwrap" [err])
  | Ok dataKey => let! newWrapped := wrapKey nonce curKey dataKey in Ok (buildEnvelope "" curID newWrapped iv)
  end.

(** The new envelope and whether it changed.  An encrypter that wraps remotely has no
    provider to ask for the current key. *)
Definition rewrap (e : envelopeEncrypter) (nonce envelope : string) : call_result (string * bool) :=
  match parseEnvelope envelope with
  | Err err => Returns (Err err)
  | Ok env =>
      match check_alg env with
      | Err err => Returns (Err err)
      | Ok _ =>
          if (en_Wrap env <>s "") then Returns (Ok (envelope, false))
          else match e with
               | RemoteKeys _ => Panic
               | LocalKeys p =>
                   let '(curID, curKey) := sp_Current p in
                   Returns (if (en_Kid env =s curID) then Ok (envelope, false)
                            else let! oldKey := resolve_key p (en_Kid env) in
                                 if negb (len curKey =? masterKeyLen) then Err bad_master_key
                                 else let! newEnv := rewrapObject nonce env oldKey curKey curID in Ok (newEnv, true))
               end
      end
  end.
End Encrypt.
