(* ===== verification/EnvelopeProps.v ===== *)
(** * What envelope encryption guarantees

    A sealed body opens to itself ([encrypt_decrypt]), also after the ring has grown
    ([rotation_keeps_readable]); re-wrapping keeps the body readable, is idempotent and
    makes the old master key unnecessary ([rewrap_retires_key]); a ring that was accepted
    is usable ([newKeyRing_usable]); and a store that moved to a key service panics on
    its locally wrapped objects ([rewrap_panics_remote]). *)

From Stdlib Require Import Ascii Lia Bool ZArith.
From stdpp Require Import base gmap strings list numbers option pretty.
From S2P Require Import Prelude GoStrings Json JsonProps Base64 GoErrors Sql JsonStruct Envelope.

Open Scope Z_scope.

(** ** Envelopes round-trip *)

Lemma Encode_utf8 s : utf8_ValidString (EncodeToString s) = true.
Proof. apply ascii_valid, Encode_ascii. Qed.

Lemma sseEnvelope_back e : sseEnvelope_decode (members (sseEnvelope_json e)) = Some e.
Proof.
  destruct e as [alg wrap kid kek iv]. unfold sseEnvelope_decode, sseEnvelope_json, members, omit_str. cbn.
  destruct (wrap =s "") eqn:Ew, (kid =s "") eqn:Ek;
    repeat match goal with H : (_ =s _) = true |- _ => apply streqb_true in H as -> end; done.
Qed.

Lemma parse_build wrap kid wrapped iv :
  utf8_ValidString wrap = true -> utf8_ValidString kid = true -> wrapped <> ""%string -> iv <> ""%string ->
  parseEnvelope (buildEnvelope wrap kid wrapped iv) =
  Ok {| en_Alg := sseAlg; en_Wrap := wrap; en_Kid := kid; en_Kek := EncodeToString wrapped; en_IV := EncodeToString iv |}.
Proof.
  intros Hw Hk Hd Hi. unfold parseEnvelope, buildEnvelope. set (e := Build_sseEnvelope _ _ _ _ _).
  assert (sound 0 (sseEnvelope_json e)) as Hs.
  { apply sound_object; [done|]. apply Forall_cons_2; [by apply ok_str|]. apply Forall_app_2; [by apply ok_omit_str|].
    apply Forall_app_2; [by apply ok_omit_str|]. repeat (apply Forall_cons_2; [apply ok_str; [done|apply Encode_utf8]|]). done. }
  change (sseEnvelope_json e) with (JObject (members (sseEnvelope_json e))) in *.
  rewrite (proj1 (Unmarshal_object _ Hs)). cbn [mbind option_bind]. rewrite sseEnvelope_back.
  cbn [en_Kek en_IV e]. apply Encode_nonempty in Hd, Hi.
  by rewrite (proj2 (streqb_false _ _) Hd), (proj2 (streqb_false _ _) Hi).
Qed.

Lemma len_nonempty s : 0 < len s -> s <> ""%string.
Proof. intros Hl ->. done. Qed.

(** ** Wrapping *)

Section Laws.
Context `{AEADLaws}.

Lemma unwrap_wrap nonce master key wrapped :
  len nonce = 12 -> wrapKey nonce master key = Ok wrapped ->
  unwrapKey master wrapped = Ok key /\ 12 <= len wrapped.
Proof.
  unfold wrapKey, unwrapKey, gcm_open. intros Hn. destruct (aes_key master); [done|]. intros [= <-].
  assert (String.length nonce = 12%nat) as Hl by (unfold len in Hn; lia).
  assert (12 <= len (nonce ++ gcm_Seal master nonce key)%string) as Hlen by (unfold len in *; rewrite string_length_app; lia).
  rewrite (proj2 (Z.ltb_ge _ _)) by lia. rewrite <- Hl, slice_app, from_app, open_seal. done.
Qed.

(** What an encrypter promises of its keys. *)
Definition honest (e : envelopeEncrypter) : Prop :=
  match e with
  | LocalKeys p => sp_Resolve p (fst (sp_Current p)) = Some (snd (sp_Current p)) /\
                   utf8_ValidString (fst (sp_Current p)) = true
  | RemoteKeys w => forall key wrapped id, dw_WrapKey w key = Ok (wrapped, id) ->
                      dw_UnwrapKey w wrapped id = Ok key /\ wrapped <> ""%string /\ utf8_ValidString id = true
  end.

(** An envelope that opens: its parts and the data key. *)
Record opens_with (e : envelopeEncrypter) (envelope : string) (env : sseEnvelope) (key iv : string) : Prop := {
  ow_parse : parseEnvelope envelope = Ok env; ow_alg : en_Alg env = sseAlg;
  ow_iv : decode_iv env = Ok iv;
  ow_key : exists wrapped, decode_field "kek" (en_Kek env) = Ok wrapped /\ unwrapDataKey e env wrapped = Ok key
}.

Lemma opens_decrypt e envelope env key iv ct :
  opens_with e envelope env key iv ->
  decrypt e ct envelope = match aes_key key with Some err => Err err | None => gcm_open key iv ct end.
Proof.
  intros [Hp Ha Hi (wrapped & Hw & Hk)]. unfold decrypt. rewrite Hp. cbn [res_bind]. unfold check_alg.
  rewrite Ha, streqb_refl. cbn [negb res_bind]. rewrite Hw, Hi. cbn [res_bind]. by rewrite Hk.
Qed.

Lemma opens_validate e envelope env key iv : opens_with e envelope env key iv -> validateEnvelope e envelope = None.
Proof.
  intros [Hp Ha Hi (wrapped & Hw & Hk)]. unfold validateEnvelope. rewrite Hp. cbn [res_bind]. unfold check_alg.
  rewrite Ha, streqb_refl. cbn [negb res_bind]. rewrite Hw. cbn [res_bind]. by rewrite Hk.
Qed.

Lemma built_opens e wrap kid wrapped iv key :
  utf8_ValidString wrap = true -> utf8_ValidString kid = true -> wrapped <> ""%string -> len iv = 12 ->
  let env := {| en_Alg := sseAlg; en_Wrap := wrap; en_Kid := kid; en_Kek := EncodeToString wrapped;
                en_IV := EncodeToString iv |} in
  unwrapDataKey e env wrapped = Ok key -> opens_with e (buildEnvelope wrap kid wrapped iv) env key iv.
Proof.
  intros Hw Hk Hd Hi env Hu. split; [apply parse_build; done || (apply len_nonempty; lia)|done| |].
  - unfold decode_iv, decode_field. cbn [en_IV env]. rewrite DecodeString_Encode. cbn [res_bind]. by rewrite (proj2 (Z.eqb_eq _ _) Hi).
  - exists wrapped. split; [|done]. unfold decode_field. cbn [en_Kek env]. by rewrite DecodeString_Encode.
Qed.

(** The key id an encrypter writes. *)
Definition writes_kid (e : envelopeEncrypter) (rnd : randomness) (kid : string) : Prop :=
  match e with
  | LocalKeys p => kid = fst (sp_Current p)
  | RemoteKeys w => exists wrapped, dw_WrapKey w (rn_key rnd) = Ok (wrapped, kid)
  end.

Lemma encrypt_opens e rnd plain ct envelope :
  honest e -> good_random rnd -> encrypt e rnd plain = Ok (ct, envelope) ->
  ct = gcm_Seal (rn_key rnd) (rn_iv rnd) plain /\ aes_key (rn_key rnd) = None /\
  exists env, opens_with e envelope env (rn_key rnd) (rn_iv rnd) /\ writes_kid e rnd (en_Kid env).
Proof.
  intros He (Hk & Hi & Hn). unfold encrypt. intros Hok. apply res_bind_Ok in Hok as (c & Hc & Hok).
  unfold gcmSeal in Hc. destruct (aes_key (rn_key rnd)) eqn:Eaes; [done|]. injection Hc as <-.
  destruct e as [p|w]; cbn in He.
  - destruct (sp_Current p) as [kid master] eqn:Ec. cbn in He. destruct He as [Hres Hutf].
    destruct (len master =? masterKeyLen) eqn:El; [|done]. cbn [negb] in Hok.
    apply res_bind_Ok in Hok as (wrapped & Hw & [= <- <-]).
    destruct (unwrap_wrap _ _ _ _ Hn Hw) as [Hun Hlen]. split_and!; [done|done|]. eexists. split.
    + apply built_opens; [done|done|apply len_nonempty; lia|done|].
      unfold unwrapDataKey, resolve_key. cbn [en_Wrap en_Kid]. rewrite Hres, El. cbn. by rewrite Hun.
    + cbn. by rewrite Ec.
  - destruct (dw_WrapKey w (rn_key rnd)) as [[wrapped kid]|] eqn:Ew; [|done]. injection Hok as <- <-.
    destruct (He _ _ _ Ew) as (Hun & Hne & Hutf). split_and!; [done|done|]. eexists. split.
    + apply built_opens; [done|done|done|done|]. unfold unwrapDataKey. cbn. by rewrite Hun.
    + cbn. eauto.
Qed.

(** C14: an object sealed by an encrypter opens to the same bytes under it, with sixteen
    bytes more on disk, whether its data key is wrapped by a master key or remotely. *)
Theorem encrypt_decrypt e rnd plain ct envelope :
  honest e -> good_random rnd -> encrypt e rnd plain = Ok (ct, envelope) ->
  decrypt e ct envelope = Ok plain /\ len ct = len plain + 16.
Proof.
  intros He Hr Hok. apply encrypt_opens in Hok as (-> & Ha & env & Ho & _); [|done|done].
  erewrite opens_decrypt by done. rewrite Ha. unfold gcm_open. rewrite open_seal. split; [done|apply seal_length].
Qed.

(** What decrypt needs of an envelope that opens. *)
Lemma decrypt_Ok e ct envelope plain :
  decrypt e ct envelope = Ok plain ->
  exists env wrapped iv key, parseEnvelope envelope = Ok env /\ en_Alg env = sseAlg /\
    decode_field "kek" (en_Kek env) = Ok wrapped /\ decode_iv env = Ok iv /\ unwrapDataKey e env wrapped = Ok key /\
    aes_key key = None /\ gcm_open key iv ct = Ok plain.
Proof.
  unfold decrypt. intros (env & Henv & Hd)%res_bind_Ok. apply res_bind_Ok in Hd as ([] & Hal & Hd).
  apply res_bind_Ok in Hd as (wrapped & Hw & Hd). apply res_bind_Ok in Hd as (iv & Hiv & Hd).
  apply res_bind_Ok in Hd as (key & Hkey & Hd). destruct (aes_key key) eqn:Ea; [done|].
  exists env, wrapped, iv, key. split_and!; try done. unfold check_alg in Hal.
  destruct (en_Alg env =s sseAlg) eqn:E; [|done]. by apply streqb_true.
Qed.

(** A ring that keeps the keys it had, whatever it adds or makes current, still opens
    every object that opened before. *)
Theorem rotation_keeps_readable p p' ct envelope plain :
  (forall id key, sp_Resolve p id = Some key -> sp_Resolve p' id = Some key) ->
  decrypt (LocalKeys p) ct envelope = Ok plain -> decrypt (LocalKeys p') ct envelope = Ok plain.
Proof.
  intros Hext Hd. apply decrypt_Ok in Hd as (env & wrapped & iv & key & Henv & Halg & Hw & Hiv & Hkey & Ha & Ho).
  unfold decrypt. rewrite Henv. cbn [res_bind]. unfold check_alg. rewrite Halg, streqb_refl. cbn [negb res_bind].
  rewrite Hw, Hiv. cbn [res_bind].
  assert (unwrapDataKey (LocalKeys p') env wrapped = Ok key) as ->; [|cbn [res_bind]; by rewrite Ha].
  revert Hkey. unfold unwrapDataKey, resolve_key. destruct (en_Wrap env =s "kms"); [done|].
  destruct (en_Wrap env =s ""); [|done]. destruct (sp_Resolve p (en_Kid env)) as [mk|] eqn:Er.
  - by rewrite (Hext _ _ Er).
  - by destruct (en_Kid env =s "").
Qed.

Lemma parse_nonempty s env : parseEnvelope s = Ok env -> en_Kek env <> ""%string /\ en_IV env <> ""%string.
Proof.
  unfold parseEnvelope. destruct (Unmarshal_struct s ≫= sseEnvelope_decode) as [e|]; [|done].
  destruct (en_Kek e =s "") eqn:E1; [done|]. destruct (en_IV e =s "") eqn:E2; [done|]. intros [= <-].
  by apply streqb_false in E1, E2.
Qed.

(** C27: a re-wrapped object opens to the same bytes under any provider that has the
    current key, the retired one is not needed any more, and a second re-wrap leaves it
    as it is. *)
Theorem rewrap_retires_key p p' nonce nonce' envelope envelope' ct plain :
  honest (LocalKeys p) -> len nonce = 12 -> rewrap (LocalKeys p) nonce envelope = Returns (Ok (envelope', true)) ->
  decrypt (LocalKeys p) ct envelope = Ok plain ->
  sp_Resolve p' (fst (sp_Current p)) = Some (snd (sp_Current p)) ->
  decrypt (LocalKeys p') ct envelope' = Ok plain /\
  rewrap (LocalKeys p) nonce' envelope' = Returns (Ok (envelope', false)).
Proof.
  intros [_ Hutf] Hn Hr Hd Hp'. apply decrypt_Ok in Hd as (env & wrapped & iv & key & Henv & Halg & Hw & Hiv & Hkey & Ha & Ho).
  unfold rewrap in Hr. rewrite Henv in Hr. unfold check_alg in Hr. rewrite Halg, streqb_refl in Hr. cbn [negb] in Hr.
  destruct (en_Wrap env =s "") eqn:Ewrap; [|done]. cbn [negb] in Hr. destruct (sp_Current p) as [cur master] eqn:Ec.
  cbn in Hutf, Hp'. injection Hr as Hr. destruct (en_Kid env =s cur) eqn:Ek; [done|].
  apply res_bind_Ok in Hr as (old & Hold & Hr). destruct (len master =? masterKeyLen) eqn:El; [|done]. cbn [negb] in Hr.
  apply res_bind_Ok in Hr as (new & Hnew & [= <-]).
  unfold rewrapObject in Hnew. rewrite Hw, Hiv in Hnew. cbn [res_bind] in Hnew.
  assert (unwrapKey old wrapped = Ok key) as Hun.
  { apply streqb_true in Ewrap. unfold unwrapDataKey in Hkey. rewrite Ewrap in Hkey. cbn in Hkey. rewrite Hold in Hkey. cbn in Hkey.
    destruct (unwrapKey old wrapped); [by injection Hkey as ->|done]. }
  rewrite Hun in Hnew. apply res_bind_Ok in Hnew as (nw & Hnw & [= <-]).
  destruct (unwrap_wrap _ _ _ _ Hn Hnw) as [Hun' Hlen].
  assert (len iv = 12) as Hiv12.
  { unfold decode_iv in Hiv. apply res_bind_Ok in Hiv as (x & _ & Hx). destruct (len x =? 12) eqn:E; [|done].
    injection Hx as <-. by apply Z.eqb_eq. }
  assert (nw <> ""%string /\ iv <> ""%string) as [Hne Hni] by (split; apply len_nonempty; lia).
  split.
  - erewrite opens_decrypt; [|apply built_opens; [done|done|done|done|]].
    + by rewrite Ha.
    + unfold unwrapDataKey, resolve_key. cbn [en_Wrap en_Kid]. rewrite Hp', El. cbn. by rewrite Hun'.
  - unfold rewrap. rewrite parse_build by done. unfold check_alg. cbn [en_Alg en_Wrap en_Kid]. rewrite streqb_refl. cbn [negb].
    rewrite (streqb_refl ""). cbn [negb]. by rewrite Ec, streqb_refl.
Qed.

(** A store configured with a key service panics on the first locally wrapped object
    a re-wrap sweep meets. *)
Theorem rewrap_panics_remote w nonce kid wrapped iv :
  utf8_ValidString kid = true -> wrapped <> ""%string -> iv <> ""%string ->
  rewrap (RemoteKeys w) nonce (buildEnvelope "" kid wrapped iv) = Panic.
Proof.
  intros. unfold rewrap. rewrite parse_build by done. unfold check_alg. cbn [en_Alg en_Wrap]. by rewrite streqb_refl.
Qed.

(** ** Key rings *)

Lemma key_id_utf8 id : keyIDPattern id = true -> utf8_ValidString id = true.
Proof.
  unfold keyIDPattern. rewrite andb_true_iff. intros [_ Hid]. apply ascii_valid. unfold ascii_text.
  apply list.Forall_forall. intros a Ha. rewrite forallb_elem in Hid. specialize (Hid a Ha). unfold key_id_char, in_range in Hid.
  repeat (rewrite orb_true_iff in Hid || rewrite andb_true_iff in Hid). rewrite !Z.leb_le, !Z.eqb_eq in Hid. lia.
Qed.

(** C40: a key ring that loads has a primary key of 32 bytes that resolves under its own
    id, only ids of the allowed characters, all of them with 32-byte keys; so an object
    it seals is one it opens. *)
Theorem newKeyRing_usable raw legacy r :
  newKeyRing raw legacy = Ok r ->
  honest (LocalKeys (ring_provider r)) /\
  (exists key, kr_keys r !! kr_primary r = Some key) /\
  (forall id key, kr_keys r !! id = Some key -> keyIDPattern id = true /\ len key = masterKeyLen).
Proof.
  unfold newKeyRing. destruct (Unmarshal_struct raw) as [o|]; [|done].
  destruct (string_field _ _) as [primary|]; [|done]. destruct (kv_field _ _) as [keys|]; [|done].
  case_bool_decide; [done|]. destruct (primary =s "") eqn:Ep; [done|]. case_bool_decide as Hin; [done|].
  destruct (omap ring_entry_error (map_to_list keys)) as [|e es] eqn:Eo; [|done]. intros [= <-].
  destruct (keys !! primary) as [pass|] eqn:Epass; [|done]. apply streqb_false in Ep.
  assert (forall id pw, keys !! id = Some pw -> keyIDPattern id = true) as Hall.
  { intros id pw Hid. destruct (ring_entry_error (id, pw)) as [e|] eqn:Ee.
    - assert (e ∈ omap ring_entry_error (map_to_list keys)) as Hbad
        by (apply list_elem_of_omap; exists (id, pw); split; [by apply elem_of_map_to_list|done]).
      rewrite Eo in Hbad. by apply not_elem_of_nil in Hbad.
    - unfold ring_entry_error in Ee. destruct (id =s ""); [done|]. by destruct (keyIDPattern id). }
  unfold ring_provider. cbn. rewrite lookup_fmap, Epass. cbn. split_and!.
  - by rewrite (proj2 (streqb_false _ _) Ep).
  - by apply key_id_utf8, (Hall _ pass).
  - eauto.
  - intros id key. rewrite lookup_fmap. destruct (keys !! id) as [pw|] eqn:E; [|done]. cbn. intros [= <-].
    split; [by apply (Hall _ pw)|apply hmac_length].
Qed.
End Laws.

(** ** A run *)

(** A stand-in cipher with a constant tag, and keys of the right lengths. *)
Module EnvelopeSample.
Definition tag : string := "0123456789abcdef".
#[export] Instance sample_aead : AEAD := {|
  gcm_Seal := fun _ _ p => (p ++ tag)%string;
  gcm_Open := fun _ _ c => Some (slice c 0 (String.length c - 16));
  hmac_SHA256 := fun _ m => slice (m ++ "................................") 0 32 |}.

#[export] Instance sample_laws : AEADLaws.
Proof.
  split.
  - intros key nonce p. cbn. rewrite string_length_app. cbn [String.length tag]. rewrite Nat.add_sub. f_equal. apply (slice_app p tag).
  - intros key nonce p. unfold len. cbn. rewrite string_length_app. cbn. lia.
  - intros key m. unfold len. cbn [hmac_SHA256 sample_aead]. unfold slice.
    assert (forall k s, (k <= String.length s)%nat -> String.length (String.substring 0 k s) = k) as ->;
      [|done|rewrite string_length_app; cbn; lia].
    intros k. induction k as [|k IH]; intros s Hk; [by destruct s|]. destruct s as [|a s]; cbn in *; [lia|]. by rewrite IH by lia.
Defined.

Definition rnd : randomness := {|
  rn_key := "k0k1k2k3k4k5k6k7k8k9kakbkckdkekf"; rn_iv := "iviviviviviv"; rn_nonce := "nnnnnnnnnnnn" |}.

(** Before and after a rotation: the new ring keeps the old key. *)
Definition ring (primary : string) (keys : gmap string string) : SecretProvider :=
  ring_provider {| kr_primary := primary; kr_keys := deriveSSEKey <$> keys; kr_legacy := None |}.
Definition before : SecretProvider := ring "2025" {[ "2025" := "old" ]}.
Definition after_ : SecretProvider := ring "2026" {[ "2025" := "old"; "2026" := "new" ]}.
Definition retired : SecretProvider := ring "2026" {[ "2026" := "new" ]}.

Definition sealed : string * string :=
  match encrypt (LocalKeys before) rnd "hello" with Ok p => p | Err _ => (""%string, ""%string) end.
Definition rewrapped : string :=
  match rewrap (LocalKeys after_) "mmmmmmmmmmmm" (snd sealed) with Returns (Ok (e, _)) => e | _ => ""%string end.
End EnvelopeSample.
Import EnvelopeSample.

Lemma encrypt_decrypt_witness :
  encrypt (LocalKeys before) rnd "hello" = Ok sealed /\ decrypt (LocalKeys before) (fst sealed) (snd sealed) = Ok "hello"%string.
Proof.
  split; [by vm_compute|]. apply (encrypt_decrypt (LocalKeys before) rnd "hello"); [by vm_compute|by vm_compute|by vm_compute].
Defined.

Lemma rotation_keeps_readable_witness : decrypt (LocalKeys after_) (fst sealed) (snd sealed) = Ok "hello"%string.
Proof.
  apply (rotation_keeps_readable before after_); [|by vm_compute].
  intros id key. cbn. unfold after_, before, ring. cbn. destruct (id =s ""); [done|]. rewrite !lookup_fmap.
  destruct (decide (id = "2025"%string)) as [->|Hne]; [done|]. by rewrite lookup_singleton_ne by done.
Defined.

Lemma rewrap_retires_key_witness :
  decrypt (LocalKeys retired) (fst sealed) (snd sealed) = Err (NewError "sse: unknown key version") /\
  decrypt (LocalKeys retired) (fst sealed) rewrapped = Ok "hello"%string.
Proof.
  split; [by vm_compute|].
  apply (rewrap_retires_key after_ retired "mmmmmmmmmmmm" "" (snd sealed)); by vm_compute.
Defined.

Lemma rewrap_panics_remote_witness :
  rewrap (RemoteKeys {| dw_WrapKey := fun k => Ok (k, "arn"%string); dw_UnwrapKey := fun k _ => Ok k |}) "mmmmmmmmmmmm"
    (buildEnvelope "" "2025" "wrapped" "iviviviviviv") = Panic.
Proof. apply rewrap_panics_remote; by vm_compute. Defined.

(** The document {"primary":"2026","keys":{"2026":"new"}}. *)
Definition ring_document : string :=
  marshal (JObject [str "primary" "2026"; ("keys"%string, JObject [str "2026" "new"])]).

Lemma newKeyRing_usable_witness :
  exists r, newKeyRing ring_document "" = Ok r /\ honest (LocalKeys (ring_provider r)).
Proof.
  eexists. split; [by vm_compute|]. apply (newKeyRing_usable ring_document ""). by vm_compute.
Defined.
