(* ===== verification/Storage.v ===== *)
(** * The storage contract (src/internal/storage/storage.go, ssec.go)

    What the file service asks of a backend: the class [Storage] of its operations on a
    backend state, with the types they exchange.  A reader is the bytes it yields and the
    error it ends with; a stream that is returned is its bytes.  What a call draws from
    the outside, the clock and random bytes, is its [entropy].  A successful Put and
    UploadPart also say how many bytes they read.

    [StorageLaws] is the part of the documented contract that clients rely on. *)

From Stdlib Require Import Ascii Lia Bool ZArith.
From stdpp Require Import base gmap strings list numbers option.
From S2P Require Import Prelude GoStrings GoTime GoErrors Sql JsonStruct Envelope.

Open Scope Z_scope.

Definition StorageErrNotFound : string := "storage.ErrNotFound".
Definition ErrInvalidKey : string := "storage.ErrInvalidKey".
Definition ErrUnsupported : string := "storage.ErrUnsupported".
Definition ErrGenerationMismatch : string := "storage.ErrGenerationMismatch".
Definition ErrSSECustomerKeyRequired : string := "storage.ErrSSECustomerKeyRequired".
Definition ErrInvalidSSECustomerKey : string := "storage.ErrInvalidSSECustomerKey".

Definition validateObjectKey (key : string) : option error :=
  if (key =s "") || HasPrefix key "/" || Contains key ".." then Some (Sentinel ErrInvalidKey) else None.

Fixpoint validateObjectKeys (keys : list string) : option error :=
  match keys with
  | [] => None
  | key :: rest => match validateObjectKey key with Some e => Some e | None => validateObjectKeys rest end
  end.

Definition validateListPrefix (prefix : string) : option error :=
  if (prefix =s "") then None else validateObjectKey prefix.

Definition GenerationMetadataKey : string := "_aero_storage_generation".

Record ObjectInfo := {
  oi_Key : string; oi_Size : Z; oi_ETag : string; oi_ContentType : string; oi_LastModified : time; oi_Metadata : kv
}.
Definition noInfo : ObjectInfo := {|
  oi_Key := ""; oi_Size := 0; oi_ETag := ""; oi_ContentType := ""; oi_LastModified := 0; oi_Metadata := ∅ |}.

(** storage.PutOptions. *)
Record StoreOptions := {
  so_ContentType : string; so_Metadata : kv; so_SSEAlgorithm : string; so_SSEKMSKeyID : string;
  so_SSECustomerKey : string; so_SSECustomerKeyMD5 : string
}.
Definition noStoreOptions : StoreOptions := {|
  so_ContentType := ""; so_Metadata := ∅; so_SSEAlgorithm := ""; so_SSEKMSKeyID := "";
  so_SSECustomerKey := ""; so_SSECustomerKeyMD5 := "" |}.

(** storage.GetOptions. *)
Record GetOptions := { go_SSECustomerKey : string; go_SSECustomerKeyMD5 : string }.
Definition noGetOptions : GetOptions := {| go_SSECustomerKey := ""; go_SSECustomerKeyMD5 := "" |}.

Record ListResult := { lr_Objects : list ObjectInfo; lr_NextMarker : string; lr_HasMore : bool }.
Record MultipartPart := { mp_PartNumber : Z; mp_ETag : string }.

(** storage.CopyOptions; a nil metadata map is [None]. *)
Record CopyOptions := { co_MetadataDirective : string; co_Metadata : option kv; co_ContentType : string }.

(** An io.Reader: its bytes, and the error after them; none is io.EOF. *)
Record Reader := { rd_data : string; rd_err : option error }.
Definition reader_of (s : string) : Reader := {| rd_data := s; rd_err := None |}.

(** io.ReadAll. *)
Definition ReadAll (r : Reader) : result string :=
  match rd_err r with Some e => Err e | None => Ok (rd_data r) end.

Record entropy := { et_now : time; et_random : randomness; et_generation : string; et_uuid : string }.

Class Storage (B : Type) := {
  st_Backend : string;
  st_SupportsSSEC : bool;
  st_SupportsSSE : string -> string -> bool;
  st_Put : entropy -> string -> Reader -> Z -> StoreOptions -> prog B (ObjectInfo * Z);
  st_Get : string -> GetOptions -> prog B (string * ObjectInfo);
  st_Stat : string -> prog B ObjectInfo;
  st_Delete : string -> prog B unit;
  st_InitMultipart : entropy -> string -> StoreOptions -> prog B string;
  st_UploadPart : string -> string -> Z -> Reader -> Z -> StoreOptions -> prog B (MultipartPart * Z);
  st_UploadPartCopy : string -> string -> Z -> string -> Z -> Z -> prog B MultipartPart;
  st_CompleteMultipart : entropy -> string -> string -> list MultipartPart -> StoreOptions -> prog B ObjectInfo;
  st_AbortMultipart : string -> string -> prog B unit
}.

(** What a reader with these options gets of an object. *)
Definition stored `{Storage B} (o : GetOptions) (key : string) (b : B) : option string :=
  match snd (st_Get key o b) with Ok (data, _) => Some data | Err _ => None end.

(** The options that read what these wrote. *)
Definition reading (opts : StoreOptions) : GetOptions := {|
  go_SSECustomerKey := so_SSECustomerKey opts; go_SSECustomerKeyMD5 := so_SSECustomerKeyMD5 opts |}.

(** No customer key, or one of the length of a key. *)
Definition customer_key_ok (opts : StoreOptions) : Prop :=
  so_SSECustomerKey opts = ""%string \/ len (so_SSECustomerKey opts) = masterKeyLen.

(** What clients rely on, for the states the backend keeps ([st_valid]), inputs it can
    write down ([st_storable]) and keys that share no file ([st_apart]). *)
Class StorageLaws (B : Type) `{Storage B} := {
  st_valid : B -> Prop;
  st_storable : entropy -> string -> Reader -> StoreOptions -> Prop;
  st_apart : string -> string -> Prop;
  put_valid et key r size opts b : st_valid b -> st_valid (fst (st_Put et key r size opts b));
  delete_valid key b : st_valid b -> st_valid (fst (st_Delete key b));
  (** Put stores what it read, all of it, for the readers with the same key. *)
  put_stores et key r size opts b b' info n :
    st_valid b -> st_storable et key r opts -> customer_key_ok opts ->
    st_Put et key r size opts b = (b', Ok (info, n)) ->
    stored (reading opts) key b' = Some (rd_data r) /\ n = len (rd_data r) /\ oi_Size info = n /\ rd_err r = None;
  (** A deleted object is gone, for every reader. *)
  delete_removes o key b b' :
    st_valid b -> st_Delete key b = (b', Ok tt) -> stored o key b' = None;
  (** Failed or not, they leave the other objects. *)
  put_frame et key r size opts b o other :
    st_valid b -> st_apart key other -> stored o other (fst (st_Put et key r size opts b)) = stored o other b;
  delete_frame key b o other :
    st_valid b -> st_apart key other -> stored o other (fst (st_Delete key b)) = stored o other b;
  (** Reads change nothing. *)
  get_reads key opts b : fst (st_Get key opts b) = b;
  stat_reads key b : fst (st_Stat key b) = b
}.

Section Client.
Context `{StorageLaws B}.

(** A write or a removal of an object that shares no file with this one. *)
Inductive elsewhere (key : string) (b : B) : B -> Prop :=
| PutElsewhere et other r size opts : st_apart other key -> elsewhere key b (fst (st_Put et other r size opts b))
| DeleteElsewhere other : st_apart other key -> elsewhere key b (fst (st_Delete other b)).

Lemma elsewhere_keeps key o b b' : rtc (elsewhere key) b b' -> st_valid b -> st_valid b' /\ stored o key b' = stored o key b.
Proof.
  induction 1 as [b|b c d Hbc _ IH]; [done|]. intros Hv. assert (st_valid c /\ stored o key c = stored o key b) as [Hc Hs].
  { destruct Hbc; (split; [by apply put_valid || by apply delete_valid|by apply put_frame || by apply delete_frame]). }
  destruct (IH Hc) as [Hd Hsd]. split; [done|congruence].
Qed.

Lemma put_survives et key r size opts b b1 b2 info n :
  st_valid b -> st_storable et key r opts -> customer_key_ok opts -> st_Put et key r size opts b = (b1, Ok (info, n)) ->
  rtc (elsewhere key) b1 b2 -> stored (reading opts) key b2 = Some (rd_data r).
Proof.
  intros Hv Hs Hc Hp Hr. destruct (put_stores et key r size opts b b1 info n Hv Hs Hc Hp) as [Hst _].
  assert (st_valid b1) as Hv1 by (pose proof (put_valid et key r size opts b Hv) as Hp'; by rewrite Hp in Hp').
  by destruct (elsewhere_keeps key (reading opts) b1 b2 Hr Hv1) as [_ ->].
Qed.
End Client.
