(* ===== verification/LocalStorage.v ===== *)
(** * The local backend (src/internal/storage/local*.go, rewrap.go)

    Objects are files under a root, each with a sidecar file of JSON metadata at its path
    plus ".meta.json"; multipart parts are files under .multipart.  The file system is a
    map from paths to files and directories, a path being the list of its elements, and
    the calls the code makes on it fail the way Unix does on a missing file, on a path
    through a file and on a directory in the way of a file.  Temporary files are written
    and renamed within one call and are not in the model; disk errors are left out.  The
    mutexes make each operation one step. *)

From Stdlib Require Import Ascii Lia Bool ZArith.
From stdpp Require Import base gmap strings list numbers option pretty.
From S2P Require Import Prelude GoStrings GoPath Json JsonProps Base64 GoTime GoErrors Sql JsonStruct Envelope Storage.

Open Scope Z_scope.

(** crypto/md5: the sixteen bytes of the digest. *)
Class MD5 := { md5_Sum : string -> string }.

(** ** Files *)

Abbreviation path := (list string).

Inductive node := Dir | File (data : string).

Abbreviation FS := (gmap path node).

Definition os_ErrNotExist : string := "os.ErrNotExist".
Definition not_exist : error := Sentinel os_ErrNotExist.
Definition not_a_directory : error := NewError "not a directory".
Definition is_a_directory : error := NewError "is a directory".
Definition not_empty : error := NewError "directory not empty".

Definition is_file (n : option node) : bool := match n with Some (File _) => true | _ => false end.

(** The directories above a path, below "/". *)
Definition above (p : path) : list path := map (fun n => take n p) (seq 1 (length p - 1)).

(** A path that leads through a file is an error of its own; "/" is a directory. *)
Definition node_at (p : path) (fs : FS) : result node :=
  if existsb (fun q => is_file (fs !! q)) (above p) then Err not_a_directory
  else match p with
       | [] => Ok Dir
       | _ => match fs !! p with Some n => Ok n | None => Err not_exist end
       end.

Definition ReadFile (p : path) (fs : FS) : result string :=
  match node_at p fs with
  | Ok (File data) => Ok data
  | Ok Dir => Err is_a_directory
  | Err e => Err e
  end.

(** The missing directories are made one after the other, from the root. *)
Fixpoint make_dirs (ps : list path) : prog FS unit :=
  match ps with
  | [] => ret tt
  | p :: rest => fun fs =>
      match fs !! p with
      | Some (File _) => (fs, Err not_a_directory)
      | Some Dir => make_dirs rest fs
      | None => make_dirs rest (<[p := Dir]> fs)
      end
  end.

Definition MkdirAll (p : path) : prog FS unit := make_dirs (map (fun n => take n p) (seq 1 (length p))).

Definition parent (p : path) : path := take (length p - 1) p.

(** os.CreateTemp in the directory of the path, then os.Rename onto it. *)
Definition write_file (p : path) (data : string) : prog FS unit := fun fs =>
  match node_at (parent p) fs with
  | Err e => (fs, Err e)
  | Ok (File _) => (fs, Err not_a_directory)
  | Ok Dir => match fs !! p with
              | Some Dir => (fs, Err is_a_directory)
              | _ => (<[p := File data]> fs, Ok tt)
              end
  end.

Definition has_child (p : path) (fs : FS) : bool :=
  existsb (fun '(q, _) => bool_decide (q <> [] /\ parent q = p)) (map_to_list fs).

(** os.Remove: a file, or an empty directory. *)
Definition Remove (p : path) : prog FS unit := fun fs =>
  match node_at p fs with
  | Err e => (fs, Err e)
  | Ok Dir => if has_child p fs then (fs, Err not_empty) else (delete p fs, Ok tt)
  | Ok (File _) => (delete p fs, Ok tt)
  end.

(** os.RemoveAll. *)
Definition RemoveAll (p : path) (fs : FS) : FS :=
  filter (fun '(q, _) => negb (bool_decide (take (length p) q = p)) = true) fs.

(** ** Configuration and state (local.go) *)

Record LocalConfig := { lc_Root : path; lc_SSEKMSKeyID : string; lc_enc : option envelopeEncrypter }.

Record localUpload := { lu_key : string; lu_dir : path; lu_opts : StoreOptions }.

Record LocalState := { ls_fs : FS; ls_uploads : gmap string localUpload }.

Definition on_fs {A} (m : prog FS A) : prog LocalState A := fun s =>
  let '(fs, r) := m (ls_fs s) in ({| ls_fs := fs; ls_uploads := ls_uploads s |}, r).
Definition set_uploads (u : gmap string localUpload) (s : LocalState) : LocalState :=
  {| ls_fs := ls_fs s; ls_uploads := u |}.

Definition localMetaSuffix : string := ".meta.json".

Record localMeta := {
  lm_Key : string; lm_Size : Z; lm_ETag : string; lm_ContentType : string; lm_LastModified : time; lm_Metadata : kv;
  lm_Envelope : string
}.

Definition localMeta_json (m : localMeta) : jvalue := JObject (
  [str "key" (lm_Key m); int "size" (lm_Size m); str "etag" (lm_ETag m); str "content_type" (lm_ContentType m);
   str "last_modified" (FormatRFC3339Nano (lm_LastModified m))] ++
  (if bool_decide (lm_Metadata m = ∅) then [] else [("metadata"%string, kv_json (lm_Metadata m))]) ++
  omit_str "envelope" (lm_Envelope m)).

Definition localMeta_names : list string :=
  ["key"; "size"; "etag"; "content_type"; "last_modified"; "metadata"; "envelope"]%string.

Definition localMeta_decode (o : list (string * jvalue)) : option localMeta :=
  let at_ := assigned localMeta_names o in
  let s := fun name => string_field (at_ name) "" in
  key ← s "key"%string; size ← int64_field (at_ "size"%string) 0; etag ← s "etag"%string;
  ct ← s "content_type"%string; modified ← time_field (at_ "last_modified"%string) 0;
  metadata ← kv_field (at_ "metadata"%string) ∅; envelope ← s "envelope"%string;
  Some {| lm_Key := key; lm_Size := size; lm_ETag := etag; lm_ContentType := ct; lm_LastModified := modified;
          lm_Metadata := metadata; lm_Envelope := envelope |}.

Definition toInfo (m : localMeta) : ObjectInfo := {|
  oi_Key := lm_Key m; oi_Size := lm_Size m; oi_ETag := lm_ETag m; oi_ContentType := lm_ContentType m;
  oi_LastModified := lm_LastModified m; oi_Metadata := lm_Metadata m |}.

(** json.Marshal refuses a time outside of the years 0 to 9999. *)
Definition writeMeta (p : path) (m : localMeta) : prog FS unit :=
  run! refuse_if (negb ((0 <=? Year (lm_LastModified m)) && (Year (lm_LastModified m) <=? 9999)))
         (NewError "json: time outside of range [0,9999]") in
  write_file p (marshal (localMeta_json m)).

Definition readMeta (p : path) (fs : FS) : result localMeta :=
  let! b := ReadFile p fs in
  match Unmarshal_struct b ≫= localMeta_decode with Some m => Ok m | None => Err (NewError "json: invalid metadata") end.

Section Local.
Context `{AEAD} `{MD5} (cfg : LocalConfig).

Definition SupportsServerSideEncryption (algorithm keyID : string) : bool :=
  match lc_enc cfg with
  | None => false
  | Some enc =>
      if (algorithm =s "AES256") then (keyID =s "") && match enc with LocalKeys _ => true | RemoteKeys _ => false end
      else if (algorithm =s "aws:kms") then
        match enc with
        | LocalKeys _ => false
        | RemoteKeys _ => (keyID =s "") || (lc_SSEKMSKeyID cfg =s "") || (keyID =s lc_SSEKMSKeyID cfg)
        end
      else false
  end.

(** filepath.Join of the root and the cleaned key; Rel gives the cleaned key back. *)
Definition objectPath (key : string) : result path :=
  match validateObjectKey key with
  | Some _ => Err (Sentinel ErrInvalidKey)
  | None => let rel := elements key in
            if HasPrefix (Join rel "/") ".." then Err (Sentinel ErrInvalidKey) else Ok (lc_Root cfg ++ rel)
  end.

(** The suffix goes to the last element. *)
Definition metaPath (p : path) : path := parent p ++ [(default "" (list.last p) ++ localMetaSuffix)%string].

(** ** Writing (local_write.go) *)

Definition validateServerSideEncryption (opts : StoreOptions) : option error :=
  if (so_SSEAlgorithm opts =s "") then
    if (so_SSEKMSKeyID opts <>s "") then Some (Sentinel ErrUnsupported) else None
  else if (so_SSECustomerKey opts <>s "") ||
          negb (SupportsServerSideEncryption (so_SSEAlgorithm opts) (so_SSEKMSKeyID opts))
  then Some (Sentinel ErrUnsupported) else None.

Definition plaintextSize (written : Z) (encrypted : bool) : Z :=
  if negb encrypted then written else if written - 16 <? 0 then 0 else written - 16.

(** The encrypter of a write: the customer's key, else the store's. *)
Definition write_encrypter (customerKey : string) : option envelopeEncrypter :=
  if len customerKey =? 32 then Some (LocalKeys (newSSECProvider customerKey)) else lc_enc cfg.

(** The bytes for the disk and the envelope. *)
Definition sealed_bytes (enc : option envelopeEncrypter) (rnd : randomness) (plain : string) : result (string * string) :=
  match enc with None => Ok (plain, ""%string) | Some e => encrypt e rnd plain end.

Definition writeObject (et : entropy) (p : path) (key : string) (r : Reader) (opts : StoreOptions) : prog FS localMeta :=
  run! guard (fun fs => match node_at (parent p) fs with Ok Dir => None | Ok _ => Some not_a_directory | Err e => Some e end) in
  let enc := write_encrypter (so_SSECustomerKey opts) in
  do! plain := reads (fun _ => ReadAll r) in
  do! ct := reads (fun _ => sealed_bytes enc (et_random et) plain) in
  let '(bytes, envelope) := ct in
  run! write_file p bytes in
  ret {| lm_Key := key; lm_Size := plaintextSize (len bytes) (match enc with Some _ => true | None => false end);
         lm_ETag := hex_EncodeToString (md5_Sum plain); lm_ContentType := so_ContentType opts;
         lm_LastModified := et_now et;
         lm_Metadata := <[GenerationMetadataKey := et_generation et]> (so_Metadata opts); lm_Envelope := envelope |}.

(** A failed sidecar removes the file again. *)
Definition commit_meta (p : path) (m : localMeta) : prog FS ObjectInfo := fun fs =>
  match writeMeta (metaPath p) m fs with
  | (fs', Ok _) => (fs', Ok (toInfo m))
  | (fs', Err e) => (fst (Remove p fs'), Err e)
  end.

Definition Put (et : entropy) (key : string) (r : Reader) (size : Z) (opts : StoreOptions)
    : prog LocalState (ObjectInfo * Z) :=
  run! guard (fun _ => validateServerSideEncryption opts) in
  do! p := reads (fun _ => objectPath key) in
  on_fs (run! MkdirAll (parent p) in
         do! meta := writeObject et p key r opts in
         do! info := commit_meta p meta in
         ret (info, len (rd_data r))).

Definition Delete (key : string) : prog LocalState unit :=
  do! p := reads (fun _ => objectPath key) in
  on_fs (fun fs =>
    let fs := fst (Remove (metaPath p) fs) in
    match Remove p fs with
    | (fs', Ok _) => (fs', Ok tt)
    | (fs', Err e) => (fs', if errors_Is e os_ErrNotExist then Ok tt else Err e)
    end).

(** ** Reading (local_read.go) *)

Definition readEncrypter (envelope : string) (opts : GetOptions) : result envelopeEncrypter :=
  let! env := parseEnvelope envelope in
  if (en_Kid env =s ssecKeyID) then
    if negb (len (go_SSECustomerKey opts) =? masterKeyLen) then Err (Sentinel ErrSSECustomerKeyRequired)
    else let enc := LocalKeys (newSSECProvider (go_SSECustomerKey opts)) in
         match validateEnvelope enc envelope with
         | Some _ => Err (Sentinel ErrInvalidSSECustomerKey)
         | None => Ok enc
         end
  else if (go_SSECustomerKey opts <>s "") then Err (Sentinel ErrInvalidSSECustomerKey)
  else match lc_enc cfg with
       | None => Err (NewError "sse: encrypted object but no server-side key is configured")
       | Some enc => match validateEnvelope enc envelope with Some e => Err e | None => Ok enc end
       end.

(** A file without a sidecar gets an info of its own; its modification time and the size
    of a directory are not modelled. *)
Definition statObject (key : string) (opts : option GetOptions) (fs : FS) : result ObjectInfo :=
  let! p := objectPath key in
  match readMeta (metaPath p) fs with
  | Err e =>
      if errors_Is e os_ErrNotExist then
        match node_at p fs with
        | Ok n => Ok {| oi_Key := key; oi_Size := match n with File data => len data | Dir => 0 end; oi_ETag := "";
                        oi_ContentType := ""; oi_LastModified := 0; oi_Metadata := ∅ |}
        | Err _ => Err (Sentinel StorageErrNotFound)
        end
      else Err e
  | Ok meta =>
      match opts with
      | Some o => if (lm_Envelope meta =s "") then Ok (toInfo meta)
                  else let! enc := readEncrypter (lm_Envelope meta) o in Ok (toInfo meta)
      | None => Ok (toInfo meta)
      end
  end.

Definition Stat (key : string) : prog LocalState ObjectInfo := reads (fun s => statObject key None (ls_fs s)).
Definition StatWithOptions (key : string) (opts : GetOptions) : prog LocalState ObjectInfo :=
  reads (fun s => statObject key (Some opts) (ls_fs s)).

Definition sse_decrypt (enc : envelopeEncrypter) (data envelope : string) : result string :=
  match decrypt enc data envelope with Ok p => Ok p | Err e => Err (Wrap "sse decrypt" [e]) end.

(** A directory opens, and its first read fails; a stream that cannot be read is an error
    here already. *)
Definition GetWithOptions (key : string) (opts : GetOptions) : prog LocalState (string * ObjectInfo) :=
  do! info := StatWithOptions key opts in
  do! p := reads (fun _ => objectPath key) in
  reads (fun s =>
    match ReadFile p (ls_fs s) with
    | Err e => Err (if errors_Is e os_ErrNotExist then Sentinel StorageErrNotFound else e)
    | Ok data =>
        match readMeta (metaPath p) (ls_fs s) with
        | Ok meta => if (lm_Envelope meta =s "") then Ok (data, info)
                     else let! enc := readEncrypter (lm_Envelope meta) opts in
                          let! pt := sse_decrypt enc data (lm_Envelope meta) in Ok (pt, info)
        | Err _ => Ok (data, info)
        end
    end).

Definition generation (i : ObjectInfo) : string := default ""%string (oi_Metadata i !! GenerationMetadataKey).

Definition boundInfoMatches (got expected : ObjectInfo) : bool :=
  (generation expected <>s "") && (oi_Key got =s oi_Key expected) && (oi_ETag got =s oi_ETag expected) &&
  (oi_Size got =? oi_Size expected) && (generation got =s generation expected).

Definition generationProofError (got expected : ObjectInfo) : error :=
  if (generation expected =s "") || (generation got =s "") then Sentinel ErrUnsupported else Sentinel ErrGenerationMismatch.

(** Nothing writes between the two observations: the read lock is held. *)
Definition GetGenerationBound (ctx : option error) (key : string) (expected : ObjectInfo)
    : prog LocalState (string * ObjectInfo) :=
  run! guard (fun _ => ctx) in
  do! p := reads (fun _ => objectPath key) in
  reads (fun s =>
    match node_at p (ls_fs s) with
    | Err e => Err (if errors_Is e os_ErrNotExist then Sentinel StorageErrNotFound else e)
    | Ok _ =>
        let! before := statObject key None (ls_fs s) in
        if negb (boundInfoMatches before expected) then Err (generationProofError before expected)
        else let! data := ReadFile p (ls_fs s) in
             let! meta := readMeta (metaPath p) (ls_fs s) in
             if (lm_Envelope meta =s "") then Ok (data, before)
             else let! enc := readEncrypter (lm_Envelope meta) noGetOptions in
                  let! pt := sse_decrypt enc data (lm_Envelope meta) in Ok (pt, before)
    end).

(** ** Copy (local_copy.go) *)

Definition copy_meta (et : entropy) (opts : CopyOptions) (dstKey : string) (written : Z) (meta : localMeta) : localMeta :=
  let replace := (co_MetadataDirective opts =s "REPLACE") in {|
  lm_Key := dstKey; lm_Size := plaintextSize written (lm_Envelope meta <>s ""); lm_ETag := lm_ETag meta;
  lm_ContentType := if replace && (co_ContentType opts <>s "") then co_ContentType opts else lm_ContentType meta;
  lm_LastModified := lm_LastModified meta;
  lm_Metadata := <[GenerationMetadataKey := et_generation et]>
                   (if replace then default (lm_Metadata meta) (co_Metadata opts) else lm_Metadata meta);
  lm_Envelope := lm_Envelope meta |}.

Definition missing_is_not_found (e : error) : error :=
  if errors_Is e os_ErrNotExist then Sentinel StorageErrNotFound else e.

Definition Copy (et : entropy) (srcKey dstKey : string) (opts : CopyOptions) : prog LocalState ObjectInfo :=
  do! src := reads (fun _ => objectPath srcKey) in
  do! meta := map_err missing_is_not_found (reads (fun s => readMeta (metaPath src) (ls_fs s))) in
  do! dst := reads (fun _ => objectPath dstKey) in
  on_fs (run! MkdirAll (parent dst) in
         do! data := map_err missing_is_not_found (reads (ReadFile src)) in
         run! write_file dst data in
         commit_meta dst (copy_meta et opts dstKey (len data) meta)).

(** ** Listing (local_list.go) *)

Definition isInternalTemp (name : string) : bool :=
  HasPrefix name ".upload-" || HasPrefix name ".assemble-" || HasPrefix name ".meta-".
Definition isSkippedFile (rel : path) (name : string) : bool :=
  HasSuffix (Join rel "/") localMetaSuffix || isInternalTemp name.
Definition matchPrefix (prefix key : string) : bool := (prefix =s "") || HasPrefix key prefix.
Definition skipMarker (marker key : string) : bool := (marker <>s "") && negb (String.ltb marker key).

(** The files WalkDir visits below the root: no directory on the way is .multipart. *)
Definition walked (fs : FS) : list path :=
  omap (fun '(p, n) => if is_file (Some n) && bool_decide (take (length (lc_Root cfg)) p = lc_Root cfg) &&
                          negb (contains (parent (drop (length (lc_Root cfg)) p)) ".multipart")
                       then Some (drop (length (lc_Root cfg)) p) else None) (map_to_list fs).

(** A file whose Stat fails is left out. *)
Definition collectObjects (prefix marker : string) (fs : FS) : list ObjectInfo :=
  omap (fun rel => let key := Join rel "/" in
          if isSkippedFile rel (default "" (list.last rel)) || negb (matchPrefix prefix key) || skipMarker marker key then None
          else match statObject key None fs with Ok info => Some info | Err _ => None end) (walked fs).

Definition List_ (prefix marker : string) (limit : Z) : prog LocalState ListResult :=
  let limit := if limit <=? 0 then 1000 else limit in
  reads (fun s =>
    let matches := sort_by (fun a b => text_le (oi_Key a) (oi_Key b)) (collectObjects prefix marker (ls_fs s)) in
    Ok (if limit <? Z.of_nat (length matches) then
          let page := take (Z.to_nat limit) matches in
          {| lr_Objects := page; lr_NextMarker := match list.last page with Some i => oi_Key i | None => "" end;
             lr_HasMore := true |}
        else {| lr_Objects := matches; lr_NextMarker := ""; lr_HasMore := false |})).

(** ** Multipart uploads (local_multipart.go) *)

(** filepath.Join of the root, .multipart and the id. *)
Definition multipartDir (uploadID : string) : path :=
  clean_elems true (rev (lc_Root cfg ++ [".multipart"%string])) (split_slash uploadID).

Definition part_name (n : Z) : string := ("part-" ++ pad 5 n)%string.

Definition InitMultipart (et : entropy) (key : string) (opts : StoreOptions) : prog LocalState string :=
  run! guard (fun _ => validateServerSideEncryption opts) in
  do! p := reads (fun _ => objectPath key) in
  let id := et_uuid et in
  let dir := multipartDir id in
  run! on_fs (MkdirAll dir) in
  fun s => (set_uploads (<[id := {| lu_key := key; lu_dir := dir; lu_opts := opts |}]> (ls_uploads s)) s, Ok id).

Definition validateMultipartSSEC (initial request : StoreOptions) : option error :=
  if (so_SSECustomerKey initial =s "") then
    if (so_SSECustomerKey request <>s "") then Some (Sentinel ErrInvalidSSECustomerKey) else None
  else if negb (len (so_SSECustomerKey request) =? masterKeyLen) then Some (Sentinel ErrSSECustomerKeyRequired)
  else if (so_SSECustomerKey initial <>s so_SSECustomerKey request) then Some (Sentinel ErrInvalidSSECustomerKey)
  else None.

Definition unknown_upload : error := NewError "unknown upload".

Definition find_upload (key uploadID : string) : prog LocalState localUpload :=
  reads (fun s => match ls_uploads s !! uploadID with
                  | Some up => if (lu_key up =s key) then Ok up else Err unknown_upload
                  | None => Err unknown_upload
                  end).

(** os.Create truncates the part; what was read before an error stays in it. *)
Definition write_part (up : localUpload) (n : Z) (r : Reader) : prog LocalState MultipartPart :=
  run! on_fs (write_file (lu_dir up ++ [part_name n]) (rd_data r)) in
  run! guard (fun _ => rd_err r) in
  ret {| mp_PartNumber := n; mp_ETag := hex_EncodeToString (md5_Sum (rd_data r)) |}.

Definition UploadPartWithOptions (key uploadID : string) (n : Z) (r : Reader) (size : Z) (opts : StoreOptions)
    : prog LocalState (MultipartPart * Z) :=
  do! up := find_upload key uploadID in
  run! guard (fun _ => validateMultipartSSEC (lu_opts up) opts) in
  do! part := write_part up n r in
  ret (part, len (rd_data r)).

(** The MD5 of the parts' digests, and their number. *)
Fixpoint part_digests (parts : list MultipartPart) : result string :=
  match parts with
  | [] => Ok ""%string
  | p :: rest => match hex_DecodeString (mp_ETag p) with
                 | None => Err (Wrap "multipart: part has a non-hex etag" [])
                 | Some raw => let! more := part_digests rest in Ok (raw ++ more)%string
                 end
  end.

Definition multipartETag (parts : list MultipartPart) : result string :=
  let! digests := part_digests parts in
  Ok (hex_EncodeToString (md5_Sum digests) ++ "-" ++ pretty (Z.of_nat (length parts)))%string.

(** The parts one after the other. *)
Fixpoint writePartsTo (dir : path) (parts : list MultipartPart) (fs : FS) : result string :=
  match parts with
  | [] => Ok ""%string
  | p :: rest => let! data := ReadFile (dir ++ [part_name (mp_PartNumber p)]) fs in
                 let! more := writePartsTo dir rest fs in Ok (data ++ more)%string
  end.

Definition mergeParts (et : entropy) (up : localUpload) (parts : list MultipartPart) (dst : path) : prog FS (Z * string) :=
  run! MkdirAll (parent dst) in
  do! plain := reads (writePartsTo (lu_dir up) parts) in
  do! ct := reads (fun _ => sealed_bytes (write_encrypter (so_SSECustomerKey (lu_opts up))) (et_random et) plain) in
  let '(bytes, envelope) := ct in
  run! write_file dst bytes in ret (len plain, envelope).

Definition by_part (a b : MultipartPart) : bool := mp_PartNumber a <=? mp_PartNumber b.

Definition assemble (et : entropy) (key : string) (up : localUpload) (parts : list MultipartPart) : prog FS ObjectInfo :=
  do! dst := reads (fun _ => objectPath key) in
  do! merged := mergeParts et up parts dst in
  let '(total, envelope) := merged in
  do! etag := reads (fun _ => multipartETag parts) in
  commit_meta dst {|
    lm_Key := key; lm_Size := total; lm_ETag := etag; lm_ContentType := so_ContentType (lu_opts up);
    lm_LastModified := et_now et;
    lm_Metadata := <[GenerationMetadataKey := et_generation et]> (so_Metadata (lu_opts up)); lm_Envelope := envelope |}.

(** The upload is forgotten first, whatever its key; its parts go at the end, whatever
    came of them. *)
Definition CompleteMultipartWithOptions (et : entropy) (key uploadID : string) (parts : list MultipartPart)
    (opts : StoreOptions) : prog LocalState ObjectInfo := fun s =>
  match ls_uploads s !! uploadID with
  | None => (s, Err unknown_upload)
  | Some up =>
      let refused := validateMultipartSSEC (lu_opts up) opts in
      let s1 := match refused with None => set_uploads (delete uploadID (ls_uploads s)) s | Some _ => s end in
      if (lu_key up <>s key) then (s1, Err unknown_upload)
      else match refused with
           | Some e => (s1, Err e)
           | None => let '(fs, r) := assemble et key up (sort_by by_part parts) (ls_fs s1) in
                     ({| ls_fs := RemoveAll (lu_dir up) fs; ls_uploads := ls_uploads s1 |}, r)
           end
  end.

Definition AbortMultipart (key uploadID : string) : prog LocalState unit := fun s =>
  match ls_uploads s !! uploadID with
  | None => (s, Ok tt)
  | Some up => ({| ls_fs := RemoveAll (lu_dir up) (ls_fs s); ls_uploads := delete uploadID (ls_uploads s) |}, Ok tt)
  end.

Definition UploadPartCopy (dstKey uploadID : string) (n : Z) (srcKey : string) (srcOffset length : Z)
    : prog LocalState MultipartPart :=
  do! up := find_upload dstKey uploadID in
  do! src := reads (fun _ => objectPath srcKey) in
  do! data := reads (fun s => match ReadFile src (ls_fs s) with
                              | Ok data => Ok data
                              | Err e => Err (if errors_Is e os_ErrNotExist then Wrap "source not found" [not_exist] else e)
                              end) in
  do! meta := map_err (fun e => Wrap "read source metadata" [e]) (reads (fun s => readMeta (metaPath src) (ls_fs s))) in
  run! refuse_if (lm_Envelope meta <>s "") (Sentinel ErrUnsupported) in
  if srcOffset <? 0 then write_part up n (reader_of data)
  else run! refuse_if ((length <=? 0) || (len data <=? srcOffset) || (len data - srcOffset <? length))
              (NewError "invalid source range") in
       write_part up n (reader_of (slice data (Z.to_nat srcOffset) (Z.to_nat (srcOffset + length)))).

Definition CleanupParts (uploadID : string) : prog LocalState unit := fun s =>
  let dir := multipartDir uploadID in
  match node_at dir (ls_fs s) with
  | Err e => if errors_Is e os_ErrNotExist then (s, Ok tt)
             else ({| ls_fs := RemoveAll dir (ls_fs s); ls_uploads := delete uploadID (ls_uploads s) |}, Ok tt)
  | Ok _ => ({| ls_fs := RemoveAll dir (ls_fs s); ls_uploads := delete uploadID (ls_uploads s) |}, Ok tt)
  end.

(** ** Key rotation (rewrap.go) *)

Definition with_envelope (env : string) (m : localMeta) : localMeta := {|
  lm_Key := lm_Key m; lm_Size := lm_Size m; lm_ETag := lm_ETag m; lm_ContentType := lm_ContentType m;
  lm_LastModified := lm_LastModified m; lm_Metadata := lm_Metadata m; lm_Envelope := env |}.

(** [None] is a panic. *)
Definition RewrapObject (nonce key : string) (s : LocalState) : option (LocalState * result bool) :=
  match lc_enc cfg with
  | None => Some (s, Ok false)
  | Some enc =>
      match objectPath key with
      | Err e => Some (s, Err e)
      | Ok p =>
          match readMeta (metaPath p) (ls_fs s) with
          | Err e => Some (s, Err (missing_is_not_found e))
          | Ok meta =>
              if (lm_Envelope meta =s "") then Some (s, Ok false)
              else match rewrap enc nonce (lm_Envelope meta) with
                   | Panic => None
                   | Returns (Err e) => Some (s, Err e)
                   | Returns (Ok (newEnv, changed)) =>
                       if negb changed then Some (s, Ok false)
                       else match writeMeta (metaPath p) (with_envelope newEnv meta) (ls_fs s) with
                            | (fs, Ok _) => Some ({| ls_fs := fs; ls_uploads := ls_uploads s |}, Ok true)
                            | (fs, Err e) => Some ({| ls_fs := fs; ls_uploads := ls_uploads s |}, Err e)
                            end
                   end
          end
      end
  end.

#[export] Instance local_storage : Storage LocalState := {|
  st_Backend := "local"; st_SupportsSSEC := true; st_SupportsSSE := SupportsServerSideEncryption;
  st_Put := Put; st_Get := GetWithOptions; st_Stat := Stat; st_Delete := Delete; st_InitMultipart := InitMultipart;
  st_UploadPart := UploadPartWithOptions; st_UploadPartCopy := UploadPartCopy;
  st_CompleteMultipart := CompleteMultipartWithOptions; st_AbortMultipart := AbortMultipart |}.
End Local.
