(* ===== verification/LocalStorageProps.v ===== *)
(** * What the local backend guarantees

    Every operation keeps the files a tree and changes nothing outside the root
    ([local_backend_contained]).  The backend keeps the storage contract, encrypted or
    not: [local_laws] gives [StorageLaws] for keys of which neither's file is the other's
    file or sidecar, and [local_put_get] is what a client has from it.  [sidecar_forged]
    shows what the exception means: an object whose key ends in ".meta.json" is the
    metadata of another. *)

From Stdlib Require Import Ascii Lia Bool ZArith.
From stdpp Require Import base gmap strings list numbers option pretty.
From S2P Require Import Prelude GoStrings GoPath Json JsonProps Base64 GoTime GoErrors Sql JsonStruct Envelope EnvelopeProps Storage LocalStorage.

Open Scope Z_scope.

(** ** Paths *)

Lemma elem_above q p : q ∈ above p <-> q <> [] /\ exists x r, p = q ++ x :: r.
Proof.
  unfold above. rewrite list_elem_of_fmap. setoid_rewrite elem_of_seq. split.
  - intros (n & -> & Hn). assert (n < length p)%nat as Hlt by lia. split.
    + intros E. apply (f_equal length) in E. rewrite length_take in E. cbn in E. lia.
    + exists (nth n p ""%string), (drop (S n) p).
      rewrite <- (take_drop n p) at 1. f_equal. apply drop_S. apply list_lookup_lookup_total_lt in Hlt.
      rewrite Hlt. f_equal. symmetry. by apply nth_lookup_Some.
  - intros (Hq & x & r & ->). exists (length q). rewrite take_app_length, length_app. cbn. split; [done|].
    destruct q; [done|]. cbn. lia.
Qed.

Lemma parent_snoc p x : parent (p ++ [x]) = p.
Proof. unfold parent. rewrite length_app. cbn. rewrite Nat.add_sub. apply take_app_length. Qed.

Lemma above_snoc q p x : q ∈ above (p ++ [x]) <-> (q <> [] /\ q = p) \/ q ∈ above p.
Proof.
  rewrite !elem_above. split.
  - intros (Hq & y & r & E). destruct (decide (r = [])) as [->|Hr].
    + apply app_inj_tail in E as [-> _]. by left.
    + destruct (exists_last Hr) as (r' & z & ->). rewrite app_comm_cons, app_assoc in E. apply app_inj_tail in E as [-> _]. eauto 6.
  - intros [[Hq ->]|(Hq & y & r & ->)]; (split; [done|]); [by exists x, []|]. exists y, (r ++ [x]). by rewrite <- app_assoc.
Qed.

Lemma snoc_cases (p : path) : p = [] \/ exists q x, p = q ++ [x].
Proof. destruct (decide (p = [])) as [->|Hp]; [by left|]. right. destruct (exists_last Hp) as (q & x & ->). eauto. Qed.

Lemma above_irrefl p : p ∉ above p.
Proof.
  rewrite elem_above. intros (_ & x & r & E). apply (f_equal length) in E. rewrite length_app in E. cbn in E. lia.
Qed.

Lemma metaPath_snoc p x : metaPath (p ++ [x]) = p ++ [(x ++ localMetaSuffix)%string].
Proof. unfold metaPath. by rewrite parent_snoc, last_snoc. Qed.

Lemma suffix_ne x s : s <> ""%string -> (x ++ s)%string <> x.
Proof. intros Hs E. apply (f_equal String.length) in E. rewrite string_length_app in E. destruct s; [done|]. cbn in E. lia. Qed.

Lemma app_suffix_inj x y s : (x ++ s)%string = (y ++ s)%string -> x = y.
Proof.
  intros E. apply (f_equal chars) in E. rewrite !chars_app in E. apply app_inv_tail in E.
  apply (f_equal text) in E. by rewrite !text_chars in E.
Qed.

(** ** Trees *)

(** Everything lies in directories. *)
Definition tree (fs : FS) : Prop := forall q n r, fs !! q = Some n -> r ∈ above q -> fs !! r = Some Dir.

Lemma node_at_tree p n fs : tree fs -> p <> [] -> fs !! p = Some n -> node_at p fs = Ok n.
Proof.
  intros Ht Hp Hn. unfold node_at. rewrite (proj2 (existsb_none _ _)).
  - destruct p; [done|]. by rewrite Hn.
  - intros q Hq. by rewrite (Ht _ _ _ Hn Hq).
Qed.

Lemma node_at_absent p fs : p <> [] -> fs !! p = None -> exists e, node_at p fs = Err e.
Proof. intros Hp Hn. unfold node_at. destruct (existsb _ _); [eauto|]. destruct p; [done|]. rewrite Hn. eauto. Qed.

Lemma node_at_dir p fs : node_at p fs = Ok Dir -> forall x r, r ∈ above (p ++ [x]) -> is_file (fs !! r) = false.
Proof.
  unfold node_at. destruct (existsb _ _) eqn:E; [done|]. rewrite existsb_none in E. intros Hd x r [[Hr ->]|Hr]%above_snoc; [|by apply E].
  destruct p; [done|]. by destruct (fs !! _) as [[]|].
Qed.

(** A directory that a tree holds has its own directories. *)
Lemma dir_above p x fs : tree fs -> node_at p fs = Ok Dir -> forall r, r ∈ above (p ++ [x]) -> fs !! r = Some Dir.
Proof.
  intros Ht Hd r Hr. destruct (decide (p = [])) as [->|Hp].
  - apply above_snoc in Hr as [[? ->]|(? & ? & ? & ?%(f_equal length))%elem_above]; [done|]. rewrite length_app in H0. cbn in H0. lia.
  - assert (fs !! p = Some Dir) as Hl.
    { unfold node_at in Hd. destruct (existsb _ _); [done|]. destruct p; [done|]. by destruct (fs !! _) as [[]|]; simplify_eq. }
    apply above_snoc in Hr as [[_ ->]|Hr]; [done|]. by apply (Ht p Dir).
Qed.

Lemma tree_insert p n fs :
  tree fs -> (forall r, r ∈ above p -> fs !! r = Some Dir) -> (n = Dir \/ fs !! p <> Some Dir) -> tree (<[p := n]> fs).
Proof.
  intros Ht Hp Hn q m r Hq Hr. destruct (decide (p = r)) as [->|Hpr].
  - rewrite lookup_insert_eq. destruct (decide (r = q)) as [->|Hrq]; [by apply above_irrefl in Hr|].
    rewrite lookup_insert_ne in Hq by done. specialize (Ht _ _ _ Hq Hr). destruct Hn as [->|Hn]; congruence.
  - rewrite lookup_insert_ne by done. destruct (decide (p = q)) as [->|Hpq]; [by apply Hp|].
    rewrite lookup_insert_ne in Hq by done. by eapply Ht.
Qed.

Lemma tree_delete p fs : tree fs -> (forall q n, fs !! q = Some n -> p ∉ above q) -> tree (delete p fs).
Proof.
  intros Ht Hp q m r [Hpq Hq]%lookup_delete_Some Hr. rewrite lookup_delete_ne; [by eapply Ht|].
  intros ->. by apply (Hp q m).
Qed.

Lemma has_child_none p fs : tree fs -> p <> [] -> has_child p fs = false -> forall q n, fs !! q = Some n -> p ∉ above q.
Proof.
  intros Ht Hp Hc q n Hq (_ & x & r & ->)%elem_above. unfold has_child in Hc. rewrite existsb_none in Hc.
  assert (exists m, fs !! (p ++ [x]) = Some m) as [m Hm].
  { destruct (decide (r = [])) as [->|Hr]; [eauto|]. exists Dir. eapply Ht; [exact Hq|]. apply elem_above.
    split; [by destruct p|]. destruct r as [|y r]; [done|]. exists y, r. by rewrite <- app_assoc. }
  specialize (Hc (p ++ [x], m)). cbn in Hc. rewrite bool_decide_true in Hc; [|split; [by destruct p|apply parent_snoc]].
  discriminate Hc. by apply elem_of_map_to_list.
Qed.

(** ** Calls keep the tree *)

Definition keeps_tree {A} (m : prog FS A) : Prop := forall fs, tree fs -> tree (fst (m fs)).

Lemma write_file_tree p data : p <> [] -> keeps_tree (write_file p data).
Proof.
  intros Hp fs. unfold write_file. destruct (node_at (parent p) fs) as [[|d]|] eqn:E; [|done|done].
  destruct (snoc_cases p) as [->|(q & x & ->)]; [done|]. rewrite parent_snoc in E.
  destruct (fs !! (q ++ [x])) as [[|d]|] eqn:El; [done|..]; intros Ht; apply tree_insert; try done;
    (by eapply dir_above) || (right; congruence).
Qed.

Lemma Remove_tree p : p <> [] -> keeps_tree (Remove p).
Proof.
  intros Hp fs. unfold Remove. destruct (node_at p fs) as [[|d]|] eqn:E; [|intros Ht|done].
  - destruct (has_child p fs) eqn:Ec; [done|]. intros Ht. apply tree_delete; [done|]. by apply has_child_none.
  - apply tree_delete; [done|]. intros q n Hq Hpq. specialize (Ht _ _ _ Hq Hpq). unfold node_at in E.
    destruct (existsb _ _); [done|]. destruct p; [done|]. rewrite Ht in E. discriminate.
Qed.

Lemma RemoveAll_tree p fs : tree fs -> tree (RemoveAll p fs).
Proof.
  unfold RemoveAll. intros Ht q n r [Hq Hn]%map_lookup_filter_Some Hr. apply map_lookup_filter_Some.
  split; [by eapply Ht|]. apply negb_true_iff, bool_decide_eq_false in Hn. apply negb_true_iff, bool_decide_eq_false.
  intros E. apply Hn. apply elem_above in Hr as (_ & x & k & ->). rewrite take_app_le; [done|].
  apply (f_equal length) in E. rewrite length_take in E. lia.
Qed.

(** The directories come from the root down. *)
Lemma make_dirs_tree p m k fs :
  (1 <= k)%nat -> (forall r j, (1 <= j < k)%nat -> r = take j p -> r <> [] -> fs !! r = Some Dir) -> tree fs ->
  tree (fst (make_dirs (map (fun n => take n p) (seq k m)) fs)).
Proof.
  revert k fs. induction m as [|m IH]; intros k fs Hk Hup Ht; [done|]. cbn.
  assert (forall r, r ∈ above (take k p) -> fs !! r = Some Dir) as Ha.
  { intros r Hr. apply elem_above in Hr as Hr'. destruct Hr' as (Hne & x & y & E). apply (Hup r (length r)); [|by apply (f_equal (take (length r))) in E; rewrite take_app_length, take_take in E; rewrite <- E; f_equal; apply (f_equal length) in E; rewrite ?length_take in *; lia|done].
    apply (f_equal length) in E. rewrite length_app, length_take in E. cbn in E. destruct r; [done|]. cbn in *. lia. }
  destruct (fs !! take k p) as [[|d]|] eqn:E; [|done|]; (apply IH; [lia| |]).
  - intros r j Hj -> Hne. destruct (decide (j = k)) as [->|]; [done|]. apply (Hup _ j); [lia|done|done].
  - done.
  - intros r j Hj -> Hne. destruct (decide (take j p = take k p)) as [->|Hd]; [by rewrite lookup_insert_eq|].
    rewrite lookup_insert_ne by done. apply (Hup _ j); [|done|done]. split; [lia|]. assert (j <> k) by congruence. lia.
  - apply tree_insert; [done|done|by left].
Qed.

Lemma MkdirAll_tree p : keeps_tree (MkdirAll p).
Proof. intros fs. apply make_dirs_tree; [lia|]. intros r j ?. lia. Qed.

(** Making directories changes no file, and nothing off the way. *)
Lemma make_dirs_lookup ps q fs :
  let fs' := fst (make_dirs ps fs) in
  (fs' !! q = fs !! q \/ fs !! q = None /\ fs' !! q = Some Dir /\ q ∈ ps).
Proof.
  cbn. revert fs. induction ps as [|p ps IH]; intros fs; [by left|]. cbn [make_dirs].
  destruct (fs !! p) as [[|d]|] eqn:E; [|by left|].
  - destruct (IH fs) as [|(?&?&?)]; [by left|right]. split_and!; [done|done|by right].
  - destruct (IH (<[p := Dir]> fs)) as [H|(H1 & H2 & H3)].
    + destruct (decide (p = q)) as [->|Hne]; [|left; by rewrite lookup_insert_ne in H].
      right. rewrite lookup_insert_eq in H. split_and!; [done|done|by left].
    + right. destruct (decide (p = q)) as [->|Hne]; [by rewrite lookup_insert_eq in H1|].
      rewrite lookup_insert_ne in H1 by done. split_and!; [done|done|by right].
Qed.

Lemma MkdirAll_lookup p q x fs :
  fst (MkdirAll p fs) !! q = fs !! q \/ fs !! q = None /\ fst (MkdirAll p fs) !! q = Some Dir /\ q ∈ above (p ++ [x]).
Proof.
  destruct (make_dirs_lookup (map (fun n => take n p) (seq 1 (length p))) q fs) as [H|(H1 & H2 & H3)]; [by left|].
  right. split_and!; [done|done|]. apply list_elem_of_fmap in H3 as (n & -> & Hn). apply elem_of_seq in Hn.
  apply list_elem_of_fmap. exists n. rewrite length_app, elem_of_seq. cbn. split; [|lia]. symmetry. apply take_app_le. lia.
Qed.

(** What a write and a removal leave of another path. *)
Lemma write_file_lookup p data q fs : q <> p -> fst (write_file p data fs) !! q = fs !! q.
Proof.
  intros Hq. unfold write_file. destruct (node_at _ _) as [[|d]|]; [|done|done].
  destruct (fs !! p) as [[|d]|]; [done|..]; cbn; by rewrite lookup_insert_ne.
Qed.

Lemma Remove_lookup p q fs : q <> p -> fst (Remove p fs) !! q = fs !! q.
Proof.
  intros Hq. unfold Remove. destruct (node_at _ _) as [[|d]|]; [| |done]; [destruct (has_child p fs); [done|]|];
    cbn; by rewrite lookup_delete_ne.
Qed.

Lemma write_file_Ok p data fs fs' u : write_file p data fs = (fs', Ok u) -> fs' = <[p := File data]> fs.
Proof.
  unfold write_file. destruct (node_at _ _) as [[|d]|]; [|done|done]. destruct (fs !! p) as [[|d]|]; [done|..]; by intros [= <- _].
Qed.

Lemma Remove_Ok p fs fs' u : Remove p fs = (fs', Ok u) -> fs' = delete p fs.
Proof.
  unfold Remove. destruct (node_at _ _) as [[|d]|]; [| |done]; [destruct (has_child p fs); [done|]|]; by intros [= <- _].
Qed.

(** ** Inside the root *)

(** One run of a program, as all its runs. *)
Ltac as_keeps :=
  match goal with |- ?R ?s (fst (?m ?s)) => let Hk := fresh in enough (keeps R m) as Hk by apply Hk end.

Section Root.
Context `{AEAD} `{MD5} (cfg : LocalConfig).

Definition inside (p : path) : Prop := exists x rel, p = lc_Root cfg ++ x :: rel.

(** The tree is kept, and nothing changes but inside the root and, made anew, on the way
    to it. *)
Definition contained (fs fs' : FS) : Prop :=
  tree fs -> tree fs' /\ forall q, ~ inside q -> q <> lc_Root cfg -> q ∉ above (lc_Root cfg) -> fs' !! q = fs !! q.

#[local] Instance contained_preorder : PreOrder contained.
Proof.
  split; [by intros fs|]. intros a b c H1 H2 Ha. destruct (H1 Ha) as [Hb H3]. destruct (H2 Hb) as [Hc H4]. split; [done|].
  intros q Hi Hr Hq. by rewrite H4, H3.
Qed.

Lemma inside_snoc p x : inside (p ++ [x]) <-> p = lc_Root cfg \/ inside p.
Proof.
  split.
  - intros (y & rel & E). destruct (snoc_cases rel) as [->|(r & z & ->)].
    + apply app_inj_tail in E as [-> _]. by left.
    + rewrite app_comm_cons, app_assoc in E. apply app_inj_tail in E as [-> _]. right. by exists y, r.
  - intros [->|(y & rel & ->)]; [by exists x, []|]. exists y, (rel ++ [x]). by rewrite <- app_assoc.
Qed.

Lemma inside_nonempty p : inside p -> p <> [].
Proof. intros (x & rel & ->) E. by apply app_eq_nil in E as [_ E]. Qed.

Lemma inside_meta p : inside p -> inside (metaPath p).
Proof.
  intros Hp. destruct (snoc_cases p) as [->|(q & x & ->)]; [by apply inside_nonempty in Hp|].
  rewrite metaPath_snoc. apply inside_snoc. by apply inside_snoc in Hp.
Qed.

Lemma above_inside q p : inside p -> q ∈ above p -> inside q \/ q = lc_Root cfg \/ q ∈ above (lc_Root cfg).
Proof.
  intros (x & rel & ->) (Hq & y & r & E)%elem_above. apply app_eq_app in E as (l & [[E1 E2]|[E1 E2]]).
  - destruct l as [|z l]; [rewrite app_nil_r in E1; auto|]. right. right. apply elem_above. split; [done|]. by exists z, l.
  - destruct l as [|z l]; [rewrite app_nil_r in E1; auto|]. left. rewrite E1. by exists z, l.
Qed.

Lemma contained_write p data : inside p -> keeps contained (write_file p data).
Proof.
  intros Hp fs Ht. split; [by apply write_file_tree; [apply inside_nonempty|]|]. intros q Hq _ _. apply write_file_lookup. by intros ->.
Qed.

Lemma contained_remove p : inside p -> keeps contained (Remove p).
Proof.
  intros Hp fs Ht. split; [by apply Remove_tree; [apply inside_nonempty|]|]. intros q Hq _ _. apply Remove_lookup. by intros ->.
Qed.

Lemma contained_mkdirs p : inside p \/ p = lc_Root cfg -> keeps contained (MkdirAll p).
Proof.
  intros Hp fs Ht. split; [by apply MkdirAll_tree|]. intros q Hq Hr Ha.
  destruct (MkdirAll_lookup p q "" fs) as [|(_ & _ & Hin)]; [done|].
  apply above_inside in Hin as [?|[?|?]]; [done|done|done|]. apply inside_snoc. tauto.
Qed.

Lemma contained_remove_all p fs : inside p -> contained fs (RemoveAll p fs).
Proof.
  intros (x & rel & ->) Ht. split; [by apply RemoveAll_tree|]. intros q Hq _ _. unfold RemoveAll.
  destruct (fs !! q) as [n|] eqn:E.
  - apply map_lookup_filter_Some. split; [done|]. apply negb_true_iff, bool_decide_eq_false. intros Et. apply Hq.
    exists x, (rel ++ drop (length (lc_Root cfg ++ x :: rel)) q). rewrite <- (take_drop (length (lc_Root cfg ++ x :: rel)) q) at 1.
    rewrite Et. by rewrite <- app_assoc.
  - apply map_lookup_filter_None. by left.
Qed.

Lemma inside_parent p : inside p -> inside (parent p) \/ parent p = lc_Root cfg.
Proof.
  intros Hp. destruct (snoc_cases p) as [->|(q & x & ->)]; [by apply inside_nonempty in Hp|].
  rewrite parent_snoc. apply inside_snoc in Hp. tauto.
Qed.

Lemma objectPath_Ok key p :
  objectPath cfg key = Ok p -> p = lc_Root cfg ++ elements key /\ Contains key ".." = false /\ rooted key = false.
Proof.
  unfold objectPath, validateObjectKey, rooted. destruct (key =s ""); [done|]. destruct (HasPrefix key "/"); [done|].
  destruct (Contains key ".."); [done|]. cbn. destruct (HasPrefix (Join _ _) ".."); [done|]. by intros [= <-].
Qed.

(** The key names something below the root. *)
Definition proper_key (key : string) : Prop := elements key <> [].

Lemma objectPath_inside key p : proper_key key -> objectPath cfg key = Ok p -> inside p.
Proof. intros Hk [-> _]%objectPath_Ok. unfold inside. destruct (elements key) as [|x rel] eqn:E; [by destruct Hk|eauto]. Qed.

Lemma multipartDir_element id : element id -> multipartDir cfg id = lc_Root cfg ++ [".multipart"%string; id].
Proof.
  intros He. pose proof He as (H1 & H2 & H3 & Hs). unfold multipartDir. rewrite split_no_slash by done. rewrite clean_filter by by constructor.
  rewrite rev_involutive. cbn. rewrite element_kept by done. by rewrite <- app_assoc.
Qed.

(** ** Operations stay inside *)

Definition local_ok (s : LocalState) : Prop :=
  tree (ls_fs s) /\ forall id up, ls_uploads s !! id = Some up -> inside (lu_dir up).

(** The state stays good, and the outside stays as it was. *)
Definition local_contained (s s' : LocalState) : Prop :=
  local_ok s -> local_ok s' /\
  forall q, ~ inside q -> q <> lc_Root cfg -> q ∉ above (lc_Root cfg) -> ls_fs s' !! q = ls_fs s !! q.

#[local] Instance local_contained_preorder : PreOrder local_contained.
Proof.
  split; [by intros s|]. intros a b c H1 H2 Ha. destruct (H1 Ha) as [Hb H3]. destruct (H2 Hb) as [Hc H4]. split; [done|].
  intros q Hi Hr Hq. by rewrite H4, H3.
Qed.

Lemma contained_on_fs {A} (m : prog FS A) : keeps contained m -> keeps local_contained (on_fs m).
Proof.
  intros Hm s [Ht Hu]. unfold on_fs. specialize (Hm (ls_fs s) Ht) as [Ht' Hq]. destruct (m (ls_fs s)) as [fs r]. cbn in *.
  split; [|done]. by split.
Qed.

Lemma contained_meta p m : inside p -> keeps contained (writeMeta (metaPath p) m).
Proof. intros Hp. unfold writeMeta. keeps_tac. by apply contained_write, inside_meta. Qed.

Lemma contained_commit p m : inside p -> keeps contained (commit_meta p m).
Proof.
  intros Hp fs. unfold commit_meta. pose proof (contained_meta p m Hp fs) as Hw. destruct (writeMeta _ _ fs) as [fs' [u|e]]; [done|].
  etrans; [exact Hw|]. by apply contained_remove.
Qed.

Lemma contained_object et p key r opts : inside p -> keeps contained (writeObject cfg et p key r opts).
Proof. intros Hp. unfold writeObject. keeps_tac. destruct a1 as [bytes env]. keeps_tac. by apply contained_write. Qed.

(** Reading the path first: it is inside. *)
Lemma contained_at {A} key (k : path -> prog LocalState A) :
  proper_key key -> (forall p, inside p -> keeps local_contained (k p)) ->
  keeps local_contained (do! p := reads (fun _ => objectPath cfg key) in k p).
Proof.
  intros Hk Hp s. rewrite run_reads. destruct (objectPath cfg key) as [p|e] eqn:E; [|done]. apply Hp. by eapply objectPath_inside.
Qed.

Lemma Put_contained et key r size opts : proper_key key -> keeps local_contained (Put cfg et key r size opts).
Proof.
  intros Hk. unfold Put. apply keeps_bind; [apply _|apply keeps_guard; apply _|intros []]. apply contained_at; [done|].
  intros p Hp. apply contained_on_fs. keeps_tac; [by apply contained_mkdirs, inside_parent|by apply contained_object|by apply contained_commit].
Qed.

Lemma Delete_contained key : proper_key key -> keeps local_contained (Delete cfg key).
Proof.
  intros Hk. unfold Delete. apply contained_at; [done|]. intros p Hp. apply contained_on_fs. intros fs.
  transitivity (fst (Remove (metaPath p) fs)); [by apply contained_remove, inside_meta|].
  pose proof (contained_remove p Hp (fst (Remove (metaPath p) fs))) as H'. by destruct (Remove p _) as [fs' [u|e]].
Qed.

Lemma Copy_contained et src dst opts : proper_key dst -> keeps local_contained (Copy cfg et src dst opts).
Proof.
  intros Hk. unfold Copy. apply keeps_bind; [apply _|apply keeps_reads; apply _|intros sp].
  apply keeps_bind; [apply _|apply keeps_map_err, keeps_reads; apply _|intros m]. apply contained_at; [done|].
  intros p Hp. apply contained_on_fs. keeps_tac; [by apply contained_mkdirs, inside_parent|apply keeps_map_err, keeps_reads; apply _| |].
  - by apply contained_write.
  - by apply contained_commit.
Qed.

Lemma InitMultipart_contained et key opts : element (et_uuid et) -> keeps local_contained (InitMultipart cfg et key opts).
Proof.
  intros He. assert (inside (multipartDir cfg (et_uuid et))) as Hd by (rewrite multipartDir_element by done; by eexists _, _).
  unfold InitMultipart. keeps_tac; [by apply contained_on_fs, contained_mkdirs; left|].
  intros s [Ht Hu]. split; [|done]. split; [done|]. intros id up Hl. cbn [set_uploads ls_uploads fst] in Hl.
  apply lookup_insert_Some in Hl as [[<- <-]|[_ Hl]]; [done|by eapply Hu].
Qed.

(** A part is written in the directory of its upload. *)
Lemma write_part_contained up n r s :
  inside (lu_dir up) -> local_contained s (fst (write_part up n r s)).
Proof.
  intros Hd. as_keeps. unfold write_part. keeps_tac.
  apply contained_on_fs, contained_write, inside_snoc. by right.
Qed.

Lemma find_upload_contained {A} key id (k : localUpload -> prog LocalState A) :
  (forall up s, inside (lu_dir up) -> local_contained s (fst (k up s))) ->
  keeps local_contained (do! up := find_upload key id in k up).
Proof.
  intros Hk s. unfold find_upload. rewrite run_reads. destruct (ls_uploads s !! id) as [up|] eqn:E; [|done].
  destruct (lu_key up =s key); [|done]. intros Hs. apply Hk; [|done]. destruct Hs as [_ Hu]. by eapply Hu.
Qed.

Lemma UploadPart_contained key id n r size opts :
  keeps local_contained (UploadPartWithOptions key id n r size opts).
Proof.
  unfold UploadPartWithOptions. apply find_upload_contained. intros up s Hd. rewrite run_guard.
  destruct (validateMultipartSSEC _ _); [done|]. pose proof (write_part_contained up n r s Hd) as Hw. unfold bind.
  by destruct (write_part up n r s) as [s' [p|e]].
Qed.

Lemma UploadPartCopy_contained dst id n src off size : keeps local_contained (UploadPartCopy cfg dst id n src off size).
Proof.
  unfold UploadPartCopy. apply find_upload_contained. intros up s Hd. rewrite run_reads.
  destruct (objectPath cfg src) as [p|e]; [|done]. rewrite run_reads. destruct (ReadFile p (ls_fs s)) as [data|e]; [|done].
  unfold bind at 1, map_err, reads. destruct (readMeta _ _) as [m|e]; [|done]. rewrite run_refuse. destruct (_ <>s _); [done|].
  destruct (off <? 0); [by apply write_part_contained|]. rewrite run_refuse. destruct (_ || _); [done|by apply write_part_contained].
Qed.

Lemma assemble_contained et key up parts : proper_key key -> keeps contained (assemble cfg et key up parts).
Proof.
  intros Hk fs. unfold assemble. rewrite run_reads. destruct (objectPath cfg key) as [p|e] eqn:E; [|done].
  apply objectPath_inside in E; [|done]. as_keeps.
  unfold mergeParts. keeps_tac; try (destruct a as [total env]); try (destruct a1 as [bytes env]); keeps_tac.
  - by apply contained_mkdirs, inside_parent.
  - by apply contained_write.
  - by apply contained_commit.
Qed.

Lemma drop_upload_ok id fs s : local_ok s -> tree fs -> local_ok {| ls_fs := fs; ls_uploads := delete id (ls_uploads s) |}.
Proof. intros [Ht Hu] Hf. split; [done|]. cbn [ls_uploads]. intros i up [_ Hi]%lookup_delete_Some. by eapply Hu. Qed.

Lemma Complete_contained et key id parts opts :
  proper_key key -> keeps local_contained (CompleteMultipartWithOptions cfg et key id parts opts).
Proof.
  intros Hk s Hs. unfold CompleteMultipartWithOptions. destruct (ls_uploads s !! id) as [up|] eqn:E; [|done].
  pose proof (proj2 Hs _ _ E) as Hd. destruct (validateMultipartSSEC _ _); cbn [set_uploads ls_fs ls_uploads].
  - by destruct (lu_key up <>s key).
  - destruct (lu_key up <>s key); [split; [|done]; apply drop_upload_ok; [done|apply Hs]|].
    pose proof (assemble_contained et key up (sort_by by_part parts) Hk (ls_fs s) (proj1 Hs)) as [Ht Hq].
    destruct (assemble _ _ _ _ _ _) as [fs r]. cbn in *. destruct (contained_remove_all (lu_dir up) fs Hd Ht) as [Ht' Hq'].
    split; [by apply drop_upload_ok|]. intros q Hi Hr Ha. cbn. by rewrite Hq', Hq.
Qed.

Lemma Abort_contained key id : keeps local_contained (AbortMultipart key id).
Proof.
  intros s Hs. unfold AbortMultipart. destruct (ls_uploads s !! id) as [up|] eqn:E; [|done].
  destruct (contained_remove_all (lu_dir up) (ls_fs s) (proj2 Hs _ _ E) (proj1 Hs)) as [Ht Hq].
  split; [by apply drop_upload_ok|done].
Qed.

Lemma Cleanup_contained id : element id -> keeps local_contained (CleanupParts cfg id).
Proof.
  intros He s Hs. unfold CleanupParts. assert (inside (multipartDir cfg id)) as Hd by (rewrite multipartDir_element by done; by eexists _, _).
  destruct (contained_remove_all _ (ls_fs s) Hd (proj1 Hs)) as [Ht Hq].
  destruct (node_at _ _) as [n|e]; [|destruct (errors_Is e _); [done|]]; (split; [by apply drop_upload_ok|done]).
Qed.

Lemma Rewrap_contained nonce key s s' r :
  proper_key key -> RewrapObject cfg nonce key s = Some (s', r) -> local_contained s s'.
Proof.
  intros Hk. unfold RewrapObject. destruct (lc_enc cfg) as [enc|]; [|by intros [= <- _]].
  destruct (objectPath cfg key) as [p|e] eqn:E; [|by intros [= <- _]]. apply objectPath_inside in E; [|done].
  destruct (readMeta _ _) as [m|e]; [|by intros [= <- _]]. destruct (_ =s _); [by intros [= <- _]|].
  destruct (rewrap _ _ _) as [[[env ch]|e]|]; [|by intros [= <- _]|done]. destruct ch; [|by intros [= <- _]]. cbn [negb].
  pose proof (contained_on_fs _ (contained_meta p (with_envelope env m) E) s) as Hc. unfold on_fs in Hc.
  destruct (writeMeta _ _ _) as [fs [u|e]]; by intros [= <- _].
Qed.

(** One call on the backend, whatever comes of it.  Upload ids are names of directories,
    as the ids the backend makes are. *)
Inductive local_step (s : LocalState) : LocalState -> Prop :=
| LPut et key r size opts : proper_key key -> local_step s (fst (Put cfg et key r size opts s))
| LDelete key : proper_key key -> local_step s (fst (Delete cfg key s))
| LCopy et src dst opts : proper_key dst -> local_step s (fst (Copy cfg et src dst opts s))
| LInit et key opts : element (et_uuid et) -> local_step s (fst (InitMultipart cfg et key opts s))
| LPart key id n r size opts : local_step s (fst (UploadPartWithOptions key id n r size opts s))
| LPartCopy dst id n src off size : local_step s (fst (UploadPartCopy cfg dst id n src off size s))
| LComplete et key id parts opts : proper_key key -> local_step s (fst (CompleteMultipartWithOptions cfg et key id parts opts s))
| LAbort key id : local_step s (fst (AbortMultipart key id s))
| LCleanup id : element id -> local_step s (fst (CleanupParts cfg id s))
| LRewrap nonce key s' r : proper_key key -> RewrapObject cfg nonce key s = Some (s', r) -> local_step s s'.

(** C25: any sequence of calls on the local backend, failed calls included, changes nothing
    outside its root and leaves its files a tree, when the keys it writes or removes name
    something below the root ([proper_key]: a key has an element other than "." and the empty
    one) and the ids of the uploads that are begun and cleaned up are one path element, as the
    ids the backend makes.  Neither is checked by the backend, and both are needed
    ([dot_key_leaves_the_root], [cleanup_id_leaves_the_root]); no key with ".." or a leading
    "/" gets that far. *)
Theorem local_backend_contained s s' :
  rtc local_step s s' -> local_ok s ->
  local_ok s' /\
  forall q, ~ inside q -> q <> lc_Root cfg -> q ∉ above (lc_Root cfg) -> ls_fs s' !! q = ls_fs s !! q.
Proof.
  intros Hr. change (local_contained s s'). induction Hr as [s|s t u Hst _ IH]; [done|]. transitivity t; [|exact IH]. clear IH.
  destruct Hst; [by apply Put_contained|by apply Delete_contained|by apply Copy_contained|by apply InitMultipart_contained
    |by apply UploadPart_contained|by apply UploadPartCopy_contained|by apply Complete_contained|by apply Abort_contained
    |by apply Cleanup_contained|by eapply Rewrap_contained].
Qed.
End Root.

(** ** Sidecars round-trip *)

Definition utf8_kv (m : kv) : Prop := forall k v, m !! k = Some v -> utf8_ValidString k = true /\ utf8_ValidString v = true.

(** Metadata JSON can carry. *)
Record plain_meta (m : localMeta) : Prop := {
  pm_key : utf8_ValidString (lm_Key m) = true; pm_size : int64 (lm_Size m); pm_etag : utf8_ValidString (lm_ETag m) = true;
  pm_type : utf8_ValidString (lm_ContentType m) = true; pm_year : 0 <= Year (lm_LastModified m) <= 9999;
  pm_meta : utf8_kv (lm_Metadata m); pm_env : utf8_ValidString (lm_Envelope m) = true
}.

Lemma localMeta_back m : int64 (lm_Size m) -> 0 <= Year (lm_LastModified m) <= 9999 ->
  localMeta_decode (members (localMeta_json m)) = Some m.
Proof.
  destruct m as [key size etag ct modified md env]. cbn [lm_Size lm_LastModified]. intros Hs Hy.
  assert (time_field [JString (FormatRFC3339Nano modified)] 0 = Some modified) as Ht by (unfold time_field; by rewrite ParseRFC3339_Format).
  unfold localMeta_decode, localMeta_json, members, omit_str, int.
  cbn [lm_Key lm_Size lm_ETag lm_ContentType lm_LastModified lm_Metadata lm_Envelope].
  destruct (bool_decide (md = ∅)) eqn:E1; [apply bool_decide_eq_true in E1 as ->|];
    (destruct (env =s "") eqn:E2; [apply streqb_true in E2 as ->|]);
    cbn -[JInt int64_field time_field kv_field kv_json FormatRFC3339Nano]; rewrite int64_JInt, Ht, ?kv_back by done; done.
Qed.

Lemma readMeta_back m p fs : plain_meta m -> ReadFile p fs = Ok (marshal (localMeta_json m)) -> readMeta p fs = Ok m.
Proof.
  intros [] Hf. unfold readMeta. rewrite Hf. cbn [res_bind].
  assert (sound 0 (localMeta_json m)) as Hs.
  { apply sound_object; [done|]. apply Forall_app_2.
    - members_ok. apply ok_str; [done|]. apply ascii_valid, ascii_time.
    - apply Forall_app_2; [|by apply ok_omit_str]. destruct (bool_decide _); [done|]. apply Forall_cons_2; [|done].
      split; [done|]. by apply sound_kv. }
  change (localMeta_json m) with (JObject (members (localMeta_json m))) in *.
  rewrite (proj1 (Unmarshal_object _ Hs)). cbn [mbind option_bind]. by rewrite localMeta_back.
Qed.

Lemma ReadFile_tree p data fs : tree fs -> p <> [] -> ReadFile p fs = Ok data <-> fs !! p = Some (File data).
Proof.
  intros Ht Hp. unfold ReadFile. destruct (fs !! p) as [n|] eqn:E.
  - rewrite (node_at_tree p n) by done. destruct n; naive_solver.
  - destruct (node_at_absent p fs Hp E) as [e ->]. naive_solver.
Qed.

Lemma node_at_meta q n fs : tree fs -> q <> [] -> fs !! q = Some n ->
  node_at (metaPath q) fs = match fs !! metaPath q with Some m => Ok m | None => Err not_exist end.
Proof.
  intros Ht Hq Hn. destruct (snoc_cases q) as [->|(p & x & ->)]; [done|]. rewrite metaPath_snoc.
  unfold node_at. rewrite (proj2 (existsb_none _ _)); [by destruct p|]. intros r Hr.
  rewrite (Ht _ _ r Hn); [done|]. apply above_snoc. by apply above_snoc in Hr.
Qed.

(** ** The contract *)

Section Contract.
Context `{AEADLaws} `{MD5} (cfg : LocalConfig).

(** A root below "/", and keys that are not the one reserved for customers. *)
Record good_config : Prop := {
  gc_root : lc_Root cfg <> [];
  gc_enc : forall e, lc_enc cfg = Some e -> honest e /\ forall rnd kid, writes_kid e rnd kid -> kid <> ssecKeyID
}.

#[local] Abbreviation held := (@stored LocalState (local_storage cfg)).

(** What a reader gets is decided by the file and its sidecar. *)
Lemma stored_ext o key q s s' :
  objectPath cfg key = Ok q -> q <> [] -> tree (ls_fs s) -> tree (ls_fs s') ->
  (is_file (ls_fs s !! q) = true \/ is_file (ls_fs s' !! q) = true ->
   ls_fs s' !! q = ls_fs s !! q /\ ls_fs s' !! metaPath q = ls_fs s !! metaPath q) ->
  held o key s' = held o key s.
Proof.
  intros Hp Hq Ht Ht' Hsame. destruct s as [fs u], s' as [fs' u']. cbn [ls_fs] in *.
  assert (forall fs u, tree fs -> is_file (fs !! q) = false -> held o key {| ls_fs := fs; ls_uploads := u |} = None) as Hnone.
  { clear -Hp Hq. intros fs u Ht Hf. unfold stored. cbn [st_Get local_storage]. unfold GetWithOptions, StatWithOptions.
    rewrite run_reads. destruct (statObject _ _ _ _) as [info|e]; [|done]. rewrite run_reads, Hp. unfold reads. cbn [snd ls_fs].
    destruct (ReadFile q fs) as [data|e] eqn:E; [|done]. apply ReadFile_tree in E; [|done|done]. by rewrite E in Hf. }
  destruct (is_file (fs !! q)) eqn:Ef, (is_file (fs' !! q)) eqn:Ef'; [destruct Hsame as [Hs Hm]; [by left|]
    |destruct Hsame as [Hs Hm]; [by left|congruence]|destruct Hsame as [Hs Hm]; [by right|congruence]|by rewrite !Hnone].
  destruct (fs !! q) as [n|] eqn:E; [|done]. 
  assert (node_at q fs = node_at q fs') as Hn by (rewrite !(node_at_tree q n); done).
  assert (readMeta (metaPath q) fs = readMeta (metaPath q) fs') as Hr.
  { unfold readMeta, ReadFile. rewrite !(node_at_meta q n) by done. by rewrite Hm. }
  assert (statObject cfg key (Some o) fs' = statObject cfg key (Some o) fs) as Hst.
  { unfold statObject. rewrite Hp. cbn [res_bind]. by rewrite Hn, Hr. }
  unfold stored. cbn [st_Get local_storage]. unfold GetWithOptions, StatWithOptions. rewrite !run_reads. cbn [ls_fs].
  rewrite Hst. destruct (statObject cfg key (Some o) fs); [|done]. rewrite !run_reads, Hp. unfold reads, ReadFile. cbn [snd ls_fs].
  by rewrite Hn, Hr.
Qed.

(** *** A successful Put *)

Record put_result (et : entropy) (key : string) (r : Reader) (opts : StoreOptions) (s s' : LocalState) (info : ObjectInfo)
    (q : path) (meta : localMeta) (bytes : string) : Prop := {
  pr_path : objectPath cfg key = Ok q;
  pr_read : rd_err r = None;
  pr_sealed : sealed_bytes (write_encrypter cfg (so_SSECustomerKey opts)) (et_random et) (rd_data r) = Ok (bytes, lm_Envelope meta);
  pr_year : 0 <= Year (et_now et) <= 9999;
  pr_info : info = toInfo meta;
  pr_meta : meta = {|
    lm_Key := key;
    lm_Size := plaintextSize (len bytes) (match write_encrypter cfg (so_SSECustomerKey opts) with Some _ => true | None => false end);
    lm_ETag := hex_EncodeToString (md5_Sum (rd_data r)); lm_ContentType := so_ContentType opts; lm_LastModified := et_now et;
    lm_Metadata := <[GenerationMetadataKey := et_generation et]> (so_Metadata opts); lm_Envelope := lm_Envelope meta |};
  pr_fs : exists fs, ls_fs s' = <[metaPath q := File (marshal (localMeta_json meta))]> (<[q := File bytes]> fs)
}.

Lemma Put_Ok et key r size opts s s' info n :
  Put cfg et key r size opts s = (s', Ok (info, n)) ->
  n = len (rd_data r) /\ exists q meta bytes, put_result et key r opts s s' info q meta bytes.
Proof.
  unfold Put. intros Hput. prog_inv. unfold on_fs in Hput. destruct (bind _ _ _) as [fs res] eqn:E. injection Hput as <- ->.
  apply bind_Ok in E as (fs1 & [] & Hmk & E). apply bind_Ok in E as (fs2 & meta & Hobj & E).
  apply bind_Ok in E as (fs3 & i & Hc & E). apply ret_Ok in E as [-> [= <- <-]]. split; [done|].
  unfold writeObject in Hobj. prog_inv. destruct v3 as [bytes env]. prog_inv. apply write_file_Ok in Hrun4 as ->.
  unfold commit_meta in Hc. destruct (writeMeta _ _ _) as [fs4 [u|e]] eqn:Ew; [|done]. injection Hc as <- <-.
  unfold writeMeta in Ew. prog_inv. apply write_file_Ok in Ew as ->. unfold ReadAll in Hrun2. destruct (rd_err r) eqn:Er; [done|].
  injection Hrun2 as <-. exists v0, meta, bytes. split; subst meta; cbn [lm_Envelope lm_LastModified] in *; try done.
  - apply negb_false_iff, andb_true_iff in Hrun4. lia.
  - eexists. reflexivity.
Qed.

(** What the sidecar of a write can carry. *)
Record local_storable (et : entropy) (key : string) (r : Reader) (opts : StoreOptions) : Prop := {
  sb_key : utf8_ValidString key = true; sb_type : utf8_ValidString (so_ContentType opts) = true;
  sb_meta : utf8_kv (so_Metadata opts); sb_gen : utf8_ValidString (et_generation et) = true;
  sb_random : good_random (et_random et); sb_size : int64 (len (rd_data r))
}.

Lemma buildEnvelope_utf8 wrap kid wrapped iv : utf8_ValidString (buildEnvelope wrap kid wrapped iv) = true.
Proof.
  unfold buildEnvelope, sseEnvelope_json. apply marshal_strings_utf8. unfold omit_str. cbn [en_Wrap en_Kid en_Kek en_IV en_Alg].
  destruct (wrap =s ""), (kid =s ""); repeat constructor; by eexists.
Qed.

Lemma encrypt_envelope_utf8 e rnd plain ct env : encrypt e rnd plain = Ok (ct, env) -> utf8_ValidString env = true.
Proof.
  unfold encrypt. intros (c & _ & Hok)%res_bind_Ok. destruct e as [p|w].
  - destruct (sp_Current p) as [kid mk]. destruct (negb _); [done|]. apply res_bind_Ok in Hok as (wr & _ & [= _ <-]). apply buildEnvelope_utf8.
  - destruct (dw_WrapKey w _) as [[wr kid]|]; [|done]. injection Hok as _ <-. apply buildEnvelope_utf8.
Qed.

Lemma encrypt_envelope_nonempty e rnd plain ct env : encrypt e rnd plain = Ok (ct, env) -> env <> ""%string.
Proof.
  assert (forall w k d i, buildEnvelope w k d i <> ""%string) as Hb by done.
  unfold encrypt. intros (c & _ & Hok)%res_bind_Ok. destruct e as [p|w].
  - destruct (sp_Current p) as [kid mk]. destruct (negb _); [done|]. apply res_bind_Ok in Hok as (wr & _ & [= _ <-]). apply Hb.
  - destruct (dw_WrapKey w _) as [[wr kid]|]; [|done]. injection Hok as _ <-. apply Hb.
Qed.

Lemma ssec_honest key : honest (LocalKeys (newSSECProvider key)).
Proof. done. Qed.

(** What a write sealed, the reader with the same options opens. *)
Lemma sealed_opens opts rnd plain bytes env :
  good_config -> good_random rnd -> customer_key_ok opts ->
  sealed_bytes (write_encrypter cfg (so_SSECustomerKey opts)) rnd plain = Ok (bytes, env) ->
  (env = ""%string /\ bytes = plain) \/
  (env <> ""%string /\ exists enc, readEncrypter cfg env (reading opts) = Ok enc /\ sse_decrypt enc bytes env = Ok plain).
Proof.
  intros Hg Hr Hc. assert (forall enc kid, honest enc -> encrypt enc rnd plain = Ok (bytes, env) ->
    (forall e, writes_kid enc rnd e -> (e =s ssecKeyID) = kid) ->
    env <> ""%string /\ sse_decrypt enc bytes env = Ok plain /\ validateEnvelope enc env = None /\
    exists se, parseEnvelope env = Ok se /\ (en_Kid se =s ssecKeyID) = kid) as Hsealed.
  { intros enc kid He Hok Hkid. split; [by eapply encrypt_envelope_nonempty|].
    destruct (encrypt_opens _ _ _ _ _ He Hr Hok) as (-> & Ha & se & Ho & Hw). split_and!.
    - unfold sse_decrypt. erewrite opens_decrypt by done. rewrite Ha. unfold gcm_open. by rewrite open_seal.
    - by eapply opens_validate.
    - exists se. split; [apply Ho|by apply Hkid]. }
  unfold write_encrypter. destruct (len (so_SSECustomerKey opts) =? 32) eqn:El; cbn [sealed_bytes].
  - intros Hok. right. destruct (Hsealed _ true (ssec_honest _) Hok) as (Hne & Hd & Hv & se & Hp & Hk); [cbn; intros e ->; done|].
    split; [done|]. exists (LocalKeys (newSSECProvider (so_SSECustomerKey opts))). split; [|done].
    unfold readEncrypter. rewrite Hp. cbn [res_bind]. rewrite Hk. cbn [go_SSECustomerKey reading].
    unfold masterKeyLen. rewrite El. cbn [negb]. by rewrite Hv.
  - destruct Hc as [Hc|Hc]; [|unfold masterKeyLen in Hc; lia]. destruct (lc_enc cfg) as [enc|] eqn:Ee; cbn [sealed_bytes].
    + intros Hok. right. destruct (gc_enc Hg _ Ee) as [Hh Hn].
      destruct (Hsealed enc false Hh Hok) as (Hne & Hd & Hv & se & Hp & Hk); [intros e Hw; apply streqb_false; by eapply Hn|].
      split; [done|]. exists enc. split; [|done]. unfold readEncrypter. rewrite Hp. cbn [res_bind]. rewrite Hk.
      cbn [go_SSECustomerKey reading]. rewrite Hc. cbn. by rewrite Ee, Hv.
    + intros [= <- <-]. by left.
Qed.

Lemma sealed_size opts rnd plain bytes env :
  good_config -> good_random rnd ->
  sealed_bytes (write_encrypter cfg (so_SSECustomerKey opts)) rnd plain = Ok (bytes, env) ->
  plaintextSize (len bytes) (match write_encrypter cfg (so_SSECustomerKey opts) with Some _ => true | None => false end) = len plain.
Proof.
  intros Hg Hr. assert (forall enc, honest enc -> encrypt enc rnd plain = Ok (bytes, env) -> plaintextSize (len bytes) true = len plain) as He.
  { intros enc Hh Hok. destruct (encrypt_opens _ _ _ _ _ Hh Hr Hok) as (-> & _). unfold plaintextSize. rewrite seal_length. cbn [negb].
    destruct (_ <? 0) eqn:E; [unfold len in *; lia|lia]. }
  unfold write_encrypter. destruct (_ =? _); [by apply He|]. destruct (lc_enc cfg) as [enc|] eqn:Ee; [|by intros [= <- <-]].
  apply He. by apply (gc_enc Hg).
Qed.

Lemma metaPath_ne q : q <> [] -> metaPath q <> q.
Proof.
  intros Hq. destruct (snoc_cases q) as [->|(p & x & ->)]; [done|]. rewrite metaPath_snoc. intros E.
  apply app_inj_tail in E as [_ E]. by apply suffix_ne in E.
Qed.

Lemma objectPath_nonempty key q : good_config -> objectPath cfg key = Ok q -> q <> [].
Proof. intros Hg [-> _]%objectPath_Ok E. apply app_eq_nil in E as [E _]. by apply (gc_root Hg). Qed.

Lemma metaPath_nonempty q : metaPath q <> [].
Proof. unfold metaPath. intros [_ E]%app_eq_nil. done. Qed.

Lemma Put_tree et key r size opts s : good_config -> tree (ls_fs s) -> tree (ls_fs (fst (Put cfg et key r size opts s))).
Proof.
  intros Hg Ht. unfold Put. rewrite run_guard. destruct (validateServerSideEncryption _ _); [done|]. rewrite run_reads.
  destruct (objectPath cfg key) as [q|e] eqn:Eq; [|done]. pose proof (objectPath_nonempty _ _ Hg Eq) as Hq. unfold on_fs.
  match goal with |- context [bind ?m ?k (ls_fs s)] => assert (keeps (fun fs fs' => tree fs -> tree fs') (bind m k)) as Hk end.
  { assert (PreOrder (fun fs fs' : FS => tree fs -> tree fs')) by (split; [by intros ?|intros a b c ??; auto]).
    keeps_tac; [intros fs; apply MkdirAll_tree| |].
    - unfold writeObject. keeps_tac. destruct a2 as [bytes env]. keeps_tac. intros fs. by apply write_file_tree.
    - intros fs Hf. unfold commit_meta.
      assert (tree (fst (writeMeta (metaPath q) a0 fs))) as Hw.
      { unfold writeMeta. rewrite run_refuse. destruct (negb _); [done|]. apply write_file_tree; [apply metaPath_nonempty|done]. }
      destruct (writeMeta _ _ _) as [fs' [u|e]]; [done|]. by apply Remove_tree. }
  specialize (Hk (ls_fs s) Ht). by destruct (bind _ _ (ls_fs s)).
Qed.

Lemma Delete_tree key s : good_config -> tree (ls_fs s) -> tree (ls_fs (fst (Delete cfg key s))).
Proof.
  intros Hg Ht. unfold Delete. rewrite run_reads. destruct (objectPath cfg key) as [q|e] eqn:Eq; [|done].
  pose proof (objectPath_nonempty _ _ Hg Eq) as Hq. unfold on_fs.
  pose proof (Remove_tree (metaPath q) (metaPath_nonempty q) (ls_fs s) Ht) as Hr1. pose proof (Remove_tree q Hq _ Hr1) as Hr2.
  by destruct (Remove q _) as [fs' [u|e]].
Qed.

(** Neither file is the other's file or sidecar, nor a sidecar on the way to a file. *)
Definition local_apart (key other : string) : Prop :=
  forall p q, objectPath cfg key = Ok p -> objectPath cfg other = Ok q ->
  p <> q /\ metaPath p <> q /\ metaPath q <> p /\ metaPath q ∉ above p.

Lemma metaPath_inj p q : p <> [] -> q <> [] -> metaPath p = metaPath q -> p = q.
Proof.
  intros Hp Hq. destruct (snoc_cases p) as [->|(p' & x & ->)]; [done|]. destruct (snoc_cases q) as [->|(q' & y & ->)]; [done|].
  rewrite !metaPath_snoc. intros E. apply app_inj_tail in E as [-> E]. by apply app_suffix_inj in E as ->.
Qed.

(** An unreadable key reads as nothing. *)
Lemma held_bad_key o key s e : objectPath cfg key = Err e -> held o key s = None.
Proof.
  intros He. unfold stored. cbn [st_Get local_storage]. unfold GetWithOptions, StatWithOptions, statObject. rewrite run_reads, He. done.
Qed.

(** A change of the state seen by the readers of another object. *)
Lemma held_frame o other q s s' :
  good_config -> objectPath cfg other = Ok q -> tree (ls_fs s) -> tree (ls_fs s') ->
  (ls_fs s' !! q = ls_fs s !! q \/ ls_fs s !! q = None /\ ls_fs s' !! q = Some Dir) ->
  ls_fs s' !! metaPath q = ls_fs s !! metaPath q -> held o other s' = held o other s.
Proof.
  intros Hg Hq Ht Ht' Hsame Hm. apply stored_ext with q; [done|by eapply objectPath_nonempty|done|done|].
  intros Hf. split; [|done]. destruct Hsame as [|[H1' H2']]; [done|]. rewrite H1', H2' in Hf. cbn in Hf. naive_solver.
Qed.

Lemma Put_lookup et key r size opts s p t :
  objectPath cfg key = Ok p -> p <> [] -> t <> p -> t <> metaPath p ->
  let s' := fst (Put cfg et key r size opts s) in
  ls_fs s' !! t = ls_fs s !! t \/ ls_fs s !! t = None /\ ls_fs s' !! t = Some Dir /\ t ∈ above p.
Proof.
  intros Hp Hne Ht Hm. cbn zeta. remember (fst (Put cfg et key r size opts s)) as s' eqn:E. unfold Put in E. rewrite run_guard in E.
  destruct (validateServerSideEncryption _ _); [subst s'; by left|]. rewrite run_reads, Hp in E.
  destruct (snoc_cases p) as [->|(q & x & ->)]; [done|]. unfold on_fs in E. pose proof (MkdirAll_lookup q t x (ls_fs s)) as Hmk.
  rewrite parent_snoc in E. unfold bind at 1 in E. destruct (MkdirAll q (ls_fs s)) as [fs1 [u|e]]; [|by subst s'].
  match type of E with context [bind ?m ?k fs1] => assert (keeps (fun fs fs' => fs' !! t = fs !! t) (bind m k)) as Hk end.
  { assert (PreOrder (fun fs fs' : FS => fs' !! t = fs !! t)) by (split; [by intros ?|intros a b c ??; congruence]).
    keeps_tac.
    - unfold writeObject. keeps_tac. destruct a1 as [bytes env]. keeps_tac. intros fs. by apply write_file_lookup.
    - intros fs. unfold commit_meta.
      assert (fst (writeMeta (metaPath (q ++ [x])) a fs) !! t = fs !! t) as Hw.
      { unfold writeMeta. rewrite run_refuse. destruct (negb _); [done|]. by apply write_file_lookup. }
      destruct (writeMeta _ _ _) as [fs' [v|e]]; [done|]. cbn [fst]. by rewrite Remove_lookup. }
  specialize (Hk fs1). destruct (bind _ _ fs1) as [fs2 res]. subst s'. cbn [fst ls_fs] in *. rewrite Hk. exact Hmk.
Qed.

Lemma Delete_lookup key s p t :
  objectPath cfg key = Ok p -> t <> p -> t <> metaPath p -> ls_fs (fst (Delete cfg key s)) !! t = ls_fs s !! t.
Proof.
  intros Hp Ht Hm. unfold Delete. rewrite run_reads, Hp. unfold on_fs.
  pose proof (Remove_lookup p t (fst (Remove (metaPath p) (ls_fs s))) Ht) as Hr. rewrite (Remove_lookup (metaPath p)) in Hr by done.
  cbn zeta. by destruct (Remove p _) as [fs' [u|e]].
Qed.

Lemma Delete_gone key s s' p : objectPath cfg key = Ok p -> p <> [] -> Delete cfg key s = (s', Ok tt) -> ls_fs s' !! p = None.
Proof.
  intros Hp Hne. unfold Delete. rewrite run_reads, Hp. unfold on_fs. set (fs := fst (Remove (metaPath p) (ls_fs s))).
  destruct (Remove p fs) as [fs' [u|e]] eqn:E; [apply Remove_Ok in E as ->; intros [= <-]; cbn; apply lookup_delete_eq|].
  destruct (errors_Is e os_ErrNotExist) eqn:Ee; [|done]. intros [= <-]. cbn. revert E. unfold Remove, node_at.
  destruct (existsb _ _); [by intros [= <- <-]|]. destruct p as [|y p]; [done|].
  destruct (fs !! (y :: p)) as [[|d]|] eqn:El; [|done|by intros [= <- <-]]. destruct (has_child _ _); [|done]. by intros [= <- <-].
Qed.

Lemma Put_stores et key r size opts s s' info n :
  good_config -> tree (ls_fs s) -> local_storable et key r opts -> customer_key_ok opts ->
  Put cfg et key r size opts s = (s', Ok (info, n)) ->
  held (reading opts) key s' = Some (rd_data r) /\ n = len (rd_data r) /\ oi_Size info = n /\ rd_err r = None.
Proof.
  intros Hg Ht Hs Hc Hput. pose proof (Put_tree et key r size opts s Hg Ht) as Ht'. rewrite Hput in Ht'. cbn [fst] in Ht'.
  apply Put_Ok in Hput as (-> & q & meta & bytes & [Hq Hread Hseal Hyear -> Hmeta [fs Hfs]]).
  pose proof (objectPath_nonempty _ _ Hg Hq) as Hne. pose proof (metaPath_ne q Hne) as Hmp.
  assert (plain_meta meta) as Hplain.
  { rewrite Hmeta. split; cbn [lm_Key lm_Size lm_ETag lm_ContentType lm_LastModified lm_Metadata lm_Envelope]; try apply Hs; try done.
    - erewrite sealed_size; [apply Hs|done|apply Hs|exact Hseal].
    - apply ascii_valid, hex_Encode_ascii.
    - intros k v [[<- <-]|[_ Hkv]]%lookup_insert_Some; [split; [done|apply Hs]|by apply (sb_meta _ _ _ _ Hs)].
    - unfold sealed_bytes in Hseal. destruct (write_encrypter _ _) as [e|]; [by eapply encrypt_envelope_utf8|].
      injection Hseal as _ <-. done. }
  assert (ReadFile q (ls_fs s') = Ok bytes) as Hf.
  { apply ReadFile_tree; [done|done|]. rewrite Hfs, lookup_insert_ne by done. apply lookup_insert_eq. }
  assert (readMeta (metaPath q) (ls_fs s') = Ok meta) as Hm.
  { apply readMeta_back; [done|]. apply ReadFile_tree; [done|apply metaPath_nonempty|]. rewrite Hfs. apply lookup_insert_eq. }
  split_and!; [|done| |done].
  - unfold stored. cbn [st_Get local_storage]. unfold GetWithOptions, StatWithOptions, statObject. rewrite run_reads, Hq. cbn [res_bind].
    rewrite Hm. destruct (sealed_opens _ _ _ _ _ Hg (sb_random _ _ _ _ Hs) Hc Hseal) as [[Henv ->]|(Henv & enc & Hr & Hd)].
    + rewrite (proj2 (streqb_true _ _) Henv). cbn match. unfold reads, bind. rewrite Hf, Hm. by rewrite (proj2 (streqb_true _ _) Henv).
    + rewrite (proj2 (streqb_false _ _) Henv), Hr. cbn [res_bind]. unfold reads, bind. rewrite Hf, Hm.
      rewrite (proj2 (streqb_false _ _) Henv), Hr. cbn [res_bind]. by rewrite Hd.
  - rewrite Hmeta. cbn [oi_Size toInfo lm_Size]. eapply sealed_size; [done|apply Hs|exact Hseal].
Qed.

Lemma Put_frame et key r size opts s o other :
  good_config -> tree (ls_fs s) -> local_apart key other ->
  held o other (fst (Put cfg et key r size opts s)) = held o other s.
Proof.
  intros Hg Ht Ha. destruct (objectPath cfg other) as [q|e] eqn:Eq; [|by rewrite !(held_bad_key _ _ _ e)].
  destruct (objectPath cfg key) as [p|e] eqn:Ep.
  2: { unfold Put. rewrite run_guard. destruct (validateServerSideEncryption _ _); [done|]. by rewrite run_reads, Ep. }
  destruct (Ha p q Ep Eq) as (H1' & H2' & H3' & H4'). pose proof (objectPath_nonempty _ _ Hg Ep) as Hp.
  pose proof (objectPath_nonempty _ _ Hg Eq) as Hq.
  apply held_frame with q; [done|done|done|by apply Put_tree|..].
  - destruct (Put_lookup et key r size opts s p q Ep Hp) as [|(? & ? & _)]; [done|done|by left|by right].
  - destruct (Put_lookup et key r size opts s p (metaPath q) Ep Hp) as [|(_ & _ & ?)]; [done| |done|done].
    intros E. apply metaPath_inj in E; [by subst|done|done].
Qed.

Lemma Delete_frame key s o other :
  good_config -> tree (ls_fs s) -> local_apart key other -> held o other (fst (Delete cfg key s)) = held o other s.
Proof.
  intros Hg Ht Ha. destruct (objectPath cfg other) as [q|e] eqn:Eq; [|by rewrite !(held_bad_key _ _ _ e)].
  destruct (objectPath cfg key) as [p|e] eqn:Ep; [|unfold Delete; by rewrite run_reads, Ep].
  destruct (Ha p q Ep Eq) as (H1' & H2' & H3' & H4'). pose proof (objectPath_nonempty _ _ Hg Ep) as Hp.
  pose proof (objectPath_nonempty _ _ Hg Eq) as Hq. apply held_frame with q; [done|done|done|by apply Delete_tree|..].
  - left. by apply (Delete_lookup key s p).
  - apply (Delete_lookup key s p); [done|done|]. intros E. apply metaPath_inj in E; [by subst|done|done].
Qed.

Lemma Delete_removes o key s s' : good_config -> tree (ls_fs s) -> Delete cfg key s = (s', Ok tt) -> held o key s' = None.
Proof.
  intros Hg Ht Hd. pose proof (Delete_tree key s Hg Ht) as Ht'. rewrite Hd in Ht'. destruct (objectPath cfg key) as [q|e] eqn:Eq.
  2: { unfold Delete in Hd. by rewrite run_reads, Eq in Hd. }
  pose proof (objectPath_nonempty _ _ Hg Eq) as Hne. apply (Delete_gone _ _ _ q) in Hd; [|done|done].
  unfold stored. cbn [st_Get local_storage]. unfold GetWithOptions, StatWithOptions. rewrite run_reads.
  destruct (statObject _ _ _ _) as [info|e]; [|done]. rewrite run_reads, Eq. unfold reads. cbn [snd].
  destruct (ReadFile q (ls_fs s')) as [data|e] eqn:E; [|done]. apply ReadFile_tree in E; [|done|done]. congruence.
Qed.

(** The local backend is a storage backend. *)
Definition local_laws (Hg : good_config) : @StorageLaws LocalState (local_storage cfg).
Proof.
  refine {| st_valid := fun s : LocalState => tree (ls_fs s); st_storable := local_storable; st_apart := local_apart |}.
  - intros. by apply Put_tree.
  - intros. by apply Delete_tree.
  - intros et key r size opts b b' info n Hv Hs Hc Hput. by apply (Put_stores et key r size opts b b' info n Hg Hv Hs Hc).
  - intros. by eapply Delete_removes.
  - intros. by apply Put_frame.
  - intros. by apply Delete_frame.
  - intros. cbn [st_Get local_storage]. unfold GetWithOptions, StatWithOptions. rewrite run_reads. destruct (statObject _ _ _ _); [|done].
    rewrite run_reads. by destruct (objectPath _ _).
  - done.
Defined.

(** C13: an object the local backend has accepted, encrypted with a customer's key, with
    the store's or not at all, reads back as the bytes that were sent, its size is their
    number, and writes and removals elsewhere, failed ones included, change neither.
    Elsewhere are the keys whose file and sidecar are other files ([local_apart]): not the
    key with ".meta.json" behind it, whose file is the object's sidecar ([sidecar_forged]),
    nor a key below that one.  The root is not "/", an installed key's id is not the one
    reserved for customers' keys ([good_config]), and what the sidecar carries is valid
    UTF-8 and an int64 size ([local_storable]). *)
Theorem local_put_get (Hg : good_config) et key r size opts s s1 s2 info n :
  tree (ls_fs s) -> local_storable et key r opts -> customer_key_ok opts ->
  Put cfg et key r size opts s = (s1, Ok (info, n)) ->
  rtc (@elsewhere LocalState (local_storage cfg) (local_laws Hg) key) s1 s2 ->
  held (reading opts) key s2 = Some (rd_data r) /\ oi_Size info = len (rd_data r).
Proof.
  intros Ht Hs Hc Hp Hr. split; [exact (@put_survives LocalState _ (local_laws Hg) et key r size opts s s1 s2 info n Ht Hs Hc Hp Hr)|].
  apply Put_stores in Hp as (_ & -> & -> & _); done.
Qed.
End Contract.

(** ** On a disk *)

Module LocalSample.
Import EnvelopeSample.
(** A toy digest. *)
#[export] Instance sample_md5 : MD5 := {| md5_Sum s := slice (s ++ "................") 0 16 |}.

Definition cfg : LocalConfig := {| lc_Root := ["data"%string]; lc_SSEKMSKeyID := ""; lc_enc := Some (LocalKeys before) |}.
Definition plain_cfg : LocalConfig := {| lc_Root := ["data"%string]; lc_SSEKMSKeyID := ""; lc_enc := None |}.
Definition et : entropy := {|
  et_now := 1700000000000000000; et_random := rnd; et_generation := "g1"; et_uuid := "u1" |}.
Definition start : LocalState := {| ls_fs := {[["data"%string] := Dir]}; ls_uploads := ∅ |}.

Lemma cfg_good : good_config cfg.
Proof. split; [done|]. intros e [= <-]. split; [done|]. by intros rnd kid ->. Qed.

Lemma start_tree : tree (ls_fs start).
Proof.
  intros q n r. cbn. intros [<- _]%lookup_singleton_Some Hr. apply elem_above in Hr as (Hne & x & k & E).
  apply (f_equal length) in E. rewrite length_app in E. destruct r; [done|cbn in E; lia].
Qed.

(** An object, and one that is the sidecar of the first. *)
Definition put (c : LocalConfig) (key body : string) (s : LocalState) : LocalState := fst (Put c et key (reader_of body) 0 noStoreOptions s).
Definition put_info (c : LocalConfig) (key body : string) (s : LocalState) : ObjectInfo :=
  match snd (Put c et key (reader_of body) 0 noStoreOptions s) with Ok (i, _) => i | Err _ => noInfo end.
Definition forged : string :=
  text (chars "{" ++ quote "key" ++ chars ":" ++ quote "a" ++ chars "," ++ quote "size" ++ chars ":999}").
End LocalSample.
Import EnvelopeSample LocalSample.

Lemma local_put_get_witness :
  stored (H := local_storage cfg) noGetOptions "t/b/x" (put cfg "t/b/y" "other" (put cfg "t/b/x" "hello" start)) =
  Some "hello"%string.
Proof.
  refine (proj1 (local_put_get cfg cfg_good et "t/b/x" (reader_of "hello") 0 noStoreOptions start (put cfg "t/b/x" "hello" start)
    _ (put_info cfg "t/b/x" "hello" start) 5 start_tree _ _ _ _)).
  - by repeat split.
  - by left.
  - by vm_compute.
  - apply rtc_once. assert (local_apart cfg "t/b/y" "t/b/x") as Ha.
    { intros p q [= <-] [= <-]. split_and!; try done. apply (bool_decide_unpack _). by vm_compute. }
    exact (@PutElsewhere LocalState (local_storage cfg) (local_laws cfg cfg_good) "t/b/x" (put cfg "t/b/x" "hello" start) et "t/b/y"
      (reader_of "other") 0 noStoreOptions Ha).
Defined.

Lemma local_backend_contained_witness :
  local_ok cfg (put cfg "t/b/x" "hello" start) /\ ls_fs (put cfg "t/b/x" "hello" start) !! ["etc"; "passwd"]%string = None.
Proof.
  assert (proper_key "t/b/x") as Hk by done.
  destruct (local_backend_contained cfg start (put cfg "t/b/x" "hello" start)) as [Hok Hout].
  - apply rtc_once. exact (LPut cfg start et "t/b/x" (reader_of "hello") 0 noStoreOptions Hk).
  - split; [apply start_tree|]. intros id up Hl. change (ls_uploads start) with (∅ : gmap string localUpload) in Hl. by rewrite lookup_empty in Hl.
  - split; [exact Hok|]. rewrite Hout; [by vm_compute|by intros (x & rel & [=])|done|].
    apply (bool_decide_unpack _). by vm_compute.
Defined.

(** An object whose key is another's with ".meta.json" behind it is the other's
    sidecar: the forged metadata is what Stat answers for the other. *)
Theorem sidecar_forged :
  let s := put plain_cfg "a" "hello" start in
  oi_Size (put_info plain_cfg "a" "hello" start) = 5 /\
  match Put plain_cfg et "a.meta.json" (reader_of forged) 0 noStoreOptions s with
  | (s', Ok _) => exists info, snd (Stat plain_cfg "a" s') = Ok info /\ oi_Size info = 999 /\ oi_ETag info = ""%string
  | _ => False
  end.
Proof. vm_compute. split; [done|]. by eexists. Qed.

(** The key "." names the root: its removal takes the file next to the root that would be the
    root's sidecar. *)
Example dot_key_leaves_the_root :
  let s := {| ls_fs := {[["data"%string] := Dir; ["data.meta.json"%string] := File "another's"]}; ls_uploads := ∅ |} in
  objectPath plain_cfg "." = Ok ["data"%string] /\
  ls_fs (fst (Delete plain_cfg "." s)) !! ["data.meta.json"%string] = None.
Proof. by vm_compute. Qed.

(** The id of an upload is joined to the root without a check. *)
Example cleanup_id_leaves_the_root :
  let s := {| ls_fs := {[["data"%string] := Dir; ["etc"%string] := Dir; ["etc"; "passwd"]%string := File "another's"]}; ls_uploads := ∅ |} in
  ls_fs (fst (CleanupParts plain_cfg "../../etc" s)) !! ["etc"; "passwd"]%string = None.
Proof. by vm_compute. Qed.
