(* ===== verification/Keyset.v ===== *)
(** * Keyset pagination

    A page is [WHERE key > after ORDER BY key LIMIT n].  Asking for pages with the last
    key as the next cursor, until a page is empty, enumerates the rows in order, each
    once. *)

From Stdlib Require Import Lia Bool ZArith OrdersEx.
From stdpp Require Import base strings list numbers sorting.
From S2P Require Import Prelude Sql.

Open Scope Z_scope.

(** ** Strict total orders by a test *)

Class StrictTotal {K} (lt : K -> K -> bool) := {
  st_irrefl k : lt k k = false;
  st_trans a b c : lt a b = true -> lt b c = true -> lt a c = true;
  st_total a b : a = b \/ lt a b = true \/ lt b a = true
}.

Lemma st_asym {K} lt `{!StrictTotal lt} (a b : K) : lt a b = true -> lt b a = false.
Proof.
  intros Hab. destruct (lt b a) eqn:Hba; [|done].
  pose proof (st_trans a b a Hab Hba) as Haa. by rewrite st_irrefl in Haa.
Qed.

Lemma string_compare a b : String_as_OT.compare a b = String.compare a b.
Proof.
  revert b. induction a as [|x a IH]; intros [|y b]; cbn; try done.
Qed.

Lemma string_ltb_lt a b : String.ltb a b = true <-> String_as_OT.lt a b.
Proof.
  unfold String.ltb, String_as_OT.lt. pose proof (string_compare a b) as E.
  destruct (String.compare a b); rewrite E; done.
Qed.

#[export] Instance string_total : StrictTotal String.ltb.
Proof.
  split.
  - intros k. destruct (String.ltb k k) eqn:E; [|done]. apply string_ltb_lt in E.
    by destruct (StrictOrder_Irreflexive (R := String_as_OT.lt) k).
  - intros a b c. rewrite !string_ltb_lt. intros. by transitivity b.
  - intros a b. rewrite !string_ltb_lt.
    destruct (String_as_OT.compare_spec a b); auto.
Qed.

#[export] Instance Z_total : StrictTotal Z.ltb.
Proof. split; intros; rewrite ?Z.ltb_lt, ?Z.ltb_ge in *; lia. Qed.

(** DESC. *)
Lemma reverse_total {K} (lt : K -> K -> bool) `{!StrictTotal lt} : StrictTotal (fun a b => lt b a).
Proof.
  split.
  - intros k. apply st_irrefl.
  - intros a b c H1 H2. by eapply st_trans.
  - intros a b. destruct (st_total b a) as [->|[H|H]]; auto.
Qed.

Definition string_gtb (a b : string) : bool := String.ltb b a.
#[export] Instance string_desc : StrictTotal string_gtb.
Proof. apply (reverse_total String.ltb). Qed.
Definition Z_gtb (a b : Z) : bool := b <? a.
#[export] Instance Z_desc : StrictTotal Z_gtb.
Proof. apply (reverse_total Z.ltb). Qed.

(** Column by column. *)
Definition lexb {A B} (lt1 : A -> A -> bool) (lt2 : B -> B -> bool) (x y : A * B) : bool :=
  then_by (lt1 (fst x) (fst y)) (lt1 (fst y) (fst x)) (lt2 (snd x) (snd y)).

#[export] Instance lex_total {A B} (lt1 : A -> A -> bool) (lt2 : B -> B -> bool)
  `{!StrictTotal lt1, !StrictTotal lt2} : StrictTotal (lexb lt1 lt2).
Proof.
  assert (forall x y, lexb lt1 lt2 x y = true <->
    lt1 (fst x) (fst y) = true \/ (fst x = fst y /\ lt2 (snd x) (snd y) = true)) as Hl.
  { intros [a b] [a' b']. unfold lexb, then_by. cbn. destruct (st_total a a') as [->|[Ha|Ha]].
    - rewrite st_irrefl. intuition discriminate.
    - rewrite Ha. intuition.
    - rewrite (st_asym lt1 _ _ Ha), Ha. split; [done|]. intros [|[-> _]]; [done|]. by rewrite st_irrefl in Ha. }
  split.
  - intros k. destruct (lexb lt1 lt2 k k) eqn:E; [|done]. apply Hl in E. rewrite !st_irrefl in E. by destruct E as [|[_ ?]].
  - intros x y z. rewrite !Hl. intros [H1|[E1 H1]] [H2|[E2 H2]]; rewrite ?E1, <- ?E2.
    + left. by eapply st_trans.
    + by left.
    + left. done.
    + right. split; [congruence|]. by eapply st_trans.
  - intros [a b] [a' b']. rewrite !Hl. cbn.
    destruct (st_total a a') as [->|[Ha|Ha]]; [|by right; left; left|by right; right; left].
    destruct (st_total b b') as [->|[Hb|Hb]]; [by left|by right; left; right|by right; right; right].
Qed.

Lemma pullback_total {A B} (f : A -> B) (lt : B -> B -> bool) `{!StrictTotal lt} :
  Inj (=) (=) f -> StrictTotal (fun x y => lt (f x) (f y)).
Proof.
  intros Hf. split.
  - intros k. apply st_irrefl.
  - intros a b c. apply st_trans.
  - intros a b. destruct (st_total (f a) (f b)) as [?%(inj f)|?]; auto.
Qed.

(** ** Pages *)

Section Keyset.
Context {A K : Type} (key : A -> K) (lt : K -> K -> bool) `{!StrictTotal lt}.

Definition key_le (a b : A) : bool := negb (lt (key b) (key a)).
Definition key_lt (a b : A) : Prop := lt (key a) (key b) = true.

Lemma key_le_total a b : key_le a b = true \/ key_le b a = true.
Proof.
  unfold key_le. destruct (lt (key b) (key a)) eqn:E; [right|by left]. by rewrite (st_asym lt _ _ E).
Qed.

Lemma key_le_lt a b : key_le a b = true <-> key a = key b \/ key_lt a b.
Proof.
  unfold key_le, key_lt. rewrite negb_true_iff. destruct (st_total (key a) (key b)) as [E|[E|E]].
  - rewrite E, st_irrefl. intuition.
  - rewrite (st_asym lt _ _ E). intuition.
  - rewrite E. split; [done|]. intros [Hk|Hk].
    + rewrite Hk, st_irrefl in E. done.
    + by rewrite (st_asym lt _ _ Hk) in E.
Qed.

Lemma key_le_trans a b c : key_le a b = true -> key_le b c = true -> key_le a c = true.
Proof.
  rewrite !key_le_lt. unfold key_lt. intros [->|H1] [E|H2]; auto.
  - right. by rewrite <- E.
  - right. by eapply st_trans.
Qed.

(** Rows with distinct keys sort strictly. *)
Lemma sort_strict l : NoDup (map key l) -> StronglySorted key_lt (sort_by key_le l).
Proof.
  intros Hn.
  assert (StronglySorted (fun a b => Is_true (key_le a b)) (sort_by key_le l)) as Hs.
  { apply Sorted_StronglySorted.
    - intros a b c. rewrite !Is_true_true. apply key_le_trans.
    - apply Sorted_merge_sort. intros a b. rewrite !Is_true_true. apply key_le_total. }
  assert (NoDup (map key (sort_by key_le l))) as Hn'.
  { assert (sort_by key_le l ≡ₚ l) as Hp by apply merge_sort_Permutation. by rewrite (Permutation_map key Hp). }
  induction Hs as [|x r Hs IH Hx]; [constructor|]. cbn in Hn'. apply list.NoDup_cons in Hn' as [Hx' Hr].
  constructor; [by apply IH|]. rewrite list.Forall_forall in Hx |- *. intros y Hy.
  specialize (Hx y Hy). apply Is_true_true, key_le_lt in Hx as [Hk|]; [|done].
  destruct Hx'. rewrite Hk. by apply list_elem_of_fmap_2.
Qed.

Lemma filter_strict p l : StronglySorted key_lt l -> StronglySorted key_lt (List.filter p l).
Proof.
  induction 1 as [|x l Hl IH Hx]; cbn; [constructor|]. destruct (p x); [|done]. constructor; [done|].
  rewrite list.Forall_forall in Hx |- *. intros y [Hy _]%elem_filter_b. by apply Hx.
Qed.

(** Filtering commutes with sorting. *)
Lemma sort_filter p l :
  NoDup (map key l) -> sort_by key_le (List.filter p l) = List.filter p (sort_by key_le l).
Proof.
  intros Hn. apply (StronglySorted_unique_strong key_lt).
  - intros x y _ _ H1 H2. unfold key_lt in *. by rewrite (st_asym lt _ _ H1) in H2.
  - by apply sort_strict, NoDup_map_filter.
  - by apply filter_strict, sort_strict.
  - assert (forall k : list A, sort_by key_le k ≡ₚ k) as Hp by (intros; apply merge_sort_Permutation).
    rewrite Hp. apply filter_perm. by rewrite Hp.
Qed.

(** A strictly sorted list is its own sorting. *)
Lemma sort_sorted l : NoDup (map key l) -> StronglySorted key_lt l -> sort_by key_le l = l.
Proof.
  intros Hn Hs. apply (StronglySorted_unique_strong key_lt); [|by apply sort_strict|done|apply merge_sort_Permutation].
  intros x y _ _ H1 H2. unfold key_lt in *. by rewrite (st_asym lt _ _ H1) in H2.
Qed.

(** What follows a row of a strictly sorted list. *)
Lemma filter_after l1 x l2 :
  StronglySorted key_lt (l1 ++ x :: l2) ->
  List.filter (fun y => lt (key x) (key y)) (l1 ++ x :: l2) = l2.
Proof.
  intros Hs. apply StronglySorted_app in Hs as (Hb & _ & Hs). apply StronglySorted_inv in Hs as [_ Hx].
  rewrite List.filter_app. cbn. rewrite st_irrefl.
  rewrite (filter_none _ l1) by (intros y Hy; apply (st_asym lt), Hb; [done|by left]).
  rewrite list.Forall_forall in Hx. by rewrite filter_all.
Qed.

(** The rows after a cursor, and a page of them. *)
Definition rows_after (after : option K) (rows : list A) : list A :=
  match after with Some k => List.filter (fun x => lt k (key x)) rows | None => rows end.
Definition keyset_page (n : nat) (after : option K) (rows : list A) : list A :=
  take n (sort_by key_le (rows_after after rows)).

(** A client that follows the cursors until a page is empty. *)
Fixpoint follow (fuel n : nat) (after : option K) (rows : list A) : option (list A) :=
  match fuel with
  | O => None
  | S fuel =>
      let page := keyset_page n after rows in
      match list.last page with
      | None => Some []
      | Some x => app page <$> follow fuel n (Some (key x)) rows
      end
  end.

Lemma page_split rows n after done_ rest :
  NoDup (map key rows) -> sort_by key_le rows = done_ ++ rest ->
  sort_by key_le (rows_after after rows) = rest ->
  forall x, list.last (take n rest) = Some x ->
  sort_by key_le (rows_after (Some (key x)) rows) = drop n rest.
Proof.
  intros Hn Hs _ x Hx. unfold rows_after. rewrite sort_filter by done. rewrite Hs.
  apply last_Some in Hx as (l' & Hl').
  assert (done_ ++ rest = (done_ ++ l') ++ x :: drop n rest) as Hr.
  { rewrite <- (take_drop n rest) at 1. rewrite Hl', <- !app_assoc. done. }
  rewrite Hr. apply filter_after. rewrite <- Hr, <- Hs. by apply sort_strict.
Qed.

Lemma follow_from rows n fuel after done_ rest :
  NoDup (map key rows) -> (0 < n)%nat -> (length rest < fuel)%nat ->
  sort_by key_le rows = done_ ++ rest -> sort_by key_le (rows_after after rows) = rest ->
  follow fuel n after rows = Some rest.
Proof.
  intros Hn Hpos. revert after done_ rest. induction fuel as [|fuel IH]; intros after done_ rest Hf Hs Ha; [lia|].
  cbn. unfold keyset_page. rewrite Ha. destruct (list.last (take n rest)) as [x|] eqn:Hl.
  - rewrite (IH (Some (key x)) (done_ ++ take n rest) (drop n rest)).
    + cbn. by rewrite take_drop.
    + rewrite length_drop. apply last_Some in Hl as (l' & Hl').
      destruct rest; [by rewrite take_nil in Hl'; destruct l'|cbn in *; lia].
    + by rewrite <- app_assoc, take_drop.
    + by eapply page_split.
  - apply last_None in Hl. destruct rest as [|y rest]; [done|]. destruct n; [lia|done].
Qed.

(** Following the cursors gives the rows in order, each once. *)
Lemma follow_all rows n fuel :
  NoDup (map key rows) -> (0 < n)%nat -> (length rows < fuel)%nat ->
  follow fuel n None rows = Some (sort_by key_le rows).
Proof.
  intros Hn Hpos Hf. apply (follow_from rows n fuel None []); [done|done| |done|done].
  assert (sort_by key_le rows ≡ₚ rows) as -> by apply merge_sort_Permutation. done.
Qed.
End Keyset.

Lemma sorted_by_key {A K} (key : A -> K) (R : K -> K -> Prop) l :
  StronglySorted R (map key l) -> StronglySorted (fun a b => R (key a) (key b)) l.
Proof.
  induction l as [|x l IH]; cbn; [constructor|]. intros [Hs Hx]%StronglySorted_inv.
  constructor; [by apply IH|]. apply list.Forall_forall. intros y Hy.
  apply (proj1 (list.Forall_forall _ _) Hx). by apply (list_elem_of_fmap_2 key).
Qed.

Lemma seqZ_sorted m n : StronglySorted (fun a b => (a <? b) = true) (seqZ m n).
Proof.
  destruct (Z.le_gt_cases n 0) as [Hn|Hn]; [rewrite seqZ_nil by done; constructor|].
  revert m. apply Z.lt_le_incl in Hn. revert n Hn. refine (natlike_ind _ _ _).
  - intros m. rewrite seqZ_nil by done. constructor.
  - intros n Hn IH m. rewrite seqZ_cons by lia. rewrite Z.pred_succ. constructor; [done|].
    apply list.Forall_forall. intros y Hy%elem_of_seqZ. apply Z.ltb_lt. lia.
Qed.
