(* ===== verification/Http.v ===== *)
(** * Requests: what the sources use of net/http, net/url and package strings on them

    A request is a record of what the handlers read: the method, the decoded path and
    the path as [URL.EscapedPath] gives it, the raw query, the host, the header map, the
    declared length and the body's bytes.  Queries are parsed, printed and looked up as
    net/url does, header names canonicalized as net/textproto does.  Upper and lower
    case of runes outside ASCII are Unicode's tables, the class [CaseTables].  A response is
    what the client gets of what a handler writes. *)
From Stdlib Require Import Ascii Lia Bool ZArith.
From stdpp Require Import base gmap strings list numbers option sorting pretty.
From S2P Require Import Prelude GoStrings Json JsonProps Base64 GoErrors Sql Keyset.

Open Scope Z_scope.

(** ** Letter case *)

Class CaseTables := { lower_rune : Z -> Z; upper_rune : Z -> Z }.

Definition is_upper (a : ascii) : bool := in_range 65 90 (byte_val a).
Definition is_lower (a : ascii) : bool := in_range 97 122 (byte_val a).
Definition lower_byte (a : ascii) : ascii := if is_upper a then byte (byte_val a + 32) else a.
Definition upper_byte (a : ascii) : ascii := if is_lower a then byte (byte_val a - 32) else a.
Definition is_ascii (s : string) : bool := forallb (fun a => byte_val a <? 128) (chars s).

(** strings.Map: rune by rune, a byte that starts no rune counts as U+FFFD. *)
Fixpoint map_runes (f : Z -> Z) (fuel : nat) (bs : list Z) : list Z :=
  match fuel, bs with
  | S fuel, _ :: rest =>
      match DecodeRune bs with
      | Some (c, w) => (EncodeRune (f c) ++ map_runes f fuel (drop w bs))%list
      | None => (EncodeRune (f 65533) ++ map_runes f fuel rest)%list
      end
  | _, _ => []
  end.

Definition Map (f : Z -> Z) (s : string) : string :=
  text (map byte (map_runes f (String.length s) (map byte_val (chars s)))).

Definition ToLower `{CaseTables} (s : string) : string :=
  if is_ascii s then text (map lower_byte (chars s)) else Map lower_rune s.
Definition ToUpper `{CaseTables} (s : string) : string :=
  if is_ascii s then text (map upper_byte (chars s)) else Map upper_rune s.

(** ** Runes *)

(** The runes a range over the string visits: a byte that starts none counts as U+FFFD. *)
Fixpoint rune_list (fuel : nat) (bs : list Z) : list Z :=
  match fuel, bs with
  | S fuel, _ :: rest =>
      match DecodeRune bs with
      | Some (c, w) => c :: rune_list fuel (drop w bs)
      | None => 65533 :: rune_list fuel rest
      end
  | _, _ => []
  end.

Definition runes_of (s : string) : list Z := rune_list (String.length s) (map byte_val (chars s)).

(** ** Fields and numbers *)

Definition flush (cur : list ascii) : list string := match cur with [] => [] | _ => [text (rev cur)] end.

Fixpoint fields (cur l : list ascii) : list string :=
  match l with
  | [] => flush cur
  | a :: l1 =>
      if space1 a then (flush cur ++ fields [] l1)%list
      else match l1 with
      | b :: l2 =>
          if space2 a b then (flush cur ++ fields [] l2)%list
          else match l2 with
          | c :: l3 => if space3 a b c then (flush cur ++ fields [] l3)%list else fields (a :: cur) l1
          | [] => fields (a :: cur) l1
          end
      | [] => fields (a :: cur) l1
      end
  end.

(** [strings.Fields]. *)
Definition Fields (s : string) : list string := fields [] (chars s).

Fixpoint radix (base : Z) (l : list ascii) (acc : Z) : option Z :=
  match l with
  | [] => Some acc
  | a :: r => match hex_val a with
              | Some d => if d <? base then radix base r (acc * base + d) else None
              | None => None
              end
  end.

(** strconv.ParseInt(s, base, 64) for base 10 and 16; [None] for a syntax or a range error. *)
Definition ParseInt (base : Z) (s : string) : option Z :=
  let unsigned l := match l with [] => None | _ => radix base l 0 end in
  let n := match chars s with
           | a :: r => if is_char 45 a then Z.opp <$> unsigned r
                       else if is_char 43 a then unsigned r else unsigned (a :: r)
           | [] => None
           end in
  match n with
  | Some n => if (MinInt64 <=? n) && (n <=? MaxInt64) then Some n else None
  | None => None
  end.

Definition FormatInt (n : Z) : string := pretty n.

(** ** Headers *)

Abbreviation Header := (gmap string (list string)).

(** The bytes of a header field name (RFC 7230 token). *)
Definition token_byte (a : ascii) : bool :=
  is_upper a || is_lower a || is_digit a || (match IndexByte "!#$%&'*+-.^_`|~" a with Some _ => true | None => false end).

Fixpoint canonical_bytes (upper : bool) (l : list ascii) : list ascii :=
  match l with
  | [] => []
  | a :: r => (if upper then upper_byte a else lower_byte a) :: canonical_bytes (is_char 45 a) r
  end.

(** [http.CanonicalHeaderKey]. *)
Definition CanonicalHeaderKey (name : string) : string :=
  if forallb token_byte (chars name) then text (canonical_bytes true (chars name)) else name.

Definition header_values (h : Header) (name : string) : list string := default [] (h !! CanonicalHeaderKey name).

(** [Header.Get]. *)
Definition header_Get (h : Header) (name : string) : string :=
  match header_values h name with v :: _ => v | [] => "" end.

Definition header_Set (h : Header) (name value : string) : Header := <[CanonicalHeaderKey name := [value]]> h.

(** ** Queries *)

Abbreviation Values := (gmap string (list string)).

Definition values_Get (q : Values) (k : string) : string :=
  match q !! k with Some (v :: _) => v | _ => "" end.
Definition values_Set (q : Values) (k v : string) : Values := <[k := [v]]> q.

Definition unreserved (a : ascii) : bool :=
  is_upper a || is_lower a || is_digit a || is_char 45 a || is_char 95 a || is_char 46 a || is_char 126 a.

Definition upper_hex (n : Z) : ascii := char (Z.to_nat (if n <? 10 then 48 + n else 55 + n)).
Definition percent : ascii := char 37.
Definition percent_encode (a : ascii) : list ascii := [percent; upper_hex (byte_val a / 16); upper_hex (byte_val a mod 16)].

Definition escape_byte (a : ascii) : list ascii :=
  if unreserved a then [a] else if is_char 32 a then [char 43] else percent_encode a.

(** [url.QueryEscape]. *)
Definition QueryEscape (s : string) : string := text (concat (map escape_byte (chars s))).

Fixpoint unescape (l : list ascii) : option (list ascii) :=
  match l with
  | [] => Some []
  | a :: rest =>
      if is_char 37 a
      then match rest with
           | x :: y :: rest' =>
               match hex_val x, hex_val y with
               | Some h, Some lo => cons (byte (h * 16 + lo)) <$> unescape rest'
               | _, _ => None
               end
           | _ => None
           end
      else cons (if is_char 43 a then char 32 else a) <$> unescape rest
  end.

(** [url.QueryUnescape]. *)
Definition QueryUnescape (s : string) : option string := text <$> unescape (chars s).

(** [strings.Cut] at one byte. *)
Definition Cut (s : string) (sep : ascii) : string * string :=
  match IndexByte s sep with
  | Some i => (slice s 0 i, from s (i + 1))
  | None => (s, "")
  end.

Definition ampersand : ascii := char 38.
Definition equals : ascii := char 61.
Definition semicolon : ascii := char 59.

Definition add_value (q : Values) (k v : string) : Values := <[k := (default [] (q !! k) ++ [v])%list]> q.

(** One setting of a query; those with a semicolon or a bad escape are dropped. *)
Definition add_segment (q : Values) (segment : string) : Values :=
  if match IndexByte segment semicolon with Some _ => true | None => false end then q
  else if (segment =s "") then q
  else let '(k, v) := Cut segment equals in
       match QueryUnescape k, QueryUnescape v with
       | Some k, Some v => add_value q k v
       | _, _ => q
       end.

(** [URL.Query]. *)
Definition ParseQuery (raw : string) : Values := foldl add_segment ∅ (Split raw ampersand).

Definition sorted_keys (q : Values) : list string := sort_by text_le (map fst (map_to_list q)).

(** [Values.Encode] with an escape of its own. *)
Definition encode_with (escape : string -> string) (order : list string -> list string) (q : Values) : string :=
  Join (concat (map (fun k => map (fun v => (escape k ++ String equals (escape v))%string) (order (default [] (q !! k))))
                  (sorted_keys q))) (String ampersand "").

Definition values_Encode (q : Values) : string := encode_with QueryEscape (fun vs => vs) q.

(** ** Requests and URLs *)

Record Http := {
  rq_Method : string; rq_Path : string; rq_EscapedPath : string; rq_RawQuery : string; rq_Host : string;
  rq_Header : Header; rq_ContentLength : Z; rq_Body : option string
}.

Definition Query (r : Http) : Values := ParseQuery (rq_RawQuery r).
Definition Get (r : Http) (name : string) : string := header_Get (rq_Header r) name.

Definition with_header (r : Http) (name value : string) : Http := {|
  rq_Method := rq_Method r; rq_Path := rq_Path r; rq_EscapedPath := rq_EscapedPath r; rq_RawQuery := rq_RawQuery r;
  rq_Host := rq_Host r; rq_Header := header_Set (rq_Header r) name value; rq_ContentLength := rq_ContentLength r;
  rq_Body := rq_Body r |}.

(** ** Responses *)

(** What a handler does to its http.ResponseWriter. *)
Inductive output := SetHeader (name value : string) | DelHeader (name : string) | WriteHeader (code : Z) | Write (p : string).

Record Response := { rs_Status : Z; rs_Header : Header; rs_Body : string }.

(** The header map of the handler, what was sent of it, the body so far. *)
Record Writer := { w_header : Header; w_sent : option (Z * Header); w_body : string }.

Definition send_header (w : Writer) (code : Z) : Writer :=
  match w_sent w with
  | Some _ => w
  | None => {| w_header := w_header w; w_sent := Some (code, w_header w); w_body := w_body w |}
  end.

Definition write_output (w : Writer) (e : output) : Writer :=
  let set h := {| w_header := h; w_sent := w_sent w; w_body := w_body w |} in
  match e with
  | SetHeader name value => set (header_Set (w_header w) name value)
  | DelHeader name => set (delete (CanonicalHeaderKey name) (w_header w))
  | WriteHeader code => send_header w code
  | Write p => let w := send_header w 200 in {| w_header := w_header w; w_sent := w_sent w; w_body := (w_body w ++ p)%string |}
  end.

Definition written (l : list output) : Writer := foldl write_output {| w_header := ∅; w_sent := None; w_body := "" |} l.

(** What the client gets of a handler that returned. *)
Definition respond (l : list output) : Response :=
  let w := written l in
  let '(code, h) := default (200, w_header w) (w_sent w) in {| rs_Status := code; rs_Header := h; rs_Body := w_body w |}.

Definition newline : string := String (char 10) "".

(** [http.Error]. *)
Definition http_Error (text : string) (code : Z) : list output :=
  [DelHeader "Content-Length"; SetHeader "Content-Type" "text/plain; charset=utf-8"; SetHeader "X-Content-Type-Options" "nosniff";
   WriteHeader code; Write (text ++ newline)].

(** ** Lemmas: numbers *)

Lemma decimal_radix l acc n : decimal l acc = Some n -> radix 10 l acc = Some n.
Proof.
  revert acc. induction l as [|a l IH]; intros acc; [done|]. cbn. destruct (is_digit a) eqn:Ed; [|done].
  unfold hex_val. unfold is_digit in Ed. rewrite Ed. assert (byte_val a - 48 <? 10 = true) as ->; [|by apply IH].
  unfold in_range in Ed. lia.
Qed.

Lemma ParseInt_literal s n : ParseInt64 s = Some n -> ParseInt 10 s = Some n.
Proof.
  unfold ParseInt64, ParseInt, unsigned. destruct (chars s) as [|a r]; [done|].
  destruct (is_char 45 a) eqn:Em.
  - destruct r as [|b r]; [done|]. destruct (decimal (b :: r) 0) as [m|] eqn:E; [|done]. by rewrite (decimal_radix _ _ _ E).
  - destruct (decimal (a :: r) 0) as [m|] eqn:E; [|done]. destruct (is_char 43 a) eqn:Ep.
    + cbn in E. apply Z.eqb_eq in Ep. unfold is_digit in E. rewrite Ep in E. done.
    + by rewrite (decimal_radix _ _ _ E).
Qed.

Lemma ParseInt_FormatInt n : int64 n -> ParseInt 10 (FormatInt n) = Some n.
Proof. intros Hn. by apply ParseInt_literal, ParseInt64_pretty. Qed.

Lemma FormatInt_chars n : Forall (fun a => is_digit a = true \/ a = char 45) (chars (FormatInt n)).
Proof.
  assert (forall p, Forall (fun a => is_digit a = true \/ a = char 45) (chars (pretty_N_go (N.pos p) ""))) as Hp.
  { intros p. destruct (pretty_go_head (N.pos p) "" eq_refl) as (a & r & -> & Ha & _ & Hr).
    constructor; [by left|]. rewrite app_nil_r. eapply list.Forall_impl; [exact Hr|]. by left. }
  unfold FormatInt. destruct n as [|p|p]; [repeat constructor; by left|apply Hp|].
  change (chars (pretty (Z.neg p))) with (char 45 :: chars (pretty_N_go (N.pos p) "")). constructor; [by right|apply Hp].
Qed.

Lemma FormatInt_inj n m : FormatInt n = FormatInt m -> n = m.
Proof. apply pretty_Z_inj. Qed.

(** ** Lemmas: escapes *)

Lemma upper_hex_val n : 0 <= n < 16 -> hex_val (upper_hex n) = Some n.
Proof.
  intros Hn. unfold upper_hex, hex_val, char, byte_val, in_range. rewrite nat_ascii_embedding; destruct (n <? 10) eqn:E;
    rewrite ?Z2Nat.id by lia; repeat (match goal with |- context [?c && ?d] => destruct (c && d) eqn:? end); try lia; f_equal; lia.
Qed.

Lemma byte_halves a : byte (byte_val a / 16 * 16 + byte_val a mod 16) = a.
Proof. apply byte_byte_val. Z.to_euclidean_division_equations. lia. Qed.

Lemma unescape_percent a rest : unescape (percent_encode a ++ rest) = cons a <$> unescape rest.
Proof.
  pose proof (byte_val_range a). unfold percent_encode. cbn [app unescape].
  replace (is_char 37 percent) with true by done.
  rewrite !upper_hex_val by (Z.to_euclidean_division_equations; lia). by rewrite byte_halves.
Qed.

Lemma unescape_plain a rest : is_char 37 a = false -> is_char 43 a = false -> unescape (a :: rest) = cons a <$> unescape rest.
Proof. intros Hp Hs. cbn [unescape]. by rewrite Hp, Hs. Qed.

Lemma unreserved_plain a : unreserved a = true -> is_char 37 a = false /\ is_char 43 a = false.
Proof. unfold unreserved, is_upper, is_lower, is_digit, is_char, in_range. lia. Qed.

(** A byte encoding that [unescape] undoes, over bytes safe inside a query. *)
Definition sound_escape (f : ascii -> list ascii) : Prop :=
  forall a, (forall rest, unescape (f a ++ rest) = cons a <$> unescape rest) /\
            Forall (fun b => unreserved b = true \/ b = percent \/ b = char 43) (f a).

Lemma upper_hex_unreserved n : 0 <= n < 16 -> unreserved (upper_hex n) = true.
Proof.
  intros Hn. unfold unreserved, upper_hex, is_upper, is_lower, is_digit, is_char, in_range, char, byte_val.
  rewrite nat_ascii_embedding by (destruct (n <? 10) eqn:E; lia).
  destruct (n <? 10) eqn:E; rewrite !Z2Nat.id by lia; rewrite !orb_true_iff, !andb_true_iff, !Z.leb_le, !Z.eqb_eq; lia.
Qed.

Lemma percent_sound a : Forall (fun b => unreserved b = true \/ b = percent \/ b = char 43) (percent_encode a).
Proof.
  pose proof (byte_val_range a). unfold percent_encode.
  apply Forall_cons_2; [by right; left|].
  apply Forall_cons_2; [|apply Forall_cons_2; [|constructor]]; left; apply upper_hex_unreserved; Z.to_euclidean_division_equations; lia.
Qed.

Lemma escape_byte_sound : sound_escape escape_byte.
Proof.
  intros a. unfold escape_byte. destruct (unreserved a) eqn:Eu; [|destruct (is_char 32 a) eqn:Es].
  - split; [|apply Forall_cons_2; [by left|constructor]]. intros rest. apply unescape_plain; by apply unreserved_plain.
  - split; [|apply Forall_cons_2; [by right; right|constructor]]. intros rest. cbn [app unescape].
    replace (is_char 37 (char 43)) with false by done. replace (is_char 43 (char 43)) with true by done.
    do 2 f_equal. apply Z.eqb_eq in Es. apply byte_val_inj. by rewrite Es.
  - split; [intros rest; apply unescape_percent|apply percent_sound].
Qed.

Definition escape_text (f : ascii -> list ascii) (s : string) : string := text (concat (map f (chars s))).

Lemma unescape_escape f s : sound_escape f -> QueryUnescape (escape_text f s) = Some s.
Proof.
  intros Hf. unfold QueryUnescape, escape_text. rewrite chars_text.
  assert (unescape (concat (map f (chars s))) = Some (chars s)) as ->; [|cbn; by rewrite text_chars].
  induction (chars s) as [|a l IH]; [done|]. cbn [map concat]. rewrite (proj1 (Hf a)), IH. done.
Qed.

(** What the bytes of an escaped text are not. *)
Lemma escape_avoids f s b :
  sound_escape f -> unreserved b = false -> b <> percent -> b <> char 43 -> b ∉ chars (escape_text f s).
Proof.
  intros Hf Hb Hp Hq. unfold escape_text. rewrite chars_text. induction (chars s) as [|a l IH]; [apply not_elem_of_nil|].
  cbn [map concat]. rewrite elem_of_app. intros [Hin|]; [|done].
  pose proof (proj2 (Hf a)) as Hall. rewrite list.Forall_forall in Hall. apply Hall in Hin as [?|[?|?]]; congruence.
Qed.

(** ** Lemmas: printing and parsing a query *)

Lemma Cut_app k v (sep : ascii) : sep ∉ chars k -> Cut (k ++ String sep v) sep = (k, v).
Proof. intros Hk. unfold Cut. by rewrite IndexByte_app, slice_app, from_app_sep. Qed.

Lemma chars_string a s : chars (String a s) = a :: chars s.
Proof. done. Qed.

Lemma first_cut_inj a b x y (sep : ascii) :
  sep ∉ chars a -> sep ∉ chars b -> (a ++ String sep x = b ++ String sep y)%string -> a = b /\ x = y.
Proof. intros Ha Hb He. apply (f_equal (fun s => Cut s sep)) in He. rewrite !Cut_app in He by done. by injection He. Qed.

Lemma list_cut_inj {A} (a b x y : list A) (sep : A) :
  sep ∉ x -> sep ∉ y -> (a ++ sep :: x = b ++ sep :: y)%list -> a = b /\ x = y.
Proof.
  revert b. induction a as [|c a IH]; intros [|d b] Hx Hy; cbn; intros He.
  - injection He as ->. done.
  - injection He as -> ->. destruct Hx. apply elem_of_app. right. by left.
  - injection He as <- <-. destruct Hy. apply elem_of_app. right. by left.
  - injection He as <- He. by apply IH in He as [-> ->].
Qed.

Lemma last_cut_inj a b x y (sep : ascii) :
  sep ∉ chars x -> sep ∉ chars y -> (a ++ String sep x = b ++ String sep y)%string -> a = b /\ x = y.
Proof.
  intros Hx Hy He. apply (f_equal chars) in He. rewrite !chars_app, !chars_string in He.
  apply list_cut_inj in He as [Ha Hb]; [|done|done]. apply (f_equal text) in Ha, Hb. by rewrite !text_chars in Ha, Hb.
Qed.

Definition pair_text (f : ascii -> list ascii) (p : string * string) : string :=
  (escape_text f p.1 ++ String equals (escape_text f p.2))%string.

Lemma pair_segment f p q : sound_escape f -> add_segment q (pair_text f p) = add_value q p.1 p.2.
Proof.
  intros Hf. destruct p as [k v]. unfold add_segment, pair_text. cbn [fst snd].
  assert (forall b, unreserved b = false -> b <> percent -> b <> char 43 -> b <> equals ->
            b ∉ chars (escape_text f k ++ String equals (escape_text f v))%string) as Hno.
  { intros b Hb Hp Hq He. rewrite chars_app, chars_string, elem_of_app, elem_of_cons.
    intros [Hi|[Hi|Hi]]; [|done|]; by eapply escape_avoids in Hi. }
  destruct (IndexByte _ semicolon) eqn:Es.
  { exfalso. assert (IndexByte (escape_text f k ++ String equals (escape_text f v))%string semicolon = None) as Hn;
      [|congruence]. apply IndexByte_None, Hno; done. }
  destruct (_ =s "") eqn:Ee; [apply streqb_true in Ee; destruct (escape_text f k); discriminate Ee|].
  rewrite Cut_app by by apply escape_avoids. by rewrite !unescape_escape.
Qed.

Definition pairs_of (order : list string -> list string) (q : Values) : list (string * string) :=
  concat (map (fun k => map (pair k) (order (default [] (q !! k)))) (sorted_keys q)).

Lemma encode_pairs f order q :
  encode_with (escape_text f) order q = Join (map (pair_text f) (pairs_of order q)) (String ampersand "").
Proof.
  unfold encode_with, pairs_of. f_equal. rewrite concat_map, map_map. f_equal. apply map_ext. intros k. by rewrite map_map.
Qed.

Definition values_at (k : string) (l : list (string * string)) : list string :=
  map snd (List.filter (fun p => p.1 =s k) l).

Lemma add_values_lookup l q k :
  foldl (fun q p => add_value q p.1 p.2) q l !! k =
  match values_at k l with [] => q !! k | vs => Some (default [] (q !! k) ++ vs)%list end.
Proof.
  revert q. induction l as [|[k' v] l IH]; intros q; [done|]. cbn [foldl fst snd]. rewrite IH. unfold values_at, add_value. cbn [List.filter fst].
  destruct (k' =s k) eqn:E.
  - apply streqb_true in E as ->. rewrite lookup_insert_eq. cbn [map snd default].
    destruct (map snd _); [done|]. cbn. by rewrite <- app_assoc.
  - apply String.eqb_neq in E. by rewrite lookup_insert_ne.
Qed.

Lemma sorted_keys_elem q k : k ∈ sorted_keys q <-> is_Some (q !! k).
Proof.
  unfold sorted_keys. rewrite elem_sort_by, list_elem_of_fmap. split.
  - intros ([k' v] & -> & Hv). apply elem_of_map_to_list in Hv. by exists v.
  - intros [v Hv]. exists (k, v). split; [done|]. by apply elem_of_map_to_list.
Qed.

Lemma sorted_keys_NoDup q : NoDup (sorted_keys q).
Proof. unfold sorted_keys, sort_by. rewrite merge_sort_Permutation. apply NoDup_fst_map_to_list. Qed.

Lemma values_at_pairs order q k :
  (order [] = []) -> values_at k (pairs_of order q) = order (default [] (q !! k)).
Proof.
  intros Ho. unfold pairs_of, values_at.
  assert (forall l, NoDup l -> map snd (List.filter (fun p => p.1 =s k)
            (concat (map (fun k => map (pair k) (order (default [] (q !! k)))) l))) =
          if bool_decide (k ∈ l) then order (default [] (q !! k)) else []) as Hl.
  { intros l. induction 1 as [|x l Hx Hl IH]; [done|]. cbn [map concat]. rewrite List.filter_app, map_app, IH.
    assert (map snd (List.filter (fun p : string * string => p.1 =s k) (map (pair x) (order (default [] (q !! x))))) =
            if (x =s k) then order (default [] (q !! x)) else []) as ->.
    { induction (order (default [] (q !! x))) as [|v vs IHv]; cbn; [by destruct (x =s k)|].
      destruct (x =s k); cbn; [by f_equal|done]. }
    destruct (x =s k) eqn:E.
    - apply streqb_true in E as ->. rewrite !bool_decide_false by done. rewrite bool_decide_true by by left. apply app_nil_r.
    - apply String.eqb_neq in E. cbn [app]. rewrite (bool_decide_ext (k ∈ x :: l) (k ∈ l)); [done|].
      rewrite elem_of_cons. split; [by intros [->|]|by right]. }
  rewrite Hl by apply sorted_keys_NoDup. case_bool_decide as Hk; [done|].
  rewrite sorted_keys_elem in Hk. apply eq_None_not_Some in Hk as ->. by cbn.
Qed.

(** Every key has a value: what [URL.Query] and [Values.Set] build. *)
Definition full (q : Values) : Prop := map_Forall (fun _ vs => vs <> []) q.

Lemma parse_encoded f order q :
  sound_escape f -> (forall vs, order vs = [] <-> vs = []) -> full q ->
  ParseQuery (encode_with (escape_text f) order q) = order <$> q.
Proof.
  intros Hf Ho Hq. rewrite encode_pairs. unfold ParseQuery.
  assert (foldl add_segment ∅ (Split (Join (map (pair_text f) (pairs_of order q)) (String ampersand "")) ampersand) =
          foldl (fun q p => add_value q p.1 p.2) ∅ (pairs_of order q)) as ->.
  { destruct (pairs_of order q) as [|p l] eqn:E; [done|]. rewrite Split_Join; [|done|].
    - generalize (p :: l) (∅ : Values). clear -Hf. induction l as [|p l IH]; intros q; [done|].
      cbn [map foldl]. by rewrite pair_segment.
    - apply List.Forall_map, Forall_true. intros [k v]. unfold pair_text. cbn [fst snd].
      fold (chars (escape_text f k ++ String equals (escape_text f v))%string).
      rewrite chars_app, chars_string, elem_of_app, elem_of_cons. intros [Hi|[Hi|Hi]]; [|done|]; by eapply escape_avoids in Hi. }
  apply map_eq. intros k. rewrite add_values_lookup, values_at_pairs by by apply Ho. rewrite lookup_fmap.
  destruct (q !! k) as [vs|] eqn:E; cbn [default fmap option_fmap option_map].
  - rewrite lookup_empty. cbn. destruct (order vs) eqn:Eo; [|done]. exfalso. by apply (Hq _ _ E), Ho.
  - by rewrite (proj2 (Ho [])).
Qed.

(** ** Round trip of a query *)

Theorem ParseQuery_Encode q : full q -> ParseQuery (values_Encode q) = q.
Proof.
  intros Hq. unfold values_Encode. change QueryEscape with (escape_text escape_byte).
  rewrite parse_encoded; [apply map_fmap_id|apply escape_byte_sound|done|done].
Qed.

Lemma chars_Join b l sep :
  Forall (fun x => b ∉ chars x) l -> b ∉ chars sep -> b ∉ chars (Join l sep).
Proof.
  intros Hl Hs. induction Hl as [|x l Hx Hl IH]; [apply not_elem_of_nil|]. destruct l as [|y l]; [done|].
  rewrite Join_cons, !chars_app, !elem_of_app by done. tauto.
Qed.

(** What the bytes of a printed query are not. *)
Lemma encode_avoids f order q b :
  sound_escape f -> unreserved b = false -> b <> percent -> b <> char 43 -> b <> equals -> b <> ampersand ->
  b ∉ chars (encode_with (escape_text f) order q).
Proof.
  intros Hf Hb Hp Hq He Ha. rewrite encode_pairs. apply chars_Join; [|by intros [?|?%not_elem_of_nil]%elem_of_cons].
  apply List.Forall_map, Forall_true. intros p. unfold pair_text. rewrite chars_app, chars_string, elem_of_app, elem_of_cons.
  intros [Hi|[Hi|Hi]]; [|done|]; by eapply escape_avoids in Hi.
Qed.

(** [URL.Query] gives every key a value. *)
Lemma ParseQuery_full raw : full (ParseQuery raw).
Proof.
  unfold ParseQuery. assert (forall l q, full q -> full (foldl add_segment q l)) as Hl; [|apply Hl, map_Forall_empty].
  induction l as [|s l IH]; intros q Hq; [done|]. cbn. apply IH. unfold add_segment.
  destruct (match IndexByte s semicolon with Some _ => true | None => false end); [done|]. destruct (s =s ""); [done|].
  destruct (Cut s equals) as [k v]. destruct (QueryUnescape k), (QueryUnescape v); try done.
  unfold add_value. apply map_Forall_insert_2; [by destruct (default [] _)|done].
Qed.
