(* ===== verification/Spaces.v ===== *)
(** * Space bindings and coverage (src/internal/spaces)

    The validators of identifiers, subjects, commands and pages (validate.go), of
    binding observations (binding.go) and of coverage observations (coverage.go).
    A validator returns [None] for nil.  Go's string-typed enumerations stay
    strings, so that the code's default branches are reachable.
    github.com/google/uuid is the class [UUIDLib]. *)

From Stdlib Require Import Ascii Lia Bool ZArith.
From stdpp Require Import base gmap strings list numbers.
From S2P Require Import Prelude GoStrings GoErrors.

Open Scope Z_scope.

(** What the code uses of github.com/google/uuid. *)
Class UUIDLib := {
  UUID : Type;
  uuid_eqb : UUID -> UUID -> bool;
  uuid_Parse : string -> option UUID;
  uuid_Nil : UUID;
  uuid_String : UUID -> string
}.

(** UUID.String returns xxxxxxxx-xxxx-xxxx-xxxx-xxxxxxxxxxxx in lower case. *)
Definition uuid_char (a : ascii) : bool :=
  ((48 <=? byte_val a) && (byte_val a <=? 57)) || ((97 <=? byte_val a) && (byte_val a <=? 102)) ||
  (byte_val a =? 45).
Class UUIDLaws `{UUIDLib} := {
  uuid_String_length : forall u, String.length (uuid_String u) = 36%nat;
  uuid_String_chars : forall u, forallb uuid_char (String.list_ascii_of_string (uuid_String u)) = true
}.

(** [strings.TrimSpace(value) != value] on the runes of a valid string. *)
Definition has_outer_space (rs : list Z) : bool :=
  match list.head rs, list.last rs with
  | Some a, Some b => IsSpace a || IsSpace b
  | _, _ => false
  end.

Definition invalid (field : string) : option error :=
  Some (errorf SpacesErrInvalidArgument field).

(** Runs the next check when the previous one returned nil. *)
Definition andThen (e : option error) (k : option error) : option error :=
  match e with Some _ => e | None => k end.
Notation "e ';?' k" := (andThen e k) (at level 85, right associativity) : aero_scope.

Lemma andThen_None (e k : option error) : (e ;? k) = None <-> e = None /\ k = None.
Proof. destruct e; cbn; naive_solver. Qed.

(** ** Data (types.go, binding.go, coverage.go) *)

Record SubjectRef := { sr_Source : string; sr_Kind : string; sr_ID : string }.

Record CreateCommand := {
  cc_TenantID : string; cc_ID : string; cc_Kind : string; cc_Name : string;
  cc_Actor : SubjectRef; cc_CommandID : string; cc_Reason : string; cc_RequestID : string
}.

Record MemberCommand := {
  mc_TenantID : string; mc_SpaceID : string; mc_ExpectedRevision : Z;
  mc_Actor : SubjectRef; mc_Target : SubjectRef; mc_Action : string; mc_Role : string;
  mc_CommandID : string; mc_Reason : string; mc_RequestID : string
}.

Record MemberPage := { mp_After : option SubjectRef; mp_Limit : Z }.
Record SpacePage := { sp_AfterID : string; sp_Limit : Z }.
Record HistoryPage := { hp_AfterRevision : Z; hp_Limit : Z }.

Record BindingResult := {
  br_TenantID : string; br_Bucket : string; br_TenantKnown : bool; br_TenantStatus : string;
  br_State : string; br_SpaceID : string; br_Revision : Z
}.

Record CoverageScope := { cs_Kind : string; cs_TenantID : string }.

#[export] Instance CoverageScope_eq_dec : EqDecision CoverageScope.
Proof. solve_decision. Defined.

Record CoverageResult := {
  cr_Scope : CoverageScope; cr_TenantKnown : bool; cr_TenantStatus : string;
  cr_State : string; cr_Complete : bool; cr_Witnesses : list BindingResult
}.

Definition BindingBound : string := "bound".
Definition BindingUnbound : string := "unbound".
Definition CoverageTenant : string := "tenant".
Definition CoverageGlobal : string := "global".
Definition CoverageBound : string := "bound".
Definition CoverageUnbound : string := "unbound".
Definition CoverageUnknown : string := "unknown".

(** ** Validators *)

Definition ValidateIdentifier (value : string) : option error :=
  match runes value with
  | None => invalid "identifier"
  | Some rs =>
      if (value =s "") || has_outer_space rs then invalid "identifier"
      else if existsb IsControl rs then invalid "identifier control character"
      else None
  end.

Definition ValidateTenant (tenant : string) : option error :=
  if (tenant =s "*") then invalid "tenant wildcard" else ValidateIdentifier tenant.

Definition ValidateSubject (subject : SubjectRef) : option error :=
  if (sr_Kind subject <>s "user") && (sr_Kind subject <>s "service") then invalid "subject kind"
  else ValidateIdentifier (sr_Source subject) ;? ValidateIdentifier (sr_ID subject).

Definition ValidateName (name : string) : option error :=
  match runes name with
  | None => invalid "name"
  | Some rs =>
      if forallb IsSpace rs || (200 <? Z.of_nat (length rs)) then invalid "name"
      else if existsb IsControl rs then invalid "name control character"
      else None
  end.

Definition validateMemberAction (action role : string) : option error :=
  if (action =s "member.revoke") then
    if (role <>s "") then invalid "revoke role must be empty" else None
  else if (action =s "member.add") || (action =s "member.change_role") ||
          (action =s "member.reactivate") then
    if (role <>s "viewer") && (role <>s "editor") && (role <>s "admin") then invalid "member role"
    else None
  else invalid "member action".

Definition validateLimit (limit : Z) : option error :=
  if (limit <? 1) || (1000 <? limit) then invalid "page limit" else None.

Definition ValidateMemberPage (page : MemberPage) : option error :=
  validateLimit (mp_Limit page) ;?
  match mp_After page with Some after => ValidateSubject after | None => None end.

Definition ValidateHistoryPage (page : HistoryPage) : option error :=
  if hp_AfterRevision page <? 0 then invalid "history cursor" else validateLimit (hp_Limit page).

Definition ValidateBindingInput (tenant bucket : string) : option error :=
  ValidateTenant tenant ;? ValidateIdentifier bucket ;?
  if (bucket =s "*") then invalid "bucket wildcard" else None.

Section WithUUID.
Context `{UUIDLib}.

Definition ValidateID (id : string) : option error :=
  match uuid_Parse id with
  | None => invalid "canonical nonzero UUID"
  | Some u => if uuid_eqb u uuid_Nil || (uuid_String u <>s id)
              then invalid "canonical nonzero UUID" else None
  end.

Definition ValidateSpaceRef (tenant id : string) : option error :=
  ValidateTenant tenant ;? ValidateID id.

Definition validateCommand (tenant id command : string) (actor : SubjectRef)
    (reason request : string) : option error :=
  ValidateSpaceRef tenant id ;? ValidateID command ;? ValidateSubject actor ;?
  if negb (utf8_ValidString reason) || negb (utf8_ValidString request)
  then invalid "history text" else None.

Definition ValidateCreate (c : CreateCommand) : option error :=
  validateCommand (cc_TenantID c) (cc_ID c) (cc_CommandID c) (cc_Actor c)
    (cc_Reason c) (cc_RequestID c) ;?
  if (cc_Kind c <>s "personal") && (cc_Kind c <>s "team") then invalid "space kind"
  else if (sr_Kind (cc_Actor c) <>s "user") then invalid "initial user admin"
  else ValidateName (cc_Name c).

Definition ValidateMemberCommand (c : MemberCommand) : option error :=
  validateCommand (mc_TenantID c) (mc_SpaceID c) (mc_CommandID c) (mc_Actor c)
    (mc_Reason c) (mc_RequestID c) ;?
  ValidateSubject (mc_Target c) ;?
  if (mc_ExpectedRevision c <? 1) || (mc_ExpectedRevision c =? MaxInt64)
  then invalid "expected revision"
  else validateMemberAction (mc_Action c) (mc_Role c).

Definition ValidateSpacePage (page : SpacePage) : option error :=
  validateLimit (sp_Limit page) ;?
  if (sp_AfterID page <>s "") then ValidateID (sp_AfterID page) else None.

Definition validateBoundResult (result : BindingResult) : option error :=
  if negb (br_TenantKnown result) then invalid "bound with unknown tenant"
  else ValidateID (br_SpaceID result) ;?
       if br_Revision result <=? 0 then invalid "binding revision" else None.

Definition ValidateBindingResult (result : BindingResult) : option error :=
  ValidateBindingInput (br_TenantID result) (br_Bucket result) ;?
  if negb (br_TenantKnown result) && (br_TenantStatus result <>s "")
  then invalid "unknown tenant with status"
  else if (br_State result =s BindingBound) then validateBoundResult result
  else if (br_State result =s BindingUnbound) then
    if (br_SpaceID result <>s "") || negb (br_Revision result =? 0)
    then invalid "unbound with Space facts" else None
  else invalid "binding state".

Definition ValidateCoverageScope (scope : CoverageScope) : option error :=
  if (cs_Kind scope =s CoverageTenant) then ValidateTenant (cs_TenantID scope)
  else if (cs_Kind scope =s CoverageGlobal) then
    if (cs_TenantID scope <>s "") then invalid "global coverage with tenant" else None
  else invalid "coverage scope kind".

Definition validateCoverageTenant (result : CoverageResult) : option error :=
  if (cs_Kind (cr_Scope result) =s CoverageGlobal) then
    if cr_TenantKnown result || (cr_TenantStatus result <>s "")
    then invalid "global coverage with tenant facts" else None
  else if negb (cr_TenantKnown result) && (cr_TenantStatus result <>s "")
  then invalid "unknown coverage tenant with status" else None.

Definition validateCoverageState (result : CoverageResult) : option error :=
  let none := Nat.eqb (length (cr_Witnesses result)) 0 in
  if (cr_State result =s CoverageBound) then
    if none then invalid "bound coverage without witness" else None
  else if (cr_State result =s CoverageUnbound) then
    if negb (cr_Complete result) || negb none
    then invalid "unbound coverage without complete absence" else None
  else if (cr_State result =s CoverageUnknown) then
    if cr_Complete result || negb none
    then invalid "unknown coverage with definitive facts" else None
  else invalid "coverage state".

Definition validateCoverageWitness (result : CoverageResult) (witness : BindingResult) : option error :=
  ValidateBindingResult witness ;?
  if (br_State witness <>s BindingBound) then invalid "coverage witness is not bound"
  else if (cs_Kind (cr_Scope result) =s CoverageTenant) then
    if (br_TenantID witness <>s cs_TenantID (cr_Scope result)) ||
       negb (Bool.eqb (br_TenantKnown witness) (cr_TenantKnown result)) ||
       (br_TenantStatus witness <>s cr_TenantStatus result)
    then invalid "coverage witness tenant mismatch" else None
  else None.

(** [status, seen := statuses[tenant]; seen && status != witness.TenantStatus]. *)
Definition statusClash (statuses : gmap string string) (witness : BindingResult) : bool :=
  match statuses !! br_TenantID witness with
  | Some status => (status <>s br_TenantStatus witness)
  | None => false
  end.

(** The loop of [validateCoverageWitnesses] with its three maps. *)
Fixpoint coverageWitnesses (result : CoverageResult) (ws : list BindingResult)
    (buckets spaces : gset (string * string)) (statuses : gmap string string) : option error :=
  match ws with
  | [] => None
  | witness :: rest =>
      validateCoverageWitness result witness ;?
      let bucket := (br_TenantID witness, br_Bucket witness) in
      let space := (br_TenantID witness, br_SpaceID witness) in
      if bool_decide (bucket ∈ buckets) || bool_decide (space ∈ spaces)
      then invalid "duplicate coverage witness"
      else if statusClash statuses witness
      then invalid "contradictory coverage tenant status"
      else coverageWitnesses result rest ({[bucket]} ∪ buckets) ({[space]} ∪ spaces)
             (<[br_TenantID witness := br_TenantStatus witness]> statuses)
  end.

Definition validateCoverageWitnesses (result : CoverageResult) : option error :=
  coverageWitnesses result (cr_Witnesses result) ∅ ∅ ∅.

Definition ValidateCoverageResult (result : CoverageResult) : option error :=
  ValidateCoverageScope (cr_Scope result) ;? validateCoverageTenant result ;?
  validateCoverageState result ;? validateCoverageWitnesses result.

Definition ValidateCoverageObservation (scope : CoverageScope) (result : CoverageResult) : option error :=
  ValidateCoverageScope scope ;? ValidateCoverageResult result ;?
  if bool_decide (cr_Scope result = scope) then None else invalid "coverage scope echo".
End WithUUID.

(** ** What a validated observation guarantees *)

Section Props.
Context `{UUIDLib}.

Definition w_bucket (w : BindingResult) : string * string := (br_TenantID w, br_Bucket w).
Definition w_space (w : BindingResult) : string * string := (br_TenantID w, br_SpaceID w).

(** The status of every listed tenant agrees with [statuses] and with the list. *)
Definition statuses_agree (statuses : gmap string string) (ws : list BindingResult) : Prop :=
  (forall w st, w ∈ ws -> statuses !! br_TenantID w = Some st -> st = br_TenantStatus w) /\
  (forall w w', w ∈ ws -> w' ∈ ws -> br_TenantID w = br_TenantID w' ->
     br_TenantStatus w = br_TenantStatus w').

Lemma statuses_agree_cons statuses w ws :
  statuses_agree statuses (w :: ws) <->
  (forall st, statuses !! br_TenantID w = Some st -> st = br_TenantStatus w) /\
  statuses_agree (<[br_TenantID w := br_TenantStatus w]> statuses) ws.
Proof.
  unfold statuses_agree. split.
  - intros [H1 H2]. split; [intros st; apply H1; apply elem_of_cons; by left|].
    split; [|intros; apply H2; try apply elem_of_cons; auto].
    intros w' st Hw' Hl. destruct (decide (br_TenantID w = br_TenantID w')) as [Ht|Ht].
    + rewrite Ht, lookup_insert_eq in Hl. simplify_eq.
      apply H2; [apply elem_of_cons; by left|apply elem_of_cons; by right|done].
    + rewrite lookup_insert_ne in Hl by done. apply (H1 w'); [apply elem_of_cons; by right|done].
  - intros [H1 [H2 H3]].
    assert (forall w', w' ∈ ws -> br_TenantID w = br_TenantID w' ->
      br_TenantStatus w = br_TenantStatus w') as Hw.
    { intros w' Hw' Ht. apply H2; [done|]. by rewrite Ht, lookup_insert_eq. }
    split.
    + intros w' st [->|Hw']%elem_of_cons Hl; [by apply H1|].
      destruct (decide (br_TenantID w = br_TenantID w')) as [Ht|Ht].
      * rewrite <- Ht in Hl. rewrite (H1 _ Hl). auto.
      * apply H2; [done|]. by rewrite lookup_insert_ne.
    + intros w1 w2 [->|Hw1]%elem_of_cons [->|Hw2]%elem_of_cons Ht; auto. symmetry. auto.
Qed.

Lemma coverageWitnesses_spec result ws buckets spaces statuses :
  coverageWitnesses result ws buckets spaces statuses = None <->
  (forall w, w ∈ ws -> validateCoverageWitness result w = None) /\
  NoDup (map w_bucket ws) /\ (forall w, w ∈ ws -> w_bucket w ∉ buckets) /\
  NoDup (map w_space ws) /\ (forall w, w ∈ ws -> w_space w ∉ spaces) /\
  statuses_agree statuses ws.
Proof.
  revert buckets spaces statuses.
  induction ws as [|w ws IH]; intros buckets spaces statuses; cbn.
  - unfold statuses_agree. split; [intros _|done].
    repeat split; try apply base.NoDup_nil_2; intros; by match goal with
      H : _ ∈ [] |- _ => apply not_elem_of_nil in H end.
  - rewrite andThen_None, !list.NoDup_cons, statuses_agree_cons.
    setoid_rewrite elem_of_cons. rewrite !list_elem_of_fmap.
    set (dup := _ || _). set (clash := statusClash statuses w).
    assert (dup = false <-> w_bucket w ∉ buckets /\ w_space w ∉ spaces) as Hdup.
    { unfold dup. rewrite orb_false_iff, !bool_decide_eq_false. done. }
    assert (clash = false <-> forall st, statuses !! br_TenantID w = Some st ->
      st = br_TenantStatus w) as Hclash.
    { unfold clash, statusClash. destruct (statuses !! br_TenantID w); [|naive_solver].
      rewrite negb_false_iff, streqb_true. naive_solver. }
    transitivity (validateCoverageWitness result w = None /\ dup = false /\ clash = false /\
      coverageWitnesses result ws ({[w_bucket w]} ∪ buckets) ({[w_space w]} ∪ spaces)
        (<[br_TenantID w := br_TenantStatus w]> statuses) = None).
    { destruct dup, clash; intuition (discriminate || auto). }
    rewrite Hdup, Hclash, IH. clear IH Hdup Hclash dup clash.
    setoid_rewrite not_elem_of_union. setoid_rewrite not_elem_of_singleton.
    split.
    + intros (Hv & [Hb Hs] & Hc & Hvs & Hnb & Hbs & Hns & Hss & Ha).
      repeat split; try done.
      * intros w' [->|Hw]; auto.
      * intros (y & Hy & Hin). destruct (Hbs y Hin); congruence.
      * intros w' [->|Hw]; [done|]. apply (Hbs w' Hw).
      * intros (y & Hy & Hin). destruct (Hss y Hin); congruence.
      * intros w' [->|Hw]; [done|]. apply (Hss w' Hw).
      * apply Ha.
      * apply Ha.
    + intros (Hv & [Hnb1 Hnb] & Hb & [Hns1 Hns] & Hs & Hc & Ha).
      refine (conj (Hv w (or_introl eq_refl)) (conj (conj (Hb w (or_introl eq_refl))
        (Hs w (or_introl eq_refl))) (conj Hc (conj _ (conj Hnb (conj _ (conj Hns (conj _ Ha)))))))).
      * auto.
      * intros w' Hw. split; [|auto]. intros Heq. apply Hnb1. exists w'. split; congruence.
      * intros w' Hw. split; [|auto]. intros Heq. apply Hns1. exists w'. split; congruence.
Qed.

Lemma ValidateBindingResult_bound r :
  ValidateBindingResult r = None -> br_State r = BindingBound ->
  br_TenantKnown r = true /\ ValidateID (br_SpaceID r) = None /\ 0 < br_Revision r.
Proof.
  unfold ValidateBindingResult. intros Hv Hb. apply andThen_None in Hv as [_ Hv].
  rewrite Hb in Hv. cbn in Hv. unfold validateBoundResult in Hv.
  destruct (br_TenantKnown r); cbn in Hv; [|by destruct (_ <>s _)].
  apply andThen_None in Hv as [Hid Hv]. destruct (Z.leb_spec (br_Revision r) 0); [done|].
  split; [done|]. split; [done|lia].
Qed.

Lemma validateCoverageWitness_bound result w :
  validateCoverageWitness result w = None ->
  br_State w = BindingBound /\ br_TenantKnown w = true /\
  ValidateID (br_SpaceID w) = None /\ 0 < br_Revision w.
Proof.
  unfold validateCoverageWitness. intros Hv. apply andThen_None in Hv as [Hr Hv].
  destruct (String.eqb_spec (br_State w) BindingBound) as [Hb|]; [|done].
  split; [done|]. by apply ValidateBindingResult_bound.
Qed.

(** The coverage witnesses are accepted exactly when each is individually valid, no
    two name the same bucket or the same space of a tenant, and all witnesses of a
    tenant carry one status; and then every witness is a bound observation of a known
    tenant with a canonical space id and a positive revision. *)
Theorem validateCoverageWitnesses_spec result :
  (validateCoverageWitnesses result = None <->
   (forall w, w ∈ cr_Witnesses result -> validateCoverageWitness result w = None) /\
   NoDup (map w_bucket (cr_Witnesses result)) /\
   NoDup (map w_space (cr_Witnesses result)) /\
   (forall w w', w ∈ cr_Witnesses result -> w' ∈ cr_Witnesses result ->
      br_TenantID w = br_TenantID w' -> br_TenantStatus w = br_TenantStatus w')) /\
  (validateCoverageWitnesses result = None -> forall w, w ∈ cr_Witnesses result ->
     br_State w = BindingBound /\ br_TenantKnown w = true /\
     ValidateID (br_SpaceID w) = None /\ 0 < br_Revision w).
Proof.
  unfold validateCoverageWitnesses. rewrite coverageWitnesses_spec. unfold statuses_agree.
  split; [|intros (Hv & _) w Hw; by eapply validateCoverageWitness_bound, Hv].
  split; intros Hx; destruct_and!; repeat split; try done; intros; apply not_elem_of_empty.
Qed.
End Props.
