(* ===== verification/SpacesStore.v ===== *)
(** * The spaces store (src/internal/repository/sql_spaces*.go)

    Commands and queries on the tables spaces, space_members and space_history of
    migration 0048, statement by statement, with their CHECK, UNIQUE and FOREIGN KEY
    constraints, for both dialects.  A command runs in a transaction: an error leaves
    the database as it was.  Transactions run one after the other, as SQLite's write
    lock and PostgreSQL's lock on the root row make those of one space; statements fail
    through constraints and through a context that is already done, not through the
    connection.  The clock, the random history id and the context's error are arguments.
    Three columns that hold a subject are one [SubjectRef]. *)

From Stdlib Require Import Ascii Lia Bool ZArith.
From stdpp Require Import base strings list numbers sorting.
From S2P Require Import Prelude GoStrings GoTime GoErrors Sql Spaces.

Open Scope Z_scope.

#[export] Instance SubjectRef_eq_dec : EqDecision SubjectRef.
Proof. solve_decision. Defined.

(** ** Data (types.go) *)

Definition User : string := "user".
Definition Personal : string := "personal".
Definition Admin : string := "admin".
Definition Active : string := "active".
Definition Revoked : string := "revoked".
Definition AddMember : string := "member.add".
Definition ChangeRole : string := "member.change_role".
Definition RevokeMember : string := "member.revoke".
Definition ReactivateMember : string := "member.reactivate".

Record Space := {
  s_TenantID : string; s_ID : string; s_Kind : string; s_Name : string;
  s_BackingBucket : string; s_PersonalSubject : option SubjectRef; s_Revision : Z;
  s_CreatedBy : SubjectRef; s_UpdatedBy : SubjectRef; s_CreatedAt : time; s_UpdatedAt : time
}.

Record Member := {
  m_TenantID : string; m_SpaceID : string; m_Subject : SubjectRef; m_Role : string;
  m_State : string; m_ChangedRevision : Z; m_ChangedBy : SubjectRef;
  m_JoinedAt : time; m_UpdatedAt : time; m_RevokedAt : option time
}.

Record History := {
  h_TenantID : string; h_ID : string; h_SpaceID : string; h_CommandID : string;
  h_CommandType : string; h_Actor : SubjectRef; h_Target : SubjectRef;
  h_BeforeRevision : Z; h_AfterRevision : Z; h_BeforeRole : string; h_AfterRole : string;
  h_BeforeState : string; h_AfterState : string; h_Reason : string; h_RequestID : string;
  h_OccurredAt : time
}.

(** ** Rows: a nullable column is an option *)

Record SpaceRow := {
  sp_tenant_id : string; sp_id : string; sp_kind : string; sp_name : string;
  sp_backing_bucket : string; sp_personal_source : option string;
  sp_personal_kind : option string; sp_personal_subject_id : option string;
  sp_revision : Z; sp_created_by : SubjectRef; sp_updated_by : SubjectRef;
  sp_created_at_ns : Z; sp_updated_at_ns : Z
}.

Record MemberRow := {
  sm_tenant_id : string; sm_space_id : string; sm_subject : SubjectRef; sm_role : string;
  sm_state : string; sm_changed_revision : Z; sm_changed_by : SubjectRef;
  sm_joined_at_ns : Z; sm_updated_at_ns : Z; sm_revoked_at_ns : option Z
}.

Record HistoryRow := {
  sh_tenant_id : string; sh_id : string; sh_space_id : string; sh_command_id : string;
  sh_command_type : string; sh_actor : SubjectRef; sh_target : SubjectRef;
  sh_before_revision : Z; sh_after_revision : Z; sh_before_role : option string;
  sh_after_role : string; sh_before_state : option string; sh_after_state : string;
  sh_reason : string; sh_request_id : string; sh_occurred_at_ns : Z
}.

Record TenantRow := { t_tenant_id : string; t_status : string }.

(** created_at is a text in SQLite and a timestamp in PostgreSQL. *)
Record BucketRow := { b_tenant_id : string; b_name : string; b_created_at : string + time }.

Record SpaceDB := {
  db_tenants : list TenantRow; db_buckets : list BucketRow; db_spaces : list SpaceRow;
  db_members : list MemberRow; db_history : list HistoryRow
}.

Definition set_buckets (l : list BucketRow) (db : SpaceDB) : SpaceDB :=
  {| db_tenants := db_tenants db; db_buckets := l; db_spaces := db_spaces db;
     db_members := db_members db; db_history := db_history db |}.
Definition set_spaces (l : list SpaceRow) (db : SpaceDB) : SpaceDB :=
  {| db_tenants := db_tenants db; db_buckets := db_buckets db; db_spaces := l;
     db_members := db_members db; db_history := db_history db |}.
Definition set_members (l : list MemberRow) (db : SpaceDB) : SpaceDB :=
  {| db_tenants := db_tenants db; db_buckets := db_buckets db; db_spaces := db_spaces db;
     db_members := l; db_history := db_history db |}.
Definition set_history (l : list HistoryRow) (db : SpaceDB) : SpaceDB :=
  {| db_tenants := db_tenants db; db_buckets := db_buckets db; db_spaces := db_spaces db;
     db_members := db_members db; db_history := l |}.

(** ** Scanning *)

(** sql.NullString's String. *)
Definition null_string (v : option string) : string := default "" v.

Definition scanSpace (row : SpaceRow) : Space := {|
  s_TenantID := sp_tenant_id row; s_ID := sp_id row; s_Kind := sp_kind row;
  s_Name := sp_name row; s_BackingBucket := sp_backing_bucket row;
  s_PersonalSubject :=
    match sp_personal_source row with
    | Some source => Some {| sr_Source := source; sr_Kind := null_string (sp_personal_kind row);
                             sr_ID := null_string (sp_personal_subject_id row) |}
    | None => None
    end;
  s_Revision := sp_revision row; s_CreatedBy := sp_created_by row;
  s_UpdatedBy := sp_updated_by row; s_CreatedAt := time_Unix (sp_created_at_ns row);
  s_UpdatedAt := time_Unix (sp_updated_at_ns row) |}.

Definition scanSpaceMember (row : MemberRow) : Member := {|
  m_TenantID := sm_tenant_id row; m_SpaceID := sm_space_id row; m_Subject := sm_subject row;
  m_Role := sm_role row; m_State := sm_state row;
  m_ChangedRevision := sm_changed_revision row; m_ChangedBy := sm_changed_by row;
  m_JoinedAt := time_Unix (sm_joined_at_ns row); m_UpdatedAt := time_Unix (sm_updated_at_ns row);
  m_RevokedAt := time_Unix <$> sm_revoked_at_ns row |}.

Definition scanSpaceHistory (row : HistoryRow) : History := {|
  h_TenantID := sh_tenant_id row; h_ID := sh_id row; h_SpaceID := sh_space_id row;
  h_CommandID := sh_command_id row; h_CommandType := sh_command_type row;
  h_Actor := sh_actor row; h_Target := sh_target row;
  h_BeforeRevision := sh_before_revision row; h_AfterRevision := sh_after_revision row;
  h_BeforeRole := null_string (sh_before_role row); h_AfterRole := sh_after_role row;
  h_BeforeState := null_string (sh_before_state row); h_AfterState := sh_after_state row;
  h_Reason := sh_reason row; h_RequestID := sh_request_id row;
  h_OccurredAt := time_Unix (sh_occurred_at_ns row) |}.

(** The scanners used here return no error on rows of these types. *)
Definition collectSpaceRows {R T} (rows : list R) (scan : R -> T) : list T := map scan rows.

(** ** Errors (sql_spaces_errors.go) *)

Definition spaceUniqueConstraint (name : string) : bool :=
  contains ["buckets_pkey"; "spaces_pkey"; "spaces_bucket_uq"; "spaces_personal_subject_uq";
            "space_members_pkey"; "space_history_pkey"; "space_history_command_uq";
            "space_history_revision_uq"] name.

(** SQLITE_CONSTRAINT_UNIQUE 2067, SQLITE_CONSTRAINT_PRIMARYKEY 1555, SQLITE_BUSY 5,
    SQLITE_LOCKED 6. *)
Definition classifySpaceSQLite (code : Z) : string :=
  if (code =? 2067) || (code =? 1555) then ErrConflict
  else if (Z.land code 255 =? 5) || (Z.land code 255 =? 6) then ErrConcurrent
  else ErrPersistence.

Definition classifySpacePostgres (code constraint : string) : string :=
  if contains ["40001"; "40P01"; "55P03"] code then ErrConcurrent
  else if (code =s "23505") && spaceUniqueConstraint constraint then ErrConflict
  else ErrPersistence.

(** [errors.As] to *sqlite.Error and *pgconn.PgError: the first in depth-first order. *)
Definition first_some {A B} (f : A -> option B) : list A -> option B :=
  fix go l := match l with
              | [] => None
              | x :: rest => match f x with Some y => Some y | None => go rest end
              end.

Fixpoint as_sqlite (e : error) : option Z :=
  match e with
  | SqliteError code => Some code
  | Wrap _ causes => first_some as_sqlite causes
  | Fault _ cause | ClassFault _ cause => as_sqlite cause
  | _ => None
  end.

Fixpoint as_pg (e : error) : option (string * string) :=
  match e with
  | PgError code constraint => Some (code, constraint)
  | Wrap _ causes => first_some as_pg causes
  | Fault _ cause | ClassFault _ cause => as_pg cause
  | _ => None
  end.

Definition classifySpaceSQL (err : error) : string :=
  if errors_Is err ErrNoRows then SpacesErrNotFound
  else match as_sqlite err with
       | Some code => classifySpaceSQLite code
       | None => match as_pg err with
                 | Some (code, constraint) => classifySpacePostgres code constraint
                 | None => ErrPersistence
                 end
       end.

Definition spaceDomainError (err : error) : bool :=
  existsb (errors_Is err)
    [SpacesErrInvalidArgument; SpacesErrNotFound; ErrTenantUnavailable; ErrConflict;
     ErrMemberExists; ErrMemberRevoked; ErrLastAdmin; ErrConcurrent; ErrPersistence].

(** [errors.Join(err, ctx.Err())]. *)
Definition join_ctx (ctx : option error) (err : error) : error :=
  match ctx with Some c => Wrap "" [err; c] | None => err end.

(** [ctx] is ctx.Err(). *)
Definition spaceSQLError (ctx : option error) (op : string) (err : error) : error :=
  if spaceDomainError err then err
  else
    let kind :=
      match ctx with
      | Some _ => ErrPersistence
      | None => if negb (errors_Is err context_Canceled) &&
                   negb (errors_Is err context_DeadlineExceeded)
                then classifySpaceSQL err else ErrPersistence
      end in
    Wrap ("spaces " ++ op) [Sentinel kind; join_ctx ctx err].

(** ** Constraints of migration 0048 *)


(** length(text) > 0. *)
Definition nonempty (s : string) : bool := (s <>s "").
(** An INTEGER or BIGINT column that is at least [lo]. *)
Definition int_from (lo n : Z) : bool := (lo <=? n) && (n <=? MaxInt64).
(** The checks of the three columns of a subject. *)
Definition check_subject (s : SubjectRef) : bool :=
  nonempty (sr_Source s) && contains ["user"; "service"] (sr_Kind s) && nonempty (sr_ID s).

Definition is_null {A} (v : option A) : bool := match v with None => true | Some _ => false end.
(** [v IS NOT NULL AND p(v)], and [v IS NULL OR p(v)]. *)
Definition not_null {A} (p : A -> bool) (v : option A) : bool :=
  match v with Some x => p x | None => false end.
Definition null_or {A} (p : A -> bool) (v : option A) : bool :=
  match v with Some x => p x | None => true end.

Definition check_personal (r : SpaceRow) : bool :=
  ((sp_kind r =s "personal") && not_null nonempty (sp_personal_source r) &&
     not_null (String.eqb "user") (sp_personal_kind r) &&
     not_null nonempty (sp_personal_subject_id r)) ||
  ((sp_kind r =s "team") && is_null (sp_personal_source r) && is_null (sp_personal_kind r) &&
     is_null (sp_personal_subject_id r)).

Definition check_space (r : SpaceRow) : bool :=
  nonempty (sp_tenant_id r) && (sp_tenant_id r <>s "*") && nonempty (sp_id r) &&
  contains ["personal"; "team"] (sp_kind r) && nonempty (sp_name r) &&
  nonempty (sp_backing_bucket r) && int_from 1 (sp_revision r) &&
  check_subject (sp_created_by r) && check_subject (sp_updated_by r) &&
  int_from 1 (sp_created_at_ns r) && int_from 1 (sp_updated_at_ns r) && check_personal r.

Definition check_member (r : MemberRow) : bool :=
  check_subject (sm_subject r) && contains ["viewer"; "editor"; "admin"] (sm_role r) &&
  contains ["active"; "revoked"] (sm_state r) && int_from 1 (sm_changed_revision r) &&
  check_subject (sm_changed_by r) && int_from 1 (sm_joined_at_ns r) &&
  int_from 1 (sm_updated_at_ns r) && null_or (int_from 1) (sm_revoked_at_ns r) &&
  (((sm_state r =s "active") && is_null (sm_revoked_at_ns r)) ||
   ((sm_state r =s "revoked") && negb (is_null (sm_revoked_at_ns r)))).

Definition check_transition (r : HistoryRow) : bool :=
  (contains ["create"; "member.add"] (sh_command_type r) && is_null (sh_before_role r) &&
     is_null (sh_before_state r) && (sh_after_state r =s "active")) ||
  ((sh_command_type r =s "member.change_role") &&
     not_null (String.eqb "active") (sh_before_state r) && (sh_after_state r =s "active") &&
     not_null (fun role => role <>s sh_after_role r) (sh_before_role r)) ||
  ((sh_command_type r =s "member.revoke") &&
     not_null (String.eqb "active") (sh_before_state r) && (sh_after_state r =s "revoked") &&
     not_null (fun role => role =s sh_after_role r) (sh_before_role r)) ||
  ((sh_command_type r =s "member.reactivate") && negb (is_null (sh_before_role r)) &&
     not_null (String.eqb "revoked") (sh_before_state r) && (sh_after_state r =s "active")).

Definition check_history (r : HistoryRow) : bool :=
  nonempty (sh_id r) && nonempty (sh_command_id r) &&
  contains ["create"; "member.add"; "member.change_role"; "member.revoke"; "member.reactivate"]
    (sh_command_type r) &&
  check_subject (sh_actor r) && check_subject (sh_target r) &&
  int_from 0 (sh_before_revision r) && int_from 1 (sh_after_revision r) &&
  null_or (contains ["viewer"; "editor"; "admin"]) (sh_before_role r) &&
  contains ["viewer"; "editor"; "admin"] (sh_after_role r) &&
  null_or (contains ["active"; "revoked"]) (sh_before_state r) &&
  contains ["active"; "revoked"] (sh_after_state r) && int_from 1 (sh_occurred_at_ns r) &&
  (sh_after_revision r =? sh_before_revision r + 1) &&
  (((sh_command_type r =s "create") && (sh_before_revision r =? 0) && (sh_after_revision r =? 1)) ||
   ((sh_command_type r <>s "create") && (1 <=? sh_before_revision r))) &&
  check_transition r.

(** Keys. *)
Definition bucket_key (r : BucketRow) : string * string := (b_tenant_id r, b_name r).
Definition space_key (r : SpaceRow) : string * string := (sp_tenant_id r, sp_id r).
Definition space_bucket_key (r : SpaceRow) : string * string := (sp_tenant_id r, sp_backing_bucket r).
Definition personal_key (r : SpaceRow) :=
  (sp_tenant_id r, sp_personal_source r, sp_personal_kind r, sp_personal_subject_id r).
Definition member_space (r : MemberRow) : string * string := (sm_tenant_id r, sm_space_id r).
Definition member_key (r : MemberRow) := (sm_tenant_id r, sm_space_id r, sm_subject r).
Definition history_space (r : HistoryRow) : string * string := (sh_tenant_id r, sh_space_id r).
Definition history_key (r : HistoryRow) : string * string := (sh_tenant_id r, sh_id r).
Definition command_key (r : HistoryRow) : string * string := (sh_tenant_id r, sh_command_id r).
Definition revision_key (r : HistoryRow) := (sh_tenant_id r, sh_space_id r, sh_after_revision r).

(** Runs the constraint tests in order. *)
Fixpoint violation (tests : list (bool * error)) : option error :=
  match tests with
  | [] => None
  | (bad, e) :: rest => if bad then Some e else violation rest
  end.

(** PostgreSQL refuses a NUL byte in a text. *)
Definition bad_text (d : dialect) (s : string) : bool :=
  match d with
  | dialectSQLite => false
  | dialectPostgres => existsb (fun a => byte_val a =? 0) (String.list_ascii_of_string s)
  end.

Definition bucket_violation (d : dialect) (db : SpaceDB) (r : BucketRow) : option error :=
  violation [(clash bucket_key (db_buckets db) (bucket_key r), pkey_violation d "buckets_pkey")].

(** The partial unique index covers the personal spaces only. *)
Definition space_violation (d : dialect) (db : SpaceDB) (r : SpaceRow) : option error :=
  violation
    [(negb (check_space r), check_violation d);
     (clash space_key (db_spaces db) (space_key r), pkey_violation d "spaces_pkey");
     (clash space_bucket_key (db_spaces db) (space_bucket_key r), uq_violation d "spaces_bucket_uq");
     ((sp_kind r =s "personal") &&
        existsb (fun o => (sp_kind o =s "personal") && bool_decide (personal_key o = personal_key r))
          (db_spaces db), uq_violation d "spaces_personal_subject_uq");
     (negb (clash t_tenant_id (db_tenants db) (sp_tenant_id r)), fkey_violation d);
     (negb (clash bucket_key (db_buckets db) (space_bucket_key r)), fkey_violation d)].

Definition member_violation (d : dialect) (db : SpaceDB) (r : MemberRow) : option error :=
  violation
    [(negb (check_member r), check_violation d);
     (clash member_key (db_members db) (member_key r), pkey_violation d "space_members_pkey");
     (negb (clash space_key (db_spaces db) (member_space r)), fkey_violation d)].

Definition history_violation (d : dialect) (db : SpaceDB) (r : HistoryRow) : option error :=
  violation
    [(bad_text d (sh_reason r) || bad_text d (sh_request_id r), PgError "22021" "");
     (negb (check_history r), check_violation d);
     (clash history_key (db_history db) (history_key r), pkey_violation d "space_history_pkey");
     (clash command_key (db_history db) (command_key r), uq_violation d "space_history_command_uq");
     (clash revision_key (db_history db) (revision_key r), uq_violation d "space_history_revision_uq");
     (negb (clash space_key (db_spaces db) (history_space r)), fkey_violation d)].

(** ** Statements *)

(** INSERT of one row: the number of rows written. *)
Definition insert_row {A} (bad : SpaceDB -> A -> option error)
    (put : A -> SpaceDB -> SpaceDB) (row : A) : prog SpaceDB Z := fun db =>
  match bad db row with
  | Some e => (db, Err e)
  | None => (put row db, Ok 1)
  end.

(** UPDATE ... SET f WHERE p, refused when a changed row breaks a CHECK. *)
Definition update_rows {A} (table : SpaceDB -> list A) (put : list A -> SpaceDB -> SpaceDB)
    (check : A -> bool) (d : dialect) (p : A -> bool) (f : A -> A) : prog SpaceDB Z := fun db =>
  let hit := List.filter p (table db) in
  if existsb (fun r => negb (check (f r))) hit then (db, Err (check_violation d))
  else (put (update_where p f (table db)) db, Ok (Z.of_nat (length hit))).

Definition spaceOneRow (m : prog SpaceDB Z) : prog SpaceDB unit :=
  do! n := m in refuse_if (negb (n =? 1)) (NewError "unexpected Space write row count").

(** ** Transactions and reads (sql_spaces_tx.go) *)

(** BeginTx fails when the context is done. *)
Definition begin_tx (ctx : option error) (op : string) : prog SpaceDB unit :=
  guard (fun _ => spaceSQLError ctx op <$> ctx).

Definition spaceTenant (tenant : string) : prog SpaceDB unit := guard (fun db =>
  match query_one (fun t => t_tenant_id t =s tenant) (db_tenants db) with
  | Err e => if errors_Is e ErrNoRows then Some (Sentinel ErrTenantUnavailable) else Some e
  | Ok row => if (t_status row <>s "active") then Some (Sentinel ErrTenantUnavailable) else None
  end).

Definition is_space (tenant id : string) (r : SpaceRow) : bool :=
  (sp_tenant_id r =s tenant) && (sp_id r =s id).

Definition spaceRoot (tenant id : string) : prog SpaceDB Space := reads (fun db =>
  let! row := query_one (is_space tenant id) (db_spaces db) in Ok (scanSpace row)).

(** A read transaction: the tenant check, then the query. *)
Definition spaceRead {T} (ctx : option error) (tenant : string) (read : prog SpaceDB T)
    : prog SpaceDB T :=
  run! begin_tx ctx "begin read" in
  in_tx (run! map_err (spaceSQLError ctx "read tenant") (spaceTenant tenant) in
         map_err (spaceSQLError ctx "read") read).

(** The SET clause of the compare-and-set. *)
Definition bump_revision (actor : SubjectRef) (now : time) (r : SpaceRow) : SpaceRow := {|
  sp_tenant_id := sp_tenant_id r; sp_id := sp_id r; sp_kind := sp_kind r; sp_name := sp_name r;
  sp_backing_bucket := sp_backing_bucket r; sp_personal_source := sp_personal_source r;
  sp_personal_kind := sp_personal_kind r; sp_personal_subject_id := sp_personal_subject_id r;
  sp_revision := sp_revision r + 1; sp_created_by := sp_created_by r; sp_updated_by := actor;
  sp_created_at_ns := sp_created_at_ns r; sp_updated_at_ns := UnixNano now |}.

Definition spaceCAS (d : dialect) (c : MemberCommand) (now : time) : prog SpaceDB unit :=
  do! n := update_rows db_spaces set_spaces check_space d
             (fun r => is_space (mc_TenantID c) (mc_SpaceID c) r &&
                       (sp_revision r =? mc_ExpectedRevision c))
             (bump_revision (mc_Actor c) now) in
  run! spaceTenant (mc_TenantID c) in
  if n =? 1 then ret tt
  else run! refuse_if (negb (n =? 0)) (NewError "unexpected Space CAS row count") in
       run! spaceRoot (mc_TenantID c) (mc_SpaceID c) in
       fail (Sentinel ErrConflict).

(** ** Members (sql_spaces_members.go) *)

Definition is_member (tenant id : string) (subject : SubjectRef) (r : MemberRow) : bool :=
  bool_decide (member_key r = (tenant, id, subject)).

Definition spaceMember (tenant id : string) (subject : SubjectRef) : prog SpaceDB Member :=
  reads (fun db =>
    let! row := query_one (is_member tenant id subject) (db_members db) in
    Ok (scanSpaceMember row)).

Definition spaceRevokedTime (m : Member) : option Z := UnixNano <$> m_RevokedAt m.

Definition member_row (m : Member) : MemberRow := {|
  sm_tenant_id := m_TenantID m; sm_space_id := m_SpaceID m; sm_subject := m_Subject m;
  sm_role := m_Role m; sm_state := m_State m; sm_changed_revision := m_ChangedRevision m;
  sm_changed_by := m_ChangedBy m; sm_joined_at_ns := UnixNano (m_JoinedAt m);
  sm_updated_at_ns := UnixNano (m_UpdatedAt m); sm_revoked_at_ns := spaceRevokedTime m |}.

Definition put_member (r : MemberRow) (db : SpaceDB) : SpaceDB :=
  set_members (db_members db ++ [r]) db.

Definition spaceInsertMember (d : dialect) (m : Member) : prog SpaceDB unit :=
  spaceOneRow (insert_row (member_violation d) put_member (member_row m)).

(** The SET clause of the member update: joined_at_ns stays. *)
Definition set_member (m : Member) (r : MemberRow) : MemberRow := {|
  sm_tenant_id := sm_tenant_id r; sm_space_id := sm_space_id r; sm_subject := sm_subject r;
  sm_role := m_Role m; sm_state := m_State m; sm_changed_revision := m_ChangedRevision m;
  sm_changed_by := m_ChangedBy m; sm_joined_at_ns := sm_joined_at_ns r;
  sm_updated_at_ns := UnixNano (m_UpdatedAt m); sm_revoked_at_ns := spaceRevokedTime m |}.

Definition spaceUpdateMember (d : dialect) (m : Member) : prog SpaceDB unit :=
  spaceOneRow (update_rows db_members set_members check_member d
    (is_member (m_TenantID m) (m_SpaceID m) (m_Subject m)) (set_member m)).

(** [before] is the zero Member when [present] is false. *)
Definition spaceMemberState (c : MemberCommand) (before : Member) (present : bool) : option error :=
  if (mc_Action c =s AddMember) then
    if negb present then None
    else if (m_State before =s Revoked) then Some (Sentinel ErrMemberRevoked)
    else Some (Sentinel ErrMemberExists)
  else if negb present then Some (Sentinel SpacesErrNotFound)
  else if (mc_Action c =s ReactivateMember) then
    if (m_State before =s Active) then Some (Sentinel ErrMemberExists) else None
  else if (m_State before =s Revoked) then Some (Sentinel ErrMemberRevoked)
  else if (mc_Action c =s ChangeRole) && (m_Role before =s mc_Role c)
  then Some (Sentinel ErrConflict)
  else None.

Definition spaceMemberAfter (c : MemberCommand) (before : Member) (now : time) : Member :=
  let add := (mc_Action c =s AddMember) in
  let revoke := (mc_Action c =s RevokeMember) in
  {| m_TenantID := if add then mc_TenantID c else m_TenantID before;
     m_SpaceID := if add then mc_SpaceID c else m_SpaceID before;
     m_Subject := if add then mc_Target c else m_Subject before;
     m_Role := if revoke then m_Role before else mc_Role c;
     m_State := if revoke then Revoked else Active;
     m_ChangedRevision := wrap64 (mc_ExpectedRevision c + 1);
     m_ChangedBy := mc_Actor c;
     m_JoinedAt := if add then now else m_JoinedAt before;
     m_UpdatedAt := now;
     m_RevokedAt := if revoke then Some now else None |}.

Definition is_admin (tenant id : string) (r : MemberRow) : bool :=
  (sm_tenant_id r =s tenant) && (sm_space_id r =s id) && (sm_state r =s "active") &&
  (sm_role r =s "admin") && (sr_Kind (sm_subject r) =s "user").

Definition spaceProtectAdmin (before after : Member) : prog SpaceDB unit := guard (fun db =>
  if (sr_Kind (m_Subject before) <>s User) || (m_State before <>s Active) ||
     (m_Role before <>s Admin) then None
  else if (m_State after =s Active) && (m_Role after =s Admin) then None
  else if Z.of_nat (length (List.filter (is_admin (m_TenantID before) (m_SpaceID before))
                              (db_members db))) <=? 1
  then Some (Sentinel ErrLastAdmin) else None).

Definition zeroSubject : SubjectRef := {| sr_Source := ""; sr_Kind := ""; sr_ID := "" |}.

Definition zeroMember : Member := {|
  m_TenantID := ""; m_SpaceID := ""; m_Subject := zeroSubject; m_Role := ""; m_State := "";
  m_ChangedRevision := 0; m_ChangedBy := zeroSubject; m_JoinedAt := 0; m_UpdatedAt := 0;
  m_RevokedAt := None |}.

(** ** History (sql_spaces_history.go) *)

Definition put_history (r : HistoryRow) (db : SpaceDB) : SpaceDB :=
  set_history (db_history db ++ [r]) db.

Definition null_if_empty (s : string) : option string := if (s <>s "") then Some s else None.

Definition history_row (id : string) (h : History) : HistoryRow := {|
  sh_tenant_id := h_TenantID h; sh_id := id; sh_space_id := h_SpaceID h;
  sh_command_id := h_CommandID h; sh_command_type := h_CommandType h; sh_actor := h_Actor h;
  sh_target := h_Target h; sh_before_revision := h_BeforeRevision h;
  sh_after_revision := h_AfterRevision h; sh_before_role := null_if_empty (h_BeforeRole h);
  sh_after_role := h_AfterRole h; sh_before_state := null_if_empty (h_BeforeState h);
  sh_after_state := h_AfterState h; sh_reason := h_Reason h; sh_request_id := h_RequestID h;
  sh_occurred_at_ns := UnixNano (h_OccurredAt h) |}.

(** ** Order of rows and joins *)

(** Row values compare by columns from left to right. *)
Definition subject_lt (a b : SubjectRef) : bool :=
  then_by (String.ltb (sr_Source a) (sr_Source b)) (String.ltb (sr_Source b) (sr_Source a))
    (then_by (String.ltb (sr_Kind a) (sr_Kind b)) (String.ltb (sr_Kind b) (sr_Kind a))
       (String.ltb (sr_ID a) (sr_ID b))).

(** LEFT JOIN: the matching rows, or one NULL row. *)
Definition left_join {A} (p : A -> bool) (l : list A) : list (option A) :=
  match List.filter p l with
  | [] => [None]
  | hits => map Some hits
  end.

(** The six nullable columns of the binding and coverage queries. *)
Record BindingRow := {
  o_tenant_id : option string; o_status : option string; o_space_tenant : option string;
  o_bucket : option string; o_id : option string; o_revision : option Z
}.

Definition binding_row (t : option TenantRow) (sp : option SpaceRow) : BindingRow := {|
  o_tenant_id := t_tenant_id <$> t; o_status := t_status <$> t;
  o_space_tenant := sp_tenant_id <$> sp; o_bucket := sp_backing_bucket <$> sp;
  o_id := sp_id <$> sp; o_revision := sp_revision <$> sp |}.

Section WithUUID.
Context `{UUIDLib} (d : dialect) (ctx : option error).

(** [newid] is the outcome of uuid.NewRandom. *)
Definition spaceAppendHistory (newid : result UUID) (h : History) : prog SpaceDB unit :=
  do! id := reads (fun _ => newid) in
  spaceOneRow (insert_row (history_violation d) put_history (history_row (uuid_String id) h)).

(** The before columns of the history entry of a member command. *)
Definition member_history (c : MemberCommand) (before after : Member) (present : bool) (now : time)
    : History := {|
  h_TenantID := mc_TenantID c; h_ID := ""; h_SpaceID := mc_SpaceID c;
  h_CommandID := mc_CommandID c; h_CommandType := mc_Action c; h_Actor := mc_Actor c;
  h_Target := mc_Target c; h_BeforeRevision := mc_ExpectedRevision c;
  h_AfterRevision := wrap64 (mc_ExpectedRevision c + 1);
  h_BeforeRole := if present then m_Role before else ""; h_AfterRole := m_Role after;
  h_BeforeState := if present then m_State before else ""; h_AfterState := m_State after;
  h_Reason := mc_Reason c; h_RequestID := mc_RequestID c; h_OccurredAt := now |}.

(** The member before the command: absent on sql.ErrNoRows, else the error is returned. *)
Definition memberBefore (c : MemberCommand) : prog SpaceDB (option Member) := fun db =>
  match spaceMember (mc_TenantID c) (mc_SpaceID c) (mc_Target c) db with
  | (db', Ok m) => (db', Ok (Some m))
  | (db', Err e) => if errors_Is e ErrNoRows then (db', Ok None) else (db', Err e)
  end.

Definition spaceChangeMemberRows (newid : result UUID) (c : MemberCommand) (now : time)
    : prog SpaceDB unit :=
  do! found := memberBefore c in
  let before := default zeroMember found in
  let present := bool_decide (is_Some found) in
  run! guard (fun _ => spaceMemberState c before present) in
  let after := spaceMemberAfter c before now in
  run! spaceProtectAdmin before after in
  run! (if (mc_Action c =s AddMember) then spaceInsertMember d after
        else spaceUpdateMember d after) in
  spaceAppendHistory newid (member_history c before after present now).

Definition ChangeSpaceMember (now : time) (newid : result UUID) (c : MemberCommand)
    : prog SpaceDB Z :=
  run! guard (fun _ => ValidateMemberCommand c) in
  run! begin_tx ctx "begin member" in
  run! in_tx (run! map_err (spaceSQLError ctx "member CAS") (spaceCAS d c now) in
              map_err (spaceSQLError ctx "member change") (spaceChangeMemberRows newid c now)) in
  ret (wrap64 (mc_ExpectedRevision c + 1)).

(** ** Creation (sql_spaces_commands.go) *)

Definition space_row (v : Space) : SpaceRow := {|
  sp_tenant_id := s_TenantID v; sp_id := s_ID v; sp_kind := s_Kind v; sp_name := s_Name v;
  sp_backing_bucket := s_BackingBucket v;
  sp_personal_source := sr_Source <$> s_PersonalSubject v;
  sp_personal_kind := sr_Kind <$> s_PersonalSubject v;
  sp_personal_subject_id := sr_ID <$> s_PersonalSubject v;
  sp_revision := s_Revision v; sp_created_by := s_CreatedBy v; sp_updated_by := s_UpdatedBy v;
  sp_created_at_ns := UnixNano (s_CreatedAt v); sp_updated_at_ns := UnixNano (s_UpdatedAt v) |}.

Definition put_space (r : SpaceRow) (db : SpaceDB) : SpaceDB :=
  set_spaces (db_spaces db ++ [r]) db.
Definition put_bucket (r : BucketRow) (db : SpaceDB) : SpaceDB :=
  set_buckets (db_buckets db ++ [r]) db.

Definition spaceInsertRoot (v : Space) : prog SpaceDB unit :=
  spaceOneRow (insert_row (space_violation d) put_space (space_row v)).

Definition bucket_row (v : Space) : BucketRow := {|
  b_tenant_id := s_TenantID v; b_name := s_BackingBucket v;
  b_created_at := match d with
                  | dialectSQLite => inl (FormatRFC3339Nano (s_CreatedAt v))
                  | dialectPostgres => inr (s_CreatedAt v)
                  end |}.

Definition first_member (v : Space) (c : CreateCommand) : Member := {|
  m_TenantID := s_TenantID v; m_SpaceID := s_ID v; m_Subject := cc_Actor c; m_Role := Admin;
  m_State := Active; m_ChangedRevision := 1; m_ChangedBy := cc_Actor c;
  m_JoinedAt := s_CreatedAt v; m_UpdatedAt := s_CreatedAt v; m_RevokedAt := None |}.

Definition create_history (v : Space) (c : CreateCommand) : History := {|
  h_TenantID := s_TenantID v; h_ID := ""; h_SpaceID := s_ID v; h_CommandID := cc_CommandID c;
  h_CommandType := "create"; h_Actor := cc_Actor c; h_Target := cc_Actor c;
  h_BeforeRevision := 0; h_AfterRevision := 1; h_BeforeRole := ""; h_AfterRole := Admin;
  h_BeforeState := ""; h_AfterState := Active; h_Reason := cc_Reason c;
  h_RequestID := cc_RequestID c; h_OccurredAt := s_CreatedAt v |}.

Definition spaceCreateRows (newid : result UUID) (v : Space) (c : CreateCommand)
    : prog SpaceDB unit :=
  run! (match d with dialectPostgres => spaceTenant (s_TenantID v) | dialectSQLite => ret tt end) in
  run! spaceOneRow (insert_row (bucket_violation d) put_bucket (bucket_row v)) in
  run! (match d with dialectSQLite => spaceTenant (s_TenantID v) | dialectPostgres => ret tt end) in
  run! spaceInsertRoot v in
  run! spaceInsertMember d (first_member v c) in
  spaceAppendHistory newid (create_history v c).

Definition new_space (now : time) (c : CreateCommand) : Space := {|
  s_TenantID := cc_TenantID c; s_ID := cc_ID c; s_Kind := cc_Kind c; s_Name := cc_Name c;
  s_BackingBucket := ("spc-" ++ cc_ID c)%string;
  s_PersonalSubject := if (cc_Kind c =s Personal) then Some (cc_Actor c) else None;
  s_Revision := 1; s_CreatedBy := cc_Actor c; s_UpdatedBy := cc_Actor c;
  s_CreatedAt := now; s_UpdatedAt := now |}.

Definition CreateSpace (now : time) (newid : result UUID) (c : CreateCommand) : prog SpaceDB Space :=
  run! guard (fun _ => ValidateCreate c) in
  let v := new_space now c in
  run! begin_tx ctx "begin create" in
  run! in_tx (map_err (spaceSQLError ctx "create") (spaceCreateRows newid v c)) in
  ret v.

(** ** Queries (sql_spaces_queries.go, sql_spaces_members.go, sql_spaces_history.go) *)

Definition GetSpace (tenant id : string) : prog SpaceDB Space :=
  run! guard (fun _ => ValidateSpaceRef tenant id) in
  spaceRead ctx tenant (spaceRoot tenant id).

Definition GetSpaceByBucket (tenant bucket : string) : prog SpaceDB Space :=
  run! guard (fun _ => ValidateTenant tenant) in
  run! guard (fun _ => ValidateIdentifier bucket) in
  spaceRead ctx tenant (reads (fun db =>
    let! row := query_one (fun r => (sp_tenant_id r =s tenant) && (sp_backing_bucket r =s bucket))
                  (db_spaces db) in
    Ok (scanSpace row))).

Definition is_personal (tenant : string) (subject : SubjectRef) (r : SpaceRow) : bool :=
  (sp_tenant_id r =s tenant) && (sp_kind r =s "personal") &&
  not_null (String.eqb (sr_Source subject)) (sp_personal_source r) &&
  not_null (String.eqb (sr_Kind subject)) (sp_personal_kind r) &&
  not_null (String.eqb (sr_ID subject)) (sp_personal_subject_id r).

Definition GetPersonalSpace (tenant : string) (subject : SubjectRef) : prog SpaceDB Space :=
  run! guard (fun _ => ValidateTenant tenant) in
  run! guard (fun _ => ValidateSubject subject) in
  run! refuse_if (sr_Kind subject <>s User)
         (errorf SpacesErrInvalidArgument "personal subject must be user") in
  spaceRead ctx tenant (reads (fun db =>
    let! row := query_one (is_personal tenant subject) (db_spaces db) in Ok (scanSpace row))).

Definition GetSpaceMember (tenant id : string) (subject : SubjectRef) : prog SpaceDB Member :=
  run! guard (fun _ => ValidateSpaceRef tenant id) in
  run! guard (fun _ => ValidateSubject subject) in
  spaceRead ctx tenant (run! spaceRoot tenant id in spaceMember tenant id subject).

Definition sm_le (a b : MemberRow) : bool := negb (subject_lt (sm_subject b) (sm_subject a)).

Definition ListSpaceMembers (tenant id : string) (page : MemberPage) : prog SpaceDB (list Member) :=
  run! guard (fun _ => ValidateSpaceRef tenant id) in
  run! guard (fun _ => ValidateMemberPage page) in
  spaceRead ctx tenant (
    run! spaceRoot tenant id in
    reads (fun db =>
      let rows := List.filter (fun r => (sm_tenant_id r =s tenant) && (sm_space_id r =s id))
                    (db_members db) in
      let rows := match mp_After page with
                  | Some after => List.filter (fun r => subject_lt after (sm_subject r)) rows
                  | None => rows
                  end in
      Ok (collectSpaceRows (take (Z.to_nat (mp_Limit page)) (sort_by sm_le rows)) scanSpaceMember))).

Definition ListSpacesForSubject (tenant : string) (subject : SubjectRef) (page : SpacePage)
    : prog SpaceDB (list Space) :=
  run! guard (fun _ => ValidateTenant tenant) in
  run! guard (fun _ => ValidateSubject subject) in
  run! guard (fun _ => ValidateSpacePage page) in
  spaceRead ctx tenant (reads (fun db =>
    let mine := map sm_space_id
      (List.filter (fun r => (sm_tenant_id r =s tenant) && bool_decide (sm_subject r = subject) &&
                             (sm_state r =s "active")) (db_members db)) in
    let rows := List.filter (fun r => (sp_tenant_id r =s tenant) && contains mine (sp_id r) &&
                                      String.ltb (sp_AfterID page) (sp_id r)) (db_spaces db) in
    Ok (collectSpaceRows (take (Z.to_nat (sp_Limit page))
          (sort_by (fun a b => text_le (sp_id a) (sp_id b)) rows)) scanSpace))).

Definition ListSpaceHistory (tenant id : string) (page : HistoryPage) : prog SpaceDB (list History) :=
  run! guard (fun _ => ValidateSpaceRef tenant id) in
  run! guard (fun _ => ValidateHistoryPage page) in
  spaceRead ctx tenant (
    run! spaceRoot tenant id in
    reads (fun db =>
      let rows := List.filter (fun r => (sh_tenant_id r =s tenant) && (sh_space_id r =s id) &&
                                        (hp_AfterRevision page <? sh_after_revision r))
                    (db_history db) in
      Ok (collectSpaceRows (take (Z.to_nat (hp_Limit page))
            (sort_by (fun a b => negb (sh_after_revision b <? sh_after_revision a)) rows))
            scanSpaceHistory))).

(** ** Binding observation (sql_spaces_binding.go) *)

Definition invalidBindingRow (detail : string) : error :=
  Wrap ("binding observation " ++ detail) [Sentinel ErrPersistence; Sentinel SpacesErrInvalidArgument].

Definition validateBindingTenantRow (id status : option string) (requested : string) : option error :=
  if negb (Bool.eqb (is_null id) (is_null status)) then Some (invalidBindingRow "partial tenant NULL")
  else if negb (is_null id) && (null_string id <>s requested)
  then Some (invalidBindingRow "tenant mismatch")
  else None.

Definition spaceBindingFromRow (r : BindingResult) (tenant bucket id : option string)
    (revision : option Z) : result BindingResult :=
  let present := length (List.filter negb [is_null tenant; is_null bucket; is_null id; is_null revision]) in
  if Nat.eqb present 0 then Ok r
  else if negb (Nat.eqb present 4) then Err (invalidBindingRow "partial Space NULL")
  else if (null_string tenant <>s br_TenantID r) || (null_string bucket <>s br_Bucket r)
  then Err (invalidBindingRow "Space scope mismatch")
  else Ok {| br_TenantID := br_TenantID r; br_Bucket := br_Bucket r;
             br_TenantKnown := br_TenantKnown r; br_TenantStatus := br_TenantStatus r;
             br_State := BindingBound; br_SpaceID := null_string id;
             br_Revision := default 0 revision |}.

(** [if err != nil { return err }] for a check made while scanning. *)
Definition checked (e : option error) : result unit :=
  match e with Some err => Err err | None => Ok tt end.

Definition scanSpaceBinding (row : BindingRow) (tenant bucket : string) : result BindingResult :=
  check! checked (validateBindingTenantRow (o_tenant_id row) (o_status row) tenant) in
  let r := {| br_TenantID := tenant; br_Bucket := bucket;
              br_TenantKnown := negb (is_null (o_tenant_id row));
              br_TenantStatus := null_string (o_status row); br_State := BindingUnbound;
              br_SpaceID := ""; br_Revision := 0 |} in
  let! r := spaceBindingFromRow r (o_space_tenant row) (o_bucket row) (o_id row) (o_revision row) in
  match ValidateBindingResult r with
  | Some e => Err (Wrap "binding observation" [Sentinel ErrPersistence; e])
  | None => Ok r
  end.

(** [spaceBindingQuery]: the requested row drives both joins. *)
Definition spaceBindingQuery (db : SpaceDB) (tenant bucket : string) : list BindingRow :=
  t ← left_join (fun t => t_tenant_id t =s tenant) (db_tenants db);
  sp ← left_join (fun r => (sp_tenant_id r =s tenant) && (sp_backing_bucket r =s bucket)) (db_spaces db);
  [binding_row t sp].

Definition spaceBindingSQLError (op : string) (err : error) : error :=
  let err := join_ctx ctx err in
  if errors_Is err ErrNoRows then Wrap ("spaces " ++ op) [Sentinel ErrPersistence; err]
  else spaceSQLError ctx op err.

(** A query fails when the context is done. *)
Definition query {A} (rows : list A) : result (list A) :=
  match ctx with Some e => Err e | None => Ok rows end.

(** QueryRow takes the first row. *)
Definition ProbeSpaceBinding (db : SpaceDB) (tenant bucket : string) : result BindingResult :=
  check! checked (ValidateBindingInput tenant bucket) in
  let scanned :=
    let! rows := query (spaceBindingQuery db tenant bucket) in
    match rows with
    | row :: _ => scanSpaceBinding row tenant bucket
    | [] => Err (Sentinel ErrNoRows)
    end in
  match scanned with
  | Ok r => Ok r
  | Err e => Err (spaceBindingSQLError "probe binding" e)
  end.

(** ** Coverage observation (sql_spaces_coverage.go) *)

Definition invalidCoverageRow (detail : string) : error :=
  errorf SpacesErrInvalidArgument ("coverage observation " ++ detail).

Definition scanSpaceCoverageRow (row : BindingRow) (scope : CoverageScope) : result BindingResult :=
  let tenant := if (cs_Kind scope =s CoverageGlobal) then null_string (o_space_tenant row)
                else cs_TenantID scope in
  check! checked (validateBindingTenantRow (o_tenant_id row) (o_status row) tenant) in
  let w := {| br_TenantID := tenant; br_Bucket := null_string (o_bucket row);
              br_TenantKnown := negb (is_null (o_tenant_id row));
              br_TenantStatus := null_string (o_status row); br_State := BindingUnbound;
              br_SpaceID := ""; br_Revision := 0 |} in
  let! w := spaceBindingFromRow w (o_space_tenant row) (o_bucket row) (o_id row) (o_revision row) in
  if (br_State w =s BindingBound) then
    check! checked (ValidateBindingResult w) in Ok w
  else if (cs_Kind scope =s CoverageGlobal) && br_TenantKnown w
  then Err (invalidCoverageRow "global absence with tenant facts")
  else Ok w.

Record spaceCoverageObservation := {
  co_result : CoverageResult; co_observed : bool; co_unbound : bool
}.

Definition coverage_add (o : spaceCoverageObservation) (w : BindingResult)
    : result spaceCoverageObservation :=
  let r := co_result o in
  let tenantScope := (cs_Kind (cr_Scope r) =s CoverageTenant) in
  let absent := (br_State w =s BindingUnbound) in
  check! (if co_observed o && (co_unbound o || absent)
          then Err (invalidCoverageRow "mixed or duplicate absence")
          else if co_observed o && tenantScope &&
                  (negb (Bool.eqb (cr_TenantKnown r) (br_TenantKnown w)) ||
                   (cr_TenantStatus r <>s br_TenantStatus w))
          then Err (invalidCoverageRow "contradictory tenant facts")
          else Ok tt) in
  Ok {| co_result := {|
          cr_Scope := cr_Scope r;
          cr_TenantKnown := if tenantScope then br_TenantKnown w else cr_TenantKnown r;
          cr_TenantStatus := if tenantScope then br_TenantStatus w else cr_TenantStatus r;
          cr_State := if absent then cr_State r else CoverageBound;
          cr_Complete := cr_Complete r;
          cr_Witnesses := if absent then cr_Witnesses r else cr_Witnesses r ++ [w] |};
        co_observed := true; co_unbound := absent |}.

(** The loop over the rows. *)
Fixpoint coverage_scan (scope : CoverageScope) (rows : list BindingRow)
    (o : spaceCoverageObservation) : result spaceCoverageObservation :=
  match rows with
  | [] => Ok o
  | row :: rest =>
      let! w := scanSpaceCoverageRow row scope in
      let! o := coverage_add o w in
      coverage_scan scope rest o
  end.

Definition complete (r : CoverageResult) : CoverageResult := {|
  cr_Scope := cr_Scope r; cr_TenantKnown := cr_TenantKnown r;
  cr_TenantStatus := cr_TenantStatus r; cr_State := cr_State r; cr_Complete := true;
  cr_Witnesses := cr_Witnesses r |}.

Definition scanSpaceCoverage (rows : list BindingRow) (scope : CoverageScope) : result CoverageResult :=
  let start := {|
    co_result := {| cr_Scope := scope; cr_TenantKnown := false; cr_TenantStatus := "";
                    cr_State := CoverageUnbound; cr_Complete := false; cr_Witnesses := [] |};
    co_observed := false; co_unbound := false |} in
  let! o := coverage_scan scope rows start in
  if negb (co_observed o) then Err (Sentinel ErrNoRows)
  else check! checked (ValidateCoverageObservation scope (complete (co_result o))) in
       Ok (complete (co_result o)).

(** ORDER BY sp.backing_bucket, sp.id, after sp.tenant_id in the global query. *)
Definition sp_bucket_le (a b : SpaceRow) : bool :=
  then_by (String.ltb (sp_backing_bucket a) (sp_backing_bucket b))
    (String.ltb (sp_backing_bucket b) (sp_backing_bucket a)) (text_le (sp_id a) (sp_id b)).
Definition sp_global_le (a b : SpaceRow) : bool :=
  then_by (String.ltb (sp_tenant_id a) (sp_tenant_id b))
    (String.ltb (sp_tenant_id b) (sp_tenant_id a)) (sp_bucket_le a b).

(** A tenant has at most one row in tenants, so ordering the spaces orders the rows. *)
Definition spaceCoverageTenantQuery (db : SpaceDB) (tenant : string) : list BindingRow :=
  t ← left_join (fun t => t_tenant_id t =s tenant) (db_tenants db);
  sp ← left_join (fun r => sp_tenant_id r =s tenant) (sort_by sp_bucket_le (db_spaces db));
  [binding_row t sp].

Definition spaceCoverageGlobalQuery (db : SpaceDB) : list BindingRow :=
  sp ← left_join (fun _ => true) (sort_by sp_global_le (db_spaces db));
  t ← left_join (fun t => match sp with
                          | Some r => t_tenant_id t =s sp_tenant_id r
                          | None => false
                          end) (db_tenants db);
  [binding_row t sp].

Definition spaceCoverageSQLError (err : error) : error :=
  Wrap "spaces probe coverage" [Sentinel ErrPersistence; join_ctx ctx err].

Definition ProbeSpaceCoverage (db : SpaceDB) (scope : CoverageScope) : result CoverageResult :=
  check! checked (ValidateCoverageScope scope) in
  let rows := if (cs_Kind scope =s CoverageTenant)
              then spaceCoverageTenantQuery db (cs_TenantID scope)
              else spaceCoverageGlobalQuery db in
  let scanned := let! rows := query rows in scanSpaceCoverage rows scope in
  match scanned with
  | Ok r => Ok r
  | Err e => Err (spaceCoverageSQLError e)
  end.
End WithUUID.
