(* ===== verification/SpacesInvariant.v ===== *)
(** * Runs of the spaces store and its invariant

    What a successful or refused command of [SpacesStore] did: the rows it found, the
    constraints that held and the database it left. *)
From Stdlib Require Import Lia Bool ZArith Ascii.
From stdpp Require Import base strings list numbers sorting.
From S2P Require Import Prelude GoStrings GoTime GoErrors Sql Spaces SpacesStore.

Open Scope Z_scope.

(** ** Constraints *)

Lemma violation_None tests :
  violation tests = None <-> Forall (fun t => fst t = false) tests.
Proof.
  induction tests as [|[bad e] tests IH]; cbn; [split; [constructor|done]|].
  rewrite Forall_cons. cbn. rewrite <- IH. destruct bad; intuition discriminate.
Qed.

Ltac no_violation :=
  unfold space_violation, member_violation, history_violation;
  rewrite violation_None, !list.Forall_cons; cbn [fst];
  rewrite ?negb_false_iff, ?clash_true, ?clash_false; intuition idtac.

Lemma space_violation_None d db r :
  space_violation d db r = None ->
  check_space r = true /\ space_key r ∉ map space_key (db_spaces db) /\
  space_bucket_key r ∉ map space_bucket_key (db_spaces db) /\
  sp_tenant_id r ∈ map t_tenant_id (db_tenants db) /\
  space_bucket_key r ∈ map bucket_key (db_buckets db).
Proof. no_violation. Qed.

(** A subject has one personal space in a tenant. *)
Lemma personal_violation_None d db r o :
  space_violation d db r = None -> sp_kind r = "personal"%string -> o ∈ db_spaces db ->
  sp_kind o = "personal"%string -> personal_key o <> personal_key r.
Proof.
  unfold space_violation. rewrite violation_None, !list.Forall_cons. cbn [fst].
  intros (_ & _ & _ & Hp & _) Hr Ho Hk Heq. rewrite Hr in Hp. cbn in Hp.
  rewrite existsb_none in Hp. specialize (Hp o Ho). rewrite Hk, Heq in Hp. cbn in Hp.
  by rewrite bool_decide_eq_true_2 in Hp.
Qed.

Lemma member_violation_None d db r :
  member_violation d db r = None ->
  check_member r = true /\ member_key r ∉ map member_key (db_members db) /\
  member_space r ∈ map space_key (db_spaces db).
Proof. no_violation. Qed.

Lemma history_violation_None d db r :
  history_violation d db r = None ->
  check_history r = true /\ history_key r ∉ map history_key (db_history db) /\
  command_key r ∉ map command_key (db_history db) /\
  history_space r ∈ map space_key (db_spaces db).
Proof. no_violation. Qed.

(** ** Statements and transactions *)

Lemma spaceOneRow_insert {A} bad put (row : A) db db' u :
  spaceOneRow (insert_row bad put row) db = (db', Ok u) -> bad db row = None /\ db' = put row db.
Proof.
  unfold spaceOneRow, insert_row, bind. destruct (bad db row); [done|]. cbn. by intros [= <-].
Qed.

Lemma begin_tx_Ok ctx op db db' u : begin_tx ctx op db = (db', Ok u) -> db' = db /\ ctx = None.
Proof.
  unfold begin_tx. intros [-> Hc]%guard_Ok. by destruct ctx.
Qed.

(** The tenant is registered and active. *)
Definition tenant_active (db : SpaceDB) (tenant : string) : Prop :=
  exists row, List.find (fun t => t_tenant_id t =s tenant) (db_tenants db) = Some row /\
              t_status row = "active".

Lemma spaceTenant_Ok tenant db db' u :
  spaceTenant tenant db = (db', Ok u) -> db' = db /\ tenant_active db tenant.
Proof.
  unfold spaceTenant. intros [-> Ht]%guard_Ok. split; [done|].
  destruct (query_one _ _) as [row|e] eqn:E; [|by destruct (errors_Is e ErrNoRows)].
  apply query_one_Ok in E. exists row. split; [done|].
  destruct (String.eqb_spec (t_status row) "active"); [done|discriminate].
Qed.

Ltac store_inv :=
  repeat (prog_inv; match goal with
  | H : in_tx _ _ = (_, Ok _) |- _ => apply in_tx_Ok in H
  | H : map_err _ _ _ = (_, Ok _) |- _ => apply map_err_Ok in H
  | H : begin_tx _ _ _ = (_, Ok _) |- _ => apply begin_tx_Ok in H as [-> H]
  | H : spaceOneRow (insert_row _ _ _) _ = (_, Ok _) |- _ =>
      apply spaceOneRow_insert in H as [H ->]
  | H : spaceTenant _ _ = (_, Ok _) |- _ => apply spaceTenant_Ok in H as [-> H]
  end); prog_inv.

Section Runs.
Context `{UUIDLib}.

(** ** Creating a space *)

Definition created_rows (d : dialect) (now : time) (id : UUID) (c : CreateCommand) (db : SpaceDB) : SpaceDB :=
  let v := new_space now c in
  put_history (history_row (uuid_String id) (create_history v c))
    (put_member (member_row (first_member v c)) (put_space (space_row v) (put_bucket (bucket_row d v) db))).

Lemma CreateSpace_Ok d ctx now newid c db db' v :
  CreateSpace d ctx now newid c db = (db', Ok v) ->
  ctx = None /\ ValidateCreate c = None /\ v = new_space now c /\
  tenant_active db (cc_TenantID c) /\
  exists id, newid = Ok id /\ db' = created_rows d now id c db /\
    let db1 := put_bucket (bucket_row d v) db in
    let db2 := put_space (space_row v) db1 in
    let db3 := put_member (member_row (first_member v c)) db2 in
    bucket_violation d db (bucket_row d v) = None /\
    space_violation d db1 (space_row v) = None /\
    member_violation d db2 (member_row (first_member v c)) = None /\
    history_violation d db3 (history_row (uuid_String id) (create_history v c)) = None.
Proof.
  unfold CreateSpace. intros Hc. store_inv.
  unfold spaceCreateRows, spaceInsertRoot, spaceInsertMember, spaceAppendHistory in *.
  subst. destruct d; store_inv; subst; repeat split; try done; eexists; repeat split; eauto.
Qed.

(** ** Changing a member *)

Definition cas_hit (c : MemberCommand) (r : SpaceRow) : bool :=
  is_space (mc_TenantID c) (mc_SpaceID c) r && (sp_revision r =? mc_ExpectedRevision c).

Definition cas_rows (c : MemberCommand) (now : time) (db : SpaceDB) : SpaceDB :=
  set_spaces (update_where (cas_hit c) (bump_revision (mc_Actor c) now) (db_spaces db)) db.

Lemma spaceCAS_Ok d c now db db' u :
  spaceCAS d c now db = (db', Ok u) ->
  tenant_active db (mc_TenantID c) /\ db' = cas_rows c now db /\
  exists s, List.filter (cas_hit c) (db_spaces db) = [s] /\
  check_space (bump_revision (mc_Actor c) now s) = true.
Proof.
  unfold spaceCAS, update_rows. fold (cas_hit c). intros (db1 & n & Hu & Hc)%bind_Ok.
  destruct (existsb _ _) eqn:Hchk; [done|]. injection Hu as <- <-. store_inv.
  destruct (Z.eqb_spec (Z.of_nat (length (List.filter (cas_hit c) (db_spaces db)))) 1) as [Hn|Hn].
  - store_inv. split; [exact Hrun|]. split; [done|].
    destruct (List.filter _ _) as [|s [|]] eqn:E; cbn in Hn; try lia.
    exists s. split; [done|]. cbn in Hchk. by destruct (check_space _).
  - store_inv.
Qed.

(** The member row the command found, and the member it writes. *)
Definition found_row (c : MemberCommand) (db : SpaceDB) : option MemberRow :=
  List.find (is_member (mc_TenantID c) (mc_SpaceID c) (mc_Target c)) (db_members db).
Definition before_of (found : option MemberRow) : Member :=
  default zeroMember (scanSpaceMember <$> found).
Definition after_of (c : MemberCommand) (now : time) (found : option MemberRow) : Member :=
  spaceMemberAfter c (before_of found) now.
Definition history_of (id : UUID) (c : MemberCommand) (now : time) (found : option MemberRow)
    : HistoryRow :=
  history_row (uuid_String id)
    (member_history c (before_of found) (after_of c now found) (bool_decide (is_Some found)) now).

Definition member_rows (c : MemberCommand) (now : time) (db : SpaceDB) : SpaceDB :=
  let after := after_of c now (found_row c db) in
  if (mc_Action c =s AddMember) then put_member (member_row after) db
  else set_members (update_where (is_member (m_TenantID after) (m_SpaceID after) (m_Subject after))
                      (set_member after) (db_members db)) db.

Definition changed_rows (id : UUID) (c : MemberCommand) (now : time) (db : SpaceDB) : SpaceDB :=
  put_history (history_of id c now (found_row c db)) (member_rows c now (cas_rows c now db)).

Lemma memberBefore_run c db :
  memberBefore c db = (db, Ok (scanSpaceMember <$> found_row c db)).
Proof.
  unfold memberBefore, spaceMember, reads, found_row, query_one. by destruct (List.find _ _).
Qed.

Lemma present_scan {A B} (f : A -> B) (o : option A) :
  bool_decide (is_Some (f <$> o)) = bool_decide (is_Some o).
Proof. by destruct o. Qed.

Lemma spaceUpdateMember_Ok d m db db' u :
  spaceUpdateMember d m db = (db', Ok u) ->
  let hit := is_member (m_TenantID m) (m_SpaceID m) (m_Subject m) in
  (exists r, List.filter hit (db_members db) = [r] /\ check_member (set_member m r) = true) /\
  db' = set_members (update_where hit (set_member m) (db_members db)) db.
Proof.
  unfold spaceUpdateMember, spaceOneRow, update_rows. intros (db1 & n & Hu & Hc)%bind_Ok.
  destruct (existsb _ _) eqn:Hchk; [done|]. injection Hu as <- <-. prog_inv.
  split; [|done]. rewrite negb_false_iff, Z.eqb_eq in Hc.
  destruct (List.filter _ _) as [|r [|]]; cbn in Hc; try lia. exists r.
  split; [done|]. cbn in Hchk. by destruct (check_member _).
Qed.

Lemma spaceChangeMemberRows_Ok d newid c now db db' u :
  spaceChangeMemberRows d newid c now db = (db', Ok u) ->
  let found := found_row c db in
  let before := before_of found in
  let after := after_of c now found in
  spaceMemberState c before (bool_decide (is_Some found)) = None /\
  spaceProtectAdmin before after db = (db, Ok tt) /\
  (if (mc_Action c =s AddMember) then member_violation d db (member_row after) = None
   else exists r, List.filter (is_member (m_TenantID after) (m_SpaceID after) (m_Subject after))
                    (db_members db) = [r] /\ check_member (set_member after r) = true) /\
  exists id, newid = Ok id /\
  history_violation d (member_rows c now db) (history_of id c now found) = None /\
  db' = put_history (history_of id c now found) (member_rows c now db).
Proof.
  unfold spaceChangeMemberRows. intros (db1 & m & Hm & Hc)%bind_Ok.
  rewrite memberBefore_run in Hm. injection Hm as <- <-.
  rewrite present_scan in Hc. store_inv.
  destruct v0.
  assert (st0 = db) as -> by (unfold spaceProtectAdmin in Hrun0; by apply guard_Ok in Hrun0 as [-> _]).
  unfold spaceAppendHistory in Hc. store_inv.
  split; [done|]. split; [done|]. unfold member_rows.
  change (default zeroMember (scanSpaceMember <$> found_row c db)) with (before_of (found_row c db)) in *.
  change (spaceMemberAfter c (before_of (found_row c db)) now) with (after_of c now (found_row c db)) in *.
  destruct (mc_Action c =s AddMember).
  - apply spaceOneRow_insert in Hrun1 as [Hv ->]. split; [done|]. eauto.
  - apply spaceUpdateMember_Ok in Hrun1 as [Hr ->]. split; [done|]. eauto.
Qed.

Lemma ChangeSpaceMember_Ok d ctx now newid c db db' n :
  ChangeSpaceMember d ctx now newid c db = (db', Ok n) ->
  ctx = None /\ ValidateMemberCommand c = None /\ n = wrap64 (mc_ExpectedRevision c + 1) /\
  tenant_active db (mc_TenantID c) /\
  (exists s, List.filter (cas_hit c) (db_spaces db) = [s] /\
     check_space (bump_revision (mc_Actor c) now s) = true) /\
  spaceChangeMemberRows d newid c now (cas_rows c now db) = (db', Ok tt).
Proof.
  unfold ChangeSpaceMember. intros Hc. store_inv.
  apply spaceCAS_Ok in Hrun2 as (Ht & -> & Hs). subst n. by destruct v1.
Qed.
End Runs.

(** ** The invariant of the spaces store

    Over every interleaving of the store's commands with changes of the tenants and
    buckets tables by the rest of the program: every space keeps an active user admin,
    its revision counts the entries of its history one by one, and the membership table
    is what replaying the history gives. *)
Open Scope Z_scope.

(** ** Replaying the history *)

Definition history_in (tenant id : string) (h : HistoryRow) : bool :=
  (sh_tenant_id h =s tenant) && (sh_space_id h =s id).
Definition history_about (tenant id : string) (subject : SubjectRef) (h : HistoryRow) : bool :=
  history_in tenant id h && bool_decide (sh_target h = subject).

(** The last entry about a subject in a space. *)
Definition last_entry (tenant id : string) (subject : SubjectRef) (hs : list HistoryRow)
    : option HistoryRow :=
  list.last (List.filter (history_about tenant id subject) hs).

(** Role, state, revision, author and time of the last change. *)
Definition member_facts (m : MemberRow) : string * string * Z * SubjectRef * Z :=
  (sm_role m, sm_state m, sm_changed_revision m, sm_changed_by m, sm_updated_at_ns m).
Definition entry_facts (h : HistoryRow) : string * string * Z * SubjectRef * Z :=
  (sh_after_role h, sh_after_state h, sh_after_revision h, sh_actor h, sh_occurred_at_ns h).

Definition find_member (tenant id : string) (subject : SubjectRef) (ms : list MemberRow) :=
  List.find (is_member tenant id subject) ms.

(** An entry's before columns are the after columns of the previous entry about its target. *)
Definition chained (before : list HistoryRow) (h : HistoryRow) : Prop :=
  let prev := last_entry (sh_tenant_id h) (sh_space_id h) (sh_target h) before in
  sh_before_role h = sh_after_role <$> prev /\ sh_before_state h = sh_after_state <$> prev.

Section Inv.
Context `{UUIDLib}.

Record spaces_inv (db : SpaceDB) : Prop := {
  si_tenants : NoDup (map t_tenant_id (db_tenants db));
  si_space_key : NoDup (map space_key (db_spaces db));
  si_bucket_key : NoDup (map space_bucket_key (db_spaces db));
  si_member_key : NoDup (map member_key (db_members db));
  si_command_key : NoDup (map command_key (db_history db));
  si_tenant_fk : forall s, s ∈ db_spaces db -> sp_tenant_id s ∈ map t_tenant_id (db_tenants db);
  si_bucket_fk : forall s, s ∈ db_spaces db -> space_bucket_key s ∈ map bucket_key (db_buckets db);
  si_member_fk : forall m, m ∈ db_members db -> member_space m ∈ map space_key (db_spaces db);
  si_history_fk : forall h, h ∈ db_history db -> history_space h ∈ map space_key (db_spaces db);
  si_spaces : forall s, s ∈ db_spaces db ->
    check_space s = true /\ ValidateTenant (sp_tenant_id s) = None /\
    ValidateID (sp_id s) = None /\ sp_backing_bucket s = ("spc-" ++ sp_id s)%string;
  si_members : forall m, m ∈ db_members db -> check_member m = true;
  si_subjects : forall m, m ∈ db_members db -> ValidateSubject (sm_subject m) = None;
  si_admin : forall s, s ∈ db_spaces db ->
    exists m, m ∈ db_members db /\ is_admin (sp_tenant_id s) (sp_id s) m = true;
  si_revisions : forall s, s ∈ db_spaces db ->
    map sh_after_revision (List.filter (history_in (sp_tenant_id s) (sp_id s)) (db_history db)) =
    seqZ 1 (sp_revision s);
  si_replay : forall tenant id subject,
    member_facts <$> find_member tenant id subject (db_members db) =
    entry_facts <$> last_entry tenant id subject (db_history db);
  si_chain : forall before h after, db_history db = before ++ h :: after -> chained before h
}.

(** The store's commands in one dialect, and changes of tenants and buckets elsewhere,
    which the foreign keys (ON DELETE RESTRICT) confine. *)
Inductive spaces_step (d : dialect) : SpaceDB -> SpaceDB -> Prop :=
| step_create ctx now newid c db :
    spaces_step d db (fst (CreateSpace d ctx now newid c db))
| step_change ctx now newid c db :
    spaces_step d db (fst (ChangeSpaceMember d ctx now newid c db))
| step_elsewhere tenants buckets db :
    NoDup (map t_tenant_id tenants) ->
    (forall s, s ∈ db_spaces db -> sp_tenant_id s ∈ map t_tenant_id tenants) ->
    (forall s, s ∈ db_spaces db -> space_bucket_key s ∈ map bucket_key buckets) ->
    spaces_step d db {| db_tenants := tenants; db_buckets := buckets; db_spaces := db_spaces db;
                        db_members := db_members db; db_history := db_history db |}.

(** The tables the migration creates. *)
Definition migrated (tenants : list TenantRow) (buckets : list BucketRow) : SpaceDB :=
  {| db_tenants := tenants; db_buckets := buckets; db_spaces := []; db_members := [];
     db_history := [] |}.

Inductive spaces_reachable (d : dialect) : SpaceDB -> Prop :=
| reach_migrated tenants buckets :
    NoDup (map t_tenant_id tenants) -> spaces_reachable d (migrated tenants buckets)
| reach_step db db' :
    spaces_reachable d db -> spaces_step d db db' -> spaces_reachable d db'.
End Inv.

(** ** Lists *)

Lemma find_None_map {A K} `{EqDecision K} (key : A -> K) l k :
  k ∉ map key l <-> List.find (fun x => bool_decide (key x = k)) l = None.
Proof.
  rewrite <- clash_false. unfold clash.
  induction l as [|x l IH]; cbn; [done|]. by destruct (bool_decide (key x = k)).
Qed.

(** Two rows hit by a test with distinct keys: one can go. *)
Lemma another {A K} (key : A -> K) (l : list A) x :
  NoDup (map key l) -> x ∈ l -> (2 <= length l)%nat -> exists y, y ∈ l /\ key y <> key x.
Proof.
  destruct l as [|a [|b l]]; cbn; try lia. intros [Ha Hb]%list.NoDup_cons Hx _.
  apply elem_of_cons in Hx as [->|Hx].
  - exists b. split; [by right; left|]. intros Hk. apply Ha. rewrite <- Hk. by left.
  - exists a. split; [by left|]. intros Hk. apply Ha. rewrite Hk.
    apply (list_elem_of_fmap_2 key (b :: l) x Hx).
Qed.

(** The unique row a keyed update rewrites. *)
Lemma find_update {A K} `{EqDecision K} (key : A -> K) (f : A -> A) l k k' :
  (forall x, key (f x) = key x) ->
  List.find (fun x => bool_decide (key x = k)) (update_where (fun x => bool_decide (key x = k')) f l) =
  (if bool_decide (k = k') then fmap f else id) (List.find (fun x => bool_decide (key x = k)) l).
Proof.
  intros Hk. unfold update_where. induction l as [|x l IH]; cbn; [by case_bool_decide|].
  rewrite IH. clear IH. destruct (bool_decide (key x = k')) eqn:E1; rewrite ?Hk;
    destruct (bool_decide (key x = k)) eqn:E2; destruct (bool_decide (k = k')) eqn:E3; cbn; try done;
    repeat match goal with
    | E : bool_decide _ = true |- _ => apply bool_decide_eq_true in E
    | E : bool_decide _ = false |- _ => apply bool_decide_eq_false in E
    end; congruence.
Qed.

(** ** Entries of other spaces *)

Lemma history_in_true tenant id h :
  history_in tenant id h = true <-> history_space h = (tenant, id).
Proof.
  unfold history_in, history_space. rewrite andb_true_iff, !streqb_true. split; [by intros [-> ->]|by intros [= -> ->]].
Qed.

Lemma history_about_true tenant id subject h :
  history_about tenant id subject h = true <->
  (sh_tenant_id h, sh_space_id h, sh_target h) = (tenant, id, subject).
Proof.
  unfold history_about. rewrite andb_true_iff, history_in_true, bool_decide_eq_true. unfold history_space.
  split; [by intros [[= -> ->] ->]|by intros [= -> -> ->]].
Qed.

Lemma is_member_true tenant id subject m :
  is_member tenant id subject m = true <-> member_key m = (tenant, id, subject).
Proof. unfold is_member. by rewrite bool_decide_eq_true. Qed.

Lemma is_space_true tenant id s : is_space tenant id s = true <-> space_key s = (tenant, id).
Proof.
  unfold is_space, space_key. rewrite andb_true_iff, !streqb_true. split; [by intros [-> ->]|by intros [= -> ->]].
Qed.

Lemma last_entry_snoc tenant id subject hs h :
  last_entry tenant id subject (hs ++ [h]) =
  if history_about tenant id subject h then Some h else last_entry tenant id subject hs.
Proof.
  unfold last_entry. rewrite filter_snoc. destruct (history_about _ _ _ h).
  - apply last_snoc.
  - by rewrite app_nil_r.
Qed.

Lemma chain_snoc hs h :
  (forall before x after, hs = before ++ x :: after -> chained before x) -> chained hs h ->
  forall before x after, hs ++ [h] = before ++ x :: after -> chained before x.
Proof.
  intros Hc Hh before x after Heq. destruct after as [|y after _] using rev_ind.
  - apply app_inj_tail in Heq as [-> ->]. done.
  - rewrite app_comm_cons, app_assoc in Heq. apply app_inj_tail in Heq as [-> _]. by eapply Hc.
Qed.

Section Create.
Context `{UUIDLib}.

(** A key no space has is free in the tables that refer to spaces. *)
Lemma fresh_space db tenant id :
  spaces_inv db -> (tenant, id) ∉ map space_key (db_spaces db) ->
  (forall m, m ∈ db_members db -> member_space m <> (tenant, id)) /\
  (forall h, h ∈ db_history db -> history_in tenant id h = false).
Proof.
  intros Hi Hf. split.
  - intros m Hm Heq. apply Hf. rewrite <- Heq. by apply (si_member_fk db Hi).
  - intros h Hh. destruct (history_in tenant id h) eqn:E; [|done].
    apply history_in_true in E. destruct Hf. rewrite <- E. by apply (si_history_fk db Hi).
Qed.

Lemma fresh_last_entry db tenant id subject :
  spaces_inv db -> (tenant, id) ∉ map space_key (db_spaces db) ->
  last_entry tenant id subject (db_history db) = None.
Proof.
  intros Hi Hf. unfold last_entry. rewrite filter_none; [done|].
  intros h Hh. unfold history_about. by rewrite (proj2 (fresh_space db tenant id Hi Hf) h Hh).
Qed.

Lemma ValidateCreate_parts c :
  ValidateCreate c = None ->
  ValidateTenant (cc_TenantID c) = None /\ ValidateID (cc_ID c) = None /\
  ValidateSubject (cc_Actor c) = None /\ sr_Kind (cc_Actor c) = "user".
Proof.
  unfold ValidateCreate, validateCommand, ValidateSpaceRef. rewrite !andThen_None.
  intros (([Ht Hid] & _ & Ha & _) & Hk). split; [done|]. split; [done|]. split; [done|].
  destruct (_ && _); [done|]. destruct (String.eqb_spec (sr_Kind (cc_Actor c)) "user"); [done|discriminate].
Qed.

(** A new space, its first member and its first entry. *)
Record first_rows (db : SpaceDB) (s : SpaceRow) (m : MemberRow) (h : HistoryRow) : Prop := {
  fr_check : check_space s = true /\ ValidateTenant (sp_tenant_id s) = None /\
    ValidateID (sp_id s) = None /\ sp_backing_bucket s = ("spc-" ++ sp_id s)%string;
  fr_key : space_key s ∉ map space_key (db_spaces db);
  fr_bucket : space_bucket_key s ∉ map space_bucket_key (db_spaces db);
  fr_tenant : sp_tenant_id s ∈ map t_tenant_id (db_tenants db);
  fr_revision : sp_revision s = 1;
  fr_member : check_member m = true;
  fr_subject : ValidateSubject (sm_subject m) = None;
  fr_admin : is_admin (sp_tenant_id s) (sp_id s) m = true;
  fr_history : history_space h = space_key s;
  fr_target : sh_target h = sm_subject m;
  fr_command : command_key h ∉ map command_key (db_history db);
  fr_before : sh_before_role h = None /\ sh_before_state h = None;
  fr_after : sh_after_revision h = 1;
  fr_facts : member_facts m = entry_facts h
}.

Lemma is_admin_space tenant id m : is_admin tenant id m = true -> member_space m = (tenant, id).
Proof.
  unfold is_admin, member_space. rewrite !andb_true_iff, !streqb_true.
  by intros ((((-> & ->) & _) & _) & _).
Qed.

Lemma first_rows_replay db s m h tenant id subject :
  spaces_inv db -> first_rows db s m h ->
  member_facts <$> find_member tenant id subject (db_members db ++ [m]) =
  entry_facts <$> last_entry tenant id subject (db_history db ++ [h]).
Proof.
  intros Hi []. rewrite last_entry_snoc. unfold find_member. rewrite find_snoc.
  pose proof (si_replay db Hi tenant id subject) as Hr. unfold find_member in Hr.
  apply is_admin_space in fr_admin0 as Hms.
  assert (history_about tenant id subject h = is_member tenant id subject m) as ->.
  { apply eq_bool_prop_intro. rewrite !Is_true_true, history_about_true, is_member_true.
    unfold member_key, member_space, history_space in *. rewrite fr_target0.
    injection Hms as -> ->. injection fr_history0 as -> ->. done. }
  destruct (is_member tenant id subject m) eqn:E; [|by destruct (List.find _ _)].
  apply is_member_true in E.
  rewrite (fresh_last_entry db tenant id subject Hi) in Hr;
    [destruct (List.find _ _); [done|]; cbn; by f_equal|].
  injection E as <- <- <-. change (member_space m ∉ map space_key (db_spaces db)). by rewrite Hms.
Qed.

Lemma elem_snoc {A} (x y : A) l : x ∈ l ++ [y] <-> x ∈ l \/ x = y.
Proof. by rewrite elem_of_app, list_elem_of_singleton. Qed.

Lemma map_snoc_elem {A B} (f : A -> B) l x b : b ∈ map f l -> b ∈ map f (l ++ [x]).
Proof. rewrite map_app, elem_of_app. by left. Qed.

Lemma first_rows_inv db buckets s m h :
  spaces_inv db -> first_rows db s m h ->
  (forall s', s' ∈ db_spaces db ++ [s] -> space_bucket_key s' ∈ map bucket_key buckets) ->
  spaces_inv {| db_tenants := db_tenants db; db_buckets := buckets;
                db_spaces := db_spaces db ++ [s]; db_members := db_members db ++ [m];
                db_history := db_history db ++ [h] |}.
Proof.
  intros Hi Hf Hb.
  pose proof (fun t i sub => first_rows_replay db s m h t i sub Hi Hf) as Hrep.
  destruct (fresh_space db _ _ Hi (fr_key _ _ _ _ Hf)) as [Hfm Hfh].
  pose proof (fresh_last_entry db _ _ (sh_target h) Hi (fr_key _ _ _ _ Hf)) as Hfl.
  destruct Hf, Hi. apply is_admin_space in fr_admin0 as Hms.
  split; cbn; try done; try setoid_rewrite elem_snoc.
  - apply NoDup_map_snoc; [done|]. intros y Hy Hk. apply fr_key0. rewrite <- Hk. by apply list_elem_of_fmap_2.
  - apply NoDup_map_snoc; [done|]. intros y Hy Hk. apply fr_bucket0. rewrite <- Hk. by apply list_elem_of_fmap_2.
  - apply NoDup_map_snoc; [done|]. intros y Hy Hk. apply (Hfm y Hy).
    unfold member_key, member_space, space_key in *. congruence.
  - apply NoDup_map_snoc; [done|]. intros y Hy Hk. apply fr_command0. rewrite <- Hk. by apply list_elem_of_fmap_2.
  - intros s' [Hs'| ->]; auto.
  - intros m' [Hm'| ->]; [by apply map_snoc_elem, si_member_fk0|].
    rewrite map_app, elem_of_app. right. rewrite Hms. by left.
  - intros h' [Hh'| ->]; [by apply map_snoc_elem, si_history_fk0|].
    rewrite map_app, elem_of_app. right. rewrite fr_history0. by left.
  - intros s' [Hs'| ->]; auto.
  - intros m' [Hm'| ->]; auto.
  - intros m' [Hm'| ->]; auto.
  - intros s' [Hs'| ->]; [|exists m; split; [by right|done]].
    destruct (si_admin0 s' Hs') as (m' & Hm' & Ha). exists m'. split; [by left|done].
  - intros s' Hs'. rewrite filter_snoc, map_app.
    destruct Hs' as [Hs'| ->].
    + destruct (history_in (sp_tenant_id s') (sp_id s') h) eqn:E; [|by rewrite app_nil_r, si_revisions0].
      apply history_in_true in E. destruct fr_key0. rewrite <- fr_history0, E.
      by apply (list_elem_of_fmap_2 space_key _ s').
    + rewrite (filter_none _ _ Hfh). rewrite (proj2 (history_in_true _ _ h)) by done.
      cbn. by rewrite fr_after0, fr_revision0.
  - apply chain_snoc; [done|]. unfold chained. injection fr_history0 as -> ->. rewrite Hfl. done.
Qed.

Lemma create_inv d ctx now newid c db db' v :
  spaces_inv db -> CreateSpace d ctx now newid c db = (db', Ok v) -> spaces_inv db'.
Proof.
  intros Hi (_ & Hval & -> & _ & id & _ & -> & _ & Hs & Hm & Hh)%CreateSpace_Ok.
  apply ValidateCreate_parts in Hval as (Hten & Hid & Hact & Hk).
  apply space_violation_None in Hs as (Hsc & Hsk & Hsb & Hst & Hsbk).
  apply member_violation_None in Hm as (Hmc & Hmk & _).
  apply history_violation_None in Hh as (_ & _ & Hhc & _).
  apply (first_rows_inv db); [done| |].
  - split; try done. unfold is_admin. cbn. by rewrite !streqb_refl, Hk.
  - intros s' [Hs'| ->]%elem_snoc; [|done]. cbn.
    by apply map_snoc_elem, (si_bucket_fk db Hi).
Qed.
End Create.

Section Change.
Context `{UUIDLib}.

Lemma check_space_revision s : check_space s = true -> 1 <= sp_revision s <= MaxInt64.
Proof.
  unfold check_space, int_from. rewrite !andb_true_iff, !Z.leb_le. intros Hc. destruct_and! Hc. lia.
Qed.

Lemma ValidateMemberCommand_revision c :
  ValidateMemberCommand c = None ->
  1 <= mc_ExpectedRevision c /\ mc_ExpectedRevision c <> MaxInt64.
Proof.
  unfold ValidateMemberCommand. rewrite !andThen_None. intros (_ & _ & Hv).
  destruct (Z.ltb_spec (mc_ExpectedRevision c) 1); [done|].
  destruct (Z.eqb_spec (mc_ExpectedRevision c) MaxInt64); [done|]. lia.
Qed.

Lemma ValidateMemberCommand_target c :
  ValidateMemberCommand c = None -> ValidateSubject (mc_Target c) = None.
Proof. unfold ValidateMemberCommand. rewrite !andThen_None. by intros (_ & Ht & _). Qed.

(** The space the compare-and-set hit. *)
Lemma cas_hit_row c db s :
  List.filter (cas_hit c) (db_spaces db) = [s] ->
  s ∈ db_spaces db /\ space_key s = (mc_TenantID c, mc_SpaceID c) /\
  sp_revision s = mc_ExpectedRevision c /\ cas_hit c s = true.
Proof.
  intros Hf. assert (s ∈ List.filter (cas_hit c) (db_spaces db)) as Hs by (rewrite Hf; by left).
  apply elem_filter_b in Hs as [Hs Hh]. unfold cas_hit in Hh. split; [done|].
  pose proof Hh as Hh'. rewrite andb_true_iff, is_space_true, Z.eqb_eq in Hh. destruct Hh. done.
Qed.

(** The row the command addresses is the row it writes. *)
Lemma after_key c now db :
  spaceMemberState c (before_of (found_row c db)) (bool_decide (is_Some (found_row c db))) = None ->
  m_TenantID (after_of c now (found_row c db)) = mc_TenantID c /\
  m_SpaceID (after_of c now (found_row c db)) = mc_SpaceID c /\
  m_Subject (after_of c now (found_row c db)) = mc_Target c.
Proof.
  unfold spaceMemberState, after_of, spaceMemberAfter. cbn.
  destruct (mc_Action c =s AddMember); [done|].
  destruct (found_row c db) as [r|] eqn:E; [|done]. intros _. cbn.
  apply find_some in E as [_ E]. apply is_member_true in E. by injection E as -> -> ->.
Qed.

Lemma add_iff_absent c db :
  spaceMemberState c (before_of (found_row c db)) (bool_decide (is_Some (found_row c db))) = None ->
  (mc_Action c =s AddMember) = is_null (found_row c db).
Proof.
  unfold spaceMemberState. destruct (mc_Action c =s AddMember), (found_row c db); cbn; try done.
  by destruct (_ =s Revoked).
Qed.

(** What a member command did to the membership table. *)
Record member_write (c : MemberCommand) (now : time) (db : SpaceDB) (ms : list MemberRow) : Prop := {
  mw_keys : map member_key ms =
    map member_key (db_members db) ++
    (if is_null (found_row c db) then [(mc_TenantID c, mc_SpaceID c, mc_Target c)] else []);
  mw_check : forall m, m ∈ ms -> m ∈ db_members db \/ check_member m = true;
  mw_fresh : is_null (found_row c db) = true ->
    (mc_TenantID c, mc_SpaceID c, mc_Target c) ∉ map member_key (db_members db);
  mw_find : forall tenant id subject,
    member_facts <$> find_member tenant id subject ms =
    if bool_decide ((tenant, id, subject) = (mc_TenantID c, mc_SpaceID c, mc_Target c))
    then Some (member_facts (member_row (after_of c now (found_row c db))))
    else member_facts <$> find_member tenant id subject (db_members db);
  mw_others : forall m, m ∈ db_members db ->
    member_key m <> (mc_TenantID c, mc_SpaceID c, mc_Target c) -> m ∈ ms
}.

Lemma set_member_facts m r : member_facts (set_member m r) = member_facts (member_row m).
Proof. done. Qed.

Lemma found_null c db :
  is_null (found_row c db) = true <->
  (mc_TenantID c, mc_SpaceID c, mc_Target c) ∉ map member_key (db_members db).
Proof.
  rewrite find_None_map. unfold found_row, is_member. by destruct (List.find _ _).
Qed.

Lemma member_write_add c now db :
  is_null (found_row c db) = true -> 
  member_key (member_row (after_of c now (found_row c db))) = (mc_TenantID c, mc_SpaceID c, mc_Target c) ->
  check_member (member_row (after_of c now (found_row c db))) = true ->
  member_write c now db (db_members db ++ [member_row (after_of c now (found_row c db))]).
Proof.
  intros Hn Hk Hc. pose proof (proj1 (found_null c db) Hn) as Hf. split.
  - rewrite Hn, map_app. cbn. by rewrite Hk.
  - intros m [Hm| ->]%elem_snoc; auto.
  - done.
  - intros tenant id subject. unfold find_member. rewrite find_snoc.
    unfold is_member. rewrite Hk. case_bool_decide as E.
    + rewrite <- E. rewrite bool_decide_eq_true_2 by done. apply find_None_map in Hf. by rewrite Hf.
    + rewrite bool_decide_eq_false_2 by congruence. by destruct (List.find _ _).
  - intros m Hm _. apply elem_snoc. by left.
Qed.

Lemma member_write_update c now db r :
  is_null (found_row c db) = false ->
  List.filter (is_member (mc_TenantID c) (mc_SpaceID c) (mc_Target c)) (db_members db) = [r] ->
  check_member (set_member (after_of c now (found_row c db)) r) = true ->
  member_write c now db
    (update_where (is_member (mc_TenantID c) (mc_SpaceID c) (mc_Target c))
       (set_member (after_of c now (found_row c db))) (db_members db)).
Proof.
  intros Hn Hf Hc. split.
  - rewrite Hn, app_nil_r. by apply map_update_where.
  - intros m [(x & Hx & Hh & ->)|[Hm _]]%elem_update_where; [right|by left].
    assert (x ∈ [r]) as Hr by (rewrite <- Hf; by apply elem_filter_b).
    apply list_elem_of_singleton in Hr as ->. done.
  - congruence.
  - intros tenant id subject. unfold find_member, is_member.
    rewrite find_update by done. case_bool_decide as E; [|done]. rewrite E.
    unfold found_row, is_member in Hn. destruct (List.find _ _) eqn:F; [|done]. cbn.
    by rewrite set_member_facts.
  - intros m Hm Hk. apply elem_update_where. right. split; [done|].
    destruct (is_member _ _ _ m) eqn:E; [|done]. by apply is_member_true in E.
Qed.

(** A member command that went through: the rows before and after. *)
Record changed (c : MemberCommand) (now : time) (id : UUID) (db db' : SpaceDB) : Prop := {
  ch_space : exists s, List.filter (cas_hit c) (db_spaces db) = [s] /\
    check_space (bump_revision (mc_Actor c) now s) = true;
  ch_spaces : db_spaces db' = update_where (cas_hit c) (bump_revision (mc_Actor c) now) (db_spaces db);
  ch_state : spaceMemberState c (before_of (found_row c db)) (bool_decide (is_Some (found_row c db))) = None;
  ch_protect : snd (spaceProtectAdmin (before_of (found_row c db)) (after_of c now (found_row c db)) db) = Ok tt;
  ch_members : member_write c now db (db_members db');
  ch_history : db_history db' = db_history db ++ [history_of id c now (found_row c db)];
  ch_command : (mc_TenantID c, mc_CommandID c) ∉ map command_key (db_history db);
  ch_rest : db_tenants db' = db_tenants db /\ db_buckets db' = db_buckets db
}.

Lemma protect_members before after db db' :
  db_members db = db_members db' -> spaceProtectAdmin before after db = (db, Ok tt) ->
  snd (spaceProtectAdmin before after db') = Ok tt.
Proof.
  unfold spaceProtectAdmin. intros E [_ Hp]%guard_Ok. rewrite E in Hp. unfold guard. by rewrite Hp.
Qed.

Lemma ChangeSpaceMember_changed d ctx now newid c db db' n :
  ChangeSpaceMember d ctx now newid c db = (db', Ok n) ->
  ValidateMemberCommand c = None /\ exists id, newid = Ok id /\ changed c now id db db'.
Proof.
  intros (_ & Hv & _ & _ & Hs & Hrows)%ChangeSpaceMember_Ok. split; [done|].
  apply spaceChangeMemberRows_Ok in Hrows as (Hst & Hpr & Hw & id & Hid & Hh & ->).
  change (found_row c (cas_rows c now db)) with (found_row c db) in *.
  exists id. split; [done|]. apply history_violation_None in Hh as (_ & _ & Hcmd & _).
  pose proof (after_key c now db Hst) as Hk. pose proof (add_iff_absent c db Hst) as Ha.
  assert (db_history (member_rows c now (cas_rows c now db)) = db_history db /\
          db_spaces (member_rows c now (cas_rows c now db)) = db_spaces (cas_rows c now db) /\
          db_tenants (member_rows c now (cas_rows c now db)) = db_tenants db /\
          db_buckets (member_rows c now (cas_rows c now db)) = db_buckets db) as (Hhist & Hspc & Hten & Hbk).
  { unfold member_rows. by destruct (mc_Action c =s AddMember). }
  rewrite Hhist in Hcmd.
  split; cbn; try done; [by eapply protect_members; [|exact Hpr]| |by rewrite Hhist].
  unfold member_rows. change (found_row c (cas_rows c now db)) with (found_row c db).
  destruct Hk as (Hk1 & Hk2 & Hk3). rewrite Ha in *. destruct (is_null (found_row c db)) eqn:Hn.
  - apply member_violation_None in Hw as (Hc & _). apply member_write_add; [done| |done].
    unfold member_key, member_row. cbn [sm_tenant_id sm_space_id sm_subject]. by rewrite Hk1, Hk2, Hk3.
  - destruct Hw as (r & Hf & Hc). rewrite Hk1, Hk2, Hk3 in Hf |- *. by apply (member_write_update c now db r).
Qed.

Lemma is_admin_true tenant id m :
  is_admin tenant id m = true <->
  member_space m = (tenant, id) /\ sm_state m = "active" /\ sm_role m = "admin" /\
  sr_Kind (sm_subject m) = "user".
Proof.
  unfold is_admin, member_space. rewrite !andb_true_iff, !streqb_true.
  split; [by intros ((((-> & ->) & ->) & ->) & ->)|by intros ([= -> ->] & -> & -> & ->)].
Qed.

Lemma found_unique c db m :
  NoDup (map member_key (db_members db)) -> m ∈ db_members db ->
  member_key m = (mc_TenantID c, mc_SpaceID c, mc_Target c) -> found_row c db = Some m.
Proof.
  intros Hn Hm Hk. destruct (found_row c db) as [r|] eqn:E.
  - apply find_some in E as [Hr Hkr]. apply is_member_true in Hkr. apply list_elem_of_In in Hr.
    f_equal. apply (NoDup_map_inj member_key (db_members db)); [done..|congruence].
  - pose proof (find_none _ _ E m (proj1 (list_elem_of_In _ _) Hm)) as Hf.
    by rewrite (proj2 (is_member_true _ _ _ m) Hk) in Hf.
Qed.

(** Either the admin stays one, or another is left. *)
Lemma admin_survives c now db ms tenant id :
  NoDup (map member_key (db_members db)) -> member_write c now db ms ->
  snd (spaceProtectAdmin (before_of (found_row c db)) (after_of c now (found_row c db)) db) = Ok tt ->
  (exists m, m ∈ db_members db /\ is_admin tenant id m = true) ->
  exists m, m ∈ ms /\ is_admin tenant id m = true.
Proof.
  intros Hn Hw Hp (m & Hm & Ha).
  destruct (decide (member_key m = (mc_TenantID c, mc_SpaceID c, mc_Target c))) as [Hk|Hk];
    [|exists m; split; [by apply (mw_others c now db ms Hw)|done]].
  pose proof (found_unique c db m Hn Hm Hk) as Hf. rewrite Hf in Hp.
  pose proof Ha as (Hsp & Hst & Hro & Hki)%is_admin_true.
  unfold spaceProtectAdmin, guard in Hp. cbn in Hp. rewrite Hki, Hst, Hro in Hp. cbn in Hp.
  destruct (((if mc_Action c =s RevokeMember then Revoked else Active) =s Active) &&
            ((if mc_Action c =s RevokeMember then "admin" else mc_Role c) =s Admin)) eqn:Hkeep.
  - pose proof (mw_find c now db ms Hw (mc_TenantID c) (mc_SpaceID c) (mc_Target c)) as Hfind.
    rewrite bool_decide_eq_true_2 in Hfind by done.
    destruct (find_member _ _ _ ms) as [r|] eqn:E; [|done]. injection Hfind as Hr1 Hr2 _ _ _.
    apply find_some in E as [Hr Hkr]. apply is_member_true in Hkr. exists r.
    split; [by apply list_elem_of_In|]. rewrite Hf in Hr1. cbn in Hr1, Hr2. rewrite Hro in Hr1.
    apply andb_true_iff in Hkeep as [Hs' Hr']. rewrite <- Hr2, streqb_true in Hs'.
    rewrite <- Hr1, streqb_true in Hr'. apply is_admin_true.
    rewrite <- Hk in Hkr. injection Hkr as Ht' Hs'' Hsub. unfold member_space in *.
    rewrite Ht', Hs'', Hsub. done.
  - destruct (Z.leb_spec (Z.of_nat (length (List.filter (is_admin (sm_tenant_id m) (sm_space_id m))
      (db_members db)))) 1) as [|Hc]; [done|].
    injection Hsp as Ht Hs. rewrite Ht, Hs in Hc.
    destruct (another member_key (List.filter (is_admin tenant id) (db_members db)) m)
      as (m2 & Hm2 & Hk2); [by apply NoDup_map_filter|by apply elem_filter_b|lia|].
    apply elem_filter_b in Hm2 as [Hm2 Ha2]. exists m2. split; [|done].
    apply (mw_others c now db ms Hw); [done|congruence].
Qed.

Lemma bumped_key c now db :
  map space_key (update_where (cas_hit c) (bump_revision (mc_Actor c) now) (db_spaces db)) =
  map space_key (db_spaces db).
Proof. by apply map_update_where. Qed.

Lemma null_if_listed l x :
  contains l x = true -> contains l "" = false -> null_if_empty x = Some x.
Proof.
  unfold null_if_empty. destruct (String.eqb_spec x "") as [->|]; cbn; congruence.
Qed.

Lemma null_if_role m : check_member m = true ->
  null_if_empty (sm_role m) = Some (sm_role m) /\ null_if_empty (sm_state m) = Some (sm_state m).
Proof.
  unfold check_member. rewrite !andb_true_iff. intros Hc. destruct_and! Hc.
  split; by eapply null_if_listed.
Qed.

(** The new entry continues the chain of its target. *)
Lemma changed_chained c now id db :
  spaces_inv db -> chained (db_history db) (history_of id c now (found_row c db)).
Proof.
  intros Hi. pose proof (si_replay db Hi (mc_TenantID c) (mc_SpaceID c) (mc_Target c)) as Hr.
  unfold chained. cbn. unfold find_member in Hr. fold (found_row c db) in Hr.
  destruct (found_row c db) as [m|] eqn:E; cbn.
  - apply find_some in E as [Hm _]. apply list_elem_of_In in Hm.
    destruct (null_if_role m (si_members db Hi m Hm)) as [-> ->].
    destruct (last_entry _ _ _ _) as [h|]; [|done]. cbn in Hr. injection Hr as -> -> _ _ _. done.
  - by destruct (last_entry _ _ _ _).
Qed.

(** The revisions of a space after the command. *)
Lemma changed_revisions c now id db s' :
  spaces_inv db -> ValidateMemberCommand c = None ->
  (exists s, List.filter (cas_hit c) (db_spaces db) = [s]) ->
  s' ∈ update_where (cas_hit c) (bump_revision (mc_Actor c) now) (db_spaces db) ->
  map sh_after_revision (List.filter (history_in (sp_tenant_id s') (sp_id s'))
    (db_history db ++ [history_of id c now (found_row c db)])) = seqZ 1 (sp_revision s').
Proof.
  intros Hi Hv (s & Hs) Hs'. pose proof (cas_hit_row c db s Hs) as (Hin & Hk & Hrev & Hhit).
  rewrite filter_snoc, map_app.
  apply elem_update_where in Hs' as [(x & Hx & Hxh & ->)|[Hx Hxh]].
  - assert (x = s) as ->.
    { assert (x ∈ [s]) as Hxs by (rewrite <- Hs; by apply elem_filter_b).
      by apply list_elem_of_singleton in Hxs. }
    pose proof (check_space_revision s (proj1 (si_spaces db Hi s Hin))).
    pose proof (ValidateMemberCommand_revision c Hv).
    cbn [sp_tenant_id sp_id sp_revision bump_revision]. rewrite (si_revisions db Hi s Hin).
    rewrite (proj2 (history_in_true _ _ _)) by done. cbn.
    rewrite wrap64_id by (unfold int64, MinInt64, MaxInt64 in *; lia).
    rewrite Hrev, seqZ_app by lia. f_equal.
    rewrite seqZ_cons by lia. cbn. f_equal. lia.
  - destruct (history_in _ _ _) eqn:E; [|by rewrite app_nil_r, (si_revisions db Hi s' Hx)].
    apply history_in_true in E. cbn in E.
    assert (s' = s) as -> by (apply (NoDup_map_inj space_key (db_spaces db));
      [apply Hi|done|done|rewrite Hk; exact (eq_sym E)]).
    congruence.
Qed.

Lemma changed_space_back c now db s :
  spaces_inv db -> List.filter (cas_hit c) (db_spaces db) = [s] ->
  check_space (bump_revision (mc_Actor c) now s) = true ->
  forall s', s' ∈ update_where (cas_hit c) (bump_revision (mc_Actor c) now) (db_spaces db) ->
  exists x, x ∈ db_spaces db /\ sp_tenant_id s' = sp_tenant_id x /\ sp_id s' = sp_id x /\
    sp_backing_bucket s' = sp_backing_bucket x /\ check_space s' = true.
Proof.
  intros Hi Hf Hchk s' [(x & Hx & Hxh & ->)|[Hx _]]%elem_update_where.
  - exists x. assert (x ∈ [s]) as ->%list_elem_of_singleton by (rewrite <- Hf; by apply elem_filter_b). done.
  - exists s'. repeat split; try done. by apply (si_spaces db Hi).
Qed.

Lemma member_write_key c now db ms k :
  member_write c now db ms -> k ∈ map member_key ms ->
  k ∈ map member_key (db_members db) \/ k = (mc_TenantID c, mc_SpaceID c, mc_Target c).
Proof.
  intros Hw. rewrite (mw_keys _ _ _ _ Hw), elem_of_app. intros [Hk|Hk]; [by left|right].
  destruct (is_null _); [by apply list_elem_of_singleton in Hk|by apply not_elem_of_nil in Hk].
Qed.

Lemma member_write_nodup c now db ms :
  NoDup (map member_key (db_members db)) -> member_write c now db ms -> NoDup (map member_key ms).
Proof.
  intros Hd Hw. rewrite (mw_keys _ _ _ _ Hw). apply list.NoDup_app. split; [done|].
  destruct (is_null (found_row c db)) eqn:Hn;
    [|split; [by intros ? _ ?%not_elem_of_nil|by apply base.NoDup_nil_2]].
  split; [|by apply list.NoDup_singleton]. intros k Hk1 ->%list_elem_of_singleton.
  by apply (mw_fresh _ _ _ _ Hw Hn).
Qed.

Lemma changed_inv c now id db db' :
  spaces_inv db -> ValidateMemberCommand c = None -> changed c now id db db' -> spaces_inv db'.
Proof.
  intros Hi Hv [Hs Hspc Hst Hpr Hw Hh Hcmd [Hten Hbk]].
  destruct Hs as (s & Hf & Hchk). pose proof (cas_hit_row c db s Hf) as (Hin & Hk & Hrev & Hhit).
  pose proof (changed_space_back c now db s Hi Hf Hchk) as Hback. rewrite <- Hspc in Hback.
  pose proof (fun k => member_write_key c now db _ k Hw) as Hkeys.
  split; rewrite ?Hten, ?Hbk, ?Hh.
  - apply Hi.
  - rewrite Hspc, bumped_key. apply Hi.
  - rewrite Hspc, map_update_where by done. apply Hi.
  - by apply (member_write_nodup c now db); [apply Hi|].
  - apply NoDup_map_snoc; [apply Hi|]. intros y Hy Hky. apply Hcmd. cbn in Hky. 
    change (mc_TenantID c, mc_CommandID c) with (command_key (history_of id c now (found_row c db))).
    rewrite <- Hky. by apply list_elem_of_fmap_2.
  - intros s' (x & Hx & -> & _)%Hback. by apply (si_tenant_fk db Hi).
  - intros s' (x & Hx & Ht & _ & Hb & _)%Hback. unfold space_bucket_key. rewrite Ht, Hb.
    by apply (si_bucket_fk db Hi x).
  - intros m Hm. rewrite Hspc, bumped_key.
    destruct (Hkeys (member_key m)) as [Hold|Hnew]; [by apply list_elem_of_fmap_2| |].
    + apply list_elem_of_fmap in Hold as (m' & Heq & Hm'). pose proof (si_member_fk db Hi m' Hm') as Hfk.
      unfold member_key, member_space in *. injection Heq as -> -> _. done.
    + unfold member_key, member_space in *. injection Hnew as -> -> _. rewrite <- Hk.
      by apply list_elem_of_fmap_2.
  - intros h [Hh'| ->]%elem_snoc; rewrite Hspc, bumped_key; [by apply (si_history_fk db Hi)|].
    change (history_space _) with (mc_TenantID c, mc_SpaceID c). rewrite <- Hk. by apply list_elem_of_fmap_2.
  - intros s' (x & Hx & Ht & Hid & Hb & Hc)%Hback. destruct (si_spaces db Hi x Hx) as (_ & ? & ? & ?).
    rewrite Ht, Hid, Hb. done.
  - intros m Hm. destruct (mw_check _ _ _ _ Hw m Hm) as [Hold|]; [by apply (si_members db Hi)|done].
  - intros m Hm. destruct (Hkeys (member_key m)) as [Hold|Hnew]; [by apply list_elem_of_fmap_2| |].
    + apply list_elem_of_fmap in Hold as (m' & Heq & Hm'). injection Heq as _ _ ->.
      by apply (si_subjects db Hi).
    + injection Hnew as _ _ ->. by apply ValidateMemberCommand_target.
  - intros s' (x & Hx & Ht & Hid & _)%Hback. rewrite Ht, Hid.
    apply (admin_survives c now db); [apply Hi|done|done|by apply (si_admin db Hi)].
  - intros s' Hs'. rewrite Hspc in Hs'. apply changed_revisions; [done|done|by exists s|done].
  - intros tenant sid subject. rewrite (mw_find _ _ _ _ Hw), last_entry_snoc.
    destruct (history_about tenant sid subject _) eqn:E.
    + apply history_about_true in E. rewrite bool_decide_eq_true_2; [done|exact (eq_sym E)].
    + rewrite bool_decide_eq_false_2; [apply (si_replay db Hi)|]. intros Heq.
      rewrite (proj2 (history_about_true _ _ _ _)) in E; [done|exact (eq_sym Heq)].
  - apply chain_snoc; [apply Hi|by apply changed_chained].
Qed.

(** ** Every run *)

Lemma CreateSpace_Err d ctx now newid c db db' e :
  CreateSpace d ctx now newid c db = (db', Err e) -> db' = db.
Proof.
  unfold CreateSpace. rewrite run_guard. destruct (ValidateCreate c); [by intros [= <-]|].
  unfold begin_tx. rewrite run_guard. destruct (spaceSQLError _ _ <$> ctx); [by intros [= <-]|].
  unfold bind. destruct (in_tx _ db) as [s [u|e']] eqn:E; [done|]. intros [= <- _]. by apply in_tx_Err in E.
Qed.

Lemma ChangeSpaceMember_Err d ctx now newid c db db' e :
  ChangeSpaceMember d ctx now newid c db = (db', Err e) -> db' = db.
Proof.
  unfold ChangeSpaceMember. rewrite run_guard. destruct (ValidateMemberCommand c); [by intros [= <-]|].
  unfold begin_tx. rewrite run_guard. destruct (spaceSQLError _ _ <$> ctx); [by intros [= <-]|].
  unfold bind at 1. destruct (in_tx _ db) as [s [u|e']] eqn:E; [done|]. intros [= <- _]. by apply in_tx_Err in E.
Qed.

Lemma spaces_step_inv d db db' : spaces_inv db -> spaces_step d db db' -> spaces_inv db'.
Proof.
  intros Hi Hs. revert Hi.
  destruct Hs as [ctx now newid c db0|ctx now newid c db0|tenants buckets db0 Hn Ht Hb]; intros Hi.
  - destruct (CreateSpace _ _ _ _ _ _) as [db1 [v|e]] eqn:E; cbn.
    + by eapply create_inv.
    + by apply CreateSpace_Err in E as ->.
  - destruct (ChangeSpaceMember _ _ _ _ _ _) as [db1 [n|e]] eqn:E; cbn.
    + apply ChangeSpaceMember_changed in E as (Hv & id & _ & Hch). by eapply changed_inv.
    + by apply ChangeSpaceMember_Err in E as ->.
  - destruct Hi. by split.
Qed.

Lemma spaces_reachable_inv d db : spaces_reachable d db -> spaces_inv db.
Proof.
  induction 1 as [tenants buckets Hn|db db' _ IH Hs]; [|by eapply spaces_step_inv].
  split; cbn; try done; try (by apply base.NoDup_nil_2); try (by intros ? ?%not_elem_of_nil).
  intros before h after Heq. by destruct before.
Qed.
End Change.

(** ** A concrete run *)

Module SpacesExample.
Definition dash_at (s : string) (i : nat) : bool :=
  match String.get i s with Some a => Ascii.eqb a "-"%char | None => false end.
Definition canonical (s : string) : bool :=
  Nat.eqb (String.length s) 36 && forallb uuid_char (String.list_ascii_of_string s) &&
  forallb (dash_at s) [8; 13; 18; 23]%nat.

Definition parse (s : string) : option { x : string | canonical x = true } :=
  match decide (canonical s = true) with left p => Some (exist _ s p) | right _ => None end.

(** Identifiers in canonical form. *)
#[export] Instance uuids : UUIDLib := {|
  UUID := { x : string | canonical x = true };
  uuid_eqb a b := (`a =s `b); uuid_Parse := parse;
  uuid_Nil := exist _ "00000000-0000-0000-0000-000000000000" eq_refl;
  uuid_String u := `u |}.

#[export] Instance uuid_laws : @UUIDLaws uuids.
Proof.
  split; intros [s Hs]; cbn; unfold canonical in Hs; apply andb_true_iff in Hs as [Hs _];
    apply andb_true_iff in Hs as [Hl Hc]; [by apply Nat.eqb_eq|done].
Defined.

Definition space_id : string := "11111111-1111-4111-8111-111111111111".
Definition uid (s : string) (p : canonical s = true) : UUID := exist _ s p.
Definition h1 : UUID := uid "a0000000-0000-4000-8000-000000000001" eq_refl.
Definition h2 : UUID := uid "a0000000-0000-4000-8000-000000000002" eq_refl.
Definition now : time := unixEpoch + 1750000000 * Second.
Definition ann : SubjectRef := {| sr_Source := "sso"; sr_Kind := "user"; sr_ID := "ann" |}.
Definition bob : SubjectRef := {| sr_Source := "sso"; sr_Kind := "user"; sr_ID := "bob" |}.

Definition create : CreateCommand := {|
  cc_TenantID := "acme"; cc_ID := space_id; cc_Kind := "team"; cc_Name := "Design";
  cc_Actor := ann; cc_CommandID := "c0000000-0000-4000-8000-000000000001";
  cc_Reason := ""; cc_RequestID := "r1" |}.

Definition command (revision : Z) (target : SubjectRef) (action role id : string) : MemberCommand := {|
  mc_TenantID := "acme"; mc_SpaceID := space_id; mc_ExpectedRevision := revision; mc_Actor := ann;
  mc_Target := target; mc_Action := action; mc_Role := role; mc_CommandID := id;
  mc_Reason := ""; mc_RequestID := "r2" |}.

Definition add_bob : MemberCommand :=
  command 1 bob AddMember "editor" "c0000000-0000-4000-8000-000000000002".

Definition db0 : SpaceDB := migrated [{| t_tenant_id := "acme"; t_status := "active" |}] [].
Definition db1 : SpaceDB := fst (CreateSpace dialectSQLite None now (Ok h1) create db0).
Definition db2 : SpaceDB := fst (ChangeSpaceMember dialectSQLite None now (Ok h2) add_bob db1).

Lemma reach1 : spaces_reachable dialectSQLite db1.
Proof.
  eapply reach_step; [|apply step_create]. apply reach_migrated.
  cbn. apply list.NoDup_singleton.
Defined.

Lemma reach2 : spaces_reachable dialectSQLite db2.
Proof. eapply reach_step; [apply reach1|apply step_change]. Defined.

Example run_ok :
  snd (CreateSpace dialectSQLite None now (Ok h1) create db0) = Ok (new_space now create) /\
  snd (ChangeSpaceMember dialectSQLite None now (Ok h2) add_bob db1) = Ok 2.
Proof. by vm_compute. Qed.
End SpacesExample.

(** ** Properties *)

(** C19: at every point of every interleaving of space creations, member commands (refused
    ones included) and changes elsewhere to tenants and buckets, every space has an
    active member with the admin role that is a user. *)
Theorem space_keeps_admin `{UUIDLib} d db s :
  spaces_reachable d db -> s ∈ db_spaces db ->
  exists m, m ∈ db_members db /\ member_space m = space_key s /\
    sm_state m = Active /\ sm_role m = Admin /\ sr_Kind (sm_subject m) = User.
Proof.
  intros Hi%spaces_reachable_inv Hs. destruct (si_admin db Hi s Hs) as (m & Hm & Ha).
  exists m. split; [done|]. by apply is_admin_true in Ha.
Qed.

Lemma space_keeps_admin_witness :
  let s := bump_revision SpacesExample.ann SpacesExample.now
             (space_row (new_space SpacesExample.now SpacesExample.create)) in
  s ∈ db_spaces SpacesExample.db2 /\
  exists m, m ∈ db_members SpacesExample.db2 /\ member_space m = space_key s /\
    sm_state m = Active /\ sm_role m = Admin /\ sr_Kind (sm_subject m) = User.
Proof.
  intros s. assert (s ∈ db_spaces SpacesExample.db2) as Hs.
  { apply list_elem_of_In. vm_compute. left. reflexivity. }
  split; [exact Hs|].
  exact (space_keeps_admin dialectSQLite SpacesExample.db2 s SpacesExample.reach2 Hs).
Defined.

(** C6: the history is complete.  In every reachable database the entries of a space
    carry the revisions 1, 2, ... up to the space's revision in order; the membership
    table is the replay of the history (role, state, revision, author and time of every
    member are those of the last entry about it, and a subject without entries is not a
    member); and the before columns of each entry are the after columns of the previous
    entry about the same subject. *)
Theorem history_replays_membership `{UUIDLib} d db :
  spaces_reachable d db ->
  (forall s, s ∈ db_spaces db ->
     map sh_after_revision (List.filter (history_in (sp_tenant_id s) (sp_id s)) (db_history db)) =
     seqZ 1 (sp_revision s)) /\
  (forall tenant id subject,
     member_facts <$> find_member tenant id subject (db_members db) =
     entry_facts <$> last_entry tenant id subject (db_history db)) /\
  (forall before h after, db_history db = before ++ h :: after -> chained before h).
Proof. intros Hi%spaces_reachable_inv. by destruct Hi. Qed.

Lemma history_replays_membership_witness :
  member_facts <$> find_member "acme" SpacesExample.space_id SpacesExample.bob
                     (db_members SpacesExample.db2) =
  entry_facts <$> last_entry "acme" SpacesExample.space_id SpacesExample.bob
                     (db_history SpacesExample.db2) /\
  length (db_history SpacesExample.db2) = 2%nat.
Proof.
  split; [|reflexivity].
  exact (proj1 (proj2 (history_replays_membership dialectSQLite SpacesExample.db2 SpacesExample.reach2))
           "acme" SpacesExample.space_id SpacesExample.bob).
Defined.
