(* ===== verification/SpacesCommands.v ===== *)
(** * Outcomes of the spaces store's commands

    When a member command goes through, which of two competing commands wins, and what
    the queries answer after a creation. *)

From Stdlib Require Import Lia Bool ZArith.
From stdpp Require Import base strings list numbers sorting relations.
From S2P Require Import Prelude GoStrings GoTime GoErrors Sql Spaces SpacesStore SpacesInvariant.

Open Scope Z_scope.

#[local] Arguments contains : simpl never.
#[local] Arguments check_subject : simpl never.
#[local] Arguments int_from : simpl never.
#[local] Arguments wrap64 : simpl never.

(** ** Validated values pass the CHECK constraints *)

Lemma ValidateIdentifier_nonempty v : ValidateIdentifier v = None -> nonempty v = true.
Proof.
  unfold ValidateIdentifier, nonempty. destruct (runes v); [|done].
  destruct (String.eqb_spec v ""); done.
Qed.

Lemma ValidateSubject_check s : ValidateSubject s = None -> check_subject s = true.
Proof.
  unfold ValidateSubject, check_subject, contains. cbn [existsb].
  destruct (String.eqb_spec (sr_Kind s) "user"), (String.eqb_spec (sr_Kind s) "service"); cbn;
    try done; rewrite andThen_None; intros [Hs Hi];
    by rewrite (ValidateIdentifier_nonempty _ Hs), (ValidateIdentifier_nonempty _ Hi).
Qed.

Lemma int_from_true lo n : lo <= n <= MaxInt64 -> int_from lo n = true.
Proof. unfold int_from. rewrite andb_true_iff, !Z.leb_le. done. Qed.

Lemma int_from_UnixNano now : 1 <= UnixNano now -> int_from 1 (UnixNano now) = true.
Proof.
  intros Hn. pose proof (wrap64_int64 (now - unixEpoch)) as [_ Hm]. fold (UnixNano now) in Hm.
  apply int_from_true. lia.
Qed.

Section Outcome.
Context `{UUIDLib}.

Lemma ValidateMemberCommand_all c :
  ValidateMemberCommand c = None ->
  ValidateID (mc_CommandID c) = None /\
  check_subject (mc_Actor c) = true /\ check_subject (mc_Target c) = true /\
  validateMemberAction (mc_Action c) (mc_Role c) = None.
Proof.
  unfold ValidateMemberCommand, validateCommand. rewrite !andThen_None.
  intros ((_ & Hid & Ha & _) & Ht & Hx). split; [done|]. split; [by apply ValidateSubject_check|].
  split; [by apply ValidateSubject_check|]. by destruct (_ || _).
Qed.

(** The four actions and their roles. *)
Inductive member_action : string -> string -> Prop :=
| act_add role : contains ["viewer"; "editor"; "admin"] role = true -> member_action AddMember role
| act_change role : contains ["viewer"; "editor"; "admin"] role = true -> member_action ChangeRole role
| act_reactivate role :
    contains ["viewer"; "editor"; "admin"] role = true -> member_action ReactivateMember role
| act_revoke : member_action RevokeMember "".

Lemma validateMemberAction_cases action role :
  validateMemberAction action role = None -> member_action action role.
Proof.
  unfold validateMemberAction.
  assert ((if (role <>s "viewer") && (role <>s "editor") && (role <>s "admin")
           then invalid "member role" else None) = None ->
          contains ["viewer"; "editor"; "admin"] role = true) as Hr.
  { unfold contains. cbn. by destruct (role =s "viewer"), (role =s "editor"), (role =s "admin"). }
  destruct (String.eqb_spec action "member.revoke") as [->|].
  { destruct (String.eqb_spec role "") as [->|]; [constructor|done]. }
  destruct (String.eqb_spec action "member.add") as [->|]; [cbn; intros ?; constructor; auto|].
  destruct (String.eqb_spec action "member.change_role") as [->|]; [cbn; intros ?; constructor; auto|].
  destruct (String.eqb_spec action "member.reactivate") as [->|]; [cbn; intros ?; constructor; auto|done].
Qed.

(** ** Who may change what *)

(** The membership state machine: an absent subject is added, an active one changes role
    or is revoked, a revoked one is reactivated. *)
Definition member_transition (c : MemberCommand) (found : option MemberRow) : Prop :=
  match found with
  | None => mc_Action c = AddMember
  | Some m =>
      (sm_state m = Active /\ mc_Action c = RevokeMember) \/
      (sm_state m = Active /\ mc_Action c = ChangeRole /\ sm_role m <> mc_Role c) \/
      (sm_state m = Revoked /\ mc_Action c = ReactivateMember)
  end.

(** The command takes the admin role from the only active user admin. *)
Definition removes_last_admin (c : MemberCommand) (db : SpaceDB) : Prop :=
  exists m, List.filter (is_admin (mc_TenantID c) (mc_SpaceID c)) (db_members db) = [m] /\
    sm_subject m = mc_Target c /\
    (mc_Action c = RevokeMember \/ (mc_Action c = ChangeRole /\ mc_Role c <> Admin)).

Lemma check_member_state m : check_member m = true -> sm_state m = Active \/ sm_state m = Revoked.
Proof.
  unfold check_member. rewrite !andb_true_iff. intros Hc. destruct_and! Hc.
  match goal with Hs : contains ["active"; "revoked"] _ = true |- _ =>
    apply contains_spec in Hs as [Hs|[Hs|Hs%not_elem_of_nil]%elem_of_cons]%elem_of_cons end;
    [by left|by right|done].
Qed.

Lemma spaceMemberState_spec c found :
  member_action (mc_Action c) (mc_Role c) ->
  (forall m, found = Some m -> check_member m = true) ->
  spaceMemberState c (before_of found) (bool_decide (is_Some found)) = None <->
  member_transition c found.
Proof.
  intros Ha Hc. unfold spaceMemberState, member_transition. destruct found as [m|]; cbn.
  - destruct (check_member_state m (Hc m eq_refl)) as [Hs|Hs]; rewrite Hs;
      inversion Ha as [role Hr Hx|role Hr Hx|role Hr Hx|Hx]; cbn;
      destruct (String.eqb_spec (sm_role m) (mc_Role c)); intuition (discriminate || congruence || auto).
  - inversion Ha as [role Hr Hx|role Hr Hx|role Hr Hx|Hx]; cbn; intuition (discriminate || auto).
Qed.

Lemma guard_result {S} (check : S -> option error) (s : S) :
  snd (guard check s) = Ok tt <-> check s = None.
Proof. unfold guard. by destruct (check s). Qed.

Lemma found_row_key c db m :
  found_row c db = Some m ->
  m ∈ db_members db /\ member_key m = (mc_TenantID c, mc_SpaceID c, mc_Target c).
Proof.
  intros [Hm Hk]%find_some. apply is_member_true in Hk. split; [by apply list_elem_of_In|done].
Qed.

(** An admin row about the target is the row the command found. *)
Lemma admin_is_found c db m :
  spaces_inv db -> m ∈ List.filter (is_admin (mc_TenantID c) (mc_SpaceID c)) (db_members db) ->
  sm_subject m = mc_Target c -> found_row c db = Some m.
Proof.
  intros Hi [Hm Ha]%elem_filter_b Hs. apply is_admin_space in Ha.
  apply found_unique; [apply Hi|done|]. unfold member_key, member_space in *.
  injection Ha as -> ->. by rewrite Hs.
Qed.

Lemma single_admin (p : MemberRow -> bool) l m :
  m ∈ List.filter p l -> Z.of_nat (length (List.filter p l)) <= 1 -> List.filter p l = [m].
Proof.
  destruct (List.filter p l) as [|x [|y r]]; cbn; [by intros ?%not_elem_of_nil| |lia].
  by intros ->%list_elem_of_singleton.
Qed.

(** The guard of the code in terms of the admin row it found. *)
Lemma protect_found c now db m :
  found_row c db = Some m -> member_transition c (Some m) ->
  snd (spaceProtectAdmin (before_of (Some m)) (after_of c now (Some m)) db) = Ok tt <->
  ~ (is_admin (mc_TenantID c) (mc_SpaceID c) m = true /\
     (mc_Action c = RevokeMember \/ (mc_Action c = ChangeRole /\ mc_Role c <> Admin)) /\
     Z.of_nat (length (List.filter (is_admin (mc_TenantID c) (mc_SpaceID c)) (db_members db))) <= 1).
Proof.
  intros [Hm Hk]%found_row_key Ht. unfold spaceProtectAdmin. rewrite guard_result. cbn.
  rewrite is_admin_true. unfold member_space. injection Hk as -> -> Hsub.
  destruct (String.eqb_spec (sr_Kind (sm_subject m)) User) as [Hu|Hu]; [|cbn; intuition].
  destruct (String.eqb_spec (sm_state m) Active) as [Ha|Ha]; [|cbn; intuition].
  destruct (String.eqb_spec (sm_role m) Admin) as [Hr|Hr]; [|cbn; intuition].
  cbn. set (n := Z.of_nat (length (List.filter _ _))).
  destruct Ht as [[_ Hact]|[(_ & Hact & Hne)|[Hrev _]]]; [| |by rewrite Ha in Hrev].
  - rewrite Hact. cbn. destruct (Z.leb_spec n 1); intuition (done || lia).
  - rewrite Hact. cbn. destruct (String.eqb_spec (mc_Role c) Admin) as [He|He]; cbn; [congruence|].
    destruct (Z.leb_spec n 1); intuition (done || lia).
Qed.

Lemma spaceProtectAdmin_spec c now db :
  spaces_inv db -> member_transition c (found_row c db) ->
  snd (spaceProtectAdmin (before_of (found_row c db)) (after_of c now (found_row c db)) db) = Ok tt <->
  ~ removes_last_admin c db.
Proof.
  intros Hi Ht. unfold removes_last_admin. destruct (found_row c db) as [m|] eqn:E.
  - rewrite (protect_found c now db m E Ht). apply found_row_key in E as Hk. destruct Hk as [Hm Hk].
    split; intros Hn Hx; apply Hn; clear Hn.
    + destruct Hx as (m' & Hf & Hs & Hact).
      assert (m' ∈ List.filter (is_admin (mc_TenantID c) (mc_SpaceID c)) (db_members db)) as Hm'
        by (rewrite Hf; by left).
      pose proof (admin_is_found c db m' Hi Hm' Hs) as E'. rewrite E in E'. injection E' as ->.
      apply elem_filter_b in Hm' as [_ Ha]. rewrite Hf. cbn. done.
    + destruct Hx as (Ha & Hact & Hl). exists m. split; [|split; [by injection Hk|done]].
      apply single_admin; [by apply elem_filter_b|done].
  - split; [|intros _; by unfold spaceProtectAdmin; rewrite guard_result]. intros _ (m & Hf & Hs & _).
    assert (found_row c db = Some m) by (apply admin_is_found; [done|rewrite Hf; by left|done]). congruence.
Qed.

(** ** An allowed command passes every constraint *)

Lemma filter_one {A K} (key : A -> K) (p : A -> bool) (l : list A) x :
  NoDup (map key l) -> x ∈ l -> p x = true ->
  (forall y, y ∈ l -> p y = true -> key y = key x) -> List.filter p l = [x].
Proof.
  induction l as [|y l IH]; cbn; [by intros _ ?%not_elem_of_nil|].
  intros [Hy Hl]%list.NoDup_cons Hx Hp Hu. apply elem_of_cons in Hx as [->|Hx].
  - rewrite Hp. f_equal. apply filter_none. intros z Hz. destruct (p z) eqn:E; [|done].
    destruct Hy. rewrite <- (Hu z); [by apply list_elem_of_fmap_2|by right|done].
  - destruct (p y) eqn:E.
    + destruct Hy. rewrite (Hu y); [by apply list_elem_of_fmap_2|by left|done].
    + apply IH; [done..|]. intros z Hz. apply Hu. by right.
Qed.

Lemma check_space_bump actor now s :
  check_space s = true -> check_subject actor = true -> 1 <= UnixNano now ->
  sp_revision s <> MaxInt64 -> check_space (bump_revision actor now s) = true.
Proof.
  intros Hc Ha Hn Hr. pose proof (check_space_revision s Hc). revert Hc.
  unfold check_space, check_personal. cbn. rewrite !andb_true_iff, Ha, int_from_UnixNano by done.
  intros Hc. destruct_and! Hc. repeat split; try done.
  apply int_from_true. lia.
Qed.

Lemma check_member_add m :
  check_subject (m_Subject m) = true -> contains ["viewer"; "editor"; "admin"] (m_Role m) = true ->
  m_State m = Active -> 1 <= m_ChangedRevision m <= MaxInt64 -> check_subject (m_ChangedBy m) = true ->
  1 <= UnixNano (m_JoinedAt m) -> 1 <= UnixNano (m_UpdatedAt m) -> m_RevokedAt m = None ->
  check_member (member_row m) = true.
Proof.
  intros Hs Hr Hst Hrev Hb Hj Hu Hn. unfold check_member. cbn.
  rewrite Hs, Hr, Hst, Hb, !int_from_UnixNano by done. unfold spaceRevokedTime. rewrite Hn. cbn.
  by rewrite (int_from_true 1 _ Hrev).
Qed.

Lemma check_member_set m r :
  check_member r = true -> contains ["viewer"; "editor"; "admin"] (m_Role m) = true ->
  (m_State m = Active /\ m_RevokedAt m = None \/
   m_State m = Revoked /\ exists t, m_RevokedAt m = Some t /\ 1 <= UnixNano t) ->
  1 <= m_ChangedRevision m <= MaxInt64 -> check_subject (m_ChangedBy m) = true ->
  1 <= UnixNano (m_UpdatedAt m) -> check_member (set_member m r) = true.
Proof.
  unfold check_member. cbn. rewrite !andb_true_iff. intros Hc Hr Hst Hrev Hb Hu. destruct_and! Hc.
  rewrite Hr, Hb, int_from_UnixNano by done. unfold spaceRevokedTime.
  rewrite (int_from_true 1 _ Hrev).
  destruct Hst as [[-> ->]|(-> & t & -> & Ht)]; cbn; [done|]. rewrite (int_from_UnixNano t Ht). done.
Qed.

(** The clock is past 1970, the texts are storable and the random history id is new. *)
Definition storable (d : dialect) (now : time) (id : UUID) (c : MemberCommand) (db : SpaceDB) : Prop :=
  1 <= UnixNano now /\ bad_text d (mc_Reason c) = false /\ bad_text d (mc_RequestID c) = false /\
  (mc_TenantID c, uuid_String id) ∉ map history_key (db_history db).

(** The member row after the command, in either case of the write. *)
Lemma after_checks c now found :
  ValidateMemberCommand c = None -> mc_ExpectedRevision c < MaxInt64 -> 1 <= UnixNano now ->
  member_transition c found -> (forall m, found = Some m -> check_member m = true) ->
  match found with
  | None => check_member (member_row (after_of c now found)) = true
  | Some r => check_member (set_member (after_of c now found) r) = true
  end.
Proof.
  intros Hv Hmax Hn Ht Hc. pose proof (ValidateMemberCommand_revision c Hv) as [Hlo _].
  destruct (ValidateMemberCommand_all c Hv) as (_ & Hact & Htgt & Hrole%validateMemberAction_cases).
  assert (wrap64 (mc_ExpectedRevision c + 1) = mc_ExpectedRevision c + 1) as Hw
    by (apply wrap64_id; unfold int64, MinInt64, MaxInt64 in *; lia).
  destruct found as [r|]; cbn in Ht.
  - specialize (Hc r eq_refl). apply check_member_set; cbn; rewrite ?Hw; try done; try lia.
    + destruct Ht as [[Hst Ha]|[(Hst & Ha & Hne)|[Hst Ha]]]; rewrite Ha in *; cbn; inversion Hrole; subst; try done.
      unfold check_member in Hc. rewrite !andb_true_iff in Hc. by destruct_and! Hc.
    + destruct (mc_Action c =s RevokeMember); [right|by left]. eauto.
  - rewrite Ht in *. apply check_member_add; cbn; rewrite ?Ht, ?Hw; cbn; try done; try lia.
    by inversion Hrole.
Qed.

Lemma uuid_nonempty `{!UUIDLaws} u : nonempty (uuid_String u) = true.
Proof.
  unfold nonempty. pose proof (uuid_String_length u) as Hl.
  destruct (String.eqb_spec (uuid_String u) "") as [E|]; [by rewrite E in Hl|done].
Qed.

Lemma ValidateID_nonempty `{!UUIDLaws} id : ValidateID id = None -> nonempty id = true.
Proof.
  unfold ValidateID. destruct (uuid_Parse id) as [u|]; [|done].
  destruct (uuid_eqb u uuid_Nil); [done|]. cbn.
  destruct (String.eqb_spec (uuid_String u) id) as [<-|]; [intros _; apply uuid_nonempty|done].
Qed.

Lemma transition_history id c now found :
  member_action (mc_Action c) (mc_Role c) -> member_transition c found ->
  (forall m, found = Some m -> check_member m = true) ->
  let h := history_of id c now found in
  contains ["create"; "member.add"; "member.change_role"; "member.revoke"; "member.reactivate"]
    (sh_command_type h) && (sh_command_type h <>s "create") &&
  null_or (contains ["viewer"; "editor"; "admin"]) (sh_before_role h) &&
  contains ["viewer"; "editor"; "admin"] (sh_after_role h) &&
  null_or (contains ["active"; "revoked"]) (sh_before_state h) &&
  contains ["active"; "revoked"] (sh_after_state h) && check_transition h = true.
Proof.
  intros Ha Ht Hc. destruct found as [m|]; cbn in Ht.
  - pose proof (null_if_role m (Hc m eq_refl)) as [Hr Hs].
    assert (contains ["viewer"; "editor"; "admin"] (sm_role m) = true) as Hrole.
    { pose proof (Hc m eq_refl) as Hm. unfold check_member in Hm. rewrite !andb_true_iff in Hm. by destruct_and! Hm. }
    unfold check_transition. cbn. rewrite Hr, Hs. cbn. rewrite Hrole.
    destruct Ht as [[Hst Hact]|[(Hst & Hact & Hne)|[Hst Hact]]]; rewrite Hst, Hact in *; cbn.
    + by rewrite Hrole, streqb_refl.
    + inversion Ha as [| ? Hcr| |]. rewrite Hcr. by rewrite (proj2 (streqb_false _ _) Hne).
    + inversion Ha as [| | ? Hcr|]. by rewrite Hcr.
  - unfold check_transition. cbn. rewrite Ht in *. inversion Ha as [? Hcr| | |]. cbn. by rewrite Hcr.
Qed.

Lemma history_checks `{!UUIDLaws} id c now found :
  ValidateMemberCommand c = None -> mc_ExpectedRevision c < MaxInt64 -> 1 <= UnixNano now ->
  member_transition c found -> (forall m, found = Some m -> check_member m = true) ->
  check_history (history_of id c now found) = true.
Proof.
  intros Hv Hmax Hn Ht Hc. pose proof (ValidateMemberCommand_revision c Hv) as [Hlo _].
  destruct (ValidateMemberCommand_all c Hv) as (Hcmd & Hact & Htgt & Hrole%validateMemberAction_cases).
  pose proof (transition_history id c now found Hrole Ht Hc) as Htr.
  unfold check_history. rewrite !andb_true_iff in *. destruct_and! Htr. cbn.
  rewrite (wrap64_id (mc_ExpectedRevision c + 1)) by (unfold int64, MinInt64, MaxInt64 in *; lia).
  cbn in *. repeat split; try done; try (apply int_from_true; lia).
  - apply uuid_nonempty.
  - by apply ValidateID_nonempty.
  - by apply int_from_UnixNano.
  - by apply Z.eqb_eq.
  - apply orb_true_iff. right. apply andb_true_iff. split; [done|]. by apply Z.leb_le.
Qed.

(** ** Runs that go through *)

Lemma cas_unique c db s :
  spaces_inv db -> s ∈ db_spaces db -> space_key s = (mc_TenantID c, mc_SpaceID c) ->
  sp_revision s = mc_ExpectedRevision c -> List.filter (cas_hit c) (db_spaces db) = [s].
Proof.
  intros Hi Hs Hk Hr. apply (filter_one space_key); [apply Hi|done| |].
  - unfold cas_hit. by rewrite (proj2 (is_space_true _ _ s) Hk), Hr, Z.eqb_refl.
  - intros y _ Hy. apply andb_true_iff in Hy as [Hy _]. apply is_space_true in Hy. congruence.
Qed.

Lemma spaceTenant_run tenant db : tenant_active db tenant -> spaceTenant tenant db = (db, Ok tt).
Proof.
  intros (row & Hf & Hs). unfold spaceTenant, guard, query_one. by rewrite Hf, Hs.
Qed.

Lemma spaceCAS_run d c now db s :
  List.filter (cas_hit c) (db_spaces db) = [s] -> tenant_active db (mc_TenantID c) ->
  check_space (bump_revision (mc_Actor c) now s) = true ->
  spaceCAS d c now db = (cas_rows c now db, Ok tt).
Proof.
  intros Hf Ht Hc. unfold spaceCAS, update_rows. fold (cas_hit c). unfold bind at 1.
  rewrite Hf. cbn [existsb]. rewrite Hc. cbn -[spaceTenant]. unfold bind.
  change (set_spaces _ _) with (cas_rows c now db).
  by rewrite (spaceTenant_run _ (cas_rows c now db)).
Qed.

Lemma insert_run {A} bad put (row : A) db :
  bad db row = None -> spaceOneRow (insert_row bad put row) db = (put row db, Ok tt).
Proof. intros Hb. unfold spaceOneRow, insert_row, bind. by rewrite Hb. Qed.

Lemma spaceUpdateMember_run d m db r :
  List.filter (is_member (m_TenantID m) (m_SpaceID m) (m_Subject m)) (db_members db) = [r] ->
  check_member (set_member m r) = true ->
  spaceUpdateMember d m db =
  (set_members (update_where (is_member (m_TenantID m) (m_SpaceID m) (m_Subject m)) (set_member m)
     (db_members db)) db, Ok tt).
Proof.
  intros Hf Hc. unfold spaceUpdateMember, spaceOneRow, update_rows, bind. rewrite Hf. cbn [existsb].
  by rewrite Hc.
Qed.

(** The write of the member row. *)
Lemma member_rows_run d c now db :
  NoDup (map member_key (db_members db)) ->
  spaceMemberState c (before_of (found_row c db)) (bool_decide (is_Some (found_row c db))) = None ->
  match found_row c db with
  | None => check_member (member_row (after_of c now (found_row c db))) = true
  | Some r => check_member (set_member (after_of c now (found_row c db)) r) = true
  end ->
  (mc_TenantID c, mc_SpaceID c) ∈ map space_key (db_spaces db) ->
  (if (mc_Action c =s AddMember) then spaceInsertMember d (after_of c now (found_row c db))
   else spaceUpdateMember d (after_of c now (found_row c db))) db = (member_rows c now db, Ok tt).
Proof.
  intros Hn Hst Hc Hs. pose proof (after_key c now db Hst) as (H1 & H2 & H3).
  unfold member_rows. rewrite (add_iff_absent c db Hst).
  pose proof (found_null c db) as Hnull. destruct (found_row c db) as [r|] eqn:E; cbn [is_null] in *.
  - apply spaceUpdateMember_run with r; [|done]. rewrite H1, H2, H3.
    apply found_row_key in E as [Hr Hk].
    apply (filter_one member_key); [done|done|by apply is_member_true|].
    intros y _ Hy%is_member_true. congruence.
  - apply insert_run. unfold member_violation. rewrite Hc. cbn [negb violation].
    rewrite (proj2 (clash_false member_key (db_members db) _)), (proj2 (clash_true space_key _ _)); [done| |].
    + unfold member_space, member_row. cbn [sm_tenant_id sm_space_id]. by rewrite H1, H2.
    + unfold member_key, member_row. cbn [sm_tenant_id sm_space_id sm_subject]. rewrite H1, H2, H3. by apply Hnull.
Qed.

Lemma revision_fresh db s :
  spaces_inv db -> s ∈ db_spaces db ->
  (sp_tenant_id s, sp_id s, sp_revision s + 1) ∉ map revision_key (db_history db).
Proof.
  intros Hi Hs (h & Heq & Hh)%list_elem_of_fmap.
  pose proof (si_revisions db Hi s Hs) as Hr.
  assert (sh_after_revision h ∈ seqZ 1 (sp_revision s)) as Hin.
  { rewrite <- Hr. apply (list_elem_of_fmap_2 sh_after_revision). apply elem_filter_b. split; [done|].
    apply history_in_true. unfold revision_key, history_space in *. congruence. }
  apply elem_of_seqZ in Hin. unfold revision_key in Heq. injection Heq as _ _ Hrev. lia.
Qed.

Lemma history_run `{!UUIDLaws} d now id c db s :
  spaces_inv db -> s ∈ db_spaces db -> space_key s = (mc_TenantID c, mc_SpaceID c) ->
  sp_revision s = mc_ExpectedRevision c -> mc_ExpectedRevision c < MaxInt64 ->
  check_history (history_of id c now (found_row c db)) = true -> storable d now id c db ->
  (mc_TenantID c, mc_CommandID c) ∉ map command_key (db_history db) ->
  history_violation d (member_rows c now (cas_rows c now db)) (history_of id c now (found_row c db)) = None.
Proof.
  intros Hi Hs Hk Hr Hmax Hc (_ & Ht1 & Ht2 & Hid) Hcmd.
  pose proof (check_space_revision s (proj1 (si_spaces db Hi s Hs))) as Hb.
  assert (db_history (member_rows c now (cas_rows c now db)) = db_history db /\
          db_spaces (member_rows c now (cas_rows c now db)) = db_spaces (cas_rows c now db)) as [Hh Hsp].
  { unfold member_rows. by destruct (mc_Action c =s AddMember). }
  unfold history_violation. rewrite Hh, Hsp. change (sh_reason _) with (mc_Reason c).
  change (sh_request_id _) with (mc_RequestID c). rewrite Ht1, Ht2, Hc. cbn [orb negb violation].
  rewrite (proj2 (clash_false history_key _ _) Hid).
  change (command_key _) with (mc_TenantID c, mc_CommandID c).
  rewrite (proj2 (clash_false command_key _ _) Hcmd).
  rewrite (proj2 (clash_false revision_key _ _)).
  - rewrite (proj2 (clash_true space_key _ _)); [done|]. cbn [cas_rows db_spaces set_spaces].
    rewrite bumped_key. change (history_space _) with (mc_TenantID c, mc_SpaceID c). rewrite <- Hk.
    by apply list_elem_of_fmap_2.
  - unfold revision_key at 1. cbn [history_of history_row member_history sh_tenant_id sh_space_id
      sh_after_revision h_TenantID h_SpaceID h_AfterRevision].
    rewrite wrap64_id by (unfold int64, MinInt64, MaxInt64 in *; lia).
    unfold space_key in Hk. injection Hk as <- <-. rewrite <- Hr. by apply revision_fresh.
Qed.

Lemma changed_rows_run d now id c db :
  NoDup (map member_key (db_members db)) ->
  spaceMemberState c (before_of (found_row c db)) (bool_decide (is_Some (found_row c db))) = None ->
  match found_row c db with
  | None => check_member (member_row (after_of c now (found_row c db))) = true
  | Some r => check_member (set_member (after_of c now (found_row c db)) r) = true
  end ->
  (mc_TenantID c, mc_SpaceID c) ∈ map space_key (db_spaces (cas_rows c now db)) ->
  snd (spaceProtectAdmin (before_of (found_row c db)) (after_of c now (found_row c db)) db) = Ok tt ->
  history_violation d (member_rows c now (cas_rows c now db)) (history_of id c now (found_row c db)) = None ->
  spaceChangeMemberRows d (Ok id) c now (cas_rows c now db) = (changed_rows id c now db, Ok tt).
Proof.
  intros Hn Hst Hafter Hs Hpr Hh. unfold spaceChangeMemberRows.
  unfold bind at 1. rewrite memberBefore_run, present_scan.
  change (found_row c (cas_rows c now db)) with (found_row c db).
  fold (before_of (found_row c db)). fold (after_of c now (found_row c db)).
  rewrite run_guard, Hst. unfold spaceProtectAdmin. rewrite run_guard.
  unfold spaceProtectAdmin in Hpr. apply guard_result in Hpr.
  match type of Hpr with ?x = None => match goal with |- match ?y with _ => _ end = _ =>
    change y with x; rewrite Hpr end end.
  unfold bind at 1. 
  change (found_row c db) with (found_row c (cas_rows c now db)) in Hst, Hafter |- *.
  rewrite (member_rows_run d c now (cas_rows c now db) Hn Hst Hafter Hs).
  unfold spaceAppendHistory. rewrite run_reads. by apply (insert_run (history_violation d)).
Qed.

(** The conditions under which a valid command goes through. *)
Definition admissible (c : MemberCommand) (db : SpaceDB) : Prop :=
  tenant_active db (mc_TenantID c) /\
  (exists s, s ∈ db_spaces db /\ space_key s = (mc_TenantID c, mc_SpaceID c) /\
     sp_revision s = mc_ExpectedRevision c) /\
  member_transition c (found_row c db) /\ ~ removes_last_admin c db /\
  (mc_TenantID c, mc_CommandID c) ∉ map command_key (db_history db).

Lemma found_check c db m : spaces_inv db -> found_row c db = Some m -> check_member m = true.
Proof. intros Hi [Hm _]%found_row_key. by apply (si_members db Hi). Qed.

Lemma admissible_runs `{!UUIDLaws} d now id c db :
  spaces_inv db -> ValidateMemberCommand c = None -> storable d now id c db -> admissible c db ->
  ChangeSpaceMember d None now (Ok id) c db =
  (changed_rows id c now db, Ok (mc_ExpectedRevision c + 1)).
Proof.
  intros Hi Hv Hst (Ht & (s & Hs & Hk & Hr) & Htr & Hla & Hcmd). destruct (Hst) as (Hn & _).
  pose proof (ValidateMemberCommand_revision c Hv) as [Hlo Hne].
  destruct (ValidateMemberCommand_all c Hv) as (_ & Hact & _ & Hrole%validateMemberAction_cases).
  pose proof (check_space_revision s (proj1 (si_spaces db Hi s Hs))) as Hb.
  assert (mc_ExpectedRevision c < MaxInt64) as Hmax by lia.
  pose proof (fun m => found_check c db m Hi) as Hfc.
  pose proof (proj2 (spaceMemberState_spec c (found_row c db) Hrole Hfc) Htr) as Hstate.
  pose proof (after_checks c now (found_row c db) Hv Hmax Hn Htr Hfc) as Hafter.
  pose proof (history_run d now id c db s Hi Hs Hk Hr Hmax
    (history_checks id c now _ Hv Hmax Hn Htr Hfc) Hst Hcmd) as Hhist.
  pose proof (proj2 (spaceProtectAdmin_spec c now db Hi Htr) Hla) as Hpr.
  assert (spaceCAS d c now db = (cas_rows c now db, Ok tt)) as Hcas.
  { apply spaceCAS_run with s; [by apply cas_unique|done|]. apply check_space_bump; [|done..|lia].
    apply (si_spaces db Hi s Hs). }
  unfold ChangeSpaceMember. rewrite run_guard, Hv. unfold begin_tx. rewrite run_guard. cbn [fmap option_fmap option_map].
  assert (spaceChangeMemberRows d (Ok id) c now (cas_rows c now db) = (changed_rows id c now db, Ok tt)) as Hrows.
  { apply changed_rows_run; [by apply Hi|done|done| |done|done].
    change (db_spaces (cas_rows c now db)) with
      (update_where (cas_hit c) (bump_revision (mc_Actor c) now) (db_spaces db)).
    rewrite bumped_key, <- Hk. by apply list_elem_of_fmap_2. }
  unfold bind, in_tx, map_err. rewrite Hcas, Hrows. unfold ret. do 2 f_equal.
  apply wrap64_id. unfold int64, MinInt64, MaxInt64 in *. lia.
Qed.

Lemma succeeded_admissible d ctx now newid c db db' n :
  spaces_inv db -> ChangeSpaceMember d ctx now newid c db = (db', Ok n) -> admissible c db.
Proof.
  intros Hi Hrun. apply ChangeSpaceMember_Ok in Hrun as Hok. destruct Hok as (_ & Hv & _ & Ht & _).
  apply ChangeSpaceMember_changed in Hrun as (_ & id & _ & [(s & Hf & _) _ Hst Hpr _ _ Hcmd _]).
  destruct (ValidateMemberCommand_all c Hv) as (_ & _ & _ & Hrole%validateMemberAction_cases).
  apply cas_hit_row in Hf as (Hs & Hk & Hr & _).
  apply spaceMemberState_spec in Hst; [|done|intros m; by apply found_check].
  apply spaceProtectAdmin_spec in Hpr; [|done|done].
  split; [done|]. split; [by exists s|done].
Qed.

(** ** Competing and repeated commands *)

Lemma cas_none c db s :
  spaces_inv db -> s ∈ db_spaces db -> space_key s = (mc_TenantID c, mc_SpaceID c) ->
  sp_revision s <> mc_ExpectedRevision c -> List.filter (cas_hit c) (db_spaces db) = [].
Proof.
  intros Hi Hs Hk Hr. apply filter_none. intros x Hx. destruct (cas_hit c x) eqn:E; [|done].
  apply andb_true_iff in E as [E1%is_space_true E2%Z.eqb_eq].
  assert (x = s) as -> by (apply (NoDup_map_inj space_key (db_spaces db)); [apply Hi|done|done|congruence]).
  congruence.
Qed.

Lemma find_space_some tenant id db s :
  s ∈ db_spaces db -> space_key s = (tenant, id) ->
  exists row, List.find (is_space tenant id) (db_spaces db) = Some row.
Proof.
  intros Hs Hk. destruct (List.find _ _) as [row|] eqn:E; [by exists row|].
  pose proof (find_none _ _ E s (proj1 (list_elem_of_In _ _) Hs)) as Hf.
  by rewrite (proj2 (is_space_true _ _ s) Hk) in Hf.
Qed.

Lemma update_where_unmatched {A} p (f : A -> A) l : List.filter p l = [] -> update_where p f l = l.
Proof.
  intros Hf. unfold update_where. induction l as [|x l IH]; cbn in *; [done|].
  destruct (p x); [done|]. by rewrite IH.
Qed.

Lemma stale_conflict d now newid c db s :
  spaces_inv db -> ValidateMemberCommand c = None -> tenant_active db (mc_TenantID c) ->
  s ∈ db_spaces db -> space_key s = (mc_TenantID c, mc_SpaceID c) ->
  sp_revision s <> mc_ExpectedRevision c ->
  ChangeSpaceMember d None now newid c db = (db, Err (Sentinel ErrConflict)).
Proof.
  intros Hi Hv Ht Hs Hk Hr.
  assert (spaceCAS d c now db = (cas_rows c now db, Err (Sentinel ErrConflict))) as Hcas.
  { unfold spaceCAS, update_rows. fold (cas_hit c). unfold bind at 1. rewrite (cas_none c db s) by done.
    cbn -[spaceTenant spaceRoot]. change (set_spaces _ _) with (cas_rows c now db). unfold bind.
    rewrite (spaceTenant_run _ (cas_rows c now db)) by done.
    destruct (find_space_some _ _ db s Hs Hk) as (row & Hrow).
    assert (db_spaces (cas_rows c now db) = db_spaces db) as Hsp
      by (apply update_where_unmatched; by apply (cas_none c db s)).
    unfold spaceRoot, reads, query_one. change (Z.of_nat 0 =? 1) with false.
    change (negb (Z.of_nat 0 =? 0)) with false. cbn beta iota delta [refuse_if ret]. by rewrite Hsp, Hrow. }
  unfold ChangeSpaceMember. rewrite run_guard, Hv. unfold begin_tx. rewrite run_guard. cbn [fmap option_fmap option_map].
  unfold bind, in_tx, map_err. by rewrite Hcas.
Qed.

Lemma changed_space c now id db db' s :
  changed c now id db db' -> List.filter (cas_hit c) (db_spaces db) = [s] ->
  bump_revision (mc_Actor c) now s ∈ db_spaces db'.
Proof.
  intros Hch Hf. rewrite (ch_spaces _ _ _ _ _ Hch). apply cas_hit_row in Hf as (Hs & _ & _ & Hh).
  apply elem_update_where. left. by exists s.
Qed.

(** Histories only grow. *)
Lemma step_history d db db' : spaces_step d db db' -> exists hs, db_history db' = db_history db ++ hs.
Proof.
  intros [ctx now newid c db0|ctx now newid c db0|tenants buckets db0 Hn Ht Hb];
    [| |exists []; by rewrite app_nil_r].
  - destruct (CreateSpace _ _ _ _ _ _) as [db1 [v|e]] eqn:E; cbn.
    + apply CreateSpace_Ok in E as (_ & _ & _ & _ & id & _ & -> & _). by eexists.
    + apply CreateSpace_Err in E as ->. exists []. by rewrite app_nil_r.
  - destruct (ChangeSpaceMember _ _ _ _ _ _) as [db1 [n|e]] eqn:E; cbn.
    + apply ChangeSpaceMember_changed in E as (_ & id & _ & Hch). rewrite (ch_history _ _ _ _ _ Hch). by eexists.
    + apply ChangeSpaceMember_Err in E as ->. exists []. by rewrite app_nil_r.
Qed.

Lemma steps_history d db db' :
  rtc (spaces_step d) db db' -> exists hs, db_history db' = db_history db ++ hs.
Proof.
  induction 1 as [db|db1 db2 db3 Hs _ (hs & IH)]; [exists []; by rewrite app_nil_r|].
  apply step_history in Hs as (hs' & E). rewrite IH, E, <- app_assoc. by eexists.
Qed.
End Outcome.

(** ** Properties *)

#[local] Existing Instance SpacesExample.uuids.
#[local] Existing Instance SpacesExample.uuid_laws.

(** A valid member command goes through exactly when the tenant is active, the space
    is at the expected revision, the membership state machine allows the action, the
    space keeps an active user admin and the command id is new in the tenant; no CHECK,
    UNIQUE or FOREIGN KEY constraint of the schema refuses an allowed command.  It then
    answers the next revision, without overflow. *)
Theorem ChangeSpaceMember_succeeds_iff `{UUIDLaws} d now id c db :
  spaces_reachable d db -> ValidateMemberCommand c = None -> storable d now id c db ->
  snd (ChangeSpaceMember d None now (Ok id) c db) = Ok (mc_ExpectedRevision c + 1) <-> admissible c db.
Proof.
  intros Hi%spaces_reachable_inv Hv Hst. split.
  - destruct (ChangeSpaceMember _ _ _ _ _ _) as [db' r] eqn:E. cbn. intros ->. by eapply succeeded_admissible.
  - intros Ha. by rewrite admissible_runs.
Qed.

Lemma ChangeSpaceMember_succeeds_iff_witness :
  let c := SpacesExample.add_bob in
  storable dialectSQLite SpacesExample.now SpacesExample.h2 c SpacesExample.db1 /\
  admissible c SpacesExample.db1.
Proof.
  intros c.
  assert (storable dialectSQLite SpacesExample.now SpacesExample.h2 c SpacesExample.db1) as Hs.
  { split; [vm_compute; discriminate|]. split; [reflexivity|]. split; [reflexivity|].
    apply clash_false. vm_compute. reflexivity. }
  split; [exact Hs|].
  assert (ValidateMemberCommand c = None) as Hv by (vm_compute; reflexivity).
  refine (proj1 (ChangeSpaceMember_succeeds_iff dialectSQLite SpacesExample.now SpacesExample.h2 c
           SpacesExample.db1 SpacesExample.reach1 Hv Hs) _).
  vm_compute. reflexivity.
Defined.

(** Of two member commands for the same revision of a space at most one is applied:
    after the first went through, the second is refused with ErrConflict and changes
    nothing, whatever it asks for. *)
Theorem one_command_per_revision `{UUIDLib} d ctx now1 now2 newid1 newid2 c1 c2 db db1 n :
  spaces_reachable d db -> ChangeSpaceMember d ctx now1 newid1 c1 db = (db1, Ok n) ->
  ValidateMemberCommand c2 = None ->
  mc_TenantID c2 = mc_TenantID c1 -> mc_SpaceID c2 = mc_SpaceID c1 ->
  mc_ExpectedRevision c2 = mc_ExpectedRevision c1 ->
  ChangeSpaceMember d None now2 newid2 c2 db1 = (db1, Err (Sentinel ErrConflict)).
Proof.
  intros Hr Hrun Hv Ht Hs He. apply ChangeSpaceMember_Ok in Hrun as Hok.
  destruct Hok as (_ & _ & _ & Hten & (s & Hf & _) & _).
  assert (spaces_inv db1) as Hi1.
  { apply (spaces_reachable_inv d). eapply reach_step; [exact Hr|].
    pose proof (step_change d ctx now1 newid1 c1 db) as Hstep. by rewrite Hrun in Hstep. }
  apply ChangeSpaceMember_changed in Hrun as (_ & id & _ & Hch).
  pose proof (changed_space _ _ _ _ _ _ Hch Hf) as Hin. apply cas_hit_row in Hf as (_ & Hk & Hrev & _).
  apply (stale_conflict d now2 newid2 c2 db1 (bump_revision (mc_Actor c1) now1 s)); [done|done| |done| |].
  - rewrite Ht. destruct Hten as (row & Hrow). exists row. by rewrite (proj1 (ch_rest _ _ _ _ _ Hch)).
  - rewrite Ht, Hs, <- Hk. done.
  - cbn. lia.
Qed.

Lemma one_command_per_revision_witness :
  let c2 := SpacesExample.command 1 SpacesExample.ann RevokeMember ""
              "c0000000-0000-4000-8000-000000000003" in
  ChangeSpaceMember dialectSQLite None SpacesExample.now (Ok SpacesExample.h1) c2 SpacesExample.db2 =
  (SpacesExample.db2, Err (Sentinel ErrConflict)).
Proof.
  intros c2.
  apply (one_command_per_revision dialectSQLite None SpacesExample.now SpacesExample.now
           (Ok SpacesExample.h2) (Ok SpacesExample.h1) SpacesExample.add_bob c2 SpacesExample.db1
           SpacesExample.db2 2 SpacesExample.reach1); vm_compute; reflexivity.
Defined.

(** A command id is spent by the command it went through with: however the store
    evolves afterwards, no member command with that id goes through in the tenant
    again, and the refused ones change nothing. *)
Theorem command_applies_once `{UUIDLib} d ctx1 ctx2 now1 now2 newid1 newid2 c1 c2 db db1 db2 n :
  ChangeSpaceMember d ctx1 now1 newid1 c1 db = (db1, Ok n) -> rtc (spaces_step d) db1 db2 ->
  mc_TenantID c2 = mc_TenantID c1 -> mc_CommandID c2 = mc_CommandID c1 ->
  exists e, ChangeSpaceMember d ctx2 now2 newid2 c2 db2 = (db2, Err e).
Proof.
  intros (_ & id & _ & Hch)%ChangeSpaceMember_changed (hs & Hh)%steps_history Ht Hc.
  destruct (ChangeSpaceMember d ctx2 now2 newid2 c2 db2) as [db3 [m|e]] eqn:E.
  - apply ChangeSpaceMember_changed in E as (_ & id' & _ & Hch'). destruct (ch_command _ _ _ _ _ Hch').
    rewrite Hh, (ch_history _ _ _ _ _ Hch), Ht, Hc, !map_app, !elem_of_app. left. right. by left.
  - exists e. by rewrite (ChangeSpaceMember_Err _ _ _ _ _ _ _ _ E).
Qed.

Lemma command_applies_once_witness :
  let c2 := SpacesExample.command 2 SpacesExample.bob RevokeMember ""
              (mc_CommandID SpacesExample.add_bob) in
  exists e, ChangeSpaceMember dialectSQLite None SpacesExample.now (Ok SpacesExample.h1) c2
              SpacesExample.db2 = (SpacesExample.db2, Err e).
Proof.
  intros c2.
  apply (command_applies_once dialectSQLite None None SpacesExample.now SpacesExample.now
           (Ok SpacesExample.h2) (Ok SpacesExample.h1) SpacesExample.add_bob c2 SpacesExample.db1
           SpacesExample.db2 SpacesExample.db2 2);
    [vm_compute; reflexivity|apply rtc_refl|reflexivity|reflexivity].
Defined.
