(* ===== verification/Access.v ===== *)
(** * The access decision point (src/internal/access)

    Principals, resources and ACL entries (types.go), the deny-only resource
    boundary (resource_boundary.go), permission names (permissions.go), contexts
    (context.go) and the authorization decision (authorizer.go).  The store and the
    boundary's readers are ports: [AccessReader] and the two optional readers.  A
    nil or typed-nil reader is [None]. *)

From Stdlib Require Import Lia Bool ZArith.
From stdpp Require Import base gmap strings list numbers.
From S2P Require Import Prelude GoStrings GoTime GoErrors Spaces.

Open Scope Z_scope.

(** ** Data *)

Definition PrincipalUser : string := "user".
Definition PrincipalService : string := "service".
Definition PrincipalAnonymous : string := "anonymous".
Definition PrincipalShare : string := "share".
Definition PrincipalPublic : string := "public_asset".
Definition PrincipalSystem : string := "system".

Definition ResourceBucket : string := "bucket".
Definition ResourceFolder : string := "folder".
Definition ResourceObject : string := "object".

Definition ActionList : string := "object:list".
Definition ActionRead : string := "object:read".
Definition ActionPreview : string := "object:preview".
Definition ActionDownload : string := "object:download".
Definition ActionCreate : string := "object:create".
Definition ActionWrite : string := "object:write".
Definition ActionDelete : string := "object:delete".
Definition ActionAdminDelete : string := "vault.file.delete".
Definition ActionRestore : string := "object:restore".
Definition ActionShare : string := "object:share".
Definition ActionManageACL : string := "object:manage_acl".
Definition ActionPublish : string := "asset:publish".
Definition ActionExport : string := "object:export".
Definition ActionAll : string := "*".

Definition allActions : list string :=
  [ActionList; ActionRead; ActionPreview; ActionDownload; ActionCreate; ActionWrite;
   ActionDelete; ActionAdminDelete; ActionRestore; ActionShare; ActionManageACL;
   ActionPublish; ActionExport; ActionAll].

Definition ValidAction (action : string) : bool := contains allActions action.

Definition PrincipalTypeUser : string := "user".
Definition PrincipalTypeDepartment : string := "department".
Definition PrincipalTypeGroup : string := "group".
Definition PrincipalTypeRole : string := "role".
Definition PrincipalTypeAuthenticated : string := "authenticated".
Definition PrincipalTypeEveryone : string := "everyone".

Definition EffectAllow : string := "allow".
Definition EffectDeny : string := "deny".

Definition PermissionVaultFileDelete : string := "vault.file.delete".
Definition SystemActorAntivirus : string := "system:antivirus".

Record Capability := {
  cap_ID : string; cap_TenantID : string; cap_Bucket : string; cap_Key : string;
  cap_Actions : list string
}.

Record Principal := {
  SubjectID : string; TenantID : string; Kind : string;
  Roles : list string; Groups : list string; Scopes : list string;
  p_Capability : option Capability
}.

(** The zero Principal. *)
Definition noPrincipal : Principal := {|
  SubjectID := ""; TenantID := ""; Kind := ""; Roles := []; Groups := []; Scopes := [];
  p_Capability := None |}.

Record Resource := {
  r_TenantID : string; r_Bucket : string; r_Key : string; r_Kind : string; r_OwnerID : string
}.

Record Decision := { d_Allowed : bool; d_Reason : string }.

Record ACLEntry := {
  acl_ID : string; acl_TenantID : string; acl_Bucket : string; acl_Key : string;
  acl_ResourceKind : string; acl_PrincipalType : string; acl_PrincipalID : string;
  acl_Action : string; acl_Effect : string; acl_Inherit : bool;
  acl_CreatedBy : string; acl_CreatedAt : time; acl_OwnerID : string
}.

(** A request context: the principal it carries, its error on entry, and its error
    when read again after a port call. *)
Record Ctx := {
  ctx_Principal : option Principal;
  ctx_Err : option error;
  ctx_ErrAfter : option error
}.

Definition PrincipalFrom (ctx : Ctx) : Principal := default noPrincipal (ctx_Principal ctx).
Definition subjectFromContext (ctx : Ctx) : string := SubjectID (PrincipalFrom ctx).

Definition WithPrincipal (ctx : Ctx) (principal : Principal) : Ctx :=
  {| ctx_Principal := Some principal; ctx_Err := ctx_Err ctx; ctx_ErrAfter := ctx_ErrAfter ctx |}.

Definition systemPrincipal (subject tenant : string) : Principal := {|
  SubjectID := subject; TenantID := tenant; Kind := PrincipalSystem;
  Roles := []; Groups := []; Scopes := []; p_Capability := None |}.

Definition SystemContext (ctx : Ctx) (tenant : string) : Ctx :=
  WithPrincipal ctx (systemPrincipal "aero-vault-system" tenant).

Definition AntivirusContext (ctx : Ctx) (tenant : string) : Ctx :=
  WithPrincipal ctx (systemPrincipal SystemActorAntivirus tenant).

Definition CapabilityPrincipal (kind : string) (capability : Capability) : Principal := {|
  SubjectID := (kind ++ ":" ++ cap_ID capability)%string;
  TenantID := cap_TenantID capability; Kind := kind;
  Roles := []; Groups := []; Scopes := []; p_Capability := Some capability |}.

Definition ActionForPermission (permission : string) : option string :=
  if (permission =s PermissionVaultFileDelete) then Some ActionDelete else None.

Definition IsSystemDeleteExempt (principal : Principal) (tenant : string) : bool :=
  (Kind principal =s PrincipalSystem) && (TenantID principal <>s "") &&
  (TenantID principal =s tenant).

Record ChunkRef := { ch_TenantID : string; ch_Bucket : string; ch_Key : string; ch_ObjectID : Z }.

Definition ValidateChunkRef (ref : ChunkRef) : option error :=
  if (ch_TenantID ref =s "") || (ch_Bucket ref =s "") || (ch_Key ref =s "")
  then Some (errorf ErrInvalidArgument "incomplete chunk scope")
  else if ch_ObjectID ref <=? 0
  then Some (errorf ErrInvalidArgument "chunk object ID must be positive")
  else None.

(** ** The resource boundary (resource_boundary.go) *)

Definition BindingReader : Type := string -> string -> BindingResult * option error.
Definition CoverageReader : Type := CoverageScope -> CoverageResult * option error.

Record ResourceBoundary := {
  rb_binding : option BindingReader;
  rb_coverage : option CoverageReader
}.

Definition boundaryFault (operation : string) (cause : error) : option error :=
  Some (Fault operation cause).

Definition IsResourceBoundaryFault (err : option error) : bool := Is err ErrResourceBoundaryFault.
Definition IsResourceBoundaryDenied (err : option error) : bool :=
  negb (IsResourceBoundaryFault err) && Is err ErrDenied.

Definition boundaryTenantAdmission (known : bool) (status : string) : option error :=
  if known && (status <>s "active")
  then errors_Join [Some (Sentinel ErrDenied); Some (Sentinel ErrTenantUnavailable)]
  else None.

(** [boundaryContextError]; a nil context is [None]. *)
Definition boundaryContextError (ctx : option Ctx) : option error :=
  match ctx with
  | None => Some (errorf ErrInvalidArgument "nil boundary context")
  | Some c => ctx_Err c
  end.

Definition errAfter (ctx : option Ctx) : option error :=
  match ctx with None => None | Some c => ctx_ErrAfter c end.

(** Continues with [k] unless [e] is an error, which becomes a fault. *)
Definition orFault (operation : string) (e : option error) (k : option error) : option error :=
  match e with
  | Some cause => boundaryFault operation cause
  | None => k
  end.

Section Boundary.
Context `{UUIDLib}.

Definition CheckBucket (b : option ResourceBoundary) (ctx : option Ctx)
    (tenant bucket : string) : option error :=
  orFault "binding" (boundaryContextError ctx) (
  orFault "binding" (ValidateBindingInput tenant bucket) (
  match b ≫= rb_binding with
  | None => boundaryFault "binding" (NewError "missing binding reader")
  | Some probe =>
      let '(result, err) := probe tenant bucket in
      orFault "binding" (errors_Join [err; errAfter ctx]) (
      orFault "binding" (ValidateBindingResult result) (
      if (br_TenantID result <>s tenant) || (br_Bucket result <>s bucket) then
        boundaryFault "binding" (errorf ErrInvalidArgument "binding scope echo")
      else if (br_State result =s BindingBound) then
        errors_Join [Some (Sentinel ErrDenied); Some (Sentinel ErrSpaceBound)]
      else boundaryTenantAdmission (br_TenantKnown result) (br_TenantStatus result)))
  end)).

Definition CheckCoverage (b : option ResourceBoundary) (ctx : option Ctx)
    (scope : CoverageScope) : option error :=
  orFault "coverage" (boundaryContextError ctx) (
  orFault "coverage" (ValidateCoverageScope scope) (
  match b ≫= rb_coverage with
  | None => boundaryFault "coverage" (NewError "missing coverage reader")
  | Some probe =>
      let '(result, err) := probe scope in
      orFault "coverage" (errors_Join [err; errAfter ctx]) (
      orFault "coverage" (ValidateCoverageObservation scope result) (
      if negb (cr_Complete result) then
        boundaryFault "coverage" (NewError "incomplete coverage observation")
      else if (cr_State result =s CoverageBound) then
        errors_Join [Some (Sentinel ErrDenied); Some (Sentinel ErrSpaceBound)]
      else if (cs_Kind scope =s CoverageTenant) then
        boundaryTenantAdmission (cr_TenantKnown result) (cr_TenantStatus result)
      else None))
  end)).
End Boundary.

(** ** The decision (authorizer.go) *)

(** The two reads [Authorize] makes of the store. *)
Class AccessReader (S : Type) := {
  ListApplicableACL : S -> string -> string -> string -> result (list ACLEntry);
  ListSubjectDepartments : S -> string -> string -> result (list string)
}.

Record Config := {
  Enabled : bool;
  DefaultPolicy : string;
  ShareSecret : string;
  DeleteFailOpen : bool
}.

Definition DefaultDeny : string := "deny".
Definition DefaultTenant : string := "tenant".

Definition denied (reason : string) : Decision := {| d_Allowed := false; d_Reason := reason |}.
Definition allowed (reason : string) : Decision := {| d_Allowed := true; d_Reason := reason |}.

Definition isDeleteAction (action : string) : bool :=
  (action =s ActionDelete) || (action =s ActionAdminDelete).

Definition tenantMatches (p : Principal) (r : Resource) : bool :=
  (TenantID p =s "*") || ((TenantID p <>s "") && (TenantID p =s r_TenantID r)).

Definition actionMatches (granted wanted : string) : bool :=
  if (granted =s ActionAll) || (granted =s wanted) then true
  else if (wanted =s ActionAdminDelete) && (granted =s ActionDelete) then true
  else if (wanted =s ActionPreview) || (wanted =s ActionDownload) then (granted =s ActionRead)
  else false.

Definition principalMatches (entry : ACLEntry) (p : Principal) (departments : list string) : bool :=
  let t := acl_PrincipalType entry in
  if (t =s PrincipalTypeEveryone) then true
  else if (t =s PrincipalTypeAuthenticated) then
    (Kind p <>s PrincipalAnonymous) && (Kind p <>s PrincipalPublic) && (Kind p <>s PrincipalShare)
  else if (t =s PrincipalTypeUser) then (acl_PrincipalID entry =s SubjectID p)
  else if (t =s PrincipalTypeDepartment) then contains departments (acl_PrincipalID entry)
  else if (t =s PrincipalTypeGroup) then contains (Groups p) (acl_PrincipalID entry)
  else if (t =s PrincipalTypeRole) then contains (Roles p) (acl_PrincipalID entry)
  else false.

Definition matchingEntries (entries : list ACLEntry) (p : Principal)
    (departments : list string) (action : string) : list ACLEntry :=
  List.filter (fun entry => actionMatches (acl_Action entry) action &&
                       principalMatches entry p departments) entries.

Definition hasEffect (entries : list ACLEntry) (effect : string) : bool :=
  existsb (fun entry => acl_Effect entry =s effect) entries.

Definition capabilityAllows (capability : option Capability) (resource : Resource)
    (action : string) : bool :=
  match capability with
  | None => false
  | Some c =>
      if (cap_TenantID c <>s r_TenantID resource) || (cap_Bucket c <>s r_Bucket resource) then false
      else if (cap_Key c <>s r_Key resource) then false
      else existsb (fun granted => actionMatches granted action) (cap_Actions c)
  end.

Definition isAdministrator (principal : Principal) : bool :=
  if (TenantID principal =s "*") || contains (Scopes principal) "admin" then true
  else existsb (fun role => (role =s "vault.tenant_admin") || (role =s "vault.file_admin"))
         (Roles principal).

Definition scopeAllows (principal : Principal) (action : string) : bool :=
  if contains (Scopes principal) "admin" then true
  else if (action =s ActionManageACL) then false
  else if (action =s ActionShare) then contains (Scopes principal) "share"
  else if (action =s ActionPublish) then
    contains (Scopes principal) "publish" ||
    existsb (fun role => (role =s "vault.publisher") || (role =s "vault.publisher_admin"))
      (Roles principal)
  else
    let read := (action =s ActionList) || (action =s ActionRead) || (action =s ActionPreview) ||
                (action =s ActionDownload) || (action =s ActionExport) in
    let wanted := (if read then "read" else "write")%string in
    contains (Scopes principal) wanted ||
    existsb (fun role => (role =s "vault.member") && read || HasPrefix role "vault.publisher")
      (Roles principal).

Definition hasExplicitDeleteGrant (principal : Principal) (entries : list ACLEntry) : bool :=
  contains (Scopes principal) PermissionVaultFileDelete ||
  contains (Roles principal) PermissionVaultFileDelete ||
  existsb (fun entry => (acl_Effect entry =s EffectAllow) && (acl_Action entry =s ActionDelete)) entries.

Definition hasExplicitAdminDeleteGrant (principal : Principal) (entries : list ACLEntry) : bool :=
  contains (Scopes principal) PermissionVaultFileDelete ||
  contains (Roles principal) PermissionVaultFileDelete ||
  existsb (fun entry => (acl_Effect entry =s EffectAllow) &&
    ((acl_Action entry =s ActionAdminDelete) || (acl_Action entry =s ActionDelete))) entries.

Definition authorizeDelete (principal : Principal) (action : string) (resource : Resource)
    (matching : list ACLEntry) : Decision :=
  if hasEffect matching EffectDeny then denied "explicit_deny"
  else if (action =s ActionAdminDelete) then
    if capabilityAllows (p_Capability principal) resource action ||
       hasExplicitAdminDeleteGrant principal matching || isAdministrator principal
    then allowed "explicit_delete_grant"
    else denied "delete_permission_required"
  else if hasExplicitDeleteGrant principal matching then allowed "explicit_delete_grant"
  else denied "default_deny".

Definition authorizeDefault (cfg : Config) (principal : Principal) (action : string)
    (entries : list ACLEntry) : Decision :=
  if negb (Nat.eqb (length entries) 0) then denied "resource_acl_no_match"
  else if (DefaultPolicy cfg =s DefaultTenant) && scopeAllows principal action
  then allowed "tenant_default"
  else denied "default_deny".

Definition authorizeMatching (cfg : Config) (principal : Principal) (action : string)
    (resource : Resource) (entries matching : list ACLEntry) : Decision :=
  if isDeleteAction action then authorizeDelete principal action resource matching
  else if hasEffect matching EffectDeny then denied "explicit_deny"
  else if hasEffect matching EffectAllow then allowed "acl_allow"
  else if capabilityAllows (p_Capability principal) resource action then allowed "capability"
  else if (SubjectID principal <>s "") && (SubjectID principal =s r_OwnerID resource)
  then allowed "owner"
  else if isAdministrator principal then allowed "administrator"
  else authorizeDefault cfg principal action entries.

(** [Manager]: the store is the state [S] the operations act on. *)
Record Manager := { m_cfg : Config; m_boundary : option ResourceBoundary }.

Section Authorize.
Context `{UUIDLib} {S : Type} `{AccessReader S}.

Definition Authorize (m : Manager) (store : S) (ctx : Ctx) (principal : Principal)
    (action : string) (resource : Resource) : Decision * option error :=
  match CheckBucket (m_boundary m) (Some ctx) (r_TenantID resource) (r_Bucket resource) with
  | Some err => (denied "resource_boundary", Some err)
  | None =>
      if (Kind principal =s PrincipalSystem) then (allowed "trusted_system", None)
      else if negb (Enabled (m_cfg m)) then
        if isDeleteAction action && negb (DeleteFailOpen (m_cfg m))
        then (denied "access_control_disabled", None)
        else (allowed "access_control_disabled", None)
      else if (SubjectID principal =s "") then (denied "missing_principal", None)
      else if negb (tenantMatches principal resource) then (denied "tenant_mismatch", None)
      else match ListApplicableACL store (r_TenantID resource) (r_Bucket resource) (r_Key resource) with
      | Err err => (denied "acl_store_error", Some err)
      | Ok entries =>
          match ListSubjectDepartments store (r_TenantID resource) (SubjectID principal) with
          | Err err => (denied "directory_store_error", Some err)
          | Ok departments =>
              (authorizeMatching (m_cfg m) principal action resource entries
                 (matchingEntries entries principal departments action), None)
          end
      end
  end.

(** [authorizeOrDenied], called by every [m.require]. *)
Definition require (m : Manager) (store : S) (ctx : Ctx) (action : string)
    (resource : Resource) : option error :=
  let '(decision, err) := Authorize m store ctx (PrincipalFrom ctx) action resource in
  match err with
  | Some e => if IsResourceBoundaryFault (Some e) then Some e
              else errors_Join [Some (Sentinel ErrDenied); Some e]
  | None => if negb (d_Allowed decision)
            then errors_Join [Some (Sentinel ErrDenied); Some (NewError (d_Reason decision))]
            else None
  end.
End Authorize.
