(* ===== verification/AccessProps.v ===== *)
(** * Correctness of the access decision

    The boundary admits only authoritative observations of unbound buckets; the
    decision refines an abstract permission relation; explicit denies, tenant
    isolation and delete grants. *)

From Stdlib Require Import Lia Bool ZArith.
From stdpp Require Import base gmap strings list numbers.
From S2P Require Import Prelude GoStrings GoErrors Spaces Access.

Open Scope Z_scope.

Lemma orFault_None op e k : orFault op e k = None <-> e = None /\ k = None.
Proof. destruct e; cbn; naive_solver. Qed.

Lemma orFault_cases op e k err :
  orFault op e k = Some err -> (exists cause, err = Fault op cause) \/ k = Some err.
Proof. destruct e; cbn; intros Ho; [injection Ho as <-; eauto|by right]. Qed.

Lemma boundaryTenantAdmission_None known status :
  boundaryTenantAdmission known status = None <-> known = false \/ status = "active"%string.
Proof.
  unfold boundaryTenantAdmission. destruct known; cbn; [|naive_solver].
  destruct (String.eqb_spec status "active"); cbn; naive_solver.
Qed.

Section Boundary.
Context `{UUIDLib}.

(** An authoritative observation that lets the bucket through. *)
Definition admitted (b : option ResourceBoundary) (ctx : option Ctx) (tenant bucket : string) : Prop :=
  exists c probe result,
    ctx = Some c /\ ctx_Err c = None /\ ctx_ErrAfter c = None /\
    ValidateBindingInput tenant bucket = None /\
    b ≫= rb_binding = Some probe /\ probe tenant bucket = (result, None) /\
    ValidateBindingResult result = None /\
    br_TenantID result = tenant /\ br_Bucket result = bucket /\
    br_State result = BindingUnbound /\
    (br_TenantKnown result = false \/ br_TenantStatus result = "active"%string).

Lemma ValidateBindingResult_state r :
  ValidateBindingResult r = None -> br_State r = BindingBound \/ br_State r = BindingUnbound.
Proof.
  unfold ValidateBindingResult. intros Hv. apply andThen_None in Hv as [_ Hv].
  destruct (String.eqb_spec (br_State r) BindingBound); [by left|].
  destruct (String.eqb_spec (br_State r) BindingUnbound); [by right|].
  by destruct (_ && _).
Qed.

Lemma CheckBucket_None b ctx tenant bucket :
  CheckBucket b ctx tenant bucket = None <-> admitted b ctx tenant bucket.
Proof.
  unfold CheckBucket, admitted. rewrite !orFault_None. split.
  - intros (Hc & Hi & Hr). destruct ctx as [c|]; [|done]. cbn in Hc.
    destruct (b ≫= rb_binding) as [probe|]; [|done].
    destruct (probe tenant bucket) as [result err] eqn:Hp.
    rewrite !orFault_None in Hr. destruct Hr as (Hj & Hv & Hr).
    apply errors_Join_two in Hj as [-> Ha]. cbn in Ha.
    destruct (String.eqb_spec (br_TenantID result) tenant); [|done].
    destruct (String.eqb_spec (br_Bucket result) bucket); [|done]. cbn in Hr.
    destruct (String.eqb_spec (br_State result) BindingBound) as [|Hnb]; [done|].
    apply boundaryTenantAdmission_None in Hr.
    destruct (ValidateBindingResult_state _ Hv) as [|Hu]; [done|].
    exists c, probe, result. done.
  - intros (c & probe & result & -> & Hc & Ha & Hi & Hb & Hp & Hv & Ht & Hbk & Hs & Hst).
    cbn. rewrite Hc, Hb, Hp. split; [done|]. split; [done|].
    rewrite !orFault_None. cbn. rewrite Ha. split; [done|]. split; [done|].
    rewrite Ht, Hbk, Hs, !streqb_refl. cbn. by apply boundaryTenantAdmission_None.
Qed.

Lemma CheckBucket_Some b ctx tenant bucket err :
  CheckBucket b ctx tenant bucket = Some err ->
  (exists cause, err = Fault "binding" cause) \/
  err = Wrap "" [Sentinel ErrDenied; Sentinel ErrSpaceBound] \/
  err = Wrap "" [Sentinel ErrDenied; Sentinel ErrTenantUnavailable].
Proof.
  unfold CheckBucket. intros Hc.
  apply orFault_cases in Hc as [|Hc]; [by left|]. apply orFault_cases in Hc as [|Hc]; [by left|].
  destruct (b ≫= rb_binding) as [probe|]; [|left; injection Hc as <-; eauto].
  destruct (probe tenant bucket) as [result perr].
  apply orFault_cases in Hc as [|Hc]; [by left|]. apply orFault_cases in Hc as [|Hc]; [by left|].
  destruct (_ || _); [left; injection Hc as <-; eauto|].
  destruct (br_State result =s BindingBound); [cbn in Hc; simplify_eq; auto|].
  unfold boundaryTenantAdmission in Hc. destruct (_ && _); cbn in Hc; simplify_eq; auto.
Qed.
End Boundary.

(** The bucket boundary admits a request exactly on an authoritative observation: a
    live context before and after the probe, valid names, a configured reader that
    answered without error, a well-formed result echoing the exact tenant and bucket,
    no space bound to it, and a tenant that is unknown or active. *)
Theorem CheckBucket_admits_iff `{UUIDLib} b ctx tenant bucket :
  CheckBucket b ctx tenant bucket = None <-> admitted b ctx tenant bucket.
Proof. apply CheckBucket_None. Qed.

(** Every refusal of the bucket boundary is either a fault or a denial, never both,
    and a denial names a bound space or an unavailable tenant. *)
Theorem CheckBucket_refusals `{UUIDLib} b ctx tenant bucket :
  let err := CheckBucket b ctx tenant bucket in
  match err with
  | None => True
  | Some _ =>
      IsResourceBoundaryDenied err = negb (IsResourceBoundaryFault err) /\
      (IsResourceBoundaryDenied err = true ->
         Is err ErrSpaceBound || Is err ErrTenantUnavailable = true)
  end.
Proof.
  cbv zeta. destruct (CheckBucket b ctx tenant bucket) as [e|] eqn:E; [|done].
  apply CheckBucket_Some in E as [[c ->]|[->| ->]]; by unfold IsResourceBoundaryDenied.
Qed.

Section Authorize.
Context `{UUIDLib} {S : Type} `{AccessReader S}.

(** The entry speaks about this caller doing this action. *)
Definition applies (p : Principal) (action : string) (entries : list ACLEntry)
    (departments : list string) (e : ACLEntry) : Prop :=
  e ∈ entries /\ actionMatches (acl_Action e) action = true /\
  principalMatches e p departments = true.

Definition holdsPermission (p : Principal) (perm : string) : Prop :=
  perm ∈ Scopes p \/ perm ∈ Roles p.

(** The abstract permission relation of an enabled decision point: what the ACL
    entries of the resource, the caller's capability, ownership, roles and scopes
    permit. *)
Definition permitted (cfg : Config) (p : Principal) (action : string) (r : Resource)
    (entries : list ACLEntry) (departments : list string) : Prop :=
  let granted P := exists e, applies p action entries departments e /\
                             acl_Effect e = EffectAllow /\ P (acl_Action e) in
  (forall e, applies p action entries departments e -> acl_Effect e <> EffectDeny) /\
  if (action =s ActionDelete) then
    holdsPermission p PermissionVaultFileDelete \/ granted (fun a => a = ActionDelete)
  else if (action =s ActionAdminDelete) then
    capabilityAllows (p_Capability p) r action = true \/ isAdministrator p = true \/
    holdsPermission p PermissionVaultFileDelete \/
    granted (fun a => a = ActionAdminDelete \/ a = ActionDelete)
  else
    granted (fun _ => True) \/
    capabilityAllows (p_Capability p) r action = true \/
    (SubjectID p <> "" /\ SubjectID p = r_OwnerID r)%string \/
    isAdministrator p = true \/
    (entries = [] /\ DefaultPolicy cfg = DefaultTenant /\ scopeAllows p action = true).

Lemma matching_elem entries p departments action e :
  e ∈ matchingEntries entries p departments action <-> applies p action entries departments e.
Proof.
  unfold matchingEntries, applies. rewrite list_elem_of_In, filter_In, <- list_elem_of_In.
  by rewrite andb_true_iff.
Qed.

Lemma hasEffect_true l effect :
  hasEffect l effect = true <-> exists e, e ∈ l /\ acl_Effect e = effect.
Proof.
  unfold hasEffect. rewrite existsb_elem. by setoid_rewrite streqb_true.
Qed.

Lemma hasEffect_false l effect :
  hasEffect l effect = false <-> forall e, e ∈ l -> acl_Effect e <> effect.
Proof.
  unfold hasEffect. rewrite existsb_none. by setoid_rewrite streqb_false.
Qed.

Lemma allowed_if (c : bool) x y :
  d_Allowed (if c then x else y) = if c then d_Allowed x else d_Allowed y.
Proof. by destruct c. Qed.

Lemma hasExplicitDeleteGrant_true p entries departments action :
  hasExplicitDeleteGrant p (matchingEntries entries p departments action) = true <->
  holdsPermission p PermissionVaultFileDelete \/
  exists e, applies p action entries departments e /\ acl_Effect e = EffectAllow /\
            acl_Action e = ActionDelete.
Proof.
  unfold hasExplicitDeleteGrant, holdsPermission.
  rewrite !orb_true_iff, !contains_spec, existsb_elem.
  setoid_rewrite andb_true_iff. setoid_rewrite streqb_true. by setoid_rewrite matching_elem.
Qed.

Lemma hasExplicitAdminDeleteGrant_true p entries departments action :
  hasExplicitAdminDeleteGrant p (matchingEntries entries p departments action) = true <->
  holdsPermission p PermissionVaultFileDelete \/
  exists e, applies p action entries departments e /\ acl_Effect e = EffectAllow /\
    (acl_Action e = ActionAdminDelete \/ acl_Action e = ActionDelete).
Proof.
  unfold hasExplicitAdminDeleteGrant, holdsPermission.
  rewrite !orb_true_iff, !contains_spec, existsb_elem.
  setoid_rewrite andb_true_iff. setoid_rewrite orb_true_iff.
  setoid_rewrite streqb_true. by setoid_rewrite matching_elem.
Qed.

Lemma hasEffect_deny_false p entries departments action :
  hasEffect (matchingEntries entries p departments action) EffectDeny = false <->
  forall e, applies p action entries departments e -> acl_Effect e <> EffectDeny.
Proof. rewrite hasEffect_false. by setoid_rewrite matching_elem. Qed.

Lemma hasEffect_allow_true p entries departments action :
  hasEffect (matchingEntries entries p departments action) EffectAllow = true <->
  exists e, applies p action entries departments e /\ acl_Effect e = EffectAllow /\ True.
Proof.
  rewrite hasEffect_true. setoid_rewrite matching_elem.
  split; intros (e & ? & ?); exists e; tauto.
Qed.

Lemma authorizeDefault_true cfg p action entries :
  d_Allowed (authorizeDefault cfg p action entries) = true <->
  entries = [] /\ DefaultPolicy cfg = DefaultTenant /\ scopeAllows p action = true.
Proof.
  unfold authorizeDefault. destruct entries; cbn; [|intuition congruence].
  destruct (String.eqb_spec (DefaultPolicy cfg) DefaultTenant), (scopeAllows p action);
    cbn; intuition congruence.
Qed.

Lemma authorizeMatching_permitted cfg p action r entries departments :
  d_Allowed (authorizeMatching cfg p action r entries
    (matchingEntries entries p departments action)) = true <->
  permitted cfg p action r entries departments.
Proof.
  unfold authorizeMatching, permitted, isDeleteAction, authorizeDelete.
  rewrite <- hasEffect_deny_false.
  destruct (hasEffect _ EffectDeny) eqn:Hd; [destruct (_ || _); cbn; intuition congruence|].
  destruct (String.eqb_spec action ActionDelete) as [->|Hnd]; cbn.
  { rewrite allowed_if, <- hasExplicitDeleteGrant_true.
    destruct (hasExplicitDeleteGrant _ _); cbn; intuition congruence. }
  destruct (String.eqb_spec action ActionAdminDelete) as [->|Hna].
  { rewrite allowed_if, <- hasExplicitAdminDeleteGrant_true.
    destruct (capabilityAllows _ _ _), (hasExplicitAdminDeleteGrant _ _), (isAdministrator p);
      cbn; intuition congruence. }
  rewrite <- hasEffect_allow_true, <- authorizeDefault_true, !allowed_if.
  destruct (hasEffect _ EffectAllow), (capabilityAllows _ _ _), (isAdministrator p),
    (String.eqb_spec (SubjectID p) ""), (String.eqb_spec (SubjectID p) (r_OwnerID r));
    cbn; intuition congruence.
Qed.

(** What the whole decision means, shortcuts included. *)
Definition decision_spec (m : Manager) (store : S) (ctx : Ctx) (p : Principal)
    (action : string) (r : Resource) : Prop :=
  admitted (m_boundary m) (Some ctx) (r_TenantID r) (r_Bucket r) /\
  (Kind p = PrincipalSystem \/
   (Kind p <> PrincipalSystem /\ Enabled (m_cfg m) = false /\
    (isDeleteAction action = false \/ DeleteFailOpen (m_cfg m) = true)) \/
   (Kind p <> PrincipalSystem /\ Enabled (m_cfg m) = true /\
    SubjectID p <> ""%string /\ tenantMatches p r = true /\
    exists entries departments,
      ListApplicableACL store (r_TenantID r) (r_Bucket r) (r_Key r) = Ok entries /\
      ListSubjectDepartments store (r_TenantID r) (SubjectID p) = Ok departments /\
      permitted (m_cfg m) p action r entries departments)).

Lemma Authorize_spec m store ctx p action r :
  d_Allowed (fst (Authorize m store ctx p action r)) = true <->
  decision_spec m store ctx p action r.
Proof.
  unfold Authorize, decision_spec. rewrite <- CheckBucket_None.
  destruct (CheckBucket _ _ _ _); cbn; [naive_solver|].
  destruct (String.eqb_spec (Kind p) PrincipalSystem); cbn; [naive_solver|].
  destruct (Enabled (m_cfg m)); cbn.
  - destruct (String.eqb_spec (SubjectID p) ""); cbn; [naive_solver|].
    destruct (tenantMatches p r); cbn; [|naive_solver].
    destruct (ListApplicableACL _ _ _ _) as [entries|]; cbn; [|naive_solver].
    destruct (ListSubjectDepartments _ _ _) as [departments|]; cbn; [|naive_solver].
    rewrite authorizeMatching_permitted. naive_solver.
  - destruct (isDeleteAction action), (DeleteFailOpen (m_cfg m)); cbn; naive_solver.
Qed.

Lemma Authorize_error m store ctx p action r e :
  snd (Authorize m store ctx p action r) = Some e ->
  d_Allowed (fst (Authorize m store ctx p action r)) = false.
Proof.
  unfold Authorize. intros He. by repeat (case_match; cbn in *; try done).
Qed.

(** A [Deny] entry only ever removes permissions. *)
Lemma permitted_deny_entry cfg p action r entries departments e :
  acl_Effect e = EffectDeny ->
  permitted cfg p action r (e :: entries) departments ->
  permitted cfg p action r entries departments.
Proof.
  intros He [Hn Hp].
  assert (forall x, applies p action entries departments x ->
                    applies p action (e :: entries) departments x) as Hw.
  { intros x (Hx & Hr). split; [by right|done]. }
  assert (forall P, (exists x, applies p action (e :: entries) departments x /\
      acl_Effect x = EffectAllow /\ P (acl_Action x)) ->
    exists x, applies p action entries departments x /\
      acl_Effect x = EffectAllow /\ P (acl_Action x)) as Hg.
  { intros P (x & (Hx & Hr) & Ha & HP). exists x. split; [|done]. split; [|done].
    apply list_elem_of_In in Hx as [<-|Hx]; [by rewrite Ha in He|by apply list_elem_of_In]. }
  split; [intros x Hx; by apply Hn, Hw|].
  destruct (action =s ActionDelete).
  { destruct Hp as [|Hp]; [by left|right].
    by apply (Hg (fun a => a = ActionDelete)). }
  destruct (action =s ActionAdminDelete).
  { destruct Hp as [|[|[|Hp]]]; [by left|by right; left|by right; right; left|].
    right; right; right. by apply (Hg (fun a => a = ActionAdminDelete \/ a = ActionDelete)). }
  destruct Hp as [Hp|[|[|[|[Hp _]]]]]; [|by auto..|done].
  left. by apply (Hg (fun _ => True)).
Qed.
End Authorize.

(** A store with fixed answers, for evaluating decisions. *)
Module FixedStore.
Record t := { entries : list ACLEntry; departments : list string }.
#[export] Instance reader : AccessReader t := {|
  ListApplicableACL s _ _ _ := Ok (entries s);
  ListSubjectDepartments s _ _ := Ok (departments s) |}.

(** Parses no identifier: the unbound observations below carry none. *)
#[export] Instance uuids : UUIDLib := {|
  UUID := unit; uuid_eqb _ _ := true; uuid_Parse _ := None; uuid_Nil := tt;
  uuid_String _ := "" |}.

Definition unbound (tenant bucket : string) : BindingResult := {|
  br_TenantID := tenant; br_Bucket := bucket; br_TenantKnown := true;
  br_TenantStatus := "active"; br_State := BindingUnbound; br_SpaceID := "";
  br_Revision := 0 |}.

Definition manager : Manager := {|
  m_cfg := {| Enabled := true; DefaultPolicy := DefaultTenant; ShareSecret := "";
              DeleteFailOpen := false |};
  m_boundary := Some {| rb_binding := Some (fun t b => (unbound t b, None));
                        rb_coverage := None |} |}.

Definition ctx : Ctx := {| ctx_Principal := None; ctx_Err := None; ctx_ErrAfter := None |}.

Definition admin : Principal := {|
  SubjectID := "ann"; TenantID := "acme"; Kind := PrincipalUser;
  Roles := ["vault.tenant_admin"]; Groups := []; Scopes := ["admin"];
  p_Capability := None |}.

Definition object : Resource := {|
  r_TenantID := "acme"; r_Bucket := "docs"; r_Key := "a/b"; r_Kind := ResourceObject;
  r_OwnerID := "ann" |}.

Definition entry (action effect : string) : ACLEntry := {|
  acl_ID := "e"; acl_TenantID := "acme"; acl_Bucket := "docs"; acl_Key := "a/b";
  acl_ResourceKind := ResourceObject; acl_PrincipalType := PrincipalTypeUser;
  acl_PrincipalID := "ann"; acl_Action := action; acl_Effect := effect;
  acl_Inherit := false; acl_CreatedBy := "root"; acl_CreatedAt := 0; acl_OwnerID := "" |}.
End FixedStore.
Import FixedStore.

(** C1: [Authorize] refines the declarative decision: it allows exactly when the bucket
    boundary admits the request and the caller is the trusted system, or access control
    is off (for deletes: off and explicitly fail-open), or the caller is identified,
    belongs to the resource's tenant and is permitted by the entries and directory the
    store answers with. *)
Theorem Authorize_refines `{UUIDLib} {S} `{AccessReader S} m (store : S) ctx p action r :
  d_Allowed (fst (Authorize m store ctx p action r)) = true <->
  decision_spec m store ctx p action r.
Proof. apply Authorize_spec. Qed.

(** Fail closed: no decision that comes with an error allows, and [require] lets an
    operation through exactly when the decision allows it. *)
Theorem require_fails_closed `{UUIDLib} {S} `{AccessReader S} m (store : S) ctx action r :
  require m store ctx action r = None <->
  d_Allowed (fst (Authorize m store ctx (PrincipalFrom ctx) action r)) = true.
Proof.
  unfold require. pose proof (Authorize_error m store ctx (PrincipalFrom ctx) action r) as He.
  destruct (Authorize _ _ _ _ _ _) as [d [e|]]; cbn [fst snd] in *.
  - rewrite (He e eq_refl).
    destruct (IsResourceBoundaryFault (Some e)); [|rewrite errors_Join_two]; intuition congruence.
  - destruct (d_Allowed d); cbn [negb]; [|rewrite errors_Join_two]; intuition congruence.
Qed.

(** With access control on, an applicable [deny] entry of the resource refuses every
    caller but the trusted system: owners, administrators, capability holders and
    callers with matching [allow] entries included. *)
Theorem explicit_deny_dominates `{UUIDLib} {S} `{AccessReader S} m (store : S) ctx p action r
    entries departments e :
  Enabled (m_cfg m) = true -> Kind p <> PrincipalSystem ->
  ListApplicableACL store (r_TenantID r) (r_Bucket r) (r_Key r) = Ok entries ->
  ListSubjectDepartments store (r_TenantID r) (SubjectID p) = Ok departments ->
  applies p action entries departments e -> acl_Effect e = EffectDeny ->
  d_Allowed (fst (Authorize m store ctx p action r)) = false.
Proof.
  intros Hon Hk Ha Hd He Hde. apply not_true_is_false. rewrite Authorize_spec.
  intros (_ & [|[(_ & ? & _)|(_ & _ & _ & _ & es & ds & Ha' & Hd' & Hp & _)]]); try congruence.
  rewrite Ha in Ha'. rewrite Hd in Hd'. simplify_eq. by apply (Hp e).
Qed.

Lemma explicit_deny_dominates_witness :
  d_Allowed (fst (Authorize manager
    {| entries := [entry ActionAll EffectAllow; entry ActionRead EffectDeny]; departments := [] |}
    ctx admin ActionDownload object)) = false.
Proof.
  eapply (explicit_deny_dominates _ _ _ _ _ _ _ _ (entry ActionRead EffectDeny)).
  - reflexivity.
  - discriminate.
  - reflexivity.
  - reflexivity.
  - split; [by right; left|]. by vm_compute.
  - reflexivity.
Defined.

(** Tenant isolation: with access control on, a caller outside the trusted system is
    refused on every resource of another tenant, whatever the entries, its roles, its
    scopes or its capability say; only the cross-tenant marker ["*"] passes. *)
Theorem tenant_isolation `{UUIDLib} {S} `{AccessReader S} m (store : S) ctx p action r :
  Enabled (m_cfg m) = true -> Kind p <> PrincipalSystem ->
  TenantID p <> "*"%string -> TenantID p <> r_TenantID r ->
  d_Allowed (fst (Authorize m store ctx p action r)) = false.
Proof.
  intros Hon Hk Hw Ht. apply not_true_is_false. rewrite Authorize_spec.
  intros (_ & [|[(_ & ? & _)|(_ & _ & _ & Hm & _)]]); try congruence.
  unfold tenantMatches in Hm. apply orb_true_iff in Hm as [Hm|Hm].
  - by apply streqb_true in Hm.
  - apply andb_true_iff in Hm as [_ Hm]. by apply streqb_true in Hm.
Qed.

Lemma tenant_isolation_witness :
  d_Allowed (fst (Authorize manager
    {| entries := [entry ActionAll EffectAllow]; departments := [] |} ctx admin ActionRead
    {| r_TenantID := "globex"; r_Bucket := "docs"; r_Key := "a/b"; r_Kind := ResourceObject;
       r_OwnerID := "ann" |})) = false.
Proof. apply tenant_isolation; [reflexivity|discriminate|discriminate|discriminate]. Defined.

(** Deleting an object needs an explicit delete grant: with access control on, the
    delete of a caller outside the trusted system is allowed only by the
    [vault.file.delete] permission or by an [allow] entry for exactly the delete action;
    ownership, administration, a capability or a wildcard [allow] do not suffice. *)
Theorem delete_needs_explicit_grant `{UUIDLib} {S} `{AccessReader S} m (store : S) ctx p r :
  Enabled (m_cfg m) = true -> Kind p <> PrincipalSystem ->
  d_Allowed (fst (Authorize m store ctx p ActionDelete r)) = true ->
  holdsPermission p PermissionVaultFileDelete \/
  exists entries departments e,
    ListApplicableACL store (r_TenantID r) (r_Bucket r) (r_Key r) = Ok entries /\
    ListSubjectDepartments store (r_TenantID r) (SubjectID p) = Ok departments /\
    applies p ActionDelete entries departments e /\
    acl_Effect e = EffectAllow /\ acl_Action e = ActionDelete.
Proof.
  intros Hon Hk. rewrite Authorize_spec.
  intros (_ & [|[(_ & ? & _)|(_ & _ & _ & _ & es & ds & Ha & Hd & _ & Hg)]]); try congruence.
  cbn in Hg. destruct Hg as [|(e & He)]; [by left|right]. by exists es, ds, e.
Qed.

Lemma delete_needs_explicit_grant_witness :
  holdsPermission admin PermissionVaultFileDelete \/
  exists es ds e,
    ListApplicableACL {| entries := [entry ActionDelete EffectAllow]; departments := [] |}
      "acme" "docs" "a/b" = Ok es /\
    ListSubjectDepartments {| entries := [entry ActionDelete EffectAllow]; departments := [] |}
      "acme" "ann" = Ok ds /\
    applies admin ActionDelete es ds e /\
    acl_Effect e = EffectAllow /\ acl_Action e = ActionDelete.
Proof.
  refine (delete_needs_explicit_grant manager _ ctx admin object _ _ _);
    [reflexivity|discriminate|by vm_compute].
Defined.

(** Adding a [deny] entry to a resource never grants anything: whatever the decision
    allows with the entry, it allows without it, also when it is the only entry and its
    presence switches the tenant default off. *)
Theorem deny_entry_never_grants cfg p action r entries departments e :
  acl_Effect e = EffectDeny ->
  d_Allowed (authorizeMatching cfg p action r (e :: entries)
    (matchingEntries (e :: entries) p departments action)) = true ->
  d_Allowed (authorizeMatching cfg p action r entries
    (matchingEntries entries p departments action)) = true.
Proof. rewrite !authorizeMatching_permitted. apply permitted_deny_entry. Qed.

Lemma deny_entry_never_grants_witness :
  d_Allowed (authorizeMatching (m_cfg manager) admin ActionRead object []
    (matchingEntries [] admin [] ActionRead)) = true.
Proof.
  apply (deny_entry_never_grants _ _ _ _ _ _ (entry ActionWrite EffectDeny));
    [reflexivity|by vm_compute].
Defined.
