(* ===== verification/Limits.v ===== *)
(** * Limits on requests (src/internal/middleware: ratelimit.go, middleware.go, validation.go)

    The token buckets of [RateLimiter], in the float64 arithmetic of the code (the
    Standard Library's IEEE 754 functions at 53 bits); the weighted semaphores of
    [ConcurrencyLimiter] and [PerTenantConcurrencyLimiter], whose steps interleave; the
    reader that cuts a body at its limit.

    [limits_hold]: whatever the interleaving, the running requests stay within both limits
    and nothing is left of one that ended.  [body_is_limited]: a body within the limit reads
    as it is, a longer one ends in an error after the limit.  [Allow_bounded]: the
    limiter's map and its tokens stay bounded, and a tenant's requests leave the others'
    tokens alone. *)

From Stdlib Require Import Ascii Lia Bool ZArith SpecFloat.
From stdpp Require Import base gmap strings list numbers option relations.
From S2P Require Import Prelude GoStrings GoTime GoErrors Sql Storage.

Open Scope Z_scope.

(** ** float64 *)

Definition float64 : Type := spec_float.
Definition fadd : float64 -> float64 -> float64 := SFadd 53 1024.
Definition fsub : float64 -> float64 -> float64 := SFsub 53 1024.
Definition fmul : float64 -> float64 -> float64 := SFmul 53 1024.
Definition fdiv : float64 -> float64 -> float64 := SFdiv 53 1024.

(** float64(n) of an integer. *)
Definition float_of (n : Z) : float64 := binary_normalize 53 1024 n 0 false.

(** int64(f), towards zero; amd64's answer where the language leaves it open. *)
Definition int_of (f : float64) : Z :=
  match f with
  | S754_finite s m e =>
      let n := if 0 <=? e then Z.pos m * 2 ^ e else Z.pos m / 2 ^ (- e) in
      let n := if s then - n else n in
      if (- 2 ^ 63 <=? n) && (n <? 2 ^ 63) then n else - 2 ^ 63
  | S754_zero _ => 0
  | _ => - 2 ^ 63
  end.

(** time.Duration.Seconds. *)
Definition Seconds (d : Z) : float64 := fadd (float_of (Z.quot d Second)) (fdiv (float_of (Z.rem d Second)) (float_of 1000000000)).

(** ** Token buckets (ratelimit.go) *)

Record bucket := { bk_tokens : float64; bk_last : time }.
Record RateLimiter := { rl_rps : float64; rl_burst : float64; rl_buckets : gmap string bucket }.

Definition rlMaxBuckets : Z := 50000.
Definition rlIdleTTL : Z := 10 * Minute.
Definition rlEvictInterval : Z := 60 * Second.

Definition NewRateLimiter (rps burst : float64) : option RateLimiter :=
  if SFleb rps (float_of 0) || SFleb burst (float_of 0) then None else Some {| rl_rps := rps; rl_burst := burst; rl_buckets := ∅ |}.

Definition with_buckets (rl : RateLimiter) (m : gmap string bucket) : RateLimiter :=
  {| rl_rps := rl_rps rl; rl_burst := rl_burst rl; rl_buckets := m |}.

Definition evictIdle (rl : RateLimiter) (now : time) : RateLimiter :=
  with_buckets rl (filter (fun p => Since now (bk_last p.2) <= rlIdleTTL) (rl_buckets rl)).

Definition full_map (rl : RateLimiter) : bool := rlMaxBuckets <=? Z.of_nat (size (rl_buckets rl)).

(** The tenant's bucket, a new one if there is room. *)
Definition take_bucket (rl : RateLimiter) (now : time) (tenant : string) : RateLimiter * option bucket :=
  match rl_buckets rl !! tenant with
  | Some b => (rl, Some b)
  | None =>
      let rl := if full_map rl then evictIdle rl now else rl in
      (rl, if full_map rl then None else Some {| bk_tokens := rl_burst rl; bk_last := now |})
  end.

Definition refilled (rl : RateLimiter) (now : time) (b : bucket) : float64 :=
  let t := fadd (bk_tokens b) (fmul (Seconds (Since now (bk_last b))) (rl_rps rl)) in
  if SFltb (rl_burst rl) t then rl_burst rl else t.

(** Allowed, or how long to wait; the clock is read once. *)
Definition Allow (rl : RateLimiter) (now : time) (tenant : string) : RateLimiter * (bool * Z) :=
  match take_bucket rl now tenant with
  | (rl, None) => (rl, (false, rlEvictInterval))
  | (rl, Some b) =>
      let tokens := refilled rl now b in
      let keep := fun t => with_buckets rl (<[tenant := {| bk_tokens := t; bk_last := now |}]> (rl_buckets rl)) in
      if SFleb (float_of 1) tokens then (keep (fsub tokens (float_of 1)), (true, 0))
      else (keep tokens, (false, int_of (fmul (fdiv (fsub (float_of 1) tokens) (rl_rps rl)) (float_of Second))))
  end.

(** The value of Retry-After. *)
Definition retry_after (wait : Z) : Z := int_of (Seconds wait) + 1.

Definition rateLimitBypass (p : string) : bool :=
  (p =s "/") || (p =s "/favicon.ico") || (p =s "/healthz") || (p =s "/readyz") || (p =s "/metrics") || (p =s "/openapi.json") ||
  (p =s "/docs") || HasPrefix p "/auth/oidc/" || (p =s "/ui") || HasPrefix p "/ui/".

(** ** A body's limit (validation.go) *)

Definition ErrBodyTooLarge : string := "request body exceeds maximum allowed size".
Definition io_eof : error := Sentinel "io.EOF".

(** A reader of [src_data] that then answers [src_err]: how much each Read gives is up to
    it ([src_chunks], then as much as asked for), also nothing, also the end together with
    the last bytes ([src_eager]). *)
Record Source := { src_data : string; src_chunks : list nat; src_eager : bool; src_err : error }.

Definition src_left (s : Source) (n : nat) : Source :=
  {| src_data := from (src_data s) n; src_chunks := tail (src_chunks s); src_eager := src_eager s; src_err := src_err s |}.

Definition src_Read (s : Source) (n : nat) : Source * (string * option error) :=
  let k := Nat.min n (Nat.min (match src_chunks s with c :: _ => c | [] => n end) (String.length (src_data s))) in
  let rest := src_left s k in
  (rest, (slice (src_data s) 0 k,
          if (src_data s =s "") || (src_eager s && (0 <? k)%nat && (src_data rest =s "")) then Some (src_err s) else None)).

Record limitErrReader := { lr_r : Source; lr_limit : Z; lr_n : Z }.

Definition set_src (l : limitErrReader) (s : Source) (n : Z) : limitErrReader := {| lr_r := s; lr_limit := lr_limit l; lr_n := n |}.

(** One byte past the limit decides; a source answers nothing only so many times. *)
Fixpoint peek (fuel : nat) (s : Source) : Source * (string * option error) :=
  match fuel with
  | O => (s, (""%string, Some (NewError "no progress")))
  | S fuel =>
      let '(s, (got, err)) := src_Read s 1 in
      if (got <>s "") then (s, (""%string, Some (Sentinel ErrBodyTooLarge)))
      else match err with Some e => (s, (""%string, Some e)) | None => peek fuel s end
  end.

Definition peek_fuel (s : Source) : nat := 2 + length (src_chunks s).

(** Read into a buffer of [plen] bytes. *)
Definition limit_Read (l : limitErrReader) (plen : nat) : limitErrReader * (string * option error) :=
  if (plen =? 0)%nat then (l, (""%string, None))
  else if lr_limit l <=? lr_n l then
    let '(s, got) := peek (peek_fuel (lr_r l)) (lr_r l) in (set_src l s (lr_n l), got)
  else
    let plen := if lr_limit l - lr_n l <? Z.of_nat plen then Z.to_nat (lr_limit l - lr_n l) else plen in
    let '(s, (got, err)) := src_Read (lr_r l) plen in
    (set_src l s (lr_n l + len got), (got, err)).

(** A consumer reads with buffers of these sizes until the first error. *)
Fixpoint limit_drain (l : limitErrReader) (bufs : list nat) : string * option error :=
  match bufs with
  | [] => (""%string, None)
  | n :: rest =>
      let '(l, (got, err)) := limit_Read l n in
      match err with
      | Some e => (got, Some e)
      | None => let '(more, err) := limit_drain l rest in ((got ++ more)%string, err)
      end
  end.

(** ** Requests in flight (middleware.go) *)

Definition reqWeight (method : string) : Z :=
  if (method =s "GET") || (method =s "HEAD") || (method =s "OPTIONS") then 1 else 2.

(** The capacity of the semaphore; none is no limit. *)
Definition NewConcurrencyLimiter (max : Z) : option Z := if max <=? 0 then None else Some max.

(** [cc_sem] is what is in the channel. *)
Record Concurrency := { cc_cap : option Z; cc_perTenant : Z; cc_sem : Z; cc_inflight : gmap string Z }.

Definition NewPerTenantConcurrencyLimiter (globalMax perTenantMax : Z) : Concurrency :=
  {| cc_cap := NewConcurrencyLimiter globalMax; cc_perTenant := perTenantMax; cc_sem := 0; cc_inflight := ∅ |}.

Definition set_sem (c : Concurrency) (n : Z) : Concurrency :=
  {| cc_cap := cc_cap c; cc_perTenant := cc_perTenant c; cc_sem := n; cc_inflight := cc_inflight c |}.
Definition set_inflight (c : Concurrency) (m : gmap string Z) : Concurrency :=
  {| cc_cap := cc_cap c; cc_perTenant := cc_perTenant c; cc_sem := cc_sem c; cc_inflight := m |}.

(** [case sem <- struct{}{}]. *)
Definition send (c : Concurrency) : option Concurrency :=
  match cc_cap c with
  | None => None
  | Some cap => if cc_sem c <? cap then Some (set_sem c (cc_sem c + 1)) else None
  end.

(** [<-sem]; it would block on an empty channel. *)
Definition recv (c : Concurrency) : option Concurrency := if 0 <? cc_sem c then Some (set_sem c (cc_sem c - 1)) else None.

Definition acquireTenant (c : Concurrency) (tenant : string) (cost : Z) : Concurrency * bool :=
  if cc_perTenant c <=? 0 then (c, true)
  else let n := default 0 (cc_inflight c !! tenant) in
       if cc_perTenant c <? n + cost then (c, false)
       else (set_inflight c (<[tenant := n + cost]> (cc_inflight c)), true).

Definition releaseTenant (c : Concurrency) (tenant : string) (cost : Z) : Concurrency :=
  if cc_perTenant c <=? 0 then c
  else let n := default 0 (cc_inflight c !! tenant) - cost in
       set_inflight c (if n <=? 0 then delete tenant (cc_inflight c) else <[tenant := n]> (cc_inflight c)).

(** Where a request is: it has so many slots and wants more; gives them back, refused;
    runs; gives them back after the handler; is done, served or not. *)
Inductive phase := Acquiring (k : Z) | Rejecting (k : Z) | Running | Releasing (k : Z) | Served | Rejected.

Record Flight := { fl_tenant : string; fl_cost : Z; fl_phase : phase }.

Definition at_phase (f : Flight) (p : phase) : Flight := {| fl_tenant := fl_tenant f; fl_cost := fl_cost f; fl_phase := p |}.

(** One statement of the middleware in one request. *)
Inductive flight_step (c : Concurrency) (f : Flight) : Concurrency -> Flight -> Prop :=
| fs_unlimited : fl_phase f = Acquiring 0 -> cc_cap c = None -> 0 < fl_cost f ->
    flight_step c f c (at_phase f (Acquiring (fl_cost f)))
| fs_send k c' : fl_phase f = Acquiring k -> k < fl_cost f -> send c = Some c' -> flight_step c f c' (at_phase f (Acquiring (k + 1)))
| fs_full k : fl_phase f = Acquiring k -> k < fl_cost f -> cc_cap c <> None -> send c = None -> flight_step c f c (at_phase f (Rejecting k))
| fs_admit c' : fl_phase f = Acquiring (fl_cost f) -> acquireTenant c (fl_tenant f) (fl_cost f) = (c', true) ->
    flight_step c f c' (at_phase f Running)
| fs_tenant c' : fl_phase f = Acquiring (fl_cost f) -> acquireTenant c (fl_tenant f) (fl_cost f) = (c', false) ->
    flight_step c f c' (at_phase f (Rejecting (if bool_decide (cc_cap c = None) then 0 else fl_cost f)))
| fs_giveback k c' : fl_phase f = Rejecting k -> 0 < k -> recv c = Some c' -> flight_step c f c' (at_phase f (Rejecting (k - 1)))
| fs_rejected : fl_phase f = Rejecting 0 -> flight_step c f c (at_phase f Rejected)
| fs_handled : fl_phase f = Running -> flight_step c f c (at_phase f (Releasing (if bool_decide (cc_cap c = None) then 0 else fl_cost f)))
| fs_release k c' : fl_phase f = Releasing k -> 0 < k -> recv c = Some c' -> flight_step c f c' (at_phase f (Releasing (k - 1)))
| fs_served : fl_phase f = Releasing 0 -> flight_step c f (releaseTenant c (fl_tenant f) (fl_cost f)) (at_phase f Served).

(** The requests of a server; new ones come at any time. *)
Definition Traffic : Type := Concurrency * list Flight.

Inductive traffic_step : Traffic -> Traffic -> Prop :=
| ts_arrive c l tenant method :
    traffic_step (c, l) (c, l ++ [{| fl_tenant := tenant; fl_cost := reqWeight method; fl_phase := Acquiring 0 |}])
| ts_step c l i f c' f' : l !! i = Some f -> flight_step c f c' f' -> traffic_step (c, l) (c', <[i := f']> l).

(** ** Requests stay within the limits *)

Section Traffic.

Definition total (g : Flight -> Z) (l : list Flight) : Z := foldr (fun f n => g f + n) 0 l.

Lemma total_cons g f l : total g (f :: l) = g f + total g l.
Proof. done. Qed.

Lemma total_app g l l' : total g (l ++ l') = total g l + total g l'.
Proof. induction l as [|f l IH]; [done|]. rewrite <- app_comm_cons, !total_cons, IH. lia. Qed.

Lemma total_insert g l i f f' : l !! i = Some f -> total g (<[i := f']> l) = total g l - g f + g f'.
Proof.
  revert i. induction l as [|x l IH]; intros [|i] Hi; [done..| |].
  - injection Hi as ->. change (<[O := f']> (f :: l)) with (f' :: l). rewrite !total_cons. lia.
  - change (<[S i := f']> (x :: l)) with (x :: <[i := f']> l). rewrite !total_cons, (IH i Hi). lia.
Qed.

Lemma total_le g h l : (forall f, f ∈ l -> g f <= h f) -> total g l <= total h l.
Proof.
  induction l as [|f l IH]; intros Hl; [done|]. rewrite !total_cons. pose proof (Hl f ltac:(left)).
  assert (total g l <= total h l) by (apply IH; intros x Hx; apply Hl; by right). lia.
Qed.

Lemma total_zero l : total (fun _ => 0) l = 0.
Proof. induction l as [|f l IH]; [done|]. by rewrite total_cons. Qed.

Lemma total_nonneg g l : (forall f, f ∈ l -> 0 <= g f) -> 0 <= total g l.
Proof. intros Hl. rewrite <- (total_zero l). by apply total_le. Qed.

Lemma total_elem g l f : (forall x, x ∈ l -> 0 <= g x) -> f ∈ l -> g f <= total g l.
Proof.
  intros Hl [i Hi]%list_elem_of_lookup. revert i Hi. induction l as [|x l IH]; intros [|i] Hi; [done..| |].
  - injection Hi as ->. rewrite total_cons. assert (0 <= total g l) by (apply total_nonneg; intros y Hy; apply Hl; by right). lia.
  - rewrite total_cons. pose proof (Hl x ltac:(left)). assert (g f <= total g l) by (eapply IH; [intros y Hy; apply Hl; by right|done]). lia.
Qed.

(** The slots a request holds, and what it counts for its tenant. *)
Definition slots_of (cap : option Z) (f : Flight) : Z :=
  match cap, fl_phase f with
  | None, _ => 0
  | Some _, Acquiring k | Some _, Rejecting k | Some _, Releasing k => k
  | Some _, Running => fl_cost f
  | Some _, _ => 0
  end.

Definition counts (f : Flight) : bool := match fl_phase f with Running | Releasing _ => true | _ => false end.
Definition claim (t : string) (f : Flight) : Z := if counts f && (fl_tenant f =s t) then fl_cost f else 0.

Definition running (f : Flight) : Z := match fl_phase f with Running => fl_cost f | _ => 0 end.

(** What a request has is within its cost; without a semaphore it gives nothing back. *)
Definition flight_ok (cap : option Z) (f : Flight) : Prop :=
  0 < fl_cost f /\
  match fl_phase f with
  | Acquiring k => 0 <= k <= fl_cost f /\ (cap = None -> k = 0 \/ k = fl_cost f)
  | Rejecting k | Releasing k => 0 <= k /\ (cap = None -> k = 0)
  | _ => True
  end.

Definition tenant_total (c : Concurrency) (t : string) : Z := default 0 (cc_inflight c !! t).

Record traffic_ok (s : Traffic) : Prop := {
  to_flights : forall f, f ∈ s.2 -> flight_ok (cc_cap s.1) f;
  to_sem : cc_sem s.1 = total (slots_of (cc_cap s.1)) s.2;
  to_cap : forall m, cc_cap s.1 = Some m -> cc_sem s.1 <= m;
  to_tenant : forall t, 0 < cc_perTenant s.1 -> tenant_total s.1 t = total (claim t) s.2 /\ tenant_total s.1 t <= cc_perTenant s.1;
  to_positive : forall t n, cc_inflight s.1 !! t = Some n -> 0 < n;
  to_off : cc_perTenant s.1 <= 0 -> cc_inflight s.1 = ∅
}.

Lemma held_nonneg cap f : flight_ok cap f -> 0 <= slots_of cap f.
Proof. intros [Hc Hp]. unfold slots_of. destruct cap, (fl_phase f); lia. Qed.

Lemma claim_nonneg cap t f : flight_ok cap f -> 0 <= claim t f.
Proof. intros [Hc _]. unfold claim. destruct (_ && _); lia. Qed.

Lemma reqWeight_pos method : 0 < reqWeight method.
Proof. unfold reqWeight. destruct (_ || _); lia. Qed.

(** What a step leaves of the limiter and of its request. *)
Lemma step_config c f c' f' : flight_step c f c' f' ->
  cc_cap c' = cc_cap c /\ cc_perTenant c' = cc_perTenant c /\ fl_tenant f' = fl_tenant f /\ fl_cost f' = fl_cost f.
Proof.
  assert (forall b r, acquireTenant c (fl_tenant f) (fl_cost f) = (b, r) -> cc_cap b = cc_cap c /\ cc_perTenant b = cc_perTenant c) as Ha.
  { intros b r. unfold acquireTenant. destruct (_ <=? 0); [by intros [= <- <-]|]. destruct (_ <? _); by intros [= <- <-]. }
  intros []; cbn; try done;
    try (match goal with E : send c = Some _ |- _ => unfold send in E; destruct (cc_cap c) eqn:?; [|done]; destruct (_ <? _); [|done]; by injection E as <- end);
    try (match goal with E : recv c = Some _ |- _ => unfold recv in E; destruct (_ <? _); [|done]; by injection E as <- end).
  - by edestruct Ha as [-> ->].
  - by edestruct Ha as [-> ->].
  - unfold releaseTenant. destruct (_ <=? 0); done.
Qed.

Lemma send_Some c c' : send c = Some c' -> exists m, cc_cap c = Some m /\ cc_sem c < m /\ c' = set_sem c (cc_sem c + 1).
Proof. unfold send. destruct (cc_cap c) as [m|]; [|done]. destruct (_ <? _) eqn:E; [|done]. intros [= <-]. exists m. by apply Z.ltb_lt in E. Qed.
Lemma receive_Some c c' : recv c = Some c' -> 0 < cc_sem c /\ c' = set_sem c (cc_sem c - 1).
Proof. unfold recv. destruct (_ <? _) eqn:E; [|done]. intros [= <-]. by apply Z.ltb_lt in E. Qed.

(** What acquiring and releasing do to the count of a tenant. *)
Lemma acquire_spec c tenant cost c' b : acquireTenant c tenant cost = (c', b) -> 0 < cost ->
  cc_cap c' = cc_cap c /\ cc_perTenant c' = cc_perTenant c /\ cc_sem c' = cc_sem c /\ (b = false -> c' = c) /\
  (0 < cc_perTenant c -> b = true ->
     forall t, tenant_total c' t = tenant_total c t + (if (tenant =s t) then cost else 0) /\
               (tenant_total c t <= cc_perTenant c -> tenant_total c' t <= cc_perTenant c)) /\
  (forall t n, (forall t n, cc_inflight c !! t = Some n -> 0 < n) -> cc_inflight c' !! t = Some n -> 0 < n) /\
  (cc_perTenant c <= 0 -> cc_inflight c' = cc_inflight c).
Proof.
  unfold acquireTenant. intros E Hc. destruct (cc_perTenant c <=? 0) eqn:E0.
  { injection E as <- <-. apply Z.leb_le in E0. split_and!; try done; try lia; eauto. }
  apply Z.leb_gt in E0. destruct (cc_perTenant c <? _) eqn:E1; injection E as <- <-.
  { split_and!; try done; try lia; eauto. }
  apply Z.ltb_ge in E1. split_and!; try done; try lia.
  - intros _ _ t. unfold tenant_total. cbn. destruct (tenant =s t) eqn:Et.
    + apply streqb_true in Et as ->. rewrite lookup_insert_eq. cbn. lia.
    + apply streqb_false in Et. rewrite lookup_insert_ne by done. lia.
  - intros t n Hpos. cbn. intros [[_ <-]|[_ Hn]]%lookup_insert_Some; [|by eapply Hpos].
    destruct (cc_inflight c !! tenant) as [x|] eqn:Ex; cbn; [specialize (Hpos _ _ Ex)|]; lia.
Qed.

Lemma release_spec c tenant cost : 0 < cost ->
  let c' := releaseTenant c tenant cost in
  cc_cap c' = cc_cap c /\ cc_perTenant c' = cc_perTenant c /\ cc_sem c' = cc_sem c /\
  (0 < cc_perTenant c -> cost <= tenant_total c tenant ->
     forall t, tenant_total c' t = tenant_total c t - (if (tenant =s t) then cost else 0)) /\
  (forall t n, (forall t n, cc_inflight c !! t = Some n -> 0 < n) -> cc_inflight c' !! t = Some n -> 0 < n) /\
  (cc_perTenant c <= 0 -> cc_inflight c' = cc_inflight c).
Proof.
  intros Hc c'. unfold c', releaseTenant. destruct (cc_perTenant c <=? 0) eqn:E0.
  { apply Z.leb_le in E0. split_and!; try done; try lia; eauto. }
  apply Z.leb_gt in E0. split_and!; try done; try lia.
  - intros _ Hle t. unfold tenant_total in *. cbn. destruct (_ <=? 0) eqn:E1; destruct (tenant =s t) eqn:Et;
      ((apply streqb_true in Et; subst t) || apply streqb_false in Et).
    + rewrite lookup_delete_eq. cbn. apply Z.leb_le in E1. lia.
    + rewrite lookup_delete_ne by done. lia.
    + rewrite lookup_insert_eq. cbn. lia.
    + rewrite lookup_insert_ne by done. lia.
  - intros t n Hpos. cbn. destruct (_ <=? 0) eqn:E1.
    + intros [_ Hn]%lookup_delete_Some. by eapply Hpos.
    + apply Z.leb_gt in E1. intros [[_ <-]|[_ Hn]]%lookup_insert_Some; [lia|by eapply Hpos].
Qed.

(** A step keeps the books of the semaphore. *)
Lemma step_sem c f c' f' : flight_step c f c' f' -> flight_ok (cc_cap c) f ->
  flight_ok (cc_cap c) f' /\ cc_sem c' = cc_sem c - slots_of (cc_cap c) f + slots_of (cc_cap c) f' /\
  (forall m, cc_cap c = Some m -> cc_sem c <= m -> cc_sem c' <= m).
Proof.
  intros Hs [Hcost Hok].
  destruct Hs as [Hp Hcap Hc|k c' Hp Hk Hsend|k Hp Hk Hcap Hsend|c' Hp Hacq|c' Hp Hacq|k c' Hp Hk Hrec|Hp|Hp|k c' Hp Hk Hrec|Hp];
    unfold flight_ok, slots_of, at_phase; rewrite ?Hp in *; cbn [fl_phase fl_cost fl_tenant].
  - rewrite Hcap. split_and!; try done; lia.
  - apply send_Some in Hsend as (m & Hm & Hlt & ->). rewrite Hm. cbn. split_and!; try done; try lia. intros ? [= <-]. lia.
  - destruct (cc_cap c) as [m|]; [|done]. split_and!; try done; lia.
  - apply acquire_spec in Hacq as (_ & _ & -> & _); [|done]. split_and!; try done. destruct (cc_cap c); lia.
  - apply acquire_spec in Hacq as (_ & _ & -> & _); [|done]. destruct (cc_cap c) as [m|]; cbn; split_and!; try done; lia.
  - apply receive_Some in Hrec as [Hpos ->]. destruct (cc_cap c) as [m|]; [|destruct Hok as [_ Hn]; specialize (Hn eq_refl); lia].
    cbn. split_and!; try done; lia.
  - split_and!; try done. destruct (cc_cap c); lia.
  - destruct (cc_cap c) as [m|]; cbn; split_and!; try done; lia.
  - apply receive_Some in Hrec as [Hpos ->]. destruct (cc_cap c) as [m|]; [|destruct Hok as [_ Hn]; specialize (Hn eq_refl); lia].
    cbn. split_and!; try done; lia.
  - destruct (release_spec c (fl_tenant f) (fl_cost f) Hcost) as (_ & _ & -> & _). split_and!; try done. destruct (cc_cap c); lia.
Qed.

(** And those of the tenants. *)
Lemma step_tenant c f c' f' t : flight_step c f c' f' -> 0 < fl_cost f -> 0 < cc_perTenant c ->
  (counts f = true -> fl_cost f <= tenant_total c (fl_tenant f)) ->
  tenant_total c' t = tenant_total c t - claim t f + claim t f' /\ (tenant_total c t <= cc_perTenant c -> tenant_total c' t <= cc_perTenant c).
Proof.
  intros Hs Hcost Hper Hle. unfold claim, counts in *.
  assert (forall c2, cc_inflight c2 = cc_inflight c -> tenant_total c2 t = tenant_total c t) as Hsame by (unfold tenant_total; by intros ? ->).
  destruct Hs as [Hp Hcap Hc|k c' Hp Hk Hsend|k Hp Hk Hcap Hsend|c' Hp Hacq|c' Hp Hacq|k c' Hp Hk Hrec|Hp|Hp|k c' Hp Hk Hrec|Hp];
    unfold at_phase; rewrite ?Hp in *; cbn [fl_phase fl_cost fl_tenant andb]; try lia.
  - apply send_Some in Hsend as (m & _ & _ & ->). rewrite Hsame by done. lia.
  - apply acquire_spec in Hacq as (_ & _ & _ & _ & Ht & _); [|done]. destruct (Ht Hper eq_refl t) as [-> Hb]. split; [lia|exact Hb].
  - apply acquire_spec in Hacq as (_ & _ & _ & Hf & _); [|done]. rewrite (Hf eq_refl). lia.
  - apply receive_Some in Hrec as [_ ->]. rewrite Hsame by done. lia.
  - apply receive_Some in Hrec as [_ ->]. rewrite Hsame by done. lia.
  - destruct (release_spec c (fl_tenant f) (fl_cost f) Hcost) as (_ & _ & _ & Ht & _). rewrite (Ht Hper (Hle eq_refl) t).
    destruct (_ =s t); lia.
Qed.

Lemma step_map c f c' f' : flight_step c f c' f' -> 0 < fl_cost f -> (forall t n, cc_inflight c !! t = Some n -> 0 < n) ->
  (forall t n, cc_inflight c' !! t = Some n -> 0 < n) /\ (cc_perTenant c <= 0 -> cc_inflight c' = cc_inflight c).
Proof.
  intros Hs Hcost Hpos.
  destruct Hs as [Hp Hcap Hc|k c' Hp Hk Hsend|k Hp Hk Hcap Hsend|c' Hp Hacq|c' Hp Hacq|k c' Hp Hk Hrec|Hp|Hp|k c' Hp Hk Hrec|Hp]; try done.
  - by apply send_Some in Hsend as (m & _ & _ & ->).
  - apply acquire_spec in Hacq as (_ & _ & _ & _ & _ & Hm & Ho); [|done]. split; [|done]. intros t n. by apply Hm.
  - apply acquire_spec in Hacq as (_ & _ & _ & Hf & _); [|done]. by rewrite (Hf eq_refl).
  - by apply receive_Some in Hrec as [_ ->].
  - by apply receive_Some in Hrec as [_ ->].
  - destruct (release_spec c (fl_tenant f) (fl_cost f) Hcost) as (_ & _ & _ & _ & Hm & Ho). split; [|done]. intros t n. by apply Hm.
Qed.

Lemma traffic_start global perTenant : traffic_ok (NewPerTenantConcurrencyLimiter global perTenant, []).
Proof.
  split; cbn; try done; try (by intros ? ?%not_elem_of_nil).
  - intros m. unfold NewConcurrencyLimiter. destruct (_ <=? 0) eqn:E; [done|]. intros [= <-]. apply Z.leb_gt in E. lia.
  - intros t Hp. unfold tenant_total. cbn. rewrite lookup_empty. cbn. lia.
Qed.

Lemma traffic_step_ok s s' : traffic_step s s' -> traffic_ok s -> traffic_ok s'.
Proof.
  intros [c l tenant method|c l i f c' f' Hi Hs] [Hfl Hsem Hcap Hten Hpos Hoff]; cbn [fst snd] in *.
  - split; cbn [fst snd]; try done.
    + intros f [Hf| ->%list_elem_of_singleton]%elem_of_app; [by apply Hfl|]. split; cbn; [apply reqWeight_pos|].
      pose proof (reqWeight_pos method). split; [lia|]. by left.
    + rewrite total_app, total_cons, <- Hsem. unfold slots_of. cbn. destruct (cc_cap c); lia.
    + intros t Hp. destruct (Hten t Hp) as [-> Hle]. split; [|done]. rewrite total_app, total_cons. unfold claim at 3. cbn. lia.
  - assert (f ∈ l) as Hf by (by apply list_elem_of_lookup; exists i). pose proof (Hfl f Hf) as Hok. destruct (step_config _ _ _ _ Hs) as (Ecap & Eper & Eten & Ecost).
    destruct (step_sem _ _ _ _ Hs Hok) as (Hok' & Hsem' & Hcap'). destruct (step_map _ _ _ _ Hs (proj1 Hok) Hpos) as [Hpos' Hoff'].
    split; cbn [fst snd]; rewrite ?Ecap, ?Eper.
    + intros x Hx. apply list_elem_of_lookup in Hx as [k Hx]. destruct (decide (k = i)) as [->|Hne].
      * rewrite list_lookup_insert_eq in Hx by (by eapply lookup_lt_Some). by injection Hx as <-.
      * rewrite list_lookup_insert_ne in Hx by done. apply Hfl, list_elem_of_lookup. by exists k.
    + rewrite (total_insert _ _ _ _ _ Hi), Hsem', Hsem. done.
    + intros m Hm. apply (Hcap' m Hm), Hcap, Hm.
    + intros t Hp. destruct (Hten t Hp) as [Ht Hle]. rewrite (total_insert _ _ _ _ _ Hi), <- Ht.
      destruct (step_tenant _ _ _ _ t Hs (proj1 Hok) Hp) as [Ht' Hle']; [|split; [exact Ht'|by apply Hle']].
      intros Hcnt. destruct (Hten (fl_tenant f) Hp) as [-> _].
      replace (fl_cost f) with (claim (fl_tenant f) f) by (unfold claim; by rewrite Hcnt, streqb_refl).
      apply total_elem; [|done]. intros x Hx. eapply claim_nonneg, Hfl, Hx.
    + exact Hpos'.
    + intros Hp. rewrite (Hoff' Hp). by apply Hoff.
Qed.

Lemma traffic_reachable global perTenant s :
  rtc traffic_step (NewPerTenantConcurrencyLimiter global perTenant, []) s -> traffic_ok s.
Proof.
  intros Hs. assert (forall s0, rtc traffic_step s0 s -> traffic_ok s0 -> traffic_ok s) as H.
  { intros s0 H. induction H as [|s1 s2 s3 H12 _ IH]; [done|]. intros H1. by apply IH, (traffic_step_ok s1). }
  eapply H, traffic_start. done.
Qed.

Lemma reachable_config global perTenant s :
  rtc traffic_step (NewPerTenantConcurrencyLimiter global perTenant, []) s ->
  cc_cap s.1 = NewConcurrencyLimiter global /\ cc_perTenant s.1 = perTenant.
Proof.
  intros Hs. assert (forall s0, rtc traffic_step s0 s -> cc_cap s.1 = cc_cap s0.1 /\ cc_perTenant s.1 = cc_perTenant s0.1) as H.
  { clear Hs. intros s0 H. induction H as [s1|s1 s2 s3 H12 _ [Hc Hp]]; [done|]. rewrite Hc, Hp. destruct H12 as [|c l i f c' f' _ Hst]; [done|]. apply step_config in Hst as (? & ? & _). done. }
  by apply H in Hs.
Qed.

(** A request that is not done can make a step: giving a slot back never blocks. *)
Lemma flight_progress s i f : traffic_ok s -> s.2 !! i = Some f -> fl_phase f <> Served -> fl_phase f <> Rejected ->
  exists c' f', flight_step s.1 f c' f'.
Proof.
  intros [Hfl Hsem _ _ _ _] Hi Hn1 Hn2. destruct s as [c l]. cbn [fst snd] in *.
  assert (f ∈ l) as Hf by (apply list_elem_of_lookup; by exists i). destruct (Hfl f Hf) as [Hcost Hok].
  assert (0 < slots_of (cc_cap c) f -> exists c', recv c = Some c') as Hrec.
  { intros Hh. assert (slots_of (cc_cap c) f <= total (slots_of (cc_cap c)) l) as Hle.
    { apply total_elem; [|done]. intros x Hx. apply held_nonneg, Hfl, Hx. }
    unfold recv. destruct (0 <? cc_sem c) eqn:E; [by eexists|]. apply Z.ltb_ge in E. lia. }
  unfold slots_of in Hrec. destruct (fl_phase f) as [k|k| |k| |] eqn:Ep; try done.
  - destruct Hok as [Hk Hc]. destruct (decide (k = fl_cost f)) as [->|Hne].
    + destruct (acquireTenant c (fl_tenant f) (fl_cost f)) as [c' []] eqn:Ea; [do 2 eexists; by eapply fs_admit|do 2 eexists; by eapply fs_tenant].
    + destruct (cc_cap c) as [m|] eqn:Em.
      * destruct (send c) as [c'|] eqn:Es; [do 2 eexists; eapply fs_send; [done|lia|done]|do 2 eexists; eapply fs_full; [done|lia|by rewrite Em|done]].
      * destruct (Hc eq_refl) as [-> | ->]; [|done]. do 2 eexists. by apply fs_unlimited.
  - destruct (decide (k = 0)) as [->|Hne]; [do 2 eexists; by apply fs_rejected|]. destruct Hok as [Hk Hc].
    destruct (cc_cap c) eqn:Em; [|by specialize (Hc eq_refl)]. destruct Hrec as [c' Hr]; [lia|]. do 2 eexists. eapply fs_giveback; [done|lia|done].
  - do 2 eexists. by apply fs_handled.
  - destruct (decide (k = 0)) as [->|Hne]; [do 2 eexists; by apply fs_served|]. destruct Hok as [Hk Hc].
    destruct (cc_cap c) eqn:Em; [|by specialize (Hc eq_refl)]. destruct Hrec as [c' Hr]; [lia|]. do 2 eexists. eapply fs_release; [done|lia|done].
Qed.

Lemma quiet_traffic s : traffic_ok s -> (forall f, f ∈ s.2 -> fl_phase f = Served \/ fl_phase f = Rejected) ->
  cc_sem s.1 = 0 /\ cc_inflight s.1 = ∅.
Proof.
  intros [Hfl Hsem _ Hten Hpos Hoff] Hdone. assert (forall g, (forall f, f ∈ s.2 -> g f = 0) -> total g s.2 = 0) as Hz.
  { intros g Hg. pose proof (total_zero s.2). pose proof (total_le g (fun _ => 0) s.2 ltac:(intros f Hf; rewrite (Hg f Hf); lia)).
    pose proof (total_le (fun _ => 0) g s.2 ltac:(intros f Hf; rewrite (Hg f Hf); lia)). lia. }
  split.
  - rewrite Hsem. apply Hz. intros f Hf. unfold slots_of. destruct (Hdone f Hf) as [-> | ->]; by destruct (cc_cap s.1).
  - destruct (decide (0 < cc_perTenant s.1)) as [Hp|Hp]; [|apply Hoff; lia]. apply map_eq. intros t. rewrite lookup_empty.
    destruct (cc_inflight s.1 !! t) as [n|] eqn:E; [|done]. pose proof (Hpos t n E). destruct (Hten t Hp) as [Ht _].
    unfold tenant_total in Ht. rewrite E in Ht. cbn in Ht. rewrite Hz in Ht; [lia|]. intros f Hf. unfold claim, counts.
    by destruct (Hdone f Hf) as [-> | ->].
Qed.
End Traffic.

Definition running_of (t : string) (f : Flight) : Z := if fl_tenant f =s t then running f else 0.

(** C26: whatever the order in which the requests' statements run, the requests whose handler
    runs weigh no more than the limit, those of one tenant no more than the tenant's; a
    request that is not done can go on, so that giving slots back never blocks; and when all
    are done nothing is held.  A limit of zero or less is none. *)
Theorem limits_hold global perTenant s :
  rtc traffic_step (NewPerTenantConcurrencyLimiter global perTenant, []) s ->
  (0 < global -> total running s.2 <= global) /\
  (0 < perTenant -> forall t, total (running_of t) s.2 <= perTenant) /\
  (forall i f, s.2 !! i = Some f -> fl_phase f <> Served -> fl_phase f <> Rejected -> exists c' f', flight_step s.1 f c' f') /\
  ((forall f, f ∈ s.2 -> fl_phase f = Served \/ fl_phase f = Rejected) -> cc_sem s.1 = 0 /\ cc_inflight s.1 = ∅).
Proof.
  intros Hs. pose proof (traffic_reachable _ _ _ Hs) as Hok. destruct (reachable_config _ _ _ Hs) as [Ecap Eper].
  split_and!; [| |intros i f; by apply flight_progress|by apply quiet_traffic].
  - intros Hg. destruct Hok as [Hfl Hsem Hcap _ _ _]. unfold NewConcurrencyLimiter in Ecap. destruct (global <=? 0) eqn:E; [lia|].
    specialize (Hcap _ Ecap). rewrite Hsem, Ecap in Hcap. etrans; [|exact Hcap]. apply total_le. intros f Hf. destruct (Hfl f Hf) as [Hc Hp].
    unfold running, slots_of. destruct (fl_phase f); lia.
  - intros Hp t. destruct Hok as [Hfl _ _ Hten _ _]. rewrite <- Eper in Hp. destruct (Hten t Hp) as [Ht Hle]. rewrite Eper, Ht in Hle.
    etrans; [|exact Hle]. apply total_le. intros f Hf. destruct (Hfl f Hf) as [Hc _]. unfold running_of, running, claim, counts.
    destruct (fl_phase f), (fl_tenant f =s t); cbn; lia.
Qed.

(** ** Bodies read to their limit *)

Section Body.

Definition source_size (s : Source) : nat := String.length (src_data s) + length (src_chunks s).

Lemma src_Read_spec s n s' got err : src_Read s n = (s', (got, err)) ->
  src_data s = (got ++ src_data s')%string /\ (String.length got <= n)%nat /\ src_err s' = src_err s /\
  (forall e, err = Some e -> e = src_err s /\ src_data s' = ""%string) /\
  (err = None -> (0 < n)%nat -> (source_size s' < source_size s)%nat) /\
  (err = None -> src_data s <> ""%string).
Proof.
  unfold src_Read. set (k := Nat.min n _).
  destruct (string_split (src_data s) k) as (a & b & Hs & Ha); [lia|].
  assert (slice (src_data s) 0 k = a) as -> by (rewrite Hs, <- Ha; apply slice_app).
  assert (from (src_data s) k = b) as Hb by (rewrite Hs, <- Ha; apply from_app).
  intros [= <- <- <-]. unfold src_left. cbn [src_data src_err]. rewrite Hb.
  split_and!; [done|lia|done| | |].
  - intros e. destruct (_ || _) eqn:E; [|done]. intros [= <-]. split; [done|]. apply orb_true_iff in E as [E|E].
    + apply streqb_true in E. rewrite Hs in E. by destruct a.
    + apply andb_true_iff in E as [_ E]. by apply streqb_true.
  - destruct (_ || _) eqn:E; [done|]. intros _ Hn. apply orb_false_iff in E as [E _]. apply streqb_false in E.
    unfold source_size. cbn [src_data src_chunks]. rewrite Hs, string_length_app, Ha.
    destruct (src_chunks s) as [|c chunks]; cbn [tail length]; [|lia].
    assert (0 < String.length (src_data s))%nat by (destruct (src_data s); [done|cbn; lia]). lia.
  - destruct (_ || _) eqn:E; [done|]. intros _. apply orb_false_iff in E as [E _]. by apply streqb_false.
Qed.

(** At the limit the reader tells the end from a longer body. *)
Lemma peek_spec fuel s : (length (src_chunks s) < fuel)%nat ->
  exists s', peek fuel s = (s', (""%string, Some (if (src_data s =s "") then src_err s else Sentinel ErrBodyTooLarge))).
Proof.
  revert s. induction fuel as [|fuel IH]; intros s Hf; [lia|]. cbn [peek].
  destruct (src_Read s 1) as [s' [got err]] eqn:E. pose proof (src_Read_spec _ _ _ _ _ E) as (Hd & _ & He & Herr & Hsz & Hne).
  destruct (got =s "") eqn:Eg; cbn [negb].
  - apply streqb_true in Eg as ->. cbn in Hd. destruct err as [e|].
    + destruct (Herr e eq_refl) as [-> He']. rewrite Hd, He', streqb_refl. by eexists.
    + specialize (Hsz eq_refl ltac:(lia)). unfold source_size in Hsz. rewrite Hd in Hsz.
      destruct (IH s') as [s2 ->]; [lia|]. rewrite Hd, He. by eexists.
  - apply streqb_false in Eg. assert (src_data s <> ""%string) as Hn by (rewrite Hd; by destruct got).
    apply streqb_false in Hn. rewrite Hn. by eexists.
Qed.

(** What is still to come of a body of [data], [n] bytes of which were read. *)
Definition limited (limit : Z) (data : string) (err : error) (got : string) (e : option error) (l : limitErrReader) : Prop :=
  len got <= limit - lr_n l /\ HasPrefix data got = true /\
  match e with
  | None => True
  | Some e => (len data <= limit - lr_n l /\ got = data /\ e = err) \/
              (limit - lr_n l < len data /\ len got = limit - lr_n l /\ e = Sentinel ErrBodyTooLarge)
  end.

Lemma limit_drain_spec bufs l : 0 <= lr_n l <= lr_limit l ->
  let '(got, e) := limit_drain l bufs in
  limited (lr_limit l) (src_data (lr_r l)) (src_err (lr_r l)) got e l /\
  (Forall (fun n => n <> 0%nat) bufs -> (source_size (lr_r l) < length bufs)%nat -> e <> None).
Proof.
  revert l. induction bufs as [|n bufs IH]; intros l Hl; cbn [limit_drain].
  { split; [|cbn; lia]. unfold limited, len. split_and!; [cbn; lia|by destruct (src_data _)|done]. }
  unfold limit_Read. destruct (n =? 0)%nat eqn:En.
  - apply Nat.eqb_eq in En as ->. specialize (IH l Hl). destruct (limit_drain l bufs) as [more e]. destruct IH as [IH1 IH2].
    split; [exact IH1|]. intros Hb. by inversion Hb.
  - apply Nat.eqb_neq in En. destruct (lr_limit l <=? lr_n l) eqn:El.
    + apply Z.leb_le in El. destruct (peek_spec (peek_fuel (lr_r l)) (lr_r l)) as [s' ->]; [unfold peek_fuel; lia|].
      split; [|done]. unfold limited. split_and!; [unfold len; cbn; lia|by destruct (src_data _)|].
      destruct (src_data (lr_r l) =s "") eqn:Ed.
      * apply streqb_true in Ed as ->. left. unfold len. cbn. split_and!; [lia|done|done].
      * apply streqb_false in Ed. right. assert (0 < len (src_data (lr_r l))) by (unfold len; destruct (src_data (lr_r l)); [done|cbn; lia]).
        split_and!; [lia|unfold len; cbn; lia|done].
    + apply Z.leb_gt in El. set (m := if _ <? Z.of_nat n then _ else n).
      assert (0 < m)%nat as Hm by (unfold m; destruct (_ <? _); lia).
      assert (Z.of_nat m <= lr_limit l - lr_n l) as Hml.
      { unfold m. destruct (_ <? _) eqn:E; [lia|]. by apply Z.ltb_ge in E. }
      destruct (src_Read (lr_r l) m) as [s' [got err]] eqn:E. pose proof (src_Read_spec _ _ _ _ _ E) as (Hd & Hlen & He & Herr & Hsz & Hne).
      assert (len got <= lr_limit l - lr_n l) as Hgot by (unfold len; lia).
      destruct err as [e|].
      * destruct (Herr e eq_refl) as [-> He']. split; [|done]. rewrite He', string_app_nil in Hd. rewrite Hd.
        unfold limited. split_and!; [done| |by left]. apply HasPrefix_spec. exists ""%string. by rewrite string_app_nil.
      * specialize (IH (set_src l s' (lr_n l + len got))). cbn [lr_n lr_limit lr_r set_src] in IH.
        pose proof (len_nonneg got). specialize (IH ltac:(lia)). destruct (limit_drain _ bufs) as [more e]. destruct IH as [(IH1 & IH2 & IH3) IH4].
        cbn [lr_n set_src] in IH1, IH3. split.
        -- unfold limited. rewrite Hd, !len_app. split_and!; [lia| |].
           ++ apply HasPrefix_spec in IH2 as [r ->]. apply HasPrefix_spec. exists r. by rewrite string_app_assoc.
           ++ destruct e as [e|]; [|done]. rewrite He in IH3. destruct IH3 as [(? & -> & ->)|(? & ? & ->)]; [left|right]; split_and!; try done; lia.
        -- intros Hb Hbl. apply IH4; [by inversion Hb|]. specialize (Hsz eq_refl Hm). cbn in Hbl. lia.
Qed.
End Body.

(** A handler that reads a body through the limit gets its first bytes, never more than
    the limit; if the body is within the limit it ends as the body does and was read whole;
    if it is longer it ends in ErrBodyTooLarge after exactly the limit; and it does end, once
    the handler has read often enough. *)
Theorem body_is_limited s limit bufs : 0 <= limit ->
  let '(got, e) := limit_drain {| lr_r := s; lr_limit := limit; lr_n := 0 |} bufs in
  len got <= limit /\ HasPrefix (src_data s) got = true /\
  (forall err, e = Some err ->
     (len (src_data s) <= limit /\ got = src_data s /\ err = src_err s) \/
     (limit < len (src_data s) /\ len got = limit /\ err = Sentinel ErrBodyTooLarge)) /\
  (Forall (fun n => n <> 0%nat) bufs -> (String.length (src_data s) + length (src_chunks s) < length bufs)%nat -> e <> None).
Proof.
  intros Hl. pose proof (limit_drain_spec bufs {| lr_r := s; lr_limit := limit; lr_n := 0 |} ltac:(cbn; lia)) as H.
  destruct (limit_drain _ bufs) as [got e]. destruct H as [(H1 & H2 & H3) H4]. cbn [lr_n lr_limit lr_r] in *. rewrite Z.sub_0_r in *.
  split_and!; [done|done| |exact H4]. intros err ->. exact H3.
Qed.

(** ** Buckets *)

Section Buckets.

(** A bucket that is gone was idle. *)
Definition aged (rl rl' : RateLimiter) (now : time) (tenant : string) : Prop :=
  rl_buckets rl' !! tenant = rl_buckets rl !! tenant \/
  rl_buckets rl' !! tenant = None /\ exists b, rl_buckets rl !! tenant = Some b /\ rlIdleTTL < Since now (bk_last b).

Lemma evict_aged rl now tenant : aged rl (evictIdle rl now) now tenant.
Proof.
  unfold aged, evictIdle. cbn. destruct (rl_buckets rl !! tenant) as [b|] eqn:E.
  - destruct (decide (Since now (bk_last b) <= rlIdleTTL)) as [Hle|Hgt].
    + left. by apply map_lookup_filter_Some.
    + right. split; [|exists b; split; [done|lia]]. apply map_lookup_filter_None. right. intros x Hx Hle. cbn in Hle. rewrite E in Hx. injection Hx as <-. lia.
  - left. apply map_lookup_filter_None. by left.
Qed.

Lemma evict_size rl now : (size (rl_buckets (evictIdle rl now)) <= size (rl_buckets rl))%nat.
Proof. unfold evictIdle. cbn. apply map_subseteq_size, map_filter_subseteq. Qed.

Lemma take_bucket_spec rl now tenant rl' o : take_bucket rl now tenant = (rl', o) ->
  (size (rl_buckets rl') <= size (rl_buckets rl))%nat /\ (forall t, aged rl rl' now t) /\
  (is_Some o -> rl_buckets rl' !! tenant = None -> Z.of_nat (size (rl_buckets rl')) < rlMaxBuckets).
Proof.
  unfold take_bucket. destruct (rl_buckets rl !! tenant) as [b|] eqn:E.
  { intros [= <- <-]. split_and!; [done|by left|by rewrite E]. }
  set (r := if full_map rl then evictIdle rl now else rl). intros [= <- <-].
  assert (Hr : forall r', r' = r -> (size (rl_buckets r') <= size (rl_buckets rl))%nat /\ forall t, aged rl r' now t).
  { intros r' ->. unfold r. destruct (full_map rl); [split; [apply evict_size|apply evict_aged]|split; [done|by left]]. }
  destruct (Hr r eq_refl) as [H1 H2]. split_and!; [done..|]. intros [x Hx] _. destruct (full_map r) eqn:Ef; [done|].
  unfold full_map in Ef. by apply Z.leb_gt in Ef.
Qed.

(** The map never exceeds its bound; a request of a tenant changes the tokens of no other,
    whose bucket is at most dropped when idle. *)
Theorem Allow_bounded rl now tenant :
  let rl' := fst (Allow rl now tenant) in
  (Z.of_nat (size (rl_buckets rl)) <= rlMaxBuckets -> Z.of_nat (size (rl_buckets rl')) <= rlMaxBuckets) /\
  (forall t, t <> tenant -> aged rl rl' now t).
Proof.
  unfold Allow. destruct (take_bucket rl now tenant) as [r o] eqn:E. destruct (take_bucket_spec _ _ _ _ _ E) as (H1 & H2 & H3).
  destruct o as [b|]; [|cbn; split; [lia|by intros]]. assert (forall x, 
    (Z.of_nat (size (rl_buckets rl)) <= rlMaxBuckets -> Z.of_nat (size (<[tenant := x]> (rl_buckets r))) <= rlMaxBuckets) /\
    (forall t, t <> tenant -> aged rl (with_buckets r (<[tenant := x]> (rl_buckets r))) now t)) as H.
  { intros x. split.
    - destruct (rl_buckets r !! tenant) as [y|] eqn:Ey; [rewrite map_size_insert_Some by done; lia|].
      rewrite map_size_insert_None by done. specialize (H3 ltac:(by eexists) eq_refl). lia.
    - intros t Hn. unfold aged. cbn. rewrite lookup_insert_ne by done. apply H2. }
  cbn zeta. destruct (SFleb _ _); cbn [fst]; apply H.
Qed.
End Buckets.

(** ** Samples *)

(** With a burst above ten minutes of refill, dropping an idle bucket gives tokens away:
    after 601 seconds a drained bucket has 601 tokens, a new one 9999. *)
Example idle_eviction_refills :
  let drained := {| rl_rps := float_of 1; rl_burst := float_of 10000;
                    rl_buckets := {["acme"%string := {| bk_tokens := float_of 0; bk_last := 0 |}]} |} in
  let tokens := fun rl => option_map (fun b => int_of (bk_tokens b)) (rl_buckets rl !! "acme"%string) in
  tokens (fst (Allow drained (601 * Second) "acme")) = Some 600 /\
  tokens (fst (Allow (evictIdle drained (601 * Second)) (601 * Second) "acme")) = Some 9999.
Proof. by vm_compute. Qed.

(** A limit of one slot admits reads and no write ever. *)
Example single_slot_refuses_writes :
  let c := NewPerTenantConcurrencyLimiter 1 0 in
  send (set_sem c 1) = None /\ reqWeight "PUT" = 2 /\ reqWeight "GET" = 1.
Proof. by vm_compute. Qed.

Definition one_request : Traffic :=
  (set_inflight (set_sem (NewPerTenantConcurrencyLimiter 4 2) 2) {["acme"%string := 2]},
   [{| fl_tenant := "acme"; fl_cost := 2; fl_phase := Running |}]).

Lemma one_request_reached : rtc traffic_step (NewPerTenantConcurrencyLimiter 4 2, []) one_request.
Proof.
  eapply rtc_l; [apply (ts_arrive _ _ "acme" "PUT")|]. cbn.
  eapply rtc_l; [eapply (ts_step _ _ 0); [done|eapply fs_send; [done|done|done]]|]. cbn.
  eapply rtc_l; [eapply (ts_step _ _ 0); [done|eapply fs_send; [done|done|done]]|]. cbn.
  eapply rtc_l; [eapply (ts_step _ _ 0); [done|eapply fs_admit; [done|vm_compute; reflexivity]]|]. apply rtc_refl.
Defined.

Lemma limits_hold_witness :
  total running one_request.2 = 2 /\ total running one_request.2 <= 4 /\ total (running_of "acme") one_request.2 <= 2.
Proof.
  destruct (limits_hold 4 2 one_request one_request_reached) as (H1 & H2 & _).
  split; [vm_compute; reflexivity|]. split; [apply H1; reflexivity|apply H2; reflexivity].
Defined.

Definition long_body : Source := {| src_data := "0123456789"; src_chunks := [3; 0; 2]%nat; src_eager := true; src_err := io_eof |}.

Lemma body_is_limited_witness :
  let r := limit_drain {| lr_r := long_body; lr_limit := 8; lr_n := 0 |} (repeat 4%nat 20) in
  r = ("01234567"%string, Some (Sentinel ErrBodyTooLarge)) /\ len (fst r) <= 8.
Proof.
  pose proof (body_is_limited long_body 8 (repeat 4%nat 20) ltac:(discriminate)) as H. split; [vm_compute; reflexivity|].
  destruct (limit_drain _ _) as [got e]. destruct H as [H _]. exact H.
Defined.
