(* ===== verification/AuthKeys.v ===== *)
(** * Keys, tokens and presigned URLs (src/internal/auth)

    The identity a request authenticates as ([Key], auth.go) with the scopes' text
    (store.go) and the principal it becomes (principal.go); AUTH_KEYS records; HS256
    tokens (jwt.go); capability URLs (presign_put.go).  SHA-256 and HMAC are the class
    [SHA2], url.Parse and its inverse the class [URLLib]; the clock is an argument.

    [jwt_round_trip], [jwt_accepts_safely]: a signed token verifies until it expires, and
    what verifies carries a valid signature, a tenant and a scope.  [presign_round_trip],
    [presign_binds]: a presigned URL is accepted for its method and path until its expiry,
    and nothing else is under its signature. *)
From Stdlib Require Import Ascii Lia Bool ZArith.
From stdpp Require Import base gmap strings list numbers option pretty sorting.
From S2P Require Import Prelude GoStrings Json JsonProps GoTime Base64 GoErrors Sql JsonStruct Http Access.

Open Scope Z_scope.

Class SHA2 := { sha256_Sum : string -> string; hmac_SHA256 : string -> string -> string }.

Definition newline : string := String (char 10) "".
Definition dot : ascii := char 46.
Definition plus : ascii := char 43.
Definition comma : ascii := char 44.
Definition colon : ascii := char 58.

Definition Unix (t : time) : Z := (t - unixEpoch) / Second.

(** ** Scopes and keys *)

Definition ScopeRead : string := "read".
Definition ScopeWrite : string := "write".
Definition ScopeAdmin : string := "admin".
Definition ScopeFileDelete : string := "vault.file.delete".

Definition knownScope (scope : string) : bool :=
  (scope =s ScopeRead) || (scope =s ScopeWrite) || (scope =s ScopeAdmin) || (scope =s ScopeFileDelete).

Abbreviation ScopeSet := (gmap string bool).

Definition enabled (m : ScopeSet) (s : string) : bool := default false (m !! s).

Record Key := {
  k_Token : string; k_Tenant : string; k_SubjectID : string; k_Kind : string;
  k_Roles : list string; k_Groups : list string; k_Scopes : ScopeSet
}.

Definition Has (k : Key) (s : string) : bool := enabled (k_Scopes k) ScopeAdmin || enabled (k_Scopes k) s.

Definition plain_key (token tenant : string) (scopes : ScopeSet) : Key := {|
  k_Token := token; k_Tenant := tenant; k_SubjectID := ""; k_Kind := ""; k_Roles := []; k_Groups := [];
  k_Scopes := scopes |}.

Definition enabled_scopes (m : ScopeSet) : list string := map fst (List.filter snd (map_to_list m)).

Definition scopesToString (m : ScopeSet) : string := Join (sort_by text_le (enabled_scopes m)) (String plus "").

Definition add_scope (m : ScopeSet) (sc : string) : ScopeSet :=
  let sc := TrimSpace sc in if (sc =s "") then m else <[sc := true]> m.

Definition parseScopeString (s : string) : ScopeSet := foldl add_scope ∅ (Split s plus).

Definition HashToken `{SHA2} (token : string) : string := hex_EncodeToString (sha256_Sum token).

Definition PrincipalForKey `{SHA2} (k : Key) : Principal := {|
  SubjectID := if (k_SubjectID k =s "") then ("apikey:" ++ slice (HashToken (k_Token k)) 0 24)%string else k_SubjectID k;
  TenantID := k_Tenant k; Kind := if (k_Kind k =s "") then PrincipalUser else k_Kind k;
  Roles := k_Roles k; Groups := k_Groups k; Scopes := sort_by text_le (enabled_scopes (k_Scopes k)); p_Capability := None |}.

(** ** AUTH_KEYS *)

(** The scopes of a record, [None] for an unknown one. *)
Fixpoint record_scopes (l : list string) (m : ScopeSet) : ScopeSet + string :=
  match l with
  | [] => inl m
  | sc :: rest =>
      let sc := TrimSpace sc in
      if (sc =s "") then record_scopes rest m
      else if knownScope sc then record_scopes rest (<[sc := true]> m) else inr sc
  end.

(** The tokens read so far, or the error that locks the registry. *)
Fixpoint parse_records (recs : list string) (keys : gmap string Key) : result (gmap string Key) :=
  match recs with
  | [] => Ok keys
  | rec :: rest =>
      let rec := TrimSpace rec in
      if (rec =s "") then parse_records rest keys
      else match SplitN rec colon 3 with
           | [token; tenant; scopes] =>
               if (token =s "") || (tenant =s "") then Err (NewError "AUTH_KEYS: token and tenant are required")
               else match record_scopes (Split scopes plus) ∅ with
                    | inr sc => Err (NewError ("AUTH_KEYS: " ++ rec ++ ": unknown scope " ++ sc))
                    | inl m => if decide (m = ∅) then Err (NewError ("AUTH_KEYS: " ++ rec ++ ": must have at least one scope"))
                               else parse_records rest (<[token := plain_key token tenant m]> keys)
                    end
           | _ => Err (NewError "AUTH_KEYS: bad record, want token:tenant:scope+scope")
           end
  end.

(** The keys and whether authentication is enabled; a parse error leaves it enabled
    without keys. *)
Definition ParseKeys (raw : string) : (gmap string Key * bool) * option error :=
  let raw := TrimSpace raw in
  if (raw =s "") then ((∅, false), None)
  else match parse_records (Split raw comma) ∅ with
       | Err e => ((∅, true), Some e)
       | Ok keys => if decide (keys = ∅) then ((∅, true), Some (NewError "AUTH_KEYS: no valid records"))
                    else ((keys, true), None)
       end.

Definition redact (s : string) : string :=
  let stars n := text (replicate n (char 42)) in
  let n := String.length s in
  if (n <=? 8)%nat then stars n else (slice s 0 4 ++ stars (n - 8)%nat ++ from s (n - 4))%string.

(** ** base64.RawURLEncoding *)

Definition to_url (a : ascii) : ascii := if is_char 43 a then char 45 else if is_char 47 a then char 95 else a.
Definition from_url (a : ascii) : ascii :=
  if is_char 45 a then char 43 else if is_char 95 a then char 47
  else if is_char 43 a || is_char 47 a || is_char 61 a then char 0 else a.

Definition raw_encode (l : list ascii) : list ascii := map to_url (List.filter (fun a => negb (is_char 61 a)) (b64_encode l)).

(** The pad characters the raw form leaves out. *)
Definition padding (n : nat) : list ascii := match n mod 4 with 2 => [pad_char; pad_char] | 3 => [pad_char] | _ => [] end%nat.

Definition raw_decode (l : list ascii) : option (list ascii) := b64_decode (map from_url l ++ padding (length l)).

Definition RawURL_Encode (s : string) : string := text (raw_encode (chars s)).
Definition RawURL_Decode (s : string) : option string :=
  text <$> raw_decode (List.filter (fun a => negb (line_break a)) (chars s)).

(** ** Tokens *)

Record JWTVerifier := { jv_secret : string; jv_expectedIssuer : string }.

Definition NewJWTVerifier (secret : string) : option JWTVerifier :=
  if (secret =s "") then None else Some {| jv_secret := secret; jv_expectedIssuer := "" |}.

Definition WithIssuer (v : option JWTVerifier) (iss : string) : option JWTVerifier :=
  match v with None => None | Some v => Some {| jv_secret := jv_secret v; jv_expectedIssuer := iss |} end.

Record jwtClaims := {
  cl_Sub : string; cl_Ten : string; cl_Iss : string; cl_Scopes : list string; cl_Roles : list string;
  cl_Groups : list string; cl_Exp : Z; cl_Nbf : Z
}.

Definition jwtHeader_json : jvalue := JObject [str "alg" "HS256"; str "typ" "JWT"].

Definition jwtClaims_json (c : jwtClaims) : jvalue := JObject (
  omit_str "sub" (cl_Sub c) ++ omit_str "ten" (cl_Ten c) ++ omit_str "iss" (cl_Iss c) ++ omit_strs "scopes" (cl_Scopes c) ++
  omit_strs "roles" (cl_Roles c) ++ omit_strs "groups" (cl_Groups c) ++ omit_int "exp" (cl_Exp c) ++ omit_int "nbf" (cl_Nbf c)).

Definition jwtClaims_names : list string := ["sub"; "ten"; "iss"; "scopes"; "roles"; "groups"; "exp"; "nbf"]%string.

Definition jwtClaims_decode (o : list (string * jvalue)) : option jwtClaims :=
  let vs := assigned jwtClaims_names o in
  sub ← string_field (vs "sub"%string) ""; ten ← string_field (vs "ten"%string) ""; iss ← string_field (vs "iss"%string) "";
  scopes ← slice_field string_elem (vs "scopes"%string) []; roles ← slice_field string_elem (vs "roles"%string) [];
  groups ← slice_field string_elem (vs "groups"%string) [];
  exp ← int64_field (vs "exp"%string) 0; nbf ← int64_field (vs "nbf"%string) 0;
  Some {| cl_Sub := sub; cl_Ten := ten; cl_Iss := iss; cl_Scopes := scopes; cl_Roles := roles; cl_Groups := groups;
          cl_Exp := exp; cl_Nbf := nbf |}.

Section Tokens.
Context `{SHA2} `{CaseTables}.

Definition jwt_signature (secret input : string) : string := RawURL_Encode (hmac_SHA256 secret input).

Definition verifySignature (header claims sig secret : string) : option error :=
  if (jwt_signature secret (header ++ String dot claims) =s sig) then None else Some (NewError "jwt: bad signature").

Definition malformed : error := NewError "malformed".

(** The header's alg, once it is HS256. *)
Definition decodeJWTHeader (part : string) : result string :=
  match RawURL_Decode part with
  | None => Err malformed
  | Some bytes =>
      match Unmarshal_struct bytes with
      | None => Err malformed
      | Some o =>
          match string_field (assigned ["alg"; "typ"]%string o "alg") "", string_field (assigned ["alg"; "typ"]%string o "typ") "" with
          | Some alg, Some _ => if (ToUpper alg =s "HS256") then Ok alg else Err (NewError ("jwt: unsupported alg " ++ alg))
          | _, _ => Err malformed
          end
      end
  end.

Definition decodeAndValidateClaims (v : JWTVerifier) (now : Z) (part : string) : result jwtClaims :=
  match RawURL_Decode part with
  | None => Err malformed
  | Some bytes =>
      match Unmarshal_struct bytes ≫= jwtClaims_decode with
      | None => Err malformed
      | Some c =>
          if (jv_expectedIssuer v <>s "") && (cl_Iss c <>s jv_expectedIssuer v) then Err (NewError "jwt: issuer mismatch")
          else if (0 <? cl_Exp c) && (cl_Exp c <? now) then Err (NewError "jwt: expired")
          else if (0 <? cl_Nbf c) && (now <? cl_Nbf c) then Err (NewError "jwt: not yet valid")
          else if (cl_Ten c =s "") then Err (NewError "jwt: missing or empty tenant claim") else Ok c
      end
  end.

Definition scope_set (l : list string) : ScopeSet := foldl (fun m s => <[s := true]> m) ∅ l.

Definition claimsToKey (token : string) (c : jwtClaims) : result Key :=
  if decide (scope_set (cl_Scopes c) = ∅) then Err (NewError "jwt: token has no scopes")
  else Ok {| k_Token := token; k_Tenant := cl_Ten c; k_SubjectID := cl_Sub c; k_Kind := ""; k_Roles := cl_Roles c;
             k_Groups := cl_Groups c; k_Scopes := scope_set (cl_Scopes c) |}.

Definition jwt_Verify (v : option JWTVerifier) (now : Z) (token : string) : result Key :=
  match v with
  | None => Err (NewError "jwt verifier not configured")
  | Some v =>
      match Split token dot with
      | [header; claims; sig] =>
          match verifySignature header claims sig (jv_secret v) with
          | Some e => Err e
          | None => let! _ := decodeJWTHeader header in
                    let! c := decodeAndValidateClaims v now claims in
                    claimsToKey token c
          end
      | _ => Err (NewError "jwt: not a 3-part token")
      end
  end.

Record JWTSignClaims := {
  sc_Sub : string; sc_Tenant : string; sc_Scopes : list string; sc_Roles : list string; sc_Groups : list string; sc_TTL : Z
}.

Definition signed_claims (v : JWTVerifier) (now : Z) (c : JWTSignClaims) : jwtClaims := {|
  cl_Sub := sc_Sub c; cl_Ten := sc_Tenant c; cl_Iss := jv_expectedIssuer v; cl_Scopes := sc_Scopes c; cl_Roles := sc_Roles c;
  cl_Groups := sc_Groups c; cl_Exp := if 0 <? sc_TTL c then wrap64 (now + sc_TTL c / Second) else 0; cl_Nbf := now |}.

Definition SignWithPrincipal (v : option JWTVerifier) (now : Z) (c : JWTSignClaims) : result string :=
  match v with
  | None => Err (NewError "jwt verifier not configured")
  | Some v =>
      let input := (RawURL_Encode (marshal jwtHeader_json) ++
                    String dot (RawURL_Encode (marshal (jwtClaims_json (signed_claims v now c)))))%string in
      Ok (input ++ String dot (jwt_signature (jv_secret v) input))%string
  end.
End Tokens.

(** ** Presigned URLs *)

Record URL := { u_Scheme : string; u_Host : string; u_EscapedPath : string; u_RawQuery : string }.

Class URLLib := { url_Parse : string -> option URL; url_String : URL -> string }.

Definition presignPutExpiresKey : string := "x-aero-presign-expires".
Definition presignPutTenantKey : string := "x-aero-presign-tenant".
Definition presignPutSignatureKey : string := "x-aero-presign-signature".
Definition presignOperationKey : string := "x-aero-presign-operation".
Definition maxPutPresignTTL : Z := 7 * 24 * Hour.
Definition MethodGet : string := "GET".
Definition MethodPut : string := "PUT".
Definition MethodHead : string := "HEAD".

(** A nil signer is [None]; its secret is never empty otherwise. *)
Abbreviation PutPresigner := (option string).

Definition configured (p : PutPresigner) : option string :=
  match p with Some secret => if (secret =s "") then None else Some secret | None => None end.

Definition allowed_key (k : string) : bool :=
  (k =s presignPutExpiresKey) || (k =s presignPutTenantKey) || (k =s presignPutSignatureKey) || (k =s presignOperationKey).

Definition validatePresignQuery (q : Values) (operation : string) : option error :=
  if negb (forallb (fun p => allowed_key p.1 && (length p.2 =? 1)%nat) (map_to_list q))
  then Some (NewError "invalid presigned REST query parameters")
  else let got := values_Get q presignOperationKey in
       if ((operation =s "get") && (got <>s "get")) || ((operation =s "put") && (got <>s "") && (got <>s "put"))
       then Some (NewError "invalid presigned REST operation") else None.

Section Presign.
Context `{SHA2}.

Definition presign_payload (method path tenant : string) (expires : Z) : string :=
  Join [method; if (path =s "") then "/"%string else path; tenant; FormatInt expires] newline.

Definition signatureFor (secret method path tenant : string) (expires : Z) : string :=
  RawURL_Encode (hmac_SHA256 secret (presign_payload method path tenant expires)).

Definition presign_values (secret method path operation tenant : string) (expires : Z) : Values :=
  let q := if (operation =s "") then ∅ else values_Set ∅ presignOperationKey operation in
  let q := values_Set q presignPutExpiresKey (FormatInt expires) in
  let q := values_Set q presignPutTenantKey tenant in
  values_Set q presignPutSignatureKey (signatureFor secret method path tenant expires).

Definition sign `{URLLib} (p : PutPresigner) (now : time) (rawURL tenant : string) (expiry : Z) (method operation : string) : result string :=
  match configured p with
  | None => Err (NewError "presigned REST signer is not configured")
  | Some secret =>
      if (tenant =s "") then Err (NewError "presigned REST tenant is required")
      else if (expiry <=? 0) || (maxPutPresignTTL <? expiry)
      then Err (NewError "presigned REST expiry must be between 1 second and 7 days")
      else match url_Parse rawURL with
           | Some u =>
               if (u_Scheme u =s "") || (u_Host u =s "") || (u_RawQuery u <>s "")
               then Err (NewError "presigned REST target must be an absolute URL without query parameters")
               else let expires := Unix (now + expiry) in
                    Ok (url_String {| u_Scheme := u_Scheme u; u_Host := u_Host u; u_EscapedPath := u_EscapedPath u;
                          u_RawQuery := values_Encode (presign_values secret method (u_EscapedPath u) operation tenant expires) |})
           | None => Err (NewError "presigned REST target must be an absolute URL without query parameters")
           end
  end.

Definition SignPut `{URLLib} p now rawURL tenant expiry := sign p now rawURL tenant expiry MethodPut "".
Definition SignGet `{URLLib} p now rawURL tenant expiry := sign p now rawURL tenant expiry MethodGet "get".

(** The checks VerifyPut and VerifyGet share after the method. *)
Definition verify_capability (secret method operation token scope : string) (now : time) (r : Http) : result Key :=
  let q := Query r in
  match validatePresignQuery q operation with
  | Some e => Err e
  | None =>
      let tenant := values_Get q presignPutTenantKey in
      match ParseInt 10 (values_Get q presignPutExpiresKey) with
      | None => Err (NewError ("invalid presigned " ++ method ++ " parameters"))
      | Some expires =>
          if (tenant =s "") then Err (NewError ("invalid presigned " ++ method ++ " parameters"))
          else if (expires <? Unix now) || (maxPutPresignTTL / Second <? wrap64 (expires - Unix now))
          then Err (NewError ("presigned " ++ method ++ " URL expired or exceeds maximum lifetime"))
          else if (signatureFor secret method (rq_EscapedPath r) tenant expires <>s values_Get q presignPutSignatureKey)
          then Err (NewError ("presigned " ++ method ++ " signature mismatch"))
          else Ok (plain_key token tenant {[ scope := true ]})
      end
  end.

Definition VerifyPut (p : PutPresigner) (now : time) (r : Http) : result Key :=
  match configured p with
  | None => Err (NewError "presigned PUT signer is not configured")
  | Some secret =>
      if (rq_Method r <>s MethodPut) then Err (NewError "presigned PUT URL requires PUT")
      else verify_capability secret MethodPut "put" "presigned-put" ScopeWrite now r
  end.

Definition VerifyGet (p : PutPresigner) (now : time) (r : Http) : result Key :=
  match configured p with
  | None => Err (NewError "presigned GET signer is not configured")
  | Some secret =>
      if (rq_Method r <>s MethodGet) && (rq_Method r <>s MethodHead) then Err (NewError "presigned GET URL requires GET or HEAD")
      else verify_capability secret MethodGet "get" "presigned-get" ScopeRead now r
  end.

Definition IsPresignedPut (r : Http) : bool :=
  (rq_Method r =s MethodPut) && (TrimSpace (values_Get (Query r) presignOperationKey) <>s "get") &&
  (TrimSpace (values_Get (Query r) presignPutSignatureKey) <>s "").

Definition IsPresignedGet (r : Http) : bool :=
  ((rq_Method r =s MethodGet) || (rq_Method r =s MethodHead)) &&
  (TrimSpace (values_Get (Query r) presignOperationKey) =s "get") &&
  (TrimSpace (values_Get (Query r) presignPutSignatureKey) <>s "").
End Presign.

(** ** Lemmas: unpadded base64 *)

Lemma b64_char_all (p : ascii -> bool) :
  forallb (fun n => p (b64_char n)) (seqZ 0 64) = true -> forall n, 0 <= n < 64 -> p (b64_char n) = true.
Proof. intros Hp n Hn. rewrite forallb_elem in Hp. apply (Hp n), elem_of_seqZ. lia. Qed.

Lemma b64_char_pad n : 0 <= n < 64 -> is_char 61 (b64_char n) = false.
Proof. intros Hn. apply negb_true_iff, (b64_char_all (fun a => negb (is_char 61 a))); [by vm_compute|done]. Qed.

Lemma b64_char_url n : 0 <= n < 64 -> from_url (to_url (b64_char n)) = b64_char n.
Proof. intros Hn. apply Ascii.eqb_eq, (b64_char_all (fun a => Ascii.eqb (from_url (to_url a)) a)); [by vm_compute|done]. Qed.

(** What the encoding is made of: no line break and no point. *)
Definition url_text (a : ascii) : bool := negb (line_break a) && negb (Ascii.eqb a dot).

Lemma b64_char_text n : 0 <= n < 64 -> url_text (to_url (b64_char n)) = true.
Proof. apply (b64_char_all (fun a => url_text (to_url a))). by vm_compute. Qed.

Lemma padding_step n : padding (S (S (S (S n)))) = padding n.
Proof. unfold padding. change (S (S (S (S n)))) with (4 + n)%nat. replace ((4 + n) mod 4)%nat with (n mod 4)%nat; [done|]. by rewrite (Nat.add_comm 4 n), <- (Nat.Div0.add_mod_idemp_r n 4 4), Nat.add_0_r. Qed.

Lemma raw_encode_pads l : map from_url (raw_encode l) ++ padding (length (raw_encode l)) = b64_encode l.
Proof.
  unfold raw_encode. induction l as [|a|a b|a b c l IH] using b64_encode_ind; [done|..]; cbn [b64_encode List.filter];
    rewrite !b64_char_pad by b64_bound; cbn [negb].
  1,2: replace (is_char 61 pad_char) with true by done; cbn [negb map length app]; by rewrite !b64_char_url by b64_bound.
  cbn [map length app]. rewrite !b64_char_url by b64_bound. rewrite padding_step. do 4 f_equal. exact IH.
Qed.

Lemma raw_encode_text l : Forall (fun a => url_text a = true) (raw_encode l).
Proof.
  unfold raw_encode. induction l as [|a|a b|a b c l IH] using b64_encode_ind; [constructor|..]; cbn [b64_encode List.filter];
    rewrite !b64_char_pad by b64_bound; cbn [negb].
  1,2: replace (is_char 61 pad_char) with true by done; cbn [negb map]; repeat constructor; apply b64_char_text; b64_bound.
  cbn [map]. do 4 (constructor; [apply b64_char_text; b64_bound|]). exact IH.
Qed.

Lemma filter_kept {A} (p : A -> bool) l : Forall (fun a => p a = true) l -> List.filter p l = l.
Proof. induction 1 as [|a l Ha _ IH]; [done|]. cbn. by rewrite Ha, IH. Qed.

Lemma RawURL_round_trip s : RawURL_Decode (RawURL_Encode s) = Some s.
Proof.
  unfold RawURL_Decode, RawURL_Encode. rewrite chars_text, filter_kept.
  - unfold raw_decode. rewrite raw_encode_pads, b64_decode_encode. cbn. by rewrite text_chars.
  - eapply list.Forall_impl; [apply raw_encode_text|]. unfold url_text. by intros a [? _]%andb_true_iff.
Qed.

Lemma RawURL_inj a b : RawURL_Encode a = RawURL_Encode b -> a = b.
Proof. intros He. apply (f_equal RawURL_Decode) in He. rewrite !RawURL_round_trip in He. by injection He. Qed.

Lemma RawURL_no_dot s : dot ∉ chars (RawURL_Encode s).
Proof.
  unfold RawURL_Encode. rewrite chars_text. intros Hin. pose proof (raw_encode_text (chars s)) as Hall.
  rewrite list.Forall_forall in Hall. apply Hall in Hin. by vm_compute in Hin.
Qed.

(** ** Tokens: what a signed one says *)

Lemma jwtClaims_back c :
  int64 (cl_Exp c) -> int64 (cl_Nbf c) -> jwtClaims_decode (members (jwtClaims_json c)) = Some c.
Proof.
  intros He Hn. destruct c as [sub ten iss scopes roles groups exp nbf]. cbn in He, Hn.
  unfold jwtClaims_decode, jwtClaims_json, members. cbn [cl_Sub cl_Ten cl_Iss cl_Scopes cl_Roles cl_Groups cl_Exp cl_Nbf].
  rewrite !assigned_app, !assigned_omit_str, !assigned_omit_strs, !assigned_omit_int by done.
  cbn -[string_field slice_field int64_field JInt]. rewrite !app_nil_r.
  rewrite !string_omitted, !strings_omitted, !int64_omitted by done. done.
Qed.

Definition claims_utf8 (c : jwtClaims) : Prop :=
  all_utf8 ([cl_Sub c; cl_Ten c; cl_Iss c] ++ cl_Scopes c ++ cl_Roles c ++ cl_Groups c).

Lemma sound_claims c : claims_utf8 c -> int64 (cl_Exp c) -> int64 (cl_Nbf c) -> sound 0 (jwtClaims_json c).
Proof.
  intros Hc He Hn. apply list.Forall_app in Hc as [Ht [Hs [Hr Hg]%list.Forall_app]%list.Forall_app].
  apply list.Forall_cons in Ht as [H1 [H2 [H3 _]%list.Forall_cons]%list.Forall_cons].
  apply sound_object; [done|]. repeat apply Forall_app_2;
    first [by apply ok_omit_str|by apply ok_omit_strs|by apply ok_omit_int].
Qed.

Lemma Split_token a b c : dot ∉ chars a -> dot ∉ chars b -> dot ∉ chars c ->
  Split ((a ++ String dot b) ++ String dot c) dot = [a; b; c].
Proof.
  intros Ha Hb Hc. replace ((a ++ String dot b) ++ String dot c)%string with (Join [a; b; c] (String dot ""))
    by (cbn; by rewrite string_app_assoc). apply Split_Join; [done|]. by repeat constructor.
Qed.

(** ** Tokens: theorems *)

Section TokenTheorems.
Context `{SHA2} `{CaseTables}.

Lemma scope_set_elem l s : scope_set l !! s = if bool_decide (s ∈ l) then Some true else None.
Proof.
  unfold scope_set. assert (forall m, foldl (fun m s => <[s := true]> m) m l !! s =
    if bool_decide (s ∈ l) then Some true else (m : ScopeSet) !! s) as Hf; [|by rewrite Hf, lookup_empty].
  induction l as [|x l IH]; intros m; [by rewrite bool_decide_false by apply not_elem_of_nil|]. cbn. rewrite IH.
  destruct (decide (s ∈ l)).
  - rewrite !bool_decide_true; [done|by right|done].
  - rewrite (bool_decide_false (s ∈ l)) by done. destruct (decide (s = x)) as [->|Hne].
    + rewrite lookup_insert_eq, bool_decide_true by by left. done.
    + rewrite lookup_insert_ne, bool_decide_false; [done|by intros [?|?]%elem_of_cons|done].
Qed.

Lemma scope_set_empty l : scope_set l = ∅ <-> l = [].
Proof.
  split; [|by intros ->]. destruct l as [|s l]; [done|]. intros He. apply (f_equal (lookup s)) in He.
  rewrite scope_set_elem, lookup_empty, bool_decide_true in He by by left. done.
Qed.

Lemma decodeJWTHeader_Ok part alg : decodeJWTHeader part = Ok alg -> ToUpper alg = "HS256"%string.
Proof.
  unfold decodeJWTHeader. destruct (RawURL_Decode part); [|done]. destruct (Unmarshal_struct _); [|done].
  destruct (string_field _ _); [|done]. destruct (string_field _ _); [|done]. destruct (_ =s _) eqn:E; [|done]. intros [= <-].
  by apply streqb_true.
Qed.

(** C35: a token that verifies has three parts of which the last one is the HMAC of the
    first two under the verifier's secret; its header decodes to HS256 and its claims to [c],
    which names the issuer the verifier expects, is neither expired nor early, names a tenant
    and lists a scope; and the key is the claims': their tenant, subject, roles and groups,
    and a scope is enabled exactly when they list it. *)
Theorem jwt_accepts_safely v now token k :
  jwt_Verify (Some v) now token = Ok k ->
  exists header claims alg text c,
    token = ((header ++ String dot claims) ++ String dot (jwt_signature (jv_secret v) (header ++ String dot claims)))%string /\
    decodeJWTHeader header = Ok alg /\ ToUpper alg = "HS256"%string /\
    RawURL_Decode claims = Some text /\ Unmarshal_struct text ≫= jwtClaims_decode = Some c /\
    (jv_expectedIssuer v = ""%string \/ cl_Iss c = jv_expectedIssuer v) /\
    (cl_Exp c <= 0 \/ now <= cl_Exp c) /\ (cl_Nbf c <= 0 \/ cl_Nbf c <= now) /\ cl_Ten c <> ""%string /\ cl_Scopes c <> [] /\
    k_Token k = token /\ k_Tenant k = cl_Ten c /\ k_SubjectID k = cl_Sub c /\ k_Kind k = ""%string /\
    k_Roles k = cl_Roles c /\ k_Groups k = cl_Groups c /\
    forall s, enabled (k_Scopes k) s = true <-> s ∈ cl_Scopes c.
Proof.
  cbn [jwt_Verify]. pose proof (Join_Split token dot) as Ht. destruct (Split token dot) as [|header [|claims [|sig [|]]]]; try done.
  unfold verifySignature. destruct (_ =s sig) eqn:Es; [|done]. apply streqb_true in Es as <-.
  intros (alg & Halg & Hv)%res_bind_Ok. apply res_bind_Ok in Hv as (c & Hc & Hk).
  unfold decodeAndValidateClaims in Hc. destruct (RawURL_Decode claims) as [text|] eqn:Er; [|done]. destruct (_ ≫= _) as [c'|] eqn:Eu; [|done].
  destruct (_ && _) eqn:Ei in Hc; [done|]. destruct (_ && _) eqn:Ee in Hc; [done|]. destruct (_ && _) eqn:En in Hc; [done|].
  destruct (_ =s _) eqn:Et in Hc; [done|]. injection Hc as ->. unfold claimsToKey in Hk. case_decide as Hs; [done|].
  exists header, claims, alg, text, c. split; [by rewrite <- Ht at 1; cbn; rewrite string_app_assoc|]. split; [done|].
  split; [by apply decodeJWTHeader_Ok in Halg|]. injection Hk as <-. cbn [k_Token k_Tenant k_SubjectID k_Kind k_Roles k_Groups k_Scopes].
  apply String.eqb_neq in Et. rewrite scope_set_empty in Hs. split_and!; try done; [|lia|lia|].
  - apply andb_false_iff in Ei as [Ei|Ei]; [left; by apply negb_false_iff, streqb_true in Ei|right; by apply negb_false_iff, streqb_true in Ei].
  - intros s. unfold enabled. rewrite scope_set_elem. case_bool_decide; cbn; naive_solver.
Qed.

Definition signable (now : Z) (c : JWTSignClaims) : Prop :=
  all_utf8 ([sc_Sub c; sc_Tenant c] ++ sc_Scopes c ++ sc_Roles c ++ sc_Groups c) /\
  sc_Tenant c <> ""%string /\ sc_Scopes c <> [] /\ 0 <= now <= MaxInt64 /\ now + sc_TTL c / Second <= MaxInt64.

Lemma signed_valid v now c :
  signable now c -> utf8_ValidString (jv_expectedIssuer v) = true ->
  claims_utf8 (signed_claims v now c) /\ int64 (cl_Exp (signed_claims v now c)) /\ int64 now.
Proof.
  intros (Hu & _ & _ & Hn & Hx) Hi. apply list.Forall_app in Hu as [[H1 [H2 _]%list.Forall_cons]%list.Forall_cons Hu].
  split_and!; [| |unfold int64, MinInt64; lia].
  - unfold claims_utf8, all_utf8. cbn [signed_claims cl_Sub cl_Ten cl_Iss cl_Scopes cl_Roles cl_Groups app].
    by repeat (apply Forall_cons_2; [done|]).
  - cbn. destruct (0 <? _); [apply wrap64_int64|done].
Qed.

Lemma claims_accepted v now now' c :
  signable now c -> utf8_ValidString (jv_expectedIssuer v) = true ->
  now <= now' -> (0 < sc_TTL c -> now' <= now + sc_TTL c / Second) ->
  decodeAndValidateClaims v now' (RawURL_Encode (marshal (jwtClaims_json (signed_claims v now c)))) = Ok (signed_claims v now c).
Proof.
  intros Hc Hi Hlt Hle. pose proof (signed_valid v now c Hc Hi) as (Hu & He & Hn). destruct Hc as (_ & Ht & _ & Hn' & Hx).
  unfold decodeAndValidateClaims. rewrite RawURL_round_trip.
  pose proof (sound_claims _ Hu He Hn) as Hsound.
  change (jwtClaims_json (signed_claims v now c)) with (JObject (members (jwtClaims_json (signed_claims v now c)))) in Hsound |- *.
  destruct (Unmarshal_object _ Hsound) as [-> _]. cbn [mbind option_bind]. rewrite jwtClaims_back by done.
  cbn [signed_claims cl_Iss cl_Exp cl_Nbf cl_Ten]. rewrite streqb_refl. cbn [negb]. rewrite andb_false_r.
  rewrite (proj2 (String.eqb_neq _ _)) by done.
  assert ((0 <? now) && (now' <? now) = false) as -> by lia.
  assert ((0 <? (if 0 <? sc_TTL c then wrap64 (now + sc_TTL c / Second) else 0)) &&
          ((if 0 <? sc_TTL c then wrap64 (now + sc_TTL c / Second) else 0) <? now') = false) as ->; [|done].
  destruct (Z.ltb_spec 0 (sc_TTL c)) as [Hp|]; [|done].
  assert (0 <= sc_TTL c / Second) by (apply Z.div_pos; unfold Second; lia).
  rewrite wrap64_id by (unfold int64, MinInt64; lia). specialize (Hle Hp). lia.
Qed.

Lemma header_accepted : decodeJWTHeader (RawURL_Encode (marshal jwtHeader_json)) = Ok "HS256"%string.
Proof. unfold decodeJWTHeader. rewrite RawURL_round_trip. by vm_compute. Qed.

(** A token signed now verifies under the same verifier from now on until its time
    to live is over, or forever when it has none, and becomes the key of the tenant,
    subject, roles, groups and scopes it was signed for. *)
Theorem jwt_round_trip v now now' c token :
  signable now c -> utf8_ValidString (jv_expectedIssuer v) = true ->
  now <= now' -> (0 < sc_TTL c -> now' <= now + sc_TTL c / Second) ->
  SignWithPrincipal (Some v) now c = Ok token ->
  jwt_Verify (Some v) now' token = Ok {| k_Token := token; k_Tenant := sc_Tenant c; k_SubjectID := sc_Sub c; k_Kind := "";
    k_Roles := sc_Roles c; k_Groups := sc_Groups c; k_Scopes := scope_set (sc_Scopes c) |}.
Proof.
  intros Hc Hi Hlt Hle. cbn [SignWithPrincipal]. pose proof header_accepted as Hh. revert Hh.
  generalize (RawURL_no_dot (marshal jwtHeader_json)). generalize (RawURL_Encode (marshal jwtHeader_json)) as h.
  intros h Hd Hh [= <-]. cbn [jwt_Verify]. rewrite Split_token by (done || apply RawURL_no_dot).
  unfold verifySignature. rewrite streqb_refl, Hh. cbn [res_bind]. rewrite claims_accepted by done. cbn [res_bind]. unfold claimsToKey.
  cbn [signed_claims cl_Scopes cl_Ten cl_Sub cl_Roles cl_Groups].
  rewrite decide_False; [done|]. rewrite scope_set_empty. apply Hc.
Qed.
End TokenTheorems.

(** ** Presigned URLs: theorems *)

Section PresignTheorems.
Context `{SHA2}.

Lemma newline_FormatInt n : char 10 ∉ chars (FormatInt n).
Proof.
  intros Hin. pose proof (FormatInt_chars n) as Hall. rewrite list.Forall_forall in Hall.
  apply Hall in Hin as [Hd|Hm]; [by vm_compute in Hd|by apply (f_equal byte_val) in Hm].
Qed.

Definition slash_path (path : string) : string := if (path =s "") then "/"%string else path.

(** The signed text determines what was signed: only the tenant may hold line breaks. *)
Lemma presign_payload_inj m p t e m' p' t' e' :
  char 10 ∉ chars m -> char 10 ∉ chars m' -> char 10 ∉ chars p -> char 10 ∉ chars p' ->
  presign_payload m p t e = presign_payload m' p' t' e' -> m = m' /\ slash_path p = slash_path p' /\ t = t' /\ e = e'.
Proof.
  intros Hm Hm' Hp Hp' He. unfold presign_payload in He. fold (slash_path p) (slash_path p') in He. cbn [Join newline] in He.
  assert (forall q, char 10 ∉ chars q -> char 10 ∉ chars (slash_path q)) as Hs.
  { intros q Hq. unfold slash_path. destruct (_ =s _); [|done]. by apply IndexByte_None. }
  apply first_cut_inj in He as [-> He]; [|done|done]. apply first_cut_inj in He as [-> He]; [|by apply Hs|by apply Hs].
  apply last_cut_inj in He as [-> He]; [|apply newline_FormatInt|apply newline_FormatInt]. apply FormatInt_inj in He as ->. done.
Qed.

Lemma verify_capability_Ok secret method operation token scope now r k :
  verify_capability secret method operation token scope now r = Ok k ->
  exists expires,
    ParseInt 10 (values_Get (Query r) presignPutExpiresKey) = Some expires /\
    Unix now <= expires /\ wrap64 (expires - Unix now) <= 604800 /\
    values_Get (Query r) presignPutSignatureKey = signatureFor secret method (rq_EscapedPath r) (k_Tenant k) expires /\
    k_Tenant k <> ""%string /\ k = plain_key token (k_Tenant k) {[ scope := true ]}.
Proof.
  unfold verify_capability. destruct (validatePresignQuery _ _); [done|]. destruct (ParseInt 10 _) as [expires|]; [|done].
  destruct (_ =s "") eqn:Et; [done|]. apply String.eqb_neq in Et. destruct (_ || _) eqn:Ex; [done|].
  apply orb_false_iff in Ex as [E1%Z.ltb_ge E2%Z.ltb_ge]. destruct (negb _) eqn:Es; [done|].
  apply negb_false_iff, streqb_true in Es. intros [= <-]. exists expires. split_and!; done.
Qed.

(** Whoever presents a signature that was made for a method, a path, a tenant and an
    expiry gets a write on that path for that tenant, not after that expiry, and only if
    the signature was made for PUT; the alternative is a collision of the HMAC. *)
Theorem presign_binds secret now method path tenant expires r k :
  char 10 ∉ chars method -> char 10 ∉ chars path -> char 10 ∉ chars (rq_EscapedPath r) ->
  values_Get (Query r) presignPutSignatureKey = signatureFor secret method path tenant expires ->
  VerifyPut (Some secret) now r = Ok k ->
  (method = MethodPut /\ slash_path (rq_EscapedPath r) = slash_path path /\ Unix now <= expires /\
   k = plain_key "presigned-put" tenant {[ ScopeWrite := true ]}) \/
  exists x y, x <> y /\ hmac_SHA256 secret x = hmac_SHA256 secret y.
Proof.
  intros Hm Hp Hr Hsig. unfold VerifyPut, configured. destruct (secret =s ""); [done|]. destruct (negb _); [done|].
  intros (e & _ & Hle & _ & Hs & _ & Hk)%verify_capability_Ok. rewrite Hs in Hsig. unfold signatureFor in Hsig.
  apply RawURL_inj in Hsig.
  destruct (decide (presign_payload MethodPut (rq_EscapedPath r) (k_Tenant k) e = presign_payload method path tenant expires)) as [He|Hne].
  - left. apply presign_payload_inj in He as (<- & Hpath & Ht & <-); [|by apply IndexByte_None|done..].
    rewrite Ht in Hk. done.
  - right. by eexists _, _.
Qed.

Lemma presign_values_full secret method path operation tenant expires :
  full (presign_values secret method path operation tenant expires).
Proof.
  unfold presign_values, full, values_Set. destruct (operation =s "");
    repeat (apply map_Forall_insert_2; [done|]); apply map_Forall_empty.
Qed.

Lemma presign_values_allowed secret method path operation tenant expires :
  forallb (fun p => allowed_key p.1 && (length p.2 =? 1)%nat)
    (map_to_list (presign_values secret method path operation tenant expires)) = true.
Proof.
  apply forallb_elem. intros [k vs] Hin%elem_of_map_to_list. cbn [fst snd]. revert Hin. unfold presign_values, values_Set.
  destruct (operation =s ""); rewrite ?lookup_insert_Some, lookup_empty; clear; naive_solver.
Qed.

Lemma max_ttl_seconds : maxPutPresignTTL / Second = 604800.
Proof. reflexivity. Qed.

Lemma lifetime_bound now now' expiry :
  0 < expiry -> expiry <= maxPutPresignTTL -> Unix now <= Unix now' -> Unix now' <= Unix (now + expiry) ->
  0 <= Unix (now + expiry) - Unix now' <= 604800.
Proof.
  intros Hp Hm H1 H2. unfold Unix, maxPutPresignTTL, Hour, Minute, Second in *. Z.to_euclidean_division_equations. lia.
Qed.

(** The URL signed for a target is the target with a query under which a PUT of the
    same path is accepted from then on until the expiry, as a write for the tenant. *)
Theorem presign_round_trip `{URLLib} secret now rawURL tenant expiry url u :
  SignPut (Some secret) now rawURL tenant expiry = Ok url -> url_Parse rawURL = Some u ->
  int64 (Unix (now + expiry)) ->
  let q := values_Encode (presign_values secret MethodPut (u_EscapedPath u) "" tenant (Unix (now + expiry))) in
  url = url_String {| u_Scheme := u_Scheme u; u_Host := u_Host u; u_EscapedPath := u_EscapedPath u; u_RawQuery := q |} /\
    forall r now', rq_Method r = MethodPut -> rq_EscapedPath r = u_EscapedPath u -> rq_RawQuery r = q ->
      Unix now <= Unix now' <= Unix (now + expiry) ->
      VerifyPut (Some secret) now' r = Ok (plain_key "presigned-put" tenant {[ ScopeWrite := true ]}).
Proof.
  unfold SignPut, sign, configured. intros Hs Hu Hx. destruct (secret =s "") eqn:Esec; [done|].
  destruct (tenant =s "") eqn:Et; [done|]. destruct (_ || _) eqn:Ex; [done|]. rewrite Hu in Hs.
  destruct (_ || _) eqn:Eu in Hs; [done|]. injection Hs as <-. split; [done|]. intros r now' Hm Hp Hq Hn.
  apply orb_false_iff in Ex as [E1%Z.leb_gt E2%Z.ltb_ge]. pose proof (lifetime_bound now now' expiry E1 E2 (proj1 Hn) (proj2 Hn)) as Hl.
  unfold VerifyPut, configured. rewrite Esec, Hm. rewrite streqb_refl. cbn [negb].
  unfold verify_capability, Query. rewrite Hq, ParseQuery_Encode by apply presign_values_full.
  unfold validatePresignQuery. rewrite presign_values_allowed. cbn [negb].
  set (expires := Unix (now + expiry)) in *. set (q := presign_values _ _ _ _ _ _).
  assert (values_Get q presignOperationKey = ""%string /\ values_Get q presignPutTenantKey = tenant /\
          values_Get q presignPutExpiresKey = FormatInt expires /\
          values_Get q presignPutSignatureKey = signatureFor secret MethodPut (u_EscapedPath u) tenant expires) as (-> & -> & -> & ->).
  { unfold q, presign_values, values_Get, values_Set. change ("" =s "") with true. cbn iota. clear.
    split_and!; repeat (rewrite lookup_insert_eq || rewrite lookup_insert_ne by discriminate); done. }
  cbn [negb andb orb String.eqb]. change ("put" =s "get") with false. change ("put" =s "put") with true. cbn [negb andb orb].
  rewrite ParseInt_FormatInt by done. rewrite Et, Hp.
  rewrite wrap64_id by (unfold int64, MinInt64, MaxInt64; lia).
  assert ((expires <? Unix now') = false) as -> by (apply Z.ltb_ge; clear -Hl; lia).
  assert ((maxPutPresignTTL / Second <? expires - Unix now') = false) as -> by (rewrite max_ttl_seconds; apply Z.ltb_ge; clear -Hl; lia).
  cbn [orb]. by rewrite streqb_refl.
Qed.
End PresignTheorems.

(** ** AUTH_KEYS and scope texts: theorems *)

(** A key an AUTH_KEYS record may define. *)
Definition sane_key (token : string) (k : Key) : Prop :=
  k_Token k = token /\ token <> ""%string /\ k_Tenant k <> ""%string /\ k_Scopes k <> ∅ /\
  map_Forall (fun s (_ : bool) => knownScope s = true) (k_Scopes k).

Lemma record_scopes_known l m m' :
  map_Forall (fun s (_ : bool) => knownScope s = true) m -> record_scopes l m = inl m' ->
  map_Forall (fun s (_ : bool) => knownScope s = true) m'.
Proof.
  revert m. induction l as [|sc l IH]; intros m Hm; cbn; [by intros [= <-]|]. destruct (_ =s ""); [by apply IH|].
  destruct (knownScope _) eqn:Ek; [|done]. apply IH. by apply map_Forall_insert_2.
Qed.

Lemma parse_records_sane recs keys keys' :
  map_Forall sane_key keys -> parse_records recs keys = Ok keys' -> map_Forall sane_key keys'.
Proof.
  revert keys. induction recs as [|rec recs IH]; intros keys Hk; cbn [parse_records]; [by intros [= <-]|].
  destruct (TrimSpace rec =s ""); [by apply IH|].
  destruct (SplitN _ colon 3) as [|token [|tenant [|scopes [|]]]]; try done.
  destruct (_ || _) eqn:Ee; [done|]. apply orb_false_iff in Ee as [Et%String.eqb_neq En%String.eqb_neq].
  destruct (record_scopes _ _) as [m|] eqn:Es; [|done]. case_decide as Hm; [done|]. apply IH. apply map_Forall_insert_2; [|done].
  split_and!; try done. by eapply record_scopes_known; [|exact Es].
Qed.

(** AUTH_KEYS never opens the door by mistake: an empty setting is the only one that
    leaves authentication off; one that does not parse turns it on with no key at all;
    and the keys of one that does all have a token, a tenant and known scopes only, one
    at least. *)
Theorem ParseKeys_fails_closed raw keys on err :
  ParseKeys raw = ((keys, on), err) ->
  (on = false <-> TrimSpace raw = ""%string) /\ (err <> None -> on = true /\ keys = ∅) /\
  (on = true -> err = None -> keys <> ∅) /\ map_Forall sane_key keys.
Proof.
  unfold ParseKeys. destruct (_ =s "") eqn:Er; [apply streqb_true in Er|apply String.eqb_neq in Er].
  - intros [= <- <- <-]. split_and!; [done|done|done|apply map_Forall_empty].
  - destruct (parse_records _ _) as [ks|e] eqn:Ep; [case_decide as Hk|]; intros [= <- <- <-];
      split_and!; try done; try apply map_Forall_empty. eapply parse_records_sane; [apply map_Forall_empty|done].
Qed.

(** A scope set whose names survive the text of the key store. *)
Definition plain_scopes (m : ScopeSet) : Prop :=
  map_Forall (fun s on => on = true /\ s <> ""%string /\ TrimSpace s = s /\ plus ∉ chars s) m.

(** The scopes stored with a key are the ones read back. *)
Theorem scopes_round_trip m : plain_scopes m -> parseScopeString (scopesToString m) = m.
Proof.
  intros Hm. unfold parseScopeString, scopesToString.
  assert (forall s, s ∈ sort_by text_le (enabled_scopes m) <-> m !! s = Some true) as Hin.
  { intros s. rewrite elem_sort_by. unfold enabled_scopes. rewrite list_elem_of_fmap. split.
    - intros ([s' on] & -> & Hs). apply elem_filter_b in Hs as [Hs Ho]. apply elem_of_map_to_list in Hs. cbn in *. by subst on.
    - intros Hs. exists (s, true). split; [done|]. apply elem_filter_b. split; [|done]. by apply elem_of_map_to_list. }
  set (l := sort_by text_le (enabled_scopes m)) in *. clearbody l.
  assert (foldl add_scope ∅ (Split (Join l (String plus "")) plus) = scope_set l) as ->.
  { destruct l as [|x l]; [done|]. rewrite Split_Join; [|done|].
    - unfold scope_set. assert (Forall (fun s => m !! s = Some true) (x :: l)) as Hl by (apply list.Forall_forall; intros s; apply Hin).
      clear Hin. revert Hl. generalize (x :: l) (∅ : ScopeSet). intros k. induction k as [|s k IH]; intros acc; [done|].
      intros [Hs Hk]%list.Forall_cons. cbn. rewrite <- IH by done. f_equal. unfold add_scope.
      destruct (Hm _ _ Hs) as (_ & Hne & -> & _). by rewrite (proj2 (String.eqb_neq _ _)).
    - apply list.Forall_forall. intros s Hs%Hin. by apply (Hm _ _ Hs). }
  apply map_eq. intros s. rewrite scope_set_elem. case_bool_decide as Hs; [by rewrite (proj1 (Hin s))|].
  rewrite Hin in Hs. destruct (m !! s) as [on|] eqn:E; [|done]. by destruct (Hm _ _ E) as [-> _].
Qed.

(** ** Witnesses *)

Module ToyHash.
(** A hash that keeps its input apart, for concrete runs. *)
#[export] Instance sha2 : SHA2 := {| sha256_Sum x := x; hmac_SHA256 k x := (k ++ ":" ++ x)%string |}.
#[export] Instance cases : CaseTables := {| lower_rune c := c; upper_rune c := c |}.
#[export] Instance urls : URLLib := {|
  url_Parse s := if (s =s "https://vault/v1/files/a") then
    Some {| u_Scheme := "https"; u_Host := "vault"; u_EscapedPath := "/v1/files/a"; u_RawQuery := "" |} else None;
  url_String u := (u_Scheme u ++ "://" ++ u_Host u ++ u_EscapedPath u ++ "?" ++ u_RawQuery u)%string |}.
End ToyHash.
Import ToyHash.

Definition sample_verifier : JWTVerifier := {| jv_secret := "s"; jv_expectedIssuer := "idp" |}.
Definition sample_claims : JWTSignClaims := {|
  sc_Sub := "ann"; sc_Tenant := "acme"; sc_Scopes := ["read"]%string; sc_Roles := ["editor"]%string; sc_Groups := [];
  sc_TTL := 60 * Second |}.
Definition sample_token : string := match SignWithPrincipal (Some sample_verifier) 1000 sample_claims with Ok t => t | Err _ => "" end.
Definition sample_now : time := instant 738944 0 0.

Lemma sample_signable : signable 1000 sample_claims.
Proof. split_and!; [by repeat constructor|done|done|by vm_compute|by vm_compute|by vm_compute]. Qed.

Lemma jwt_round_trip_witness :
  snd (match jwt_Verify (Some sample_verifier) 1060 sample_token with Ok k => (1, k_Tenant k) | Err _ => (0, ""%string) end) = "acme"%string.
Proof. unfold sample_token. erewrite (jwt_round_trip sample_verifier 1000 1060 sample_claims); [done|apply sample_signable|done|lia|by vm_compute|done]. Defined.

Lemma jwt_accepts_safely_witness :
  exists c, cl_Ten c = "acme"%string /\ (cl_Exp c <= 0 \/ 1030 <= cl_Exp c) /\ "read"%string ∈ cl_Scopes c.
Proof.
  destruct (jwt_accepts_safely sample_verifier 1030 sample_token
    {| k_Token := sample_token; k_Tenant := "acme"; k_SubjectID := "ann"; k_Kind := ""; k_Roles := ["editor"]%string; k_Groups := [];
       k_Scopes := {[ "read"%string := true ]} |})
    as (h & b & alg & t & c & _ & _ & _ & _ & _ & _ & He & _ & _ & _ & _ & Ht & _ & _ & _ & _ & Hs); [by vm_compute|].
  exists c. split; [done|]. split; [done|]. apply Hs. by vm_compute.
Defined.

Definition sample_put (q : string) : Http := {|
  rq_Method := "PUT"; rq_Path := "/v1/files/a"; rq_EscapedPath := "/v1/files/a"; rq_RawQuery := q; rq_Host := "vault";
  rq_Header := ∅; rq_ContentLength := 0; rq_Body := None |}.
Definition sample_query : string :=
  values_Encode (presign_values "k" MethodPut "/v1/files/a" "" "acme" (Unix (sample_now + Hour))).

Lemma presign_round_trip_witness :
  VerifyPut (Some "k"%string) (sample_now + Minute) (sample_put sample_query) =
  Ok (plain_key "presigned-put" "acme" {[ ScopeWrite := true ]}).
Proof.
  destruct (presign_round_trip "k" sample_now "https://vault/v1/files/a" "acme" Hour
    (match SignPut (Some "k"%string) sample_now "https://vault/v1/files/a" "acme" Hour with Ok u => u | Err _ => ""%string end)
    {| u_Scheme := "https"; u_Host := "vault"; u_EscapedPath := "/v1/files/a"; u_RawQuery := "" |}) as [_ Hok];
    [by vm_compute|done|by vm_compute|].
  apply Hok; [done|done|done|by vm_compute].
Defined.

Lemma presign_binds_witness :
  exists k, VerifyPut (Some "k"%string) (sample_now + Minute) (sample_put sample_query) = Ok k /\ k = plain_key "presigned-put" "acme" {[ ScopeWrite := true ]}.
Proof.
  destruct (presign_binds "k" (sample_now + Minute) MethodPut "/v1/files/a" "acme" (Unix (sample_now + Hour)) (sample_put sample_query)
    (plain_key "presigned-put" "acme" {[ ScopeWrite := true ]})) as [(_ & _ & _ & Hk)|(x & y & Hne & Hc)];
    [by apply IndexByte_None|by apply IndexByte_None|by apply IndexByte_None|by vm_compute|by vm_compute| |].
  - eexists. split; [by vm_compute|exact Hk].
  - cbn in Hc. injection Hc as ->. done.
Defined.

Lemma ParseKeys_fails_closed_witness : map_Forall sane_key (fst (fst (ParseKeys "ops:*:admin, bad:acme:nosuch"))) /\
  snd (fst (ParseKeys "ops:*:admin, bad:acme:nosuch")) = true.
Proof.
  destruct (ParseKeys "ops:*:admin, bad:acme:nosuch") as [[keys on] err] eqn:E. pose proof (ParseKeys_fails_closed _ _ _ _ E) as (Hon & _ & _ & Hs).
  split; [done|]. cbn. destruct on; [done|]. exfalso. pose proof (proj1 Hon eq_refl) as Hx. by vm_compute in Hx.
Defined.

Lemma scopes_round_trip_witness :
  parseScopeString (scopesToString {[ "read"%string := true; "write"%string := true ]}) = {[ "read"%string := true; "write"%string := true ]}.
Proof.
  apply scopes_round_trip. unfold plain_scopes. repeat (apply map_Forall_insert_2; [split_and!; [done..|by apply IndexByte_None]|]).
  apply map_Forall_empty.
Defined.
