(* ===== verification/SigV4.v ===== *)
(** * Signed S3 requests (src/internal/auth/sigv4*.go)

    AWS Signature Version 4: the credentials' setting, the canonical request and its
    signature, the checks of header-signed and presigned requests.  hmac.Equal is equality;
    the clock is an argument.

    [signed_request_verifies]: who signs as the protocol says is accepted.
    [signature_binds]: equal signatures are of equal requests, or these two requests make
    the hashes collide. *)
From Stdlib Require Import Ascii Lia Bool ZArith.
From stdpp Require Import base gmap strings list numbers option pretty sorting.
From S2P Require Import Prelude GoStrings Json JsonProps GoTime Base64 GoErrors Sql Http Access AuthKeys.

Open Scope Z_scope.

Definition sigV4Algorithm : string := "AWS4-HMAC-SHA256".
Definition sigV4Service : string := "s3".
Definition unsignedPayload : string := "UNSIGNED-PAYLOAD".
Definition maxHeaderSkew : Z := 15 * Minute.
Definition maxPresignTTL : Z := 7 * 24 * Hour.
Definition sha256HexLength : Z := 64.
Definition streamingPayload : string := "STREAMING-AWS4-HMAC-SHA256-PAYLOAD".
Definition chunkAlgorithm : string := "AWS4-HMAC-SHA256-PAYLOAD".
Definition maxChunkSize : Z := 16777216.
Definition slash : ascii := char 47.

Definition sigv4 (text : string) : error := NewError ("sigv4: " ++ text).

Record sigV4Cred := { cr_secret : string; cr_key : Key }.
Abbreviation SigV4Verifier := (gmap string sigV4Cred).

(** ** S3_SIGV4_CREDENTIALS *)

Definition setting_error (text : string) : error := NewError ("S3_SIGV4_CREDENTIALS: " ++ text).

(** The scopes of a record: read and write unless it has a segment of its own. *)
Definition cred_scopes (rec : string) (segment : option string) : result ScopeSet :=
  match segment with
  | Some sg =>
      if (sg =s "") then Ok {[ ScopeRead := true; ScopeWrite := true ]}
      else match record_scopes (Split sg plus) ∅ with
           | inr sc => Err (setting_error (rec ++ ": unknown scope " ++ sc))
           | inl m => if decide (m = ∅) then Err (setting_error (rec ++ ": scope segment has no valid scope")) else Ok m
           end
  | None => Ok {[ ScopeRead := true; ScopeWrite := true ]}
  end.

Definition parse_cred (rec : string) (creds : SigV4Verifier) : result SigV4Verifier :=
  match SplitN rec colon 4 with
  | ak :: sk :: tenant :: rest =>
      if (ak =s "") || (sk =s "") || (tenant =s "")
      then Err (setting_error "access key, secret and tenant are required")
      else match creds !! ak with
           | Some _ => Err (setting_error ("duplicate access key " ++ ak))
           | None => let! m := cred_scopes rec (head rest) in
                     Ok (<[ak := {| cr_secret := sk; cr_key := plain_key ak tenant m |}]> creds)
           end
  | _ => Err (setting_error "want accessKey:secretKey:tenant[:scope+scope]")
  end.

(** The verifier holds what was read when an error stops the loop. *)
Fixpoint parse_creds (recs : list string) (creds : SigV4Verifier) : SigV4Verifier * option error :=
  match recs with
  | [] => (creds, if decide (creds = ∅) then Some (setting_error "no valid records") else None)
  | rec :: rest =>
      let rec := TrimSpace rec in
      if (rec =s "") then parse_creds rest creds
      else match parse_cred rec creds with
           | Err e => (creds, Some e)
           | Ok creds => parse_creds rest creds
           end
  end.

(** An empty setting gives no verifier. *)
Definition ParseSigV4Credentials (raw : string) : option SigV4Verifier * option error :=
  let raw := TrimSpace raw in
  if (raw =s "") then (None, None)
  else let '(creds, err) := parse_creds (Split raw comma) ∅ in (Some creds, err).

(** ** Parsing and validation *)

(** time.Parse of the layout 20060102T150405Z. *)
Definition ParseAmzDate (s : string) : option time :=
  '(year, l) ← fixed_digits 4 0 (chars s); '(month, l) ← fixed_digits 2 0 l; '(day, l) ← fixed_digits 2 0 l;
  '(_, l) ← expect 84 l; '(hour, l) ← getnum l; '(minute, l) ← fixed_digits 2 0 l; '(second, l) ← fixed_digits 2 0 l;
  let '(nanos, l) := fraction_of l in
  '(_, l) ← expect 90 l;
  match l with
  | [] => if (month <? 1) || (12 <? month) || (24 <=? hour) || (60 <=? minute) || (60 <=? second) ||
             (day <? 1) || (daysIn month year <? day) then None
          else Some (day_number year month day * Day + (hour * 3600 + minute * 60 + second) * Second + nanos)
  | _ => None
  end.

Example parse_amz_date : ParseAmzDate "20240229T093000Z" = Some (instant 738944 34200 0).
Proof. reflexivity. Qed.

Record AuthHeader := { ah_credential : string; ah_signedHeaders : list string; ah_signature : string }.

Definition auth_part (h : AuthHeader) (part : string) : AuthHeader :=
  let part := TrimSpace part in
  if HasPrefix part "Credential=" then
    {| ah_credential := TrimPrefix part "Credential="; ah_signedHeaders := ah_signedHeaders h; ah_signature := ah_signature h |}
  else if HasPrefix part "SignedHeaders=" then
    {| ah_credential := ah_credential h; ah_signedHeaders := Split (TrimPrefix part "SignedHeaders=") semicolon;
       ah_signature := ah_signature h |}
  else if HasPrefix part "Signature=" then
    {| ah_credential := ah_credential h; ah_signedHeaders := ah_signedHeaders h; ah_signature := TrimPrefix part "Signature=" |}
  else h.

Definition parseAuthHeader (h : string) : result AuthHeader :=
  if negb (HasPrefix h (sigV4Algorithm ++ " ")) then Err (sigv4 "malformed Authorization header")
  else let parts := Split (TrimSpace (TrimPrefix h sigV4Algorithm)) comma in
       let a := foldl auth_part {| ah_credential := ""; ah_signedHeaders := []; ah_signature := "" |} parts in
       if (ah_credential a =s "") || (length (ah_signedHeaders a) =? 0)%nat || (ah_signature a =s "")
       then Err (sigv4 "malformed Authorization header") else Ok a.

(** The access key and the scope date/region/service/terminator. *)
Definition splitCredential (cred : string) : result (string * string) :=
  match Split cred slash with
  | [ak; date; region; service; last] =>
      if existsb (fun p => p =s "") [ak; date; region; service; last] then Err (sigv4 "malformed credential")
      else Ok (ak, Join [date; region; service; last] "/")
  | _ => Err (sigv4 "malformed credential")
  end.

Definition validateCredentialScope (scope amzDate : string) : option error :=
  match Split scope slash with
  | [date; region; service; last] =>
      if (date =s "") || (region =s "") || (service <>s sigV4Service) || (last <>s "aws4_request")
      then Some (sigv4 "invalid credential scope")
      else if (len amzDate <? 8) || (date <>s slice amzDate 0 8) then Some (sigv4 "credential date mismatch") else None
  | _ => Some (sigv4 "invalid credential scope")
  end.

Definition validateHeaderTime (amzDate : string) (now : time) : option error :=
  match ParseAmzDate amzDate with
  | None => Some (sigv4 "invalid X-Amz-Date")
  | Some signedAt => if Before signedAt (now - maxHeaderSkew) || After signedAt (now + maxHeaderSkew)
                     then Some (sigv4 "request time outside allowed skew") else None
  end.

Section Verify.
Context `{SHA2} `{CaseTables}.

Definition lower_header (h : string) : string := ToLower (TrimSpace h).

Fixpoint check_headers (headers : list string) (seen : list string) : option error :=
  match headers with
  | [] => if contains seen "host" then None else Some (sigv4 "host must be signed")
  | h :: rest =>
      let h := lower_header h in
      if (h =s "") then Some (sigv4 "empty signed header")
      else if contains seen h then Some (sigv4 "duplicate signed header")
      else check_headers rest (h :: seen)
  end.

Definition validateSignedHeaders (headers : list string) : option error := check_headers headers [].

Definition validatePayloadHash (payloadHash : string) : option error :=
  if (payloadHash =s unsignedPayload) || (payloadHash =s streamingPayload) then None
  else if negb (len payloadHash =? sha256HexLength) then Some (sigv4 "invalid payload hash")
  else match hex_DecodeString payloadHash with Some _ => None | None => Some (sigv4 "invalid payload hash") end.

(** ** The signature *)

(** uriEncode(s, true). *)
Definition uri_byte (a : ascii) : list ascii := if unreserved a then [a] else percent_encode a.
Definition uriEncode (s : string) : string := escape_text uri_byte s.

Definition encodeQuery (q : Values) : string := encode_with uriEncode (sort_by text_le) q.

Definition canonicalHeaderValue (r : Http) (name : string) : string :=
  if (name =s "host") then TrimSpace (rq_Host r)
  else if (name =s "content-length") then
    match rq_Header r !! "Content-Length"%string with
    | Some (v :: _) => TrimSpace v
    | _ => if 0 <=? rq_ContentLength r then FormatInt (rq_ContentLength r) else "0"
    end
  else Join (map (fun v => Join (Fields v) " ") (header_values (rq_Header r) name)) ",".

Definition sorted_headers (signedHeaders : list string) : list string := sort_by text_le (map lower_header signedHeaders).

Definition canonicalHeaders (r : Http) (names : list string) : string :=
  String.concat "" (map (fun h => (h ++ ":" ++ canonicalHeaderValue r h ++ newline)%string) names).

Definition canonicalRequest (method canonicalURI canonicalQuery : string) (r : Http) (signedHeaders : list string) (payloadHash : string) : string :=
  let names := sorted_headers signedHeaders in
  Join [method; if (canonicalURI =s "") then "/"%string else canonicalURI; canonicalQuery; canonicalHeaders r names;
        Join names ";"; payloadHash] newline.

Definition hexSHA256 (s : string) : string := hex_EncodeToString (sha256_Sum s).

Definition deriveSigningKey (secret date region : string) : string :=
  let kDate := hmac_SHA256 ("AWS4" ++ secret) date in
  let kRegion := hmac_SHA256 kDate region in
  let kService := hmac_SHA256 kRegion sigV4Service in
  hmac_SHA256 kService "aws4_request".

(** The key of a scope's first two parts. *)
Definition scope_key (secret scope : string) : string :=
  match Split scope slash with date :: region :: _ => deriveSigningKey secret date region | _ => "" end.

Definition stringToSign (amzDate scope request : string) : string :=
  Join [sigV4Algorithm; amzDate; scope; hexSHA256 request] newline.

Definition signWith (method canonicalURI canonicalQuery : string) (r : Http) (scope : string) (signedHeaders : list string)
    (payloadHash amzDate secret : string) : string :=
  let request := canonicalRequest method canonicalURI canonicalQuery r signedHeaders payloadHash in
  hex_EncodeToString (hmac_SHA256 (scope_key secret scope) (stringToSign amzDate scope request)).

(** [SigV4Verifier.sign]. *)
Definition sign_header (r : Http) (scope : string) (signedHeaders : list string) (payloadHash amzDate secret : string) : string :=
  signWith (rq_Method r) (rq_EscapedPath r) (encodeQuery (Query r)) r scope signedHeaders payloadHash amzDate secret.

(** ** Verification *)

Definition IsSigned (r : Http) : bool :=
  HasPrefix (Get r "Authorization") sigV4Algorithm || (values_Get (Query r) "X-Amz-Signature" <>s "").

Definition check (o : option error) : result unit := match o with Some e => Err e | None => Ok tt end.

Definition declared_hash (r : Http) : string :=
  let h := Get r "X-Amz-Content-Sha256" in if (h =s "") then unsignedPayload else h.

Definition lookup_cred (v : SigV4Verifier) (accessKey : string) : result sigV4Cred :=
  match v !! accessKey with Some c => Ok c | None => Err (sigv4 "unknown access key") end.

Definition verifyHeader (v : SigV4Verifier) (now : time) (r : Http) : result Key :=
  let! a := parseAuthHeader (Get r "Authorization") in
  let! p := splitCredential (ah_credential a) in let '(accessKey, scope) := p in
  let! c := lookup_cred v accessKey in
  let amzDate := Get r "X-Amz-Date" in
  check! (if (amzDate =s "") then Err (sigv4 "missing X-Amz-Date") else Ok tt) in
  check! check (validateCredentialScope scope amzDate) in
  check! check (validateHeaderTime amzDate now) in
  check! check (validateSignedHeaders (ah_signedHeaders a)) in
  check! check (validatePayloadHash (declared_hash r)) in
  if (sign_header r scope (ah_signedHeaders a) (declared_hash r) amzDate (cr_secret c) =s ah_signature a)
  then Ok (cr_key c) else Err (sigv4 "signature mismatch").

(** time.Duration(secs) * time.Second wraps. *)
Definition seconds (secs : Z) : Z := wrap64 (secs * Second).

Definition parsePresignedURL (now : time) (r : Http) : result (string * string) :=
  let q := Query r in
  check! (if (values_Get q "X-Amz-Algorithm" <>s sigV4Algorithm) then Err (sigv4 "bad presign algorithm") else Ok tt) in
  let! p := splitCredential (values_Get q "X-Amz-Credential") in let '(accessKey, scope) := p in
  let amzDate := values_Get q "X-Amz-Date" in
  check! (if (amzDate =s "") then Err (sigv4 "missing X-Amz-Date") else Ok tt) in
  match ParseAmzDate amzDate with
  | None => Err (sigv4 "invalid X-Amz-Date")
  | Some signedAt =>
      check! check (validateCredentialScope scope amzDate) in
      check! check (validateSignedHeaders (Split (values_Get q "X-Amz-SignedHeaders") semicolon)) in
      match ParseInt 10 (values_Get q "X-Amz-Expires") with
      | None => Err (sigv4 "invalid X-Amz-Expires")
      | Some secs =>
          if (secs <=? 0) || (maxPresignTTL <? seconds secs) then Err (sigv4 "invalid X-Amz-Expires")
          else if After signedAt (now + maxHeaderSkew) then Err (sigv4 "request date is in the future")
          else if After now (signedAt + seconds secs) then Err (sigv4 "presigned URL expired")
          else Ok (accessKey, scope)
      end
  end.

Definition verifyPresigned (v : SigV4Verifier) (now : time) (r : Http) : result Key :=
  let! p := parsePresignedURL now r in let '(accessKey, scope) := p in
  let! c := lookup_cred v accessKey in
  let q := Query r in
  let sig := signWith (rq_Method r) (rq_EscapedPath r) (encodeQuery (delete "X-Amz-Signature"%string q)) r scope
               (Split (values_Get q "X-Amz-SignedHeaders") semicolon) unsignedPayload (values_Get q "X-Amz-Date") (cr_secret c) in
  if (sig =s values_Get q "X-Amz-Signature") then Ok (cr_key c) else Err (sigv4 "presigned signature mismatch").

Definition sigv4_Verify (v : option SigV4Verifier) (now : time) (r : Http) : result Key :=
  match v with
  | None => Err (NewError "sigv4 not configured")
  | Some v => if (values_Get (Query r) "X-Amz-Signature" <>s "") then verifyPresigned v now r else verifyHeader v now r
  end.
End Verify.

(** ** Signed requests verify *)

Definition one_line (s : string) : Prop := char 10 ∉ chars s.

Section Signing.
Context `{SHA2} `{CaseTables}.
Hypothesis hmac_size : forall k x, String.length (hmac_SHA256 k x) = 32%nat.

(** A byte with no meaning in the Authorization header. *)
Definition word (a : ascii) : bool := plain a && negb (Ascii.eqb a comma || Ascii.eqb a semicolon || Ascii.eqb a slash).
Definition word_text (s : string) : Prop := s <> ""%string /\ Forall (fun a => word a = true) (chars s).

Definition header_name (h : string) : Prop :=
  word_text h /\ ToLower h = h /\ CanonicalHeaderKey h <> "Authorization"%string.

(** What a client writes. *)
Definition authorization (credential : string) (signedHeaders : list string) (sig : string) : string :=
  (sigV4Algorithm ++ String " " (Join [("Credential=" ++ credential)%string;
     String " " ("SignedHeaders=" ++ Join signedHeaders ";"); String " " ("Signature=" ++ sig)] ","))%string.

Lemma word_not s a : Forall (fun a => word a = true) (chars s) -> word a = false -> a ∉ chars s.
Proof. intros Hs Ha Hin. rewrite list.Forall_forall in Hs. apply Hs in Hin. congruence. Qed.

Definition plain_text (s : string) : Prop := Forall (fun a => plain a = true) (chars s).

Lemma plain_trim s : plain_text s -> TrimSpace s = s.
Proof. intros Hs. apply TrimSpace_plain. rewrite all_bytes_list. apply forallb_elem. by apply list.Forall_forall. Qed.

Lemma word_plain s : Forall (fun a => word a = true) (chars s) -> plain_text s.
Proof. intros Hs. eapply list.Forall_impl; [exact Hs|]. by intros a [? _]%andb_true_iff. Qed.

Lemma plain_app s t : plain_text s -> plain_text t -> plain_text (s ++ t).
Proof. unfold plain_text. rewrite chars_app. apply Forall_app_2. Qed.

Lemma plain_Join l sep : Forall plain_text l -> plain_text sep -> plain_text (Join l sep).
Proof.
  intros Hl Hs. induction Hl as [|x l Hx Hl IH]; [constructor|]. destruct l as [|y l]; [done|].
  rewrite Join_cons by done. by repeat apply plain_app.
Qed.

Lemma hex_words s : Forall (fun a => word a = true) (chars (hex_EncodeToString s)).
Proof.
  unfold hex_EncodeToString. rewrite chars_text.
  assert (forall n, 0 <= n < 16 -> word (hex_digit n) = true) as Hd.
  { assert (forallb (fun n => word (hex_digit n)) (seqZ 0 16) = true) as Hall by by vm_compute.
    rewrite forallb_elem in Hall. intros n Hn. apply Hall, elem_of_seqZ. lia. }
  induction (chars s) as [|a l IH]; [constructor|]. pose proof (byte_val_range a). cbn [map concat app].
  constructor; [|constructor; [|done]]; apply Hd; Z.to_euclidean_division_equations; lia.
Qed.

Lemma hex_nonempty k x : hex_EncodeToString (hmac_SHA256 k x) <> ""%string.
Proof. pose proof (hmac_size k x) as Hl. destruct (hmac_SHA256 k x) as [|a t]; [done|]. discriminate. Qed.

Lemma auth_credential h v : plain_text v -> auth_part h ("Credential=" ++ v) =
  {| ah_credential := v; ah_signedHeaders := ah_signedHeaders h; ah_signature := ah_signature h |}.
Proof.
  intros Hv. unfold auth_part. rewrite plain_trim by (apply plain_app; [by repeat constructor|done]).
  by rewrite HasPrefix_app, TrimPrefix_app.
Qed.

Lemma auth_headers h v : plain_text v -> auth_part h (String " " ("SignedHeaders=" ++ v)) =
  {| ah_credential := ah_credential h; ah_signedHeaders := Split v semicolon; ah_signature := ah_signature h |}.
Proof.
  intros Hv. unfold auth_part. rewrite TrimSpace_space, plain_trim by (apply plain_app; [by repeat constructor|done]).
  rewrite HasPrefix_app, TrimPrefix_app. done.
Qed.

Lemma auth_signature h v : plain_text v -> auth_part h (String " " ("Signature=" ++ v)) =
  {| ah_credential := ah_credential h; ah_signedHeaders := ah_signedHeaders h; ah_signature := v |}.
Proof.
  intros Hv. unfold auth_part. rewrite TrimSpace_space, plain_trim by (apply plain_app; [by repeat constructor|done]).
  rewrite HasPrefix_app, TrimPrefix_app. done.
Qed.

Lemma parse_authorization cred headers sig :
  cred <> ""%string -> plain_text cred -> comma ∉ chars cred ->
  headers <> [] -> Forall (fun h => Forall (fun a => word a = true) (chars h)) headers ->
  sig <> ""%string -> Forall (fun a => word a = true) (chars sig) ->
  parseAuthHeader (authorization cred headers sig) =
  Ok {| ah_credential := cred; ah_signedHeaders := headers; ah_signature := sig |}.
Proof.
  intros Hc Hcp Hcc Hh Hhw Hs Hsw.
  assert (plain_text (Join headers ";")) as Hhp.
  { apply plain_Join; [|by repeat constructor]. eapply list.Forall_impl; [exact Hhw|]. apply word_plain. }
  assert (plain_text sig) as Hsp by by apply word_plain.
  assert (Forall (fun x => comma ∉ chars x) [("Credential=" ++ cred)%string;
     String " " ("SignedHeaders=" ++ Join headers ";"); String " " ("Signature=" ++ sig)]) as Hcomma.
  { assert (forall a t, comma ∉ chars a -> comma ∉ chars t -> comma ∉ chars (a ++ t)%string) as Happ
      by (intros a t ? ?; rewrite chars_app, elem_of_app; tauto).
    repeat apply Forall_cons_2; [| | |constructor]; [apply Happ; [by apply IndexByte_None|done]|..].
    - change (String " " ("SignedHeaders=" ++ Join headers ";"))%string with (" SignedHeaders=" ++ Join headers ";")%string.
      apply Happ; [by apply IndexByte_None|]. apply chars_Join; [|by apply IndexByte_None].
      eapply list.Forall_impl; [exact Hhw|]. intros h Hw. by apply word_not.
    - change (String " " ("Signature=" ++ sig))%string with (" Signature=" ++ sig)%string.
      apply Happ; [by apply IndexByte_None|by apply word_not]. }
  unfold parseAuthHeader, authorization. set (parts := [_; _; _]) in *.
  replace (HasPrefix _ _) with true by (symmetry; apply HasPrefix_spec; exists (Join parts ","); done).
  cbn [negb]. rewrite TrimPrefix_app. rewrite TrimSpace_space.
  assert (TrimSpace (Join parts ",") = Join parts ",") as ->.
  { apply TrimSpace_ends; [done|]. fold (chars (Join parts ",")).
    replace (Join parts ",") with ((Join ["Credential=" ++ cred; String " " ("SignedHeaders=" ++ Join headers ";")] "," ++ ", Signature=") ++ sig)%string
      by (unfold parts; cbn; rewrite !string_app_assoc; cbn; by rewrite ?string_app_assoc).
    rewrite chars_app, rev_app_distr. unfold plain_text in Hsp. apply Forall_rev in Hsp.
    destruct (rev (chars sig)) as [|b l] eqn:E; [|by apply list.Forall_cons in Hsp as [? _]].
    exfalso. apply Hs. apply (f_equal (@rev ascii)) in E. rewrite rev_involutive in E. destruct sig; [done|discriminate E]. }
  change ","%string with (String comma ""). rewrite Split_Join by done. unfold parts. cbn [foldl].
  rewrite auth_credential, auth_headers, auth_signature by done. cbn [ah_credential ah_signedHeaders ah_signature].
  change ";"%string with (String semicolon ""). rewrite Split_Join; [|done|].
  - rewrite !(proj2 (String.eqb_neq _ _)) by done. by destruct headers.
  - eapply list.Forall_impl; [exact Hhw|]. intros x Hw. by apply word_not.
Qed.

(** ** What the checks accept *)

Lemma check_headers_None headers seen :
  Forall (fun h => h <> ""%string /\ lower_header h = h) headers -> NoDup headers -> (forall h, h ∈ headers -> h ∉ seen) ->
  "host"%string ∈ headers \/ "host"%string ∈ seen -> check_headers headers seen = None.
Proof.
  intros Hw Hn. revert seen. induction Hn as [|h l Hh Hn IH]; intros seen Hs Hhost; cbn.
  - destruct (contains seen "host") eqn:E; [done|]. exfalso. apply not_true_iff_false in E. apply E, contains_spec. by destruct Hhost as [?%not_elem_of_nil|?].
  - apply list.Forall_cons in Hw as [[Hne ->] Hw]. rewrite (proj2 (String.eqb_neq _ _)) by done.
    destruct (contains seen h) eqn:E; [apply contains_spec in E; exfalso; apply (Hs h); [by left|done]|].
    apply IH; [done| |].
    + intros x Hx [->|Hin]%elem_of_cons; [done|]. apply (Hs x); [by right|done].
    + destruct Hhost as [[<-|?]%elem_of_cons|?]; [right; by left|by left|right; by right].
Qed.

Lemma scope_parts (l : list string) :
  l <> [] -> Forall word_text l -> Split (Join l "/") slash = l.
Proof.
  intros Hl Hw. change "/"%string with (String slash ""). apply Split_Join; [done|].
  eapply list.Forall_impl; [exact Hw|]. intros s [_ Hs]. by apply word_not.
Qed.

Lemma Get_authorized r a name :
  CanonicalHeaderKey name <> "Authorization"%string -> Get (with_header r "Authorization" a) name = Get r name.
Proof.
  intros Hn. unfold Get, header_Get, header_values. cbn [rq_Header with_header]. unfold header_Set.
  rewrite lookup_insert_ne; [done|]. intros He. apply Hn. rewrite <- He. by vm_compute.
Qed.

Lemma value_authorized r a name :
  CanonicalHeaderKey name <> "Authorization"%string ->
  canonicalHeaderValue (with_header r "Authorization" a) name = canonicalHeaderValue r name.
Proof.
  intros Hn. unfold canonicalHeaderValue, header_values. cbn [rq_Host rq_Header rq_ContentLength with_header]. unfold header_Set.
  change (CanonicalHeaderKey "Authorization") with "Authorization"%string. rewrite !lookup_insert_ne by congruence. done.
Qed.

Lemma canonical_authorized m u q r a hs ph :
  Forall (fun h => CanonicalHeaderKey (lower_header h) <> "Authorization"%string) hs ->
  canonicalRequest m u q (with_header r "Authorization" a) hs ph = canonicalRequest m u q r hs ph.
Proof.
  intros Hh. unfold canonicalRequest.
  assert (canonicalHeaders (with_header r "Authorization" a) (sorted_headers hs) = canonicalHeaders r (sorted_headers hs)) as ->; [|done].
  unfold canonicalHeaders. f_equal. apply map_ext_in. intros x Hx.
  assert (CanonicalHeaderKey x <> "Authorization"%string) as Hn; [|by rewrite value_authorized].
  apply list_elem_of_In, elem_sort_by, list_elem_of_fmap in Hx as (h & -> & Hin).
  by apply (proj1 (list.Forall_forall _ _) Hh).
Qed.

(** What a client that follows the protocol signs. *)
Record signing (v : SigV4Verifier) (now : time) (r : Http) (ak date region : string) (headers : list string) (c : sigV4Cred) : Prop := {
  sg_known : v !! ak = Some c;
  sg_names : word_text ak /\ word_text region /\ word_text date;
  sg_date : date = slice (Get r "X-Amz-Date") 0 8 /\ 8 <= len (Get r "X-Amz-Date");
  sg_time : validateHeaderTime (Get r "X-Amz-Date") now = None;
  sg_headers : Forall header_name headers /\ NoDup headers /\ "host"%string ∈ headers;
  sg_hash : validatePayloadHash (declared_hash r) = None;
  sg_query : values_Get (Query r) "X-Amz-Signature" = ""%string
}.

Definition scope_of (date region : string) : string := Join [date; region; sigV4Service; "aws4_request"%string] "/".

Lemma credential_parts ak date region :
  word_text ak -> word_text region -> word_text date ->
  splitCredential (ak ++ "/" ++ scope_of date region) = Ok (ak, scope_of date region) /\
  plain_text (ak ++ "/" ++ scope_of date region) /\ comma ∉ chars (ak ++ "/" ++ scope_of date region).
Proof.
  intros Ha Hr Hd. set (l := [ak; date; region; sigV4Service; "aws4_request"%string]).
  assert (Forall word_text l) as Hl by (unfold l; repeat apply Forall_cons_2; [done..|split; [done|by repeat constructor]|split; [done|by repeat constructor]|constructor]).
  change (ak ++ "/" ++ scope_of date region)%string with (Join l "/"). split_and!.
  - unfold splitCredential. rewrite scope_parts by done. unfold l. cbn [existsb].
    destruct Ha as [Ha _], Hr as [Hr _], Hd as [Hd _]. by rewrite !(proj2 (String.eqb_neq _ _)) by done.
  - apply plain_Join; [|by repeat constructor]. eapply list.Forall_impl; [exact Hl|]. intros s [_ Hs]. by apply word_plain.
  - apply chars_Join; [|by apply IndexByte_None]. eapply list.Forall_impl; [exact Hl|]. intros s [_ Hs]. by apply word_not.
Qed.

(** A request that carries the Authorization header of the protocol, made with the secret of a
    known access key over headers that include the host, at a time and with a payload hash
    that the checks let pass, is accepted as that access key's caller. *)
Theorem signed_request_verifies v now r ak date region headers c :
  signing v now r ak date region headers c ->
  let scope := scope_of date region in
  let sig := sign_header r scope headers (declared_hash r) (Get r "X-Amz-Date") (cr_secret c) in
  sigv4_Verify (Some v) now (with_header r "Authorization" (authorization (ak ++ "/" ++ scope) headers sig)) = Ok (cr_key c).
Proof.
  intros [Hv (Ha & Hrg & Hd) [Hdate Hlen] Htime (Hh & Hn & Hhost) Hhash Hq] scope sig.
  set (r' := with_header r "Authorization" _). pose proof (credential_parts ak date region Ha Hrg Hd) as (Hsplit & Hplain & Hcomma).
  assert (Forall (fun h => lower_header h = h) headers) as Hlow.
  { eapply list.Forall_impl; [exact Hh|]. intros h ([_ Hw] & Hl & _). unfold lower_header. by rewrite plain_trim by by apply word_plain. }
  assert (headers <> []) as Hne by by intros ->; apply not_elem_of_nil in Hhost.
  unfold sigv4_Verify. change (Query r') with (Query r). rewrite Hq. cbn [negb String.eqb]. unfold verifyHeader.
  assert (Get r' "Authorization" = authorization (ak ++ "/" ++ scope) headers sig) as ->.
  { unfold Get, header_Get, header_values, r'. cbn [rq_Header with_header]. unfold header_Set. by rewrite lookup_insert_eq. }
  rewrite parse_authorization; [|by destruct Ha as [Ha _]; destruct ak|done|done|done| |apply hex_nonempty|apply hex_words].
  2: { eapply list.Forall_impl; [exact Hh|]. by intros h ([_ Hw] & _). }
  cbn [res_bind ah_credential ah_signedHeaders ah_signature]. unfold scope. rewrite Hsplit. cbn [res_bind]. fold scope.
  unfold lookup_cred. rewrite Hv. cbn [res_bind].
  assert (forall name, CanonicalHeaderKey name <> "Authorization"%string -> Get r' name = Get r name) as Hget by (intros; by apply Get_authorized).
  assert (declared_hash r' = declared_hash r) as -> by (unfold declared_hash; by rewrite Hget).
  rewrite Hget by by vm_compute.
  assert (Get r "X-Amz-Date" <> ""%string) as Hx by (intros He; rewrite He in Hlen; by vm_compute in Hlen).
  rewrite (proj2 (String.eqb_neq _ _)) by done. cbn [res_bind].
  assert (validateCredentialScope scope (Get r "X-Amz-Date") = None) as ->.
  { unfold validateCredentialScope, scope, scope_of. rewrite scope_parts; [|done|].
    - rewrite !(proj2 (String.eqb_neq _ "")) by apply Hd || apply Hrg. rewrite <- Hdate, !streqb_refl. cbn [negb orb].
      by rewrite (proj2 (Z.ltb_ge _ _)) by lia.
    - repeat apply Forall_cons_2; [done..|split; [done|by repeat constructor]|split; [done|by repeat constructor]|constructor]. }
  rewrite Htime, Hhash. unfold validateSignedHeaders. rewrite check_headers_None; [|..].
  - cbn [check res_bind]. unfold sign_header, sig, signWith, sign_header. cbn [rq_Method rq_EscapedPath with_header r'].
    change (Query r') with (Query r). unfold r'. rewrite canonical_authorized; [by rewrite streqb_refl|].
    apply list.Forall_forall. intros h Hin. rewrite (proj1 (list.Forall_forall _ _) Hlow h Hin).
    by destruct (proj1 (list.Forall_forall _ _) Hh h Hin) as (_ & _ & ?).
  - apply list.Forall_forall. intros h Hin. split; [by destruct (proj1 (list.Forall_forall _ _) Hh h Hin) as ([? _] & _)|].
    by apply (proj1 (list.Forall_forall _ _) Hlow).
  - done.
  - intros h _. apply not_elem_of_nil.
  - by left.
Qed.
End Signing.

(** ** What a signature covers *)

Section Binding.
Context `{SHA2} `{CaseTables}.

Lemma uri_sound : sound_escape uri_byte.
Proof.
  intros a. unfold uri_byte. destruct (unreserved a) eqn:Eu.
  - split; [|apply Forall_cons_2; [by left|constructor]]. intros rest. apply unescape_plain; by apply unreserved_plain.
  - split; [intros rest; apply unescape_percent|apply percent_sound].
Qed.

Lemma order_empty vs : sort_by text_le vs = [] <-> vs = [].
Proof. split; [|by intros ->]. intros He. apply (f_equal length) in He. rewrite length_sort_by in He. by destruct vs. Qed.

(** The canonical query determines the parameters and the values of each, as a multiset. *)
Lemma encodeQuery_inj q q' : full q -> full q' -> encodeQuery q = encodeQuery q' -> sort_by text_le <$> q = sort_by text_le <$> q'.
Proof.
  intros Hq Hq' He. apply (f_equal ParseQuery) in He. unfold encodeQuery, uriEncode in He.
  by rewrite !parse_encoded in He by (done || apply uri_sound || apply order_empty).
Qed.

Lemma encodeQuery_line q : one_line (encodeQuery q).
Proof. by apply encode_avoids; [apply uri_sound|..]. Qed.

(** A request whose parts a canonical request keeps apart. *)
Record well_formed (r : Http) (hs : list string) (ph : string) : Prop := {
  wf_method : one_line (rq_Method r); wf_path : one_line (rq_EscapedPath r); wf_hash : one_line ph;
  wf_names : hs <> [] /\ Forall (fun h => one_line h /\ semicolon ∉ chars h) (sorted_headers hs);
  wf_values : Forall (fun h => one_line (canonicalHeaderValue r h)) (sorted_headers hs)
}.

Lemma canonicalHeaders_inj r r' names :
  Forall (fun h => one_line (canonicalHeaderValue r h)) names -> Forall (fun h => one_line (canonicalHeaderValue r' h)) names ->
  canonicalHeaders r names = canonicalHeaders r' names ->
  Forall (fun h => canonicalHeaderValue r h = canonicalHeaderValue r' h) names.
Proof.
  assert (forall l, String.concat "" l = foldr String.append ""%string l) as Hc.
  { induction l as [|x [|y l] IH]; [done|cbn; by rewrite string_app_nil|]. change (String.concat "" (x :: y :: l)) with (x ++ String.concat "" (y :: l))%string. by rewrite IH. }
  unfold canonicalHeaders. rewrite !Hc. induction names as [|h names IH]; [constructor|].
  intros [Hr Hrs]%list.Forall_cons [Hr' Hrs']%list.Forall_cons. cbn [map foldr]. rewrite !string_app_assoc. intros He.
  assert (forall p a b, (p ++ a)%string = (p ++ b)%string -> a = b) as Hp.
  { intros p a b Hab. apply (f_equal (fun s => from s (String.length p))) in Hab. by rewrite !from_app in Hab. }
  apply Hp in He. change (":" ++ ?s)%string with (String ":" s) in He. cbn in He. injection He as He.
  apply first_cut_inj in He as [Ev He]; [|done|done]. constructor; [done|]. by apply IH.
Qed.

Lemma names_inj l l' :
  l <> [] -> l' <> [] -> Forall (fun h => semicolon ∉ chars h) l -> Forall (fun h => semicolon ∉ chars h) l' ->
  Join l ";" = Join l' ";" -> l = l'.
Proof.
  intros Hl Hl' Hs Hs' He. apply (f_equal (fun s => Split s semicolon)) in He. change ";"%string with (String semicolon "") in He.
  by rewrite !Split_Join in He.
Qed.

Lemma sorted_nonempty hs : hs <> [] -> sorted_headers hs <> [].
Proof. intros Hh He. apply (proj1 (order_empty _)) in He. by destruct hs. Qed.

(** The parameters a signature covers: all of them, or all but the signature of a presigned
    request. *)
Definition signed_values (r : Http) (q : Values) : Prop :=
  q = Query r \/ q = delete "X-Amz-Signature"%string (Query r).

Lemma signed_full r q : signed_values r q -> full q.
Proof.
  pose proof (ParseQuery_full (rq_RawQuery r)) as Hf. intros [->| ->]; [done|]. intros k vs [_ Hk]%lookup_delete_Some. by apply (Hf k).
Qed.

(** Two requests that ask for the same thing, as far as a signature over these parameters,
    these headers and this payload hash can tell. *)
Definition same_request (r r' : Http) (q q' : Values) (hs hs' : list string) (ph ph' : string) : Prop :=
  rq_Method r = rq_Method r' /\ slash_path (rq_EscapedPath r) = slash_path (rq_EscapedPath r') /\
  sort_by text_le <$> q = sort_by text_le <$> q' /\ sorted_headers hs = sorted_headers hs' /\
  Forall (fun h => canonicalHeaderValue r h = canonicalHeaderValue r' h) (sorted_headers hs) /\ ph = ph'.

(** The canonical request that is signed. *)
Definition canonical_of (r : Http) (q : Values) (hs : list string) (ph : string) : string :=
  canonicalRequest (rq_Method r) (rq_EscapedPath r) (encodeQuery q) r hs ph.

Lemma canonical_inj r r' q q' hs hs' ph ph' :
  well_formed r hs ph -> well_formed r' hs' ph' -> signed_values r q -> signed_values r' q' ->
  canonical_of r q hs ph = canonical_of r' q' hs' ph' -> same_request r r' q q' hs hs' ph ph'.
Proof.
  intros [Hm Hp Hph [Hne Hn] Hv] [Hm' Hp' Hph' [Hne' Hn'] Hv'] Hq Hq' He. unfold canonical_of, canonicalRequest in He.
  fold (slash_path (rq_EscapedPath r)) (slash_path (rq_EscapedPath r')) in He. cbn [Join newline] in He.
  assert (forall q, one_line q -> one_line (slash_path q)) as Hs.
  { intros x Hx. unfold slash_path. destruct (_ =s _); [|done]. by apply IndexByte_None. }
  apply first_cut_inj in He as [Em He]; [|done|done]. apply first_cut_inj in He as [Ep He]; [|by apply Hs|by apply Hs].
  apply first_cut_inj in He as [Eq He]; [|apply encodeQuery_line|apply encodeQuery_line].
  assert (forall l, Forall (fun h => one_line h /\ semicolon ∉ chars h) l -> one_line (Join l ";")) as Hj.
  { intros l Hl. apply chars_Join; [|by apply IndexByte_None]. eapply list.Forall_impl; [exact Hl|]. by intros ? []. }
  unfold newline in He. cbn [String.append] in He.
  assert (forall a b c : string, (a ++ String (char 10) (b ++ String (char 10) c))%string =
            ((a ++ String (char 10) b) ++ String (char 10) c)%string) as Hassoc by (intros; by rewrite string_app_assoc).
  rewrite !Hassoc in He. apply last_cut_inj in He as [He Eph]; [|done|done].
  apply last_cut_inj in He as [Eh En]; [|by apply Hj|by apply Hj].
  apply names_inj in En; [|by apply sorted_nonempty|by apply sorted_nonempty| |];
    [|eapply list.Forall_impl; [exact Hn|by intros ? []]|eapply list.Forall_impl; [exact Hn'|by intros ? []]].
  split_and!; try done.
  - apply encodeQuery_inj; [by eapply signed_full..|done].
  - apply canonicalHeaders_inj; [done|by rewrite En|by rewrite Eh, En].
Qed.

(** These two inputs are a collision of HMAC, these two of SHA-256. *)
Definition hmac_collide (k x k' x' : string) : Prop := (k, x) <> (k', x') /\ hmac_SHA256 k x = hmac_SHA256 k' x'.
Definition sha256_collide (x x' : string) : Prop := x <> x' /\ sha256_Sum x = sha256_Sum x'.

Lemma hex_inj a b : hex_EncodeToString a = hex_EncodeToString b -> a = b.
Proof. intros He. apply (f_equal hex_DecodeString) in He. rewrite !hex_Decode_Encode in He. by injection He. Qed.

Lemma hex_line s : one_line (hex_EncodeToString s).
Proof. apply word_not; [apply hex_words|done]. Qed.

(** C23: two requests with the same signature under one secret, header-signed or presigned,
    are the same request: the method, the path, the signed parameters with their values, the
    signed headers with theirs, the payload hash, the date and the scope are the same.
    Otherwise the two inputs of HMAC that the code makes of them (key and string to sign)
    collide, or else the two canonical requests collide under SHA-256; the theorem names
    these inputs.  Nothing that is signed has a newline in it, and no header's name a
    semicolon ([well_formed], [one_line]), as net/http leaves requests. *)
Theorem signature_binds secret r r' q q' scope scope' hs hs' ph ph' date date' :
  well_formed r hs ph -> well_formed r' hs' ph' -> signed_values r q -> signed_values r' q' ->
  one_line date -> one_line date' -> one_line scope -> one_line scope' ->
  signWith (rq_Method r) (rq_EscapedPath r) (encodeQuery q) r scope hs ph date secret =
  signWith (rq_Method r') (rq_EscapedPath r') (encodeQuery q') r' scope' hs' ph' date' secret ->
  let c := canonical_of r q hs ph in let c' := canonical_of r' q' hs' ph' in
  (same_request r r' q q' hs hs' ph ph' /\ date = date' /\ scope = scope') \/
  hmac_collide (scope_key secret scope) (stringToSign date scope c) (scope_key secret scope') (stringToSign date' scope' c') \/
  sha256_collide c c'.
Proof.
  intros Hw Hw' Hq Hq' Hd Hd' Hsc Hsc' He%hex_inj c c'. fold (canonical_of r q hs ph) (canonical_of r' q' hs' ph') in He. fold c c' in He.
  destruct (decide ((scope_key secret scope, stringToSign date scope c) = (scope_key secret scope', stringToSign date' scope' c')))
    as [Ht|Hne]; [|right; left; by split].
  injection Ht as _ Ht. unfold stringToSign, newline in Ht. cbn [Join String.append] in Ht.
  apply first_cut_inj in Ht as [-> Ht]; [|done|done]. apply first_cut_inj in Ht as [-> Ht]; [|done|done].
  unfold hexSHA256 in Ht. apply hex_inj in Ht. destruct (decide (c = c')) as [Hc|Hne].
  - left. split; [by apply canonical_inj|done].
  - right. right. by split.
Qed.
End Binding.

(** ** Witnesses *)

Module ToyHmac.
Import ToyHash.
(** The last bytes of a text; a toy HMAC of sixteen of the text and sixteen of the key. *)
Definition last_bytes (n : nat) (s : string) : string := text (take n (rev (chars s) ++ repeat (char 48) n)).
#[export] Instance sha2_32 : SHA2 := {|
  sha256_Sum x := last_bytes 32 x; hmac_SHA256 k x := (last_bytes 16 x ++ last_bytes 16 k)%string |}.
Lemma last_size n s : String.length (last_bytes n s) = n.
Proof. unfold last_bytes. rewrite length_text, length_take, length_app, repeat_length. lia. Qed.
Lemma last32_size (k x : string) : String.length (hmac_SHA256 k x) = 32%nat.
Proof. cbn [hmac_SHA256 sha2_32]. by rewrite string_length_app, !last_size. Qed.

Definition demo_request : Http := {|
  rq_Method := "GET"; rq_Path := "/photos/a.jpg"; rq_EscapedPath := "/photos/a.jpg"; rq_RawQuery := "versionId=3"; rq_Host := "vault";
  rq_Header := {["X-Amz-Date"%string := ["20240229T093000Z"%string]]}; rq_ContentLength := 0; rq_Body := None |}.
Definition demo_cred : sigV4Cred := {| cr_secret := "s3cr3t"; cr_key := plain_key "AKIA" "acme" {[ ScopeRead := true ]} |}.
Definition demo_headers : list string := ["host"; "x-amz-date"]%string.
Definition demo_now : time := instant 738944 34260 0.

Lemma demo_signing : signing {["AKIA"%string := demo_cred]} demo_now demo_request "AKIA" "20240229" "eu-west-1" demo_headers demo_cred.
Proof.
  split; try done.
  - repeat split; try done; repeat constructor.
  - split; [|split; [by apply (bool_decide_unpack (NoDup demo_headers)); vm_compute|by left]].
    repeat apply Forall_cons_2; [..|constructor]; (split; [split; [done|by repeat constructor]|by split; vm_compute]).
Defined.

Lemma signed_request_verifies_witness :
  let scope := scope_of "20240229" "eu-west-1" in
  let sig := sign_header demo_request scope demo_headers unsignedPayload "20240229T093000Z" "s3cr3t" in
  sigv4_Verify (Some {["AKIA"%string := demo_cred]}) demo_now
    (with_header demo_request "Authorization" (authorization ("AKIA/" ++ scope) demo_headers sig)) = Ok (cr_key demo_cred).
Proof.
  exact (signed_request_verifies last32_size _ _ _ _ _ _ _ _ demo_signing).
Defined.

Lemma demo_well_formed hs : hs = demo_headers \/ hs = ["X-Amz-Date"; "Host "]%string -> well_formed demo_request hs unsignedPayload.
Proof.
  assert (sorted_headers hs = demo_headers -> hs <> [] -> well_formed demo_request hs unsignedPayload) as Hw.
  { intros He Hn. split; rewrite ?He; try by apply IndexByte_None.
    - split; [done|]. repeat constructor; by apply IndexByte_None.
    - repeat constructor; by apply IndexByte_None. }
  intros [->| ->]; by apply Hw; vm_compute.
Defined.

Lemma signature_binds_witness :
  let hs := ["X-Amz-Date"; "Host "]%string in
  same_request demo_request demo_request (Query demo_request) (Query demo_request) demo_headers hs unsignedPayload unsignedPayload.
Proof.
  intros hs. destruct (signature_binds "s3cr3t" demo_request demo_request (Query demo_request) (Query demo_request)
    "a/b/s3/aws4_request" "a/b/s3/aws4_request" demo_headers hs unsignedPayload unsignedPayload "20240229T093000Z" "20240229T093000Z")
    as [[Hs _]|[[Hne _]|[Hne _]]].
  - apply demo_well_formed. by left.
  - apply demo_well_formed. by right.
  - by left.
  - by left.
  - by apply IndexByte_None.
  - by apply IndexByte_None.
  - by apply IndexByte_None.
  - by apply IndexByte_None.
  - by vm_compute.
  - exact Hs.
  - destruct Hne. by vm_compute.
  - destruct Hne. by vm_compute.
Defined.
End ToyHmac.
