(* ===== verification/SigV4Body.v ===== *)
(** * Signed bodies (src/internal/auth/sigv4_body.go, sigv4_chunk.go)

    What SigV4Verifier.PrepareBody puts around a request's body: nothing, the verifier of a
    signed payload hash, or the reader of an aws-chunked body.  The verifier is modelled on
    what each Read of its source returns (bytes and an error); the chunk reader on the bytes
    its bufio.Reader still has and the error after them.  hash.Hash is the bytes written to
    it; hmac.Equal is equality.

    [payload_hash_enforced]: a body that ends cleanly has the signed hash.
    [chunks_round_trip]: the chunks a client signs read back, whatever the buffers.
    [chunks_are_authentic]: what a reader gets is a prefix of chunks that were all signed,
    each over its predecessor.  [chain_binds]: such a chain fixes the data of every chunk.
    [truncated_body_reads_clean]: a body cut between two chunks ends without an error. *)
From Stdlib Require Import Ascii Lia Bool ZArith.
From stdpp Require Import base gmap strings list numbers option.
From S2P Require Import Prelude GoStrings Json JsonProps GoTime Base64 GoErrors Storage Http Access AuthKeys SigV4.

Open Scope Z_scope.

Definition io_EOF : error := Sentinel "io.EOF".
Definition io_ErrUnexpectedEOF : error := Sentinel "io.ErrUnexpectedEOF".

(** ** The payload verifier *)

Record payloadVerifier := { pv_digest : string; pv_expected : string; pv_length : Z; pv_read : Z; pv_checked : bool }.

(** What a Read returned: the bytes and the error, if any. *)
Abbreviation outcome := (string * option error)%type.

Section Payload.
Context `{SHA2}.

Definition payload_Read (v : payloadVerifier) (got : outcome) : payloadVerifier * outcome :=
  let '(p, err) := got in
  let v := if (0 <? len p) then
             {| pv_digest := pv_digest v ++ p; pv_expected := pv_expected v; pv_length := pv_length v;
                pv_read := wrap64 (pv_read v + len p); pv_checked := pv_checked v |} else v in
  if negb (pv_checked v) && (Is err "io.EOF" || ((0 <=? pv_length v) && (pv_read v =? pv_length v))) then
    let v := {| pv_digest := pv_digest v; pv_expected := pv_expected v; pv_length := pv_length v;
                pv_read := pv_read v; pv_checked := true |} in
    if negb (hexSHA256 (pv_digest v) =s pv_expected v) then (v, (p, Some (sigv4 "payload hash mismatch"))) else (v, (p, err))
  else (v, (p, err)).

(** A consumer reads until the first error. *)
Fixpoint payload_drain (v : payloadVerifier) (source : list outcome) : string * option error :=
  match source with
  | [] => (""%string, None)
  | got :: rest =>
      let '(v, (p, err)) := payload_Read v got in
      match err with
      | Some e => (p, Some e)
      | None => let '(more, err) := payload_drain v rest in ((p ++ more)%string, err)
      end
  end.
End Payload.

(** ** bufio and io *)

Definition end_error (r : Reader) : error := match rd_err r with Some e => e | None => io_EOF end.
Definition advance (r : Reader) (n : nat) : Reader := {| rd_data := from (rd_data r) n; rd_err := rd_err r |}.
Definition at_end (r : Reader) : Reader := {| rd_data := ""; rd_err := rd_err r |}.

(** bufio.Reader.ReadString: through the delimiter, or all there is and the error. *)
Definition ReadString (r : Reader) (delim : ascii) : Reader * outcome :=
  match IndexByte (rd_data r) delim with
  | Some i => (advance r (S i), (slice (rd_data r) 0 (S i), None))
  | None => (at_end r, (rd_data r, Some (end_error r)))
  end.

(** io.ReadFull of n bytes: io.EOF only when there was none. *)
Definition ReadFull (r : Reader) (n : nat) : Reader * result string :=
  if (n <=? String.length (rd_data r))%nat then (advance r n, Ok (slice (rd_data r) 0 n))
  else (at_end r, Err (match rd_err r with
                       | Some e => e
                       | None => if (rd_data r =s "") then io_EOF else io_ErrUnexpectedEOF
                       end)).

(** ** The chunk reader *)

Record verifiedChunkReader := {
  vr_reader : Reader; vr_current : string; vr_signingKey : string; vr_amzDate : string; vr_scope : string;
  vr_previousSig : string; vr_done : bool
}.

Definition CRLF : string := text [char 13; char 10].

Definition readChunkHeader (r : Reader) : Reader * result (Z * string) :=
  let '(r, (line, err)) := ReadString r (char 10) in
  (r, match err with
      | Some e => Err e
      | None =>
          if (4096 <? len line) || negb (HasSuffix line CRLF) then Err (sigv4 "malformed streaming chunk header")
          else match Split (TrimSuffix line CRLF) semicolon with
               | [sizeText; sigText] =>
                   if negb (HasPrefix sigText "chunk-signature=") then Err (sigv4 "missing streaming chunk signature")
                   else
                     let signature := TrimPrefix sigText "chunk-signature=" in
                     match ParseInt 16 sizeText with
                     | None => Err (sigv4 "malformed streaming chunk header")
                     | Some size =>
                         if (size <? 0) || negb (len signature =? sha256HexLength) then Err (sigv4 "malformed streaming chunk header")
                         else match hex_DecodeString signature with
                              | None => Err (sigv4 "malformed streaming chunk signature")
                              | Some _ => Ok (size, signature)
                              end
                     end
               | _ => Err (sigv4 "missing streaming chunk signature")
               end
      end).

Definition consumeCRLF (r : Reader) : Reader * option error :=
  let '(r, got) := ReadFull r 2 in
  (r, match got with
      | Err e => Some e
      | Ok suffix => if negb (suffix =s CRLF) then Some (sigv4 "malformed streaming chunk terminator") else None
      end).

Section Chunks.
Context `{SHA2} `{CaseTables}.

Definition chunkStringToSign (amzDate scope previousSignature data : string) : string :=
  Join [chunkAlgorithm; amzDate; scope; previousSignature; hexSHA256 ""; hexSHA256 data] newline.

Definition streamingChunkSignature (signingKey amzDate scope previousSignature data : string) : string :=
  hex_EncodeToString (hmac_SHA256 signingKey (chunkStringToSign amzDate scope previousSignature data)).

Definition set_reader (v : verifiedChunkReader) (r : Reader) : verifiedChunkReader :=
  {| vr_reader := r; vr_current := vr_current v; vr_signingKey := vr_signingKey v; vr_amzDate := vr_amzDate v;
     vr_scope := vr_scope v; vr_previousSig := vr_previousSig v; vr_done := vr_done v |}.

Definition loadChunk (v : verifiedChunkReader) : verifiedChunkReader * option error :=
  let '(r, header) := readChunkHeader (vr_reader v) in
  match header with
  | Err e => (set_reader v r, Some e)
  | Ok (size, signature) =>
      if (maxChunkSize <? size) then (set_reader v r, Some (sigv4 "streaming chunk too large"))
      else
        let '(r, got) := ReadFull r (Z.to_nat size) in
        match got with
        | Err e => (set_reader v r, Some e)
        | Ok data =>
            let '(r, err) := consumeCRLF r in
            match err with
            | Some e => (set_reader v r, Some e)
            | None =>
                let expected := streamingChunkSignature (vr_signingKey v) (vr_amzDate v) (vr_scope v) (vr_previousSig v) data in
                if negb (expected =s ToLower signature)
                then (set_reader v r, Some (sigv4 "streaming chunk signature mismatch"))
                else ({| vr_reader := r; vr_current := data; vr_signingKey := vr_signingKey v; vr_amzDate := vr_amzDate v;
                         vr_scope := vr_scope v; vr_previousSig := expected; vr_done := (size =? 0) |}, None)
            end
        end
  end.

(** The loop of Read: a chunk with data ends it and the empty chunk ends the body, so it
    runs at most twice ([fill_fuel]). *)
Fixpoint fill (fuel : nat) (v : verifiedChunkReader) : verifiedChunkReader * option error :=
  if negb (vr_current v =s "") then (v, None)
  else if vr_done v then (v, Some io_EOF)
  else match fuel with
       | O => (v, Some (NewError "out of fuel"))
       | S fuel => let '(v, err) := loadChunk v in
                   match err with Some e => (v, Some e) | None => fill fuel v end
       end.

(** Read into a buffer of n bytes. *)
Definition chunk_Read (v : verifiedChunkReader) (n : nat) : verifiedChunkReader * outcome :=
  if (n =? 0)%nat then (v, (""%string, None))
  else let '(v, err) := fill 1 v in
       match err with
       | Some e => (v, (""%string, Some e))
       | None =>
           let taken := Nat.min n (String.length (vr_current v)) in
           ({| vr_reader := vr_reader v; vr_current := from (vr_current v) taken; vr_signingKey := vr_signingKey v;
               vr_amzDate := vr_amzDate v; vr_scope := vr_scope v; vr_previousSig := vr_previousSig v;
               vr_done := vr_done v |}, (slice (vr_current v) 0 taken, None))
       end.

(** A consumer reads into buffers of the given sizes until the first error. *)
Fixpoint chunk_drain (v : verifiedChunkReader) (buffers : list nat) : string * option error :=
  match buffers with
  | [] => (""%string, None)
  | n :: rest =>
      let '(v, (p, err)) := chunk_Read v n in
      match err with
      | Some e => (p, Some e)
      | None => let '(more, err) := chunk_drain v rest in ((p ++ more)%string, err)
      end
  end.

(** ** PrepareBody *)

(** The body after it, and the content length. *)
Inductive prepared := Unchanged | Hashed (v : payloadVerifier) | Chunked (v : verifiedChunkReader).

Definition prepareStreamingBody (v : SigV4Verifier) (r : Http) (Body : Reader) : result (prepared * Z) :=
  let! a := parseAuthHeader (Get r "Authorization") in
  let! p := splitCredential (ah_credential a) in let '(accessKey, scope) := p in
  let! cred := lookup_cred v accessKey in
  let body := {| vr_reader := Body; vr_current := ""; vr_signingKey := scope_key (cr_secret cred) scope;
                 vr_amzDate := Get r "X-Amz-Date"; vr_scope := scope; vr_previousSig := ah_signature a; vr_done := false |} in
  let value := Get r "X-Amz-Decoded-Content-Length" in
  if negb (value =s "") then
    match ParseInt 10 value with
    | Some length => if (length <? 0) then Err (sigv4 "invalid decoded content length") else Ok (Chunked body, length)
    | None => Err (sigv4 "invalid decoded content length")
    end
  else Ok (Chunked body, -1).

(** A nil body, which net/http's server never passes, is read as an empty one by the
    chunk reader. *)
Definition PrepareBody (v : SigV4Verifier) (r : Http) (Body : option Reader) : result (prepared * Z) :=
  let payloadHash := Get r "X-Amz-Content-Sha256" in
  if (payloadHash =s "") || (payloadHash =s unsignedPayload) then Ok (Unchanged, rq_ContentLength r)
  else if (payloadHash =s streamingPayload) then prepareStreamingBody v r (default (reader_of "") Body)
  else
    check! check (validatePayloadHash payloadHash) in
    if (rq_ContentLength r =? 0) then
      if negb (hexSHA256 "" =s ToLower payloadHash) then Err (sigv4 "payload hash mismatch") else Ok (Unchanged, 0)
    else match Body with
         | None => Err (sigv4 "signed payload body is missing")
         | Some _ => Ok (Hashed {| pv_digest := ""; pv_expected := ToLower payloadHash; pv_length := rq_ContentLength r;
                                   pv_read := 0; pv_checked := false |}, rq_ContentLength r)
         end.
End Chunks.

(** ** A body with the wrong hash never ends cleanly *)

Section PayloadProps.
Context `{SHA2}.

Fixpoint source_drain (source : list outcome) : string * option error :=
  match source with
  | [] => (""%string, None)
  | (p, Some e) :: _ => (p, Some e)
  | (p, None) :: rest => let '(more, err) := source_drain rest in ((p ++ more)%string, err)
  end.


(** The verifier has seen all the bytes it pv_counted. *)
Definition pv_counted (v : payloadVerifier) : Prop := pv_read v = len (pv_digest v).
Definition within (v : payloadVerifier) (more : string) : Prop :=
  len (pv_digest v) + len more <= MaxInt64 /\ (0 <= pv_length v -> len (pv_digest v) + len more <= pv_length v).

Definition pv_took (v : payloadVerifier) (p : string) (checked : bool) : payloadVerifier :=
  {| pv_digest := pv_digest v ++ p; pv_expected := pv_expected v; pv_length := pv_length v;
     pv_read := len (pv_digest v ++ p); pv_checked := checked |}.

Definition due (v : payloadVerifier) (p : string) (err : option error) : bool :=
  negb (pv_checked v) && (Is err "io.EOF" || ((0 <=? pv_length v) && (len (pv_digest v ++ p) =? pv_length v))).

Lemma payload_Read_eq v p err : pv_counted v -> within v p ->
  payload_Read v (p, err) =
    if due v p err then
      (pv_took v p true, (p, if (hexSHA256 (pv_digest v ++ p) =s pv_expected v) then err else Some (sigv4 "payload hash mismatch")))
    else (pv_took v p (pv_checked v), (p, err)).
Proof.
  intros Hc [Hm _]. unfold pv_counted in Hc. unfold payload_Read. pose proof (len_nonneg p). pose proof (len_nonneg (pv_digest v)).
  assert ((if 0 <? len p then
     {| pv_digest := pv_digest v ++ p; pv_expected := pv_expected v; pv_length := pv_length v;
        pv_read := wrap64 (pv_read v + len p); pv_checked := pv_checked v |} else v) = pv_took v p (pv_checked v)) as ->.
  { unfold pv_took. rewrite len_app. destruct (Z.ltb_spec 0 (len p)).
    - rewrite Hc, wrap64_id; [done|]. unfold int64, MinInt64. lia.
    - rewrite (len_0 p), string_app_nil by lia. unfold len at 2. cbn. rewrite Z.add_0_r, <- Hc. by destruct v. }
  unfold due, pv_took. cbn [pv_checked pv_length pv_read pv_digest pv_expected].
  destruct (negb (pv_checked v) && _); [|done]. by destruct (_ =s pv_expected v).
Qed.

Lemma within_step v p more checked : within v (p ++ more) -> within (pv_took v p checked) more /\ within v p.
Proof. unfold within, pv_took. cbn [pv_digest pv_length]. rewrite !len_app. pose proof (len_nonneg more). lia. Qed.

(** Of the bytes seen so far: checked before all were there, or to be checked. *)
Lemma payload_drain_spec source v :
  let '(data, err) := source_drain source in
  pv_counted v -> within v data ->
  (pv_checked v = true -> hexSHA256 (pv_digest v) = pv_expected v /\ 0 <= pv_length v /\ len (pv_digest v) = pv_length v) ->
  (hexSHA256 (pv_digest v ++ data) = pv_expected v -> payload_drain v source = (data, err)) /\
  (forall data' e, payload_drain v source = (data', Some e) -> errors_Is e "io.EOF" = true ->
     data' = data /\ err = Some e /\ hexSHA256 (pv_digest v ++ data) = pv_expected v).
Proof.
  revert v. induction source as [|[p err] rest IH]; intros v; [by cbn|]. cbn [source_drain].
  destruct err as [e|]; [|destruct (source_drain rest) as [more err] eqn:Es]; intros Hc Hw Hk; cbn [payload_drain].
  - rewrite payload_Read_eq by done. destruct (due v p (Some e)) eqn:Ed.
    + split; [intros Hh; by rewrite Hh, streqb_refl|]. intros data' e'. destruct (_ =s pv_expected v) eqn:Eh.
      * intros [= <- <-] _. split_and!; [done..|by apply String.eqb_eq].
      * by intros [= <- <-].
    + split; [done|]. intros data' e' [= <- <-] He. split_and!; [done..|]. unfold due in Ed. cbn [Is] in Ed. rewrite He in Ed.
      rewrite orb_true_l, andb_true_r in Ed. apply negb_false_iff in Ed. specialize (Hk Ed) as (Hk & Hl & Hlen).
      destruct Hw as [_ Hw]. specialize (Hw Hl). rewrite (len_0 p) by lia. by rewrite string_app_nil.
  - pose proof (within_step v p more true Hw) as [Hw' Hwp]. rewrite payload_Read_eq by done.
    assert (forall c, pv_counted (pv_took v p c)) as Hct by done. rewrite <- string_app_assoc.
    destruct (due v p None) eqn:Ed.
    + unfold due in Ed. cbn [Is] in Ed. apply andb_true_iff in Ed as [_ [Hl%Z.leb_le Hlen%Z.eqb_eq]%andb_true_iff].
      assert (more = ""%string) as ->. { apply len_0. destruct Hw' as [_ Hw']. specialize (Hw' Hl). unfold pv_took in Hw'. cbn in Hw'. lia. }
      rewrite !string_app_nil in *. destruct (_ =s pv_expected v) eqn:Eh.
      * apply String.eqb_eq in Eh. specialize (IH (pv_took v p true) (Hct _) Hw'). cbn [pv_checked pv_digest pv_expected pv_took] in IH.
        rewrite string_app_nil in IH. destruct IH as [IH1 IH2]; [done|]. split.
        -- intros _. rewrite IH1 by done. by rewrite string_app_nil.
        -- intros data' e'. rewrite IH1 by done. rewrite string_app_nil. by intros [= <- <-] _.
      * split; [intros Hh; by rewrite Hh, streqb_refl in Eh|]. by intros data' e' [= <- <-].
    + specialize (IH (pv_took v p (pv_checked v)) (Hct _) Hw'). cbn [pv_checked pv_digest pv_expected pv_length pv_took] in IH.
      destruct IH as [IH1 IH2].
      { intros Hck. specialize (Hk Hck) as (Hk & Hl & Hlen). destruct Hwp as [_ Hwp]. specialize (Hwp Hl).
        rewrite (len_0 p) by lia. by rewrite string_app_nil. }
      split; [intros Hh; by rewrite IH1|]. intros data' e'.
      destruct (payload_drain (pv_took v p (pv_checked v)) rest) as [more' err'] eqn:Er. intros [= <- ->] He.
      by destruct (IH2 _ _ eq_refl He) as (-> & -> & ?).
Qed.

(** A body whose hash was signed reads as its source does when it has that hash, and
    ends in io.EOF only when it has: a body that was changed or cut short ends in an error. *)
Theorem payload_hash_enforced source expected length :
  let v := {| pv_digest := ""; pv_expected := expected; pv_length := length; pv_read := 0; pv_checked := false |} in
  let '(data, err) := source_drain source in
  len data <= MaxInt64 -> (0 <= length -> len data <= length) ->
  (hexSHA256 data = expected -> payload_drain v source = (data, err)) /\
  (forall data' e, payload_drain v source = (data', Some e) -> errors_Is e "io.EOF" = true ->
     data' = data /\ err = Some e /\ hexSHA256 data = expected).
Proof.
  intros v. pose proof (payload_drain_spec source v) as Hs. destruct (source_drain source) as [data err]. intros Hm Hl. by apply Hs.
Qed.
End PayloadProps.

(** ** Chunks *)

Lemma ReadString_line r line delim rest :
  delim ∉ chars line -> rd_data r = (line ++ String delim rest)%string ->
  ReadString r delim = ({| rd_data := rest; rd_err := rd_err r |}, ((line ++ String delim "")%string, None)).
Proof.
  intros Hd He. unfold ReadString, advance. rewrite He, IndexByte_app by done.
  replace (line ++ String delim rest)%string with ((line ++ String delim "") ++ rest)%string by by rewrite string_app_assoc.
  replace (S (String.length line)) with (String.length (line ++ String delim "")) by (rewrite string_length_app; cbn; lia).
  by rewrite slice_app, from_app.
Qed.

Lemma ReadString_Ok r r' line delim : ReadString r delim = (r', (line, None)) -> rd_data r = (line ++ rd_data r')%string /\ rd_err r' = rd_err r.
Proof.
  unfold ReadString. destruct (IndexByte (rd_data r) delim) as [i|] eqn:Ei; [|done]. intros [= <- <-]. split; [|done].
  apply IndexByte_Some in Ei as (Hx & _ & Hi). revert Hx Hi. generalize (slice (rd_data r) 0 i), (from (rd_data r) (i + 1)).
  intros x rest Hx <-. unfold advance. cbn [rd_data]. rewrite Hx.
  replace (x ++ String delim rest)%string with ((x ++ String delim "") ++ rest)%string by by rewrite string_app_assoc.
  replace (S (String.length x)) with (String.length (x ++ String delim "")) by (rewrite string_length_app; cbn; lia).
  by rewrite slice_app, from_app.
Qed.

Lemma ReadFull_app r a rest : rd_data r = (a ++ rest)%string ->
  ReadFull r (String.length a) = ({| rd_data := rest; rd_err := rd_err r |}, Ok a).
Proof.
  intros He. unfold ReadFull, advance. rewrite He, string_length_app, slice_app, from_app.
  by rewrite (proj2 (Nat.leb_le _ _)) by lia.
Qed.

Lemma ReadFull_Ok r n r' data : ReadFull r n = (r', Ok data) ->
  rd_data r = (data ++ rd_data r')%string /\ String.length data = n /\ rd_err r' = rd_err r.
Proof.
  unfold ReadFull. destruct (Nat.leb_spec n (String.length (rd_data r))) as [Hle|]; [|done].
  destruct (string_split (rd_data r) n Hle) as (a & b & He & <-). unfold advance. rewrite He, slice_app, from_app. by intros [= <- <-].
Qed.

Lemma consumeCRLF_Ok r r' : consumeCRLF r = (r', None) -> rd_data r = (CRLF ++ rd_data r')%string /\ rd_err r' = rd_err r.
Proof.
  unfold consumeCRLF. destruct (ReadFull r 2) as [r1 [suffix|e]] eqn:Er; [|done]. apply ReadFull_Ok in Er as (Hd & _ & He).
  destruct (suffix =s CRLF) eqn:Es; [|done]. apply String.eqb_eq in Es as ->. by intros [= <-].
Qed.

(** The header of a chunk. *)
Definition header (sizeText signature : string) : string := (sizeText ++ ";chunk-signature=" ++ signature ++ CRLF)%string.

Lemma TrimSuffix_app a b : TrimSuffix (a ++ b) b = a.
Proof.
  unfold TrimSuffix. replace (HasSuffix (a ++ b) b) with true by (symmetry; apply HasSuffix_spec; by exists a).
  rewrite string_length_app. replace (String.length a + String.length b - String.length b)%nat with (String.length a) by lia.
  apply slice_app.
Qed.

Lemma readChunkHeader_Ok r r' size signature :
  readChunkHeader r = (r', Ok (size, signature)) ->
  exists sizeText, rd_data r = (header sizeText signature ++ rd_data r')%string /\ rd_err r' = rd_err r /\
    ParseInt 16 sizeText = Some size /\ 0 <= size /\ len signature = 64.
Proof.
  unfold readChunkHeader. destruct (ReadString r _) as [r1 [line [e|]]] eqn:Er; [done|]. apply ReadString_Ok in Er as [Hd He].
  destruct (_ || _) eqn:Es; [done|]. apply orb_false_iff in Es as [_ Es%negb_false_iff]. apply HasSuffix_spec in Es as [body ->].
  rewrite TrimSuffix_app. destruct (Split body semicolon) as [|sizeText [|sigText [|]]] eqn:Esp; try done.
  apply (f_equal (fun l => Join l (String semicolon ""))) in Esp. rewrite Join_Split in Esp. cbn [Join] in Esp. subst body.
  destruct (HasPrefix sigText _) eqn:Ep; [|done]. apply HasPrefix_spec in Ep as [sig ->]. rewrite TrimPrefix_app. cbn [negb].
  destruct (ParseInt 16 sizeText) as [n|] eqn:En; [|done]. destruct (_ || _) eqn:Eo; [done|].
  apply orb_false_iff in Eo as [Hn%Z.ltb_ge Hl%negb_false_iff%Z.eqb_eq]. destruct (hex_DecodeString sig); [|done].
  intros [= <- <- <-]. exists sizeText. split_and!; [|done..]. rewrite Hd. unfold header.
  by rewrite !string_app_assoc.
Qed.

Section ChunkProps.
Context `{SHA2} `{CaseTables}.

(** The next state of a reader that has read a chunk. *)
Definition loaded (v : verifiedChunkReader) (rest data : string) : verifiedChunkReader :=
  {| vr_reader := {| rd_data := rest; rd_err := rd_err (vr_reader v) |}; vr_current := data;
     vr_signingKey := vr_signingKey v; vr_amzDate := vr_amzDate v; vr_scope := vr_scope v;
     vr_previousSig := streamingChunkSignature (vr_signingKey v) (vr_amzDate v) (vr_scope v) (vr_previousSig v) data;
     vr_done := len data =? 0 |}.

Lemma loadChunk_Ok v v' : loadChunk v = (v', None) ->
  exists sizeText signature data rest,
    rd_data (vr_reader v) = (header sizeText signature ++ data ++ CRLF ++ rest)%string /\
    ParseInt 16 sizeText = Some (len data) /\
    ToLower signature = streamingChunkSignature (vr_signingKey v) (vr_amzDate v) (vr_scope v) (vr_previousSig v) data /\
    v' = loaded v rest data.
Proof.
  unfold loadChunk. destruct (readChunkHeader _) as [r [[size sig]|e]] eqn:Eh; [|done].
  apply readChunkHeader_Ok in Eh as (sizeText & Hd & He & Hn & Hp & Hl).
  destruct (maxChunkSize <? size); [done|]. destruct (ReadFull r _) as [r1 [data|e]] eqn:Er; [|done].
  apply ReadFull_Ok in Er as (Hd1 & Hlen & He1). destruct (consumeCRLF r1) as [r2 [e|]] eqn:Ec; [done|].
  apply consumeCRLF_Ok in Ec as [Hd2 He2]. destruct (_ =s _) eqn:Es; [|done]. apply String.eqb_eq in Es. intros [= <-].
  assert (len data = size) as <- by (unfold len; lia). exists sizeText, sig, data, (rd_data r2).
  split_and!; [by rewrite Hd, Hd1, Hd2|done|done|]. unfold loaded. f_equal. destruct r2. cbn in *. congruence.
Qed.

Lemma fill_fuel n v : fill (S n) v = fill 1 v.
Proof.
  cbn. destruct (negb _); [done|]. destruct (vr_done v); [done|]. destruct (loadChunk v) as [v' [e|]] eqn:El; [done|].
  apply loadChunk_Ok in El as (? & ? & data & rest & _ & _ & _ & ->). destruct n as [|n]; [done|]. cbn.
  by destruct data.
Qed.

(** ** What is delivered was signed *)

(** The bytes of a body whose chunks carry the given data: each chunk's signature is over
    its data and the signature before it. *)
Inductive signed_chunks (key date scope : string) : string -> list string -> string -> string -> Prop :=
| no_chunk prev rest : signed_chunks key date scope prev [] rest rest
| one_chunk prev sizeText signature data ds bytes rest :
    ParseInt 16 sizeText = Some (len data) ->
    ToLower signature = streamingChunkSignature key date scope prev data ->
    signed_chunks key date scope (streamingChunkSignature key date scope prev data) ds bytes rest ->
    signed_chunks key date scope prev (data :: ds) (header sizeText signature ++ data ++ CRLF ++ bytes) rest.

Definition glue (ds : list string) : string := foldr String.append ""%string ds.

Lemma glue_app ds ds' : glue (ds ++ ds') = (glue ds ++ glue ds')%string.
Proof. induction ds as [|d ds IH]; cbn; [done|]. fold (glue (ds ++ ds')) (glue ds). by rewrite IH, string_app_assoc. Qed.

Lemma fill_cases v v' : fill 1 v = (v', None) ->
  v' = v \/ vr_current v = ""%string /\ loadChunk v = (v', None).
Proof.
  cbn. destruct (vr_current v =s "") eqn:Ec; cbn [negb]; [|intros [= <-]; by left].
  apply String.eqb_eq in Ec. destruct (vr_done v); [done|]. destruct (loadChunk v) as [v1 [e|]]; [done|].
  destruct (negb _); [intros [= <-]; by right|]. by destruct (vr_done v1).
Qed.

Lemma take_split s n : (slice s 0 (Nat.min n (String.length s)) ++ from s (Nat.min n (String.length s)))%string = s.
Proof.
  destruct (string_split s (Nat.min n (String.length s))) as (a & b & He & Ha); [lia|]. rewrite <- Ha. rewrite He at 1 2.
  by rewrite slice_app, from_app.
Qed.

(** What a reader has to deliver: its chunk, and chunks its source holds, signed. *)
Definition can_deliver (v : verifiedChunkReader) (data : string) : Prop :=
  exists ds rest t,
    signed_chunks (vr_signingKey v) (vr_amzDate v) (vr_scope v) (vr_previousSig v) ds (rd_data (vr_reader v)) rest /\
    (vr_current v ++ glue ds = data ++ t)%string.

Lemma deliver_load v v' data : vr_current v = ""%string -> loadChunk v = (v', None) -> can_deliver v' data -> can_deliver v data.
Proof.
  intros Hc (sizeText & sig & d & rest0 & Hd & Hn & Hs & ->)%loadChunk_Ok (ds & rest & t & Hch & He). exists (d :: ds), rest, t.
  rewrite Hc, Hd. split; [|done]. cbn in Hch. by constructor.
Qed.

Lemma drain_deliver buffers v : can_deliver v (chunk_drain v buffers).1.
Proof.
  assert (forall v, can_deliver v ""%string) as Hnil.
  { intros w. exists [], (rd_data (vr_reader w)), (vr_current w). split; [constructor|]. cbn. by rewrite string_app_nil. }
  revert v. induction buffers as [|n rest IH]; intros v; [apply Hnil|]. cbn [chunk_drain]. unfold chunk_Read.
  destruct (n =? 0)%nat; [cbn; specialize (IH v); by destruct (chunk_drain v rest)|].
  destruct (fill 1 v) as [v' [e|]] eqn:Ef; [apply Hnil|]. set (w := {| vr_reader := vr_reader v' |}).
  assert (can_deliver v' (slice (vr_current v') 0 (Nat.min n (String.length (vr_current v'))) ++ (chunk_drain w rest).1)%string) as Hd.
  { destruct (IH w) as (ds & rest' & t & Hch & He). exists ds, rest', t. split; [exact Hch|]. cbn [vr_current w] in He.
    rewrite <- (take_split (vr_current v') n) at 1. by rewrite !string_app_assoc, He. }
  destruct (chunk_drain w rest) as [more err]. cbn [fst] in *.
  apply fill_cases in Ef as [->|[Hc Hl]]; [done|]. by eapply deliver_load.
Qed.

(** C22: what reading a fresh aws-chunked body delivers, whatever the buffers and however it
    ends, is a prefix of the data of chunks its bytes start with, each carrying a signature
    with the request's key over its data and the signature before it. *)
Theorem chunks_are_authentic v buffers :
  vr_current v = ""%string ->
  exists ds rest t,
    signed_chunks (vr_signingKey v) (vr_amzDate v) (vr_scope v) (vr_previousSig v) ds (rd_data (vr_reader v)) rest /\
    glue ds = ((chunk_drain v buffers).1 ++ t)%string.
Proof.
  intros Hc. destruct (drain_deliver buffers v) as (ds & rest & t & Hch & He). rewrite Hc in He. by exists ds, rest, t.
Qed.

(** ** What the chain fixes *)

Fixpoint chain (key date scope prev : string) (ds : list string) : string :=
  match ds with
  | [] => prev
  | d :: ds => chain key date scope (streamingChunkSignature key date scope prev d) ds
  end.

(** These two chunks make HMAC or SHA-256 collide. *)
Definition chunks_collide (key date scope prev prev' d d' : string) : Prop :=
  hmac_collide key (chunkStringToSign date scope prev d) key (chunkStringToSign date scope prev' d') \/ sha256_collide d d'.

Lemma chunk_sig_inj key date scope prev prev' d d' :
  streamingChunkSignature key date scope prev d = streamingChunkSignature key date scope prev' d' ->
  (prev = prev' /\ d = d') \/ chunks_collide key date scope prev prev' d d'.
Proof.
  intros He%hex_inj. set (t := chunkStringToSign date scope prev d) in He. set (t' := chunkStringToSign date scope prev' d') in He.
  destruct (decide ((key, t) = (key, t'))) as [Ht|Hne]; [|right; left; by split].
  injection Ht as Ht. unfold t, t', chunkStringToSign, newline in Ht. cbn [Join String.append] in Ht. clear t t' He.
  assert (forall a x y : string, (a ++ x)%string = (a ++ y)%string -> x = y) as Hp.
  { intros a x y Hxy. apply (f_equal (fun s => from s (String.length a))) in Hxy. by rewrite !from_app in Hxy. }
  apply Hp in Ht. injection Ht as Ht. apply Hp in Ht. injection Ht as Ht.
  assert (forall a b c : string, (a ++ String (char 10) (b ++ String (char 10) c))%string =
            ((a ++ String (char 10) b) ++ String (char 10) c)%string) as Hassoc by (intros; by rewrite string_app_assoc).
  rewrite !Hassoc in Ht. apply last_cut_inj in Ht as [Ht Eh]; [|apply hex_line|apply hex_line].
  apply last_cut_inj in Ht as [-> _]; [|apply hex_line|apply hex_line]. apply hex_inj in Eh.
  destruct (decide (d = d')) as [->|Hne]; [by left|]. right. right. by split.
Qed.

(** Two chains of chunks one of whose pairs makes a hash collide. *)
Fixpoint chains_collide (key date scope prev prev' : string) (ds ds' : list string) : Prop :=
  match ds, ds' with
  | d :: ds, d' :: ds' =>
      chunks_collide key date scope prev prev' d d' \/
      chains_collide key date scope (streamingChunkSignature key date scope prev d) (streamingChunkSignature key date scope prev' d') ds ds'
  | _, _ => False
  end.

(** The signature of the last chunk fixes the seed and the data of every chunk before it, in
    order, unless two chunks at the same place of the two chains make HMAC or SHA-256
    collide. *)
Theorem chain_binds key date scope seed seed' ds ds' :
  length ds = length ds' -> chain key date scope seed ds = chain key date scope seed' ds' ->
  (seed = seed' /\ ds = ds') \/ chains_collide key date scope seed seed' ds ds'.
Proof.
  revert seed seed' ds'. induction ds as [|d ds IH]; intros seed seed' [|d' ds'] Hl He; try done; [by left|].
  destruct (IH _ _ ds' (eq_add_S _ _ Hl) He) as [[Hs ->]|?]; [|by right; right].
  apply chunk_sig_inj in Hs as [[-> ->]|?]; [by left|by right; left].
Qed.

(** ** A client's body *)

Record chunk := { ck_size : string; ck_data : string }.

Definition good_chunk (c : chunk) : Prop :=
  ParseInt 16 (ck_size c) = Some (len (ck_data c)) /\ len (ck_data c) <= maxChunkSize /\ len (ck_size c) <= 4000.

Definition frame (sig : string) (c : chunk) : string := (header (ck_size c) sig ++ ck_data c ++ CRLF)%string.

(** The chunks of a body, after a signature. *)
Fixpoint encode_chunks (key date scope prev : string) (cs : list chunk) : string :=
  match cs with
  | [] => ""
  | c :: cs => let sig := streamingChunkSignature key date scope prev (ck_data c) in
               (frame sig c ++ encode_chunks key date scope sig cs)%string
  end.

Lemma radix_chars base l acc n : radix base l acc = Some n -> Forall (fun a => hex_val a <> None) l.
Proof.
  revert acc. induction l as [|a l IH]; intros acc; cbn; [by constructor|]. destruct (hex_val a) as [d|] eqn:Ed; [|done].
  destruct (d <? base); [|done]. intros He. constructor; [by rewrite Ed|by eapply IH].
Qed.

(** No byte but a digit or a sign. *)
Lemma ParseInt_avoids base s n a :
  ParseInt base s = Some n -> hex_val a = None -> is_char 45 a = false -> is_char 43 a = false -> a ∉ chars s.
Proof.
  intros Hp Ha Hm Hq Hin. unfold ParseInt in Hp. destruct (chars s) as [|b l] eqn:Es; [by apply not_elem_of_nil in Hin|].
  assert (forall l m, match l with [] => None | _ => radix base l 0 end = Some m -> a ∉ l) as Hr.
  { intros l' m He Hl. destruct l' as [|c l']; [done|]. apply radix_chars in He. rewrite list.Forall_forall in He. by apply (He a). }
  destruct (is_char 45 b) eqn:E1; [|destruct (is_char 43 b) eqn:E2].
  - destruct (match l with [] => None | _ => radix base l 0 end) as [m|] eqn:E; [|done].
    apply elem_of_cons in Hin as [->|Hin]; [congruence|]. by apply Hr in E.
  - destruct (match l with [] => None | _ => radix base l 0 end) as [m|] eqn:E; [|done].
    apply elem_of_cons in Hin as [->|Hin]; [congruence|]. by apply Hr in E.
  - destruct (radix base (b :: l) 0) as [m|] eqn:E; [|done]. by apply (Hr (b :: l)) in E.
Qed.
End ChunkProps.

Section ClientBody.
Context `{SHA2} `{CaseTables}.
Hypothesis hmac_size : forall k x, String.length (hmac_SHA256 k x) = 32%nat.

Lemma sig_length key date scope prev d : len (streamingChunkSignature key date scope prev d) = 64.
Proof. unfold len, streamingChunkSignature. by rewrite hex_Encode_length, hmac_size. Qed.

Lemma ToLower_hex s : ToLower (hex_EncodeToString s) = hex_EncodeToString s.
Proof.
  unfold ToLower. assert (is_ascii (hex_EncodeToString s) = true) as ->.
  { unfold is_ascii. apply forallb_elem. intros a Ha. apply Z.ltb_lt. pose proof (hex_Encode_ascii s) as Hs.
    rewrite list.Forall_forall in Hs. by apply Hs. }
  unfold hex_EncodeToString. rewrite chars_text. f_equal.
  assert (forall n, 0 <= n < 16 -> lower_byte (hex_digit n) = hex_digit n) as Hd.
  { assert (forallb (fun n => Ascii.eqb (lower_byte (hex_digit n)) (hex_digit n)) (seqZ 0 16) = true) as Hall by by vm_compute.
    rewrite forallb_elem in Hall. intros n Hn. apply Ascii.eqb_eq, Hall, elem_of_seqZ. lia. }
  induction (chars s) as [|a l IH]; [done|]. pose proof (byte_val_range a). cbn [map concat app].
  rewrite !Hd, IH by (Z.to_euclidean_division_equations; lia). done.
Qed.

Lemma hex_avoids s a : word a = false -> a ∉ chars (hex_EncodeToString s).
Proof. intros Ha. apply word_not; [apply hex_words|done]. Qed.

Lemma not_in_app a s t : a ∉ chars s -> a ∉ chars t -> a ∉ chars (s ++ t)%string.
Proof. intros Hs Ht. rewrite chars_app, elem_of_app. tauto. Qed.

Lemma readChunkHeader_frame r c k x rest :
  good_chunk c -> let sig := hex_EncodeToString (hmac_SHA256 k x) in
  rd_data r = (header (ck_size c) sig ++ rest)%string ->
  readChunkHeader r = ({| rd_data := rest; rd_err := rd_err r |}, Ok (len (ck_data c), sig)).
Proof.
  intros (Hp & Hm & Hs) sig Hd. set (body := (ck_size c ++ ";chunk-signature=" ++ sig)%string).
  assert (forall a, word a = false -> hex_val a = None -> is_char 45 a = false -> is_char 43 a = false ->
            a ∉ chars ";chunk-signature=" -> a ∉ chars body) as Ha.
  { intros a ? ? ? ? ?. unfold body. apply not_in_app; [by eapply ParseInt_avoids|]. apply not_in_app; [done|by apply hex_avoids]. }
  unfold readChunkHeader.
  rewrite (ReadString_line r (body ++ String (char 13) "") (char 10) rest); cycle 1.
  { apply not_in_app; [apply Ha; done || by apply IndexByte_None|by apply IndexByte_None]. }
  { rewrite Hd. unfold header, body. by rewrite !string_app_assoc. }
  assert (((body ++ String (char 13) "") ++ String (char 10) "")%string = (body ++ CRLF)%string) as -> by by rewrite string_app_assoc.
  assert (HasSuffix (body ++ CRLF) CRLF = true) as -> by (apply HasSuffix_spec; by exists body).
  assert ((4096 <? len (body ++ CRLF)) = false) as ->.
  { apply Z.ltb_ge. unfold body. rewrite !len_app. unfold sig, len in *. rewrite hex_Encode_length, hmac_size. cbn. lia. }
  cbn [negb orb]. rewrite TrimSuffix_app.
  assert (Split body semicolon = [ck_size c; ("chunk-signature=" ++ sig)%string]) as ->.
  { change body with (Join [ck_size c; ("chunk-signature=" ++ sig)%string] (String semicolon "")). apply Split_Join; [done|].
    repeat constructor; [by eapply ParseInt_avoids|]. apply not_in_app; [by apply IndexByte_None|by apply hex_avoids]. }
  rewrite HasPrefix_app, TrimPrefix_app. cbn [negb]. rewrite Hp.
  assert (len sig = 64) as Hl by (unfold sig, len; by rewrite hex_Encode_length, hmac_size). rewrite Hl.
  rewrite (proj2 (Z.ltb_ge _ _)) by apply len_nonneg. cbn [orb negb Z.eqb]. unfold sig. by rewrite hex_Decode_Encode.
Qed.

Lemma loadChunk_frame v c rest :
  good_chunk c ->
  rd_data (vr_reader v) =
    (frame (streamingChunkSignature (vr_signingKey v) (vr_amzDate v) (vr_scope v) (vr_previousSig v) (ck_data c)) c ++ rest)%string ->
  loadChunk v = (loaded v rest (ck_data c), None).
Proof.
  intros Hg Hd. unfold loadChunk. unfold frame in Hd. rewrite !string_app_assoc in Hd.
  erewrite readChunkHeader_frame by (done || exact Hd). destruct Hg as (_ & Hm & _).
  rewrite (proj2 (Z.ltb_ge _ _)) by done. unfold len at 1. rewrite Nat2Z.id.
  erewrite ReadFull_app by done. unfold consumeCRLF. change 2%nat with (String.length CRLF). erewrite ReadFull_app by done.
  rewrite streqb_refl. cbn [negb]. unfold streamingChunkSignature at 2. rewrite ToLower_hex. fold (streamingChunkSignature (vr_signingKey v) (vr_amzDate v) (vr_scope v) (vr_previousSig v) (ck_data c)).
  by rewrite streqb_refl.
Qed.
Definition with_current (v : verifiedChunkReader) (s : string) : verifiedChunkReader :=
  {| vr_reader := vr_reader v; vr_current := s; vr_signingKey := vr_signingKey v; vr_amzDate := vr_amzDate v;
     vr_scope := vr_scope v; vr_previousSig := vr_previousSig v; vr_done := vr_done v |}.

Lemma drain_step v n rest : vr_current v <> ""%string -> n <> 0%nat ->
  let taken := Nat.min n (String.length (vr_current v)) in
  chunk_drain v (n :: rest) =
    let '(more, err) := chunk_drain (with_current v (from (vr_current v) taken)) rest in
    ((slice (vr_current v) 0 taken ++ more)%string, err).
Proof.
  intros Hc Hn taken. cbn [chunk_drain]. unfold chunk_Read. rewrite (proj2 (Nat.eqb_neq _ _)) by done.
  assert (fill 1 v = (v, None)) as -> by (cbn; by rewrite (proj2 (String.eqb_neq _ _))). done.
Qed.

Lemma drain_loaded v v' n rest : vr_current v = ""%string -> vr_done v = false -> loadChunk v = (v', None) ->
  vr_current v' <> ""%string -> n <> 0%nat -> chunk_drain v (n :: rest) = chunk_drain v' (n :: rest).
Proof.
  intros Hc Hd Hl Hc' Hn. cbn [chunk_drain]. unfold chunk_Read. rewrite (proj2 (Nat.eqb_neq _ _)) by done.
  assert (fill 1 v = (v', None)) as ->.
  { cbn. rewrite Hc, Hd, Hl. cbn. by rewrite (proj2 (String.eqb_neq _ _)). }
  assert (fill 1 v' = (v', None)) as -> by (cbn; by rewrite (proj2 (String.eqb_neq _ _))). done.
Qed.

Lemma drain_end v n rest e : (fill 1 v).2 = Some e -> n <> 0%nat -> chunk_drain v (n :: rest) = (""%string, Some e).
Proof.
  intros He Hn. cbn [chunk_drain]. unfold chunk_Read. rewrite (proj2 (Nat.eqb_neq _ _)) by done.
  destruct (fill 1 v) as [v' err]. cbn in He. by subst.
Qed.

(** A reader at the given rest of its source ends with e. *)
Definition ends (key date scope prev tail : string) (err : option error) (e : error) : Prop :=
  (fill 1 {| vr_reader := {| rd_data := tail; rd_err := err |}; vr_current := ""; vr_signingKey := key; vr_amzDate := date;
             vr_scope := scope; vr_previousSig := prev; vr_done := false |}).2 = Some e.

Definition data_of (cs : list chunk) : string := glue (map ck_data cs).

Lemma drain_chunks buffers v cs tail e :
  Forall (fun n => n <> 0%nat) buffers -> Forall (fun c => good_chunk c /\ ck_data c <> ""%string) cs ->
  rd_data (vr_reader v) = (encode_chunks (vr_signingKey v) (vr_amzDate v) (vr_scope v) (vr_previousSig v) cs ++ tail)%string ->
  vr_done v = false -> (String.length (vr_current v ++ data_of cs) < length buffers)%nat ->
  ends (vr_signingKey v) (vr_amzDate v) (vr_scope v)
    (chain (vr_signingKey v) (vr_amzDate v) (vr_scope v) (vr_previousSig v) (map ck_data cs)) tail (rd_err (vr_reader v)) e ->
  chunk_drain v buffers = ((vr_current v ++ data_of cs)%string, Some e).
Proof.
  intros Hb. revert v cs. induction Hb as [|n rest Hn Hb IH]; intros v cs Hcs Hd Hdone Hlen He; [cbn in Hlen; lia|].
  assert (forall v cs, Forall (fun c => good_chunk c /\ ck_data c <> ""%string) cs ->
    rd_data (vr_reader v) = (encode_chunks (vr_signingKey v) (vr_amzDate v) (vr_scope v) (vr_previousSig v) cs ++ tail)%string ->
    vr_done v = false -> (String.length (vr_current v ++ data_of cs) < length (n :: rest))%nat ->
    ends (vr_signingKey v) (vr_amzDate v) (vr_scope v)
      (chain (vr_signingKey v) (vr_amzDate v) (vr_scope v) (vr_previousSig v) (map ck_data cs)) tail (rd_err (vr_reader v)) e ->
    vr_current v <> ""%string -> chunk_drain v (n :: rest) = ((vr_current v ++ data_of cs)%string, Some e)) as Hcur.
  { clear v cs Hcs Hd Hdone Hlen He. intros v cs Hcs Hd Hdone Hlen He Hc. rewrite drain_step by done.
    pose proof (take_split (vr_current v) n) as Ht. set (taken := Nat.min n _) in *.
    rewrite (IH (with_current v (from (vr_current v) taken)) cs); [|done..| |done].
    - cbn [with_current vr_current]. by rewrite <- string_app_assoc, Ht.
    - cbn [with_current vr_current]. rewrite string_length_app in *. apply (f_equal String.length) in Ht. rewrite string_length_app in Ht.
      assert (0 < String.length (slice (vr_current v) 0 taken))%nat; [|cbn in Hlen; lia].
      assert (taken <= String.length (vr_current v))%nat as Hle by (unfold taken; lia).
      destruct (string_split _ _ Hle) as (a & b & Hv & Ha). rewrite Hv, <- Ha, slice_app, Ha. unfold taken.
      destruct (vr_current v); [done|cbn; lia]. }
  destruct (decide (vr_current v = ""%string)) as [Hc|Hc]; [|by apply Hcur].
  destruct cs as [|c cs].
  - cbn [encode_chunks] in Hd. rewrite (drain_end v n rest e); [by rewrite Hc| |done]. unfold ends in He. destruct v as [r cur ? ? ? ? ?].
    cbn in *. subst. destruct r. cbn in *. subst. exact He.
  - apply list.Forall_cons in Hcs as [[Hg Hne] Hcs]. cbn [encode_chunks] in Hd. rewrite string_app_assoc in Hd.
    pose proof (loadChunk_frame v c _ Hg Hd) as Hl. rewrite (drain_loaded v _ n rest Hc Hdone Hl) by done.
    rewrite (Hcur (loaded v _ (ck_data c)) cs); [cbn [loaded vr_current]; by rewrite Hc|done|done| | |done|done].
    + cbn. apply Z.eqb_neq. intros H0'. apply Hne, len_0. lia.
    + cbn [loaded vr_current]. by rewrite Hc in Hlen.
Qed.

(** The reader that PrepareBody installs. *)
Definition fresh (key date scope seed bytes : string) : verifiedChunkReader :=
  {| vr_reader := reader_of bytes; vr_current := ""; vr_signingKey := key; vr_amzDate := date; vr_scope := scope;
     vr_previousSig := seed; vr_done := false |}.

(** C32: a body of chunks a client signs, ended by the empty chunk, reads back as their data
    and a clean end, whatever buffers it is read into. *)
Theorem chunks_round_trip key date scope seed cs last trailing buffers :
  Forall (fun c => good_chunk c /\ ck_data c <> ""%string) cs -> good_chunk last -> ck_data last = ""%string ->
  Forall (fun n => n <> 0%nat) buffers -> (String.length (data_of cs) < length buffers)%nat ->
  chunk_drain (fresh key date scope seed (encode_chunks key date scope seed (cs ++ [last]) ++ trailing)) buffers = (data_of cs, Some io_EOF).
Proof.
  intros Hcs Hl Hne Hb Hlen.
  assert (forall seed, encode_chunks key date scope seed (cs ++ [last]) = encode_chunks key date scope seed cs ++
            frame (streamingChunkSignature key date scope (chain key date scope seed (map ck_data cs)) (ck_data last)) last)%string as Ha.
  { clear. induction cs as [|c cs IH]; intros seed; cbn; [by rewrite string_app_nil|]. by rewrite IH, string_app_assoc. }
  rewrite Ha, string_app_assoc. set (f := frame _ last).
  rewrite (drain_chunks buffers (fresh _ _ _ _ _) cs (f ++ trailing) io_EOF); [done..|].
  unfold ends. cbn [fill vr_current vr_done String.eqb negb].
  erewrite loadChunk_frame; [|exact Hl|done]. cbn [loaded vr_current vr_done]. by rewrite Hne.
Qed.

(** A body that is cut between two chunks, the empty chunk with it, reads as the data of
    the chunks that are left and the same clean end. *)
Theorem truncated_body_reads_clean key date scope seed cs buffers :
  Forall (fun c => good_chunk c /\ ck_data c <> ""%string) cs ->
  Forall (fun n => n <> 0%nat) buffers -> (String.length (data_of cs) < length buffers)%nat ->
  chunk_drain (fresh key date scope seed (encode_chunks key date scope seed cs)) buffers = (data_of cs, Some io_EOF).
Proof.
  intros Hcs Hb Hlen. rewrite <- (string_app_nil (encode_chunks _ _ _ _ _)).
  by rewrite (drain_chunks buffers (fresh _ _ _ _ _) cs "" io_EOF).
Qed.
End ClientBody.

(** ** Witnesses *)

Module ToyBody.
Import ToyHmac.
#[local] Existing Instances sha2_32 ToyHash.cases.

Definition demo_chunks : list chunk := [{| ck_size := "5"; ck_data := "hello" |}; {| ck_size := "1"; ck_data := "!" |}]%string.
Definition last_chunk : chunk := {| ck_size := "0"; ck_data := "" |}.
Definition buffers : list nat := repeat 3%nat 7.

Lemma demo_good : Forall (fun c => good_chunk c /\ ck_data c <> ""%string) demo_chunks.
Proof. repeat apply Forall_cons_2; [..|constructor]; by split; vm_compute. Defined.

Lemma buffers_good : Forall (fun n => n <> 0%nat) buffers.
Proof. by repeat constructor. Defined.

Lemma payload_hash_enforced_witness :
  payload_drain {| pv_digest := ""; pv_expected := hexSHA256 "abcd"; pv_length := 4; pv_read := 0; pv_checked := false |}
    [("ab", None); ("cd", Some io_EOF)]%string = ("abcd"%string, Some io_EOF).
Proof.
  pose proof (payload_hash_enforced [("ab", None); ("cd", Some io_EOF)]%string (hexSHA256 "abcd") 4) as Hp. cbn zeta in Hp.
  cbn [source_drain] in Hp. apply Hp; by vm_compute.
Defined.

Lemma chunks_are_authentic_witness :
  exists ds rest t,
    signed_chunks "k" "d" "s" "seed" ds (encode_chunks "k" "d" "s" "seed" (demo_chunks ++ [last_chunk])) rest /\
    glue ds = ("hello!" ++ t)%string.
Proof.
  pose proof (chunks_are_authentic (fresh "k" "d" "s" "seed" (encode_chunks "k" "d" "s" "seed" (demo_chunks ++ [last_chunk]))) buffers eq_refl) as Hc.
  assert ((chunk_drain (fresh "k" "d" "s" "seed" (encode_chunks "k" "d" "s" "seed" (demo_chunks ++ [last_chunk]))) buffers).1 = "hello!"%string) as He
    by by vm_compute.
  rewrite He in Hc. exact Hc.
Defined.

Lemma chain_binds_witness : "seed"%string = "seed"%string /\ ["a"; "b"]%string = ["a"; "b"]%string.
Proof.
  destruct (chain_binds "k" "d" "s" "seed" "seed" ["a"; "b"]%string ["a"; "b"]%string) as [H|[[[Hne _]|[Hne _]]|[[[Hne _]|[Hne _]]|[]]]];
    [reflexivity|reflexivity|exact H|destruct Hne; reflexivity..].
Defined.

Lemma chunks_round_trip_witness :
  chunk_drain (fresh "k" "d" "s" "seed" (encode_chunks "k" "d" "s" "seed" (demo_chunks ++ [last_chunk]) ++ "more")) buffers =
  ("hello!"%string, Some io_EOF).
Proof.
  apply (@chunks_round_trip sha2_32 ToyHash.cases last32_size "k" "d" "s" "seed" demo_chunks last_chunk "more" buffers);
    [exact demo_good|by split; vm_compute|done|exact buffers_good|by apply Nat.ltb_lt].
Defined.

Lemma truncated_body_reads_clean_witness :
  chunk_drain (fresh "k" "d" "s" "seed" (encode_chunks "k" "d" "s" "seed" demo_chunks)) buffers = ("hello!"%string, Some io_EOF).
Proof.
  apply (@truncated_body_reads_clean sha2_32 ToyHash.cases last32_size "k" "d" "s" "seed" demo_chunks buffers); [exact demo_good|exact buffers_good|by apply Nat.ltb_lt].
Defined.
End ToyBody.
