(* ===== verification/AuthRegistry.v ===== *)
(** * The key registry (src/internal/auth: auth.go, key_cache.go, key_tenant.go, snaplink.go;
      src/internal/repository/apikeys.go; src/cmd/server/auth.go)

    [keyCache] is the bounded cache of persisted keys; [PersistentStore] the interface of
    the key table and [KeyStoreLaws] what the registry relies on; [ApiKeys] the SQL table
    behind it.  [Registry] has the keys of the settings, the verifiers and the store; its
    operations return the registry they leave and the hashes they publish to other
    replicas.  The clock is an argument; the entry a full cache drops is the first of an
    order of the map ([MapOrder]); rs.ValidateToken of the Snaplink SDK is a function of the
    token.

    [lookup_is_authorized]: who is let in, and until when.  [AddKey_then_Lookup],
    [RevokeKey_then_Lookup]: a call at a time.  [Runs] interleaves lookups, additions and
    revocations step by step: [revocation_bounded_by_ttl] bounds how long a revoked key is
    still answered, [revoked_key_recached] shows that it can be. *)
From Stdlib Require Import Ascii Lia Bool ZArith.
From stdpp Require Import base gmap strings list numbers option.
From S2P Require Import Prelude GoStrings Json GoTime GoErrors Sql Http Access AuthKeys SigV4.

Open Scope Z_scope.

(** ** The cache of persisted keys *)

Record keyCacheEntry := { ce_key : Key; ce_expires : time }.
Abbreviation Entries := (gmap string keyCacheEntry).
Record keyCache := { kc_ttl : Z; kc_capacity : Z; kc_entries : Entries }.

(** The first key of a range over the map. *)
Class MapOrder := {
  first_key : Entries -> option string;
  first_key_spec m : match first_key m with Some k => is_Some (m !! k) | None => m = ∅ end
}.

Definition newKeyCache (ttl capacity : Z) : option keyCache :=
  if (ttl <=? 0) || (capacity <=? 0) then None else Some {| kc_ttl := ttl; kc_capacity := capacity; kc_entries := ∅ |}.

Definition with_entries (c : keyCache) (m : Entries) : keyCache :=
  {| kc_ttl := kc_ttl c; kc_capacity := kc_capacity c; kc_entries := m |}.

Definition cache_get (c : keyCache) (hash : string) (now : time) : keyCache * option Key :=
  match kc_entries c !! hash with
  | None => (c, None)
  | Some e => if After now (ce_expires e) then (with_entries c (delete hash (kc_entries c)), None) else (c, Some (ce_key e))
  end.

Definition cache_delete (c : keyCache) (hash : string) : keyCache := with_entries c (delete hash (kc_entries c)).

Definition entry_expiry (c : keyCache) (keyExpiry now : time) : time :=
  let expires := now + kc_ttl c in
  if negb (IsZero keyExpiry) && Before keyExpiry expires then keyExpiry else expires.

Section Put.
Context `{MapOrder}.

Definition evicted (c : keyCache) (hash : string) : Entries :=
  match kc_entries c !! hash with
  | None => if (kc_capacity c <=? Z.of_nat (size (kc_entries c)))
            then match first_key (kc_entries c) with Some ek => delete ek (kc_entries c) | None => kc_entries c end
            else kc_entries c
  | Some _ => kc_entries c
  end.

Definition cache_put (c : keyCache) (hash : string) (k : Key) (keyExpiry now : time) : keyCache :=
  with_entries c (<[hash := {| ce_key := k; ce_expires := entry_expiry c keyExpiry now |}]> (evicted c hash)).
End Put.

(** ** Persisted keys (store.go) *)

Record PersistedKey := {
  pk_TokenHash : string; pk_TenantID : string; pk_Scopes : string; pk_Label : string; pk_CreatedAt : string;
  pk_ExpiresAt : string; pk_LastUsedAt : string
}.

Class PersistentStore (S : Type) := {
  PutAPIKey : S -> time -> PersistedKey -> S * option error;
  GetAPIKeyByHash : S -> string -> result (option PersistedKey);
  DeleteAPIKeyByHash : S -> string -> S * result bool;
  ListAPIKeys : S -> string -> result (list PersistedKey);
  TouchAPIKey : S -> string -> string -> S * option error
}.

(** What a record grants. *)
Definition grants (pk pk' : PersistedKey) : Prop :=
  pk_TenantID pk = pk_TenantID pk' /\ pk_Scopes pk = pk_Scopes pk' /\ pk_ExpiresAt pk = pk_ExpiresAt pk'.

Definition same_grant (a b : result (option PersistedKey)) : Prop :=
  match a, b with
  | Ok (Some x), Ok (Some y) => grants x y
  | Ok None, Ok None => True
  | Err x, Err y => x = y
  | _, _ => False
  end.

Class KeyStoreLaws (S : Type) `{PersistentStore S} := {
  put_get s now k s' : PutAPIKey s now k = (s', None) ->
    exists r, GetAPIKeyByHash s' (pk_TokenHash k) = Ok (Some r) /\ pk_TenantID r = defaultTenant (pk_TenantID k) /\
      pk_Scopes r = pk_Scopes k /\ pk_ExpiresAt r = pk_ExpiresAt k;
  put_other s now k s' e h : PutAPIKey s now k = (s', e) -> h <> pk_TokenHash k -> GetAPIKeyByHash s' h = GetAPIKeyByHash s h;
  delete_get s h s' b : DeleteAPIKeyByHash s h = (s', Ok b) ->
    GetAPIKeyByHash s' h = Ok None /\ (b = true <-> exists r, GetAPIKeyByHash s h = Ok (Some r));
  delete_other s h s' b h' : DeleteAPIKeyByHash s h = (s', b) -> h' <> h -> GetAPIKeyByHash s' h' = GetAPIKeyByHash s h';
  delete_failed s h s' e : DeleteAPIKeyByHash s h = (s', Err e) -> GetAPIKeyByHash s' h = GetAPIKeyByHash s h;
  touch_grant s h when s' e h' : TouchAPIKey s h when = (s', e) -> same_grant (GetAPIKeyByHash s' h') (GetAPIKeyByHash s h')
}.

(** ** The api_keys table (repository/apikeys.go, and cmd/server's apiKeyStore over it) *)

(** The rows, and the error of a database that is down. *)
Record ApiKeys := { ak_rows : list PersistedKey; ak_down : option error }.

Definition with_rows (t : ApiKeys) (rows : list PersistedKey) : ApiKeys := {| ak_rows := rows; ak_down := ak_down t |}.
Definition has_hash (h : string) (r : PersistedKey) : bool := pk_TokenHash r =s h.

Definition sql_PutAPIKey (t : ApiKeys) (now : time) (k : PersistedKey) : ApiKeys * option error :=
  let tenant := defaultTenant (pk_TenantID k) in
  let created := if (pk_CreatedAt k =s "") then FormatRFC3339Nano now else pk_CreatedAt k in
  match ak_down t with
  | Some e => (t, Some e)
  | None =>
      if existsb (has_hash (pk_TokenHash k)) (ak_rows t) then
        (with_rows t (update_where (has_hash (pk_TokenHash k)) (fun r =>
           {| pk_TokenHash := pk_TokenHash r; pk_TenantID := tenant; pk_Scopes := pk_Scopes k; pk_Label := pk_Label k;
              pk_CreatedAt := pk_CreatedAt r; pk_ExpiresAt := pk_ExpiresAt k; pk_LastUsedAt := pk_LastUsedAt r |}) (ak_rows t)), None)
      else
        (with_rows t (ak_rows t ++ [{| pk_TokenHash := pk_TokenHash k; pk_TenantID := tenant; pk_Scopes := pk_Scopes k;
           pk_Label := pk_Label k; pk_CreatedAt := created; pk_ExpiresAt := pk_ExpiresAt k; pk_LastUsedAt := pk_LastUsedAt k |}]), None)
  end.

Definition sql_GetAPIKeyByHash (t : ApiKeys) (h : string) : result (option PersistedKey) :=
  match ak_down t with Some e => Err e | None => Ok (List.find (has_hash h) (ak_rows t)) end.

Definition sql_DeleteAPIKeyByHash (t : ApiKeys) (h : string) : ApiKeys * result bool :=
  match ak_down t with
  | Some e => (t, Err e)
  | None => (with_rows t (delete_where (has_hash h) (ak_rows t)), Ok (existsb (has_hash h) (ak_rows t)))
  end.

Definition sql_ListAPIKeys (t : ApiKeys) (tenant : string) : result (list PersistedKey) :=
  match ak_down t with
  | Some e => Err e
  | None =>
      let rows := if (tenant =s "") || (tenant =s "*") then ak_rows t
                  else List.filter (fun r => pk_TenantID r =s tenant) (ak_rows t) in
      Ok (sort_by (fun a b => text_le (pk_CreatedAt a) (pk_CreatedAt b)) rows)
  end.

Definition sql_TouchAPIKey (t : ApiKeys) (h when : string) : ApiKeys * option error :=
  match ak_down t with
  | Some e => (t, Some e)
  | None =>
      (with_rows t (update_where (has_hash h) (fun r =>
         {| pk_TokenHash := pk_TokenHash r; pk_TenantID := pk_TenantID r; pk_Scopes := pk_Scopes r; pk_Label := pk_Label r;
            pk_CreatedAt := pk_CreatedAt r; pk_ExpiresAt := pk_ExpiresAt r; pk_LastUsedAt := when |}) (ak_rows t)), None)
  end.

#[export] Instance apiKeyStore : PersistentStore ApiKeys := {|
  PutAPIKey := sql_PutAPIKey; GetAPIKeyByHash := sql_GetAPIKeyByHash; DeleteAPIKeyByHash := sql_DeleteAPIKeyByHash;
  ListAPIKeys := sql_ListAPIKeys; TouchAPIKey := sql_TouchAPIKey |}.

(** ** Snaplink tokens (snaplink.go) *)

(** rs.Claims, as far as the adapter reads them. *)
Record Claims := {
  sl_ClientID : string; sl_Subject : string; sl_JTI : string; sl_Raw : gmap string jvalue;
  sl_Scopes : list string; sl_Audience : list string
}.

Definition stringClaim (raw : gmap string jvalue) (name : string) : string :=
  match raw !! name with Some (JString s) => s | _ => "" end.

Definition stringSliceClaim (raw : gmap string jvalue) (name : string) : list string :=
  match raw !! name with
  | Some (JArray l) => omap (fun v => match v with JString s => Some s | _ => None end) l
  | Some (JString s) => Fields s
  | _ => []
  end.

Definition hasClaim (raw : gmap string jvalue) (name : string) : bool :=
  match raw !! name with Some _ => true | None => false end.

Record SnaplinkVerifier := {
  sv_audience : string; sv_tenantClaim : string; sv_clientTenants : gmap string string; sv_defaultScopes : list string;
  sv_ValidateToken : string -> result Claims
}.

Definition snaplinkPrincipalKind (c : Claims) : string :=
  if negb (sl_ClientID c =s "") && (sl_Subject c =s sl_ClientID c) && negb (sl_JTI c =s "") &&
     negb (hasClaim (sl_Raw c) "auth_time") && negb (hasClaim (sl_Raw c) "sid") &&
     negb (hasClaim (sl_Raw c) "act") && negb (hasClaim (sl_Raw c) "may_act")
  then PrincipalService else PrincipalUser.

Definition matchesAudience (v : SnaplinkVerifier) (c : Claims) (clientID : string) : bool :=
  (sv_audience v =s "") || contains (sl_Audience c) (sv_audience v) || (clientID =s sv_audience v).

Definition resolveTenant (v : SnaplinkVerifier) (raw : gmap string jvalue) (subject clientID : string) : string :=
  if (0 <? Z.of_nat (size (sv_clientTenants v))) then default "" (sv_clientTenants v !! clientID)
  else if (sv_tenantClaim v =s "sub") then subject
  else if (sv_tenantClaim v =s "tenant_id") then stringClaim raw "tenant_id"
  else stringClaim raw "ten".

Definition known_scopes (l : list string) : ScopeSet := foldl (fun m s => if knownScope s then <[s := true]> m else m) ∅ l.

Definition resolveScopes (v : SnaplinkVerifier) (values : list (list string)) : ScopeSet :=
  let resolved := known_scopes (concat values) in
  if decide (resolved = ∅) then known_scopes (sv_defaultScopes v) else resolved.

Definition snaplink_Verify (v : SnaplinkVerifier) (token : string) : result Key :=
  match sv_ValidateToken v token with
  | Err e => Err (Wrap "snaplink: validate token" [e])
  | Ok c =>
      let clientID := if (sl_ClientID c =s "") then stringClaim (sl_Raw c) "azp" else sl_ClientID c in
      if negb (matchesAudience v c clientID) then Err (NewError "snaplink: audience/client mismatch")
      else
        let tenant := resolveTenant v (sl_Raw c) (sl_Subject c) clientID in
        if (tenant =s "") then Err (NewError "snaplink: no tenant mapping")
        else if (sl_Subject c =s "") then Err (NewError "snaplink: token omitted subject")
        else
          let scopes := resolveScopes v [sl_Scopes c; stringSliceClaim (sl_Raw c) "scopes"] in
          if decide (scopes = ∅) then Err (NewError "snaplink: token has no recognized scopes")
          else Ok {| k_Token := token; k_Tenant := tenant; k_SubjectID := sl_Subject c; k_Kind := snaplinkPrincipalKind c;
                     k_Roles := stringSliceClaim (sl_Raw c) "roles"; k_Groups := stringSliceClaim (sl_Raw c) "groups";
                     k_Scopes := scopes |}
  end.

(** ** The registry *)

(** A nil verifier, store, cache, signer or publisher is [None] or [false]. *)
Record Registry (S : Type) := {
  rg_keys : gmap string Key; rg_enabled : bool; rg_jwt : option JWTVerifier; rg_sigv4 : option SigV4Verifier;
  rg_store : option S; rg_snaplink : option SnaplinkVerifier; rg_anonRead : bool; rg_keyCache : option keyCache;
  rg_putSigner : PutPresigner; rg_publisher : bool
}.
Arguments rg_keys {S}. Arguments rg_enabled {S}. Arguments rg_jwt {S}. Arguments rg_sigv4 {S}. Arguments rg_store {S}.
Arguments rg_snaplink {S}. Arguments rg_anonRead {S}. Arguments rg_keyCache {S}. Arguments rg_putSigner {S}.
Arguments rg_publisher {S}.

Section Registry.
Context {S : Type} `{PersistentStore S, MapOrder, SHA2, CaseTables}.
Abbreviation registry := (Registry S).

(** Parse: the key set of AUTH_KEYS, nothing else configured. *)
Definition Parse (raw : string) : registry * option error :=
  let '((keys, on), err) := ParseKeys raw in
  ({| rg_keys := keys; rg_enabled := on; rg_jwt := None; rg_sigv4 := None; rg_store := None; rg_snaplink := None;
      rg_anonRead := false; rg_keyCache := None; rg_putSigner := None; rg_publisher := false |}, err).

Definition failClosedRegistry (err : error) : registry * option error :=
  ({| rg_keys := ∅; rg_enabled := true; rg_jwt := None; rg_sigv4 := None; rg_store := None; rg_snaplink := None;
      rg_anonRead := false; rg_keyCache := None; rg_putSigner := None; rg_publisher := false |}, Some err).

Definition Enabled (r : registry) : bool :=
  rg_enabled r || bool_decide (is_Some (rg_jwt r)) || bool_decide (is_Some (rg_snaplink r)) ||
  bool_decide (is_Some (rg_sigv4 r)) || bool_decide (is_Some (rg_store r)).

Definition with_keys (r : registry) (keys : gmap string Key) (on : bool) : registry :=
  {| rg_keys := keys; rg_enabled := on; rg_jwt := rg_jwt r; rg_sigv4 := rg_sigv4 r; rg_store := rg_store r;
     rg_snaplink := rg_snaplink r; rg_anonRead := rg_anonRead r; rg_keyCache := rg_keyCache r;
     rg_putSigner := rg_putSigner r; rg_publisher := rg_publisher r |}.
Definition with_cache (r : registry) (c : option keyCache) : registry :=
  {| rg_keys := rg_keys r; rg_enabled := rg_enabled r; rg_jwt := rg_jwt r; rg_sigv4 := rg_sigv4 r; rg_store := rg_store r;
     rg_snaplink := rg_snaplink r; rg_anonRead := rg_anonRead r; rg_keyCache := c;
     rg_putSigner := rg_putSigner r; rg_publisher := rg_publisher r |}.
Definition WithStore (r : registry) (s : S) : registry :=
  {| rg_keys := rg_keys r; rg_enabled := rg_enabled r; rg_jwt := rg_jwt r; rg_sigv4 := rg_sigv4 r; rg_store := Some s;
     rg_snaplink := rg_snaplink r; rg_anonRead := rg_anonRead r; rg_keyCache := rg_keyCache r;
     rg_putSigner := rg_putSigner r; rg_publisher := rg_publisher r |}.
Definition WithKeyCache (r : registry) (ttl capacity : Z) : registry := with_cache r (newKeyCache ttl capacity).
Definition WithSigV4 (r : registry) (v : option SigV4Verifier) : registry :=
  {| rg_keys := rg_keys r; rg_enabled := rg_enabled r; rg_jwt := rg_jwt r; rg_sigv4 := v; rg_store := rg_store r;
     rg_snaplink := rg_snaplink r; rg_anonRead := rg_anonRead r; rg_keyCache := rg_keyCache r;
     rg_putSigner := rg_putSigner r; rg_publisher := rg_publisher r |}.
Definition WithJWT (r : registry) (secret : string) : registry :=
  {| rg_keys := rg_keys r; rg_enabled := rg_enabled r; rg_jwt := NewJWTVerifier secret; rg_sigv4 := rg_sigv4 r;
     rg_store := rg_store r; rg_snaplink := rg_snaplink r; rg_anonRead := rg_anonRead r; rg_keyCache := rg_keyCache r;
     rg_putSigner := rg_putSigner r; rg_publisher := rg_publisher r |}.
Definition with_jwt (r : registry) (v : option JWTVerifier) : registry :=
  {| rg_keys := rg_keys r; rg_enabled := rg_enabled r; rg_jwt := v; rg_sigv4 := rg_sigv4 r;
     rg_store := rg_store r; rg_snaplink := rg_snaplink r; rg_anonRead := rg_anonRead r; rg_keyCache := rg_keyCache r;
     rg_putSigner := rg_putSigner r; rg_publisher := rg_publisher r |}.
(** A verifier that could not be built locks the registry down. *)
Definition WithSnaplink (r : registry) (v : option SnaplinkVerifier) : registry :=
  {| rg_keys := rg_keys r; rg_enabled := match v with None => true | Some _ => rg_enabled r end; rg_jwt := rg_jwt r;
     rg_sigv4 := rg_sigv4 r; rg_store := rg_store r; rg_snaplink := v; rg_anonRead := rg_anonRead r;
     rg_keyCache := rg_keyCache r; rg_putSigner := rg_putSigner r; rg_publisher := rg_publisher r |}.
Definition WithAnonymousPublicRead (r : registry) (on : bool) : registry :=
  {| rg_keys := rg_keys r; rg_enabled := rg_enabled r; rg_jwt := rg_jwt r; rg_sigv4 := rg_sigv4 r; rg_store := rg_store r;
     rg_snaplink := rg_snaplink r; rg_anonRead := on; rg_keyCache := rg_keyCache r;
     rg_putSigner := rg_putSigner r; rg_publisher := rg_publisher r |}.
Definition WithPutPresigner (r : registry) (p : PutPresigner) : registry :=
  {| rg_keys := rg_keys r; rg_enabled := rg_enabled r; rg_jwt := rg_jwt r; rg_sigv4 := rg_sigv4 r; rg_store := rg_store r;
     rg_snaplink := rg_snaplink r; rg_anonRead := rg_anonRead r; rg_keyCache := rg_keyCache r;
     rg_putSigner := p; rg_publisher := rg_publisher r |}.
Definition WithKeyChangePublisher (r : registry) (on : bool) : registry :=
  {| rg_keys := rg_keys r; rg_enabled := rg_enabled r; rg_jwt := rg_jwt r; rg_sigv4 := rg_sigv4 r; rg_store := rg_store r;
     rg_snaplink := rg_snaplink r; rg_anonRead := rg_anonRead r; rg_keyCache := rg_keyCache r;
     rg_putSigner := rg_putSigner r; rg_publisher := on |}.

(** ** Lookup *)

Definition InvalidateCachedKey (r : registry) (hash : string) : registry :=
  match rg_keyCache r with Some c => with_cache r (Some (cache_delete c hash)) | None => r end.

(** The hashes published. *)
Definition publish_hash (r : registry) (hash : string) : list string := if rg_publisher r then [hash] else [].

Definition InvalidatePersistedKey (r : registry) (hash : string) : registry * list string :=
  (InvalidateCachedKey r hash, publish_hash r hash).

(** The three steps of lookupStore: the cache, the store, the cache again. *)
Definition probe (r : registry) (hash : string) (now : time) : registry * option Key :=
  match rg_keyCache r with
  | Some c => let '(c, hit) := cache_get c hash now in (with_cache r (Some c), hit)
  | None => (r, None)
  end.

(** The key and its expiry, the zero time when it has none. *)
Definition fetch (store : S) (hash token : string) (now : time) : S * option (Key * time) :=
  match GetAPIKeyByHash store hash with
  | Ok (Some pk) =>
      let found expiry := ((TouchAPIKey store hash (FormatRFC3339Nano now)).1,
                           Some (plain_key token (pk_TenantID pk) (parseScopeString (pk_Scopes pk)), expiry)) in
      if (pk_ExpiresAt pk =s "") then found 0
      else match ParseRFC3339 (pk_ExpiresAt pk) with
           | Some exp => if After now exp then (store, None) else found exp
           | None => (store, None)
           end
  | _ => (store, None)
  end.

Definition fill_cache (r : registry) (hash : string) (k : Key) (keyExpiry now : time) : registry :=
  match rg_keyCache r with Some c => with_cache r (Some (cache_put c hash k keyExpiry now)) | None => r end.

Definition lookupStore (r : registry) (store : S) (hash token : string) (now : time) : registry * option Key :=
  let '(r, hit) := probe r hash now in
  match hit with
  | Some k => (r, Some k)
  | None => let '(store, found) := fetch store hash token now in
            let r := WithStore r store in
            match found with
            | Some (k, keyExpiry) => (fill_cache r hash k keyExpiry now, Some k)
            | None => (r, None)
            end
  end.

Definition lookupJWT (r : registry) (token : string) (now : time) : option Key :=
  match rg_jwt r with
  | Some _ => match jwt_Verify (rg_jwt r) (Unix now) token with Ok k => Some k | Err _ => None end
  | None => None
  end.

Definition lookupSnaplink (r : registry) (token : string) : option Key :=
  match rg_snaplink r with
  | Some v => match snaplink_Verify v token with Ok k => Some k | Err _ => None end
  | None => None
  end.

Definition Lookup (r : registry) (token : string) (now : time) : registry * option Key :=
  match rg_keys r !! token with
  | Some k => (r, Some k)
  | None =>
      let '(r, found) := match rg_store r with Some store => lookupStore r store (HashToken token) token now | None => (r, None) end in
      (r, match found with
          | Some k => Some k
          | None => match lookupJWT r token now with Some k => Some k | None => lookupSnaplink r token end
          end)
  end.

(** key_tenant.go: the tenant, and whether the key was found. *)
Definition TenantForKey (r : registry) (token : string) : string * bool * option error :=
  match rg_keys r !! token with
  | Some k => (k_Tenant k, true, None)
  | None =>
      match rg_store r with
      | None => (""%string, false, None)
      | Some store => match GetAPIKeyByHash store (HashToken token) with
                      | Ok (Some pk) => (pk_TenantID pk, true, None)
                      | Ok None => (""%string, false, None)
                      | Err e => (""%string, false, Some e)
                      end
      end
  end.

(** ** Adding and revoking keys *)

Definition AddKey (r : registry) (k : Key) (expiresAt label : string) (now : time) : registry * list string * option error :=
  match rg_store r with
  | None => (with_keys r (<[k_Token k := k]> (rg_keys r)) true, [], None)
  | Some store =>
      let label := if (label =s "") then redact (k_Token k) else label in
      let hash := HashToken (k_Token k) in
      let r := InvalidateCachedKey r hash in
      match PutAPIKey store now {| pk_TokenHash := hash; pk_TenantID := k_Tenant k; pk_Scopes := scopesToString (k_Scopes k);
                                   pk_Label := label; pk_CreatedAt := ""; pk_ExpiresAt := expiresAt; pk_LastUsedAt := "" |} with
      | (store, Some err) => (WithStore r store, [], Some err)
      | (store, None) => (WithStore r store, publish_hash r hash, None)
      end
  end.

(** The steps of RevokeKey before the store is asked: the key of the settings and the
    cached one. *)
Definition forget (r : registry) (token : string) : registry :=
  InvalidateCachedKey (with_keys r (delete token (rg_keys r)) (rg_enabled r)) (HashToken token).

Definition RevokeKey (r : registry) (token : string) : registry * list string * result bool :=
  let ok := bool_decide (is_Some (rg_keys r !! token)) in
  let r := forget r token in
  match rg_store r with
  | None => (r, [], Ok ok)
  | Some store =>
      match DeleteAPIKeyByHash store (HashToken token) with
      | (store, Err err) => (WithStore r store, [], Err err)
      | (store, Ok deleted) => (WithStore r store, publish_hash r (HashToken token), Ok (ok || deleted))
      end
  end.

(** The order of the keys of the settings is the map's. *)
Definition ListKeys (r : registry) : list Key :=
  let out := map (fun p => {| k_Token := redact (k_Token p.2); k_Tenant := k_Tenant p.2; k_SubjectID := k_SubjectID p.2;
                              k_Kind := k_Kind p.2; k_Roles := k_Roles p.2; k_Groups := k_Groups p.2; k_Scopes := k_Scopes p.2 |})
                 (map_to_list (rg_keys r)) in
  match rg_store r with
  | None => out
  | Some store => match ListAPIKeys store "" with
                  | Ok recs => (out ++ map (fun pk => plain_key (pk_Label pk) (pk_TenantID pk) (parseScopeString (pk_Scopes pk))) recs)%list
                  | Err _ => out
                  end
  end.
End Registry.

(** ** The cache stays within its capacity *)

Record cache_wf (c : keyCache) : Prop := {
  cw_ttl : 0 < kc_ttl c; cw_capacity : 0 < kc_capacity c; cw_size : Z.of_nat (size (kc_entries c)) <= kc_capacity c
}.

Lemma newKeyCache_wf ttl capacity c : newKeyCache ttl capacity = Some c -> cache_wf c.
Proof.
  unfold newKeyCache. destruct (_ || _) eqn:E; [done|]. intros [= <-]. apply orb_false_iff in E as [Ht%Z.leb_gt Hc%Z.leb_gt].
  split; cbn; [done|done|]. rewrite map_size_empty. cbn. lia.
Qed.

Lemma cache_delete_wf c hash : cache_wf c -> cache_wf (cache_delete c hash).
Proof. intros [Ht Hc Hs]. split; [done|done|].
  cbn [cache_delete with_entries kc_entries kc_capacity]. rewrite map_size_delete. unfold id. destruct (kc_entries c !! hash); lia.
Qed.

Lemma cache_get_wf c hash now : cache_wf c -> cache_wf (cache_get c hash now).1.
Proof.
  intros Hw. unfold cache_get. destruct (kc_entries c !! hash); [|done]. destruct (After _ _); [|done]. by apply cache_delete_wf.
Qed.

Section CacheProps.
Context `{MapOrder}.

Lemma evicted_room c hash : cache_wf c ->
  Z.of_nat (size (<[hash := {| ce_key := plain_key "" "" ∅; ce_expires := 0 |}]> (evicted c hash))) <= kc_capacity c.
Proof.
  intros [Ht Hc Hs]. unfold evicted. destruct (kc_entries c !! hash) eqn:Eh.
  { rewrite map_size_insert_Some by by eexists. done. }
  destruct (Z.leb_spec (kc_capacity c) (Z.of_nat (size (kc_entries c)))).
  - pose proof (first_key_spec (kc_entries c)) as Hf. destruct (first_key (kc_entries c)) as [ek|].
    + destruct Hf as [e He]. rewrite map_size_insert_None; [|by apply lookup_delete_None; right].
      rewrite map_size_delete_Some by by eexists. lia.
    + rewrite Hf, map_size_empty in *. cbn in *. lia.
  - rewrite map_size_insert_None by done. lia.
Qed.

Lemma cache_put_wf c hash k keyExpiry now : cache_wf c -> cache_wf (cache_put c hash k keyExpiry now).
Proof.
  intros Hw. pose proof (evicted_room c hash Hw) as Hr. destruct Hw. split; [done|done|]. cbn in *.
  destruct (evicted c hash !! hash) eqn:E.
  - by rewrite map_size_insert_Some in Hr |- * by by eexists.
  - by rewrite map_size_insert_None in Hr |- * by done.
Qed.

Lemma evicted_lookup c hash h e : evicted c hash !! h = Some e -> kc_entries c !! h = Some e.
Proof.
  unfold evicted. destruct (kc_entries c !! hash); [done|]. destruct (_ <=? _); [|done].
  destruct (first_key _); [|done]. by intros [_ ?]%lookup_delete_Some.
Qed.

(** An entry after a put is the new one or one from before. *)
Lemma cache_put_lookup c hash k keyExpiry now h e :
  kc_entries (cache_put c hash k keyExpiry now) !! h = Some e ->
  h = hash /\ e = {| ce_key := k; ce_expires := entry_expiry c keyExpiry now |} \/ kc_entries c !! h = Some e.
Proof. cbn. intros [[<- <-]|[_ He]]%lookup_insert_Some; [by left|right]. by eapply evicted_lookup. Qed.
End CacheProps.

Lemma entry_expiry_ttl c keyExpiry now : entry_expiry c keyExpiry now <= now + kc_ttl c.
Proof. unfold entry_expiry, Before. destruct (_ && _) eqn:E; [|lia]. apply andb_true_iff in E as [_ E%Z.ltb_lt]. lia. Qed.

Lemma entry_expiry_key c keyExpiry now : IsZero keyExpiry = false -> entry_expiry c keyExpiry now <= keyExpiry.
Proof. unfold entry_expiry, Before. intros ->. cbn [negb andb]. destruct (Z.ltb_spec keyExpiry (now + kc_ttl c)); lia. Qed.

Lemma cache_get_hit c hash now k c' : cache_get c hash now = (c', Some k) ->
  c' = c /\ exists e, kc_entries c !! hash = Some e /\ k = ce_key e /\ now <= ce_expires e.
Proof.
  unfold cache_get. destruct (kc_entries c !! hash) as [e|] eqn:Eh; [|done]. unfold After.
  destruct (Z.ltb_spec (ce_expires e) now); [done|]. intros [= <- <-]. split; [done|]. by exists e.
Qed.

(** C34: however a cache is used, it never holds more entries than its capacity, and an entry
    it adds is good for at most its time to live and never past the key's own expiry. *)
Theorem cache_stays_bounded `{MapOrder} ttl capacity c (ops : list (string * (Key * time * time) + string + string * time)) :
  newKeyCache ttl capacity = Some c ->
  let run c op := match op with
                  | inl (inl (hash, (k, keyExpiry, now))) => cache_put c hash k keyExpiry now
                  | inl (inr hash) => cache_delete c hash
                  | inr (hash, now) => (cache_get c hash now).1
                  end in
  Z.of_nat (size (kc_entries (foldl run c ops))) <= capacity /\
  (forall hash k keyExpiry now e, kc_entries (run (foldl run c ops) (inl (inl (hash, (k, keyExpiry, now))))) !! hash = Some e ->
     ce_key e = k /\ ce_expires e <= now + ttl /\ (IsZero keyExpiry = false -> ce_expires e <= keyExpiry)).
Proof.
  intros Hn run. assert (kc_ttl c = ttl /\ kc_capacity c = capacity) as [Ht Hc].
  { unfold newKeyCache in Hn. destruct (_ || _); [done|]. by injection Hn as <-. }
  assert (forall c, cache_wf c -> kc_ttl c = ttl -> kc_capacity c = capacity ->
            let c' := foldl run c ops in cache_wf c' /\ kc_ttl c' = ttl /\ kc_capacity c' = capacity) as Hrun.
  { clear. induction ops as [|op ops IH]; intros c Hw Ht Hc; [done|]. cbn [foldl]. apply IH.
    - destruct op as [[[hash [[k keyExpiry] now]]|hash]|[hash now]]; cbn; [by apply cache_put_wf|by apply cache_delete_wf|by apply cache_get_wf].
    - destruct op as [[[hash [[k keyExpiry] now]]|hash]|[hash now]]; cbn; [done|done|]. unfold cache_get. by repeat case_match.
    - destruct op as [[[hash [[k keyExpiry] now]]|hash]|[hash now]]; cbn; [done|done|]. unfold cache_get. by repeat case_match. }
  destruct (Hrun c (newKeyCache_wf _ _ _ Hn) Ht Hc) as ([_ _ Hs] & Ht' & Hc'). split; [by rewrite <- Hc'|].
  intros hash k keyExpiry now e. cbn. rewrite lookup_insert_eq. intros [= <-]. cbn. split_and!; [done| |].
  - rewrite <- Ht'. apply entry_expiry_ttl.
  - apply entry_expiry_key.
Qed.

(** ** The table keeps the interface's laws *)

Lemma find_update_other (f : PersistedKey -> PersistedKey) h h' rows :
  (forall r, pk_TokenHash (f r) = pk_TokenHash r) -> h' <> h ->
  List.find (has_hash h') (update_where (has_hash h) f rows) = List.find (has_hash h') rows.
Proof.
  intros Hf Hh. induction rows as [|r rows IH]; [done|]. cbn [update_where map List.find]. fold (update_where (has_hash h) f rows).
  destruct (has_hash h r) eqn:E.
  - unfold has_hash in *. apply String.eqb_eq in E. rewrite Hf, E. by rewrite (proj2 (String.eqb_neq h h')), IH by congruence.
  - by rewrite IH.
Qed.

Lemma find_update_same (f : PersistedKey -> PersistedKey) h rows :
  (forall r, pk_TokenHash (f r) = pk_TokenHash r) ->
  List.find (has_hash h) (update_where (has_hash h) f rows) = f <$> List.find (has_hash h) rows.
Proof.
  intros Hf. induction rows as [|r rows IH]; [done|]. cbn [update_where map List.find]. fold (update_where (has_hash h) f rows).
  destruct (has_hash h r) eqn:E; [|by rewrite E].
  unfold has_hash in *. by rewrite Hf, E.
Qed.

Lemma find_app h rows r : List.find (has_hash h) (rows ++ [r]) =
  match List.find (has_hash h) rows with Some x => Some x | None => if has_hash h r then Some r else None end.
Proof. induction rows as [|x rows IH]; cbn; [done|]. by destruct (has_hash h x). Qed.

Lemma find_exists h rows : existsb (has_hash h) rows = true <-> exists r, List.find (has_hash h) rows = Some r.
Proof.
  induction rows as [|x rows IH]; cbn; [split; [done|by intros []]|]. destruct (has_hash h x); cbn; [|done].
  split; [by eexists|done].
Qed.

Lemma find_delete h h' rows :
  List.find (has_hash h') (delete_where (has_hash h) rows) = if decide (h' = h) then None else List.find (has_hash h') rows.
Proof.
  induction rows as [|x rows IH]; [by destruct (decide _)|]. cbn [delete_where List.filter List.find].
  fold (delete_where (has_hash h) rows). destruct (has_hash h x) eqn:E; cbn [negb].
  - rewrite IH. destruct (decide (h' = h)); [done|]. unfold has_hash in *. apply String.eqb_eq in E.
    by rewrite E, (proj2 (String.eqb_neq h h')) by congruence.
  - cbn [List.find]. rewrite IH. destruct (decide (h' = h)) as [->|]; [by rewrite E|done].
Qed.

#[export] Instance ApiKeys_laws : KeyStoreLaws ApiKeys.
Proof.
  split.
  - cbn. unfold sql_PutAPIKey, sql_GetAPIKeyByHash. intros t now k t'. destruct (ak_down t) eqn:Ed; [done|].
    destruct (existsb _ _) eqn:Ee; intros [= <-]; cbn [with_rows ak_down ak_rows]; rewrite Ed.
    + apply find_exists in Ee as [r Hr]. rewrite find_update_same, Hr by done. by eexists.
    + rewrite find_app. destruct (List.find _ (ak_rows t)) eqn:Ef.
      { exfalso. rewrite (proj2 (find_exists _ _)) in Ee by by eexists. done. }
      unfold has_hash at 1. cbn [pk_TokenHash]. rewrite streqb_refl. by eexists.
  - cbn. unfold sql_PutAPIKey, sql_GetAPIKeyByHash. intros t now k t' e h. destruct (ak_down t) eqn:Ed; [intros [= <- <-]; by rewrite Ed|].
    destruct (existsb _ _) eqn:Ee; intros [= <- <-] Hh; cbn [with_rows ak_down ak_rows]; rewrite Ed; f_equal.
    + by rewrite find_update_other.
    + rewrite find_app. destruct (List.find _ _); [done|]. unfold has_hash. cbn [pk_TokenHash]. by rewrite (proj2 (String.eqb_neq _ h)) by congruence.
  - cbn. unfold sql_DeleteAPIKeyByHash, sql_GetAPIKeyByHash. intros t h t' b. destruct (ak_down t) eqn:Ed; [done|]. intros [= <- <-].
    cbn [with_rows ak_down ak_rows]. rewrite Ed, find_delete, decide_True by done. split; [done|].
    rewrite find_exists. split; intros [r Hr]; exists r; [by rewrite Hr|by injection Hr].
  - cbn. unfold sql_DeleteAPIKeyByHash, sql_GetAPIKeyByHash. intros t h t' b h'. destruct (ak_down t) eqn:Ed; [intros [= <- <-]; by rewrite Ed|].
    intros [= <- <-] Hh. cbn [with_rows ak_down ak_rows]. by rewrite Ed, find_delete, decide_False.
  - cbn. unfold sql_DeleteAPIKeyByHash. intros t h t' e. destruct (ak_down t); [by intros [= <- <-]|done].
  - cbn. unfold sql_TouchAPIKey, sql_GetAPIKeyByHash. intros t h when t' e h'. destruct (ak_down t) eqn:Ed.
    + intros [= <- <-]. by rewrite Ed.
    + intros [= <- <-]. cbn [with_rows ak_down ak_rows]. rewrite Ed. destruct (decide (h' = h)) as [->|Hh].
      * rewrite find_update_same by done. by destruct (List.find _ _).
      * rewrite find_update_other by done. by destruct (List.find _ _).
Qed.

(** ** A call at a time *)

Section Calls.
Context {S : Type} `{KeyStoreLaws S, MapOrder, SHA2, CaseTables}.
Implicit Types r : Registry S.

(** What the store grants for a hash at a time. *)
Definition store_grants (store : S) (hash : string) (now : time) (tenant scopes : string) (expiry : time) : Prop :=
  exists pk, GetAPIKeyByHash store hash = Ok (Some pk) /\ pk_TenantID pk = tenant /\ pk_Scopes pk = scopes /\
    (if (pk_ExpiresAt pk =s "") then expiry = 0 else ParseRFC3339 (pk_ExpiresAt pk) = Some expiry /\ now <= expiry).

Lemma fetch_Some store hash token now store' k expiry :
  fetch store hash token now = (store', Some (k, expiry)) ->
  exists tenant scopes, store_grants store hash now tenant scopes expiry /\ k = plain_key token tenant (parseScopeString scopes) /\
    store' = (TouchAPIKey store hash (FormatRFC3339Nano now)).1.
Proof.
  unfold fetch, store_grants. destruct (GetAPIKeyByHash store hash) as [[pk|]|e] eqn:Eg; [|done|done].
  destruct (pk_ExpiresAt pk =s "") eqn:Ee.
  - intros [= <- <- <-]. exists (pk_TenantID pk), (pk_Scopes pk). split_and!; [|done|done]. exists pk. by rewrite Ee.
  - destruct (ParseRFC3339 _) as [exp|] eqn:Ep; [|done]. unfold After. destruct (Z.ltb_spec exp now); [done|].
    intros [= <- <- <-]. exists (pk_TenantID pk), (pk_Scopes pk). split_and!; [|done|done]. exists pk. by rewrite Ee.
Qed.

Lemma fetch_granted store hash token now tenant scopes expiry :
  store_grants store hash now tenant scopes expiry ->
  fetch store hash token now =
    ((TouchAPIKey store hash (FormatRFC3339Nano now)).1, Some (plain_key token tenant (parseScopeString scopes), expiry)).
Proof.
  intros (pk & Hg & <- & <- & He). unfold fetch. rewrite Hg. destruct (pk_ExpiresAt pk =s ""); [by rewrite He|].
  destruct He as [-> He]. unfold After. by rewrite (proj2 (Z.ltb_ge _ _)).
Qed.

Lemma fetch_None store hash token now : GetAPIKeyByHash store hash = Ok None -> fetch store hash token now = (store, None).
Proof. unfold fetch. by intros ->. Qed.

(** A fetch changes no grant. *)
Lemma fetch_keeps store hash token now h :
  same_grant (GetAPIKeyByHash (fetch store hash token now).1 h) (GetAPIKeyByHash store h).
Proof.
  assert (forall g : result (option PersistedKey), same_grant g g) as Hr by (by intros [[]|]).
  unfold fetch. destruct (GetAPIKeyByHash store hash) as [[pk|]|e]; [|done|done].
  assert (same_grant (GetAPIKeyByHash (TouchAPIKey store hash (FormatRFC3339Nano now)).1 h) (GetAPIKeyByHash store h)).
  { destruct (TouchAPIKey _ _ _) as [s e] eqn:Et. by eapply touch_grant. }
  destruct (pk_ExpiresAt pk =s ""); [done|]. destruct (ParseRFC3339 _); [|done]. by destruct (After now t).
Qed.

Definition cached (r : Registry S) (hash : string) : option keyCacheEntry :=
  match rg_keyCache r with Some c => kc_entries c !! hash | None => None end.

Lemma probe_hit r hash now r' k : probe r hash now = (r', Some k) ->
  exists e, cached r hash = Some e /\ k = ce_key e /\ now <= ce_expires e.
Proof.
  unfold probe, cached. destruct (rg_keyCache r) as [c|]; [|done]. destruct (cache_get c hash now) as [c' hit] eqn:Eg.
  intros [= <- ->]. by apply cache_get_hit in Eg as [_ ?].
Qed.

Lemma probe_miss r hash now : cached r hash = None -> (probe r hash now).2 = None.
Proof. unfold probe, cached. destruct (rg_keyCache r) as [c|]; [|done]. unfold cache_get. by intros ->. Qed.

(** A key that Lookup returns was configured, cached and not yet expired, granted by
    the store and not expired, or vouched for by the token's own signature. *)
Theorem lookup_is_authorized r token now k :
  (Lookup r token now).2 = Some k ->
  rg_keys r !! token = Some k \/
  (exists e, cached r (HashToken token) = Some e /\ k = ce_key e /\ now <= ce_expires e) \/
  (exists store tenant scopes expiry, rg_store r = Some store /\ store_grants store (HashToken token) now tenant scopes expiry /\
     k = plain_key token tenant (parseScopeString scopes)) \/
  jwt_Verify (rg_jwt r) (Unix now) token = Ok k \/
  (exists v, rg_snaplink r = Some v /\ snaplink_Verify v token = Ok k).
Proof.
  unfold Lookup. destruct (rg_keys r !! token) as [k0|]; [intros [= ->]; by left|]. intros Hl. right. revert Hl.
  assert (forall r1, rg_jwt r1 = rg_jwt r -> rg_snaplink r1 = rg_snaplink r ->
    match lookupJWT r1 token now with Some k => Some k | None => lookupSnaplink r1 token end = Some k ->
    jwt_Verify (rg_jwt r) (Unix now) token = Ok k \/ exists v, rg_snaplink r = Some v /\ snaplink_Verify v token = Ok k) as Hsig.
  { intros r1 Hj Hs. unfold lookupJWT, lookupSnaplink. rewrite Hj, Hs. destruct (rg_jwt r) as [j|].
    - destruct (jwt_Verify _ _ _) eqn:E; [intros [= ->]; by left|]. destruct (rg_snaplink r) as [v|]; [|done].
      destruct (snaplink_Verify v token) eqn:Ev; [|done]. intros [= ->]. right. by exists v.
    - destruct (rg_snaplink r) as [v|]; [|done]. destruct (snaplink_Verify v token) eqn:Ev; [|done]. intros [= ->]. right. by exists v. }
  destruct (rg_store r) as [store|] eqn:Es; [|cbn; intros Hk; right; right; by apply (Hsig r)].
  unfold lookupStore. destruct (probe r (HashToken token) now) as [r1 [k1|]] eqn:Ep.
  - cbn. intros [= ->]. left. by eapply probe_hit.
  - assert (rg_jwt r1 = rg_jwt r /\ rg_snaplink r1 = rg_snaplink r) as [Hj Hs].
    { unfold probe in Ep. destruct (rg_keyCache r); [|by injection Ep as <-]. destruct (cache_get _ _ _). by injection Ep as <- _. }
    destruct (fetch store (HashToken token) token now) as [store' [[k1 expiry]|]] eqn:Ef; cbn [snd].
    + intros [= ->]. right. left. apply fetch_Some in Ef as (tenant & scopes & Hg & -> & _). by exists store, tenant, scopes, expiry.
    + intros Hk. right. right. by apply (Hsig (WithStore r1 store')).
Qed.

Lemma Lookup_store r store token now : rg_keys r !! token = None -> rg_store r = Some store ->
  (Lookup r token now).2 = match (lookupStore r store (HashToken token) token now).2 with
                           | Some k => Some k
                           | None => match lookupJWT r token now with Some k => Some k | None => lookupSnaplink r token end
                           end.
Proof.
  intros Hk Hs. unfold Lookup. rewrite Hk, Hs. unfold lookupStore.
  destruct (probe r (HashToken token) now) as [r1 [k1|]] eqn:Ep; [done|].
  assert (rg_jwt r1 = rg_jwt r /\ rg_snaplink r1 = rg_snaplink r) as [Hj Hsl].
  { unfold probe in Ep. destruct (rg_keyCache r); [|by injection Ep as <-]. destruct (cache_get _ _ _). by injection Ep as <- _. }
  destruct (fetch _ _ _ _) as [store' [[k1 expiry]|]]; [done|]. cbn [snd]. unfold lookupJWT, lookupSnaplink. cbn [WithStore rg_jwt rg_snaplink].
  by rewrite Hj, Hsl.
Qed.

Lemma cached_invalidate r hash h : cached (InvalidateCachedKey r hash) h = if decide (h = hash) then None else cached r h.
Proof.
  unfold cached, InvalidateCachedKey. destruct (rg_keyCache r) as [c|] eqn:Ec; cbn; [|rewrite Ec; by destruct (decide _)].
  destruct (decide (h = hash)) as [->|]; [by rewrite lookup_delete_eq|by rewrite lookup_delete_ne].
Qed.

Lemma invalidate_fields r hash :
  rg_keys (InvalidateCachedKey r hash) = rg_keys r /\ rg_store (InvalidateCachedKey r hash) = rg_store r /\
  rg_jwt (InvalidateCachedKey r hash) = rg_jwt r /\ rg_snaplink (InvalidateCachedKey r hash) = rg_snaplink r.
Proof. unfold InvalidateCachedKey. by destruct (rg_keyCache r). Qed.

Lemma lookupStore_miss r store hash token now : cached r hash = None ->
  (lookupStore r store hash token now).2 = fst <$> (fetch store hash token now).2.
Proof.
  intros Hc. unfold lookupStore. pose proof (probe_miss r hash now Hc) as Hp. destruct (probe r hash now) as [r1 hit]. cbn in Hp. subst hit.
  by destruct (fetch store hash token now) as [s' [[k e]|]].
Qed.

(** A key that was added is found with its scopes and its tenant, until it expires: by
    every replica when there is a store, where an empty tenant is the default one. *)
Theorem AddKey_then_Lookup r k expiresAt label now r' hashes now' :
  AddKey r k expiresAt label now = (r', hashes, None) -> plain_scopes (k_Scopes k) ->
  (is_Some (rg_store r) -> rg_keys r !! k_Token k = None) ->
  (expiresAt = ""%string \/ exists t, ParseRFC3339 expiresAt = Some t /\ now' <= t) ->
  exists k', (Lookup r' (k_Token k) now').2 = Some k' /\ k_Scopes k' = k_Scopes k /\
    k_Tenant k' = match rg_store r with None => k_Tenant k | Some _ => defaultTenant (k_Tenant k) end.
Proof.
  intros Ha Hsc Hn Hx. unfold AddKey in Ha. destruct (rg_store r) as [store|] eqn:Es.
  - destruct (PutAPIKey _ _ _) as [store' [e|]] eqn:Ep in Ha; [done|]. injection Ha as <- _.
    pose proof Ep as (pk & Hg & Ht & Hs & He)%put_get. cbn [pk_TokenHash pk_TenantID pk_Scopes pk_ExpiresAt] in *.
    destruct (invalidate_fields r (HashToken (k_Token k))) as (Hk & _ & _ & _).
    set (r1 := WithStore (InvalidateCachedKey r (HashToken (k_Token k))) store').
    assert (cached r1 (HashToken (k_Token k)) = None) as Hc.
    { change (cached (InvalidateCachedKey r (HashToken (k_Token k))) (HashToken (k_Token k)) = None). by rewrite cached_invalidate, decide_True. }
    rewrite (Lookup_store r1 store'); [|cbn; rewrite Hk; by apply Hn|done]. rewrite lookupStore_miss by done.
    destruct Hx as [->|(t & Hpt & Hle)].
    + erewrite fetch_granted; [|exists pk; rewrite Hs, He; by split_and!]. eexists. split; [done|].
      cbn [fst plain_key k_Scopes k_Tenant]. by rewrite ?Hs, scopes_round_trip, ?Ht.
    + assert (expiresAt <> ""%string) as Hne by by intros ->.
      erewrite fetch_granted; [|exists pk; rewrite Hs, He, (proj2 (String.eqb_neq _ _)) by done; by split_and!].
      eexists. split; [done|]. cbn [fst plain_key k_Scopes k_Tenant]. by rewrite ?Hs, scopes_round_trip, ?Ht.
  - injection Ha as <- _. unfold Lookup. cbn [with_keys rg_keys]. rewrite lookup_insert_eq. by eexists.
Qed.

Lemma forget_fields r token :
  rg_keys (forget r token) = delete token (rg_keys r) /\ rg_store (forget r token) = rg_store r /\
  rg_jwt (forget r token) = rg_jwt r /\ rg_snaplink (forget r token) = rg_snaplink r.
Proof. unfold forget. destruct (invalidate_fields (with_keys r (delete token (rg_keys r)) (rg_enabled r)) (HashToken token)) as (-> & -> & -> & ->). done. Qed.

Lemma cached_forget r token h : cached (forget r token) h = if decide (h = HashToken token) then None else cached r h.
Proof. unfold forget. by rewrite cached_invalidate. Qed.

Lemma lookupStore_snd r store hash token now : (lookupStore r store hash token now).2 =
  match (probe r hash now).2 with Some k => Some k | None => fst <$> (fetch store hash token now).2 end.
Proof.
  unfold lookupStore. destruct (probe r hash now) as [? [?|]]; [done|]. by destruct (fetch store hash token now) as [? [[? ?]|]].
Qed.

Lemma probe_snd r hash now : (probe r hash now).2 =
  match cached r hash with Some e => if After now (ce_expires e) then None else Some (ce_key e) | None => None end.
Proof.
  unfold probe, cached. destruct (rg_keyCache r) as [c|]; [|done]. unfold cache_get.
  destruct (kc_entries c !! hash) as [e|]; [|done]. by destruct (After now (ce_expires e)).
Qed.

Lemma fetch_snd store store' hash token now : GetAPIKeyByHash store hash = GetAPIKeyByHash store' hash ->
  fst <$> (fetch store' hash token now).2 = fst <$> (fetch store hash token now).2.
Proof.
  intros Hg. unfold fetch. rewrite Hg. destruct (GetAPIKeyByHash store' hash) as [[pk|]|]; [|done|done].
  destruct (pk_ExpiresAt pk =s ""); [done|]. destruct (ParseRFC3339 _); [|done]. by destruct (After now t).
Qed.

(** After a revocation the token is good only if it carries a signature that still
    verifies, the answer says whether a key was there, and no other token with another hash
    is affected. *)
Theorem RevokeKey_then_Lookup r token r' hashes b now :
  RevokeKey r token = (r', hashes, Ok b) ->
  (Lookup r' token now).2 = match lookupJWT r token now with Some k => Some k | None => lookupSnaplink r token end /\
  (b = true <-> is_Some (rg_keys r !! token) \/
     exists store pk, rg_store r = Some store /\ GetAPIKeyByHash store (HashToken token) = Ok (Some pk)) /\
  (forall token', token' <> token -> HashToken token' <> HashToken token ->
     (Lookup r' token' now).2 = (Lookup r token' now).2).
Proof.
  intros Hr. unfold RevokeKey in Hr. destruct (forget_fields r token) as (Hk & Hs & Hj & Hsl). rewrite Hs in Hr.
  destruct (rg_store r) as [store|] eqn:Es.
  - destruct (DeleteAPIKeyByHash _ _) as [store' [deleted|e]] eqn:Ed; [|done]. injection Hr as <- _ <-.
    pose proof Ed as [Hg Hd]%delete_get. split_and!.
    + rewrite (Lookup_store _ store'); [|cbn; rewrite Hk; apply lookup_delete_eq|done]. rewrite lookupStore_miss.
      * rewrite fetch_None by done. cbn. unfold lookupJWT, lookupSnaplink. cbn [WithStore rg_jwt rg_snaplink]. by rewrite Hj, Hsl.
      * change (cached (forget r token) (HashToken token) = None). by rewrite cached_forget, decide_True.
    + rewrite orb_true_iff, bool_decide_eq_true, Hd. split; (intros [?|Hx]; [by left|right]).
      * destruct Hx as [pk ?]. by exists store, pk.
      * destruct Hx as (store0 & pk & [= <-] & ?). by exists pk.
    + intros token' Hne Hh. destruct (rg_keys r !! token') as [k|] eqn:Ek.
      { unfold Lookup. cbn [WithStore rg_keys]. rewrite Hk, lookup_delete_ne, Ek by done. done. }
      rewrite (Lookup_store _ store'), (Lookup_store r store) by (cbn; rewrite ?Hk, ?lookup_delete_ne by done; done).
      assert ((lookupStore (WithStore (forget r token) store') store' (HashToken token') token' now).2 =
              (lookupStore r store (HashToken token') token' now).2) as ->;
        [|unfold lookupJWT, lookupSnaplink; cbn [WithStore rg_jwt rg_snaplink]; by rewrite Hj, Hsl].
      rewrite !lookupStore_snd, !probe_snd, (fetch_snd store store') by (symmetry; by eapply delete_other).
      change (cached (WithStore (forget r token) store') (HashToken token')) with (cached (forget r token) (HashToken token')).
      by rewrite cached_forget, decide_False.
  - injection Hr as <- _ <-. unfold Lookup. rewrite Hk, Hs, Es, lookup_delete_eq. cbn. split_and!.
    + unfold lookupJWT, lookupSnaplink. by rewrite Hj, Hsl.
    + rewrite bool_decide_eq_true. split; [by left|]. intros [?|(? & ? & ? & _)]; done.
    + intros token' Hne _. rewrite lookup_delete_ne by done. destruct (rg_keys r !! token'); [done|]. cbn.
      unfold lookupJWT, lookupSnaplink. by rewrite Hj, Hsl.
Qed.
End Calls.

(** ** Calls that overlap *)

Section Runs.
Context {S : Type} `{KeyStoreLaws S, MapOrder, SHA2, CaseTables}.
Implicit Types r : Registry S.

(** The registry, the store it shares with other replicas, the lookups that missed the cache
    and will ask the store (token, and the time they started at), those that will fill the
    cache, and the clock. *)
Record conf := {
  cf_r : Registry S; cf_store : S; cf_waiting : list (string * time); cf_filling : list (string * Key * time * time);
  cf_clock : time
}.

Definition at_clock (c : conf) (now : time) : conf :=
  {| cf_r := cf_r c; cf_store := cf_store c; cf_waiting := cf_waiting c; cf_filling := cf_filling c; cf_clock := now |}.

Inductive event := Pass (now : time) | Start (token : string) | Ask (token : string) (now : time)
  | Fill (token : string) (k : Key) (expiry now : time) | Invalidate (hash : string) | Put (k : PersistedKey)
  | Forget (token : string) | Delete (hash : string).

(** One step of one of the calls: a lookup is [Start], [Ask] and [Fill]; a revocation
    [Forget] and [Delete]; an addition [Invalidate] and [Put]; another replica's messages are
    [Invalidate], its own revocations and additions [Delete] and [Put]. *)
Inductive step : conf -> event -> conf -> Prop :=
| pass c now : cf_clock c <= now -> step c (Pass now) (at_clock c now)
| start_hit c token r k :
    probe (cf_r c) (HashToken token) (cf_clock c) = (r, Some k) ->
    step c (Start token) {| cf_r := r; cf_store := cf_store c; cf_waiting := cf_waiting c; cf_filling := cf_filling c; cf_clock := cf_clock c |}
| start_miss c token r :
    probe (cf_r c) (HashToken token) (cf_clock c) = (r, None) ->
    step c (Start token) {| cf_r := r; cf_store := cf_store c; cf_waiting := (token, cf_clock c) :: cf_waiting c;
                            cf_filling := cf_filling c; cf_clock := cf_clock c |}
| ask_found c token now store k expiry l1 l2 :
    cf_waiting c = l1 ++ (token, now) :: l2 -> fetch (cf_store c) (HashToken token) token now = (store, Some (k, expiry)) ->
    step c (Ask token now) {| cf_r := cf_r c; cf_store := store; cf_waiting := l1 ++ l2;
                              cf_filling := (token, k, expiry, now) :: cf_filling c; cf_clock := cf_clock c |}
| ask_none c token now store l1 l2 :
    cf_waiting c = l1 ++ (token, now) :: l2 -> fetch (cf_store c) (HashToken token) token now = (store, None) ->
    step c (Ask token now) {| cf_r := cf_r c; cf_store := store; cf_waiting := l1 ++ l2; cf_filling := cf_filling c; cf_clock := cf_clock c |}
| fill_step c token k expiry now l1 l2 :
    cf_filling c = l1 ++ (token, k, expiry, now) :: l2 ->
    step c (Fill token k expiry now)
      {| cf_r := fill_cache (cf_r c) (HashToken token) k expiry now; cf_store := cf_store c; cf_waiting := cf_waiting c;
         cf_filling := l1 ++ l2; cf_clock := cf_clock c |}
| invalidate c hash :
    step c (Invalidate hash) {| cf_r := InvalidateCachedKey (cf_r c) hash; cf_store := cf_store c; cf_waiting := cf_waiting c;
                                cf_filling := cf_filling c; cf_clock := cf_clock c |}
| put c k store err :
    PutAPIKey (cf_store c) (cf_clock c) k = (store, err) ->
    step c (Put k) {| cf_r := cf_r c; cf_store := store; cf_waiting := cf_waiting c; cf_filling := cf_filling c; cf_clock := cf_clock c |}
| forget_step c token :
    step c (Forget token) {| cf_r := forget (cf_r c) token; cf_store := cf_store c; cf_waiting := cf_waiting c;
                             cf_filling := cf_filling c; cf_clock := cf_clock c |}
| delete_step c hash store b :
    DeleteAPIKeyByHash (cf_store c) hash = (store, b) ->
    step c (Delete hash) {| cf_r := cf_r c; cf_store := store; cf_waiting := cf_waiting c; cf_filling := cf_filling c; cf_clock := cf_clock c |}.

Inductive run : conf -> list event -> conf -> Prop :=
| run_nil c : run c [] c
| run_cons c e c' es c'' : step c e c' -> run c' es c'' -> run c (e :: es) c''.

Definition ttl_of r : Z := match rg_keyCache r with Some c => kc_ttl c | None => 0 end.

(** Nothing in flight is from the future, and no cached entry outlives its time to live. *)
Record in_time (c : conf) : Prop := {
  it_waiting : Forall (fun w => w.2 <= cf_clock c) (cf_waiting c);
  it_filling : Forall (fun f => f.2 <= cf_clock c) (cf_filling c);
  it_cached : forall hash e, cached (cf_r c) hash = Some e -> ce_expires e <= cf_clock c + ttl_of (cf_r c)
}.

Lemma cached_probe r hash now h e : cached (probe r hash now).1 h = Some e -> cached r h = Some e.
Proof.
  unfold probe, cached. destruct (rg_keyCache r) as [c|] eqn:Ec; [|by cbn; rewrite Ec]. unfold cache_get.
  destruct (kc_entries c !! hash) as [x|]; cbn; [|done]. destruct (After now (ce_expires x)); cbn; [|done]. by intros [_ ?]%lookup_delete_Some.
Qed.

Lemma ttl_probe r hash now : ttl_of (probe r hash now).1 = ttl_of r.
Proof.
  unfold probe, ttl_of. destruct (rg_keyCache r) as [c|] eqn:Ec; [|by cbn; rewrite Ec]. unfold cache_get.
  destruct (kc_entries c !! hash) as [x|]; cbn; [|done]. by destruct (After now (ce_expires x)).
Qed.

Lemma cached_fill r hash k expiry now h e : cached (fill_cache r hash k expiry now) h = Some e ->
  cached r h = Some e \/ h = hash /\ ce_expires e <= now + ttl_of r.
Proof.
  unfold fill_cache, cached, ttl_of. destruct (rg_keyCache r) as [c|] eqn:Ec; cbn [with_cache rg_keyCache]; [|rewrite Ec; by left].
  intros [[-> ->]|?]%cache_put_lookup; [right|by left]. split; [done|]. apply entry_expiry_ttl.
Qed.

Lemma ttl_fill r hash k expiry now : ttl_of (fill_cache r hash k expiry now) = ttl_of r.
Proof. unfold fill_cache, ttl_of. by destruct (rg_keyCache r) eqn:E; cbn; rewrite ?E. Qed.

Lemma ttl_invalidate r hash : ttl_of (InvalidateCachedKey r hash) = ttl_of r.
Proof. unfold InvalidateCachedKey, ttl_of. by destruct (rg_keyCache r) eqn:E; cbn; rewrite ?E. Qed.

Lemma cached_invalidate_Some r hash h e : cached (InvalidateCachedKey r hash) h = Some e -> cached r h = Some e.
Proof. rewrite cached_invalidate. by destruct (decide _). Qed.

(** What a step does to the cache, in one place. *)
Lemma step_cache c e c' : step c e c' ->
  ttl_of (cf_r c') = ttl_of (cf_r c) /\
  (forall h x, cached (cf_r c') h = Some x -> cached (cf_r c) h = Some x \/
     exists token k expiry now, (token, k, expiry, now) ∈ cf_filling c /\ h = HashToken token /\ ce_expires x <= now + ttl_of (cf_r c)).
Proof.
  intros Hs. destruct Hs; cbn [cf_r at_clock].
  1, 4, 5, 8, 10: by split; [|left].
  1, 2: (pose proof (ttl_probe (cf_r c) (HashToken token) (cf_clock c)) as Ht; pose proof (cached_probe (cf_r c) (HashToken token) (cf_clock c)) as Hc;
         match goal with Hp : probe _ _ _ = _ |- _ => rewrite Hp in Ht, Hc end; split; [done|]; intros h x Hx; left; by apply Hc).
  - split; [apply ttl_fill|]. intros h x [?|[-> Hx]]%cached_fill; [by left|right]. exists token, k, expiry, now. split_and!; [|done|done].
    match goal with Hf : cf_filling c = _ |- _ => rewrite Hf end. apply elem_of_app. right. by left.
  - split; [apply ttl_invalidate|]. intros h x ?%cached_invalidate_Some. by left.
  - unfold forget. split; [by rewrite ttl_invalidate|]. intros h x ?%cached_invalidate_Some. by left.
Qed.

Lemma Forall_mid {A} (P : A -> Prop) l1 x l2 : Forall P (l1 ++ x :: l2) -> P x /\ Forall P (l1 ++ l2).
Proof. rewrite !list.Forall_app, list.Forall_cons. tauto. Qed.

(** What a step does to the lookups in flight, for a property of the time they started. *)
Lemma step_flight (P : string -> time -> Prop) (Q : string -> time -> Prop) c e c' :
  step c e c' -> (forall token, P token (cf_clock c)) ->
  (forall token now k expiry store, P token now -> fetch (cf_store c) (HashToken token) token now = (store, Some (k, expiry)) -> Q token now) ->
  Forall (fun w => P w.1 w.2) (cf_waiting c) -> Forall (fun f => Q f.1.1.1 f.2) (cf_filling c) ->
  Forall (fun w => P w.1 w.2) (cf_waiting c') /\ Forall (fun f => Q f.1.1.1 f.2) (cf_filling c').
Proof.
  intros Hs Hnow Hq Hw Hf. destruct Hs; cbn [cf_waiting cf_filling at_clock]; try done.
  - split; [by constructor|done].
  - match goal with He : cf_waiting c = _ |- _ => rewrite He in Hw end. apply Forall_mid in Hw as [Hx Hw]. split; [done|].
    constructor; [by eapply Hq|done].
  - match goal with He : cf_waiting c = _ |- _ => rewrite He in Hw end. by apply Forall_mid in Hw as [_ Hw].
  - match goal with He : cf_filling c = _ |- _ => rewrite He in Hf end. by apply Forall_mid in Hf as [_ Hf].
Qed.

Lemma step_clock c e c' : step c e c' -> cf_clock c <= cf_clock c'.
Proof. by intros []; cbn. Qed.

Lemma step_in_time c e c' : step c e c' -> in_time c -> in_time c'.
Proof.
  intros Hs [Hw Hf Hc]. pose proof (step_clock _ _ _ Hs) as Hle. pose proof (step_cache _ _ _ Hs) as [Ht Hcache].
  assert (Forall (fun w : string * time => w.2 <= cf_clock c) (cf_waiting c') /\ Forall (fun f : string * Key * time * time => f.2 <= cf_clock c) (cf_filling c')) as [Hw' Hf'].
  { eapply (step_flight (fun _ t => t <= cf_clock c) (fun _ t => t <= cf_clock c)); [exact Hs|lia|done|done|done]. }
  split.
  - eapply list.Forall_impl; [exact Hw'|]. intros x Hx. exact (Z.le_trans _ _ _ Hx Hle).
  - eapply list.Forall_impl; [exact Hf'|]. intros x Hx. exact (Z.le_trans _ _ _ Hx Hle).
  - intros h x [Hx|(token & k & expiry & now & Hin & -> & Hx)]%Hcache; rewrite Ht.
    + specialize (Hc _ _ Hx). lia.
    + rewrite list.Forall_forall in Hf. specialize (Hf _ Hin). cbn in Hf. lia.
Qed.

(** From a deletion at time T on: the store does not know the hash, and nothing in flight
    or cached for it is younger than T. *)
Record gone (hash : string) (T : time) (c : conf) : Prop := {
  gn_store : GetAPIKeyByHash (cf_store c) hash = Ok None;
  gn_filling : Forall (fun f => HashToken f.1.1.1 = hash -> f.2 <= T) (cf_filling c);
  gn_cached : forall e, cached (cf_r c) hash = Some e -> ce_expires e <= T + ttl_of (cf_r c)
}.

Definition puts_hash (hash : string) (e : event) : bool := match e with Put k => pk_TokenHash k =s hash | _ => false end.

Lemma same_grant_None (a : result (option PersistedKey)) : same_grant a (Ok None) -> a = Ok None.
Proof. by destruct a as [[]|]. Qed.

Lemma step_gone hash T c e c' : step c e c' -> puts_hash hash e = false -> gone hash T c -> gone hash T c'.
Proof.
  intros Hs Hp [Hg Hf Hc]. pose proof (step_cache _ _ _ Hs) as [Ht Hcache]. split.
  - destruct Hs; cbn [cf_store at_clock]; try done.
    1, 2: (pose proof (fetch_keeps (cf_store c) (HashToken token) token now hash) as Hk;
           match goal with Hx : fetch _ _ _ _ = _ |- _ => rewrite Hx in Hk end; rewrite Hg in Hk; by apply same_grant_None in Hk).
    + cbn in Hp. apply String.eqb_neq in Hp. match goal with Hx : PutAPIKey _ _ _ = _ |- _ => apply put_other with (h := hash) in Hx; [by rewrite Hx|congruence] end.
    + destruct (decide (hash = hash0)) as [<-|Hne].
      * match goal with Hx : DeleteAPIKeyByHash _ _ = (_, ?b) |- _ => destruct b; [by apply delete_get in Hx as [? _]|apply delete_failed in Hx; by rewrite Hx] end.
      * match goal with Hx : DeleteAPIKeyByHash _ _ = _ |- _ => apply delete_other with (h' := hash) in Hx; [by rewrite Hx|done] end.
  - eapply (step_flight (fun _ _ => True) (fun token t => HashToken token = hash -> t <= T)); [exact Hs|done| |by apply list.Forall_forall|done].
    intros token now k expiry store _ Hfe <-. by rewrite fetch_None in Hfe.
  - rewrite Ht. intros x [Hx|(token & k & expiry & now & Hin & Hh & Hx)]%Hcache; [by apply Hc|].
    rewrite list.Forall_forall in Hf. specialize (Hf _ Hin (eq_sym Hh)). cbn in Hf. lia.
Qed.

Lemma run_gone hash T c es c' : run c es c' -> forallb (fun e => negb (puts_hash hash e)) es = true -> gone hash T c -> gone hash T c'.
Proof.
  induction 1 as [|c e c' es c'' Hs Hr IH]; [done|]. cbn. intros [He%negb_true_iff Hes]%andb_true_iff Hg. apply IH; [done|]. by eapply step_gone.
Qed.

Lemma run_in_time c es c' : run c es c' -> in_time c -> in_time c'.
Proof. induction 1; [done|]. intros ?. eauto using step_in_time. Qed.

Lemma run_ttl c es c' : run c es c' -> ttl_of (cf_r c') = ttl_of (cf_r c).
Proof. induction 1 as [|c e c' es c'' Hs Hr IH]; [done|]. by rewrite IH, (proj1 (step_cache _ _ _ Hs)). Qed.

(** A registry nobody has used yet. *)
Definition idle (r : Registry S) (store : S) (now : time) : conf :=
  {| cf_r := r; cf_store := store; cf_waiting := []; cf_filling := []; cf_clock := now |}.

(** C15: once the store has deleted a key and it is not added again, then however lookups,
    additions, revocations and messages interleave, no lookup that starts later than the
    deletion by more than the cache's time to live is answered by the cache or the store. *)
Theorem revocation_bounded_by_ttl r store now es c store' b es' c' token :
  rg_keyCache r = None \/ (exists ca, rg_keyCache r = Some ca /\ kc_entries ca = ∅) ->
  run (idle r store now) es c ->
  DeleteAPIKeyByHash (cf_store c) (HashToken token) = (store', Ok b) ->
  run {| cf_r := cf_r c; cf_store := store'; cf_waiting := cf_waiting c; cf_filling := cf_filling c; cf_clock := cf_clock c |} es' c' ->
  forallb (fun e => negb (puts_hash (HashToken token) e)) es' = true ->
  cf_clock c + ttl_of r < cf_clock c' ->
  (lookupStore (cf_r c') (cf_store c') (HashToken token) token (cf_clock c')).2 = None.
Proof.
  intros Hfresh Hrun Hd Hrun' Hes Hlate. assert (in_time (idle r store now)) as Hi.
  { split; cbn; [constructor|constructor|]. intros hash e. unfold cached. destruct Hfresh as [->|(ca & -> & ->)]; [done|by rewrite lookup_empty]. }
  pose proof (run_in_time _ _ _ Hrun Hi) as [_ Hf Hc].
  assert (gone (HashToken token) (cf_clock c) c') as [Hg _ Hc'].
  { eapply run_gone; [exact Hrun'|done|]. split; cbn.
    - by apply delete_get in Hd as [? _].
    - eapply list.Forall_impl; [exact Hf|]. intros f Hle _. exact Hle.
    - intros e He. by apply (Hc (HashToken token)). }
  rewrite lookupStore_snd, probe_snd, fetch_None by done. destruct (cached (cf_r c') (HashToken token)) as [e|]; [|done].
  specialize (Hc' e eq_refl). rewrite (run_ttl _ _ _ Hrun') in Hc'. cbn [cf_r] in Hc'.
  rewrite (run_ttl _ _ _ Hrun) in Hc'. cbn [idle cf_r] in Hc'. unfold After.
  by rewrite (proj2 (Z.ltb_lt _ _)) by lia.
Qed.

(** A lookup that read the store before the revocation fills the cache after it: the
    store no longer has the key, and the cache answers it until the entry expires. *)
Theorem revoked_key_recached r ca store token now tenant scopes expiry store1 store2 b :
  rg_keyCache r = Some ca -> kc_entries ca !! HashToken token = None ->
  store_grants store (HashToken token) now tenant scopes expiry ->
  store1 = (TouchAPIKey store (HashToken token) (FormatRFC3339Nano now)).1 ->
  DeleteAPIKeyByHash store1 (HashToken token) = (store2, Ok b) ->
  let k := plain_key token tenant (parseScopeString scopes) in
  exists c, run (idle r store now) [Start token; Ask token now; Forget token; Delete (HashToken token); Fill token k expiry now] c /\
    GetAPIKeyByHash (cf_store c) (HashToken token) = Ok None /\
    forall now', now' <= entry_expiry ca expiry now ->
      (lookupStore (cf_r c) (cf_store c) (HashToken token) token now').2 = Some k.
Proof.
  intros Hca Hmiss Hg -> Hd k. pose proof (fetch_granted store (HashToken token) token now tenant scopes expiry Hg) as Hf.
  assert (probe r (HashToken token) now = (with_cache r (Some ca), None)) as Hp by (unfold probe, cache_get; by rewrite Hca, Hmiss).
  eexists. split; [|split].
  - eapply run_cons; [by eapply start_miss|]. eapply run_cons; [eapply (ask_found _ _ _ _ _ _ [] []); [done|exact Hf]|].
    eapply run_cons; [apply forget_step|]. eapply run_cons; [by eapply delete_step|].
    eapply run_cons; [by eapply (fill_step _ _ _ _ _ [] [])|]. apply run_nil.
  - cbn. by apply delete_get in Hd as [? _].
  - intros now' Hle. rewrite lookupStore_snd, probe_snd. cbn. rewrite lookup_insert_eq. cbn. unfold After.
    by rewrite (proj2 (Z.ltb_ge _ _)) by done.
Qed.
End Runs.

(** ** Witnesses *)

Module ToyRegistry.
Import ToyHash.

#[export] Instance entries_order : MapOrder.
Proof.
  refine {| first_key := fun m => fst <$> head (map_to_list m) |}. intros m. destruct (map_to_list m) as [|[k e] l] eqn:E.
  - by apply map_to_list_empty_iff.
  - cbn. exists e. apply elem_of_map_to_list. rewrite E. by left.
Defined.

Definition opsKey : Key := plain_key "t0ken-0123456789" "acme" {[ ScopeRead := true; ScopeWrite := true ]}.
Definition demo_time : time := instant 738944 34200 0.
Definition demo_rows : list PersistedKey := [
  {| pk_TokenHash := HashToken "t0ken-0123456789"; pk_TenantID := "acme"; pk_Scopes := "read+write"; pk_Label := "ops"; pk_CreatedAt := "";
     pk_ExpiresAt := ""; pk_LastUsedAt := "" |}].
Definition demo_store : ApiKeys := {| ak_rows := demo_rows; ak_down := None |}.
Definition demo_cache : keyCache := {| kc_ttl := 30 * Second; kc_capacity := 4096; kc_entries := ∅ |}.
Definition demo_registry : Registry ApiKeys := {|
  rg_keys := ∅; rg_enabled := false; rg_jwt := None; rg_sigv4 := None; rg_store := Some demo_store; rg_snaplink := None;
  rg_anonRead := false; rg_keyCache := Some demo_cache; rg_putSigner := None; rg_publisher := true |}.
Definition empty_registry : Registry ApiKeys := WithStore demo_registry {| ak_rows := []; ak_down := None |}.

Lemma cache_stays_bounded_witness :
  Z.of_nat (size (kc_entries (cache_put (cache_put {| kc_ttl := 5; kc_capacity := 1; kc_entries := ∅ |} "a" opsKey 0 10) "b" opsKey 0 11))) <= 1.
Proof. exact (proj1 (cache_stays_bounded 5 1 _ [inl (inl ("a", (opsKey, 0, 10))); inl (inl ("b", (opsKey, 0, 11)))]%string eq_refl)). Defined.

Lemma lookup_is_authorized_witness :
  exists store tenant scopes expiry, rg_store demo_registry = Some store /\
    store_grants store (HashToken "t0ken-0123456789") demo_time tenant scopes expiry /\
    plain_key "t0ken-0123456789" "acme" (parseScopeString "read+write") = plain_key "t0ken-0123456789" tenant (parseScopeString scopes).
Proof.
  destruct (lookup_is_authorized demo_registry "t0ken-0123456789" demo_time (plain_key "t0ken-0123456789" "acme" (parseScopeString "read+write")))
    as [?|[(? & ? & _)|[(store & tenant & scopes & expiry & Hs & Hg & Hk)|[?|(? & ? & _)]]]]; [by vm_compute|done|done| |done|done].
  by exists store, tenant, scopes, expiry.
Defined.

Lemma AddKey_then_Lookup_witness :
  exists k', (Lookup (AddKey empty_registry opsKey "" "" demo_time).1.1 "t0ken-0123456789" (demo_time + Hour)).2 = Some k' /\
    k_Scopes k' = {[ ScopeRead := true; ScopeWrite := true ]} /\ k_Tenant k' = "acme"%string.
Proof.
  apply (AddKey_then_Lookup empty_registry opsKey "" "" demo_time _ [HashToken "t0ken-0123456789"] (demo_time + Hour)); [done| |done|by left].
  unfold plain_scopes. repeat (apply map_Forall_insert_2; [split_and!; [done..|by apply IndexByte_None]|]). apply map_Forall_empty.
Defined.

Lemma RevokeKey_then_Lookup_witness :
  (Lookup (RevokeKey demo_registry "t0ken-0123456789").1.1 "t0ken-0123456789" demo_time).2 = None.
Proof.
  exact (proj1 (RevokeKey_then_Lookup demo_registry "t0ken-0123456789" _ [HashToken "t0ken-0123456789"] true demo_time eq_refl)).
Defined.

Lemma revoked_key_recached_witness :
  exists c, GetAPIKeyByHash (cf_store c) (HashToken "t0ken-0123456789") = Ok None /\
    (lookupStore (cf_r c) (cf_store c) (HashToken "t0ken-0123456789") "t0ken-0123456789" (demo_time + 29 * Second)).2 =
    Some (plain_key "t0ken-0123456789" "acme" (parseScopeString "read+write")).
Proof.
  destruct (revoked_key_recached demo_registry demo_cache demo_store "t0ken-0123456789" demo_time "acme" "read+write" 0
    (TouchAPIKey demo_store (HashToken "t0ken-0123456789") (FormatRFC3339Nano demo_time)).1
    {| ak_rows := []; ak_down := None |} true)
    as (c & _ & Hg & Hl); [done|done|by eexists|done|by vm_compute|]. exists c. split; [exact Hg|]. by apply Hl.
Defined.

Lemma revocation_bounded_by_ttl_witness :
  let c := idle demo_registry demo_store demo_time in
  let store' := (DeleteAPIKeyByHash demo_store (HashToken "t0ken-0123456789")).1 in
  (lookupStore demo_registry store' (HashToken "t0ken-0123456789") "t0ken-0123456789" (demo_time + 31 * Second)).2 = None.
Proof.
  intros c store'.
  apply (revocation_bounded_by_ttl demo_registry demo_store demo_time [] c store' true [Pass (demo_time + 31 * Second)]
    (at_clock {| cf_r := demo_registry; cf_store := store'; cf_waiting := []; cf_filling := []; cf_clock := demo_time |} (demo_time + 31 * Second))
    "t0ken-0123456789").
  - right. by exists demo_cache.
  - apply run_nil.
  - done.
  - eapply run_cons; [by apply pass; vm_compute|apply run_nil].
  - done.
  - by vm_compute.
Defined.
End ToyRegistry.
