(* ===== verification/AuthMiddleware.v ===== *)
(** * The authentication middleware (src/internal/auth/auth_middleware.go, auth.go)

    [Middleware] decides a request: a presigned capability, a bypass path, a signed S3
    request, a bearer token or an anonymous read; the handler behind it gets the request
    with its tenant header set, the key and the principal of the context, and the body that
    PrepareBody installed.  [Require] guards a route with a scope.

    [admitted_key_is_entitled]: a request that carries a key has a scope for its method and
    is pinned to the key's tenant.  [unauthenticated_is_contained]: what gets through an
    enabled registry without a key.  [require_entitles]: a guarded route needs the scope.
    [locked_down]: a registry whose settings did not parse admits nobody. *)
From Stdlib Require Import Ascii Lia Bool ZArith.
From stdpp Require Import base gmap strings list numbers option.
From S2P Require Import Prelude GoStrings Json GoTime GoErrors Sql Storage Http Access AuthKeys SigV4 SigV4Body AuthRegistry.

Open Scope Z_scope.

Definition MethodOptions : string := "OPTIONS".
Definition tenantHeader : string := "X-Aero-Tenant".

(** What the middleware adds to the request's context. *)
Record AuthContext := { ax_key : option Key; ax_anonymous : bool; ax_principal : option Principal }.
Definition noAuth : AuthContext := {| ax_key := None; ax_anonymous := false; ax_principal := None |}.

Definition FromContext (ctx : AuthContext) : option Key := ax_key ctx.
Definition IsAnonymous (ctx : AuthContext) : bool := ax_anonymous ctx.

(** The next handler runs, or the answer is 401 or 403 with the error's text. *)
Inductive verdict := Next (r : Http) (ctx : AuthContext) (body : prepared * Z) | unauthorized (msg : string) | forbidden (e : error).

(** ** Paths and methods *)

Definition isObjectReadPath (method path : string) : bool :=
  if (method <>s MethodGet) && (method <>s MethodHead) then false
  else if negb (HasPrefix path "/v1/files/") || (len path <=? len "/v1/files/") then false
  else negb (existsb (fun suffix => HasSuffix path suffix) ["/tags"; "/versions"; "/acl"; "/metadata"]%string).

Definition isBypassPath (path : string) : bool :=
  (path =s "/") || (path =s "/favicon.ico") || (path =s "/healthz") || (path =s "/readyz") || (path =s "/metrics") ||
  (path =s "/openapi.json") || (path =s "/docs") || HasPrefix path "/auth/oidc/" || HasPrefix path "/ui".

Definition isPublicCapabilityPath (method path : string) : bool :=
  if (method <>s MethodGet) && (method <>s MethodHead) then false
  else HasPrefix path "/share/" || HasPrefix path "/public/assets/".

(** The scope a method needs. *)
Definition required_scope (method : string) : string :=
  if (method =s MethodGet) || (method =s MethodHead) || (method =s MethodOptions) || (method =s "PROPFIND") then ScopeRead else ScopeWrite.

Definition checkScope (method : string) (k : Key) : bool * string := (Has k (required_scope method), required_scope method).

(** ** The token *)

(** Simple case folding, for a comparison with ASCII letters. *)
Definition fold_rune (c : Z) : Z :=
  if in_range 65 90 c then c + 32 else if c =? 8490 then 107 else if c =? 383 then 115 else c.

(** strings.EqualFold with an ASCII second argument. *)
Definition EqualFold (s t : string) : bool := bool_decide (map fold_rune (runes_of s) = map fold_rune (runes_of t)).

Definition extractToken (r : Http) : string :=
  let h := Get r "Authorization" in
  let bearer := if (h =s "") then None
                else match Fields h with
                     | [scheme; token] => if EqualFold scheme "Bearer" || EqualFold scheme "ApiKey" then Some token else None
                     | _ => None
                     end in
  match bearer with Some token => token | None => Get r "X-Api-Key" end.

Section Middleware.
Context {S : Type} `{PersistentStore S, MapOrder, SHA2, CaseTables}.

Definition contextWithKey (k : Key) : AuthContext :=
  {| ax_key := Some k; ax_anonymous := false; ax_principal := Some (PrincipalForKey k) |}.

Definition withAnonymousPrincipal (r : Http) : AuthContext :=
  let tenant := Get r tenantHeader in
  {| ax_key := None; ax_anonymous := true;
     ax_principal := Some {| SubjectID := "anonymous"; TenantID := if (tenant =s "") then "default" else tenant;
                             Kind := PrincipalAnonymous; Roles := []; Groups := []; Scopes := []; p_Capability := None |} |}.

Definition unchanged (r : Http) : prepared * Z := (Unchanged, rq_ContentLength r).

(** The header names another tenant. *)
Definition tenant_mismatch (r : Http) (tenant : string) : bool :=
  let hdr := Get r tenantHeader in (hdr <>s "") && (hdr <>s tenant).

Definition pin_tenant (r : Http) (tenant : string) : Http := with_header r tenantHeader tenant.

Definition authenticatePresignedPut (signer : PutPresigner) (now : time) (r : Http) : verdict :=
  match VerifyPut signer now r with
  | Err e => forbidden e
  | Ok k => if tenant_mismatch r (k_Tenant k) then forbidden (NewError "tenant mismatch")
            else let r := pin_tenant r (k_Tenant k) in Next r (contextWithKey k) (unchanged r)
  end.

Definition authenticatePresignedGet (signer : PutPresigner) (now : time) (r : Http) : verdict :=
  match VerifyGet signer now r with
  | Err e => forbidden e
  | Ok k =>
      if tenant_mismatch r (k_Tenant k) then forbidden (NewError "tenant mismatch")
      else if negb (HasPrefix (rq_Path r) "/v1/files/") || (len (rq_Path r) =? len "/v1/files/")
      then forbidden (NewError "presigned GET target must be a REST object")
      else
        let r := pin_tenant r (k_Tenant k) in
        let capability := {| cap_ID := "presigned-get"; cap_TenantID := k_Tenant k; cap_Bucket := "default";
                             cap_Key := TrimPrefix (rq_Path r) "/v1/files/"; cap_Actions := [ActionRead; ActionPreview; ActionDownload] |} in
        Next r {| ax_key := Some k; ax_anonymous := false; ax_principal := Some (CapabilityPrincipal PrincipalService capability) |} (unchanged r)
  end.

(** The tenant of a key that is not an operator's is pinned; then the scope is checked. *)
Definition admit_key (r : Http) (k : Key) : Http + verdict :=
  if negb (k_Tenant k =s "*") && tenant_mismatch r (k_Tenant k) then inr (forbidden (NewError "tenant mismatch"))
  else
    let r := if (k_Tenant k =s "*") then r else pin_tenant r (k_Tenant k) in
    let '(ok, required) := checkScope (rq_Method r) k in
    if negb ok then inr (forbidden (NewError ("missing scope: " ++ required))) else inl r.

Definition authenticateSigV4 (reg : Registry S) (now : time) (r : Http) (Body : option Reader) : verdict :=
  match sigv4_Verify (rg_sigv4 reg) now r with
  | Err e => forbidden e
  | Ok k =>
      match admit_key r k with
      | inr v => v
      | inl r => match PrepareBody (default ∅ (rg_sigv4 reg)) r Body with
                 | Err e => forbidden e
                 | Ok body => Next r (contextWithKey k) body
                 end
      end
  end.

Definition authenticateBearer (reg : Registry S) (now : time) (r : Http) : Registry S * verdict :=
  let token := extractToken r in
  if (token =s "") then
    (reg, if isPublicCapabilityPath (rq_Method r) (rq_Path r) then Next r (withAnonymousPrincipal r) (unchanged r)
          else if rg_anonRead reg && isObjectReadPath (rq_Method r) (rq_Path r) then Next r (withAnonymousPrincipal r) (unchanged r)
          else unauthorized "missing Authorization header")
  else
    let '(reg, found) := Lookup reg token now in
    (reg, match found with
          | None => unauthorized "invalid API key"
          | Some k => match admit_key r k with inr v => v | inl r => Next r (contextWithKey k) (unchanged r) end
          end).

Definition Middleware (reg : Registry S) (now : time) (r : Http) (Body : option Reader) : Registry S * verdict :=
  let rest :=
    if negb (Enabled reg) then (reg, Next r noAuth (unchanged r))
    else if isBypassPath (rq_Path r) then (reg, Next r noAuth (unchanged r))
    else if bool_decide (is_Some (rg_sigv4 reg)) && IsSigned r then (reg, authenticateSigV4 reg now r Body)
    else authenticateBearer reg now r in
  match rg_putSigner reg with
  | Some _ =>
      if IsPresignedPut r then (reg, authenticatePresignedPut (rg_putSigner reg) now r)
      else if IsPresignedGet r then (reg, authenticatePresignedGet (rg_putSigner reg) now r)
      else rest
  | None => rest
  end.

(** Require: the verdict on a request that carries this context. *)
Definition Require (reg : Registry S) (s : string) (r : Http) (ctx : AuthContext) (body : prepared * Z) : verdict :=
  if negb (Enabled reg) then Next r ctx body
  else if (s =s ScopeRead) && IsAnonymous ctx && isObjectReadPath (rq_Method r) (rq_Path r) then Next r ctx body
  else match FromContext ctx with
       | None => unauthorized "not authenticated"
       | Some k => if negb (Has k s) then forbidden (NewError ("missing scope: " ++ s)) else Next r ctx body
       end.
End Middleware.

(** ** The settings (src/cmd/server/auth.go) *)

Record AuthConfig := {
  cfg_Keys : string; cfg_PresignSecret : string; cfg_JWTSecret : string; cfg_JWTIssuer : string; cfg_JWKSEndpoint : string;
  cfg_JWKSAudience : string; cfg_JWKSTenantClaim : string; cfg_JWKSClientTenants : gmap string string;
  cfg_JWKSDefaultScopes : list string; cfg_AnonymousPublicRead : bool; cfg_SigV4Credentials : string; cfg_PersistKeys : bool;
  cfg_KeyCacheTTLSeconds : Z; cfg_TransportDSN : string
}.

(** An empty secret is replaced by 32 random bytes. *)
Definition NewPutPresigner (secret random : string) : PutPresigner := if (secret <>s "") then Some secret else Some random.

Section Settings.
Context {S : Type} `{PersistentStore S, MapOrder, SHA2, CaseTables}.
(** rs.ValidateToken against the keys of the endpoint. *)
Context (ValidateToken : string -> result Claims).

Definition NewSnaplinkVerifier (cfg : AuthConfig) : result SnaplinkVerifier :=
  if (cfg_JWTIssuer cfg =s "") || (cfg_JWKSEndpoint cfg =s "") then Err (NewError "snaplink: issuer and JWKS URL are required")
  else Ok {| sv_audience := cfg_JWKSAudience cfg; sv_tenantClaim := cfg_JWKSTenantClaim cfg;
             sv_clientTenants := cfg_JWKSClientTenants cfg; sv_defaultScopes := cfg_JWKSDefaultScopes cfg;
             sv_ValidateToken := ValidateToken |}.

Definition configureJWT (reg : Registry S) (cfg : AuthConfig) : Registry S :=
  if (cfg_JWTSecret cfg <>s "") then
    let reg := WithJWT reg (cfg_JWTSecret cfg) in
    if (cfg_JWTIssuer cfg <>s "") then with_jwt reg (WithIssuer (rg_jwt reg) (cfg_JWTIssuer cfg)) else reg
  else reg.

(** The parts after the Snaplink verifier, which a failure of it skips. *)
Definition configureRest (reg : Registry S) (cfg : AuthConfig) (repo : S) : Registry S :=
  let reg := if cfg_AnonymousPublicRead cfg then WithAnonymousPublicRead reg true else reg in
  let reg := match ParseSigV4Credentials (cfg_SigV4Credentials cfg) with
             | (sv, Some _) => WithSigV4 reg sv
             | (Some v, None) => WithSigV4 reg (Some v)
             | (None, None) => reg
             end in
  if cfg_PersistKeys cfg then
    let reg := WithStore reg repo in
    if (0 <? cfg_KeyCacheTTLSeconds cfg) then
      let reg := WithKeyCache reg (wrap64 (cfg_KeyCacheTTLSeconds cfg * Second)) 4096 in
      if (cfg_TransportDSN cfg <>s "") then WithKeyChangePublisher reg true else reg
    else reg
  else reg.

Definition configureAuthSecrets (reg : Registry S) (cfg : AuthConfig) (repo : S) : Registry S :=
  let reg := configureJWT reg cfg in
  if (cfg_JWKSEndpoint cfg <>s "") then
    match NewSnaplinkVerifier cfg with
    | Err _ => WithSnaplink reg None
    | Ok v => configureRest (WithSnaplink reg (Some v)) cfg repo
    end
  else configureRest reg cfg repo.

Definition buildAuthRegistry (cfg : AuthConfig) (repo : S) (random : string) : Registry S :=
  let '(reg, err) := Parse (cfg_Keys cfg) in
  let reg := WithPutPresigner reg (NewPutPresigner (cfg_PresignSecret cfg) random) in
  match err with Some _ => reg | None => configureAuthSecrets reg cfg repo end.
End Settings.

Example bearer_token : extractToken {| rq_Method := "GET"; rq_Path := "/"; rq_EscapedPath := "/"; rq_RawQuery := ""; rq_Host := "";
  rq_Header := {["Authorization"%string := ["bEARER  t0ken"%string]]}; rq_ContentLength := 0; rq_Body := None |} = "t0ken"%string.
Proof. by vm_compute. Qed.

(** ** Theorems *)

Section Props.
Context {S : Type} `{PersistentStore S, MapOrder, SHA2, CaseTables}.
Implicit Types reg : Registry S.

(** Where a key came from. *)
Inductive vouched reg (now : time) (r : Http) (k : Key) : Prop :=
| by_put_url : VerifyPut (rg_putSigner reg) now r = Ok k -> vouched reg now r k
| by_get_url : VerifyGet (rg_putSigner reg) now r = Ok k -> vouched reg now r k
| by_signature : sigv4_Verify (rg_sigv4 reg) now r = Ok k -> vouched reg now r k
| by_token : (Lookup reg (extractToken r) now).2 = Some k -> vouched reg now r k.

(** The URL is a capability, and the server verifies capabilities. *)
Definition by_url reg (r : Http) : Prop := is_Some (rg_putSigner reg) /\ (IsPresignedPut r = true \/ IsPresignedGet r = true).

(** The credential of a request and the principal that comes of it: a signed GET becomes a
    capability to read its one object, every other credential the key's principal. *)
Inductive credential reg (now : time) (r : Http) (k : Key) : Principal -> Prop :=
| cr_put_url : IsPresignedPut r = true -> VerifyPut (rg_putSigner reg) now r = Ok k -> credential reg now r k (PrincipalForKey k)
| cr_get_url key : IsPresignedPut r = false -> IsPresignedGet r = true -> VerifyGet (rg_putSigner reg) now r = Ok k ->
    rq_Path r = ("/v1/files/" ++ key)%string -> key <> ""%string ->
    credential reg now r k (CapabilityPrincipal PrincipalService {|
      cap_ID := "presigned-get"; cap_TenantID := k_Tenant k; cap_Bucket := "default"; cap_Key := key;
      cap_Actions := [ActionRead; ActionPreview; ActionDownload] |})
| cr_signature : ~ by_url reg r -> IsSigned r = true -> sigv4_Verify (rg_sigv4 reg) now r = Ok k -> credential reg now r k (PrincipalForKey k)
| cr_token : ~ by_url reg r -> extractToken r <> ""%string -> (Lookup reg (extractToken r) now).2 = Some k ->
    credential reg now r k (PrincipalForKey k).

Lemma credential_vouched reg now r k p : credential reg now r k p -> vouched reg now r k.
Proof. destruct 1; by constructor. Qed.

Definition is_presigned (k : Key) : Prop := k_Scopes k = {[ ScopeWrite := true ]} \/ k_Scopes k = {[ ScopeRead := true ]}.

Lemma VerifyPut_key p now r k : VerifyPut p now r = Ok k -> rq_Method r = MethodPut /\ k_Scopes k = {[ ScopeWrite := true ]}.
Proof.
  unfold VerifyPut. destruct (configured p); [|done]. destruct (rq_Method r =s MethodPut) eqn:Em; [|done]. cbn [negb].
  intros (_ & _ & _ & _ & _ & _ & Hk)%verify_capability_Ok. split; [by apply String.eqb_eq|by rewrite Hk].
Qed.

Lemma VerifyGet_key p now r k : VerifyGet p now r = Ok k ->
  (rq_Method r = MethodGet \/ rq_Method r = MethodHead) /\ k_Scopes k = {[ ScopeRead := true ]}.
Proof.
  unfold VerifyGet. destruct (configured p); [|done]. destruct (_ && _) eqn:Em; [done|].
  intros (_ & _ & _ & _ & _ & _ & Hk)%verify_capability_Ok. split; [|by rewrite Hk].
  apply andb_false_iff in Em as [Em|Em]; apply negb_false_iff, String.eqb_eq in Em; solve [by left|by right].
Qed.

Lemma Get_pinned r tenant : Get (pin_tenant r tenant) tenantHeader = tenant.
Proof. unfold Get, header_Get, header_values, pin_tenant, header_Set. cbn [rq_Header with_header]. unfold header_Set. by rewrite lookup_insert_eq. Qed.

Lemma mismatch_false r tenant : tenant_mismatch r tenant = false -> Get r tenantHeader = ""%string \/ Get r tenantHeader = tenant.
Proof. unfold tenant_mismatch. intros [E|E]%andb_false_iff; apply negb_false_iff, String.eqb_eq in E; solve [by left|by right]. Qed.

(** The request behind the middleware is for the tenant of the key, and was not for
    another. *)
Definition pinned (r r' : Http) (tenant : string) : Prop :=
  r' = pin_tenant r tenant /\ (Get r tenantHeader = ""%string \/ Get r tenantHeader = tenant).

Lemma admit_inl r k r' : admit_key r k = inl r' ->
  Has k (required_scope (rq_Method r)) = true /\ (k_Tenant k = "*"%string /\ r' = r \/ pinned r r' (k_Tenant k)).
Proof.
  unfold admit_key. destruct (k_Tenant k =s "*") eqn:Et; cbn [negb andb].
  - unfold checkScope. destruct (Has _ _) eqn:Eh; [|done]. intros [= <-]. split; [done|left]. split; [by apply String.eqb_eq|done].
  - destruct (tenant_mismatch _ _) eqn:Em; [done|]. unfold checkScope. change (rq_Method (pin_tenant r (k_Tenant k))) with (rq_Method r).
    destruct (Has _ _) eqn:Eh; [|done]. intros [= <-]. split; [done|right]. split; [done|]. by apply mismatch_false.
Qed.

Lemma admit_inr r k r' ctx body : admit_key r k <> inr (Next r' ctx body).
Proof. unfold admit_key. destruct (_ && _); [done|]. destruct (checkScope _ _) as [[] ?]; done. Qed.

(** What the middleware lets through. *)
Inductive passed reg (now : time) (r r' : Http) (ctx : AuthContext) : Prop :=
| pass_key k : vouched reg now r k -> ax_key ctx = Some k -> ax_anonymous ctx = false ->
    Has k (required_scope (rq_Method r)) = true -> (k_Tenant k = "*"%string /\ r' = r \/ pinned r r' (k_Tenant k)) ->
    (exists p, ax_principal ctx = Some p /\ credential reg now r k p) -> passed reg now r r' ctx
| pass_disabled : Enabled reg = false -> r' = r -> ctx = noAuth -> passed reg now r r' ctx
| pass_bypass : isBypassPath (rq_Path r) = true -> r' = r -> ctx = noAuth -> passed reg now r r' ctx
| pass_anonymous : extractToken r = ""%string -> r' = r -> ctx = withAnonymousPrincipal r ->
    isPublicCapabilityPath (rq_Method r) (rq_Path r) = true \/
      rg_anonRead reg = true /\ isObjectReadPath (rq_Method r) (rq_Path r) = true -> passed reg now r r' ctx.

Lemma middleware_passed reg now r Body r' ctx body :
  (Middleware reg now r Body).2 = Next r' ctx body -> passed reg now r r' ctx.
Proof.
  intros Hm. set (rest := if negb (Enabled reg) then (reg, Next r noAuth (unchanged r))
    else if isBypassPath (rq_Path r) then (reg, Next r noAuth (unchanged r))
    else if bool_decide (is_Some (rg_sigv4 reg)) && IsSigned r then (reg, authenticateSigV4 reg now r Body)
    else authenticateBearer reg now r).
  assert (~ by_url reg r -> rest.2 = Next r' ctx body -> passed reg now r r' ctx) as Hrest.
  { intros Hu. unfold rest. destruct (Enabled reg) eqn:Ee; cbn [negb snd]; [|intros [= <- <- _]; by apply pass_disabled].
    destruct (isBypassPath _) eqn:Eb; [intros [= <- <- _]; by apply pass_bypass|].
    destruct (_ && _) eqn:Esig; cbn [snd].
    - apply andb_true_iff in Esig as [_ Esig]. unfold authenticateSigV4. destruct (sigv4_Verify _ _ _) as [k|e] eqn:Ev; [|done].
      destruct (admit_key r k) as [r1|v] eqn:Ea; [|intros ->; by apply admit_inr in Ea]. apply admit_inl in Ea as [Hs Ht].
      destruct (PrepareBody _ _ _) as [b|e]; [|done]. intros [= <- <- _].
      eapply (pass_key _ _ _ _ _ k); [by apply by_signature|done..|]. eexists. split; [done|]. by apply cr_signature.
    - unfold authenticateBearer. destruct (extractToken r =s "") eqn:Et.
      + apply String.eqb_eq in Et. cbn [snd]. destruct (isPublicCapabilityPath _ _) eqn:Ep; [intros [= <- <- _]; apply pass_anonymous; [done..|by left]|].
        destruct (rg_anonRead reg && _) eqn:Eo; [|done]. apply andb_true_iff in Eo as [Ha Ho]. intros [= <- <- _]. apply pass_anonymous; [done..|by right].
      + apply String.eqb_neq in Et. destruct (Lookup reg (extractToken r) now) as [reg' [k|]] eqn:El; [|done]. cbn [snd].
        destruct (admit_key r k) as [r1|v] eqn:Ea; [|intros ->; by apply admit_inr in Ea]. apply admit_inl in Ea as [Hs Ht]. intros [= <- <- _].
        eapply (pass_key _ _ _ _ _ k); [apply by_token; by rewrite El|done..|]. eexists. split; [done|]. apply cr_token; [done..|by rewrite El]. }
  unfold Middleware in Hm. fold rest in Hm. destruct (rg_putSigner reg) as [p|] eqn:Esg; [|apply Hrest; [|done]; intros [[? Hp] _]; congruence].
  destruct (IsPresignedPut r) eqn:Epp; [|destruct (IsPresignedGet r) eqn:Epg; [|apply Hrest; [|done]; intros [_ [?|?]]; congruence]]; cbn [snd] in Hm.
  - unfold authenticatePresignedPut in Hm. destruct (VerifyPut _ _ _) as [k|e] eqn:Ev; [|done].
    destruct (tenant_mismatch _ _) eqn:Et; [done|]. injection Hm as <- <- _. pose proof Ev as [Hmeth Hsc]%VerifyPut_key. rewrite <- Esg in Ev.
    eapply (pass_key _ _ _ _ _ k); [by apply by_put_url|done|done| |right; split; [done|by apply mismatch_false]|].
    + unfold Has, enabled. rewrite Hsc, Hmeth. by vm_compute.
    + eexists. split; [done|]. by apply cr_put_url.
  - unfold authenticatePresignedGet in Hm. destruct (VerifyGet _ _ _) as [k|e] eqn:Ev; [|done].
    destruct (tenant_mismatch _ _) eqn:Et; [done|]. destruct (_ || _) eqn:Epath; [done|]. injection Hm as <- <- _.
    apply orb_false_iff in Epath as [Hp%negb_false_iff Hl%Z.eqb_neq]. apply HasPrefix_spec in Hp as [key Hp].
    pose proof Ev as [Hmeth Hsc]%VerifyGet_key. rewrite <- Esg in Ev.
    eapply (pass_key _ _ _ _ _ k); [by apply by_get_url|done|done| |right; split; [done|by apply mismatch_false]|].
    + unfold Has, enabled. rewrite Hsc. by destruct Hmeth as [-> | ->]; vm_compute.
    + eexists. cbn [ax_principal]. split; [done|]. change (rq_Path (pin_tenant r (k_Tenant k))) with (rq_Path r).
      rewrite Hp, TrimPrefix_app. apply cr_get_url; [done..|]. intros ->. by rewrite Hp in Hl.
Qed.

(** C4: a request that reaches its handler with a key had it vouched for by a signed URL, a
    signed request or a token, has a scope for its method and is pinned to the key's tenant
    (an operator's key to none).  The principal goes with the credential: a signed GET URL
    carries a capability of the key's tenant for reading the one object of its path in the
    bucket "default", every other credential the principal of the key. *)
Theorem admitted_key_is_entitled reg now r Body r' ctx body k :
  (Middleware reg now r Body).2 = Next r' ctx body -> ax_key ctx = Some k ->
  vouched reg now r k /\ Has k (required_scope (rq_Method r)) = true /\
  (k_Tenant k = "*"%string /\ r' = r \/ Get r' tenantHeader = k_Tenant k /\ (Get r tenantHeader = ""%string \/ Get r tenantHeader = k_Tenant k)) /\
  exists p, ax_principal ctx = Some p /\ credential reg now r k p.
Proof.
  intros [k' Hv Hk _ Hs Ht Hp|_ _ ->|_ _ ->|_ _ -> _]%middleware_passed Hax; [|done..]. rewrite Hk in Hax. injection Hax as ->.
  split_and!; [done|done| |done]. destruct Ht as [?|[-> ?]]; [by left|right]. by rewrite Get_pinned.
Qed.

(** When authentication is on, a request reaches its handler without a key only on a
    bypass path, or as an anonymous principal without scopes that reads a share, a public
    asset or, when that is allowed, an object. *)
Theorem unauthenticated_is_contained reg now r Body r' ctx body :
  Enabled reg = true -> (Middleware reg now r Body).2 = Next r' ctx body -> ax_key ctx = None ->
  r' = r /\
  ((isBypassPath (rq_Path r) = true /\ ax_principal ctx = None) \/
   (rq_Method r = MethodGet \/ rq_Method r = MethodHead) /\ ax_anonymous ctx = true /\
   (exists p, ax_principal ctx = Some p /\ Kind p = PrincipalAnonymous /\ Scopes p = [] /\ Roles p = [] /\ p_Capability p = None) /\
   (HasPrefix (rq_Path r) "/share/" = true \/ HasPrefix (rq_Path r) "/public/assets/" = true \/
    rg_anonRead reg = true /\ HasPrefix (rq_Path r) "/v1/files/" = true)).
Proof.
  intros He [k Hv Hk|Hd|Hb -> ->|_ -> -> Hp]%middleware_passed Hax; [congruence|congruence|split; [done|by left]|].
  split; [done|right]. assert (forall b, (if (rq_Method r <>s MethodGet) && (rq_Method r <>s MethodHead) then false else b) = true ->
    (rq_Method r = MethodGet \/ rq_Method r = MethodHead) /\ b = true) as Hmeth.
  { intros b. destruct (_ && _) eqn:Em; [done|]. intros ->. split; [|done].
    apply andb_false_iff in Em as [Em|Em]; apply negb_false_iff, String.eqb_eq in Em; solve [by left|by right]. }
  destruct Hp as [[Hm Hp]%Hmeth|[Ha [Hm Hp]%Hmeth]].
  - split_and!; [done|done|by eexists|]. apply orb_true_iff in Hp as [?|?]; solve [by left|right; by left].
  - split_and!; [done|done|by eexists|]. right. right. split; [done|]. destruct (_ || _) eqn:E in Hp; [done|].
    by apply orb_false_iff in E as [?%negb_false_iff _].
Qed.

Lemma Enabled_Lookup reg token now : Enabled (Lookup reg token now).1 = Enabled reg.
Proof.
  unfold Lookup. destruct (rg_keys reg !! token); [done|]. destruct (rg_store reg) as [store|] eqn:Es; [|done]. cbn [fst].
  assert (Enabled (lookupStore reg store (HashToken token) token now).1 = Enabled reg) as He;
    [|by destruct (lookupStore reg store (HashToken token) token now)].
  assert (forall (r : Registry S) c, Enabled (with_cache r c) = Enabled r) as Hc by done.
  assert (forall (r : Registry S) s, is_Some (rg_store r) -> Enabled (WithStore r s) = Enabled r) as Hs.
  { intros r s Hr. unfold Enabled. cbn [WithStore rg_enabled rg_jwt rg_snaplink rg_sigv4 rg_store].
    by rewrite (bool_decide_eq_true_2 _ Hr), (bool_decide_eq_true_2 (is_Some (Some s))) by by eexists. }
  assert (Enabled (probe reg (HashToken token) now).1 = Enabled reg /\ rg_store (probe reg (HashToken token) now).1 = rg_store reg) as [Hp Hps].
  { unfold probe. destruct (rg_keyCache reg); [|done]. by destruct (cache_get _ _ _). }
  unfold lookupStore. destruct (probe reg (HashToken token) now) as [r1 [k|]]; [done|]. cbn [fst] in *.
  destruct (fetch store (HashToken token) token now) as [s2 [[k e]|]]; cbn [fst].
  - unfold fill_cache. destruct (rg_keyCache _); rewrite ?Hc, Hs; rewrite ?Hps, ?Es; done.
  - rewrite Hs; rewrite ?Hps, ?Es; done.
Qed.

Lemma Enabled_Middleware reg now r Body : Enabled (Middleware reg now r Body).1 = Enabled reg.
Proof.
  unfold Middleware. assert (Enabled (authenticateBearer reg now r).1 = Enabled reg) as Hb.
  { unfold authenticateBearer. destruct (_ =s ""); [done|]. pose proof (Enabled_Lookup reg (extractToken r) now). by destruct (Lookup _ _ _). }
  destruct (rg_putSigner reg); repeat (case_match; try done).
Qed.

(** C16: on a route that requires a scope, only a request whose key has it reaches the
    handler of an enabled registry, or an anonymous read of an object where that is allowed;
    an administrator's route never opens to a signed URL. *)
Theorem require_entitles reg now r Body r' ctx body s r2 ctx2 body2 :
  Enabled reg = true -> (Middleware reg now r Body).2 = Next r' ctx body ->
  Require (Middleware reg now r Body).1 s r' ctx body = Next r2 ctx2 body2 ->
  (exists k, ax_key ctx = Some k /\ Has k s = true /\ vouched reg now r k /\
     (s = ScopeAdmin -> sigv4_Verify (rg_sigv4 reg) now r = Ok k \/ (Lookup reg (extractToken r) now).2 = Some k)) \/
  s = ScopeRead /\ rg_anonRead reg = true /\ ax_anonymous ctx = true /\ isObjectReadPath (rq_Method r) (rq_Path r) = true.
Proof.
  intros He Hm Hr. unfold Require in Hr. rewrite Enabled_Middleware, He in Hr. cbn [negb] in Hr.
  pose proof Hm as Hpass%middleware_passed. destruct Hpass as [k Hv Hk Hanon _ Ht _|?|_ -> ->|_ -> -> Hp]; [|congruence| |].
  - left. exists k. unfold IsAnonymous, FromContext in Hr. rewrite Hanon, Hk, andb_false_r in Hr. cbn [andb] in Hr.
    destruct (Has k s) eqn:Eh; [|done]. split_and!; [done..|]. intros ->. destruct Hv as [Hv|Hv|Hv|Hv]; [..|by left|by right].
    + apply VerifyPut_key in Hv as [_ Hs]. exfalso. unfold Has, enabled in Eh. rewrite Hs in Eh. by vm_compute in Eh.
    + apply VerifyGet_key in Hv as [_ Hs]. exfalso. unfold Has, enabled in Eh. rewrite Hs in Eh. by vm_compute in Eh.
  - unfold IsAnonymous in Hr. cbn [noAuth ax_anonymous] in Hr. by rewrite andb_false_r in Hr.
  - right. destruct (_ && _) eqn:E in Hr; [|done]. apply andb_true_iff in E as [[Es _]%andb_true_iff Ho]. apply String.eqb_eq in Es.
    split_and!; [done| |done|done]. destruct Hp as [Hp|[? _]]; [exfalso|done].
    unfold isPublicCapabilityPath in Hp. unfold isObjectReadPath in Ho. destruct (_ && _); [done|].
    destruct (HasPrefix (rq_Path r) "/v1/files/") eqn:E; [|done]. apply HasPrefix_spec in E as [t Ht]. by rewrite Ht in Hp.
Qed.

(** A registry without credentials: nobody's token, signature or key. *)
Definition keyless reg : Prop :=
  rg_keys reg = ∅ /\ rg_enabled reg = true /\ rg_jwt reg = None /\ rg_sigv4 reg = None /\ rg_store reg = None /\
  rg_snaplink reg = None /\ rg_anonRead reg = false.

Lemma ParseKeys_failed raw keys on e : ParseKeys raw = ((keys, on), Some e) -> keys = ∅ /\ on = true.
Proof.
  unfold ParseKeys. destruct (_ =s ""); [done|]. destruct (parse_records _ _); [|by intros [= <- <- _]].
  destruct (decide _); [by intros [= <- <- _]|done].
Qed.

(** When the keys of the settings do not parse, the server runs locked down: without a
    valid signed URL nothing gets through but the bypass paths, shares and public assets. *)
Theorem locked_down ValidateToken cfg (repo : S) random keys on err now r Body r' ctx body :
  ParseKeys (cfg_Keys cfg) = ((keys, on), Some err) ->
  let reg := buildAuthRegistry ValidateToken cfg repo random in
  (Middleware reg now r Body).2 = Next r' ctx body ->
  (exists k, ax_key ctx = Some k /\ (VerifyPut (rg_putSigner reg) now r = Ok k \/ VerifyGet (rg_putSigner reg) now r = Ok k)) \/
  ax_key ctx = None /\ (isBypassPath (rq_Path r) = true \/ isPublicCapabilityPath (rq_Method r) (rq_Path r) = true).
Proof.
  intros Hp reg Hm. assert (keyless reg) as (Hk & He & Hj & Hs & Hst & Hsl & Ha).
  { unfold reg, buildAuthRegistry, Parse. rewrite Hp. by apply ParseKeys_failed in Hp as [-> ->]. }
  pose proof (middleware_passed _ _ _ _ _ _ _ Hm) as Hpass. destruct Hpass as [k Hv Hax _ _ _ _|Hd _ _|Hb _ ->|_ _ -> Hp'].
  - left. exists k. split; [done|]. destruct Hv as [?|?|Hv|Hv]; [by left|by right|by rewrite Hs in Hv|]. exfalso.
    unfold Lookup, lookupJWT, lookupSnaplink in Hv. by rewrite Hk, lookup_empty, Hst, Hj, Hsl in Hv.
  - exfalso. unfold Enabled in Hd. by rewrite He in Hd.
  - right. split; [done|by left].
  - right. split; [done|]. destruct Hp' as [?|[Ha' _]]; [by right|congruence].
Qed.

Lemma Enabled_spec reg : Enabled reg = true <->
  rg_enabled reg = true \/ is_Some (rg_jwt reg) \/ is_Some (rg_snaplink reg) \/ is_Some (rg_sigv4 reg) \/ is_Some (rg_store reg).
Proof. unfold Enabled. rewrite !orb_true_iff, !bool_decide_eq_true. tauto. Qed.

Definition blank (s : string) : bool := TrimSpace s =s "".

Lemma ParseSigV4_Some raw : blank raw = false -> is_Some (ParseSigV4Credentials raw).1.
Proof. unfold blank, ParseSigV4Credentials. intros ->. destruct (parse_creds _ _). by eexists. Qed.

Lemma ParseSigV4_None raw : (ParseSigV4Credentials raw).1 = None -> (ParseSigV4Credentials raw).2 = None.
Proof. unfold ParseSigV4Credentials. destruct (_ =s ""); [done|]. by destruct (parse_creds _ _). Qed.

Lemma configureRest_enables reg cfg repo :
  Enabled reg = true \/ blank (cfg_SigV4Credentials cfg) = false \/ cfg_PersistKeys cfg = true ->
  Enabled (configureRest reg cfg repo) = true.
Proof.
  intros Hc. unfold configureRest. set (r1 := if cfg_AnonymousPublicRead cfg then WithAnonymousPublicRead reg true else reg).
  assert (Enabled r1 = Enabled reg) as H1' by (unfold r1; by destruct (cfg_AnonymousPublicRead cfg)). clearbody r1.
  set (r2 := match ParseSigV4Credentials (cfg_SigV4Credentials cfg) with (sv, Some _) => WithSigV4 r1 sv
             | (Some v, None) => WithSigV4 r1 (Some v) | (None, None) => r1 end).
  assert (Enabled reg = true \/ blank (cfg_SigV4Credentials cfg) = false -> Enabled r2 = true) as H2'.
  { unfold r2. pose proof (ParseSigV4_Some (cfg_SigV4Credentials cfg)) as Hs. pose proof (ParseSigV4_None (cfg_SigV4Credentials cfg)) as Hn.
    destruct (ParseSigV4Credentials _) as [[v|] err]; cbn [fst snd] in *.
    - intros _. destruct err; apply Enabled_spec; right; right; right; left; by eexists.
    - rewrite Hn by done. intros [?|Hb]; [congruence|]. by destruct (Hs Hb). }
  clearbody r2. destruct (cfg_PersistKeys cfg); [|apply H2'; destruct Hc as [?|[?|?]]; [by left|by right|done]].
  apply Enabled_spec. right. right. right. right. destruct (0 <? _); [|by eexists]. by destruct (negb _); eexists.
Qed.

Lemma configureJWT_enables reg cfg : Enabled reg = true \/ cfg_JWTSecret cfg <> ""%string -> Enabled (configureJWT reg cfg) = true.
Proof.
  unfold configureJWT. intros Hc. destruct (cfg_JWTSecret cfg =s "") eqn:Ej; cbn [negb].
  - apply String.eqb_eq in Ej. by destruct Hc.
  - apply Enabled_spec. right. left. unfold WithJWT, NewJWTVerifier. rewrite Ej. by destruct (negb _); eexists.
Qed.

(** C33: credentials that are configured, however badly, turn authentication on: no mistake in
    the settings leaves a server that was meant to be closed open. *)
Theorem configured_is_enabled ValidateToken cfg (repo : S) random :
  blank (cfg_Keys cfg) = false \/ cfg_JWTSecret cfg <> ""%string \/ cfg_JWKSEndpoint cfg <> ""%string \/
    blank (cfg_SigV4Credentials cfg) = false \/ cfg_PersistKeys cfg = true ->
  Enabled (buildAuthRegistry ValidateToken cfg repo random) = true.
Proof.
  intros Hc. unfold buildAuthRegistry, Parse. destruct (ParseKeys (cfg_Keys cfg)) as [[keys on] [e|]] eqn:Ep.
  { apply ParseKeys_failed in Ep as [-> ->]. done. }
  set (r0 := WithPutPresigner _ _). assert (blank (cfg_Keys cfg) = false -> Enabled r0 = true) as Hkeys.
  { intros Hb. unfold blank in Hb. unfold ParseKeys in Ep. rewrite Hb in Ep. destruct (parse_records _ _); [|done].
    destruct (decide _); [done|]. by injection Ep as _ <-. }
  clearbody r0. unfold configureAuthSecrets.
  assert (blank (cfg_Keys cfg) = false \/ cfg_JWTSecret cfg <> ""%string -> Enabled (configureJWT r0 cfg) = true) as Hj.
  { intros [?|?]; apply configureJWT_enables; [left; by apply Hkeys|by right]. }
  destruct (cfg_JWKSEndpoint cfg =s "") eqn:Eq; cbn [negb].
  - apply String.eqb_eq in Eq. apply configureRest_enables. destruct Hc as [?|[?|[?|[?|?]]]]; [left; by apply Hj; left|left; by apply Hj; right|done|by right; left|by right; right].
  - destruct (NewSnaplinkVerifier _ _) as [v|e].
    + apply configureRest_enables. left. apply Enabled_spec. right. right. left. by eexists.
    + apply Enabled_spec. by left.
Qed.

End Props.

(** ** Witnesses *)

Module ToyMiddleware.
Import ToyHash ToyRegistry.

(** A bad record leaves the credentials before it in force. *)
Example bad_record_keeps_earlier :
  ParseSigV4Credentials "AKIA:s3cr3t:acme, AKIB" =
  (Some {["AKIA"%string := {| cr_secret := "s3cr3t"; cr_key := plain_key "AKIA" "acme" {[ ScopeRead := true; ScopeWrite := true ]} |}]},
   Some (setting_error "want accessKey:secretKey:tenant[:scope+scope]")).
Proof. by vm_compute. Qed.

Definition get_request (path : string) (headers : Header) : Http := {|
  rq_Method := "GET"; rq_Path := path; rq_EscapedPath := path; rq_RawQuery := ""; rq_Host := "vault"; rq_Header := headers;
  rq_ContentLength := 0; rq_Body := None |}.
Definition with_token : Http := get_request "/v1/files/a" {["Authorization"%string := ["Bearer t0ken-0123456789"%string]]}.
Definition stored_key : Key := plain_key "t0ken-0123456789" "acme" (parseScopeString "read+write").
Definition demo_cfg : AuthConfig := {|
  cfg_Keys := "ops:*:everything"; cfg_PresignSecret := "k"; cfg_JWTSecret := ""; cfg_JWTIssuer := ""; cfg_JWKSEndpoint := "";
  cfg_JWKSAudience := ""; cfg_JWKSTenantClaim := ""; cfg_JWKSClientTenants := ∅; cfg_JWKSDefaultScopes := [];
  cfg_AnonymousPublicRead := true; cfg_SigV4Credentials := "AKIA"; cfg_PersistKeys := false; cfg_KeyCacheTTLSeconds := 0; cfg_TransportDSN := "" |}.
Definition no_sdk (token : string) : result Claims := Err (NewError "no keys").

Lemma admitted_key_is_entitled_witness :
  vouched demo_registry demo_time with_token stored_key /\ Get (pin_tenant with_token "acme") tenantHeader = "acme"%string.
Proof.
  destruct (admitted_key_is_entitled demo_registry demo_time with_token None (pin_tenant with_token "acme") (contextWithKey stored_key)
    (unchanged with_token) stored_key) as (Hv & _ & Ht & _); [by vm_compute|done|]. split; [done|]. by destruct Ht as [[? _]|[? _]].
Defined.

Lemma unauthenticated_is_contained_witness :
  isBypassPath "/healthz" = true \/ ax_anonymous noAuth = true.
Proof.
  destruct (unauthenticated_is_contained demo_registry demo_time (get_request "/healthz" ∅) None (get_request "/healthz" ∅) noAuth
    (unchanged (get_request "/healthz" ∅))) as (_ & [[Hb _]|(_ & Ha & _)]); [by vm_compute|by vm_compute|done|by left|by right].
Defined.

Lemma require_entitles_witness : exists k, Some stored_key = Some k /\ Has k ScopeWrite = true.
Proof.
  destruct (require_entitles demo_registry demo_time with_token None (pin_tenant with_token "acme") (contextWithKey stored_key)
    (unchanged with_token) ScopeWrite (pin_tenant with_token "acme") (contextWithKey stored_key) (unchanged with_token))
    as [(k & Hk & Hs & _)|(? & _)]; [by vm_compute|by vm_compute|by vm_compute|by exists k|done].
Defined.

Lemma locked_down_witness :
  let r := get_request "/share/x" ∅ in
  isBypassPath (rq_Path r) = true \/ isPublicCapabilityPath (rq_Method r) (rq_Path r) = true.
Proof.
  intros r. destruct (locked_down no_sdk demo_cfg demo_store "random" ∅ true
    (NewError "AUTH_KEYS: ops:*:everything: unknown scope everything") demo_time r None r (withAnonymousPrincipal r) (unchanged r))
    as [(k & Hk & _)|[_ Hp]]; [by vm_compute|by vm_compute|done|done].
Defined.

Lemma configured_is_enabled_witness : Enabled (buildAuthRegistry no_sdk demo_cfg demo_store "random") = true.
Proof. apply configured_is_enabled. by left. Defined.
End ToyMiddleware.
