(* ===== verification/SpacesProbes.v ===== *)
(** * Binding and coverage observations of the spaces store

    The two probes answer the facts of the tables exactly, on every reachable database,
    and so implement what the resource boundary of the access decision (Access.v) asks
    of its readers. *)
From Stdlib Require Import Ascii Lia Bool ZArith.
From stdpp Require Import base gmap strings list numbers sorting.
From S2P Require Import Prelude GoStrings GoTime Sql GoErrors Spaces SpacesStore SpacesInvariant Access AccessProps.

Open Scope Z_scope.

(** ** The promise of a binding reader *)

(** [bound] and [status] are the facts: the space behind a bucket and the status of a
    registered tenant. *)
Class BindingAuthority `{UUIDLib} (probe : BindingReader)
    (bound : string -> string -> option (string * Z)) (status : string -> option string) := {
  authority : forall tenant bucket, ValidateBindingInput tenant bucket = None ->
    exists r, probe tenant bucket = (r, None) /\ ValidateBindingResult r = None /\
      br_TenantID r = tenant /\ br_Bucket r = bucket /\
      br_TenantKnown r = bool_decide (is_Some (status tenant)) /\
      br_TenantStatus r = default "" (status tenant) /\
      (br_State r, br_SpaceID r, br_Revision r) =
        match bound tenant bucket with
        | Some (id, revision) => (BindingBound, id, revision)
        | None => (BindingUnbound, "", 0)
        end
}.

(** A live context. *)
Definition live (ctx : Ctx) : Prop := ctx_Err ctx = None /\ ctx_ErrAfter ctx = None.

Section Boundary.
Context `{UUIDLib} (probe : BindingReader) (bound : string -> string -> option (string * Z))
  (status : string -> option string) `{!BindingAuthority probe bound status}.

(** Against an authoritative reader the boundary's verdict is a function of the facts. *)
Lemma CheckBucket_authority coverage ctx tenant bucket :
  live ctx -> ValidateBindingInput tenant bucket = None ->
  CheckBucket (Some {| rb_binding := Some probe; rb_coverage := coverage |}) (Some ctx) tenant bucket =
  match bound tenant bucket with
  | Some _ => Some (Wrap "" [Sentinel ErrDenied; Sentinel ErrSpaceBound])
  | None => boundaryTenantAdmission (bool_decide (is_Some (status tenant))) (default "" (status tenant))
  end.
Proof.
  intros [Hc Ha] Hi. destruct (authority tenant bucket Hi) as (r & Hp & Hv & Ht & Hb & Hk & Hs & Hst).
  unfold CheckBucket. cbn. rewrite Hc, Hi. cbn. rewrite Hp, Ha. cbn. rewrite Hv. cbn.
  rewrite Ht, Hb, !streqb_refl. cbn. rewrite Hk, Hs.
  destruct (bound tenant bucket) as [[id rev]|]; injection Hst as -> _ _; done.
Qed.
End Boundary.

(** ** Canonical identifiers are identifiers *)

Lemma decode_ascii bs : forallb (fun b => b <? 128) bs = true -> decode bs = Some bs.
Proof.
  induction bs as [|b bs IH]; cbn; [done|]. intros [Hb Hbs]%andb_true_iff. rewrite Hb, IH by done. done.
Qed.

Definition graphic (b : Z) : bool := (33 <=? b) && (b <=? 126).

Lemma graphic_rune b : graphic b = true -> IsSpace b = false /\ IsControl b = false /\ (b <? 128) = true.
Proof.
  unfold graphic. rewrite andb_true_iff, !Z.leb_le. intros [Hlo Hhi]. unfold IsSpace, IsControl, in_range.
  rewrite Z.ltb_lt, !orb_false_iff, !andb_false_iff, !Z.leb_gt, !Z.eqb_neq. lia.
Qed.

Lemma ValidateIdentifier_graphic s :
  s <> "" -> forallb graphic (map byte_val (String.list_ascii_of_string s)) = true ->
  ValidateIdentifier s = None.
Proof.
  intros Hs Hg. set (bs := map byte_val _) in *.
  assert (forall b, b ∈ bs -> IsSpace b = false /\ IsControl b = false /\ (b <? 128) = true) as Hb.
  { intros b Hb. apply graphic_rune. rewrite forallb_elem in Hg. by apply Hg. }
  unfold ValidateIdentifier, runes. fold bs. rewrite decode_ascii
    by (apply forallb_elem; intros b ?; by apply Hb).
  destruct (String.eqb_spec s ""); [done|]. cbn.
  assert (has_outer_space bs = false) as ->.
  { unfold has_outer_space. destruct bs as [|x bs'] eqn:E; [done|]. cbn [list.head].
    destruct (list.last (x :: bs')) as [y|] eqn:El; [|done].
    destruct (Hb x) as [-> _]; [by left|]. destruct (Hb y) as [-> _]; [by apply last_Some_elem_of|done]. }
  assert (existsb IsControl bs = false) as ->; [|done].
  apply existsb_none. intros b ?. by apply Hb.
Qed.

Lemma ValidateID_form `{UUIDLaws} id :
  ValidateID id = None -> forallb uuid_char (String.list_ascii_of_string id) = true.
Proof.
  unfold ValidateID. destruct (uuid_Parse id) as [u|]; [|done]. destruct (uuid_eqb u uuid_Nil); [done|]. cbn.
  destruct (String.eqb_spec (uuid_String u) id) as [<-|]; [intros _; apply uuid_String_chars|done].
Qed.

Lemma backing_bucket_valid `{UUIDLaws} tenant id :
  ValidateTenant tenant = None -> ValidateID id = None ->
  ValidateBindingInput tenant ("spc-" ++ id)%string = None.
Proof.
  intros Ht Hid. unfold ValidateBindingInput. rewrite Ht. cbn [andThen].
  rewrite (ValidateIdentifier_graphic ("spc-" ++ id)%string); [done|done|].
  cbn -[graphic]. apply ValidateID_form in Hid. rewrite !andb_true_iff. repeat split.
  apply forallb_elem. intros b (a & -> & Ha)%list_elem_of_fmap.
  rewrite forallb_elem in Hid. apply Hid in Ha. revert Ha. unfold uuid_char, graphic.
  rewrite !orb_true_iff, !andb_true_iff, !Z.leb_le, Z.eqb_eq. lia.
Qed.

(** ** The binding probe *)

Lemma left_join_unique {A K} (key : A -> K) (p : A -> bool) (l : list A) :
  NoDup (map key l) -> (forall x y, p x = true -> p y = true -> key x = key y) ->
  left_join p l = [List.find p l].
Proof.
  intros Hn Hp. unfold left_join. destruct (List.find p l) as [x|] eqn:E.
  - apply find_some in E as [Hx Hpx]. apply list_elem_of_In in Hx.
    assert (List.filter p l = [x]) as ->; [|done].
    assert (x ∈ List.filter p l) as Hin by (by apply elem_filter_b).
    pose proof (NoDup_map_filter key p l Hn) as Hnf.
    destruct (List.filter p l) as [|y [|z r]] eqn:Ef; [by apply not_elem_of_nil in Hin| |].
    + by apply list_elem_of_singleton in Hin as ->.
    + assert (p y = true /\ p z = true) as [Hy Hz].
      { split; eapply elem_filter_b; rewrite Ef; [by left|by right; left]. }
      apply list.NoDup_cons in Hnf as [Hnf _]. destruct Hnf. rewrite (Hp y z Hy Hz). by left.
  - rewrite filter_none; [done|]. intros x Hx. apply (find_none _ _ E). by apply list_elem_of_In.
Qed.

Section Probe.
Context `{UUIDLaws}.

Definition tenant_row (db : SpaceDB) (tenant : string) : option TenantRow :=
  List.find (fun t => t_tenant_id t =s tenant) (db_tenants db).
Definition space_at (db : SpaceDB) (tenant bucket : string) : option SpaceRow :=
  List.find (fun r => (sp_tenant_id r =s tenant) && (sp_backing_bucket r =s bucket)) (db_spaces db).

(** The facts of the tables. *)
Definition db_status (db : SpaceDB) (tenant : string) : option string :=
  t_status <$> tenant_row db tenant.
Definition db_bound (db : SpaceDB) (tenant bucket : string) : option (string * Z) :=
  (fun s => (sp_id s, sp_revision s)) <$> space_at db tenant bucket.

Lemma tenant_join db tenant :
  spaces_inv db -> left_join (fun t => t_tenant_id t =s tenant) (db_tenants db) = [tenant_row db tenant].
Proof.
  intros Hi. apply (left_join_unique t_tenant_id); [apply Hi|].
  intros x y. rewrite !streqb_true. congruence.
Qed.

Lemma spaceBindingQuery_row db tenant bucket :
  spaces_inv db ->
  spaceBindingQuery db tenant bucket = [binding_row (tenant_row db tenant) (space_at db tenant bucket)].
Proof.
  intros Hi. unfold spaceBindingQuery. rewrite tenant_join by done.
  rewrite (left_join_unique space_bucket_key); [done|apply Hi|].
  intros x y. rewrite !andb_true_iff, !streqb_true. unfold space_bucket_key. intros [-> ->] [-> ->]. done.
Qed.

Lemma tenant_row_id db tenant row : tenant_row db tenant = Some row -> t_tenant_id row = tenant.
Proof. intros [_ Ht]%find_some. by apply streqb_true in Ht. Qed.

Lemma space_at_Some db tenant bucket s :
  space_at db tenant bucket = Some s ->
  s ∈ db_spaces db /\ sp_tenant_id s = tenant /\ sp_backing_bucket s = bucket.
Proof.
  intros [Hs Hk]%find_some. apply andb_true_iff in Hk as [Ht Hb].
  apply streqb_true in Ht, Hb. split; [by apply list_elem_of_In|done].
Qed.

Lemma space_tenant_known db s :
  spaces_inv db -> s ∈ db_spaces db -> exists row, tenant_row db (sp_tenant_id s) = Some row.
Proof.
  intros Hi Hs. pose proof (si_tenant_fk db Hi s Hs) as Ht. unfold tenant_row.
  destruct (List.find _ _) as [row|] eqn:E; [by exists row|].
  apply list_elem_of_fmap in Ht as (x & Hx & Hin).
  pose proof (find_none _ _ E x (proj1 (list_elem_of_In _ _) Hin)) as Hf. cbn in Hf.
  by rewrite Hx, streqb_refl in Hf.
Qed.

(** The observation of the tables. *)
Definition observed (db : SpaceDB) (tenant bucket : string) : BindingResult := {|
  br_TenantID := tenant; br_Bucket := bucket;
  br_TenantKnown := bool_decide (is_Some (db_status db tenant));
  br_TenantStatus := default "" (db_status db tenant);
  br_State := match space_at db tenant bucket with Some _ => BindingBound | None => BindingUnbound end;
  br_SpaceID := match space_at db tenant bucket with Some s => sp_id s | None => "" end;
  br_Revision := match space_at db tenant bucket with Some s => sp_revision s | None => 0 end |}.

Lemma observed_valid db tenant bucket :
  spaces_inv db -> ValidateBindingInput tenant bucket = None ->
  ValidateBindingResult (observed db tenant bucket) = None.
Proof.
  intros Hi Hv. unfold ValidateBindingResult, validateBoundResult, observed, db_status. cbn. rewrite Hv. cbn.
  destruct (space_at db tenant bucket) as [s|] eqn:E; cbn.
  - apply space_at_Some in E as (Hs & <- & _). destruct (si_spaces db Hi s Hs) as (Hc & _ & Hid & _).
    destruct (space_tenant_known db s Hi Hs) as (row & ->). cbn. rewrite Hid. cbn.
    pose proof (check_space_revision s Hc). destruct (Z.leb_spec (sp_revision s) 0); [lia|done].
  - by destruct (tenant_row db tenant).
Qed.

(** Rows by their keys. *)
Lemma space_at_unique db s :
  spaces_inv db -> s ∈ db_spaces db -> space_at db (sp_tenant_id s) (sp_backing_bucket s) = Some s.
Proof.
  intros Hi Hs. destruct (space_at _ _ _) as [x|] eqn:E.
  - apply space_at_Some in E as (Hx & Ht & Hb). f_equal.
    apply (NoDup_map_inj space_bucket_key (db_spaces db)); [apply Hi|done|done|].
    unfold space_bucket_key. by rewrite Ht, Hb.
  - pose proof (find_none _ _ E s (proj1 (list_elem_of_In _ _) Hs)) as Hf. cbn in Hf.
    by rewrite !streqb_refl in Hf.
Qed.

Lemma tenant_row_unique db t :
  spaces_inv db -> t ∈ db_tenants db -> tenant_row db (t_tenant_id t) = Some t.
Proof.
  intros Hi Ht. pose proof (query_row_unique t_tenant_id (db_tenants db) t (si_tenants db Hi) Ht) as Hq.
  unfold query_row, tenant_row in *. by destruct (List.find _ _); [injection Hq as ->|].
Qed.

Lemma ProbeSpaceBinding_run db tenant bucket :
  spaces_inv db -> ValidateBindingInput tenant bucket = None ->
  ProbeSpaceBinding None db tenant bucket = Ok (observed db tenant bucket).
Proof.
  intros Hi Hv. unfold ProbeSpaceBinding. rewrite Hv. cbn. rewrite spaceBindingQuery_row by done.
  assert (scanSpaceBinding (binding_row (tenant_row db tenant) (space_at db tenant bucket)) tenant bucket =
          Ok (observed db tenant bucket)) as ->; [|done].
  pose proof (observed_valid db tenant bucket Hi Hv) as Hval.
  unfold scanSpaceBinding, observed, db_status in *. cbn in *.
  destruct (tenant_row db tenant) as [row|] eqn:Et; cbn in *.
  - rewrite (tenant_row_id _ _ _ Et), streqb_refl. cbn.
    destruct (space_at db tenant bucket) as [s|] eqn:Es; cbn in *.
    + apply space_at_Some in Es as (_ & -> & ->). unfold spaceBindingFromRow. cbn. rewrite !streqb_refl. cbn.
      by rewrite Hval.
    + by rewrite Hval.
  - destruct (space_at db tenant bucket) as [s|] eqn:Es; cbn in *.
    + apply space_at_Some in Es as (Hs & <- & _). destruct (space_tenant_known db s Hi Hs) as (row & Hrow). congruence.
    + by rewrite Hval.
Qed.

Definition zeroBinding : BindingResult := {|
  br_TenantID := ""; br_Bucket := ""; br_TenantKnown := false; br_TenantStatus := "";
  br_State := ""; br_SpaceID := ""; br_Revision := 0 |}.

(** The store as the boundary's reader. *)
Definition binding_reader (ctx : option error) (db : SpaceDB) : BindingReader := fun tenant bucket =>
  match ProbeSpaceBinding ctx db tenant bucket with
  | Ok r => (r, None)
  | Err e => (zeroBinding, Some e)
  end.

Lemma spaces_authority db :
  spaces_inv db -> BindingAuthority (binding_reader None db) (db_bound db) (db_status db).
Proof.
  intros Hi. split. intros tenant bucket Hv. exists (observed db tenant bucket).
  unfold binding_reader. rewrite ProbeSpaceBinding_run by done.
  split; [done|]. split; [by apply observed_valid|]. repeat split.
  unfold db_bound. cbn. by destruct (space_at db tenant bucket).
Qed.
End Probe.

(** On every reachable database the binding probe answers, for every valid tenant and
    bucket name, the facts of the tables: it never fails, its answer is well formed, the
    tenant's status is the registered one, and the space is the one the bucket backs, at
    its current revision, if there is one. *)
Theorem ProbeSpaceBinding_exact `{UUIDLaws} d db tenant bucket :
  spaces_reachable d db -> ValidateBindingInput tenant bucket = None ->
  exists r, ProbeSpaceBinding None db tenant bucket = Ok r /\ ValidateBindingResult r = None /\
    br_TenantID r = tenant /\ br_Bucket r = bucket /\
    (forall s, s ∈ db_spaces db -> space_bucket_key s = (tenant, bucket) ->
       br_State r = BindingBound /\ br_SpaceID r = sp_id s /\ br_Revision r = sp_revision s) /\
    ((forall s, s ∈ db_spaces db -> space_bucket_key s <> (tenant, bucket)) ->
       br_State r = BindingUnbound) /\
    (forall t, t ∈ db_tenants db -> t_tenant_id t = tenant ->
       br_TenantKnown r = true /\ br_TenantStatus r = t_status t).
Proof.
  intros Hi%spaces_reachable_inv Hv. exists (observed db tenant bucket).
  split; [by apply ProbeSpaceBinding_run|]. split; [by apply observed_valid|].
  split; [done|]. split; [done|]. unfold observed, db_status. cbn. split; [|split].
  - intros s Hs [= <- <-]. by rewrite (space_at_unique db s Hi Hs).
  - intros Hno. destruct (space_at db tenant bucket) as [s|] eqn:E; [|done].
    apply space_at_Some in E as (Hs & <- & <-). by destruct (Hno s Hs).
  - intros t Ht <-. by rewrite (tenant_row_unique db t Hi Ht).
Qed.

Lemma ProbeSpaceBinding_exact_witness :
  let t := "acme"%string in let b := ("spc-" ++ SpacesExample.space_id)%string in
  exists r, @ProbeSpaceBinding SpacesExample.uuids None SpacesExample.db2 t b = Ok r /\
    br_State r = BindingBound /\ br_Revision r = 2.
Proof.
  intros t b.
  assert (ValidateBindingInput t b = None) as Hv by (vm_compute; reflexivity).
  destruct (@ProbeSpaceBinding_exact SpacesExample.uuids SpacesExample.uuid_laws dialectSQLite
    SpacesExample.db2 t b SpacesExample.reach2 Hv) as (r & Hr & _ & _ & _ & Hb & _).
  exists r. split; [exact Hr|].
  destruct (Hb (bump_revision SpacesExample.ann SpacesExample.now
    (space_row (new_space SpacesExample.now SpacesExample.create)))) as (Hs & _ & Hrev).
  - apply list_elem_of_In. vm_compute. left. reflexivity.
  - reflexivity.
  - split; [exact Hs|exact Hrev].
Defined.

(** With the store as its reader, the bucket boundary in front of every decision
    fences the backing buckets: on every reachable database a request for the bucket of
    a space is refused as bound to a space, and a request for any other bucket is
    admitted exactly when its tenant is not registered or is active. *)
Theorem boundary_fences_space_buckets `{UUIDLaws} d db ctx tenant bucket :
  spaces_reachable d db -> live ctx -> ValidateBindingInput tenant bucket = None ->
  let verdict := CheckBucket (Some {| rb_binding := Some (binding_reader None db); rb_coverage := None |})
                   (Some ctx) tenant bucket in
  (forall s, s ∈ db_spaces db -> space_bucket_key s = (tenant, bucket) ->
     verdict = Some (Wrap "" [Sentinel ErrDenied; Sentinel ErrSpaceBound])) /\
  ((forall s, s ∈ db_spaces db -> space_bucket_key s <> (tenant, bucket)) ->
     verdict = None <-> forall t, t ∈ db_tenants db -> t_tenant_id t = tenant -> t_status t = "active"%string).
Proof.
  intros Hi%spaces_reachable_inv Hl Hv verdict. unfold verdict.
  pose proof (spaces_authority db Hi) as Hau.
  rewrite (CheckBucket_authority _ (db_bound db) (db_status db)) by done. split.
  - intros s Hs [= <- <-]. unfold db_bound. by rewrite (space_at_unique db s Hi Hs).
  - intros Hno. unfold db_bound. destruct (space_at db tenant bucket) as [s|] eqn:E; cbn.
    { apply space_at_Some in E as (Hs & <- & <-). by destruct (Hno s Hs). }
    rewrite boundaryTenantAdmission_None. unfold db_status.
    destruct (tenant_row db tenant) as [row|] eqn:Et; cbn; split.
    + intros [|Ha] t Ht <-; [done|]. rewrite (tenant_row_unique db t Hi Ht) in Et. by injection Et as ->.
    + intros Ha. right. apply find_some in Et as Hrow. destruct Hrow as [Hin _].
      apply Ha; [by apply list_elem_of_In|by apply (tenant_row_id db)].
    + intros _ t Ht <-. by rewrite (tenant_row_unique db t Hi Ht) in Et.
    + by left.
Qed.

Lemma boundary_fences_space_buckets_witness :
  let t := "acme"%string in let b := ("spc-" ++ SpacesExample.space_id)%string in
  @CheckBucket SpacesExample.uuids (Some {| rb_binding := Some (@binding_reader SpacesExample.uuids None SpacesExample.db2);
                        rb_coverage := None |}) (Some FixedStore.ctx) t b =
  Some (Wrap "" [Sentinel ErrDenied; Sentinel ErrSpaceBound]).
Proof.
  intros t b.
  assert (@ValidateBindingInput t b = None) as Hv by (vm_compute; reflexivity).
  assert (live FixedStore.ctx) as Hl by (split; reflexivity).
  apply (proj1 (@boundary_fences_space_buckets SpacesExample.uuids SpacesExample.uuid_laws dialectSQLite
    SpacesExample.db2 FixedStore.ctx t b SpacesExample.reach2 Hl Hv)
    (bump_revision SpacesExample.ann SpacesExample.now
       (space_row (new_space SpacesExample.now SpacesExample.create)))).
  - apply list_elem_of_In. vm_compute. left. reflexivity.
  - reflexivity.
Defined.

(** * Coverage observations of the spaces store

    On every reachable database the coverage probe answers, and its witnesses are exactly
    the spaces of the scope. *)
Open Scope Z_scope.

#[local] Arguments coverage_add : simpl never.

Section Coverage.
Context `{UUIDLaws} (db : SpaceDB) (Hi : spaces_inv db).

(** The observation of one space. *)
Definition witness (s : SpaceRow) : BindingResult := observed db (sp_tenant_id s) (sp_backing_bucket s).

#[local] Arguments witness : simpl never.

(** The row the coverage queries give for a space. *)
Definition space_coverage_row (s : SpaceRow) : BindingRow :=
  binding_row (tenant_row db (sp_tenant_id s)) (Some s).

Definition in_scope (scope : CoverageScope) (s : SpaceRow) : bool :=
  (cs_Kind scope =s CoverageGlobal) || (sp_tenant_id s =s cs_TenantID scope).

Lemma witness_facts s :
  s ∈ db_spaces db ->
  br_State (witness s) = BindingBound /\ br_SpaceID (witness s) = sp_id s /\
  br_Revision (witness s) = sp_revision s /\ br_TenantKnown (witness s) = true.
Proof.
  intros Hs. unfold witness, observed, db_status. cbn. rewrite (space_at_unique db s Hi Hs).
  by destruct (space_tenant_known db s Hi Hs) as (row & ->).
Qed.

Lemma witness_valid s : s ∈ db_spaces db -> ValidateBindingResult (witness s) = None.
Proof.
  intros Hs. apply observed_valid; [done|]. destruct (si_spaces db Hi s Hs) as (_ & Ht & Hid & ->).
  by apply backing_bucket_valid.
Qed.

Lemma scan_coverage_space scope s :
  s ∈ db_spaces db -> in_scope scope s = true ->
  scanSpaceCoverageRow (space_coverage_row s) scope = Ok (witness s).
Proof.
  intros Hs Hin. destruct (space_tenant_known db s Hi Hs) as (row & Hrow).
  assert ((if cs_Kind scope =s CoverageGlobal then sp_tenant_id s else cs_TenantID scope) = sp_tenant_id s) as Ht.
  { unfold in_scope in Hin. destruct (cs_Kind scope =s CoverageGlobal); [done|]. cbn in Hin.
    by apply streqb_true in Hin as ->. }
  pose proof (witness_valid s Hs) as Hv.
  unfold witness, observed, db_status in *. rewrite (space_at_unique db s Hi Hs), Hrow in *.
  unfold scanSpaceCoverageRow, space_coverage_row. cbn. rewrite Ht, Hrow. cbn.
  rewrite (tenant_row_id _ _ _ Hrow), streqb_refl. cbn. unfold spaceBindingFromRow. cbn.
  rewrite !streqb_refl. cbn in *. by rewrite Hv.
Qed.

(** The state of the scan after the witnesses [ws], with the tenant facts of the scope. *)
Definition scanned (scope : CoverageScope) (known : bool) (status : string) (ws : list BindingResult)
    : spaceCoverageObservation := {|
  co_result := {| cr_Scope := scope; cr_TenantKnown := known; cr_TenantStatus := status;
                  cr_State := CoverageBound; cr_Complete := false; cr_Witnesses := ws |};
  co_observed := true; co_unbound := false |}.

(** The tenant facts of a tenant scope; a global observation has none. *)
Definition scope_known (scope : CoverageScope) : bool :=
  (cs_Kind scope =s CoverageTenant) && bool_decide (is_Some (db_status db (cs_TenantID scope))).
Definition scope_status (scope : CoverageScope) : string :=
  if (cs_Kind scope =s CoverageTenant) then default "" (db_status db (cs_TenantID scope)) else "".

Lemma scope_kinds scope :
  ValidateCoverageScope scope = None ->
  (cs_Kind scope = CoverageTenant /\ ValidateTenant (cs_TenantID scope) = None) \/
  cs_Kind scope = CoverageGlobal.
Proof.
  unfold ValidateCoverageScope. destruct (String.eqb_spec (cs_Kind scope) CoverageTenant); [by left|].
  destruct (String.eqb_spec (cs_Kind scope) CoverageGlobal); [by right|done].
Qed.

(** In a tenant scope every witness carries the tenant's facts. *)
Lemma witness_scope scope s :
  s ∈ db_spaces db -> in_scope scope s = true -> cs_Kind scope = CoverageTenant ->
  br_TenantID (witness s) = cs_TenantID scope /\ br_TenantKnown (witness s) = scope_known scope /\
  br_TenantStatus (witness s) = scope_status scope.
Proof.
  unfold in_scope, scope_known, scope_status. intros Hs Hin Hk. rewrite Hk in *. cbn in *.
  apply streqb_true in Hin. unfold witness, observed. cbn. by rewrite Hin.
Qed.

Lemma add_witness scope s (ws : list BindingResult) :
  s ∈ db_spaces db -> in_scope scope s = true -> ValidateCoverageScope scope = None ->
  coverage_add (scanned scope (scope_known scope) (scope_status scope) ws) (witness s) =
  Ok (scanned scope (scope_known scope) (scope_status scope) (ws ++ [witness s])).
Proof.
  intros Hs Hin Hv. destruct (witness_facts s Hs) as (Hb & _). unfold coverage_add, scanned. cbn.
  rewrite Hb. cbn. destruct (scope_kinds scope Hv) as [[Hk _]|Hk].
  - destruct (witness_scope scope s Hs Hin Hk) as (_ & -> & ->). rewrite Hk. cbn.
    by rewrite eqb_reflx, streqb_refl.
  - by rewrite Hk.
Qed.

Lemma scan_spaces scope l (ws : list BindingResult) :
  (forall s, s ∈ l -> s ∈ db_spaces db /\ in_scope scope s = true) ->
  ValidateCoverageScope scope = None ->
  coverage_scan scope (map space_coverage_row l)
    (scanned scope (scope_known scope) (scope_status scope) ws) =
  Ok (scanned scope (scope_known scope) (scope_status scope) (ws ++ map witness l)).
Proof.
  intros Hl Hv. revert ws. induction l as [|s l IH]; intros ws; cbn; [by rewrite app_nil_r|].
  destruct (Hl s) as [Hs Hin]; [by left|]. rewrite scan_coverage_space by done. cbn.
  rewrite add_witness by done. cbn. rewrite IH by (intros x Hx; apply Hl; by right).
  by rewrite <- app_assoc.
Qed.

Definition scan_start (scope : CoverageScope) : spaceCoverageObservation := {|
  co_result := {| cr_Scope := scope; cr_TenantKnown := false; cr_TenantStatus := "";
                  cr_State := CoverageUnbound; cr_Complete := false; cr_Witnesses := [] |};
  co_observed := false; co_unbound := false |}.

Lemma scan_bound scope s l :
  (forall x, x ∈ s :: l -> x ∈ db_spaces db /\ in_scope scope x = true) ->
  ValidateCoverageScope scope = None ->
  coverage_scan scope (map space_coverage_row (s :: l)) (scan_start scope) =
  Ok (scanned scope (scope_known scope) (scope_status scope) (map witness (s :: l))).
Proof.
  intros Hl Hv. destruct (Hl s) as [Hs Hin]; [by left|]. cbn. rewrite scan_coverage_space by done. cbn.
  assert (coverage_add (scan_start scope) (witness s) =
          Ok (scanned scope (scope_known scope) (scope_status scope) [witness s])) as ->.
  { destruct (witness_facts s Hs) as (Hb & _). unfold coverage_add, scanned, scan_start. cbn. rewrite Hb. cbn.
    unfold scope_known, scope_status. destruct (scope_kinds scope Hv) as [[Hk _]|Hk].
    - destruct (witness_scope scope s Hs Hin Hk) as (_ & Hkn & Hst).
      unfold scope_known, scope_status in Hkn, Hst. by rewrite Hkn, Hst, Hk.
    - by rewrite Hk. }
  cbn. by rewrite scan_spaces by (done || intros x Hx; apply Hl; by right).
Qed.

(** ** The rows of the queries *)

Definition scope_list (scope : CoverageScope) : list SpaceRow :=
  if (cs_Kind scope =s CoverageTenant)
  then List.filter (fun r => sp_tenant_id r =s cs_TenantID scope) (sort_by sp_bucket_le (db_spaces db))
  else sort_by sp_global_le (db_spaces db).

Lemma scope_list_perm scope :
  ValidateCoverageScope scope = None -> scope_list scope ≡ₚ List.filter (in_scope scope) (db_spaces db).
Proof.
  intros Hv. unfold scope_list. destruct (scope_kinds scope Hv) as [[Hk _]|Hk]; rewrite Hk; cbn.
  - rewrite (filter_perm _ _ (db_spaces db)) by apply merge_sort_Permutation.
    erewrite List.filter_ext; [done|]. intros r. unfold in_scope. by rewrite Hk.
  - rewrite filter_all; [apply merge_sort_Permutation|]. intros r _. unfold in_scope. by rewrite Hk.
Qed.

Lemma scope_list_elem scope s :
  ValidateCoverageScope scope = None -> s ∈ scope_list scope ->
  s ∈ db_spaces db /\ in_scope scope s = true.
Proof. intros Hv Hs. rewrite (scope_list_perm scope Hv) in Hs. by apply elem_filter_b in Hs. Qed.

Definition scope_rows (scope : CoverageScope) : list BindingRow :=
  if (cs_Kind scope =s CoverageTenant) then spaceCoverageTenantQuery db (cs_TenantID scope)
  else spaceCoverageGlobalQuery db.

(** The row of an empty scope. *)
Definition absence_row (scope : CoverageScope) : BindingRow :=
  binding_row (if (cs_Kind scope =s CoverageTenant) then tenant_row db (cs_TenantID scope) else None) None.

Lemma list_bind_single {A B} (f : A -> B) (l : list A) : (x ← l; [f x]) = map f l.
Proof. induction l as [|x l IH]; cbn; [done|]. by f_equal. Qed.

Lemma left_join_all {A} (l : list A) :
  left_join (fun _ => true) l = match l with [] => [None] | _ => map Some l end.
Proof. unfold left_join. rewrite filter_all by done. by destruct l. Qed.

Lemma tenant_query_rows tenant :
  spaceCoverageTenantQuery db tenant =
  map (binding_row (tenant_row db tenant))
    (left_join (fun r => sp_tenant_id r =s tenant) (sort_by sp_bucket_le (db_spaces db))).
Proof.
  unfold spaceCoverageTenantQuery. rewrite tenant_join by done. cbn. rewrite app_nil_r.
  apply list_bind_single.
Qed.

Lemma global_query_rows l :
  (forall s, s ∈ l -> s ∈ db_spaces db) ->
  (sp ← map Some l;
   t ← left_join (fun t => match sp with
                           | Some r => t_tenant_id t =s sp_tenant_id r
                           | None => false
                           end) (db_tenants db);
   [binding_row t sp]) = map space_coverage_row l.
Proof.
  induction l as [|s l IH]; intros Hl; [done|]. cbn. rewrite tenant_join by done. cbn. f_equal.
  apply IH. intros x Hx. apply Hl. by right.
Qed.

Lemma scope_rows_spaces scope :
  ValidateCoverageScope scope = None ->
  scope_rows scope = match scope_list scope with
                     | [] => [absence_row scope]
                     | l => map space_coverage_row l
                     end.
Proof.
  intros Hv. pose proof (fun s => scope_list_elem scope s Hv) as Hel.
  unfold scope_rows, absence_row, scope_list in *.
  destruct (scope_kinds scope Hv) as [[Hk _]|Hk]; rewrite Hk in *.
  - rewrite streqb_refl in *. rewrite tenant_query_rows. unfold left_join.
    destruct (List.filter _ _) as [|s l]; [done|]. rewrite map_map.
    apply map_ext_in. intros x Hx. apply list_elem_of_In, Hel in Hx as [_ Hx].
    unfold in_scope in Hx. rewrite Hk in Hx. cbn in Hx. apply streqb_true in Hx.
    unfold space_coverage_row. by rewrite Hx.
  - change (CoverageGlobal =s CoverageTenant) with false in *. cbv iota in *.
    unfold spaceCoverageGlobalQuery. rewrite left_join_all.
    destruct (sort_by sp_global_le (db_spaces db)) as [|s l] eqn:E.
    + cbn. unfold left_join. by rewrite filter_none.
    + apply global_query_rows. intros x Hx. by apply Hel.
Qed.

(** ** The answer *)

Definition bound_result (scope : CoverageScope) (ws : list BindingResult) : CoverageResult :=
  complete (co_result (scanned scope (scope_known scope) (scope_status scope) ws)).

Definition unbound_result (scope : CoverageScope) : CoverageResult := {|
  cr_Scope := scope; cr_TenantKnown := scope_known scope; cr_TenantStatus := scope_status scope;
  cr_State := CoverageUnbound; cr_Complete := true; cr_Witnesses := [] |}.

Lemma scan_absence scope :
  ValidateCoverageScope scope = None ->
  exists o, coverage_scan scope [absence_row scope] (scan_start scope) = Ok o /\
    co_observed o = true /\ complete (co_result o) = unbound_result scope.
Proof.
  intros Hv. unfold absence_row, unbound_result, scope_known, scope_status, db_status. cbn.
  destruct (scope_kinds scope Hv) as [[Hk _]|Hk]; unfold scanSpaceCoverageRow; rewrite Hk; cbn.
  - destruct (tenant_row db (cs_TenantID scope)) as [row|] eqn:E; cbn;
      [rewrite (tenant_row_id _ _ _ E), streqb_refl|];
      unfold coverage_add, scan_start; cbn; rewrite Hk; cbn; by eexists.
  - unfold coverage_add, scan_start. cbn. rewrite Hk. cbn. by eexists.
Qed.

Lemma tenant_facts_valid scope ws state whole :
  ValidateCoverageScope scope = None ->
  validateCoverageTenant {| cr_Scope := scope; cr_TenantKnown := scope_known scope;
    cr_TenantStatus := scope_status scope; cr_State := state; cr_Complete := whole;
    cr_Witnesses := ws |} = None.
Proof.
  intros Hv. unfold validateCoverageTenant, scope_known, scope_status, db_status. cbn.
  destruct (scope_kinds scope Hv) as [[Hk _]|Hk]; rewrite Hk; cbn; [|done].
  by destruct (tenant_row db (cs_TenantID scope)).
Qed.

Lemma map_NoDup_perm {A K} (key : A -> K) (l k : list A) :
  l ≡ₚ k -> NoDup (map key k) -> NoDup (map key l).
Proof. intros Hp. by rewrite (Permutation_map key Hp). Qed.

Lemma scope_witnesses_valid scope :
  ValidateCoverageScope scope = None ->
  coverageWitnesses (bound_result scope (map witness (scope_list scope)))
    (map witness (scope_list scope)) ∅ ∅ ∅ = None.
Proof.
  intros Hv. pose proof (scope_list_perm scope Hv) as Hp.
  apply coverageWitnesses_spec. split; [|split; [|split; [|split; [|split]]]].
  - intros w (s & -> & Hs)%list_elem_of_fmap. destruct (scope_list_elem scope s Hv Hs) as [Hin Hsc].
    destruct (witness_facts s Hin) as (Hb & _). unfold validateCoverageWitness.
    rewrite (witness_valid s Hin), Hb. cbn. destruct (scope_kinds scope Hv) as [[Hk _]|Hk]; rewrite Hk; [|done].
    destruct (witness_scope scope s Hin Hsc Hk) as (-> & -> & ->).
    by rewrite !streqb_refl, eqb_reflx.
  - rewrite map_map. apply (map_NoDup_perm _ _ _ Hp), (NoDup_map_filter space_bucket_key), Hi.
  - intros w _. apply not_elem_of_empty.
  - assert (map w_space (map witness (scope_list scope)) = map space_key (scope_list scope)) as ->.
    { rewrite map_map. apply map_ext_in. intros s Hs. apply list_elem_of_In in Hs.
      destruct (scope_list_elem scope s Hv Hs) as [Hin _].
      destruct (witness_facts s Hin) as (_ & Hid & _). unfold w_space. by rewrite Hid. }
    apply (map_NoDup_perm _ _ _ Hp), NoDup_map_filter, Hi.
  - intros w _. apply not_elem_of_empty.
  - split; [done|].
    intros w w' (s & -> & _)%list_elem_of_fmap (s' & -> & _)%list_elem_of_fmap.
    unfold witness, observed. cbn. by intros ->.
Qed.

Lemma ProbeSpaceCoverage_run scope :
  ValidateCoverageScope scope = None ->
  ProbeSpaceCoverage None db scope =
  Ok (match scope_list scope with
      | [] => unbound_result scope
      | l => bound_result scope (map witness l)
      end) /\
  ValidateCoverageObservation scope
    (match scope_list scope with
     | [] => unbound_result scope
     | l => bound_result scope (map witness l)
     end) = None.
Proof.
  intros Hv. set (r := match scope_list scope with [] => _ | _ => _ end).
  assert (ValidateCoverageObservation scope r = None) as Hval.
  { pose proof (scope_witnesses_valid scope Hv) as Hw. unfold ValidateCoverageObservation, ValidateCoverageResult.
    unfold r. destruct (scope_list scope) as [|s l]; unfold bound_result, unbound_result, scanned, complete in *;
      cbn [cr_Scope co_result] in *; rewrite Hv, tenant_facts_valid by done; cbn [andThen].
    - cbn. by rewrite bool_decide_eq_true_2.
    - unfold validateCoverageWitnesses. cbn [cr_Witnesses cr_Scope cr_TenantKnown cr_TenantStatus cr_State cr_Complete] in *.
      rewrite Hw. cbn. by rewrite bool_decide_eq_true_2. }
  split; [|done]. unfold ProbeSpaceCoverage. rewrite Hv. cbn [checked res_bind query].
  fold (scope_rows scope). rewrite scope_rows_spaces by done. unfold scanSpaceCoverage. fold (scan_start scope).
  pose proof (fun s => scope_list_elem scope s Hv) as Hel.
  unfold r in *. clear r. destruct (scope_list scope) as [|s l].
  - destruct (scan_absence scope Hv) as (o & -> & Ho & Hr). cbn [res_bind]. rewrite Ho. cbn [negb].
    by rewrite Hr, Hval.
  - rewrite scan_bound by done. cbn [res_bind co_observed scanned negb].
    change (complete _) with (bound_result scope (map witness (s :: l))). by rewrite Hval.
Qed.
End Coverage.

(** On every reachable database the coverage probe answers every valid scope.  Its
    answer is complete and well formed; its witnesses are exactly the spaces of the
    scope (of the tenant, or of all tenants), each with its bucket, id and current
    revision and none twice; and it reports the scope as unbound exactly when it has no
    space. *)
Theorem ProbeSpaceCoverage_exact `{UUIDLaws} d db scope :
  spaces_reachable d db -> ValidateCoverageScope scope = None ->
  exists r, ProbeSpaceCoverage None db scope = Ok r /\ ValidateCoverageObservation scope r = None /\
    cr_Complete r = true /\
    map (fun w => (br_TenantID w, br_Bucket w, br_SpaceID w, br_Revision w)) (cr_Witnesses r) ≡ₚ
    map (fun s => (sp_tenant_id s, sp_backing_bucket s, sp_id s, sp_revision s))
      (List.filter (in_scope scope) (db_spaces db)) /\
    (cr_State r = CoverageUnbound <-> List.filter (in_scope scope) (db_spaces db) = []).
Proof.
  intros Hi%spaces_reachable_inv Hv. destruct (ProbeSpaceCoverage_run db Hi scope Hv) as [Hrun Hval].
  pose proof (scope_list_perm db scope Hv) as Hp. pose proof (fun s => scope_list_elem db scope s Hv) as Hel.
  eexists. split; [exact Hrun|]. split; [exact Hval|]. clear Hrun Hval.
  destruct (scope_list db scope) as [|s l] eqn:E.
  - apply Permutation_nil in Hp as ->. done.
  - split; [done|]. split.
    + rewrite <- (Permutation_map _ Hp). cbn [bound_result complete scanned co_result cr_Witnesses].
      rewrite map_map. erewrite map_ext_in; [done|]. intros x Hx. apply list_elem_of_In in Hx.
      destruct (Hel x Hx) as [Hin _]. destruct (witness_facts db Hi x Hin) as (_ & -> & -> & _). done.
    + split; [done|]. intros Hn. rewrite Hn in Hp. by apply Permutation_sym, Permutation_nil in Hp.
Qed.

Lemma ProbeSpaceCoverage_exact_witness :
  exists r, @ProbeSpaceCoverage SpacesExample.uuids None SpacesExample.db2
              {| cs_Kind := CoverageGlobal; cs_TenantID := "" |} = Ok r /\
    cr_Complete r = true /\ cr_State r <> CoverageUnbound.
Proof.
  set (scope := {| cs_Kind := CoverageGlobal; cs_TenantID := "" |}).
  assert (ValidateCoverageScope scope = None) as Hv by reflexivity.
  destruct (@ProbeSpaceCoverage_exact SpacesExample.uuids SpacesExample.uuid_laws dialectSQLite
    SpacesExample.db2 scope SpacesExample.reach2 Hv) as (r & Hr & _ & Hc & _ & Hs).
  exists r. split; [exact Hr|]. split; [exact Hc|]. intros Hu. apply Hs in Hu. vm_compute in Hu. discriminate Hu.
Defined.
