(* ===== verification/SpacesQueries.v ===== *)
(** * Queries of the spaces store

    What the queries answer after a creation, and that following the page cursors
    enumerates the members of a space and its history. *)

From Stdlib Require Import Lia Bool ZArith.
From stdpp Require Import base strings list numbers sorting.
From S2P Require Import Prelude GoStrings GoTime GoErrors Sql Keyset Spaces SpacesStore SpacesInvariant SpacesCommands Access AccessProps SpacesProbes.

Open Scope Z_scope.

(** ** Reading back *)

Lemma time_roundtrip t : int64 (t - unixEpoch) -> time_Unix (UnixNano t) = t.
Proof. intros Ht. unfold time_Unix, UnixNano. rewrite wrap64_id by done. lia. Qed.

Lemma scan_space_row v :
  int64 (s_CreatedAt v - unixEpoch) -> int64 (s_UpdatedAt v - unixEpoch) -> scanSpace (space_row v) = v.
Proof.
  intros Hc Hu. unfold scanSpace, space_row. destruct v as [? ? ? ? ? subject ? ? ? ? ?]. cbn in *.
  rewrite !time_roundtrip by done. by destruct subject as [[? ? ?]|].
Qed.

Lemma scan_member_row m :
  int64 (m_JoinedAt m - unixEpoch) -> int64 (m_UpdatedAt m - unixEpoch) ->
  (forall t, m_RevokedAt m = Some t -> int64 (t - unixEpoch)) -> scanSpaceMember (member_row m) = m.
Proof.
  intros Hj Hu Hr. unfold scanSpaceMember, member_row, spaceRevokedTime. destruct m as [? ? ? ? ? ? ? ? ? revoked].
  cbn in *. rewrite !time_roundtrip by done. destruct revoked as [t|]; [|done]. cbn.
  by rewrite (time_roundtrip t) by auto.
Qed.

Lemma find_keyed {A K} (key : A -> K) (p : A -> bool) (l : list A) x :
  NoDup (map key l) -> x ∈ l -> p x = true -> (forall y, p y = true -> key y = key x) ->
  List.find p l = Some x.
Proof.
  intros Hn Hx Hp Hk. destruct (List.find p l) as [y|] eqn:E.
  - apply find_some in E as [Hy Hpy]. apply list_elem_of_In in Hy. f_equal.
    apply (NoDup_map_inj key l); auto.
  - pose proof (find_none _ _ E x (proj1 (list_elem_of_In _ _) Hx)). congruence.
Qed.

Section Reads.
Context `{UUIDLib}.

Lemma spaceRead_run {T} tenant (read : prog SpaceDB T) db v :
  tenant_active db tenant -> read db = (db, Ok v) -> spaceRead None tenant read db = (db, Ok v).
Proof.
  intros Ht Hr. unfold spaceRead, begin_tx. rewrite run_guard. cbn [fmap option_fmap option_map].
  unfold in_tx, map_err, bind. rewrite (spaceTenant_run _ _ Ht), Hr. done.
Qed.

Lemma spaceRoot_run db s :
  spaces_inv db -> s ∈ db_spaces db ->
  spaceRoot (sp_tenant_id s) (sp_id s) db = (db, Ok (scanSpace s)).
Proof.
  intros Hi Hs. unfold spaceRoot, reads, query_one.
  rewrite (find_keyed space_key _ _ s); [done|apply Hi|done|by apply is_space_true|].
  by intros y ->%is_space_true.
Qed.

Lemma spaceMember_run db m :
  spaces_inv db -> m ∈ db_members db ->
  spaceMember (sm_tenant_id m) (sm_space_id m) (sm_subject m) db = (db, Ok (scanSpaceMember m)).
Proof.
  intros Hi Hm. unfold spaceMember, reads, query_one.
  rewrite (find_keyed member_key _ _ m); [done|apply Hi|done|by apply is_member_true|].
  by intros y ->%is_member_true.
Qed.

Lemma personal_run db r actor :
  (forall o, o ∈ db_spaces db -> sp_kind o = "personal"%string -> personal_key o <> personal_key r) ->
  sp_kind r = "personal"%string -> sp_personal_source r = Some (sr_Source actor) ->
  sp_personal_kind r = Some (sr_Kind actor) -> sp_personal_subject_id r = Some (sr_ID actor) ->
  List.find (is_personal (sp_tenant_id r) actor) (db_spaces db ++ [r]) = Some r.
Proof.
  intros Hf Hk Hs Hki Hid. rewrite find_snoc.
  assert (forall o, is_personal (sp_tenant_id r) actor o = true ->
    sp_kind o = "personal"%string /\ personal_key o = personal_key r) as Hp.
  { intros o. unfold is_personal, personal_key. rewrite Hs, Hki, Hid, !andb_true_iff, !streqb_true.
    unfold not_null. destruct (sp_personal_source o), (sp_personal_kind o), (sp_personal_subject_id o);
      try (by intros [[_ ?] ?]); try (by intros [[[_ ?] ?] ?]).
    rewrite !streqb_true. intros ((([-> ->] & ->) & ->) & ->). done. }
  destruct (List.find _ (db_spaces db)) as [o|] eqn:E.
  - apply find_some in E as [Ho Hpo]. apply Hp in Hpo as [Hko Hkey].
    by destruct (Hf o (proj2 (list_elem_of_In _ _) Ho) Hko).
  - assert (is_personal (sp_tenant_id r) actor r = true) as ->; [|done].
    unfold is_personal, not_null. by rewrite Hk, Hs, Hki, Hid, !streqb_refl.
Qed.
End Reads.

(** A created space reads back.  After a creation that went through, GetSpace,
    GetSpaceByBucket with the backing bucket, and GetPersonalSpace of the creator for a
    personal space all answer the space the creation returned, and GetSpaceMember
    answers its creator as an active admin since revision 1. *)
Theorem CreateSpace_reads_back `{UUIDLaws} d ctx now newid c db db' v :
  spaces_reachable d db -> int64 (now - unixEpoch) ->
  CreateSpace d ctx now newid c db = (db', Ok v) ->
  GetSpace None (cc_TenantID c) (cc_ID c) db' = (db', Ok v) /\
  GetSpaceByBucket None (cc_TenantID c) (s_BackingBucket v) db' = (db', Ok v) /\
  GetSpaceMember None (cc_TenantID c) (cc_ID c) (cc_Actor c) db' = (db', Ok (first_member v c)) /\
  (cc_Kind c = Personal -> GetPersonalSpace None (cc_TenantID c) (cc_Actor c) db' = (db', Ok v)).
Proof.
  intros Hr Hnow Hc.
  assert (spaces_inv db') as Hi' by (eapply create_inv; [by eapply spaces_reachable_inv|exact Hc]).
  apply CreateSpace_Ok in Hc as (_ & Hv & -> & Hten & id & _ & -> & _ & Hs & _).
  apply ValidateCreate_parts in Hv as (Ht & Hid & Ha & Hk).
  set (db' := created_rows d now id c db) in *. set (v := new_space now c) in *.
  assert (tenant_active db' (cc_TenantID c)) as Hten' by exact Hten.
  assert (space_row v ∈ db_spaces db') as Hin by (apply elem_snoc; by right).
  assert (member_row (first_member v c) ∈ db_members db') as Hm by (apply elem_snoc; by right).
  assert (scanSpace (space_row v) = v) as Hscan by (by apply scan_space_row).
  pose proof (spaceRoot_run db' (space_row v) Hi' Hin) as Hroot. rewrite Hscan in Hroot. cbn in Hroot.
  pose proof (backing_bucket_valid _ _ Ht Hid) as Hb. unfold ValidateBindingInput in Hb.
  rewrite !andThen_None in Hb. destruct Hb as (_ & Hb & _).
  assert (ValidateSpaceRef (cc_TenantID c) (cc_ID c) = None) as Href by (by apply andThen_None).
  split; [|split; [|split]].
  - unfold GetSpace. rewrite run_guard, Href. by apply spaceRead_run.
  - unfold GetSpaceByBucket. rewrite run_guard, Ht, run_guard. change (s_BackingBucket v) with ("spc-" ++ cc_ID c)%string.
    rewrite Hb. apply spaceRead_run; [done|]. unfold reads, query_one.
    change (("spc-" ++ cc_ID c)%string) with (sp_backing_bucket (space_row v)).
    change (cc_TenantID c) with (sp_tenant_id (space_row v)).
    fold (space_at db' (sp_tenant_id (space_row v)) (sp_backing_bucket (space_row v))).
    rewrite (space_at_unique db' _ Hi' Hin). cbn [res_bind]. by rewrite Hscan.
  - unfold GetSpaceMember. rewrite run_guard, Href, run_guard, Ha. apply spaceRead_run; [done|].
    unfold bind. rewrite Hroot. pose proof (spaceMember_run db' _ Hi' Hm) as Hmem.
    rewrite scan_member_row in Hmem by done. exact Hmem.
  - intros Hp. unfold GetPersonalSpace. rewrite run_guard, Ht, run_guard, Ha, run_refuse, Hk.
    change (User <>s User) with false. apply spaceRead_run; [done|]. unfold reads, query_one.
    pose proof (personal_run db (space_row v) (cc_Actor c)) as Hper. cbn in Hper. rewrite Hp in Hper.
    change (db_spaces db') with (db_spaces db ++ [space_row v]). rewrite Hper; try done.
    + cbn [res_bind]. by rewrite Hscan.
    + intros o Ho Hko. eapply personal_violation_None; [exact Hs|exact Hp|exact Ho|done].
Qed.

#[local] Existing Instance SpacesExample.uuids.
#[local] Existing Instance SpacesExample.uuid_laws.

Lemma CreateSpace_reads_back_witness :
  let v := new_space SpacesExample.now SpacesExample.create in
  @GetSpace SpacesExample.uuids None "acme" SpacesExample.space_id SpacesExample.db1 =
  (SpacesExample.db1, Ok v).
Proof.
  intros v.
  assert (CreateSpace dialectSQLite None SpacesExample.now (Ok SpacesExample.h1) SpacesExample.create
            SpacesExample.db0 = (SpacesExample.db1, Ok v)) as Hc by (vm_compute; reflexivity).
  assert (int64 (SpacesExample.now - unixEpoch)) as Hn by (vm_compute; split; discriminate).
  assert (spaces_reachable dialectSQLite SpacesExample.db0) as Hr
    by (apply reach_migrated, list.NoDup_singleton).
  exact (proj1 (@CreateSpace_reads_back SpacesExample.uuids SpacesExample.uuid_laws dialectSQLite None
    SpacesExample.now (Ok SpacesExample.h1) SpacesExample.create SpacesExample.db0 SpacesExample.db1 v
    Hr Hn Hc)).
Defined.

(** ** Pages *)

#[export] Instance subject_total : StrictTotal subject_lt.
Proof.
  refine (pullback_total (fun s => (sr_Source s, (sr_Kind s, sr_ID s)))
    (lexb String.ltb (lexb String.ltb String.ltb)) _).
  intros [? ? ?] [? ? ?]. cbn. congruence.
Qed.

Section Pages.
Context `{UUIDLib}.

Definition members_of (db : SpaceDB) (tenant id : string) : list MemberRow :=
  List.filter (fun r => (sm_tenant_id r =s tenant) && (sm_space_id r =s id)) (db_members db).
Definition entries_of (db : SpaceDB) (tenant id : string) : list HistoryRow :=
  List.filter (history_in tenant id) (db_history db).

(** A client that passes the last subject of each page as the next cursor until a page
    is empty; [None] when a call fails or the fuel runs out. *)
Fixpoint all_members (fuel : nat) (db : SpaceDB) (tenant id : string) (limit : Z)
    (after : option SubjectRef) : option (list Member) :=
  match fuel with
  | O => None
  | S fuel =>
      match snd (ListSpaceMembers None tenant id {| mp_After := after; mp_Limit := limit |} db) with
      | Err _ => None
      | Ok page =>
          match list.last page with
          | None => Some []
          | Some m => app page <$> all_members fuel db tenant id limit (Some (m_Subject m))
          end
      end
  end.

(** The same over the history, whose cursor is a revision. *)
Fixpoint all_history (fuel : nat) (db : SpaceDB) (tenant id : string) (limit after : Z)
    : option (list History) :=
  match fuel with
  | O => None
  | S fuel =>
      match snd (ListSpaceHistory None tenant id {| hp_AfterRevision := after; hp_Limit := limit |} db) with
      | Err _ => None
      | Ok page =>
          match list.last page with
          | None => Some []
          | Some h => app page <$> all_history fuel db tenant id limit (h_AfterRevision h)
          end
      end
  end.

Lemma validateLimit_ok limit : 1 <= limit <= 1000 -> validateLimit limit = None.
Proof.
  intros Hl. unfold validateLimit. destruct (Z.ltb_spec limit 1); [lia|]. destruct (Z.ltb_spec 1000 limit); [lia|done].
Qed.

Lemma ListSpaceMembers_run db tenant id after limit s :
  spaces_inv db -> s ∈ db_spaces db -> space_key s = (tenant, id) -> tenant_active db tenant ->
  1 <= limit <= 1000 -> (forall a, after = Some a -> ValidateSubject a = None) ->
  snd (ListSpaceMembers None tenant id {| mp_After := after; mp_Limit := limit |} db) =
  Ok (map scanSpaceMember
        (keyset_page sm_subject subject_lt (Z.to_nat limit) after (members_of db tenant id))).
Proof.
  intros Hi Hs [= <- <-] Ht Hl Ha. destruct (si_spaces db Hi s Hs) as (_ & Hvt & Hvi & _).
  unfold ListSpaceMembers. rewrite run_guard. unfold ValidateSpaceRef. rewrite Hvt, Hvi. cbn [andThen].
  rewrite run_guard. unfold ValidateMemberPage. cbn [mp_Limit mp_After]. rewrite validateLimit_ok by done. cbn [andThen].
  assert (match after with Some a => ValidateSubject a | None => None end = None) as ->
    by (destruct after; auto).
  erewrite spaceRead_run; [reflexivity|done|]. unfold bind. by rewrite spaceRoot_run.
Qed.

Lemma ListSpaceHistory_run db tenant id after limit s :
  spaces_inv db -> s ∈ db_spaces db -> space_key s = (tenant, id) -> tenant_active db tenant ->
  1 <= limit <= 1000 -> 0 <= after ->
  snd (ListSpaceHistory None tenant id {| hp_AfterRevision := after; hp_Limit := limit |} db) =
  Ok (map scanSpaceHistory
        (keyset_page sh_after_revision Z.ltb (Z.to_nat limit) (Some after) (entries_of db tenant id))).
Proof.
  intros Hi Hs [= <- <-] Ht Hl Ha. destruct (si_spaces db Hi s Hs) as (_ & Hvt & Hvi & _).
  unfold ListSpaceHistory. rewrite run_guard. unfold ValidateSpaceRef. rewrite Hvt, Hvi. cbn [andThen].
  rewrite run_guard. unfold ValidateHistoryPage. cbn [hp_Limit hp_AfterRevision]. rewrite validateLimit_ok by done.
  destruct (Z.ltb_spec after 0); [lia|].
  erewrite spaceRead_run; [reflexivity|done|]. unfold bind. rewrite spaceRoot_run by done.
  unfold reads, collectSpaceRows, keyset_page, rows_after, entries_of. by rewrite filter_filter.
Qed.

Lemma members_of_nodup db tenant id :
  spaces_inv db -> NoDup (map sm_subject (members_of db tenant id)).
Proof.
  intros Hi. unfold members_of.
  pose proof (NoDup_map_filter member_key (fun r => (sm_tenant_id r =s tenant) && (sm_space_id r =s id))
    (db_members db) (si_member_key db Hi)) as Hn.
  assert (forall l : list MemberRow, (forall m, m ∈ l -> sm_tenant_id m = tenant /\ sm_space_id m = id) ->
    map member_key l = map (pair (tenant, id)) (map sm_subject l)) as Hm.
  { intros l Hl. rewrite map_map. apply map_ext_in. intros m Hx. apply list_elem_of_In, Hl in Hx as [<- <-]. done. }
  rewrite Hm in Hn; [by apply NoDup_fmap_1 in Hn|].
  intros m [_ Hx]%elem_filter_b. by rewrite andb_true_iff, !streqb_true in Hx.
Qed.

Lemma entries_of_nodup db s :
  spaces_inv db -> s ∈ db_spaces db ->
  NoDup (map sh_after_revision (entries_of db (sp_tenant_id s) (sp_id s))).
Proof. intros Hi Hs. unfold entries_of. rewrite (si_revisions db Hi s Hs). apply NoDup_seqZ. Qed.

Lemma last_map {A B} (f : A -> B) l : list.last (map f l) = f <$> list.last l.
Proof. apply (fmap_last f l). Qed.

Lemma last_page {A K} (key : A -> K) lt n after (rows : list A) x :
  list.last (keyset_page key lt n after rows) = Some x -> x ∈ rows.
Proof.
  intros Hx%last_Some_elem_of. unfold keyset_page in Hx. apply elem_of_take in Hx as (i & Hx & _).
  apply list_elem_of_lookup_2, elem_sort_by in Hx. unfold rows_after in Hx.
  destruct after; [by apply elem_filter_b in Hx as [Hx _]|done].
Qed.

Lemma all_members_follow db tenant id limit s fuel after :
  spaces_inv db -> s ∈ db_spaces db -> space_key s = (tenant, id) -> tenant_active db tenant ->
  1 <= limit <= 1000 -> (forall a, after = Some a -> ValidateSubject a = None) ->
  all_members fuel db tenant id limit after =
  map scanSpaceMember <$> follow sm_subject subject_lt fuel (Z.to_nat limit) after (members_of db tenant id).
Proof.
  intros Hi Hs Hk Ht Hl. revert after. induction fuel as [|fuel IH]; intros after Ha; [done|].
  cbn [all_members follow]. rewrite (ListSpaceMembers_run db tenant id after limit s) by done.
  rewrite last_map. destruct (list.last (keyset_page _ _ _ _ _)) as [m|] eqn:E; [|done]. cbn [fmap option_fmap option_map].
  rewrite IH.
  - change (m_Subject (scanSpaceMember m)) with (sm_subject m).
    destruct (follow _ _ _ _ _ _) as [rest|]; [|done]. cbn. by rewrite map_app.
  - intros a [= <-]. apply last_page, elem_filter_b in E as [E _]. by apply (si_subjects db Hi).
Qed.

Lemma all_history_follow db tenant id limit s fuel after :
  spaces_inv db -> s ∈ db_spaces db -> space_key s = (tenant, id) -> tenant_active db tenant ->
  1 <= limit <= 1000 -> 0 <= after ->
  all_history fuel db tenant id limit after =
  map scanSpaceHistory <$> follow sh_after_revision Z.ltb fuel (Z.to_nat limit) (Some after) (entries_of db tenant id).
Proof.
  intros Hi Hs Hk Ht Hl. revert after. induction fuel as [|fuel IH]; intros after Ha; [done|].
  cbn [all_history follow]. rewrite (ListSpaceHistory_run db tenant id after limit s) by done.
  rewrite last_map. destruct (list.last (keyset_page _ _ _ _ _)) as [h|] eqn:E; [|done]. cbn [fmap option_fmap option_map].
  change (h_AfterRevision (scanSpaceHistory h)) with (sh_after_revision h).
  rewrite IH.
  - destruct (follow _ _ _ _ _ _) as [rest|]; [|done]. cbn. by rewrite map_app.
  - apply last_page in E. pose proof (si_revisions db Hi s Hs) as Hr. unfold space_key in Hk.
    injection Hk as Hk1 Hk2. rewrite Hk1, Hk2 in Hr.
    assert (sh_after_revision h ∈ seqZ 1 (sp_revision s)) as Hin
      by (rewrite <- Hr; by apply (list_elem_of_fmap_2 sh_after_revision)).
    apply elem_of_seqZ in Hin. lia.
Qed.
End Pages.

(** Paging loses and repeats nothing.  A client that lists the members of a space, or
    its history, page by page with any limit from 1 to 1000, passing the last subject or
    revision as the next cursor until a page is empty, gets every row of the space
    exactly once, in order, after at most one call per row and one more; the history it
    collects has the revisions 1 up to the space's revision. *)
Theorem paging_enumerates `{UUIDLib} d db s limit fuel :
  spaces_reachable d db -> s ∈ db_spaces db -> tenant_active db (sp_tenant_id s) -> 1 <= limit <= 1000 ->
  let members := members_of db (sp_tenant_id s) (sp_id s) in
  let entries := entries_of db (sp_tenant_id s) (sp_id s) in
  (length members < fuel)%nat -> (length entries < fuel)%nat ->
  (exists ms, all_members fuel db (sp_tenant_id s) (sp_id s) limit None = Some (map scanSpaceMember ms) /\
     ms ≡ₚ members /\ StronglySorted (fun a b => subject_lt (sm_subject a) (sm_subject b) = true) ms) /\
  (exists hs, all_history fuel db (sp_tenant_id s) (sp_id s) limit 0 = Some (map scanSpaceHistory hs) /\
     hs ≡ₚ entries /\ map sh_after_revision hs = seqZ 1 (sp_revision s)).
Proof.
  intros Hi%spaces_reachable_inv Hs Ht Hl members entries Hfm Hfh.
  pose proof (members_of_nodup db (sp_tenant_id s) (sp_id s) Hi) as Hnm.
  pose proof (entries_of_nodup db s Hi Hs) as Hnh.
  split.
  - exists (sort_by (key_le sm_subject subject_lt) members).
    rewrite (all_members_follow db _ _ limit s) by done.
    rewrite (follow_all sm_subject subject_lt) by (done || lia).
    split; [done|]. split; [apply merge_sort_Permutation|]. by apply (sort_strict sm_subject subject_lt).
  - pose proof (si_revisions db Hi s Hs) as Hrev.
    fold (entries_of db (sp_tenant_id s) (sp_id s)) in Hrev. fold entries in Hrev, Hnh.
    assert (sort_by (key_le sh_after_revision Z.ltb) entries = entries) as Hsort.
    { apply (sort_sorted sh_after_revision Z.ltb); [done|].
      apply (sorted_by_key sh_after_revision (fun a b => (a <? b) = true)).
      rewrite Hrev. apply seqZ_sorted. }
    exists entries. split; [|done].
    rewrite (all_history_follow db _ _ limit s) by (done || lia).
    rewrite (follow_from sh_after_revision Z.ltb entries _ fuel (Some 0) [] entries); try done; try lia.
    unfold rows_after. rewrite filter_all; [done|]. intros h Hh. apply Z.ltb_lt.
    assert (sh_after_revision h ∈ seqZ 1 (sp_revision s)) as Hin%elem_of_seqZ
      by (rewrite <- Hrev; by apply (list_elem_of_fmap_2 sh_after_revision)).
    lia.
Qed.

Lemma paging_enumerates_witness :
  let s := bump_revision SpacesExample.ann SpacesExample.now
             (space_row (new_space SpacesExample.now SpacesExample.create)) in
  exists ms, all_members 3 SpacesExample.db2 "acme" SpacesExample.space_id 1 None =
               Some (map scanSpaceMember ms) /\
    ms ≡ₚ members_of SpacesExample.db2 "acme" SpacesExample.space_id.
Proof.
  intros s.
  assert (s ∈ db_spaces SpacesExample.db2) as Hs
    by (apply list_elem_of_In; vm_compute; left; reflexivity).
  assert (tenant_active SpacesExample.db2 (sp_tenant_id s)) as Ht
    by (eexists; split; vm_compute; reflexivity).
  assert (length (members_of SpacesExample.db2 (sp_tenant_id s) (sp_id s)) < 3)%nat as Hm
    by (vm_compute; repeat constructor).
  assert (length (entries_of SpacesExample.db2 (sp_tenant_id s) (sp_id s)) < 3)%nat as Hh
    by (vm_compute; repeat constructor).
  destruct (paging_enumerates dialectSQLite SpacesExample.db2 s 1 3 SpacesExample.reach2 Hs Ht
    ltac:(lia) Hm Hh) as [(ms & H1 & H2 & _) _].
  exists ms. split; [exact H1|exact H2].
Defined.
