(* ===== verification/AccessStore.v ===== *)
(** * The access store (src/internal/access/store.go) and its SQL implementation

    [AccessStore] is the persistence port of the access domain: what the manager may
    ask of its store, every call fallible.  [AccessDB] is the database behind
    src/internal/repository/sql_access*.go (tables of migration 0037) and
    [sqlStore] implements the port on it statement by statement: primary keys,
    UNIQUE and FOREIGN KEY constraints, [ON CONFLICT] clauses, cascades and the
    recursive queries.

    A row keeps times as instants; the columns hold their RFC 3339 text, so the
    comparison [expires_at > $2] is on texts.  Statement errors other than constraint
    violations (lost connections) are outside the SQL instance; clients of the port
    are proved against stores that may fail anywhere. *)

From Stdlib Require Import Lia Bool ZArith.
From stdpp Require Import base gmap strings list numbers.
From S2P Require Import Prelude GoStrings GoTime Sql GoErrors Spaces Access.

Open Scope Z_scope.

(** ** Data (types.go) *)

Record Department := {
  dep_ID : string; dep_TenantID : string; dep_ParentID : string; dep_Name : string;
  dep_CreatedAt : time; dep_UpdatedAt : time
}.

Record DepartmentMember := {
  mem_TenantID : string; mem_DepartmentID : string; mem_SubjectID : string;
  mem_Role : string; mem_CreatedAt : time
}.

Record Share := {
  sh_ID : string; sh_TenantID : string; sh_Bucket : string; sh_Key : string; sh_Name : string;
  sh_TokenHash : string; sh_PasswordMAC : string; sh_AllowPreview : bool;
  sh_AllowDownload : bool; sh_MaxUses : Z; sh_UseCount : Z; sh_ExpiresAt : time;
  sh_RevokedAt : time; sh_CreatedBy : string; sh_CreatedAt : time; sh_OwnerID : string
}.

Record PublicAsset := {
  pa_ID : string; pa_TenantID : string; pa_Bucket : string; pa_Key : string; pa_Slug : string;
  pa_CacheControl : string; pa_PublishedBy : string; pa_PublishedAt : time; pa_OwnerID : string
}.

(** ** The port *)

Class AccessStore (S : Type) := {
  store_reader :: AccessReader S;

  PutDepartment : S -> Department -> S * option error;
  GetDepartment : S -> string -> string -> result Department;
  ListDepartments : S -> string -> result (list Department);
  DeleteDepartment : S -> string -> string -> S * option error;
  PutDepartmentMember : S -> DepartmentMember -> S * option error;
  DeleteDepartmentMember : S -> string -> string -> string -> S * option error;
  ListDepartmentMembers : S -> string -> string -> result (list DepartmentMember);

  PutACLEntry : S -> ACLEntry -> S * option error;
  GetACLEntry : S -> string -> string -> result ACLEntry;
  GetACLEntryByID : S -> string -> result ACLEntry;
  DeleteACLEntry : S -> string -> string -> S * option error;
  ListResourceACL : S -> string -> string -> string -> string -> result (list ACLEntry);

  CreateShare : S -> Share -> S * option error;
  GetShare : S -> string -> string -> result Share;
  GetShareByTokenHash : S -> string -> result Share;
  ListShares : S -> string -> string -> string -> result (list Share);
  (** The times of these two are passed as RFC 3339 texts. *)
  RevokeShare : S -> string -> string -> time -> S * option error;
  ConsumeShare : S -> string -> time -> S * result Share;

  PutPublicAsset : S -> PublicAsset -> S * option error;
  GetPublicAsset : S -> string -> result PublicAsset;
  ListPublicAssets : S -> string -> result (list PublicAsset);
  DeletePublicAsset : S -> string -> string -> S * option error
}.

(** ** The database *)

Record AccessDB := {
  departments : list Department;
  department_members : list DepartmentMember;
  resource_acls : list ACLEntry;
  shares : list Share;
  public_assets : list PublicAsset
}.

Definition set_departments (db : AccessDB) d := {|
  departments := d; department_members := department_members db;
  resource_acls := resource_acls db; shares := shares db; public_assets := public_assets db |}.
Definition set_members (db : AccessDB) m := {|
  departments := departments db; department_members := m;
  resource_acls := resource_acls db; shares := shares db; public_assets := public_assets db |}.
Definition set_acls (db : AccessDB) a := {|
  departments := departments db; department_members := department_members db;
  resource_acls := a; shares := shares db; public_assets := public_assets db |}.
Definition set_shares (db : AccessDB) s := {|
  departments := departments db; department_members := department_members db;
  resource_acls := resource_acls db; shares := s; public_assets := public_assets db |}.
Definition set_assets (db : AccessDB) a := {|
  departments := departments db; department_members := department_members db;
  resource_acls := resource_acls db; shares := shares db; public_assets := a |}.

(** [accessDeleteResult]: no affected row is [ErrNotFound]. *)
Definition accessDeleteResult (affected : bool) : option error :=
  if affected then None else Some (Sentinel ErrNotFound).

Definition accessTimeString (value : time) : string :=
  if IsZero value then ""%string else FormatRFC3339Nano value.

(** ** Directory (sql_access_directory.go) *)

Definition dep_key (tenant id : string) (d : Department) : bool :=
  (dep_TenantID d =s tenant) && (dep_ID d =s id).

(** UNIQUE (tenant_id, parent_id, name): a NULL parent never conflicts. *)
Definition dep_clash (d x : Department) : bool :=
  (dep_ID x <>s dep_ID d) && (dep_TenantID x =s dep_TenantID d) && (dep_ParentID d <>s "") &&
  (dep_ParentID x =s dep_ParentID d) && (dep_Name x =s dep_Name d).

Definition sql_PutDepartment (db : AccessDB) (d : Department) : AccessDB * option error :=
  let exists_id id := existsb (fun x => dep_ID x =s id) (departments db) in
  if existsb (dep_clash d) (departments db) then (db, Some unique_violation)
  else if (dep_ParentID d <>s "") && (dep_ParentID d <>s dep_ID d) && negb (exists_id (dep_ParentID d))
  then (db, Some foreign_key_violation)
  else if exists_id (dep_ID d) then
    (set_departments db (update_where (fun x => dep_ID x =s dep_ID d)
       (fun x => {| dep_ID := dep_ID x; dep_TenantID := dep_TenantID d;
                    dep_ParentID := dep_ParentID d; dep_Name := dep_Name d;
                    dep_CreatedAt := dep_CreatedAt x; dep_UpdatedAt := dep_UpdatedAt d |})
       (departments db)), None)
  else (set_departments db (departments db ++ [d]), None).

Definition sql_GetDepartment (db : AccessDB) (tenant id : string) : result Department :=
  query_row (dep_key tenant id) (departments db).

(** A NULL parent sorts first, as the empty text does. *)
Definition sql_ListDepartments (db : AccessDB) (tenant : string) : result (list Department) :=
  Ok (sort_by (fun a b =>
        then_by (String.ltb (dep_ParentID a) (dep_ParentID b)) (String.ltb (dep_ParentID b) (dep_ParentID a))
       (then_by (String.ltb (dep_Name a) (dep_Name b)) (String.ltb (dep_Name b) (dep_Name a))
                (text_le (dep_ID a) (dep_ID b))))
      (List.filter (fun d => dep_TenantID d =s tenant) (departments db))).

Definition children (deps : list Department) (p : Department -> bool) (id : string) : list string :=
  map dep_ID (List.filter (fun d => (dep_ParentID d =s id) && (dep_ParentID d <>s "") && p d) deps).

(** One row of a [UNION ALL] recursion: nothing is deduplicated. *)
Definition tree_step (succ : string -> list string) (st : list string * list string)
    : (list string * list string) + list string :=
  match st with
  | (out, []) => inr out
  | (out, x :: queue) => inl (out ++ [x], queue ++ succ x)
  end.

(** [department_tree]: each department is a row once unless the parents form a cycle,
    in which case the recursion has no end. *)
Definition department_tree (db : AccessDB) (tenant id : string) : option (list string) :=
  iter_fuel (tree_step (children (departments db) (fun d => dep_TenantID d =s tenant)))
    (S (length (departments db)))
    ([], map dep_ID (List.filter (dep_key tenant id) (departments db))).

(** The departments [ON DELETE CASCADE] removes with [id]: all descendants. *)
Definition cascade (db : AccessDB) (id : string) : list string :=
  default [] (closure (children (departments db) (fun _ => true))
                      (id :: map dep_ID (departments db)) [id]).

#[global] Arguments cascade : simpl never.
#[global] Arguments department_tree : simpl never.

Definition sql_DeleteDepartment (db : AccessDB) (tenant id : string) : AccessDB * option error :=
  match department_tree db tenant id with
  | None => (db, Some (NewError "recursive query does not terminate"))
  | Some tree =>
      if negb (existsb (dep_key tenant id) (departments db)) then (db, accessDeleteResult false)
      else
        let gone := cascade db id in
        ({| departments := delete_where (fun d => contains gone (dep_ID d)) (departments db);
            department_members :=
              delete_where (fun m => contains gone (mem_DepartmentID m)) (department_members db);
            resource_acls :=
              delete_where (fun e => (acl_TenantID e =s tenant) &&
                (acl_PrincipalType e =s PrincipalTypeDepartment) &&
                contains tree (acl_PrincipalID e)) (resource_acls db);
            shares := shares db; public_assets := public_assets db |}, None)
  end.

Definition mem_key (tenant dep subject : string) (m : DepartmentMember) : bool :=
  (mem_TenantID m =s tenant) && (mem_DepartmentID m =s dep) && (mem_SubjectID m =s subject).

Definition sql_PutDepartmentMember (db : AccessDB) (m : DepartmentMember) : AccessDB * option error :=
  let same := mem_key (mem_TenantID m) (mem_DepartmentID m) (mem_SubjectID m) in
  if existsb same (department_members db) then
    (set_members db (update_where same
       (fun x => {| mem_TenantID := mem_TenantID x; mem_DepartmentID := mem_DepartmentID x;
                    mem_SubjectID := mem_SubjectID x; mem_Role := mem_Role m;
                    mem_CreatedAt := mem_CreatedAt x |}) (department_members db)), None)
  else if negb (existsb (fun d => dep_ID d =s mem_DepartmentID m) (departments db))
  then (db, Some foreign_key_violation)
  else (set_members db (department_members db ++ [m]), None).

Definition sql_DeleteDepartmentMember (db : AccessDB) (tenant dep subject : string)
    : AccessDB * option error :=
  let p := mem_key tenant dep subject in
  (set_members db (delete_where p (department_members db)),
   accessDeleteResult (existsb p (department_members db))).

Definition sql_ListDepartmentMembers (db : AccessDB) (tenant dep : string)
    : result (list DepartmentMember) :=
  Ok (sort_by (fun a b => text_le (mem_SubjectID a) (mem_SubjectID b))
       (List.filter (fun m => (mem_TenantID m =s tenant) && (mem_DepartmentID m =s dep))
          (department_members db))).

(** The parent rows the recursion of [subject_departments] joins to [id]. *)
Definition parents (db : AccessDB) (tenant id : string) : list string :=
  map dep_ParentID (List.filter (fun d => (dep_ID d =s id) && (dep_TenantID d =s tenant) &&
                                          (dep_ParentID d <>s "")) (departments db)).

Definition direct_departments (db : AccessDB) (tenant subject : string) : list string :=
  map mem_DepartmentID (List.filter (fun m => (mem_TenantID m =s tenant) && (mem_SubjectID m =s subject))
                          (department_members db)).

Definition subject_departments (db : AccessDB) (tenant subject : string) : option (list string) :=
  let init := direct_departments db tenant subject in
  closure (parents db tenant) (init ++ map dep_ParentID (departments db)) init.

Definition sql_ListSubjectDepartments (db : AccessDB) (tenant subject : string) : result (list string) :=
  if (subject =s "") then Ok []
  else match subject_departments db tenant subject with
  | Some ids => Ok (sort_by text_le ids)
  | None => Err (NewError "recursive query does not terminate")
  end.

(** ** ACL entries (sql_access_acl.go) *)

(** The identity an [ON CONFLICT (id)] update must not change. *)
Definition acl_same_resource (x e : ACLEntry) : bool :=
  (acl_TenantID x =s acl_TenantID e) && (acl_Bucket x =s acl_Bucket e) &&
  (acl_Key x =s acl_Key e) && (acl_ResourceKind x =s acl_ResourceKind e).

(** The columns of the table's second UNIQUE constraint. *)
Definition acl_natural_key (x e : ACLEntry) : bool :=
  acl_same_resource x e && (acl_PrincipalType x =s acl_PrincipalType e) &&
  (acl_PrincipalID x =s acl_PrincipalID e) && (acl_Action x =s acl_Action e).

(** What a write stores of an entry: the owner is not a column. *)
Definition acl_row (e : ACLEntry) : ACLEntry := {|
  acl_ID := acl_ID e; acl_TenantID := acl_TenantID e; acl_Bucket := acl_Bucket e;
  acl_Key := acl_Key e; acl_ResourceKind := acl_ResourceKind e;
  acl_PrincipalType := acl_PrincipalType e; acl_PrincipalID := acl_PrincipalID e;
  acl_Action := acl_Action e; acl_Effect := acl_Effect e; acl_Inherit := acl_Inherit e;
  acl_CreatedBy := acl_CreatedBy e; acl_CreatedAt := acl_CreatedAt e; acl_OwnerID := "" |}.

(** [DO UPDATE SET principal_type, principal_id, action, effect, inherit_acl]. *)
Definition acl_update (x e : ACLEntry) : ACLEntry := {|
  acl_ID := acl_ID x; acl_TenantID := acl_TenantID x; acl_Bucket := acl_Bucket x;
  acl_Key := acl_Key x; acl_ResourceKind := acl_ResourceKind x;
  acl_PrincipalType := acl_PrincipalType e; acl_PrincipalID := acl_PrincipalID e;
  acl_Action := acl_Action e; acl_Effect := acl_Effect e; acl_Inherit := acl_Inherit e;
  acl_CreatedBy := acl_CreatedBy x; acl_CreatedAt := acl_CreatedAt x;
  acl_OwnerID := acl_OwnerID x |}.

Definition sql_PutACLEntry (db : AccessDB) (e : ACLEntry) : AccessDB * option error :=
  match List.find (fun x => acl_ID x =s acl_ID e) (resource_acls db) with
  | Some x =>
      if negb (acl_same_resource x e) then (db, Some (Sentinel ErrInvalidArgument))
      else if existsb (fun y => (acl_ID y <>s acl_ID e) && acl_natural_key y e) (resource_acls db)
      then (db, Some unique_violation)
      else (set_acls db (update_where (fun y => acl_ID y =s acl_ID e) (fun y => acl_update y e)
                           (resource_acls db)), None)
  | None =>
      if existsb (fun y => acl_natural_key y e) (resource_acls db) then (db, Some unique_violation)
      else (set_acls db (resource_acls db ++ [acl_row e]), None)
  end.

Definition acl_at (tenant id : string) (e : ACLEntry) : bool :=
  (acl_TenantID e =s tenant) && (acl_ID e =s id).

Definition sql_DeleteACLEntry (db : AccessDB) (tenant id : string) : AccessDB * option error :=
  (set_acls db (delete_where (acl_at tenant id) (resource_acls db)),
   accessDeleteResult (existsb (acl_at tenant id) (resource_acls db))).

Definition sql_GetACLEntry (db : AccessDB) (tenant id : string) : result ACLEntry :=
  query_row (acl_at tenant id) (resource_acls db).

Definition sql_GetACLEntryByID (db : AccessDB) (id : string) : result ACLEntry :=
  query_row (fun e => acl_ID e =s id) (resource_acls db).

Definition acl_created_le (a b : ACLEntry) : bool :=
  let ta := accessTimeString (acl_CreatedAt a) in
  let tb := accessTimeString (acl_CreatedAt b) in
  then_by (String.ltb ta tb) (String.ltb tb ta) (text_le (acl_ID a) (acl_ID b)).

Definition sql_ListResourceACL (db : AccessDB) (tenant bucket key kind : string)
    : result (list ACLEntry) :=
  Ok (sort_by acl_created_le
       (List.filter (fun e => (acl_TenantID e =s tenant) && (acl_Bucket e =s bucket) &&
                              (acl_Key e =s key) && (acl_ResourceKind e =s kind)) (resource_acls db))).

(** The WHERE clause of [ListApplicableACL];
    [substr(key, 1, length(resource_key)) = resource_key] is a literal prefix test. *)
Definition acl_applicable (tenant bucket key : string) (e : ACLEntry) : bool :=
  (acl_TenantID e =s tenant) && (acl_Bucket e =s bucket) &&
  ((acl_ResourceKind e =s ResourceBucket) ||
   (acl_ResourceKind e =s ResourceObject) && (acl_Key e =s key) ||
   (acl_ResourceKind e =s ResourceFolder) &&
     ((acl_Key e =s key) || acl_Inherit e && HasPrefix key (acl_Key e))).

Definition sql_ListApplicableACL (db : AccessDB) (tenant bucket key : string)
    : result (list ACLEntry) :=
  Ok (sort_by (fun a b =>
        let la := Z.of_nat (String.length (acl_Key a)) in
        let lb := Z.of_nat (String.length (acl_Key b)) in
        then_by (lb <? la) (la <? lb) (acl_created_le a b))
      (List.filter (acl_applicable tenant bucket key) (resource_acls db))).

(** ** Shares (sql_access_shares.go) *)

Definition sql_CreateShare (db : AccessDB) (s : Share) : AccessDB * option error :=
  if existsb (fun x => (sh_ID x =s sh_ID s) || (sh_TokenHash x =s sh_TokenHash s)) (shares db)
  then (db, Some unique_violation)
  else (set_shares db (shares db ++ [s]), None).

Definition sql_GetShare (db : AccessDB) (tenant id : string) : result Share :=
  query_row (fun s => (sh_TenantID s =s tenant) && (sh_ID s =s id)) (shares db).

Definition sql_GetShareByTokenHash (db : AccessDB) (hash : string) : result Share :=
  query_row (fun s => sh_TokenHash s =s hash) (shares db).

Definition sql_ListShares (db : AccessDB) (tenant bucket key : string) : result (list Share) :=
  Ok (sort_by (fun a b => text_le (accessTimeString (sh_CreatedAt b)) (accessTimeString (sh_CreatedAt a)))
       (List.filter (fun s => (sh_TenantID s =s tenant) && (sh_Bucket s =s bucket) && (sh_Key s =s key))
          (shares db))).

Definition with_uses (n : Z) (s : Share) : Share := {|
  sh_ID := sh_ID s; sh_TenantID := sh_TenantID s; sh_Bucket := sh_Bucket s; sh_Key := sh_Key s;
  sh_Name := sh_Name s; sh_TokenHash := sh_TokenHash s; sh_PasswordMAC := sh_PasswordMAC s;
  sh_AllowPreview := sh_AllowPreview s; sh_AllowDownload := sh_AllowDownload s;
  sh_MaxUses := sh_MaxUses s; sh_UseCount := n; sh_ExpiresAt := sh_ExpiresAt s;
  sh_RevokedAt := sh_RevokedAt s; sh_CreatedBy := sh_CreatedBy s; sh_CreatedAt := sh_CreatedAt s;
  sh_OwnerID := sh_OwnerID s |}.

Definition with_revoked (t : time) (s : Share) : Share := {|
  sh_ID := sh_ID s; sh_TenantID := sh_TenantID s; sh_Bucket := sh_Bucket s; sh_Key := sh_Key s;
  sh_Name := sh_Name s; sh_TokenHash := sh_TokenHash s; sh_PasswordMAC := sh_PasswordMAC s;
  sh_AllowPreview := sh_AllowPreview s; sh_AllowDownload := sh_AllowDownload s;
  sh_MaxUses := sh_MaxUses s; sh_UseCount := sh_UseCount s; sh_ExpiresAt := sh_ExpiresAt s;
  sh_RevokedAt := t; sh_CreatedBy := sh_CreatedBy s; sh_CreatedAt := sh_CreatedAt s;
  sh_OwnerID := sh_OwnerID s |}.

Definition share_revocable (tenant id : string) (s : Share) : bool :=
  (sh_TenantID s =s tenant) && (sh_ID s =s id) && IsZero (sh_RevokedAt s).

Definition sql_RevokeShare (db : AccessDB) (tenant id : string) (revokedAt : time)
    : AccessDB * option error :=
  (set_shares db (update_where (share_revocable tenant id) (with_revoked revokedAt) (shares db)),
   accessDeleteResult (existsb (share_revocable tenant id) (shares db))).

(** [token_hash=$1 AND revoked_at='' AND (expires_at='' OR expires_at>$2) AND
    (max_uses=0 OR use_count<max_uses)], the expiry compared as text. *)
Definition share_consumable (hash : string) (now : time) (s : Share) : bool :=
  (sh_TokenHash s =s hash) && IsZero (sh_RevokedAt s) &&
  (IsZero (sh_ExpiresAt s) ||
   String.ltb (FormatRFC3339Nano now) (accessTimeString (sh_ExpiresAt s))) &&
  ((sh_MaxUses s =? 0) || (sh_UseCount s <? sh_MaxUses s)).

Definition sql_ConsumeShare (db : AccessDB) (hash : string) (now : time) : AccessDB * result Share :=
  let p := share_consumable hash now in
  if existsb p (shares db) then
    let db' := set_shares db (update_where p (fun s => with_uses (sh_UseCount s + 1) s) (shares db)) in
    (db', sql_GetShareByTokenHash db' hash)
  else (db, Err (Sentinel ErrShareExpired)).

(** ** Public assets (sql_access_assets.go) *)

(** [ON CONFLICT (id) DO UPDATE]: the tenant and the bucket are not in the SET list. *)
Definition asset_update (x a : PublicAsset) : PublicAsset := {|
  pa_ID := pa_ID x; pa_TenantID := pa_TenantID x; pa_Bucket := pa_Bucket x; pa_Key := pa_Key a;
  pa_Slug := pa_Slug a; pa_CacheControl := pa_CacheControl a; pa_PublishedBy := pa_PublishedBy a;
  pa_PublishedAt := pa_PublishedAt a; pa_OwnerID := pa_OwnerID a |}.

Definition sql_PutPublicAsset (db : AccessDB) (a : PublicAsset) : AccessDB * option error :=
  let same x := pa_ID x =s pa_ID a in
  if existsb (fun x => (pa_ID x <>s pa_ID a) && (pa_Slug x =s pa_Slug a)) (public_assets db)
  then (db, Some unique_violation)
  else if existsb same (public_assets db) then
    (set_assets db (update_where same (fun x => asset_update x a) (public_assets db)), None)
  else (set_assets db (public_assets db ++ [a]), None).

Definition sql_GetPublicAsset (db : AccessDB) (slug : string) : result PublicAsset :=
  query_row (fun a => pa_Slug a =s slug) (public_assets db).

Definition sql_ListPublicAssets (db : AccessDB) (tenant : string) : result (list PublicAsset) :=
  Ok (sort_by (fun a b =>
        let ta := accessTimeString (pa_PublishedAt a) in
        let tb := accessTimeString (pa_PublishedAt b) in
        then_by (String.ltb tb ta) (String.ltb ta tb) (text_le (pa_ID a) (pa_ID b)))
      (List.filter (fun a => pa_TenantID a =s tenant) (public_assets db))).

Definition asset_at (tenant slug : string) (a : PublicAsset) : bool :=
  (pa_TenantID a =s tenant) && (pa_Slug a =s slug).

Definition sql_DeletePublicAsset (db : AccessDB) (tenant slug : string) : AccessDB * option error :=
  (set_assets db (delete_where (asset_at tenant slug) (public_assets db)),
   accessDeleteResult (existsb (asset_at tenant slug) (public_assets db))).

(** ** Cleanup (sql_access_cleanup.go) *)

Definition deleteObjectCapabilities (db : AccessDB) (tenant bucket key : string) : AccessDB := {|
  departments := departments db; department_members := department_members db;
  resource_acls := resource_acls db;
  shares := delete_where (fun s => (sh_TenantID s =s tenant) && (sh_Bucket s =s bucket) &&
                                   (sh_Key s =s key)) (shares db);
  public_assets := delete_where (fun a => (pa_TenantID a =s tenant) && (pa_Bucket a =s bucket) &&
                                          (pa_Key a =s key)) (public_assets db) |}.

Definition deleteObjectAccessState (db : AccessDB) (tenant bucket key : string) : AccessDB :=
  let db' := deleteObjectCapabilities db tenant bucket key in
  set_acls db' (delete_where (fun e => (acl_TenantID e =s tenant) && (acl_Bucket e =s bucket) &&
                  (acl_Key e =s key) && (acl_ResourceKind e =s ResourceObject)) (resource_acls db')).

Definition deleteBucketAccessState (db : AccessDB) (tenant bucket : string) : AccessDB := {|
  departments := departments db; department_members := department_members db;
  resource_acls := delete_where (fun e => (acl_TenantID e =s tenant) && (acl_Bucket e =s bucket))
                     (resource_acls db);
  shares := delete_where (fun s => (sh_TenantID s =s tenant) && (sh_Bucket s =s bucket)) (shares db);
  public_assets := delete_where (fun a => (pa_TenantID a =s tenant) && (pa_Bucket a =s bucket))
                     (public_assets db) |}.

(** ** The SQL store implements the port *)

#[export] Instance sql_reader : AccessReader AccessDB := {|
  ListApplicableACL := sql_ListApplicableACL;
  ListSubjectDepartments := sql_ListSubjectDepartments |}.

#[export] Instance sqlStore : AccessStore AccessDB := {|
  store_reader := sql_reader;
  PutDepartment := sql_PutDepartment; GetDepartment := sql_GetDepartment;
  ListDepartments := sql_ListDepartments; DeleteDepartment := sql_DeleteDepartment;
  PutDepartmentMember := sql_PutDepartmentMember;
  DeleteDepartmentMember := sql_DeleteDepartmentMember;
  ListDepartmentMembers := sql_ListDepartmentMembers;
  PutACLEntry := sql_PutACLEntry; GetACLEntry := sql_GetACLEntry;
  GetACLEntryByID := sql_GetACLEntryByID; DeleteACLEntry := sql_DeleteACLEntry;
  ListResourceACL := sql_ListResourceACL;
  CreateShare := sql_CreateShare; GetShare := sql_GetShare;
  GetShareByTokenHash := sql_GetShareByTokenHash; ListShares := sql_ListShares;
  RevokeShare := sql_RevokeShare; ConsumeShare := sql_ConsumeShare;
  PutPublicAsset := sql_PutPublicAsset; GetPublicAsset := sql_GetPublicAsset;
  ListPublicAssets := sql_ListPublicAssets; DeletePublicAsset := sql_DeletePublicAsset |}.
