(* ===== verification/AccessManager.v ===== *)
(** * The access manager (src/internal/access/manager.go, acl_write.go, shares.go)

    Every operation of [Manager] over the store port.  The clock, new identifiers and
    random tokens are arguments; SHA-256 and HMAC are the class [Crypto].  The manager
    itself keeps no state but its configuration and the boundary. *)

From Stdlib Require Import Lia Bool ZArith Ascii.
From stdpp Require Import base gmap strings list numbers.
From S2P Require Import Prelude GoStrings GoTime GoErrors Spaces Access AccessStore.

Open Scope Z_scope.

(** [tokenHash] (hex SHA-256) and base64 HMAC-SHA-256 under a key. *)
Class Crypto := {
  tokenHash : string -> string;
  hmac_b64 : string -> string -> string
}.

Definition newline : string := String (ascii_of_nat 10) EmptyString.

Definition badArgument (text : string) : error := errorf ErrInvalidArgument text.

(** [NewManager]; the readers are what the concrete store implements. *)
Definition NewManager {S} (store : option S) (cfg : Config) (binding : option BindingReader)
    (coverage : option CoverageReader) : result Manager :=
  match store with
  | None => Err (NewError "access: store is required")
  | Some _ =>
      let policy := if (DefaultPolicy cfg =s "") then DefaultDeny else DefaultPolicy cfg in
      if (policy <>s DefaultDeny) && (policy <>s DefaultTenant)
      then Err (NewError "access: default policy must be deny or tenant")
      else if len (ShareSecret cfg) <? 32
      then Err (NewError "access: share secret must be at least 32 bytes")
      else Ok {| m_cfg := {| Enabled := Enabled cfg; DefaultPolicy := policy;
                             ShareSecret := ShareSecret cfg; DeleteFailOpen := DeleteFailOpen cfg |};
                 m_boundary := Some {| rb_binding := binding; rb_coverage := coverage |} |}
  end.

(** ** Pure helpers *)

Definition validateDepartment (d : Department) : option error :=
  if (TrimSpace (dep_TenantID d) =s "") || (TrimSpace (dep_Name d) =s "")
  then Some (badArgument "tenant_id and name are required")
  else if (200 <? len (dep_Name d)) || ((dep_ParentID d =s dep_ID d) && (dep_ID d <>s ""))
  then Some (badArgument "invalid department name or parent")
  else None.

Definition set_acl_key (e : ACLEntry) (key : string) : ACLEntry := {|
  acl_ID := acl_ID e; acl_TenantID := acl_TenantID e; acl_Bucket := acl_Bucket e;
  acl_Key := key; acl_ResourceKind := acl_ResourceKind e;
  acl_PrincipalType := acl_PrincipalType e; acl_PrincipalID := acl_PrincipalID e;
  acl_Action := acl_Action e; acl_Effect := acl_Effect e; acl_Inherit := acl_Inherit e;
  acl_CreatedBy := acl_CreatedBy e; acl_CreatedAt := acl_CreatedAt e; acl_OwnerID := acl_OwnerID e |}.

Definition normalizeACLResource (e : ACLEntry) : ACLEntry :=
  if (acl_ResourceKind e =s ResourceBucket) then set_acl_key e ""
  else if (acl_ResourceKind e =s ResourceFolder) then
    let key := TrimPrefix (acl_Key e) "/" in
    set_acl_key e (if (key <>s "") && negb (HasSuffix key "/") then (key ++ "/")%string else key)
  else set_acl_key e (TrimPrefix (acl_Key e) "/").

Definition validPrincipalType (kind : string) : bool :=
  contains [PrincipalTypeUser; PrincipalTypeDepartment; PrincipalTypeGroup; PrincipalTypeRole;
            PrincipalTypeAuthenticated; PrincipalTypeEveryone] kind.

Definition principalIDRequired (kind : string) : bool :=
  (kind <>s PrincipalTypeEveryone) && (kind <>s PrincipalTypeAuthenticated).

Definition validateACL (e : ACLEntry) : option error :=
  if (acl_TenantID e =s "") || (acl_Bucket e =s "") || (acl_Action e =s "")
  then Some (badArgument "tenant_id, bucket and action are required")
  else if (acl_ResourceKind e <>s ResourceBucket) && (acl_ResourceKind e <>s ResourceFolder) &&
          (acl_ResourceKind e <>s ResourceObject)
  then Some (badArgument "invalid resource_kind")
  else if (acl_ResourceKind e =s ResourceFolder) && ContainsAny (acl_Key e) "%_"
  then Some (badArgument "folder ACL key contains % or _")
  else if (acl_Effect e <>s EffectAllow) && (acl_Effect e <>s EffectDeny)
  then Some (badArgument "effect must be allow or deny")
  else if negb (validPrincipalType (acl_PrincipalType e)) ||
          principalIDRequired (acl_PrincipalType e) && (acl_PrincipalID e =s "")
  then Some (badArgument "principal is incomplete")
  else if negb (ValidAction (acl_Action e)) then Some (badArgument "unsupported action")
  else if (acl_ResourceKind e =s ResourceFolder) && ContainsAny (acl_Key e) "%_"
  then Some (badArgument "folder ACL key must not contain % or _")
  else None.

Definition acl_resource (e : ACLEntry) : Resource := {|
  r_TenantID := acl_TenantID e; r_Bucket := acl_Bucket e; r_Key := acl_Key e;
  r_Kind := acl_ResourceKind e; r_OwnerID := acl_OwnerID e |}.

Definition sameACLResourceIdentity (left right : ACLEntry) : bool :=
  let left := normalizeACLResource left in
  let right := normalizeACLResource right in
  (acl_TenantID left =s acl_TenantID right) && (acl_Bucket left =s acl_Bucket right) &&
  (acl_Key left =s acl_Key right) && (acl_ResourceKind left =s acl_ResourceKind right).

Definition preserveACLIdentity (e persisted : ACLEntry) : ACLEntry := {|
  acl_ID := acl_ID persisted; acl_TenantID := acl_TenantID persisted;
  acl_Bucket := acl_Bucket persisted; acl_Key := acl_Key persisted;
  acl_ResourceKind := acl_ResourceKind persisted;
  acl_PrincipalType := acl_PrincipalType e; acl_PrincipalID := acl_PrincipalID e;
  acl_Action := acl_Action e; acl_Effect := acl_Effect e; acl_Inherit := acl_Inherit e;
  acl_CreatedBy := acl_CreatedBy persisted; acl_CreatedAt := acl_CreatedAt persisted;
  acl_OwnerID := acl_OwnerID e |}.

Definition set_acl_creation (e : ACLEntry) (id by_ : string) (at_ : time) : ACLEntry := {|
  acl_ID := id; acl_TenantID := acl_TenantID e; acl_Bucket := acl_Bucket e;
  acl_Key := acl_Key e; acl_ResourceKind := acl_ResourceKind e;
  acl_PrincipalType := acl_PrincipalType e; acl_PrincipalID := acl_PrincipalID e;
  acl_Action := acl_Action e; acl_Effect := acl_Effect e; acl_Inherit := acl_Inherit e;
  acl_CreatedBy := by_; acl_CreatedAt := at_; acl_OwnerID := acl_OwnerID e |}.

Definition setACLCreationMetadata (ctx : Ctx) (now : time) (e : ACLEntry) : ACLEntry :=
  if IsZero (acl_CreatedAt e) then set_acl_creation e (acl_ID e) (subjectFromContext ctx) now else e.

Definition object_resource (tenant bucket key owner : string) : Resource := {|
  r_TenantID := tenant; r_Bucket := bucket; r_Key := key; r_Kind := ResourceObject;
  r_OwnerID := owner |}.

Definition shareAllows (s : Share) (action : string) : bool :=
  if (action =s ActionDownload) then sh_AllowDownload s
  else (action =s ActionRead) || (action =s ActionPreview) && sh_AllowPreview s.

Definition shareActions (s : Share) : list string :=
  [ActionRead] ++ (if sh_AllowPreview s then [ActionPreview] else []) ++
  (if sh_AllowDownload s then [ActionDownload] else []).

Definition canPublish (p : Principal) : bool :=
  if isAdministrator p then true
  else existsb (fun role => (role =s "vault.publisher") || (role =s "vault.publisher_admin")) (Roles p).

Definition share_capability (s : Share) : Capability := {|
  cap_ID := sh_ID s; cap_TenantID := sh_TenantID s; cap_Bucket := sh_Bucket s;
  cap_Key := sh_Key s; cap_Actions := shareActions s |}.

Definition asset_capability (a : PublicAsset) : Capability := {|
  cap_ID := pa_ID a; cap_TenantID := pa_TenantID a; cap_Bucket := pa_Bucket a;
  cap_Key := pa_Key a; cap_Actions := [ActionRead; ActionPreview; ActionDownload] |}.

Record CreateShareRequest := {
  cs_Tenant : string; cs_Bucket : string; cs_Key : string; cs_Name : string; cs_Password : string;
  cs_AllowPreview : bool; cs_AllowDownload : bool; cs_MaxUses : Z; cs_ExpiresAt : time;
  cs_OwnerID : string
}.

(** The methods; the store's methods of the same names are the port's. *)
Module Manager.
Section Manager.
Context `{UUIDLib} `{Crypto} {S : Type} `{AccessStore S} (m : Manager) (ctx : Ctx).

Definition checkBucket (tenant bucket : string) : option error :=
  CheckBucket (m_boundary m) (Some ctx) tenant bucket.

(** ** Directory *)

(** [_, err := GetDepartment]; its error becomes an invalid argument. *)
Definition knownDepartment (tenant id what : string) (store : S) : option error :=
  match GetDepartment store tenant id with
  | Ok _ => None
  | Err _ => Some (badArgument what)
  end.

Definition CreateDepartment (now : time) (newID : string) (d : Department) : prog S Department :=
  run! guard (fun _ => validateDepartment d) in
  run! guard (fun s => if (dep_ParentID d <>s "")
                      then knownDepartment (dep_TenantID d) (dep_ParentID d) "parent department" s
                      else None) in
  let d' := {| dep_ID := if (dep_ID d =s "") then newID else dep_ID d;
               dep_TenantID := dep_TenantID d; dep_ParentID := dep_ParentID d;
               dep_Name := dep_Name d; dep_CreatedAt := now; dep_UpdatedAt := now |} in
  run! writes (fun s => PutDepartment s d') in ret d'.

Definition DeleteDepartment (tenant id : string) : prog S unit :=
  writes (fun s => DeleteDepartment s tenant id).

Definition PutDepartmentMember (now : time) (mem : DepartmentMember) : prog S unit :=
  run! refuse_if ((mem_TenantID mem =s "") || (mem_DepartmentID mem =s "") || (mem_SubjectID mem =s ""))
        (badArgument "tenant_id, department_id and subject_id are required") in
  let role := if (mem_Role mem =s "") then "member"%string else mem_Role mem in
  run! refuse_if ((role <>s "member") && (role <>s "manager"))
        (badArgument "department role must be member or manager") in
  run! guard (knownDepartment (mem_TenantID mem) (mem_DepartmentID mem) "department") in
  writes (fun s => PutDepartmentMember s
    {| mem_TenantID := mem_TenantID mem; mem_DepartmentID := mem_DepartmentID mem;
       mem_SubjectID := mem_SubjectID mem; mem_Role := role; mem_CreatedAt := now |}).

Definition DeleteDepartmentMember (tenant dep subject : string) : prog S unit :=
  writes (fun s => DeleteDepartmentMember s tenant dep subject).

Definition ListDepartmentMembers (tenant dep : string) : prog S (list DepartmentMember) :=
  reads (fun s => ListDepartmentMembers s tenant dep).

Definition ListDepartments (tenant : string) : prog S (list Department) :=
  reads (fun s => ListDepartments s tenant).

(** ** ACL entries *)

Definition validateACLPrincipal (e : ACLEntry) (store : S) : option error :=
  if (acl_PrincipalType e <>s PrincipalTypeDepartment) then None
  else knownDepartment (acl_TenantID e) (acl_PrincipalID e) "department principal" store.

(** The first entry of the resource for the same principal and action. *)
Definition findMatchingACL (e : ACLEntry) (store : S) : result (option ACLEntry) :=
  let! entries := ListResourceACL store (acl_TenantID e) (acl_Bucket e) (acl_Key e)
                    (acl_ResourceKind e) in
  Ok (List.find (fun x => (acl_PrincipalType x =s acl_PrincipalType e) &&
                          (acl_PrincipalID x =s acl_PrincipalID e) &&
                          (acl_Action x =s acl_Action e)) entries).

Definition authorizeACLWrite (e : ACLEntry) : prog S unit :=
  run! guard (validateACLPrincipal e) in
  guard (fun s => require m s ctx ActionManageACL (acl_resource e)).

Definition writeACL (e : ACLEntry) : prog S ACLEntry :=
  run! writes (fun s => PutACLEntry s e) in ret e.

Definition createACLWithID (now : time) (e : ACLEntry) : prog S ACLEntry :=
  run! authorizeACLWrite e in writeACL (setACLCreationMetadata ctx now e).

Definition putACLWithID (now : time) (e : ACLEntry) : prog S ACLEntry := fun s =>
  match GetACLEntryByID s (acl_ID e) with
  | Ok persisted =>
      (run! refuse_if (negb (sameACLResourceIdentity e persisted))
             (badArgument "ACL ID is bound to another resource") in
       run! authorizeACLWrite e in
       writeACL (preserveACLIdentity e persisted)) s
  | Err err =>
      if negb (Is (Some err) ErrNotFound) then (s, Err (Wrap "lookup ACL" [err]))
      else createACLWithID now e s
  end.

(** An absent match is the zero entry, whose ID is empty. *)
Definition putACLByNaturalKey (now : time) (newID : string) (e : ACLEntry) : prog S ACLEntry :=
  run! authorizeACLWrite e in
  do! existing := reads (findMatchingACL e) in
  let e' := match existing with
            | Some x => if (acl_ID x <>s "")
                        then set_acl_creation e (acl_ID x) (acl_CreatedBy x) (acl_CreatedAt x)
                        else set_acl_creation e newID (acl_CreatedBy e) (acl_CreatedAt e)
            | None => set_acl_creation e newID (acl_CreatedBy e) (acl_CreatedAt e)
            end in
  writeACL (setACLCreationMetadata ctx now e').

Definition PutACL (now : time) (newID : string) (entry : ACLEntry) : prog S ACLEntry :=
  let e := normalizeACLResource entry in
  run! guard (fun _ => validateACL e) in
  if (acl_ID e <>s "") then putACLWithID now e else putACLByNaturalKey now newID e.

(** Creators may remove their own rows; anybody else needs the action. *)
Definition unlessSubject (creator action : string) (r : Resource) (store : S) : option error :=
  if (subjectFromContext ctx <>s creator) then require m store ctx action r else None.

Definition DeleteACL (tenant id : string) : prog S unit :=
  do! e := reads (fun s => GetACLEntry s tenant id) in
  run! guard (fun _ => checkBucket (acl_TenantID e) (acl_Bucket e)) in
  run! guard (unlessSubject (acl_CreatedBy e) ActionManageACL (acl_resource e)) in
  writes (fun s => DeleteACLEntry s tenant id).

Definition ListACL (r : Resource) : prog S (list ACLEntry) :=
  run! guard (fun s => require m s ctx ActionManageACL r) in
  reads (fun s => ListResourceACL s (r_TenantID r) (r_Bucket r) (r_Key r) (r_Kind r)).

(** ** Shares *)

Definition passwordMAC (shareID password : string) : string :=
  if (password =s "") then ""%string
  else hmac_b64 (ShareSecret (m_cfg m))
         ("share-password" ++ newline ++ shareID ++ newline ++ password)%string.

Definition CreateShare (now : time) (newID : string) (token : result string)
    (req : CreateShareRequest) : prog S (Share * string) :=
  let r := object_resource (cs_Tenant req) (cs_Bucket req) (cs_Key req) (cs_OwnerID req) in
  run! guard (fun s => require m s ctx ActionShare r) in
  run! refuse_if ((cs_Key req =s "") || (cs_MaxUses req <? 0) || (200 <? len (cs_Name req)) ||
                 (1024 <? len (cs_Password req)))
        (badArgument "invalid share target or max_uses") in
  let preview := if negb (cs_AllowPreview req) && negb (cs_AllowDownload req)
                 then true else cs_AllowPreview req in
  do! tok := reads (fun _ => token) in
  let share := {|
    sh_ID := newID; sh_TenantID := cs_Tenant req; sh_Bucket := cs_Bucket req; sh_Key := cs_Key req;
    sh_Name := cs_Name req; sh_TokenHash := tokenHash tok;
    sh_PasswordMAC := passwordMAC newID (cs_Password req); sh_AllowPreview := preview;
    sh_AllowDownload := cs_AllowDownload req; sh_MaxUses := cs_MaxUses req; sh_UseCount := 0;
    sh_ExpiresAt := cs_ExpiresAt req; sh_RevokedAt := 0; sh_CreatedBy := subjectFromContext ctx;
    sh_CreatedAt := now; sh_OwnerID := cs_OwnerID req |} in
  run! writes (fun s => CreateShare s share) in ret (share, tok).

Definition ListShares (tenant bucket key owner : string) : prog S (list Share) :=
  run! guard (fun s => require m s ctx ActionShare (object_resource tenant bucket key owner)) in
  reads (fun s => ListShares s tenant bucket key).

Definition RevokeShare (now : time) (tenant id : string) : prog S unit :=
  do! share := reads (fun s => GetShare s tenant id) in
  run! guard (fun _ => checkBucket (sh_TenantID share) (sh_Bucket share)) in
  run! guard (unlessSubject (sh_CreatedBy share) ActionShare
               (object_resource tenant (sh_Bucket share) (sh_Key share) (sh_OwnerID share))) in
  writes (fun s => RevokeShare s tenant id now).

Definition checkCapabilityTarget (tenant bucket : string) (consume : bool) : option error :=
  let err := checkBucket tenant bucket in
  if negb consume && negb (IsResourceBoundaryFault err) && Is err ErrTenantUnavailable
  then None else err.

Definition validateShare (now : time) (share : Share) (password action : string) : option error :=
  if negb (IsZero (sh_RevokedAt share)) ||
     negb (IsZero (sh_ExpiresAt share)) && negb (Before now (sh_ExpiresAt share)) ||
     (0 <? sh_MaxUses share) && (sh_MaxUses share <=? sh_UseCount share)
  then Some (Sentinel ErrShareExpired)
  else if (sh_PasswordMAC share <>s "") &&
          (passwordMAC (sh_ID share) password <>s sh_PasswordMAC share)
  then Some (Sentinel ErrBadPassword)
  else if negb (shareAllows share action)
  then errors_Join [Some (Sentinel ErrDenied); Some (NewError "share action not granted")]
  else None.

(** [now] is read when the share is validated, [later] when it is consumed. *)
Definition ResolveShare (now later : time) (token password action : string) (consume : bool)
    : prog S (Share * Principal) :=
  do! share := reads (fun s => GetShareByTokenHash s (tokenHash token)) in
  run! guard (fun _ => validateShare now share password action) in
  run! guard (fun _ => checkCapabilityTarget (sh_TenantID share) (sh_Bucket share) consume) in
  do! used := (if consume then fun s => ConsumeShare s (sh_TokenHash share) later else ret share) in
  ret (used, CapabilityPrincipal PrincipalShare (share_capability used)).

(** ** Public assets *)

Definition set_asset (a : PublicAsset) (id slug cache by_ : string) (at_ : time) : PublicAsset := {|
  pa_ID := id; pa_TenantID := pa_TenantID a; pa_Bucket := pa_Bucket a; pa_Key := pa_Key a;
  pa_Slug := slug; pa_CacheControl := cache; pa_PublishedBy := by_; pa_PublishedAt := at_;
  pa_OwnerID := pa_OwnerID a |}.

(** The ID to publish under: the one of the slug's current asset, or the request's. *)
Definition reusePublicAssetID (a : PublicAsset) (slug : string) (store : S) : result string :=
  match GetPublicAsset store slug with
  | Err err =>
      if negb (IsResourceBoundaryFault (Some err)) && Is (Some err) ErrNotFound
      then Ok (pa_ID a) else Err err
  | Ok existing =>
      if (pa_TenantID existing <>s pa_TenantID a)
      then Err (badArgument "asset slug is already in use")
      else match checkBucket (pa_TenantID existing) (pa_Bucket existing) ;?
                 if (pa_PublishedBy existing <>s subjectFromContext ctx)
                 then require m store ctx ActionPublish
                        (object_resource (pa_TenantID existing) (pa_Bucket existing)
                           (pa_Key existing) (pa_OwnerID existing))
                 else None with
           | Some err => Err err
           | None => Ok (pa_ID existing)
           end
  end.

Definition lineBreaks : string := String (ascii_of_nat 13) newline.

Definition PublishAsset (now : time) (newID : string) (a : PublicAsset) : prog S PublicAsset :=
  run! guard (fun s => require m s ctx ActionPublish
               (object_resource (pa_TenantID a) (pa_Bucket a) (pa_Key a) (pa_OwnerID a))) in
  let slug := Trim (TrimSpace (pa_Slug a)) "/" in
  run! refuse_if ((slug =s "") || Contains slug ".." || ContainsAny slug "?#")
        (badArgument "invalid asset slug") in
  do! reused := reads (reusePublicAssetID a slug) in
  let id := if (reused =s "") then newID else reused in
  let cache := if (pa_CacheControl a =s "") then "public, max-age=3600"%string
               else pa_CacheControl a in
  run! refuse_if ((512 <? len cache) || ContainsAny cache lineBreaks)
        (badArgument "invalid cache_control") in
  let a' := set_asset a id slug cache (subjectFromContext ctx) now in
  run! writes (fun s => PutPublicAsset s a') in ret a'.

Definition ResolvePublicAsset (slug : string) : prog S (PublicAsset * Principal) :=
  do! a := reads (fun s => GetPublicAsset s (Trim slug "/")) in
  run! guard (fun _ => checkCapabilityTarget (pa_TenantID a) (pa_Bucket a) false) in
  ret (a, CapabilityPrincipal PrincipalPublic (asset_capability a)).

Fixpoint checkPublicAssetRows (tenant : string) (assets : list PublicAsset) : option error :=
  match assets with
  | [] => None
  | a :: rest =>
      if (pa_TenantID a <>s tenant)
      then boundaryFault "public assets" (badArgument "asset tenant mismatch")
      else checkBucket (pa_TenantID a) (pa_Bucket a) ;? checkPublicAssetRows tenant rest
  end.

Definition ListPublicAssets (tenant : string) : prog S (list PublicAsset) :=
  let p := PrincipalFrom ctx in
  let scope := {| cs_Kind := CoverageTenant; cs_TenantID := tenant |} in
  run! refuse_if (negb (tenantMatches p {| r_TenantID := tenant; r_Bucket := ""; r_Key := "";
                                          r_Kind := ""; r_OwnerID := "" |})) (Sentinel ErrDenied) in
  run! guard (fun _ => CheckCoverage (m_boundary m) (Some ctx) scope) in
  do! assets := reads (fun s => ListPublicAssets s tenant) in
  run! guard (fun _ => checkPublicAssetRows tenant assets) in
  run! guard (fun _ => CheckCoverage (m_boundary m) (Some ctx) scope) in
  if canPublish p || isAdministrator p then ret assets
  else ret (List.filter (fun a => pa_PublishedBy a =s SubjectID p) assets).

Definition UnpublishAsset (tenant slug : string) : prog S unit :=
  do! a := reads (fun s => GetPublicAsset s slug) in
  run! guard (fun _ => checkBucket (pa_TenantID a) (pa_Bucket a)) in
  run! guard (unlessSubject (pa_PublishedBy a) ActionPublish
               (object_resource tenant (pa_Bucket a) (pa_Key a) (pa_OwnerID a))) in
  writes (fun s => DeletePublicAsset s tenant slug).
End Manager.
End Manager.
