(* ===== verification/AccessStoreProps.v ===== *)
(** * The access store: row invariants and query specifications

    What the SQL store promises to the manager: constraints kept by every statement,
    which entries apply to a key, which departments a subject belongs to. *)

From Stdlib Require Import Lia Bool ZArith Ascii.
From stdpp Require Import base gmap strings list numbers relations.
From S2P Require Import Prelude GoStrings GoTime Sql GoErrors Spaces Access AccessProps AccessStore.

Open Scope Z_scope.

(** ** Applicable entries *)

(** A folder key names the bucket root or ends in a slash. *)
Definition folder_key (key : string) : Prop := key = ""%string \/ exists dir, key = (dir ++ "/")%string.

Definition acl_key_ok (e : ACLEntry) : Prop :=
  acl_ResourceKind e = ResourceFolder -> folder_key (acl_Key e).

(** [key] lies inside the folder: below the whole path component [dir], never beside it. *)
Definition inside (folder key : string) : Prop :=
  folder = ""%string \/
  exists dir rest, folder = (dir ++ "/")%string /\ key = (dir ++ "/" ++ rest)%string.

(** What the entry is about, as paths. *)
Definition covers (e : ACLEntry) (tenant bucket key : string) : Prop :=
  acl_TenantID e = tenant /\ acl_Bucket e = bucket /\
  (acl_ResourceKind e = ResourceBucket \/
   (acl_ResourceKind e = ResourceObject /\ acl_Key e = key) \/
   (acl_ResourceKind e = ResourceFolder /\
     (acl_Key e = key \/ acl_Inherit e = true /\ inside (acl_Key e) key))).

Lemma HasPrefix_inside folder key :
  folder_key folder -> HasPrefix key folder = true <-> inside folder key.
Proof.
  intros Hf. unfold inside. rewrite HasPrefix_spec. split.
  - intros (t & ->). destruct Hf as [->|(dir & ->)]; [by left|right].
    exists dir, t. by rewrite string_app_assoc.
  - intros [->|(dir & rest & -> & ->)]; [by exists key|]. exists rest. by rewrite string_app_assoc.
Qed.

Lemma acl_applicable_covers tenant bucket key e :
  acl_key_ok e -> acl_applicable tenant bucket key e = true <-> covers e tenant bucket key.
Proof.
  intros Hok. unfold acl_applicable, covers.
  rewrite !andb_true_iff, !orb_true_iff, !andb_true_iff, !orb_true_iff, !andb_true_iff, !streqb_true.
  destruct (String.eqb_spec (acl_ResourceKind e) ResourceFolder) as [Hk|Hk]; [|tauto].
  rewrite (HasPrefix_inside _ _ (Hok Hk)). tauto.
Qed.

(** The SQL prefix test respects path components: over a table whose folder keys are
    normalized, [ListApplicableACL] answers exactly the entries of the bucket, of the
    key itself and of the folders the key lies inside (the inherited ones), so that an
    entry on [report/] never reaches [report2026/x] and no key character acts as a
    wildcard. *)
Theorem ListApplicableACL_covers db tenant bucket key e :
  (forall x, x ∈ resource_acls db -> acl_key_ok x) ->
  exists entries, sql_ListApplicableACL db tenant bucket key = Ok entries /\
    (e ∈ entries <-> e ∈ resource_acls db /\ covers e tenant bucket key).
Proof.
  intros Hok. eexists. split; [done|]. rewrite elem_sort_by, elem_filter_b.
  split; intros [He Hc]; (split; [done|]); by apply acl_applicable_covers; [apply Hok|].
Qed.

Lemma ListApplicableACL_covers_witness :
  exists entries,
    sql_ListApplicableACL
      {| departments := []; department_members := []; shares := []; public_assets := [];
         resource_acls := [FixedStore.entry ActionRead EffectAllow] |} "acme" "docs" "a/b" = Ok entries /\
    (FixedStore.entry ActionRead EffectAllow ∈ entries <->
     FixedStore.entry ActionRead EffectAllow ∈ [FixedStore.entry ActionRead EffectAllow] /\
     covers (FixedStore.entry ActionRead EffectAllow) "acme" "docs" "a/b").
Proof.
  refine (ListApplicableACL_covers {| departments := []; department_members := []; shares := [];
    public_assets := []; resource_acls := [FixedStore.entry ActionRead EffectAllow] |} _ _ _ _ _).
  intros x Hx. apply list_elem_of_singleton in Hx as ->. discriminate.
Defined.

(** ** Departments *)

(** Members of a department belong to it and to all departments above it. *)
Definition belongs (db : AccessDB) (tenant subject dep : string) : Prop :=
  exists direct, direct ∈ direct_departments db tenant subject /\
                 rtc (fun a b => b ∈ parents db tenant a) direct dep.

(** [ListSubjectDepartments] always answers, also when the parents form a cycle, and
    its answer is exactly the departments the subject is a member of and their ancestors
    in the tenant's directory. *)
Theorem ListSubjectDepartments_spec db tenant subject :
  exists ids, sql_ListSubjectDepartments db tenant subject = Ok ids /\
    forall dep, dep ∈ ids <-> subject <> ""%string /\ belongs db tenant subject dep.
Proof.
  unfold sql_ListSubjectDepartments. destruct (String.eqb_spec subject "") as [->|Hs].
  { exists []. split; [done|]. intros dep. split; [by intros ?%not_elem_of_nil|by intros []]. }
  destruct (closure_spec (parents db tenant)
    (direct_departments db tenant subject ++ map dep_ParentID (departments db))
    (direct_departments db tenant subject)) as (ids & Hids & Hspec).
  - intros x Hx. apply elem_of_app. by left.
  - intros x y _ Hy. apply elem_of_app. right. unfold parents in Hy.
    apply list_elem_of_fmap in Hy as (d & -> & Hd). apply elem_filter_b in Hd as [Hd _].
    by apply list_elem_of_fmap_2.
  - unfold subject_departments. rewrite Hids. eexists. split; [done|]. intros dep.
    rewrite elem_sort_by, Hspec. unfold belongs, reachable, edge. tauto.
Qed.

Lemma tree_step_closed succ fuel st out :
  iter_fuel (tree_step succ) fuel st = Some out ->
  (forall x, x ∈ fst st -> forall y, y ∈ succ x -> y ∈ fst st \/ y ∈ snd st) ->
  (forall x, x ∈ fst st \/ x ∈ snd st -> x ∈ out) /\
  (forall x, x ∈ out -> forall y, y ∈ succ x -> y ∈ out).
Proof.
  revert st. induction fuel as [|fuel IH]; [done|]. intros [seen [|x queue]]; cbn.
  - intros [= ->] Hc. split; [intros x [?|?%not_elem_of_nil]; done|].
    intros x Hx y Hy. by destruct (Hc x Hx y Hy) as [?|?%not_elem_of_nil].
  - intros Hrun Hc. apply IH in Hrun as [Hin Hout]; cbn in *.
    + split; [|done]. intros y Hy. apply Hin. rewrite !elem_of_app, list_elem_of_singleton.
      rewrite elem_of_cons in Hy. tauto.
    + intros y Hy z Hz. rewrite !elem_of_app, list_elem_of_singleton in *.
      destruct Hy as [Hy| ->]; [|tauto]. specialize (Hc y Hy z Hz).
      rewrite elem_of_cons in Hc. tauto.
Qed.

Lemma cascade_spec db id x :
  x ∈ cascade db id <-> reachable (children (departments db) (fun _ => true)) [id] x.
Proof.
  unfold cascade. destruct (closure_spec (children (departments db) (fun _ => true))
    (id :: map dep_ID (departments db)) [id]) as (out & -> & Hout).
  - intros y Hy. apply list_elem_of_singleton in Hy as ->. by left.
  - intros y z _ Hz. right. unfold children in Hz. apply list_elem_of_fmap in Hz as (d & -> & Hd).
    apply elem_filter_b in Hd as [Hd _]. by apply list_elem_of_fmap_2.
  - apply Hout.
Qed.

Lemma elem_children deps p id x :
  x ∈ children deps p id <->
  exists d, d ∈ deps /\ x = dep_ID d /\ dep_ParentID d = id /\ id <> ""%string /\ p d = true.
Proof.
  unfold children. rewrite list_elem_of_fmap. split.
  - intros (d & -> & Hd). apply elem_filter_b in Hd as [Hd Hp].
    rewrite !andb_true_iff, negb_true_iff, streqb_true, streqb_false in Hp.
    destruct Hp as [[Hp Hne] Hpd]. exists d. rewrite <- Hp at 2. tauto.
  - intros (d & Hd & -> & <- & Hne & Hp). exists d. split; [done|]. apply elem_filter_b.
    split; [done|]. rewrite !andb_true_iff, negb_true_iff, streqb_true, streqb_false. tauto.
Qed.

(** A directory whose departments share the tenant of their parent. *)
Definition same_tenant_tree (db : AccessDB) : Prop :=
  forall d p, d ∈ departments db -> p ∈ departments db ->
    dep_ParentID d = dep_ID p -> dep_ParentID d <> ""%string -> dep_TenantID d = dep_TenantID p.

Lemma cascade_in_tree db tenant id tree x :
  NoDup (map dep_ID (departments db)) -> same_tenant_tree db ->
  existsb (dep_key tenant id) (departments db) = true ->
  department_tree db tenant id = Some tree -> x ∈ cascade db id -> x ∈ tree.
Proof.
  intros Hnd Hst Hex Ht. apply tree_step_closed in Ht as [Hin Hcl]; [|by intros ? ?%not_elem_of_nil].
  rewrite cascade_spec. intros (a & Ha & Hr). apply list_elem_of_singleton in Ha as ->.
  apply existsb_elem in Hex as (d0 & Hd0 & Hk). unfold dep_key in Hk.
  apply andb_true_iff in Hk as [Hkt Hki]. apply streqb_true in Hkt, Hki.
  cut (x ∈ tree /\ exists d, d ∈ departments db /\ dep_ID d = x /\ dep_TenantID d = tenant);
    [by intros []|].
  revert x Hr. apply rtc_ind_r; [|intros y z Hr Hyz [IH (d & Hd & Hdy & Hdt)]].
  - split; [|by exists d0]. apply Hin. right. cbn. apply list_elem_of_fmap. exists d0. split; [done|].
    apply elem_filter_b. split; [done|]. unfold dep_key. by rewrite Hkt, Hki, !streqb_refl.
  - apply elem_children in Hyz as (d' & Hd' & -> & Hp & Hne & _).
    assert (dep_TenantID d' = tenant) as Ht'.
    { rewrite <- Hdt. apply Hst; [done..| |]; congruence. }
    split; [|by exists d']. apply (Hcl y IH). apply elem_children. exists d'.
    repeat split; try done. by apply streqb_true.
Qed.

(** Deleting a department removes its whole subtree and leaves no entry that grants to
    or denies a removed department: with a tenant-consistent directory, no department
    entry of the tenant, membership or parent link of the store names a department that
    is gone. *)
Theorem DeleteDepartment_no_dangling db tenant id db' :
  NoDup (map dep_ID (departments db)) -> same_tenant_tree db ->
  sql_DeleteDepartment db tenant id = (db', None) ->
  let gone := cascade db id in
  (forall d, d ∈ departments db' <-> d ∈ departments db /\ dep_ID d ∉ gone) /\
  (forall d, d ∈ departments db' -> dep_ParentID d ∉ gone \/ dep_ParentID d = ""%string) /\
  (forall mem, mem ∈ department_members db' -> mem_DepartmentID mem ∉ gone) /\
  (forall e, e ∈ resource_acls db' -> acl_TenantID e = tenant ->
     acl_PrincipalType e = PrincipalTypeDepartment -> acl_PrincipalID e ∉ gone).
Proof.
  intros Hnd Hst. unfold sql_DeleteDepartment.
  destruct (department_tree db tenant id) as [tree|] eqn:Ht; [|done].
  destruct (existsb (dep_key tenant id) (departments db)) eqn:Hex; cbn; [|done].
  intros [= <-]. cbn.
  assert (forall l x, contains l x = false <-> x ∉ l) as Hcf.
  { intros l x. rewrite <- contains_spec. destruct (contains l x); intuition congruence. }
  assert (forall d, d ∈ delete_where (fun d => contains (cascade db id) (dep_ID d)) (departments db)
    <-> d ∈ departments db /\ dep_ID d ∉ cascade db id) as Hd.
  { intros d. by rewrite elem_delete_where, Hcf. }
  split; [exact Hd|]. split; [|split].
  - intros d Hin. apply Hd in Hin as [Hin Hg].
    destruct (String.eqb_spec (dep_ParentID d) ""); [by right|left]. intros Hp. apply Hg.
    apply cascade_spec in Hp as (a & Ha & Hr). apply cascade_spec. exists a. split; [done|].
    eapply rtc_r; [done|]. apply elem_children. by exists d.
  - intros mem Hm. apply elem_delete_where in Hm as [_ Hm]. by apply Hcf.
  - intros e He Het Hty Hp. apply elem_delete_where in He as [_ He].
    rewrite Het, Hty, !streqb_refl in He. cbn in He. apply Hcf in He. apply He.
    by eapply cascade_in_tree.
Qed.

(** A parent and a child department, a member of the child and an entry for it. *)
Definition small_directory : AccessDB := {|
  departments := [
    {| dep_ID := "d1"; dep_TenantID := "acme"; dep_ParentID := ""; dep_Name := "all";
       dep_CreatedAt := 1; dep_UpdatedAt := 1 |};
    {| dep_ID := "d2"; dep_TenantID := "acme"; dep_ParentID := "d1"; dep_Name := "eng";
       dep_CreatedAt := 1; dep_UpdatedAt := 1 |}];
  department_members := [{| mem_TenantID := "acme"; mem_DepartmentID := "d2"; mem_SubjectID := "bob";
                            mem_Role := "member"; mem_CreatedAt := 1 |}];
  resource_acls := [{|
    acl_ID := "e"; acl_TenantID := "acme"; acl_Bucket := "docs"; acl_Key := "";
    acl_ResourceKind := ResourceBucket; acl_PrincipalType := PrincipalTypeDepartment;
    acl_PrincipalID := "d2"; acl_Action := ActionRead; acl_Effect := EffectAllow;
    acl_Inherit := false; acl_CreatedBy := "root"; acl_CreatedAt := 1; acl_OwnerID := "" |}];
  shares := []; public_assets := [] |}.

Lemma DeleteDepartment_no_dangling_witness :
  let db' := fst (sql_DeleteDepartment small_directory "acme" "d1") in
  let gone := cascade small_directory "d1" in
  (forall d, d ∈ departments db' <-> d ∈ departments small_directory /\ dep_ID d ∉ gone) /\
  (forall d, d ∈ departments db' -> dep_ParentID d ∉ gone \/ dep_ParentID d = ""%string) /\
  (forall mem, mem ∈ department_members db' -> mem_DepartmentID mem ∉ gone) /\
  (forall e, e ∈ resource_acls db' -> acl_TenantID e = "acme"%string ->
     acl_PrincipalType e = PrincipalTypeDepartment -> acl_PrincipalID e ∉ gone).
Proof.
  cbv zeta. apply (DeleteDepartment_no_dangling small_directory "acme" "d1").
  - cbn. apply (bool_decide_unpack _). by vm_compute.
  - intros d p Hd Hp. cbn in Hd, Hp. rewrite !elem_of_cons in Hd, Hp.
    destruct Hd as [->|[->|Hd%not_elem_of_nil]], Hp as [->|[->|Hp%not_elem_of_nil]]; done.
  - vm_compute. reflexivity.
Defined.
