(* ===== verification/AccessInvariant.v ===== *)
(** * The store invariant of the access manager

    Well-formed tables, what each statement keeps of them, the manager's operations as
    steps on the database and the invariant of every reachable database. *)

From Stdlib Require Import Lia Bool ZArith Ascii.
From stdpp Require Import base gmap strings list numbers relations.
From S2P Require Import Prelude GoStrings GoTime Sql GoErrors Spaces Access AccessProps AccessStore AccessStoreProps AccessManager.

Open Scope Z_scope.

(** ** Well-formed tables *)

(** Where an entry is attached, as [validateACL] and [normalizeACLResource] leave it. *)
Definition acl_place_ok (e : ACLEntry) : Prop :=
  acl_TenantID e <> ""%string /\ acl_Bucket e <> ""%string /\
  acl_ResourceKind e ∈ [ResourceBucket; ResourceFolder; ResourceObject] /\
  (acl_ResourceKind e = ResourceFolder -> ContainsAny (acl_Key e) "%_" = false).

(** What an entry grants or denies, to whom. *)
Definition acl_grant_ok (e : ACLEntry) : Prop :=
  acl_Action e ∈ allActions /\ acl_Effect e ∈ [EffectAllow; EffectDeny] /\
  validPrincipalType (acl_PrincipalType e) = true /\
  (principalIDRequired (acl_PrincipalType e) = true -> acl_PrincipalID e <> ""%string).

Lemma validateACL_None e : validateACL e = None -> acl_place_ok e /\ acl_grant_ok e.
Proof.
  unfold validateACL, acl_place_ok, acl_grant_ok, ValidAction.
  destruct (String.eqb_spec (acl_TenantID e) ""), (String.eqb_spec (acl_Bucket e) ""),
    (String.eqb_spec (acl_Action e) ""); cbn [orb]; try discriminate.
  destruct (_ && _ && _) eqn:Hkind; [discriminate|].
  destruct (_ && ContainsAny _ _) eqn:Hany; [discriminate|].
  destruct ((acl_Effect e <>s EffectAllow) && _) eqn:Heff; [discriminate|].
  destruct (negb (validPrincipalType _) || _) eqn:Hpr; [discriminate|].
  destruct (contains allActions _) eqn:Hact; [intros _|discriminate].
  apply contains_spec in Hact. apply orb_false_iff in Hpr as [Hpt Hpid].
  rewrite negb_false_iff in Hpt. rewrite !andb_false_iff, !negb_false_iff, !streqb_true in *.
  rewrite !streqb_false in *. rewrite !elem_of_cons.
  split; [split; [done|split; [done|]]|split; [done|]].
  - split; [tauto|]. intros Hf. destruct Hany as [|Hany]; [done|exact Hany].
  - split; [tauto|]. split; [done|]. intros Hreq. destruct Hpid as [Hpid|]; [|done].
    by rewrite Hreq in Hpid.
Qed.

Definition acl_row_ok (e : ACLEntry) : Prop :=
  acl_place_ok e /\ acl_grant_ok e /\ acl_key_ok e /\
  (acl_ResourceKind e = ResourceBucket -> acl_Key e = ""%string).

Record acls_ok (rows : list ACLEntry) : Prop := {
  acls_ids : NoDup (map acl_ID rows);
  acls_natural : forall x y, x ∈ rows -> y ∈ rows -> acl_natural_key x y = true -> acl_ID x = acl_ID y;
  acls_rows : forall e, e ∈ rows -> acl_row_ok e
}.

Definition share_row_ok (s : Share) : Prop :=
  0 <= sh_MaxUses s /\ 0 <= sh_UseCount s /\ (0 < sh_MaxUses s -> sh_UseCount s <= sh_MaxUses s).

Record shares_ok (rows : list Share) : Prop := {
  shares_ids : NoDup (map sh_ID rows);
  shares_hashes : NoDup (map sh_TokenHash rows);
  shares_rows : forall s, s ∈ rows -> share_row_ok s
}.

Record assets_ok (rows : list PublicAsset) : Prop := {
  assets_ids : NoDup (map pa_ID rows);
  assets_slugs : NoDup (map pa_Slug rows)
}.

Record directory_ok (deps : list Department) (mems : list DepartmentMember) : Prop := {
  deps_ids : NoDup (map dep_ID deps);
  deps_parents : forall d, d ∈ deps -> dep_ParentID d = ""%string \/ dep_ParentID d ∈ map dep_ID deps;
  mems_deps : forall mem, mem ∈ mems -> mem_DepartmentID mem ∈ map dep_ID deps
}.

(** The store invariant. *)
Record db_ok (db : AccessDB) : Prop := {
  db_acls : acls_ok (resource_acls db);
  db_shares : shares_ok (shares db);
  db_assets : assets_ok (public_assets db);
  db_directory : directory_ok (departments db) (department_members db)
}.

(** ** Each statement keeps its table's constraints *)

Lemma acls_ok_delete p rows : acls_ok rows -> acls_ok (delete_where p rows).
Proof.
  intros [Hi Hn Hr]. split; [by apply map_delete_where_NoDup| |].
  - intros x y [Hx _]%elem_delete_where [Hy _]%elem_delete_where. by apply Hn.
  - intros e [He _]%elem_delete_where. by apply Hr.
Qed.

Lemma shares_ok_delete p rows : shares_ok rows -> shares_ok (delete_where p rows).
Proof.
  intros [Hi Hh Hr]. split; [by apply map_delete_where_NoDup..|].
  intros s [Hs _]%elem_delete_where. by apply Hr.
Qed.

Lemma assets_ok_delete p rows : assets_ok rows -> assets_ok (delete_where p rows).
Proof. intros [Hi Hs]. split; by apply map_delete_where_NoDup. Qed.

Lemma natural_key_row x e : acl_natural_key x (acl_row e) = acl_natural_key x e.
Proof. done. Qed.

Lemma natural_key_sym x y : acl_natural_key x y = acl_natural_key y x.
Proof.
  unfold acl_natural_key, acl_same_resource.
  by rewrite (String.eqb_sym (acl_TenantID x)), (String.eqb_sym (acl_Bucket x)),
    (String.eqb_sym (acl_Key x)), (String.eqb_sym (acl_ResourceKind x)),
    (String.eqb_sym (acl_PrincipalType x)), (String.eqb_sym (acl_PrincipalID x)),
    (String.eqb_sym (acl_Action x)).
Qed.

(** An update of the row [y] with [e] leaves [y] where it is, with [e]'s grant. *)
Lemma natural_key_update x y e :
  acl_same_resource y e = true -> acl_natural_key x (acl_update y e) = acl_natural_key x e.
Proof.
  unfold acl_natural_key, acl_same_resource. cbn. rewrite !andb_true_iff, !streqb_true.
  by intros [[[-> ->] ->] ->].
Qed.

Lemma acl_row_ok_update y e : acl_row_ok y -> acl_grant_ok e -> acl_row_ok (acl_update y e).
Proof. intros (Hp & _ & Hk) Hg. by repeat split; try apply Hp; try apply Hg; try apply Hk. Qed.

Lemma sql_PutACLEntry_ok db e :
  acls_ok (resource_acls db) -> acl_row_ok e ->
  acls_ok (resource_acls (fst (sql_PutACLEntry db e))).
Proof.
  intros Hok He. unfold sql_PutACLEntry. destruct Hok as [Hi Hn Hr].
  destruct (List.find _ _) as [x|] eqn:Hf; cbn.
  - apply find_some in Hf as [Hx Hid]. apply list_elem_of_In in Hx. apply streqb_true in Hid.
    destruct (acl_same_resource x e) eqn:Hs; cbn; [|by split].
    destruct (existsb _ _) eqn:Hc; cbn; [by split|]. rewrite existsb_none in Hc.
    assert (forall y, y ∈ update_where (fun y => acl_ID y =s acl_ID e) (fun y => acl_update y e)
              (resource_acls db) ->
            y = acl_update x e \/ (y ∈ resource_acls db /\ acl_ID y <> acl_ID e)) as Hu.
    { intros y [(z & Hz & Hzi & ->)|[Hy Hyi]]%elem_update_where; [left|right].
      - apply streqb_true in Hzi. f_equal. apply (NoDup_map_inj acl_ID (resource_acls db)); congruence.
      - by apply streqb_false in Hyi. }
    assert (forall y, y ∈ resource_acls db -> acl_ID y <> acl_ID e ->
              acl_natural_key y (acl_update x e) = false) as Hno.
    { intros y Hy Hyi. rewrite natural_key_update by done. specialize (Hc y Hy). cbn in Hc.
      apply streqb_false in Hyi. by rewrite Hyi in Hc. }
    split.
    + by rewrite map_update_where.
    + intros y z [->|[Hy Hyi]]%Hu [->|[Hz Hzi]]%Hu Hk; [done| | |by apply Hn].
      * rewrite natural_key_sym, Hno in Hk; done.
      * rewrite Hno in Hk; done.
    + intros y [->|[Hy _]]%Hu; [|by apply Hr]. apply acl_row_ok_update; [by apply Hr|by apply He].
  - destruct (existsb _ _) eqn:Hc; cbn; [by split|]. rewrite existsb_none in Hc.
    assert (forall y, y ∈ resource_acls db -> acl_ID y <> acl_ID e) as Hfresh.
    { intros y Hy. apply streqb_false, (find_none _ _ Hf y). by apply list_elem_of_In. }
    split; [by apply NoDup_map_snoc| |].
    + intros y z [Hy| ->%list_elem_of_singleton]%elem_of_app [Hz| ->%list_elem_of_singleton]%elem_of_app Hk;
        [by apply Hn| | |done].
      * rewrite natural_key_row, Hc in Hk; done.
      * rewrite natural_key_sym, natural_key_row, Hc in Hk; done.
    + intros y [Hy| ->%list_elem_of_singleton]%elem_of_app; [by apply Hr|exact He].
Qed.

Lemma sql_CreateShare_ok db s :
  shares_ok (shares db) -> share_row_ok s -> shares_ok (shares (fst (sql_CreateShare db s))).
Proof.
  intros [Hi Hh Hr] Hs. unfold sql_CreateShare. destruct (existsb _ _) eqn:Hc; cbn; [by split|].
  rewrite existsb_none in Hc. setoid_rewrite orb_false_iff in Hc. setoid_rewrite streqb_false in Hc.
  split; [apply NoDup_map_snoc; [done|]; intros y Hy; by apply Hc..|].
  intros y [Hy| ->%list_elem_of_singleton]%elem_of_app; [by apply Hr|done].
Qed.

Lemma sql_RevokeShare_ok db tenant id t :
  shares_ok (shares db) -> shares_ok (shares (fst (sql_RevokeShare db tenant id t))).
Proof.
  intros [Hi Hh Hr]. split; cbn; [by rewrite map_update_where..|].
  intros s [(x & Hx & _ & ->)|[Hs _]]%elem_update_where; [apply (Hr x Hx)|by apply Hr].
Qed.

Lemma sql_ConsumeShare_ok db hash now :
  shares_ok (shares db) -> shares_ok (shares (fst (sql_ConsumeShare db hash now))).
Proof.
  intros [Hi Hh Hr]. unfold sql_ConsumeShare. destruct (existsb _ _); cbn; [|by split].
  split; cbn; [by rewrite map_update_where..|].
  intros s [(x & Hx & Hp & ->)|[Hs _]]%elem_update_where; [|by apply Hr].
  unfold share_consumable in Hp. apply andb_true_iff in Hp as [_ Hp].
  rewrite orb_true_iff, Z.eqb_eq, Z.ltb_lt in Hp. specialize (Hr x Hx).
  unfold share_row_ok in *. cbn. lia.
Qed.

Lemma sql_PutPublicAsset_ok db a :
  assets_ok (public_assets db) -> assets_ok (public_assets (fst (sql_PutPublicAsset db a))).
Proof.
  intros [Hi Hs]. unfold sql_PutPublicAsset. destruct (existsb _ _) eqn:Hc; cbn; [by split|].
  rewrite existsb_none in Hc.
  assert (forall y, y ∈ public_assets db -> pa_ID y <> pa_ID a -> pa_Slug y <> pa_Slug a) as Hfree.
  { intros y Hy Hid. specialize (Hc y Hy). cbn in Hc. apply streqb_false in Hid.
    rewrite Hid in Hc. by apply streqb_false. }
  destruct (existsb _ _) eqn:He; cbn.
  - split; [by rewrite map_update_where|].
    clear He Hc. induction (public_assets db) as [|x l IH]; [done|]. cbn in *.
    apply list.NoDup_cons in Hi as [Hxi Hi], Hs as [Hxs Hs].
    apply list.NoDup_cons. split; [|apply IH; try done; intros y Hy; apply Hfree; by right].
    intros (y & Hy & Hin)%list_elem_of_fmap.
    apply elem_update_where in Hin as [(z & Hz & Hzi & ->)|[Hz Hzi]];
      rewrite ?streqb_true, ?streqb_false in Hzi; destruct (String.eqb_spec (pa_ID x) (pa_ID a)).
    + apply Hxi. rewrite e, <- Hzi. by apply list_elem_of_fmap_2.
    + cbn in Hy. apply (Hfree x); [by left|done..].
    + cbn in Hy. apply (Hfree y); [by right|done..].
    + apply Hxs. rewrite Hy. by apply list_elem_of_fmap_2.
  - rewrite existsb_none in He. setoid_rewrite streqb_false in He.
    split; apply NoDup_map_snoc; try done. intros y Hy. by apply Hfree, He.
Qed.

Lemma sql_PutDepartment_ok db d :
  directory_ok (departments db) (department_members db) ->
  directory_ok (departments (fst (sql_PutDepartment db d)))
               (department_members (fst (sql_PutDepartment db d))).
Proof.
  intros [Hi Hp Hm]. unfold sql_PutDepartment. destruct (existsb (dep_clash d) _); cbn; [by split|].
  destruct (_ && _ && _) eqn:Hfk; cbn; [by split|].
  rewrite !andb_false_iff, !negb_false_iff, !streqb_true, existsb_id in Hfk.
  destruct (existsb _ (departments db)) eqn:He; cbn.
  - apply existsb_id in He. split; [by rewrite map_update_where| |].
    + intros x Hx. rewrite elem_map_update by done.
      apply elem_update_where in Hx as [(y & _ & _ & ->)|[Hx _]]; [cbn|by apply Hp].
      destruct Hfk as [[| ->]|]; tauto.
    + intros mem Hmem. rewrite elem_map_update by done. by apply Hm.
  - split.
    + apply NoDup_map_snoc; [done|]. intros y Hy Hid. apply not_true_iff_false in He.
      apply He, existsb_id. rewrite <- Hid. by apply list_elem_of_fmap_2.
    + intros x Hx. rewrite map_app, elem_of_app.
      apply elem_of_app in Hx as [Hx| ->%list_elem_of_singleton]; [destruct (Hp x Hx); tauto|].
      destruct Hfk as [[| ->]|]; [by left| |by right; left]. right; right. by left.
    + intros mem Hmem. rewrite map_app, elem_of_app. left. by apply Hm.
Qed.

Lemma sql_PutDepartmentMember_ok db mem :
  directory_ok (departments db) (department_members db) ->
  directory_ok (departments db) (department_members (fst (sql_PutDepartmentMember db mem))).
Proof.
  intros [Hi Hp Hm]. unfold sql_PutDepartmentMember.
  destruct (existsb (mem_key _ _ _) _); cbn.
  - split; [done..|].
    intros x [(y & Hy & _ & ->)|[Hx _]]%elem_update_where; [apply (Hm y Hy)|by apply Hm].
  - destruct (existsb _ (departments db)) eqn:He; cbn; [|by split]. apply existsb_id in He.
    split; [done..|]. intros x [Hx| ->%list_elem_of_singleton]%elem_of_app; [by apply Hm|done].
Qed.

Lemma sql_DeleteDepartment_ok db tenant id :
  directory_ok (departments db) (department_members db) ->
  directory_ok (departments (fst (sql_DeleteDepartment db tenant id)))
               (department_members (fst (sql_DeleteDepartment db tenant id))).
Proof.
  intros [Hi Hp Hm]. unfold sql_DeleteDepartment.
  destruct (department_tree _ _ _); cbn; [|by split].
  destruct (existsb _ _); cbn; [|by split].
  assert (forall x, x ∈ map dep_ID (departments db) -> contains (cascade db id) x = false ->
    x ∈ map dep_ID (delete_where (fun d => contains (cascade db id) (dep_ID d)) (departments db))) as Hkeep.
  { intros x (d & -> & Hd)%list_elem_of_fmap Hc. apply list_elem_of_fmap_2. by apply elem_delete_where. }
  split; [by apply map_delete_where_NoDup| |].
  - intros d [Hd Hc]%elem_delete_where.
    destruct (String.eqb_spec (dep_ParentID d) "") as [|Hne]; [by left|right].
    destruct (Hp d Hd) as [|Hin]; [done|]. apply Hkeep; [done|].
    apply not_true_is_false. rewrite contains_spec, cascade_spec. intros (a & Ha & Hr).
    apply not_true_iff_false in Hc. apply Hc. rewrite contains_spec, cascade_spec.
    exists a. split; [done|]. eapply rtc_r; [done|]. apply elem_children. by exists d.
  - intros mem [Hmem Hc]%elem_delete_where. apply Hkeep; [by apply Hm|done].
Qed.

(** ** The manager's operations as steps on the database *)

Section Steps.
Context `{UUIDLib} `{Crypto} (m : Manager).

Inductive access_step : AccessDB -> AccessDB -> Prop :=
| step_CreateDepartment now id d db :
    access_step db (fst (Manager.CreateDepartment now id d db))
| step_DeleteDepartment tenant id db :
    access_step db (fst (Manager.DeleteDepartment tenant id db))
| step_PutDepartmentMember now mem db :
    access_step db (fst (Manager.PutDepartmentMember now mem db))
| step_DeleteDepartmentMember tenant dep subject db :
    access_step db (fst (Manager.DeleteDepartmentMember tenant dep subject db))
| step_PutACL ctx now id e db : access_step db (fst (Manager.PutACL m ctx now id e db))
| step_DeleteACL ctx tenant id db : access_step db (fst (Manager.DeleteACL m ctx tenant id db))
| step_CreateShare ctx now id token req db :
    access_step db (fst (Manager.CreateShare m ctx now id token req db))
| step_RevokeShare ctx now tenant id db :
    access_step db (fst (Manager.RevokeShare m ctx now tenant id db))
| step_ResolveShare ctx now later token password action consume db :
    access_step db (fst (Manager.ResolveShare m ctx now later token password action consume db))
| step_PublishAsset ctx now id a db : access_step db (fst (Manager.PublishAsset m ctx now id a db))
| step_UnpublishAsset ctx tenant slug db :
    access_step db (fst (Manager.UnpublishAsset m ctx tenant slug db))
| step_deleteObjectAccessState tenant bucket key db :
    access_step db (deleteObjectAccessState db tenant bucket key)
| step_deleteBucketAccessState tenant bucket db :
    access_step db (deleteBucketAccessState db tenant bucket).

Definition preserves (db db' : AccessDB) : Prop := db_ok db -> db_ok db'.
#[local] Instance preserves_preorder : PreOrder preserves.
Proof. split; [intros x Hx; exact Hx|]. intros x y z Hxy Hyz Hx. by apply Hyz, Hxy. Qed.

Lemma normalizeACLResource_key e : acl_key_ok (normalizeACLResource e) /\
  (acl_ResourceKind (normalizeACLResource e) = ResourceBucket ->
   acl_Key (normalizeACLResource e) = ""%string).
Proof.
  unfold normalizeACLResource, acl_key_ok, folder_key.
  destruct (String.eqb_spec (acl_ResourceKind e) ResourceBucket) as [Hb|Hb]; cbn.
  { split; [by rewrite Hb|done]. }
  destruct (String.eqb_spec (acl_ResourceKind e) ResourceFolder) as [Hf|Hf]; cbn; [|done].
  split; [intros _|by rewrite Hf].
  destruct (String.eqb_spec (TrimPrefix (acl_Key e) "/") ""); cbn; [by left|right].
  destruct (HasSuffix _ _) eqn:Hs; cbn; [|by eexists].
  apply HasSuffix_spec in Hs as (dir & Hd). by exists dir.
Qed.

(** The entry a successful validation hands to the store. *)
Lemma normalized_row_ok e : validateACL (normalizeACLResource e) = None ->
  acl_row_ok (normalizeACLResource e).
Proof.
  intros [Hp Hg]%validateACL_None. split; [done|]. split; [done|]. apply normalizeACLResource_key.
Qed.

Lemma keeps_writeACL e : acl_row_ok e -> keeps preserves (Manager.writeACL e).
Proof.
  intros He. unfold Manager.writeACL. keeps_tac. apply keeps_writes.
  intros db [Ha Hs Hp Hd]. split; cbn; [by apply sql_PutACLEntry_ok|..];
    unfold sql_PutACLEntry; by repeat case_match.
Qed.

Lemma metadata_ok ctx now e : acl_row_ok e -> acl_row_ok (setACLCreationMetadata ctx now e).
Proof. unfold setACLCreationMetadata. by destruct (IsZero _). Qed.

Lemma preserve_identity_ok e x :
  acl_row_ok e -> acl_row_ok x -> acl_row_ok (preserveACLIdentity e x).
Proof. intros (_ & Hg & _) (Hp & _ & Hk). by repeat split; try apply Hp; try apply Hg; try apply Hk. Qed.

Lemma keeps_authorizeACLWrite ctx e : keeps preserves (Manager.authorizeACLWrite m ctx e).
Proof. unfold Manager.authorizeACLWrite. keeps_tac. Qed.

(** The run from [db] is an instance of a [keeps]. *)
Ltac by_keeps :=
  try red; match goal with |- db_ok ?db -> db_ok (fst (?p ?db)) =>
    let Hk := fresh in cut (keeps preserves p); [intros Hk; exact (Hk db)|] end.

Lemma keeps_PutACL ctx now id e : keeps preserves (Manager.PutACL m ctx now id e).
Proof.
  unfold Manager.PutACL. apply keeps_check_bind; [apply _|]. intros He%normalized_row_ok.
  destruct (acl_ID _ <>s "").
  - intros db. unfold Manager.putACLWithID.
    destruct (GetACLEntryByID _ _) as [x|err] eqn:Hx.
    + intros Hdb. assert (acl_row_ok x) as Hrow.
      { apply query_row_Ok in Hx as [Hx _]. by apply (acls_rows _ (db_acls _ Hdb)). }
      revert Hdb. by_keeps. keeps_tac; [apply keeps_authorizeACLWrite|].
      by apply keeps_writeACL, preserve_identity_ok.
    + destruct (negb _); [by intros ?|]. unfold Manager.createACLWithID. by_keeps. keeps_tac;
        [apply keeps_authorizeACLWrite|by apply keeps_writeACL, metadata_ok].
  - unfold Manager.putACLByNaturalKey. keeps_tac; [apply keeps_authorizeACLWrite|].
    apply keeps_writeACL, metadata_ok. by repeat case_match.
Qed.

Lemma keeps_shares f : (forall db, shares_ok (shares db) -> shares_ok (shares (fst (f db)))) ->
  (forall db, exists l, fst (f db) = set_shares db l) -> keeps preserves (writes f).
Proof.
  intros Hf Hset. apply keeps_writes. intros db [Ha Hs Hp Hd]. specialize (Hf db Hs).
  destruct (Hset db) as [l Hl]. rewrite Hl in *. by split.
Qed.

Lemma keeps_assets f : (forall db, assets_ok (public_assets db) -> assets_ok (public_assets (fst (f db)))) ->
  (forall db, exists l, fst (f db) = set_assets db l) -> keeps preserves (writes f).
Proof.
  intros Hf Hset. apply keeps_writes. intros db [Ha Hs Hp Hd]. specialize (Hf db Hp).
  destruct (Hset db) as [l Hl]. rewrite Hl in *. by split.
Qed.

Lemma set_shares_same db : db = set_shares db (shares db).
Proof. by destruct db. Qed.
Lemma set_assets_same db : db = set_assets db (public_assets db).
Proof. by destruct db. Qed.

Lemma keeps_CreateShare ctx now id token req :
  keeps preserves (Manager.CreateShare m ctx now id token req).
Proof.
  unfold Manager.CreateShare. apply keeps_bind; [apply _|apply keeps_guard; apply _|intros _].
  apply keeps_refuse_bind; [apply _|]. intros Hreq. keeps_tac. apply keeps_shares.
  - intros db Hs. apply sql_CreateShare_ok; [done|]. unfold share_row_ok. cbn.
    rewrite !orb_false_iff in Hreq. lia.
  - intros db. cbn. unfold sql_CreateShare. destruct (existsb _ _); eexists;
      [apply set_shares_same|done].
Qed.

Lemma keeps_RevokeShare ctx now tenant id : keeps preserves (Manager.RevokeShare m ctx now tenant id).
Proof.
  unfold Manager.RevokeShare. keeps_tac. apply keeps_shares; [|by eexists].
  intros db. apply sql_RevokeShare_ok.
Qed.

Lemma keeps_ResolveShare ctx now later token password action consume :
  keeps preserves (Manager.ResolveShare m ctx now later token password action consume).
Proof.
  unfold Manager.ResolveShare. keeps_tac.
  intros db [Ha Hs Hp Hd]. pose proof (sql_ConsumeShare_ok db (sh_TokenHash a) later Hs).
  cbn in *. unfold sql_ConsumeShare in *. destruct (existsb _ _); by split.
Qed.

Lemma keeps_PublishAsset ctx now id a : keeps preserves (Manager.PublishAsset m ctx now id a).
Proof.
  unfold Manager.PublishAsset. keeps_tac. apply keeps_assets.
  - intros db. apply sql_PutPublicAsset_ok.
  - intros db. cbn. unfold sql_PutPublicAsset.
    destruct (existsb _ _); [eexists; apply set_assets_same|]. destruct (existsb _ _); by eexists.
Qed.

Lemma access_step_ok db db' : access_step db db' -> db_ok db -> db_ok db'.
Proof.
  intros Hstep. destruct Hstep.
  - revert db. change (keeps preserves (Manager.CreateDepartment now id d)).
    unfold Manager.CreateDepartment. keeps_tac. apply keeps_writes. intros db [Ha Hs Hp Hd].
    split; cbn; [unfold sql_PutDepartment; by repeat case_match..|by apply sql_PutDepartment_ok].
  - revert db. change (keeps preserves (Manager.DeleteDepartment tenant id)).
    apply keeps_writes. intros db [Ha Hs Hp Hd].
    split; cbn; [..|by apply sql_DeleteDepartment_ok]; unfold sql_DeleteDepartment;
      destruct (department_tree _ _ _); cbn; try destruct (existsb _ _); cbn; try done.
    by apply acls_ok_delete.
  - revert db. change (keeps preserves (Manager.PutDepartmentMember now mem)).
    unfold Manager.PutDepartmentMember. keeps_tac. apply keeps_writes. intros db [Ha Hs Hp Hd].
    pose proof (sql_PutDepartmentMember_ok db
      {| mem_TenantID := mem_TenantID mem; mem_DepartmentID := mem_DepartmentID mem;
         mem_SubjectID := mem_SubjectID mem;
         mem_Role := if (mem_Role mem =s "") then "member" else mem_Role mem;
         mem_CreatedAt := now |} Hd) as Hd'.
    split; cbn; unfold sql_PutDepartmentMember in *;
      destruct (existsb _ (department_members db)); try done; destruct (negb _); done.
  - revert db. change (keeps preserves (Manager.DeleteDepartmentMember tenant dep subject)).
    apply keeps_writes. intros db [Ha Hs Hp [Hi Hpa Hm]]. split; cbn; [done..|].
    split; [done..|]. intros mem [Hmem _]%elem_delete_where. by apply Hm.
  - apply keeps_PutACL.
  - revert db. change (keeps preserves (Manager.DeleteACL m ctx tenant id)).
    unfold Manager.DeleteACL. keeps_tac. apply keeps_writes. intros db [Ha Hs Hp Hd].
    split; cbn; [by apply acls_ok_delete|done..].
  - apply keeps_CreateShare.
  - apply keeps_RevokeShare.
  - apply keeps_ResolveShare.
  - apply keeps_PublishAsset.
  - revert db. change (keeps preserves (Manager.UnpublishAsset m ctx tenant slug)).
    unfold Manager.UnpublishAsset. keeps_tac. apply keeps_assets; [|by eexists].
    intros db. cbn. apply assets_ok_delete.
  - intros [Ha Hs Hp Hd]. split; cbn;
      [by apply acls_ok_delete|by apply shares_ok_delete|by apply assets_ok_delete|done].
  - intros [Ha Hs Hp Hd]. split; cbn;
      [by apply acls_ok_delete|by apply shares_ok_delete|by apply assets_ok_delete|done].
Qed.
End Steps.

Definition empty_db : AccessDB := {|
  departments := []; department_members := []; resource_acls := []; shares := [];
  public_assets := [] |}.

Lemma empty_db_ok : db_ok empty_db.
Proof.
  split; split; cbn; try apply base.NoDup_nil_2; try (by intros ? ?%not_elem_of_nil).
  by intros ? ? ?%not_elem_of_nil.
Qed.

(** C5: every database the manager's operations can build from an empty one satisfies the
    store invariant: unique identifiers, token hashes and slugs, one entry per resource,
    principal and action, valid and normalized entries, memberships and parents that
    exist, and share use counts within their limits. *)
Theorem access_db_invariant `{UUIDLib} `{Crypto} m db :
  rtc (access_step m) empty_db db -> db_ok db.
Proof.
  intros Hr. assert (forall db0, rtc (access_step m) db0 db -> db_ok db0 -> db_ok db) as Hp.
  { intros db0 Hr0. induction Hr0 as [|x y z Hxy _ IH]; [done|].
    intros Hx. by eapply IH, access_step_ok. }
  by apply (Hp _ Hr), empty_db_ok.
Qed.

(** A toy hash, for evaluating the manager. *)
Module ToyCrypto.
#[export] Instance crypto : Crypto := {|
  tokenHash t := ("h:" ++ t)%string; hmac_b64 k t := (k ++ "#" ++ t)%string |}.
End ToyCrypto.
Import FixedStore ToyCrypto.

Definition user_ctx (subject : string) (scopes : list string) : Ctx :=
  WithPrincipal ctx {| SubjectID := subject; TenantID := "acme"; Kind := PrincipalUser; Roles := [];
                       Groups := []; Scopes := scopes; p_Capability := None |}.

Definition small_share : CreateShareRequest := {|
  cs_Tenant := "acme"; cs_Bucket := "docs"; cs_Key := "a/b"; cs_Name := ""; cs_Password := "pw";
  cs_AllowPreview := true; cs_AllowDownload := false; cs_MaxUses := 1;
  cs_ExpiresAt := instant 738944 43200 0; cs_OwnerID := "ann" |}.

(** A database with one share, made by the manager. *)
Definition shared_db : AccessDB :=
  fst (Manager.CreateShare manager (user_ctx "ann" []) (instant 738944 0 0) "s1" (Ok "tok"%string)
         small_share empty_db).

Lemma shared_db_ok : db_ok shared_db.
Proof. apply (access_step_ok manager empty_db); [apply (step_CreateShare manager)|apply empty_db_ok]. Qed.

Lemma access_db_invariant_witness : length (shares shared_db) = 1%nat /\ db_ok shared_db.
Proof.
  split; [by vm_compute|]. apply (access_db_invariant manager). apply rtc_once.
  apply (step_CreateShare manager).
Defined.
