(* ===== verification/ManagerProps.v ===== *)
(** * Writing ACL entries (src/internal/access/acl_write.go)

    Every entry is written with authorization, over any store; the identity of an
    entry under a second normalization. *)
From Stdlib Require Import Lia Bool ZArith Ascii.
From stdpp Require Import base gmap strings list numbers relations.
From S2P Require Import Prelude GoStrings GoTime Sql GoErrors Spaces Access AccessProps AccessStore AccessManager AccessStoreProps AccessInvariant.

Open Scope Z_scope.

Import FixedStore ToyCrypto.

Section PutACL.
Context `{UUIDLib} `{Crypto} {S : Type} `{AccessStore S} (m : Manager) (ctx : Ctx).

(** [e] carries the grant of [n] and sits on its resource up to normalization. *)
Definition writes_as (n e : ACLEntry) : Prop :=
  sameACLResourceIdentity n e = true /\
  acl_PrincipalType e = acl_PrincipalType n /\ acl_PrincipalID e = acl_PrincipalID n /\
  acl_Action e = acl_Action n /\ acl_Effect e = acl_Effect n /\ acl_Inherit e = acl_Inherit n.

(** The run changed nothing, or wrote one entry of [n]'s, authorized for [n]. *)
Definition authorized_write (n : ACLEntry) (s s' : S) : Prop :=
  s' = s \/
  (require m s ctx ActionManageACL (acl_resource n) = None /\
   Manager.validateACLPrincipal n s = None /\
   exists e, s' = fst (PutACLEntry s e) /\ writes_as n e).

(** Normalization reads the place only. *)
Lemma sameACLResourceIdentity_place n e e' :
  acl_TenantID e = acl_TenantID e' -> acl_Bucket e = acl_Bucket e' -> acl_Key e = acl_Key e' ->
  acl_ResourceKind e = acl_ResourceKind e' ->
  sameACLResourceIdentity n e = sameACLResourceIdentity n e'.
Proof.
  intros Ht Hb Hk Hr. unfold sameACLResourceIdentity. cbv zeta.
  assert (acl_TenantID (normalizeACLResource e) = acl_TenantID (normalizeACLResource e') /\
    acl_Bucket (normalizeACLResource e) = acl_Bucket (normalizeACLResource e') /\
    acl_Key (normalizeACLResource e) = acl_Key (normalizeACLResource e') /\
    acl_ResourceKind (normalizeACLResource e) = acl_ResourceKind (normalizeACLResource e'))
    as (-> & -> & -> & ->); [|done].
  unfold normalizeACLResource. rewrite Hr, Hk.
  by destruct (acl_ResourceKind e' =s ResourceBucket), (acl_ResourceKind e' =s ResourceFolder).
Qed.

Lemma sameACLResourceIdentity_refl n : sameACLResourceIdentity n n = true.
Proof. unfold sameACLResourceIdentity. by rewrite !streqb_refl. Qed.

Lemma writes_as_refl n : writes_as n n.
Proof. by split; [apply sameACLResourceIdentity_refl|]. Qed.

Lemma writes_as_identity n x : sameACLResourceIdentity n x = true -> writes_as n (preserveACLIdentity n x).
Proof. intros Hs. split; [|done]. by rewrite <- Hs; apply sameACLResourceIdentity_place. Qed.

Lemma writes_as_creation n e id by_ at_ : writes_as n e -> writes_as n (set_acl_creation e id by_ at_).
Proof.
  intros [Hs Hg]. split; [|exact Hg]. by rewrite <- Hs; apply sameACLResourceIdentity_place.
Qed.

Lemma writes_as_metadata n e now : writes_as n e -> writes_as n (setACLCreationMetadata ctx now e).
Proof. unfold setACLCreationMetadata. destruct (IsZero _); [apply writes_as_creation|done]. Qed.

Lemma authorize_then_write n e s : writes_as n e ->
  authorized_write n s (fst ((run! Manager.authorizeACLWrite m ctx n in Manager.writeACL e) s)).
Proof.
  intros He. unfold Manager.authorizeACLWrite, Manager.writeACL.
  rewrite run_bind, run_guard.
  destruct (Manager.validateACLPrincipal n s) eqn:Hv; [by left|]. rewrite run_guard.
  destruct (require m s ctx ActionManageACL (acl_resource n)) eqn:Hr; [by left|].
  right. split; [done|]. split; [done|]. exists e. split; [|done]. unfold bind, writes.
  by destruct (PutACLEntry s e) as [s' []].
Qed.

Lemma authorize_read_write {A} n (f : S -> result A) g s : (forall x, writes_as n (g x)) ->
  authorized_write n s (fst ((run! Manager.authorizeACLWrite m ctx n in
    do! x := reads f in Manager.writeACL (g x)) s)).
Proof.
  intros He. destruct (f s) as [x|err] eqn:Hf.
  - pose proof (authorize_then_write n (g x) s (He x)) as Ha. revert Ha.
    unfold Manager.authorizeACLWrite. rewrite !run_bind, !run_guard.
    destruct (Manager.validateACLPrincipal n s); [done|]. rewrite ?run_guard.
    destruct (require _ _ _ _ _); [done|]. by rewrite run_reads, Hf.
  - left. unfold Manager.authorizeACLWrite. rewrite !run_bind, !run_guard.
    destruct (Manager.validateACLPrincipal n s); [done|]. rewrite ?run_guard.
    destruct (require _ _ _ _ _); [done|]. by rewrite run_reads, Hf.
Qed.

Lemma PutACL_authorized_write now id entry s :
  let n := normalizeACLResource entry in
  fst (Manager.PutACL m ctx now id entry s) = s \/
  (validateACL n = None /\ authorized_write n s (fst (Manager.PutACL m ctx now id entry s))).
Proof.
  intros n. unfold Manager.PutACL. fold n. rewrite run_guard.
  destruct (validateACL n) eqn:Hval; [by left|]. right. split; [done|].
  destruct (acl_ID n <>s "").
  - unfold Manager.putACLWithID. destruct (GetACLEntryByID s (acl_ID n)) as [x|err].
    + rewrite run_refuse. destruct (sameACLResourceIdentity n x) eqn:Hs; [|by left].
      by apply authorize_then_write, writes_as_identity.
    + destruct (negb _); [by left|]. apply authorize_then_write, writes_as_metadata, writes_as_refl.
  - apply authorize_read_write. intros x. apply writes_as_metadata.
    destruct x as [x|]; [destruct (acl_ID x <>s "")|]; apply writes_as_creation, writes_as_refl.
Qed.
End PutACL.

(** [PutACL] writes with authorization, over any store: a run either leaves the store
    as it was, or writes exactly one entry, after the normalized entry was validated, its
    department principal looked up and the caller allowed to manage the ACL of its
    resource; the entry written has the requested principal, action, effect and
    inheritance and sits on that resource up to normalization. *)
Theorem PutACL_writes_with_authorization `{UUIDLib} `{Crypto} {S} `{AccessStore S} m ctx now id
    entry (s : S) :
  let n := normalizeACLResource entry in
  fst (Manager.PutACL m ctx now id entry s) = s \/
  (validateACL n = None /\ authorized_write m ctx n s (fst (Manager.PutACL m ctx now id entry s))).
Proof. apply PutACL_authorized_write. Qed.

(** The entry "e1" on the object "/x", made by the owner of "/x". *)
Definition slash_entry (id key owner effect : string) : ACLEntry := {|
  acl_ID := id; acl_TenantID := "acme"; acl_Bucket := "docs"; acl_Key := key;
  acl_ResourceKind := ResourceObject; acl_PrincipalType := PrincipalTypeUser;
  acl_PrincipalID := "eve"; acl_Action := ActionRead; acl_Effect := effect;
  acl_Inherit := false; acl_CreatedBy := ""; acl_CreatedAt := 0; acl_OwnerID := owner |}.

Definition slash_db : AccessDB :=
  fst (Manager.PutACL manager (user_ctx "ann" []) 1 "e1" (slash_entry "" "//x" "ann" EffectDeny) empty_db).

(** Normalization strips one leading slash per call and the identity check normalizes
    twice, so an explicit ID is not bound to its resource: the owner of [x], who may not
    manage the ACL of [/x], replaces an entry stored for [/x] (here a deny about himself
    by an allow). *)
Theorem PutACL_id_escapes_its_resource :
  let mallory := user_ctx "eve" [] in
  let r := {| r_TenantID := "acme"; r_Bucket := "docs"; r_Key := "/x"; r_Kind := ResourceObject;
              r_OwnerID := "ann" |} in
  let run := Manager.PutACL manager mallory 2 "new" (slash_entry "e1" "x" "eve" EffectAllow) slash_db in
  require manager slash_db mallory ActionManageACL r <> None /\
  d_Allowed (fst (Authorize manager slash_db mallory (PrincipalFrom mallory) ActionRead r)) = false /\
  is_ok (snd run) = true /\
  d_Allowed (fst (Authorize manager (fst run) mallory (PrincipalFrom mallory) ActionRead r)) = true.
Proof. vm_compute. by repeat split. Qed.

(** * Shares (src/internal/access/shares.go, src/internal/repository/sql_access_shares.go)

    Soundness and counting of consumption, monotonicity of share rows over all manager
    operations, and the order of expiry texts. *)
Open Scope Z_scope.

Import FixedStore ToyCrypto.

(** A share as the code means it: usable at [now] with this password for this action. *)
Record share_usable `{Crypto} (m : Manager) (now : time) (password action : string) (s : Share) : Prop := {
  usable_live : sh_RevokedAt s = 0;
  usable_time : sh_ExpiresAt s = 0 \/ now < sh_ExpiresAt s;
  usable_uses : sh_MaxUses s <= 0 \/ sh_UseCount s < sh_MaxUses s;
  usable_password : sh_PasswordMAC s = ""%string \/
                    Manager.passwordMAC m (sh_ID s) password = sh_PasswordMAC s;
  usable_action : shareAllows s action = true
}.

Lemma validateShare_None `{Crypto} m now s password action :
  Manager.validateShare m now s password action = None <-> share_usable m now password action s.
Proof.
  unfold Manager.validateShare, IsZero, Before. split.
  - destruct (_ || _ || _) eqn:He; [done|]. destruct ((sh_PasswordMAC s <>s "") && _) eqn:Hp; [done|].
    destruct (shareAllows s action) eqn:Ha; [intros _|done].
    rewrite !orb_false_iff, !andb_false_iff, !negb_false_iff in He.
    rewrite andb_false_iff, !negb_false_iff, !streqb_true in Hp. by split; [lia..| |].
  - intros [Hl Ht Hu Hp Ha].
    assert (negb (sh_RevokedAt s =? 0) || negb (sh_ExpiresAt s =? 0) && negb (now <? sh_ExpiresAt s) ||
      (0 <? sh_MaxUses s) && (sh_MaxUses s <=? sh_UseCount s) = false) as ->.
    { rewrite !orb_false_iff, !andb_false_iff, !negb_false_iff. lia. }
    assert ((sh_PasswordMAC s <>s "") && (Manager.passwordMAC m (sh_ID s) password <>s sh_PasswordMAC s)
      = false) as ->.
    { rewrite andb_false_iff, !negb_false_iff, !streqb_true. tauto. }
    by rewrite Ha.
Qed.

Lemma share_consumed db hash now s db' used :
  shares_ok (shares db) -> s ∈ shares db -> sh_TokenHash s = hash ->
  sql_ConsumeShare db hash now = (db', Ok used) ->
  used = with_uses (sh_UseCount s + 1) s /\ share_consumable hash now s = true /\
  db' = set_shares db (update_where (fun x => sh_TokenHash x =s hash)
                         (fun x => with_uses (sh_UseCount x + 1) x) (shares db)).
Proof.
  intros [Hi Hh Hr] Hs <-. unfold sql_ConsumeShare. destruct (existsb _ _) eqn:He; [|done].
  apply existsb_elem in He as (y & Hy & Hc).
  assert (y = s) as ->.
  { apply (NoDup_map_inj sh_TokenHash (shares db)); try done. unfold share_consumable in Hc.
    rewrite !andb_true_iff, streqb_true in Hc. tauto. }
  assert (update_where (share_consumable (sh_TokenHash s) now) (fun x => with_uses (sh_UseCount x + 1) x)
    (shares db) = update_where (fun x => sh_TokenHash x =s sh_TokenHash s)
    (fun x => with_uses (sh_UseCount x + 1) x) (shares db)) as Hu.
  { apply map_ext_in. intros x Hx%list_elem_of_In.
    destruct (String.eqb_spec (sh_TokenHash x) (sh_TokenHash s)) as [Hxs|Hxs].
    - apply (NoDup_map_inj sh_TokenHash (shares db)) in Hxs; [|done..]. subst x. by rewrite Hc.
    - unfold share_consumable. apply streqb_false in Hxs. by rewrite Hxs. }
  rewrite Hu. intros [= <- Hq]. split; [|done].
  apply query_row_Ok in Hq as [Hq Hqh]. apply streqb_true in Hqh. cbn in Hq.
  apply elem_update_where in Hq as [(x & Hx & Hxs & ->)|[Hq Hne]].
  - apply streqb_true in Hxs. by rewrite (NoDup_map_inj sh_TokenHash (shares db) x s).
  - by rewrite Hqh, streqb_refl in Hne.
Qed.

(** Consuming a share is sound and counted: over a well-formed store, a consuming
    [ResolveShare] that succeeds found a share with the token's hash that is neither
    revoked nor expired, has uses left, matches the password and grants the action, in
    an admitted bucket; it adds exactly one use to that share and changes nothing else;
    and the principal it returns is a capability for that one object. *)
Theorem ResolveShare_consumes_once `{UUIDLib} `{Crypto} m ctx now later token password action db db'
    used principal :
  db_ok db ->
  Manager.ResolveShare m ctx now later token password action true db = (db', Ok (used, principal)) ->
  exists s, s ∈ shares db /\ sh_TokenHash s = tokenHash token /\
    share_usable m now password action s /\
    admitted (m_boundary m) (Some ctx) (sh_TenantID s) (sh_Bucket s) /\
    used = with_uses (sh_UseCount s + 1) s /\
    db' = set_shares db (update_where (fun x => sh_TokenHash x =s tokenHash token)
                           (fun x => with_uses (sh_UseCount x + 1) x) (shares db)) /\
    principal = CapabilityPrincipal PrincipalShare (share_capability used).
Proof.
  intros Hok Hrun. unfold Manager.ResolveShare in Hrun. prog_inv.
  apply query_row_Ok in Hrun0 as [Hs Hh]. apply streqb_true in Hh.
  apply validateShare_None in Hrun1.
  unfold Manager.checkCapabilityTarget in Hrun2. cbn in Hrun2. apply CheckBucket_None in Hrun2.
  injection Hrun as <- <-. exists v. rewrite <- Hh.
  destruct (share_consumed _ _ _ _ _ _ (db_shares _ Hok) Hs eq_refl Hrun3) as (-> & _ & ->).
  done.
Qed.

Lemma ResolveShare_consumes_once_witness :
  exists s, s ∈ shares shared_db /\ sh_TokenHash s = "h:tok"%string /\
    share_usable manager (instant 738944 3600 0) "pw" ActionPreview s /\
    admitted (m_boundary manager) (Some ctx) (sh_TenantID s) (sh_Bucket s) /\
    with_uses 1 s = with_uses (sh_UseCount s + 1) s /\
    fst (Manager.ResolveShare manager ctx (instant 738944 3600 0) (instant 738944 3601 0) "tok" "pw"
           ActionPreview true shared_db) =
      set_shares shared_db (update_where (fun x => sh_TokenHash x =s "h:tok")
                              (fun x => with_uses (sh_UseCount x + 1) x) (shares shared_db)) /\
    True.
Proof.
  destruct (Manager.ResolveShare manager ctx (instant 738944 3600 0) (instant 738944 3601 0) "tok" "pw"
    ActionPreview true shared_db) as [db' [[used p]|e]] eqn:E.
  - destruct (ResolveShare_consumes_once _ _ _ _ _ _ _ _ _ _ _ shared_db_ok E)
      as (s & Hs & Hh & Hu & Ha & _ & Hd & _).
    exists s. split; [exact Hs|]. split; [exact Hh|]. split; [exact Hu|]. split; [exact Ha|].
    split; [|split; [exact Hd|exact I]].
    vm_compute in Hs. apply list_elem_of_singleton in Hs as ->. reflexivity.
  - vm_compute in E. discriminate E.
Defined.

(** What may become of a share row: uses accumulate until it is revoked, then it is
    frozen. *)
Definition share_evolves (x y : Share) : Prop :=
  exists uses revoked, y = with_uses uses (with_revoked revoked x) /\ sh_UseCount x <= uses /\
    (sh_RevokedAt x <> 0 -> revoked = sh_RevokedAt x /\ uses = sh_UseCount x).

Definition shares_evolve (db db' : AccessDB) : Prop :=
  db_ok db -> forall x y, x ∈ shares db -> y ∈ shares db' -> sh_ID x = sh_ID y -> share_evolves x y.

Lemma share_evolves_refl x : share_evolves x x.
Proof. exists (sh_UseCount x), (sh_RevokedAt x). split; [by destruct x|]. split; [lia|done]. Qed.

Lemma shares_evolve_sub db db' :
  (forall y, y ∈ shares db' -> y ∈ shares db \/ ~ sh_ID y ∈ map sh_ID (shares db)) ->
  shares_evolve db db'.
Proof.
  intros Hsub Hok x y Hx Hy Hid. destruct (Hsub y Hy) as [Hy'|Hn].
  - rewrite (NoDup_map_inj sh_ID (shares db) x y); try done; [apply share_evolves_refl|].
    apply (shares_ids _ (db_shares _ Hok)).
  - destruct Hn. rewrite <- Hid. by apply list_elem_of_fmap_2.
Qed.

#[local] Instance shares_evolve_refl : Reflexive shares_evolve.
Proof. intros db. apply shares_evolve_sub. auto. Qed.

Lemma shares_evolve_update db p f :
  (forall x, sh_ID (f x) = sh_ID x) -> (forall x, p x = true -> share_evolves x (f x)) ->
  shares_evolve db (set_shares db (update_where p f (shares db))).
Proof.
  intros Hf He Hok x y Hx Hy Hid. pose proof (shares_ids _ (db_shares _ Hok)) as Hn.
  apply elem_update_where in Hy as [(z & Hz & Hp & ->)|[Hy _]].
  - rewrite Hf in Hid. rewrite (NoDup_map_inj sh_ID (shares db) x z); [by apply He|done..].
  - rewrite (NoDup_map_inj sh_ID (shares db) x y); [apply share_evolves_refl|done..].
Qed.

Lemma sql_ConsumeShare_evolves db hash now : shares_evolve db (fst (sql_ConsumeShare db hash now)).
Proof.
  unfold sql_ConsumeShare. destruct (existsb _ _); [cbn|reflexivity].
  apply shares_evolve_update; [done|]. intros x Hc. unfold share_consumable in Hc.
  rewrite !andb_true_iff in Hc. exists (sh_UseCount x + 1), (sh_RevokedAt x).
  split; [by destruct x|]. split; [lia|]. intros Hr. destruct Hc as [[[_ Hz] _] _].
  unfold IsZero in Hz. lia.
Qed.

Lemma sql_RevokeShare_evolves db tenant id t : shares_evolve db (fst (sql_RevokeShare db tenant id t)).
Proof.
  apply shares_evolve_update; [done|]. intros x Hc. exists (sh_UseCount x), t.
  split; [by destruct x|]. split; [lia|]. intros Hr. unfold share_revocable, IsZero in Hc.
  rewrite !andb_true_iff in Hc. lia.
Qed.

Lemma sql_CreateShare_evolves db s : shares_evolve db (fst (sql_CreateShare db s)).
Proof.
  unfold sql_CreateShare. destruct (existsb _ _) eqn:He; [reflexivity|]. apply shares_evolve_sub. cbn.
  intros y [Hy| ->%list_elem_of_singleton]%elem_of_app; [by left|right].
  intros (z & Hz & Hin)%list_elem_of_fmap. rewrite existsb_none in He. specialize (He z Hin).
  rewrite Hz, streqb_refl in He. done.
Qed.

Definition same_shares (db db' : AccessDB) : Prop := shares db' = shares db.
#[local] Instance same_shares_preorder : PreOrder same_shares.
Proof. split; [by intros x|]. intros x y z Hxy Hyz. unfold same_shares in *. congruence. Qed.

Section ShareSteps.
Context `{UUIDLib} `{Crypto} (m : Manager).

Lemma keeps_same_PutACL ctx now id e : keeps same_shares (Manager.PutACL m ctx now id e).
Proof.
  intros db. destruct (PutACL_authorized_write m ctx now id e db) as [->|[_ [->|Hw]]]; [done..|].
  destruct Hw as (_ & _ & e' & -> & _). cbn. unfold same_shares, sql_PutACLEntry.
  by repeat case_match.
Qed.

Lemma same_shares_evolve db db' : same_shares db db' -> shares_evolve db db'.
Proof. intros Hs. apply shares_evolve_sub. rewrite Hs. auto. Qed.

Ltac no_share_write :=
  apply same_shares_evolve;
  match goal with |- same_shares ?db (fst (?p ?db)) =>
    let Hk := fresh in cut (keeps same_shares p); [intros Hk; exact (Hk db)|] end.

Ltac share_write :=
  match goal with |- shares_evolve ?db (fst (?p ?db)) =>
    let Hk := fresh in cut (keeps shares_evolve p); [intros Hk; exact (Hk db)|] end.

Lemma access_step_shares db db' : access_step m db db' -> shares_evolve db db'.
Proof.
  intros Hstep. destruct Hstep.
  - no_share_write. unfold Manager.CreateDepartment. keeps_tac. apply keeps_writes. intros s.
    cbn. unfold same_shares, sql_PutDepartment. by repeat case_match.
  - no_share_write. apply keeps_writes. intros s. cbn. unfold same_shares, sql_DeleteDepartment.
    destruct (department_tree _ _ _); [|done]. by destruct (negb _).
  - no_share_write. unfold Manager.PutDepartmentMember. keeps_tac. apply keeps_writes. intros s.
    cbn. unfold same_shares, sql_PutDepartmentMember. by repeat case_match.
  - no_share_write. by apply keeps_writes.
  - apply same_shares_evolve, keeps_same_PutACL.
  - no_share_write. unfold Manager.DeleteACL. keeps_tac. by apply keeps_writes.
  - share_write. unfold Manager.CreateShare. do 3 (apply keeps_read_bind; [apply _|keeps_tac|intros ?]).
    apply keeps_bind_read; [|intros ?; keeps_tac]. apply keeps_writes. intros s. apply sql_CreateShare_evolves.
  - share_write. unfold Manager.RevokeShare. do 3 (apply keeps_read_bind; [apply _|keeps_tac|intros ?]).
    apply keeps_writes. intros s. apply sql_RevokeShare_evolves.
  - share_write. unfold Manager.ResolveShare. do 3 (apply keeps_read_bind; [apply _|keeps_tac|intros ?]).
    apply keeps_bind_read; [|intros ?; keeps_tac]. destruct consume; [|by intros s].
    intros s. apply sql_ConsumeShare_evolves.
  - no_share_write. unfold Manager.PublishAsset. keeps_tac. apply keeps_writes. intros s.
    cbn. unfold same_shares, sql_PutPublicAsset. by repeat case_match.
  - no_share_write. unfold Manager.UnpublishAsset. keeps_tac. by apply keeps_writes.
  - apply shares_evolve_sub. cbn. intros y [Hy _]%elem_delete_where. by left.
  - apply shares_evolve_sub. cbn. intros y [Hy _]%elem_delete_where. by left.
Qed.
End ShareSteps.

(** No manager operation revives or rewrites a share: between the states before and
    after any operation, a share row that is still there keeps its target, token, password,
    limits and expiry, its use count never decreases, and once revoked it is frozen. *)
Theorem shares_only_wear_out `{UUIDLib} `{Crypto} m db db' x y :
  access_step m db db' -> db_ok db -> x ∈ shares db -> y ∈ shares db' -> sh_ID x = sh_ID y ->
  share_evolves x y.
Proof. intros Hstep Hok Hx Hy Hid. exact (access_step_shares m db db' Hstep Hok x y Hx Hy Hid). Qed.

Lemma shares_only_wear_out_witness :
  exists x y, x ∈ shares shared_db /\
    y ∈ shares (fst (Manager.RevokeShare manager (user_ctx "ann" []) 5 "acme" "s1" shared_db)) /\
    sh_RevokedAt y = 5 /\ share_evolves x y.
Proof.
  assert (exists x, shares shared_db = [x]) as [x Hx] by (vm_compute; eauto).
  assert (exists y, shares (fst (Manager.RevokeShare manager (user_ctx "ann" []) 5 "acme" "s1" shared_db))
    = [y]) as [y Hy] by (vm_compute; eauto).
  exists x, y. rewrite Hx, Hy. split; [by left|]. split; [by left|].
  split; [vm_compute in Hy; by injection Hy as <-|].
  eapply (shares_only_wear_out manager shared_db).
  - apply (step_RevokeShare manager (user_ctx "ann" []) 5 "acme" "s1").
  - apply shared_db_ok.
  - rewrite Hx. by left.
  - rewrite Hy. by left.
  - vm_compute in Hx, Hy. injection Hx as <-. injection Hy as <-. reflexivity.
Defined.

(** The share of [shared_db] expires at noon (12:00:00Z). *)
Definition noon : time := instant 738944 43200 0.
Definition half : Z := 500000000.

Definition expiring (at_ : time) : AccessDB :=
  set_shares empty_db [{|
    sh_ID := "s1"; sh_TenantID := "acme"; sh_Bucket := "docs"; sh_Key := "a/b"; sh_Name := "";
    sh_TokenHash := "h:tok"; sh_PasswordMAC := ""; sh_AllowPreview := true; sh_AllowDownload := true;
    sh_MaxUses := 0; sh_UseCount := 0; sh_ExpiresAt := at_; sh_RevokedAt := 0; sh_CreatedBy := "ann";
    sh_CreatedAt := 1; sh_OwnerID := "ann" |}].

(** [ConsumeShare] compares expiry times as RFC 3339 texts, which do not order
    instants within a second: a share that expires at 12:00:00.5 is refused at 12:00:00
    although [validateShare] accepts it, and one that expired at 12:00:00 is still counted
    as consumable at 12:00:00.5. *)
Theorem ConsumeShare_text_expiry :
  is_ok (snd (Manager.ResolveShare manager ctx noon noon "tok" "" ActionRead false
    (expiring (noon + half)))) = true /\
  snd (Manager.ResolveShare manager ctx noon noon "tok" "" ActionRead true (expiring (noon + half))) =
    Err (Sentinel ErrShareExpired) /\
  is_ok (snd (sql_ConsumeShare (expiring noon) "h:tok" (noon + half))) = true.
Proof. by vm_compute. Qed.

(** * Public assets (src/internal/access/shares.go, src/internal/repository/sql_access_assets.go)

    Publishing and resolving, within a bucket and across buckets. *)
Open Scope Z_scope.

Import FixedStore ToyCrypto.

Lemma sql_PutPublicAsset_elem db a db' :
  (forall x, x ∈ public_assets db -> pa_ID x = pa_ID a ->
     pa_TenantID x = pa_TenantID a /\ pa_Bucket x = pa_Bucket a) ->
  sql_PutPublicAsset db a = (db', None) -> a ∈ public_assets db'.
Proof.
  intros Hx. unfold sql_PutPublicAsset. destruct (existsb _ _); [done|].
  destruct (existsb (fun x => pa_ID x =s pa_ID a) _) eqn:He; intros [= <-]; cbn.
  - apply existsb_elem in He as (x & Hin & Hid). apply elem_update_where. left. exists x.
    split; [done|]. split; [done|]. apply streqb_true in Hid. destruct (Hx x Hin Hid) as [Ht Hb].
    unfold asset_update. rewrite Hid, Ht, Hb. by destruct a.
  - apply elem_of_app. right. by left.
Qed.

Lemma reusePublicAssetID_Ok `{UUIDLib} m ctx a slug db id :
  Manager.reusePublicAssetID m ctx a slug db = Ok id ->
  id = pa_ID a \/ exists old, old ∈ public_assets db /\ pa_Slug old = slug /\
    pa_TenantID old = pa_TenantID a /\ id = pa_ID old.
Proof.
  unfold Manager.reusePublicAssetID. destruct (GetPublicAsset db slug) as [old|e] eqn:Hg.
  - destruct (String.eqb_spec (pa_TenantID old) (pa_TenantID a)); cbn; [|done].
    destruct (_ ;? _); [done|]. intros [= <-]. right. exists old.
    apply query_row_Ok in Hg as [Hin Hs]. apply streqb_true in Hs. done.
  - destruct (_ && _); [|done]. intros [= <-]. by left.
Qed.

(** Publishing and resolving agree: over a well-formed store, with a new identifier
    and for a slug that is free or currently points into the same bucket, the asset
    [PublishAsset] returns is the one its slug resolves to afterwards. *)
Theorem PublishAsset_resolves `{UUIDLib} `{Crypto} m ctx now newID a db db' a' :
  db_ok db -> pa_ID a = ""%string -> ~ newID ∈ map pa_ID (public_assets db) ->
  (forall old, old ∈ public_assets db -> pa_ID old <> ""%string /\
     (pa_Slug old = pa_Slug a' -> pa_Bucket old = pa_Bucket a)) ->
  Manager.PublishAsset m ctx now newID a db = (db', Ok a') ->
  sql_GetPublicAsset db' (pa_Slug a') = Ok a' /\ pa_Bucket a' = pa_Bucket a /\ pa_Key a' = pa_Key a.
Proof.
  intros Hok Hid Hnew Hold Hrun.
  assert (db_ok db') as Hok'.
  { pose proof (keeps_PublishAsset m ctx now newID a db Hok) as Hk. by rewrite Hrun in Hk. }
  unfold Manager.PublishAsset in Hrun. prog_inv. rewrite Hrun in Hrun4.
  split; [|by subst a'].
  apply (query_row_unique pa_Slug); [apply (assets_slugs _ (db_assets _ Hok'))|].
  apply (sql_PutPublicAsset_elem db); [|exact Hrun4].
  intros x Hx Hxid. apply reusePublicAssetID_Ok in Hrun2. subst a'. cbn in *.
  destruct Hrun2 as [->|(old & Ho & Hs & Ht & ->)].
  - rewrite Hid in Hxid. cbn in Hxid. destruct Hnew. rewrite <- Hxid. by apply list_elem_of_fmap_2.
  - destruct (Hold old Ho) as [Hne Hb]. apply streqb_false in Hne. rewrite Hne in Hxid.
    rewrite (NoDup_map_inj pa_ID (public_assets db) x old); auto.
    apply (assets_ids _ (db_assets _ Hok)).
Qed.

Definition new_asset (bucket key : string) : PublicAsset := {|
  pa_ID := ""; pa_TenantID := "acme"; pa_Bucket := bucket; pa_Key := key; pa_Slug := "logo";
  pa_CacheControl := ""; pa_PublishedBy := ""; pa_PublishedAt := 0; pa_OwnerID := "ann" |}.

Definition publish (bucket key id : string) (db : AccessDB) : AccessDB * result PublicAsset :=
  Manager.PublishAsset manager (user_ctx "ann" []) 7 id (new_asset bucket key) db.

Lemma PublishAsset_resolves_witness :
  exists a', snd (publish "docs" "logo.png" "p1" empty_db) = Ok a' /\
    sql_GetPublicAsset (fst (publish "docs" "logo.png" "p1" empty_db)) (pa_Slug a') = Ok a'.
Proof.
  destruct (publish "docs" "logo.png" "p1" empty_db) as [db' [a'|e]] eqn:E.
  - exists a'. split; [reflexivity|]. eapply PublishAsset_resolves; [apply empty_db_ok|..|exact E].
    + reflexivity.
    + by intros ?%not_elem_of_nil.
    + by intros ? ?%not_elem_of_nil.
  - vm_compute in E. discriminate E.
Defined.

(** Republishing a slug for an object of another bucket exposes a different object:
    the [ON CONFLICT] update keeps the old bucket with the new key, so the slug resolves
    to [docs/payroll.png], which the publisher owns no right to publish, while the answer
    names [media/payroll.png]. *)
Theorem PublishAsset_crosses_buckets :
  let db1 := fst (publish "docs" "logo.png" "p1" empty_db) in
  let run := publish "media" "payroll.png" "p2" db1 in
  let stolen := {| r_TenantID := "acme"; r_Bucket := "docs"; r_Key := "payroll.png";
                   r_Kind := ResourceObject; r_OwnerID := "hr" |} in
  require manager db1 (user_ctx "ann" []) ActionPublish stolen <> None /\
  match snd run, snd (Manager.ResolvePublicAsset manager ctx "logo" (fst run)) with
  | Ok a, Ok (resolved, p) =>
      pa_Bucket a = "media"%string /\ pa_Bucket resolved = "docs"%string /\
      pa_Key resolved = "payroll.png"%string /\
      d_Allowed (fst (Authorize manager (fst run) ctx p ActionRead stolen)) = true
  | _, _ => False
  end.
Proof. vm_compute. by repeat split. Qed.
