(* ===== verification/Outbox.v ===== *)
(** * The event outbox store (src/internal/repository/event_outbox.go)

    The tables event_outbox and event_outbox_delivered of migration 0041 and the
    statements on them: validation and insertion of facts, claims with owner, token and
    lease, completion, retry, pruning and the counts, for both dialects.  An id comes
    from a sequence that never goes back.  [ctx] is the error of a context that is done
    when the statement or transaction starts; statements fail through it and through
    constraints, not through the connection.  The clock is an argument: one reading per
    call of time.Now.  PostgreSQL's claim skips the rows other transactions have locked,
    an argument; its RETURNING lists rows in table order.  attempts does not overflow. *)

From Stdlib Require Import Lia Bool ZArith.
From stdpp Require Import base strings list numbers.
From S2P Require Import Prelude GoStrings Json GoTime GoErrors Sql.

Open Scope Z_scope.

(** ** Data *)

Definition EventTypeFileDeleted11 : string := "vault.file.deleted@1.1".
Definition EventTypeFileNotify11 : string := "vault.file.notify@1.1".

Definition maxOutboxFactPayloadBytes : Z := 1048576.

Record OutboxFact := {
  of_EventType : string; of_OriginID : Z; of_TenantID : string; of_Payload : string
}.

(** A claimed fact. *)
Record EventOutboxRow := {
  eo_ID : Z; eo_EventType : string; eo_OriginID : Z; eo_TenantID : string; eo_Payload : string;
  eo_Attempts : Z; eo_ClaimOwner : string; eo_ClaimToken : string; eo_LeaseExpiresAt : time
}.

Definition errEventOutboxClaimLost : error := NewError "event outbox claim lost".

(** A row of event_outbox. *)
Record OutboxRow := {
  ob_id : Z; ob_event_type : string; ob_origin_id : Z; ob_tenant_id : string;
  ob_payload : string; ob_attempts : Z; ob_status : string; ob_available_at_ns : Z;
  ob_claim_owner : string; ob_claim_token : string; ob_lease_expires_at_ns : Z;
  ob_last_error : string; ob_created_at_ns : Z; ob_delivered_at_ns : Z
}.

Record DeliveredRow := { od_outbox_id : Z; od_delivered_at_ns : Z }.

(** [outbox_seq] is the last id the sequence gave. *)
Record OutboxDB := {
  event_outbox : list OutboxRow; event_outbox_delivered : list DeliveredRow; outbox_seq : Z
}.

Definition set_event_outbox (l : list OutboxRow) (db : OutboxDB) : OutboxDB := {|
  event_outbox := l; event_outbox_delivered := event_outbox_delivered db; outbox_seq := outbox_seq db |}.
Definition set_delivered (l : list DeliveredRow) (db : OutboxDB) : OutboxDB := {|
  event_outbox := event_outbox db; event_outbox_delivered := l; outbox_seq := outbox_seq db |}.

(** BeginTx and ExecContext with a context that is done. *)
Definition with_ctx {S} (ctx : option error) : prog S unit := guard (fun _ => ctx).

(** ** Fact validation *)

Definition validOutboxPayload (payload : string) : bool :=
  match Unmarshal_map payload with
  | None => false
  | Some doc => match map_get doc "schema_version" with
                | Some (JString version) => (version =s "1.1")
                | _ => false
                end
  end.

Definition payload_len (p : string) : Z := Z.of_nat (String.length p).

Definition validateOutboxFact (fact : OutboxFact) : option error :=
  if (of_EventType fact <>s EventTypeFileDeleted11) && (of_EventType fact <>s EventTypeFileNotify11)
  then Some (NewError "event outbox fact type is invalid")
  else if of_OriginID fact <=? 0 then Some (NewError "event outbox fact origin is invalid")
  else if (TrimSpace (of_TenantID fact) =s "") then Some (NewError "event outbox fact tenant is required")
  else if (payload_len (of_Payload fact) =? 0) || (maxOutboxFactPayloadBytes <? payload_len (of_Payload fact))
  then Some (NewError "event outbox fact payload must be within 1..1048576 bytes")
  else if negb (validOutboxPayload (of_Payload fact))
  then Some (NewError "event outbox fact payload must be JSON with schema_version 1.1")
  else None.

(** The loop over the facts: the first error. *)
Fixpoint validate_each (facts : list OutboxFact) : option error :=
  match facts with
  | [] => None
  | fact :: rest => match validateOutboxFact fact with
                    | Some e => Some e
                    | None => validate_each rest
                    end
  end.

Definition validateOutboxFacts (facts : list OutboxFact) : option error :=
  if (length facts =? 0)%nat then Some (NewError "event outbox facts must not be empty")
  else validate_each facts.

(** ** Insertion *)

(** The row of a fact: the other columns have their defaults. *)
Definition fact_row (id now : Z) (fact : OutboxFact) : OutboxRow := {|
  ob_id := id; ob_event_type := of_EventType fact; ob_origin_id := of_OriginID fact;
  ob_tenant_id := of_TenantID fact; ob_payload := of_Payload fact; ob_attempts := 0;
  ob_status := "pending"; ob_available_at_ns := now; ob_claim_owner := ""; ob_claim_token := "";
  ob_lease_expires_at_ns := 0; ob_last_error := ""; ob_created_at_ns := now; ob_delivered_at_ns := 0 |}.

(** PostgreSQL refuses a text that is not UTF-8 or has a NUL. *)
Definition pg_bad_text (d : dialect) (s : string) : bool :=
  match d with
  | dialectSQLite => false
  | dialectPostgres => negb (utf8_ValidString s) ||
                       existsb (fun a => byte_val a =? 0) (String.list_ascii_of_string s)
  end.

Definition outbox_violation (d : dialect) (db : OutboxDB) (fact : OutboxFact) : option error :=
  if pg_bad_text d (of_EventType fact) || pg_bad_text d (of_TenantID fact) || pg_bad_text d (of_Payload fact)
  then Some (PgError "22021" "")
  else if negb (contains [EventTypeFileDeleted11; EventTypeFileNotify11] (of_EventType fact))
  then Some (check_violation d)
  else if MaxInt64 <=? outbox_seq db then Some (sequence_exhausted d)
  else None.

Definition insertOutboxFact (d : dialect) (now : Z) (fact : OutboxFact) : prog OutboxDB unit := fun db =>
  match outbox_violation d db fact with
  | Some e => (db, Err e)
  | None => ({| event_outbox := event_outbox db ++ [fact_row (outbox_seq db + 1) now fact];
                event_outbox_delivered := event_outbox_delivered db;
                outbox_seq := outbox_seq db + 1 |}, Ok tt)
  end.

Fixpoint insert_facts (d : dialect) (now : Z) (facts : list OutboxFact) : prog OutboxDB unit :=
  match facts with
  | [] => ret tt
  | fact :: rest => run! insertOutboxFact d now fact in insert_facts d now rest
  end.

Definition insertOutboxFacts (d : dialect) (now : time) (facts : list OutboxFact) : prog OutboxDB unit :=
  insert_facts d (UnixNano now) facts.

(** ** Claims *)

(** [(status='pending' AND available_at_ns <= now) OR
     (status='inflight' AND lease_expires_at_ns <= now)]. *)
Definition outbox_due (now : Z) (r : OutboxRow) : bool :=
  (ob_status r =s "pending") && (ob_available_at_ns r <=? now) ||
  (ob_status r =s "inflight") && (ob_lease_expires_at_ns r <=? now).

(** [ORDER BY available_at_ns, created_at_ns, id]. *)
Definition due_le (a b : OutboxRow) : bool :=
  then_by (ob_available_at_ns a <? ob_available_at_ns b) (ob_available_at_ns b <? ob_available_at_ns a)
    (then_by (ob_created_at_ns a <? ob_created_at_ns b) (ob_created_at_ns b <? ob_created_at_ns a)
       (ob_id a <=? ob_id b)).

Definition timeFromUnixNano (value : Z) : time := if value =? 0 then 0 else time_Unix value.

Definition scanEventOutboxRow (r : OutboxRow) : EventOutboxRow := {|
  eo_ID := ob_id r; eo_EventType := ob_event_type r; eo_OriginID := ob_origin_id r;
  eo_TenantID := ob_tenant_id r; eo_Payload := ob_payload r; eo_Attempts := ob_attempts r;
  eo_ClaimOwner := ob_claim_owner r; eo_ClaimToken := ob_claim_token r;
  eo_LeaseExpiresAt := timeFromUnixNano (ob_lease_expires_at_ns r) |}.

Definition claim_row (owner token : string) (until : Z) (r : OutboxRow) : OutboxRow := {|
  ob_id := ob_id r; ob_event_type := ob_event_type r; ob_origin_id := ob_origin_id r;
  ob_tenant_id := ob_tenant_id r; ob_payload := ob_payload r; ob_attempts := ob_attempts r + 1;
  ob_status := "inflight"; ob_available_at_ns := ob_available_at_ns r; ob_claim_owner := owner;
  ob_claim_token := token; ob_lease_expires_at_ns := until; ob_last_error := ob_last_error r;
  ob_created_at_ns := ob_created_at_ns r; ob_delivered_at_ns := ob_delivered_at_ns r |}.

Definition due_rows (now limit : Z) (p : OutboxRow -> bool) (db : OutboxDB) : list OutboxRow :=
  take (Z.to_nat limit) (sort_by due_le (List.filter (fun r => outbox_due now r && p r) (event_outbox db))).

(** One UPDATE ... WHERE id IN (SELECT ... FOR UPDATE SKIP LOCKED) RETURNING. *)
Definition claimEventOutboxPostgres (ctx : option error) (locked : Z -> bool) (now0 now1 : time)
    (owner token : string) (limit ttl : Z) : prog OutboxDB (list EventOutboxRow) :=
  run! with_ctx ctx in fun db =>
  let now := UnixNano now0 in
  let until := UnixNano (now1 + ttl) in
  let ids := map ob_id (due_rows now limit (fun r => negb (locked (ob_id r))) db) in
  let hit r := existsb (Z.eqb (ob_id r)) ids in
  (set_event_outbox (update_where hit (claim_row owner token until) (event_outbox db)) db,
   Ok (map (fun r => scanEventOutboxRow (claim_row owner token until r)) (List.filter hit (event_outbox db)))).

(** UPDATE ... WHERE id AND due RETURNING, for one id: the row's scan, or nothing. *)
Definition claim_one (owner token : string) (until now id : Z) : prog OutboxDB (option EventOutboxRow) := fun db =>
  let hit r := (ob_id r =? id) && outbox_due now r in
  (set_event_outbox (update_where hit (claim_row owner token until) (event_outbox db)) db,
   Ok ((fun r => scanEventOutboxRow (claim_row owner token until r)) <$> List.find hit (event_outbox db))).

Fixpoint claimEventOutboxIDs (owner token : string) (ids : list Z) (now ttl : Z)
    : prog OutboxDB (list EventOutboxRow) :=
  match ids with
  | [] => ret []
  | id :: rest =>
      do! one := claim_one owner token (UnixNano (time_Unix now + ttl)) now id in
      do! more := claimEventOutboxIDs owner token rest now ttl in
      ret (match one with Some fact => fact :: more | None => more end)
  end.

Definition claimEventOutboxSQLite (ctx : option error) (now0 : time) (owner token : string)
    (limit ttl : Z) : prog OutboxDB (list EventOutboxRow) :=
  run! with_ctx ctx in in_tx (
  let now := UnixNano now0 in
  do! ids := reads (fun db => Ok (map ob_id (due_rows now limit (fun _ => true) db))) in
  claimEventOutboxIDs owner token ids now ttl).

Definition claim_limit (limit : Z) : Z := if (limit <=? 0) || (500 <? limit) then 32 else limit.

(** [now1] is the second reading of the clock, [locked] the rows locked by other
    transactions; only PostgreSQL's statement uses them. *)
Definition ClaimEventOutbox (d : dialect) (ctx : option error) (locked : Z -> bool) (now0 now1 : time)
    (owner token : string) (limit ttl : Z) : prog OutboxDB (list EventOutboxRow) :=
  run! refuse_if ((owner =s "") || (token =s "") || (ttl <=? 0))
         (NewError "event outbox claim identity is invalid") in
  match d with
  | dialectPostgres => claimEventOutboxPostgres ctx locked now0 now1 owner token (claim_limit limit) ttl
  | dialectSQLite => claimEventOutboxSQLite ctx now0 owner token (claim_limit limit) ttl
  end.

(** ** Completion and retry *)

(** [id AND status='inflight' AND claim_owner AND claim_token AND lease_expires_at_ns > now]. *)
Definition holds_claim (id : Z) (owner token : string) (now : Z) (r : OutboxRow) : bool :=
  (ob_id r =? id) && (ob_status r =s "inflight") && (ob_claim_owner r =s owner) &&
  (ob_claim_token r =s token) && (now <? ob_lease_expires_at_ns r).

Definition complete_row (now : Z) (r : OutboxRow) : OutboxRow := {|
  ob_id := ob_id r; ob_event_type := ob_event_type r; ob_origin_id := ob_origin_id r;
  ob_tenant_id := ob_tenant_id r; ob_payload := ob_payload r; ob_attempts := ob_attempts r;
  ob_status := "delivered"; ob_available_at_ns := ob_available_at_ns r; ob_claim_owner := "";
  ob_claim_token := ""; ob_lease_expires_at_ns := 0; ob_last_error := "";
  ob_created_at_ns := ob_created_at_ns r; ob_delivered_at_ns := now |}.

(** UPDATE event_outbox: RowsAffected. *)
Definition update_outbox (p : OutboxRow -> bool) (f : OutboxRow -> OutboxRow) : prog OutboxDB Z := fun db =>
  (set_event_outbox (update_where p f (event_outbox db)) db,
   Ok (Z.of_nat (length (List.filter p (event_outbox db))))).

Definition CompleteEventOutbox (d : dialect) (ctx : option error) (now0 : time)
    (id : Z) (owner token : string) : prog OutboxDB unit :=
  let now := UnixNano now0 in
  run! with_ctx ctx in in_tx (
  do! n := update_outbox (holds_claim id owner token now) (complete_row now) in
  run! refuse_if (negb (n =? 1)) errEventOutboxClaimLost in
  run! guard (fun db => if clash od_outbox_id (event_outbox_delivered db) id
                        then Some (pkey_violation d "event_outbox_delivered_pkey") else None) in
  writes (fun db => (set_delivered (event_outbox_delivered db ++
                       [{| od_outbox_id := id; od_delivered_at_ns := now |}]) db, None))).

Definition retry_row (maxAttempts next : Z) (lastErr : string) (r : OutboxRow) : OutboxRow := {|
  ob_id := ob_id r; ob_event_type := ob_event_type r; ob_origin_id := ob_origin_id r;
  ob_tenant_id := ob_tenant_id r; ob_payload := ob_payload r; ob_attempts := ob_attempts r;
  ob_status := if maxAttempts <=? ob_attempts r then "failed" else "pending";
  ob_available_at_ns := next; ob_claim_owner := ""; ob_claim_token := "";
  ob_lease_expires_at_ns := 0; ob_last_error := lastErr; ob_created_at_ns := ob_created_at_ns r;
  ob_delivered_at_ns := ob_delivered_at_ns r |}.

Definition RetryEventOutbox (d : dialect) (ctx : option error) (now0 : time) (id : Z)
    (owner token lastErr : string) (next : time) (maxAttempts : Z) : prog OutboxDB unit :=
  let maxAttempts := if maxAttempts <=? 0 then 1 else maxAttempts in
  let lastErr := if (512 <? String.length lastErr)%nat then slice lastErr 0 512 else lastErr in
  let now := UnixNano now0 in
  run! with_ctx ctx in
  run! refuse_if (pg_bad_text d (TrimSpace lastErr)) (PgError "22021" "") in
  do! n := update_outbox (holds_claim id owner token now)
             (retry_row maxAttempts (UnixNano next) (TrimSpace lastErr)) in
  refuse_if (negb (n =? 1)) errEventOutboxClaimLost.

(** ** Pruning and counts *)

Definition delivered_before (before : Z) (r : OutboxRow) : bool :=
  (ob_status r =s "delivered") && (ob_delivered_at_ns r <? before).
Definition failed_before (before : Z) (r : OutboxRow) : bool :=
  (ob_status r =s "failed") && (ob_created_at_ns r <? before).

(** DELETE FROM event_outbox: RowsAffected. *)
Definition delete_outbox (p : OutboxRow -> bool) : prog OutboxDB Z := fun db =>
  (set_event_outbox (delete_where p (event_outbox db)) db,
   Ok (Z.of_nat (length (List.filter p (event_outbox db))))).

Definition PruneEventOutbox (ctx : option error) (deliveredBefore failedBefore : time) : prog OutboxDB Z :=
  run! refuse_if (IsZero deliveredBefore || IsZero failedBefore)
         (NewError "event outbox prune times are required") in
  run! with_ctx ctx in in_tx (
  run! writes (fun db =>
    (set_delivered (delete_where (fun o => existsb (fun r => (ob_id r =? od_outbox_id o) &&
                                                     delivered_before (UnixNano deliveredBefore) r)
                                             (event_outbox db))
                      (event_outbox_delivered db)) db, None)) in
  do! n := delete_outbox (delivered_before (UnixNano deliveredBefore)) in
  do! m := delete_outbox (failed_before (UnixNano failedBefore)) in
  ret (n + m)).

Definition CountPendingEventOutbox (db : OutboxDB) : Z :=
  Z.of_nat (length (List.filter (fun r => contains ["pending"; "inflight"] (ob_status r)) (event_outbox db))).

Definition HasEventOutboxFact (originID : Z) (eventType : string) (db : OutboxDB) : bool :=
  existsb (fun r => (ob_origin_id r =? originID) && (ob_event_type r =s eventType)) (event_outbox db).

Definition CountEventOutbox (db : OutboxDB) : Z := Z.of_nat (length (event_outbox db)).
