(* ===== verification/OutboxProps.v ===== *)
(** * What the event outbox guarantees

    [outbox_inv] holds in every state the store's operations reach.  A claim takes the
    oldest due facts ([claim_takes_oldest]); while its lease lasts no other call touches
    the fact ([live_lease_excludes]); a delivered or failed fact is final
    ([terminal_is_final]); no undelivered fact is lost or changed ([facts_are_kept]);
    completion succeeds exactly for the holder of a live claim
    ([CompleteEventOutbox_iff]). *)

From Stdlib Require Import Lia Bool ZArith Permutation.
From stdpp Require Import base strings list numbers sorting relations.
From S2P Require Import Prelude GoStrings Json GoTime GoErrors Sql Outbox.

Open Scope Z_scope.

Lemma with_ctx_Ok {S} ctx (s s' : S) u : with_ctx ctx s = (s', Ok u) -> s' = s /\ ctx = None.
Proof. unfold with_ctx. apply guard_Ok. Qed.

(** ** Claims as one update *)

Definition has_id (ids : list Z) (r : OutboxRow) : bool := existsb (Z.eqb (ob_id r)) ids.

Lemma has_id_true ids r : has_id ids r = true <-> ob_id r ∈ ids.
Proof.
  unfold has_id. rewrite existsb_elem. split.
  - intros (x & Hx & E). apply Z.eqb_eq in E. by subst.
  - intros H. exists (ob_id r). by rewrite Z.eqb_refl.
Qed.

Definition claimed (owner token : string) (until : Z) (L : list OutboxRow) (db : OutboxDB) : OutboxDB :=
  set_event_outbox (update_where (has_id (map ob_id L)) (claim_row owner token until) (event_outbox db)) db.

Definition claim_facts (owner token : string) (until : Z) (L : list OutboxRow) : list EventOutboxRow :=
  map (fun r => scanEventOutboxRow (claim_row owner token until r)) L.

Definition ids_unique (db : OutboxDB) : Prop := NoDup (map ob_id (event_outbox db)).

Lemma claim_one_run owner token until now db r :
  ids_unique db -> r ∈ event_outbox db -> outbox_due now r = true ->
  claim_one owner token until now (ob_id r) db =
  (claimed owner token until [r] db, Ok (Some (scanEventOutboxRow (claim_row owner token until r)))).
Proof.
  intros Hn Hr Hd. unfold claim_one, claimed.
  rewrite (find_unique ob_id _ (event_outbox db) r); [|done|done| |].
  - do 2 f_equal. apply update_where_ext. intros x Hx. cbn. rewrite orb_false_r.
    destruct (Z.eqb_spec (ob_id x) (ob_id r)) as [E|]; [|done]. cbn.
    by rewrite (NoDup_map_inj ob_id _ x r Hn Hx Hr E).
  - by rewrite Z.eqb_refl, Hd.
  - intros y _ E. bool_split. by apply Z.eqb_eq.
Qed.

Lemma claimed_ids owner token until L db :
  map ob_id (event_outbox (claimed owner token until L db)) = map ob_id (event_outbox db).
Proof. cbn. by apply map_update_where. Qed.

Lemma claimed_cons owner token until r L db :
  ob_id r ∉ map ob_id L ->
  claimed owner token until L (claimed owner token until [r] db) = claimed owner token until (r :: L) db.
Proof.
  intros Hr. unfold claimed, set_event_outbox. cbn [event_outbox event_outbox_delivered outbox_seq].
  f_equal. rewrite update_where_union.
  - apply update_where_ext. intros x _. cbn. by rewrite orb_false_r.
  - intros x _ E. apply has_id_true in E. apply list_elem_of_singleton in E. cbn.
    destruct (has_id _ _) eqn:E'; [|done]. apply has_id_true in E'. cbn in E'. congruence.
Qed.

Lemma claimEventOutboxIDs_run owner token now ttl L db :
  ids_unique db -> NoDup (map ob_id L) -> L ⊆ event_outbox db ->
  Forall (fun r => outbox_due now r = true) L ->
  let until := UnixNano (time_Unix now + ttl) in
  claimEventOutboxIDs owner token (map ob_id L) now ttl db =
  (claimed owner token until L db, Ok (claim_facts owner token until L)).
Proof.
  intros Hn HL Hsub Hdue until. revert db Hn Hsub. induction L as [|r L IH]; intros db Hn Hsub.
  { cbn. unfold ret, claimed. rewrite update_where_none by done. by destruct db. }
  cbn in HL. apply list.NoDup_cons in HL as [Hr HL]. apply list.Forall_cons in Hdue as [Hd Hdue].
  cbn [map claimEventOutboxIDs]. unfold bind at 1.
  rewrite (claim_one_run _ _ _ _ _ r) by (done || (apply Hsub; by left)). fold until.
  unfold bind. rewrite IH; [|done|done| |].
  - cbn. by rewrite claimed_cons.
  - unfold ids_unique. by rewrite claimed_ids.
  - intros x Hx. cbn. apply elem_update_where. right. split; [apply Hsub; by right|].
    destruct (has_id _ x) eqn:E; [|done]. apply has_id_true, list_elem_of_singleton in E.
    destruct Hr. rewrite <- E. by apply list_elem_of_fmap_2.
Qed.

Lemma due_rows_sub now limit p db r :
  r ∈ due_rows now limit p db -> r ∈ event_outbox db /\ outbox_due now r = true /\ p r = true.
Proof.
  unfold due_rows. intros H. apply (subseteq_take (Z.to_nat limit)) in H.
  apply elem_sort_by, elem_filter_b in H as [Hr H]. by bool_split.
Qed.

Lemma due_rows_NoDup now limit p db : ids_unique db -> NoDup (map ob_id (due_rows now limit p db)).
Proof.
  intros Hn. unfold due_rows. change (map ob_id) with (fmap ob_id : list OutboxRow -> list Z).
  rewrite fmap_take. eapply sublist_NoDup; [|apply sublist_take]. unfold sort_by.
  rewrite merge_sort_Permutation. apply NoDup_map_filter, Hn.
Qed.

(** The rows a claim takes, for the two dialects. *)
Definition claimable (d : dialect) (locked : Z -> bool) (r : OutboxRow) : bool :=
  match d with dialectPostgres => negb (locked (ob_id r)) | dialectSQLite => true end.

Definition lease_until (d : dialect) (now0 now1 : time) (ttl : Z) : Z :=
  match d with
  | dialectPostgres => UnixNano (now1 + ttl)
  | dialectSQLite => UnixNano (time_Unix (UnixNano now0) + ttl)
  end.

Definition claim_rows (d : dialect) (locked : Z -> bool) (now0 : time) (limit : Z) (db : OutboxDB) :=
  due_rows (UnixNano now0) (claim_limit limit) (claimable d locked) db.

Lemma filter_has_id L db :
  ids_unique db -> NoDup (map ob_id L) -> L ⊆ event_outbox db ->
  List.filter (has_id (map ob_id L)) (event_outbox db) ≡ₚ L.
Proof.
  intros Hn HL Hsub. apply NoDup_Permutation.
  - eapply NoDup_fmap_1, NoDup_map_filter, Hn.
  - by eapply NoDup_fmap_1.
  - intros x. rewrite elem_filter_b, has_id_true. split; [|intros Hx; split; [by apply Hsub|by apply list_elem_of_fmap_2]].
    intros [Hx (y & E & Hy)%list_elem_of_fmap]. by rewrite (NoDup_map_inj ob_id _ x y Hn Hx (Hsub _ Hy) E).
Qed.

Lemma ClaimEventOutbox_run d ctx locked now0 now1 owner token limit ttl db :
  ids_unique db ->
  let L := claim_rows d locked now0 limit db in
  let until := lease_until d now0 now1 ttl in
  match ClaimEventOutbox d ctx locked now0 now1 owner token limit ttl db with
  | (db', Ok facts) =>
      owner <> ""%string /\ token <> ""%string /\ 0 < ttl /\ ctx = None /\
      db' = claimed owner token until L db /\ facts ≡ₚ claim_facts owner token until L
  | (db', Err _) => db' = db
  end.
Proof.
  intros Hn L until. unfold ClaimEventOutbox. rewrite run_refuse.
  destruct (_ || (ttl <=? 0)) eqn:Eg; [done|]. bool_split. rewrite Z.leb_gt in *.
  assert (NoDup (map ob_id L)) as HL by by apply due_rows_NoDup.
  assert (L ⊆ event_outbox db) as Hsub by (intros r Hr; by apply due_rows_sub in Hr as [? _]).
  destruct d.
  - unfold claimEventOutboxSQLite, with_ctx. rewrite run_guard. destruct ctx; [done|].
    unfold in_tx. rewrite run_reads. change (due_rows _ _ _ _) with L.
    rewrite claimEventOutboxIDs_run; [|done|done|done|].
    + repeat split; try done.
    + apply list.Forall_forall. intros r Hr. by apply due_rows_sub in Hr as (_ & ? & _).
  - unfold claimEventOutboxPostgres, with_ctx. rewrite run_guard. destruct ctx; [done|].
    change (due_rows _ _ _ _) with L. repeat split; try done.
    change (fun r => existsb (Z.eqb (ob_id r)) (map ob_id L)) with (has_id (map ob_id L)).
    unfold claim_facts. apply Permutation_map. by apply filter_has_id.
Qed.

(** ** Calls *)

Inductive outbox_call :=
| CallInsert (facts : list OutboxFact)
| CallClaim (ctx : option error) (locked : Z -> bool) (now1 : time) (owner token : string) (limit ttl : Z)
| CallComplete (ctx : option error) (id : Z) (owner token : string)
| CallRetry (ctx : option error) (id : Z) (owner token lastErr : string) (next : time) (maxAttempts : Z)
| CallPrune (ctx : option error) (deliveredBefore failedBefore : time).

(** The state after a call at an instant.  Facts are inserted by a transaction that
    validated them. *)
Definition run_call (d : dialect) (now : time) (c : outbox_call) (db : OutboxDB) : OutboxDB :=
  match c with
  | CallInsert facts =>
      match validateOutboxFacts facts with
      | Some _ => db
      | None => fst (in_tx (insertOutboxFacts d now facts) db)
      end
  | CallClaim ctx locked now1 owner token limit ttl =>
      fst (ClaimEventOutbox d ctx locked now now1 owner token limit ttl db)
  | CallComplete ctx id owner token => fst (CompleteEventOutbox d ctx now id owner token db)
  | CallRetry ctx id owner token lastErr next maxAttempts =>
      fst (RetryEventOutbox d ctx now id owner token lastErr next maxAttempts db)
  | CallPrune ctx deliveredBefore failedBefore => fst (PruneEventOutbox ctx deliveredBefore failedBefore db)
  end.

Definition outbox_step (d : dialect) (db db' : OutboxDB) : Prop := exists now c, run_call d now c db = db'.

Definition empty_outbox : OutboxDB := {| event_outbox := []; event_outbox_delivered := []; outbox_seq := 0 |}.

Definition outbox_reachable (d : dialect) (db : OutboxDB) : Prop := rtc (outbox_step d) empty_outbox db.

(** The completion and the retry of a fact under a claim. *)
Definition completes (c : outbox_call) (id : Z) (owner token : string) : Prop :=
  match c with CallComplete _ i o t => i = id /\ o = owner /\ t = token | _ => False end.
Definition retries (c : outbox_call) (id : Z) (owner token : string) : Prop :=
  match c with CallRetry _ i o t _ _ _ => i = id /\ o = owner /\ t = token | _ => False end.
Definition acts_for (c : outbox_call) (id : Z) (owner token : string) : Prop :=
  completes c id owner token \/ retries c id owner token.

Definition prunes (c : outbox_call) : Prop := match c with CallPrune _ _ _ => True | _ => False end.

Definition terminal (r : OutboxRow) : bool := contains ["delivered"; "failed"] (ob_status r).

(** What a call may do to a row. *)
Inductive row_step (now : Z) (c : outbox_call) (r : OutboxRow) : OutboxRow -> Prop :=
| row_same : row_step now c r r
| row_claimed owner token until :
    outbox_due now r = true -> owner <> ""%string -> token <> ""%string ->
    row_step now c r (claim_row owner token until r)
| row_completed owner token :
    completes c (ob_id r) owner token -> holds_claim (ob_id r) owner token now r = true ->
    row_step now c r (complete_row now r)
| row_retried owner token maxAttempts next lastErr :
    retries c (ob_id r) owner token -> holds_claim (ob_id r) owner token now r = true ->
    0 < maxAttempts -> row_step now c r (retry_row maxAttempts next lastErr r).

Definition new_row (now : Z) (db db' : OutboxDB) (r : OutboxRow) : Prop :=
  exists id fact, r = fact_row id now fact /\ outbox_seq db < id <= outbox_seq db' /\ validateOutboxFact fact = None.

(** What a call does to the table. *)
Definition evolves (now : Z) (c : outbox_call) (db db' : OutboxDB) : Prop :=
  (forall r, r ∈ event_outbox db ->
     (exists r', r' ∈ event_outbox db' /\ row_step now c r r') \/ (terminal r = true /\ prunes c)) /\
  (forall r', r' ∈ event_outbox db' ->
     (exists r, r ∈ event_outbox db /\ row_step now c r r') \/ new_row now db db' r') /\
  outbox_seq db <= outbox_seq db'.

Lemma evolves_same now c db : evolves now c db db.
Proof. split_and!; [| |done]; intros r Hr; left; exists r; (split; [done|constructor]). Qed.

(** Updates of rows. *)
Lemma evolves_update now c p f db db' :
  event_outbox db' = update_where p f (event_outbox db) -> outbox_seq db' = outbox_seq db ->
  (forall r, r ∈ event_outbox db -> p r = true -> row_step now c r (f r)) -> evolves now c db db'.
Proof.
  intros He Hs Hf. split_and!; [| |lia]; rewrite He; intros r Hr.
  - left. destruct (p r) eqn:E.
    + exists (f r). split; [|by apply Hf]. apply elem_update_where. left. eauto.
    + exists r. split; [|constructor]. apply elem_update_where. by right.
  - left. apply elem_update_where in Hr as [(x & Hx & E & ->)|[Hr E]].
    + exists x. split; [done|by apply Hf].
    + exists r. split; [done|constructor].
Qed.

Lemma insert_facts_Ok d now facts db db' u :
  insert_facts d now facts db = (db', Ok u) -> Forall (fun f => validateOutboxFact f = None) facts ->
  exists rows, event_outbox db' = event_outbox db ++ rows /\
    event_outbox_delivered db' = event_outbox_delivered db /\
    outbox_seq db' = outbox_seq db + Z.of_nat (length facts) /\
    (facts = [] \/ outbox_seq db' <= MaxInt64) /\
    rows = zip_with (fun id f => fact_row id now f) (seqZ (outbox_seq db + 1) (Z.of_nat (length facts))) facts.
Proof.
  revert db. induction facts as [|f facts IH]; intros db H Hv; cbn in H.
  { injection H as <- _. exists []. rewrite app_nil_r. split_and!; cbn; [done|done|lia|by left|done]. }
  apply bind_Ok in H as (db1 & [] & H1 & H2). apply list.Forall_cons in Hv as [_ Hv].
  unfold insertOutboxFact in H1. unfold outbox_violation in H1.
  repeat (case_match; try done). injection H1 as <-. rewrite Z.leb_gt in *.
  destruct (IH _ H2 Hv) as (rows & He & Hd & Hs & Hm & ->). cbn in *. rewrite He, Hd, Hs.
  eexists. rewrite <- app_assoc. split_and!; [done|done|lia| |].
  - right. destruct Hm as [->|Hm]; [cbn in *; lia|lia].
  - cbn [length]. rewrite (seqZ_cons _ (Z.of_nat (S _))) by lia. cbn [zip_with app]. f_equal.
    f_equal. f_equal; lia.
Qed.

Lemma validateOutboxFacts_Forall facts :
  validateOutboxFacts facts = None -> Forall (fun f => validateOutboxFact f = None) facts.
Proof.
  unfold validateOutboxFacts. destruct (length facts =? 0)%nat; [done|].
  induction facts as [|f l IH]; cbn; [constructor|]. destruct (validateOutboxFact f) eqn:E; [done|].
  intros H. constructor; [done|by apply IH].
Qed.

Lemma insert_evolves d now c facts db :
  validateOutboxFacts facts = None ->
  evolves (UnixNano now) c db (fst (in_tx (insertOutboxFacts d now facts) db)).
Proof.
  intros Hv%validateOutboxFacts_Forall. unfold in_tx, insertOutboxFacts.
  destruct (insert_facts _ _ _ db) as [db' [[]|e]] eqn:E; [|apply evolves_same].
  apply insert_facts_Ok in E as (rows & He & _ & Hs & _ & ->); [|done]. cbn [fst].
  split_and!; [| |lia]; rewrite He; intros r Hr.
  - left. exists r. split; [|constructor]. apply elem_of_app. by left.
  - apply elem_of_app in Hr as [Hr|Hr]; [left; exists r; split; [done|constructor]|right].
    apply list_elem_of_lookup in Hr as [i Hr]. rewrite lookup_zip_with in Hr.
    destruct (seqZ _ _ !! i) as [j|] eqn:Ej; [|done]. destruct (facts !! i) as [f|] eqn:Ef; [|done].
    cbn in Hr. injection Hr as <-. apply lookup_seqZ in Ej as [-> Hi].
    eexists _, f. split; [done|]. split; [lia|].
    rewrite list.Forall_forall in Hv. apply Hv. by eapply list_elem_of_lookup_2.
Qed.

Lemma claim_evolves d ctx locked now now1 owner token limit ttl c db :
  ids_unique db ->
  evolves (UnixNano now) c db (fst (ClaimEventOutbox d ctx locked now now1 owner token limit ttl db)).
Proof.
  intros Hn. pose proof (ClaimEventOutbox_run d ctx locked now now1 owner token limit ttl db Hn) as H.
  destruct (ClaimEventOutbox _ _ _ _ _ _ _ _ _ db) as [db' [facts|e]]; cbn zeta in H; cbn [fst]; [|subst; apply evolves_same].
  destruct H as (Ho & Ht & _ & _ & -> & _). eapply evolves_update; [done|done|].
  intros r Hr Hin%has_id_true. apply list_elem_of_fmap in Hin as (x & Ex & Hx).
  apply due_rows_sub in Hx as (Hx & Hd & _). rewrite (NoDup_map_inj ob_id _ r x Hn Hr Hx Ex).
  by constructor.
Qed.

Lemma holds_claim_id id owner token now r : holds_claim id owner token now r = true -> ob_id r = id.
Proof. unfold holds_claim. intros H. bool_split. by apply Z.eqb_eq. Qed.

Lemma complete_evolves d ctx now id owner token db :
  evolves (UnixNano now) (CallComplete ctx id owner token) db (fst (CompleteEventOutbox d ctx now id owner token db)).
Proof.
  unfold CompleteEventOutbox, with_ctx. rewrite run_guard. destruct ctx; [apply evolves_same|].
  unfold in_tx. destruct (bind _ _ db) as [db' [[]|e]] eqn:E; [|apply evolves_same].
  apply bind_Ok in E as (db1 & n & E1 & E). unfold update_outbox in E1. injection E1 as <- <-. prog_inv.
  injection E as <-. eapply evolves_update; [done|done|].
  intros r Hr Hc. pose proof (holds_claim_id _ _ _ _ _ Hc) as <-. by econstructor.
Qed.

Lemma retry_evolves d ctx now id owner token lastErr next maxAttempts db :
  evolves (UnixNano now) (CallRetry ctx id owner token lastErr next maxAttempts) db
    (fst (RetryEventOutbox d ctx now id owner token lastErr next maxAttempts db)).
Proof.
  unfold RetryEventOutbox, with_ctx. rewrite run_guard. destruct ctx; [apply evolves_same|].
  rewrite run_refuse. destruct (pg_bad_text _ _); [apply evolves_same|].
  unfold bind, update_outbox.
  match goal with |- evolves _ _ _ (fst (refuse_if ?b ?e ?s)) => replace (fst (refuse_if b e s)) with s by by destruct b end.
  eapply evolves_update; [done|done|].
  intros r Hr Hc. pose proof (holds_claim_id _ _ _ _ _ Hc) as <-. econstructor; [done|done|].
  destruct (maxAttempts <=? 0) eqn:Em; [done|]. apply Z.leb_gt in Em. lia.
Qed.

Definition pruned_rows (deliveredBefore failedBefore : time) (l : list OutboxRow) : list OutboxRow :=
  delete_where (failed_before (UnixNano failedBefore)) (delete_where (delivered_before (UnixNano deliveredBefore)) l).

(** The state a prune leaves. *)
Lemma PruneEventOutbox_run ctx db1 db2 db :
  PruneEventOutbox ctx db1 db2 db =
  if IsZero db1 || IsZero db2 then (db, Err (NewError "event outbox prune times are required"))
  else match ctx with
  | Some e => (db, Err e)
  | None =>
      ({| event_outbox := pruned_rows db1 db2 (event_outbox db);
          event_outbox_delivered :=
            delete_where (fun o => existsb (fun r => (ob_id r =? od_outbox_id o) &&
                                              delivered_before (UnixNano db1) r) (event_outbox db))
              (event_outbox_delivered db);
          outbox_seq := outbox_seq db |},
       Ok (Z.of_nat (length (List.filter (delivered_before (UnixNano db1)) (event_outbox db))) +
           Z.of_nat (length (List.filter (failed_before (UnixNano db2))
              (delete_where (delivered_before (UnixNano db1)) (event_outbox db))))))
  end.
Proof.
  unfold PruneEventOutbox. rewrite run_refuse. destruct (_ || _); [done|].
  unfold with_ctx. rewrite run_guard. by destruct ctx.
Qed.

Lemma prune_evolves ctx deliveredBefore failedBefore now db :
  evolves now (CallPrune ctx deliveredBefore failedBefore) db (fst (PruneEventOutbox ctx deliveredBefore failedBefore db)).
Proof.
  rewrite PruneEventOutbox_run. destruct (_ || _); [apply evolves_same|].
  destruct ctx; [apply evolves_same|]. cbn [fst]. split_and!; [| |done]; cbn [event_outbox]; intros r Hr.
  - destruct (terminal r) eqn:E; [by right|left]. exists r. split; [|constructor].
    unfold terminal, contains in E. cbn in E. autorewrite with aero in E. destruct E as (E1 & E2 & _).
    unfold pruned_rows. rewrite !elem_delete_where. unfold delivered_before, failed_before.
    split; [split; [done|]|]; apply andb_false_iff; left; by apply streqb_false.
  - left. exists r. split; [|constructor]. unfold pruned_rows in Hr. by rewrite !elem_delete_where in Hr; destruct_and?.
Qed.

Lemma run_call_evolves d now c db : ids_unique db -> evolves (UnixNano now) c db (run_call d now c db).
Proof.
  intros Hn. destruct c as [facts|ctx locked now1 owner token limit ttl|ctx id owner token|ctx id owner token le next m|ctx b1 b2];
    cbn [run_call].
  - destruct (validateOutboxFacts facts) eqn:E; [apply evolves_same|by apply insert_evolves].
  - by apply claim_evolves.
  - apply complete_evolves.
  - apply retry_evolves.
  - apply prune_evolves.
Qed.

(** ** The invariant *)

Definition row_fact (r : OutboxRow) : OutboxFact := {|
  of_EventType := ob_event_type r; of_OriginID := ob_origin_id r; of_TenantID := ob_tenant_id r;
  of_Payload := ob_payload r |}.

(** A claim is on a row exactly while it is inflight. *)
Definition row_ok (r : OutboxRow) : Prop :=
  validateOutboxFact (row_fact r) = None /\
  ((ob_status r = "inflight" /\ ob_claim_owner r <> "" /\ ob_claim_token r <> "" /\ 1 <= ob_attempts r) \/
   (ob_status r ∈ ["pending"; "delivered"; "failed"] /\ ob_claim_owner r = "" /\ ob_claim_token r = "" /\
    ob_lease_expires_at_ns r = 0 /\ 0 <= ob_attempts r))%string.

Definition delivered_ids (db : OutboxDB) : list Z := map od_outbox_id (event_outbox_delivered db).

Record outbox_inv (db : OutboxDB) : Prop := {
  inv_seq : 0 <= outbox_seq db;
  inv_ids : ids_unique db;
  inv_rows : forall r, r ∈ event_outbox db -> 0 < ob_id r <= outbox_seq db /\ row_ok r;
  inv_delivered : NoDup (delivered_ids db);
  inv_record : forall id, id ∈ delivered_ids db <->
    exists r, r ∈ event_outbox db /\ ob_id r = id /\ ob_status r = "delivered"%string
}.

Lemma row_step_id now c r r' : row_step now c r r' -> ob_id r' = ob_id r /\ row_fact r' = row_fact r.
Proof. by destruct 1. Qed.

Lemma outbox_due_status now r : outbox_due now r = true -> ob_status r = "pending"%string \/ ob_status r = "inflight"%string.
Proof.
  unfold outbox_due. rewrite orb_true_iff, !andb_true_iff, !streqb_true. tauto.
Qed.

Lemma holds_claim_row id owner token now r :
  holds_claim id owner token now r = true <->
  ob_id r = id /\ ob_status r = "inflight"%string /\ ob_claim_owner r = owner /\ ob_claim_token r = token /\
  now < ob_lease_expires_at_ns r.
Proof. unfold holds_claim. autorewrite with aero. rewrite Z.eqb_eq, Z.ltb_lt. tauto. Qed.

Lemma row_step_ok now c r r' : row_step now c r r' -> row_ok r -> row_ok r'.
Proof.
  intros Hs [Hf Hr]. split; [by rewrite (proj2 (row_step_id _ _ _ _ Hs))|].
  destruct Hs as [|owner token until Hd Ho Ht|owner token _ Hc|owner token m next le _ Hc _]; [done|..]; cbn.
  - left. split_and!; [done|done|done|]. destruct Hr as [(_ & _ & _ & ?)|(_ & _ & _ & _ & ?)]; lia.
  - right. apply holds_claim_row in Hc as (_ & Hi & _). split_and!; try done; [set_solver|].
    destruct Hr as [(_ & _ & _ & ?)|(_ & _ & _ & _ & ?)]; lia.
  - right. split_and!; try done; [destruct (m <=? _); set_solver|].
    destruct Hr as [(_ & _ & _ & ?)|(_ & _ & _ & _ & ?)]; lia.
Qed.

(** Only a completion makes a row delivered, and nothing undoes it. *)
Lemma row_step_delivered now c r r' :
  row_step now c r r' -> (forall owner token, ~ completes c (ob_id r) owner token) ->
  ob_status r' = "delivered"%string <-> ob_status r = "delivered"%string.
Proof.
  intros Hs Hc. destruct Hs as [|owner token until Hd Ho Ht|owner token Ha Hh|owner token m next le Ha Hh _]; [done|..].
  - cbn. split; [done|]. intros E. destruct (outbox_due_status _ _ Hd); congruence.
  - by destruct (Hc owner token).
  - apply holds_claim_row in Hh as (_ & Hi & _). cbn. rewrite Hi. by destruct (m <=? _).
Qed.

Lemma terminal_status r : terminal r = true <-> ob_status r = "delivered"%string \/ ob_status r = "failed"%string.
Proof. unfold terminal. rewrite contains_spec. set_solver. Qed.

(** A terminal row does not change. *)
Lemma row_step_terminal now c r r' : row_step now c r r' -> terminal r = true -> r' = r.
Proof.
  intros Hs Ht%terminal_status. destruct Hs as [|owner token until Hd Ho Htk|owner token Ha Hh|owner token m next le Ha Hh _]; [done|..].
  - destruct (outbox_due_status _ _ Hd), Ht; congruence.
  - apply holds_claim_row in Hh as (_ & Hi & _). destruct Ht; congruence.
  - apply holds_claim_row in Hh as (_ & Hi & _). destruct Ht; congruence.
Qed.

Lemma insert_ids d now facts db db' :
  outbox_inv db -> validateOutboxFacts facts = None -> in_tx (insertOutboxFacts d now facts) db = (db', Ok tt) ->
  ids_unique db' /\ event_outbox_delivered db' = event_outbox_delivered db.
Proof.
  intros [_ Hids Hrows _ _] Hv%validateOutboxFacts_Forall Hi%in_tx_Ok.
  apply insert_facts_Ok in Hi as (rows & He & Hd & Hs & _ & ->); [|done]. split; [|done].
  unfold ids_unique. rewrite He, map_app.
  change (map ob_id (zip_with _ _ _)) with (ob_id <$> zip_with (fun id f => fact_row id (UnixNano now) f)
    (seqZ (outbox_seq db + 1) (Z.of_nat (length facts))) facts).
  rewrite fmap_zip_with_l; [|done|by rewrite length_seqZ, Nat2Z.id].
  apply list.NoDup_app. split_and!; [done| |apply NoDup_seqZ].
  intros id (r & -> & Hr)%list_elem_of_fmap Hid%elem_of_seqZ. destruct (Hrows r Hr) as [? _]. lia.
Qed.

Lemma run_call_ids d now c db : outbox_inv db -> ids_unique (run_call d now c db).
Proof.
  intros Hinv. pose proof (inv_ids _ Hinv) as Hn.
  destruct c as [facts|ctx locked now1 owner token limit ttl|ctx id owner token|ctx id owner token le next m|ctx b1 b2];
    cbn [run_call].
  - destruct (validateOutboxFacts facts) eqn:E; [done|].
    destruct (in_tx _ db) as [db' [[]|e]] eqn:Ei; [by apply (insert_ids d now facts db) in Ei as [? _]|].
    by apply in_tx_Err in Ei as ->.
  - pose proof (ClaimEventOutbox_run d ctx locked now now1 owner token limit ttl db Hn) as H.
    destruct (ClaimEventOutbox _ _ _ _ _ _ _ _ _ db) as [db' [facts|e]]; cbn zeta in H; cbn [fst]; [|by subst].
    destruct H as (_ & _ & _ & _ & -> & _). unfold ids_unique. by rewrite claimed_ids.
  - unfold CompleteEventOutbox, with_ctx. rewrite run_guard. destruct ctx; [done|].
    unfold in_tx. destruct (bind _ _ db) as [db' [[]|e]] eqn:E; [|done].
    apply bind_Ok in E as (db1 & n & E1 & E). unfold update_outbox in E1. injection E1 as <- <-. prog_inv.
    injection E as <-. unfold ids_unique. cbn. by rewrite map_update_where.
  - unfold RetryEventOutbox, with_ctx. rewrite run_guard. destruct ctx; [done|].
    rewrite run_refuse. destruct (pg_bad_text _ _); [done|]. unfold bind, update_outbox.
    match goal with |- ids_unique (fst (refuse_if ?b ?e ?s)) => replace (fst (refuse_if b e s)) with s by by destruct b end.
    unfold ids_unique. cbn. by rewrite map_update_where.
  - rewrite PruneEventOutbox_run. destruct (_ || _); [done|]. destruct ctx; [done|].
    unfold ids_unique. cbn. by do 2 apply map_delete_where_NoDup.
Qed.

(** The fidelity record follows the status. *)
Lemma record_kept now c db db' :
  evolves now c db db' -> event_outbox_delivered db' = event_outbox_delivered db ->
  (forall id owner token, ~ completes c id owner token) -> ~ prunes c -> outbox_inv db ->
  forall id, id ∈ delivered_ids db' <->
    exists r, r ∈ event_outbox db' /\ ob_id r = id /\ ob_status r = "delivered"%string.
Proof.
  intros (Hfwd & Hback & _) Hd Hc Hp Hinv id. unfold delivered_ids. rewrite Hd.
  change (map od_outbox_id (event_outbox_delivered db)) with (delivered_ids db).
  rewrite (inv_record _ Hinv). split; intros (r & Hr & Hid & Hs).
  - destruct (Hfwd r Hr) as [(r' & Hr' & Hst)|[_ ?]]; [|done]. exists r'. split; [done|].
    rewrite (proj1 (row_step_id _ _ _ _ Hst)). split; [done|]. by apply (row_step_delivered _ _ _ _ Hst).
  - destruct (Hback r Hr) as [(x & Hx & Hst)|(i & f & -> & _)]; [|done]. exists x. split; [done|].
    rewrite <- (proj1 (row_step_id _ _ _ _ Hst)). split; [done|]. by apply (row_step_delivered _ _ _ _ Hst).
Qed.

Definition record_ok (db : OutboxDB) : Prop :=
  NoDup (delivered_ids db) /\
  forall id, id ∈ delivered_ids db <->
    exists r, r ∈ event_outbox db /\ ob_id r = id /\ ob_status r = "delivered"%string.

Lemma complete_record d ctx now id owner token db :
  outbox_inv db -> record_ok (fst (CompleteEventOutbox d ctx now id owner token db)).
Proof.
  intros Hinv. assert (record_ok db) as Hdb by (split; apply Hinv).
  unfold CompleteEventOutbox, with_ctx. rewrite run_guard. destruct ctx; [done|].
  unfold in_tx. destruct (bind _ _ db) as [db' [[]|e]] eqn:E; [|done].
  apply bind_Ok in E as (db1 & n & E1 & E). unfold update_outbox in E1. injection E1 as <- <-.
  apply bind_Ok in E as (db1 & [] & [-> Hn]%refuse_if_Ok & E).
  apply bind_Ok in E as (db1 & [] & [-> Hcl]%guard_Ok & E). apply writes_Ok in E. injection E as <-. cbn [fst].
  destruct (clash _ _ _) eqn:Ec; [done|]. apply clash_false in Ec. cbn in Ec. destruct Hdb as [Hnd Hrec].
  assert (exists r, r ∈ event_outbox db /\ holds_claim id owner token (UnixNano now) r = true) as (r & Hr & Hh).
  { destruct (List.filter _ (event_outbox db)) as [|r l] eqn:Ef; [done|]. exists r. apply elem_filter_b. rewrite Ef. by left. }
  pose proof (holds_claim_id _ _ _ _ _ Hh) as <-.
  split; unfold delivered_ids; cbn [event_outbox event_outbox_delivered set_delivered set_event_outbox]; rewrite map_app; cbn [map].
  - apply list.NoDup_app. split_and!; [done| |apply list.NoDup_singleton].
    intros x Hx Hx'%list_elem_of_singleton. cbn in Hx'. by subst.
  - intros i. rewrite elem_of_app, list_elem_of_singleton. cbn. change (map od_outbox_id (event_outbox_delivered db)) with (delivered_ids db).
    rewrite Hrec. split.
    + intros [(x & Hx & Hi & Hs)| ->].
      * exists x. split; [|done]. apply elem_update_where. right. split; [done|].
        destruct (holds_claim _ _ _ _ x) eqn:Ex; [|done]. apply holds_claim_row in Ex as (_ & Ex & _). congruence.
      * exists (complete_row (UnixNano now) r). split; [|done]. apply elem_update_where. left. eauto.
    + intros (x & [(y & Hy & Hhy & ->)|[Hx _]]%elem_update_where & Hi & Hs); [right|left; eauto].
      apply holds_claim_id in Hhy. cbn in Hi. congruence.
Qed.

Lemma prune_record ctx b1 b2 db : outbox_inv db -> record_ok (fst (PruneEventOutbox ctx b1 b2 db)).
Proof.
  intros Hinv. assert (record_ok db) as [Hnd Hrec] by (split; apply Hinv).
  rewrite PruneEventOutbox_run. destruct (_ || _); [done|]. destruct ctx; [done|]. cbn [fst].
  set (gone := fun o => existsb _ (event_outbox db)).
  split; unfold delivered_ids; cbn [event_outbox event_outbox_delivered]; [by apply map_delete_where_NoDup|].
  intros id. split.
  - intros (o & -> & [Ho Hg]%elem_delete_where)%list_elem_of_fmap.
    destruct (proj1 (Hrec (od_outbox_id o))) as (r & Hr & Hid & Hs); [by apply list_elem_of_fmap_2|].
    exists r. split; [|done]. unfold pruned_rows. rewrite !elem_delete_where. unfold gone in Hg.
    rewrite existsb_none in Hg. specialize (Hg r Hr). rewrite Hid, Z.eqb_refl in Hg. cbn in Hg.
    split; [by split|]. unfold failed_before. by rewrite Hs.
  - intros (r & Hr & <- & Hs). unfold pruned_rows in Hr. rewrite !elem_delete_where in Hr. destruct Hr as [[Hr Hd] _].
    assert (ob_id r ∈ delivered_ids db) as Hin by (apply Hrec; eauto). apply list_elem_of_fmap in Hin as (o & Ho & Hin).
    rewrite Ho. apply list_elem_of_fmap_2, elem_delete_where. split; [done|].
    apply existsb_none. intros x Hx. destruct (Z.eqb_spec (ob_id x) (od_outbox_id o)) as [E|]; [|done].
    assert (x = r) as -> by (apply (NoDup_map_inj ob_id _ x r (inv_ids _ Hinv)); congruence). by rewrite Hd.
Qed.

(** Only completions and prunes write the record. *)
Lemma run_call_record d now c db :
  ids_unique db -> (forall id owner token, ~ completes c id owner token) -> ~ prunes c ->
  event_outbox_delivered (run_call d now c db) = event_outbox_delivered db.
Proof.
  intros Hn Hc Hp.
  destruct c as [facts|ctx locked now1 owner token limit ttl|ctx id owner token|ctx id owner token le next m|ctx b1 b2];
    cbn [run_call].
  - destruct (validateOutboxFacts facts) eqn:E; [done|].
    destruct (in_tx _ db) as [db' [[]|e]] eqn:Ei; [|by apply in_tx_Err in Ei as ->]. apply in_tx_Ok in Ei.
    by apply insert_facts_Ok in Ei as (rows & _ & Hd & _); [|apply validateOutboxFacts_Forall].
  - pose proof (ClaimEventOutbox_run d ctx locked now now1 owner token limit ttl db Hn) as H.
    destruct (ClaimEventOutbox _ _ _ _ _ _ _ _ _ db) as [db' [facts|e]]; cbn zeta in H; [|by subst].
    by destruct H as (_ & _ & _ & _ & -> & _).
  - by destruct (Hc id owner token).
  - unfold RetryEventOutbox, with_ctx. rewrite run_guard. destruct ctx; [done|].
    rewrite run_refuse. destruct (pg_bad_text _ _); [done|]. unfold bind, update_outbox. by destruct (negb _).
  - done.
Qed.

Lemma run_call_inv d now c db : outbox_inv db -> outbox_inv (run_call d now c db).
Proof.
  intros Hinv. pose proof (run_call_evolves d now c db (inv_ids _ Hinv)) as He.
  assert (record_ok (run_call d now c db)) as [Hn Hr].
  { assert ((forall id owner token, ~ completes c id owner token) -> ~ prunes c ->
            record_ok (run_call d now c db)) as Hother.
    { intros Hc Hp. pose proof (run_call_record d now c db (inv_ids _ Hinv) Hc Hp) as Hd.
      split; [unfold delivered_ids; rewrite Hd; apply Hinv|by eapply record_kept]. }
    destruct c; try solve [apply Hother; [intros ??? []|intros []]]; [by apply complete_record|by apply prune_record]. }
  destruct He as (_ & Hback & Hseq). pose proof (inv_seq _ Hinv).
  split; [lia|by apply run_call_ids| |done|done].
  intros r' Hr'. destruct (Hback r' Hr') as [(r & Hin & Hst)|(id & f & -> & Hid & Hf)].
  - destruct (inv_rows _ Hinv r Hin) as [Hb Hok]. rewrite (proj1 (row_step_id _ _ _ _ Hst)).
    split; [lia|by eapply row_step_ok].
  - cbn. split; [lia|]. split; [by destruct f|]. right. cbn. set_solver.
Qed.

Lemma outbox_reach_inv d db : outbox_reachable d db -> outbox_inv db.
Proof.
  intros Hr. apply (rtc_ind_r (R := outbox_step d) (fun s => outbox_inv s) empty_outbox);
    [|intros y z _ (now & c & <-) Hy; by apply run_call_inv|done].
  split; cbn; [lia|constructor|by intros r ?%not_elem_of_nil|constructor|].
  intros id. split; [by intros ?%not_elem_of_nil|by intros (r & ?%not_elem_of_nil & _)].
Qed.

(** ** Claims and leases *)

Lemma due_le_spec a b : due_le a b = true <->
  ob_available_at_ns a < ob_available_at_ns b \/
  (ob_available_at_ns a = ob_available_at_ns b /\
   (ob_created_at_ns a < ob_created_at_ns b \/ (ob_created_at_ns a = ob_created_at_ns b /\ ob_id a <= ob_id b))).
Proof.
  unfold due_le, then_by.
  destruct (Z.ltb_spec (ob_available_at_ns a) (ob_available_at_ns b)), (Z.ltb_spec (ob_available_at_ns b) (ob_available_at_ns a));
  destruct (Z.ltb_spec (ob_created_at_ns a) (ob_created_at_ns b)), (Z.ltb_spec (ob_created_at_ns b) (ob_created_at_ns a));
  rewrite ?Z.leb_le; split; intros; try done; lia.
Qed.

Lemma due_le_trans a b c : due_le a b = true -> due_le b c = true -> due_le a c = true.
Proof. rewrite !due_le_spec. lia. Qed.
Lemma due_le_total a b : due_le a b = true \/ due_le b a = true.
Proof. rewrite !due_le_spec. lia. Qed.

(** The first rows of a sorted list precede the others. *)
Lemma due_rows_first now limit p db x y :
  x ∈ due_rows now limit p db -> y ∈ event_outbox db -> outbox_due now y = true -> p y = true ->
  y ∉ due_rows now limit p db -> due_le x y = true.
Proof.
  unfold due_rows. set (l := List.filter _ _). intros Hx Hy Hd Hp Hn.
  assert (Sorted (fun a b => Is_true (due_le a b)) (sort_by due_le l)) as Hs.
  { apply Sorted_merge_sort. intros a b. destruct (due_le_total a b) as [H|H]; [left|right]; by rewrite H. }
  apply Sorted_StronglySorted in Hs; [|intros a b c H1 H2; apply Is_true_eq_true in H1, H2;
    apply Is_true_eq_left; by eapply due_le_trans].
  assert (y ∈ drop (Z.to_nat limit) (sort_by due_le l)) as Hy'.
  { assert (y ∈ sort_by due_le l) as H.
    { apply elem_sort_by, elem_filter_b. split; [done|]. by rewrite Hd, Hp. }
    rewrite <- (take_drop (Z.to_nat limit) (sort_by due_le l)), elem_of_app in H. by destruct H. }
  rewrite <- (take_drop (Z.to_nat limit) (sort_by due_le l)) in Hs.
  revert Hs Hx Hy'. generalize (take (Z.to_nat limit) (sort_by due_le l)) (drop (Z.to_nat limit) (sort_by due_le l)).
  intros l1 l2 Hs Hx Hy'. induction l1 as [|z l1 IH]; [by apply not_elem_of_nil in Hx|].
  cbn in Hs. apply StronglySorted_inv in Hs as [Hs Hz]. apply elem_of_cons in Hx as [->|Hx]; [|by apply IH].
  rewrite list.Forall_forall in Hz. apply Is_true_eq_true, Hz. apply elem_of_app. by right.
Qed.

(** A claim answers with distinct facts that were due and not locked, at most the
    limit of them, and with no due fact it could have taken before one it took; the rows
    of exactly these facts become inflight under the claim, with one more attempt, and
    no other row changes. *)
Theorem claim_takes_oldest d ctx locked now0 now1 owner token limit ttl db db' facts :
  outbox_inv db ->
  ClaimEventOutbox d ctx locked now0 now1 owner token limit ttl db = (db', Ok facts) ->
  exists L, facts ≡ₚ claim_facts owner token (lease_until d now0 now1 ttl) L /\
    db' = claimed owner token (lease_until d now0 now1 ttl) L db /\
    NoDup (map ob_id L) /\ L ⊆ event_outbox db /\
    Z.of_nat (length L) = Z.min (claim_limit limit)
      (Z.of_nat (length (List.filter (fun r => outbox_due (UnixNano now0) r && claimable d locked r) (event_outbox db)))) /\
    (forall x, x ∈ L -> outbox_due (UnixNano now0) x = true /\ claimable d locked x = true) /\
    (forall x y, x ∈ L -> y ∈ event_outbox db -> outbox_due (UnixNano now0) y = true ->
       claimable d locked y = true -> y ∉ L -> due_le x y = true).
Proof.
  intros Hinv H. pose proof (inv_ids _ Hinv) as Hn.
  pose proof (ClaimEventOutbox_run d ctx locked now0 now1 owner token limit ttl db Hn) as Hrun.
  rewrite H in Hrun. cbn zeta in Hrun. destruct Hrun as (_ & _ & _ & _ & -> & Hf).
  exists (claim_rows d locked now0 limit db). unfold claim_rows. split_and!; [done|done|by apply due_rows_NoDup| | | |].
  - intros x Hx. by apply due_rows_sub in Hx as [? _].
  - unfold due_rows. rewrite length_take. unfold sort_by. rewrite merge_sort_Permutation.
    assert (0 <= claim_limit limit).
    { unfold claim_limit. destruct (_ || _) eqn:E; [done|]. bool_split. rewrite Z.leb_gt in *. lia. }
    lia.
  - intros x Hx. by apply due_rows_sub in Hx as (_ & ? & ?).
  - intros x y Hx Hy Hd Hp Hny. by eapply due_rows_first.
Qed.

(** C36: while a lease lasts, no call but the holder's own completion or retry touches
    the fact: it is not claimed again, delivered, rescheduled or pruned. *)
Theorem live_lease_excludes d db now c r :
  outbox_reachable d db -> r ∈ event_outbox db -> ob_status r = "inflight"%string ->
  UnixNano now < ob_lease_expires_at_ns r ->
  ~ acts_for c (ob_id r) (ob_claim_owner r) (ob_claim_token r) ->
  r ∈ event_outbox (run_call d now c db).
Proof.
  intros Hr Hin Hs Hl Hc. apply outbox_reach_inv in Hr.
  destruct (run_call_evolves d now c db (inv_ids _ Hr)) as (Hfwd & _).
  destruct (Hfwd r Hin) as [(r' & Hr' & Hst)|[Ht _]].
  - destruct Hst as [|owner token until Hd _ _|owner token Ha Hh|owner token m next le Ha Hh _]; [done|..].
    + unfold outbox_due in Hd. rewrite Hs in Hd. cbn in Hd. apply Z.leb_le in Hd. lia.
    + apply holds_claim_row in Hh as (_ & _ & <- & <- & _). destruct Hc. by left.
    + apply holds_claim_row in Hh as (_ & _ & <- & <- & _). destruct Hc. by right.
  - apply terminal_status in Ht as [Ht|Ht]; congruence.
Qed.

(** A delivered or failed fact is final: after any further calls its row is the same
    row or has been pruned, and its id is never used again. *)
Theorem terminal_is_final d db db' r :
  outbox_reachable d db -> r ∈ event_outbox db -> terminal r = true -> rtc (outbox_step d) db db' ->
  forall r', r' ∈ event_outbox db' -> ob_id r' = ob_id r -> r' = r.
Proof.
  intros Hr Hin Ht Hrun.
  assert (outbox_inv db' /\ ob_id r <= outbox_seq db' /\ forall r', r' ∈ event_outbox db' -> ob_id r' = ob_id r -> r' = r) as (_ & _ & H); [|done].
  apply outbox_reach_inv in Hr. pose proof (inv_rows _ Hr r Hin) as [Hb _].
  assert (forall x, x ∈ event_outbox db -> ob_id x = ob_id r -> x = r) as H0.
  { intros x Hx E. by apply (NoDup_map_inj ob_id _ x r (inv_ids _ Hr)). }
  clear Hin. induction Hrun as [db|db db1 db2 (now & c & <-) _ IH]; [split_and!; [done|lia|done]|].
  destruct (run_call_evolves d now c db (inv_ids _ Hr)) as (_ & Hback & Hseq).
  apply IH; [by apply run_call_inv|lia|]. intros x Hx E.
  destruct (Hback x Hx) as [(y & Hy & Hst)|(id & f & -> & Hid & _)].
  - rewrite (proj1 (row_step_id _ _ _ _ Hst)) in E. rewrite (H0 y Hy E) in Hst. by apply (row_step_terminal _ _ _ _ Hst).
  - cbn in E. lia.
Qed.

(** No call loses or alters an undelivered fact: its row stays, with the same id,
    type, origin, tenant and payload. *)
Theorem facts_are_kept d db now c r :
  outbox_reachable d db -> r ∈ event_outbox db -> terminal r = false ->
  exists r', r' ∈ event_outbox (run_call d now c db) /\ ob_id r' = ob_id r /\ row_fact r' = row_fact r.
Proof.
  intros Hr Hin Ht. apply outbox_reach_inv in Hr.
  destruct (run_call_evolves d now c db (inv_ids _ Hr)) as (Hfwd & _).
  destruct (Hfwd r Hin) as [(r' & Hr' & Hst)|[Ht' _]]; [|congruence].
  exists r'. split; [done|]. by eapply row_step_id.
Qed.

(** Completion, with and without the claim. *)
Lemma complete_run d now id owner token db :
  outbox_inv db ->
  match List.find (holds_claim id owner token (UnixNano now)) (event_outbox db) with
  | Some r =>
      CompleteEventOutbox d None now id owner token db =
      (set_delivered (event_outbox_delivered db ++ [{| od_outbox_id := id; od_delivered_at_ns := UnixNano now |}])
         (set_event_outbox (update_where (fun x => ob_id x =? id) (complete_row (UnixNano now)) (event_outbox db)) db),
       Ok tt)
  | None => CompleteEventOutbox d None now id owner token db = (db, Err errEventOutboxClaimLost)
  end.
Proof.
  intros Hr. pose proof (inv_ids _ Hr) as Hn.
  unfold CompleteEventOutbox, with_ctx. rewrite run_guard. unfold in_tx, bind, update_outbox.
  set (p := holds_claim id owner token (UnixNano now)).
  destruct (List.find p (event_outbox db)) as [r|] eqn:E.
  - apply find_some in E as [Hin%list_elem_of_In Hp].
    assert (forall y, y ∈ event_outbox db -> p y = true -> ob_id y = ob_id r) as Hu.
    { intros y _ Hy. apply holds_claim_id in Hy, Hp. congruence. }
    rewrite (filter_unique ob_id p (event_outbox db) r Hn Hin Hp Hu). cbn [length Z.of_nat Pos.of_succ_nat].
    pose proof (holds_claim_id _ _ _ _ _ Hp) as Hid.
    assert (update_where p (complete_row (UnixNano now)) (event_outbox db) =
            update_where (fun x => ob_id x =? id) (complete_row (UnixNano now)) (event_outbox db)) as ->.
    { apply update_where_ext. intros x Hx. destruct (Z.eqb_spec (ob_id x) id) as [Ex|Ex].
      - by rewrite (NoDup_map_inj ob_id _ x r Hn Hx Hin ltac:(congruence)).
      - destruct (p x) eqn:Epx; [|done]. by apply holds_claim_id in Epx. }
    change (refuse_if (negb (Z.of_nat 1 =? 1))) with (@refuse_if OutboxDB false).
    unfold refuse_if, ret, guard. cbn iota. cbn [event_outbox_delivered set_event_outbox].
    destruct (clash od_outbox_id (event_outbox_delivered db) id) eqn:Ec; [|done]. apply clash_true, (inv_record _ Hr) in Ec as (x & Hx & Hxi & Hs).
    assert (x = r) as -> by (apply (NoDup_map_inj ob_id _ x r Hn Hx Hin); congruence).
    apply holds_claim_row in Hp as (_ & Hp & _). congruence.
  - rewrite filter_none; [done|]. intros x Hx. apply (find_none _ _ E). by apply list_elem_of_In.
Qed.

(** Completion succeeds exactly for the holder of a live claim, which it ends with
    one delivered row and one fidelity record; otherwise it answers "claim lost" and
    changes nothing. *)
Theorem CompleteEventOutbox_iff d now id owner token db :
  outbox_reachable d db ->
  match List.find (holds_claim id owner token (UnixNano now)) (event_outbox db) with
  | Some r =>
      CompleteEventOutbox d None now id owner token db =
      (set_delivered (event_outbox_delivered db ++ [{| od_outbox_id := id; od_delivered_at_ns := UnixNano now |}])
         (set_event_outbox (update_where (fun x => ob_id x =? id) (complete_row (UnixNano now)) (event_outbox db)) db),
       Ok tt)
  | None => CompleteEventOutbox d None now id owner token db = (db, Err errEventOutboxClaimLost)
  end.
Proof. intros Hr%outbox_reach_inv. by apply complete_run. Qed.

(** What the holder's calls leave of a row. *)
Lemma complete_settles d now r db :
  outbox_inv db -> r ∈ event_outbox db ->
  holds_claim (ob_id r) (ob_claim_owner r) (ob_claim_token r) (UnixNano now) r = true ->
  complete_row (UnixNano now) r ∈
    event_outbox (run_call d now (CallComplete None (ob_id r) (ob_claim_owner r) (ob_claim_token r)) db).
Proof.
  intros Hinv Hr Hh. pose proof (complete_run d now (ob_id r) (ob_claim_owner r) (ob_claim_token r) db Hinv) as H.
  destruct (List.find _ _) as [x|] eqn:E.
  - cbn [run_call]. rewrite H. cbn. apply elem_update_where. left. exists r. by rewrite Z.eqb_refl.
  - pose proof (find_none _ _ E r) as Hn. rewrite Hn in Hh; [done|]. by apply list_elem_of_In.
Qed.

Definition retry_text (lastErr : string) : string :=
  TrimSpace (if (512 <? String.length lastErr)%nat then slice lastErr 0 512 else lastErr).

Lemma retry_settles d now r lastErr next maxAttempts db :
  r ∈ event_outbox db -> pg_bad_text d (retry_text lastErr) = false ->
  holds_claim (ob_id r) (ob_claim_owner r) (ob_claim_token r) (UnixNano now) r = true ->
  retry_row (if maxAttempts <=? 0 then 1 else maxAttempts) (UnixNano next) (retry_text lastErr) r ∈
    event_outbox (run_call d now (CallRetry None (ob_id r) (ob_claim_owner r) (ob_claim_token r) lastErr next maxAttempts) db).
Proof.
  intros Hr Ht Hh. cbn [run_call]. unfold RetryEventOutbox, with_ctx. rewrite run_guard, run_refuse.
  fold (retry_text lastErr). rewrite Ht. unfold bind, update_outbox, refuse_if.
  destruct (negb _); cbn; apply elem_update_where; left; exists r; done.
Qed.

(** ** The invariant, and sample states *)

(** C10: in every state the outbox reaches, rows have distinct positive ids, a row carries
    an owner and a token exactly while it is inflight, every stored fact is one
    validation accepts, and the fidelity record names exactly the delivered rows, each
    once. *)
Theorem outbox_invariant d db :
  outbox_reachable d db ->
  NoDup (map ob_id (event_outbox db)) /\
  (forall r, r ∈ event_outbox db -> 0 < ob_id r /\ validateOutboxFact (row_fact r) = None /\
     (ob_status r = "inflight"%string <-> ob_claim_token r <> ""%string) /\
     (ob_claim_owner r = ""%string <-> ob_claim_token r = ""%string)) /\
  NoDup (delivered_ids db) /\
  (forall id, id ∈ delivered_ids db <->
     exists r, r ∈ event_outbox db /\ ob_id r = id /\ ob_status r = "delivered"%string).
Proof.
  intros [Hs Hi Hr Hd Hrec]%outbox_reach_inv. split_and!; [done| |done|done].
  intros r Hin. destruct (Hr r Hin) as [Hb [Hv Hc]]. split; [lia|]. split; [done|]. clear -Hc.
  destruct Hc as [(-> & ? & ?)|(Hst & -> & -> & _)]; [intuition|].
  split; [|done]. split; [|done]. intros E. rewrite E in Hst. exfalso. set_solver.
Qed.

Definition sample_fact : OutboxFact :=
  {| of_EventType := "vault.file.deleted@1.1"; of_OriginID := 7; of_TenantID := "acme";
     of_Payload := marshal (JObject [("schema_version"%string, JString "1.1")]) |}.
Definition sample_now : time := instant 738944 0 0.

(** A fact, and the fact under a claim of relay "r1". *)
Definition pending_outbox (d : dialect) : OutboxDB := run_call d sample_now (CallInsert [sample_fact]) empty_outbox.
Definition sample_claim : outbox_call := CallClaim None (fun _ => false) sample_now "r1" "t1" 10 (30 * Second).
Definition claimed_outbox (d : dialect) : OutboxDB := run_call d sample_now sample_claim (pending_outbox d).
Definition done_outbox (d : dialect) : OutboxDB :=
  run_call d sample_now (CallComplete None 1 "r1" "t1") (claimed_outbox d).

Lemma outbox_run_reachable d db now c : outbox_reachable d db -> outbox_reachable d (run_call d now c db).
Proof. intros H. eapply rtc_r; [exact H|]. by exists now, c. Qed.

Lemma pending_reachable d : outbox_reachable d (pending_outbox d).
Proof. apply outbox_run_reachable, rtc_refl. Qed.
Lemma claimed_reachable d : outbox_reachable d (claimed_outbox d).
Proof. apply outbox_run_reachable, pending_reachable. Qed.
Lemma done_reachable d : outbox_reachable d (done_outbox d).
Proof. apply outbox_run_reachable, claimed_reachable. Qed.

Definition first_row (db : OutboxDB) : OutboxRow :=
  default (fact_row 0 0 sample_fact) (list.head (event_outbox db)).

Lemma outbox_invariant_witness :
  delivered_ids (done_outbox dialectSQLite) = [1] /\ NoDup (delivered_ids (done_outbox dialectSQLite)).
Proof.
  split; [by vm_compute|]. apply (outbox_invariant dialectSQLite). apply done_reachable.
Defined.

Lemma claim_takes_oldest_witness :
  exists L, map ob_id L = [1] /\ claimed_outbox dialectPostgres =
    claimed "r1" "t1" (lease_until dialectPostgres sample_now sample_now (30 * Second)) L (pending_outbox dialectPostgres).
Proof.
  destruct (claim_takes_oldest dialectPostgres None (fun _ => false) sample_now sample_now "r1" "t1" 10 (30 * Second)
    (pending_outbox dialectPostgres) (claimed_outbox dialectPostgres)
    (map scanEventOutboxRow (event_outbox (claimed_outbox dialectPostgres)))) as (L & _ & H & _ & Hsub & Hlen & _).
  - apply (outbox_reach_inv dialectPostgres), pending_reachable.
  - by vm_compute.
  - exists L. split; [|exact H]. assert (length L = 1%nat) as Hl by (apply Nat2Z.inj; rewrite Hlen; by vm_compute).
    destruct L as [|r [|]]; [done| |done].
    specialize (Hsub r ltac:(by left)). vm_compute in Hsub. apply list_elem_of_singleton in Hsub as ->. done.
Defined.

Lemma live_lease_excludes_witness :
  first_row (claimed_outbox dialectSQLite) ∈
    event_outbox (run_call dialectSQLite (sample_now + 29 * Second) (CallComplete None 1 "r2" "t2") (claimed_outbox dialectSQLite)).
Proof.
  apply live_lease_excludes; [apply claimed_reachable|by vm_compute; left|by vm_compute|by vm_compute|].
  by intros [(_ & _ & E)|[]]; vm_compute in E.
Defined.

Lemma terminal_is_final_witness :
  forall r', r' ∈ event_outbox (run_call dialectSQLite sample_now (CallPrune None sample_now sample_now) (done_outbox dialectSQLite)) ->
    ob_id r' = ob_id (first_row (done_outbox dialectSQLite)) -> r' = first_row (done_outbox dialectSQLite).
Proof.
  apply (terminal_is_final dialectSQLite (done_outbox dialectSQLite));
    [apply done_reachable|by vm_compute; left|by vm_compute|].
  apply rtc_once. by exists sample_now, (CallPrune None sample_now sample_now).
Defined.

Lemma facts_are_kept_witness :
  exists r', r' ∈ event_outbox (claimed_outbox dialectSQLite) /\ ob_id r' = 1 /\ row_fact r' = sample_fact.
Proof.
  apply (facts_are_kept dialectSQLite (pending_outbox dialectSQLite) sample_now sample_claim (first_row (pending_outbox dialectSQLite)));
    [apply pending_reachable|by vm_compute; left|by vm_compute].
Defined.

Lemma CompleteEventOutbox_iff_witness :
  snd (CompleteEventOutbox dialectSQLite None sample_now 1 "r1" "t2" (claimed_outbox dialectSQLite)) = Err errEventOutboxClaimLost.
Proof.
  pose proof (CompleteEventOutbox_iff dialectSQLite sample_now 1 "r1" "t2" (claimed_outbox dialectSQLite)
    (claimed_reachable dialectSQLite)) as H.
  assert (List.find (holds_claim 1 "r1" "t2" (UnixNano sample_now)) (event_outbox (claimed_outbox dialectSQLite)) = None) as E
    by by vm_compute.
  rewrite E in H. by rewrite H.
Defined.
