(* ===== verification/Objects.v ===== *)
(** * The object repository (src/internal/repository/sql_objects*.go, sql_legal_holds.go)

    The table objects with its partial unique index on the live rows of a key
    (migrations 0001, 0002, 0005, 0021, 0026), legal_holds (0025) and audit_log (0016),
    for both dialects, with the access tables and the outbox the delete transactions
    write too.  A row is an [Object]; its metadata and tags columns hold the JSON of a
    map[string]string and are kept as the map.  SQLite's times are RFC 3339 texts and
    are compared as texts; PostgreSQL's are instants of microseconds.  The clock, the
    fresh version id and the error of a context that is done are arguments.  Statements
    fail through the context and through constraints.  Rows a query leaves in no order
    come in table order.  PostgreSQL compares keys by bytes (collation C). *)
From Stdlib Require Import Ascii Lia Bool ZArith.
From stdpp Require Import base gmap strings list numbers sorting.
From S2P Require Import Prelude GoStrings Json GoTime Sql GoErrors JsonStruct Keyset Spaces Access AccessStore Outbox.

Open Scope Z_scope.

(** ** Data (repository.go) *)

Record Object := {
  ob_ID : Z; ob_TenantID : string; ob_Bucket : string; ob_Key : string; ob_VersionID : string;
  ob_Backend : string; ob_StorageKey : string; ob_Size : Z; ob_ETag : string;
  ob_ContentType : string; ob_Metadata : kv; ob_Tags : kv; ob_StorageClass : string;
  ob_CreatedAt : time; ob_UpdatedAt : time; ob_DeletedAt : option time;
  ob_LockedUntil : option time; ob_VersionTombstone : bool
}.

#[export] Instance Object_eq_dec : EqDecision Object.
Proof. solve_decision. Defined.

(** A row of legal_holds; a NULL version is [None]. *)
Record HoldRow := {
  lh_object_id : Z; lh_tenant_id : string; lh_version_id : option string; lh_hold_reason : string;
  lh_created_by : string; lh_created_at : time
}.

Record LegalHold := {
  l_ID : Z; l_ObjectID : Z; l_VersionID : string; l_TenantID : string; l_Bucket : string; l_ObjectKey : string;
  l_HoldReason : string; l_CreatedAt : string; l_CreatedBy : string
}.

Record AuditEntry := {
  a_ID : Z; a_Actor : string; a_Action : string; a_Target : string; a_TenantID : string;
  a_Detail : string; a_CreatedAt : string
}.

(** [obj_seq] and [audit_seq] are the last ids of the two sequences. *)
Record ObjectsDB := {
  objects : list Object; obj_seq : Z; legal_holds : list HoldRow;
  audit_log : list AuditEntry; audit_seq : Z; outbox_db : OutboxDB; access_db : AccessDB
}.

Definition set_objects (l : list Object) (db : ObjectsDB) : ObjectsDB := {|
  objects := l; obj_seq := obj_seq db; legal_holds := legal_holds db; audit_log := audit_log db;
  audit_seq := audit_seq db; outbox_db := outbox_db db; access_db := access_db db |}.
Definition set_holds (l : list HoldRow) (db : ObjectsDB) : ObjectsDB := {|
  objects := objects db; obj_seq := obj_seq db; legal_holds := l; audit_log := audit_log db;
  audit_seq := audit_seq db; outbox_db := outbox_db db; access_db := access_db db |}.
Definition set_access (a : AccessDB) (db : ObjectsDB) : ObjectsDB := {|
  objects := objects db; obj_seq := obj_seq db; legal_holds := legal_holds db; audit_log := audit_log db;
  audit_seq := audit_seq db; outbox_db := outbox_db db; access_db := a |}.
Definition set_outbox (o : OutboxDB) (db : ObjectsDB) : ObjectsDB := {|
  objects := objects db; obj_seq := obj_seq db; legal_holds := legal_holds db; audit_log := audit_log db;
  audit_seq := audit_seq db; outbox_db := o; access_db := access_db db |}.

(** A statement on the outbox tables, and on the access tables. *)
Definition on_outbox {A} (m : prog OutboxDB A) : prog ObjectsDB A := fun db =>
  let '(o, r) := m (outbox_db db) in (set_outbox o db, r).
Definition on_access (f : AccessDB -> AccessDB) : prog ObjectsDB unit :=
  writes (fun db => (set_access (f (access_db db)) db, None)).

(** ** Times and keys *)

(** What a time column keeps of an instant: PostgreSQL rounds to microseconds. *)
Definition column_time (d : dialect) (t : time) : time :=
  match d with dialectSQLite => t | dialectPostgres => (t + 500) / 1000 * 1000 end.

(** [a < b] on a time column. *)
Definition time_lt (d : dialect) (a b : time) : bool :=
  match d with
  | dialectSQLite => String.ltb (FormatRFC3339Nano a) (FormatRFC3339Nano b)
  | dialectPostgres => a <? b
  end.

(** [ORDER BY updated_at DESC, id DESC]: a comes before b. *)
Definition newest_lt (d : dialect) (a b : Object) : bool :=
  then_by (time_lt d (ob_UpdatedAt b) (ob_UpdatedAt a)) (time_lt d (ob_UpdatedAt a) (ob_UpdatedAt b))
    (ob_ID b <? ob_ID a).
Definition newest_le (d : dialect) (a b : Object) : bool := negb (newest_lt d b a).

Definition is_live (o : Object) : bool := match ob_DeletedAt o with None => true | Some _ => false end.

(** [tenant_id=$1 AND bucket=$2 AND key=$3]. *)
Definition at_key (tenant bucket key : string) (o : Object) : bool :=
  (ob_TenantID o =s tenant) && (ob_Bucket o =s bucket) && (ob_Key o =s key).
Definition live_at (tenant bucket key : string) (o : Object) : bool :=
  at_key tenant bucket key o && is_live o.

Definition not_found : error := Sentinel RepoErrNotFound.

(** [QueryRow] whose sql.ErrNoRows becomes ErrNotFound. *)
Definition get_row {A} (p : A -> bool) (l : list A) : result A :=
  match List.find p l with Some x => Ok x | None => Err not_found end.

(** ** Row updates *)

Definition with_deleted (dl : option time) (o : Object) : Object := {|
  ob_ID := ob_ID o; ob_TenantID := ob_TenantID o; ob_Bucket := ob_Bucket o; ob_Key := ob_Key o;
  ob_VersionID := ob_VersionID o; ob_Backend := ob_Backend o; ob_StorageKey := ob_StorageKey o;
  ob_Size := ob_Size o; ob_ETag := ob_ETag o; ob_ContentType := ob_ContentType o;
  ob_Metadata := ob_Metadata o; ob_Tags := ob_Tags o; ob_StorageClass := ob_StorageClass o;
  ob_CreatedAt := ob_CreatedAt o; ob_UpdatedAt := ob_UpdatedAt o; ob_DeletedAt := dl;
  ob_LockedUntil := ob_LockedUntil o; ob_VersionTombstone := ob_VersionTombstone o |}.

Definition with_tombstone (b : bool) (o : Object) : Object := {|
  ob_ID := ob_ID o; ob_TenantID := ob_TenantID o; ob_Bucket := ob_Bucket o; ob_Key := ob_Key o;
  ob_VersionID := ob_VersionID o; ob_Backend := ob_Backend o; ob_StorageKey := ob_StorageKey o;
  ob_Size := ob_Size o; ob_ETag := ob_ETag o; ob_ContentType := ob_ContentType o;
  ob_Metadata := ob_Metadata o; ob_Tags := ob_Tags o; ob_StorageClass := ob_StorageClass o;
  ob_CreatedAt := ob_CreatedAt o; ob_UpdatedAt := ob_UpdatedAt o; ob_DeletedAt := ob_DeletedAt o;
  ob_LockedUntil := ob_LockedUntil o; ob_VersionTombstone := b |}.

Definition with_metadata (m : kv) (o : Object) : Object := {|
  ob_ID := ob_ID o; ob_TenantID := ob_TenantID o; ob_Bucket := ob_Bucket o; ob_Key := ob_Key o;
  ob_VersionID := ob_VersionID o; ob_Backend := ob_Backend o; ob_StorageKey := ob_StorageKey o;
  ob_Size := ob_Size o; ob_ETag := ob_ETag o; ob_ContentType := ob_ContentType o;
  ob_Metadata := m; ob_Tags := ob_Tags o; ob_StorageClass := ob_StorageClass o;
  ob_CreatedAt := ob_CreatedAt o; ob_UpdatedAt := ob_UpdatedAt o; ob_DeletedAt := ob_DeletedAt o;
  ob_LockedUntil := ob_LockedUntil o; ob_VersionTombstone := ob_VersionTombstone o |}.

Definition with_class (cls : string) (now : time) (o : Object) : Object := {|
  ob_ID := ob_ID o; ob_TenantID := ob_TenantID o; ob_Bucket := ob_Bucket o; ob_Key := ob_Key o;
  ob_VersionID := ob_VersionID o; ob_Backend := ob_Backend o; ob_StorageKey := ob_StorageKey o;
  ob_Size := ob_Size o; ob_ETag := ob_ETag o; ob_ContentType := ob_ContentType o;
  ob_Metadata := ob_Metadata o; ob_Tags := ob_Tags o; ob_StorageClass := cls;
  ob_CreatedAt := ob_CreatedAt o; ob_UpdatedAt := now; ob_DeletedAt := ob_DeletedAt o;
  ob_LockedUntil := ob_LockedUntil o; ob_VersionTombstone := ob_VersionTombstone o |}.

(** ** Writing versions (sql_objects.go) *)

(** The row an INSERT adds: the defaults of the columns it does not name. *)
Definition new_object (d : dialect) (id : Z) (now : time) (o : Object) : Object := {|
  ob_ID := id; ob_TenantID := ob_TenantID o; ob_Bucket := ob_Bucket o; ob_Key := ob_Key o;
  ob_VersionID := ob_VersionID o; ob_Backend := ob_Backend o; ob_StorageKey := ob_StorageKey o;
  ob_Size := ob_Size o; ob_ETag := ob_ETag o; ob_ContentType := ob_ContentType o;
  ob_Metadata := ob_Metadata o; ob_Tags := ob_Tags o; ob_StorageClass := ob_StorageClass o;
  ob_CreatedAt := column_time d now; ob_UpdatedAt := column_time d now; ob_DeletedAt := None;
  ob_LockedUntil := column_time d <$> ob_LockedUntil o; ob_VersionTombstone := false |}.

(** DO UPDATE SET ...: the row x takes the new contents; its id, creation time and
    tombstone flag stay. *)
Definition upsert_object (d : dialect) (now : time) (o x : Object) : Object := {|
  ob_ID := ob_ID x; ob_TenantID := ob_TenantID x; ob_Bucket := ob_Bucket x; ob_Key := ob_Key x;
  ob_VersionID := ob_VersionID o; ob_Backend := ob_Backend o; ob_StorageKey := ob_StorageKey o;
  ob_Size := ob_Size o; ob_ETag := ob_ETag o; ob_ContentType := ob_ContentType o;
  ob_Metadata := ob_Metadata o; ob_Tags := ob_Tags o; ob_StorageClass := ob_StorageClass o;
  ob_CreatedAt := ob_CreatedAt x; ob_UpdatedAt := column_time d now; ob_DeletedAt := ob_DeletedAt x;
  ob_LockedUntil := column_time d <$> ob_LockedUntil o; ob_VersionTombstone := ob_VersionTombstone x |}.

(** The object a writer returns: its argument with what RETURNING gave. *)
Definition returned (o row : Object) : Object := {|
  ob_ID := ob_ID row; ob_TenantID := ob_TenantID o; ob_Bucket := ob_Bucket o; ob_Key := ob_Key o;
  ob_VersionID := ob_VersionID row; ob_Backend := ob_Backend o; ob_StorageKey := ob_StorageKey o;
  ob_Size := ob_Size o; ob_ETag := ob_ETag o; ob_ContentType := ob_ContentType o;
  ob_Metadata := ob_Metadata o; ob_Tags := ob_Tags o; ob_StorageClass := ob_StorageClass o;
  ob_CreatedAt := ob_CreatedAt row; ob_UpdatedAt := ob_UpdatedAt row; ob_DeletedAt := ob_DeletedAt o;
  ob_LockedUntil := ob_LockedUntil o; ob_VersionTombstone := ob_VersionTombstone o |}.

(** The writers' defaults: the tenant, and a fresh version id when there is none. *)
Definition with_defaults (fresh : string) (o : Object) : Object := {|
  ob_ID := ob_ID o; ob_TenantID := defaultTenant (ob_TenantID o); ob_Bucket := ob_Bucket o; ob_Key := ob_Key o;
  ob_VersionID := if (ob_VersionID o =s "") then fresh else ob_VersionID o;
  ob_Backend := ob_Backend o; ob_StorageKey := ob_StorageKey o;
  ob_Size := ob_Size o; ob_ETag := ob_ETag o; ob_ContentType := ob_ContentType o;
  ob_Metadata := ob_Metadata o; ob_Tags := ob_Tags o; ob_StorageClass := ob_StorageClass o;
  ob_CreatedAt := ob_CreatedAt o; ob_UpdatedAt := ob_UpdatedAt o; ob_DeletedAt := ob_DeletedAt o;
  ob_LockedUntil := ob_LockedUntil o; ob_VersionTombstone := ob_VersionTombstone o |}.

(** INSERT INTO objects: a live row clashes with the live row of its key. *)
Definition insert_object (d : dialect) (row : Z -> Object) : prog ObjectsDB Object := fun db =>
  let r := row (obj_seq db + 1) in
  if MaxInt64 <=? obj_seq db then (db, Err (sequence_exhausted d))
  else if is_live r && existsb (live_at (ob_TenantID r) (ob_Bucket r) (ob_Key r)) (objects db)
  then (db, Err (uq_violation d "objects_live_unique_idx"))
  else ({| objects := objects db ++ [r]; obj_seq := obj_seq db + 1; legal_holds := legal_holds db;
           audit_log := audit_log db; audit_seq := audit_seq db; outbox_db := outbox_db db;
           access_db := access_db db |}, Ok r).

(** UPDATE objects SET f WHERE p: RowsAffected. *)
Definition update_objects (p : Object -> bool) (f : Object -> Object) : prog ObjectsDB Z := fun db =>
  (set_objects (update_where p f (objects db)) db, Ok (Z.of_nat (length (List.filter p (objects db))))).

(** DELETE FROM objects WHERE p, with the cascade to legal_holds: RowsAffected. *)
Definition delete_objects (p : Object -> bool) : prog ObjectsDB Z := fun db =>
  (set_holds (delete_where (fun h => existsb (fun o => (ob_ID o =? lh_object_id h) && p o) (objects db))
                (legal_holds db))
     (set_objects (delete_where p (objects db)) db),
   Ok (Z.of_nat (length (List.filter p (objects db))))).

Definition UpsertObject (d : dialect) (ctx : option error) (now : time) (fresh : string) (arg : Object)
    : prog ObjectsDB Object :=
  let obj := with_defaults fresh arg in
  let same := live_at (ob_TenantID obj) (ob_Bucket obj) (ob_Key obj) in
  run! with_ctx ctx in
  do! live := reads (fun db => Ok (List.find same (objects db))) in
  match live with
  | Some x => run! update_objects same (upsert_object d now obj) in ret (returned obj (upsert_object d now obj x))
  | None => do! row := insert_object d (fun id => new_object d id now obj) in ret (returned obj row)
  end.

Definition tombstone (d : dialect) (now : time) (o : Object) : Object :=
  with_tombstone true (with_deleted (Some (column_time d now)) o).

Definition InsertObjectVersion (d : dialect) (ctx : option error) (now : time) (fresh : string) (arg : Object)
    : prog ObjectsDB Object :=
  let obj := with_defaults fresh arg in
  run! with_ctx ctx in in_tx (
  run! update_objects (live_at (ob_TenantID obj) (ob_Bucket obj) (ob_Key obj)) (tombstone d now) in
  do! row := insert_object d (fun id => new_object d id now obj) in
  ret (returned obj row)).

Definition GetObject (ctx : option error) (tenant bucket key : string) : prog ObjectsDB Object :=
  run! with_ctx ctx in
  reads (fun db => get_row (live_at (defaultTenant tenant) bucket key) (objects db)).

Definition GetObjectByID (ctx : option error) (id : Z) : prog ObjectsDB Object :=
  run! with_ctx ctx in reads (fun db => get_row (fun o => ob_ID o =? id) (objects db)).

(** COUNT(1) ... GROUP BY storage_class over the live rows of a tenant, the groups in
    order. *)
Definition class_groups (db : ObjectsDB) (tenant : string) : list (string * Z) :=
  let live := List.filter (fun o => (ob_TenantID o =s tenant) && is_live o) (objects db) in
  map (fun cls => (cls, Z.of_nat (length (List.filter (fun o => ob_StorageClass o =s cls) live))))
    (sort_by text_le (list.remove_dups (map ob_StorageClass live))).

(** [out[cls] = count], the empty class under STANDARD. *)
Definition StorageClassCounts (ctx : option error) (tenant : string) : prog ObjectsDB (gmap string Z) :=
  run! with_ctx ctx in
  reads (fun db => Ok (fold_left (fun out '(cls, n) => <[ (if (cls =s "") then "STANDARD" else cls) := n ]> out)
                         (class_groups db (defaultTenant tenant)) ∅)).

(** * Deleting, restoring and holding objects

    The operations of src/internal/repository/sql_objects_versions.go,
    sql_objects_maint.go, sql_legal_holds.go, audit.go and the delete transactions of
    event_outbox.go, on the tables of [Objects]. *)
Open Scope Z_scope.

Definition drop_access_state (tenant bucket key : string) : prog ObjectsDB unit :=
  on_access (fun a => deleteObjectAccessState a tenant bucket key).

(** ** Delete markers and versions (sql_objects_versions.go) *)

Definition marker_row (d : dialect) (id : Z) (now : time) (o : Object) : Object := {|
  ob_ID := id; ob_TenantID := ob_TenantID o; ob_Bucket := ob_Bucket o; ob_Key := ob_Key o;
  ob_VersionID := ob_VersionID o; ob_Backend := ""; ob_StorageKey := ""; ob_Size := 0; ob_ETag := "";
  ob_ContentType := ""; ob_Metadata := ob_Metadata o; ob_Tags := ∅; ob_StorageClass := "";
  ob_CreatedAt := column_time d now; ob_UpdatedAt := column_time d now;
  ob_DeletedAt := Some (column_time d now); ob_LockedUntil := None; ob_VersionTombstone := false |}.

Definition InsertDeleteMarker (d : dialect) (ctx : option error) (now : time) (fresh : string) (arg : Object)
    : prog ObjectsDB Object :=
  let obj := with_defaults fresh arg in
  run! with_ctx ctx in in_tx (
  run! update_objects (live_at (ob_TenantID obj) (ob_Bucket obj) (ob_Key obj)) (tombstone d now) in
  run! drop_access_state (ob_TenantID obj) (ob_Bucket obj) (ob_Key obj) in
  do! row := insert_object d (fun id => marker_row d id now obj) in
  ret (with_deleted (Some (ob_UpdatedAt row)) (returned obj row))).

Definition version_at (tenant bucket key versionID : string) (o : Object) : bool :=
  at_key tenant bucket key o && (ob_VersionID o =s versionID).

Definition GetObjectVersion (ctx : option error) (tenant bucket key versionID : string) : prog ObjectsDB Object :=
  run! with_ctx ctx in
  reads (fun db => get_row (version_at (defaultTenant tenant) bucket key versionID) (objects db)).

(** All rows of a key, newest first. *)
Definition versions_of (d : dialect) (tenant bucket key : string) (db : ObjectsDB) : list Object :=
  sort_by (newest_le d) (List.filter (at_key tenant bucket key) (objects db)).

Definition ListObjectVersions (d : dialect) (ctx : option error) (tenant bucket key : string)
    : prog ObjectsDB (list Object) :=
  run! with_ctx ctx in reads (fun db => Ok (versions_of d (defaultTenant tenant) bucket key db)).

Record VersionListPage := { vp_Versions : list Object; vp_NextVersionID : string; vp_HasMore : bool }.

Definition page_limit (limit : Z) : Z := if (limit <=? 0) || (1000 <? limit) then 1000 else limit.

(** [updated_at < $4 OR (updated_at = $5 AND id < $6)]. *)
Definition after_version (d : dialect) (marker o : Object) : bool :=
  time_lt d (ob_UpdatedAt o) (ob_UpdatedAt marker) ||
  (negb (time_lt d (ob_UpdatedAt o) (ob_UpdatedAt marker)) &&
   negb (time_lt d (ob_UpdatedAt marker) (ob_UpdatedAt o)) && (ob_ID o <? ob_ID marker)).

Definition ListObjectVersionsWithOpts (d : dialect) (ctx : option error)
    (tenant bucket key versionIDMarker : string) (optLimit : Z) : prog ObjectsDB VersionListPage :=
  let tenant := defaultTenant tenant in
  let limit := page_limit optLimit in
  run! with_ctx ctx in
  do! rows := (if (versionIDMarker =s "") then reads (fun db => Ok (versions_of d tenant bucket key db))
               else do! marker := reads (fun db => get_row (version_at tenant bucket key versionIDMarker) (objects db)) in
                    reads (fun db => Ok (List.filter (after_version d marker) (versions_of d tenant bucket key db)))) in
  let out := take (Z.to_nat (limit + 1)) rows in
  let hasMore := limit <? Z.of_nat (length out) in
  let out' := if hasMore then take (Z.to_nat limit) out else out in
  ret {| vp_Versions := out';
         vp_NextVersionID := if hasMore then match list.last out' with Some o => ob_VersionID o | None => "" end else "";
         vp_HasMore := hasMore |}.

(** ** Storage class, delete, restore (sql_objects_maint.go) *)

(** The tenant is used as it is given. *)
Definition UpdateObjectStorageClass (d : dialect) (ctx : option error) (now : time)
    (tenant bucket key storageClass : string) : prog ObjectsDB unit :=
  run! with_ctx ctx in
  run! update_objects (live_at tenant bucket key) (with_class storageClass (column_time d now)) in ret tt.

(** UPDATE ... SET deleted_at=$1 WHERE ... AND deleted_at IS NULL. *)
Definition soft_delete (d : dialect) (now : time) (p : Object -> bool) : prog ObjectsDB unit :=
  do! n := update_objects (fun o => p o && is_live o) (with_deleted (Some (column_time d now))) in
  refuse_if (n =? 0) not_found.

Definition SoftDeleteObject (d : dialect) (ctx : option error) (now : time) (tenant bucket key : string)
    : prog ObjectsDB unit :=
  let tenant := defaultTenant tenant in
  run! with_ctx ctx in in_tx (
  run! soft_delete d now (at_key tenant bucket key) in
  drop_access_state tenant bucket key).

Definition has_object_id (id : Z) (o : Object) : bool := ob_ID o =? id.

Definition SoftDeleteObjectByID (d : dialect) (ctx : option error) (now : time) (id : Z) : prog ObjectsDB unit :=
  run! with_ctx ctx in in_tx (
  do! row := reads (fun db => get_row (fun o => has_object_id id o && is_live o) (objects db)) in
  run! soft_delete d now (has_object_id id) in
  drop_access_state (ob_TenantID row) (ob_Bucket row) (ob_Key row)).

(** SELECT EXISTS (... objects o JOIN legal_holds h ON h.object_id = o.id ...). *)
Definition held (p : Object -> bool) (db : ObjectsDB) : bool :=
  existsb (fun o => p o && existsb (fun h => lh_object_id h =? ob_ID o) (legal_holds db)) (objects db).

Definition refuse_held (p : Object -> bool) : prog ObjectsDB unit :=
  guard (fun db => if held p db then Some (Sentinel ErrLegalHoldActive) else None).

(** SELECT EXISTS (SELECT 1 FROM legal_holds WHERE object_id=$1). *)
Definition refuse_held_id (id : Z) : prog ObjectsDB unit :=
  guard (fun db => if existsb (fun h => lh_object_id h =? id) (legal_holds db)
                   then Some (Sentinel ErrLegalHoldActive) else None).

Definition HardDeleteObject (ctx : option error) (tenant bucket key : string) : prog ObjectsDB unit :=
  let tenant := defaultTenant tenant in
  run! with_ctx ctx in in_tx (
  run! refuse_held (at_key tenant bucket key) in
  run! drop_access_state tenant bucket key in
  run! delete_objects (at_key tenant bucket key) in ret tt).

Definition objectVersionCount (tenant bucket key : string) : prog ObjectsDB Z :=
  reads (fun db => Ok (Z.of_nat (length (List.filter (at_key tenant bucket key) (objects db))))).

Definition HardDeleteObjectByID (ctx : option error) (id : Z) : prog ObjectsDB unit :=
  run! with_ctx ctx in in_tx (
  do! row := reads (fun db => get_row (has_object_id id) (objects db)) in
  run! refuse_held_id id in
  do! n := delete_objects (has_object_id id) in
  run! refuse_if (n =? 0) not_found in
  do! remaining := objectVersionCount (ob_TenantID row) (ob_Bucket row) (ob_Key row) in
  if remaining =? 0 then drop_access_state (ob_TenantID row) (ob_Bucket row) (ob_Key row) else ret tt).

Definition delete_marker_key : string := "_aero_delete_marker".

Definition promoteLatestObjectVersion (d : dialect) (tenant bucket key : string) : prog ObjectsDB unit :=
  do! active := reads (fun db => Ok (List.filter (live_at tenant bucket key) (objects db))) in
  match active with
  | _ :: _ => ret tt
  | [] =>
      do! newest := reads (fun db => Ok (list.head (versions_of d tenant bucket key db))) in
      match newest with
      | None => ret tt
      | Some o =>
          if bool_decide (ob_Metadata o !! delete_marker_key = Some "true"%string) then ret tt
          else run! update_objects (has_object_id (ob_ID o))
                      (fun x => with_tombstone false (with_deleted None x)) in ret tt
      end
  end.

Definition DeleteObjectVersion (d : dialect) (ctx : option error) (tenant bucket key versionID : string)
    : prog ObjectsDB unit :=
  let tenant := defaultTenant tenant in
  run! with_ctx ctx in in_tx (
  do! row := reads (fun db => get_row (version_at tenant bucket key versionID) (objects db)) in
  run! refuse_held_id (ob_ID row) in
  run! (if is_live row then drop_access_state tenant bucket key else ret tt) in
  run! delete_objects (has_object_id (ob_ID row)) in
  run! promoteLatestObjectVersion d tenant bucket key in
  do! remaining := objectVersionCount tenant bucket key in
  if remaining =? 0 then drop_access_state tenant bucket key else ret tt).

(** The subquery of RestoreObject: the newest deleted row that is no tombstone. *)
Definition restore_candidate (d : dialect) (tenant bucket key : string) (db : ObjectsDB) : option Object :=
  list.head (sort_by (fun a b => negb (time_lt d (ob_UpdatedAt a) (ob_UpdatedAt b)))
    (List.filter (fun o => at_key tenant bucket key o && negb (is_live o) && negb (ob_VersionTombstone o))
       (objects db))).

Definition RestoreObject (d : dialect) (ctx : option error) (tenant bucket key : string) : prog ObjectsDB unit :=
  let tenant := defaultTenant tenant in
  run! with_ctx ctx in
  do! hit := reads (fun db => Ok (if existsb (live_at tenant bucket key) (objects db) then None
                                  else restore_candidate d tenant bucket key db)) in
  match hit with
  | None => fail not_found
  | Some o => run! update_objects (has_object_id (ob_ID o)) (with_deleted None) in ret tt
  end.

(** ** Metadata *)

Definition update_metadata (ctx : option error) (tenant bucket key : string) (f : kv -> kv) : prog ObjectsDB unit :=
  run! with_ctx ctx in
  do! n := update_objects (live_at (defaultTenant tenant) bucket key)
             (fun o => with_metadata (f (ob_Metadata o)) o) in
  refuse_if (n =? 0) not_found.

(** json_patch and ||: the patch's members win. *)
Definition mergeObjectMetadata (ctx : option error) (tenant bucket key : string) (patch : kv) : prog ObjectsDB unit :=
  update_metadata ctx tenant bucket key (fun m => patch ∪ m).

Definition SetObjectMetaKey (ctx : option error) (tenant bucket key metaKey metaValue : string) : prog ObjectsDB unit :=
  mergeObjectMetadata ctx tenant bucket key {[ metaKey := metaValue ]}.

Definition SetObjectMetaKeys (ctx : option error) (tenant bucket key : string) (meta : kv) : prog ObjectsDB unit :=
  if bool_decide (meta = ∅) then ret tt else mergeObjectMetadata ctx tenant bucket key meta.

Definition ReplaceObjectMetadata (ctx : option error) (tenant bucket key : string) (meta : kv) : prog ObjectsDB unit :=
  update_metadata ctx tenant bucket key (fun _ => meta).

Definition DeleteObjectMetaKey (ctx : option error) (tenant bucket key metaKey : string) : prog ObjectsDB unit :=
  update_metadata ctx tenant bucket key (delete metaKey).

(** The SQLite path of a member: its name as a JSON string after "$.". *)
Definition json_path_char (a : ascii) : list ascii :=
  let c := byte_val a in
  if c =? 92 then [backslash; backslash]
  else if c =? 34 then [backslash; quot]
  else if c =? 10 then [backslash; char 110]
  else if c =? 13 then [backslash; char 114]
  else if c =? 9 then [backslash; char 116]
  else if c <? 32 then u_escape c
  else [a].

Definition jsonPath (key : string) : string :=
  text (chars "$." ++ quot :: concat (map json_path_char (chars key)) ++ [quot]).

(** ** Legal holds (sql_legal_holds.go) *)

Definition nullVersionID (vid : string) : option string := if (vid =s "") then None else Some vid.

(** The primary key conflict of an INSERT: a NULL version conflicts with nothing. *)
Definition hold_conflict (id : Z) (vid : option string) (h : HoldRow) : bool :=
  (lh_object_id h =? id) &&
  match vid, lh_version_id h with Some a, Some b => (a =s b) | _, _ => false end.

(** strftime('%f') has milliseconds, now() microseconds. *)
Definition hold_time (d : dialect) (now : time) : time :=
  match d with dialectSQLite => now / 1000000 * 1000000 | dialectPostgres => now / 1000 * 1000 end.

(** The primary key (object_id, version_id) makes version_id NOT NULL in PostgreSQL
    (not_null_violation); SQLite allows a NULL there. *)
Definition PutLegalHold (d : dialect) (ctx : option error) (now : time) (l : LegalHold) : prog ObjectsDB unit :=
  let vid := nullVersionID (l_VersionID l) in
  let same := hold_conflict (l_ObjectID l) vid in
  run! with_ctx ctx in
  run! refuse_if (bool_decide (d = dialectPostgres) && bool_decide (vid = None)) (PgError "23502" "") in
  fun db =>
  if existsb same (legal_holds db) then
    (set_holds (update_where same (fun h => {|
       lh_object_id := lh_object_id h; lh_tenant_id := lh_tenant_id h; lh_version_id := lh_version_id h;
       lh_hold_reason := l_HoldReason l; lh_created_by := l_CreatedBy l; lh_created_at := lh_created_at h |})
       (legal_holds db)) db, Ok tt)
  else if negb (existsb (has_object_id (l_ObjectID l)) (objects db)) then (db, Err (fkey_violation d))
  else (set_holds (legal_holds db ++ [{|
          lh_object_id := l_ObjectID l; lh_tenant_id := defaultTenant (l_TenantID l); lh_version_id := vid;
          lh_hold_reason := l_HoldReason l; lh_created_by := l_CreatedBy l;
          lh_created_at := hold_time d now |}]) db, Ok tt).

(** created_at as a string: SQLite's text, or the RFC 3339 text of PostgreSQL's time. *)
Definition hold_time_text (d : dialect) (t : time) : string :=
  match d with dialectSQLite => FormatMillis t | dialectPostgres => FormatRFC3339Nano t end.

(** COALESCE(version_id,''). *)
Definition scan_hold (d : dialect) (h : HoldRow) : LegalHold := {|
  l_ID := 0; l_ObjectID := lh_object_id h; l_VersionID := default "" (lh_version_id h);
  l_TenantID := lh_tenant_id h; l_Bucket := ""; l_ObjectKey := ""; l_HoldReason := lh_hold_reason h;
  l_CreatedAt := hold_time_text d (lh_created_at h); l_CreatedBy := lh_created_by h |}.

(** [object_id=$1 AND version_id IS NULL], or [object_id=$1 AND version_id=$2]. *)
Definition hold_at (objectID : Z) (versionID : string) (h : HoldRow) : bool :=
  (lh_object_id h =? objectID) && bool_decide (lh_version_id h = nullVersionID versionID).

Definition GetLegalHold (d : dialect) (ctx : option error) (objectID : Z) (versionID : string) : prog ObjectsDB LegalHold :=
  run! with_ctx ctx in
  reads (fun db => let! h := get_row (hold_at objectID versionID) (legal_holds db) in Ok (scan_hold d h)).

Definition ListLegalHolds (d : dialect) (ctx : option error) (objectID : Z) : prog ObjectsDB (list LegalHold) :=
  run! with_ctx ctx in
  reads (fun db => Ok (map (scan_hold d)
    (sort_by (fun a b => lh_created_at b <=? lh_created_at a)
       (List.filter (fun h => lh_object_id h =? objectID) (legal_holds db))))).

Definition RemoveLegalHold (ctx : option error) (objectID : Z) (versionID : string) : prog ObjectsDB unit :=
  run! with_ctx ctx in fun db =>
  (set_holds (delete_where (hold_at objectID versionID) (legal_holds db)) db,
   if existsb (hold_at objectID versionID) (legal_holds db) then Ok tt else Err not_found).

Definition ObjectHasLegalHold (ctx : option error) (objectID : Z) : prog ObjectsDB bool :=
  run! with_ctx ctx in
  reads (fun db => Ok (0 <? Z.of_nat (length (List.filter (fun h => lh_object_id h =? objectID) (legal_holds db))))).

Definition ListObjectsOnLegalHold (ctx : option error) (tenant : string) (limit : Z) : prog ObjectsDB (list Z) :=
  let limit := if (limit <=? 0) || (10000 <? limit) then 10000 else limit in
  run! with_ctx ctx in
  reads (fun db => Ok (take (Z.to_nat limit) (list.remove_dups
    (map lh_object_id (List.filter (fun h => lh_tenant_id h =s defaultTenant tenant) (legal_holds db)))))).

(** ** Audit log (audit.go) *)

Definition insertAuditEntry (d : dialect) (now : time) (e : AuditEntry) : prog ObjectsDB unit := fun db =>
  if MaxInt64 <=? audit_seq db then (db, Err (sequence_exhausted d))
  else ({| objects := objects db; obj_seq := obj_seq db; legal_holds := legal_holds db;
           audit_log := audit_log db ++ [{| a_ID := audit_seq db + 1; a_Actor := a_Actor e; a_Action := a_Action e;
             a_Target := a_Target e; a_TenantID := a_TenantID e; a_Detail := a_Detail e;
             a_CreatedAt := if (a_CreatedAt e =s "") then FormatRFC3339Nano now else a_CreatedAt e |}];
           audit_seq := audit_seq db + 1; outbox_db := outbox_db db; access_db := access_db db |}, Ok tt).

Definition RecordAudit (d : dialect) (ctx : option error) (now : time) (e : AuditEntry) : prog ObjectsDB unit :=
  run! with_ctx ctx in insertAuditEntry d now e.

Definition ListAudit (ctx : option error) (limit : Z) : prog ObjectsDB (list AuditEntry) :=
  let limit := if limit <=? 0 then 100 else limit in
  let limit := if 1000 <? limit then 1000 else limit in
  run! with_ctx ctx in
  reads (fun db => Ok (take (Z.to_nat limit) (sort_by (fun a b => a_ID b <=? a_ID a) (audit_log db)))).

(** ** Deletes with their audit row and facts (event_outbox.go) *)

(** The readings of the clock: of the delete, the audit row and the facts. *)
Record clocks := { c_delete : time; c_audit : time; c_facts : time }.

Definition record_delete (d : dialect) (c : clocks) (entry : AuditEntry) (facts : list OutboxFact) : prog ObjectsDB unit :=
  run! insertAuditEntry d (c_audit c) entry in
  on_outbox (insertOutboxFacts d (c_facts c) facts).

Definition HardDeleteObjectWithEvent (d : dialect) (ctx : option error) (c : clocks)
    (tenant bucket key : string) (entry : AuditEntry) (facts : list OutboxFact) : prog ObjectsDB unit :=
  let tenant := defaultTenant tenant in
  run! guard (fun _ => validateOutboxFacts facts) in
  run! with_ctx ctx in in_tx (
  run! refuse_held (at_key tenant bucket key) in
  run! drop_access_state tenant bucket key in
  do! n := delete_objects (at_key tenant bucket key) in
  run! refuse_if (n =? 0) not_found in
  record_delete d c entry facts).

Definition SoftDeleteObjectWithEvent (d : dialect) (ctx : option error) (c : clocks)
    (tenant bucket key : string) (entry : AuditEntry) (facts : list OutboxFact) : prog ObjectsDB unit :=
  let tenant := defaultTenant tenant in
  run! guard (fun _ => validateOutboxFacts facts) in
  run! with_ctx ctx in in_tx (
  run! soft_delete d (c_delete c) (at_key tenant bucket key) in
  run! drop_access_state tenant bucket key in
  record_delete d c entry facts).

Definition SoftDeleteObjectByIDWithEvent (d : dialect) (ctx : option error) (c : clocks)
    (id : Z) (entry : AuditEntry) (facts : list OutboxFact) : prog ObjectsDB unit :=
  run! with_ctx ctx in in_tx (
  run! guard (fun _ => validateOutboxFacts facts) in
  do! row := reads (fun db => get_row (fun o => has_object_id id o && is_live o) (objects db)) in
  run! soft_delete d (c_delete c) (has_object_id id) in
  run! drop_access_state (ob_TenantID row) (ob_Bucket row) (ob_Key row) in
  record_delete d c entry facts).

(** * Listing objects (src/internal/repository/sql_objects_list.go)

    [sql_like] is LIKE ... ESCAPE '!': SQLite's folds the case of ASCII letters,
    PostgreSQL's does not.  A lone _ stands for one byte, which only the patterns of
    other callers use.  Listings are keyset pages by key. *)
Open Scope Z_scope.

(** ** LIKE *)

Definition lower (a : ascii) : ascii :=
  if in_range 65 90 (byte_val a) then char (Z.to_nat (byte_val a + 32)) else a.

Definition like_eq (d : dialect) (a b : ascii) : bool :=
  match d with
  | dialectSQLite => Ascii.eqb (lower a) (lower b)
  | dialectPostgres => Ascii.eqb a b
  end.

Fixpoint like (eq : ascii -> ascii -> bool) (p s : list ascii) : bool :=
  match p with
  | [] => match s with [] => true | _ => false end
  | c :: p' =>
      if is_char 33 c then
        match p', s with
        | e :: p'', a :: s' => eq e a && like eq p'' s'
        | _, _ => false
        end
      else if is_char 37 c then
        (fix any (s : list ascii) : bool :=
           like eq p' s || match s with [] => false | _ :: s' => any s' end) s
      else match s with
           | a :: s' => (is_char 95 c || eq c a) && like eq p' s'
           | [] => false
           end
  end.

Definition sql_like (d : dialect) (pattern s : string) : bool := like (like_eq d) (chars pattern) (chars s).

(** The NewReplacer of literalPrefixPattern: ! % _ are escaped. *)
Definition escape_like (a : ascii) : list ascii :=
  if is_char 33 a || is_char 37 a || is_char 95 a then [char 33; a] else [a].

Definition literalPrefixPattern (prefix : string) : string :=
  text (concat (map escape_like (chars prefix)) ++ [char 37]).

(** ** Pages *)

Record ListPage := { lp_Objects : list Object; lp_NextMarker : string; lp_HasMore : bool }.

(** [ORDER BY key ASC]. *)
Definition by_key (a b : Object) : bool := text_le (ob_Key a) (ob_Key b).

(** The WHERE clause of the listings. *)
Definition listed (d : dialect) (p : Object -> bool) (tenant bucket prefix marker : string) (o : Object) : bool :=
  (ob_TenantID o =s tenant) && (ob_Bucket o =s bucket) && p o &&
  sql_like d (literalPrefixPattern prefix) (ob_Key o) && String.ltb marker (ob_Key o).

(** LIMIT limit+1 rows, the last of which only tells that there are more. *)
Definition page_of (limit : Z) (rows : list Object) : ListPage :=
  let got := take (Z.to_nat (limit + 1)) rows in
  if limit <? Z.of_nat (length got) then
    let objs := take (Z.to_nat limit) got in
    {| lp_Objects := objs;
       lp_NextMarker := match list.last objs with Some o => ob_Key o | None => "" end; lp_HasMore := true |}
  else {| lp_Objects := got; lp_NextMarker := ""; lp_HasMore := false |}.

Definition list_page (d : dialect) (p : Object -> bool) (tenant bucket prefix marker : string) (limit : Z)
    (db : ObjectsDB) : ListPage :=
  page_of (page_limit limit)
    (sort_by by_key (List.filter (listed d p (defaultTenant tenant) bucket prefix marker) (objects db))).

Definition ListObjects (d : dialect) (ctx : option error) (tenant bucket prefix marker : string) (limit : Z)
    : prog ObjectsDB ListPage :=
  run! with_ctx ctx in reads (fun db => Ok (list_page d is_live tenant bucket prefix marker limit db)).

Definition ListDeletedObjects (d : dialect) (ctx : option error) (tenant bucket prefix marker : string) (limit : Z)
    : prog ObjectsDB ListPage :=
  run! with_ctx ctx in
  reads (fun db => Ok (list_page d (fun o => negb (is_live o)) tenant bucket prefix marker limit db)).

(** *** By tag *)

Definition has_tag (tagKey tagValue : string) (o : Object) : bool :=
  match ob_Tags o !! tagKey with
  | Some value => (tagValue =s "") || (value =s tagValue)
  | None => false
  end.

(** One iteration: a raw page is read, its matches are added up to one more than the
    limit, and the loop goes on with the raw page's marker. *)
Definition tag_step (d : dialect) (tenant bucket prefix : string) (limit : Z) (tagKey tagValue : string)
    (db : ObjectsDB) (st : string * list Object) : (string * list Object) + list Object :=
  let '(cursor, matches) := st in
  let raw := list_page d is_live tenant bucket prefix cursor 1000 db in
  let matches' := take (Z.to_nat (limit + 1)) (matches ++ List.filter (has_tag tagKey tagValue) (lp_Objects raw)) in
  if (limit <? Z.of_nat (length matches')) || negb (lp_HasMore raw) then inr matches'
  else if (lp_NextMarker raw =s "") || (lp_NextMarker raw =s cursor) then inr matches'
  else inl (lp_NextMarker raw, matches').

(** Each iteration passes a row, so that one more than their number is enough. *)
Definition ListObjectsByTag (d : dialect) (ctx : option error) (tenant bucket prefix marker : string)
    (optLimit : Z) (tagKey tagValue : string) : prog ObjectsDB ListPage :=
  let limit := page_limit optLimit in
  run! with_ctx ctx in
  reads (fun db =>
    match iter_fuel (tag_step d tenant bucket prefix limit tagKey tagValue db) (S (length (objects db))) (marker, []) with
    | None => Err (NewError "listing does not terminate")
    | Some matches =>
        Ok (if limit <? Z.of_nat (length matches) then
              let objs := take (Z.to_nat limit) matches in
              {| lp_Objects := objs;
                 lp_NextMarker := match list.last objs with Some o => ob_Key o | None => "" end;
                 lp_HasMore := true |}
            else {| lp_Objects := matches; lp_NextMarker := ""; lp_HasMore := false |})
    end).

(** *** Keys with versions (sql_objects_versions.go) *)

Record KeyPage := { kp_Keys : list string; kp_Next : string; kp_HasMore : bool }.

Definition ListObjectVersionKeys (d : dialect) (ctx : option error) (tenant bucket prefix marker : string)
    (optLimit : Z) : prog ObjectsDB KeyPage :=
  let limit := page_limit optLimit in
  run! with_ctx ctx in
  reads (fun db =>
    let keys := take (Z.to_nat (limit + 1)) (sort_by text_le (list.remove_dups (map ob_Key
      (List.filter (listed d (fun _ => true) (defaultTenant tenant) bucket prefix marker) (objects db))))) in
    let hasMore := limit <? Z.of_nat (length keys) in
    let keys' := if hasMore then take (Z.to_nat limit) keys else keys in
    Ok {| kp_Keys := keys'; kp_Next := if hasMore then default "" (list.last keys') else ""; kp_HasMore := hasMore |}).
