(* ===== verification/ObjectsInvariant.v ===== *)
(** * The invariant of the object tables

    [objects_inv] holds in every state the repository's operations reach: ids are
    unique, a key has at most one live row, holds are on rows that exist, and the outbox
    has its own invariant.  The UPDATEs that revive a row (restore, promotion of a
    version) therefore never hit the unique index of the live rows. *)

From Stdlib Require Import Ascii Lia Bool ZArith.
From stdpp Require Import base gmap strings list numbers relations.
From S2P Require Import Prelude GoStrings Json GoTime GoErrors Sql JsonStruct Access AccessStore Outbox OutboxProps Objects.

Open Scope Z_scope.

Definition object_key (o : Object) : string * string * string := (ob_TenantID o, ob_Bucket o, ob_Key o).
Definition live_keys (db : ObjectsDB) : list (string * string * string) :=
  map object_key (List.filter is_live (objects db)).

Record objects_inv (db : ObjectsDB) : Prop := {
  oi_seq : 0 <= obj_seq db;
  oi_ids : NoDup (map ob_ID (objects db));
  oi_bound : forall o, o ∈ objects db -> 0 < ob_ID o <= obj_seq db;
  oi_live : NoDup (live_keys db);
  oi_tombstone : forall o, o ∈ objects db -> is_live o = true -> ob_VersionTombstone o = false;
  oi_holds : forall h, h ∈ legal_holds db -> lh_object_id h ∈ map ob_ID (objects db);
  oi_outbox : outbox_inv (outbox_db db)
}.

(** Programs that keep the invariant, failed runs included. *)
Definition safe (s s' : ObjectsDB) : Prop := objects_inv s -> objects_inv s'.

#[export] Instance safe_preorder : PreOrder safe.
Proof. unfold safe. split; [by intros s|by intros s s' s'' H1 H2 H; apply H2, H1]. Qed.

Lemma keeps_tx {S A} (R : S -> S -> Prop) `{!Reflexive R} (m : prog S A) : keeps R m -> keeps R (in_tx m).
Proof. intros Hm s. specialize (Hm s). unfold in_tx. by destruct (m s) as [s' [a|e]]. Qed.

Lemma keeps_ctx {S} (R : S -> S -> Prop) `{!PreOrder R} ctx : keeps R (with_ctx ctx).
Proof. by apply keeps_guard. Qed.

Lemma head_elem {A} (l : list A) x : list.head l = Some x -> x ∈ l.
Proof. destruct l; [done|]. intros [= ->]. by left. Qed.

(** ** Statements *)

Lemma at_key_true tenant bucket key o :
  at_key tenant bucket key o = true <-> object_key o = (tenant, bucket, key).
Proof.
  unfold at_key, object_key. autorewrite with aero. split; [by intros [[-> ->] ->]|by intros [= -> -> ->]].
Qed.

Lemma live_at_true tenant bucket key o :
  live_at tenant bucket key o = true <-> object_key o = (tenant, bucket, key) /\ is_live o = true.
Proof. unfold live_at. by rewrite andb_true_iff, at_key_true. Qed.

(** A row update that keeps the row's identity and revives nothing. *)
Definition mild (f : Object -> Object) : Prop :=
  forall o, ob_ID (f o) = ob_ID o /\ object_key (f o) = object_key o /\ (is_live (f o) = true -> is_live o = true) /\
    (is_live (f o) = true -> ob_VersionTombstone (f o) = ob_VersionTombstone o).

Lemma live_update_NoDup p f (l : list Object) :
  mild f -> NoDup (map object_key (List.filter is_live l)) ->
  NoDup (map object_key (List.filter is_live (update_where p f l))).
Proof.
  intros Hf. induction l as [|o l IH]; [done|]. cbn. intros Hn.
  destruct (Hf o) as (_ & Hk & Hl & _). set (o' := if p o then f o else o).
  assert (object_key o' = object_key o) as Hk' by (unfold o'; by destruct (p o)).
  assert (is_live o' = true -> is_live o = true) as Hl' by (unfold o'; by destruct (p o)).
  assert (NoDup (map object_key (List.filter is_live l))) as Hn'.
  { destruct (is_live o); [|done]. cbn in Hn. by apply list.NoDup_cons in Hn as [_ ?]. }
  destruct (is_live o') eqn:E; [|by apply IH]. rewrite (Hl' eq_refl) in Hn. cbn in Hn |- *.
  apply list.NoDup_cons in Hn as [Ho _]. apply list.NoDup_cons. split; [|by apply IH].
  rewrite Hk'. intros (x & Hx & [Hin Hlx]%elem_filter_b)%list_elem_of_fmap. apply Ho. rewrite Hx.
  apply elem_update_where in Hin as [(y & Hy & _ & ->)|[Hin _]].
  - destruct (Hf y) as (_ & -> & Hly & _). apply list_elem_of_fmap_2, elem_filter_b. split; [done|by apply Hly].
  - apply list_elem_of_fmap_2, elem_filter_b. by split.
Qed.

Lemma keeps_update p f : mild f -> keeps safe (update_objects p f).
Proof.
  intros Hf db [Hs Hi Hb Hl Ht Hh Ho]. cbn. split; cbn; [done| | |by apply live_update_NoDup| | |done].
  - rewrite map_update_where; [done|]. intros o. apply Hf.
  - intros o [(x & Hx & _ & ->)|[Hx _]]%elem_update_where; [rewrite (proj1 (Hf x))|]; by apply Hb.
  - intros o [(x & Hx & _ & ->)|[Hx _]]%elem_update_where Hlo; [|by apply Ht].
    destruct (Hf x) as (_ & _ & Hlx & Hx'). rewrite Hx' by done. apply Ht; [done|by apply Hlx].
  - intros h Hin. rewrite map_update_where; [by apply Hh|]. intros o. apply Hf.
Qed.

Lemma keeps_insert d row :
  (forall id, ob_ID (row id) = id /\ ob_VersionTombstone (row id) = false) -> keeps safe (insert_object d row).
Proof.
  intros Hr db Hinv. pose proof Hinv as [Hs Hi Hb Hl Ht Hh Ho]. unfold insert_object.
  destruct (MaxInt64 <=? obj_seq db); [done|].
  set (r := row (obj_seq db + 1)). destruct (is_live r && _) eqn:E; [done|]. cbn.
  assert (ob_ID r = obj_seq db + 1) as Hid by apply Hr.
  split; cbn; [lia| | | | | |done].
  - apply NoDup_map_snoc; [done|]. intros y Hy. specialize (Hb y Hy). lia.
  - intros o [Hin| ->%list_elem_of_singleton]%elem_of_app; [specialize (Hb o Hin)|]; lia.
  - unfold live_keys. cbn. rewrite List.filter_app, map_app. cbn. destruct (is_live r) eqn:Er; [|by rewrite app_nil_r].
    cbn in E. apply list.NoDup_app. split_and!; [done| |apply list.NoDup_singleton].
    intros k (o & -> & [Hin Hlo]%elem_filter_b)%list_elem_of_fmap Hk%list_elem_of_singleton.
    rewrite existsb_none in E. specialize (E o Hin). revert E. apply not_false_iff_true, live_at_true. by split.
  - intros o [Hin| ->%list_elem_of_singleton]%elem_of_app Hlo; [by apply Ht|apply Hr].
  - intros h Hin. rewrite map_app. apply elem_of_app. left. by apply Hh.
Qed.

Lemma keeps_delete p : keeps safe (delete_objects p).
Proof.
  intros db [Hs Hi Hb Hl Ht Hh Ho]. cbn. split; cbn; [done|by apply map_delete_where_NoDup| | | | |done].
  - intros o [Hin _]%elem_delete_where. by apply Hb.
  - unfold live_keys. cbn. unfold delete_where. rewrite filter_filter.
    rewrite (List.filter_ext _ (fun x => is_live x && negb (p x))) by (intros; by rewrite andb_comm).
    rewrite <- filter_filter. by apply NoDup_map_filter.
  - intros o [Hin _]%elem_delete_where. by apply Ht.
  - intros h [Hin Hg]%elem_delete_where. specialize (Hh h Hin).
    apply list_elem_of_fmap in Hh as (o & Ho' & Hin'). rewrite Ho'. apply list_elem_of_fmap_2, elem_delete_where.
    split; [done|]. rewrite existsb_none in Hg. specialize (Hg o Hin'). by rewrite Ho', Z.eqb_refl in Hg.
Qed.

Lemma keeps_access f : keeps safe (on_access f).
Proof. apply keeps_writes. by intros s [? ? ? ? ? ? ?]. Qed.

Lemma keeps_audit d now e : keeps safe (insertAuditEntry d now e).
Proof.
  intros s Hs. unfold insertAuditEntry. destruct (MaxInt64 <=? audit_seq s); [done|].
  destruct Hs. by split.
Qed.

Lemma insertOutboxFact_inv d now f db :
  validateOutboxFact f = None -> outbox_inv db -> outbox_inv (fst (insertOutboxFact d (UnixNano now) f db)).
Proof.
  intros Hf Hinv. pose proof (run_call_inv d now (CallInsert [f]) db Hinv) as H.
  cbn -[insertOutboxFact] in H. unfold validateOutboxFacts in H. cbn -[insertOutboxFact] in H. rewrite Hf in H.
  unfold in_tx, insertOutboxFacts, insert_facts, bind in H.
  destruct (insertOutboxFact d (UnixNano now) f db) as [db' [[]|e]] eqn:E; cbn in H; [done|].
  unfold insertOutboxFact in E. destruct (outbox_violation d db f); [|done]. by injection E as <- _.
Qed.

Lemma keeps_facts d now facts :
  validateOutboxFacts facts = None -> keeps safe (on_outbox (insertOutboxFacts d now facts)).
Proof.
  intros Hv%validateOutboxFacts_Forall s [Hs Hi Hb Hl Ht Hh Ho]. unfold on_outbox.
  assert (outbox_inv (fst (insertOutboxFacts d now facts (outbox_db s)))) as H.
  { unfold insertOutboxFacts. generalize dependent (outbox_db s). induction facts as [|f facts IH]; intros o Ho; [done|].
    apply list.Forall_cons in Hv as [Hf Hv]. cbn. unfold bind.
    pose proof (insertOutboxFact_inv d now f o Hf Ho) as H1.
    destruct (insertOutboxFact _ _ _ _) as [o' [[]|e]]; [|done]. by apply IH. }
  destruct (insertOutboxFacts _ _ _ _) as [o r]. by split.
Qed.

(** Reviving a row of a key without live rows. *)
Lemma revive_safe f o db :
  (forall x, ob_ID (f x) = ob_ID x /\ object_key (f x) = object_key x) ->
  o ∈ objects db -> ob_VersionTombstone (f o) = false ->
  (forall x, x ∈ objects db -> object_key x = object_key o -> is_live x = false) ->
  safe db (set_objects (update_where (has_object_id (ob_ID o)) f (objects db)) db).
Proof.
  intros Hf Hin Hto Hdead [Hs Hi Hb Hl Ht Hh Ho]. split; cbn; [done| | | | | |done].
  - rewrite map_update_where; [done|]. intros x. apply Hf.
  - intros x [(y & Hy & _ & ->)|[Hx _]]%elem_update_where; [rewrite (proj1 (Hf y))|]; by apply Hb.
  - unfold live_keys in *. cbn. revert Hl Hdead Hi Hin. generalize (objects db). intros l. clear -Hf.
    induction l as [|x l IH]; [done|].
    change (update_where (has_object_id (ob_ID o)) f (x :: l)) with
      ((if has_object_id (ob_ID o) x then f x else x) :: update_where (has_object_id (ob_ID o)) f l).
    cbn [List.filter map]. intros Hl Hdead [Hx Hi]%list.NoDup_cons Hin.
    assert (NoDup (map object_key (List.filter is_live l))) as Hl'.
    { destruct (is_live x); [|done]. cbn in Hl. by apply list.NoDup_cons in Hl as [_ ?]. }
    unfold has_object_id at 1 2. destruct (Z.eqb_spec (ob_ID x) (ob_ID o)) as [E|E].
    + assert (update_where (has_object_id (ob_ID o)) f l = l) as ->.
      { apply update_where_none. intros y Hy. apply Z.eqb_neq. intros Ey. apply Hx. rewrite E, <- Ey. by apply list_elem_of_fmap_2. }
      assert (x = o) as ->.
      { apply elem_of_cons in Hin as [->|Hin]; [done|]. destruct Hx. rewrite E. by apply list_elem_of_fmap_2. }
      destruct (is_live (f o)); [|done]. cbn. apply list.NoDup_cons. split; [|done].
      rewrite (proj2 (Hf o)). intros (y & Hy & [Hyin Hyl]%elem_filter_b)%list_elem_of_fmap.
      rewrite (Hdead y) in Hyl; [done|by right|done].
    + assert (o ∈ l) as Hol by (apply elem_of_cons in Hin as [->|Hin]; [done|done]).
      assert (NoDup (map object_key (List.filter is_live (update_where (has_object_id (ob_ID o)) f l)))) as Hrec.
      { apply IH; [done| |done|done]. intros y Hy. apply Hdead. by right. }
      destruct (is_live x) eqn:Ex; [|done]. cbn in Hl |- *. apply list.NoDup_cons in Hl as [Hxk _].
      apply list.NoDup_cons. split; [|done].
      intros (y & Hy & [Hyin Hyl]%elem_filter_b)%list_elem_of_fmap.
      apply elem_update_where in Hyin as [(z & Hz & Ez & ->)|[Hyin _]].
      * apply Z.eqb_eq in Ez. rewrite (proj2 (Hf z)) in Hy.
        assert (z = o) as -> by (by apply (NoDup_map_inj ob_ID l)).
        rewrite (Hdead x) in Ex; [done|by left|done].
      * apply Hxk. rewrite Hy. apply list_elem_of_fmap_2, elem_filter_b. by split.
  - intros x [(y & Hy & E & ->)|[Hx _]]%elem_update_where Hlx; [|by apply Ht].
    apply Z.eqb_eq in E. by rewrite (NoDup_map_inj ob_ID _ y o Hi Hy Hin E).
  - intros h Hhin. rewrite map_update_where; [by apply Hh|]. intros x. apply Hf.
Qed.

(** ** Operations *)

Lemma mild_upsert d now obj : mild (upsert_object d now obj).
Proof. by intros o. Qed.
Lemma mild_deleted t : mild (with_deleted (Some t)).
Proof. by intros o. Qed.
Lemma mild_tombstone d now : mild (tombstone d now).
Proof. by intros o. Qed.
Lemma mild_class c now : mild (with_class c now).
Proof. by intros o. Qed.
Lemma mild_metadata (g : Object -> kv) : mild (fun o => with_metadata (g o) o).
Proof. by intros o. Qed.
#[export] Hint Resolve mild_upsert mild_deleted mild_tombstone mild_class mild_metadata : aero.

Ltac safe_tac :=
  repeat (match goal with
  | |- keeps _ (in_tx _) => apply keeps_tx; [apply _|]
  | |- keeps _ (with_ctx _) => apply keeps_ctx; apply _
  | |- keeps safe (update_objects _ _) => apply keeps_update; auto with aero
  | |- keeps safe (insert_object _ _) => apply keeps_insert; done
  | |- keeps safe (delete_objects _) => apply keeps_delete
  | |- keeps safe (drop_access_state _ _ _) => apply keeps_access
  | |- keeps safe (insertAuditEntry _ _ _) => apply keeps_audit
  | |- keeps _ (match ?x with _ => _ end) => destruct x
  end || (progress keeps_tac)).

Lemma UpsertObject_safe d ctx now fresh o : keeps safe (UpsertObject d ctx now fresh o).
Proof. unfold UpsertObject. safe_tac. Qed.
Lemma InsertObjectVersion_safe d ctx now fresh o : keeps safe (InsertObjectVersion d ctx now fresh o).
Proof. unfold InsertObjectVersion. safe_tac. Qed.
Lemma InsertDeleteMarker_safe d ctx now fresh o : keeps safe (InsertDeleteMarker d ctx now fresh o).
Proof. unfold InsertDeleteMarker. safe_tac. Qed.
Lemma UpdateObjectStorageClass_safe d ctx now t b k c : keeps safe (UpdateObjectStorageClass d ctx now t b k c).
Proof. unfold UpdateObjectStorageClass. safe_tac. Qed.
Lemma soft_delete_safe d now p : keeps safe (soft_delete d now p).
Proof. unfold soft_delete. safe_tac. Qed.
Lemma SoftDeleteObject_safe d ctx now t b k : keeps safe (SoftDeleteObject d ctx now t b k).
Proof. unfold SoftDeleteObject, soft_delete. safe_tac. Qed.
Lemma SoftDeleteObjectByID_safe d ctx now id : keeps safe (SoftDeleteObjectByID d ctx now id).
Proof. unfold SoftDeleteObjectByID, soft_delete. safe_tac. Qed.
Lemma HardDeleteObject_safe ctx t b k : keeps safe (HardDeleteObject ctx t b k).
Proof. unfold HardDeleteObject, refuse_held. safe_tac. Qed.
Lemma HardDeleteObjectByID_safe ctx id : keeps safe (HardDeleteObjectByID ctx id).
Proof. unfold HardDeleteObjectByID, refuse_held_id, objectVersionCount. safe_tac. Qed.
Lemma update_metadata_safe ctx t b k f : keeps safe (update_metadata ctx t b k f).
Proof. unfold update_metadata. safe_tac. Qed.

Lemma versions_of_elem d t b k db o : o ∈ versions_of d t b k db <-> o ∈ objects db /\ object_key o = (t, b, k).
Proof. unfold versions_of. by rewrite elem_sort_by, elem_filter_b, at_key_true. Qed.

Lemma promote_safe d t b k : keeps safe (promoteLatestObjectVersion d t b k).
Proof.
  intros db. unfold promoteLatestObjectVersion. rewrite run_reads.
  destruct (List.filter (live_at t b k) (objects db)) as [|x l] eqn:El; [|done].
  rewrite run_reads. destruct (list.head _) as [o|] eqn:Eh; [|done].
  destruct (bool_decide _); [done|]. cbn. apply head_elem in Eh.
  apply versions_of_elem in Eh as [Hin Hk]. apply revive_safe; [done|done|done|].
  intros x Hx Hkx. destruct (is_live x) eqn:Elx; [|done].
  assert (x ∈ List.filter (live_at t b k) (objects db)) as H by (apply elem_filter_b; split; [done|]; apply live_at_true; split; [congruence|done]).
  rewrite El in H. by apply not_elem_of_nil in H.
Qed.

Lemma DeleteObjectVersion_safe d ctx t b k v : keeps safe (DeleteObjectVersion d ctx t b k v).
Proof.
  unfold DeleteObjectVersion, refuse_held_id, objectVersionCount. safe_tac. apply promote_safe.
Qed.

Lemma restore_candidate_elem d t b k db o :
  restore_candidate d t b k db = Some o ->
  o ∈ objects db /\ object_key o = (t, b, k) /\ is_live o = false /\ ob_VersionTombstone o = false.
Proof.
  unfold restore_candidate. intros H%head_elem. apply elem_sort_by, elem_filter_b in H as [Hin H].
  bool_split. split; [done|]. split; [by apply at_key_true|done].
Qed.

Lemma RestoreObject_safe d ctx t b k : keeps safe (RestoreObject d ctx t b k).
Proof.
  unfold RestoreObject. set (t' := defaultTenant t). apply keeps_read_bind; [apply _|by apply keeps_ctx; apply _|intros _].
  intros db. rewrite run_reads. destruct (existsb _ _) eqn:El; [done|].
  destruct (restore_candidate _ _ _ _ db) as [o|] eqn:Ec; [|done]. cbn.
  apply restore_candidate_elem in Ec as (Hin & Hk & _ & Ht). apply revive_safe; [done|done|done|].
  intros x Hx Hkx. destruct (is_live x) eqn:Elx; [|done]. rewrite existsb_none in El.
  specialize (El x Hx).
  rewrite (proj2 (live_at_true t' b k x)) in El; [done|]. split; [congruence|done].
Qed.

Lemma PutLegalHold_safe d ctx now l : keeps safe (PutLegalHold d ctx now l).
Proof.
  unfold PutLegalHold. safe_tac. intros db [Hs Hi Hb Hl Ht Hh Ho]. destruct (existsb _ _).
  - split; try done. cbn. intros h [(x & Hx & _ & ->)|[Hx _]]%elem_update_where; exact (Hh _ Hx).
  - destruct (existsb (has_object_id _) _) eqn:E; [|done]. split; try done. cbn.
    intros h [Hx| ->%list_elem_of_singleton]%elem_of_app; [by apply Hh|]. cbn.
    apply existsb_elem in E as (o & Ho' & E). apply Z.eqb_eq in E. rewrite <- E. by apply list_elem_of_fmap_2.
Qed.

Lemma RemoveLegalHold_safe ctx id v : keeps safe (RemoveLegalHold ctx id v).
Proof.
  unfold RemoveLegalHold. safe_tac. intros db [Hs Hi Hb Hl Ht Hh Ho]. split; try done.
  cbn. intros h [Hx _]%elem_delete_where. by apply Hh.
Qed.

Lemma record_delete_safe d c e facts : validateOutboxFacts facts = None -> keeps safe (record_delete d c e facts).
Proof. intros Hv. unfold record_delete. safe_tac. by apply keeps_facts. Qed.

Lemma HardDeleteObjectWithEvent_safe d ctx c t b k e facts : keeps safe (HardDeleteObjectWithEvent d ctx c t b k e facts).
Proof.
  unfold HardDeleteObjectWithEvent. apply keeps_check_bind; [apply _|intros Hv]. unfold refuse_held. safe_tac.
  by apply record_delete_safe.
Qed.
Lemma SoftDeleteObjectWithEvent_safe d ctx c t b k e facts : keeps safe (SoftDeleteObjectWithEvent d ctx c t b k e facts).
Proof.
  unfold SoftDeleteObjectWithEvent. apply keeps_check_bind; [apply _|intros Hv]. unfold soft_delete. safe_tac.
  by apply record_delete_safe.
Qed.
Lemma SoftDeleteObjectByIDWithEvent_safe d ctx c id e facts : keeps safe (SoftDeleteObjectByIDWithEvent d ctx c id e facts).
Proof.
  unfold SoftDeleteObjectByIDWithEvent. apply keeps_bind; [apply _|by apply keeps_ctx; apply _|intros _].
  apply keeps_tx; [apply _|]. apply keeps_check_bind; [apply _|intros Hv]. unfold soft_delete. safe_tac.
  by apply record_delete_safe.
Qed.

(** ** Reachable states *)

(** One operation: its run, failed or not. *)
Inductive objects_step (d : dialect) : ObjectsDB -> ObjectsDB -> Prop :=
| os_upsert ctx now fresh o db : objects_step d db (fst (UpsertObject d ctx now fresh o db))
| os_version ctx now fresh o db : objects_step d db (fst (InsertObjectVersion d ctx now fresh o db))
| os_marker ctx now fresh o db : objects_step d db (fst (InsertDeleteMarker d ctx now fresh o db))
| os_class ctx now t b k c db : objects_step d db (fst (UpdateObjectStorageClass d ctx now t b k c db))
| os_soft ctx now t b k db : objects_step d db (fst (SoftDeleteObject d ctx now t b k db))
| os_soft_id ctx now id db : objects_step d db (fst (SoftDeleteObjectByID d ctx now id db))
| os_hard ctx t b k db : objects_step d db (fst (HardDeleteObject ctx t b k db))
| os_hard_id ctx id db : objects_step d db (fst (HardDeleteObjectByID ctx id db))
| os_delete_version ctx t b k v db : objects_step d db (fst (DeleteObjectVersion d ctx t b k v db))
| os_restore ctx t b k db : objects_step d db (fst (RestoreObject d ctx t b k db))
| os_metadata ctx t b k f db : objects_step d db (fst (update_metadata ctx t b k f db))
| os_hold ctx now l db : objects_step d db (fst (PutLegalHold d ctx now l db))
| os_unhold ctx id v db : objects_step d db (fst (RemoveLegalHold ctx id v db))
| os_audit ctx now e db : objects_step d db (fst (RecordAudit d ctx now e db))
| os_hard_event ctx c t b k e facts db :
    objects_step d db (fst (HardDeleteObjectWithEvent d ctx c t b k e facts db))
| os_soft_event ctx c t b k e facts db :
    objects_step d db (fst (SoftDeleteObjectWithEvent d ctx c t b k e facts db))
| os_soft_id_event ctx c id e facts db :
    objects_step d db (fst (SoftDeleteObjectByIDWithEvent d ctx c id e facts db))
| os_outbox now call db : objects_step d db (set_outbox (run_call d now call (outbox_db db)) db)
| os_access a db : objects_step d db (set_access a db).

Definition empty_objects : ObjectsDB := {|
  objects := []; obj_seq := 0; legal_holds := []; audit_log := []; audit_seq := 0; outbox_db := empty_outbox;
  access_db := {| departments := []; department_members := []; resource_acls := []; shares := []; public_assets := [] |} |}.

Definition objects_reachable (d : dialect) (db : ObjectsDB) : Prop := rtc (objects_step d) empty_objects db.

Lemma objects_step_inv d db db' : objects_step d db db' -> objects_inv db -> objects_inv db'.
Proof.
  intros Hs. destruct Hs; try (revert db;
    first [ apply UpsertObject_safe | apply InsertObjectVersion_safe | apply InsertDeleteMarker_safe
          | apply UpdateObjectStorageClass_safe | apply SoftDeleteObject_safe | apply SoftDeleteObjectByID_safe
          | apply HardDeleteObject_safe | apply HardDeleteObjectByID_safe | apply DeleteObjectVersion_safe
          | apply RestoreObject_safe | apply update_metadata_safe | apply PutLegalHold_safe
          | apply RemoveLegalHold_safe | apply HardDeleteObjectWithEvent_safe
          | apply SoftDeleteObjectWithEvent_safe | apply SoftDeleteObjectByIDWithEvent_safe ]).
  - revert db. change (keeps safe (RecordAudit d ctx now e)). unfold RecordAudit. safe_tac.
  - intros [? ? ? ? ? ? Ho]. split; try done. by apply run_call_inv.
  - intros [? ? ? ? ? ? Ho]. by split.
Qed.

Lemma objects_reach_inv d db : objects_reachable d db -> objects_inv db.
Proof.
  intros Hr. apply (rtc_ind_r (R := objects_step d) objects_inv empty_objects); [|intros y z _ Hs; by apply (objects_step_inv d)|done].
  split; cbn; [done|constructor|by intros o ?%not_elem_of_nil|constructor|by intros o ?%not_elem_of_nil|by intros h ?%not_elem_of_nil|].
  apply (outbox_reach_inv d). apply rtc_refl.
Qed.

(** What the invariant says of the rows. *)
Definition rows_well_formed (db : ObjectsDB) : Prop :=
  NoDup (map ob_ID (objects db)) /\
  (forall o, o ∈ objects db -> 0 < ob_ID o) /\
  (forall o o', o ∈ objects db -> o' ∈ objects db -> is_live o = true -> is_live o' = true ->
     object_key o = object_key o' -> o = o') /\
  (forall o, o ∈ objects db -> is_live o = true -> ob_VersionTombstone o = false) /\
  (forall h, h ∈ legal_holds db -> exists o, o ∈ objects db /\ ob_ID o = lh_object_id h).

Lemma objects_inv_rows db : objects_inv db -> rows_well_formed db.
Proof.
  intros [Hs Hi Hb Hl Ht Hh _]. split_and!; [done| | |done|].
  - intros o Ho. specialize (Hb o Ho). lia.
  - intros o o' Ho Ho' Hlo Hlo' Hk. apply (NoDup_map_inj object_key (List.filter is_live (objects db))); [done| | |done];
      by apply elem_filter_b.
  - intros h Hin. specialize (Hh h Hin). apply list_elem_of_fmap in Hh as (o & Hid & Ho). by exists o.
Qed.

(** ** Sample states *)

Definition sample_object (bucket key : string) : Object := {|
  ob_ID := 0; ob_TenantID := ""; ob_Bucket := bucket; ob_Key := key; ob_VersionID := ""; ob_Backend := "local";
  ob_StorageKey := key; ob_Size := 3; ob_ETag := "e"; ob_ContentType := "text/plain"; ob_Metadata := ∅;
  ob_Tags := ∅; ob_StorageClass := "STANDARD"; ob_CreatedAt := 0; ob_UpdatedAt := 0; ob_DeletedAt := None;
  ob_LockedUntil := None; ob_VersionTombstone := false |}.

(** The day the samples are written on; [at_sec] is a second of it. *)
Definition at_sec (n : Z) : time := instant 738944 n 0.

Definition put (d : dialect) (n : Z) (version key : string) (db : ObjectsDB) : ObjectsDB :=
  fst (InsertObjectVersion d None (at_sec n) version (sample_object "b" key) db).

(** Two versions of "k", the second live. *)
Definition two_versions (d : dialect) : ObjectsDB := put d 2 "v2" "k" (put d 1 "v1" "k" empty_objects).
(** The same key, soft-deleted. *)
Definition deleted_versions (d : dialect) : ObjectsDB := fst (SoftDeleteObject d None (at_sec 3) "" "b" "k" (two_versions d)).
(** The live row under legal hold. *)
Definition sample_hold : LegalHold := {|
  l_ID := 0; l_ObjectID := 2; l_VersionID := "v2"; l_TenantID := ""; l_Bucket := ""; l_ObjectKey := "";
  l_HoldReason := "case"; l_CreatedAt := ""; l_CreatedBy := "ann" |}.
Definition held_versions (d : dialect) : ObjectsDB := fst (PutLegalHold d None (at_sec 3) sample_hold (two_versions d)).

Lemma objects_run_reachable d db db' : objects_reachable d db -> objects_step d db db' -> objects_reachable d db'.
Proof. apply rtc_r. Qed.

Lemma put_reachable d n v k db : objects_reachable d db -> objects_reachable d (put d n v k db).
Proof. intros H. eapply objects_run_reachable; [exact H|apply os_version]. Qed.
Lemma two_versions_reachable d : objects_reachable d (two_versions d).
Proof. apply put_reachable, put_reachable, rtc_refl. Qed.
Lemma deleted_versions_reachable d : objects_reachable d (deleted_versions d).
Proof. eapply objects_run_reachable; [apply two_versions_reachable|apply os_soft]. Qed.
Lemma held_versions_reachable d : objects_reachable d (held_versions d).
Proof. eapply objects_run_reachable; [apply two_versions_reachable|apply os_hold]. Qed.
