(* ===== verification/ObjectsProps.v ===== *)
(** * What the object repository guarantees

    Rows under legal hold survive every operation on these tables but the removal of the hold
    ([objects_step_held]); a delete with its audit row and facts is all or nothing
    ([event_deletes_atomic]); deleting the current version promotes the newest remaining
    one ([DeleteObjectVersion_promotes]); a new version is what a read gives back and
    the old one stays ([new_version_is_current]); a restore undoes a soft delete
    ([restore_undoes_delete]). *)

From Stdlib Require Import Ascii Lia Bool ZArith.
From stdpp Require Import base gmap strings list numbers relations.
From S2P Require Import Prelude GoStrings Json GoTime GoErrors Sql JsonStruct Keyset Access AccessStore Outbox OutboxProps Objects ObjectsInvariant.

Open Scope Z_scope.

(** ** Legal holds *)

Definition held_id (db : ObjectsDB) (id : Z) : Prop :=
  id ∈ map ob_ID (objects db) /\ id ∈ map lh_object_id (legal_holds db).

Definition keeps_held (s s' : ObjectsDB) : Prop := forall id, held_id s id -> held_id s' id.

#[export] Instance keeps_held_preorder : PreOrder keeps_held.
Proof. unfold keeps_held. split; [by intros s|by intros s s' s'' H1 H2 id H; apply H2, H1]. Qed.

Lemma run_keeps {S A B} (R : S -> S -> Prop) `{!PreOrder R} (m : prog S A) (k : A -> prog S B) s :
  R s (fst (m s)) -> (forall a, keeps R (k a)) -> R s (fst (bind m k s)).
Proof.
  intros Hm Hk. unfold bind. destruct (m s) as [s' [a|e]]; [|done]. etrans; [exact Hm|apply Hk].
Qed.

Lemma keeps_held_update p f : (forall o, ob_ID (f o) = ob_ID o) -> keeps keeps_held (update_objects p f).
Proof. intros Hf db id [Ho Hh]. cbn. split; cbn; [by rewrite map_update_where|done]. Qed.

Lemma keeps_held_insert d row : keeps keeps_held (insert_object d row).
Proof.
  intros db id [Ho Hh]. unfold insert_object. repeat case_match; try done.
  split; cbn; [|done]. rewrite map_app. apply elem_of_app. by left.
Qed.

Lemma keeps_held_access f : keeps keeps_held (on_access f).
Proof. by intros s id. Qed.

Lemma keeps_held_audit d now e : keeps keeps_held (insertAuditEntry d now e).
Proof. intros s id. unfold insertAuditEntry. by destruct (MaxInt64 <=? audit_seq s). Qed.

Lemma keeps_held_outbox {A} (m : prog OutboxDB A) : keeps keeps_held (on_outbox m).
Proof. intros s id. unfold on_outbox. by destruct (m (outbox_db s)). Qed.

(** Deleting rows none of which is held. *)
Lemma delete_unheld p db :
  (forall o, o ∈ objects db -> p o = true -> ob_ID o ∉ map lh_object_id (legal_holds db)) ->
  keeps_held db (fst (delete_objects p db)).
Proof.
  intros Hp id [Ho Hh]. apply list_elem_of_fmap in Ho as (o & -> & Ho). split; cbn.
  - apply list_elem_of_fmap_2, elem_delete_where. split; [done|].
    destruct (p o) eqn:E; [|done]. by destruct (Hp o Ho E).
  - apply list_elem_of_fmap in Hh as (h & Hid & Hh). rewrite Hid. apply list_elem_of_fmap_2, elem_delete_where.
    split; [done|]. apply existsb_none. intros x Hx. destruct (Z.eqb_spec (ob_ID x) (lh_object_id h)) as [E|]; [|done].
    destruct (p x) eqn:Ep; [|done]. destruct (Hp x Hx Ep). rewrite E. by apply list_elem_of_fmap_2.
Qed.

Lemma held_false p db : held p db = false ->
  forall o, o ∈ objects db -> p o = true -> ob_ID o ∉ map lh_object_id (legal_holds db).
Proof.
  unfold held. rewrite existsb_none. intros H o Ho Hp (h & Hid & Hh)%list_elem_of_fmap.
  specialize (H o Ho). rewrite Hp in H. cbn in H. rewrite existsb_none in H. specialize (H h Hh).
  by rewrite Hid, Z.eqb_refl in H.
Qed.

Ltac held_tac :=
  repeat (match goal with
  | |- keeps _ (in_tx _) => apply keeps_tx; [apply _|]
  | |- keeps _ (with_ctx _) => apply keeps_ctx; apply _
  | |- keeps keeps_held (update_objects _ _) => apply keeps_held_update; done
  | |- keeps keeps_held (insert_object _ _) => apply keeps_held_insert
  | |- keeps keeps_held (drop_access_state _ _ _) => apply keeps_held_access
  | |- keeps keeps_held (insertAuditEntry _ _ _) => apply keeps_held_audit
  | |- keeps keeps_held (on_outbox _) => apply keeps_held_outbox
  | |- keeps _ (match ?x with _ => _ end) => destruct x
  end || (progress keeps_tac)).

(** Past the context check, inside the transaction. *)
Ltac enter_tx :=
  apply keeps_bind; [apply _|apply keeps_ctx; apply _|intros _]; apply keeps_tx; [apply _|].

(** A guarded delete followed by steps that keep held rows. *)
Lemma guarded_delete_keeps {A} t b k (rest : Z -> prog ObjectsDB A) :
  (forall n, keeps keeps_held (rest n)) ->
  keeps keeps_held (run! refuse_held (at_key t b k) in
                    run! drop_access_state t b k in
                    do! n := delete_objects (at_key t b k) in rest n).
Proof.
  intros Hr db. unfold refuse_held. rewrite run_guard. destruct (held _ db) eqn:E; [done|].
  unfold drop_access_state, on_access, writes, bind at 1.
  change (keeps_held db) with (keeps_held (set_access (deleteObjectAccessState (access_db db) t b k) db)).
  apply run_keeps; [apply _| |done]. apply delete_unheld. by apply held_false.
Qed.

Lemma guarded_delete_id_keeps {A} id (rest : Z -> prog ObjectsDB A) :
  (forall n, keeps keeps_held (rest n)) ->
  keeps keeps_held (run! refuse_held_id id in do! n := delete_objects (has_object_id id) in rest n).
Proof.
  intros Hr db. unfold refuse_held_id. rewrite run_guard. destruct (existsb _ _) eqn:E; [done|].
  apply run_keeps; [apply _| |done]. apply delete_unheld. intros o Ho <-%Z.eqb_eq (h & Hid & Hh)%list_elem_of_fmap.
  rewrite existsb_none in E. specialize (E h Hh). by rewrite Hid, Z.eqb_refl in E.
Qed.

Lemma promote_keeps_held d t b k : keeps keeps_held (promoteLatestObjectVersion d t b k).
Proof. unfold promoteLatestObjectVersion. held_tac. Qed.

Lemma DeleteObjectVersion_keeps_held d ctx t b k v : keeps keeps_held (DeleteObjectVersion d ctx t b k v).
Proof.
  unfold DeleteObjectVersion, objectVersionCount. apply keeps_bind; [apply _|by apply keeps_ctx; apply _|intros _].
  apply keeps_tx; [apply _|]. apply keeps_bind; [apply _|by apply keeps_reads; apply _|intros row].
  intros db. unfold refuse_held_id. rewrite run_guard. destruct (existsb _ _) eqn:E; [done|].
  assert (forall db', legal_holds db' = legal_holds db ->
            keeps_held db' (fst (delete_objects (has_object_id (ob_ID row)) db'))) as Hdel.
  { intros db' Hh. apply delete_unheld. rewrite Hh. intros o Ho Hid%Z.eqb_eq (h & Hx & Hin)%list_elem_of_fmap.
    rewrite existsb_none in E. specialize (E h Hin). rewrite <- Hx, Hid, Z.eqb_refl in E. done. }
  assert (forall u : unit, keeps keeps_held
     (run! promoteLatestObjectVersion d (defaultTenant t) b k in
      do! remaining := reads (fun db => Ok (Z.of_nat (length (List.filter (at_key (defaultTenant t) b k) (objects db))))) in
      if remaining =? 0 then drop_access_state (defaultTenant t) b k else ret tt)) as Hrest.
  { intros _. apply keeps_bind; [apply _|apply promote_keeps_held|intros _]. held_tac. }
  destruct (is_live row); unfold bind at 1; cbn -[delete_objects promoteLatestObjectVersion].
  - unfold drop_access_state, on_access, writes.
    change (keeps_held db) with (keeps_held (set_access (deleteObjectAccessState (access_db db) (defaultTenant t) b k) db)).
    apply run_keeps; [apply _|by apply Hdel|intros _; apply (Hrest tt)].
  - apply run_keeps; [apply _|by apply Hdel|intros _; apply (Hrest tt)].
Qed.

Lemma PutLegalHold_keeps_held d ctx now l : keeps keeps_held (PutLegalHold d ctx now l).
Proof.
  unfold PutLegalHold. held_tac. intros db id [Ho Hh]. repeat case_match; try done; split; cbn; try done.
  - by rewrite map_update_where.
  - rewrite map_app. apply elem_of_app. by left.
Qed.

Lemma RemoveLegalHold_keeps_held ctx id v db id' :
  id' <> id -> held_id db id' -> held_id (fst (RemoveLegalHold ctx id v db)) id'.
Proof.
  intros Hne [Ho Hh]. unfold RemoveLegalHold, with_ctx. rewrite run_guard. destruct ctx; [done|]. split; [done|].
  cbn. apply list_elem_of_fmap in Hh as (h & -> & Hh). apply list_elem_of_fmap_2, elem_delete_where. split; [done|].
  unfold hold_at. by rewrite (proj2 (Z.eqb_neq _ _) Hne).
Qed.

(** A row under legal hold is there, still under hold, after any operation of the object
    tables but the removal of a hold on it. *)
Lemma objects_step_held d db db' id :
  objects_step d db db' -> held_id db id ->
  held_id db' id \/ exists v, db' = fst (RemoveLegalHold None id v db).
Proof.
  intros Hs Hid. revert id Hid. destruct Hs; intros id' Hid.
  all: try lazymatch goal with
  | |- held_id (fst (RemoveLegalHold _ _ _ _)) _ \/ _ => idtac
  | |- held_id (fst (?m ?s)) _ \/ _ => left; refine ((_ : keeps keeps_held m) s id' Hid)
  | |- _ => left
  end.
  - unfold UpsertObject. held_tac.
  - unfold InsertObjectVersion. held_tac.
  - unfold InsertDeleteMarker. held_tac.
  - unfold UpdateObjectStorageClass. held_tac.
  - unfold SoftDeleteObject, soft_delete. held_tac.
  - unfold SoftDeleteObjectByID, soft_delete. held_tac.
  - unfold HardDeleteObject. enter_tx. apply guarded_delete_keeps. intros n. held_tac.
  - unfold HardDeleteObjectByID, objectVersionCount. enter_tx. apply keeps_bind; [apply _|held_tac|intros row].
    apply guarded_delete_id_keeps. intros n. held_tac.
  - apply DeleteObjectVersion_keeps_held.
  - unfold RestoreObject. held_tac.
  - unfold update_metadata. held_tac.
  - apply PutLegalHold_keeps_held.
  - destruct ctx; [by left|]. destruct (decide (id' = id)) as [->|]; [right; by exists v|left; by apply RemoveLegalHold_keeps_held].
  - unfold RecordAudit. held_tac.
  - unfold HardDeleteObjectWithEvent, record_delete. apply keeps_bind; [apply _|held_tac|intros _].
    enter_tx. apply guarded_delete_keeps. intros n. held_tac.
  - unfold SoftDeleteObjectWithEvent, soft_delete, record_delete. held_tac.
  - unfold SoftDeleteObjectByIDWithEvent, soft_delete, record_delete. held_tac.
  - done.
  - done.
Qed.

(** ** Deletes with events *)

(** The delete transactions of the outbox, with the rows each removes and, for a soft
    delete, the time it stamps them with. *)
Inductive event_delete (d : dialect) (ctx : option error) (c : clocks) (entry : AuditEntry) (facts : list OutboxFact)
  : prog ObjectsDB unit -> (Object -> bool) -> option time -> Prop :=
| ed_hard t b k :
    event_delete d ctx c entry facts (HardDeleteObjectWithEvent d ctx c t b k entry facts)
      (at_key (defaultTenant t) b k) None
| ed_soft t b k :
    event_delete d ctx c entry facts (SoftDeleteObjectWithEvent d ctx c t b k entry facts)
      (fun o => at_key (defaultTenant t) b k o && is_live o) (Some (column_time d (c_delete c)))
| ed_soft_id id :
    event_delete d ctx c entry facts (SoftDeleteObjectByIDWithEvent d ctx c id entry facts)
      (fun o => has_object_id id o && is_live o) (Some (column_time d (c_delete c))).

Definition deleted_rows (p : Object -> bool) (stamp : option time) (l : list Object) : list Object :=
  match stamp with
  | None => delete_where p l
  | Some t => update_where p (with_deleted (Some t)) l
  end.

Definition audit_row (id : Z) (now : time) (e : AuditEntry) : AuditEntry := {|
  a_ID := id; a_Actor := a_Actor e; a_Action := a_Action e; a_Target := a_Target e; a_TenantID := a_TenantID e;
  a_Detail := a_Detail e;
  a_CreatedAt := if (a_CreatedAt e =s "") then FormatRFC3339Nano now else a_CreatedAt e |}.

Definition fact_rows (db : OutboxDB) (now : time) (facts : list OutboxFact) : list OutboxRow :=
  zip_with (fun id f => fact_row id (UnixNano now) f) (seqZ (outbox_seq db + 1) (Z.of_nat (length facts))) facts.

Lemma record_delete_Ok d c entry facts db db' u :
  record_delete d c entry facts db = (db', Ok u) -> validateOutboxFacts facts = None ->
  objects db' = objects db /\ legal_holds db' = legal_holds db /\ access_db db' = access_db db /\
  audit_log db' = audit_log db ++ [audit_row (audit_seq db + 1) (c_audit c) entry] /\
  event_outbox (outbox_db db') = event_outbox (outbox_db db) ++ fact_rows (outbox_db db) (c_facts c) facts.
Proof.
  unfold record_delete. intros (db1 & [] & H1 & H2)%bind_Ok Hv%validateOutboxFacts_Forall.
  unfold insertAuditEntry in H1. destruct (MaxInt64 <=? audit_seq db); [done|]. injection H1 as <-.
  unfold on_outbox in H2. cbn in H2.
  destruct (insertOutboxFacts d (c_facts c) facts (outbox_db db)) as [o r] eqn:E. injection H2 as <- ->.
  apply insert_facts_Ok in E as (rows & He & _ & _ & _ & ->); [|done]. done.
Qed.

Lemma length_filter_0 {A} (p : A -> bool) l : (Z.of_nat (length (List.filter p l)) =? 0) = negb (existsb p l).
Proof. induction l as [|x l IH]; [done|]. cbn. by destruct (p x). Qed.

Lemma soft_delete_Ok d now p db db' u :
  soft_delete d now p db = (db', Ok u) ->
  existsb (fun o => p o && is_live o) (objects db) = true /\
  db' = set_objects (update_where (fun o => p o && is_live o) (with_deleted (Some (column_time d now))) (objects db)) db.
Proof.
  unfold soft_delete. intros (db1 & n & H1 & H2)%bind_Ok. unfold update_objects in H1. injection H1 as <- <-.
  apply refuse_if_Ok in H2 as [-> H2]. rewrite length_filter_0 in H2. apply negb_false_iff in H2. by split.
Qed.

Lemma access_Ok f db db' u : on_access f db = (db', Ok u) -> db' = set_access (f (access_db db)) db.
Proof. unfold on_access. intros H%writes_Ok. by injection H as <-. Qed.

Lemma get_row_Ok {A} (p : A -> bool) l x : get_row p l = Ok x -> x ∈ l /\ p x = true.
Proof.
  unfold get_row. destruct (List.find p l) eqn:E; [|done]. intros [= ->].
  apply find_some in E as [? ?]. split; [by apply list_elem_of_In|done].
Qed.

(** C28: a delete with its event is all or nothing.  When it succeeds it removed (or
    stamped as deleted) rows that existed, appended exactly one audit row and exactly
    the validated facts, pending and in order; when it fails the database is as before:
    no half delete, no phantom fact, no phantom audit row. *)
Theorem event_deletes_atomic d ctx c entry facts m p stamp db db' r :
  event_delete d ctx c entry facts m p stamp -> m db = (db', r) ->
  match r with
  | Err _ => db' = db
  | Ok _ =>
      existsb p (objects db) = true /\ objects db' = deleted_rows p stamp (objects db) /\
      validateOutboxFacts facts = None /\
      audit_log db' = audit_log db ++ [audit_row (audit_seq db + 1) (c_audit c) entry] /\
      event_outbox (outbox_db db') = event_outbox (outbox_db db) ++ fact_rows (outbox_db db) (c_facts c) facts
  end.
Proof.
  intros Hm. destruct Hm as [t b k|t b k|id].
  - unfold HardDeleteObjectWithEvent. rewrite run_guard. destruct (validateOutboxFacts facts) eqn:Hv; [by intros [= <- <-]|].
    unfold with_ctx. rewrite run_guard. destruct ctx; [by intros [= <- <-]|]. destruct r as [[]|e]; [|apply in_tx_Err].
    intros H%in_tx_Ok. unfold refuse_held in H. apply bind_Ok in H as (db1 & [] & [-> _]%guard_Ok & H).
    apply bind_Ok in H as (db1 & [] & ->%access_Ok & H). apply bind_Ok in H as (db1 & n & H1 & H).
    unfold delete_objects in H1. injection H1 as <- <-. apply bind_Ok in H as (db1 & [] & [-> Hn]%refuse_if_Ok & H).
    cbn [objects set_access] in Hn. rewrite length_filter_0 in Hn. apply negb_false_iff in Hn.
    apply record_delete_Ok in H as (Ho & _ & _ & Ha & He); [|done]. done.
  - unfold SoftDeleteObjectWithEvent. rewrite run_guard. destruct (validateOutboxFacts facts) eqn:Hv; [by intros [= <- <-]|].
    unfold with_ctx. rewrite run_guard. destruct ctx; [by intros [= <- <-]|]. destruct r as [[]|e]; [|apply in_tx_Err].
    intros H%in_tx_Ok. apply bind_Ok in H as (db1 & [] & [He ->]%soft_delete_Ok & H).
    apply bind_Ok in H as (db1 & [] & ->%access_Ok & H). apply record_delete_Ok in H as (Ho & _ & _ & Ha & Hob); done.
  - unfold SoftDeleteObjectByIDWithEvent, with_ctx. rewrite run_guard. destruct ctx; [by intros [= <- <-]|].
    destruct r as [[]|e]; [|apply in_tx_Err]. intros H%in_tx_Ok. rewrite run_guard in H.
    destruct (validateOutboxFacts facts) eqn:Hv; [done|].
    apply bind_Ok in H as (db1 & row & [-> _]%reads_Ok & H). apply bind_Ok in H as (db1 & [] & [He ->]%soft_delete_Ok & H).
    apply bind_Ok in H as (db1 & [] & ->%access_Ok & H). apply record_delete_Ok in H as (Ho & _ & _ & Ha & Hob); done.
Qed.

(** ** Versions *)

(** A new version becomes the object of its key, with the contents it was given, and
    every row the table had is still there: the previously live one as a tombstone, the
    others as they were. *)
Theorem new_version_is_current d now fresh o db db' o' :
  objects_reachable d db -> InsertObjectVersion d None now fresh o db = (db', Ok o') ->
  let obj := with_defaults fresh o in
  let row := new_object d (ob_ID o') now obj in
  snd (GetObject None (ob_TenantID obj) (ob_Bucket obj) (ob_Key obj) db') = Ok row /\
  (forall x, x ∈ objects db -> x ∈ objects db' \/
     (object_key x = object_key obj /\ is_live x = true /\ tombstone d now x ∈ objects db')).
Proof.
  intros Hr H obj row. unfold InsertObjectVersion, with_ctx in H. rewrite run_guard in H. apply in_tx_Ok in H. fold obj in H.
  apply bind_Ok in H as (db1 & n & H1 & H). unfold update_objects in H1. injection H1 as <- <-.
  apply bind_Ok in H as (db1 & r & H1 & H). apply ret_Ok in H as [-> <-].
  unfold insert_object in H1. destruct (MaxInt64 <=? _); [done|]. destruct (_ && _); [done|]. injection H1 as <- <-.
  cbn [obj_seq set_objects objects ob_ID returned new_object] in *.
  set (same := live_at (ob_TenantID obj) (ob_Bucket obj) (ob_Key obj)).
  assert (defaultTenant (ob_TenantID obj) = ob_TenantID obj) as Ht.
  { cbn. unfold defaultTenant. destruct (ob_TenantID o =s "") eqn:E; [done|]. by rewrite E. }
  split.
  - unfold GetObject, with_ctx. rewrite run_guard, Ht. unfold reads, get_row. cbn [snd objects]. rewrite find_snoc.
    change (live_at (defaultTenant (ob_TenantID o)) (ob_Bucket o) (ob_Key o)) with same.
    change (live_at (ob_TenantID obj) (ob_Bucket obj) (ob_Key obj)) with same.
    assert (List.find same (update_where same (tombstone d now) (objects db)) = None) as ->.
    { destruct (List.find _ _) as [x|] eqn:E; [|done]. apply find_some in E as [Hx%list_elem_of_In Hs].
      apply elem_update_where in Hx as [(y & _ & _ & ->)|[_ Hn]]; [|congruence].
      unfold same, live_at in Hs. apply andb_true_iff in Hs as [_ Hs]. done. }
    assert (same (new_object d (obj_seq db + 1) now obj) = true) as ->; [|done]. unfold same. by apply live_at_true.
  - intros x Hx. destruct (same x) eqn:E; [right|left].
    + apply live_at_true in E as [Hk Hl]. split; [done|]. split; [done|]. apply elem_of_app. left.
      apply elem_update_where. left. exists x. split; [done|]. split; [by apply live_at_true|done].
    + apply elem_of_app. left. apply elem_update_where. by right.
Qed.

(** The order of the versions of a key commutes with selecting rows. *)
Lemma versions_filter d p l :
  NoDup (map ob_ID l) -> sort_by (newest_le d) (List.filter p l) = List.filter p (sort_by (newest_le d) l).
Proof.
  intros Hn. assert (forall (K : Type) (f : Object -> K), NoDup (map (fun o => (f o, ob_ID o)) l)) as Hk.
  { intros K f. apply (NoDup_fmap_1 snd). change (NoDup (map snd (map (fun o => (f o, ob_ID o)) l))). by rewrite map_map. }
  destruct d.
  - apply (sort_filter (fun o => (FormatRFC3339Nano (ob_UpdatedAt o), ob_ID o))
             (lexb string_gtb Z_gtb)); apply Hk.
  - apply (sort_filter (fun o => (ob_UpdatedAt o, ob_ID o)) (lexb Z_gtb Z_gtb)); apply Hk.
Qed.

Definition is_marker (o : Object) : bool := bool_decide (ob_Metadata o !! delete_marker_key = Some "true"%string).

Definition revived (o : Object) : Object := with_tombstone false (with_deleted None o).

(** The rows of a key without live rows, after a promotion. *)
Lemma promote_run d t b k db :
  objects_inv db -> (forall x, x ∈ objects db -> live_at t b k x = false) ->
  promoteLatestObjectVersion d t b k db =
  (match list.head (versions_of d t b k db) with
   | Some o => if is_marker o then db
               else set_objects (update_where (has_object_id (ob_ID o)) revived (objects db)) db
   | None => db
   end, Ok tt).
Proof.
  intros Hinv Hdead. unfold promoteLatestObjectVersion. rewrite run_reads, (filter_none _ _ Hdead), run_reads.
  destruct (list.head _) as [o|]; [|done]. unfold is_marker. by destruct (bool_decide _).
Qed.

Lemma live_unique db x y :
  objects_inv db -> x ∈ objects db -> y ∈ objects db -> is_live x = true -> is_live y = true ->
  object_key x = object_key y -> x = y.
Proof.
  intros Hinv Hx Hy Hlx Hly Hk. apply (NoDup_map_inj object_key (List.filter is_live (objects db)));
    [apply Hinv|by apply elem_filter_b|by apply elem_filter_b|done].
Qed.

(** The object of a key whose live rows are all the same. *)
Lemma get_live t b k l o :
  o ∈ l -> live_at t b k o = true -> (forall x, x ∈ l -> live_at t b k x = true -> x = o) ->
  get_row (live_at t b k) l = Ok o.
Proof.
  intros Ho Hl Hu. unfold get_row. destruct (List.find _ l) as [x|] eqn:E.
  - apply find_some in E as [Hx%list_elem_of_In Hlx]. by rewrite (Hu x Hx Hlx).
  - pose proof (find_none _ _ E o) as H. rewrite H in Hl; [done|]. by apply list_elem_of_In.
Qed.

Lemma get_none t b k l : (forall x, x ∈ l -> live_at t b k x = false) -> get_row (live_at t b k) l = Err not_found.
Proof.
  intros H. unfold get_row. destruct (List.find _ l) as [x|] eqn:E; [|done].
  apply find_some in E as [Hx%list_elem_of_In Hlx]. by rewrite H in Hlx.
Qed.

Lemma promoted_get d t b k db :
  objects_inv db -> (forall x, x ∈ objects db -> live_at t b k x = false) ->
  get_row (live_at t b k) (objects (fst (promoteLatestObjectVersion d t b k db))) =
  match list.head (versions_of d t b k db) with
  | Some o => if is_marker o then Err not_found else Ok (revived o)
  | None => Err not_found
  end.
Proof.
  intros Hinv Hdead. rewrite promote_run by done. cbn [fst].
  destruct (list.head _) as [o|] eqn:Eh; [|by apply get_none].
  destruct (is_marker o); [by apply get_none|]. apply head_elem, versions_of_elem in Eh as [Hin Hk].
  apply get_live.
  - apply elem_update_where. left. exists o. split_and!; [done|apply Z.eqb_refl|done].
  - by apply live_at_true.
  - intros x [(y & Hy & E & ->)|[Hx _]]%elem_update_where Hl.
    + apply Z.eqb_eq in E. by rewrite (NoDup_map_inj ob_ID _ y o (oi_ids _ Hinv) Hy Hin E).
    + by rewrite Hdead in Hl.
Qed.

(** The state [DeleteObjectVersion] leaves, but for the access tables. *)
Lemma DeleteObjectVersion_Ok d t b k v db db' u :
  DeleteObjectVersion d None t b k v db = (db', Ok u) ->
  exists row a, get_row (version_at (defaultTenant t) b k v) (objects db) = Ok row /\
    ob_ID row ∉ map lh_object_id (legal_holds db) /\
    let db1 := fst (delete_objects (has_object_id (ob_ID row)) (set_access a db)) in
    objects db' = objects (fst (promoteLatestObjectVersion d (defaultTenant t) b k db1)).
Proof.
  unfold DeleteObjectVersion, with_ctx. rewrite run_guard. intros H%in_tx_Ok.
  apply bind_Ok in H as (db1 & row & [-> Hrow]%reads_Ok & H). unfold refuse_held_id in H.
  apply bind_Ok in H as (db1 & [] & [-> Hh]%guard_Ok & H). apply bind_Ok in H as (db1 & [] & Ha & H).
  assert (exists a, db1 = set_access a db) as (a & ->).
  { destruct (is_live row); [apply access_Ok in Ha; eauto|]. apply ret_Ok in Ha as [-> _].
    exists (access_db db). by destruct db. }
  apply bind_Ok in H as (db2 & n & H2 & H).
  apply bind_Ok in H as (db3 & [] & H3 & H). unfold objectVersionCount in H.
  apply bind_Ok in H as (db4 & m & [-> _]%reads_Ok & H). exists row, a. split; [done|]. split.
  { intros (h & Hid & Hin)%list_elem_of_fmap. destruct (existsb _ _) eqn:E; [done|].
    rewrite existsb_none in E. specialize (E h Hin). by rewrite Hid, Z.eqb_refl in E. }
  cbn zeta. assert (objects db' = objects db3) as ->.
  { destruct (m =? 0); [by apply access_Ok in H as ->|by apply ret_Ok in H as [-> _]]. }
  rewrite H2. cbn [fst]. by rewrite H3.
Qed.

(** The versions of a key without one row. *)
Lemma version_heads d t b k id a db :
  NoDup (map ob_ID (objects db)) ->
  versions_of d t b k (fst (delete_objects (has_object_id id) (set_access a db))) =
  List.filter (fun x => negb (has_object_id id x)) (versions_of d t b k db).
Proof.
  intros Hn. unfold versions_of. cbn [objects fst delete_objects set_holds set_objects set_access].
  unfold delete_where. rewrite filter_filter.
  rewrite (List.filter_ext _ (fun x => at_key t b k x && negb (has_object_id id x))) by (intros; apply andb_comm).
  rewrite <- filter_filter, versions_filter; [done|]. by apply NoDup_map_filter.
Qed.

(** Deleting the current version of a key removes that row and makes the newest
    remaining version the object of the key, unless it is a delete marker or there is
    none: then the key has no object. *)
Theorem DeleteObjectVersion_promotes d t b k v db db' row :
  objects_reachable d db -> get_row (version_at (defaultTenant t) b k v) (objects db) = Ok row ->
  is_live row = true -> DeleteObjectVersion d None t b k v db = (db', Ok tt) ->
  snd (GetObject None t b k db') =
  match list.head (List.filter (fun o => negb (has_object_id (ob_ID row) o)) (versions_of d (defaultTenant t) b k db)) with
  | Some o => if is_marker o then Err not_found else Ok (revived o)
  | None => Err not_found
  end.
Proof.
  intros Hr%objects_reach_inv Hrow Hlive H.
  destruct (DeleteObjectVersion_Ok _ _ _ _ _ _ _ _ H) as (row' & a & Hrow' & _ & Hob). cbn zeta in Hob.
  rewrite Hrow in Hrow'. injection Hrow' as <-. apply get_row_Ok in Hrow as [Hin Hv].
  unfold version_at in Hv. apply andb_true_iff in Hv as [Hk%at_key_true _].
  set (db1 := fst (delete_objects (has_object_id (ob_ID row)) (set_access a db))) in *.
  assert (objects_inv db1) as Hinv1 by (apply keeps_delete; by destruct Hr).
  unfold GetObject, with_ctx. rewrite run_guard. unfold reads. cbn [snd]. rewrite Hob, promoted_get; [|done|].
  - unfold db1. by rewrite version_heads by apply Hr.
  - intros x [Hx Hne]%elem_delete_where. destruct (live_at _ _ _ x) eqn:El; [|done].
    apply live_at_true in El as [Hkx Hlx]. cbn in Hx.
    rewrite (live_unique db x row Hr Hx Hin Hlx Hlive ltac:(congruence)) in Hne. unfold has_object_id in Hne.
    by rewrite Z.eqb_refl in Hne.
Qed.

(** ** Restoring *)

(** The order of RestoreObject's subquery is a total preorder. *)
Definition newest_ge (d : dialect) (a b : Object) : bool := negb (time_lt d (ob_UpdatedAt a) (ob_UpdatedAt b)).

Lemma newest_ge_total d a b : newest_ge d a b = true \/ newest_ge d b a = true.
Proof.
  destruct d.
  - apply (key_le_total (fun o => FormatRFC3339Nano (ob_UpdatedAt o)) string_gtb).
  - apply (key_le_total ob_UpdatedAt Z_gtb).
Qed.

Lemma newest_ge_trans d a b c : newest_ge d a b = true -> newest_ge d b c = true -> newest_ge d a c = true.
Proof.
  destruct d.
  - apply (key_le_trans (fun o => FormatRFC3339Nano (ob_UpdatedAt o)) string_gtb).
  - apply (key_le_trans ob_UpdatedAt Z_gtb).
Qed.

(** The candidate when one row is newer than all the others. *)
Lemma restore_candidate_newest d t b k db o :
  o ∈ objects db -> at_key t b k o = true -> is_live o = false -> ob_VersionTombstone o = false ->
  (forall x, x ∈ objects db -> at_key t b k x = true -> is_live x = false -> ob_VersionTombstone x = false ->
     x = o \/ time_lt d (ob_UpdatedAt x) (ob_UpdatedAt o) = true) ->
  restore_candidate d t b k db = Some o.
Proof.
  intros Ho Hk Hl Ht Hmax. unfold restore_candidate. set (p := fun x => _ && _ && _).
  assert (o ∈ List.filter p (objects db)) as Hin.
  { apply elem_filter_b. unfold p. by rewrite Hk, Hl, Ht. }
  destruct (sort_by _ _) as [|x rest] eqn:Hs; [by apply (elem_sort_by (newest_ge d)) in Hin; unfold newest_ge in Hin; rewrite Hs in Hin; apply elem_of_nil in Hin|].
  apply (sort_by_head (newest_ge d)) in Hs as [Hx Hle]; [|apply newest_ge_total|apply newest_ge_trans].
  apply elem_filter_b in Hx as [Hx Hp]. unfold p in Hp. rewrite !andb_true_iff, !negb_true_iff in Hp.
  destruct Hp as [[Hkx Hlx] Htx]. destruct (Hmax x Hx Hkx Hlx Htx) as [->|Hlt]; [done|].
  specialize (Hle o Hin). unfold newest_ge in Hle. by rewrite Hlt in Hle.
Qed.

(** Stamping the live row and clearing the stamp. *)
Lemma restamp l o t :
  NoDup (map ob_ID l) -> o ∈ l -> is_live o = true ->
  update_where (has_object_id (ob_ID o)) (with_deleted None)
    (update_where (has_object_id (ob_ID o)) (with_deleted (Some t)) l) = l.
Proof.
  intros Hn Ho Hl. unfold update_where. rewrite map_map. rewrite <- (map_id l) at 2.
  apply map_ext_in. intros x Hx%list_elem_of_In. unfold has_object_id.
  destruct (Z.eqb_spec (ob_ID x) (ob_ID o)) as [E|E]; cbn.
  - rewrite E, Z.eqb_refl. apply (NoDup_map_inj ob_ID l) in E as ->; [|done..].
    destruct o as [? ? ? ? ? ? ? ? ? ? ? ? ? ? ? []]; [done|done].
  - by apply Z.eqb_neq in E as ->.
Qed.

(** Restoring a key after a soft delete gives back every row as it was, provided the
    deleted object is newer than the rows of its key that were deleted before. *)
Theorem restore_undoes_delete d now t b k db db1 :
  objects_reachable d db -> SoftDeleteObject d None now t b k db = (db1, Ok tt) ->
  (forall o x, o ∈ objects db -> x ∈ objects db -> live_at (defaultTenant t) b k o = true ->
     at_key (defaultTenant t) b k x = true -> is_live x = false -> ob_VersionTombstone x = false ->
     time_lt d (ob_UpdatedAt x) (ob_UpdatedAt o) = true) ->
  snd (RestoreObject d None t b k db1) = Ok tt /\ objects (fst (RestoreObject d None t b k db1)) = objects db.
Proof.
  intros Hr%objects_reach_inv Hdel Hnew. unfold SoftDeleteObject, with_ctx in Hdel. rewrite run_guard in Hdel.
  apply in_tx_Ok, bind_Ok in Hdel as (db2 & [] & [Hex ->]%soft_delete_Ok & ->%access_Ok).
  apply existsb_elem in Hex as (o & Ho & Hlive). set (tn := defaultTenant t) in *.
  change (live_at tn b k o = true) in Hlive. pose proof Hlive as [Hk Hl]%live_at_true.
  set (T := column_time d now) in *. set (rows := update_where _ _ (objects db)).
  assert (rows = update_where (has_object_id (ob_ID o)) (with_deleted (Some T)) (objects db)) as Erows.
  { apply update_where_ext. intros x Hx. fold (live_at tn b k x). unfold has_object_id.
    destruct (live_at tn b k x) eqn:E.
    - apply live_at_true in E as [Hkx Hlx].
      rewrite (live_unique db x o Hr Hx Ho Hlx Hl ltac:(congruence)), Z.eqb_refl. done.
    - destruct (Z.eqb_spec (ob_ID x) (ob_ID o)) as [Ei|]; [|done].
      apply (NoDup_map_inj ob_ID (objects db)) in Ei as ->; [congruence|apply Hr|done..]. }
  assert (forall x, x ∈ rows -> x = with_deleted (Some T) o \/ (x ∈ objects db /\ live_at tn b k x = false)) as Hrows.
  { intros x [(y & Hy & [Hky Hly]%live_at_true & ->)|[Hx Hn]]%elem_update_where; [left|by right].
    by rewrite (live_unique db y o Hr Hy Ho Hly Hl ltac:(congruence)). }
  set (db2 := set_access _ _). assert (objects db2 = rows) as E2 by reflexivity.
  unfold RestoreObject, with_ctx. rewrite run_guard. fold tn. rewrite run_reads.
  change (objects db2) with rows.
  assert (existsb (live_at tn b k) rows = false) as ->.
  { apply existsb_none. intros x Hx%Hrows. destruct Hx as [->|[_ Hx]]; [|done].
    unfold live_at. apply andb_false_iff. by right. }
  rewrite (restore_candidate_newest d tn b k db2 (with_deleted (Some T) o)).
  - unfold bind, update_objects. cbn [fst snd ret]. split; [done|].
    cbn [objects set_objects]. rewrite E2, Erows. apply (restamp _ o T); [apply Hr|done|done].
  - rewrite E2, Erows. apply elem_update_where. left. exists o. split_and!; [done|apply Z.eqb_refl|done].
  - by apply at_key_true in Hk.
  - done.
  - by apply (oi_tombstone _ Hr o).
  - rewrite E2. intros x Hx Hkx Hlx Htx. destruct (Hrows x Hx) as [->|[Hin _]]; [by left|right].
    by apply (Hnew o x).
Qed.

(** ** On the sample states *)

(** The delete of "k" with one fact. *)
Definition sample_clocks : clocks := {| c_delete := at_sec 4; c_audit := at_sec 4; c_facts := at_sec 4 |}.
Definition sample_entry : AuditEntry := {|
  a_ID := 0; a_Actor := "ann"; a_Action := "file.delete"; a_Target := "b/k"; a_TenantID := "default"; a_Detail := "";
  a_CreatedAt := "" |}.
Definition sample_delete (d : dialect) : prog ObjectsDB unit :=
  SoftDeleteObjectWithEvent d None sample_clocks "" "b" "k" sample_entry [sample_fact].

Lemma event_deletes_atomic_witness :
  let db := two_versions dialectPostgres in
  let db' := fst (sample_delete dialectPostgres db) in
  audit_log db' = audit_log db ++ [audit_row 1 (at_sec 4) sample_entry] /\
  event_outbox (outbox_db db') = event_outbox (outbox_db db) ++ fact_rows (outbox_db db) (at_sec 4) [sample_fact].
Proof.
  apply (event_deletes_atomic dialectPostgres None sample_clocks sample_entry [sample_fact] (sample_delete dialectPostgres)
    (fun o => at_key (defaultTenant "") "b" "k" o && is_live o) (Some (column_time dialectPostgres (at_sec 4)))
    (two_versions dialectPostgres) (fst (sample_delete dialectPostgres (two_versions dialectPostgres))) (Ok tt)).
  - apply ed_soft.
  - by vm_compute.
Defined.

Lemma new_version_is_current_witness :
  let o := with_defaults "v2" (sample_object "b" "k") in
  snd (GetObject None "default" "b" "k" (two_versions dialectPostgres)) = Ok (new_object dialectPostgres 2 (at_sec 2) o).
Proof.
  eapply (new_version_is_current dialectPostgres (at_sec 2) "v2" (sample_object "b" "k")
    (put dialectPostgres 1 "v1" "k" empty_objects) (two_versions dialectPostgres)
    (returned (with_defaults "v2" (sample_object "b" "k"))
       (new_object dialectPostgres 2 (at_sec 2) (with_defaults "v2" (sample_object "b" "k"))))).
  - apply put_reachable, rtc_refl.
  - by vm_compute.
Defined.

Lemma DeleteObjectVersion_promotes_witness :
  let db := two_versions dialectPostgres in
  exists o, ob_VersionID o = "v1"%string /\
    snd (GetObject None "" "b" "k" (fst (DeleteObjectVersion dialectPostgres None "" "b" "k" "v2" db))) = Ok o.
Proof.
  intros db. eexists. split; [|
  erewrite (DeleteObjectVersion_promotes dialectPostgres "" "b" "k" "v2" db
    (fst (DeleteObjectVersion dialectPostgres None "" "b" "k" "v2" db))
    (new_object dialectPostgres 2 (at_sec 2) (with_defaults "v2" (sample_object "b" "k")))
    (two_versions_reachable dialectPostgres)); by vm_compute].
  reflexivity.
Defined.

Lemma restore_undoes_delete_witness :
  objects (fst (RestoreObject dialectSQLite None "" "b" "k" (deleted_versions dialectSQLite))) = objects (two_versions dialectSQLite).
Proof.
  apply (restore_undoes_delete dialectSQLite (at_sec 3) "" "b" "k"); [apply two_versions_reachable|by vm_compute|].
  intros o x Ho Hx Hl Hk Hd Ht. vm_compute in Hx. apply elem_of_cons in Hx as [->|Hx]; [done|].
  apply list_elem_of_singleton in Hx as ->. done.
Defined.
