(* ===== verification/ObjectsListProps.v ===== *)
(** * What the listings return

    A prefix pattern matches the keys with that prefix ([literalPrefix_matches]); pages
    followed by their markers give the live objects in key order, each once
    ([ListObjects_enumerates]); the scan by tag ends and gives the page of the matching
    objects ([ListObjectsByTag_filters]). *)
From Stdlib Require Import Ascii Lia Bool ZArith.
From stdpp Require Import base gmap strings list numbers sorting relations.
From S2P Require Import Prelude GoStrings Json JsonProps GoTime Sql GoErrors JsonStruct Keyset Access AccessStore Outbox OutboxProps Objects ObjectsInvariant ObjectsProps.

Open Scope Z_scope.

(** ** Prefixes *)

(** The prefix test of a character equality. *)
Fixpoint prefix_by (eq : ascii -> ascii -> bool) (p s : list ascii) : bool :=
  match p, s with
  | [], _ => true
  | c :: p', a :: s' => eq c a && prefix_by eq p' s'
  | _ :: _, [] => false
  end.

Lemma like_prefix eq p s : like eq (concat (map escape_like p) ++ [char 37]) s = prefix_by eq p s.
Proof.
  revert s. induction p as [|c p IH]; intros s; [by induction s|].
  cbn [map concat]. unfold escape_like at 1.
  destruct (is_char 33 c) eqn:E1; [|destruct (is_char 37 c) eqn:E2; [|destruct (is_char 95 c) eqn:E3]];
    cbn [orb app like]; rewrite ?E1, ?E2, ?E3; cbn; destruct s as [|a s]; cbn; rewrite ?IH; try done.
Qed.

Lemma prefix_by_eqb p s : prefix_by Ascii.eqb (chars p) (chars s) = String.prefix p s.
Proof.
  revert s. induction p as [|c p IH]; intros [|a s]; try done. cbn.
  destruct (Ascii.eqb_spec c a) as [->|E].
  - cbn. destruct (ascii_dec a a); [apply IH|done].
  - by destruct (ascii_dec c a).
Qed.

Lemma prefix_by_lower p s :
  prefix_by (fun a b => Ascii.eqb (lower a) (lower b)) p s = prefix_by Ascii.eqb (map lower p) (map lower s).
Proof. revert s. induction p as [|c p IH]; intros [|a s]; try done. cbn. by rewrite IH. Qed.

Definition ToLowerASCII (s : string) : string := text (map lower (chars s)).

(** The pattern of a prefix matches exactly the keys that start with it, whatever
    wildcards or escapes the prefix has; on SQLite, up to the case of ASCII letters. *)
Theorem literalPrefix_matches d prefix key :
  sql_like d (literalPrefixPattern prefix) key =
  match d with
  | dialectPostgres => String.prefix prefix key
  | dialectSQLite => String.prefix (ToLowerASCII prefix) (ToLowerASCII key)
  end.
Proof.
  unfold sql_like, literalPrefixPattern. rewrite chars_text, like_prefix. destruct d; unfold like_eq.
  - rewrite prefix_by_lower, <- prefix_by_eqb. unfold ToLowerASCII. by rewrite !chars_text.
  - apply prefix_by_eqb.
Qed.

(** ** Pages *)

Lemma page_of_spec limit rows : 0 < limit ->
  page_of limit rows =
  {| lp_Objects := take (Z.to_nat limit) rows;
     lp_NextMarker := if limit <? Z.of_nat (length rows)
                      then match list.last (take (Z.to_nat limit) rows) with Some o => ob_Key o | None => "" end
                      else "";
     lp_HasMore := limit <? Z.of_nat (length rows) |}.
Proof.
  intros Hl. unfold page_of. rewrite length_take, take_take.
  replace (Z.to_nat limit `min` Z.to_nat (limit + 1))%nat with (Z.to_nat limit) by lia.
  destruct (Z.ltb_spec limit (Z.of_nat (length rows))) as [H|H];
    destruct (Z.ltb_spec limit (Z.of_nat (Z.to_nat (limit + 1) `min` length rows))) as [H'|H']; try lia; [done|].
  by rewrite !list.take_ge by lia.
Qed.

Lemma page_limit_pos limit : 0 < page_limit limit <= 1000.
Proof.
  unfold page_limit. destruct (Z.leb_spec limit 0), (Z.ltb_spec 1000 limit); cbn; lia.
Qed.

Section Rows.
Context (d : dialect) (p : Object -> bool) (tenant bucket prefix : string) (db : ObjectsDB).
Context (Hn : NoDup (map ob_Key (List.filter (fun o => (ob_TenantID o =s tenant) && (ob_Bucket o =s bucket) && p o &&
                 sql_like d (literalPrefixPattern prefix) (ob_Key o)) (objects db)))).

(** The rows after a marker, in order. *)
Definition rows_from (marker : string) : list Object :=
  sort_by by_key (List.filter (listed d p tenant bucket prefix marker) (objects db)).

Lemma rows_from_filter marker :
  rows_from marker =
  List.filter (fun o => String.ltb marker (ob_Key o))
    (sort_by by_key (List.filter (fun o => (ob_TenantID o =s tenant) && (ob_Bucket o =s bucket) && p o &&
       sql_like d (literalPrefixPattern prefix) (ob_Key o)) (objects db))).
Proof.
  unfold rows_from, listed. etrans; [|apply (sort_filter ob_Key String.ltb), Hn].
  by rewrite filter_filter.
Qed.

Lemma rows_from_sorted marker : StronglySorted (key_lt ob_Key String.ltb) (rows_from marker).
Proof.
  rewrite rows_from_filter. apply filter_strict. by apply (sort_strict ob_Key String.ltb).
Qed.

Lemma rows_from_after marker o : o ∈ rows_from marker -> String.ltb marker (ob_Key o) = true.
Proof. rewrite rows_from_filter. by intros [_ ?]%elem_filter_b. Qed.

(** The rows after one of the rows. *)
Lemma rows_from_split marker l1 o l2 : rows_from marker = l1 ++ o :: l2 -> rows_from (ob_Key o) = l2.
Proof.
  intros H. assert (o ∈ rows_from marker) as Ho%rows_from_after.
  { rewrite H. apply elem_of_app. right. by left. }
  pose proof (rows_from_sorted marker) as Hs. rewrite H in Hs. apply (filter_after ob_Key String.ltb) in Hs as <-.
  rewrite <- H, !rows_from_filter, filter_filter. apply List.filter_ext. intros x.
  destruct (String.ltb (ob_Key o) (ob_Key x)) eqn:E; [|by rewrite andb_false_r].
  by rewrite (st_trans _ _ _ Ho E).
Qed.

(** The marker of a page that has more. *)
Lemma next_page marker limit :
  0 < limit -> limit < Z.of_nat (length (rows_from marker)) ->
  exists o, list.last (take (Z.to_nat limit) (rows_from marker)) = Some o /\
    rows_from (ob_Key o) = drop (Z.to_nat limit) (rows_from marker) /\
    String.ltb marker (ob_Key o) = true.
Proof.
  intros Hl Hlt. destruct (list.last _) as [o|] eqn:E.
  - exists o. split; [done|]. apply last_Some in E as (l' & E).
    assert (rows_from marker = l' ++ o :: drop (Z.to_nat limit) (rows_from marker)) as Hr.
    { rewrite <- (take_drop (Z.to_nat limit) (rows_from marker)) at 1. by rewrite E, <- app_assoc. }
    split; [by eapply rows_from_split|]. apply (rows_from_after marker). rewrite Hr. apply elem_of_app. right. by left.
  - apply last_None in E. apply (f_equal length) in E. rewrite length_take in E. cbn in E. lia.
Qed.
End Rows.

(** The keys of the live rows of a bucket are distinct. *)
Lemma live_bucket_keys d tenant bucket prefix db :
  objects_inv db ->
  NoDup (map ob_Key (List.filter (fun o => (ob_TenantID o =s tenant) && (ob_Bucket o =s bucket) && is_live o &&
                 sql_like d (literalPrefixPattern prefix) (ob_Key o)) (objects db))).
Proof.
  intros Hi. apply (NoDup_fmap_1 (fun k => (tenant, bucket, k))).
  assert (forall l : list Object, (fun k => (tenant, bucket, k)) <$> map ob_Key
      (List.filter (fun o => (ob_TenantID o =s tenant) && (ob_Bucket o =s bucket) && is_live o &&
                 sql_like d (literalPrefixPattern prefix) (ob_Key o)) l) =
      map object_key (List.filter (fun o => (ob_TenantID o =s tenant) && (ob_Bucket o =s bucket) &&
                 sql_like d (literalPrefixPattern prefix) (ob_Key o)) (List.filter is_live l))) as ->.
  { intros l. induction l as [|o l IH]; [done|]. cbn.
    destruct (is_live o); rewrite ?andb_false_r; cbn; [|done].
    destruct (ob_TenantID o =s tenant) eqn:Et; [|done]. destruct (ob_Bucket o =s bucket) eqn:Eb; [|done]. cbn.
    destruct (sql_like _ _ _); cbn; [|done]. rewrite IH. apply streqb_true in Et as <-. by apply streqb_true in Eb as <-. }
  apply NoDup_map_filter, Hi.
Qed.

(** A client that follows the markers of a listing until there are no more pages. *)
Fixpoint list_all (d : dialect) (tenant bucket prefix : string) (limit : Z) (db : ObjectsDB)
    (fuel : nat) (marker : string) : option (list Object) :=
  match fuel with
  | O => None
  | S fuel =>
      match snd (ListObjects d None tenant bucket prefix marker limit db) with
      | Err _ => None
      | Ok page => if lp_HasMore page
                   then app (lp_Objects page) <$> list_all d tenant bucket prefix limit db fuel (lp_NextMarker page)
                   else Some (lp_Objects page)
      end
  end.

(** C39: following the markers of a listing ends, and gives the live objects of the
    bucket whose keys match the prefix and follow the first marker, in key order, each
    once. *)
Theorem ListObjects_enumerates d tenant bucket prefix limit db fuel marker :
  objects_reachable d db -> (length (objects db) < fuel)%nat ->
  list_all d tenant bucket prefix limit db fuel marker =
    Some (rows_from d is_live (defaultTenant tenant) bucket prefix db marker) /\
  StronglySorted (key_lt ob_Key String.ltb) (rows_from d is_live (defaultTenant tenant) bucket prefix db marker).
Proof.
  intros Hi%objects_reach_inv Hf. pose proof (live_bucket_keys d (defaultTenant tenant) bucket prefix db Hi) as Hn.
  split; [|by apply rows_from_sorted].
  assert (length (rows_from d is_live (defaultTenant tenant) bucket prefix db marker) < fuel)%nat as Hlen.
  { unfold rows_from. rewrite length_sort_by. eapply Nat.le_lt_trans; [apply List.filter_length_le|done]. }
  clear Hf. revert marker Hlen. induction fuel as [|fuel IH]; intros marker Hlen; [lia|]. cbn [list_all].
  pose proof (page_limit_pos limit) as [Hpos _].
  unfold ListObjects, with_ctx. rewrite run_guard. unfold reads, list_page. cbn [snd].
  fold (rows_from d is_live (defaultTenant tenant) bucket prefix db marker). rewrite page_of_spec by done.
  cbn [lp_HasMore lp_Objects lp_NextMarker].
  destruct (Z.ltb_spec (page_limit limit) (Z.of_nat (length (rows_from d is_live (defaultTenant tenant) bucket prefix db marker)))) as [H|H].
  - destruct (next_page _ _ _ _ _ _ Hn marker (page_limit limit) Hpos H) as (o & -> & Hr & _).
    rewrite IH; rewrite Hr; [cbn; by rewrite take_drop|]. rewrite length_drop. lia.
  - by rewrite list.take_ge by lia.
Qed.

(** ** By tag *)

Lemma take_take_app {A} n (l k : list A) : take n (take n l ++ k) = take n (l ++ k).
Proof.
  destruct (Nat.le_gt_cases (length l) n) as [H|H]; [by rewrite (list.take_ge l)|].
  rewrite !take_app, take_take, length_take, Nat.min_id. replace (n - n `min` length l)%nat with 0%nat by lia.
  replace (n - length l)%nat with 0%nat by lia. done.
Qed.

Section Tags.
Context (d : dialect) (tenant bucket prefix : string) (limit : Z) (tagKey tagValue : string) (db : ObjectsDB).
Context (Hinv : objects_inv db) (Hlimit : 0 < limit).

Let rows := rows_from d is_live (defaultTenant tenant) bucket prefix db.
Let tagged := List.filter (has_tag tagKey tagValue).

(** The rows before the cursor have been looked at. *)
Definition tag_inv (all : list Object) (st : string * list Object) : Prop :=
  exists seen, all = seen ++ rows (fst st) /\ snd st = take (Z.to_nat (limit + 1)) (tagged seen).

Lemma tag_step_cases all st :
  tag_inv all st ->
  match tag_step d tenant bucket prefix limit tagKey tagValue db st with
  | inl st' => tag_inv all st' /\ (length (rows (fst st')) < length (rows (fst st)))%nat
  | inr out => out = take (Z.to_nat (limit + 1)) (tagged all)
  end.
Proof.
  intros (seen & -> & Hm). destruct st as [cursor matches]. cbn [fst snd] in *. subst matches.
  pose proof (live_bucket_keys d (defaultTenant tenant) bucket prefix db Hinv) as Hn.
  unfold tag_step, list_page. change (page_limit 1000) with 1000. fold (rows_from d is_live (defaultTenant tenant) bucket prefix db cursor).
  fold (rows cursor). rewrite page_of_spec by done. cbn [lp_Objects lp_HasMore lp_NextMarker]. fold tagged.
  rewrite take_take_app. unfold tagged. rewrite <- List.filter_app. fold tagged.
  set (got := seen ++ take (Z.to_nat 1000) (rows cursor)).
  assert (tagged (seen ++ rows cursor) = tagged got ++ tagged (drop (Z.to_nat 1000) (rows cursor))) as Hall.
  { unfold tagged. rewrite <- List.filter_app. unfold got. by rewrite <- app_assoc, take_drop. }
  destruct (Z.ltb_spec limit (Z.of_nat (length (take (Z.to_nat (limit + 1)) (tagged got))))) as [Hfull|Hpart]; cbn [orb].
  { rewrite Hall, take_app_le; [done|]. rewrite length_take in Hfull. lia. }
  destruct (Z.ltb_spec 1000 (Z.of_nat (length (rows cursor)))) as [Hmore|Hend]; cbn [negb].
  - destruct (next_page _ _ _ _ _ _ Hn cursor 1000 ltac:(done) Hmore) as (o & Ho & Hr & Hlt).
    fold (rows cursor) in Ho, Hr. fold (rows (ob_Key o)) in Hr. rewrite Ho.
    destruct (ob_Key o =s "") eqn:E1; [apply streqb_true in E1; rewrite E1 in Hlt; by destruct cursor|].
    destruct (ob_Key o =s cursor) eqn:E2; [apply streqb_true in E2; rewrite E2, st_irrefl in Hlt; done|]. cbn [orb].
    split; cbn [fst snd]; [|rewrite Hr, length_drop; lia]. exists got. split; [|done].
    cbn [fst]. rewrite Hr. unfold got. by rewrite <- app_assoc, take_drop.
  - rewrite Hall, (list.drop_ge (rows cursor)) by lia. by rewrite (app_nil_r (tagged got) : tagged got ++ tagged [] = _).
Qed.
End Tags.

(** The listing by tag ends, and its page is the page of the live objects after the
    marker that have the tag, however many raw pages it reads. *)
Theorem ListObjectsByTag_filters d tenant bucket prefix marker optLimit tagKey tagValue db :
  objects_reachable d db ->
  snd (ListObjectsByTag d None tenant bucket prefix marker optLimit tagKey tagValue db) =
  Ok (page_of (page_limit optLimit)
        (List.filter (has_tag tagKey tagValue) (rows_from d is_live (defaultTenant tenant) bucket prefix db marker))).
Proof.
  intros Hi%objects_reach_inv. pose proof (page_limit_pos optLimit) as [Hpos _]. set (limit := page_limit optLimit) in *.
  set (all := rows_from d is_live (defaultTenant tenant) bucket prefix db marker).
  unfold ListObjectsByTag, with_ctx. rewrite run_guard. unfold reads. cbn [snd]. fold limit.
  destruct (iter_fuel_total (tag_step d tenant bucket prefix limit tagKey tagValue db)
    (tag_inv d tenant bucket prefix limit tagKey tagValue db all)
    (fun out => out = take (Z.to_nat (limit + 1)) (List.filter (has_tag tagKey tagValue) all))
    (fun st => length (rows_from d is_live (defaultTenant tenant) bucket prefix db (fst st)))) with
    (fuel := S (length (objects db))) (s := (marker, @nil Object)) as (out & -> & ->).
  - intros st st' H E. pose proof (tag_step_cases _ _ _ _ _ _ _ _ Hi Hpos all st H) as Hc. by rewrite E in Hc.
  - intros st out H E. pose proof (tag_step_cases _ _ _ _ _ _ _ _ Hi Hpos all st H) as Hc. by rewrite E in Hc.
  - exists []. split; [done|]. cbn. by rewrite take_nil.
  - cbn [fst]. unfold rows_from. rewrite length_sort_by. apply Nat.lt_succ_r, List.filter_length_le.
  - done.
Qed.

(** ** On the sample states *)

Definition three_keys (d : dialect) : ObjectsDB := put d 3 "v3" "c" (put d 2 "v2" "a" (put d 1 "v1" "b" empty_objects)).

Lemma three_keys_reachable d : objects_reachable d (three_keys d).
Proof. apply put_reachable, put_reachable, put_reachable, rtc_refl. Qed.

Lemma ListObjects_enumerates_witness :
  map ob_Key <$> list_all dialectSQLite "" "b" "" 2 (three_keys dialectSQLite) 10 "" = Some ["a"; "b"; "c"]%string.
Proof.
  destruct (ListObjects_enumerates dialectSQLite "" "b" "" 2 (three_keys dialectSQLite) 10 "") as [E _];
    [apply three_keys_reachable|by vm_compute; lia|]. rewrite E. by vm_compute.
Defined.

Lemma ListObjectsByTag_filters_witness :
  snd (ListObjectsByTag dialectSQLite None "" "b" "" "" 2 "team" "" (three_keys dialectSQLite)) = Ok (page_of 2 []).
Proof.
  rewrite (ListObjectsByTag_filters dialectSQLite); [by vm_compute|apply three_keys_reachable].
Defined.

(** * Where the object repository departs from its comments

    States the operations reach in which the code does something else than its comments
    or its schema say. *)
Open Scope Z_scope.

(** Deleting any version of a soft-deleted key brings the key back: the newest
    remaining version becomes its object, although the deleted row was not the current
    one. *)
Theorem DeleteObjectVersion_undeletes d t b k v db db' row o :
  objects_reachable d db -> snd (GetObject None t b k db) = Err not_found ->
  get_row (version_at (defaultTenant t) b k v) (objects db) = Ok row ->
  list.head (List.filter (fun x => negb (has_object_id (ob_ID row) x)) (versions_of d (defaultTenant t) b k db)) = Some o ->
  is_marker o = false -> DeleteObjectVersion d None t b k v db = (db', Ok tt) ->
  snd (GetObject None t b k db') = Ok (revived o).
Proof.
  intros Hr%objects_reach_inv Hgone Hrow Hhead Hmark H.
  destruct (DeleteObjectVersion_Ok _ _ _ _ _ _ _ _ H) as (row' & a & Hrow' & _ & Hob). cbn zeta in Hob.
  rewrite Hrow in Hrow'. injection Hrow' as <-.
  assert (forall x, x ∈ objects db -> live_at (defaultTenant t) b k x = false) as Hdead.
  { intros x Hx. destruct (live_at _ _ _ x) eqn:E; [|done]. unfold GetObject, with_ctx in Hgone.
    rewrite run_guard in Hgone. unfold reads, get_row in Hgone. cbn [snd] in Hgone.
    destruct (List.find _ (objects db)) eqn:Ef; [done|]. apply list_elem_of_In in Hx.
    by rewrite (find_none _ _ Ef x Hx) in E. }
  unfold GetObject, with_ctx. rewrite run_guard. unfold reads. cbn [snd]. rewrite Hob, promoted_get.
  - rewrite version_heads, Hhead by apply Hr. by rewrite Hmark.
  - apply keeps_delete. by destruct Hr.
  - intros x [Hx _]%elem_delete_where. by apply Hdead.
Qed.

Lemma DeleteObjectVersion_undeletes_witness :
  let db := deleted_versions dialectPostgres in
  exists o, ob_VersionID o = "v2"%string /\
    snd (GetObject None "" "b" "k" (fst (DeleteObjectVersion dialectPostgres None "" "b" "k" "v1" db))) = Ok o.
Proof.
  intros db. eexists. split; [|
    eapply (DeleteObjectVersion_undeletes dialectPostgres "" "b" "k" "v1" db);
      [apply deleted_versions_reachable|by vm_compute|by vm_compute|by vm_compute|by vm_compute|by vm_compute]].
  reflexivity.
Defined.

(** A restore takes the newest deleted row that is no tombstone: after a delete marker
    that is the marker, which becomes the object of the key. *)
Definition marked (d : dialect) : ObjectsDB :=
  fst (InsertDeleteMarker d None (at_sec 3) "m1"
         (with_metadata {[ delete_marker_key := "true"%string ]} (sample_object "b" "k")) (two_versions d)).

Lemma restore_revives_marker :
  exists o, snd (GetObject None "" "b" "k" (fst (RestoreObject dialectPostgres None "" "b" "k" (marked dialectPostgres)))) = Ok o /\
    is_marker o = true.
Proof. eexists. split; [vm_compute; reflexivity|by vm_compute]. Qed.

(** A hold on all versions (version_id NULL in the schema) cannot be stored on
    PostgreSQL. *)
Lemma PutLegalHold_null_postgres now l db :
  l_VersionID l = ""%string -> PutLegalHold dialectPostgres None now l db = (db, Err (PgError "23502" "")).
Proof. intros E. unfold PutLegalHold, with_ctx. rewrite run_guard. unfold nullVersionID. by rewrite E. Qed.

(** Versions of one second are ordered by the text of their time on SQLite: a version
    written at .9 is newer than one written at .95. *)
Lemma sqlite_text_order :
  let early := instant 738944 5 900000000 in
  let late := instant 738944 5 950000000 in
  early < late /\ time_lt dialectSQLite late early = true.
Proof. by vm_compute. Qed.

(** A prefix listing on SQLite returns keys that do not have the prefix. *)
Lemma sqlite_prefix_folds_case :
  map ob_Key (lp_Objects (list_page dialectSQLite is_live "" "b" "Photos/" "" 10 (put dialectSQLite 1 "v1" "photos/a.jpg" empty_objects)))
  = ["photos/a.jpg"%string].
Proof. by vm_compute. Qed.

(** Deleted rows of one key beyond the end of a page are on no page. *)
Lemma deleted_pages_lose_rows :
  let db := deleted_versions dialectSQLite in
  let page1 := list_page dialectSQLite (fun o => negb (is_live o)) "" "b" "" "" 1 db in
  let page2 := list_page dialectSQLite (fun o => negb (is_live o)) "" "b" "" (lp_NextMarker page1) 1 db in
  length (objects db) = 2%nat /\ length (lp_Objects page1) = 1%nat /\ lp_Objects page2 = [] /\ lp_HasMore page2 = false.
Proof. by vm_compute. Qed.

(** Objects with the empty class are lost from the counts when there are STANDARD ones. *)
Definition two_classes : ObjectsDB :=
  put dialectSQLite 2 "v2" "a"
    (fst (UpdateObjectStorageClass dialectSQLite None (at_sec 1) "default" "b" "k" "" (put dialectSQLite 1 "v1" "k" empty_objects))).

Lemma class_counts_overwritten :
  length (List.filter is_live (objects two_classes)) = 2%nat /\
  snd (StorageClassCounts None "" two_classes) = Ok {[ "STANDARD"%string := 1 ]}.
Proof. by vm_compute. Qed.
