(* ===== verification/EventPayload.v ===== *)
(** * Facts of the deletion outbox (src/internal/events/payload.go, event_authority.go)

    The payload builders of the facts vault.file.deleted@1.1 and vault.file.notify@1.1,
    and the checks a claimed fact passes before it leaves ([ValidateClaimedOutboxFact],
    [validateOutboxNotifyFact], [validateOutboxDeletedFact] of
    event_outbox_boundary.go).  Structs are records; their JSON forms keep the order of
    the fields and omit what omitempty omits. *)

From Stdlib Require Import Ascii Lia Bool ZArith.
From stdpp Require Import base strings list numbers option.
From S2P Require Import Prelude GoStrings Json GoTime GoErrors Sql JsonStruct Spaces Access AccessStore Outbox Objects.

Open Scope Z_scope.

(** ** Errors *)

Definition ErrEventAuthorityFault : string := "events.ErrEventAuthorityFault".
Definition errOutboxFactInvalid : string := "events.errOutboxFactInvalid".

Definition newEventAuthorityFault (cause : error) : error := ClassFault ErrEventAuthorityFault cause.

(** ** Structs (payload.go) *)

Record deletedFact := {
  df_SchemaVersion : string; df_EventType : string; df_Tenant : string; df_Bucket : string; df_Key : string;
  df_ObjectID : Z; df_VersionID : string; df_Size : Z; df_ETag : string; df_Backend : string;
  df_RequestID : string; df_Actor : string; df_ShareIDs : list string; df_VersionCount : Z;
  df_ChunkCount : Z; df_Reason : string
}.

Record notifyObject := {
  no_Key : string; no_Size : Z; no_ETag : string; no_VersionID : string; no_Sequencer : string
}.
Record notifyBucket := { nb_Name : string; nb_ARN : string }.
Record notifyIdentity := { ni_PrincipalID : string }.
Record notifyS3Entity := { ns_SchemaVersion : string; ns_Bucket : notifyBucket; ns_Object : notifyObject }.
Record notifyRecord := {
  nr_EventVersion : string; nr_EventSource : string; nr_AWSRegion : string; nr_EventName : string;
  nr_UserIdentity : notifyIdentity; nr_S3 : notifyS3Entity
}.
Record notifyFact := {
  nf_SchemaVersion : string; nf_EventType : string; nf_Tenant : string; nf_Bucket : string; nf_Key : string;
  nf_VersionID : string; nf_Size : Z; nf_ETag : string; nf_Backend : string; nf_RequestID : string;
  nf_Actor : string; nf_Records : list notifyRecord; nf_Signature : string
}.

(** *** Encoding *)

Definition deletedFact_json (f : deletedFact) : jvalue := JObject (
  [str "schema_version" (df_SchemaVersion f); str "event_type" (df_EventType f); str "tenant" (df_Tenant f);
   str "bucket" (df_Bucket f); str "key" (df_Key f); int "object_id" (df_ObjectID f);
   str "version_id" (df_VersionID f); int "size" (df_Size f); str "etag" (df_ETag f); str "backend" (df_Backend f);
   str "request_id" (df_RequestID f); str "actor" (df_Actor f)] ++
  omit_strs "share_ids" (df_ShareIDs f) ++ omit_int "version_count" (df_VersionCount f) ++
  omit_int "chunk_count" (df_ChunkCount f) ++ omit_str "reason" (df_Reason f)).

Definition notifyObject_json (o : notifyObject) : jvalue := JObject
  [str "key" (no_Key o); int "size" (no_Size o); str "eTag" (no_ETag o); str "versionId" (no_VersionID o);
   str "sequencer" (no_Sequencer o)].
Definition notifyS3Entity_json (e : notifyS3Entity) : jvalue := JObject
  [str "s3SchemaVersion" (ns_SchemaVersion e);
   ("bucket"%string, JObject [str "name" (nb_Name (ns_Bucket e)); str "arn" (nb_ARN (ns_Bucket e))]);
   ("object"%string, notifyObject_json (ns_Object e))].
Definition notifyRecord_json (r : notifyRecord) : jvalue := JObject
  [str "eventVersion" (nr_EventVersion r); str "eventSource" (nr_EventSource r); str "awsRegion" (nr_AWSRegion r);
   str "eventName" (nr_EventName r);
   ("userIdentity"%string, JObject [str "principalId" (ni_PrincipalID (nr_UserIdentity r))]);
   ("s3"%string, notifyS3Entity_json (nr_S3 r))].
Definition notifyFact_json (f : notifyFact) : jvalue := JObject (
  [str "schema_version" (nf_SchemaVersion f); str "event_type" (nf_EventType f); str "tenant" (nf_Tenant f);
   str "bucket" (nf_Bucket f); str "key" (nf_Key f); str "version_id" (nf_VersionID f); int "size" (nf_Size f);
   str "etag" (nf_ETag f); str "backend" (nf_Backend f); str "request_id" (nf_RequestID f);
   str "actor" (nf_Actor f); ("records"%string, JArray (map notifyRecord_json (nf_Records f)))] ++
  omit_str "signature" (nf_Signature f)).

(** *** Decoding *)

Definition deletedFact_names : list string :=
  ["schema_version"; "event_type"; "tenant"; "bucket"; "key"; "object_id"; "version_id"; "size"; "etag"; "backend";
   "request_id"; "actor"; "share_ids"; "version_count"; "chunk_count"; "reason"]%string.

Definition deletedFact_decode (o : list member) : option deletedFact :=
  let s := fun name => string_field (assigned deletedFact_names o name) "" in
  let n := fun name => int64_field (assigned deletedFact_names o name) 0 in
  schema ← s "schema_version"%string; event ← s "event_type"%string; tenant ← s "tenant"%string;
  bucket ← s "bucket"%string; key ← s "key"%string; id ← n "object_id"%string; version ← s "version_id"%string;
  size ← n "size"%string; etag ← s "etag"%string; backend ← s "backend"%string; request ← s "request_id"%string;
  actor ← s "actor"%string; shares ← slice_field string_elem (assigned deletedFact_names o "share_ids") [];
  versions ← n "version_count"%string; chunks ← n "chunk_count"%string; reason ← s "reason"%string;
  Some {| df_SchemaVersion := schema; df_EventType := event; df_Tenant := tenant; df_Bucket := bucket; df_Key := key;
          df_ObjectID := id; df_VersionID := version; df_Size := size; df_ETag := etag; df_Backend := backend;
          df_RequestID := request; df_Actor := actor; df_ShareIDs := shares; df_VersionCount := versions;
          df_ChunkCount := chunks; df_Reason := reason |}.

Definition notifyObject_decode (o : list member) : option notifyObject :=
  let at_ := assigned ["key"; "size"; "eTag"; "versionId"; "sequencer"]%string o in
  key ← string_field (at_ "key"%string) ""; size ← int64_field (at_ "size"%string) 0;
  etag ← string_field (at_ "eTag"%string) ""; version ← string_field (at_ "versionId"%string) "";
  sequencer ← string_field (at_ "sequencer"%string) "";
  Some {| no_Key := key; no_Size := size; no_ETag := etag; no_VersionID := version; no_Sequencer := sequencer |}.

Definition notifyS3Entity_decode (o : list member) : option notifyS3Entity :=
  let at_ := assigned ["s3SchemaVersion"; "bucket"; "object"]%string o in
  schema ← string_field (at_ "s3SchemaVersion"%string) "";
  bucket ← members_field (at_ "bucket"%string);
  name ← string_field (assigned ["name"; "arn"]%string bucket "name") "";
  arn ← string_field (assigned ["name"; "arn"]%string bucket "arn") "";
  object ← (members_field (at_ "object"%string) ≫= notifyObject_decode);
  Some {| ns_SchemaVersion := schema; ns_Bucket := {| nb_Name := name; nb_ARN := arn |}; ns_Object := object |}.

Definition notifyRecord_decode (v : jvalue) : option notifyRecord :=
  o ← members_field [v];
  let at_ := assigned ["eventVersion"; "eventSource"; "awsRegion"; "eventName"; "userIdentity"; "s3"]%string o in
  version ← string_field (at_ "eventVersion"%string) ""; source ← string_field (at_ "eventSource"%string) "";
  region ← string_field (at_ "awsRegion"%string) ""; name ← string_field (at_ "eventName"%string) "";
  identity ← members_field (at_ "userIdentity"%string);
  principal ← string_field (assigned ["principalId"%string] identity "principalId") "";
  s3 ← (members_field (at_ "s3"%string) ≫= notifyS3Entity_decode);
  Some {| nr_EventVersion := version; nr_EventSource := source; nr_AWSRegion := region; nr_EventName := name;
          nr_UserIdentity := {| ni_PrincipalID := principal |}; nr_S3 := s3 |}.

Definition notifyFact_names : list string :=
  ["schema_version"; "event_type"; "tenant"; "bucket"; "key"; "version_id"; "size"; "etag"; "backend"; "request_id";
   "actor"; "records"; "signature"]%string.

Definition notifyFact_decode (o : list member) : option notifyFact :=
  let s := fun name => string_field (assigned notifyFact_names o name) "" in
  schema ← s "schema_version"%string; event ← s "event_type"%string; tenant ← s "tenant"%string;
  bucket ← s "bucket"%string; key ← s "key"%string; version ← s "version_id"%string;
  size ← int64_field (assigned notifyFact_names o "size") 0; etag ← s "etag"%string; backend ← s "backend"%string;
  request ← s "request_id"%string; actor ← s "actor"%string;
  records ← slice_field notifyRecord_decode (assigned notifyFact_names o "records") [];
  signature ← s "signature"%string;
  Some {| nf_SchemaVersion := schema; nf_EventType := event; nf_Tenant := tenant; nf_Bucket := bucket; nf_Key := key;
          nf_VersionID := version; nf_Size := size; nf_ETag := etag; nf_Backend := backend; nf_RequestID := request;
          nf_Actor := actor; nf_Records := records; nf_Signature := signature |}.

(** ** Builders (payload.go) *)

(** The first of the optional arguments. *)
Definition optional (args : list string) : string := match args with a :: _ => a | [] => ""%string end.

Definition buildDeletedFact (obj : Object) (actor requestID tenant : string) (shareIDs : list string)
    (versionCount chunkCount : Z) (reason : list string) : string :=
  marshal (deletedFact_json {|
    df_SchemaVersion := "1.1"; df_EventType := EventTypeFileDeleted11; df_Tenant := tenant;
    df_Bucket := ob_Bucket obj; df_Key := ob_Key obj; df_ObjectID := ob_ID obj; df_VersionID := ob_VersionID obj;
    df_Size := ob_Size obj; df_ETag := ob_ETag obj; df_Backend := ob_Backend obj; df_RequestID := requestID;
    df_Actor := actor; df_ShareIDs := shareIDs; df_VersionCount := versionCount; df_ChunkCount := chunkCount;
    df_Reason := optional reason |}).

Definition BuildDeletedFact (obj : Object) (actor requestID tenant : string) (reason : list string) : string :=
  buildDeletedFact obj actor requestID tenant [] 0 0 reason.

Definition BuildDeletedFactWithRefs (obj : Object) (actor requestID tenant : string) (shareIDs : list string)
    (versionCount chunkCount : Z) (reason : list string) : string :=
  buildDeletedFact obj actor requestID tenant shareIDs versionCount chunkCount reason.

(** The S3 record of a notification; [fresh] is newSequencer's value. *)
Definition notify_record (obj : Object) (tenant sequencer : string) : notifyRecord := {|
  nr_EventVersion := "2.1"; nr_EventSource := "aws:s3"; nr_AWSRegion := "us-east-1";
  nr_EventName := "s3:ObjectRemoved:Delete"; nr_UserIdentity := {| ni_PrincipalID := tenant |};
  nr_S3 := {|
    ns_SchemaVersion := "1.0";
    ns_Bucket := {| nb_Name := ob_Bucket obj; nb_ARN := "arn:aws:s3:::" ++ ob_Bucket obj |};
    ns_Object := {| no_Key := ob_Key obj; no_Size := ob_Size obj; no_ETag := ob_ETag obj;
                    no_VersionID := ob_VersionID obj; no_Sequencer := sequencer |} |} |}.

Definition BuildNotifyFact (fresh : string) (obj : Object) (actor requestID tenant sequencer : string)
    (signature : list string) : string :=
  let sequencer := if (sequencer =s "") then fresh else sequencer in
  marshal (notifyFact_json {|
    nf_SchemaVersion := "1.1"; nf_EventType := EventTypeFileNotify11; nf_Tenant := tenant;
    nf_Bucket := ob_Bucket obj; nf_Key := ob_Key obj; nf_VersionID := ob_VersionID obj; nf_Size := ob_Size obj;
    nf_ETag := ob_ETag obj; nf_Backend := ob_Backend obj; nf_RequestID := requestID; nf_Actor := actor;
    nf_Records := [notify_record obj tenant sequencer]; nf_Signature := optional signature |}).

(** ** Claimed facts (event_authority.go) *)

Definition validateClaimedOutboxIdentity (fact : EventOutboxRow) : option error :=
  if eo_ID fact <=? 0 then Some (NewError "outbox fact ID must be positive")
  else if eo_OriginID fact <=? 0 then Some (NewError "outbox origin ID must be positive")
  else if (TrimSpace (eo_TenantID fact) =s "") then Some (NewError "outbox fact tenant is required")
  else None.

(** raw["object_id"], when it is there, is the origin of the row. *)
Definition checkObjectID (raw : list member) (fact : EventOutboxRow) : option error :=
  match map_get raw "object_id" with
  | None => None
  | Some encoded =>
      match int64_field [encoded] 0 with
      | None => Some (newEventAuthorityFault (NewError "decode deleted outbox object ID"))
      | Some objectID =>
          if (objectID <=? 0) || negb (objectID =? eo_OriginID fact)
          then Some (newEventAuthorityFault (NewError "deleted outbox payload object ID contradicts its claimed fact"))
          else None
      end
  end.

Definition validateAuthorityDeletedFact (fact : EventOutboxRow) : option error :=
  match Unmarshal_raw (eo_Payload fact) with
  | None => Some (newEventAuthorityFault (NewError "decode deleted outbox payload"))
  | Some raw =>
      match Unmarshal_struct (eo_Payload fact) ≫= deletedFact_decode with
      | None => Some (newEventAuthorityFault (NewError "decode deleted outbox payload"))
      | Some payload =>
          if (df_SchemaVersion payload <>s "1.1") || (df_EventType payload <>s EventTypeFileDeleted11) ||
             (df_Tenant payload <>s eo_TenantID fact) || (df_Bucket payload =s "") || (df_Key payload =s "")
          then Some (newEventAuthorityFault (NewError "deleted outbox payload contradicts its claimed fact"))
          else checkObjectID raw fact
      end
  end.

Definition eventOutboxRemoveEventName : string := "s3:ObjectRemoved:Delete".

Definition validateAuthorityNotifyRecord (payload : notifyFact) (record : notifyRecord) : option error :=
  if (nr_EventVersion record <>s "2.1") || (nr_EventSource record <>s "aws:s3") ||
     (nr_EventName record <>s eventOutboxRemoveEventName) ||
     (ni_PrincipalID (nr_UserIdentity record) <>s nf_Tenant payload)
  then Some (NewError "notify outbox record identity contradicts its payload")
  else
    let bucket := ns_Bucket (nr_S3 record) in
    let object := ns_Object (nr_S3 record) in
    if (ns_SchemaVersion (nr_S3 record) <>s "1.0") || (nb_Name bucket <>s nf_Bucket payload) ||
       (nb_ARN bucket <>s "arn:aws:s3:::" ++ nf_Bucket payload) ||
       (no_Key object <>s nf_Key payload) || negb (no_Size object =? nf_Size payload) ||
       (no_ETag object <>s nf_ETag payload) || (no_VersionID object <>s nf_VersionID payload) ||
       (no_Sequencer object =s "")
    then Some (NewError "notify outbox record object contradicts its payload")
    else None.

(** The loop over the records: the first error. *)
Fixpoint validate_records (payload : notifyFact) (records : list notifyRecord) : option error :=
  match records with
  | [] => None
  | record :: rest =>
      match validateAuthorityNotifyRecord payload record with
      | Some err => Some (newEventAuthorityFault (Wrap "notify outbox record" [err]))
      | None => validate_records payload rest
      end
  end.

Definition validateAuthorityNotifyFact (fact : EventOutboxRow) : option error :=
  match Unmarshal_struct (eo_Payload fact) ≫= notifyFact_decode with
  | None => Some (newEventAuthorityFault (NewError "decode notify outbox payload"))
  | Some payload =>
      if (nf_SchemaVersion payload <>s "1.1") || (nf_EventType payload <>s EventTypeFileNotify11) ||
         (nf_Tenant payload <>s eo_TenantID fact) || (nf_Bucket payload =s "") || (nf_Key payload =s "")
      then Some (newEventAuthorityFault (NewError "notify outbox payload contradicts its claimed fact"))
      else match nf_Records payload with
           | [] => Some (newEventAuthorityFault (NewError "notify outbox payload requires at least one record"))
           | records => validate_records payload records
           end
  end.

Definition ValidateClaimedOutboxFact (fact : EventOutboxRow) : option error :=
  match validateClaimedOutboxIdentity fact with
  | Some err => Some (newEventAuthorityFault err)
  | None =>
      if (eo_EventType fact =s EventTypeFileDeleted11) then validateAuthorityDeletedFact fact
      else if (eo_EventType fact =s EventTypeFileNotify11) then validateAuthorityNotifyFact fact
      else Some (newEventAuthorityFault (NewError "unknown outbox event type"))
  end.

(** ** Scopes (event_outbox_relay.go, event_outbox_boundary.go) *)

Record notifyPayloadMeta := { nm_Tenant : string; nm_Bucket : string; nm_Key : string }.

Definition parseNotifyPayload (payload : string) : result notifyPayloadMeta :=
  let decoded :=
    o ← Unmarshal_struct payload;
    let at_ := assigned ["tenant"; "bucket"; "key"]%string o in
    tenant ← string_field (at_ "tenant"%string) ""; bucket ← string_field (at_ "bucket"%string) "";
    key ← string_field (at_ "key"%string) "";
    Some {| nm_Tenant := tenant; nm_Bucket := bucket; nm_Key := key |} in
  match decoded with
  | None => Err (Wrap "event outbox payload invalid" [])
  | Some meta => if (nm_Tenant meta =s "") || (nm_Bucket meta =s "")
                 then Err (NewError "event outbox payload missing tenant or bucket") else Ok meta
  end.

(** [fmt.Errorf("%w: ...%w", errOutboxFactInvalid, err)]. *)
Definition invalidFact (err : error) : error := Wrap "" [Sentinel errOutboxFactInvalid; err].

Definition validateOutboxNotifyFact (fact : EventOutboxRow) : result notifyPayloadMeta :=
  match ValidateClaimedOutboxFact fact with
  | Some err => Err (invalidFact err)
  | None =>
      match parseNotifyPayload (eo_Payload fact) with
      | Err err => Err (invalidFact err)
      | Ok meta =>
          match ValidateBindingInput (nm_Tenant meta) (nm_Bucket meta) with
          | Some err => Err (invalidFact err)
          | None => Ok meta
          end
      end
  end.

Definition validateOutboxDeletedFact (fact : EventOutboxRow) : option error :=
  match ValidateClaimedOutboxFact fact with
  | Some err => Some (invalidFact err)
  | None =>
      match Unmarshal_struct (eo_Payload fact) ≫= deletedFact_decode with
      | None => Some (invalidFact (NewError "decode deleted scope"))
      | Some payload =>
          match ValidateBindingInput (df_Tenant payload) (df_Bucket payload) with
          | Some err => Some (invalidFact err)
          | None => None
          end
      end
  end.
