(* ===== verification/EventPayloadProps.v ===== *)
(** * What the builders write, the checks accept

    The facts the delete path builds pass the outbox's validation and, after they are
    claimed, the checks of the relay ([deleted_fact_accepted], [notify_fact_accepted]);
    what the relay accepts is about the claimed tenant ([accepted_notify_scope]). *)

From Stdlib Require Import Ascii Lia Bool ZArith.
From stdpp Require Import base strings list numbers option.
From S2P Require Import Prelude GoStrings Json JsonProps GoTime GoErrors Sql JsonStruct Spaces Access AccessStore Outbox Objects ObjectsInvariant EventPayload.

Open Scope Z_scope.

(** ** Structs round-trip *)

Record deleted_ints (f : deletedFact) : Prop := {
  di_id : int64 (df_ObjectID f); di_size : int64 (df_Size f);
  di_versions : int64 (df_VersionCount f); di_chunks : int64 (df_ChunkCount f)
}.

Lemma deletedFact_back f : deleted_ints f -> deletedFact_decode (members (deletedFact_json f)) = Some f.
Proof.
  intros [H1 H2 H3 H4]. destruct f as [a1 a2 a3 a4 a5 id a7 sz a9 b1 b2 b3 sh vc cc re].
  cbn [df_ObjectID df_Size df_VersionCount df_ChunkCount] in *.
  unfold deletedFact_decode, deletedFact_json, members, omit_str, omit_int, int.
  cbn [df_SchemaVersion df_EventType df_Tenant df_Bucket df_Key df_ObjectID df_VersionID df_Size df_ETag df_Backend
       df_RequestID df_Actor df_ShareIDs df_VersionCount df_ChunkCount df_Reason].
  destruct (Z.eqb_spec vc 0) as [->|], (Z.eqb_spec cc 0) as [->|], (re =s "") eqn:E;
    try (apply streqb_true in E as ->); destruct sh as [|s0 sh];
    cbn -[JInt int64_field mapM]; rewrite !int64_JInt by done; cbn -[mapM];
    try done; change (JString s0 :: map JString sh) with (map JString (s0 :: sh)); by rewrite strings_back.
Qed.

Lemma notifyRecord_back r :
  int64 (no_Size (ns_Object (nr_S3 r))) -> notifyRecord_decode (notifyRecord_json r) = Some r.
Proof.
  destruct r as [a1 a2 a3 a4 [p] [v [bn ba] [k sz e vi sq]]]. cbn [no_Size ns_Object nr_S3]. intros H.
  unfold notifyRecord_decode, notifyRecord_json, notifyS3Entity_json, notifyObject_json, int.
  cbn -[JInt int64_field]. rewrite int64_JInt by done. done.
Qed.

Lemma records_back l :
  Forall (fun r => int64 (no_Size (ns_Object (nr_S3 r)))) l -> mapM notifyRecord_decode (map notifyRecord_json l) = Some l.
Proof.
  induction 1 as [|r l Hr _ IH]; [done|]. cbn -[notifyRecord_decode notifyRecord_json].
  by rewrite notifyRecord_back, IH.
Qed.

Lemma notifyFact_back f :
  int64 (nf_Size f) -> Forall (fun r => int64 (no_Size (ns_Object (nr_S3 r)))) (nf_Records f) ->
  notifyFact_decode (members (notifyFact_json f)) = Some f.
Proof.
  destruct f as [a1 a2 a3 a4 a5 a6 sz a8 a9 b1 b2 rs sg]. cbn [nf_Size nf_Records]. intros Hs Hr.
  unfold notifyFact_decode, notifyFact_json, members, omit_str, int.
  cbn [nf_SchemaVersion nf_EventType nf_Tenant nf_Bucket nf_Key nf_VersionID nf_Size nf_ETag nf_Backend nf_RequestID
       nf_Actor nf_Records nf_Signature].
  destruct (sg =s "") eqn:E; [apply streqb_true in E as ->|];
    cbn -[JInt int64_field notifyRecord_decode notifyRecord_json mapM]; rewrite int64_JInt by done;
    cbn -[notifyRecord_decode notifyRecord_json mapM]; by rewrite records_back.
Qed.

(** ** Texts *)

Definition deleted_strings (f : deletedFact) : list string :=
  [df_SchemaVersion f; df_EventType f; df_Tenant f; df_Bucket f; df_Key f; df_VersionID f; df_ETag f; df_Backend f;
   df_RequestID f; df_Actor f; df_Reason f].

Lemma sound_deleted f :
  all_utf8 (deleted_strings f) -> all_utf8 (df_ShareIDs f) -> deleted_ints f -> sound 0 (deletedFact_json f).
Proof.
  intros Hf Hs [Hi1 Hi2 Hi3 Hi4]. unfold all_utf8, deleted_strings in Hf. rewrite !list.Forall_cons in Hf. destruct_and! Hf.
  apply sound_object; [done|]. repeat apply Forall_app_2; members_ok. by apply ok_omit_strs.
Qed.

Definition record_strings (r : notifyRecord) : list string :=
  [nr_EventVersion r; nr_EventSource r; nr_AWSRegion r; nr_EventName r; ni_PrincipalID (nr_UserIdentity r);
   ns_SchemaVersion (nr_S3 r); nb_Name (ns_Bucket (nr_S3 r)); nb_ARN (ns_Bucket (nr_S3 r));
   no_Key (ns_Object (nr_S3 r)); no_ETag (ns_Object (nr_S3 r)); no_VersionID (ns_Object (nr_S3 r));
   no_Sequencer (ns_Object (nr_S3 r))].

Definition record_ok (r : notifyRecord) : Prop := all_utf8 (record_strings r) /\ int64 (no_Size (ns_Object (nr_S3 r))).

Lemma sound_record d r : d + 3 < maxNestingDepth -> record_ok r -> sound d (notifyRecord_json r).
Proof.
  intros Hd [Hr Hn]. unfold all_utf8, record_strings in Hr. rewrite !list.Forall_cons in Hr. destruct_and! Hr.
  apply sound_object; [lia|]. repeat apply Forall_cons_2; auto with payload.
  - split; [done|]. apply sound_object; [cbn; lia|]. members_ok.
  - split; [done|]. apply sound_object; [cbn; lia|]. repeat apply Forall_cons_2; auto with payload.
    + split; [done|]. apply sound_object; [cbn; lia|]. members_ok.
    + split; [done|]. apply sound_object; [cbn; lia|]. members_ok.
Qed.

Definition notify_strings (f : notifyFact) : list string :=
  [nf_SchemaVersion f; nf_EventType f; nf_Tenant f; nf_Bucket f; nf_Key f; nf_VersionID f; nf_ETag f; nf_Backend f;
   nf_RequestID f; nf_Actor f; nf_Signature f].

Lemma sound_notify f :
  all_utf8 (notify_strings f) -> Forall record_ok (nf_Records f) -> int64 (nf_Size f) -> sound 0 (notifyFact_json f).
Proof.
  intros Hf Hr Hn. unfold all_utf8, notify_strings in Hf. rewrite !list.Forall_cons in Hf. destruct_and! Hf.
  apply sound_object; [done|]. apply Forall_app_2; [|auto with payload].
  repeat apply Forall_cons_2; auto with payload. split; [done|]. apply sound_array; [done|].
  apply Forall_map. eapply List.Forall_impl; [|exact Hr]. intros r. by apply sound_record.
Qed.

(** ** Facts are accepted *)

Lemma json_members_deleted f : deletedFact_json f = JObject (members (deletedFact_json f)).
Proof. done. Qed.
Lemma json_members_notify f : notifyFact_json f = JObject (members (notifyFact_json f)).
Proof. done. Qed.

(** What the delete path knows of an object it deletes. *)
Record deletable (obj : Object) (tenant : string) : Prop := {
  dl_id : 0 < ob_ID obj; dl_int : int64 (ob_ID obj); dl_size : int64 (ob_Size obj);
  dl_text : all_utf8 [ob_Bucket obj; ob_Key obj; ob_VersionID obj; ob_ETag obj; ob_Backend obj; tenant];
  dl_bucket : ob_Bucket obj <> ""%string; dl_key : ob_Key obj <> ""%string;
  dl_tenant : TrimSpace tenant <> ""%string
}.

Definition small (payload : string) : Prop := payload_len payload <= maxOutboxFactPayloadBytes.

(** A row that carries a fact. *)
Record carries (fact : OutboxFact) (row : EventOutboxRow) : Prop := {
  ca_id : 0 < eo_ID row; ca_type : eo_EventType row = of_EventType fact; ca_origin : eo_OriginID row = of_OriginID fact;
  ca_tenant : eo_TenantID row = of_TenantID fact; ca_payload : eo_Payload row = of_Payload fact
}.

(** Validation of a fact, apart from its payload. *)
Lemma fact_valid fact :
  of_EventType fact = EventTypeFileDeleted11 \/ of_EventType fact = EventTypeFileNotify11 ->
  0 < of_OriginID fact -> TrimSpace (of_TenantID fact) <> ""%string ->
  0 < payload_len (of_Payload fact) <= maxOutboxFactPayloadBytes -> validOutboxPayload (of_Payload fact) = true ->
  validateOutboxFact fact = None.
Proof.
  intros Ht Ho Htn [Hp1 Hp2] Hv. unfold validateOutboxFact.
  assert ((of_EventType fact <>s EventTypeFileDeleted11) && (of_EventType fact <>s EventTypeFileNotify11) = false) as ->
    by (destruct Ht as [-> | ->]; done).
  rewrite (proj2 (Z.leb_gt _ _)) by lia. rewrite (proj2 (streqb_false _ _)) by done.
  rewrite (proj2 (Z.eqb_neq _ _)) by lia. rewrite (proj2 (Z.ltb_ge _ _)) by lia. by rewrite Hv.
Qed.

Lemma payload_nonempty o : 0 < payload_len (marshal (JObject o)).
Proof. unfold payload_len, marshal. cbn. lia. Qed.

Lemma identity_valid fact row :
  carries fact row -> 0 < of_OriginID fact -> TrimSpace (of_TenantID fact) <> ""%string ->
  validateClaimedOutboxIdentity row = None.
Proof.
  intros [Hid _ Ho Ht _] Hpos Htn. unfold validateClaimedOutboxIdentity. rewrite Ho, Ht.
  rewrite !(proj2 (Z.leb_gt _ _)) by lia. by rewrite (proj2 (streqb_false _ _)).
Qed.

(** The members every deleted fact has, whatever it omits. *)
Lemma deleted_members f :
  map_get (members (deletedFact_json f)) "schema_version" = Some (JString (df_SchemaVersion f)) /\
  map_get (members (deletedFact_json f)) "object_id" = Some (JInt (df_ObjectID f)).
Proof.
  unfold deletedFact_json, members, omit_str, omit_int, omit_strs.
  destruct (df_VersionCount f =? 0), (df_ChunkCount f =? 0), (df_Reason f =s ""), (df_ShareIDs f); done.
Qed.

(** The fact a delete writes passes the outbox's validation and, once claimed,
    every check of the relay. *)
Theorem deleted_fact_accepted obj actor requestID tenant shareIDs versionCount chunkCount reason row :
  let payload := buildDeletedFact obj actor requestID tenant shareIDs versionCount chunkCount reason in
  let fact := {| of_EventType := EventTypeFileDeleted11; of_OriginID := ob_ID obj; of_TenantID := tenant;
                 of_Payload := payload |} in
  deletable obj tenant -> all_utf8 [actor; requestID; optional reason] -> all_utf8 shareIDs ->
  int64 versionCount -> int64 chunkCount -> small payload -> carries fact row ->
  ValidateBindingInput tenant (ob_Bucket obj) = None ->
  validateOutboxFact fact = None /\ ValidateClaimedOutboxFact row = None /\ validateOutboxDeletedFact row = None.
Proof.
  intros payload fact [Hid Hint Hsz Htext Hb Hk Htn] Hargs Hshares Hvc Hcc Hsmall Hrow Hbind.
  set (f := {| df_SchemaVersion := "1.1"; df_EventType := EventTypeFileDeleted11; df_Tenant := tenant;
               df_Bucket := ob_Bucket obj; df_Key := ob_Key obj; df_ObjectID := ob_ID obj; df_VersionID := ob_VersionID obj;
               df_Size := ob_Size obj; df_ETag := ob_ETag obj; df_Backend := ob_Backend obj; df_RequestID := requestID;
               df_Actor := actor; df_ShareIDs := shareIDs; df_VersionCount := versionCount; df_ChunkCount := chunkCount;
               df_Reason := optional reason |}).
  assert (deleted_ints f) as Hf by by split.
  assert (sound 0 (deletedFact_json f)) as Hs.
  { apply sound_deleted; [|done|done]. unfold all_utf8, deleted_strings in *. rewrite !list.Forall_cons in *.
    destruct_and!. split_and!; done. }
  change payload with (marshal (JObject (members (deletedFact_json f)))) in *.
  rewrite json_members_deleted in Hs. destruct (Unmarshal_object _ Hs) as [Hu Hm].
  destruct (deleted_members f) as [Hsv Hoid].
  assert (validateOutboxFact fact = None) as Hv.
  { apply fact_valid; [by left|done|done|split; [apply payload_nonempty|done]|].
    unfold validOutboxPayload. cbn [of_Payload fact]. by rewrite Hm, Hsv. }
  pose proof (identity_valid _ _ Hrow Hid Htn) as Hident. destruct Hrow as [Hrid Hrt Hro Hrtn Hrp].
  assert (ValidateClaimedOutboxFact row = None) as Hc.
  { unfold ValidateClaimedOutboxFact, validateAuthorityDeletedFact, Unmarshal_raw, checkObjectID.
    rewrite Hident, Hrt, Hrp, Hro, Hrtn. cbn [of_EventType of_Payload of_OriginID of_TenantID fact]. rewrite streqb_refl, Hu. cbn [mbind option_bind].
    rewrite deletedFact_back by done. rewrite Hoid, int64_JInt by done. cbn [df_SchemaVersion df_EventType df_Tenant df_Bucket df_Key df_ObjectID f].
    rewrite !streqb_refl, !(proj2 (streqb_false _ _)) by done. rewrite Z.eqb_refl, (proj2 (Z.leb_gt _ _)) by lia. done. }
  split; [done|]. split; [done|]. unfold validateOutboxDeletedFact. rewrite Hc, Hrp. cbn [of_Payload fact]. rewrite Hu. cbn [mbind option_bind].
  rewrite deletedFact_back by done. cbn [df_Tenant df_Bucket f]. by rewrite Hbind.
Qed.

Lemma notify_members f :
  map_get (members (notifyFact_json f)) "schema_version" = Some (JString (nf_SchemaVersion f)) /\
  (forall k, k ∈ ["tenant"; "bucket"; "key"]%string ->
     assigned ["tenant"; "bucket"; "key"]%string (members (notifyFact_json f)) k =
     [JString (if (k =s "tenant") then nf_Tenant f else if (k =s "bucket") then nf_Bucket f else nf_Key f)]).
Proof.
  split; unfold notifyFact_json, members, omit_str; destruct (nf_Signature f =s ""); try done.
  all: intros k Hk; repeat (apply elem_of_cons in Hk as [->|Hk]; [done|]); by apply elem_of_nil in Hk.
Qed.

(** The notification a delete writes passes the outbox's validation and, once
    claimed, every check of the relay, which then acts for the tenant, bucket and key of
    the deleted object. *)
Theorem notify_fact_accepted fresh obj actor requestID tenant sequencer signature row :
  let payload := BuildNotifyFact fresh obj actor requestID tenant sequencer signature in
  let fact := {| of_EventType := EventTypeFileNotify11; of_OriginID := ob_ID obj; of_TenantID := tenant;
                 of_Payload := payload |} in
  deletable obj tenant -> all_utf8 [actor; requestID; optional signature; sequencer; fresh;
                                    ("arn:aws:s3:::" ++ ob_Bucket obj)%string] ->
  fresh <> ""%string -> small payload -> carries fact row -> ValidateBindingInput tenant (ob_Bucket obj) = None ->
  validateOutboxFact fact = None /\
  validateOutboxNotifyFact row = Ok {| nm_Tenant := tenant; nm_Bucket := ob_Bucket obj; nm_Key := ob_Key obj |}.
Proof.
  intros payload fact [Hid Hint Hsz Htext Hb Hk Htn] Hargs Hfresh Hsmall Hrow Hbind.
  assert (tenant <> ""%string) as Ht by (intros E; by rewrite E in Htn).
  set (sq := if (sequencer =s "") then fresh else sequencer).
  assert (sq <> ""%string) as Hsq by (unfold sq; destruct (sequencer =s "") eqn:E; [done|by apply streqb_false]).
  set (f := {| nf_SchemaVersion := "1.1"; nf_EventType := EventTypeFileNotify11; nf_Tenant := tenant;
               nf_Bucket := ob_Bucket obj; nf_Key := ob_Key obj; nf_VersionID := ob_VersionID obj; nf_Size := ob_Size obj;
               nf_ETag := ob_ETag obj; nf_Backend := ob_Backend obj; nf_RequestID := requestID; nf_Actor := actor;
               nf_Records := [notify_record obj tenant sq]; nf_Signature := optional signature |}).
  assert (sound 0 (notifyFact_json f)) as Hs.
  { unfold all_utf8 in *. rewrite !list.Forall_cons in *. destruct_and!. apply sound_notify; [| |done].
    - unfold all_utf8, notify_strings. by members_ok.
    - constructor; [|constructor]. split; [|done]. unfold all_utf8, record_strings.
      members_ok. unfold sq. cbn. by destruct (sequencer =s ""). }
  assert (notifyFact_decode (members (notifyFact_json f)) = Some f) as Hback.
  { apply notifyFact_back; [done|]. by constructor. }
  change payload with (marshal (JObject (members (notifyFact_json f)))) in *.
  rewrite json_members_notify in Hs. destruct (Unmarshal_object _ Hs) as [Hu Hm].
  destruct (notify_members f) as [Hsv Hmeta].
  split.
  { apply fact_valid; [by right|done|done|split; [apply payload_nonempty|done]|].
    unfold validOutboxPayload. cbn [of_Payload fact]. by rewrite Hm, Hsv. }
  pose proof (identity_valid _ _ Hrow Hid Htn) as Hident. destruct Hrow as [Hrid Hrt Hro Hrtn Hrp].
  unfold validateOutboxNotifyFact, ValidateClaimedOutboxFact, validateAuthorityNotifyFact, parseNotifyPayload.
  rewrite Hident, Hrt, Hrp, Hrtn. cbn [of_EventType of_Payload of_TenantID fact]. rewrite Hu. cbn [mbind option_bind].
  change (EventTypeFileNotify11 =s EventTypeFileDeleted11) with false. cbn iota. rewrite streqb_refl, Hback.
  rewrite !Hmeta by (repeat constructor). cbn. unfold validateAuthorityNotifyRecord. cbn.
  rewrite !streqb_refl, Z.eqb_refl, (proj2 (streqb_false _ _) Hb), (proj2 (streqb_false _ _) Hk),
    (proj2 (streqb_false _ _) Hsq). cbn.
  rewrite (proj2 (streqb_false _ _) Ht). cbn. by rewrite Hbind.
Qed.

(** ** What the relay accepts *)

Definition folded (name : string) : string := text (fold_name (chars name)).

(** Among names that fold differently, a member goes to the one it folds to. *)
Lemma target_iff names k n :
  NoDup (map folded names) -> target names k = Some n <-> n ∈ names /\ folds_to n k = true.
Proof.
  intros Hn. assert (forall m, m ∈ names -> n ∈ names -> folds_to m k = true -> folds_to n k = true -> m = n) as Hu.
  { intros m Hm Hin Em En. apply (NoDup_map_inj folded names); [done..|]. unfold folded.
    apply streqb_true in Em, En. congruence. }
  unfold target. destruct (List.find (fun x => x =s k) names) as [m|] eqn:Ex.
  - apply find_some in Ex as [Hm%list_elem_of_In ->%streqb_true]. split.
    + intros [= ->]. split; [done|]. apply streqb_refl.
    + intros [Hin En]. f_equal. apply Hu; [done|done|apply streqb_refl|done].
  - split.
    + intros E. apply find_some in E as [Hm%list_elem_of_In E]. done.
    + intros [Hin En]. destruct (List.find (fun x => folds_to x k) names) as [m|] eqn:Ef.
      * apply find_some in Ef as [Hm%list_elem_of_In Em]. f_equal. by apply Hu.
      * apply list_elem_of_In in Hin. by rewrite (find_none _ _ Ef n Hin) in En.
Qed.

Lemma assigned_agree names names' o n :
  NoDup (map folded names) -> NoDup (map folded names') -> n ∈ names -> n ∈ names' ->
  assigned names o n = assigned names' o n.
Proof.
  intros Hn Hn' Hin Hin'. unfold assigned. f_equal. apply List.filter_ext. intros [k v].
  assert (forall l, NoDup (map folded l) -> n ∈ l ->
    match target l k with Some m => (m =s n) | None => false end = folds_to n k) as H; [|by rewrite !H].
  intros l Hl Hnl. destruct (folds_to n k) eqn:E.
  - rewrite (proj2 (target_iff l k n Hl) (conj Hnl E)). apply streqb_refl.
  - destruct (target l k) as [m|] eqn:Em; [|done]. apply target_iff in Em as [_ Em]; [|done].
    apply streqb_false. congruence.
Qed.

Lemma notify_names_fold : NoDup (map folded notifyFact_names).
Proof. apply (bool_decide_unpack _). by vm_compute. Qed.
Lemma meta_names_fold : NoDup (map folded ["tenant"; "bucket"; "key"]%string).
Proof. apply (bool_decide_unpack _). by vm_compute. Qed.

(** The record checks. *)
Definition record_about (tenant bucket key : string) (r : notifyRecord) : Prop :=
  ni_PrincipalID (nr_UserIdentity r) = tenant /\ nb_Name (ns_Bucket (nr_S3 r)) = bucket /\
  no_Key (ns_Object (nr_S3 r)) = key /\ nr_EventName r = eventOutboxRemoveEventName.

Lemma validate_records_Forall payload l :
  validate_records payload l = None -> Forall (record_about (nf_Tenant payload) (nf_Bucket payload) (nf_Key payload)) l.
Proof.
  induction l as [|r l IH]; [constructor|]. cbn. destruct (validateAuthorityNotifyRecord payload r) eqn:E; [done|].
  intros H. constructor; [|by apply IH]. unfold validateAuthorityNotifyRecord in E.
  destruct (_ || _) eqn:E1 in E; [done|]. destruct (_ || _) eqn:E2 in E; [done|].
  rewrite !orb_false_iff, !negb_false_iff in E1. rewrite !orb_false_iff, !negb_false_iff in E2.
  destruct_and!. repeat match goal with Hx : (_ =s _) = true |- _ => apply streqb_true in Hx end. by split_and!.
Qed.

(** What an accepted notification is about. *)
Lemma accepted_scope row meta :
  eo_EventType row = EventTypeFileNotify11 -> validateOutboxNotifyFact row = Ok meta ->
  exists payload, (Unmarshal_struct (eo_Payload row) ≫= notifyFact_decode) = Some payload /\
    nm_Tenant meta = eo_TenantID row /\ nf_Records payload <> [] /\
    Forall (record_about (eo_TenantID row) (nm_Bucket meta) (nm_Key meta)) (nf_Records payload) /\
    ValidateBindingInput (eo_TenantID row) (nm_Bucket meta) = None /\ nf_Bucket payload = nm_Bucket meta.
Proof.
  intros Ht H. unfold validateOutboxNotifyFact, ValidateClaimedOutboxFact in H.
  destruct (validateClaimedOutboxIdentity row); [done|]. rewrite Ht in H.
  change (EventTypeFileNotify11 =s EventTypeFileDeleted11) with false in H. rewrite streqb_refl in H.
  unfold validateAuthorityNotifyFact, parseNotifyPayload in H. cbn zeta in H.
  destruct (Unmarshal_struct (eo_Payload row)) as [o|]; [|done]. cbn [mbind option_bind] in H |- *.
  destruct (notifyFact_decode o) as [f|] eqn:Ef; [|done]. exists f.
  destruct (_ || _) eqn:Ec in H; [done|]. rewrite !orb_false_iff, !negb_false_iff, !streqb_true in Ec.
  destruct Ec as [[[[_ _] Etn] _] _].
  destruct (nf_Records f) as [|r rs] eqn:Er; [done|]. destruct (validate_records f (r :: rs)) eqn:Ev; [done|].
  apply validate_records_Forall in Ev.
  rewrite !(assigned_agree ["tenant"; "bucket"; "key"]%string notifyFact_names o) in H
    by first [apply meta_names_fold|apply notify_names_fold|repeat constructor].
  unfold notifyFact_decode in Ef. cbn zeta in Ef.
  repeat match goal with
  | E : (?m ≫= _) = Some f |- _ => destruct m eqn:?; [cbn [mbind option_bind] in E|discriminate E]
  end.
  injection Ef as <-. cbn [mbind option_bind nf_Tenant nf_Bucket nf_Key nm_Tenant nm_Bucket nm_Key] in *.
  destruct (_ || _) in H; [done|]. destruct (ValidateBindingInput _ _) eqn:Eb; [done|]. injection H as <-.
  cbn [nm_Tenant nm_Bucket nm_Key] in *. rewrite <- Etn. by split_and!.
Qed.

(** When the relay accepts a claimed notification, the scope it acts for is the
    row's own tenant, and every record of the payload, of which there is at least one,
    is about that tenant, bucket and key: a payload cannot smuggle another tenant's
    records, nor another bucket's, past the admission of its scope. *)
Theorem accepted_notify_scope row meta :
  eo_EventType row = EventTypeFileNotify11 -> validateOutboxNotifyFact row = Ok meta ->
  exists payload, (Unmarshal_struct (eo_Payload row) ≫= notifyFact_decode) = Some payload /\
    nm_Tenant meta = eo_TenantID row /\ nf_Records payload <> [] /\
    Forall (record_about (eo_TenantID row) (nm_Bucket meta) (nm_Key meta)) (nf_Records payload) /\
    ValidateBindingInput (eo_TenantID row) (nm_Bucket meta) = None.
Proof. intros Ht Hv. destruct (accepted_scope row meta Ht Hv) as (f & ? & ? & ? & ? & ? & _). by exists f. Qed.

(** ** On a sample *)

Definition sample_deleted : Object := {|
  ob_ID := 7; ob_TenantID := "acme"; ob_Bucket := "docs"; ob_Key := "a.txt"; ob_VersionID := "v1"; ob_Backend := "local";
  ob_StorageKey := "k"; ob_Size := 3; ob_ETag := "e"; ob_ContentType := "text/plain"; ob_Metadata := ∅; ob_Tags := ∅;
  ob_StorageClass := "STANDARD"; ob_CreatedAt := 0; ob_UpdatedAt := 0; ob_DeletedAt := None; ob_LockedUntil := None;
  ob_VersionTombstone := false |}.

Definition sample_row (event payload : string) : EventOutboxRow := {|
  eo_ID := 1; eo_EventType := event; eo_OriginID := 7; eo_TenantID := "acme"; eo_Payload := payload; eo_Attempts := 1;
  eo_ClaimOwner := "r1"; eo_ClaimToken := "t1"; eo_LeaseExpiresAt := 0 |}.

Definition sample_deleted_row : EventOutboxRow :=
  sample_row EventTypeFileDeleted11 (BuildDeletedFact sample_deleted "ann" "req" "acme" []).
Definition sample_notify_row : EventOutboxRow :=
  sample_row EventTypeFileNotify11 (BuildNotifyFact "01" sample_deleted "ann" "req" "acme" "" []).

Lemma sample_deletable : deletable sample_deleted "acme".
Proof.
  split; [done|by vm_compute|by vm_compute|by repeat constructor|done|done|by vm_compute].
Qed.

Lemma deleted_fact_accepted_witness :
  ValidateClaimedOutboxFact sample_deleted_row = None /\ validateOutboxDeletedFact sample_deleted_row = None.
Proof.
  apply (deleted_fact_accepted sample_deleted "ann" "req" "acme" [] 0 0 []);
    [apply sample_deletable|by repeat constructor|constructor|by vm_compute|by vm_compute|by vm_compute|by split|by vm_compute].
Defined.

Lemma notify_fact_accepted_witness :
  validateOutboxNotifyFact sample_notify_row = Ok {| nm_Tenant := "acme"; nm_Bucket := "docs"; nm_Key := "a.txt" |}.
Proof.
  apply (notify_fact_accepted "01" sample_deleted "ann" "req" "acme" "" []);
    [apply sample_deletable|by repeat constructor|done|by vm_compute|by split|by vm_compute].
Defined.

Lemma accepted_notify_scope_witness :
  exists payload, (Unmarshal_struct (eo_Payload sample_notify_row) ≫= notifyFact_decode) = Some payload /\
    nf_Records payload <> [].
Proof.
  destruct (accepted_notify_scope sample_notify_row {| nm_Tenant := "acme"; nm_Bucket := "docs"; nm_Key := "a.txt" |})
    as (payload & H & _ & Hr & _); [reflexivity|by vm_compute|]. exists payload. exact (conj H Hr).
Defined.
