(* ===== verification/EventLog.v ===== *)
(** * The event log and the webhook retry store (src/internal/repository/sql_events.go,
      webhook_failures.go)

    The tables object_events (migration 0003) and webhook_failures (0008, 0036), for
    both dialects.  An event's payload column holds the JSON of a map[string]string and
    is kept as the map.  next_retry_at is a text on SQLite and compared as one. *)

From Stdlib Require Import Lia Bool ZArith.
From stdpp Require Import base gmap strings list numbers.
From S2P Require Import Prelude GoStrings GoTime GoErrors Sql JsonStruct Outbox Objects.

Open Scope Z_scope.

(** ** Data (repository.go, webhook_failures.go) *)

Definition EventCreated : string := "created".
Definition EventUpdated : string := "updated".
Definition EventDeleted : string := "deleted".
Definition EventAccessed : string := "accessed".

Record Event := {
  ev_ID : Z; ev_TenantID : string; ev_Bucket : string; ev_Key : string; ev_Type : string;
  ev_ObjectID : option Z; ev_RequestID : string; ev_Payload : kv; ev_CreatedAt : time
}.

#[export] Instance Event_eq_dec : EqDecision Event.
Proof. solve_decision. Defined.

(** A row of object_events. *)
Record EventRow := { er_event : Event; er_consumed_at : option time }.

Record WebhookFailure := {
  wf_ID : Z; wf_EventID : Z; wf_URL : string; wf_Payload : string; wf_Attempts : Z; wf_LastError : string;
  wf_LastStatus : Z; wf_NextRetryAt : time; wf_Succeeded : bool; wf_DeadLettered : bool; wf_CreatedAt : time
}.

(** The two tables with the last numbers of their sequences. *)
Record EventDB := {
  object_events : list EventRow; event_seq : Z; webhook_failures : list WebhookFailure; failure_seq : Z
}.

Definition set_events (l : list EventRow) (n : Z) (db : EventDB) : EventDB := {|
  object_events := l; event_seq := n; webhook_failures := webhook_failures db; failure_seq := failure_seq db |}.
Definition set_failures (l : list WebhookFailure) (n : Z) (db : EventDB) : EventDB := {|
  object_events := object_events db; event_seq := event_seq db; webhook_failures := l; failure_seq := n |}.

(** ** Events (sql_events.go) *)

(** The default of created_at: milliseconds on SQLite, now() on PostgreSQL. *)
Definition default_time (d : dialect) (now : time) : time :=
  match d with dialectSQLite => now / 1000000 * 1000000 | dialectPostgres => now / 1000 * 1000 end.

(** The row an INSERT adds. *)
Definition event_row (d : dialect) (now : time) (id : Z) (e : Event) : EventRow := {|
  er_event := {| ev_ID := id; ev_TenantID := defaultTenant (ev_TenantID e); ev_Bucket := ev_Bucket e; ev_Key := ev_Key e;
                 ev_Type := ev_Type e; ev_ObjectID := ev_ObjectID e; ev_RequestID := ev_RequestID e;
                 ev_Payload := ev_Payload e; ev_CreatedAt := default_time d now |};
  er_consumed_at := None |}.

Definition InsertEvent (d : dialect) (ctx : option error) (now : time) (e : Event) : prog EventDB Z :=
  run! with_ctx ctx in fun db =>
  if MaxInt64 <=? event_seq db then (db, Err (sequence_exhausted d))
  else let id := event_seq db + 1 in
       (set_events (object_events db ++ [event_row d now id e]) id db, Ok id).

Definition by_event_id (a b : EventRow) : bool := ev_ID (er_event a) <=? ev_ID (er_event b).

Definition NextUnconsumedEvents (ctx : option error) (limit : Z) : prog EventDB (list Event) :=
  let limit := if limit <=? 0 then 32 else limit in
  run! with_ctx ctx in
  reads (fun db => Ok (map er_event (take (Z.to_nat limit)
    (sort_by by_event_id (List.filter (fun r => match er_consumed_at r with None => true | Some _ => false end)
       (object_events db)))))).

Definition events_after (tenant : string) (afterID : Z) (r : EventRow) : bool :=
  (ev_TenantID (er_event r) =s tenant) && (afterID <? ev_ID (er_event r)).

Definition ListEventsAfter (ctx : option error) (tenant : string) (afterID limit : Z) : prog EventDB (list Event) :=
  let tenant := defaultTenant tenant in
  let afterID := if afterID <? 0 then 0 else afterID in
  let limit := if limit <=? 0 then 200 else if 1000 <? limit then 1000 else limit in
  run! with_ctx ctx in
  reads (fun db => Ok (map er_event (take (Z.to_nat limit)
    (sort_by by_event_id (List.filter (events_after tenant afterID) (object_events db)))))).

Definition MarkEventConsumed (d : dialect) (ctx : option error) (now : time) (id : Z) : prog EventDB unit :=
  run! with_ctx ctx in fun db =>
  (set_events (update_where (fun r => ev_ID (er_event r) =? id)
                 (fun r => {| er_event := er_event r; er_consumed_at := Some (column_time d now) |}) (object_events db))
     (event_seq db) db, Ok tt).

(** ** Webhook failures (webhook_failures.go) *)

Definition failure_row (d : dialect) (now : time) (id : Z) (f : WebhookFailure) : WebhookFailure := {|
  wf_ID := id; wf_EventID := wf_EventID f; wf_URL := wf_URL f; wf_Payload := wf_Payload f; wf_Attempts := wf_Attempts f;
  wf_LastError := wf_LastError f; wf_LastStatus := wf_LastStatus f; wf_NextRetryAt := column_time d (wf_NextRetryAt f);
  wf_Succeeded := false; wf_DeadLettered := false; wf_CreatedAt := default_time d now |}.

Definition RecordWebhookFailure (d : dialect) (ctx : option error) (now : time) (f : WebhookFailure) : prog EventDB Z :=
  run! with_ctx ctx in fun db =>
  if MaxInt64 <=? failure_seq db then (db, Err (sequence_exhausted d))
  else let id := failure_seq db + 1 in
       (set_failures (webhook_failures db ++ [failure_row d now id f]) id db, Ok id).

(** [succeeded = 0 AND dead_lettered = 0 AND next_retry_at <= $1]. *)
Definition failure_due (d : dialect) (now : time) (f : WebhookFailure) : bool :=
  negb (wf_Succeeded f) && negb (wf_DeadLettered f) && negb (time_lt d now (wf_NextRetryAt f)).

Definition NextPendingFailures (d : dialect) (ctx : option error) (now : time) (limit : Z)
    : prog EventDB (list WebhookFailure) :=
  let limit := if limit <=? 0 then 32 else limit in
  run! with_ctx ctx in
  reads (fun db => Ok (take (Z.to_nat limit)
    (sort_by (fun a b => wf_ID a <=? wf_ID b) (List.filter (failure_due d (column_time d now)) (webhook_failures db))))).

Definition update_failures (id : Z) (f : WebhookFailure -> WebhookFailure) : prog EventDB unit := fun db =>
  (set_failures (update_where (fun x => wf_ID x =? id) f (webhook_failures db)) (failure_seq db) db, Ok tt).

Definition MarkWebhookSucceeded (ctx : option error) (id : Z) : prog EventDB unit :=
  run! with_ctx ctx in
  update_failures id (fun f => {|
    wf_ID := wf_ID f; wf_EventID := wf_EventID f; wf_URL := wf_URL f; wf_Payload := wf_Payload f;
    wf_Attempts := wf_Attempts f; wf_LastError := wf_LastError f; wf_LastStatus := wf_LastStatus f;
    wf_NextRetryAt := wf_NextRetryAt f; wf_Succeeded := true; wf_DeadLettered := wf_DeadLettered f;
    wf_CreatedAt := wf_CreatedAt f |}).

(** The columns the two updates of a retry set. *)
Definition retried_failure (dead : bool) (lastErr : string) (lastStatus : Z) (next : time) (attempts : Z)
    (f : WebhookFailure) : WebhookFailure := {|
  wf_ID := wf_ID f; wf_EventID := wf_EventID f; wf_URL := wf_URL f; wf_Payload := wf_Payload f; wf_Attempts := attempts;
  wf_LastError := lastErr; wf_LastStatus := lastStatus; wf_NextRetryAt := next; wf_Succeeded := wf_Succeeded f;
  wf_DeadLettered := dead || wf_DeadLettered f; wf_CreatedAt := wf_CreatedAt f |}.

Definition MarkWebhookDeadLettered (d : dialect) (ctx : option error) (now : time) (id : Z) (lastErr : string)
    (lastStatus attempts : Z) : prog EventDB unit :=
  run! with_ctx ctx in
  update_failures id (retried_failure true lastErr lastStatus (column_time d now) attempts).

Definition UpdateWebhookFailure (d : dialect) (ctx : option error) (id : Z) (lastErr : string) (lastStatus : Z)
    (nextRetryAt : time) (attempts : Z) : prog EventDB unit :=
  run! with_ctx ctx in
  update_failures id (retried_failure false lastErr lastStatus (column_time d nextRetryAt) attempts).

Definition ListWebhookFailures (ctx : option error) (limit : Z) : prog EventDB (list WebhookFailure) :=
  let limit := if limit <=? 0 then 50 else limit in
  run! with_ctx ctx in
  reads (fun db => Ok (take (Z.to_nat limit) (sort_by (fun a b => wf_ID b <=? wf_ID a) (webhook_failures db)))).
