(* ===== verification/Repo.v ===== *)
(** * The repository (src/internal/repository: quota.go, tenants.go, sql_buckets.go, sql_bucket_access.go, sql_bucket_lifecycle.go, sql_tags_acl.go)

    [RepoDB] puts the tables together that the file service works on: the object tables
    (Objects), the ACL column of objects by row id, quotas, buckets, multipart uploads and
    their parts, idempotency keys, tenants, the chunks by object id, and the event log.
    Columns of JSON are kept as what they decode to; a failure of the store fails a whole
    call; sums and counters stay within int64.

    This file has the tables of quotas, tenants and buckets and the setters of single
    object columns; uploads and idempotency keys are in RepoUploads. *)
From Stdlib Require Import Ascii Lia Bool ZArith.
From stdpp Require Import base gmap strings list numbers option.
From S2P Require Import Prelude GoStrings GoTime Sql GoErrors JsonStruct Access AccessStore Outbox Objects EventLog.

Open Scope Z_scope.

Definition RepoErrUploadNotFound : string := "repository.ErrUploadNotFound".
Definition RepoErrTenantNotEmpty : string := "repository.ErrTenantNotEmpty".

(** ** Rows (repository.go) *)

Record TenantQuota := {
  tq_TenantID : string; tq_MaxBytes : Z; tq_MaxObjects : Z; tq_UsedBytes : Z; tq_UsedObjects : Z;
  tq_DailyBudgetMicros : Z; tq_UpdatedAt : time
}.

Record CORSRule := {
  cr_AllowedOrigins : list string; cr_AllowedMethods : list string; cr_AllowedHeaders : list string;
  cr_ExposeHeaders : list string; cr_MaxAgeSeconds : Z
}.
Record NotificationRule := {
  nt_ID : string; nt_Events : list string; nt_FilterKey : string; nt_QueueARN : string; nt_TopicARN : string;
  nt_LambdaARN : string; nt_EndpointURL : string
}.
Record TransitionRule := { tr_Days : Z; tr_StorageClass : string }.
Record WebsiteConfig := { wc_Suffix : string; wc_ErrorKey : string }.
Record LoggingConfig := { lg_Enabled : bool; lg_Target : string; lg_Prefix : string }.
Record BucketStatsRow := { bs_Bucket : string; bs_ObjectCount : Z; bs_TotalSize : Z }.

Record BucketConfig := {
  bc_TenantID : string; bc_Name : string; bc_Versioning : bool; bc_ObjectLockSeconds : Z; bc_ExpireAfterDays : Z;
  bc_ExpireAction : string; bc_NoncurrentDays : Z; bc_NoncurrentCount : Z; bc_ACL : string; bc_Policy : string;
  bc_CORSRules : list CORSRule; bc_LoggingTarget : string; bc_LoggingPrefix : string;
  bc_NotificationRules : list NotificationRule; bc_SSEAlgorithm : string; bc_SSEKMSKeyId : string;
  bc_TransitionRules : list TransitionRule; bc_NoncurrentTransitionDays : Z;
  bc_NoncurrentTransitionStorageClass : string; bc_WebsiteConfig : WebsiteConfig; bc_BucketMaxBytes : Z;
  bc_BucketMaxObjects : Z; bc_Tags : kv; bc_AccelerateStatus : string
}.

Record Upload := {
  up_ID : string; up_TenantID : string; up_Bucket : string; up_Key : string; up_VersionID : string;
  up_StorageKey : string; up_ContentType : string; up_Metadata : kv; up_Tags : kv; up_StorageClass : string;
  up_Backend : string; up_BackendUID : string; up_CreatedAt : time
}.
Record PartRecord := { pt_UploadID : string; pt_PartNumber : Z; pt_Size : Z; pt_ETag : string }.

Record IdempotencyRecord := {
  ir_TenantID : string; ir_Key : string; ir_Fingerprint : string; ir_Status : string; ir_RequestID : string;
  ir_ResponseStatus : Z; ir_ResponseBody : string; ir_ResponseCT : string;
  ir_ResponseHeaders : gmap string (list string); ir_CompletedAt : string; ir_CreatedAt : string
}.

Record TenantRecord := { te_TenantID : string; te_DisplayName : string; te_Status : string; te_CreatedAt : string }.

(** A row of bucket_access_logs. *)
Record AccessLogRow := {
  al_created_at : string; al_tenant_id : string; al_source_bucket : string; al_method : string;
  al_object_key : string; al_status : string; al_latency_ms : string; al_user_agent : string
}.

Record RepoDB := {
  r_objects : ObjectsDB; r_acl : gmap Z string; r_quotas : list TenantQuota; r_buckets : list BucketConfig;
  r_uploads : list Upload; r_parts : list PartRecord; r_idem : list IdempotencyRecord; r_tenants : list TenantRecord;
  r_chunks : list (string * Z); r_events : EventDB; r_logs : list AccessLogRow
}.

Definition set_r_objects (x : ObjectsDB) (db : RepoDB) : RepoDB := {|
  r_objects := x; r_acl := r_acl db; r_quotas := r_quotas db; r_buckets := r_buckets db; r_uploads := r_uploads db;
  r_parts := r_parts db; r_idem := r_idem db; r_tenants := r_tenants db; r_chunks := r_chunks db;
  r_events := r_events db; r_logs := r_logs db |}.
Definition set_r_acl (x : gmap Z string) (db : RepoDB) : RepoDB := {|
  r_objects := r_objects db; r_acl := x; r_quotas := r_quotas db; r_buckets := r_buckets db; r_uploads := r_uploads db;
  r_parts := r_parts db; r_idem := r_idem db; r_tenants := r_tenants db; r_chunks := r_chunks db;
  r_events := r_events db; r_logs := r_logs db |}.
Definition set_r_quotas (x : list TenantQuota) (db : RepoDB) : RepoDB := {|
  r_objects := r_objects db; r_acl := r_acl db; r_quotas := x; r_buckets := r_buckets db; r_uploads := r_uploads db;
  r_parts := r_parts db; r_idem := r_idem db; r_tenants := r_tenants db; r_chunks := r_chunks db;
  r_events := r_events db; r_logs := r_logs db |}.
Definition set_r_buckets (x : list BucketConfig) (db : RepoDB) : RepoDB := {|
  r_objects := r_objects db; r_acl := r_acl db; r_quotas := r_quotas db; r_buckets := x; r_uploads := r_uploads db;
  r_parts := r_parts db; r_idem := r_idem db; r_tenants := r_tenants db; r_chunks := r_chunks db;
  r_events := r_events db; r_logs := r_logs db |}.
Definition set_r_uploads (x : list Upload) (y : list PartRecord) (db : RepoDB) : RepoDB := {|
  r_objects := r_objects db; r_acl := r_acl db; r_quotas := r_quotas db; r_buckets := r_buckets db; r_uploads := x;
  r_parts := y; r_idem := r_idem db; r_tenants := r_tenants db; r_chunks := r_chunks db;
  r_events := r_events db; r_logs := r_logs db |}.
Definition set_r_idem (x : list IdempotencyRecord) (db : RepoDB) : RepoDB := {|
  r_objects := r_objects db; r_acl := r_acl db; r_quotas := r_quotas db; r_buckets := r_buckets db; r_uploads := r_uploads db;
  r_parts := r_parts db; r_idem := x; r_tenants := r_tenants db; r_chunks := r_chunks db;
  r_events := r_events db; r_logs := r_logs db |}.
Definition set_r_tenants (x : list TenantRecord) (db : RepoDB) : RepoDB := {|
  r_objects := r_objects db; r_acl := r_acl db; r_quotas := r_quotas db; r_buckets := r_buckets db; r_uploads := r_uploads db;
  r_parts := r_parts db; r_idem := r_idem db; r_tenants := x; r_chunks := r_chunks db;
  r_events := r_events db; r_logs := r_logs db |}.
Definition set_r_rest (c : list (string * Z)) (e : EventDB) (l : list AccessLogRow) (db : RepoDB) : RepoDB := {|
  r_objects := r_objects db; r_acl := r_acl db; r_quotas := r_quotas db; r_buckets := r_buckets db; r_uploads := r_uploads db;
  r_parts := r_parts db; r_idem := r_idem db; r_tenants := r_tenants db; r_chunks := c;
  r_events := e; r_logs := l |}.

(** A statement on the object tables. *)
Definition on_objects {A} (m : prog ObjectsDB A) : prog RepoDB A := fun db =>
  let '(o, r) := m (r_objects db) in (set_r_objects o db, r).

(** A statement that changes the tables. *)
Definition exec (ctx : option error) (f : RepoDB -> RepoDB) : prog RepoDB unit :=
  run! with_ctx ctx in writes (fun db => (f db, None)).

(** ** Quotas (quota.go) *)

Definition zero_quota (tenant : string) : TenantQuota := {|
  tq_TenantID := tenant; tq_MaxBytes := 0; tq_MaxObjects := 0; tq_UsedBytes := 0; tq_UsedObjects := 0;
  tq_DailyBudgetMicros := 0; tq_UpdatedAt := 0 |}.

Definition quota_of (tenant : string) (q : TenantQuota) : bool := (tq_TenantID q =s tenant).

(** INSERT ... ON CONFLICT (tenant_id) DO UPDATE SET. *)
Definition upsert_quota (tenant : string) (f : TenantQuota -> TenantQuota) (db : RepoDB) : RepoDB :=
  set_r_quotas (if existsb (quota_of tenant) (r_quotas db) then update_where (quota_of tenant) f (r_quotas db)
                else r_quotas db ++ [f (zero_quota tenant)]) db.

Definition ListTenantQuotas (ctx : option error) : prog RepoDB (list TenantQuota) :=
  run! with_ctx ctx in reads (fun db => Ok (r_quotas db)).

Definition quota_row (tenant : string) (db : RepoDB) : TenantQuota :=
  default (zero_quota tenant) (List.find (quota_of tenant) (r_quotas db)).

Definition GetTenantQuota (ctx : option error) (tenant : string) : prog RepoDB TenantQuota :=
  run! with_ctx ctx in reads (fun db => Ok (quota_row (defaultTenant tenant) db)).

Definition with_caps (maxBytes maxObjects : Z) (now : time) (q : TenantQuota) : TenantQuota := {|
  tq_TenantID := tq_TenantID q; tq_MaxBytes := maxBytes; tq_MaxObjects := maxObjects; tq_UsedBytes := tq_UsedBytes q;
  tq_UsedObjects := tq_UsedObjects q; tq_DailyBudgetMicros := tq_DailyBudgetMicros q; tq_UpdatedAt := now |}.

Definition SetTenantQuota (d : dialect) (ctx : option error) (now : time) (tenant : string) (maxBytes maxObjects : Z)
    : prog RepoDB unit :=
  exec ctx (upsert_quota (defaultTenant tenant) (with_caps maxBytes maxObjects (default_time d now))).

Definition with_budget (micros : Z) (now : time) (q : TenantQuota) : TenantQuota := {|
  tq_TenantID := tq_TenantID q; tq_MaxBytes := tq_MaxBytes q; tq_MaxObjects := tq_MaxObjects q;
  tq_UsedBytes := tq_UsedBytes q; tq_UsedObjects := tq_UsedObjects q; tq_DailyBudgetMicros := micros;
  tq_UpdatedAt := now |}.

Definition SetTenantBudgetMicros (d : dialect) (ctx : option error) (now : time) (tenant : string) (micros : Z)
    : prog RepoDB unit :=
  exec ctx (upsert_quota (defaultTenant tenant) (with_budget micros (default_time d now))).

(** Counters stop at zero. *)
Definition add_floor (used delta : Z) : Z := if used + delta <? 0 then 0 else used + delta.

Definition with_usage (deltaBytes deltaObjects : Z) (now : time) (q : TenantQuota) : TenantQuota := {|
  tq_TenantID := tq_TenantID q; tq_MaxBytes := tq_MaxBytes q; tq_MaxObjects := tq_MaxObjects q;
  tq_UsedBytes := add_floor (tq_UsedBytes q) deltaBytes; tq_UsedObjects := add_floor (tq_UsedObjects q) deltaObjects;
  tq_DailyBudgetMicros := tq_DailyBudgetMicros q; tq_UpdatedAt := now |}.

(** The insert and the update are one transaction; the read comes after it. *)
Definition AddTenantUsage (ctx ctx' : option error) (now : time) (tenant : string) (deltaBytes deltaObjects : Z)
    : prog RepoDB TenantQuota :=
  run! exec ctx (upsert_quota (defaultTenant tenant) (with_usage deltaBytes deltaObjects now)) in
  GetTenantQuota ctx' (defaultTenant tenant).

(** ** Buckets (sql_buckets.go) *)

Definition zero_bucket (tenant bucket : string) : BucketConfig := {|
  bc_TenantID := tenant; bc_Name := bucket; bc_Versioning := false; bc_ObjectLockSeconds := 0; bc_ExpireAfterDays := 0;
  bc_ExpireAction := ""; bc_NoncurrentDays := 0; bc_NoncurrentCount := 0; bc_ACL := ""; bc_Policy := "";
  bc_CORSRules := []; bc_LoggingTarget := ""; bc_LoggingPrefix := ""; bc_NotificationRules := [];
  bc_SSEAlgorithm := ""; bc_SSEKMSKeyId := ""; bc_TransitionRules := []; bc_NoncurrentTransitionDays := 0;
  bc_NoncurrentTransitionStorageClass := ""; bc_WebsiteConfig := {| wc_Suffix := ""; wc_ErrorKey := "" |};
  bc_BucketMaxBytes := 0; bc_BucketMaxObjects := 0; bc_Tags := ∅; bc_AccelerateStatus := "" |}.

(** The columns of buckets that can be set, and the setting of them. *)
Inductive bucket_change :=
| Versioning_ (enabled : bool) | ObjectLock_ (seconds : Z) | Expire_ (days : Z) (action : string)
| Noncurrent_ (days count : Z) | Acl_ (acl : string) | Policy_ (policy : string) | Cors_ (rules : list CORSRule)
| Logging_ (target prefix : string) | Notifications_ (rules : list NotificationRule) | Encryption_ (algorithm key : string)
| Transitions_ (rules : list TransitionRule) (days : Z) (class : string) | Website_ (w : WebsiteConfig)
| Limits_ (maxBytes maxObjects : Z) | Tags_ (tags : kv) | Accelerate_ (status : string).

Definition change (c : bucket_change) (b : BucketConfig) : BucketConfig := {|
  bc_TenantID := bc_TenantID b; bc_Name := bc_Name b;
  bc_Versioning := match c with Versioning_ v => v | _ => bc_Versioning b end;
  bc_ObjectLockSeconds := match c with ObjectLock_ n => n | _ => bc_ObjectLockSeconds b end;
  bc_ExpireAfterDays := match c with Expire_ n _ => n | _ => bc_ExpireAfterDays b end;
  bc_ExpireAction := match c with Expire_ _ a => a | _ => bc_ExpireAction b end;
  bc_NoncurrentDays := match c with Noncurrent_ n _ => n | _ => bc_NoncurrentDays b end;
  bc_NoncurrentCount := match c with Noncurrent_ _ n => n | _ => bc_NoncurrentCount b end;
  bc_ACL := match c with Acl_ a => a | _ => bc_ACL b end;
  bc_Policy := match c with Policy_ p => p | _ => bc_Policy b end;
  bc_CORSRules := match c with Cors_ l => l | _ => bc_CORSRules b end;
  bc_LoggingTarget := match c with Logging_ t _ => t | _ => bc_LoggingTarget b end;
  bc_LoggingPrefix := match c with Logging_ _ p => p | _ => bc_LoggingPrefix b end;
  bc_NotificationRules := match c with Notifications_ l => l | _ => bc_NotificationRules b end;
  bc_SSEAlgorithm := match c with Encryption_ a _ => a | _ => bc_SSEAlgorithm b end;
  bc_SSEKMSKeyId := match c with Encryption_ _ k => k | _ => bc_SSEKMSKeyId b end;
  bc_TransitionRules := match c with Transitions_ l _ _ => l | _ => bc_TransitionRules b end;
  bc_NoncurrentTransitionDays := match c with Transitions_ _ n _ => n | _ => bc_NoncurrentTransitionDays b end;
  bc_NoncurrentTransitionStorageClass := match c with Transitions_ _ _ s => s | _ => bc_NoncurrentTransitionStorageClass b end;
  bc_WebsiteConfig := match c with Website_ w => w | _ => bc_WebsiteConfig b end;
  bc_BucketMaxBytes := match c with Limits_ n _ => n | _ => bc_BucketMaxBytes b end;
  bc_BucketMaxObjects := match c with Limits_ _ n => n | _ => bc_BucketMaxObjects b end;
  bc_Tags := match c with Tags_ t => t | _ => bc_Tags b end;
  bc_AccelerateStatus := match c with Accelerate_ s => s | _ => bc_AccelerateStatus b end |}.

(** The defaults of the columns. *)
Definition new_bucket (tenant bucket : string) : BucketConfig :=
  change (Acl_ "private") (change (Expire_ 0 "soft_delete") (zero_bucket tenant bucket)).

Definition is_bucket (tenant bucket : string) (b : BucketConfig) : bool :=
  (bc_TenantID b =s tenant) && (bc_Name b =s bucket).

Definition insert_bucket (tenant bucket : string) (db : RepoDB) : RepoDB :=
  if existsb (is_bucket tenant bucket) (r_buckets db) then db
  else set_r_buckets (r_buckets db ++ [new_bucket tenant bucket]) db.

Definition CreateBucket (ctx : option error) (tenant bucket : string) : prog RepoDB unit :=
  exec ctx (insert_bucket (defaultTenant tenant) bucket).

Definition BucketExists (ctx : option error) (tenant bucket : string) : prog RepoDB bool :=
  run! with_ctx ctx in reads (fun db => Ok (existsb (is_bucket (defaultTenant tenant) bucket) (r_buckets db))).

(** Without ORDER BY: the order of the table. *)
Definition ListBuckets (ctx : option error) (tenant : string) : prog RepoDB (list string) :=
  run! with_ctx ctx in
  reads (fun db => Ok (map bc_Name (List.filter (fun b => bc_TenantID b =s defaultTenant tenant) (r_buckets db)))).

Definition sum_sizes (l : list Object) : Z := foldr (fun o n => ob_Size o + n) 0 l.
Definition count (l : list Object) : Z := Z.of_nat (length l).
Definition in_bucket (tenant bucket : string) (o : Object) : bool := (ob_TenantID o =s tenant) && (ob_Bucket o =s bucket).

Definition BucketStats (ctx : option error) (tenant bucket : string) : prog RepoDB BucketStatsRow :=
  run! with_ctx ctx in
  reads (fun db =>
    let rows := List.filter (fun o => in_bucket (defaultTenant tenant) bucket o && is_live o) (objects (r_objects db)) in
    Ok {| bs_Bucket := bucket; bs_ObjectCount := count rows; bs_TotalSize := sum_sizes rows |}).

Definition GetBucketConfig (ctx : option error) (tenant bucket : string) : prog RepoDB BucketConfig :=
  run! with_ctx ctx in
  reads (fun db => Ok (default (zero_bucket (defaultTenant tenant) bucket)
                         (List.find (is_bucket (defaultTenant tenant) bucket) (r_buckets db)))).

Definition update_bucket (tenant bucket : string) (c : bucket_change) (db : RepoDB) : RepoDB :=
  set_r_buckets (update_where (is_bucket tenant bucket) (change c) (r_buckets db)) db.

(** The setters make the bucket first; the ones that clear a column do not. *)
Definition set_bucket (ctx : option error) (tenant bucket : string) (c : bucket_change) : prog RepoDB unit :=
  exec ctx (fun db => update_bucket (defaultTenant tenant) bucket c (insert_bucket (defaultTenant tenant) bucket db)).
Definition clear_bucket (ctx : option error) (tenant bucket : string) (c : bucket_change) : prog RepoDB unit :=
  exec ctx (update_bucket (defaultTenant tenant) bucket c).

Definition SetBucketAccelerate ctx tenant bucket status := set_bucket ctx tenant bucket (Accelerate_ status).
Definition SetBucketEncryption ctx tenant bucket algorithm kmsKeyID := set_bucket ctx tenant bucket (Encryption_ algorithm kmsKeyID).
Definition DeleteBucketEncryption ctx tenant bucket := clear_bucket ctx tenant bucket (Encryption_ "" "").
Definition SetBucketWebsite ctx tenant bucket cfg := set_bucket ctx tenant bucket (Website_ cfg).
Definition DeleteBucketWebsite ctx tenant bucket :=
  clear_bucket ctx tenant bucket (Website_ {| wc_Suffix := ""; wc_ErrorKey := "" |}).
Definition SetBucketQuota ctx tenant bucket maxBytes maxObjects := set_bucket ctx tenant bucket (Limits_ maxBytes maxObjects).
Definition SetBucketTags ctx tenant bucket tags := set_bucket ctx tenant bucket (Tags_ tags).
Definition DeleteBucketTags ctx tenant bucket := clear_bucket ctx tenant bucket (Tags_ ∅).
Definition SetBucketPolicy ctx tenant bucket policy := set_bucket ctx tenant bucket (Policy_ policy).
Definition SetBucketACL ctx tenant bucket acl := set_bucket ctx tenant bucket (Acl_ acl).
Definition SetBucketVersioning ctx tenant bucket enabled := set_bucket ctx tenant bucket (Versioning_ enabled).
Definition SetBucketObjectLock ctx tenant bucket seconds := set_bucket ctx tenant bucket (ObjectLock_ seconds).

Definition counted (o : Object) : bool := is_live o || ob_VersionTombstone o.

(** The bytes and the objects a bucket holds: live rows and older versions. *)
Definition BucketUsage (ctx : option error) (tenant bucket : string) : prog RepoDB (Z * Z) :=
  run! with_ctx ctx in
  reads (fun db =>
    let rows := List.filter (fun o => in_bucket (defaultTenant tenant) bucket o && counted o) (objects (r_objects db)) in
    Ok (sum_sizes rows, count rows)).

(** ** CORS, logging, notifications (sql_bucket_access.go) *)

(** The readers make the bucket, too. *)
Definition read_bucket {A} (ctx : option error) (tenant bucket : string) (none : A) (f : BucketConfig -> A) : prog RepoDB A :=
  run! CreateBucket ctx tenant bucket in
  reads (fun db => Ok (match List.find (is_bucket (defaultTenant tenant) bucket) (r_buckets db) with
                       | Some b => f b | None => none end)).

Definition GetBucketCORS ctx tenant bucket := read_bucket ctx tenant bucket [] bc_CORSRules.
Definition SetBucketCORS ctx tenant bucket rules := set_bucket ctx tenant bucket (Cors_ rules).
Definition DeleteBucketCORS ctx tenant bucket := clear_bucket ctx tenant bucket (Cors_ []).

Definition logging_config (b : BucketConfig) : LoggingConfig := {|
  lg_Enabled := (bc_LoggingTarget b <>s ""); lg_Target := bc_LoggingTarget b; lg_Prefix := bc_LoggingPrefix b |}.
Definition GetBucketLogging ctx tenant bucket :=
  read_bucket ctx tenant bucket {| lg_Enabled := false; lg_Target := ""; lg_Prefix := "" |} logging_config.
Definition SetBucketLogging ctx tenant bucket target prefix := set_bucket ctx tenant bucket (Logging_ target prefix).
Definition DeleteBucketLogging ctx tenant bucket := clear_bucket ctx tenant bucket (Logging_ "" "").

Definition WriteAccessLog (ctx : option error) (now : time) (tenant sourceBucket method key status latencyMs userAgent : string)
    : prog RepoDB unit :=
  exec ctx (fun db => set_r_rest (r_chunks db) (r_events db) (r_logs db ++ [{|
    al_created_at := FormatRFC3339Nano now; al_tenant_id := defaultTenant tenant; al_source_bucket := sourceBucket;
    al_method := method; al_object_key := key; al_status := status; al_latency_ms := latencyMs;
    al_user_agent := userAgent |}]) db).

Definition GetBucketNotifications ctx tenant bucket := read_bucket ctx tenant bucket [] bc_NotificationRules.
Definition SetBucketNotifications ctx tenant bucket rules := set_bucket ctx tenant bucket (Notifications_ rules).
Definition DeleteBucketNotifications ctx tenant bucket := clear_bucket ctx tenant bucket (Notifications_ []).

(** ** Lifecycle settings (sql_bucket_lifecycle.go) *)

Record LifecycleConfig := {
  lf_ExpireAfterDays : Z; lf_ExpireAction : string; lf_NoncurrentDays : Z; lf_NoncurrentCount : Z;
  lf_TransitionRules : list TransitionRule; lf_NoncurrentTransitionDays : Z;
  lf_NoncurrentTransitionStorageClass : string
}.

Definition SetBucketLifecycle ctx tenant bucket days (action : string) :=
  set_bucket ctx tenant bucket (Expire_ days (if (action =s "") then "soft_delete" else action)).

Definition SetBucketLifecycleFull (ctx : option error) (tenant bucket : string) (lc : LifecycleConfig) : prog RepoDB unit :=
  let action := if (lf_ExpireAction lc =s "") && (0 <? lf_ExpireAfterDays lc) then "soft_delete"%string else lf_ExpireAction lc in
  exec ctx (fun db =>
    let t := defaultTenant tenant in
    update_bucket t bucket (Transitions_ (lf_TransitionRules lc) (lf_NoncurrentTransitionDays lc) (lf_NoncurrentTransitionStorageClass lc))
      (update_bucket t bucket (Noncurrent_ (lf_NoncurrentDays lc) (lf_NoncurrentCount lc))
         (update_bucket t bucket (Expire_ (lf_ExpireAfterDays lc) action) (insert_bucket t bucket db)))).

Definition SetBucketNoncurrentVersionLifecycle ctx tenant bucket days n := set_bucket ctx tenant bucket (Noncurrent_ days n).

(** ** Removing a bucket *)

(** Rows of bucket_access_logs stay. *)
Definition bucket_rows_gone (tenant bucket : string) (db : RepoDB) : RepoDB :=
  let upload := fun u => (up_TenantID u =s tenant) && (up_Bucket u =s bucket) in
  let mine := List.filter (in_bucket tenant bucket) (objects (r_objects db)) in
  let of_object := fun id => existsb (fun o => ob_ID o =? id) mine in
  let o := r_objects db in
  let objs := set_access (deleteBucketAccessState (access_db o) tenant bucket)
    (set_holds (delete_where (fun h => of_object (lh_object_id h)) (legal_holds o))
      (set_objects (delete_where (in_bucket tenant bucket) (objects o)) o)) in
  let e := r_events db in
  set_r_objects objs
    (set_r_rest (delete_where (fun c => of_object (snd c)) (r_chunks db))
       (set_events (delete_where (fun row => (ev_TenantID (er_event row) =s tenant) && (ev_Bucket (er_event row) =s bucket))
          (object_events e)) (event_seq e) e) (r_logs db)
       (set_r_uploads (delete_where upload (r_uploads db))
          (delete_where (fun p => existsb (fun u => upload u && (up_ID u =s pt_UploadID p)) (r_uploads db)) (r_parts db))
          (set_r_buckets (delete_where (is_bucket tenant bucket) (r_buckets db)) db))).

Definition DeleteBucket (ctx : option error) (tenant bucket : string) : prog RepoDB unit :=
  run! with_ctx ctx in
  run! guard (fun db => if existsb (is_bucket (defaultTenant tenant) bucket) (r_buckets db) then None else Some not_found) in
  writes (fun db => (bucket_rows_gone (defaultTenant tenant) bucket db, None)).

(** ** Tenants (tenants.go) *)

Definition is_tenant (id : string) (t : TenantRecord) : bool := (te_TenantID t =s id).

Definition UpsertTenant (ctx : option error) (now : time) (tr : TenantRecord) : prog RepoDB unit :=
  let created := if (te_CreatedAt tr =s "") then FormatRFC3339Nano now else te_CreatedAt tr in
  let status := if (te_Status tr =s "") then "active"%string else te_Status tr in
  let id := te_TenantID tr in
  exec ctx (fun db => set_r_tenants
    (if existsb (is_tenant id) (r_tenants db) then
       update_where (is_tenant id) (fun t => {| te_TenantID := te_TenantID t; te_DisplayName := te_DisplayName tr;
         te_Status := status; te_CreatedAt := te_CreatedAt t |}) (r_tenants db)
     else r_tenants db ++ [{| te_TenantID := id; te_DisplayName := te_DisplayName tr; te_Status := status;
                              te_CreatedAt := created |}]) db).

Definition GetTenant (ctx : option error) (tenantID : string) : prog RepoDB (option TenantRecord) :=
  run! with_ctx ctx in reads (fun db => Ok (List.find (is_tenant tenantID) (r_tenants db))).

Definition ListTenants (ctx : option error) : prog RepoDB (list TenantRecord) :=
  run! with_ctx ctx in
  reads (fun db => Ok (sort_by (fun a b => text_le (te_CreatedAt a) (te_CreatedAt b)) (r_tenants db))).

Definition tenantHasStoredData (tenant : string) (db : RepoDB) : bool :=
  existsb (fun o => ob_TenantID o =s tenant) (objects (r_objects db)) ||
  existsb (fun b => bc_TenantID b =s tenant) (r_buckets db) || existsb (fun u => up_TenantID u =s tenant) (r_uploads db).

(** Of its tables, ai_usage, jobs and api_keys are not in the model. *)
Definition deleteTenantControlPlane (tenant : string) (db : RepoDB) : RepoDB :=
  let o := r_objects db in let a := access_db o in let e := r_events db in
  let access := {|
    departments := delete_where (fun x => dep_TenantID x =s tenant) (departments a);
    department_members := delete_where (fun x => mem_TenantID x =s tenant) (department_members a);
    resource_acls := delete_where (fun x => acl_TenantID x =s tenant) (resource_acls a);
    shares := delete_where (fun x => sh_TenantID x =s tenant) (shares a);
    public_assets := delete_where (fun x => pa_TenantID x =s tenant) (public_assets a) |} in
  set_r_objects (set_access access (set_holds (delete_where (fun h => lh_tenant_id h =s tenant) (legal_holds o)) o))
    (set_r_quotas (delete_where (quota_of tenant) (r_quotas db))
      (set_r_idem (delete_where (fun r => ir_TenantID r =s tenant) (r_idem db))
        (set_r_rest (delete_where (fun c => fst c =s tenant) (r_chunks db))
           (set_events (delete_where (fun row => ev_TenantID (er_event row) =s tenant) (object_events e)) (event_seq e) e)
           (r_logs db) db))).

Definition DeleteTenant (ctx : option error) (tenantID : string) : prog RepoDB bool :=
  run! with_ctx ctx in
  fun db =>
    if negb (existsb (is_tenant tenantID) (r_tenants db)) then (db, Ok false)
    else if tenantHasStoredData tenantID db then (db, Err (Sentinel RepoErrTenantNotEmpty))
    else let db := deleteTenantControlPlane tenantID db in
         (set_r_tenants (delete_where (is_tenant tenantID) (r_tenants db)) db, Ok true).

(** ** Columns of one object (sql_tags_acl.go) *)

Definition with_tags (tags : kv) (now : time) (o : Object) : Object := {|
  ob_ID := ob_ID o; ob_TenantID := ob_TenantID o; ob_Bucket := ob_Bucket o; ob_Key := ob_Key o;
  ob_VersionID := ob_VersionID o; ob_Backend := ob_Backend o; ob_StorageKey := ob_StorageKey o; ob_Size := ob_Size o;
  ob_ETag := ob_ETag o; ob_ContentType := ob_ContentType o; ob_Metadata := ob_Metadata o; ob_Tags := tags;
  ob_StorageClass := ob_StorageClass o; ob_CreatedAt := ob_CreatedAt o; ob_UpdatedAt := now;
  ob_DeletedAt := ob_DeletedAt o; ob_LockedUntil := ob_LockedUntil o; ob_VersionTombstone := ob_VersionTombstone o |}.

Definition with_lock (until : time) (o : Object) : Object := {|
  ob_ID := ob_ID o; ob_TenantID := ob_TenantID o; ob_Bucket := ob_Bucket o; ob_Key := ob_Key o;
  ob_VersionID := ob_VersionID o; ob_Backend := ob_Backend o; ob_StorageKey := ob_StorageKey o; ob_Size := ob_Size o;
  ob_ETag := ob_ETag o; ob_ContentType := ob_ContentType o; ob_Metadata := ob_Metadata o; ob_Tags := ob_Tags o;
  ob_StorageClass := ob_StorageClass o; ob_CreatedAt := ob_CreatedAt o; ob_UpdatedAt := ob_UpdatedAt o;
  ob_DeletedAt := ob_DeletedAt o; ob_LockedUntil := Some until; ob_VersionTombstone := ob_VersionTombstone o |}.

(** An UPDATE that has to hit a row. *)
Definition update_found (ctx : option error) (p : Object -> bool) (f : Object -> Object) : prog RepoDB unit :=
  run! with_ctx ctx in
  do! n := on_objects (update_objects p f) in refuse_if (n =? 0) not_found.

Definition UpdateTags (d : dialect) (ctx : option error) (now : time) (tenant bucket key : string) (tags : kv) :=
  update_found ctx (live_at (defaultTenant tenant) bucket key) (with_tags tags (column_time d now)).
Definition UpdateObjectTagsByID (d : dialect) (ctx : option error) (now : time) (id : Z) (tags : kv) :=
  update_found ctx (has_object_id id) (with_tags tags (column_time d now)).
Definition SetLockedUntil (d : dialect) (ctx : option error) (tenant bucket key : string) (until : time) :=
  update_found ctx (live_at (defaultTenant tenant) bucket key) (with_lock (column_time d until)).
Definition RepoSetObjectRetention (d : dialect) (ctx : option error) (id : Z) (until : time) (metadata : kv) :=
  update_found ctx (has_object_id id) (fun o => with_lock (column_time d until) (with_metadata metadata o)).

Definition StorageKeyReferenced (ctx : option error) (storageKey : string) : prog RepoDB bool :=
  run! with_ctx ctx in reads (fun db => Ok (existsb (fun o => ob_StorageKey o =s storageKey) (objects (r_objects db)))).

Definition ListStorageKeys (ctx : option error) : prog RepoDB (list string) :=
  run! with_ctx ctx in
  reads (fun db => Ok (list.remove_dups (List.filter (fun k => k <>s "") (map ob_StorageKey (objects (r_objects db)))))).

Definition RepoSetObjectACL (ctx : option error) (tenant bucket key acl : string) : prog RepoDB unit :=
  run! with_ctx ctx in
  fun db => match List.find (live_at (defaultTenant tenant) bucket key) (objects (r_objects db)) with
            | Some o => (set_r_acl (<[ob_ID o := acl]> (r_acl db)) db, Ok tt)
            | None => (db, Err not_found)
            end.

Definition RepoGetObjectACL (ctx : option error) (tenant bucket key : string) : prog RepoDB string :=
  run! with_ctx ctx in
  reads (fun db => let! o := get_row (live_at (defaultTenant tenant) bucket key) (objects (r_objects db)) in
                   let acl := default "private"%string (r_acl db !! ob_ID o) in
                   Ok (if (acl =s "") then "private"%string else acl)).

(** * Uploads and idempotency keys (src/internal/repository: sql_uploads.go, idempotency.go, sql_bucket_lifecycle.go, sql_bucket_lifecycle_scan.go)

    Multipart uploads with their parts, idempotency keys, and the lifecycle queries, which
    walk the objects by id in batches ([scanLifecycleBatches]).  Comparisons of created_at
    with a given timestamp are comparisons of texts, as the statements make them.  Adding
    days to a time multiplies a Duration and wraps around like an int64. *)
Open Scope Z_scope.

(** ** Uploads (sql_uploads.go) *)

Definition with_upload_row (d : dialect) (now : time) (u : Upload) : Upload := {|
  up_ID := up_ID u; up_TenantID := defaultTenant (up_TenantID u); up_Bucket := up_Bucket u; up_Key := up_Key u;
  up_VersionID := up_VersionID u; up_StorageKey := up_StorageKey u; up_ContentType := up_ContentType u;
  up_Metadata := up_Metadata u; up_Tags := up_Tags u; up_StorageClass := up_StorageClass u; up_Backend := up_Backend u;
  up_BackendUID := up_BackendUID u; up_CreatedAt := default_time d now |}.

Definition CreateUpload (d : dialect) (ctx : option error) (now : time) (u : Upload) : prog RepoDB unit :=
  run! with_ctx ctx in
  writes (fun db => if existsb (fun x => up_ID x =s up_ID u) (r_uploads db) then (db, Some (pkey_violation d "multipart_uploads_pkey"))
                    else (set_r_uploads (r_uploads db ++ [with_upload_row d now u]) (r_parts db) db, None)).

Definition upload_not_found : error := Sentinel RepoErrUploadNotFound.

Definition GetUpload (ctx : option error) (uploadID : string) : prog RepoDB Upload :=
  run! with_ctx ctx in
  reads (fun db => match List.find (fun u => up_ID u =s uploadID) (r_uploads db) with
                   | Some u => Ok u
                   | None => Err upload_not_found
                   end).

(** The parts go with their upload: ON DELETE CASCADE. *)
Definition drop_upload (uploadID : string) (db : RepoDB) : RepoDB :=
  set_r_uploads (delete_where (fun u => up_ID u =s uploadID) (r_uploads db))
    (delete_where (fun p => pt_UploadID p =s uploadID) (r_parts db)) db.

Definition DeleteUpload (ctx : option error) (uploadID : string) : prog RepoDB unit := exec ctx (drop_upload uploadID).

Definition upload_le (a b : Upload) : bool :=
  then_by (String.ltb (up_Key a) (up_Key b)) (String.ltb (up_Key b) (up_Key a)) (text_le (up_ID a) (up_ID b)).

Definition ListUploads (ctx : option error) (tenant bucket keyMarker uploadIDMarker : string) (limit : Z)
    : prog RepoDB (list Upload) :=
  let limit := if limit <=? 0 then 1000 else if 10000 <? limit then 10000 else limit in
  let p := fun u => (up_TenantID u =s defaultTenant tenant) && ((bucket =s "") || (up_Bucket u =s bucket)) &&
                    ((keyMarker =s "") || String.ltb keyMarker (up_Key u) ||
                     ((up_Key u =s keyMarker) && String.ltb uploadIDMarker (up_ID u))) in
  run! with_ctx ctx in
  reads (fun db => Ok (take (Z.to_nat limit) (sort_by upload_le (List.filter p (r_uploads db))))).

(** A column's text (SQLite), or instant (PostgreSQL), before a given timestamp. *)
Definition text_before (d : dialect) (column before : string) (t before_time : time) : bool :=
  match d with dialectSQLite => String.ltb column before | dialectPostgres => t <? before_time end.

Definition stale_uploads (d : dialect) (ctx : option error) (p : RepoDB -> Upload -> bool) (before : string) (before_time : time)
    (limit : Z) : prog RepoDB (list Upload) :=
  let limit := if (limit <=? 0) || (10000 <? limit) then 10000 else limit in
  run! with_ctx ctx in
  reads (fun db => Ok (take (Z.to_nat limit) (sort_by (fun a b => up_CreatedAt a <=? up_CreatedAt b)
    (List.filter (fun u => text_before d (FormatMillis (up_CreatedAt u)) before (up_CreatedAt u) before_time && p db u) (r_uploads db))))).

Definition ListExpiredUploads d ctx before before_time limit := stale_uploads d ctx (fun _ _ => true) before before_time limit.
Definition ListZombieUploads d ctx before before_time limit :=
  stale_uploads d ctx (fun db u => existsb (fun p => pt_UploadID p =s up_ID u) (r_parts db)) before before_time limit.

Definition DeleteUploadCascade (ctx : option error) (uploadID : string) : prog RepoDB unit :=
  run! with_ctx ctx in
  run! guard (fun db => if existsb (fun u => up_ID u =s uploadID) (r_uploads db) then None else Some upload_not_found) in
  writes (fun db => (drop_upload uploadID db, None)).

Definition same_part (p x : PartRecord) : bool := (pt_UploadID x =s pt_UploadID p) && (pt_PartNumber x =? pt_PartNumber p).

(** A part of an upload that is gone breaks the foreign key. *)
Definition RecordPart (d : dialect) (ctx : option error) (p : PartRecord) : prog RepoDB unit :=
  run! with_ctx ctx in
  writes (fun db =>
    if negb (existsb (fun u => up_ID u =s pt_UploadID p) (r_uploads db)) then (db, Some (fkey_violation d))
    else (set_r_uploads (r_uploads db)
            (if existsb (same_part p) (r_parts db) then update_where (same_part p) (fun _ => p) (r_parts db)
             else r_parts db ++ [p]) db, None)).

Definition ListParts (ctx : option error) (uploadID : string) : prog RepoDB (list PartRecord) :=
  run! with_ctx ctx in
  reads (fun db => Ok (sort_by (fun a b => pt_PartNumber a <=? pt_PartNumber b)
                         (List.filter (fun p => pt_UploadID p =s uploadID) (r_parts db)))).

(** ** Idempotency keys (idempotency.go) *)

Definition IdempotencyInProgress : string := "in_progress".
Definition IdempotencyCompleted : string := "completed".

Definition has_key (tenant key : string) (r : IdempotencyRecord) : bool := (ir_TenantID r =s tenant) && (ir_Key r =s key).

Definition getIdempotencyKey (tenant key : string) (db : RepoDB) : result IdempotencyRecord :=
  get_row (has_key tenant key) (r_idem db).

(** The record, and whether the caller has it. *)
Definition ClaimIdempotencyKey (ctx : option error) (now : time) (tenant key fingerprint requestID : string)
    : prog RepoDB (IdempotencyRecord * bool) :=
  let t := defaultTenant tenant in
  let fresh := {| ir_TenantID := t; ir_Key := key; ir_Fingerprint := fingerprint; ir_Status := IdempotencyInProgress;
                  ir_RequestID := requestID; ir_ResponseStatus := 0; ir_ResponseBody := ""; ir_ResponseCT := "";
                  ir_ResponseHeaders := ∅; ir_CompletedAt := ""; ir_CreatedAt := FormatRFC3339Nano now |} in
  run! with_ctx ctx in
  fun db => if existsb (has_key t key) (r_idem db) then (db, let! r := getIdempotencyKey t key db in Ok (r, false))
            else (set_r_idem (r_idem db ++ [fresh]) db, Ok (fresh, true)).

Definition complete_record (status : Z) (body contentType : string) (headers : gmap string (list string)) (now : time)
    (r : IdempotencyRecord) : IdempotencyRecord := {|
  ir_TenantID := ir_TenantID r; ir_Key := ir_Key r; ir_Fingerprint := ir_Fingerprint r; ir_Status := IdempotencyCompleted;
  ir_RequestID := ir_RequestID r; ir_ResponseStatus := status; ir_ResponseBody := body; ir_ResponseCT := contentType;
  ir_ResponseHeaders := headers; ir_CompletedAt := FormatRFC3339Nano now; ir_CreatedAt := ir_CreatedAt r |}.

Definition CompleteIdempotencyKey (ctx : option error) (now : time) (tenant key : string) (status : Z) (body contentType : string)
    (headers : gmap string (list string)) : prog RepoDB unit :=
  exec ctx (fun db => set_r_idem (update_where (has_key (defaultTenant tenant) key)
                                    (complete_record status body contentType headers now) (r_idem db)) db).

Definition DeleteIdempotencyKey (ctx : option error) (tenant key : string) : prog RepoDB unit :=
  exec ctx (fun db => set_r_idem (delete_where (has_key (defaultTenant tenant) key) (r_idem db)) db).

Definition DeleteIdempotencyKeysBefore (ctx : option error) (before : string) : prog RepoDB Z :=
  run! with_ctx ctx in
  fun db => let old := fun r => String.ltb (ir_CreatedAt r) before in
            (set_r_idem (delete_where old (r_idem db)) db, Ok (Z.of_nat (length (List.filter old (r_idem db))))).

(** ** Lifecycle scans (sql_bucket_lifecycle_scan.go) *)

Definition lifecycleScanBatchSize : Z := 200.

Definition lifecycleScanLimits (limit : Z) : Z * Z :=
  let limit := if limit <=? 0 then lifecycleScanBatchSize else limit in
  (limit, if lifecycleScanBatchSize <? limit then lifecycleScanBatchSize else limit).

(** One batch: the eligible rows, up to how many are still wanted, and the last id that
    was looked at. *)
Fixpoint scan_rows {R A} (id : R -> Z) (scan : R -> option A) (wanted : nat) (cursor : Z) (rows : list R) : list A * Z * nat :=
  match rows with
  | [] => ([], cursor, 0%nat)
  | r :: rest =>
      match scan r with
      | Some a =>
          match wanted with
          | S (S w) => let '(out, c, n) := scan_rows id scan (S w) (id r) rest in (a :: out, c, S n)
          | _ => ([a], id r, 1%nat)
          end
      | None => let '(out, c, n) := scan_rows id scan wanted (id r) rest in (out, c, S n)
      end
  end.

(** The candidates are the rows of the query in the order of their ids; [fuel] bounds the
    batches. *)
Fixpoint scanLifecycleBatches {R A} (fuel : nat) (id : R -> Z) (scan : R -> option A) (limit batch : nat) (cursor : Z)
    (candidates : list R) : option (list A) :=
  match fuel with
  | O => None
  | S fuel =>
      match limit with
      | O => Some []
      | _ => let page := take batch (List.filter (fun r => cursor <? id r) candidates) in
             let '(out, c, scanned) := scan_rows id scan limit cursor page in
             if (scanned <? batch)%nat then Some out
             else match scanLifecycleBatches fuel id scan (limit - length out) batch c candidates with
                  | Some more => Some (out ++ more)
                  | None => None
                  end
      end
  end.

(** time.Duration(days) * 24 * time.Hour. *)
Definition days_duration (days : Z) : Z := wrap64 (wrap64 (days * 24) * 3600000000000).

(** The row of an object with its bucket. *)
Definition join_buckets (p : Object -> BucketConfig -> bool) (db : RepoDB) : list (Object * BucketConfig) :=
  sort_by (fun a b => ob_ID (fst a) <=? ob_ID (fst b))
    (omap (fun o => match List.find (is_bucket (ob_TenantID o) (ob_Bucket o)) (r_buckets db) with
                    | Some b => if p o b then Some (o, b) else None
                    | None => None
                    end) (objects (r_objects db))).

Definition lifecycle_scan (ctx : option error) (limit : Z * Z) (p : RepoDB -> Object -> BucketConfig -> bool)
    (scan : Object * BucketConfig -> option Object) : prog RepoDB (list Object) :=
  run! with_ctx ctx in
  reads (fun db =>
    let rows := join_buckets (p db) db in
    match scanLifecycleBatches (S (length rows)) (fun r => ob_ID (fst r)) scan (Z.to_nat (fst limit)) (Z.to_nat (snd limit)) 0 rows with
    | Some out => Ok out
    | None => Err (NewError "unreachable")
    end).

(** A lifecycle row is read without its deleted_at and tombstone columns, unless said. *)
Definition lifecycle_row (o : Object) : Object := with_tombstone false (with_deleted None o).

(** The first transition the object has reached. *)
Definition transition_due (now : time) (o : Object) (rules : list TransitionRule) : option TransitionRule :=
  List.find (fun r => (days_duration (tr_Days r) <=? now - ob_UpdatedAt o) && (ob_StorageClass o <>s tr_StorageClass r)) rules.

Definition ListTransitionable (ctx : option error) (now : time) (limit : Z) : prog RepoDB (list Object) :=
  lifecycle_scan ctx (lifecycleScanLimits limit)
    (fun _ o b => is_live o && match bc_TransitionRules b with [] => false | _ => true end)
    (fun '(o, b) => match transition_due now o (bc_TransitionRules b) with
                    | Some r => Some (with_metadata (<["__transition_to"%string := tr_StorageClass r]> (ob_Metadata o)) (lifecycle_row o))
                    | None => None
                    end).

(** updated.Add(days).Before(now). *)
Definition expired (now updated days : Z) : bool := Before (updated + days_duration days) now.

Definition ListExpired (ctx : option error) (now : time) (limit : Z) : prog RepoDB (list Object) :=
  lifecycle_scan ctx (lifecycleScanLimits limit) (fun _ o b => is_live o && (0 <? bc_ExpireAfterDays b))
    (fun '(o, b) => if expired now (ob_UpdatedAt o) (bc_ExpireAfterDays b)
                    then Some (if (bc_ExpireAction b <>s "")
                               then with_metadata (<["__expire_action"%string := bc_ExpireAction b]> (ob_Metadata o)) (lifecycle_row o)
                               else lifecycle_row o)
                    else None).

Definition ListExpiredNonCurrentVersions (ctx : option error) (now : time) (limit : Z) : prog RepoDB (list Object) :=
  let limit := if (limit <=? 0) || (1000 <? limit) then 1000 else limit in
  lifecycle_scan ctx (limit, snd (lifecycleScanLimits limit))
    (fun db o b => ob_VersionTombstone o && (0 <? bc_NoncurrentDays b) &&
                   negb (existsb (fun h => lh_object_id h =? ob_ID o) (legal_holds (r_objects db))))
    (fun '(o, b) => match ob_DeletedAt o with
                    | Some deleted => if expired now deleted (bc_NoncurrentDays b) then Some o else None
                    | None => None
                    end).

Definition ListSoftDeletedBefore (d : dialect) (ctx : option error) (before : string) (before_time : time) (limit : Z)
    : prog RepoDB (list Object) :=
  let limit := if (limit <=? 0) || (1000 <? limit) then 1000 else limit in
  run! with_ctx ctx in
  reads (fun db => Ok (take (Z.to_nat limit) (sort_by
    (fun a b => negb (time_lt d (default 0 (ob_DeletedAt b)) (default 0 (ob_DeletedAt a))))
    (List.filter (fun o => match ob_DeletedAt o with
                           | Some t => text_before d (FormatRFC3339Nano t) before t before_time && negb (ob_VersionTombstone o)
                           | None => false
                           end) (objects (r_objects db)))))).
