(* ===== verification/RepoProps.v ===== *)
(** * What the tables guarantee

    [scan_equiv]: the lifecycle scan in batches answers the first eligible rows by id, and
    its loop ends; [ListExpired_exact] is that scan on the buckets' expiry rules.
    Every writer of the object tables is a [repo_step]: [objects_invariant] says what they
    keep, [held_rows_survive] which of them can remove a row under legal hold.
    [expiry_bound] says how many days an expiry can have before it wraps around. *)

From Stdlib Require Import Ascii Lia Bool ZArith.
From stdpp Require Import base gmap strings list numbers option sorting relations.
From S2P Require Import Prelude GoStrings GoTime GoErrors Sql JsonStruct Access AccessStore Outbox Objects ObjectsInvariant ObjectsProps EventLog Repo.

Open Scope Z_scope.

(** ** The lifecycle scan *)

Section Scan.
Context {R A : Type} (id : R -> Z) (scan : R -> option A).

Lemma scan_rows_spec wanted cursor rows :
  (0 < wanted)%nat ->
  let '(out, c, n) := scan_rows id scan wanted cursor rows in
  out = take wanted (omap scan (take n rows)) /\ (n <= length rows)%nat /\
  c = match list.last (take n rows) with Some r => id r | None => cursor end /\
  (n = length rows \/ length out = wanted).
Proof.
  revert wanted cursor. induction rows as [|r rows IH]; intros wanted cursor Hw; [cbn; split_and!; [by destruct wanted|done|done|by left]|].
  cbn [scan_rows]. destruct (scan r) as [a|] eqn:E.
  - destruct wanted as [|[|w]]; [lia|..].
    + cbn. rewrite E. cbn. split_and!; [done|lia|done|by right].
    + specialize (IH (S w) (id r) ltac:(lia)). destruct (scan_rows id scan (S w) (id r) rows) as [[out c] n].
      destruct IH as (-> & Hn & -> & Hend). split_and!.
      * cbn [take omap list_omap]. rewrite E. done.
      * cbn. lia.
      * cbn [take]. rewrite last_cons. by destruct (list.last (take n rows)).
      * cbn in *. destruct Hend as [->|He]; [by left|right; lia].
  - specialize (IH wanted (id r) Hw). destruct (scan_rows id scan wanted (id r) rows) as [[out c] n].
    destruct IH as (-> & Hn & -> & Hend). split_and!.
    + cbn [take omap list_omap]. by rewrite E.
    + cbn. lia.
    + cbn [take]. rewrite last_cons. by destruct (list.last (take n rows)).
    + cbn. destruct Hend as [->|He]; [by left|by right].
Qed.

(** Ids increase along the candidates. *)
Definition ascending (l : list R) : Prop := StronglySorted (fun a b => id a < id b) l.

Lemma after_cursor l1 l2 r :
  ascending (l1 ++ r :: l2) -> List.filter (fun x => id r <? id x) (l1 ++ r :: l2) = l2.
Proof.
  induction l1 as [|x l1 IH]; cbn [app List.filter].
  - intros [Hs Ha]%StronglySorted_inv. rewrite Z.ltb_irrefl. apply filter_all. intros y Hy. rewrite list.Forall_forall in Ha.
    specialize (Ha y Hy). lia.
  - intros [Hs Ha]%StronglySorted_inv. rewrite list.Forall_forall in Ha. assert (id x < id r) by (apply Ha; apply elem_of_app; right; by left).
    rewrite (proj2 (Z.ltb_ge _ _)) by lia. by apply IH.
Qed.

Lemma omap_app_take wanted l k :
  take wanted (omap scan (l ++ k)) = take wanted (omap scan l) ++ take (wanted - length (take wanted (omap scan l))) (omap scan k).
Proof.
  rewrite omap_app, take_app. f_equal. rewrite length_take. destruct (decide (wanted <= length (omap scan l))%nat).
  - replace (wanted - length (omap scan l))%nat with 0%nat by lia. by replace (wanted - wanted `min` length (omap scan l))%nat with 0%nat by lia.
  - by replace (wanted `min` length (omap scan l))%nat with (length (omap scan l)) by lia.
Qed.

(** The loop, from a cursor that leaves a suffix of the candidates. *)
Lemma scan_suffix fuel limit batch cursor done_ rest :
  ascending (done_ ++ rest) -> (0 < batch)%nat -> (length rest < fuel)%nat ->
  List.filter (fun r => cursor <? id r) (done_ ++ rest) = rest ->
  scanLifecycleBatches fuel id scan limit batch cursor (done_ ++ rest) = Some (take limit (omap scan rest)).
Proof.
  revert limit cursor done_ rest. induction fuel as [|fuel IH]; intros limit cursor done_ rest Hasc Hb Hf Hcur; [lia|].
  cbn [scanLifecycleBatches]. destruct limit as [|l]; [done|]. rewrite Hcur.
  pose proof (scan_rows_spec (S l) cursor (take batch rest) ltac:(lia)) as Hspec.
  destruct (scan_rows id scan (S l) cursor (take batch rest)) as [[out c] n]. destruct Hspec as (Hout & Hn & Hc & Hend).
  rewrite length_take in Hn. rewrite take_take in Hout, Hc. rewrite Nat.min_l in Hout, Hc by lia.
  assert (take n rest ++ drop n rest = rest) as Hsplit by apply take_drop.
  pose proof (omap_app_take (S l) (take n rest) (drop n rest)) as Htail. rewrite Hsplit, <- Hout in Htail.
  destruct (n <? batch)%nat eqn:Elt.
  - apply Nat.ltb_lt in Elt. f_equal. rewrite Htail. rewrite length_take in Hend. destruct Hend as [Hall|Hfull].
    + rewrite drop_ge by lia. cbn. by rewrite take_nil, app_nil_r.
    + rewrite Hfull, Nat.sub_diag. cbn. by rewrite app_nil_r.
  - apply Nat.ltb_ge in Elt. assert (n = batch) as -> by lia.
    destruct (list.last (take batch rest)) as [r|] eqn:El.
    2: { apply last_None in El. apply (f_equal length) in El. rewrite length_take in El. cbn in El. lia. }
    apply last_Some in El as (pre & Epre).
    replace (done_ ++ rest) with ((done_ ++ take batch rest) ++ drop batch rest) in * by (rewrite <- app_assoc; by rewrite take_drop).
    rewrite (IH (S l - length out)%nat c (done_ ++ take batch rest) (drop batch rest)); [by rewrite Htail|done|done|rewrite length_drop; lia|].
    subst c. rewrite Epre in Hasc |- *. rewrite <- !app_assoc in *. cbn [app] in *. rewrite (app_assoc done_ pre) in *.
    by apply after_cursor.
Qed.

(** The scan in batches is the scan of all candidates. *)
Lemma scan_equiv fuel limit batch rows :
  ascending rows -> Forall (fun r => 0 < id r) rows -> (0 < batch)%nat -> (length rows < fuel)%nat ->
  scanLifecycleBatches fuel id scan limit batch 0 rows = Some (take limit (omap scan rows)).
Proof.
  intros Ha Hp Hb Hf. apply (scan_suffix fuel limit batch 0 [] rows); [done|done|done|]. apply filter_all.
  intros x Hx. rewrite list.Forall_forall in Hp. apply Z.ltb_lt. by apply Hp.
Qed.
End Scan.

(** ** Expiry *)

(** Rows have the ids the sequence gave them. *)
Record row_ids (db : RepoDB) : Prop := {
  ri_nodup : NoDup (map ob_ID (objects (r_objects db))); ri_pos : Forall (fun o => 0 < ob_ID o) (objects (r_objects db))
}.

Definition joined (p : Object -> BucketConfig -> bool) (db : RepoDB) (o : Object) : option (Object * BucketConfig) :=
  match List.find (is_bucket (ob_TenantID o) (ob_Bucket o)) (r_buckets db) with
  | Some b => if p o b then Some (o, b) else None
  | None => None
  end.

Lemma joined_fst p db o x : joined p db o = Some x -> fst x = o.
Proof. unfold joined. destruct (List.find _ _) as [b|]; [|done]. destruct (p o b); [|done]. by intros [= <-]. Qed.

Lemma omap_ids_NoDup p db l : NoDup (map ob_ID l) -> NoDup (map (fun r => ob_ID (fst r)) (omap (joined p db) l)).
Proof.
  induction l as [|o l IH]; [done|]. cbn [map omap list_omap]. intros [Ho Hl]%NoDup_cons. destruct (joined p db o) as [x|] eqn:E; [|by apply IH].
  cbn [map]. apply NoDup_cons. split; [|by apply IH]. rewrite (joined_fst _ _ _ _ E). intros (y & Hy & Hin)%list_elem_of_fmap.
  apply list_elem_of_omap in Hin as (o' & Ho' & Ey). apply joined_fst in Ey. subst. apply Ho. rewrite Hy. by apply list_elem_of_fmap_2.
Qed.

Lemma join_ascending p db : row_ids db -> ascending (fun r => ob_ID (fst r)) (join_buckets p db).
Proof.
  intros [Hn _]. set (le := fun a b : Object * BucketConfig => ob_ID (fst a) <=? ob_ID (fst b)).
  set (l := omap (joined p db) (objects (r_objects db))).
  assert (join_buckets p db = sort_by le l) as -> by done. unfold ascending.
  assert (StronglySorted (fun a b => Is_true (le a b)) (sort_by le l)) as Hs.
  { apply Sorted_StronglySorted; [|apply Sorted_merge_sort].
    - intros a b c Hab Hbc. unfold le in *. apply Is_true_eq_left. apply Is_true_eq_true in Hab, Hbc. lia.
    - intros a b. unfold le. destruct (Z.leb_spec (ob_ID (fst a)) (ob_ID (fst b))); [by left|right].
      apply Is_true_eq_left. lia. }
  assert (NoDup (map (fun r => ob_ID (fst r)) (sort_by le l))) as Hd.
  { unfold sort_by. change (map (fun r => ob_ID (fst r))) with (fmap (fun r : Object * BucketConfig => ob_ID (fst r)) : list _ -> list _).
    rewrite merge_sort_Permutation. by apply omap_ids_NoDup. }
  revert Hs Hd. generalize (sort_by le l) as k. induction k as [|x k IH]; intros Hs Hd; [constructor|].
  apply StronglySorted_inv in Hs as [Hs Hx]. cbn in Hd. apply NoDup_cons in Hd as [Hx' Hd]. constructor; [by apply IH|].
  apply list.Forall_forall. intros y Hy. rewrite list.Forall_forall in Hx. specialize (Hx y Hy). apply Is_true_eq_true in Hx. unfold le in Hx.
  assert (ob_ID (fst x) <> ob_ID (fst y)); [|lia]. intros E. apply Hx'. rewrite E. apply list_elem_of_fmap. by exists y.
Qed.

Lemma lifecycle_scan_Ok limit p scan db :
  row_ids db -> 0 < snd limit ->
  snd (lifecycle_scan None limit p scan db) = Ok (take (Z.to_nat (fst limit)) (omap scan (join_buckets (p db) db))).
Proof.
  intros Hi Hl. unfold lifecycle_scan, with_ctx, bind, guard, reads. cbn [snd].
  rewrite (scan_equiv (fun r => ob_ID (fst r)) scan); [done|by apply join_ascending| |lia|lia].
  apply list.Forall_forall. intros x Hx%elem_sort_by%list_elem_of_omap. destruct Hx as (o & Ho & Hx).
  apply (joined_fst (p db) db) in Hx. subst o. pose proof (ri_pos db Hi) as Hpos. rewrite list.Forall_forall in Hpos. by apply Hpos.
Qed.

Lemma scan_limits n : 0 < fst (lifecycleScanLimits n) /\ 0 < snd (lifecycleScanLimits n).
Proof. unfold lifecycleScanLimits, lifecycleScanBatchSize. destruct (Z.leb_spec n 0); cbn; [done|]. destruct (200 <? n) eqn:?; lia. Qed.

(** C38: however the batches fall, a ListExpired that does not fail answers, in the order of
    their ids, the first [limit] live objects whose bucket expires objects and whose time has
    come, and its loop ends; a limit of zero or less is the size of a batch, 200.  The ids of
    the rows are distinct and positive, as [objects_invariant] keeps them. *)
Theorem ListExpired_exact db now limit :
  row_ids db ->
  snd (ListExpired None now limit db) =
  Ok (take (Z.to_nat (fst (lifecycleScanLimits limit)))
        (omap (fun '(o, b) => if expired now (ob_UpdatedAt o) (bc_ExpireAfterDays b)
                              then Some (if (bc_ExpireAction b <>s "")
                                         then with_metadata (<["__expire_action"%string := bc_ExpireAction b]> (ob_Metadata o)) (lifecycle_row o)
                                         else lifecycle_row o) else None)
           (join_buckets (fun o b => is_live o && (0 <? bc_ExpireAfterDays b)) db))).
Proof. intros Hi. unfold ListExpired. apply lifecycle_scan_Ok; [done|apply scan_limits]. Qed.

(** "b" expires its objects after a day; "k" was written two days ago, "n" now. *)
Definition expiring : RepoDB :=
  let row id key at_ := {|
    ob_ID := id; ob_TenantID := "default"; ob_Bucket := "b"; ob_Key := key; ob_VersionID := "v"; ob_Backend := "local";
    ob_StorageKey := key; ob_Size := 3; ob_ETag := "e"; ob_ContentType := "text/plain"; ob_Metadata := ∅;
    ob_Tags := ∅; ob_StorageClass := "STANDARD"; ob_CreatedAt := at_; ob_UpdatedAt := at_; ob_DeletedAt := None;
    ob_LockedUntil := None; ob_VersionTombstone := false |} in
  {| r_objects := set_objects [row 1 "k" 0; row 2 "n" 172800000000001] empty_objects;
     r_acl := ∅; r_quotas := []; r_buckets := [change (Expire_ 1 "delete") (zero_bucket "default" "b")]; r_uploads := []; r_parts := [];
     r_idem := []; r_tenants := []; r_chunks := [];
     r_events := {| object_events := []; event_seq := 0; webhook_failures := []; failure_seq := 0 |}; r_logs := [] |}.

Lemma ListExpired_exact_witness :
  row_ids expiring /\ (map ob_Key <$> match snd (ListExpired None 172800000000002 10 expiring) with Ok l => Some l | Err _ => None end) = Some ["k"%string].
Proof.
  assert (row_ids expiring) as Hi.
  { split; cbn; [|repeat constructor; lia]. apply NoDup_cons. split; [set_solver|apply NoDup_singleton]. }
  split; [done|]. by rewrite (ListExpired_exact expiring 172800000000002 10 Hi).
Defined.

(** A bucket's expiry is kept as days and multiplied as an int64 of nanoseconds: up
    to 106751 days an object expires that many days after its update, and 106752 days,
    292 years, wrap around so that every object of the bucket is expired at once. *)
Theorem expiry_bound now updated days :
  (0 <= days <= 106751 -> expired now updated days = (updated + days * 86400000000000 <? now)) /\
  (updated <= now -> expired now updated 106752 = true).
Proof.
  unfold expired, Before. split.
  - intros Hd. unfold days_duration. rewrite (wrap64_id (days * 24)) by (unfold int64, MinInt64, MaxInt64; lia).
    rewrite wrap64_id by (unfold int64, MinInt64, MaxInt64; lia). f_equal. lia.
  - intros Hu. change (days_duration 106752) with (-9223371273709551616). apply Z.ltb_lt. lia.
Qed.

Lemma expiry_bound_witness : expired 100 50 106752 = true /\ expired 86400000000051 50 1 = true.
Proof. split; [apply (expiry_bound 100 50 0); lia|]. rewrite (proj1 (expiry_bound 86400000000051 50 1)); [done|lia]. Defined.

(** ** The writers of the object tables *)

(** One operation of the repository, failed or not: the operations on the object tables
    alone, the statements on one object's columns, the two that remove a bucket and a tenant,
    and anything that writes other tables. *)
Inductive repo_step (d : dialect) : RepoDB -> RepoDB -> Prop :=
| rp_objects o db : objects_step d (r_objects db) o -> repo_step d db (set_r_objects o db)
| rp_tags ctx now t b k tags db : repo_step d db (fst (UpdateTags d ctx now t b k tags db))
| rp_tags_id ctx now id tags db : repo_step d db (fst (UpdateObjectTagsByID d ctx now id tags db))
| rp_lock ctx t b k until db : repo_step d db (fst (SetLockedUntil d ctx t b k until db))
| rp_retention ctx id until m db : repo_step d db (fst (RepoSetObjectRetention d ctx id until m db))
| rp_delete_bucket ctx t b db : repo_step d db (fst (DeleteBucket ctx t b db))
| rp_delete_tenant ctx t db : repo_step d db (fst (DeleteTenant ctx t db))
| rp_other db db' : r_objects db' = r_objects db -> repo_step d db db'.

Definition empty_repo : RepoDB := {|
  r_objects := empty_objects; r_acl := ∅; r_quotas := []; r_buckets := []; r_uploads := []; r_parts := []; r_idem := [];
  r_tenants := []; r_chunks := []; r_events := {| object_events := []; event_seq := 0; webhook_failures := []; failure_seq := 0 |};
  r_logs := [] |}.

Definition repo_reachable (d : dialect) (db : RepoDB) : Prop := rtc (repo_step d) empty_repo db.

Lemma update_found_rows (R : ObjectsDB -> ObjectsDB -> Prop) `{!Reflexive R} ctx p f db :
  keeps R (update_objects p f) -> R (r_objects db) (r_objects (fst (update_found ctx p f db))).
Proof.
  intros Hk. specialize (Hk (r_objects db)). unfold update_found, with_ctx. rewrite run_guard. destruct ctx; [done|].
  unfold on_objects, bind. destruct (update_objects p f _) as [o [n|e]]; [|exact Hk]. unfold refuse_if, guard. by destruct (n =? 0).
Qed.

(** What a removed bucket takes from the object tables. *)
Lemma bucket_rows_objects t b db :
  r_objects (bucket_rows_gone t b db) =
  set_access (deleteBucketAccessState (access_db (r_objects db)) t b) (fst (delete_objects (in_bucket t b) (r_objects db))).
Proof.
  unfold bucket_rows_gone. cbn. f_equal. unfold delete_objects. cbn. unfold set_holds, set_objects. cbn. f_equal. unfold delete_where.
  apply List.filter_ext. intros h. f_equal. induction (objects (r_objects db)) as [|o l IH]; [done|]. cbn.
  destruct (in_bucket t b o); cbn; rewrite IH; [by rewrite andb_true_r|by rewrite andb_false_r].
Qed.

Lemma tenant_rows_objects t db :
  exists a, r_objects (deleteTenantControlPlane t db) =
    set_access a (set_holds (delete_where (fun h => lh_tenant_id h =s t) (legal_holds (r_objects db))) (r_objects db)).
Proof. unfold deleteTenantControlPlane. eexists. reflexivity. Qed.

Lemma holds_deleted p db : objects_inv db -> objects_inv (set_holds (delete_where p (legal_holds db)) db).
Proof. intros [? ? ? ? ? Hh ?]. split; try done. cbn. intros h [Hin _]%elem_delete_where. by apply Hh. Qed.

Lemma access_replaced a db : objects_inv db -> objects_inv (set_access a db).
Proof. by intros [? ? ? ? ? ? ?]. Qed.

Lemma repo_step_inv d db db' : repo_step d db db' -> objects_inv (r_objects db) -> objects_inv (r_objects db').
Proof.
  intros [o x Hs|ctx now t b k tags x|ctx now id tags x|ctx t b k u x|ctx id u m x|ctx t b x|ctx t x|x x' ->]; [| | | | | | |done].
  - exact (objects_step_inv d _ _ Hs).
  - refine (update_found_rows safe _ _ _ _ _). apply keeps_update. by intros o.
  - refine (update_found_rows safe _ _ _ _ _). apply keeps_update. by intros o.
  - refine (update_found_rows safe _ _ _ _ _). apply keeps_update. by intros o.
  - refine (update_found_rows safe _ _ _ _ _). apply keeps_update. by intros o.
  - intros Hi. unfold DeleteBucket, with_ctx. rewrite !run_guard. destruct ctx; [done|]. destruct (existsb _ _); [|done]. cbn [fst writes].
    rewrite bucket_rows_objects. by apply access_replaced, keeps_delete.
  - intros Hi. unfold DeleteTenant, with_ctx. rewrite run_guard. destruct ctx; [done|]. destruct (negb _); [done|].
    destruct (tenantHasStoredData t x); [done|]. destruct (tenant_rows_objects t x) as [a E]. cbn [fst r_objects set_r_tenants].
    rewrite E. by apply access_replaced, holds_deleted.
Qed.

(** C11: whatever the repository's operations did to an empty database, failed calls, removed
    buckets and removed tenants included, rows have distinct positive ids, a key has at most
    one live row, the live row is no tombstone, and legal holds are on rows that exist. *)
Theorem objects_invariant d db : repo_reachable d db -> rows_well_formed (r_objects db).
Proof.
  intros Hr. apply objects_inv_rows.
  apply (rtc_ind_r (R := repo_step d) (fun db => objects_inv (r_objects db)) empty_repo); [|intros y z _ Hs; by apply (repo_step_inv d)|done].
  apply (objects_reach_inv d), rtc_refl.
Qed.

(** A hold on the row that is recorded under this tenant. *)
Definition held_under (t : string) (db : RepoDB) (id : Z) : Prop :=
  exists h, h ∈ legal_holds (r_objects db) /\ lh_object_id h = id /\ lh_tenant_id h = t.

(** C18: a row under legal hold is there, still under hold, after any operation of the
    repository but three: the removal of a hold on it, the removal of its bucket, and the
    removal of the tenant its hold is recorded under.  Neither hard deletes by key or by id,
    nor version deletes, nor deletes with events remove it.  (Removing a bucket deletes the
    rows in it with their holds; only the service looks for protected objects first.) *)
Theorem held_rows_survive d db db' id :
  repo_step d db db' -> held_id (r_objects db) id ->
  held_id (r_objects db') id \/
  (exists v, r_objects db' = fst (RemoveLegalHold None id v (r_objects db))) \/
  (exists t b o, db' = bucket_rows_gone t b db /\ o ∈ objects (r_objects db) /\ ob_ID o = id /\ in_bucket t b o = true) \/
  (exists t, db' = fst (DeleteTenant None t db) /\ held_under t db id).
Proof.
  intros [o x Hs|ctx now t b k tags x|ctx now id' tags x|ctx t b k u x|ctx id' u m x|ctx t b x|ctx t x|x x' ->] Hid; [| | | | | | |by left].
  - apply (objects_step_held d _ _ id Hs) in Hid as [Hid|Hv]; [by left|by right; left].
  - left. revert id Hid. refine (update_found_rows keeps_held _ _ _ _ _). by apply keeps_held_update.
  - left. revert id Hid. refine (update_found_rows keeps_held _ _ _ _ _). by apply keeps_held_update.
  - left. revert id Hid. refine (update_found_rows keeps_held _ _ _ _ _). by apply keeps_held_update.
  - left. revert id Hid. refine (update_found_rows keeps_held _ _ _ _ _). by apply keeps_held_update.
  - unfold DeleteBucket, with_ctx. rewrite !run_guard. destruct ctx; [by left|]. destruct (existsb _ _); [|by left]. cbn [fst writes].
    destruct (existsb (fun o => in_bucket (defaultTenant t) b o && (ob_ID o =? id)) (objects (r_objects x))) eqn:E.
    + right. right. left. apply existsb_elem in E as (o & Ho & [Hb Ei]%andb_true_iff). apply Z.eqb_eq in Ei. by exists (defaultTenant t), b, o.
    + left. rewrite bucket_rows_objects. destruct Hid as [Ho Hh]. split; cbn.
      * apply list_elem_of_fmap in Ho as (o & -> & Ho). apply list_elem_of_fmap_2, elem_delete_where. split; [done|].
        rewrite existsb_none in E. specialize (E o Ho). rewrite Z.eqb_refl, andb_true_r in E. done.
      * apply list_elem_of_fmap in Hh as (h & -> & Hh). apply list_elem_of_fmap_2, elem_delete_where. split; [done|].
        apply existsb_none. intros o Hin. rewrite existsb_none in E. specialize (E o Hin). by rewrite andb_comm.
  - unfold DeleteTenant at 1 2, with_ctx. rewrite run_guard. destruct ctx; [by left|]. destruct (negb _) eqn:Et; [by left|].
    destruct (tenantHasStoredData t x) eqn:Es; [by left|]. destruct (tenant_rows_objects t x) as [a E]. cbn [fst r_objects set_r_tenants].
    destruct (existsb (fun h => (lh_object_id h =? id) && (lh_tenant_id h =s t)) (legal_holds (r_objects x))) eqn:Eh.
    + right. right. right. exists t. unfold DeleteTenant, with_ctx. rewrite run_guard, Et, Es. split; [done|].
      apply existsb_elem in Eh as (h & Hh & [Ei Eh]%andb_true_iff). apply Z.eqb_eq in Ei. apply streqb_true in Eh. by exists h.
    + left. rewrite E. destruct Hid as [Ho Hh]. split; [done|]. cbn.
      apply list_elem_of_fmap in Hh as (h & -> & Hh). apply list_elem_of_fmap_2, elem_delete_where. split; [done|].
      rewrite existsb_none in Eh. specialize (Eh h Hh). by rewrite Z.eqb_refl in Eh.
Qed.

(** ** On the sample states *)

(** A database with these object tables. *)
Definition with_rows (o : ObjectsDB) : RepoDB := set_r_objects o empty_repo.

Lemma repo_step_rows d o o' : objects_step d o o' -> repo_step d (with_rows o) (with_rows o').
Proof. apply (rp_objects d o' (with_rows o)). Qed.

Lemma repo_reachable_rows d o : objects_reachable d o -> repo_reachable d (with_rows o).
Proof.
  intros Hr. apply (rtc_ind_r (R := objects_step d) (fun o => repo_reachable d (with_rows o)) empty_objects); [apply rtc_refl| |exact Hr].
  intros y z _ Hs Hy. eapply rtc_r; [exact Hy|by apply repo_step_rows].
Qed.

Lemma objects_invariant_witness :
  map ob_ID (objects (two_versions dialectSQLite)) = [1; 2] /\ rows_well_formed (two_versions dialectSQLite).
Proof.
  split; [by vm_compute|]. apply (objects_invariant dialectSQLite (with_rows (two_versions dialectSQLite))).
  apply repo_reachable_rows, two_versions_reachable.
Defined.

Lemma held_rows_survive_witness :
  held_id (fst (HardDeleteObject None "" "b" "k" (held_versions dialectSQLite))) 2.
Proof.
  destruct (held_rows_survive dialectSQLite (with_rows (held_versions dialectSQLite))
    (with_rows (fst (HardDeleteObject None "" "b" "k" (held_versions dialectSQLite)))) 2) as [H|[(v & E)|[(t & b & o & E & _)|(t & E & _)]]].
  - apply repo_step_rows, os_hard.
  - split; [by vm_compute; repeat constructor|]. exact (list_elem_of_here 2 []).
  - exact H.
  - by split; vm_compute; repeat constructor.
  - by split; vm_compute; repeat constructor.
  - by split; vm_compute; repeat constructor.
Defined.

(** Removing the bucket removes the held row and its hold. *)
Example DeleteBucket_takes_held_rows :
  let db := fst (CreateBucket None "" "b" (with_rows (held_versions dialectSQLite))) in
  let '(db', r) := DeleteBucket None "" "b" db in
  r = Ok tt /\ held_id (r_objects db) 2 /\ objects (r_objects db') = [] /\ legal_holds (r_objects db') = [].
Proof. cbv zeta. split_and!; [done|by split; vm_compute; repeat constructor|by vm_compute..]. Qed.
