(* ===== verification/Service.v ===== *)
(** * The file service: its state, checks and gates (src/internal/service)

    file.go, access.go, space_boundary.go, usage.go, usage_accounting.go, ssec.go,
    server_side_encryption.go, acl.go, config_validation.go and the guards of
    file_crud.go.

    The service's state [Sys] is the repository, the storage backend, the events handed
    to the sink, the chunk references handed to the cleaner, and the admission a request
    observes.  What the world does is [World]: before its [n]-th step a call to the store
    may fail, the clock reads some time and a fresh id is drawn; backends fail by
    themselves.  Optional parts are configuration: a nil authorizer, boundary, accountant
    or cleaner is its own case.  Logging and telemetry are left out. *)

From Stdlib Require Import Ascii Lia Bool ZArith.
From stdpp Require Import base gmap strings list numbers option pretty.
From S2P Require Import Prelude GoStrings GoPath Json JsonProps Base64 GoTime GoErrors Sql JsonStruct Spaces Envelope Storage LocalStorage Access AccessStore Outbox Objects EventPayload EventLog Repo.

Open Scope Z_scope.

(** ** Names (file.go) *)

Definition DefaultBucket : string := "default".
Definition DefaultTenant : string := "default".

Definition SvcErrNotFound : string := "service.ErrNotFound".
Definition ErrInvalidArgs : string := "service.ErrInvalidArgs".
Definition ErrUploadNotFound : string := "service.ErrUploadNotFound".
Definition ErrLocked : string := "service.ErrLocked".
Definition ErrQuotaExceeded : string := "service.ErrQuotaExceeded".
Definition ErrRangeNotSatisfiable : string := "service.ErrRangeNotSatisfiable".
Definition ErrPreconditionFailed : string := "service.ErrPreconditionFailed".
Definition ErrForbidden : string := "service.ErrForbidden".
Definition ErrTenantDisabled : string := "service.ErrTenantDisabled".
Definition ErrBadDigest : string := "service.ErrBadDigest".
Definition ErrSizeMismatch : string := "service.ErrSizeMismatch".
Definition ErrObjectCorrupt : string := "service.ErrObjectCorrupt".
Definition ErrMetadataTooLarge : string := "service.ErrMetadataTooLarge".
Definition ErrMetadataKeyTooLong : string := "service.ErrMetadataKeyTooLong".
Definition ErrMetadataValueTooLong : string := "service.ErrMetadataValueTooLong".

Definition MaxMetadataSize : Z := 64 * 1024.
Definition MaxMetadataKeyLen : Z := 256.
Definition MaxMetadataValueLen : Z := 64 * 1024.
Definition MaxContentEncodingLen : Z := 256.
Definition MaxKeyLen : Z := 200.

(** A character a header value may not have. *)
Definition header_bad (a : ascii) : bool :=
  let b := byte_val a in (b =? 13) || (b =? 10) || (b =? 127) || ((b <? 32) && negb (b =? 9)).

Definition ValidateContentEncoding (value : string) : option error :=
  if (value =s "") then None
  else if MaxContentEncodingLen <? len value then Some (errorf ErrInvalidArgs "Content-Encoding too long")
  else if existsb header_bad (chars value) then Some (errorf ErrInvalidArgs "invalid Content-Encoding value")
  else None.

(** The reserved namespace; of the letters only ASCII ones can fold into it. *)
Definition reserved_key (k : string) : bool := HasPrefix (text (map lower (chars k))) "_aero_".

(** The entries in some order: Go's maps have none. *)
Fixpoint check_metadata (total : Z) (entries : list (string * string)) : option error :=
  match entries with
  | [] => None
  | (k, v) :: rest =>
      let total := total + len k + len v in
      if reserved_key k then Some (errorf ErrInvalidArgs "metadata key uses reserved _aero_ namespace")
      else if MaxMetadataKeyLen <? len k then Some (errorf ErrMetadataKeyTooLong "key")
      else if MaxMetadataValueLen <? len v then Some (errorf ErrMetadataValueTooLong "value")
      else if MaxMetadataSize <? total then Some (errorf ErrMetadataTooLarge "total")
      else check_metadata total rest
  end.

Definition validateMetadata (meta : kv) : option error := check_metadata 0 (map_to_list meta).

Definition validateKey (key : string) : option error :=
  if (key =s "") then Some (errorf ErrInvalidArgs "empty key")
  else if MaxKeyLen <? len key then Some (errorf ErrInvalidArgs "key too long")
  else if Contains key ".." || HasPrefix key "/" then Some (errorf ErrInvalidArgs "illegal key")
  else None.

(** service.PutOptions and service.ReadOptions; a nil map is the empty one. *)
Record PutOptions := {
  po_ContentType : string; po_ContentDisposition : string; po_ContentEncoding : string; po_Metadata : kv; po_Tags : kv;
  po_ACL : string; po_LegalHold : bool; po_ContentMD5 : string; po_StorageClass : string; po_SSEAlgorithm : string;
  po_SSEKMSKeyID : string; po_SSECustomerKey : string; po_SSECustomerKeyMD5 : string
}.
Record ReadOptions := { rr_SSECustomerKey : string; rr_SSECustomerKeyMD5 : string }.
Definition noReadOptions : ReadOptions := {| rr_SSECustomerKey := ""; rr_SSECustomerKeyMD5 := "" |}.

Definition set_metadata (m : kv) (o : PutOptions) : PutOptions := {|
  po_ContentType := po_ContentType o; po_ContentDisposition := po_ContentDisposition o;
  po_ContentEncoding := po_ContentEncoding o; po_Metadata := m; po_Tags := po_Tags o; po_ACL := po_ACL o;
  po_LegalHold := po_LegalHold o; po_ContentMD5 := po_ContentMD5 o; po_StorageClass := po_StorageClass o;
  po_SSEAlgorithm := po_SSEAlgorithm o; po_SSEKMSKeyID := po_SSEKMSKeyID o; po_SSECustomerKey := po_SSECustomerKey o;
  po_SSECustomerKeyMD5 := po_SSECustomerKeyMD5 o |}.
Definition set_encryption (m : kv) (algorithm key customerMD5 : string) (o : PutOptions) : PutOptions := {|
  po_ContentType := po_ContentType o; po_ContentDisposition := po_ContentDisposition o;
  po_ContentEncoding := po_ContentEncoding o; po_Metadata := m; po_Tags := po_Tags o; po_ACL := po_ACL o;
  po_LegalHold := po_LegalHold o; po_ContentMD5 := po_ContentMD5 o; po_StorageClass := po_StorageClass o;
  po_SSEAlgorithm := algorithm; po_SSEKMSKeyID := key; po_SSECustomerKey := po_SSECustomerKey o;
  po_SSECustomerKeyMD5 := customerMD5 |}.
Definition set_class (class : string) (o : PutOptions) : PutOptions := {|
  po_ContentType := po_ContentType o; po_ContentDisposition := po_ContentDisposition o;
  po_ContentEncoding := po_ContentEncoding o; po_Metadata := po_Metadata o; po_Tags := po_Tags o; po_ACL := po_ACL o;
  po_LegalHold := po_LegalHold o; po_ContentMD5 := po_ContentMD5 o; po_StorageClass := class;
  po_SSEAlgorithm := po_SSEAlgorithm o; po_SSEKMSKeyID := po_SSEKMSKeyID o; po_SSECustomerKey := po_SSECustomerKey o;
  po_SSECustomerKeyMD5 := po_SSECustomerKeyMD5 o |}.

Definition storageKey (tenant bucket key : string) : string :=
  if negb (HasPrefix key "/") then path_Join [tenant; bucket; key]
  else path_Join [tenant; bucket; TrimPrefix key "/"].

Definition defaults (tenant bucket : string) : string * string :=
  (if (tenant =s "") then DefaultTenant else tenant, if (bucket =s "") then DefaultBucket else bucket).

Definition uploadStorageKey (u : Upload) : string :=
  if (up_StorageKey u <>s "") then up_StorageKey u else storageKey (up_TenantID u) (up_Bucket u) (up_Key u).

(** ** The service and its state *)

(** What a request's context carries. *)
Record Request := {
  rq_Principal : option Principal; rq_RequestID : string; rq_Tenant : string; rq_KeyLabel : option string;
  rq_Verified : string -> bool; rq_Permission : option string; rq_Observing : bool
}.

Definition callerFrom (c : Request) : string :=
  match rq_KeyLabel c with Some l => if (l =s "") then rq_Tenant c else l | None => rq_Tenant c end.

Definition request_principal (c : Request) : Principal := default noPrincipal (rq_Principal c).
Definition request_actor (c : Request) : string := match rq_Principal c with Some p => SubjectID p | None => ""%string end.

(** access.SystemContext, and the permission annotation. *)
Definition with_principal (p : Principal) (c : Request) : Request := {|
  rq_Principal := Some p; rq_RequestID := rq_RequestID c; rq_Tenant := rq_Tenant c; rq_KeyLabel := rq_KeyLabel c;
  rq_Verified := rq_Verified c; rq_Permission := rq_Permission c; rq_Observing := rq_Observing c |}.
Definition WithDeletePermission (permission : string) (c : Request) : Request := {|
  rq_Principal := rq_Principal c; rq_RequestID := rq_RequestID c; rq_Tenant := rq_Tenant c; rq_KeyLabel := rq_KeyLabel c;
  rq_Verified := rq_Verified c; rq_Permission := Some permission; rq_Observing := rq_Observing c |}.
Definition DeletePermissionFrom (c : Request) : option string :=
  match rq_Permission c with
  | Some p => if (TrimSpace p =s "") then None else Some (TrimSpace p)
  | None => None
  end.

Record UsageMutation := { um_TenantID : string; um_Kind : string; um_DeltaBytes : Z; um_DeltaObjects : Z; um_OccurredAt : time }.
Record UsageAccountant := {
  ua_CheckQuota : RepoDB -> string -> TenantQuota -> Z -> Z -> option error;
  ua_Apply : UsageMutation -> prog RepoDB TenantQuota
}.

Inductive SpaceBoundary :=
| NoBoundary
| TypedNilBoundary
| Boundary (checkBucket : RepoDB -> string -> string -> option error) (checkCoverage : RepoDB -> CoverageScope -> option error).

(** A cleaner that is not an access.ScopedChunkCleaner, or a typed nil, is incompatible. *)
Inductive ChunkCleaner :=
| NoCleaner
| IncompatibleCleaner
| ScopedCleaner (clean : ChunkRef -> option error).

Record FileService := {
  fs_dialect : dialect;
  fs_authorizer : option (RepoDB -> Principal -> string -> Resource -> result Decision);
  fs_spaceBoundary : SpaceBoundary; fs_deleteFailOpen : bool; fs_tenantStatus : bool;
  fs_usageAccountant : option UsageAccountant; fs_chunkCleaner : ChunkCleaner;
  fs_shareLister : option (RepoDB -> string -> string -> string -> result (list Share));
  fs_readVerify : bool; fs_DefaultStorageClass : string
}.

Record ReplayAdmission := { ra_Action : string; ra_Resource : Resource; ra_Object : option Object }.

Record Sys (B : Type) := {
  sy_tick : nat; sy_repo : RepoDB; sy_blobs : B; sy_events : list Event; sy_cleaned : list ChunkRef;
  sy_observed : option ReplayAdmission
}.
Arguments sy_tick {B}. Arguments sy_repo {B}. Arguments sy_blobs {B}. Arguments sy_events {B}.
Arguments sy_cleaned {B}. Arguments sy_observed {B}. Arguments Build_Sys {B}.

Record World := {
  w_fault : nat -> option error; w_now : nat -> time; w_fresh : nat -> string; w_entropy : nat -> entropy
}.

(** ** Steps *)

Section Steps.
Context {B : Type} `{Storage B} (sv : FileService) (w : World).

Definition set_repo (db : RepoDB) (s : Sys B) : Sys B :=
  Build_Sys (S (sy_tick s)) db (sy_blobs s) (sy_events s) (sy_cleaned s) (sy_observed s).
Definition set_blobs (b : B) (s : Sys B) : Sys B :=
  Build_Sys (S (sy_tick s)) (sy_repo s) b (sy_events s) (sy_cleaned s) (sy_observed s).

(** A call of the repository, with what may have gone wrong and the time it reads. *)
Definition call {A} (m : option error -> time -> prog RepoDB A) : prog (Sys B) A := fun s =>
  let '(db, r) := m (w_fault w (sy_tick s)) (w_now w (sy_tick s)) (sy_repo s) in (set_repo db s, r).

(** A call of the backend. *)
Definition store {A} (m : entropy -> prog B A) : prog (Sys B) A := fun s =>
  let '(b, r) := m (w_entropy w (sy_tick s)) (sy_blobs s) in (set_blobs b s, r).

Definition clock : prog (Sys B) time := fun s => (set_repo (sy_repo s) s, Ok (w_now w (sy_tick s))).
Definition NewVersionID : prog (Sys B) string := fun s => (set_repo (sy_repo s) s, Ok (w_fresh w (sy_tick s))).

(** An error that is only logged. *)
Definition ignored {A} (m : prog (Sys B) A) : prog (Sys B) unit := fun s => (fst (m s), Ok tt).

Definition check (e : option error) : prog (Sys B) unit := guard (fun _ => e).

Definition emit (c : Request) (o : Object) (t : string) : prog (Sys B) unit := fun s =>
  (Build_Sys (sy_tick s) (sy_repo s) (sy_blobs s)
     (sy_events s ++ [{|
        ev_ID := 0; ev_TenantID := ob_TenantID o; ev_Bucket := ob_Bucket o; ev_Key := ob_Key o; ev_Type := t;
        ev_ObjectID := Some (ob_ID o); ev_RequestID := rq_RequestID c;
        ev_Payload := <["backend"%string := ob_Backend o]> (<["size"%string := pretty (ob_Size o)]>
                        (<["etag"%string := ob_ETag o]> {["content_type"%string := ob_ContentType o]}));
        ev_CreatedAt := 0 |}]) (sy_cleaned s) (sy_observed s), Ok tt).

(** ** The space boundary (space_boundary.go) *)

Definition spaceBoundaryFault (cause : error) : error := Wrap "" [Sentinel ErrResourceBoundaryFault; cause].

Definition serviceBoundaryError (e : option error) : option error :=
  if IsResourceBoundaryDenied e then
    if Is e ErrTenantUnavailable
    then errors_Join [Some (Sentinel ErrForbidden); Some (Sentinel ErrTenantDisabled); e]
    else errors_Join [Some (Sentinel ErrForbidden); e]
  else e.

Definition admitBucket (tenant bucket : string) : prog (Sys B) unit :=
  guard (fun s => match fs_spaceBoundary sv with
                  | NoBoundary => None
                  | TypedNilBoundary => Some (spaceBoundaryFault (NewError "typed-nil service boundary"))
                  | Boundary f _ => serviceBoundaryError (f (sy_repo s) tenant bucket)
                  end).

Definition admitCoverage (scope : CoverageScope) : prog (Sys B) unit :=
  guard (fun s => match fs_spaceBoundary sv with
                  | NoBoundary => None
                  | TypedNilBoundary => Some (spaceBoundaryFault (NewError "typed-nil service boundary"))
                  | Boundary _ f => serviceBoundaryError (f (sy_repo s) scope)
                  end).

Definition tenantCoverage (tenant : string) : CoverageScope := {| cs_Kind := CoverageTenant; cs_TenantID := tenant |}.

Definition repositoryObjectMissing (e : error) : bool :=
  negb (errors_Is e ErrResourceBoundaryFault) && errors_Is e RepoErrNotFound.

Definition ordinaryAccessDenial (e : error) : bool :=
  negb (errors_Is e ErrResourceBoundaryFault) && negb (errors_Is e ErrTenantUnavailable) &&
  negb (errors_Is e ErrTenantDisabled) && (errors_Is e ErrForbidden || IsResourceBoundaryDenied (Some e)).

Definition has_boundary : bool := match fs_spaceBoundary sv with NoBoundary => false | _ => true end.

Definition boundary_object_error (tenant bucket key : string) (o : Object) : option error :=
  if (ob_TenantID o <>s tenant) || (ob_Bucket o <>s bucket) || ((key <>s "") && (ob_Key o <>s key)) || (ob_ID o <=? 0)
  then Some (spaceBoundaryFault (NewError "object observation scope conflict"))
  else match validateKey (ob_Key o) with Some e => Some (spaceBoundaryFault e) | None => None end.

(** The first object that fails. *)
Fixpoint first_error {X} (f : X -> option error) (l : list X) : option error :=
  match l with [] => None | x :: rest => match f x with Some e => Some e | None => first_error f rest end end.

Definition validateBoundaryObjects (objects : list Object) (tenant bucket key : string) : option error :=
  if has_boundary then first_error (boundary_object_error tenant bucket key) objects else None.

(** ** Authorization (access.go) *)

Definition ownerMetadataKey : string := "_aero_owner".
Definition meta_get (m : kv) (k : string) : string := default ""%string (m !! k).
Definition ObjectOwner (o : Object) : string := meta_get (ob_Metadata o) ownerMetadataKey.

Definition objectResourceKind (key : string) : string :=
  if (key =s "") then ResourceBucket else if HasSuffix key "/" then ResourceFolder else ResourceObject.

Definition replayObjectResource (o : Object) : Resource := {|
  r_TenantID := ob_TenantID o; r_Bucket := ob_Bucket o; r_Key := ob_Key o; r_Kind := objectResourceKind (ob_Key o);
  r_OwnerID := ObjectOwner o |}.

Definition requireActiveTenant (c : Request) (tenant : string) : prog (Sys B) unit :=
  if negb (fs_tenantStatus sv) || rq_Verified c tenant then ret tt
  else if match rq_Principal c with Some p => (Kind p =s PrincipalSystem) | None => false end then ret tt
  else do! rec := map_err (fun e => Wrap "tenant status" [e]) (call (fun f _ => GetTenant f tenant)) in
       refuse_if (match rec with Some t => (te_Status t =s "disabled") | None => false end)
         (Wrap "" [Sentinel ErrForbidden; Sentinel ErrTenantDisabled]).

Definition no_provider : error := errorf ErrForbidden "no authorization provider configured".

Definition authorize (c : Request) (action : string) (r : Resource) : prog (Sys B) unit :=
  run! admitBucket (r_TenantID r) (r_Bucket r) in
  run! requireActiveTenant c (r_TenantID r) in
  match fs_authorizer sv with
  | None =>
      if (action =s ActionAdminDelete) then fail no_provider
      else if (action =s ActionDelete) && negb (fs_deleteFailOpen sv) then
        if match rq_Principal c with Some p => IsSystemDeleteExempt p (r_TenantID r) | None => false end then ret tt
        else fail no_provider
      else ret tt
  | Some decide =>
      do! d := map_err (fun e => spaceBoundaryFault (Wrap "authorization decision" [e]))
                 (reads (fun s => decide (sy_repo s) (request_principal c) action r)) in
      refuse_if (negb (d_Allowed d)) (Wrap (d_Reason d) [Sentinel ErrForbidden])
  end.

Definition recordReplayAdmission (c : Request) (action : string) (r : Resource) (o : option Object) : prog (Sys B) unit := fun s =>
  (if rq_Observing c
   then Build_Sys (sy_tick s) (sy_repo s) (sy_blobs s) (sy_events s) (sy_cleaned s)
          (Some {| ra_Action := action; ra_Resource := r; ra_Object := o |})
   else s, Ok tt).

Definition authorizeObject (c : Request) (action : string) (o : Object) : prog (Sys B) unit :=
  let r := replayObjectResource o in
  run! authorize c action r in recordReplayAdmission c action r (Some o).

Definition authorizePath (c : Request) (action tenant bucket key : string) : prog (Sys B) unit :=
  let r := {| r_TenantID := tenant; r_Bucket := bucket; r_Key := key; r_Kind := objectResourceKind key; r_OwnerID := "" |} in
  run! authorize c action r in recordReplayAdmission c action r None.

Definition authorizeBucket (c : Request) (action tenant bucket : string) : prog (Sys B) unit :=
  let '(tenant, bucket) := defaults tenant bucket in authorizePath c action tenant bucket "".

Definition checkedObjectDefaults (tenant bucket key : string) : prog (Sys B) (string * string) :=
  run! check (validateKey key) in ret (defaults tenant bucket).

(** errors.Is(err, repository.ErrNotFound) becomes ErrNotFound. *)
Definition or_not_found (e : error) : error := if errors_Is e RepoErrNotFound then Sentinel SvcErrNotFound else e.
Definition or_missing (e : error) : error := if repositoryObjectMissing e then Sentinel SvcErrNotFound else e.

Definition repo_GetObject (tenant bucket key : string) : prog (Sys B) Object :=
  call (fun f _ => on_objects (GetObject f tenant bucket key)).

(** The row, or none when it is missing. *)
Definition find_object (missing : error -> bool) (tenant bucket key : string) : prog (Sys B) (option Object) := fun s =>
  match repo_GetObject tenant bucket key s with
  | (s', Ok o) => (s', Ok (Some o))
  | (s', Err e) => (s', if missing e then Ok None else Err e)
  end.

Definition objectForAction (c : Request) (tenant bucket key action : string) : prog (Sys B) Object :=
  do! tb := checkedObjectDefaults tenant bucket key in
  let '(tenant, bucket) := tb in
  run! admitBucket tenant bucket in
  do! o := map_err or_missing (repo_GetObject tenant bucket key) in
  run! check (validateBoundaryObjects [o] tenant bucket key) in
  run! authorizeObject c action o in ret o.

Definition ownerForPrincipal (p : Principal) : string :=
  if (Kind p =s PrincipalUser) || (Kind p =s PrincipalService) then SubjectID p else ""%string.

Definition metadataWithOwner (m : kv) (owner : string) : kv := if (owner =s "") then m else <[ownerMetadataKey := owner]> m.

Definition preparePutAccess (c : Request) (tenant bucket key : string) (metadata : kv) : prog (Sys B) kv :=
  run! admitBucket tenant bucket in
  do! existing := find_object repositoryObjectMissing tenant bucket key in
  match existing with
  | Some o => run! authorizeObject c ActionWrite o in ret (metadataWithOwner metadata (ObjectOwner o))
  | None => run! authorizePath c ActionCreate tenant bucket key in
            ret (metadataWithOwner metadata (ownerForPrincipal (request_principal c)))
  end.

(** ** Quotas and usage (file_crud.go, usage.go, usage_accounting.go) *)

Definition quota_exceeded (what : string) : error := errorf ErrQuotaExceeded what.

Definition checkBytesQuota (q : TenantQuota) (delta : Z) : option error :=
  if (0 <? delta) && (0 <? tq_MaxBytes q) && (tq_MaxBytes q <? wrap64 (tq_UsedBytes q + delta)) then Some (quota_exceeded "bytes") else None.
Definition checkObjectsQuota (q : TenantQuota) (delta : Z) : option error :=
  if (0 <? delta) && (0 <? tq_MaxObjects q) && (tq_MaxObjects q <? wrap64 (tq_UsedObjects q + delta)) then Some (quota_exceeded "objects") else None.

Definition preflightQuota (tenant : string) (deltaBytes deltaObjects : Z) : prog (Sys B) unit :=
  do! q := map_err (fun e => Wrap "get tenant quota" [e]) (call (fun f _ => GetTenantQuota f tenant)) in
  run! match fs_usageAccountant sv with
       | Some a => guard (fun s => ua_CheckQuota a (sy_repo s) tenant q deltaBytes deltaObjects)
       | None => ret tt
       end in
  run! check (checkBytesQuota q deltaBytes) in check (checkObjectsQuota q deltaObjects).

Definition preflightBucketQuota (tenant bucket : string) (deltaBytes deltaObjects : Z) : prog (Sys B) unit :=
  do! b := call (fun f _ => GetBucketConfig f tenant bucket) in
  if (bc_BucketMaxBytes b <=? 0) && (bc_BucketMaxObjects b <=? 0) then ret tt
  else do! used := call (fun f _ => BucketUsage f tenant bucket) in
       let '(usedBytes, usedObjects) := used in
       run! refuse_if ((0 <? deltaBytes) && (0 <? bc_BucketMaxBytes b) && (bc_BucketMaxBytes b <? wrap64 (usedBytes + deltaBytes)))
              (quota_exceeded "bucket bytes") in
       refuse_if ((0 <? deltaObjects) && (0 <? bc_BucketMaxObjects b) && (bc_BucketMaxObjects b <? wrap64 (usedObjects + deltaObjects)))
         (quota_exceeded "bucket objects").

Record objectWriteUsage := { ou_previousSize : Z; ou_newObject : bool }.

Definition deltas (u : objectWriteUsage) (newSize : Z) : Z * Z :=
  if ou_newObject u then (newSize, 1) else (wrap64 (newSize - ou_previousSize u), 0).

Definition object_write_usage (tenant bucket key : string) (versioning : bool) : prog (Sys B) objectWriteUsage :=
  if versioning then ret {| ou_previousSize := 0; ou_newObject := true |}
  else do! o := find_object (fun e => errors_Is e RepoErrNotFound) tenant bucket key in
       ret (match o with
            | Some o => {| ou_previousSize := ob_Size o; ou_newObject := false |}
            | None => {| ou_previousSize := 0; ou_newObject := true |}
            end).

Definition UsageObjectWrite : string := "object_write".
Definition UsageObjectDelete : string := "object_delete".
Definition UsageObjectRestore : string := "object_restore".
Definition UsageBucketDelete : string := "bucket_delete".
Definition UsageQuarantine : string := "object_quarantine".

(** AddTenantUsage reads its row in a second statement. *)
Definition addTenantUsage (tenant kind : string) (deltaBytes deltaObjects : Z) : prog (Sys B) TenantQuota :=
  match fs_usageAccountant sv with
  | None => do! f2 := (fun s => (set_repo (sy_repo s) s, Ok (w_fault w (sy_tick s)))) in
            call (fun f now => AddTenantUsage f f2 now tenant deltaBytes deltaObjects)
  | Some a => do! now := clock in
              call (fun f _ => ua_Apply a {| um_TenantID := tenant; um_Kind := kind; um_DeltaBytes := deltaBytes;
                                             um_DeltaObjects := deltaObjects; um_OccurredAt := now |})
  end.

Definition accountObjectUsage (tenant : string) (u : objectWriteUsage) (actualSize : Z) : prog (Sys B) unit :=
  let '(deltaBytes, deltaObjects) := deltas u actualSize in
  run! map_err (fun e => Wrap "record quota usage" [e]) (addTenantUsage tenant UsageObjectWrite deltaBytes deltaObjects) in ret tt.

Definition countedObjectUsage (l : list Object) : Z * Z :=
  let rows := List.filter counted l in (sum_sizes rows, count rows).

(** A blob of the wrong size is removed. *)
Definition validateStoredSize (sk : string) (expected read stored : Z) : prog (Sys B) unit :=
  if (read =? expected) && (stored =? expected) then ret tt
  else run! ignored (store (fun _ => st_Delete sk)) in fail (errorf ErrSizeMismatch "size").

Definition validateConsumedSize (expected read : Z) : option error :=
  if read =? expected then None else Some (errorf ErrSizeMismatch "size").

(** A body of unknown size is spooled first; the spool's own errors are left out. *)
Definition materializeUnknownSize (r : Reader) (size : Z) : result (Reader * Z) :=
  if 0 <=? size then Ok (r, size)
  else match rd_err r with
       | Some e => Err (Wrap "spool upload" [e])
       | None => Ok (r, len (rd_data r))
       end.

(** ** Protection (file_crud.go) *)

Definition legal_hold_key : string := "_aero_legal_hold".

Definition checkObjectProtection (o : Object) : prog (Sys B) unit :=
  do! now := match ob_LockedUntil o with Some _ => clock | None => ret 0 end in
  run! refuse_if (match ob_LockedUntil o with Some t => After t now | None => false end) (errorf ErrLocked "retention-locked") in
  run! refuse_if (meta_get (ob_Metadata o) legal_hold_key =s "ON") (errorf ErrLocked "legal hold") in
  do! held := call (fun f _ => on_objects (ObjectHasLegalHold f (ob_ID o))) in
  refuse_if held (errorf ErrLocked "legal hold").

Definition checkOverwriteProtection (tenant bucket key : string) (versioning : bool) : prog (Sys B) unit :=
  if versioning then ret tt
  else do! o := find_object repositoryObjectMissing tenant bucket key in
       match o with None => ret tt | Some o => checkObjectProtection o end.

Definition checkCorrupt (o : Object) : option error :=
  if (meta_get (ob_Metadata o) "_aero_scrub_status" =s "corrupt") then Some (Sentinel ErrObjectCorrupt) else None.
End Steps.
