(* ===== verification/ServiceWrite.v ===== *)
(** * The file service: writing objects (src/internal/service)

    ssec.go, server_side_encryption.go, the canned ACLs of acl.go, Put of file_crud.go with
    the steps it is made of.

    A body is read through a counter and, when the request names a digest, through the
    MD5: both see the bytes the backend read. *)

From Stdlib Require Import Ascii Lia Bool ZArith.
From stdpp Require Import base gmap strings list numbers option pretty.
From S2P Require Import Prelude GoStrings GoPath Json JsonProps Base64 GoTime GoErrors Sql JsonStruct Spaces Envelope Storage LocalStorage Access AccessStore Outbox Objects EventPayload EventLog Repo Service.

Open Scope Z_scope.

(** ** Metadata the service keeps in its own namespace *)

Definition ssecAlgorithmMeta : string := "_aero_sse_c_algorithm".
Definition ssecKeyMD5Meta : string := "_aero_sse_c_key_md5".
Definition sseAlgorithmMetadata : string := "_aero_sse_algorithm".
Definition sseKMSKeyIDMetadata : string := "_aero_sse_kms_key_id".
Definition content_md5_key : string := "_aero_content_md5".
Definition content_disposition_key : string := "_aero_content_disposition".
Definition content_encoding_key : string := "_aero_content_encoding".
Definition pendingACLMetadataKey : string := "_aero_pending_acl".
Definition pendingLegalHoldKey : string := "_aero_pending_legal_hold".

Definition metadataWithoutManagedSSE (m : kv) : kv := delete sseKMSKeyIDMetadata (delete sseAlgorithmMetadata m).
Definition metadataWithoutEncryption (m : kv) : kv :=
  delete ssecKeyMD5Meta (delete ssecAlgorithmMeta (metadataWithoutManagedSSE m)).

Definition userMetadata (m : kv) : kv := filter (fun '(k, _) => reserved_key k = false) m.
Definition systemMetadata (m : kv) : kv := filter (fun '(k, _) => reserved_key k = true) m.

Definition objectUsesSSEC (m : kv) : bool := (meta_get m ssecAlgorithmMeta =s "AES256") && (meta_get m ssecKeyMD5Meta <>s "").

Definition SSECustomerInfo (m : kv) : option (string * string) :=
  if objectUsesSSEC m then Some (meta_get m ssecAlgorithmMeta, meta_get m ssecKeyMD5Meta) else None.

Definition managed_algorithm (a : string) : bool := (a =s "AES256") || (a =s "aws:kms").

Definition ServerSideEncryptionInfo (m : kv) : option (string * string) :=
  let algorithm := meta_get m sseAlgorithmMetadata in
  if managed_algorithm algorithm then Some (algorithm, meta_get m sseKMSKeyIDMetadata) else None.

Definition storageGetOptions (o : ReadOptions) : GetOptions := {|
  go_SSECustomerKey := rr_SSECustomerKey o; go_SSECustomerKeyMD5 := rr_SSECustomerKeyMD5 o |}.
Definition storagePutOptions (o : ReadOptions) : StoreOptions := {|
  so_ContentType := ""; so_Metadata := ∅; so_SSEAlgorithm := ""; so_SSEKMSKeyID := "";
  so_SSECustomerKey := rr_SSECustomerKey o; so_SSECustomerKeyMD5 := rr_SSECustomerKeyMD5 o |}.

Definition storeContentHeaders (o : PutOptions) : result PutOptions :=
  match ValidateContentEncoding (po_ContentEncoding o) with
  | Some e => Err e
  | None =>
      let m := if (po_ContentDisposition o =s "") then po_Metadata o
               else <[content_disposition_key := po_ContentDisposition o]> (po_Metadata o) in
      let m := if (po_ContentEncoding o =s "") then m else <[content_encoding_key := po_ContentEncoding o]> m in
      Ok (set_metadata m o)
  end.

Definition storeContentMD5 (o : PutOptions) : PutOptions :=
  if (po_ContentMD5 o =s "") then o else set_metadata (<[content_md5_key := po_ContentMD5 o]> (po_Metadata o)) o.

(** ** Canned ACLs (acl.go) *)

Definition ACLPrivate : string := "private".
Definition ACLPublicRead : string := "public-read".
Definition ACLPublicReadWrite : string := "public-read-write".
Definition ACLAuthenticatedRead : string := "authenticated-read".

Definition validACL (acl : string) : bool :=
  (acl =s ACLPrivate) || (acl =s ACLPublicRead) || (acl =s ACLPublicReadWrite) || (acl =s ACLAuthenticatedRead).
Definition ValidateACL (acl : string) : option error :=
  if (acl =s "") || validACL acl then None else Some (errorf ErrInvalidArgs "invalid canned ACL").
Definition PublicReadable (acl : string) : bool := (acl =s ACLPublicRead) || (acl =s ACLPublicReadWrite).

(** ** Customer keys and managed encryption *)

Section Encryption.
Context {B : Type} `{Storage B} `{MD5}.

Definition key_md5_ok (given sum : string) : bool := (given =s "") || (given =s sum).

Definition prepareSSECWrite (o : PutOptions) : result PutOptions :=
  let m := po_Metadata o in
  if (po_SSECustomerKey o =s "") then
    if (po_SSECustomerKeyMD5 o <>s "") then Err (errorf ErrInvalidArgs "SSE-C key is required with key MD5")
    else if (meta_get m ssecAlgorithmMeta <>s "") || (meta_get m ssecKeyMD5Meta <>s "")
         then Ok (set_metadata (metadataWithoutEncryption m) o)
         else Ok o
  else if negb st_SupportsSSEC then Err (errorf ErrInvalidArgs "storage backend does not support SSE-C")
  else if negb (len (po_SSECustomerKey o) =? 32) then Err (errorf ErrInvalidArgs "SSE-C key must be 32 bytes")
  else let sum := md5_Sum (po_SSECustomerKey o) in
       if negb (key_md5_ok (po_SSECustomerKeyMD5 o) sum) then Err (errorf ErrBadDigest "SSE-C key MD5 mismatch")
       else Ok (set_encryption (<[ssecKeyMD5Meta := EncodeToString sum]> (<[ssecAlgorithmMeta := "AES256"%string]> m))
                  (po_SSEAlgorithm o) (po_SSEKMSKeyID o) sum o).

Definition validateSSECRead (m : kv) (o : ReadOptions) : option error :=
  let storedMD5 := meta_get m ssecKeyMD5Meta in
  if (storedMD5 =s "") then
    if (rr_SSECustomerKey o <>s "") || (rr_SSECustomerKeyMD5 o <>s "")
    then Some (errorf ErrInvalidArgs "object is not encrypted with SSE-C") else None
  else if negb (len (rr_SSECustomerKey o) =? 32) then Some (errorf ErrInvalidArgs "SSE-C key is required")
  else let sum := md5_Sum (rr_SSECustomerKey o) in
       if negb (key_md5_ok (rr_SSECustomerKeyMD5 o) sum) then Some (errorf ErrBadDigest "SSE-C key MD5 mismatch")
       else if (EncodeToString sum <>s storedMD5) then Some (errorf ErrBadDigest "SSE-C key does not match object")
       else None.

(** The algorithm and key a request and the bucket's default name. *)
Definition requested_encryption (o : PutOptions) (b : BucketConfig) : result (string * string) :=
  let algorithm := TrimSpace (po_SSEAlgorithm o) in
  let keyID := TrimSpace (po_SSEKMSKeyID o) in
  if (algorithm =s "") then
    if (keyID <>s "") then Err (errorf ErrInvalidArgs "KMS key requires aws:kms") else Ok (bc_SSEAlgorithm b, bc_SSEKMSKeyId b)
  else if (algorithm =s "aws:kms") && (keyID =s "") && (bc_SSEAlgorithm b =s "aws:kms") then Ok (algorithm, bc_SSEKMSKeyId b)
  else Ok (algorithm, keyID).

Definition prepareServerSideEncryption (o : PutOptions) (b : BucketConfig) : result PutOptions :=
  if (po_SSECustomerKey o <>s "") then
    if (po_SSEAlgorithm o <>s "") || (po_SSEKMSKeyID o <>s "")
    then Err (errorf ErrInvalidArgs "SSE-C and provider-managed SSE are mutually exclusive") else Ok o
  else
    let! ak := requested_encryption o b in
    let '(algorithm, keyID) := ak in
    let bare := metadataWithoutManagedSSE (po_Metadata o) in
    if (algorithm =s "") then Ok (set_metadata bare o)
    else if negb (managed_algorithm algorithm) then Err (errorf ErrInvalidArgs "unsupported SSE algorithm")
    else if (algorithm =s "AES256") && (keyID <>s "") then Err (errorf ErrInvalidArgs "KMS key is valid only with aws:kms")
    else if negb (st_SupportsSSE algorithm keyID) then Err (errorf ErrInvalidArgs "storage backend cannot satisfy requested SSE")
    else let m := <[sseAlgorithmMetadata := algorithm]> bare in
         Ok (set_encryption (if (keyID =s "") then m else <[sseKMSKeyIDMetadata := keyID]> m)
               algorithm keyID (po_SSECustomerKeyMD5 o) o).

Definition store_options (o : PutOptions) : StoreOptions := {|
  so_ContentType := po_ContentType o; so_Metadata := po_Metadata o; so_SSEAlgorithm := po_SSEAlgorithm o;
  so_SSEKMSKeyID := po_SSEKMSKeyID o; so_SSECustomerKey := po_SSECustomerKey o;
  so_SSECustomerKeyMD5 := po_SSECustomerKeyMD5 o |}.
End Encryption.

(** ** Put *)

(** time.Now().Add(time.Duration(seconds) * time.Second), both wrapping. *)
Definition lock_until (now : time) (seconds : Z) : option time :=
  if 0 <? seconds then Some (now + wrap64 (seconds * 1000000000)) else None.

Definition with_generation (info : ObjectInfo) (m : kv) : kv :=
  let g := meta_get (oi_Metadata info) GenerationMetadataKey in
  if (g =s "") then m else <[GenerationMetadataKey := g]> m.

(** One blob per version. *)
Definition version_key (versioning : bool) (sk versionID : string) : string :=
  if versioning then (sk ++ "@v" ++ versionID)%string else sk.

Definition with_default_class (sv : FileService) (o : PutOptions) : PutOptions :=
  if (po_StorageClass o =s "") then set_class (fs_DefaultStorageClass sv) o else o.

Section Write.
Context {B : Type} `{Storage B} `{MD5} (sv : FileService) (w : World).

Definition lift {A} (r : result A) : prog (Sys B) A := reads (fun _ => r).

Definition buildPutObject (now : time) (key tenant bucket : string) (b : BucketConfig) (o : PutOptions) (sk versionID : string)
    (info : ObjectInfo) : Object := {|
  ob_ID := 0; ob_TenantID := tenant; ob_Bucket := bucket; ob_Key := key; ob_VersionID := versionID;
  ob_Backend := st_Backend; ob_StorageKey := sk; ob_Size := oi_Size info; ob_ETag := oi_ETag info;
  ob_ContentType := po_ContentType o; ob_Metadata := with_generation info (po_Metadata o); ob_Tags := po_Tags o;
  ob_StorageClass := po_StorageClass o; ob_CreatedAt := 0; ob_UpdatedAt := 0; ob_DeletedAt := None;
  ob_LockedUntil := lock_until now (bc_ObjectLockSeconds b); ob_VersionTombstone := false |}.

(** InsertObjectVersion on a versioned bucket, UpsertObject otherwise. *)
Definition write_object (versioning : bool) (o : Object) : prog (Sys B) Object := fun s =>
  call w (fun f now => on_objects ((if versioning then InsertObjectVersion else UpsertObject)
                                     (fs_dialect sv) f now (w_fresh w (sy_tick s)) o)) s.

Definition hold_row (saved : Object) (reason caller : string) : LegalHold := {|
  l_ID := 0; l_ObjectID := ob_ID saved; l_VersionID := ob_VersionID saved; l_TenantID := ob_TenantID saved;
  l_Bucket := ""; l_ObjectKey := ""; l_HoldReason := reason; l_CreatedAt := ""; l_CreatedBy := caller |}.

(** The row, then the ACL and the hold that the request asked for. *)
Definition save_object (c : Request) (versioning : bool) (obj : Object) (acl : string) (hold : bool) (reason : string)
    : prog (Sys B) Object :=
  do! saved := map_err (fun e => Wrap "repo write" [e]) (write_object versioning obj) in
  run! (if (acl =s "") then ret tt
        else map_err (fun e => Wrap "set object ACL" [e])
               (call w (fun f _ => RepoSetObjectACL f (ob_TenantID obj) (ob_Bucket obj) (ob_Key obj) acl))) in
  run! (if hold then map_err (fun e => Wrap "set object legal hold" [e])
               (call w (fun f now => on_objects (PutLegalHold (fs_dialect sv) f now (hold_row saved reason (callerFrom c)))))
        else ret tt) in
  ret saved.

Definition writePutObject (c : Request) (obj : Object) (b : BucketConfig) (u : objectWriteUsage) (o : PutOptions)
    : prog (Sys B) Object :=
  do! saved := save_object c (bc_Versioning b) obj (po_ACL o) (po_LegalHold o) "s3 upload" in
  run! accountObjectUsage sv w (ob_TenantID obj) u (ob_Size saved) in
  run! emit c saved EventCreated in ret saved.

(** What a request asks for, checked: its options as they are stored, the body and its size. *)
Definition admitPut (c : Request) (tenant bucket key : string) (r : Reader) (size : Z) (o : PutOptions)
    : prog (Sys B) (PutOptions * Reader * Z) :=
  run! check (validateKey key) in
  run! check (validateMetadata (po_Metadata o)) in
  do! o := lift (storeContentHeaders o) in
  do! m := preparePutAccess sv w c tenant bucket key (po_Metadata o) in
  let o := set_metadata m o in
  run! check (ValidateACL (po_ACL o)) in
  do! o := lift (prepareSSECWrite o) in
  do! rs := lift (materializeUnknownSize r size) in
  ret (o, fst rs, snd rs).

(** The bucket, the encryption it asks for, protection and quotas. *)
Definition reservePut (tenant bucket key : string) (size : Z) (o : PutOptions)
    : prog (Sys B) (PutOptions * BucketConfig * objectWriteUsage) :=
  run! preflightQuota sv w tenant 0 0 in
  run! map_err (fun e => Wrap "ensure bucket" [e]) (call w (fun f _ => CreateBucket f tenant bucket)) in
  run! admitBucket sv tenant bucket in
  do! b := map_err (fun e => Wrap "get bucket config" [e]) (call w (fun f _ => GetBucketConfig f tenant bucket)) in
  do! o := lift (prepareServerSideEncryption o b) in
  run! checkOverwriteProtection w tenant bucket key (bc_Versioning b) in
  do! u := object_write_usage w tenant bucket key (bc_Versioning b) in
  let '(deltaBytes, deltaObjects) := deltas u size in
  run! preflightQuota sv w tenant deltaBytes deltaObjects in
  run! preflightBucketQuota w tenant bucket deltaBytes deltaObjects in
  ret (o, b, u).

(** The digest of a Content-MD5 header; none asks for nothing. *)
Definition md5WrapReader (contentMD5 : string) : result (option string) :=
  if (contentMD5 =s "") then Ok None
  else match DecodeString contentMD5 with
       | None => Err (errorf ErrInvalidArgs "base64 content-md5")
       | Some d => Ok (Some d)
       end.

Definition digest_ok (expected : option string) (read : string) : bool :=
  match expected with None => true | Some d => (md5_Sum read =s d) end.

(** The blob; one of the wrong size or digest is removed. *)
Definition storeBody (sk : string) (r : Reader) (size : Z) (o : PutOptions) : prog (Sys B) ObjectInfo :=
  do! expected := lift (md5WrapReader (po_ContentMD5 o)) in
  do! put := store w (fun et => st_Put et sk r size (store_options o)) in
  let '(info, n) := put in
  run! validateStoredSize w sk size n (oi_Size info) in
  if digest_ok expected (slice (rd_data r) 0 (Z.to_nat n)) then ret info
  else run! ignored (store w (fun _ => st_Delete sk)) in fail (errorf ErrBadDigest "computed").

Definition Put (c : Request) (tenant bucket key : string) (r : Reader) (size : Z) (opts : PutOptions) : prog (Sys B) Object :=
  let '(tenant, bucket) := defaults tenant bucket in
  do! adm := admitPut c tenant bucket key r size opts in
  let '(o, r, size) := adm in
  do! res := reservePut tenant bucket key size o in
  let '(o, b, u) := res in
  let o := storeContentMD5 (with_default_class sv o) in
  do! versionID := NewVersionID w in
  let sk := version_key (bc_Versioning b) (storageKey tenant bucket key) versionID in
  do! info := storeBody sk r size o in
  do! now := (if 0 <? bc_ObjectLockSeconds b then clock w else ret 0) in
  writePutObject c (buildPutObject now key tenant bucket b o sk versionID info) b u o.
End Write.
