(* ===== verification/ServiceDelete.v ===== *)
(** * The file service: removing objects (src/internal/service)

    file_delete.go, delete_marker.go, chunk_cleanup.go, file_admin.go, file_restore.go,
    object_worker.go's quarantine, BatchDelete of file_features.go and the removal of a
    bucket (file_bucket_delete.go, DeleteBucket of file_bucket_settings.go).

    A hard delete removes the blobs first, then the rows with their audit entry and outbox
    facts in one transaction, then releases the usage.  What is only logged is left out:
    a failed chunk cleanup does not stop a delete. *)

From Stdlib Require Import Ascii Lia Bool ZArith.
From stdpp Require Import base gmap strings list numbers option pretty.
From S2P Require Import Prelude GoStrings GoPath Json JsonProps Base64 GoTime GoErrors Sql JsonStruct Spaces Envelope Storage LocalStorage Access AccessStore Outbox Objects EventPayload EventLog Repo Service ServiceWrite.

Open Scope Z_scope.

Definition AuditActionFileDelete : string := "file.delete".
Definition quarantineReason : string := "av_infected".

Definition IsDeleteMarker (o : Object) : bool := (meta_get (ob_Metadata o) delete_marker_key =s "true").

Record deleteRefs := { dr_ShareIDs : list string; dr_VersionCount : Z; dr_ChunkCount : Z }.
Definition noRefs : deleteRefs := {| dr_ShareIDs := []; dr_VersionCount := 0; dr_ChunkCount := 0 |}.

Definition audit_entry (c : Request) (o : Object) (tenant detail : string) : AuditEntry := {|
  a_ID := 0; a_Actor := request_actor c; a_Action := AuditActionFileDelete;
  a_Target := (ob_Bucket o ++ "/" ++ ob_Key o)%string; a_TenantID := tenant; a_Detail := detail; a_CreatedAt := "" |}.

Definition deleteAuditEntry (c : Request) (o : Object) (tenant : string) (hard : bool) : AuditEntry :=
  let detail := if hard then "hard"%string else "soft"%string in
  audit_entry c o tenant (match DeletePermissionFrom c with
                          | Some p => (detail ++ ";permission=" ++ p)%string
                          | None => detail
                          end).
Definition quarantineAuditEntry (c : Request) (o : Object) : AuditEntry := audit_entry c o (ob_TenantID o) quarantineReason.

Definition delete_facts (o : Object) (tenant deleted notify : string) : list OutboxFact := [
  {| of_EventType := EventTypeFileDeleted11; of_OriginID := ob_ID o; of_TenantID := tenant; of_Payload := deleted |};
  {| of_EventType := EventTypeFileNotify11; of_OriginID := ob_ID o; of_TenantID := tenant; of_Payload := notify |}].

(** [fresh] is the sequencer drawn for the notification. *)
Definition deleteFactsWithRefs (fresh : string) (c : Request) (o : Object) (tenant : string) (refs : deleteRefs) : list OutboxFact :=
  delete_facts o tenant
    (BuildDeletedFactWithRefs o (request_actor c) (rq_RequestID c) tenant (dr_ShareIDs refs) (dr_VersionCount refs)
       (dr_ChunkCount refs) [])
    (BuildNotifyFact fresh o (request_actor c) (rq_RequestID c) tenant "" []).
Definition quarantineFacts (fresh : string) (c : Request) (o : Object) (signature : string) : list OutboxFact :=
  delete_facts o (ob_TenantID o)
    (BuildDeletedFact o (request_actor c) (rq_RequestID c) (ob_TenantID o) [quarantineReason])
    (BuildNotifyFact fresh o (request_actor c) (rq_RequestID c) (ob_TenantID o) "" [signature]).

Section Delete.
Context {B : Type} `{Storage B} (sv : FileService) (w : World).

(** ** Chunks (chunk_cleanup.go) *)

#[local] Instance ChunkRef_eq_dec : EqDecision ChunkRef.
Proof. solve_decision. Defined.

Definition scoped_required : error := NewError "scoped chunk cleaner required".

Definition cleanObjectChunks (o : Object) (expected : ChunkRef) : prog (Sys B) unit :=
  match fs_chunkCleaner sv with
  | NoCleaner => ret tt
  | IncompatibleCleaner => fail scoped_required
  | ScopedCleaner clean =>
      let ref := {| ch_TenantID := ob_TenantID o; ch_Bucket := ob_Bucket o; ch_Key := ob_Key o; ch_ObjectID := ob_ID o |} in
      run! check (ValidateChunkRef ref) in
      run! refuse_if (negb (bool_decide (ref = expected))) (errorf ErrInvalidArgument "loaded object does not match expected chunk scope") in
      fun s => (Build_Sys (sy_tick s) (sy_repo s) (sy_blobs s) (sy_events s) (sy_cleaned s ++ [ref]) (sy_observed s),
                match clean ref with None => Ok tt | Some e => Err e end)
  end.

(** The chunks of an object that is no marker; a failure is logged. *)
Definition clean_chunks (tenant bucket key : string) (o : Object) : prog (Sys B) unit :=
  if IsDeleteMarker o then ret tt
  else ignored (cleanObjectChunks o {| ch_TenantID := tenant; ch_Bucket := bucket; ch_Key := key; ch_ObjectID := ob_ID o |}).

Fixpoint for_each {X} (f : X -> prog (Sys B) unit) (l : list X) : prog (Sys B) unit :=
  match l with [] => ret tt | x :: rest => run! f x in for_each f rest end.

Definition cleanHardDeleteChunks (versions : list Object) (tenant bucket key : string) : prog (Sys B) unit :=
  for_each (clean_chunks tenant bucket key) versions.

(** The blob of each row that is no marker, once per storage key. *)
Fixpoint delete_blobs (deleted : list string) (each : Object -> prog (Sys B) unit) (l : list Object) : prog (Sys B) unit :=
  match l with
  | [] => ret tt
  | o :: rest =>
      if IsDeleteMarker o then delete_blobs deleted each rest
      else run! each o in
           if existsb (fun k => k =s ob_StorageKey o) deleted then delete_blobs deleted each rest
           else run! map_err (fun e => Wrap "storage delete" [e]) (store w (fun _ => st_Delete (ob_StorageKey o))) in
                delete_blobs (ob_StorageKey o :: deleted) each rest
  end.

(** ** Deletes (file_delete.go) *)

(** A call that reads the clock three times. *)
Definition call_clocks {A} (m : option error -> clocks -> prog RepoDB A) : prog (Sys B) A := fun s =>
  let t := sy_tick s in
  let '(db, r) := m (w_fault w t) {| c_delete := w_now w t; c_audit := w_now w (S t); c_facts := w_now w (S (S t)) |} (sy_repo s) in
  (Build_Sys (S (S (S t))) db (sy_blobs s) (sy_events s) (sy_cleaned s) (sy_observed s), r).

Definition versionsForHardDelete (tenant bucket key : string) (current : Object) : prog (Sys B) (list Object) :=
  do! versions := call w (fun f _ => on_objects (ListObjectVersions (fs_dialect sv) f tenant bucket key)) in
  let versions := match versions with [] => [current] | _ => versions end in
  run! for_each (checkObjectProtection w) versions in ret versions.

Definition release_usage (what tenant kind : string) (bytes objects : Z) : prog (Sys B) unit :=
  run! map_err (fun e => Wrap what [e]) (addTenantUsage sv w tenant kind (wrap64 (- bytes)) (wrap64 (- objects))) in ret tt.

Definition hardDeleteObjectWithVersions (c : Request) (o : Object) (tenant bucket key : string) (versions : list Object)
    (refs : deleteRefs) : prog (Sys B) unit :=
  run! cleanHardDeleteChunks versions tenant bucket key in
  run! delete_blobs [] (fun _ => ret tt) versions in
  do! fresh := NewVersionID w in
  run! call_clocks (fun f t => on_objects (HardDeleteObjectWithEvent (fs_dialect sv) f t tenant bucket key
                                             (deleteAuditEntry c o tenant true) (deleteFactsWithRefs fresh c o tenant refs))) in
  let '(bytes, objects) := countedObjectUsage versions in
  run! release_usage "record hard-delete usage" tenant UsageObjectDelete bytes objects in
  emit c o EventDeleted.

Definition hardDeleteObject (c : Request) (o : Object) (tenant bucket key : string) : prog (Sys B) unit :=
  do! versions := versionsForHardDelete tenant bucket key o in
  hardDeleteObjectWithVersions c o tenant bucket key versions noRefs.

Definition softDeleteObjectWithRefs (c : Request) (o : Object) (tenant bucket key : string) (refs : deleteRefs) : prog (Sys B) unit :=
  run! clean_chunks tenant bucket key o in
  do! fresh := NewVersionID w in
  run! call_clocks (fun f t => on_objects (SoftDeleteObjectWithEvent (fs_dialect sv) f t tenant bucket key
                                             (deleteAuditEntry c o tenant false) (deleteFactsWithRefs fresh c o tenant refs))) in
  run! release_usage "record soft-delete usage" tenant UsageObjectDelete (ob_Size o) 1 in
  emit c o EventDeleted.

Definition softDeleteObject (c : Request) (o : Object) (tenant bucket key : string) : prog (Sys B) unit :=
  softDeleteObjectWithRefs c o tenant bucket key noRefs.

Definition DeleteWithAction (c : Request) (tenant bucket key : string) (hard : bool) (action : string) : prog (Sys B) unit :=
  do! tb := checkedObjectDefaults tenant bucket key in
  let '(tenant, bucket) := tb in
  do! o := map_err or_not_found (repo_GetObject w tenant bucket key) in
  run! authorizeObject sv w c action o in
  run! preflightQuota sv w tenant 0 0 in
  if hard then hardDeleteObject c o tenant bucket key else softDeleteObject c o tenant bucket key.

Definition Delete (c : Request) (tenant bucket key : string) (hard : bool) : prog (Sys B) unit :=
  DeleteWithAction c tenant bucket key hard ActionDelete.

Definition AuthorizeDelete (c : Request) (tenant bucket key : string) (hard : bool) : prog (Sys B) unit :=
  do! tb := checkedObjectDefaults tenant bucket key in
  let '(tenant, bucket) := tb in
  do! o := map_err or_not_found (repo_GetObject w tenant bucket key) in
  authorizeObject sv w c (if hard then ActionAdminDelete else ActionDelete) o.

(** object_retention.go: the current row, or one exact version. *)
Definition objectVersion (tenant bucket key versionID : string) : prog (Sys B) Object :=
  do! tb := checkedObjectDefaults tenant bucket key in
  let '(tenant, bucket) := tb in
  map_err or_not_found
    (if (versionID =s "") then repo_GetObject w tenant bucket key
     else call w (fun f _ => on_objects (GetObjectVersion f tenant bucket key versionID))).

Definition deleteVersionData (o : Object) (tenant bucket key : string) : prog (Sys B) unit :=
  run! clean_chunks tenant bucket key o in
  run! (if IsDeleteMarker o then ret tt
        else map_err (fun e => Wrap "storage delete" [e]) (store w (fun _ => st_Delete (ob_StorageKey o)))) in
  call w (fun f _ => on_objects (DeleteObjectVersion (fs_dialect sv) f (ob_TenantID o) (ob_Bucket o) (ob_Key o) (ob_VersionID o))).

Definition finishVersionDelete (c : Request) (o : Object) (wasCurrent : bool) : prog (Sys B) unit :=
  let '(bytes, objects) := countedObjectUsage [o] in
  run! release_usage "record version-delete usage" (ob_TenantID o) UsageObjectDelete bytes objects in
  run! emit c o EventDeleted in
  if wasCurrent then
    do! promoted := find_object w (fun _ => true) (ob_TenantID o) (ob_Bucket o) (ob_Key o) in
    match promoted with Some p => emit c p EventCreated | None => ret tt end
  else ret tt.

Definition DeleteVersion (c : Request) (tenant bucket key versionID : string) : prog (Sys B) unit :=
  let '(tenant, bucket) := defaults tenant bucket in
  do! o := objectVersion tenant bucket key versionID in
  run! authorizeObject sv w c ActionDelete o in
  run! checkObjectProtection w o in
  run! preflightQuota sv w (ob_TenantID o) 0 0 in
  do! versions := call w (fun f _ => on_objects (ListObjectVersions (fs_dialect sv) f (ob_TenantID o) (ob_Bucket o) (ob_Key o))) in
  let wasCurrent := match versions with v :: _ => ob_ID v =? ob_ID o | [] => false end in
  run! deleteVersionData o tenant bucket key in
  finishVersionDelete c o wasCurrent.

(** ** Delete markers (delete_marker.go) *)

Definition marker_object (tenant bucket key : string) (m : kv) : Object := {|
  ob_ID := 0; ob_TenantID := tenant; ob_Bucket := bucket; ob_Key := key; ob_VersionID := ""; ob_Backend := "";
  ob_StorageKey := ""; ob_Size := 0; ob_ETag := ""; ob_ContentType := ""; ob_Metadata := m; ob_Tags := ∅;
  ob_StorageClass := ""; ob_CreatedAt := 0; ob_UpdatedAt := 0; ob_DeletedAt := None; ob_LockedUntil := None;
  ob_VersionTombstone := false |}.

Definition insertDeleteMarker (c : Request) (tenant bucket key : string) (current : option Object) : prog (Sys B) Object :=
  let m : kv := {[delete_marker_key := "true"%string]} in
  let m := match current with Some o => metadataWithOwner m (ObjectOwner o) | None => m end in
  do! marker := (fun s => call w (fun f now => on_objects (InsertDeleteMarker (fs_dialect sv) f now (w_fresh w (sy_tick s))
                                                            (marker_object tenant bucket key m))) s) in
  run! match current with
       | Some o => ignored (cleanObjectChunks o {| ch_TenantID := tenant; ch_Bucket := bucket; ch_Key := key; ch_ObjectID := ob_ID o |})
       | None => ret tt
       end in
  run! emit c marker EventDeleted in ret marker.

Definition CreateDeleteMarker (c : Request) (tenant bucket key : string) : prog (Sys B) Object :=
  let '(tenant, bucket) := defaults tenant bucket in
  run! check (validateKey key) in
  do! cfg := call w (fun f _ => GetBucketConfig f tenant bucket) in
  run! refuse_if (negb (bc_Versioning cfg)) (Sentinel ErrInvalidArgs) in
  do! current := find_object w (fun e => errors_Is e RepoErrNotFound) tenant bucket key in
  run! match current with
       | Some o => authorizeObject sv w c ActionDelete o
       | None => authorizePath sv w c ActionDelete tenant bucket key
       end in
  insertDeleteMarker c tenant bucket key current.

(** ** Privileged deletes (file_admin.go) *)

Definition chunkCount (objectID : Z) : prog (Sys B) Z := fun s =>
  match call w (fun f _ => run! with_ctx f in
                           reads (fun db => Ok (Z.of_nat (length (List.filter (fun c => snd c =? objectID) (r_chunks db)))))) s with
  | (s', Ok n) => (s', Ok n)
  | (s', Err _) => (s', Ok 0)
  end.

Fixpoint count_refs (l : list Object) (refs : deleteRefs) : prog (Sys B) deleteRefs :=
  match l with
  | [] => ret refs
  | o :: rest =>
      if IsDeleteMarker o then count_refs rest refs
      else do! n := chunkCount (ob_ID o) in
           count_refs rest {| dr_ShareIDs := dr_ShareIDs refs; dr_VersionCount := dr_VersionCount refs + 1;
                              dr_ChunkCount := dr_ChunkCount refs + n |}
  end.

Definition collectDeleteRefs (o : Object) (versions : list Object) (hard : bool) : prog (Sys B) deleteRefs :=
  do! ids := reads (fun s => match fs_shareLister sv with
                             | None => Ok []
                             | Some f => match f (sy_repo s) (ob_TenantID o) (ob_Bucket o) (ob_Key o) with
                                         | Ok l => Ok (map sh_ID (List.filter (fun x => IsZero (sh_RevokedAt x)) l))
                                         | Err _ => Ok []
                                         end
                             end) in
  if hard then count_refs versions {| dr_ShareIDs := ids; dr_VersionCount := 0; dr_ChunkCount := 0 |}
  else do! n := chunkCount (ob_ID o) in ret {| dr_ShareIDs := ids; dr_VersionCount := 1; dr_ChunkCount := n |}.

Definition AdminDelete (c : Request) (tenant bucket key : string) (hard : bool) : prog (Sys B) unit :=
  let c := WithDeletePermission PermissionVaultFileDelete c in
  do! tb := checkedObjectDefaults tenant bucket key in
  let '(tenant, bucket) := tb in
  run! admitBucket sv tenant bucket in
  do! o := map_err or_missing (repo_GetObject w tenant bucket key) in
  run! check (validateBoundaryObjects sv [o] tenant bucket key) in
  let open := match fs_authorizer sv with None => fs_deleteFailOpen sv | Some _ => false end in
  run! authorizeObject sv w c (if open then ActionDelete else ActionAdminDelete) o in
  if hard then
    do! versions := versionsForHardDelete tenant bucket key o in
    do! refs := collectDeleteRefs o versions true in
    hardDeleteObjectWithVersions c o tenant bucket key versions refs
  else
    do! refs := collectDeleteRefs o [o] false in
    softDeleteObjectWithRefs c o tenant bucket key refs.

(** ** Quarantine (object_worker.go) *)

Definition quarantineLoadedObject (c : Request) (o : Object) (objectID : Z) (signature : string) : prog (Sys B) unit :=
  run! (if IsDeleteMarker o then ret tt
        else ignored (cleanObjectChunks o {| ch_TenantID := ob_TenantID o; ch_Bucket := ob_Bucket o; ch_Key := ob_Key o;
                                             ch_ObjectID := objectID |})) in
  do! fresh := NewVersionID w in
  run! call_clocks (fun f t => on_objects (SoftDeleteObjectByIDWithEvent (fs_dialect sv) f t (ob_ID o)
                                             (quarantineAuditEntry c o) (quarantineFacts fresh c o signature))) in
  let '(bytes, objects) := countedObjectUsage [o] in
  run! addTenantUsage sv w (ob_TenantID o) UsageQuarantine (wrap64 (- bytes)) (wrap64 (- objects)) in
  emit c o EventDeleted.

Definition QuarantineObjectByID (c : Request) (objectID : Z) (signature : string) : prog (Sys B) unit :=
  do! o := map_err or_not_found (call w (fun f _ => on_objects (GetObjectByID f objectID))) in
  run! authorizeObject sv w c ActionDelete o in
  if ob_VersionTombstone o then DeleteVersion c (ob_TenantID o) (ob_Bucket o) (ob_Key o) (ob_VersionID o)
  else if negb (is_live o) then ret tt
  else run! preflightQuota sv w (ob_TenantID o) 0 0 in
       quarantineLoadedObject c o objectID signature.

(** ** Restoring (file_restore.go) *)

Definition restorableObject (tenant bucket key : string) : prog (Sys B) Object :=
  do! versions := call w (fun f _ => on_objects (ListObjectVersions (fs_dialect sv) f tenant bucket key)) in
  match List.find (fun o => negb (is_live o) && negb (ob_VersionTombstone o)) versions with
  | Some o => ret o
  | None => fail (Sentinel SvcErrNotFound)
  end.

Definition SvcRestoreObject (c : Request) (tenant bucket key : string) : prog (Sys B) unit :=
  do! tb := checkedObjectDefaults tenant bucket key in
  let '(tenant, bucket) := tb in
  do! live := find_object w (fun e => errors_Is e RepoErrNotFound) tenant bucket key in
  run! refuse_if (match live with Some _ => true | None => false end) (Sentinel ErrPreconditionFailed) in
  do! o := restorableObject tenant bucket key in
  run! authorizeObject sv w c ActionRestore o in
  run! map_err (fun e => if errors_Is e StorageErrNotFound then Sentinel SvcErrNotFound else e)
         (store w (fun _ => st_Stat (ob_StorageKey o))) in
  run! preflightQuota sv w tenant (ob_Size o) 1 in
  run! preflightBucketQuota w tenant bucket (ob_Size o) 1 in
  run! map_err or_not_found (call w (fun f _ => on_objects (RestoreObject (fs_dialect sv) f tenant bucket key))) in
  run! addTenantUsage sv w tenant UsageObjectRestore (ob_Size o) 1 in
  emit c (with_deleted None o) EventCreated.

(** ** Batches (file_features.go) *)

(** The error a result carries; its text is left out. *)
Definition batchActionError (e : error) : error :=
  if errors_Is e ErrResourceBoundaryFault then Sentinel ErrResourceBoundaryFault else e.

Record BatchDeleteResult := { bd_Key : string; bd_Deleted : bool; bd_Error : option error }.

Fixpoint BatchDelete (c : Request) (tenant bucket : string) (keys : list string) : prog (Sys B) (list BatchDeleteResult) :=
  match keys with
  | [] => ret []
  | key :: rest => fun s =>
      let '(s1, r) := Delete c tenant bucket key false s in
      let result := match r with
                    | Ok _ => {| bd_Key := key; bd_Deleted := true; bd_Error := None |}
                    | Err e => if negb (errors_Is e ErrResourceBoundaryFault) && errors_Is e SvcErrNotFound
                               then {| bd_Key := key; bd_Deleted := true; bd_Error := None |}
                               else {| bd_Key := key; bd_Deleted := false; bd_Error := Some (batchActionError e) |}
                    end in
      (do! results := BatchDelete c tenant bucket rest in ret (result :: results)) s1
  end.

(** ** Buckets (file_bucket_delete.go) *)

Fixpoint versions_of_keys (tenant bucket : string) (keys : list string) : prog (Sys B) (list Object) :=
  match keys with
  | [] => ret []
  | key :: rest =>
      do! versions := call w (fun f _ => on_objects (ListObjectVersions (fs_dialect sv) f tenant bucket key)) in
      do! others := versions_of_keys tenant bucket rest in ret (versions ++ others)
  end.

(** Every page but the last has the keys after the marker, so the rows bound the pages. *)
Fixpoint bucket_pages (fuel : nat) (tenant bucket marker : string) : prog (Sys B) (list Object) :=
  match fuel with
  | O => ret []
  | S fuel =>
      do! page := call w (fun f _ => on_objects (ListObjectVersionKeys (fs_dialect sv) f tenant bucket "" marker 1000)) in
      do! objects := versions_of_keys tenant bucket (kp_Keys page) in
      if kp_HasMore page then
        do! rest := bucket_pages fuel tenant bucket (kp_Next page) in ret (objects ++ rest)
      else ret objects
  end.

Definition bucketObjects (tenant bucket : string) : prog (Sys B) (list Object) := fun s =>
  bucket_pages (S (length (objects (r_objects (sy_repo s))))) tenant bucket "" s.

Definition uploads_page : Z := 10000.

Fixpoint upload_pages (fuel : nat) (tenant bucket keyMarker uploadMarker : string) : prog (Sys B) (list Upload) :=
  match fuel with
  | O => ret []
  | S fuel =>
      do! page := call w (fun f _ => ListUploads f tenant bucket keyMarker uploadMarker uploads_page) in
      match last page with
      | Some u => if Z.of_nat (length page) <? uploads_page then ret page
                  else do! rest := upload_pages fuel tenant bucket (up_Key u) (up_ID u) in ret (page ++ rest)
      | None => ret page
      end
  end.

Definition bucketUploads (tenant bucket : string) : prog (Sys B) (list Upload) := fun s =>
  upload_pages (S (length (r_uploads (sy_repo s)))) tenant bucket "" "" s.

Definition deleteBucketData (tenant bucket : string) (l : list Object) : prog (Sys B) unit :=
  do! uploads := bucketUploads tenant bucket in
  run! for_each (fun u => map_err (fun e => Wrap "abort multipart" [e])
                            (store w (fun _ => st_AbortMultipart (uploadStorageKey u) (up_BackendUID u)))) uploads in
  delete_blobs [] (fun o => clean_chunks tenant bucket (ob_Key o) o) l.

Definition SvcDeleteBucket (c : Request) (tenant bucket : string) : prog (Sys B) unit :=
  let '(tenant, bucket) := defaults tenant bucket in
  run! authorizeBucket sv w c ActionDelete tenant bucket in
  do! l := bucketObjects tenant bucket in
  run! for_each (fun o => run! authorizeObject sv w c ActionDelete o in checkObjectProtection w o) l in
  run! preflightQuota sv w tenant 0 0 in
  run! deleteBucketData tenant bucket l in
  run! call w (fun f _ => DeleteBucket f tenant bucket) in
  let '(bytes, n) := countedObjectUsage l in
  release_usage "record bucket-delete usage" tenant UsageBucketDelete bytes n.
End Delete.
