(* ===== verification/ServiceRead.v ===== *)
(** * The file service: reading, listing and describing objects (src/internal/service)

    file_get.go, file_listing.go, the listings of access.go, object_retention.go, acl.go,
    file_copy.go and the versions, tags, metadata and legal holds of file_features.go.

    A stream that is returned is the bytes it yields and the error it ends with; with
    read verification on, the end of the stream compares the MD5 of what was read. *)
From Stdlib Require Import Ascii Lia Bool ZArith.
From stdpp Require Import base gmap strings list numbers option pretty.
From S2P Require Import Prelude GoStrings GoPath Json JsonProps GoTime Base64 Sql GoErrors JsonStruct Envelope Storage LocalStorage Spaces Access AccessStore Outbox Objects EventPayload EventLog Repo Service ServiceWrite ServiceDelete.

Open Scope Z_scope.

(** strings.EqualFold and strings.ToLower on digests: only ASCII letters have a case. *)
Definition ToLower (s : string) : string := text (map lower (chars s)).
Definition EqualFold (a b : string) : bool := (ToLower a =s ToLower b).

(** strings.ToUpper on ASCII. *)
Definition upper (a : ascii) : ascii :=
  let n := nat_of_ascii a in if (97 <=? n)%nat && (n <=? 122)%nat then char (n - 32) else a.
Definition ToUpper (s : string) : string := text (map upper (chars s)).

(** ** The MD5 a read is checked against (file_get.go) *)

Definition quote_mark : string := String (char 34) "".

Definition normalizeMD5Hex (value : string) : option string :=
  let value := Trim (TrimPrefix (TrimSpace value) "W/") quote_mark in
  if negb (len value =? 32) then None
  else match hex_DecodeString value with Some _ => Some (ToLower value) | None => None end.

Definition objectVerificationMD5 (o : Object) : option string :=
  let encoded := meta_get (ob_Metadata o) content_md5_key in
  if (encoded =s "") then normalizeMD5Hex (ob_ETag o)
  else match DecodeString encoded with
       | Some digest => if len digest =? 16 then Some (hex_EncodeToString digest)
                        else match normalizeMD5Hex encoded with Some d => Some d | None => normalizeMD5Hex (ob_ETag o) end
       | None => match normalizeMD5Hex encoded with Some d => Some d | None => normalizeMD5Hex (ob_ETag o) end
       end.

(** ETagVerifier: what was read, and the verdict once it is complete. *)
Record ETagVerifier := {
  ve_expected : string; ve_expectedSize : Z; ve_read : string; ve_reachedEOF : bool; ve_verified : bool;
  ve_verifyErr : option error; ve_closed : bool; ve_closeErr : option error
}.

Definition newETagVerifier (expected : string) (size : Z) : ETagVerifier := {|
  ve_expected := expected; ve_expectedSize := size; ve_read := ""; ve_reachedEOF := false; ve_verified := false;
  ve_verifyErr := None; ve_closed := false; ve_closeErr := None |}.

Section Read.
Context {B : Type} `{Storage B} `{MD5}.

Definition corrupt_error : error := errorf ErrObjectCorrupt "digest".

Definition verifyLocked (v : ETagVerifier) : ETagVerifier * option error :=
  let complete := ve_reachedEOF v || ((0 <? ve_expectedSize v) && (len (ve_read v) =? ve_expectedSize v)) in
  if negb complete || ve_verified v then (v, ve_verifyErr v)
  else let err := if EqualFold (hex_EncodeToString (md5_Sum (ve_read v))) (ve_expected v) then ve_verifyErr v
                  else Some corrupt_error in
       ({| ve_expected := ve_expected v; ve_expectedSize := ve_expectedSize v; ve_read := ve_read v;
           ve_reachedEOF := ve_reachedEOF v; ve_verified := true; ve_verifyErr := err; ve_closed := ve_closed v;
           ve_closeErr := ve_closeErr v |}, err).

(** What the wrapped reader returned: bytes, and io.EOF or another error. *)
Inductive read_end := More | EOF | Failed (e : error).

Definition took (chunk : string) (eof : bool) (v : ETagVerifier) : ETagVerifier := {|
  ve_expected := ve_expected v; ve_expectedSize := ve_expectedSize v; ve_read := (ve_read v ++ chunk)%string;
  ve_reachedEOF := ve_reachedEOF v || eof; ve_verified := ve_verified v; ve_verifyErr := ve_verifyErr v;
  ve_closed := ve_closed v; ve_closeErr := ve_closeErr v |}.

Definition verifier_Read (chunk : string) (e : read_end) (v : ETagVerifier) : ETagVerifier * read_end :=
  match e with
  | EOF => let '(v, err) := verifyLocked (took chunk true v) in
           (v, match err with Some e => Failed e | None => EOF end)
  | _ => (took chunk false v, e)
  end.

(** [underlying] is what closing the wrapped reader returns. *)
Definition verifier_Close (underlying : option error) (v : ETagVerifier) : ETagVerifier * option error :=
  if ve_closed v then (v, ve_closeErr v)
  else let '(v, err) := verifyLocked v in
       let closeErr := match err with Some e => Some e | None => underlying end in
       ({| ve_expected := ve_expected v; ve_expectedSize := ve_expectedSize v; ve_read := ve_read v;
           ve_reachedEOF := ve_reachedEOF v; ve_verified := ve_verified v; ve_verifyErr := ve_verifyErr v;
           ve_closed := true; ve_closeErr := closeErr |}, closeErr).

Context (sv : FileService) (w : World).

(** The stream, read to its end. *)
Definition wrapReadVerification (o : Object) (data : string) : Reader :=
  match objectVerificationMD5 o with
  | Some expected =>
      if fs_readVerify sv then
        {| rd_data := data;
           rd_err := match snd (verifier_Read data EOF (newETagVerifier expected (ob_Size o))) with
                     | Failed e => Some e
                     | _ => None
                     end |}
      else reader_of data
  | None => reader_of data
  end.

Definition openStorageWithOptions (o : Object) (opts : ReadOptions) : prog (Sys B) (string * ObjectInfo) :=
  map_err (fun e => if errors_Is e StorageErrNotFound then Sentinel SvcErrNotFound else e)
    (if objectUsesSSEC (ob_Metadata o) then
       run! refuse_if (negb st_SupportsSSEC) (errorf ErrInvalidArgs "storage backend does not support SSE-C") in
       store w (fun _ => st_Get (ob_StorageKey o) (storageGetOptions opts))
     else store w (fun _ => st_Get (ob_StorageKey o) noGetOptions)).

Definition openObjectWithOptions (c : Request) (o : Object) (opts : ReadOptions) : prog (Sys B) Reader :=
  do! di := openStorageWithOptions o opts in
  run! emit c o EventAccessed in ret (wrapReadVerification o (fst di)).

Definition statObject (c : Request) (tenant bucket key : string) (opts : option ReadOptions) : prog (Sys B) Object :=
  do! tb := checkedObjectDefaults tenant bucket key in
  let '(tenant, bucket) := tb in
  do! o := map_err or_not_found (repo_GetObject w tenant bucket key) in
  run! check (checkCorrupt o) in
  run! authorizeObject sv w c ActionRead o in
  run! match opts with Some r => check (validateSSECRead (ob_Metadata o) r) | None => ret tt end in
  ret o.

Definition Stat c tenant bucket key := statObject c tenant bucket key None.
Definition StatWithOptions c tenant bucket key opts := statObject c tenant bucket key (Some opts).

Definition GetWithOptions (c : Request) (tenant bucket key : string) (opts : ReadOptions) : prog (Sys B) (Reader * Object) :=
  do! tb := checkedObjectDefaults tenant bucket key in
  let '(tenant, bucket) := tb in
  do! o := map_err or_not_found (repo_GetObject w tenant bucket key) in
  run! check (checkCorrupt o) in
  run! authorizeObject sv w c ActionRead o in
  run! check (validateSSECRead (ob_Metadata o) opts) in
  do! rc := openObjectWithOptions c o opts in ret (rc, o).

Definition Get c tenant bucket key := GetWithOptions c tenant bucket key noReadOptions.

Definition StatVersionWithOptions (c : Request) (tenant bucket key versionID : string) (opts : ReadOptions) : prog (Sys B) Object :=
  do! o := objectVersion w tenant bucket key versionID in
  run! check (checkCorrupt o) in
  run! refuse_if (IsDeleteMarker o) (Sentinel SvcErrNotFound) in
  run! authorizeObject sv w c ActionRead o in
  run! check (validateSSECRead (ob_Metadata o) opts) in
  ret o.

Definition GetVersionWithOptions (c : Request) (tenant bucket key versionID : string) (opts : ReadOptions)
    : prog (Sys B) (Reader * Object) :=
  do! o := StatVersionWithOptions c tenant bucket key versionID opts in
  do! rc := openObjectWithOptions c o opts in ret (rc, o).

(** ** Listings (access.go, file_listing.go) *)

(** Whether the caller may read it; only an ordinary denial hides an object. *)
Definition readable (m : prog (Sys B) unit) : prog (Sys B) bool := fun s =>
  match m s with
  | (s', Ok _) => (s', Ok true)
  | (s', Err e) => (s', if ordinaryAccessDenial e then Ok false else Err e)
  end.

Fixpoint filterAuthorizedVersions (c : Request) (versions : list Object) : prog (Sys B) (list Object) :=
  match versions with
  | [] => ret []
  | o :: rest =>
      do! ok := readable (authorizeObject sv w c ActionRead o) in
      do! out := filterAuthorizedVersions c rest in ret (if ok then o :: out else out)
  end.

(** The objects of one page, until there are as many as wanted. *)
Fixpoint collect_page (c : Request) (wanted : Z) (matches : Object -> bool) (page got : list Object) : prog (Sys B) (list Object) :=
  match page with
  | [] => ret got
  | o :: rest =>
      if negb (matches o) then collect_page c wanted matches rest got
      else do! ok := readable (authorizeObject sv w c ActionRead o) in
           let got := if ok then got ++ [o] else got in
           if Z.of_nat (length got) =? wanted then ret got else collect_page c wanted matches rest got
  end.

Definition fetcher := string -> Z -> prog (Sys B) ListPage.

(** Every page passes a row, so one more than their number is enough. *)
Fixpoint collectAuthorizedObjects (fuel : nat) (c : Request) (tenant bucket : string) (cursor : string) (wanted : Z)
    (fetch : fetcher) (matches : Object -> bool) (got : list Object) : prog (Sys B) (list Object) :=
  match fuel with
  | O => fail (NewError "listing does not terminate")
  | S fuel =>
      if wanted <=? Z.of_nat (length got) then ret got
      else
        do! page := fetch cursor 1000 in
        run! check (validateBoundaryObjects sv (lp_Objects page) tenant bucket "") in
        do! got := collect_page c wanted matches (lp_Objects page) got in
        if Z.of_nat (length got) =? wanted then ret got
        else if negb (lp_HasMore page) || (lp_NextMarker page =s "") || (lp_NextMarker page =s cursor) then ret got
        else collectAuthorizedObjects fuel c tenant bucket (lp_NextMarker page) wanted fetch matches got
  end.

Definition row_count (s : Sys B) : nat := length (objects (r_objects (sy_repo s))).

(** [matches] is none when nothing but the authorizer filters. *)
Definition listObjectsMatching (c : Request) (tenant bucket marker : string) (limit : Z) (fetch : fetcher)
    (matches : option (Object -> bool)) : prog (Sys B) ListPage :=
  run! admitBucket sv tenant bucket in
  run! requireActiveTenant sv w c tenant in
  match fs_authorizer sv, matches with
  | None, None =>
      do! page := fetch marker limit in
      run! check (validateBoundaryObjects sv (lp_Objects page) tenant bucket "") in ret page
  | _, _ =>
      let limit := page_limit limit in
      do! n := reads (fun s => Ok (row_count s)) in
      do! l := collectAuthorizedObjects (S n) c tenant bucket marker (limit + 1) fetch (default (fun _ => true) matches) [] in
      ret (page_of limit l)
  end.

Definition fetch_objects (tenant bucket prefix : string) : fetcher := fun marker limit =>
  call w (fun f _ => on_objects (ListObjects (fs_dialect sv) f tenant bucket prefix marker limit)).
Definition fetch_deleted (tenant bucket prefix : string) : fetcher := fun marker limit =>
  call w (fun f _ => on_objects (ListDeletedObjects (fs_dialect sv) f tenant bucket prefix marker limit)).
Definition fetch_tagged (tenant bucket prefix tagKey tagValue : string) : fetcher := fun marker limit =>
  call w (fun f _ => on_objects (ListObjectsByTag (fs_dialect sv) f tenant bucket prefix marker limit tagKey tagValue)).

Definition List_ (c : Request) (tenant bucket prefix marker : string) (limit : Z) : prog (Sys B) ListPage :=
  let '(tenant, bucket) := defaults tenant bucket in
  listObjectsMatching c tenant bucket marker limit (fetch_objects tenant bucket prefix) None.
Definition ListDeleted (c : Request) (tenant bucket prefix marker : string) (limit : Z) : prog (Sys B) ListPage :=
  let '(tenant, bucket) := defaults tenant bucket in
  listObjectsMatching c tenant bucket marker limit (fetch_deleted tenant bucket prefix) None.
Definition ListByTag (c : Request) (tenant bucket prefix marker : string) (limit : Z) (tagKey tagValue : string)
    : prog (Sys B) ListPage :=
  let '(tenant, bucket) := defaults tenant bucket in
  listObjectsMatching c tenant bucket marker limit (fetch_tagged tenant bucket prefix tagKey tagValue) None.

Definition FileListAll : string := "all".
Definition FileListMine : string := "mine".

(** The identity whose own objects are listed. *)
Definition mine_identity (c : Request) (tenant : string) : option string :=
  match rq_Principal c with
  | Some p => if (SubjectID p <>s "") && ((Kind p =s PrincipalUser) || (Kind p =s PrincipalService)) &&
                 ((TenantID p =s tenant) || (TenantID p =s "*")) then Some (SubjectID p) else None
  | None => None
  end.

Definition ListWithOptions (c : Request) (tenant bucket prefix marker : string) (limit : Z) (view : string) (deleted : bool)
    : prog (Sys B) ListPage :=
  let '(tenant, bucket) := defaults tenant bucket in
  let fetch := if deleted then fetch_deleted tenant bucket prefix else fetch_objects tenant bucket prefix in
  if (view =s "") || (view =s FileListAll) then listObjectsMatching c tenant bucket marker limit fetch None
  else if (view <>s FileListMine) then fail (errorf ErrInvalidArgs "view must be all or mine")
  else match mine_identity c tenant with
       | None => fail (errorf ErrForbidden "mine view requires a tenant-bound user or service identity")
       | Some owner =>
           listObjectsMatching c tenant bucket marker limit fetch
             (Some (fun o => (ob_TenantID o =s tenant) && (ob_Bucket o =s bucket) && (ObjectOwner o =s owner)))
       end.

Definition ListVersions (c : Request) (tenant bucket key : string) : prog (Sys B) (list Object) :=
  do! tb := checkedObjectDefaults tenant bucket key in
  let '(tenant, bucket) := tb in
  run! admitBucket sv tenant bucket in
  run! requireActiveTenant sv w c tenant in
  do! versions := call w (fun f _ => on_objects (ListObjectVersions (fs_dialect sv) f tenant bucket key)) in
  run! check (validateBoundaryObjects sv versions tenant bucket key) in
  filterAuthorizedVersions c versions.

Definition ListVersionKeys (tenant bucket prefix marker : string) (limit : Z) : prog (Sys B) KeyPage :=
  let '(tenant, bucket) := defaults tenant bucket in
  call w (fun f _ => on_objects (ListObjectVersionKeys (fs_dialect sv) f tenant bucket prefix marker limit)).

(** ** Retention (object_retention.go) *)

Definition retentionModeMetadataKey : string := "_aero_object_lock_mode".

Definition GetObjectRetention (c : Request) (tenant bucket key versionID : string) : prog (Sys B) Object :=
  do! o := objectVersion w tenant bucket key versionID in
  run! authorizeObject sv w c ActionRead o in ret o.

Definition SetObjectRetention (c : Request) (tenant bucket key versionID mode : string) (until : time) : prog (Sys B) Object :=
  let mode := ToUpper (TrimSpace mode) in
  run! refuse_if ((mode <>s "GOVERNANCE") && (mode <>s "COMPLIANCE")) (errorf ErrInvalidArgs "invalid retention mode") in
  do! now := clock w in
  run! refuse_if (negb (After until now)) (errorf ErrInvalidArgs "retention date must be in the future") in
  do! o := objectVersion w tenant bucket key versionID in
  run! authorizeObject sv w c ActionWrite o in
  run! refuse_if (match ob_LockedUntil o with Some t => After t until | None => false end)
         (errorf ErrLocked "retention cannot be shortened") in
  let m := <[retentionModeMetadataKey := mode]> (ob_Metadata o) in
  run! map_err or_not_found (call w (fun f _ => RepoSetObjectRetention (fs_dialect sv) f (ob_ID o) until m)) in
  ret (with_lock until (with_metadata m o)).

Definition LockObject (c : Request) (tenant bucket key : string) (until : time) : prog (Sys B) unit :=
  run! SetObjectRetention c tenant bucket key "" "GOVERNANCE" until in ret tt.

Definition ObjectRetentionMode (o : Object) : string :=
  let mode := meta_get (ob_Metadata o) retentionModeMetadataKey in if (mode <>s "") then mode else "GOVERNANCE"%string.

(** ** ACLs (acl.go) *)

Definition canned_acl_error (acl : string) : option error :=
  match ValidateACL acl with
  | Some e => Some e
  | None => if (acl =s "") then Some (errorf ErrInvalidArgs "empty canned ACL") else None
  end.

Definition SetObjectACL (c : Request) (tenant bucket key acl : string) : prog (Sys B) unit :=
  do! tb := checkedObjectDefaults tenant bucket key in
  let '(tenant, bucket) := tb in
  run! check (canned_acl_error acl) in
  run! objectForAction sv w c tenant bucket key ActionManageACL in
  call w (fun f _ => RepoSetObjectACL f tenant bucket key acl).

Definition GetObjectACL (c : Request) (tenant bucket key : string) : prog (Sys B) string :=
  do! tb := checkedObjectDefaults tenant bucket key in
  let '(tenant, bucket) := tb in
  run! objectForAction sv w c tenant bucket key ActionManageACL in
  map_err or_not_found (call w (fun f _ => RepoGetObjectACL f tenant bucket key)).

(** The object's ACL, if it is there; else the bucket's. *)
Definition ObjectPublicReadableWithError (c : Request) (tenant bucket key : string) : prog (Sys B) bool :=
  do! tb := checkedObjectDefaults tenant bucket key in
  let '(tenant, bucket) := tb in
  run! admitBucket sv tenant bucket in
  run! requireActiveTenant sv w c tenant in
  do! public := (fun s => match call w (fun f _ => RepoGetObjectACL f tenant bucket key) s with
                          | (s', Ok acl) => (s', Ok (PublicReadable acl))
                          | (s', Err e) => (s', if repositoryObjectMissing e then Ok false else Err e)
                          end) in
  if public then ret true
  else do! cfg := call w (fun f _ => GetBucketConfig f tenant bucket) in ret (PublicReadable (bc_ACL cfg)).

Definition ObjectPublicReadable (c : Request) (tenant bucket key : string) (s : Sys B) : bool :=
  match snd (ObjectPublicReadableWithError c tenant bucket key s) with Ok b => b | Err _ => false end.

(** ** Copies (file_copy.go) *)

Definition admitCopy (tenant srcBucket srcKey dstBucket dstKey : string) : prog (Sys B) unit :=
  run! check (validateKey srcKey) in
  run! check (validateKey dstKey) in
  run! admitBucket sv tenant srcBucket in
  admitBucket sv tenant dstBucket.

Definition copied_options (src : Object) (replaceMetadata replaceTags : bool) (o : PutOptions) : PutOptions :=
  let keep := replaceMetadata in let m := ob_Metadata src in {|
  po_ContentType := if keep then po_ContentType o else ob_ContentType src;
  po_ContentDisposition := if keep then po_ContentDisposition o else meta_get m content_disposition_key;
  po_ContentEncoding := if keep then po_ContentEncoding o else meta_get m content_encoding_key;
  po_Metadata := if keep then po_Metadata o else userMetadata m;
  po_Tags := if replaceTags then po_Tags o else ob_Tags src; po_ACL := po_ACL o; po_LegalHold := po_LegalHold o;
  po_ContentMD5 := if keep then po_ContentMD5 o else meta_get m content_md5_key;
  po_StorageClass := if keep then po_StorageClass o else ob_StorageClass src; po_SSEAlgorithm := po_SSEAlgorithm o;
  po_SSEKMSKeyID := po_SSEKMSKeyID o; po_SSECustomerKey := po_SSECustomerKey o;
  po_SSECustomerKeyMD5 := po_SSECustomerKeyMD5 o |}.

Definition CopyObject (c : Request) (tenant srcBucket srcKey srcVersionID dstBucket dstKey : string) (source : ReadOptions)
    (destination : PutOptions) (replaceMetadata replaceTags : bool) : prog (Sys B) Object :=
  let '(tenant, srcBucket) := defaults tenant srcBucket in
  let '(_, dstBucket) := defaults tenant dstBucket in
  run! admitCopy tenant srcBucket srcKey dstBucket dstKey in
  do! got := (if (srcVersionID =s "") then GetWithOptions c tenant srcBucket srcKey source
              else GetVersionWithOptions c tenant srcBucket srcKey srcVersionID source) in
  let '(rc, src) := got in
  Put sv w c tenant dstBucket dstKey rc (ob_Size src) (copied_options src replaceMetadata replaceTags destination).

(** ** Tags, metadata and legal holds (file_features.go) *)

Definition SetTags (c : Request) (tenant bucket key : string) (tags : kv) : prog (Sys B) unit :=
  do! o := objectForAction sv w c tenant bucket key ActionWrite in
  call w (fun f now => UpdateTags (fs_dialect sv) f now (ob_TenantID o) (ob_Bucket o) (ob_Key o) tags).

Definition SetObjectTagsByID (c : Request) (objectID : Z) (tags : kv) : prog (Sys B) unit :=
  do! o := map_err or_not_found (call w (fun f _ => on_objects (GetObjectByID f objectID))) in
  run! authorizeObject sv w c ActionWrite o in
  map_err or_not_found (call w (fun f now => UpdateObjectTagsByID (fs_dialect sv) f now objectID tags)).

Record BatchTagResult := { bt_Key : string; bt_Error : option error }.

Fixpoint BatchSetTags (c : Request) (tenant bucket : string) (keys : list string) (tags : kv) : prog (Sys B) (list BatchTagResult) :=
  match keys with
  | [] => ret []
  | key :: rest => fun s =>
      let '(s1, r) := SetTags c tenant bucket key tags s in
      let result := {| bt_Key := key; bt_Error := match r with Ok _ => None | Err e => Some (batchActionError e) end |} in
      (do! results := BatchSetTags c tenant bucket rest tags in ret (result :: results)) s1
  end.

Definition SvcPutLegalHold (c : Request) (tenant bucket key versionID reason createdBy : string) : prog (Sys B) unit :=
  do! o := objectVersion w tenant bucket key versionID in
  run! authorizeObject sv w c ActionWrite o in
  call w (fun f now => on_objects (PutLegalHold (fs_dialect sv) f now (hold_row o reason createdBy))).

Definition SvcGetLegalHold (c : Request) (tenant bucket key versionID : string) : prog (Sys B) LegalHold :=
  do! o := objectVersion w tenant bucket key versionID in
  run! authorizeObject sv w c ActionRead o in
  call w (fun f _ => on_objects (GetLegalHold (fs_dialect sv) f (ob_ID o) (ob_VersionID o))).

Definition SvcRemoveLegalHold (c : Request) (tenant bucket key versionID : string) : prog (Sys B) unit :=
  do! o := objectVersion w tenant bucket key versionID in
  run! authorizeObject sv w c ActionWrite o in
  call w (fun f _ => on_objects (RemoveLegalHold f (ob_ID o) (ob_VersionID o))).

Definition SvcListLegalHolds (c : Request) (tenant bucket key : string) : prog (Sys B) (list LegalHold) :=
  do! o := objectVersion w tenant bucket key "" in
  run! authorizeObject sv w c ActionRead o in
  call w (fun f _ => on_objects (ListLegalHolds (fs_dialect sv) f (ob_ID o))).

(** A change of metadata: the keys checked, the object authorized. *)
Definition writable_object (c : Request) (tenant bucket key : string) (m : kv) : prog (Sys B) Object :=
  run! check (validateKey key) in
  run! check (validateMetadata m) in
  objectForAction sv w c tenant bucket key ActionWrite.

Definition PutMetadata (c : Request) (tenant bucket key : string) (m : kv) : prog (Sys B) unit :=
  let '(tenant, bucket) := defaults tenant bucket in
  do! o := writable_object c tenant bucket key m in
  call w (fun f _ => on_objects (ReplaceObjectMetadata f tenant bucket key (m ∪ systemMetadata (ob_Metadata o)))).

Definition GetMetadata (c : Request) (tenant bucket key : string) : prog (Sys B) kv :=
  do! o := Stat c tenant bucket key in ret (userMetadata (ob_Metadata o)).

Definition PatchMetadata (c : Request) (tenant bucket key : string) (m : kv) : prog (Sys B) unit :=
  let '(tenant, bucket) := defaults tenant bucket in
  run! writable_object c tenant bucket key m in
  call w (fun f _ => on_objects (SetObjectMetaKeys f tenant bucket key m)).

Definition DeleteMetadata (c : Request) (tenant bucket key : string) : prog (Sys B) unit :=
  let '(tenant, bucket) := defaults tenant bucket in
  do! o := writable_object c tenant bucket key ∅ in
  call w (fun f _ => on_objects (ReplaceObjectMetadata f tenant bucket key (systemMetadata (ob_Metadata o)))).

Definition DeleteMetadataKey (c : Request) (tenant bucket key metaKey : string) : prog (Sys B) unit :=
  let '(tenant, bucket) := defaults tenant bucket in
  run! writable_object c tenant bucket key {[metaKey := ""%string]} in
  call w (fun f _ => on_objects (DeleteObjectMetaKey f tenant bucket key metaKey)).
End Read.

(** * The file service: the source of a thumbnail (src/internal/service/thumbnail_source.go)

    The bytes of a thumbnail are opened together with the object they belong to.  A backend
    may prove that a stream belongs to the generation a row names; [bound] is that reader,
    or none.  Without the proof the object is described by what the storage reports. *)
Open Scope Z_scope.

Definition generation_of (m : kv) : string := meta_get m GenerationMetadataKey.

Record ThumbnailSource := { ts_Reader : Reader; ts_Object : Object; ts_Bound : bool }.

Definition thumbnailStorageExpectation (o : Object) : option ObjectInfo :=
  let generation := generation_of (ob_Metadata o) in
  if (ob_StorageKey o =s "") || (ob_ETag o =s "") || (ob_Size o <? 0) || (generation =s "") then None
  else Some {| oi_Key := ob_StorageKey o; oi_Size := ob_Size o; oi_ETag := ob_ETag o; oi_ContentType := "";
               oi_LastModified := 0; oi_Metadata := {[GenerationMetadataKey := generation]} |}.

Definition thumbnailStorageProofMatches (got expected : ObjectInfo) : bool :=
  let generation := generation_of (oi_Metadata expected) in
  (generation <>s "") && (oi_Key got =s oi_Key expected) && (oi_Size got =? oi_Size expected) &&
  (oi_ETag got =s oi_ETag expected) && (generation_of (oi_Metadata got) =s generation).

Definition sameThumbnailObject (a b : Object) : bool :=
  (ob_TenantID a =s ob_TenantID b) && (ob_Bucket a =s ob_Bucket b) && (ob_Key a =s ob_Key b) &&
  (ob_VersionID a =s ob_VersionID b) && (ob_ETag a =s ob_ETag b) && (ob_StorageKey a =s ob_StorageKey b) &&
  (ob_Size a =? ob_Size b) && (generation_of (ob_Metadata a) =s generation_of (ob_Metadata b)).

(** The row with what the storage said of its bytes, and without a version id when asked. *)
Definition described (keepVersion : bool) (o : Object) (info : ObjectInfo) : Object := {|
  ob_ID := ob_ID o; ob_TenantID := ob_TenantID o; ob_Bucket := ob_Bucket o; ob_Key := ob_Key o;
  ob_VersionID := if keepVersion then ob_VersionID o else ""; ob_Backend := ob_Backend o;
  ob_StorageKey := if (oi_Key info <>s "") then oi_Key info else ob_StorageKey o;
  ob_Size := if 0 <=? oi_Size info then oi_Size info else ob_Size o;
  ob_ETag := if (oi_ETag info <>s "") then oi_ETag info else ob_ETag o;
  ob_ContentType := if (oi_ContentType info <>s "") then oi_ContentType info else ob_ContentType o;
  ob_Metadata := with_generation info (ob_Metadata o); ob_Tags := ob_Tags o; ob_StorageClass := ob_StorageClass o;
  ob_CreatedAt := ob_CreatedAt o; ob_UpdatedAt := ob_UpdatedAt o; ob_DeletedAt := ob_DeletedAt o;
  ob_LockedUntil := ob_LockedUntil o; ob_VersionTombstone := ob_VersionTombstone o |}.
Definition thumbnailObjectWithStorageInfo (o : Object) (info : ObjectInfo) : Object := described true o info.

Section Thumbnail.
Context {B : Type} `{Storage B} `{MD5} (bound : option (string -> ObjectInfo -> prog B (string * ObjectInfo))).
Context (sv : FileService) (w : World).

Definition capable : bool := match bound with Some _ => true | None => false end.

Definition ThumbnailSourceCacheBound (o : Object) : bool :=
  capable && match thumbnailStorageExpectation o with Some _ => true | None => false end.

Definition thumbnailOpenObject (c : Request) (o : Object) (versionID : string) : prog (Sys B) Object :=
  if (versionID =s "") then Stat sv w c (ob_TenantID o) (ob_Bucket o) (ob_Key o)
  else StatVersionWithOptions sv w c (ob_TenantID o) (ob_Bucket o) (ob_Key o) versionID noReadOptions.

(** How an attempt at the proof ended. *)
Inductive attempt := Proved (data : string) | Unproved (unsafe : bool).

Definition prove (o : Object) : prog (Sys B) attempt :=
  match bound, thumbnailStorageExpectation o with
  | Some open, Some expected => fun s =>
      match store w (fun _ => open (ob_StorageKey o) expected) s with
      | (s', Ok (data, got)) => (s', Ok (if thumbnailStorageProofMatches got expected then Proved data else Unproved true))
      | (s', Err e) =>
          (s', if errors_Is e ErrUnsupported || errors_Is e ErrGenerationMismatch
               then Ok (Unproved (errors_Is e ErrGenerationMismatch))
               else Err (if errors_Is e StorageErrNotFound then Sentinel SvcErrNotFound else e))
      end
  | _, _ => ret (Unproved false)
  end.

(** Whether the storage's own description keeps the version of the row. *)
Definition keeps_version (o : Object) (info : ObjectInfo) (unsafe : bool) : bool :=
  let expected := default noInfo (thumbnailStorageExpectation o) in
  negb unsafe ||
  ((generation_of (oi_Metadata info) =s generation_of (ob_Metadata o)) &&
   (oi_Key info =s oi_Key expected) && (oi_Size info =? oi_Size expected) && (oi_ETag info <>s "")).

Definition OpenThumbnailSource (c : Request) (o : Object) (versionID : string) : prog (Sys B) ThumbnailSource :=
  do! opened := thumbnailOpenObject c o versionID in
  run! check (validateSSECRead (ob_Metadata opened) noReadOptions) in
  do! tried := prove opened in
  match tried with
  | Proved data =>
      run! emit c opened EventAccessed in
      ret {| ts_Reader := wrapReadVerification sv opened data; ts_Object := opened; ts_Bound := true |}
  | Unproved unsafe =>
      do! di := openStorageWithOptions w opened noReadOptions in
      run! emit c opened EventAccessed in
      ret {| ts_Reader := wrapReadVerification sv opened (fst di);
             ts_Object := described (keeps_version opened (snd di) unsafe) opened (snd di); ts_Bound := false |}
  end.
End Thumbnail.
