(* ===== verification/ServiceMultipart.v ===== *)
(** * The JSON of objects and uploads (src/internal/repository/repository.go)

    repository.Object and repository.Upload have no tags: encoding/json writes every field
    under its name.  This is how a finished multipart upload is kept for its retries.
    What is written is read back ([Object_back], [Upload_back]). *)
From Stdlib Require Import Ascii Lia Bool ZArith.
From stdpp Require Import base gmap strings list numbers option pretty.
From S2P Require Import Prelude GoStrings GoPath Json JsonProps GoTime Base64 Sql GoErrors JsonStruct Envelope Storage LocalStorage Spaces Access AccessStore Outbox Objects EventPayload EventLog Repo Service ServiceWrite ServiceDelete ServiceRead.

Open Scope Z_scope.

Definition JTime (t : time) : jvalue := JString (FormatRFC3339Nano t).
Definition time_pointer_json (t : option time) : jvalue := match t with Some t => JTime t | None => JNull end.

(** Fields of type bool and *time.Time. *)
Fixpoint bool_field (vs : list jvalue) (b : bool) : option bool :=
  match vs with
  | [] => Some b
  | JBool b' :: rest => bool_field rest b'
  | JNull :: rest => bool_field rest b
  | _ => None
  end.
Fixpoint time_pointer_field (vs : list jvalue) (t : option time) : option (option time) :=
  match vs with
  | [] => Some t
  | JString s :: rest => match ParseRFC3339 s with Some t' => time_pointer_field rest (Some t') | None => None end
  | JNull :: rest => time_pointer_field rest None
  | _ => None
  end.

(** The null of a nil map is written as the empty object; both are read as empty. *)
Definition Object_json (o : Object) : jvalue := JObject
  [int "ID" (ob_ID o); str "TenantID" (ob_TenantID o); str "Bucket" (ob_Bucket o); str "Key" (ob_Key o);
   str "VersionID" (ob_VersionID o); str "Backend" (ob_Backend o); str "StorageKey" (ob_StorageKey o);
   int "Size" (ob_Size o); str "ETag" (ob_ETag o); str "ContentType" (ob_ContentType o);
   ("Metadata"%string, kv_json (ob_Metadata o)); ("Tags"%string, kv_json (ob_Tags o));
   str "StorageClass" (ob_StorageClass o); ("CreatedAt"%string, JTime (ob_CreatedAt o));
   ("UpdatedAt"%string, JTime (ob_UpdatedAt o)); ("DeletedAt"%string, time_pointer_json (ob_DeletedAt o));
   ("LockedUntil"%string, time_pointer_json (ob_LockedUntil o)); ("VersionTombstone"%string, JBool (ob_VersionTombstone o))].

Definition Object_names : list string :=
  ["ID"; "TenantID"; "Bucket"; "Key"; "VersionID"; "Backend"; "StorageKey"; "Size"; "ETag"; "ContentType"; "Metadata";
   "Tags"; "StorageClass"; "CreatedAt"; "UpdatedAt"; "DeletedAt"; "LockedUntil"; "VersionTombstone"]%string.

Definition Object_decode (o : list member) : option Object :=
  let at_ := assigned Object_names o in
  let s := fun name => string_field (at_ name) "" in
  id ← int64_field (at_ "ID"%string) 0; tenant ← s "TenantID"%string; bucket ← s "Bucket"%string; key ← s "Key"%string;
  version ← s "VersionID"%string; backend ← s "Backend"%string; sk ← s "StorageKey"%string;
  size ← int64_field (at_ "Size"%string) 0; etag ← s "ETag"%string; ct ← s "ContentType"%string;
  meta ← kv_field (at_ "Metadata"%string) ∅; tags ← kv_field (at_ "Tags"%string) ∅; class ← s "StorageClass"%string;
  created ← time_field (at_ "CreatedAt"%string) 0; updated ← time_field (at_ "UpdatedAt"%string) 0;
  deleted ← time_pointer_field (at_ "DeletedAt"%string) None; locked ← time_pointer_field (at_ "LockedUntil"%string) None;
  tombstone ← bool_field (at_ "VersionTombstone"%string) false;
  Some {| ob_ID := id; ob_TenantID := tenant; ob_Bucket := bucket; ob_Key := key; ob_VersionID := version;
          ob_Backend := backend; ob_StorageKey := sk; ob_Size := size; ob_ETag := etag; ob_ContentType := ct;
          ob_Metadata := meta; ob_Tags := tags; ob_StorageClass := class; ob_CreatedAt := created; ob_UpdatedAt := updated;
          ob_DeletedAt := deleted; ob_LockedUntil := locked; ob_VersionTombstone := tombstone |}.

(** UploadID, TotalParts and CompletedParts are never set. *)
Definition Upload_json (u : Upload) : jvalue := JObject
  [str "ID" (up_ID u); str "TenantID" (up_TenantID u); str "Bucket" (up_Bucket u); str "Key" (up_Key u);
   str "VersionID" (up_VersionID u); str "StorageKey" (up_StorageKey u); str "UploadID" "";
   str "ContentType" (up_ContentType u); ("Metadata"%string, kv_json (up_Metadata u)); ("Tags"%string, kv_json (up_Tags u));
   str "StorageClass" (up_StorageClass u); str "Backend" (up_Backend u); str "BackendUID" (up_BackendUID u);
   int "TotalParts" 0; int "CompletedParts" 0; ("CreatedAt"%string, JTime (up_CreatedAt u))].

Definition Upload_names : list string :=
  ["ID"; "TenantID"; "Bucket"; "Key"; "VersionID"; "StorageKey"; "UploadID"; "ContentType"; "Metadata"; "Tags";
   "StorageClass"; "Backend"; "BackendUID"; "TotalParts"; "CompletedParts"; "CreatedAt"]%string.

Definition Upload_decode (o : list member) : option Upload :=
  let at_ := assigned Upload_names o in
  let s := fun name => string_field (at_ name) "" in
  id ← s "ID"%string; tenant ← s "TenantID"%string; bucket ← s "Bucket"%string; key ← s "Key"%string;
  version ← s "VersionID"%string; sk ← s "StorageKey"%string; _ ← s "UploadID"%string; ct ← s "ContentType"%string;
  meta ← kv_field (at_ "Metadata"%string) ∅; tags ← kv_field (at_ "Tags"%string) ∅; class ← s "StorageClass"%string;
  backend ← s "Backend"%string; uid ← s "BackendUID"%string; _ ← int64_field (at_ "TotalParts"%string) 0;
  _ ← int64_field (at_ "CompletedParts"%string) 0; created ← time_field (at_ "CreatedAt"%string) 0;
  Some {| up_ID := id; up_TenantID := tenant; up_Bucket := bucket; up_Key := key; up_VersionID := version;
          up_StorageKey := sk; up_ContentType := ct; up_Metadata := meta; up_Tags := tags; up_StorageClass := class;
          up_Backend := backend; up_BackendUID := uid; up_CreatedAt := created |}.

Definition Marshal_Object (o : Object) : string := marshal (Object_json o).
Definition Unmarshal_Object (s : string) : option Object := Unmarshal_struct s ≫= Object_decode.
Definition Marshal_Upload (u : Upload) : string := marshal (Upload_json u).
Definition Unmarshal_Upload (s : string) : option Upload := Unmarshal_struct s ≫= Upload_decode.

(** ** Round trips *)

Definition kv_utf8 (m : kv) : Prop := forall k v, m !! k = Some v -> utf8_ValidString k = true /\ utf8_ValidString v = true.
Definition year_ok (t : time) : Prop := 0 <= Year t <= 9999.

(** Texts are UTF-8, numbers int64, times have the years of RFC 3339. *)
Record encodable (o : Object) : Prop := {
  ec_texts : all_utf8 [ob_TenantID o; ob_Bucket o; ob_Key o; ob_VersionID o; ob_Backend o; ob_StorageKey o; ob_ETag o;
                       ob_ContentType o; ob_StorageClass o];
  ec_maps : kv_utf8 (ob_Metadata o) /\ kv_utf8 (ob_Tags o);
  ec_ints : int64 (ob_ID o) /\ int64 (ob_Size o);
  ec_times : year_ok (ob_CreatedAt o) /\ year_ok (ob_UpdatedAt o);
  ec_pointers : (forall t, ob_DeletedAt o = Some t -> year_ok t) /\ (forall t, ob_LockedUntil o = Some t -> year_ok t)
}.

Lemma time_field_back t : year_ok t -> time_field [JTime t] 0 = Some t.
Proof. intros H. unfold time_field, JTime. by rewrite ParseRFC3339_Format. Qed.

Lemma time_pointer_back t : (forall x, t = Some x -> year_ok x) -> time_pointer_field [time_pointer_json t] None = Some t.
Proof.
  intros H. destruct t as [t|]; [|done]. unfold time_pointer_field, time_pointer_json, JTime.
  by rewrite ParseRFC3339_Format by (by apply H).
Qed.

Lemma ok_time d k t : utf8_ValidString k = true -> member_ok d (k, JTime t).
Proof. split; [done|]. split; [apply ascii_valid, ascii_time|done]. Qed.
Lemma ok_time_pointer d k t : utf8_ValidString k = true -> member_ok d (k, time_pointer_json t).
Proof. intros Hk. destruct t; [by apply ok_time|]. by split. Qed.
Lemma ok_kv d k m : d < maxNestingDepth -> utf8_ValidString k = true -> kv_utf8 m -> member_ok d (k, kv_json m).
Proof. intros. split; [done|]. by apply sound_kv. Qed.
#[export] Hint Resolve ok_time ok_time_pointer ok_kv : payload.

#[export] Hint Extern 1 (_ < maxNestingDepth) => reflexivity : payload.

Ltac texts H := unfold all_utf8 in H; repeat match type of H with
  | Forall _ (_ :: _) => let H' := fresh H in apply list.Forall_cons in H as [H' H] end.

Lemma sound_Object o : encodable o -> sound 0 (Object_json o).
Proof.
  intros [Ht [Hm1 Hm2] [Hi1 Hi2] _ _]. texts Ht. apply sound_object; [done|]. members_ok.
Qed.

Lemma Object_back o : encodable o -> Unmarshal_Object (Marshal_Object o) = Some o.
Proof.
  intros He. pose proof (sound_Object o He) as Hs. destruct He as [_ _ [Hi1 Hi2] [Hc Hu] [Hd Hl]].
  unfold Unmarshal_Object, Marshal_Object, Object_json in *. rewrite (proj1 (Unmarshal_object _ Hs)).
  destruct o. unfold Object_decode. cbn [mbind option_bind].
  cbn -[JInt int64_field time_field kv_field time_pointer_field kv_json JTime time_pointer_json] in *.
  by rewrite !int64_JInt, !kv_back, !time_field_back, !time_pointer_back by done.
Qed.

Record upload_encodable (u : Upload) : Prop := {
  uc_texts : all_utf8 [up_ID u; up_TenantID u; up_Bucket u; up_Key u; up_VersionID u; up_StorageKey u; up_ContentType u;
                       up_StorageClass u; up_Backend u; up_BackendUID u];
  uc_maps : kv_utf8 (up_Metadata u) /\ kv_utf8 (up_Tags u);
  uc_time : year_ok (up_CreatedAt u)
}.

Lemma sound_Upload u : upload_encodable u -> sound 0 (Upload_json u).
Proof. intros [Ht [Hm1 Hm2] _]. texts Ht. apply sound_object; [done|]. members_ok. Qed.

Lemma Upload_back u : upload_encodable u -> Unmarshal_Upload (Marshal_Upload u) = Some u.
Proof.
  intros He. pose proof (sound_Upload u He) as Hs. destruct He as [_ _ Hc].
  unfold Unmarshal_Upload, Marshal_Upload, Upload_json in *. rewrite (proj1 (Unmarshal_object _ Hs)).
  destruct u. unfold Upload_decode. cbn [mbind option_bind].
  cbn -[JInt int64_field time_field kv_field kv_json JTime] in *. by rewrite !kv_back, !time_field_back by done.
Qed.

(** * The file service: multipart uploads (src/internal/service)

    file_multipart.go, file_multipart_complete.go, file_multipart_abort.go,
    file_multipart_replay.go, file_multipart_copy.go, multipart_scope.go,
    multipart_listing.go and the replay checks of space_boundary_replay.go.

    Completing and aborting claim an idempotency key first; the claim is released when
    the operation fails, and a later call with the key answers from what was kept. *)
Open Scope Z_scope.

(** ** Scopes (multipart_scope.go) *)

Record MultipartScope := { ms_TenantID : string; ms_Bucket : string; ms_Key : string }.
Definition defaultMultipartScope : MultipartScope := {| ms_TenantID := DefaultTenant; ms_Bucket := ""; ms_Key := "" |}.
Definition normalizeMultipartScope (s : MultipartScope) : MultipartScope := {|
  ms_TenantID := if (ms_TenantID s =s "") then DefaultTenant else ms_TenantID s; ms_Bucket := ms_Bucket s; ms_Key := ms_Key s |}.

Definition scope_matches (s : MultipartScope) (tenant bucket key : string) : bool :=
  (tenant =s ms_TenantID s) && ((ms_Bucket s =s "") || (bucket =s ms_Bucket s)) && ((ms_Key s =s "") || (key =s ms_Key s)).
Definition multipartScopeMatchesUpload (s : MultipartScope) (u : Upload) : bool :=
  scope_matches s (up_TenantID u) (up_Bucket u) (up_Key u).
Definition multipartScopeMatchesObject (s : MultipartScope) (o : Object) : bool :=
  scope_matches s (ob_TenantID o) (ob_Bucket o) (ob_Key o).
Definition multipartScopeError : error := errorf ErrUploadNotFound "upload is not in tenant".

Definition multipartCompleteKey (uploadID : string) : string := ("_mp_complete:" ++ uploadID)%string.
Definition multipartAbortKey (uploadID : string) : string := ("_mp_abort:" ++ uploadID)%string.

Definition uploadAccessResource (u : Upload) : Resource := {|
  r_TenantID := up_TenantID u; r_Bucket := up_Bucket u; r_Key := up_Key u; r_Kind := objectResourceKind (up_Key u);
  r_OwnerID := meta_get (up_Metadata u) ownerMetadataKey |}.

(** ** The parts of a completion (file_multipart_complete.go) *)

Definition part_number_ok (n : Z) : bool := (1 <=? n) && (n <=? 10000).
Definition bad_part_number : error := errorf ErrInvalidArgs "part number must be between 1 and 10000".

Definition no_parts : error := errorf ErrInvalidArgs "no parts uploaded".
Definition empty_manifest : error := errorf ErrInvalidArgs "completion manifest is empty".
Definition not_ascending : error := errorf ErrInvalidArgs "parts must be in ascending order".
Definition not_uploaded : error := errorf ErrInvalidArgs "part not yet uploaded".
Definition part_mismatch : error := errorf ErrBadDigest "part ETag mismatch".

(** storedMap[n]: the last part with the number. *)
Definition stored_part (stored : list PartRecord) (n : Z) : option PartRecord :=
  List.find (fun p => pt_PartNumber p =? n) (rev stored).

Definition etag_eq (a b : string) : bool := EqualFold (Trim a quote_mark) (Trim b quote_mark).

Fixpoint select_parts (previous : Z) (client stored : list PartRecord) : result (list PartRecord) :=
  match client with
  | [] => Ok []
  | requested :: rest =>
      if pt_PartNumber requested <=? previous then Err not_ascending
      else match stored_part stored (pt_PartNumber requested) with
           | None => Err not_uploaded
           | Some p => if negb (etag_eq (pt_ETag requested) (pt_ETag p)) then Err part_mismatch
                       else let! l := select_parts (pt_PartNumber requested) rest stored in Ok (p :: l)
           end
  end.

Definition selectMultipartParts (client stored : list PartRecord) : result (list PartRecord) :=
  match client with [] => Err empty_manifest | _ => select_parts 0 client stored end.

(** The total wraps like an int64. *)
Definition buildPartList (parts : list PartRecord) : list MultipartPart * Z :=
  (map (fun p => {| mp_PartNumber := pt_PartNumber p; mp_ETag := pt_ETag p |}) parts,
   fold_left (fun n p => wrap64 (n + pt_Size p)) parts 0).

(** ** Copy ranges (file_multipart_copy.go, file_copy.go) *)

Definition normalizeCopyRange (size offset length : Z) : result (Z * Z) :=
  if offset <? 0 then Ok (-1, size)
  else if (length <=? 0) || (size <=? offset) || (wrap64 (size - offset) <? length)
       then Err (errorf ErrRangeNotSatisfiable "copy range")
       else Ok (offset, length).

Definition io_EOF : error := Sentinel "io.EOF".

(** io.CopyN to io.Discard, then an io.LimitReader. *)
Definition copyRangeReader (r : Reader) (offset length objectSize : Z) : result (Reader * Z) :=
  if offset <? 0 then Ok (r, objectSize)
  else if len (rd_data r) <? offset then Err (default io_EOF (rd_err r))
  else let d := slice (rd_data r) (Z.to_nat offset) (Z.to_nat (offset + length)) in
       Ok ({| rd_data := d; rd_err := if len d =? length then None else rd_err r |}, length).

Section Multipart.
Context {B : Type} `{Storage B} `{MD5} (sv : FileService) (w : World).

(** ** Opening an upload (file_multipart.go) *)

Definition InitMultipart (c : Request) (tenant bucket key : string) (opts : PutOptions) : prog (Sys B) Upload :=
  let '(tenant, bucket) := defaults tenant bucket in
  run! check (validateKey key) in
  let o := with_default_class sv opts in
  run! check (validateMetadata (po_Metadata o)) in
  do! o := lift (storeContentHeaders o) in
  do! m := preparePutAccess sv w c tenant bucket key (po_Metadata o) in
  run! check (ValidateACL (po_ACL o)) in
  let m := if (po_ACL o =s "") then m else <[pendingACLMetadataKey := po_ACL o]> m in
  let m := if po_LegalHold o then <[pendingLegalHoldKey := "ON"%string]> m else m in
  do! o := lift (prepareSSECWrite (set_metadata m o)) in
  run! preflightQuota sv w tenant 0 0 in
  run! call w (fun f _ => CreateBucket f tenant bucket) in
  run! admitBucket sv tenant bucket in
  do! b := map_err (fun e => Wrap "get bucket config" [e]) (call w (fun f _ => GetBucketConfig f tenant bucket)) in
  do! o := lift (prepareServerSideEncryption o b) in
  do! versionID := NewVersionID w in
  let sk := version_key (bc_Versioning b) (storageKey tenant bucket key) versionID in
  let o := storeContentMD5 o in
  do! id := map_err (fun e => Wrap "storage init multipart" [e]) (store w (fun et => st_InitMultipart et sk (store_options o))) in
  let u := {| up_ID := id; up_TenantID := tenant; up_Bucket := bucket; up_Key := key; up_VersionID := versionID;
              up_StorageKey := sk; up_ContentType := po_ContentType o; up_Metadata := po_Metadata o; up_Tags := po_Tags o;
              up_StorageClass := po_StorageClass o; up_Backend := st_Backend; up_BackendUID := id; up_CreatedAt := 0 |} in
  fun s => match call w (fun f now => CreateUpload (fs_dialect sv) f now u) s with
           | (s', Ok _) => (s', Ok u)
           | (s', Err e) => (run! ignored (store w (fun _ => st_AbortMultipart sk id)) in fail (Wrap "repo create upload" [e])) s'
           end.

Definition loadMultipartUpload (c : Request) (scope : MultipartScope) (uploadID : string) : prog (Sys B) Upload :=
  do! u := map_err (fun e => if errors_Is e RepoErrUploadNotFound then Sentinel ErrUploadNotFound else e)
             (call w (fun f _ => GetUpload f uploadID)) in
  run! refuse_if (negb (multipartScopeMatchesUpload (normalizeMultipartScope scope) u)) (Sentinel ErrUploadNotFound) in
  run! authorize sv w c ActionWrite (uploadAccessResource u) in ret u.

(** ** Parts *)

Definition UploadPartFor (c : Request) (scope : MultipartScope) (uploadID : string) (partNumber : Z) (r : Reader) (size : Z)
    (opts : ReadOptions) : prog (Sys B) PartRecord :=
  do! u := loadMultipartUpload c scope uploadID in
  run! preflightQuota sv w (up_TenantID u) 0 0 in
  run! check (validateSSECRead (up_Metadata u) opts) in
  run! refuse_if (negb (part_number_ok partNumber)) bad_part_number in
  do! rs := lift (materializeUnknownSize r size) in
  let '(r, size) := rs in
  let so := if objectUsesSSEC (up_Metadata u) then storagePutOptions opts else noStoreOptions in
  do! put := map_err (fun e => Wrap "storage upload part" [e])
               (store w (fun _ => st_UploadPart (uploadStorageKey u) (up_BackendUID u) partNumber r size so)) in
  let '(part, n) := put in
  run! check (validateConsumedSize size n) in
  let pr := {| pt_UploadID := uploadID; pt_PartNumber := partNumber; pt_Size := size; pt_ETag := mp_ETag part |} in
  run! map_err (fun e => Wrap "repo record part" [e]) (call w (fun f _ => RecordPart (fs_dialect sv) f pr)) in
  ret pr.

Definition UploadPartWithOptions c uploadID partNumber r size opts :=
  UploadPartFor c defaultMultipartScope uploadID partNumber r size opts.

Definition ListMultipartParts (c : Request) (scope : MultipartScope) (uploadID : string) : prog (Sys B) (list PartRecord) :=
  run! loadMultipartUpload c scope uploadID in call w (fun f _ => ListParts f uploadID).

Definition checkMultipartLock (u : Upload) (b : BucketConfig) : prog (Sys B) unit :=
  checkOverwriteProtection w (up_TenantID u) (up_Bucket u) (up_Key u) (bc_Versioning b).

Definition copySource (c : Request) (u : Upload) (bucket key versionID : string) (opts : ReadOptions) : prog (Sys B) Object :=
  do! src := map_err (fun e => if errors_Is e RepoErrNotFound then errorf SvcErrNotFound "source not found" else e)
               (if (versionID =s "") then repo_GetObject w (up_TenantID u) bucket key
                else call w (fun f _ => on_objects (GetObjectVersion f (up_TenantID u) bucket key versionID))) in
  run! refuse_if (IsDeleteMarker src) (Sentinel SvcErrNotFound) in
  run! authorizeObject sv w c ActionRead src in
  run! check (checkCorrupt src) in
  run! check (validateSSECRead (ob_Metadata src) opts) in
  do! cfg := call w (fun f _ => GetBucketConfig f (up_TenantID u) (up_Bucket u)) in
  run! checkMultipartLock u cfg in ret src.

Definition uploadPartCopyStream (c : Request) (u : Upload) (partNumber : Z) (src : Object) (offset length : Z)
    (source destination : ReadOptions) : prog (Sys B) PartRecord :=
  do! got := GetVersionWithOptions sv w c (up_TenantID u) (ob_Bucket src) (ob_Key src) (ob_VersionID src) source in
  do! rs := lift (copyRangeReader (fst got) offset length (ob_Size src)) in
  UploadPartFor c {| ms_TenantID := up_TenantID u; ms_Bucket := up_Bucket u; ms_Key := up_Key u |} (up_ID u) partNumber
    (fst rs) (snd rs) destination.

Definition uploadPartCopyStorage (c : Request) (u : Upload) (partNumber : Z) (src : Object) (offset length : Z)
    (source destination : ReadOptions) : prog (Sys B) PartRecord := fun s =>
  match store w (fun _ => st_UploadPartCopy (uploadStorageKey u) (up_BackendUID u) partNumber (ob_StorageKey src) offset length) s with
  | (s', Err e) => if errors_Is e ErrUnsupported then uploadPartCopyStream c u partNumber src offset length source destination s'
                   else (s', Err (Wrap "storage upload part copy" [e]))
  | (s', Ok part) =>
      (let pr := {| pt_UploadID := up_ID u; pt_PartNumber := partNumber; pt_Size := length; pt_ETag := mp_ETag part |} in
       run! map_err (fun e => Wrap "repo record part" [e]) (call w (fun f _ => RecordPart (fs_dialect sv) f pr)) in
       ret pr) s'
  end.

Definition UploadPartCopyFor (c : Request) (scope : MultipartScope) (uploadID : string) (partNumber : Z)
    (srcBucket srcKey srcVersionID : string) (srcOffset length : Z) (source destination : ReadOptions) : prog (Sys B) PartRecord :=
  run! refuse_if (negb (part_number_ok partNumber)) bad_part_number in
  do! u := loadMultipartUpload c scope uploadID in
  run! preflightQuota sv w (up_TenantID u) 0 0 in
  let srcBucket := if (srcBucket =s "") then up_Bucket u else srcBucket in
  run! check (validateSSECRead (up_Metadata u) destination) in
  do! src := copySource c u srcBucket srcKey srcVersionID source in
  do! range := lift (normalizeCopyRange (ob_Size src) srcOffset length) in
  let '(srcOffset, length) := range in
  if objectUsesSSEC (ob_Metadata src) || objectUsesSSEC (up_Metadata u)
  then uploadPartCopyStream c u partNumber src srcOffset length source destination
  else uploadPartCopyStorage c u partNumber src srcOffset length source destination.

(** ** Completion *)

(** The claim is given up; failing to do so is only logged. *)
Definition releaseMultipartCompletion {A} (scope : MultipartScope) (idemKey : string) (cause : error) : prog (Sys B) A :=
  run! ignored (call w (fun f _ => DeleteIdempotencyKey f (ms_TenantID scope) idemKey)) in fail cause.

(** A step whose failure releases the claim. *)
Definition or_release {A} (scope : MultipartScope) (idemKey : string) (m : prog (Sys B) A) : prog (Sys B) A := fun s =>
  match m s with
  | (s', Ok a) => (s', Ok a)
  | (s', Err e) => releaseMultipartCompletion scope idemKey e s'
  end.

Definition multipartCompletionParts (uploadID : string) (manifest : option (list PartRecord)) : prog (Sys B) (list PartRecord) :=
  do! stored := call w (fun f _ => ListParts f uploadID) in
  match manifest with
  | None => run! refuse_if (match stored with [] => true | _ => false end) no_parts in ret stored
  | Some client => lift (selectMultipartParts client stored)
  end.

Definition prepareMultipartCompletion (u : Upload) (total : Z) : prog (Sys B) (BucketConfig * objectWriteUsage) :=
  do! b := map_err (fun e => Wrap "get bucket config" [e]) (call w (fun f _ => GetBucketConfig f (up_TenantID u) (up_Bucket u))) in
  run! checkMultipartLock u b in
  do! usage := object_write_usage w (up_TenantID u) (up_Bucket u) (up_Key u) (bc_Versioning b) in
  let '(deltaBytes, deltaObjects) := deltas usage total in
  run! preflightQuota sv w (up_TenantID u) deltaBytes deltaObjects in
  run! preflightBucketQuota w (up_TenantID u) (up_Bucket u) deltaBytes deltaObjects in
  ret (b, usage).

Definition completeStoredMultipart (u : Upload) (parts : list MultipartPart) (opts : ReadOptions) : prog (Sys B) ObjectInfo :=
  let so := if objectUsesSSEC (up_Metadata u) then storagePutOptions opts else noStoreOptions in
  store w (fun et => st_CompleteMultipart et (uploadStorageKey u) (up_BackendUID u) parts so).

Definition buildObjectFromUpload (now : time) (u : Upload) (info : ObjectInfo) (total : Z) (b : BucketConfig) : Object := {|
  ob_ID := 0; ob_TenantID := up_TenantID u; ob_Bucket := up_Bucket u; ob_Key := up_Key u; ob_VersionID := up_VersionID u;
  ob_Backend := up_Backend u; ob_StorageKey := up_StorageKey u;
  ob_Size := if oi_Size info =? 0 then total else oi_Size info; ob_ETag := oi_ETag info;
  ob_ContentType := if (oi_ContentType info =s "") then up_ContentType u else oi_ContentType info;
  ob_Metadata := with_generation info (up_Metadata u); ob_Tags := up_Tags u; ob_StorageClass := up_StorageClass u;
  ob_CreatedAt := 0; ob_UpdatedAt := 0; ob_DeletedAt := None; ob_LockedUntil := lock_until now (bc_ObjectLockSeconds b);
  ob_VersionTombstone := false |}.

Definition saveMultipartObject (c : Request) (o : Object) (b : BucketConfig) : prog (Sys B) Object :=
  let acl := meta_get (ob_Metadata o) pendingACLMetadataKey in
  let hold := (meta_get (ob_Metadata o) pendingLegalHoldKey =s "ON") in
  let o := if (acl <>s "") || hold
           then with_metadata (delete pendingLegalHoldKey (delete pendingACLMetadataKey (ob_Metadata o))) o else o in
  save_object sv w c (bc_Versioning b) o acl hold "s3 multipart upload".

Definition persistMultipartCompletion (c : Request) (u : Upload) (saved : Object) (idemKey : string) : prog (Sys B) unit :=
  run! ignored (call w (fun f now => CompleteIdempotencyKey f now (up_TenantID u) idemKey 200 (Marshal_Object saved)
                                       "application/json" ∅)) in
  run! ignored (call w (fun f _ => DeleteUpload f (up_ID u))) in
  emit c saved EventCreated.

(** The usage is accounted before the storage assembles the object. *)
Definition finishMultipartCompletion (c : Request) (scope : MultipartScope) (u : Upload) (parts : list PartRecord)
    (idemKey : string) (opts : ReadOptions) : prog (Sys B) Object :=
  let '(storageParts, total) := buildPartList parts in
  let guarded := fun A (m : prog (Sys B) A) => or_release scope idemKey m in
  do! prep := guarded _ (prepareMultipartCompletion u total) in
  let '(b, usage) := prep in
  run! guarded _ (accountObjectUsage sv w (up_TenantID u) usage total) in
  do! info := guarded _ (map_err (fun e => Wrap "storage complete" [e]) (completeStoredMultipart u storageParts opts)) in
  do! now := (if 0 <? bc_ObjectLockSeconds b then clock w else ret 0) in
  do! saved := guarded _ (saveMultipartObject c (buildObjectFromUpload now u info total b) b) in
  run! persistMultipartCompletion c u saved idemKey in
  ret saved.

Definition executeMultipartCompletion (c : Request) (scope : MultipartScope) (uploadID idemKey : string)
    (manifest : option (list PartRecord)) (opts : ReadOptions) : prog (Sys B) Object :=
  do! up := or_release scope idemKey (
    do! u := loadMultipartUpload c scope uploadID in
    run! check (validateSSECRead (up_Metadata u) opts) in
    do! parts := multipartCompletionParts uploadID manifest in ret (u, parts)) in
  finishMultipartCompletion c scope (fst up) (snd up) idemKey opts.

(** *** Retries (file_multipart_replay.go, space_boundary_replay.go) *)

Definition boundary_check (e : option error) : prog (Sys B) unit := check (option_map spaceBoundaryFault e).

Definition validateReplayObject (o : Object) : prog (Sys B) unit :=
  run! boundary_check (ValidateChunkRef {| ch_TenantID := ob_TenantID o; ch_Bucket := ob_Bucket o; ch_Key := ob_Key o;
                                           ch_ObjectID := ob_ID o |}) in
  run! boundary_check (validateKey (ob_Key o)) in
  refuse_if ((ob_VersionID o =s "") || (ob_Backend o =s "") || (ob_StorageKey o =s ""))
    (spaceBoundaryFault (NewError "incomplete replay object identity")).

#[local] Instance Resource_eq_dec : EqDecision Resource.
Proof. solve_decision. Defined.

Definition ValidateReplayAdmission (a : ReplayAdmission) : prog (Sys B) unit :=
  let r := ra_Resource a in
  run! boundary_check (ValidateBindingInput (r_TenantID r) (r_Bucket r)) in
  run! boundary_check (validateKey (r_Key r)) in
  run! refuse_if (negb (ValidAction (ra_Action a)) || (ra_Action a =s ActionAll) || (r_Kind r <>s objectResourceKind (r_Key r)))
         (spaceBoundaryFault (NewError "invalid replay action or kind")) in
  match ra_Object a with
  | None => ret tt
  | Some o => run! validateReplayObject o in
              refuse_if (negb (bool_decide (replayObjectResource o = r)))
                (spaceBoundaryFault (NewError "contradictory replay object scope"))
  end.

Definition authorizeReplayAction (c : Request) (a : ReplayAdmission) : prog (Sys B) unit :=
  let r := ra_Resource a in
  if (ra_Action a =s ActionCreate) && (match ra_Object a with None => true | Some _ => false end)
  then run! preparePutAccess sv w c (r_TenantID r) (r_Bucket r) (r_Key r) ∅ in ret tt
  else authorize sv w c (if (ra_Action a =s ActionCreate) then ActionWrite else ra_Action a) r.

Definition reading_action (a : string) : bool := (a =s ActionRead) || (a =s ActionPreview) || (a =s ActionDownload).

Definition AuthorizeReplayAdmission (c : Request) (a : ReplayAdmission) (opts : ReadOptions) : prog (Sys B) unit :=
  run! ValidateReplayAdmission a in
  run! authorizeReplayAction c a in
  if reading_action (ra_Action a) then
    match ra_Object a with
    | None => fail (spaceBoundaryFault (NewError "missing readable replay identity"))
    | Some o => run! check (checkCorrupt o) in check (validateSSECRead (ob_Metadata o) opts)
    end
  else ret tt.

Definition AuthorizeReplayObject (c : Request) (action : string) (o : Object) (opts : ReadOptions) : prog (Sys B) unit :=
  run! AuthorizeReplayAdmission c {| ra_Action := action; ra_Resource := replayObjectResource o; ra_Object := Some o |} opts in
  check (validateSSECRead (ob_Metadata o) opts).

(** RecordReplayObject: the object a fresh Put returned. *)
Definition RecordReplayObject (c : Request) (o : Object) : prog (Sys B) unit := fun s =>
  (if rq_Observing c
   then Build_Sys (sy_tick s) (sy_repo s) (sy_blobs s) (sy_events s) (sy_cleaned s)
          (Some {| ra_Action := match sy_observed s with Some a => ra_Action a | None => ""%string end;
                   ra_Resource := replayObjectResource o; ra_Object := Some o |})
   else s, Ok tt).

Definition validateMultipartRecord (rec : IdempotencyRecord) (scope : MultipartScope) (key : string) : option error :=
  if (ir_TenantID rec <>s ms_TenantID scope) || (ir_Key rec <>s key) || (ir_Fingerprint rec <>s "")
  then Some (spaceBoundaryFault (NewError "multipart replay record scope conflict")) else None.

Definition in_progress (what : string) : error := errorf ErrPreconditionFailed what.

Definition replayed_object (rec : IdempotencyRecord) (scope : MultipartScope) (uploadID : string) : prog (Sys B) Object :=
  run! boundary_check (ValidateIdentifier uploadID) in
  run! check (validateMultipartRecord rec scope (multipartCompleteKey uploadID)) in
  run! refuse_if ((ir_Status rec <>s IdempotencyCompleted) || negb (ir_ResponseStatus rec =? 200) || (ir_ResponseBody rec =s ""))
         (in_progress "multipart completion is already in progress") in
  match Unmarshal_Object (ir_ResponseBody rec) with
  | None => fail (spaceBoundaryFault (NewError "json"))
  | Some cached =>
      run! validateReplayObject cached in
      run! refuse_if (negb (multipartScopeMatchesObject scope cached)) (spaceBoundaryFault multipartScopeError) in
      ret cached
  end.

Definition replayMultipartCompletion (c : Request) (rec : IdempotencyRecord) (scope : MultipartScope) (uploadID : string)
    (opts : ReadOptions) : prog (Sys B) Object :=
  do! cached := replayed_object rec scope uploadID in
  run! AuthorizeReplayObject c ActionWrite cached opts in ret cached.

(** [manifest] is the list of CompleteMultipartWithPartsFor, or none for CompleteMultipartFor. *)
Definition completeMultipart (c : Request) (scope : MultipartScope) (uploadID : string) (manifest : option (list PartRecord))
    (opts : ReadOptions) : prog (Sys B) Object :=
  let scope := normalizeMultipartScope scope in
  let idemKey := multipartCompleteKey uploadID in
  do! claim := map_err (fun e => Wrap "idempotency claim" [e])
                 (call w (fun f now => ClaimIdempotencyKey f now (ms_TenantID scope) idemKey "" "")) in
  let '(rec, claimed) := claim in
  if claimed then executeMultipartCompletion c scope uploadID idemKey manifest opts
  else replayMultipartCompletion c rec scope uploadID opts.

(** ** Aborting (file_multipart_abort.go) *)

Definition validateReplayUpload (u : Upload) (requestedID : string) : prog (Sys B) unit :=
  run! boundary_check (ValidateBindingInput (up_TenantID u) (up_Bucket u)) in
  run! boundary_check (validateKey (up_Key u)) in
  refuse_if ((up_ID u =s "") || (up_ID u <>s requestedID) || (up_BackendUID u =s "") || (up_Backend u =s "") || (up_VersionID u =s ""))
    (spaceBoundaryFault (NewError "incomplete multipart upload identity")).

Definition replayMultipartAbort (c : Request) (rec : IdempotencyRecord) (scope : MultipartScope) (uploadID : string) : prog (Sys B) unit :=
  run! check (validateMultipartRecord rec scope (multipartAbortKey uploadID)) in
  run! refuse_if ((ir_Status rec <>s IdempotencyCompleted) || negb (ir_ResponseStatus rec =? 204))
         (in_progress "multipart abort is already in progress") in
  match Unmarshal_Upload (ir_ResponseBody rec) with
  | None => fail (spaceBoundaryFault (NewError "json"))
  | Some cached =>
      run! validateReplayUpload cached uploadID in
      run! refuse_if (negb (multipartScopeMatchesUpload scope cached)) (spaceBoundaryFault multipartScopeError) in
      authorize sv w c ActionWrite (uploadAccessResource cached)
  end.

(** The years of an upload's time are those that JSON has. *)
Definition executeMultipartAbort (c : Request) (scope : MultipartScope) (uploadID idemKey : string) : prog (Sys B) unit :=
  do! u := or_release scope idemKey (loadMultipartUpload c scope uploadID) in
  run! or_release scope idemKey (map_err (fun e => Wrap "storage abort multipart" [e])
         (store w (fun _ => st_AbortMultipart (uploadStorageKey u) (up_BackendUID u)))) in
  run! or_release scope idemKey (call w (fun f now => CompleteIdempotencyKey f now (ms_TenantID scope) idemKey 204 (Marshal_Upload u)
                                                        "application/json" ∅)) in
  or_release scope idemKey (call w (fun f _ => DeleteUpload f uploadID)).

Definition AbortMultipartFor (c : Request) (scope : MultipartScope) (uploadID : string) : prog (Sys B) unit :=
  let scope := normalizeMultipartScope scope in
  let idemKey := multipartAbortKey uploadID in
  do! claim := map_err (fun e => Wrap "idempotency claim" [e])
                 (call w (fun f now => ClaimIdempotencyKey f now (ms_TenantID scope) idemKey "" "")) in
  let '(rec, claimed) := claim in
  if claimed then executeMultipartAbort c scope uploadID idemKey else replayMultipartAbort c rec scope uploadID.

(** ** Listings (multipart_listing.go) *)

Fixpoint visible_uploads (c : Request) (tenant bucket : string) (l : list Upload) : prog (Sys B) (list Upload) :=
  match l with
  | [] => ret []
  | u :: rest =>
      run! refuse_if ((up_TenantID u <>s tenant) || (up_Bucket u <>s bucket)) (spaceBoundaryFault (Sentinel ErrInvalidArgs)) in
      run! (if has_boundary sv then validateReplayUpload u (up_ID u) else ret tt) in
      do! ok := readable (authorize sv w c ActionWrite (uploadAccessResource u)) in
      do! out := visible_uploads c tenant bucket rest in ret (if ok then u :: out else out)
  end.

Definition ListMultipartUploads (c : Request) (tenant bucket keyMarker uploadIDMarker : string) (limit : Z)
    : prog (Sys B) (list Upload) :=
  let '(tenant, bucket) := defaults tenant bucket in
  run! admitBucket sv tenant bucket in
  run! requireActiveTenant sv w c tenant in
  do! l := call w (fun f _ => ListUploads f tenant bucket keyMarker uploadIDMarker limit) in
  visible_uploads c tenant bucket l.

(** The flag is computed even from a failed listing, which has no uploads. *)
Definition BucketHasMultipartUploads (c : Request) (tenant bucket : string) : prog (Sys B) bool :=
  do! l := ListMultipartUploads c tenant bucket "" "" 1 in ret (match l with [] => false | _ => true end).

Definition SvcListObjectVersionsWithOpts (c : Request) (tenant bucket key versionIDMarker : string) (limit : Z)
    : prog (Sys B) VersionListPage :=
  do! tb := checkedObjectDefaults tenant bucket key in
  let '(tenant, bucket) := tb in
  run! admitBucket sv tenant bucket in
  run! requireActiveTenant sv w c tenant in
  do! page := call w (fun f _ => on_objects (ListObjectVersionsWithOpts (fs_dialect sv) f tenant bucket key versionIDMarker limit)) in
  run! check (validateBoundaryObjects sv (vp_Versions page) tenant bucket key) in
  do! l := filterAuthorizedVersions sv w c (vp_Versions page) in
  ret {| vp_Versions := l; vp_NextVersionID := vp_NextVersionID page; vp_HasMore := vp_HasMore page |}.
End Multipart.
