(* ===== verification/ServiceBuckets.v ===== *)
(** * The file service: buckets, quotas and presigned requests (src/internal/service)

    file_bucket_settings.go, file_bucket_policy.go, bucket_notifications.go,
    config_validation.go, the bucket ACL of acl.go, Usage, SetQuota and the bucket settings
    of file_features.go, the tenant check of space_boundary.go, presign.go, access_log.go
    and thumbnail_source.go.

    [auth.ParsePolicy] is read from Policy; the provider's presigned URL and the text of a
    log line are parameters. *)

From Stdlib Require Import Ascii Lia Bool ZArith.
From stdpp Require Import base gmap strings list numbers option pretty.
From S2P Require Import Prelude GoStrings GoPath Json JsonProps Base64 GoTime GoErrors Sql JsonStruct Policy Spaces Envelope Storage LocalStorage Access AccessStore Outbox Objects EventPayload EventLog Repo Service ServiceWrite ServiceDelete ServiceRead.

Open Scope Z_scope.

(** ** Configuration (config_validation.go) *)

Definition negative (what : string) : error := errorf ErrInvalidArgs (what ++ " must be >= 0")%string.

Definition validateQuotaLimits (maxBytes maxObjects : Z) : option error :=
  if maxBytes <? 0 then Some (negative "max_bytes") else if maxObjects <? 0 then Some (negative "max_objects") else None.

Definition validateLifecycleDays (name : string) (days : Z) : option error :=
  if days <? 0 then Some (negative name) else None.

Definition validateLifecycleConfig (c : LifecycleConfig) : option error :=
  first_error (fun '(name, days) => validateLifecycleDays name days)
    ([("days", lf_ExpireAfterDays c); ("noncurrent_days", lf_NoncurrentDays c); ("noncurrent_count", lf_NoncurrentCount c);
      ("noncurrent_transition_days", lf_NoncurrentTransitionDays c)]%string ++
     imap (fun i r => (("transition_rules[" ++ pretty i ++ "].days")%string, tr_Days r)) (lf_TransitionRules c)).

Section Buckets.
Context {B : Type} `{Storage B} `{MD5} (sv : FileService) (w : World).

(** ** Settings *)

(** An operation on a bucket that the action allows: with the defaults filled in. *)
Definition on_bucket {A} (action : string) (c : Request) (tenant bucket : string)
    (m : string -> string -> prog (Sys B) A) : prog (Sys B) A :=
  let '(tenant, bucket) := defaults tenant bucket in
  run! authorizeBucket sv w c action tenant bucket in m tenant bucket.

Definition repo_op {A} (m : option error -> prog RepoDB A) : prog (Sys B) A := call w (fun f _ => m f).

Definition HeadBucket c tenant bucket := on_bucket ActionList c tenant bucket (fun t b => repo_op (fun f => BucketExists f t b)).
Definition SvcCreateBucket c tenant bucket := on_bucket ActionCreate c tenant bucket (fun t b =>
  run! preflightQuota sv w t 0 0 in repo_op (fun f => CreateBucket f t b)).
Definition SvcBucketStats c tenant bucket := on_bucket ActionRead c tenant bucket (fun t b => repo_op (fun f => BucketStats f t b)).
Definition SvcGetBucketCORS c tenant bucket := on_bucket ActionManageACL c tenant bucket (fun t b => repo_op (fun f => GetBucketCORS f t b)).
Definition SvcSetBucketCORS c tenant bucket rules :=
  on_bucket ActionManageACL c tenant bucket (fun t b => repo_op (fun f => SetBucketCORS f t b rules)).
Definition SvcDeleteBucketCORS c tenant bucket := on_bucket ActionManageACL c tenant bucket (fun t b => repo_op (fun f => DeleteBucketCORS f t b)).

Definition SvcSetBucketEncryption (c : Request) (tenant bucket algorithm kmsKeyID : string) : prog (Sys B) unit :=
  on_bucket ActionManageACL c tenant bucket (fun t b =>
    run! refuse_if (negb (managed_algorithm algorithm)) (errorf ErrInvalidArgs "unsupported SSE algorithm") in
    run! refuse_if ((algorithm =s "AES256") && (kmsKeyID <>s "")) (errorf ErrInvalidArgs "KMS key is valid only with aws:kms") in
    run! refuse_if (negb (st_SupportsSSE algorithm kmsKeyID)) (errorf ErrInvalidArgs "storage backend cannot satisfy bucket SSE") in
    repo_op (fun f => SetBucketEncryption f t b algorithm kmsKeyID)).

Definition SvcDeleteBucketEncryption c tenant bucket :=
  on_bucket ActionManageACL c tenant bucket (fun t b => repo_op (fun f => DeleteBucketEncryption f t b)).
Definition SvcSetBucketWebsite c tenant bucket cfg :=
  on_bucket ActionManageACL c tenant bucket (fun t b => repo_op (fun f => SetBucketWebsite f t b cfg)).
Definition SvcDeleteBucketWebsite c tenant bucket :=
  on_bucket ActionManageACL c tenant bucket (fun t b => repo_op (fun f => DeleteBucketWebsite f t b)).

Definition SvcSetBucketQuota (c : Request) (tenant bucket : string) (maxBytes maxObjects : Z) : prog (Sys B) unit :=
  on_bucket ActionManageACL c tenant bucket (fun t b =>
    run! check (validateQuotaLimits maxBytes maxObjects) in repo_op (fun f => SetBucketQuota f t b maxBytes maxObjects)).

Definition SvcSetBucketTags c tenant bucket tags := on_bucket ActionWrite c tenant bucket (fun t b => repo_op (fun f => SetBucketTags f t b tags)).
Definition SvcDeleteBucketTags c tenant bucket := on_bucket ActionManageACL c tenant bucket (fun t b => repo_op (fun f => DeleteBucketTags f t b)).

Definition SvcSetBucketAccelerate (c : Request) (tenant bucket status : string) : prog (Sys B) unit :=
  on_bucket ActionManageACL c tenant bucket (fun t b =>
    run! refuse_if ((status <>s "Enabled") && (status <>s "Suspended"))
           (errorf ErrInvalidArgs "accelerate status must be Enabled or Suspended") in
    repo_op (fun f => SetBucketAccelerate f t b status)).

Definition SvcGetBucketLogging c tenant bucket := on_bucket ActionManageACL c tenant bucket (fun t b => repo_op (fun f => GetBucketLogging f t b)).
Definition SvcSetBucketLogging c tenant bucket target prefix :=
  on_bucket ActionManageACL c tenant bucket (fun t b => repo_op (fun f => SetBucketLogging f t b target prefix)).
Definition SvcDeleteBucketLogging c tenant bucket :=
  on_bucket ActionManageACL c tenant bucket (fun t b => repo_op (fun f => DeleteBucketLogging f t b)).

Definition SvcGetBucketNotifications c tenant bucket :=
  on_bucket ActionManageACL c tenant bucket (fun t b => repo_op (fun f => GetBucketNotifications f t b)).
Definition SvcSetBucketNotifications c tenant bucket rules :=
  on_bucket ActionManageACL c tenant bucket (fun t b => repo_op (fun f => SetBucketNotifications f t b rules)).
Definition SvcDeleteBucketNotifications c tenant bucket :=
  on_bucket ActionManageACL c tenant bucket (fun t b => repo_op (fun f => DeleteBucketNotifications f t b)).

Definition SvcSetBucketLifecycleFull (c : Request) (tenant bucket : string) (cfg : LifecycleConfig) : prog (Sys B) unit :=
  on_bucket ActionManageACL c tenant bucket (fun t b =>
    run! check (validateLifecycleConfig cfg) in repo_op (fun f => SetBucketLifecycleFull f t b cfg)).
Definition SvcSetBucketLifecycle (c : Request) (tenant bucket : string) (days : Z) (action : string) : prog (Sys B) unit :=
  on_bucket ActionManageACL c tenant bucket (fun t b =>
    run! check (validateLifecycleDays "days" days) in repo_op (fun f => SetBucketLifecycle f t b days action)).
Definition SvcSetBucketVersioning c tenant bucket enabled :=
  on_bucket ActionManageACL c tenant bucket (fun t b => repo_op (fun f => SetBucketVersioning f t b enabled)).
Definition SvcSetBucketObjectLock c tenant bucket seconds :=
  on_bucket ActionManageACL c tenant bucket (fun t b => repo_op (fun f => SetBucketObjectLock f t b seconds)).

Definition SvcSetBucketACL (c : Request) (tenant bucket acl : string) : prog (Sys B) unit :=
  run! check (canned_acl_error acl) in
  on_bucket ActionManageACL c tenant bucket (fun t b => repo_op (fun f => SetBucketACL f t b acl)).

(** Whether auth.ParsePolicy reads a document, and finds statements in it. *)
Definition readable_policy `{NetLib} (unmarshal : string -> option (string * list rawStatement)) (policy : string) : bool :=
  match ParsePolicy unmarshal policy with Ok (Some _) => true | _ => false end.

Definition SvcSetBucketPolicy `{NetLib} (unmarshal : string -> option (string * list rawStatement)) (c : Request)
    (tenant bucket policy : string) : prog (Sys B) unit :=
  run! refuse_if ((policy <>s "") && negb (readable_policy unmarshal policy)) (errorf ErrInvalidArgs "invalid bucket policy") in
  on_bucket ActionManageACL c tenant bucket (fun t b => repo_op (fun f => SetBucketPolicy f t b policy)).
Definition SvcGetBucketConfig (tenant bucket : string) : prog (Sys B) BucketConfig :=
  let '(tenant, bucket) := defaults tenant bucket in repo_op (fun f => GetBucketConfig f tenant bucket).
Definition GetBucketConfigAuthorized c tenant bucket :=
  on_bucket ActionManageACL c tenant bucket (fun t b => repo_op (fun f => GetBucketConfig f t b)).
Definition SvcGetBucketPolicy (c : Request) (tenant bucket : string) : prog (Sys B) string :=
  do! cfg := GetBucketConfigAuthorized c tenant bucket in ret (bc_Policy cfg).

(** ** The buckets of a tenant *)

(** The tenant's status, which an unbound deployment does not ask for. *)
Definition admitBucketNamesTenant (tenant : string) : prog (Sys B) unit :=
  match fs_spaceBoundary sv with
  | NoBoundary => ret tt
  | TypedNilBoundary => fail (spaceBoundaryFault (Sentinel ErrInvalidArgs))
  | Boundary _ _ =>
      run! check (option_map spaceBoundaryFault (ValidateTenant tenant)) in
      do! rec := map_err spaceBoundaryFault (repo_op (fun f => GetTenant f tenant)) in
      match rec with
      | None => ret tt
      | Some t => run! refuse_if (te_TenantID t <>s tenant) (spaceBoundaryFault (NewError "bucket-list tenant scope echo")) in
                  refuse_if (te_Status t <>s "active")
                    (Wrap "" [Sentinel ErrForbidden; Sentinel ErrTenantDisabled; Sentinel ErrTenantUnavailable])
      end
  end.

Fixpoint visible_buckets (c : Request) (tenant : string) (l : list string) : prog (Sys B) (list string) :=
  match l with
  | [] => ret []
  | bucket :: rest =>
      do! ok := readable (authorizeBucket sv w c ActionList tenant bucket) in
      do! out := visible_buckets c tenant rest in ret (if ok then bucket :: out else out)
  end.

Definition SvcListBuckets (c : Request) (tenant : string) : prog (Sys B) (list string) :=
  let '(tenant, _) := defaults tenant "" in
  run! admitBucketNamesTenant tenant in
  run! requireActiveTenant sv w c tenant in
  do! buckets := repo_op (fun f => ListBuckets f tenant) in
  run! match buckets with [] => admitCoverage sv (tenantCoverage tenant) | _ => ret tt end in
  do! visible := visible_buckets c tenant buckets in
  run! admitBucketNamesTenant tenant in ret visible.

(** ** Quotas (file_features.go) *)

Definition Usage (c : Request) (tenant : string) : prog (Sys B) TenantQuota :=
  let '(tenant, _) := defaults tenant "" in
  run! admitCoverage sv (tenantCoverage tenant) in
  run! requireActiveTenant sv w c tenant in
  do! q := repo_op (fun f => GetTenantQuota f tenant) in
  run! refuse_if (has_boundary sv && (tq_TenantID q <>s tenant)) (spaceBoundaryFault (Sentinel ErrInvalidArgs)) in
  run! admitCoverage sv (tenantCoverage tenant) in ret q.

Definition SetQuota (tenant : string) (maxBytes maxObjects : Z) : prog (Sys B) unit :=
  let '(tenant, _) := defaults tenant "" in
  run! check (validateQuotaLimits maxBytes maxObjects) in
  run! admitCoverage sv (tenantCoverage tenant) in
  call w (fun f now => SetTenantQuota (fs_dialect sv) f now tenant maxBytes maxObjects).

(** ** Presigned requests (presign.go) *)

Definition preparePresignGet (c : Request) (tenant bucket key : string) : prog (Sys B) Object :=
  objectForAction sv w c tenant bucket key ActionDownload.

Definition preparePresignPut (c : Request) (tenant bucket key : string) : prog (Sys B) (string * string) :=
  let '(tenant, bucket) := defaults tenant bucket in
  run! check (validateKey key) in
  run! preparePutAccess sv w c tenant bucket key ∅ in
  do! cfg := map_err (fun e => Wrap "get bucket config" [e]) (repo_op (fun f => GetBucketConfig f tenant bucket)) in
  do! usage := object_write_usage w tenant bucket key (bc_Versioning cfg) in
  let '(deltaBytes, deltaObjects) := deltas usage 1 in
  run! preflightQuota sv w tenant deltaBytes deltaObjects in
  run! preflightBucketQuota w tenant bucket deltaBytes deltaObjects in
  ret (tenant, bucket).

(** [url] is the backend's own signing. *)
Definition PresignGet (url : string -> result string) (c : Request) (tenant bucket key : string) : prog (Sys B) string :=
  do! o := preparePresignGet c tenant bucket key in lift (url (ob_StorageKey o)).
Definition PresignPut (url : string -> result string) (c : Request) (tenant bucket key : string) : prog (Sys B) string :=
  do! tb := preparePresignPut c tenant bucket key in
  let '(tenant, bucket) := tb in lift (url (storageKey tenant bucket key)).

(** ** Access logs (access_log.go) *)

Definition log_char (a : ascii) : ascii := if is_char 47 a || is_char 92 a then char 95 else a.
Definition log_bucket (bucket : string) : string := text (map log_char (chars bucket)).
Definition without_dashes (s : string) : string := text (List.filter (fun a => negb (is_char 45 a)) (chars s)).

(** The texts of the time: the stamp in the name and the hour's folder. *)
Definition accessLogKey (prefix sourceBucket stamp hour id : string) : string :=
  let cleanPrefix := Trim prefix "/" in
  let cleanBucket := log_bucket sourceBucket in
  let name := (cleanBucket ++ "-" ++ stamp ++ "-" ++ without_dashes id ++ ".log")%string in
  path_Join ((if (cleanPrefix =s "") then [] else [cleanPrefix]) ++ [cleanBucket; hour; name]).

Record AccessLogEntry := {
  ae_Method : string; ae_Key : string; ae_Status : Z; ae_Milliseconds : Z; ae_UserAgent : string; ae_CompletedAt : time
}.

Definition log_options : PutOptions := {|
  po_ContentType := "text/plain; charset=utf-8"; po_ContentDisposition := ""; po_ContentEncoding := "";
  po_Metadata := {["aero-access-log"%string := "true"%string]}; po_Tags := ∅; po_ACL := ""; po_LegalHold := false;
  po_ContentMD5 := ""; po_StorageClass := ""; po_SSEAlgorithm := ""; po_SSEKMSKeyID := ""; po_SSECustomerKey := "";
  po_SSECustomerKeyMD5 := "" |}.

(** The log object is written as the system.  [line], [stamp] and [hour] write the entry and
    its time. *)
Definition RecordBucketAccessLog (line : string -> string -> AccessLogEntry -> time -> string) (stamp hour : time -> string)
    (c : Request) (tenant sourceBucket : string) (entry : AccessLogEntry) : prog (Sys B) unit :=
  let '(tenant, sourceBucket) := defaults tenant sourceBucket in
  run! admitBucket sv tenant sourceBucket in
  do! cfg := map_err (fun e => Wrap "get bucket config" [e]) (repo_op (fun f => GetBucketConfig f tenant sourceBucket)) in
  let target := bc_LoggingTarget cfg in
  if (target =s "") || (target =s sourceBucket) then ret tt
  else
    run! admitBucket sv tenant target in
    do! at_ := (if IsZero (ae_CompletedAt entry) then clock w else ret (ae_CompletedAt entry)) in
    do! id := NewVersionID w in
    let body := line tenant sourceBucket entry at_ in
    let key := accessLogKey (bc_LoggingPrefix cfg) sourceBucket (stamp at_) (hour at_) id in
    run! map_err (fun e => Wrap "write access log object" [e])
           (Put sv w (with_principal (systemPrincipal "aero-vault-system" tenant) c) tenant target key (reader_of body) (len body) log_options) in
    map_err (fun e => Wrap "persist access log" [e])
      (call w (fun f now => WriteAccessLog f now tenant sourceBucket (ae_Method entry) (ae_Key entry)
                              (pretty (ae_Status entry)) (pretty (ae_Milliseconds entry)) (ae_UserAgent entry))).
End Buckets.
