(* ===== verification/ServiceSample.v ===== *)
(** * A sample service

    A backend that keeps its blobs in a map, with the laws of [StorageLaws], a world without
    failures, and a few requests: what the witnesses of the service's theorems run on. *)

From Stdlib Require Import Ascii Lia Bool ZArith.
From stdpp Require Import base gmap strings list numbers option pretty.
From S2P Require Import Prelude GoStrings GoTime GoErrors Sql JsonStruct Envelope Storage LocalStorage Access AccessStore Outbox Objects ObjectsInvariant EventLog Repo Service ServiceWrite.

Open Scope Z_scope.

(** ** The backend *)

Definition mem_put (key : string) (r : Reader) : prog (gmap string string) (ObjectInfo * Z) := fun b =>
  match rd_err r with
  | Some e => (b, Err e)
  | None => (<[key := rd_data r]> b,
             Ok ({| oi_Key := key; oi_Size := len (rd_data r); oi_ETag := "etag"; oi_ContentType := ""; oi_LastModified := 0;
                    oi_Metadata := ∅ |}, len (rd_data r)))
  end.

(** All of them last modified in the fifth second. *)
Definition mem_info (key data : string) : ObjectInfo := {|
  oi_Key := key; oi_Size := len data; oi_ETag := ""; oi_ContentType := ""; oi_LastModified := at_sec 5; oi_Metadata := ∅ |}.

Definition mem_get (key : string) : prog (gmap string string) (string * ObjectInfo) :=
  reads (fun b => match b !! key with Some d => Ok (d, mem_info key d) | None => Err (Sentinel StorageErrNotFound) end).

Definition part_key (uid : string) (n : Z) : string := ("." ++ uid ++ "/" ++ pretty n)%string.
Definition mem_complete (key uid : string) (parts : list MultipartPart) : prog (gmap string string) ObjectInfo := fun b =>
  let data := fold_right (fun p s => (default "" (b !! part_key uid (mp_PartNumber p)) ++ s)%string) ""%string parts in
  (<[key := data]> b, Ok {| oi_Key := key; oi_Size := len data; oi_ETag := "etag"; oi_ContentType := ""; oi_LastModified := 0;
                            oi_Metadata := ∅ |}).

#[export] Instance mem_storage : Storage (gmap string string) := {|
  st_Backend := "mem"; st_SupportsSSEC := false; st_SupportsSSE := fun _ _ => false;
  st_Put := fun _ key r _ _ => mem_put key r; st_Get := fun key _ => mem_get key;
  st_Stat := fun key => reads (fun b => match b !! key with Some d => Ok (mem_info key d) | None => Err (Sentinel StorageErrNotFound) end);
  st_Delete := fun key b => (delete key b, Ok tt); st_InitMultipart := fun et _ _ => ret (et_uuid et);
  st_UploadPart := fun _ uid n r _ _ => do! put := mem_put (part_key uid n) r in ret ({| mp_PartNumber := n; mp_ETag := "etag" |}, snd put);
  st_UploadPartCopy := fun _ _ _ _ _ _ => fail (Sentinel ErrUnsupported);
  st_CompleteMultipart := fun _ key uid parts _ => mem_complete key uid parts; st_AbortMultipart := fun _ _ => ret tt |}.

#[export] Program Instance mem_laws : StorageLaws (gmap string string) := {|
  st_valid := fun _ => True; st_storable := fun _ _ _ _ => True; st_apart := fun a b => a <> b |}.
Next Obligation. done. Qed.
Next Obligation. done. Qed.
Next Obligation.
  intros et key [d [e|]] size opts b b' info n _ _ _; cbn; [done|]. intros [= <- <- <-].
  unfold stored, st_Get. cbn. by rewrite lookup_insert_eq.
Qed.
Next Obligation. intros o key b b' _ [= <-]. unfold stored, st_Get. cbn. by rewrite lookup_delete_eq. Qed.
Next Obligation.
  intros et key [d [e|]] size opts b o other _ Ha; cbn; [done|]. unfold stored, st_Get. cbn. by rewrite lookup_insert_ne.
Qed.
Next Obligation. intros key b o other _ Ha. unfold stored, st_Get. cbn. by rewrite lookup_delete_ne. Qed.
Next Obligation. done. Qed.
Next Obligation. done. Qed.

(** ** The world *)

(** No failures; it is the same second all the time. *)
Definition calm : World := {|
  w_fault := fun _ => None; w_now := fun _ => at_sec 10; w_fresh := fun n => ("id" ++ pretty n)%string;
  w_entropy := fun n => {| et_now := at_sec 10; et_random := {| rn_key := ""; rn_iv := ""; rn_nonce := "" |};
                           et_generation := "g"; et_uuid := ("up" ++ pretty n)%string |} |}.

(** A digest of sixteen bytes. *)
#[export] Instance toy_md5 : MD5 := {| md5_Sum s := slice (s ++ "................") 0 16 |}.

(** No provider, no boundary, deletes open. *)
Definition open_service : FileService := {|
  fs_dialect := dialectSQLite; fs_authorizer := None; fs_spaceBoundary := NoBoundary; fs_deleteFailOpen := true;
  fs_tenantStatus := false; fs_usageAccountant := None; fs_chunkCleaner := NoCleaner; fs_shareLister := None;
  fs_readVerify := false; fs_DefaultStorageClass := "STANDARD" |}.
(** Deletes need a provider. *)
Definition closed_service : FileService := {|
  fs_dialect := dialectSQLite; fs_authorizer := None; fs_spaceBoundary := NoBoundary; fs_deleteFailOpen := false;
  fs_tenantStatus := false; fs_usageAccountant := None; fs_chunkCleaner := NoCleaner; fs_shareLister := None;
  fs_readVerify := false; fs_DefaultStorageClass := "STANDARD" |}.

Definition ann : Request := {|
  rq_Principal := Some {| SubjectID := "ann"; TenantID := "acme"; Kind := PrincipalUser; Roles := []; Groups := []; Scopes := [];
                          p_Capability := None |};
  rq_RequestID := "r1"; rq_Tenant := "acme"; rq_KeyLabel := None; rq_Verified := fun _ => false; rq_Permission := None;
  rq_Observing := false |}.

Definition no_options : PutOptions := {|
  po_ContentType := "text/plain"; po_ContentDisposition := ""; po_ContentEncoding := ""; po_Metadata := ∅; po_Tags := ∅;
  po_ACL := ""; po_LegalHold := false; po_ContentMD5 := ""; po_StorageClass := ""; po_SSEAlgorithm := "";
  po_SSEKMSKeyID := ""; po_SSECustomerKey := ""; po_SSECustomerKeyMD5 := "" |}.
Definition with_digest (d : string) (o : PutOptions) : PutOptions := {|
  po_ContentType := po_ContentType o; po_ContentDisposition := po_ContentDisposition o;
  po_ContentEncoding := po_ContentEncoding o; po_Metadata := po_Metadata o; po_Tags := po_Tags o; po_ACL := po_ACL o;
  po_LegalHold := po_LegalHold o; po_ContentMD5 := d; po_StorageClass := po_StorageClass o;
  po_SSEAlgorithm := po_SSEAlgorithm o; po_SSEKMSKeyID := po_SSEKMSKeyID o; po_SSECustomerKey := po_SSECustomerKey o;
  po_SSECustomerKeyMD5 := po_SSECustomerKeyMD5 o |}.

Definition empty_repo : RepoDB := {|
  r_objects := empty_objects; r_acl := ∅; r_quotas := []; r_buckets := []; r_uploads := []; r_parts := []; r_idem := [];
  r_tenants := []; r_chunks := []; r_events := {| object_events := []; event_seq := 0; webhook_failures := []; failure_seq := 0 |};
  r_logs := [] |}.

Definition empty_sys : Sys (gmap string string) := Build_Sys 0 empty_repo ∅ [] [] None.

(** What was there, after a run. *)
Definition run_on {A} (s : Sys (gmap string string)) (m : prog (Sys (gmap string string)) A) : Sys (gmap string string) := fst (m s).

Definition put_text (key body : string) : prog (Sys (gmap string string)) Object :=
  Put open_service calm ann "acme" "b" key (reader_of body) (len body) no_options.

(** "k" of bucket "b" holds "one". *)
Definition one_object : Sys (gmap string string) := run_on empty_sys (put_text "k" "one").
