(* ===== verification/ServiceGate.v ===== *)
(** * Nothing is written before the caller may write it

    [gate P m]: a run of [m] leaves the rows and the blobs alone unless [P] holds of the
    repository it started from.  The operations of the file service read, decide and then
    write; [granted] is the decision, and [mutations_are_authorized] states, operation by
    operation, on what resource and for what action it was made. *)

From Stdlib Require Import Ascii Lia Bool ZArith.
From stdpp Require Import base gmap strings list numbers option pretty.
From S2P Require Import Prelude GoStrings GoPath Json JsonProps Base64 GoTime GoErrors Sql JsonStruct Policy Spaces Envelope Storage LocalStorage Access AccessStore Outbox Objects ObjectsInvariant EventPayload EventLog Repo ServiceMultipart Service ServiceWrite ServiceDelete ServiceRead ServiceBuckets ServiceSample.

Open Scope Z_scope.

Section Gate.
Context {B : Type} `{Storage B} `{MD5} (sv : FileService) (w : World).

(** ** Runs that change no row and no blob *)

Definition same_data (s s' : Sys B) : Prop := sy_repo s' = sy_repo s /\ sy_blobs s' = sy_blobs s.

#[export] Instance same_data_preorder : PreOrder same_data.
Proof. split; [by intros s|]. intros s s' s'' [H1 H2] [H3 H4]. split; congruence. Qed.

Definition quiet {A} (m : prog (Sys B) A) : Prop := keeps same_data m.

Lemma quiet_ret {A} (a : A) : quiet (ret a).
Proof. apply keeps_ret, _. Qed.
Lemma quiet_fail {A} e : quiet (@fail _ A e).
Proof. apply keeps_fail, _. Qed.
Lemma quiet_reads {A} (f : Sys B -> result A) : quiet (reads f).
Proof. apply keeps_reads, _. Qed.
Lemma quiet_guard f : quiet (guard f).
Proof. apply keeps_guard, _. Qed.
Lemma quiet_refuse c e : quiet (refuse_if c e).
Proof. apply keeps_refuse_if, _. Qed.
Lemma quiet_bind {A C} (m : prog (Sys B) A) (k : A -> prog (Sys B) C) : quiet m -> (forall a, quiet (k a)) -> quiet (bind m k).
Proof. apply keeps_bind, _. Qed.
Lemma quiet_map_err {A} f (m : prog (Sys B) A) : quiet m -> quiet (map_err f m).
Proof. intros Hm s. specialize (Hm s). unfold map_err. by destruct (m s) as [s' [a|e]]. Qed.

(** A call of the repository that only reads. *)
Definition reader_op {A} (m : option error -> time -> prog RepoDB A) : Prop := forall f t, keeps eq (m f t).

Lemma quiet_call {A} (m : option error -> time -> prog RepoDB A) : reader_op m -> quiet (call w m).
Proof.
  intros Hm s. unfold call. specialize (Hm (w_fault w (sy_tick s)) (w_now w (sy_tick s)) (sy_repo s)).
  destruct (m _ _ _) as [db r]. by cbn in *; subst.
Qed.

Lemma quiet_clock : quiet (clock w).
Proof. by intros s. Qed.
Lemma quiet_fresh : quiet (NewVersionID w).
Proof. by intros s. Qed.
Lemma quiet_check e : quiet (check e).
Proof. apply quiet_guard. Qed.
Lemma quiet_lift {A} (r : result A) : quiet (lift r).
Proof. apply quiet_reads. Qed.

Lemma on_objects_eq {A} (m : prog ObjectsDB A) : keeps eq m -> keeps eq (on_objects m).
Proof.
  intros Hm db. specialize (Hm (r_objects db)). unfold on_objects. destruct (m _) as [o r]. cbn in *. subst o. by destruct db.
Qed.

Lemma eq_bind {S A C} (m : prog S A) (k : A -> prog S C) : keeps eq m -> (forall a, keeps eq (k a)) -> keeps eq (bind m k).
Proof. apply keeps_bind. apply _. Qed.

Lemma eq_ctx {S} e : keeps eq (@with_ctx S e).
Proof. apply keeps_guard. apply _. Qed.
Lemma eq_reads {S A} (f : S -> result A) : keeps eq (reads f).
Proof. by intros s. Qed.

End Gate.

(** The operations that only read the repository. *)
Ltac reader_tac := intros ? ?; repeat apply on_objects_eq; unfold with_ctx; keeps_tac.

Create HintDb quiet.
#[export] Hint Resolve quiet_ret quiet_fail quiet_reads quiet_guard quiet_refuse quiet_clock quiet_fresh quiet_check quiet_lift : quiet.

Section Readers.
Lemma read_GetObject t b k : reader_op (fun f _ => on_objects (GetObject f t b k)).
Proof. unfold GetObject. reader_tac. Qed.
Lemma read_GetObjectVersion t b k v : reader_op (fun f _ => on_objects (GetObjectVersion f t b k v)).
Proof. unfold GetObjectVersion. reader_tac. Qed.
Lemma read_GetObjectByID id : reader_op (fun f _ => on_objects (GetObjectByID f id)).
Proof. unfold GetObjectByID. reader_tac. Qed.
Lemma read_ListObjectVersions d t b k : reader_op (fun f _ => on_objects (ListObjectVersions d f t b k)).
Proof. unfold ListObjectVersions. reader_tac. Qed.
Lemma read_ObjectHasLegalHold id : reader_op (fun f _ => on_objects (ObjectHasLegalHold f id)).
Proof. unfold ObjectHasLegalHold. reader_tac. Qed.
Lemma read_ListObjectVersionKeys d t b p m n : reader_op (fun f _ => on_objects (ListObjectVersionKeys d f t b p m n)).
Proof. unfold ListObjectVersionKeys. reader_tac. Qed.
Lemma read_GetTenant t : reader_op (fun f _ => GetTenant f t).
Proof. unfold GetTenant. reader_tac. Qed.
Lemma read_GetTenantQuota t : reader_op (fun f _ => GetTenantQuota f t).
Proof. unfold GetTenantQuota. reader_tac. Qed.
Lemma read_GetBucketConfig t b : reader_op (fun f _ => GetBucketConfig f t b).
Proof. unfold GetBucketConfig. reader_tac. Qed.
Lemma read_BucketUsage t b : reader_op (fun f _ => BucketUsage f t b).
Proof. unfold BucketUsage. reader_tac. Qed.
Lemma read_GetUpload id : reader_op (fun f _ => GetUpload f id).
Proof. unfold GetUpload. reader_tac. Qed.
End Readers.
#[export] Hint Resolve read_GetObject read_GetObjectVersion read_GetObjectByID read_ListObjectVersions read_ObjectHasLegalHold
  read_ListObjectVersionKeys read_GetTenant read_GetTenantQuota read_GetBucketConfig read_BucketUsage read_GetUpload : quiet.

(** Reduces [quiet] to the calls a program makes. *)
Ltac quiet_tac :=
  repeat match goal with
  | |- quiet (bind _ _) => apply quiet_bind; [|intros ?]
  | |- quiet (map_err _ _) => apply quiet_map_err
  | |- quiet (call _ _) => apply quiet_call
  | |- quiet (if ?c then _ else _) => destruct c
  | |- quiet (match ?x with _ => _ end) => destruct x
  end; auto with quiet.

Section Checks.
Context {B : Type} `{Storage B} `{MD5} (sv : FileService) (w : World).

Lemma quiet_repo_GetObject t b k : @quiet B _ (repo_GetObject w t b k).
Proof. apply quiet_call, read_GetObject. Qed.
Lemma quiet_find_object missing t b k : @quiet B _ (find_object w missing t b k).
Proof.
  intros s. pose proof (quiet_repo_GetObject t b k s) as Hq. unfold find_object. by destruct (repo_GetObject w t b k s) as [s' [o|e]].
Qed.
Lemma quiet_admitBucket t b : @quiet B _ (admitBucket sv t b).
Proof. apply quiet_guard. Qed.
Lemma quiet_requireActiveTenant c t : @quiet B _ (requireActiveTenant sv w c t).
Proof. unfold requireActiveTenant. quiet_tac. Qed.
#[local] Hint Resolve quiet_repo_GetObject quiet_find_object quiet_admitBucket quiet_requireActiveTenant : quiet.
Lemma quiet_authorize c a r : @quiet B _ (authorize sv w c a r).
Proof. unfold authorize. quiet_tac. Qed.
Lemma quiet_record c a r o : @quiet B _ (recordReplayAdmission c a r o).
Proof. intros s. unfold recordReplayAdmission. by destruct (rq_Observing c). Qed.
#[local] Hint Resolve quiet_authorize quiet_record : quiet.
Lemma quiet_authorizeObject c a o : @quiet B _ (authorizeObject sv w c a o).
Proof. unfold authorizeObject. quiet_tac. Qed.
Lemma quiet_authorizePath c a t b k : @quiet B _ (authorizePath sv w c a t b k).
Proof. unfold authorizePath. quiet_tac. Qed.
#[local] Hint Resolve quiet_authorizeObject quiet_authorizePath : quiet.
Lemma quiet_authorizeBucket c a t b : @quiet B _ (authorizeBucket sv w c a t b).
Proof. unfold authorizeBucket. quiet_tac. Qed.
Lemma quiet_checkedObjectDefaults t b k : @quiet B _ (@checkedObjectDefaults B t b k).
Proof. unfold checkedObjectDefaults. quiet_tac. Qed.
#[local] Hint Resolve quiet_checkedObjectDefaults : quiet.
Lemma quiet_objectForAction c t b k a : @quiet B _ (objectForAction sv w c t b k a).
Proof. unfold objectForAction. quiet_tac. Qed.
Lemma quiet_preparePutAccess c t b k m : @quiet B _ (preparePutAccess sv w c t b k m).
Proof. unfold preparePutAccess. quiet_tac. Qed.
Lemma quiet_objectVersion t b k v : @quiet B _ (objectVersion w t b k v).
Proof. unfold objectVersion. quiet_tac. Qed.
Lemma quiet_preflightQuota t x y : @quiet B _ (preflightQuota sv w t x y).
Proof. unfold preflightQuota. quiet_tac. Qed.
Lemma quiet_preflightBucketQuota t b x y : @quiet B _ (preflightBucketQuota w t b x y).
Proof. unfold preflightBucketQuota. quiet_tac. Qed.
Lemma quiet_object_write_usage t b k v : @quiet B _ (object_write_usage w t b k v).
Proof. unfold object_write_usage. quiet_tac. Qed.
Lemma quiet_checkObjectProtection o : @quiet B _ (checkObjectProtection w o).
Proof. unfold checkObjectProtection. quiet_tac. Qed.
#[local] Hint Resolve quiet_checkObjectProtection : quiet.
Lemma quiet_checkOverwriteProtection t b k v : @quiet B _ (checkOverwriteProtection w t b k v).
Proof. unfold checkOverwriteProtection. quiet_tac. Qed.
Lemma quiet_for_each {X} (f : X -> prog (Sys B) unit) l : (forall x, quiet (f x)) -> quiet (for_each f l).
Proof. intros Hf. induction l as [|x l IH]; [apply quiet_ret|]. by apply quiet_bind. Qed.
End Checks.
#[export] Hint Resolve quiet_repo_GetObject quiet_find_object quiet_admitBucket quiet_requireActiveTenant quiet_authorize quiet_record
  quiet_authorizeObject quiet_authorizePath quiet_authorizeBucket quiet_checkedObjectDefaults quiet_objectForAction
  quiet_preparePutAccess quiet_objectVersion quiet_preflightQuota quiet_preflightBucketQuota quiet_object_write_usage
  quiet_checkObjectProtection quiet_checkOverwriteProtection quiet_for_each : quiet.

(** ** The decision *)

Section Decision.
Context {B : Type} `{Storage B} `{MD5} (sv : FileService) (w : World).

Definition admits (t b : string) (db : RepoDB) : Prop :=
  match fs_spaceBoundary sv with
  | NoBoundary => True
  | TypedNilBoundary => False
  | Boundary f _ => serviceBoundaryError (f db t b) = None
  end.

(** The tenant is not known to be disabled, or the request need not ask. *)
Definition tenant_open (c : Request) (t : string) (db : RepoDB) : Prop :=
  fs_tenantStatus sv = false \/ rq_Verified c t = true \/
  (exists p, rq_Principal c = Some p /\ Kind p = PrincipalSystem) \/
  (forall rec, List.find (is_tenant t) (r_tenants db) = Some rec -> te_Status rec <> "disabled"%string).

(** What the provider answers; without one deletes are refused, but for the system in its
    own tenant, and privileged deletes always. *)
Definition allowed (c : Request) (action : string) (r : Resource) (db : RepoDB) : Prop :=
  match fs_authorizer sv with
  | Some decide => exists d, decide db (request_principal c) action r = Ok d /\ d_Allowed d = true
  | None => action <> ActionAdminDelete /\
            (action = ActionDelete -> fs_deleteFailOpen sv = true \/
               exists p, rq_Principal c = Some p /\ IsSystemDeleteExempt p (r_TenantID r) = true)
  end.

Definition granted (c : Request) (action : string) (r : Resource) (db : RepoDB) : Prop :=
  admits (r_TenantID r) (r_Bucket r) db /\ tenant_open c (r_TenantID r) db /\ allowed c action r db.

(** A successful step of a quiet program, seen from the repository before it. *)
Definition ensures {A} (m : prog (Sys B) A) (F : RepoDB -> A -> Prop) : Prop :=
  forall s s' a, m s = (s', Ok a) -> F (sy_repo s) a.

Lemma ensures_bind {A C} (m : prog (Sys B) A) (k : A -> prog (Sys B) C) (F : RepoDB -> A -> Prop) G :
  quiet m -> ensures m F -> (forall a, ensures (k a) (fun db c => F db a -> G db c)) -> ensures (bind m k) G.
Proof.
  intros Hq Hm Hk s s' c (s1 & a & E1 & E2)%bind_Ok. destruct (Hq s) as [Hr _]. rewrite E1 in Hr. cbn in Hr.
  specialize (Hm _ _ _ E1). specialize (Hk a _ _ _ E2). rewrite Hr in Hk. by apply Hk.
Qed.

Lemma ensures_last {A C} (m : prog (Sys B) A) (k : A -> prog (Sys B) C) G :
  quiet m -> (forall a, ensures (k a) G) -> ensures (bind m k) G.
Proof. intros Hq Hk. apply (ensures_bind m k (fun _ _ => True)); [done|done|]. intros a s s' c E _. by apply (Hk a _ _ _ E). Qed.

Lemma ensures_weaken {A} (m : prog (Sys B) A) (F G : RepoDB -> A -> Prop) :
  (forall db a, F db a -> G db a) -> ensures m F -> ensures m G.
Proof. intros Hw Hm s s' a E. by eapply Hw, Hm. Qed.

Lemma ensures_true {A} (m : prog (Sys B) A) : ensures m (fun _ _ => True).
Proof. done. Qed.

Lemma ensures_ret {A} (a : A) (F : RepoDB -> A -> Prop) : (forall db, F db a) -> ensures (ret a) F.
Proof. by intros Hf s s' x [= <- <-]. Qed.

Lemma map_err_ensures {A} f (m : prog (Sys B) A) F : ensures m F -> ensures (map_err f m) F.
Proof. intros Hm s s' a E%map_err_Ok. by eapply Hm. Qed.

(** What a reading of the repository answers. *)
Lemma call_ensures {A} (m : option error -> time -> prog RepoDB A) (F : RepoDB -> A -> Prop) :
  (forall f t db db' a, m f t db = (db', Ok a) -> F db a) -> ensures (call w m) F.
Proof.
  intros Hm s s' a. unfold call. destruct (m _ _ _) as [db r] eqn:E. intros [= <- ->]. by eapply Hm.
Qed.

Lemma GetTenant_ensures f t db db' rec :
  GetTenant f t db = (db', Ok rec) -> List.find (is_tenant t) (r_tenants db) = rec.
Proof. unfold GetTenant, with_ctx. intros E. prog_inv. congruence. Qed.

Lemma requireActiveTenant_ensures c t : ensures (requireActiveTenant sv w c t) (fun db _ => tenant_open c t db).
Proof.
  assert (ensures (do! rec := map_err (fun e => Wrap "tenant status" [e]) (call w (fun f _ => GetTenant f t)) in
    refuse_if (match rec with Some x => (te_Status x =s "disabled") | None => false end)
      (Wrap "" [Sentinel ErrForbidden; Sentinel ErrTenantDisabled])) (fun db _ => tenant_open c t db)) as Hasked.
  { eapply ensures_bind; [quiet_tac|apply map_err_ensures, call_ensures; intros; by eapply GetTenant_ensures|].
    intros rec s s' a E Hf. prog_inv. right; right; right. intros r Hr. rewrite Hf in Hr. subst rec. rewrite Hr in E. by apply streqb_false in E. }
  unfold requireActiveTenant. destruct (fs_tenantStatus sv) eqn:Es; [|intros ? ? ? _; by left].
  destruct (rq_Verified c t) eqn:Ev; [intros ? ? ? _; right; by left|]. cbn [negb orb].
  destruct (match rq_Principal c with Some p => _ | None => false end) eqn:Ek; [|done].
  intros ? ? ? _. destruct (rq_Principal c) as [p|] eqn:Ep; [|done]. right; right; left. exists p. by apply streqb_true in Ek.
Qed.

Lemma authorize_ensures c a r : ensures (authorize sv w c a r) (fun db _ => granted c a r db).
Proof.
  unfold authorize. eapply (ensures_bind _ _ (fun db _ => admits (r_TenantID r) (r_Bucket r) db)).
  { quiet_tac. }
  { intros s s' [] E. unfold admitBucket, admits in *. apply guard_Ok in E as [_ E]. by destruct (fs_spaceBoundary sv). }
  intros _. eapply (ensures_bind _ _ (fun db _ => tenant_open c (r_TenantID r) db)).
  { quiet_tac. }
  { apply requireActiveTenant_ensures. }
  intros _ s s' u E Ht Hadm. split; [done|]. split; [done|]. unfold allowed. destruct (fs_authorizer sv) as [decide|].
  - apply bind_Ok in E as (s1 & d & E1%map_err_Ok & E2). apply reads_Ok in E1 as [_ E1]. apply refuse_if_Ok in E2 as [_ E2].
    exists d. split; [done|]. by apply negb_false_iff.
  - destruct (a =s ActionAdminDelete) eqn:E1; [done|]. apply streqb_false in E1. split; [done|]. intros ->.
    rewrite streqb_refl in E. cbn [andb] in E. destruct (fs_deleteFailOpen sv); [by left|]. right. cbn [negb] in E.
    destruct (rq_Principal c) as [p|]; [|done]. exists p. split; [done|]. by destruct (IsSystemDeleteExempt p _).
Qed.

Lemma authorizeObject_ensures c a o : ensures (authorizeObject sv w c a o) (fun db _ => granted c a (replayObjectResource o) db).
Proof.
  eapply ensures_bind; [quiet_tac|apply authorize_ensures|]. by intros u s s' v _.
Qed.

Definition path_resource (t b k : string) : Resource := {|
  r_TenantID := t; r_Bucket := b; r_Key := k; r_Kind := objectResourceKind k; r_OwnerID := "" |}.

Lemma authorizePath_ensures c a t b k : ensures (authorizePath sv w c a t b k) (fun db _ => granted c a (path_resource t b k) db).
Proof. eapply ensures_bind; [quiet_tac|apply authorize_ensures|]. by intros u s s' v _. Qed.

(** ** Gates *)

(** A run that changes rows or blobs started from a repository with [P]. *)
Definition gate (P : RepoDB -> Prop) {A} (m : prog (Sys B) A) : Prop :=
  forall s, same_data s (fst (m s)) \/ P (sy_repo s).

Lemma gate_quiet P {A} (m : prog (Sys B) A) : quiet m -> gate P m.
Proof. intros Hq s. left. apply Hq. Qed.

Lemma gate_bind P {A C} (m : prog (Sys B) A) (k : A -> prog (Sys B) C) (F : RepoDB -> A -> Prop) :
  quiet m -> ensures m F -> (forall a, gate (fun db => F db a -> P db) (k a)) -> gate P (bind m k).
Proof.
  intros Hq Hm Hk s. specialize (Hq s). unfold bind. destruct (m s) as [s1 [a|e]] eqn:E; [|by left].
  specialize (Hm _ _ _ E). destruct (Hk a s1) as [Hs|Hp]; [left; by etrans|]. right. destruct Hq as [Hr _]. cbn in Hr.
  rewrite Hr in Hp. by apply Hp.
Qed.

Lemma gate_next P {A C} (m : prog (Sys B) A) (k : A -> prog (Sys B) C) :
  quiet m -> (forall a, gate P (k a)) -> gate P (bind m k).
Proof.
  intros Hq Hk. apply (gate_bind P m k (fun _ _ => True)); [done|done|]. intros a s. destruct (Hk a s); [by left|by right].
Qed.

(** Past the decision anything may happen. *)
Lemma gate_open P {A C} (m : prog (Sys B) A) (k : A -> prog (Sys B) C) :
  quiet m -> ensures m (fun db _ => P db) -> gate P (bind m k).
Proof.
  intros Hq Hm. apply (gate_bind P m k (fun db _ => P db)); [done|done|]. intros a s. by right.
Qed.

Lemma gate_weaken (P Q : RepoDB -> Prop) {A} (m : prog (Sys B) A) : (forall db, P db -> Q db) -> gate P m -> gate Q m.
Proof. intros Hw Hm s. destruct (Hm s); [by left|right; by apply Hw]. Qed.

Lemma gate_cont P {A C} (m : prog (Sys B) A) (k : A -> prog (Sys B) C) : gate P m -> ensures m (fun db _ => P db) -> gate P (bind m k).
Proof.
  intros Hg He s. specialize (Hg s). unfold bind. destruct (m s) as [s1 [a|e]] eqn:E; [|done].
  right. by eapply He.
Qed.

(** ** What the operations read first *)

(** A row of the key that the caller may act on, the live one or one of its versions. *)
Definition on_row (c : Request) (action : string) (p : Object -> bool) (db : RepoDB) : Prop :=
  exists o, o ∈ objects (r_objects db) /\ p o = true /\ granted c action (replayObjectResource o) db.

(** Writing a key: its live row, or the key when there is none. *)
Definition may_write (c : Request) (t b k : string) (db : RepoDB) : Prop :=
  on_row c ActionWrite (live_at t b k) db \/
  (List.find (live_at t b k) (objects (r_objects db)) = None /\ granted c ActionCreate (path_resource t b k) db).

Lemma default_nonempty t : t <> ""%string -> defaultTenant t = t.
Proof. unfold defaultTenant. intros Ht. destruct (t =s "") eqn:E; [by apply streqb_true in E|done]. Qed.

Lemma defaults_tenant t b t' b' : defaults t b = (t', b') -> t' <> ""%string.
Proof.
  unfold defaults. intros [= <- _]. destruct (t =s "") eqn:E; [done|]. by apply streqb_false in E.
Qed.

Lemma get_row_elem {A} (p : A -> bool) l x : get_row p l = Ok x -> x ∈ l /\ p x = true.
Proof.
  unfold get_row. destruct (List.find p l) as [y|] eqn:E; [|done]. intros [= ->].
  apply List.find_some in E as [Hi Hp]. split; [by apply list_elem_of_In|done].
Qed.

Lemma on_objects_Ok {A} (m : prog ObjectsDB A) db db' a : on_objects m db = (db', Ok a) -> exists o, m (r_objects db) = (o, Ok a).
Proof. unfold on_objects. destruct (m (r_objects db)) as [o r]. intros [= <- ->]. by exists o. Qed.

Lemma GetObject_ensures t b k : t <> ""%string ->
  ensures (repo_GetObject w t b k) (fun db o => o ∈ objects (r_objects db) /\ live_at t b k o = true).
Proof.
  intros Ht. apply call_ensures. intros f n db db' o [x E]%on_objects_Ok. unfold GetObject, with_ctx in E. prog_inv.
  rewrite default_nonempty in E by done. by apply get_row_elem.
Qed.

(** A failure of the store is not the repository's own not-found error. *)
Definition honest : Prop := forall n e, w_fault w n = Some e -> errors_Is e RepoErrNotFound = false.

Lemma find_object_ensures missing t b k : honest -> t <> ""%string -> (forall e, missing e = true -> errors_Is e RepoErrNotFound = true) ->
  ensures (find_object w missing t b k) (fun db found =>
    match found with
    | Some o => o ∈ objects (r_objects db) /\ live_at t b k o = true
    | None => List.find (live_at t b k) (objects (r_objects db)) = None
    end).
Proof.
  intros Hh Ht Hm s s' [o|]; unfold find_object; destruct (repo_GetObject w t b k s) as [s1 [o'|e]] eqn:E.
  - intros [= _ <-]. by eapply GetObject_ensures.
  - by destruct (missing e).
  - done.
  - destruct (missing e) eqn:Em; [|done]. intros _. apply Hm in Em. revert E. unfold repo_GetObject, call, on_objects, GetObject, with_ctx.
    rewrite run_guard. destruct (w_fault w (sy_tick s)) as [e'|] eqn:Ef.
    + intros [= _ ->]. apply Hh in Ef. congruence.
    + unfold reads, get_row. rewrite default_nonempty by done. by destruct (List.find _ _).
Qed.

Lemma preparePutAccess_ensures c t b k m : honest -> t <> ""%string ->
  ensures (preparePutAccess sv w c t b k m) (fun db _ => may_write c t b k db).
Proof.
  intros Hh Ht. apply ensures_last; [quiet_tac|]. intros _.
  eapply ensures_bind; [quiet_tac|apply find_object_ensures; [done|done|]|].
  { intros e. unfold repositoryObjectMissing. by intros [_ ?]%andb_true_iff. }
  intros [o|].
  - eapply ensures_bind; [quiet_tac|apply authorizeObject_ensures|]. intros _ s s' a _ Hg [Ho Hl]. left. by exists o.
  - eapply ensures_bind; [quiet_tac|apply authorizePath_ensures|]. intros _ s s' a _ Hg Hn. right. by split.
Qed.

Lemma checkedObjectDefaults_ensures t b k : ensures (@checkedObjectDefaults B t b k) (fun _ tb => tb = defaults t b).
Proof. apply ensures_last; [quiet_tac|]. intros u. by apply ensures_ret. Qed.

(** With the defaults, whose tenant is not empty. *)
Lemma gate_defaults P {A} t b k (f : string * string -> prog (Sys B) A) :
  (fst (defaults t b) <> ""%string -> gate P (f (defaults t b))) -> gate P (bind (checkedObjectDefaults t b k) f).
Proof.
  intros Hf. eapply gate_bind; [quiet_tac|apply checkedObjectDefaults_ensures|]. intros tb s.
  destruct (defaults t b) as [t' b'] eqn:Hd. destruct (Hf (defaults_tenant _ _ _ _ Hd) s) as [Hs|Hp];
    destruct (decide (tb = (t', b'))) as [->|Hn]; try (by left); right; intros E; done.
Qed.

Lemma ensures_defaults {A} t b k (f : string * string -> prog (Sys B) A) G :
  (fst (defaults t b) <> ""%string -> ensures (f (defaults t b)) G) -> ensures (bind (checkedObjectDefaults t b k) f) G.
Proof.
  intros Hf. eapply ensures_bind; [quiet_tac|apply checkedObjectDefaults_ensures|]. intros tb s s' a E ->. revert s s' a E. apply Hf.
  destruct (defaults t b) as [t' b'] eqn:Hd. by apply defaults_tenant in Hd.
Qed.

(** The row that an action was decided on. *)
Definition decided_row (c : Request) (action : string) (p : Object -> bool) (db : RepoDB) (o : Object) : Prop :=
  o ∈ objects (r_objects db) /\ p o = true /\ granted c action (replayObjectResource o) db.

Lemma objectForAction_ensures c t b k a :
  ensures (objectForAction sv w c t b k a) (decided_row c a (live_at (fst (defaults t b)) (snd (defaults t b)) k)).
Proof.
  apply ensures_defaults. intros Ht. destruct (defaults t b) as [t' b']. cbn [fst snd] in *. apply ensures_last; [quiet_tac|]. intros _.
  eapply ensures_bind; [quiet_tac|apply map_err_ensures, GetObject_ensures, Ht|]. intros o. apply ensures_last; [quiet_tac|]. intros _.
  eapply ensures_bind; [quiet_tac|apply authorizeObject_ensures|]. intros u. intros s1 s2 o' E Hg [Ho Hl]. apply ret_Ok in E as [_ <-]. done.
Qed.

Lemma objectVersion_ensures t b k v :
  ensures (objectVersion w t b k v) (fun db o => o ∈ objects (r_objects db) /\ at_key (fst (defaults t b)) (snd (defaults t b)) k o = true).
Proof.
  apply ensures_defaults. intros Ht. destruct (defaults t b) as [t' b']. cbn [fst snd] in *. apply map_err_ensures. destruct (v =s "").
  - eapply ensures_weaken; [|by apply GetObject_ensures]. intros db o [Ho Hl]. split; [done|]. unfold live_at in Hl.
    by apply andb_true_iff in Hl as [? _].
  - apply call_ensures. intros f n db db' o [x E]%on_objects_Ok. unfold GetObjectVersion, with_ctx in E. prog_inv.
    rewrite default_nonempty in E by done. apply get_row_elem in E as [Ho Hv]. split; [done|]. unfold version_at in Hv.
    by apply andb_true_iff in Hv as [? _].
Qed.

Lemma GetObjectByID_ensures id :
  ensures (call w (fun f _ => on_objects (GetObjectByID f id)) : prog (Sys B) Object)
    (fun db o => o ∈ objects (r_objects db) /\ has_object_id id o = true).
Proof.
  apply call_ensures. intros f n db db' o [x E]%on_objects_Ok. unfold GetObjectByID, with_ctx in E. prog_inv. by apply get_row_elem.
Qed.

Definition multipart_target (c : Request) (scope : MultipartScope) (id : string) (db : RepoDB) : Prop :=
  exists u, u ∈ r_uploads db /\ up_ID u = id /\ multipartScopeMatchesUpload (normalizeMultipartScope scope) u = true /\
    granted c ActionWrite (uploadAccessResource u) db.

Lemma quiet_loadMultipartUpload c scope id : @quiet B _ (loadMultipartUpload sv w c scope id).
Proof. unfold loadMultipartUpload. quiet_tac. Qed.

Lemma loadMultipartUpload_ensures c scope id : ensures (loadMultipartUpload sv w c scope id) (fun db _ => multipart_target c scope id db).
Proof.
  unfold loadMultipartUpload. eapply (ensures_bind _ _ (fun db u => u ∈ r_uploads db /\ up_ID u = id)).
  { quiet_tac. }
  { apply map_err_ensures, call_ensures. intros f n db db' u E. unfold GetUpload, with_ctx in E. prog_inv.
    destruct (List.find _ _) as [x|] eqn:Ef; [|done]. injection E as ->. apply List.find_some in Ef as [Hi Hp].
    split; [by apply list_elem_of_In|by apply streqb_true]. }
  intros u. eapply (ensures_bind _ _ (fun _ _ => multipartScopeMatchesUpload (normalizeMultipartScope scope) u = true)).
  { quiet_tac. }
  { intros s s' a E. apply refuse_if_Ok in E as [_ E]. by apply negb_false_iff. }
  intros ?. eapply ensures_bind; [quiet_tac|apply authorize_ensures|]. intros ?. apply ensures_ret. intros db Hg Hs [Hu Hi]. by exists u.
Qed.

(** Reading a blob leaves the backend as it is. *)
Definition reads_only : Prop := forall key o (b : B), fst (st_Get key o b) = b.

(** The operations that write, with what has to have been decided. *)
Inductive mutation (c : Request) (t b k : string) : forall A, prog (Sys B) A -> (RepoDB -> Prop) -> Prop :=
| mu_put r size o : mutation c t b k _ (Put sv w c t b k r size o) (may_write c (fst (defaults t b)) (snd (defaults t b)) k)
| mu_init o : mutation c t b k _ (InitMultipart sv w c t b k o) (may_write c (fst (defaults t b)) (snd (defaults t b)) k)
| mu_part scope id n r size o : mutation c t b k _ (UploadPartFor sv w c scope id n r size o) (multipart_target c scope id)
| mu_delete hard action : mutation c t b k _ (DeleteWithAction sv w c t b k hard action)
    (on_row c action (live_at (fst (defaults t b)) (snd (defaults t b)) k))
| mu_admin hard : mutation c t b k _ (AdminDelete sv w c t b k hard)
    (on_row c (if match fs_authorizer sv with None => fs_deleteFailOpen sv | Some _ => false end then ActionDelete else ActionAdminDelete)
       (live_at (fst (defaults t b)) (snd (defaults t b)) k))
| mu_version v : mutation c t b k _ (DeleteVersion sv w c t b k v) (on_row c ActionDelete (at_key (fst (defaults t b)) (snd (defaults t b)) k))
| mu_marker : mutation c t b k _ (CreateDeleteMarker sv w c t b k) (fun db =>
    on_row c ActionDelete (live_at (fst (defaults t b)) (snd (defaults t b)) k) db \/
    granted c ActionDelete (path_resource (fst (defaults t b)) (snd (defaults t b)) k) db)
| mu_quarantine id sig : mutation c t b k _ (QuarantineObjectByID sv w c id sig) (on_row c ActionDelete (has_object_id id))
| mu_retention v mode until : mutation c t b k _ (SetObjectRetention sv w c t b k v mode until)
    (on_row c ActionWrite (at_key (fst (defaults t b)) (snd (defaults t b)) k))
| mu_hold v reason by_ : mutation c t b k _ (SvcPutLegalHold sv w c t b k v reason by_)
    (on_row c ActionWrite (at_key (fst (defaults t b)) (snd (defaults t b)) k))
| mu_unhold v : mutation c t b k _ (SvcRemoveLegalHold sv w c t b k v)
    (on_row c ActionWrite (at_key (fst (defaults t b)) (snd (defaults t b)) k))
| mu_acl acl : mutation c t b k _ (SetObjectACL sv w c t b k acl) (on_row c ActionManageACL (live_at (fst (defaults t b)) (snd (defaults t b)) k))
| mu_tags tags : mutation c t b k _ (SetTags sv w c t b k tags) (on_row c ActionWrite (live_at (fst (defaults t b)) (snd (defaults t b)) k))
| mu_put_metadata m : mutation c t b k _ (PutMetadata sv w c t b k m) (on_row c ActionWrite (live_at (fst (defaults t b)) (snd (defaults t b)) k))
| mu_patch m : mutation c t b k _ (PatchMetadata sv w c t b k m) (on_row c ActionWrite (live_at (fst (defaults t b)) (snd (defaults t b)) k))
| mu_clear_metadata : mutation c t b k _ (DeleteMetadata sv w c t b k) (on_row c ActionWrite (live_at (fst (defaults t b)) (snd (defaults t b)) k))
| mu_drop_metadata key : mutation c t b k _ (DeleteMetadataKey sv w c t b k key)
    (on_row c ActionWrite (live_at (fst (defaults t b)) (snd (defaults t b)) k))
| mu_tags_by_id id tags : mutation c t b k _ (SetObjectTagsByID sv w c id tags) (on_row c ActionWrite (has_object_id id))
| mu_restore : mutation c t b k _ (SvcRestoreObject sv w c t b k) (on_row c ActionRestore (at_key (fst (defaults t b)) (snd (defaults t b)) k))
| mu_delete_bucket : mutation c t b k _ (SvcDeleteBucket sv w c t b)
    (granted c ActionDelete (path_resource (fst (defaults t b)) (snd (defaults t b)) ""))
| mu_bucket A action (m : string -> string -> prog (Sys B) A) : mutation c t b k A (on_bucket sv w action c t b m)
    (granted c action (path_resource (fst (defaults t b)) (snd (defaults t b)) ""))
| mu_checked A e (m : prog (Sys B) A) P : mutation c t b k A m P -> mutation c t b k A (bind (check e) (fun _ => m)) P
| mu_copy db_ dk v source destination rm rt : reads_only -> mutation c t b k _ (CopyObject sv w c t b k v db_ dk source destination rm rt)
    (may_write c (fst (defaults t db_)) (snd (defaults t db_)) dk)
| mu_part_copy scope id n sb sk v x y source destination :
    mutation c t b k _ (UploadPartCopyFor sv w c scope id n sb sk v x y source destination) (multipart_target c scope id)
| mu_batch_delete keys : mutation c t b k _ (BatchDelete sv w c t b keys)
    (fun db => exists key, key ∈ keys /\ on_row c ActionDelete (live_at (fst (defaults t b)) (snd (defaults t b)) key) db)
| mu_batch_tags keys tags : mutation c t b k _ (BatchSetTags sv w c t b keys tags)
    (fun db => exists key, key ∈ keys /\ on_row c ActionWrite (live_at (fst (defaults t b)) (snd (defaults t b)) key) db)
| mu_access_log line stamp hour entry : mutation c t b k _ (RecordBucketAccessLog sv w line stamp hour c t b entry) (fun db =>
    exists target key, may_write (with_principal (systemPrincipal "aero-vault-system" (fst (defaults t b))) c)
      (fst (defaults (fst (defaults t b)) target)) (snd (defaults (fst (defaults t b)) target)) key db).

Lemma decided_on_row c action p db o : decided_row c action p db o -> on_row c action p db.
Proof. intros Hd. by exists o. Qed.

(** An operation on the live row of a key that reads it and decides. *)
Lemma gate_live {A} c action t b k (f : Object -> prog (Sys B) A) (e : error -> error) :
  t <> ""%string ->
  gate (on_row c action (live_at t b k)) (do! o := map_err e (repo_GetObject w t b k) in run! authorizeObject sv w c action o in f o).
Proof.
  intros Ht. eapply gate_bind; [quiet_tac|by apply map_err_ensures, GetObject_ensures|]. intros o.
  apply gate_open; [quiet_tac|]. eapply ensures_weaken; [|apply authorizeObject_ensures]. intros db ? Hg [Ho Hl]. by exists o.
Qed.

(** An operation on one version of a key. *)
Lemma gate_version {A} c action t b k v (f : Object -> prog (Sys B) A) :
  gate (on_row c action (at_key (fst (defaults t b)) (snd (defaults t b)) k))
    (do! o := objectVersion w t b k v in run! authorizeObject sv w c action o in f o).
Proof.
  eapply gate_bind; [quiet_tac|apply objectVersion_ensures|]. intros o. apply gate_open; [quiet_tac|].
  eapply ensures_weaken; [|apply authorizeObject_ensures]. intros db ? Hg [Ho Hl]. by exists o.
Qed.

(** An operation that starts with objectForAction. *)
Lemma gate_action {A} c action t b k (f : Object -> prog (Sys B) A) :
  gate (on_row c action (live_at (fst (defaults t b)) (snd (defaults t b)) k)) (bind (objectForAction sv w c t b k action) f).
Proof. apply gate_open; [quiet_tac|]. eapply ensures_weaken; [|apply objectForAction_ensures]. intros db o Hd. by eapply decided_on_row. Qed.

(** Defaults do not change again. *)
Lemma defaults_twice t b t' b' : defaults t b = (t', b') -> defaults t' b' = (t', b').
Proof. unfold defaults. intros [= <- <-]. destruct (t =s "") eqn:E1, (b =s "") eqn:E2; cbn; rewrite ?E1, ?E2; done. Qed.

Lemma gate_put c t b k r size o : honest -> gate (may_write c (fst (defaults t b)) (snd (defaults t b)) k) (Put sv w c t b k r size o).
Proof.
  intros Hh. unfold Put. destruct (defaults t b) as [t' b'] eqn:Hd. cbn [fst snd]. pose proof (defaults_tenant _ _ _ _ Hd) as Ht.
  assert (quiet (admitPut sv w c t' b' k r size o)) as Hq by (unfold admitPut; quiet_tac).
  assert (ensures (admitPut sv w c t' b' k r size o) (fun db _ => may_write c t' b' k db)) as He.
  { do 3 (apply ensures_last; [quiet_tac|]; intros ?). eapply ensures_bind; [quiet_tac|by apply preparePutAccess_ensures|].
    by intros ? ? ? ? _ ?. }
  by apply gate_open.
Qed.

Lemma Put_writes c t b k r size o s s' obj : honest -> Put sv w c t b k r size o s = (s', Ok obj) ->
  may_write c (fst (defaults t b)) (snd (defaults t b)) k (sy_repo s).
Proof.
  intros Hh. unfold Put. destruct (defaults t b) as [t' b'] eqn:Hd. cbn [fst snd]. pose proof (defaults_tenant _ _ _ _ Hd) as Ht.
  intros (s1 & a & E & _)%bind_Ok. assert (ensures (admitPut sv w c t' b' k r size o) (fun db _ => may_write c t' b' k db)) as He.
  { do 3 (apply ensures_last; [quiet_tac|]; intros ?). eapply ensures_bind; [quiet_tac|by apply preparePutAccess_ensures|].
    by intros ? ? ? ? _ ?. }
  by eapply He.
Qed.

Lemma gate_init c t b k o : honest -> gate (may_write c (fst (defaults t b)) (snd (defaults t b)) k) (InitMultipart sv w c t b k o).
Proof.
  intros Hh. unfold InitMultipart. destruct (defaults t b) as [t' b'] eqn:Hd. cbn [fst snd]. pose proof (defaults_tenant _ _ _ _ Hd) as Ht.
  do 3 (apply gate_next; [quiet_tac|]; intros ?). apply gate_open; [quiet_tac|]. by apply preparePutAccess_ensures.
Qed.

Lemma gate_admin c t b k hard :
  gate (on_row c (if match fs_authorizer sv with None => fs_deleteFailOpen sv | Some _ => false end then ActionDelete else ActionAdminDelete)
          (live_at (fst (defaults t b)) (snd (defaults t b)) k)) (AdminDelete sv w c t b k hard).
Proof.
  apply gate_defaults. intros Ht. destruct (defaults t b) as [t' b']. cbn [fst snd] in *. apply gate_next; [quiet_tac|]. intros _.
  eapply gate_bind; [quiet_tac|by apply map_err_ensures, GetObject_ensures|]. intros o. apply gate_next; [quiet_tac|]. intros _.
  apply gate_open; [quiet_tac|]. eapply ensures_weaken; [|apply authorizeObject_ensures]. intros db ? Hg [Ho Hl]. by exists o.
Qed.

Lemma gate_marker c t b k : honest ->
  gate (fun db => on_row c ActionDelete (live_at (fst (defaults t b)) (snd (defaults t b)) k) db \/
                  granted c ActionDelete (path_resource (fst (defaults t b)) (snd (defaults t b)) k) db) (CreateDeleteMarker sv w c t b k).
Proof.
  intros Hh. unfold CreateDeleteMarker. destruct (defaults t b) as [t' b'] eqn:Hd. cbn [fst snd]. pose proof (defaults_tenant _ _ _ _ Hd) as Ht.
  do 3 (apply gate_next; [quiet_tac|]; intros ?). eapply gate_bind; [quiet_tac|by apply find_object_ensures|]. intros [o|].
  - apply gate_open; [quiet_tac|]. eapply ensures_weaken; [|apply authorizeObject_ensures]. intros db ? Hg [Ho Hl]. left. by exists o.
  - apply gate_open; [quiet_tac|]. eapply ensures_weaken; [|apply authorizePath_ensures]. intros db ? Hg ?. by right.
Qed.

(** An operation that starts with writable_object. *)
Lemma gate_writable {A} c t b k m (f : string -> string -> Object -> prog (Sys B) A) :
  gate (on_row c ActionWrite (live_at (fst (defaults t b)) (snd (defaults t b)) k))
    (let '(t', b') := defaults t b in bind (writable_object sv w c t' b' k m) (f t' b')).
Proof.
  destruct (defaults t b) as [t' b'] eqn:Hd. apply defaults_twice in Hd. apply gate_open.
  + unfold writable_object. quiet_tac.
  + do 2 (apply ensures_last; [quiet_tac|]; intros ?). pose proof (objectForAction_ensures c t' b' k ActionWrite) as He.
    rewrite Hd in He. eapply ensures_weaken; [|exact He]. intros db o Ho. by eapply decided_on_row.
Qed.

(** An operation on an object found by its id. *)
Lemma gate_id {A} c action id (e : error -> error) (f : Object -> prog (Sys B) A) :
  gate (on_row c action (has_object_id id))
    (do! o := map_err e (call w (fun f _ => on_objects (GetObjectByID f id))) in run! authorizeObject sv w c action o in f o).
Proof.
  eapply gate_bind; [quiet_tac|apply map_err_ensures, GetObjectByID_ensures|]. intros o. apply gate_open; [quiet_tac|].
  eapply ensures_weaken; [|apply authorizeObject_ensures]. intros db ? Hg [Ho Hl]. by exists o.
Qed.

Lemma restorableObject_ensures t b k : t <> ""%string ->
  ensures (restorableObject sv w t b k) (fun db o => o ∈ objects (r_objects db) /\ at_key t b k o = true).
Proof.
  intros Ht. eapply (ensures_bind _ _ (fun db l => l = versions_of (fs_dialect sv) t b k (r_objects db))).
  { quiet_tac. }
  { apply call_ensures. intros f n db db' l [x E]%on_objects_Ok. unfold ListObjectVersions, with_ctx in E. prog_inv.
    rewrite default_nonempty in E by done. by injection E. }
  intros l. destruct (List.find _ l) as [o|] eqn:E; [|by intros ? ? ? ?]. apply ensures_ret. intros db ->.
  apply List.find_some in E as [Hi _]. apply list_elem_of_In, elem_sort_by, elem_filter_b in Hi. exact Hi.
Qed.

Lemma gate_restore c t b k : gate (on_row c ActionRestore (at_key (fst (defaults t b)) (snd (defaults t b)) k)) (SvcRestoreObject sv w c t b k).
Proof.
  apply gate_defaults. intros Ht. destruct (defaults t b) as [t' b']. cbn [fst snd] in *. do 2 (apply gate_next; [quiet_tac|]; intros ?).
  eapply gate_bind; [unfold restorableObject; quiet_tac|by apply restorableObject_ensures|]. intros o. apply gate_open; [quiet_tac|].
  eapply ensures_weaken; [|apply authorizeObject_ensures]. intros db ? Hg [Ho Hl]. by exists o.
Qed.

Lemma gate_bucket {A} c action t b (f : string -> string -> prog (Sys B) A) :
  gate (granted c action (path_resource (fst (defaults t b)) (snd (defaults t b)) ""))
    (let '(t', b') := defaults t b in bind (authorizeBucket sv w c action t' b') (fun _ => f t' b')).
Proof.
  destruct (defaults t b) as [t' b'] eqn:Hd. apply defaults_twice in Hd. apply gate_open; [quiet_tac|].
  unfold authorizeBucket. rewrite Hd. apply authorizePath_ensures.
Qed.

Lemma quiet_store_Get key o : reads_only -> @quiet B _ (store w (fun _ => st_Get key o)).
Proof. intros Hr s. unfold store. specialize (Hr key o (sy_blobs s)). destruct (st_Get _ _ _) as [b r]. cbn in *. by subst. Qed.

Lemma quiet_emit c o t : @quiet B _ (emit c o t).
Proof. by intros s. Qed.

Lemma quiet_open c o opts : reads_only -> quiet (openObjectWithOptions sv w c o opts).
Proof.
  intros Hr. unfold openObjectWithOptions, openStorageWithOptions. quiet_tac; try (apply quiet_store_Get; done); apply quiet_emit.
Qed.

Lemma quiet_GetWithOptions c t b k opts : reads_only -> quiet (GetWithOptions sv w c t b k opts).
Proof. intros Hr. unfold GetWithOptions. quiet_tac; by apply quiet_open. Qed.

Lemma quiet_GetVersion c t b k v opts : reads_only -> quiet (GetVersionWithOptions sv w c t b k v opts).
Proof. intros Hr. unfold GetVersionWithOptions, StatVersionWithOptions. quiet_tac; by apply quiet_open. Qed.

Lemma defaults_first t b b' : fst (defaults t b) = fst (defaults t b').
Proof. done. Qed.

Lemma gate_copy c t b k v db_ dk source destination rm rt : honest -> reads_only ->
  gate (may_write c (fst (defaults t db_)) (snd (defaults t db_)) dk) (CopyObject sv w c t b k v db_ dk source destination rm rt).
Proof.
  intros Hh Hr. unfold CopyObject. destruct (defaults t b) as [t' b'] eqn:Hd. destruct (defaults t' db_) as [t2 db2] eqn:Hd2.
  assert (t' = fst (defaults t db_)) as Et by (rewrite (defaults_first t db_ b), Hd; done).
  assert (fst (defaults t db_) = t' /\ snd (defaults t db_) = db2) as [E1 E2].
  { split; [done|]. unfold defaults in Hd2 |- *. by injection Hd2 as _ <-. }
  rewrite E1, E2. assert (defaults t' db2 = (t', db2)) as E3.
  { unfold defaults in *. injection Hd as <- _. injection Hd2 as _ <-. destruct (t =s "") eqn:E, (db_ =s "") eqn:Eb; cbn; rewrite ?E, ?Eb; done. }
  apply gate_next; [unfold admitCopy; quiet_tac|]. intros _. apply gate_next.
  { destruct (v =s ""); [by apply quiet_GetWithOptions|by apply quiet_GetVersion]. }
  intros [rc src]. pose proof (gate_put c t' db2 dk rc (ob_Size src) (copied_options src rm rt destination) Hh) as Hg. by rewrite E3 in Hg.
Qed.

Lemma gate_part_copy c scope id n sb sk v x y source destination :
  gate (multipart_target c scope id) (UploadPartCopyFor sv w c scope id n sb sk v x y source destination).
Proof.
  unfold UploadPartCopyFor. apply gate_next; [quiet_tac|]. intros _.
  apply gate_open; [apply quiet_loadMultipartUpload|apply loadMultipartUpload_ensures].
Qed.

Lemma gate_or_rest P {A C} (m : prog (Sys B) A) (k : result A -> prog (Sys B) C) :
  gate P m -> (forall r, gate P (k r)) -> gate P (fun s => let '(s1, r) := m s in k r s1).
Proof.
  intros Hm Hk s. specialize (Hm s). destruct (m s) as [s1 r]. cbn in *. destruct Hm as [Hs|Hp]; [|by right].
  destruct (Hk r s1) as [Hs'|Hp]; [left; by etrans|right]. destruct Hs as [Hr _]. by rewrite Hr in Hp.
Qed.

Lemma gate_bind_ret P {A C} (m : prog (Sys B) A) (f : A -> C) : gate P m -> gate P (do! x := m in ret (f x)).
Proof. intros Hm s. specialize (Hm s). unfold bind. by destruct (m s) as [s1 [a|e]]. Qed.

Lemma gate_delete c t b k hard action :
  gate (on_row c action (live_at (fst (defaults t b)) (snd (defaults t b)) k)) (DeleteWithAction sv w c t b k hard action).
Proof. apply gate_defaults. intros Ht. destruct (defaults t b) as [t' b']. by apply gate_live. Qed.

Lemma gate_batch_delete c t b keys : gate (fun db => exists key, key ∈ keys /\
  on_row c ActionDelete (live_at (fst (defaults t b)) (snd (defaults t b)) key) db) (BatchDelete sv w c t b keys).
Proof.
  induction keys as [|key keys IH]; [by intros s; left|]. cbn [BatchDelete]. apply gate_or_rest.
  - eapply gate_weaken; [|apply gate_delete]. intros db Hr. exists key. split; [by left|exact Hr].
  - intros r. apply gate_bind_ret. eapply gate_weaken; [|exact IH]. intros db (x & Hx & Hr). exists x. split; [by right|done].
Qed.

Lemma gate_batch_tags c t b keys tags : gate (fun db => exists key, key ∈ keys /\
  on_row c ActionWrite (live_at (fst (defaults t b)) (snd (defaults t b)) key) db) (BatchSetTags sv w c t b keys tags).
Proof.
  induction keys as [|key keys IH]; [by intros s; left|]. cbn [BatchSetTags]. apply gate_or_rest.
  - eapply gate_weaken; [|apply gate_action]. intros db Hr. exists key. split; [by left|exact Hr].
  - intros r. apply gate_bind_ret. eapply gate_weaken; [|exact IH]. intros db (x & Hx & Hr). exists x. split; [by right|done].
Qed.

(** Past a gate whose decision also holds when it is left. *)
Lemma gate_access_log line stamp hour c t b entry : honest ->
  gate (fun db => exists target key, may_write (with_principal (systemPrincipal "aero-vault-system" (fst (defaults t b))) c)
      (fst (defaults (fst (defaults t b)) target)) (snd (defaults (fst (defaults t b)) target)) key db)
    (RecordBucketAccessLog sv w line stamp hour c t b entry).
Proof.
  intros Hh. unfold RecordBucketAccessLog. destruct (defaults t b) as [t' b'] eqn:Hd. cbn [fst].
  apply gate_next; [quiet_tac|]. intros _. apply gate_next; [unfold repo_op; quiet_tac|]. intros cfg. destruct (_ || _); [by intros s; left|].
  apply gate_next; [quiet_tac|]. intros _. apply gate_next; [quiet_tac|]. intros at_. apply gate_next; [quiet_tac|]. intros id.
  intros s. set (key := accessLogKey _ _ _ _ _). set (c' := with_principal _ c). set (m := Put sv w c' t' _ key _ _ _).
  unfold bind at 1, map_err at 1. pose proof (gate_put c' t' (bc_LoggingTarget cfg) key (reader_of (line t' b' entry at_))
    (len (line t' b' entry at_)) log_options Hh s) as Hg. fold m in Hg.
  destruct (m s) as [s1 [o|e]] eqn:Em; cbn [fst] in *.
  - right. exists (bc_LoggingTarget cfg), key. by apply (Put_writes c' t' (bc_LoggingTarget cfg) key _ _ _ _ _ _ Hh Em).
  - destruct Hg as [?|Hp]; [by left|right]. by exists (bc_LoggingTarget cfg), key.
Qed.

(** *** Completing and aborting an upload claim its idempotency key before they decide *)

(** Nothing but idempotency records changed. *)
Definition same_but_claims (s s' : Sys B) : Prop :=
  set_r_idem [] (sy_repo s') = set_r_idem [] (sy_repo s) /\ sy_blobs s' = sy_blobs s.

#[export] Instance same_but_claims_preorder : PreOrder same_but_claims.
Proof. split; [by intros s|]. intros s s' s'' [H1 H2] [H3 H4]. split; congruence. Qed.

Lemma same_data_claims s s' : same_data s s' -> same_but_claims s s'.
Proof. intros [H1 H2]. split; congruence. Qed.

Definition claiming {A} (m : prog (Sys B) A) : Prop := keeps same_but_claims m.

Lemma quiet_claiming {A} (m : prog (Sys B) A) : quiet m -> claiming m.
Proof. intros Hq s. apply same_data_claims, Hq. Qed.

Lemma claiming_call {A} (m : option error -> time -> prog RepoDB A) :
  (forall f t db, set_r_idem [] (fst (m f t db)) = set_r_idem [] db) -> claiming (call w m).
Proof. intros Hm s. unfold call. specialize (Hm (w_fault w (sy_tick s)) (w_now w (sy_tick s)) (sy_repo s)). destruct (m _ _ _) as [db r]. by split. Qed.

Lemma claiming_bind {A C} (m : prog (Sys B) A) (k : A -> prog (Sys B) C) : claiming m -> (forall a, claiming (k a)) -> claiming (bind m k).
Proof. apply keeps_bind, _. Qed.

Lemma claiming_map_err {A} f (m : prog (Sys B) A) : claiming m -> claiming (map_err f m).
Proof. intros Hm s. specialize (Hm s). unfold map_err. by destruct (m s) as [s' [a|e]]. Qed.

Lemma claiming_claim t key : claiming (call w (fun f now => ClaimIdempotencyKey f now t key "" "")).
Proof.
  apply claiming_call. intros f n db. unfold ClaimIdempotencyKey, with_ctx. cbn zeta. unfold bind, guard. destruct f; [done|].
  by destruct (existsb _ _).
Qed.

Lemma claiming_release {A} scope key e : claiming (@releaseMultipartCompletion B w A scope key e).
Proof.
  apply claiming_bind; [|intros ?; apply keeps_fail, _]. intros s. unfold ignored.
  apply (claiming_call (fun f _ => DeleteIdempotencyKey f (ms_TenantID scope) key)). intros f n db.
  unfold DeleteIdempotencyKey, exec, with_ctx, bind, guard, writes. by destruct f.
Qed.

Lemma claiming_or_release {A} scope key (m : prog (Sys B) A) : claiming m -> claiming (or_release w scope key m).
Proof.
  intros Hm s. specialize (Hm s). unfold or_release. destruct (m s) as [s' [a|e]]; [done|]. etrans; [exact Hm|]. apply claiming_release.
Qed.

(** A run that changes more than claims passed a repository with [P] that differs from the
    first one in claims only. *)
Definition claimed (P : RepoDB -> Prop) (s : Sys B) : Prop :=
  exists db, set_r_idem [] db = set_r_idem [] (sy_repo s) /\ P db.
Definition claims_gate (P : RepoDB -> Prop) {A} (m : prog (Sys B) A) : Prop :=
  forall s, same_but_claims s (fst (m s)) \/ claimed P s.

Lemma claims_next P {A C} (m : prog (Sys B) A) (k : A -> prog (Sys B) C) :
  claiming m -> (forall a, claims_gate P (k a)) -> claims_gate P (bind m k).
Proof.
  intros Hm Hk s. specialize (Hm s). unfold bind. destruct (m s) as [s1 [a|e]]; [|by left]. cbn in Hm.
  destruct (Hk a s1) as [Hs|(db & Hdb & Hp)]; [left; by etrans|right]. exists db. split; [|done]. destruct Hm as [Hr _]. congruence.
Qed.

Lemma claims_open P {A C} (m : prog (Sys B) A) (k : A -> prog (Sys B) C) :
  claiming m -> (forall s s' a, m s = (s', Ok a) -> claimed P s) -> claims_gate P (bind m k).
Proof.
  intros Hm Hp s. specialize (Hm s). unfold bind. destruct (m s) as [s1 [a|e]] eqn:E; [|by left]. right. by eapply Hp.
Qed.

Lemma or_release_Ok {A} scope key (m : prog (Sys B) A) s s' a : or_release w scope key m s = (s', Ok a) -> m s = (s', Ok a).
Proof.
  unfold or_release. destruct (m s) as [s1 [x|e]]; [done|]. unfold releaseMultipartCompletion, bind, ignored. by destruct (call _ _ _).
Qed.

Lemma quiet_replay_action c a : @quiet B _ (authorizeReplayAction sv w c a).
Proof. unfold authorizeReplayAction. quiet_tac. Qed.

Lemma quiet_replay_object c action o opts : @quiet B _ (AuthorizeReplayObject sv w c action o opts).
Proof.
  unfold AuthorizeReplayObject, AuthorizeReplayAdmission, ValidateReplayAdmission, validateReplayObject, boundary_check.
  pose proof quiet_replay_action. quiet_tac.
Qed.

Lemma quiet_complete_replay c rec scope id opts : @quiet B _ (replayMultipartCompletion sv w c rec scope id opts).
Proof.
  unfold replayMultipartCompletion, replayed_object, validateReplayObject, boundary_check. pose proof quiet_replay_object. quiet_tac.
Qed.

Lemma quiet_abort_replay c rec scope id : @quiet B _ (replayMultipartAbort sv w c rec scope id).
Proof. unfold replayMultipartAbort, validateReplayUpload, boundary_check. quiet_tac. Qed.

Lemma normalize_twice scope : normalizeMultipartScope (normalizeMultipartScope scope) = normalizeMultipartScope scope.
Proof. unfold normalizeMultipartScope. destruct scope as [t b k]. cbn. destruct (t =s "") eqn:E; [done|]. by rewrite E. Qed.

Lemma load_claimed c scope id s s' u :
  loadMultipartUpload sv w c (normalizeMultipartScope scope) id s = (s', Ok u) -> claimed (multipart_target c scope id) s.
Proof.
  intros E%loadMultipartUpload_ensures. exists (sy_repo s). split; [done|]. unfold multipart_target in *. by rewrite normalize_twice in E.
Qed.

Lemma claims_complete c scope id manifest opts : claims_gate (multipart_target c scope id) (completeMultipart sv w c scope id manifest opts).
Proof.
  unfold completeMultipart. cbn zeta. apply claims_next; [apply claiming_map_err, claiming_claim|]. intros [rec []].
  - unfold executeMultipartCompletion. apply claims_open.
    + apply claiming_or_release, quiet_claiming. pose proof quiet_loadMultipartUpload. unfold multipartCompletionParts.
      quiet_tac; try apply quiet_call; unfold ListParts; try reader_tac; auto.
    + intros s s' a E%or_release_Ok. apply bind_Ok in E as (s1 & u & E & _). by eapply load_claimed.
  - intros s. left. apply same_data_claims, quiet_complete_replay.
Qed.

Lemma claims_abort c scope id : claims_gate (multipart_target c scope id) (AbortMultipartFor sv w c scope id).
Proof.
  unfold AbortMultipartFor. cbn zeta. apply claims_next; [apply claiming_map_err, claiming_claim|]. intros [rec []].
  - unfold executeMultipartAbort. apply claims_open.
    + apply claiming_or_release, quiet_claiming, quiet_loadMultipartUpload.
    + intros s s' a E%or_release_Ok. by eapply load_claimed.
  - intros s. left. apply same_data_claims, quiet_abort_replay.
Qed.

(** C2: each operation of [mutation] -- every write of the file service to objects, versions,
    holds, tags, metadata, buckets, copies, batches, uploads and the access log -- changes no
    row and no blob, not even by failing half way, unless the caller was allowed to: the
    resource it names, or the row it reads for it, was admitted by the space boundary, its
    tenant was open, and the provider granted the action; without a provider a delete needs
    the opt-out or the tenant's own system identity, and a privileged delete is refused.  A
    batch needs it for one of its keys, and the access log is written as the system.
    Completing and aborting an upload first claim their idempotency key; beyond such claims
    they change nothing without that.  Not covered: SetQuota, which decides nothing about its
    caller.  A failure of the repository is not taken for its own not-found error, and for a
    copy reading a blob does not change the backend. *)
Theorem mutations_are_authorized c t b k s : honest ->
  (forall A (m : prog (Sys B) A) P, mutation c t b k A m P -> same_data s (fst (m s)) \/ P (sy_repo s)) /\
  (forall scope id manifest opts,
     same_but_claims s (fst (completeMultipart sv w c scope id manifest opts s)) \/ claimed (multipart_target c scope id) s) /\
  (forall scope id, same_but_claims s (fst (AbortMultipartFor sv w c scope id s)) \/ claimed (multipart_target c scope id) s).
Proof.
  intros Hh. split; [|split; [intros; apply claims_complete|intros; apply claims_abort]].
  intros A m P Hm. revert s. change (gate P m). induction Hm.
  - by apply gate_put.
  - by apply gate_init.
  - apply gate_open; [apply quiet_loadMultipartUpload|apply loadMultipartUpload_ensures].
  - apply gate_defaults. intros Ht. destruct (defaults t b) as [t' b']. by apply gate_live.
  - apply gate_admin.
  - unfold DeleteVersion. destruct (defaults t b) as [t' b'] eqn:Hd. apply defaults_twice in Hd.
    pose proof (fun f => @gate_version unit c ActionDelete t' b' k v f) as Hg. rewrite Hd in Hg. apply Hg.
  - by apply gate_marker.
  - apply gate_id.
  - do 3 (apply gate_next; [quiet_tac|]; intros ?). apply gate_version.
  - apply gate_version.
  - apply gate_version.
  - apply gate_defaults. intros Ht. destruct (defaults t b) as [t' b'] eqn:Hd. apply defaults_twice in Hd.
    apply gate_next; [quiet_tac|]. intros ?. pose proof (fun f => @gate_action unit c ActionManageACL t' b' k f) as Hg.
    rewrite Hd in Hg. apply Hg.
  - apply gate_action.
  - apply gate_writable.
  - apply gate_writable.
  - apply gate_writable.
  - apply gate_writable.
  - apply gate_id.
  - apply gate_restore.
  - apply gate_bucket.
  - apply gate_bucket.
  - apply gate_next; [quiet_tac|]. intros _. exact IHHm.
  - by apply gate_copy.
  - apply gate_part_copy.
  - apply gate_batch_delete.
  - apply gate_batch_tags.
  - by apply gate_access_log.
Qed.
End Decision.

Lemma honest_calm : honest calm.
Proof. done. Qed.

(** Without a provider, and with deletes closed, the delete of "k" changes nothing. *)
Lemma mutations_are_authorized_witness :
  let m := DeleteWithAction closed_service calm ann "acme" "b" "k" true ActionDelete in
  honest calm /\ snd (m one_object) = Err no_provider /\
  (same_data one_object (fst (m one_object)) \/
   on_row closed_service ann ActionDelete (live_at "acme" "b" "k") (sy_repo one_object)).
Proof.
  split; [apply honest_calm|]. split; [by vm_compute|].
  exact (proj1 (mutations_are_authorized closed_service calm ann "acme" "b" "k" one_object honest_calm) _ _ _
    (mu_delete closed_service calm ann "acme" "b" "k" true ActionDelete)).
Defined.
