(* ===== verification/ServiceProtection.v ===== *)
(** * Protected objects stay

    An object under retention or legal hold is not removed by a hard delete, by the
    deletion of its version, nor overwritten by a Put on an unversioned bucket: the run
    fails and every row and blob is what it was ([protected_objects_stay]).  A run is
    followed by a Hoare triple with one invariant, what rows, blobs and bucket are. *)

From Stdlib Require Import Ascii Lia Bool ZArith.
From stdpp Require Import base gmap strings list numbers option pretty.
From S2P Require Import Prelude GoStrings GoPath Json JsonProps Base64 GoTime GoErrors Sql JsonStruct Policy Spaces Envelope Storage LocalStorage Access AccessStore Outbox Objects ObjectsInvariant ObjectsProps EventPayload EventLog Repo ServiceMultipart Service ServiceWrite ServiceDelete ServiceRead ServiceBuckets ServiceSample ServiceGate.

Open Scope Z_scope.

Section Triple.
Context {B : Type} (I : Sys B -> Prop).

Context (I_data : forall s s', same_data s s' -> I s -> I s').

Lemma triple_quiet {A} (m : prog (Sys B) A) Q :
  quiet m -> (forall s s' a, I s -> m s = (s', Ok a) -> Q a) -> triple I m Q.
Proof.
  intros Hq Hm s Hi. split; [by eapply I_data, Hi|]. destruct (m s) as [s' [a|e]] eqn:E; [|done]. by eapply Hm.
Qed.

Lemma triple_any {A} (m : prog (Sys B) A) : quiet m -> triple I m (fun _ => True).
Proof. intros Hq. by apply triple_quiet. Qed.

(** A step whose answer does not matter. *)
Lemma triple_skip {A C} (m : prog (Sys B) A) (k : A -> prog (Sys B) C) R :
  quiet m -> (forall a, triple I (k a) R) -> triple I (bind m k) R.
Proof. intros Hq Hk. eapply triple_bind; [by apply triple_any|]. intros a _. apply Hk. Qed.

(** A check that cannot pass. *)
Lemma triple_stop {A C} (m : prog (Sys B) A) (k : A -> prog (Sys B) C) R :
  quiet m -> (forall s s' a, I s -> m s = (s', Ok a) -> False) -> triple I (bind m k) R.
Proof. intros Hq Hm. eapply triple_bind; [by apply (triple_quiet _ (fun _ => False))|]. done. Qed.
End Triple.

Section Protection.
Context {B : Type} `{Storage B} `{MD5} (sv : FileService) (w : World).

(** Under retention at every time the world reads, held by its metadata, or by a row. *)
Definition protected (db : ObjectsDB) (o : Object) : Prop :=
  (exists t, ob_LockedUntil o = Some t /\ forall n, w_now w n < t) \/
  meta_get (ob_Metadata o) legal_hold_key = "ON"%string \/
  (exists h, h ∈ legal_holds db /\ lh_object_id h = ob_ID o).

Lemma checkObjectProtection_stops (o : Object) (s s' : Sys B) u :
  protected (r_objects (sy_repo s)) o -> checkObjectProtection w o s = (s', Ok u) -> False.
Proof.
  intros Hp E. unfold checkObjectProtection in E.
  apply bind_Ok in E as (s1 & now & E1 & E). assert (sy_repo s1 = sy_repo s /\ (forall t, ob_LockedUntil o = Some t -> now = w_now w (sy_tick s))) as [Hr Hn].
  { destruct (ob_LockedUntil o) as [t|]; [injection E1 as <- <-; split; [done|by intros]|injection E1 as <- <-; by split]. }
  apply bind_Ok in E as (s2 & [] & E2 & E). apply refuse_if_Ok in E2 as [-> E2].
  apply bind_Ok in E as (s3 & [] & E3 & E). apply refuse_if_Ok in E3 as [-> E3].
  apply bind_Ok in E as (s4 & h & E4 & E). apply refuse_if_Ok in E as [_ ->].
  destruct Hp as [(t & Ht & Hw)|[Hm|(h & Hh & Hid)]].
  - rewrite Ht in E2. rewrite (Hn t Ht) in E2. unfold After in E2. specialize (Hw (sy_tick s)). apply Z.ltb_ge in E2. lia.
  - apply streqb_false in E3. done.
  - unfold call in E4. destruct (on_objects _ _) as [db r] eqn:E5. injection E4 as _ ->. apply on_objects_Ok in E5 as [x E5].
    unfold ObjectHasLegalHold, with_ctx in E5. prog_inv. injection E5 as E5. rewrite Hr in E5.
    assert (h ∈ List.filter (fun x => lh_object_id x =? ob_ID o) (legal_holds (r_objects (sy_repo s)))) as Hin.
    { apply elem_filter_b. split; [done|]. by apply Z.eqb_eq. }
    apply Z.ltb_ge in E5. destruct (List.filter _ _); [by apply not_elem_of_nil in Hin|cbn in E5; lia].
Qed.

(** The bucket has no versions, in its row or without one. *)
Definition unversioned (t b : string) (db : RepoDB) : Prop :=
  forall x, x ∈ r_buckets db -> is_bucket t b x = true -> bc_Versioning x = false.

Context (t b k : string) (R : RepoDB) (blobs : B).
Abbreviation O := (r_objects R).

(** All tables but that of the buckets, and the blobs. *)
Definition tables (db : RepoDB) : RepoDB := set_r_buckets [] db.
Definition intact (s : Sys B) : Prop := tables (sy_repo s) = tables R /\ sy_blobs s = blobs.
Definition intact_bucket (s : Sys B) : Prop := intact s /\ unversioned t b (sy_repo s).

Lemma intact_objects s : intact s -> r_objects (sy_repo s) = O.
Proof. intros [Ht _]. by apply (f_equal r_objects) in Ht. Qed.

Lemma intact_data s s' : same_data s s' -> intact s -> intact s'.
Proof. intros [Hr Hb] [Ho Hs]. split; congruence. Qed.
Lemma intact_bucket_data s s' : same_data s s' -> intact_bucket s -> intact_bucket s'.
Proof. intros Hs [Hi Hu]. split; [by eapply intact_data|]. by destruct Hs as [-> _]. Qed.

(** One protected row stops a walk over rows. *)
Lemma for_each_stops (l : list Object) o (s s' : Sys B) u :
  o ∈ l -> protected (r_objects (sy_repo s)) o -> for_each (checkObjectProtection w) l s = (s', Ok u) -> False.
Proof.
  revert s. induction l as [|x l IH]; intros s Ho Hp E; [by apply not_elem_of_nil in Ho|].
  cbn [for_each] in E. apply bind_Ok in E as (s1 & [] & E1 & E). apply elem_of_cons in Ho as [->|Ho].
  - by eapply checkObjectProtection_stops.
  - apply (IH s1); [done| |done]. assert (quiet (checkObjectProtection w x : prog (Sys B) unit)) as Hq by auto with quiet.
    specialize (Hq s). rewrite E1 in Hq. destruct Hq as [Hr _]. cbn in Hr. by rewrite Hr.
Qed.

Context (Ht : t <> ""%string).

Lemma versions_stop o hold s s' versions :
  hold ∈ objects O -> at_key t b k hold = true -> protected O hold ->
  intact s -> versionsForHardDelete sv w t b k o s = (s', Ok versions) -> False.
Proof.
  intros Hin Hk Hp Ho%intact_objects E. unfold versionsForHardDelete in E.
  apply bind_Ok in E as (s1 & l & E1 & E). apply bind_Ok in E as (s2 & [] & E2 & _).
  assert (quiet (call w (fun f _ => on_objects (ListObjectVersions (fs_dialect sv) f t b k)) : prog (Sys B) _)) as Hc by quiet_tac.
  specialize (Hc s). rewrite E1 in Hc. destruct Hc as [Hr _]. cbn in Hr.
  assert (l = versions_of (fs_dialect sv) t b k O) as ->.
  { unfold call in E1. destruct (on_objects _ _) as [db r] eqn:E3. injection E1 as _ ->. apply on_objects_Ok in E3 as [x E3].
    unfold ListObjectVersions, with_ctx in E3. prog_inv. injection E3 as <-. rewrite Ho. by rewrite default_nonempty. }
  assert (hold ∈ versions_of (fs_dialect sv) t b k O) as Hv by (by apply elem_sort_by, elem_filter_b).
  eapply (for_each_stops _ hold s1 s2 tt); [|by rewrite Hr, Ho|exact E2]. destruct (versions_of _ _ _ _ _); [by apply not_elem_of_nil in Hv|done].
Qed.

Lemma hard_delete_stops c o hold refs :
  hold ∈ objects O -> at_key t b k hold = true -> protected O hold ->
  triple intact (do! versions := versionsForHardDelete sv w t b k o in hardDeleteObjectWithVersions sv w c o t b k versions refs) (fun _ => False).
Proof.
  intros Hin Hk Hp. apply (triple_stop intact intact_data); [unfold versionsForHardDelete; quiet_tac|]. intros s s' versions. by apply (versions_stop o hold).
Qed.

Lemma delete_version_stops c v row :
  List.find (version_at t b k v) (objects O) = Some row -> v <> ""%string -> protected O row -> defaults t b = (t, b) ->
  triple intact (DeleteVersion sv w c t b k v) (fun _ => False).
Proof.
  intros Hf Hv Hp Hd. unfold DeleteVersion. rewrite Hd.
  apply (triple_bind intact _ _ (fun o => o = row)).
  - apply (triple_quiet intact intact_data); [auto with quiet|]. intros s s' o Ho%intact_objects E. unfold objectVersion in E.
    apply bind_Ok in E as (s1 & tb & E1 & E). assert (tb = (t, b) /\ sy_repo s1 = sy_repo s) as [-> Hr].
    { unfold checkedObjectDefaults in E1. rewrite Hd in E1. apply bind_Ok in E1 as (s2 & u & E1 & E2).
      unfold check in E1. apply guard_Ok in E1 as [-> _]. by apply ret_Ok in E2 as [-> <-]. }
    apply map_err_Ok in E. destruct (v =s "") eqn:Ev; [by apply streqb_true in Ev|]. unfold call in E.
    destruct (on_objects _ _) as [db r] eqn:E3. injection E as _ ->. apply on_objects_Ok in E3 as [x E3].
    unfold GetObjectVersion, with_ctx in E3. prog_inv. rewrite Hr, Ho, default_nonempty in E3 by done. unfold get_row in E3.
    rewrite Hf in E3. by injection E3 as <-.
  - intros o ->. apply (triple_skip intact intact_data); [auto with quiet|]. intros ?.
    apply (triple_stop intact intact_data); [auto with quiet|]. intros s s' u Ho%intact_objects E.
    eapply checkObjectProtection_stops; [|exact E]. by rewrite Ho.
Qed.

Lemma triple_create : triple intact_bucket (call w (fun f _ => CreateBucket f t b) : prog (Sys B) unit) (fun _ => True).
Proof.
  intros s [[Ho Hb] Hu]. unfold call, CreateBucket, exec. destruct (w_fault w (sy_tick s)); (split; [|by destruct (snd _)]); [done|].
  cbn. rewrite default_nonempty by done. unfold insert_bucket. destruct (existsb _ _) eqn:E; [done|].
  split; [split; [exact Ho|done]|]. intros x [Hx|Hx]%elem_of_app Hx'; [by apply (Hu x)|]. apply list_elem_of_singleton in Hx as ->. done.
Qed.

Lemma triple_config (f : error -> error) :
  triple intact_bucket (map_err f (call w (fun f _ => GetBucketConfig f t b) : prog (Sys B) BucketConfig)) (fun cfg => bc_Versioning cfg = false).
Proof.
  apply triple_map_err, (triple_quiet intact_bucket intact_bucket_data); [quiet_tac|].
  intros s s' cfg [[Ho Hb] Hu] E. unfold call in E. destruct (GetBucketConfig _ _ _ _) as [db r] eqn:E1. injection E as _ ->.
  unfold GetBucketConfig, with_ctx in E1. prog_inv. injection E1 as <-. rewrite default_nonempty by done.
  destruct (List.find _ _) as [x|] eqn:Ef; [|done]. apply List.find_some in Ef as [Hi Hp]. by apply (Hu x); [apply list_elem_of_In|].
Qed.

Lemma overwrite_stops cur :
  honest w -> List.find (live_at t b k) (objects O) = Some cur -> protected O cur ->
  forall s s' u, intact_bucket s -> checkOverwriteProtection w t b k false s = (s', Ok u) -> False.
Proof.
  intros Hh Hf Hp s s' u [Ho%intact_objects _] E. unfold checkOverwriteProtection in E. apply bind_Ok in E as (s1 & found & E1 & E).
  assert (quiet (find_object w repositoryObjectMissing t b k : prog (Sys B) _)) as Hq by auto with quiet.
  specialize (Hq s). rewrite E1 in Hq. destruct Hq as [Hr _]. cbn in Hr.
  pose proof (find_object_ensures (B := B) w repositoryObjectMissing t b k Hh Ht) as He.
  assert (forall e, repositoryObjectMissing e = true -> errors_Is e RepoErrNotFound = true) as Hm.
  { intros e. unfold repositoryObjectMissing. by intros [_ ?]%andb_true_iff. }
  destruct found as [o|].
  - assert (o = cur) as ->; [|by eapply checkObjectProtection_stops; [rewrite Hr, Ho|exact E]].
    unfold find_object, repo_GetObject in E1. destruct (call _ _ _) as [s2 [x|e]] eqn:E2; [|by destruct (repositoryObjectMissing e)].
    injection E1 as _ ->. unfold call in E2. destruct (on_objects _ _) as [db r] eqn:E3. injection E2 as _ ->.
    apply on_objects_Ok in E3 as [y E3]. unfold GetObject, with_ctx in E3. prog_inv. rewrite Ho, default_nonempty in E3 by done.
    unfold get_row in E3. rewrite Hf in E3. by injection E3 as <-.
  - specialize (He Hm s s1 None E1). cbn in He. by rewrite Ho, Hf in He.
Qed.

Lemma put_stops c r size o cur :
  honest w -> List.find (live_at t b k) (objects O) = Some cur -> protected O cur -> defaults t b = (t, b) ->
  triple intact_bucket (Put sv w c t b k r size o) (fun _ => False).
Proof.
  intros Hh Hf Hp Hd. unfold Put. rewrite Hd. pose proof intact_bucket_data as Hdata.
  apply (triple_skip intact_bucket Hdata); [unfold admitPut; quiet_tac|]. intros [[o1 r1] size1].
  eapply (triple_bind _ _ _ (fun _ => False)); [|done]. unfold reservePut.
  apply (triple_skip intact_bucket Hdata); [auto with quiet|]. intros ?.
  eapply triple_bind; [apply triple_map_err, triple_create|]. intros ? _.
  apply (triple_skip intact_bucket Hdata); [auto with quiet|]. intros ?.
  eapply triple_bind; [apply triple_config|]. intros cfg Hv.
  apply (triple_skip intact_bucket Hdata); [auto with quiet|]. intros o2. rewrite Hv.
  apply (triple_stop intact_bucket Hdata); [auto with quiet|]. by eapply overwrite_stops.
Qed.

Lemma hard_delete_run c action hold :
  honest w -> hold ∈ objects O -> at_key t b k hold = true -> protected O hold -> defaults t b = (t, b) ->
  triple intact (DeleteWithAction sv w c t b k true action) (fun _ => False).
Proof.
  intros Hh Hin Hk Hp Hd. unfold DeleteWithAction, checkedObjectDefaults. rewrite Hd. pose proof intact_data as Hdata.
  apply (triple_bind intact _ _ (fun tb => tb = (t, b))).
  { apply (triple_quiet intact Hdata); [quiet_tac|]. intros s s' tb _ E. apply bind_Ok in E as (s1 & u & _ & E). by apply ret_Ok in E as [_ <-]. }
  intros tb ->. apply (triple_skip intact Hdata); [quiet_tac|]. intros o.
  do 2 (apply (triple_skip intact Hdata); [auto with quiet|]; intros ?). by eapply hard_delete_stops.
Qed.

Lemma admin_delete_run c hold :
  hold ∈ objects O -> at_key t b k hold = true -> protected O hold -> defaults t b = (t, b) ->
  triple intact (AdminDelete sv w c t b k true) (fun _ => False).
Proof.
  intros Hin Hk Hp Hd. unfold AdminDelete, checkedObjectDefaults. rewrite Hd. pose proof intact_data as Hdata.
  apply (triple_bind intact _ _ (fun tb => tb = (t, b))).
  { apply (triple_quiet intact Hdata); [quiet_tac|]. intros s s' tb _ E. apply bind_Ok in E as (s1 & u & _ & E). by apply ret_Ok in E as [_ <-]. }
  intros tb ->. apply (triple_skip intact Hdata); [auto with quiet|]. intros ?.
  apply (triple_skip intact Hdata); [quiet_tac|]. intros o. do 2 (apply (triple_skip intact Hdata); [auto with quiet|]; intros ?).
  apply (triple_stop intact Hdata); [unfold versionsForHardDelete; quiet_tac|]. intros s s' versions. by apply (versions_stop o hold).
Qed.

(** The runs that would remove or overwrite a row or its blob: a hard delete of a key with
    such a version, also the privileged one, the deletion of such a version, a Put over such
    a live object of a bucket without versions. *)
Inductive destroys (o : Object) : forall A, prog (Sys B) A -> Prop :=
| ds_hard c action : o ∈ objects O -> at_key t b k o = true -> destroys o _ (DeleteWithAction sv w c t b k true action)
| ds_admin c : o ∈ objects O -> at_key t b k o = true -> destroys o _ (AdminDelete sv w c t b k true)
| ds_version c v : v <> ""%string -> List.find (version_at t b k v) (objects O) = Some o -> destroys o _ (DeleteVersion sv w c t b k v)
| ds_put c r size opts : unversioned t b R -> List.find (live_at t b k) (objects O) = Some o -> destroys o _ (Put sv w c t b k r size opts).
End Protection.

(** C8: while an object is under retention or legal hold, a hard delete of its key, the
    administrator's too, the deletion of its version and, in a bucket without versions, a Put
    over it fail and leave every table and every blob as they were, whoever asks; only the
    bucket's row may have been made by the Put.  Retention is held against every reading of
    the clock in the run, and a failure of the repository is not taken for its own not-found
    error. *)
Theorem protected_objects_stay {B : Type} `{Storage B} `{MD5} sv w t b k o A (m : prog (Sys B) A) s :
  honest w -> defaults t b = (t, b) -> protected w (r_objects (sy_repo s)) o ->
  destroys sv w t b k (sy_repo s) o A m ->
  exists s' e, m s = (s', Err e) /\ tables (sy_repo s') = tables (sy_repo s) /\ sy_blobs s' = sy_blobs s.
Proof.
  intros Hh Hd Hp Hm. pose proof (defaults_tenant _ _ _ _ Hd) as Ht.
  enough (intact (sy_repo s) (sy_blobs s) (fst (m s)) /\ match snd (m s) with Ok _ => False | Err _ => True end) as [[Hr Hb] Hf].
  { destruct (m s) as [s' [a|e]]; [done|]. by exists s', e. }
  set (R := sy_repo s) in *. set (bl := sy_blobs s).
  assert (intact R bl s) as Hi by done. destruct Hm.
  - by eapply hard_delete_run.
  - by eapply admin_delete_run.
  - by eapply delete_version_stops.
  - assert (intact_bucket t b R bl s) as Hib by done.
    destruct (put_stops sv w t b k R bl Ht c r size opts o Hh ltac:(done) Hp Hd s Hib) as [[? ?] ?]. done.
Qed.

(** "k" under legal hold. *)
Definition held_object : Sys (gmap string string) :=
  run_on one_object (call calm (fun f now => on_objects (PutLegalHold dialectSQLite f now {|
    l_ID := 0; l_ObjectID := 1; l_VersionID := ""; l_TenantID := "acme"; l_Bucket := ""; l_ObjectKey := "";
    l_HoldReason := "case"; l_CreatedAt := ""; l_CreatedBy := "ann" |}))).

Lemma protected_objects_stay_witness :
  exists s' e, put_text "k" "two" held_object = (s', Err e) /\ tables (sy_repo s') = tables (sy_repo held_object) /\
    sy_blobs s' = sy_blobs held_object.
Proof.
  set (o := default (sample_object "" "") (List.find (live_at "acme" "b" "k") (objects (r_objects (sy_repo held_object))))).
  apply (protected_objects_stay open_service calm "acme" "b" "k" o _ (put_text "k" "two") held_object).
  - done.
  - done.
  - right. right. eexists. split; [vm_compute; left|by vm_compute].
  - apply ds_put; [|by vm_compute]. intros x Hx%list_elem_of_In. vm_compute in Hx. by destruct Hx as [<-|[]].
Defined.
