(* ===== verification/ServiceProps.v ===== *)
(** * What a Put writes, a Get reads

    [put_then_get]: the body of a successful Put is what a later Get of the key returns, on
    any backend with the laws of [StorageLaws], however many other objects are written or
    removed in between.  [metadata_accepted] describes the metadata that the service takes. *)

From Stdlib Require Import Ascii Lia Bool ZArith.
From stdpp Require Import base gmap strings list numbers option pretty relations.
From S2P Require Import Prelude GoStrings GoPath Json JsonProps Base64 GoTime GoErrors Sql JsonStruct Policy Spaces Envelope Storage LocalStorage Access AccessStore Outbox Objects ObjectsInvariant ObjectsProps EventPayload EventLog Repo Service ServiceWrite ServiceDelete ServiceRead ServiceSample ServiceGate.

Open Scope Z_scope.

(** ** Metadata *)

Definition entry_ok (e : string * string) : Prop :=
  reserved_key (fst e) = false /\ len (fst e) <= MaxMetadataKeyLen /\ len (snd e) <= MaxMetadataValueLen.
Definition entry_size (e : string * string) : Z := len (fst e) + len (snd e).

Definition sizes (l : list (string * string)) : Z := foldr (fun e n => entry_size e + n) 0 l.
Lemma sizes_nonneg l : 0 <= sizes l.
Proof.
  induction l as [|e l IH]; [done|]. cbn [sizes foldr]. fold (sizes l). unfold entry_size.
  pose proof (len_nonneg (fst e)). pose proof (len_nonneg (snd e)). lia.
Qed.

Lemma sizes_perm l k : l ≡ₚ k -> sizes l = sizes k.
Proof.
  induction 1 as [|e l k _ IH|e e' l|l k j _ IH1 _ IH2]; [done| | |congruence]; cbn [sizes foldr].
  - fold (sizes l) (sizes k). lia.
  - fold (sizes l). lia.
Qed.

Lemma check_metadata_None total l :
  0 <= total ->
  check_metadata total l = None <->
  Forall entry_ok l /\ (l = [] \/ total + sizes l <= MaxMetadataSize).
Proof.
  revert total. induction l as [|[k v] l IH]; intros total Ht; [cbn; split; [by split; [|left]|done]|].
  cbn [check_metadata sizes foldr]. fold (sizes l). pose proof (len_nonneg k). pose proof (len_nonneg v). unfold entry_ok at 1, entry_size at 1. cbn [fst snd].
  assert (0 <= sizes l) as Hs.
  { apply sizes_nonneg. }
  destruct (reserved_key k) eqn:Er; [split; [done|]; intros [Hf _]; apply list.Forall_cons in Hf as [[? _] _]; cbn [fst snd] in *; congruence|].
  destruct (Z.ltb_spec MaxMetadataKeyLen (len k)); [split; [done|]; intros [Hf _]; apply list.Forall_cons in Hf as [(_ & ? & _) _]; cbn [fst snd] in *; lia|].
  destruct (Z.ltb_spec MaxMetadataValueLen (len v)); [split; [done|]; intros [Hf _]; apply list.Forall_cons in Hf as [(_ & _ & ?) _]; cbn [fst snd] in *; lia|].
  destruct (Z.ltb_spec MaxMetadataSize (total + len k + len v)); [split; [done|]; intros [_ [?|?]]; [done|lia]|].
  rewrite IH by lia. rewrite list.Forall_cons. split.
  - intros [Hf Hd]. split; [done|]. right. destruct Hd as [->|Hd]; [cbn; lia|lia].
  - intros [[_ Hf] [Hd|Hd]]; [done|]. split; [done|]. right. lia.
Qed.

Lemma check_metadata_accepts (m : kv) l :
  l ≡ₚ map_to_list m -> check_metadata 0 l = None <->
  (forall k v, m !! k = Some v -> entry_ok (k, v)) /\ sizes (map_to_list m) <= MaxMetadataSize.
Proof.
  intros Hl. rewrite check_metadata_None by done. rewrite Z.add_0_l.
  assert (sizes l = sizes (map_to_list m)) as <-.
  { by apply sizes_perm. }
  assert (Forall entry_ok l <-> (forall k v, m !! k = Some v -> entry_ok (k, v))) as ->.
  { rewrite Hl, list.Forall_forall. split.
    - intros Hf k v Hk. apply Hf. by apply elem_of_map_to_list.
    - intros Hf [k v] Hk. apply Hf. by apply elem_of_map_to_list. }
  split; [intros [Hf [->|Hs]]; by split|intros [Hf Hs]; split; [done|by right]].
Qed.

(** Metadata is accepted exactly when every key is outside of the reserved namespace
    and short enough, every value is short enough, and all of it fits in 64 KiB; the
    order in which the map is walked does not matter. *)
Theorem metadata_accepted (m : kv) l :
  l ≡ₚ map_to_list m ->
  (check_metadata 0 l = None <-> validateMetadata m = None) /\
  (validateMetadata m = None <->
   (forall k v, m !! k = Some v -> entry_ok (k, v)) /\ sizes (map_to_list m) <= MaxMetadataSize).
Proof. intros Hp. unfold validateMetadata. by rewrite !check_metadata_accepts. Qed.

(** ** Put, then Get *)

Definition scrub_key : string := "_aero_scrub_status".

(** No mark that a Get refuses or asks a key for. *)
Definition unmarked (m : kv) : Prop := m !! scrub_key = None /\ m !! ssecKeyMD5Meta = None.

Lemma unmarked_insert k v m : k <> scrub_key -> k <> ssecKeyMD5Meta -> unmarked m -> unmarked (<[k := v]> m).
Proof. intros H1 H2 [? ?]. split; by rewrite lookup_insert_ne. Qed.
Lemma unmarked_delete k m : unmarked m -> unmarked (delete k m).
Proof. intros [? ?]. split; apply lookup_delete_None; by right. Qed.

Create HintDb meta.
#[export] Hint Resolve unmarked_insert unmarked_delete : meta.
#[export] Hint Extern 1 (_ <> _) => discriminate : meta.

Lemma unmarked_owner m owner : unmarked m -> unmarked (metadataWithOwner m owner).
Proof. intros. unfold metadataWithOwner. destruct (_ =s _); auto with meta. Qed.
Lemma unmarked_generation info m : unmarked m -> unmarked (with_generation info m).
Proof. intros. unfold with_generation. destruct (_ =s _); auto with meta. Qed.
#[export] Hint Resolve unmarked_owner unmarked_generation : meta.

Lemma accepted_unmarked m : validateMetadata m = None -> unmarked m.
Proof.
  intros Hm. destruct (proj1 (check_metadata_accepts m (map_to_list m) (reflexivity _)) Hm) as [He _].
  assert (forall k, reserved_key k = true -> m !! k = None) as Hr.
  { intros k Hk. destruct (m !! k) as [v|] eqn:E; [|done]. destruct (He k v E) as [Hf _]. cbn [fst] in Hf. congruence. }
  split; by apply Hr.
Qed.

(** Options without a customer key. *)
Record plain (o : PutOptions) : Prop := {
  pl_meta : unmarked (po_Metadata o); pl_key : po_SSECustomerKey o = ""%string; pl_md5 : po_SSECustomerKeyMD5 o = ""%string
}.

Lemma plain_metadata m o : unmarked m -> plain o -> plain (set_metadata m o).
Proof. by intros Hm []. Qed.
#[export] Hint Resolve plain_metadata : meta.

Section RoundTrip.
Context {B : Type} `{StorageLaws B} `{MD5} (sv : FileService) (w : World).

Lemma check_Ok e (s s' : Sys B) u : check e s = (s', Ok u) -> s' = s /\ e = None.
Proof. apply (guard_Ok (fun _ => e)). Qed.
Lemma lift_Ok {A} (r : result A) (s s' : Sys B) a : lift r s = (s', Ok a) -> s' = s /\ r = Ok a.
Proof. intros [<- Hr]%(reads_Ok (fun _ => r)). by split. Qed.

Lemma prepare_metadata c t b k m (s s' : Sys B) m' : preparePutAccess sv w c t b k m s = (s', Ok m') -> exists owner, m' = metadataWithOwner m owner.
Proof.
  unfold preparePutAccess. intros (s1 & u & _ & E)%bind_Ok. apply bind_Ok in E as (s2 & e & _ & E).
  destruct e; apply bind_Ok in E as (s3 & u' & _ & E); apply ret_Ok in E as [_ <-]; by eexists.
Qed.

Lemma headers_plain o o' : plain o -> storeContentHeaders o = Ok o' -> plain o'.
Proof.
  intros Hp. unfold storeContentHeaders. destruct (ValidateContentEncoding _); [done|]. intros [= <-]. pose proof (pl_meta _ Hp).
  apply plain_metadata; [|done]. destruct (po_ContentEncoding o =s ""), (po_ContentDisposition o =s ""); auto with meta.
Qed.

Lemma ssec_plain (o o' : PutOptions) : plain o -> prepareSSECWrite o = Ok o' -> plain o'.
Proof.
  intros Hp. unfold prepareSSECWrite. rewrite (pl_key _ Hp), (pl_md5 _ Hp). cbn [String.eqb negb]. pose proof (pl_meta _ Hp).
  destruct (_ || _); intros [= <-]; [|done]. apply plain_metadata; [|done]. unfold metadataWithoutEncryption, metadataWithoutManagedSSE.
  auto 6 with meta.
Qed.

Lemma managed_plain o b o' : plain o -> prepareServerSideEncryption o b = Ok o' -> plain o'.
Proof.
  intros Hp. unfold prepareServerSideEncryption. rewrite (pl_key _ Hp). cbn [String.eqb negb]. pose proof (pl_meta _ Hp) as Hm.
  assert (unmarked (metadataWithoutManagedSSE (po_Metadata o))) as Hb by (unfold metadataWithoutManagedSSE; auto with meta).
  destruct (requested_encryption o b) as [[a key]|]; [|done]. cbn [res_bind].
  destruct (a =s ""); [intros [= <-]; auto with meta|]. destruct (negb (managed_algorithm a)); [done|].
  destruct (_ && _); [done|]. destruct (negb (st_SupportsSSE _ _)); [done|]. intros [= <-]. destruct Hp as [_ Hk Hd].
  split; cbn; [|done|done]. destruct (key =s ""); auto with meta.
Qed.

Lemma md5_plain o : plain o -> plain (storeContentMD5 (with_default_class sv o)).
Proof.
  intros []. unfold storeContentMD5, with_default_class.
  destruct (po_StorageClass o =s ""), (po_ContentMD5 _ =s ""); (split; cbn; [|done|done]); auto with meta.
Qed.

Lemma admitPut_plain c t b k r size o s s' o1 r1 size1 :
  po_SSECustomerKey o = ""%string -> admitPut sv w c t b k r size o s = (s', Ok (o1, r1, size1)) ->
  plain o1 /\ r1 = r /\ validateKey k = None.
Proof.
  intros Hk E. unfold admitPut in E.
  apply bind_Ok in E as (s1 & u1 & [-> Hkey]%check_Ok & E). apply bind_Ok in E as (s2 & u2 & [-> Hm]%check_Ok & E).
  apply bind_Ok in E as (s3 & o2 & [-> Ho]%lift_Ok & E). apply bind_Ok in E as (s4 & m & [owner ->]%prepare_metadata & E).
  apply bind_Ok in E as (s5 & u5 & [-> _]%check_Ok & E). apply bind_Ok in E as (s6 & o3 & [-> Hs]%lift_Ok & E).
  apply bind_Ok in E as (s7 & rs & [-> Hr]%lift_Ok & E). apply ret_Ok in E as [-> E]. injection E as <- <- <-.
  assert (po_SSECustomerKey o2 = "" /\ po_SSECustomerKeyMD5 o2 = po_SSECustomerKeyMD5 o)%string as [Hk2 Hd2].
  { unfold storeContentHeaders in Ho. destruct (ValidateContentEncoding _); [done|]. by injection Ho as <-. }
  assert (po_SSECustomerKeyMD5 o = ""%string) as Hd.
  { unfold prepareSSECWrite in Hs. cbn in Hs. rewrite Hk2, Hd2 in Hs. by destruct (po_SSECustomerKeyMD5 o =s "") eqn:Eq; [apply streqb_true in Eq|]. }
  assert (plain o) as Hp by (split; [by apply accepted_unmarked|done|done]).
  apply headers_plain in Ho; [|done]. split_and!; [|unfold materializeUnknownSize in Hr; destruct (0 <=? size); [by injection Hr as <-|destruct (rd_err r); [done|by injection Hr as <-]]|done].
  eapply ssec_plain; [|exact Hs]. apply plain_metadata; [|done]. apply unmarked_owner, Ho.
Qed.

End RoundTrip.

(** *** The row of a key, while the rest of a Put runs *)

(** The key's live row names the blob and has the metadata of this object. *)
Definition current (obj : Object) (db : ObjectsDB) : Prop :=
  exists row, List.find (live_at (ob_TenantID obj) (ob_Bucket obj) (ob_Key obj)) (objects db) = Some row /\
    ob_StorageKey row = ob_StorageKey obj /\ ob_Metadata row = ob_Metadata obj.

(** What is returned of it. *)
Definition describes (o obj : Object) : Prop :=
  ob_StorageKey o = ob_StorageKey obj /\ ob_Size o = ob_Size obj /\ ob_Metadata o = ob_Metadata obj /\ ob_ContentType o = ob_ContentType obj.

Lemma find_update_where {A} (p : A -> bool) (f : A -> A) l x :
  List.find p l = Some x -> p (f x) = true -> List.find p (update_where p f l) = Some (f x).
Proof.
  induction l as [|y l IH]; [done|]. cbn [List.find update_where map]. destruct (p y) eqn:E; [by intros [= ->] ->|].
  rewrite E. apply IH.
Qed.

Lemma find_updated_away {A} (p : A -> bool) (f : A -> A) l : (forall x, p (f x) = false) -> List.find p (update_where p f l) = None.
Proof.
  intros Hf. induction l as [|y l IH]; [done|]. cbn [List.find update_where map]. destruct (p y) eqn:E; [by rewrite Hf|by rewrite E].
Qed.

Lemma live_at_same t b k o x :
  live_at t b k o = true -> object_key x = object_key o -> ob_DeletedAt x = ob_DeletedAt o -> live_at t b k x = true.
Proof. intros [Ho Hl]%live_at_true Hx Hd. apply live_at_true. split; [congruence|]. unfold is_live in *. by rewrite Hd. Qed.

Lemma UpsertObject_current d f now fresh arg db db' o :
  ob_TenantID arg <> ""%string -> UpsertObject d f now fresh arg db = (db', Ok o) -> current arg db' /\ describes o arg.
Proof.
  intros Ht E. unfold UpsertObject, with_ctx in E. cbn [with_defaults ob_TenantID ob_Bucket ob_Key] in E. rewrite default_nonempty in E by done.
  apply bind_Ok in E as (db1 & u & [-> _]%guard_Ok & E). apply bind_Ok in E as (db1 & live & [-> E1]%reads_Ok & E). injection E1 as <-.
  destruct (List.find _ (objects db)) as [x|] eqn:Ef.
  - apply bind_Ok in E as (db1 & n & E1 & E). apply ret_Ok in E as [-> <-]. injection E1 as <- _. split; [|done].
    exists (upsert_object d now (with_defaults fresh arg) x). split; [|done]. apply find_update_where; [done|]. apply List.find_some in Ef as [_ Hx]. by eapply live_at_same.
  - apply bind_Ok in E as (db1 & row & E1 & E). apply ret_Ok in E as [-> <-]. unfold insert_object in E1.
    destruct (MaxInt64 <=? _); [done|]. destruct (_ && _) eqn:Eu; [done|]. injection E1 as <- <-. split; [|done].
    exists (new_object d (obj_seq db + 1) now (with_defaults fresh arg)). split; [|done]. cbn [objects]. rewrite find_snoc, Ef.
    assert (live_at (ob_TenantID arg) (ob_Bucket arg) (ob_Key arg) (new_object d (obj_seq db + 1) now (with_defaults fresh arg)) = true) as ->; [|done].
    apply live_at_true. split; [|done]. unfold object_key. cbn. by rewrite default_nonempty.
Qed.

Lemma InsertObjectVersion_current d f now fresh arg db db' o :
  ob_TenantID arg <> ""%string -> InsertObjectVersion d f now fresh arg db = (db', Ok o) -> current arg db' /\ describes o arg.
Proof.
  intros Ht E. unfold InsertObjectVersion, with_ctx in E. cbn [with_defaults ob_TenantID ob_Bucket ob_Key] in E. rewrite default_nonempty in E by done.
  apply bind_Ok in E as (db1 & u & [-> _]%guard_Ok & E). apply in_tx_Ok, bind_Ok in E as (db1 & n & E1 & E). injection E1 as <- _.
  apply bind_Ok in E as (db1 & row & E1 & E). apply ret_Ok in E as [-> <-]. unfold insert_object in E1.
  destruct (MaxInt64 <=? _); [done|]. destruct (_ && _) eqn:Eu; [done|]. injection E1 as <- <-. split; [|done].
  exists (new_object d (obj_seq db + 1) now (with_defaults fresh arg)). split; [|done]. cbn [objects set_objects]. rewrite find_snoc, find_updated_away by (intros x; unfold live_at; apply andb_false_r).
  assert (live_at (ob_TenantID arg) (ob_Bucket arg) (ob_Key arg) (new_object d (obj_seq db + 1) now (with_defaults fresh arg)) = true) as ->; [|done].
  apply live_at_true. split; [|done]. unfold object_key. cbn. by rewrite default_nonempty.
Qed.

Section Rest.
Context {B : Type} `{StorageLaws B} `{MD5} (sv : FileService) (w : World).

(** The objects and the blobs stay. *)
Definition rows_kept (s s' : Sys B) : Prop :=
  objects (r_objects (sy_repo s')) = objects (r_objects (sy_repo s)) /\ sy_blobs s' = sy_blobs s.
Definition blobs_kept (s s' : Sys B) : Prop := sy_blobs s' = sy_blobs s.

#[local] Instance rows_kept_preorder : PreOrder rows_kept.
Proof. split; [by intros s|]. intros s s' s'' [? ?] [? ?]. split; congruence. Qed.
#[local] Instance blobs_kept_preorder : PreOrder blobs_kept.
Proof. split; [by intros s|]. intros s s' s'' ? ?. unfold blobs_kept in *. congruence. Qed.

Lemma rows_call {A} (m : option error -> time -> prog RepoDB A) :
  (forall f t db, objects (r_objects (fst (m f t db))) = objects (r_objects db)) -> keeps rows_kept (call w m).
Proof.
  intros Hm s. unfold call. specialize (Hm (w_fault w (sy_tick s)) (w_now w (sy_tick s)) (sy_repo s)).
  by destruct (m _ _ _) as [db r].
Qed.
Lemma blobs_call {A} (m : option error -> time -> prog RepoDB A) : keeps blobs_kept (call w m).
Proof. intros s. unfold call. by destruct (m _ _ _) as [db r]. Qed.
Lemma quiet_blobs {A} (m : prog (Sys B) A) : quiet m -> keeps blobs_kept m.
Proof. intros Hq s. by destruct (Hq s). Qed.
Lemma quiet_rows {A} (m : prog (Sys B) A) : quiet m -> keeps rows_kept m.
Proof. intros Hq s. destruct (Hq s) as [Hr Hb]. split; [by rewrite Hr|done]. Qed.

Lemma write_current v obj (s s' : Sys B) o :
  ob_TenantID obj <> ""%string -> write_object sv w v obj s = (s', Ok o) ->
  current obj (r_objects (sy_repo s')) /\ describes o obj /\ sy_blobs s' = sy_blobs s.
Proof.
  intros Ht E. unfold write_object, call in E. destruct (on_objects _ _) as [db r] eqn:E1. injection E as <- ->.
  unfold on_objects in E1. destruct v.
  - destruct (InsertObjectVersion _ _ _ _ _ _) as [odb r] eqn:E2. injection E1 as <- ->.
    by destruct (InsertObjectVersion_current _ _ _ _ _ _ _ _ Ht E2).
  - destruct (UpsertObject _ _ _ _ _ _) as [odb r] eqn:E2. injection E1 as <- ->.
    by destruct (UpsertObject_current _ _ _ _ _ _ _ _ Ht E2).
Qed.

Lemma acl_rows t b k acl : keeps rows_kept (call w (fun f _ => RepoSetObjectACL f t b k acl) : prog (Sys B) unit).
Proof.
  apply rows_call. intros f ? db. unfold RepoSetObjectACL, with_ctx, bind, guard. destruct f; [done|].
  by destruct (List.find _ _).
Qed.
Lemma hold_rows l : keeps rows_kept (call w (fun f now => on_objects (PutLegalHold (fs_dialect sv) f now l)) : prog (Sys B) unit).
Proof.
  apply rows_call. intros f now db. unfold on_objects, PutLegalHold, with_ctx, bind, guard. destruct f; [done|].
  unfold refuse_if. destruct (_ && _); [done|]. unfold ret. repeat case_match; by simplify_eq/=.
Qed.
(** An accountant of the usage leaves the objects alone. *)
Definition accounts_apart : Prop := forall a m db, fs_usageAccountant sv = Some a ->
  objects (r_objects (fst (ua_Apply a m db))) = objects (r_objects db).

Lemma usage_rows t x y f : accounts_apart ->
  keeps rows_kept (map_err f (addTenantUsage sv w t UsageObjectWrite x y) : prog (Sys B) TenantQuota).
Proof.
  intros Ha. apply keeps_map_err. unfold addTenantUsage. destruct (fs_usageAccountant sv) as [a|] eqn:Ea.
  { apply keeps_bind; [apply _|by intros s|intros now]. apply rows_call. intros ? ? db. by apply Ha. }
  apply keeps_bind; [apply _|by intros s|intros f2].
  apply rows_call. intros g now db. unfold AddTenantUsage, exec, with_ctx, bind, guard, writes. destruct g; [done|].
  unfold GetTenantQuota, with_ctx, bind, guard. by destruct f2.
Qed.

Lemma writePutObject_current c obj cfg u o (s s' : Sys B) saved :
  accounts_apart -> ob_TenantID obj <> ""%string -> writePutObject sv w c obj cfg u o s = (s', Ok saved) ->
  current obj (r_objects (sy_repo s')) /\ describes saved obj /\ sy_blobs s' = sy_blobs s.
Proof.
  intros Ha Ht E. unfold writePutObject, save_object in E.
  apply bind_Ok in E as (s1 & o1 & E1 & E). apply bind_Ok in E1 as (s2 & o2 & E2%map_err_Ok & E1).
  destruct (write_current _ _ _ _ _ Ht E2) as (Hc & Hd & Hb).
  assert (rows_kept s2 s' /\ saved = o2) as [[Hr Hb'] ->].
  { apply bind_Ok in E1 as (s3 & u3 & E3 & E1). apply bind_Ok in E1 as (s4 & u4 & E4 & E1). apply ret_Ok in E1 as [-> ->].
    apply bind_Ok in E as (s5 & u5 & E5 & E). apply bind_Ok in E as (s6 & u6 & E6 & E). apply ret_Ok in E as [-> ->]. split; [|done].
    transitivity s3; [|transitivity s4; [|transitivity s5]].
    - match type of E3 with ?m _ = _ => assert (keeps rows_kept m) as Hk end; [|specialize (Hk s2); by rewrite E3 in Hk].
      destruct (po_ACL o =s ""); [apply keeps_ret, _|apply keeps_map_err, acl_rows].
    - match type of E4 with ?m _ = _ => assert (keeps rows_kept m) as Hk end; [|specialize (Hk s3); by rewrite E4 in Hk].
      destruct (po_LegalHold o); [apply keeps_map_err, hold_rows|apply keeps_ret, _].
    - match type of E5 with ?m _ = _ => assert (keeps rows_kept m) as Hk end; [|specialize (Hk s4); by rewrite E5 in Hk].
      unfold accountObjectUsage. destruct (deltas _ _). apply keeps_bind; [apply _|by apply usage_rows|intros ?; apply keeps_ret, _].
    - unfold emit in E6. by injection E6 as <-. }
  unfold current in *. rewrite Hr. split_and!; [done|done|congruence].
Qed.

(** What the backend may be asked to keep with the body of this object. *)
Definition asked (o : Object) (so : StoreOptions) : Prop :=
  so_ContentType so = ob_ContentType o /\ so_SSECustomerKey so = ""%string /\
  delete GenerationMetadataKey (so_Metadata so) = delete GenerationMetadataKey (ob_Metadata o).

Lemma generation_stays info m : delete GenerationMetadataKey (with_generation info m) = delete GenerationMetadataKey m.
Proof. unfold with_generation. destruct (_ =s _); [done|]. apply delete_insert_eq. Qed.

Lemma storeBody_Ok sk r size o (s s' : Sys B) info :
  st_valid (sy_blobs s) ->
  storeBody w sk r size o s = (s', Ok info) ->
  (forall n, st_storable (w_entropy w n) sk r (store_options o)) -> po_SSECustomerKey o = ""%string ->
  forall b', rtc (elsewhere sk) (sy_blobs s') b' ->
  stored {| go_SSECustomerKey := ""; go_SSECustomerKeyMD5 := po_SSECustomerKeyMD5 o |} sk b' = Some (rd_data r) /\
  oi_Size info = len (rd_data r).
Proof.
  intros Hv E Hst Hk b' Hb. unfold storeBody in E. apply bind_Ok in E as (s1 & ex & [-> _]%lift_Ok & E).
  apply bind_Ok in E as (s2 & [i n] & E1 & E). unfold store in E1. destruct (st_Put _ _ _ _ _ _) as [b1 r1] eqn:Ep. injection E1 as <- ->.
  apply bind_Ok in E as (s3 & u & E1 & E). unfold validateStoredSize in E1. destruct (_ && _); [apply ret_Ok in E1 as [-> _]|].
  2: { apply bind_Ok in E1 as (? & ? & _ & ?). done. }
  destruct (digest_ok _ _); [|by apply bind_Ok in E as (? & ? & _ & ?)]. apply ret_Ok in E as [-> <-]. cbn [sy_blobs set_blobs] in Hb.
  assert (customer_key_ok (store_options o)) as Hc by (by left).
  destruct (put_stores _ _ _ _ _ _ _ _ _ Hv (Hst _) Hc Ep) as (_ & -> & -> & _). split; [|done].
  pose proof (put_survives _ _ _ _ _ _ _ _ _ _ Hv (Hst _) Hc Ep Hb) as Hp. unfold reading, store_options in Hp. cbn in Hp. by rewrite Hk in Hp.
Qed.

Lemma reservePut_plain t b k size o (s s' : Sys B) o' cfg u :
  plain o -> reservePut sv w t b k size o s = (s', Ok (o', cfg, u)) ->
  plain o' /\ po_ContentType o' = po_ContentType o /\ sy_blobs s' = sy_blobs s.
Proof.
  intros Hp E. assert (keeps blobs_kept (reservePut sv w t b k size o)) as Hb.
  { unfold reservePut. repeat first [ apply keeps_bind; [apply _| |intros ?] | apply keeps_map_err | apply blobs_call | by apply quiet_blobs; quiet_tac]. }
  specialize (Hb s). rewrite E in Hb. unfold reservePut in E.
  apply bind_Ok in E as (s1 & u1 & _ & E). apply bind_Ok in E as (s2 & u2 & _ & E). apply bind_Ok in E as (s3 & u3 & _ & E).
  apply bind_Ok in E as (s4 & b0 & _ & E). apply bind_Ok in E as (s5 & o1 & [-> Ho]%lift_Ok & E).
  apply bind_Ok in E as (s6 & u6 & _ & E). apply bind_Ok in E as (s7 & u7 & _ & E). destruct (deltas _ _).
  apply bind_Ok in E as (s8 & u8 & _ & E). apply bind_Ok in E as (s9 & u9 & _ & E). apply ret_Ok in E as [-> E]. injection E as <- <- <-.
  split; [by eapply managed_plain|]. split; [|done].
  unfold prepareServerSideEncryption in Ho. rewrite (pl_key _ Hp) in Ho. cbn [String.eqb negb] in Ho.
  destruct (requested_encryption o b0) as [[a key]|]; [|done]. cbn [res_bind] in Ho.
  by repeat (case_match; simplify_eq/=).
Qed.

Lemma unmarked_sound x : unmarked (ob_Metadata x) -> checkCorrupt x = None.
Proof. intros [Hc _]. unfold checkCorrupt, meta_get. change "_aero_scrub_status"%string with scrub_key. by rewrite Hc. Qed.
Lemma unmarked_open m : unmarked m -> validateSSECRead m noReadOptions = None.
Proof. intros [_ Hm]. unfold validateSSECRead, meta_get. by rewrite Hm. Qed.
Lemma unmarked_plainly m : unmarked m -> objectUsesSSEC m = false.
Proof. intros [_ Hm]. unfold objectUsesSSEC, meta_get. rewrite Hm. apply andb_false_r. Qed.

(** The bytes of a read, whole; its error, if any, is that they do not have the digest the
    row records. *)
Lemma verified_bytes x data :
  rd_data (wrapReadVerification sv x data) = data /\
  forall e, rd_err (wrapReadVerification sv x data) = Some e -> fs_readVerify sv = true /\
    exists d, objectVerificationMD5 x = Some d /\ EqualFold (hex_EncodeToString (md5_Sum data)) d = false.
Proof.
  unfold wrapReadVerification. destruct (objectVerificationMD5 x) as [d|]; [|done]. destruct (fs_readVerify sv); [|done].
  split; [done|]. cbn [rd_err]. unfold verifier_Read, verifyLocked, took, newETagVerifier. cbn.
  destruct (EqualFold _ d) eqn:E; [done|]. intros e _. split; [done|]. by exists d.
Qed.

(** A Get of a row without marks returns the blob that it names. *)
Lemma get_serves w' c t b k x data (s : Sys B) :
  validateKey k = None -> fst (defaults t b) <> ""%string ->
  w_fault w' (sy_tick s) = None ->
  List.find (live_at (fst (defaults t b)) (snd (defaults t b)) k) (objects (r_objects (sy_repo s))) = Some x ->
  unmarked (ob_Metadata x) ->
  (forall s3, same_data s s3 -> snd (authorizeObject sv w' c ActionRead x s3) = Ok tt) ->
  stored noGetOptions (ob_StorageKey x) (sy_blobs s) = Some data ->
  exists s3, Get sv w' c t b k s = (s3, Ok (wrapReadVerification sv x data, x)).
Proof.
  intros Hkey Ht Hf Hx Hm Hauth Hst. destruct (defaults t b) as [t' b'] eqn:Hd. cbn [fst snd] in Ht, Hx.
  unfold Get, GetWithOptions, checkedObjectDefaults, check. unfold bind at 1. unfold bind at 1. unfold guard at 1. rewrite Hkey, Hd.
  unfold ret at 1, bind at 1, map_err at 1, repo_GetObject, call, on_objects, GetObject, with_ctx. rewrite Hf, run_guard, default_nonempty by done.
  unfold reads at 1, get_row. rewrite Hx. set (s3 := set_repo _ s).
  assert (same_data s s3) as Hs by (split; [by destruct s as [? []]|done]).
  unfold bind at 1, guard at 1. rewrite (unmarked_sound x Hm). unfold bind at 1.
  specialize (Hauth s3 Hs). pose proof (quiet_authorizeObject sv w' c ActionRead x s3) as [_ Hb].
  destruct (authorizeObject sv w' c ActionRead x s3) as [s4 r4]. cbn in Hauth, Hb. subst r4.
  unfold bind at 1, guard. rewrite (unmarked_open _ Hm).
  unfold openObjectWithOptions, openStorageWithOptions. rewrite (unmarked_plainly _ Hm).
  unfold stored in Hst. unfold bind, map_err, store. rewrite Hb. destruct (st_Get _ _ _) as [b1 [[d i]|e]]; [|done]. cbn in Hst. injection Hst as ->.
  eexists. unfold emit, ret. cbn [fst]. done.
Qed.

(** C3: what Put stores is what Get returns.  A body without a customer key that Put
    accepted, on a valid backend that can store it, is read back, byte by byte, by every
    reader who may read the object, as long as the row of its key stays, only blobs with
    other paths are written or removed, and the repository answers the Get; and the object's
    size is the length of the body.  With read verification the stream may end in an error
    after the bytes, only when their MD5 is not the one its row records.  A usage accountant,
    if there is one, leaves the objects alone. *)
Theorem put_then_get w' c c' t b k r size opts s s1 o s2 :
  accounts_apart -> po_SSECustomerKey opts = ""%string ->
  st_valid (sy_blobs s) ->
  (forall n so, asked o so -> st_storable (w_entropy w n) (ob_StorageKey o) r so) ->
  Put sv w c t b k r size opts s = (s1, Ok o) ->
  (* later *)
  let at_this := live_at (fst (defaults t b)) (snd (defaults t b)) k in
  List.find at_this (objects (r_objects (sy_repo s2))) = List.find at_this (objects (r_objects (sy_repo s1))) ->
  rtc (elsewhere (ob_StorageKey o)) (sy_blobs s1) (sy_blobs s2) ->
  w_fault w' (sy_tick s2) = None ->
  (forall x s3, same_data s2 s3 -> List.find at_this (objects (r_objects (sy_repo s3))) = Some x ->
     snd (authorizeObject sv w' c' ActionRead x s3) = Ok tt) ->
  ob_Size o = len (rd_data r) /\
  exists s3 rd o', Get sv w' c' t b k s2 = (s3, Ok (rd, o')) /\ rd_data rd = rd_data r /\
    forall e, rd_err rd = Some e -> fs_readVerify sv = true /\
      exists d, objectVerificationMD5 o' = Some d /\ EqualFold (hex_EncodeToString (md5_Sum (rd_data r))) d = false.
Proof.
  intros Ha Hk Hval Hst E at_this Hrow Hblob Hf Hread. unfold Put in E.
  destruct (defaults t b) as [t' b'] eqn:Hd. pose proof (defaults_tenant _ _ _ _ Hd) as Ht.
  apply bind_Ok in E as (sa & [[o1 r1] size1] & E1 & E). destruct (admitPut_plain _ _ _ _ _ _ _ _ _ _ _ _ _ _ Hk E1) as (Hp1 & -> & Hkey).
  assert (quiet (admitPut sv w c t' b' k r size opts)) as Hq by (unfold admitPut; quiet_tac).
  destruct (Hq s) as [_ Hba]. rewrite E1 in Hba. cbn in Hba.
  apply bind_Ok in E as (sb & [[o2 cfg] u] & E2 & E). destruct (reservePut_plain _ _ _ _ _ _ _ _ _ _ Hp1 E2) as (Hp2 & Hct & Hbb).
  pose proof (md5_plain sv o2 Hp2) as Hp3. set (o3 := storeContentMD5 (with_default_class sv o2)) in *.
  apply bind_Ok in E as (sc & vid & E3 & E). injection E3 as <- <-. set (sk := version_key _ _ _) in *.
  apply bind_Ok in E as (sd & info & E4 & E). apply bind_Ok in E as (se & now & E5 & E).
  assert (sy_blobs se = sy_blobs sd) as Hbe by (by destruct (0 <? _); injection E5 as <- _).
  set (obj := buildPutObject _ _ _ _ _ _ _ _ _) in E.
  assert (ob_TenantID obj <> ""%string) as Hto by exact Ht.
  destruct (writePutObject_current c obj cfg u o3 se s1 o Ha Hto E) as ((row & Hfind & Hsk & Hmeta) & (Dsk & Dsize & Dmeta & Dtype) & Hb1).
  change (ob_StorageKey o = sk) in Dsk. change (ob_StorageKey row = sk) in Hsk. change (ob_Size o = oi_Size info) in Dsize.
  assert (oi_Size info = len (rd_data r) /\ stored noGetOptions sk (sy_blobs s2) = Some (rd_data r)) as [Hsize Hstored].
  { edestruct storeBody_Ok as [Hs Hz]; [|exact E4| | | |].
    - cbn. congruence.
    - intros n. rewrite <- Dsk. apply Hst. split; [done|]. split; [apply Hp3|]. rewrite Dmeta. symmetry. apply generation_stays.
    - apply Hp3.
    - rewrite <- Hbe, <- Hb1, <- Dsk. exact Hblob.
    - split; [done|]. by rewrite (pl_md5 _ Hp3) in Hs. }
  assert (List.find at_this (objects (r_objects (sy_repo s2))) = Some row) as Hrow2 by (rewrite Hrow; exact Hfind).
  split; [congruence|]. edestruct (get_serves w' c' t b k row (rd_data r) s2) as [s3 Hget]; try done.
  - by rewrite Hd.
  - rewrite Hd. exact Hrow2.
  - rewrite Hmeta. apply unmarked_generation, Hp3.
  - intros s3 Hs. apply Hread; [done|]. by rewrite (proj1 Hs).
  - by rewrite Hsk.
  - exists s3, (wrapReadVerification sv row (rd_data r)), row. split; [done|]. apply verified_bytes.
Qed.
End Rest.

Lemma metadata_accepted_witness :
  let m : kv := <["color"%string := "red"%string]> ∅ in
  (check_metadata 0 [("color", "red")%string] = None <-> validateMetadata m = None) /\ validateMetadata m = None.
Proof. intros m. split; [apply (metadata_accepted m); by vm_compute|by vm_compute]. Defined.

(** The body of "k", read by the service's own user. *)
Lemma put_then_get_witness :
  exists s3 rd o', Get open_service calm ann "acme" "b" "k" one_object = (s3, Ok (rd, o')) /\ rd_data rd = "one"%string.
Proof.
  set (o := match snd (put_text "k" "one" empty_sys) with Ok o => o | Err _ => sample_object "" "" end).
  destruct (put_then_get open_service calm calm ann ann "acme" "b" "k" (reader_of "one") 3 no_options empty_sys one_object o one_object)
    as (_ & s3 & rd & o' & Hg & Hd & _).
  - by intros a m db.
  - done.
  - done.
  - done.
  - by vm_compute.
  - done.
  - apply rtc_refl.
  - done.
  - done.
  - by exists s3, rd, o'.
Defined.
