(* ===== verification/Lease.v ===== *)
(** * Leases and singletons (src/internal/repository/leases.go, src/internal/cluster/singleton.go)

    The table leases (migration 0013), the same in both dialects: expires_at is a text and is
    compared as one.  [AcquireLease] is two statements, each with what may have gone wrong.
    A [Singleton] gates a job by a lease.

    While a lease lasts nobody else gets it, whatever the other replicas try
    ([lease_excludes]); the order of the texts is not the order of the times within a second
    ([lease_taken_early]). *)

From Stdlib Require Import Ascii Lia Bool ZArith.
From stdpp Require Import base strings list numbers option relations.
From S2P Require Import Prelude GoStrings GoTime GoErrors Sql Outbox OutboxProps Keyset.

Open Scope Z_scope.

Record LeaseRow := { le_name : string; le_holder : string; le_expires_at : string }.
Definition LeaseDB : Type := list LeaseRow.

Definition is_lease (name : string) (r : LeaseRow) : bool := (le_name r =s name).

(** [name=$3 AND (holder=$4 OR expires_at < $5)]. *)
Definition claimable (name holder now : string) (r : LeaseRow) : bool :=
  is_lease name r && ((le_holder r =s holder) || String.ltb (le_expires_at r) now).

Definition renew (holder expires : string) (r : LeaseRow) : LeaseRow :=
  {| le_name := le_name r; le_holder := holder; le_expires_at := expires |}.

Definition AcquireLease (ctx ctx' : option error) (now : time) (name holder : string) (ttl : Z) : prog LeaseDB bool :=
  let nowStr := FormatRFC3339Nano now in
  let expiryStr := FormatRFC3339Nano (now + ttl) in
  run! map_err (fun e => Wrap "acquire lease: update" [e]) (with_ctx ctx) in
  do! n := (fun db => (update_where (claimable name holder nowStr) (renew holder expiryStr) db,
                       Ok (length (List.filter (claimable name holder nowStr) db)))) in
  if (n =? 1)%nat then ret true
  else run! map_err (fun e => Wrap "acquire lease: insert" [e]) (with_ctx ctx') in
       fun db => if existsb (is_lease name) db then (db, Ok false) 
            else (db ++ [{| le_name := name; le_holder := holder; le_expires_at := expiryStr |}], Ok true).

(** ** Singletons *)

Record Singleton := { sg_lease : string; sg_holder : string; sg_enabled : bool }.

Definition NewSingleton (lease : string) : Singleton := {| sg_lease := lease; sg_holder := ""; sg_enabled := false |}.
Definition Enable (s : Singleton) (holder : string) : Singleton := {| sg_lease := sg_lease s; sg_holder := holder; sg_enabled := true |}.
Definition Enabled (s : Singleton) : bool := sg_enabled s.

(** What [fn] answers, if it ran; a failing lease is logged. *)
Definition Guard {S A} (s : Singleton) (ctx ctx' : option error) (now : time) (ttl : Z) (fn : S -> S * A)
    (st : LeaseDB * S) : (LeaseDB * S) * option A :=
  let run := fun db => let '(x, a) := fn (snd st) in ((db, x), Some a) in
  if sg_enabled s then
    match AcquireLease ctx ctx' now (sg_lease s) (sg_holder s) ttl (fst st) with
    | (db, Ok true) => run db
    | (db, _) => ((db, snd st), None)
    end
  else run (fst st).

(** ** One holder at a time *)

Definition names_unique (db : LeaseDB) : Prop := NoDup (map le_name db).

(** Held by [holder] until the text [e]. *)
Definition held_until (name holder e : string) (db : LeaseDB) : Prop :=
  {| le_name := name; le_holder := holder; le_expires_at := e |} ∈ db.

Record Attempt := {
  at_now : time; at_name : string; at_holder : string; at_ttl : Z; at_fault : option error; at_fault' : option error
}.
Definition attempt_lease (a : Attempt) : prog LeaseDB bool :=
  AcquireLease (at_fault a) (at_fault' a) (at_now a) (at_name a) (at_holder a) (at_ttl a).

(** The table an attempt leaves, and its answer. *)
Lemma attempt_run a db :
  let nowStr := FormatRFC3339Nano (at_now a) in let expiryStr := FormatRFC3339Nano (at_now a + at_ttl a) in
  let updated := update_where (claimable (at_name a) (at_holder a) nowStr) (renew (at_holder a) expiryStr) db in
  attempt_lease a db =
  match at_fault a with
  | Some e => (db, Err (Wrap "acquire lease: update" [e]))
  | None =>
      if (length (List.filter (claimable (at_name a) (at_holder a) nowStr) db) =? 1)%nat then (updated, Ok true)
      else match at_fault' a with
           | Some e => (updated, Err (Wrap "acquire lease: insert" [e]))
           | None => if existsb (is_lease (at_name a)) updated then (updated, Ok false)
                     else (updated ++ [{| le_name := at_name a; le_holder := at_holder a; le_expires_at := expiryStr |}], Ok true)
           end
  end.
Proof.
  cbn zeta. unfold attempt_lease, AcquireLease, with_ctx, bind, map_err, guard. destruct (at_fault a); [done|].
  destruct (_ =? 1)%nat; [done|]. by destruct (at_fault' a).
Qed.

Lemma attempt_names a db : names_unique db -> names_unique (fst (attempt_lease a db)).
Proof.
  intros Hn. rewrite attempt_run. cbn zeta. destruct (at_fault a); [done|].
  assert (names_unique (update_where (claimable (at_name a) (at_holder a) (FormatRFC3339Nano (at_now a)))
            (renew (at_holder a) (FormatRFC3339Nano (at_now a + at_ttl a))) db)) as Hu.
  { unfold names_unique. by rewrite map_update_where. }
  destruct (_ =? 1)%nat; [done|]. destruct (at_fault' a); [done|]. destruct (existsb _ _) eqn:E; [done|].
  apply NoDup_map_snoc; [done|]. intros r Hr Hr'. cbn in Hr'.
  pose proof (proj1 (existsb_none _ _) E r Hr) as Hf. unfold is_lease in Hf. rewrite Hr', streqb_refl in Hf. done.
Qed.

(** The lease is granted unless its row is another holder's and its text has not passed. *)
Lemma claimable_iff name holder now r : is_lease name r = true ->
  (claimable name holder now r = false <-> le_holder r <> holder /\ String.ltb (le_expires_at r) now = false).
Proof. intros Hn. unfold claimable. rewrite Hn. cbn [andb]. rewrite orb_false_iff, streqb_false. done. Qed.

Lemma claimable_lease name holder now r : claimable name holder now r = true -> is_lease name r = true.
Proof. by intros [? _]%andb_true_iff. Qed.

Lemma lease_unique name db r r' :
  names_unique db -> r ∈ db -> r' ∈ db -> is_lease name r = true -> is_lease name r' = true -> r = r'.
Proof.
  intros Hn Hr Hr' E E'. apply streqb_true in E. apply streqb_true in E'. eapply (NoDup_map_inj le_name); [done..|congruence].
Qed.

Lemma is_lease_renew name p holder e db :
  existsb (is_lease name) (update_where p (renew holder e) db) = existsb (is_lease name) db.
Proof. induction db as [|r db IH]; cbn; [done|]. rewrite <- IH. by destruct (p r). Qed.

Lemma attempt_granted a db r :
  names_unique db -> snd (attempt_lease a db) = Ok true -> r ∈ db -> is_lease (at_name a) r = true ->
  claimable (at_name a) (at_holder a) (FormatRFC3339Nano (at_now a)) r = true.
Proof.
  intros Hn Hok Hr Hl. rewrite attempt_run in Hok. cbn zeta in Hok. destruct (at_fault a); [done|].
  destruct (_ =? 1)%nat eqn:E.
  - apply Nat.eqb_eq in E. destruct (List.filter _ db) as [|r0 l] eqn:Ef; [done|].
    assert (r0 ∈ List.filter (claimable (at_name a) (at_holder a) (FormatRFC3339Nano (at_now a))) db) as Hr0 by (rewrite Ef; by left).
    apply elem_filter_b in Hr0 as [Hr0 Hc]. pose proof (claimable_lease _ _ _ _ Hc). by rewrite (lease_unique (at_name a) db r r0).
  - destruct (at_fault' a); [done|]. rewrite is_lease_renew in Hok. destruct (existsb _ db) eqn:El; [done|].
    pose proof (proj1 (existsb_none _ _) El r Hr). congruence.
Qed.

Lemma attempt_succeeds a db :
  names_unique db -> at_fault a = None -> at_fault' a = None ->
  (forall r, r ∈ db -> is_lease (at_name a) r = true -> claimable (at_name a) (at_holder a) (FormatRFC3339Nano (at_now a)) r = true) ->
  snd (attempt_lease a db) = Ok true.
Proof.
  intros Hn Hf Hf' Hall. rewrite attempt_run. cbn zeta. rewrite Hf, Hf', is_lease_renew.
  destruct (existsb (is_lease (at_name a)) db) eqn:El; [|by destruct (_ =? 1)%nat].
  apply existsb_elem in El as (r & Hr & Hl). rewrite (filter_unique le_name _ db r); [done..|by apply Hall|].
  intros y Hy Hc. f_equal. apply (lease_unique (at_name a) db); [done..|by eapply claimable_lease|done].
Qed.

(** What an attempt that is not granted, or is about another lease, leaves. *)
Lemma attempt_leaves a db r :
  r ∈ db -> claimable (at_name a) (at_holder a) (FormatRFC3339Nano (at_now a)) r = false -> r ∈ fst (attempt_lease a db).
Proof.
  intros Hr Hc. rewrite attempt_run. cbn zeta. destruct (at_fault a); [done|].
  assert (r ∈ update_where (claimable (at_name a) (at_holder a) (FormatRFC3339Nano (at_now a)))
            (renew (at_holder a) (FormatRFC3339Nano (at_now a + at_ttl a))) db) as Hu by (apply elem_update_where; by right).
  destruct (_ =? 1)%nat; [done|]. destruct (at_fault' a); [done|]. destruct (existsb _ _); [done|]. apply elem_of_app. by left.
Qed.

Lemma attempt_takes a db db' :
  attempt_lease a db = (db', Ok true) ->
  {| le_name := at_name a; le_holder := at_holder a; le_expires_at := FormatRFC3339Nano (at_now a + at_ttl a) |} ∈ db'.
Proof.
  rewrite attempt_run. cbn zeta. destruct (at_fault a); [done|]. destruct (_ =? 1)%nat eqn:E.
  - intros [= <-]. apply Nat.eqb_eq in E. destruct (List.filter _ db) as [|r l] eqn:Ef; [done|].
    assert (r ∈ List.filter (claimable (at_name a) (at_holder a) (FormatRFC3339Nano (at_now a))) db) as Hr by (rewrite Ef; by left).
    apply elem_filter_b in Hr as [Hr Hc]. apply elem_update_where. left. exists r. split_and!; [done..|].
    unfold renew. f_equal. apply claimable_lease, streqb_true in Hc. done.
  - destruct (at_fault' a); [done|]. destruct (existsb _ _); [done|]. intros [= <-]. apply elem_of_app. right. by left.
Qed.

(** An attempt of another holder, or at another lease, before the second in which the lease
    that [a] took ends. *)
Definition rival (a r : Attempt) : Prop :=
  at_name r <> at_name a \/
  at_holder r <> at_holder a /\ 0 <= Year (at_now r) <= 9999 /\ 0 <= Year (at_now a + at_ttl a) <= 9999 /\
  at_now r / Second < (at_now a + at_ttl a) / Second.

Lemma rival_claims a r :
  rival a r -> claimable (at_name r) (at_holder r) (FormatRFC3339Nano (at_now r))
    {| le_name := at_name a; le_holder := at_holder a; le_expires_at := FormatRFC3339Nano (at_now a + at_ttl a) |} = false.
Proof.
  unfold claimable, is_lease. cbn. intros [Hn|(Hh & Hy & Hy' & Hlt)].
  - apply andb_false_iff. left. apply streqb_false. congruence.
  - apply andb_false_iff. right. apply orb_false_iff. split; [apply streqb_false; congruence|].
    apply (st_asym String.ltb). by apply seconds_order.
Qed.

(** C37: while a lease lasts no other replica gets it: from the moment one has acquired it,
    whatever others try at it or at other leases, failures included, up to the second in
    which it ends, every attempt of theirs at it is refused. *)
Theorem lease_excludes a db db1 db2 r :
  names_unique db -> attempt_lease a db = (db1, Ok true) ->
  rtc (fun x y => exists b, rival a b /\ y = fst (attempt_lease b x)) db1 db2 ->
  rival a r -> at_name r = at_name a -> snd (attempt_lease r db2) <> Ok true.
Proof.
  intros Hn Ha Hrun Hr Hname. set (row := {| le_name := at_name a; le_holder := at_holder a; le_expires_at := FormatRFC3339Nano (at_now a + at_ttl a) |}).
  assert (names_unique db1) as Hn1 by (pose proof (attempt_names a db Hn) as H; by rewrite Ha in H).
  apply attempt_takes in Ha. fold row in Ha. clear Hn db.
  induction Hrun as [x|x y z (b & Hb & ->) _ IH].
  - intros Hok. pose proof (attempt_granted r x row Hn1 Hok Ha) as Hc. pose proof (rival_claims a r Hr) as Hno. fold row in Hno.
    enough (true = false) by done. rewrite <- Hno. symmetry. apply Hc. unfold is_lease. rewrite Hname. apply streqb_refl.
  - apply IH; [apply attempt_leaves; [done|by apply rival_claims]|by apply attempt_names].
Qed.

(** Once a later second than the one in which it ends has begun, the lease is there for
    any replica that asks without a failure, whoever held it. *)
Theorem expired_lease_frees db r row :
  names_unique db -> row ∈ db -> le_name row = at_name r -> at_fault r = None -> at_fault' r = None ->
  (exists ends, le_expires_at row = FormatRFC3339Nano ends /\ 0 <= Year ends <= 9999 /\ ends / Second < at_now r / Second) ->
  0 <= Year (at_now r) <= 9999 -> snd (attempt_lease r db) = Ok true.
Proof.
  intros Hn Hrow Hname Hf Hf' (ends & He & Hy & Hlt) Hy'. apply attempt_succeeds; [done..|]. intros x Hx Hl.
  assert (is_lease (at_name r) row = true) as Hlr by (unfold is_lease; rewrite Hname; apply streqb_refl).
  rewrite (lease_unique (at_name r) db x row) by done. unfold claimable. rewrite Hlr, He. cbn [andb]. apply orb_true_iff. right.
  by apply seconds_order.
Qed.

(** A singleton runs its job exactly when the replica has the lease. *)
Lemma Guard_runs {S A} (s : Singleton) f f' now ttl (fn : S -> S * A) st :
  (exists a, snd (Guard s f f' now ttl fn st) = Some a) <->
  sg_enabled s = false \/ snd (AcquireLease f f' now (sg_lease s) (sg_holder s) ttl (fst st)) = Ok true.
Proof.
  unfold Guard. destruct (fn (snd st)) as [x a]. destruct (sg_enabled s); [|split; [by left|by exists a]].
  destruct (AcquireLease _ _ _ _ _ _ _) as [db [[]|e]]; cbn; split; try (by intros [? [=]]); try (by intros [[=]|[=]]).
  - by right.
  - by exists a.
Qed.

(** ** Samples *)

Definition noon : time := instant 738944 43200 0.
Definition sample_attempt (holder : string) (now : time) (ttl : Z) : Attempt :=
  {| at_now := now; at_name := "sweep"; at_holder := holder; at_ttl := ttl; at_fault := None; at_fault' := None |}.

Lemma lease_excludes_witness :
  let a := sample_attempt "a" noon (10 * Second) in let r := sample_attempt "b" (noon + 9 * Second) Second in
  snd (attempt_lease r (fst (attempt_lease a []))) <> Ok true.
Proof.
  intros a r. apply (lease_excludes a [] (fst (attempt_lease a [])) (fst (attempt_lease a [])) r).
  - apply base.NoDup_nil_2.
  - by vm_compute.
  - apply rtc_refl.
  - right. by vm_compute.
  - done.
Defined.

Lemma expired_lease_frees_witness :
  let a := sample_attempt "a" noon (10 * Second) in let r := sample_attempt "b" (noon + 11 * Second) Second in
  snd (attempt_lease r (fst (attempt_lease a []))) = Ok true.
Proof.
  intros a r. apply (expired_lease_frees _ r {| le_name := "sweep"; le_holder := "a"; le_expires_at := FormatRFC3339Nano (noon + 10 * Second) |}).
  - apply attempt_names, base.NoDup_nil_2.
  - vm_compute. left.
  - done.
  - done.
  - done.
  - exists (noon + 10 * Second). by vm_compute.
  - by vm_compute.
Defined.

(** Within the second the lease ends in, the texts do not compare like the times: here it is
    taken half a second early. *)
Example lease_taken_early :
  let a := sample_attempt "a" noon (10 * Second + Second / 2) in let r := sample_attempt "b" (noon + 10 * Second) Second in
  at_now r < at_now a + at_ttl a /\ snd (attempt_lease r (fst (attempt_lease a []))) = Ok true.
Proof. by vm_compute. Qed.
