(* ===== verification/Reconcile.v ===== *)
(** * Maintenance sweeps: scope and deletion (src/internal/reconcile)

    scope.go, protection.go, deletion.go and chunk_scope.go: what the background jobs share.
    A sweep works on the service's state ([Sys]) with the two counters of its scope,
    refusals and faults.  Every row a job is about to touch is read again by its id and
    compared ([canonicalObject]), admitted by the resource boundary, and checked for
    retention and legal hold before its blob or row goes.

    The context and the binding reader answer at ticks of the world, each read of the context
    being a tick.  A nil context, a boundary without a reader and missing ports are values.
    What is only logged is left out. *)

From Stdlib Require Import Ascii Lia Bool ZArith.
From stdpp Require Import base gmap strings list numbers option.
From S2P Require Import Prelude GoStrings GoTime GoErrors Sql JsonStruct Spaces Storage Access AccessStore Outbox Objects EventLog Repo Service.

Open Scope Z_scope.

Definition errScopeRow : string := "reconcile: invalid resource scope".
Definition errScopeObjectGone : string := "reconcile: exact object row no longer exists".
Definition errScopeRefusal : string := "reconcile: explicit resource boundary refusal".
Definition errKeyProtected : string := "reconcile: key protected by legal hold or WORM lock".
Definition errScopedChunkCleanerRequired : string := "scoped chunk cleaner required".

(** What a row's admission came to; the error of a refusal or fault goes with it. *)
Inductive scopeOutcome (A : Type) :=
| scopeAdmitted (a : A)
| scopeRefused (e : error)
| scopeFault (e : error).
Arguments scopeAdmitted {A}. Arguments scopeRefused {A}. Arguments scopeFault {A}.

(** What the jobs have in common.  [mt_scope] is the zero scope, or one with a reader,
    which may be nil. *)
Record Maintenance := {
  mt_dialect : dialect; mt_ctx : option (nat -> option error); mt_scope : option (option (nat -> BindingReader));
  mt_repo_missing : bool; mt_store_missing : bool; mt_cleaner : ChunkCleaner
}.

Record Sweep (B : Type) := { sw_sys : Sys B; sw_refused : Z; sw_faults : Z }.
Arguments sw_sys {B}. Arguments sw_refused {B}. Arguments sw_faults {B}. Arguments Build_Sweep {B}.

(** ** Errors *)

Definition is_sentinel (name : string) (e : error) : bool := match e with Sentinel n => n =s name | _ => false end.

Definition scopeRowFault (e : error) : error := Wrap "" [Sentinel ErrResourceBoundaryFault; Sentinel errScopeRow; e].

Definition err_of {A} (r : result A) : option error := match r with Ok _ => None | Err e => Some e end.

(** Only a chain of single causes down to the sentinel. *)
Fixpoint ordinaryMissing (e : error) (missing : string) : bool :=
  is_sentinel missing e ||
  (negb (IsResourceBoundaryFault (Some e)) &&
   match e with
   | Wrap _ [c] => ordinaryMissing c missing
   | Fault _ c | ClassFault _ c => ordinaryMissing c missing
   | _ => false
   end).

(** ** Identities (scope.go) *)

Definition isDeleteMarker (o : Object) : bool := (meta_get (ob_Metadata o) delete_marker_key =s "true").

Definition validateObjectIdentity (o : Object) : option error :=
  if (ob_ID o <=? 0) || (ob_Key o =s "") || (ob_VersionID o =s "") || (ob_Size o <? 0)
  then Some (errorf errScopeRow "object identity")
  else if (ob_Backend o =s "") && negb (isDeleteMarker o) then Some (errorf errScopeRow "object backend")
  else None.

(** An empty tenant or bucket stands for any. *)
Definition validateObjectScope (o : Object) (tenant bucket : string) : option error :=
  match validateObjectIdentity o with
  | Some e => Some e
  | None =>
      match ValidateBindingInput (ob_TenantID o) (ob_Bucket o) with
      | Some e => errors_Join [Some (Sentinel errScopeRow); Some e]
      | None =>
          if (tenant <>s "") && (ob_TenantID o <>s tenant) then Some (errorf errScopeRow "object tenant echo")
          else if (bucket <>s "") && (ob_Bucket o <>s bucket) then Some (errorf errScopeRow "object bucket echo")
          else if (ob_StorageKey o =s "") && negb (isDeleteMarker o) then Some (errorf errScopeRow "object storage key")
          else None
      end
  end.

Definition sameScopeTime (a b : option time) : bool :=
  match a, b with Some x, Some y => x =? y | None, None => true | _, _ => false end.

Definition sameObjectIdentity (a b : Object) : bool :=
  (ob_ID a =? ob_ID b) && (ob_TenantID a =s ob_TenantID b) && (ob_Bucket a =s ob_Bucket b) && (ob_Key a =s ob_Key b) &&
  (ob_VersionID a =s ob_VersionID b) && (ob_Backend a =s ob_Backend b) && (ob_StorageKey a =s ob_StorageKey b) &&
  Bool.eqb (ob_VersionTombstone a) (ob_VersionTombstone b) && sameScopeTime (ob_DeletedAt a) (ob_DeletedAt b).

Definition versionAnchorMatches (anchor row : Object) : bool :=
  negb (ob_ID anchor =? ob_ID row) || sameObjectIdentity anchor row.

Definition validateUploadScope (u : Upload) : option error :=
  if (up_ID u =s "") || (up_Key u =s "") || (up_Backend u =s "") || (up_BackendUID u =s "") || (up_StorageKey u =s "")
  then Some (errorf errScopeRow "upload identity")
  else match ValidateBindingInput (up_TenantID u) (up_Bucket u) with
       | Some e => errors_Join [Some (Sentinel errScopeRow); Some e]
       | None => None
       end.

Definition sameUploadIdentity (a b : Upload) : bool :=
  (up_ID a =s up_ID b) && (up_TenantID a =s up_TenantID b) && (up_Bucket a =s up_Bucket b) && (up_Key a =s up_Key b) &&
  (up_VersionID a =s up_VersionID b) && (up_StorageKey a =s up_StorageKey b) && (up_Backend a =s up_Backend b) &&
  (up_BackendUID a =s up_BackendUID b).

(** Rows of a page are live and ascend; a page that is not the last moves the marker. *)
Fixpoint page_rows (tenant bucket previous : string) (l : list Object) : result string :=
  match l with
  | [] => Ok previous
  | o :: rest =>
      match validateObjectScope o tenant bucket with
      | Some e => Err (scopeRowFault e)
      | None => if negb (String.ltb previous (ob_Key o)) || negb (is_live o)
                then Err (scopeRowFault (NewError "object page has no key progress"))
                else page_rows tenant bucket (ob_Key o) rest
      end
  end.

Definition validObjectMarker (page : ListPage) (marker last : string) : bool :=
  negb (lp_HasMore page) ||
  (match lp_Objects page with [] => false | _ => true end && (lp_NextMarker page <>s "") &&
   (lp_NextMarker page =s last) && String.ltb marker (lp_NextMarker page)).

Definition validateObjectPage (page : ListPage) (tenant bucket marker previous : string) : result string :=
  let! last := page_rows tenant bucket previous (lp_Objects page) in
  if validObjectMarker page marker last then Ok last else Err (scopeRowFault (NewError "object page has no marker progress")).

(** The bytes and the rows that count against the quota. *)
Definition deletionUsage (l : list Object) : Z * Z :=
  let rows := List.filter counted l in (wrap64 (sum_sizes rows), Repo.count rows).

Definition scopeBoundaryOutcome (e : option error) : scopeOutcome unit :=
  match e with
  | None => scopeAdmitted tt
  | Some x => if IsResourceBoundaryFault e then scopeFault x
              else if IsResourceBoundaryDenied e then scopeRefused (Wrap "" [Sentinel errScopeRefusal; x])
              else scopeFault (scopeRowFault x)
  end.

Definition scopePortMissing {X} (port : option X) : bool := match port with None => true | Some _ => false end.

(** ** The scope of a sweep (scope.go) *)

Section Scope.
Context {B : Type} `{Storage B} `{UUIDLib} (mt : Maintenance) (w : World).

Definition on_sys {A} (m : prog (Sys B) A) : prog (Sweep B) A := fun s =>
  let '(y, r) := m (sw_sys s) in (Build_Sweep y (sw_refused s) (sw_faults s), r).

Definition attempt {A} (m : prog (Sweep B) A) : prog (Sweep B) (result A) := fun s => let '(s', r) := m s in (s', Ok r).

Definition faulted : prog (Sweep B) unit := fun s => (Build_Sweep (sw_sys s) (sw_refused s) (sw_faults s + 1), Ok tt).
Definition refused : prog (Sweep B) unit := fun s => (Build_Sweep (sw_sys s) (sw_refused s + 1) (sw_faults s), Ok tt).
Definition resetCounts : prog (Sweep B) unit := fun s => (Build_Sweep (sw_sys s) 0 0, Ok tt).

Definition observe {A} (o : scopeOutcome A) : prog (Sweep B) unit :=
  match o with scopeAdmitted _ => ret tt | scopeRefused _ => refused | scopeFault _ => faulted end.

(** A read at this tick, which passes. *)
Definition at_tick {A} (f : nat -> A) : prog (Sweep B) A := on_sys (fun s => (set_repo (sy_repo s) s, Ok (f (sy_tick s)))).

Definition scopeContext : prog (Sweep B) unit :=
  match mt_ctx mt with
  | None => fail (scopeRowFault (NewError "nil maintenance context"))
  | Some err => do! e := at_tick err in
                match e with Some e => fail (scopeRowFault e) | None => ret tt end
  end.

(** [x, err := m; err = errors.Join(err, scopeContext(ctx))]. *)
Definition joined {A} (m : prog (Sweep B) A) : prog (Sweep B) A :=
  do! r := attempt m in
  do! c := attempt scopeContext in
  match errors_Join [err_of r; err_of c] with
  | Some e => fail e
  | None => match r with Ok a => ret a | Err e => fail e end
  end.

Definition validate : option error :=
  match mt_scope mt with
  | Some reader => if scopePortMissing reader || mt_repo_missing mt
                   then Some (scopeRowFault (NewError "missing maintenance binding or row reader")) else None
  | None => Some (scopeRowFault (NewError "missing maintenance binding or row reader"))
  end.

(** A failure counts as a fault. *)
Definition counting {A} (m : prog (Sweep B) A) : prog (Sweep B) A := fun s =>
  match m s with
  | (s', Ok a) => (s', Ok a)
  | (s', Err e) => (fst (faulted s'), Err e)
  end.

Definition ready : prog (Sweep B) unit :=
  counting (run! scopeContext in
            if scopePortMissing (mt_scope mt) then ret tt else guard (fun _ => validate)).

(** The boundary's two reads of the context are two ticks. *)
Definition scope_check (tenant bucket : string) : prog (Sweep B) (scopeOutcome unit) :=
  match mt_scope mt with
  | None => ret (scopeAdmitted tt)
  | Some reader =>
      do! c := at_tick (fun t => (fun err => {| ctx_Principal := None; ctx_Err := err t; ctx_ErrAfter := err (S t) |}) <$> mt_ctx mt) in
      do! b := at_tick (fun t => {| rb_binding := (fun f => f t) <$> reader; rb_coverage := None |}) in
      ret (scopeBoundaryOutcome (CheckBucket (Some b) c tenant bucket))
  end.

(** The error a caller counts; a protection refusal counts as nothing. *)
Definition failed (e : error) : prog (Sweep B) unit :=
  if IsResourceBoundaryFault (Some e) then faulted
  else if errors_Is e errScopeRefusal then refused
  else if is_sentinel errKeyProtected e || is_sentinel ErrLegalHoldActive e then ret tt
  else faulted.

(** *** Rows *)

Definition gone_when_alone (e : error) (c : option error) : error :=
  if is_sentinel RepoErrNotFound e && match c with None => true | Some _ => false end
  then Wrap "" [Sentinel errScopeObjectGone; e] else e.

Definition canonicalObject (o : Object) (tenant bucket : string) : prog (Sweep B) Object :=
  run! guard (fun _ => scopeRowFault <$> validateObjectScope o tenant bucket) in
  run! refuse_if (mt_repo_missing mt) (scopeRowFault (NewError "missing object row reader")) in
  do! r := attempt (on_sys (call w (fun f _ => on_objects (GetObjectByID f (ob_ID o))))) in
  do! c := attempt scopeContext in
  match errors_Join [(fun e => gone_when_alone e (err_of c)) <$> err_of r; err_of c], r with
  | None, Ok actual =>
      run! guard (fun _ => scopeRowFault <$> validateObjectScope actual tenant bucket) in
      run! refuse_if (negb (sameObjectIdentity o actual)) (scopeRowFault (NewError "object row identity changed")) in
      ret actual
  | Some e, _ | None, Err e => fail (scopeRowFault e)
  end.

Definition admitted {A C} (a : A) (o : scopeOutcome C) : scopeOutcome A :=
  match o with scopeAdmitted _ => scopeAdmitted a | scopeRefused e => scopeRefused e | scopeFault e => scopeFault e end.

(** A failure of [m] faults the row. *)
Definition or_fault {A C} (m : prog (Sweep B) A) (k : A -> prog (Sweep B) (scopeOutcome C)) : prog (Sweep B) (scopeOutcome C) :=
  do! r := attempt m in
  match r with Ok a => k a | Err e => ret (scopeFault e) end.

(** [scopeState.object]. *)
Definition scope_object (o : Object) (tenant bucket : string) : prog (Sweep B) (scopeOutcome Object) :=
  or_fault (counting (guard (fun _ => scopeRowFault <$> validateObjectScope o tenant bucket))) (fun _ =>
  or_fault ready (fun _ =>
  or_fault (counting (canonicalObject o tenant bucket)) (fun actual =>
  do! out := scope_check (ob_TenantID actual) (ob_Bucket actual) in
  run! observe out in
  ret (admitted actual out)))).

Definition upload_unchanged (u actual : Upload) : option error :=
  match validateUploadScope actual with
  | Some e => Some e
  | None => if sameUploadIdentity u actual then None else Some (NewError "upload row identity changed")
  end.

(** [scopeState.upload]. *)
Definition scope_upload (u : Upload) : prog (Sweep B) (scopeOutcome Upload) :=
  or_fault (counting (guard (fun _ => scopeRowFault <$> validateUploadScope u))) (fun _ =>
  or_fault ready (fun _ =>
  or_fault (counting (refuse_if (mt_repo_missing mt) (scopeRowFault (NewError "missing upload row reader")))) (fun _ =>
  or_fault (counting (map_err scopeRowFault (
    do! actual := joined (on_sys (call w (fun f _ => GetUpload f (up_ID u)))) in
    run! guard (fun _ => upload_unchanged u actual) in ret actual))) (fun actual =>
  do! out := scope_check (up_TenantID actual) (up_Bucket actual) in
  run! observe out in
  ret (admitted actual out))))).

(** *** Versions *)

(** repository.ListObjectVersions, and the scoped repository's, which reads every version
    again. *)
Definition Versions : Type := string -> string -> string -> prog (Sweep B) (list Object).

Definition repo_versions : Versions := fun tenant bucket key =>
  on_sys (call w (fun f _ => on_objects (ListObjectVersions (mt_dialect mt) f tenant bucket key))).

Fixpoint validate_versions (anchor : Object) (tenant bucket key : string) (seen : list Object) (l : list Object)
    : prog (Sweep B) (list Object) :=
  match l with
  | [] => run! refuse_if (negb (existsb (fun o => ob_ID o =? ob_ID anchor) seen))
                 (scopeRowFault (NewError "version enumeration omitted anchor")) in ret []
  | v :: rest =>
      run! refuse_if ((ob_Key v <>s key) || existsb (fun o => (ob_ID o =? ob_ID v) || (ob_VersionID o =s ob_VersionID v)) seen)
             (scopeRowFault (NewError "conflicting version enumeration")) in
      do! actual := canonicalObject v tenant bucket in
      run! refuse_if (negb (versionAnchorMatches anchor actual)) (scopeRowFault (NewError "version anchor changed")) in
      do! out := scope_check tenant bucket in
      run! match out with scopeAdmitted _ => ret tt | scopeRefused e | scopeFault e => fail e end in
      do! more := validate_versions anchor tenant bucket key (actual :: seen) rest in
      ret (actual :: more)
  end.

Definition validateVersions (anchor : Object) (versions : list Object) (tenant bucket key : string) : prog (Sweep B) (list Object) :=
  match versions with
  | [] => fail (scopeRowFault (NewError "empty version enumeration"))
  | _ => validate_versions anchor tenant bucket key [] versions
  end.

(** [deletionRepo]: the versions a scoped repository lists. *)
Definition scoped_versions (anchor : Object) : Versions := fun tenant bucket key =>
  run! refuse_if ((tenant <>s ob_TenantID anchor) || (bucket <>s ob_Bucket anchor) || (key <>s ob_Key anchor))
         (scopeRowFault (NewError "version enumeration scope changed")) in
  do! versions := map_err scopeRowFault (joined (repo_versions tenant bucket key)) in
  validateVersions anchor versions tenant bucket key.

(** ** Protection (protection.go) *)

Definition objectDeletionProtected (o : Object) : prog (Sweep B) bool :=
  do! locked := match ob_LockedUntil o with
                | Some t => do! now := on_sys (clock w) in ret (After t now)
                | None => ret false
                end in
  if locked then ret true
  else if (meta_get (ob_Metadata o) legal_hold_key =s "ON") then ret true
  else on_sys (call w (fun f _ => on_objects (ObjectHasLegalHold f (ob_ID o)))).

Fixpoint any_protected (l : list Object) : prog (Sweep B) bool :=
  match l with
  | [] => ret false
  | v :: rest => do! p := objectDeletionProtected v in if p then ret true else any_protected rest
  end.

Definition objectKeyDeletionProtected (versions_of : Versions) (o : Object) : prog (Sweep B) bool :=
  do! versions := versions_of (ob_TenantID o) (ob_Bucket o) (ob_Key o) in
  match versions with [] => objectDeletionProtected o | _ => any_protected versions end.

(** ** Deletion (deletion.go, chunk_scope.go) *)

Definition deleteScopedObjectChunks (o : Object) : prog (Sweep B) unit :=
  match mt_cleaner mt with
  | NoCleaner => ret tt
  | IncompatibleCleaner => fail (Sentinel errScopedChunkCleanerRequired)
  | ScopedCleaner clean =>
      let ref := {| ch_TenantID := ob_TenantID o; ch_Bucket := ob_Bucket o; ch_Key := ob_Key o; ch_ObjectID := ob_ID o |} in
      run! guard (fun _ => ValidateChunkRef ref) in
      on_sys (fun s => (Build_Sys (sy_tick s) (sy_repo s) (sy_blobs s) (sy_events s) (sy_cleaned s ++ [ref]) (sy_observed s),
                        match clean ref with None => Ok tt | Some e => Err e end))
  end.

(** A failure is logged. *)
Definition sweep_chunks (o : Object) : prog (Sweep B) unit :=
  if isDeleteMarker o then ret tt else run! attempt (deleteScopedObjectChunks o) in ret tt.

Definition adjustUsage (tenant : string) (bytes objects : Z) : prog (Sweep B) unit :=
  if (bytes =? 0) && (objects =? 0) then ret tt
  else run! attempt (do! f2 := at_tick (w_fault w) in
                     on_sys (call w (fun f now => AddTenantUsage f f2 now tenant bytes objects))) in ret tt.

(** [if protected { return errKeyProtected }]. *)
Definition refuse_protected (o : Object) : prog (Sweep B) unit :=
  do! p := objectDeletionProtected o in refuse_if p (Sentinel errKeyProtected).

Fixpoint checkDeleteVersionsProtection (l : list Object) : prog (Sweep B) unit :=
  match l with [] => ret tt | v :: rest => run! refuse_protected v in checkDeleteVersionsProtection rest end.

(** A blob that is not there is no failure. *)
Definition delete_blob (wrap : error -> error) (o : Object) : prog (Sweep B) unit :=
  if isDeleteMarker o then ret tt
  else do! r := attempt (on_sys (store w (fun _ => st_Delete (ob_StorageKey o)))) in
       match r with
       | Ok _ => ret tt
       | Err e => if errors_Is e StorageErrNotFound then ret tt else fail (wrap e)
       end.

Fixpoint deleteVersionBlobs (l : list Object) : prog (Sweep B) unit :=
  match l with
  | [] => ret tt
  | v :: rest =>
      run! refuse_protected v in
      run! sweep_chunks v in
      run! delete_blob (fun e => Wrap "delete storage key" [e]) v in
      deleteVersionBlobs rest
  end.

Definition release_rows (tenant : string) (l : list Object) : prog (Sweep B) unit :=
  let '(bytes, objects) := deletionUsage l in adjustUsage tenant (wrap64 (- bytes)) (wrap64 (- objects)).

Definition hardDeleteKey (versions_of : Versions) (o : Object) : prog (Sweep B) unit :=
  do! versions := versions_of (ob_TenantID o) (ob_Bucket o) (ob_Key o) in
  let versions := match versions with [] => [o] | _ => versions end in
  run! checkDeleteVersionsProtection versions in
  run! deleteVersionBlobs versions in
  run! on_sys (call w (fun f _ => on_objects (HardDeleteObject f (ob_TenantID o) (ob_Bucket o) (ob_Key o)))) in
  release_rows (ob_TenantID o) versions.

Definition softDeleteKey (o : Object) : prog (Sweep B) unit :=
  run! sweep_chunks o in
  run! on_sys (call w (fun f now => on_objects (SoftDeleteObject (mt_dialect mt) f now (ob_TenantID o) (ob_Bucket o) (ob_Key o)))) in
  adjustUsage (ob_TenantID o) (wrap64 (- ob_Size o)) (-1).

Definition hardDeleteVersion (o : Object) : prog (Sweep B) unit :=
  run! refuse_protected o in
  run! sweep_chunks o in
  run! delete_blob id o in
  run! on_sys (call w (fun f _ => on_objects (HardDeleteObjectByID f (ob_ID o)))) in
  release_rows (ob_TenantID o) [o].
End Scope.
