(* ===== verification/ReconcileJob.v ===== *)
(** * Maintenance jobs (src/internal/reconcile)

    The reconciler (job.go) with its scrub (scrub.go), the retention job (retention.go), the
    lifecycle job (lifecycle.go) and the garbage collection of uploads (upload_gc.go), over
    the scope of Reconcile.  A callback works on an accumulator, the variables it captures.
    A sweep answers what it logs; the tables of leases are beside the sweep's state.

    A walk over the rows of a bucket ends after as many pages as there are rows, a listing of
    the backend is bounded by [rounds]; one that does not end is an error of the sweep.  The
    backend's listing and its cleanup of parts are the class [Maintained]. *)

From Stdlib Require Import Ascii Lia Bool ZArith.
From stdpp Require Import base gmap strings list numbers option.
From S2P Require Import Prelude GoStrings GoTime Base64 GoErrors Sql JsonStruct Spaces Envelope Storage LocalStorage Access AccessStore Outbox Objects EventLog Repo Service Lease Reconcile.

Open Scope Z_scope.

Class Maintained (B : Type) := {
  st_List : string -> string -> Z -> prog B ListResult;
  st_CleanupParts : string -> string -> prog B unit
}.

#[export] Instance local_maintained `{AEAD} `{MD5} (cfg : LocalConfig) : Maintained LocalState := {|
  st_List := List_ cfg; st_CleanupParts := fun _ uploadID => CleanupParts cfg uploadID |}.

(** ** The jobs *)

Definition leaseReconcileSweep : string := "reconcile-sweep".
Definition leaseRetentionGC : string := "retention-gc".
Definition leaseLifecycleSweep : string := "lifecycle-sweep".
Definition leaseUploadGC : string := "upload-gc".

Record Job := {
  jb_mt : Maintenance; jb_interval : Z; jb_deleteOrphanBlobs : bool; jb_gracePeriod : Z; jb_tenants : list string;
  jb_singleton : Singleton; jb_scrub_enabled : bool; jb_scrub_batch : Z;
  jb_orphanCoverage : option (nat -> CoverageReader); jb_coverageConfigured : bool
}.

(** The zero scope, over a repository. *)
Definition new_maintenance (d : dialect) (ctx : option (nat -> option error)) : Maintenance := {|
  mt_dialect := d; mt_ctx := ctx; mt_scope := None; mt_repo_missing := false; mt_store_missing := false; mt_cleaner := NoCleaner |}.

Definition New (d : dialect) (ctx : option (nat -> option error)) (interval : Z) (deleteOrphanBlobs : bool) (gracePeriod : Z)
    (tenants : list string) : Job := {|
  jb_mt := new_maintenance d ctx; jb_interval := interval; jb_deleteOrphanBlobs := deleteOrphanBlobs; jb_gracePeriod := gracePeriod;
  jb_tenants := match tenants with [] => ["default"%string] | _ => tenants end; jb_singleton := NewSingleton leaseReconcileSweep;
  jb_scrub_enabled := false; jb_scrub_batch := 0; jb_orphanCoverage := None; jb_coverageConfigured := false |}.

Definition with_scope (reader : option (nat -> BindingReader)) (m : Maintenance) : Maintenance := {|
  mt_dialect := mt_dialect m; mt_ctx := mt_ctx m; mt_scope := Some reader; mt_repo_missing := mt_repo_missing m;
  mt_store_missing := mt_store_missing m; mt_cleaner := mt_cleaner m |}.
Definition with_cleaner (c : ChunkCleaner) (m : Maintenance) : Maintenance := {|
  mt_dialect := mt_dialect m; mt_ctx := mt_ctx m; mt_scope := mt_scope m; mt_repo_missing := mt_repo_missing m;
  mt_store_missing := mt_store_missing m; mt_cleaner := c |}.

Definition with_mt (m : Maintenance) (j : Job) : Job := {|
  jb_mt := m; jb_interval := jb_interval j; jb_deleteOrphanBlobs := jb_deleteOrphanBlobs j; jb_gracePeriod := jb_gracePeriod j;
  jb_tenants := jb_tenants j; jb_singleton := jb_singleton j; jb_scrub_enabled := jb_scrub_enabled j;
  jb_scrub_batch := jb_scrub_batch j; jb_orphanCoverage := jb_orphanCoverage j; jb_coverageConfigured := jb_coverageConfigured j |}.

Definition WithChunkCleaner (j : Job) (c : ChunkCleaner) : Job := with_mt (with_cleaner c (jb_mt j)) j.
Definition WithResourceBoundary (j : Job) (reader : option (nat -> BindingReader)) : Job := with_mt (with_scope reader (jb_mt j)) j.

Definition WithOrphanCoverage (j : Job) (reader : option (nat -> CoverageReader)) : Job := {|
  jb_mt := jb_mt j; jb_interval := jb_interval j; jb_deleteOrphanBlobs := jb_deleteOrphanBlobs j; jb_gracePeriod := jb_gracePeriod j;
  jb_tenants := jb_tenants j; jb_singleton := jb_singleton j; jb_scrub_enabled := jb_scrub_enabled j;
  jb_scrub_batch := jb_scrub_batch j; jb_orphanCoverage := reader; jb_coverageConfigured := true |}.

Definition WithScrub (j : Job) (enabled : bool) (batch : Z) : Job := {|
  jb_mt := jb_mt j; jb_interval := jb_interval j; jb_deleteOrphanBlobs := jb_deleteOrphanBlobs j; jb_gracePeriod := jb_gracePeriod j;
  jb_tenants := jb_tenants j; jb_singleton := jb_singleton j; jb_scrub_enabled := enabled;
  jb_scrub_batch := batch; jb_orphanCoverage := jb_orphanCoverage j; jb_coverageConfigured := jb_coverageConfigured j |}.

Definition WithClusterSingleton (j : Job) (holder : string) : Job := {|
  jb_mt := jb_mt j; jb_interval := jb_interval j; jb_deleteOrphanBlobs := jb_deleteOrphanBlobs j; jb_gracePeriod := jb_gracePeriod j;
  jb_tenants := jb_tenants j; jb_singleton := Enable (jb_singleton j) holder; jb_scrub_enabled := jb_scrub_enabled j;
  jb_scrub_batch := jb_scrub_batch j; jb_orphanCoverage := jb_orphanCoverage j; jb_coverageConfigured := jb_coverageConfigured j |}.

Definition boundary_configured (j : Job) : bool := negb (scopePortMissing (mt_scope (jb_mt j))).

Definition validateOrphanConfiguration (j : Job) (requireCoverage : bool) : option error :=
  if jb_deleteOrphanBlobs j && (boundary_configured j || jb_coverageConfigured j)
  then Some (scopeRowFault (NewError "configured orphan deletion has no exact ownership authority"))
  else if (requireCoverage || jb_coverageConfigured j) && scopePortMissing (jb_orphanCoverage j)
  then Some (scopeRowFault (NewError "missing orphan coverage reader"))
  else if jb_coverageConfigured j && negb (boundary_configured j)
  then Some (scopeRowFault (NewError "missing orphan binding reader"))
  else None.

(** The preflight; a nil job is [None]. *)
Definition ValidateResourceBoundary (j : option Job) : option error :=
  match j with
  | None => Some (scopeRowFault (NewError "missing reconcile job"))
  | Some j => if mt_store_missing (jb_mt j) then Some (scopeRowFault (NewError "missing reconcile storage"))
              else errors_Join [validate (jb_mt j); validateOrphanConfiguration j true]
  end.

Definition bump (b : bool) (n : Z) : Z := if b then n + 1 else n.

(** The preflight of the jobs over one scope; a nil job is [None]. *)
Definition validate_job (what : string) (m : option Maintenance) : option error :=
  match m with
  | None => Some (scopeRowFault (NewError ("missing " ++ what ++ " job")))
  | Some m => if mt_store_missing m then Some (scopeRowFault (NewError ("missing " ++ what ++ " storage"))) else validate m
  end.

(** ** Steps of the sweeps *)

Section Steps.
Context {B : Type} `{Storage B} `{UUIDLib} (mt : Maintenance) (w : World).

(** A failure of [m] is a fault and ends with [out]. *)
Definition or_else {A C} (m : prog (Sweep B) A) (out : C) (k : A -> prog (Sweep B) C) : prog (Sweep B) C :=
  do! r := attempt m in
  match r with Ok a => k a | Err _ => run! faulted in ret out end.

Definition no_end : error := NewError "listing does not terminate".

(** [scope.ready(ctx) == nil]. *)
Definition ready_now : prog (Sweep B) bool := do! r := attempt (ready mt) in ret (is_ok r).

(** An effect on an admitted row: whether it was made. *)
Definition effect (m : prog (Sweep B) unit) : prog (Sweep B) bool :=
  do! r := attempt m in
  match r with Err e => run! failed e in ret false | Ok _ => ready_now end.

(** [outcome != scopeAdmitted] ends with [out]. *)
Definition when_admitted {A C} (m : prog (Sweep B) (scopeOutcome A)) (out : C) (k : A -> prog (Sweep B) C) : prog (Sweep B) C :=
  do! o := m in match o with scopeAdmitted a => k a | _ => ret out end.

(** [if err := scope.ready(ctx); err != nil { return out }]. *)
Definition if_ready {A} (out : A) (k : prog (Sweep B) A) : prog (Sweep B) A :=
  do! ok := attempt (ready mt) in match ok with Ok _ => k | Err _ => ret out end.

(** How many visits succeed. *)
Fixpoint count_visits {X} (visit : X -> prog (Sweep B) bool) (l : list X) (n : Z) : prog (Sweep B) Z :=
  match l with [] => ret n | x :: rest => do! b := visit x in count_visits visit rest (bump b n) end.

(** time.Now().Add(-ttl) and its text. *)
Definition before_now (ttl : Z) : prog (Sweep B) (time * string) :=
  do! now := on_sys (clock w) in ret (now + wrap64 (- ttl), FormatRFC3339Nano (now + wrap64 (- ttl))).

(** A protected key or version is left; an error of the check counts. *)
Definition unless_protected (m : prog (Sweep B) bool) (k : prog (Sweep B) bool) : prog (Sweep B) bool :=
  do! p := attempt m in
  match p with
  | Err e => run! failed e in ret false
  | Ok true => ret false
  | Ok false => k
  end.

End Steps.

(** ** The reconciler (job.go) *)

Section Reconcile.
Context {B : Type} `{Storage B} `{Maintained B} `{UUIDLib} (rounds : nat) (j : Job) (w : World).
#[local] Abbreviation mt := (jb_mt j).

Definition job_ready : prog (Sweep B) bool :=
  do! r := attempt (ready mt) in
  match r with
  | Err _ => ret false
  | Ok _ => match validateOrphanConfiguration j false with Some _ => run! faulted in ret false | None => ret true end
  end.

(** [if !ready { return out }]. *)
Definition when_ready {A} (out : A) (k : prog (Sweep B) A) : prog (Sweep B) A := do! b := job_ready in if b then k else ret out.

(** The pages of a bucket's live rows; [None] when they are not what they should be. *)
Fixpoint object_pages (fuel : nat) (tenant bucket : string) (batch : Z) (marker previous : string) (all : list Object)
    : prog (Sweep B) (option (list Object)) :=
  match fuel with
  | O => fail no_end
  | S fuel =>
      do! r := attempt (run! scopeContext mt in
                        do! page := map_err scopeRowFault (joined mt (on_sys (call w (fun f _ =>
                          on_objects (ListObjects (mt_dialect mt) f tenant bucket "" marker batch))))) in
                        do! last := reads (fun _ => validateObjectPage page tenant bucket marker previous) in
                        ret (page, last)) in
      match r with
      | Err _ => ret None
      | Ok (page, last) =>
          let all := all ++ lp_Objects page in
          if lp_HasMore page then object_pages fuel tenant bucket batch (lp_NextMarker page) last all else ret (Some all)
      end
  end.

Definition rows_now (s : Sweep B) : list Object := objects (r_objects (sy_repo (sw_sys s))).

Definition materializeObjectRows (tenant bucket : string) (batch : Z) : prog (Sweep B) (option (list Object)) := fun s =>
  object_pages (S (length (rows_now s))) tenant bucket batch "" "" [] s.

Fixpoint visit_all {A} (visit : A -> Object -> prog (Sweep B) A) (l : list Object) (acc : A) : prog (Sweep B) A :=
  match l with [] => ret acc | o :: rest => do! acc := visit acc o in visit_all visit rest acc end.

Fixpoint walk_buckets {A} (tenant : string) (batch : Z) (visit : string -> A -> Object -> prog (Sweep B) A) (l : list string) (acc : A)
    : prog (Sweep B) A :=
  match l with
  | [] => ret acc
  | bucket :: rest =>
      do! rows := materializeObjectRows tenant bucket batch in
      match rows with
      | None => run! faulted in walk_buckets tenant batch visit rest acc
      | Some objects => do! acc := visit_all (visit bucket) objects acc in walk_buckets tenant batch visit rest acc
      end
  end.

(** A bucket that is not valid, or listed twice. *)
Definition bad_buckets (tenant : string) (l : list string) : bool :=
  existsb (fun b => match ValidateBindingInput tenant b with Some _ => true | None => false end) l ||
  negb (bool_decide (NoDup l)).

Definition walkObjectRows {A} (tenant : string) (batch : Z) (visit : string -> A -> Object -> prog (Sweep B) A) (acc : A)
    : prog (Sweep B) A :=
  when_ready acc (
  match ValidateTenant tenant with
  | Some _ => run! faulted in ret acc
  | None =>
      or_else (joined mt (on_sys (call w (fun f _ => ListBuckets f tenant)))) acc (fun buckets =>
      if bad_buckets tenant buckets then run! faulted in ret acc else walk_buckets tenant batch visit buckets acc)
  end).

Definition softDeleteMissingRow (o : Object) : prog (Sweep B) bool :=
  when_admitted (scope_object mt w o (ob_TenantID o) (ob_Bucket o)) false (fun actual => effect mt (softDeleteKey mt w actual)).

(** (orphan, counted). *)
Definition reconcileObjectRow (tenant bucket : string) (o : Object) : prog (Sweep B) (bool * bool) :=
  when_ready (false, false) (
  when_admitted (scope_object mt w o tenant bucket) (false, false) (fun o =>
  if negb (is_live o) || isDeleteMarker o then run! faulted in ret (false, false)
  else do! r := attempt (joined mt (on_sys (store w (fun _ => st_Stat (ob_StorageKey o))))) in
       match r with
       | Ok info => if (oi_Key info <>s ob_StorageKey o) then run! faulted in ret (false, false) else ret (false, true)
       | Err e => if ordinaryMissing e StorageErrNotFound then do! deleted := softDeleteMissingRow o in ret (deleted, deleted)
                  else run! faulted in ret (false, false)
       end)).

(** (scanned, orphans). *)
Definition sweepOrphanRows (tenant : string) : prog (Sweep B) (Z * Z) :=
  walkObjectRows tenant 200 (fun bucket '(scanned, orphans) o =>
    do! r := reconcileObjectRow tenant bucket o in
    let '(orphan, counted) := r in ret (bump counted scanned, bump orphan orphans)) (0, 0).

(** *** Orphan blobs *)

Definition collectReferencedKeys : prog (Sweep B) (list string) :=
  run! scopeContext mt in
  do! keys := joined mt (on_sys (call w (fun f _ => ListStorageKeys f))) in
  run! refuse_if (contains keys "") (scopeRowFault (NewError "empty referenced storage key")) in
  ret keys.

Fixpoint storage_rows (prefix previous : string) (l : list ObjectInfo) : result string :=
  match l with
  | [] => Ok previous
  | i :: rest =>
      if negb (HasPrefix (oi_Key i) prefix) || negb (String.ltb previous (oi_Key i)) || IsZero (oi_LastModified i) || (oi_Size i <? 0)
      then Err (scopeRowFault (NewError "blob page scope, identity or key progress"))
      else storage_rows prefix (oi_Key i) rest
  end.

Definition validateStoragePage (page : ListResult) (prefix previous : string) : result string :=
  let! last := storage_rows prefix previous (lr_Objects page) in
  if lr_HasMore page && (match lr_Objects page with [] => true | _ => false end || (lr_NextMarker page =s ""))
  then Err (scopeRowFault (NewError "blob page has no marker progress"))
  else Ok last.

(** allKeys, keyAge, and whether the listing is complete. *)
Fixpoint storage_pages (fuel : nat) (prefix marker previous : string) (markers : list string) (all : list ObjectInfo)
    : prog (Sweep B) (option (list ObjectInfo)) :=
  match fuel with
  | O => fail no_end
  | S fuel =>
      do! r := attempt (run! scopeContext mt in
                        do! page := joined mt (on_sys (store w (fun _ => st_List prefix marker 200))) in
                        do! last := reads (fun _ => validateStoragePage page prefix previous) in
                        ret (page, last)) in
      match r with
      | Err _ => ret None
      | Ok (page, last) =>
          let all := all ++ lr_Objects page in
          if negb (lr_HasMore page) then ret (Some all)
          else if contains markers (lr_NextMarker page) then ret None
          else storage_pages fuel prefix (lr_NextMarker page) last (lr_NextMarker page :: markers) all
      end
  end.

Definition listStorageObjects (prefix : string) : prog (Sweep B) (option (list string * gmap string time)) :=
  do! r := storage_pages rounds prefix "" "" [""%string] [] in
  ret ((fun all => (map oi_Key all, fold_left (fun m i => <[oi_Key i := oi_LastModified i]> m) all ∅)) <$> r).

Definition checkOrphanCoverage (tenant : string) : prog (Sweep B) bool :=
  if negb (boundary_configured j) && negb (jb_coverageConfigured j) then ret true
  else do! c := at_tick (fun t => (fun err => {| ctx_Principal := None; ctx_Err := err t; ctx_ErrAfter := err (S t) |}) <$> mt_ctx mt) in
       do! b := at_tick (fun t => {| rb_binding := (fun f => f t) <$> default None (mt_scope mt); rb_coverage := (fun f => f t) <$> jb_orphanCoverage j |}) in
       let out := scopeBoundaryOutcome (CheckCoverage (Some b) c {| cs_Kind := CoverageTenant; cs_TenantID := tenant |}) in
       run! observe out in
       ret (match out with scopeAdmitted _ => true | _ => false end).

Definition findStaleBlobs (allKeys referenced : list string) : list string := List.filter (fun k => negb (contains referenced k)) allKeys.

(** Younger than the grace period. *)
Definition in_grace (keyAge : gmap string time) (key : string) : prog (Sweep B) bool :=
  if 0 <? jb_gracePeriod j
  then do! now := on_sys (clock w) in ret (Since now (default 0 (keyAge !! key)) <=? jb_gracePeriod j)
  else ret false.

(** (orphans, deleted). *)
Fixpoint orphan_blobs (keyAge : gmap string time) (stale : list string) (orphans deleted : Z) : prog (Sweep B) (Z * Z) :=
  match stale with
  | [] => ret (orphans, deleted)
  | key :: rest =>
      do! ok := ready_now mt in
      if negb ok then ret (orphans, deleted)
      else do! young := in_grace keyAge key in
           if young || negb (jb_deleteOrphanBlobs j) then orphan_blobs keyAge rest (orphans + 1) deleted
           else do! r := attempt (joined mt (on_sys (store w (fun _ => st_Delete key)))) in
                match r with
                | Err _ => run! faulted in orphan_blobs keyAge rest (orphans + 1) deleted
                | Ok _ => orphan_blobs keyAge rest (orphans + 1) (deleted + 1)
                end
  end.

Definition handleOrphanBlobs (stale : list string) (keyAge : gmap string time) : prog (Sweep B) (Z * Z) :=
  when_ready (0, 0) (orphan_blobs keyAge stale 0 0).

Definition sweepOrphanBlobs (tenant : string) : prog (Sweep B) (Z * Z) :=
  when_ready (0, 0) (
  match ValidateTenant tenant with
  | Some _ => run! faulted in ret (0, 0)
  | None =>
      do! covered := checkOrphanCoverage tenant in
      if negb covered then ret (0, 0)
      else or_else collectReferencedKeys (0, 0) (fun referenced =>
           do! listing := listStorageObjects (tenant ++ "/") in
           match listing with
           | None => run! faulted in ret (0, 0)
           | Some (allKeys, keyAge) =>
               do! covered := checkOrphanCoverage tenant in
               if negb covered then ret (0, 0) else handleOrphanBlobs (findStaleBlobs allKeys referenced) keyAge
           end)
  end).

(** ** The scrub (scrub.go) *)

Context `{MD5}.

Inductive scrubResult := scrubSkipped | scrubIntact | scrubCorrupt | scrubFault | scrubScopeRefused | scrubScopeFault.

(** The result, and the error that goes with it. *)
Definition verdict : Type := scrubResult * option error.

Definition scrub_admission {A} (o : scopeOutcome A) (k : A -> prog (Sweep B) verdict) : prog (Sweep B) verdict :=
  match o with
  | scopeAdmitted a => k a
  | scopeRefused e => ret (scrubScopeRefused, Some e)
  | scopeFault e => ret (scrubScopeFault, Some e)
  end.

Definition content_md5_key : string := "_aero_content_md5".
Definition scrub_status_key : string := "_aero_scrub_status".

(** Errors of reading end in [scrubFault]. *)
Definition or_scrub_fault {A} (m : prog (Sweep B) A) (k : A -> prog (Sweep B) verdict) : prog (Sweep B) verdict :=
  do! r := attempt m in match r with Ok a => k a | Err e => ret (scrubFault, Some e) end.

(** The reader asks for the context as it goes; once here. *)
Definition readScrubDigest (o : Object) : prog (Sweep B) string :=
  run! scopeContext mt in
  do! r := attempt (on_sys (store w (fun _ => st_Get (ob_StorageKey o) noGetOptions))) in
  match r with
  | Err e => joined mt (fail e)
  | Ok (data, info) =>
      run! refuse_if (oi_Key info <>s ob_StorageKey o) (Wrap "" [scopeRowFault (NewError "scrub storage key echo")]) in
      run! joined mt (scopeContext mt) in
      ret (md5_Sum data)
  end.

Definition markScrubCorrupt (o : Object) : prog (Sweep B) verdict :=
  or_scrub_fault (joined mt (on_sys (call w (fun f _ =>
    on_objects (SetObjectMetaKey f (ob_TenantID o) (ob_Bucket o) (ob_Key o) scrub_status_key "corrupt"))))) (fun _ =>
  or_scrub_fault (deleteScopedObjectChunks mt o) (fun _ =>
  or_scrub_fault (scopeContext mt) (fun _ => ret (scrubCorrupt, Some (NewError "corrupt"))))).

Definition clearCorruptFlag (o : Object) : prog (Sweep B) unit :=
  run! scopeContext mt in
  if (meta_get (ob_Metadata o) scrub_status_key <>s "corrupt") then ret tt
  else joined mt (on_sys (call w (fun f _ =>
         on_objects (DeleteObjectMetaKey f (ob_TenantID o) (ob_Bucket o) (ob_Key o) scrub_status_key)))).

Definition verifyScrubContent (o : Object) (expected : string) : prog (Sweep B) verdict :=
  do! r := attempt (readScrubDigest o) in
  match r with
  | Err e => ret (if ordinaryMissing e StorageErrNotFound then (scrubSkipped, None) else (scrubFault, Some e))
  | Ok computed =>
      do! out := scope_object mt w o (ob_TenantID o) (ob_Bucket o) in
      scrub_admission out (fun actual =>
      if (meta_get (ob_Metadata actual) content_md5_key <>s meta_get (ob_Metadata o) content_md5_key)
      then ret (scrubFault, Some (scopeRowFault (NewError "scrub digest identity changed")))
      else if (computed =s expected) then or_scrub_fault (clearCorruptFlag actual) (fun _ => ret (scrubIntact, None))
      else markScrubCorrupt actual)
  end.

Definition md5_Size : Z := 16.

Definition scrubObjectResult (o : Object) (tenant bucket : string) : prog (Sweep B) verdict :=
  match validateOrphanConfiguration j false with
  | Some e => run! faulted in ret (scrubScopeFault, Some e)
  | None =>
      do! out := scope_object mt w o tenant bucket in
      scrub_admission out (fun o =>
      if negb (is_live o) || isDeleteMarker o || (meta_get (ob_Metadata o) content_md5_key =s "") then ret (scrubSkipped, None)
      else match DecodeString (meta_get (ob_Metadata o) content_md5_key) with
           | None => ret (scrubFault, Some (NewError "illegal base64 data"))
           | Some expected => if len expected =? md5_Size then verifyScrubContent o expected
                              else ret (scrubFault, Some (NewError "scrub: invalid Content-MD5 length"))
           end)
  end.

(** A row that is gone is nothing to the single-object scrub without a boundary. *)
Definition scrubObject (o : Object) : prog (Sweep B) (option error) :=
  do! r := scrubObjectResult o "" "" in
  ret (if negb (boundary_configured j) && negb (jb_coverageConfigured j) && Is (snd r) errScopeObjectGone then None else snd r).

(** (scanned, corrupt). *)
Definition scrubAll (tenant : string) : prog (Sweep B) (Z * Z) :=
  if negb (jb_scrub_enabled j) then ret (0, 0)
  else walkObjectRows tenant (if jb_scrub_batch j <=? 0 then 100 else jb_scrub_batch j) (fun bucket '(scanned, corrupt) o =>
    do! r := scrubObjectResult o tenant bucket in
    match fst r with
    | scrubIntact | scrubSkipped => ret (scanned + 1, corrupt)
    | scrubCorrupt => ret (scanned + 1, corrupt + 1)
    | scrubFault => run! faulted in ret (scanned, corrupt)
    | scrubScopeRefused | scrubScopeFault => ret (scanned, corrupt)
    end) (0, 0).

(** ** The sweep *)

Record Report := { rp_scanned : Z; rp_orphanRows : Z; rp_orphanBlobs : Z; rp_deletedBlobs : Z; rp_scrubCorrupt : Z }.
Definition noReport : Report := {| rp_scanned := 0; rp_orphanRows := 0; rp_orphanBlobs := 0; rp_deletedBlobs := 0; rp_scrubCorrupt := 0 |}.

Fixpoint sweep_tenants (l : list string) (rp : Report) : prog (Sweep B) Report :=
  match l with
  | [] => ret rp
  | t :: rest =>
      do! rows := sweepOrphanRows t in
      do! blobs := sweepOrphanBlobs t in
      do! scrub := scrubAll t in
      sweep_tenants rest {| rp_scanned := rp_scanned rp + fst rows + fst scrub; rp_orphanRows := rp_orphanRows rp + snd rows;
        rp_orphanBlobs := rp_orphanBlobs rp + fst blobs; rp_deletedBlobs := rp_deletedBlobs rp + snd blobs;
        rp_scrubCorrupt := rp_scrubCorrupt rp + snd scrub |}
  end.

Definition sweep : prog (Sweep B) Report :=
  run! resetCounts in when_ready noReport (sweep_tenants (jb_tenants j) noReport).
End Reconcile.

(** ** Retention (retention.go) *)

Record RetentionJob := { rt_mt : Maintenance; rt_interval : Z; rt_retention : Z; rt_idemTTL : Z; rt_singleton : Singleton }.

Definition NewRetention (d : dialect) (ctx : option (nat -> option error)) (interval retention : Z) : RetentionJob := {|
  rt_mt := new_maintenance d ctx; rt_interval := interval; rt_retention := retention; rt_idemTTL := 0;
  rt_singleton := NewSingleton leaseRetentionGC |}.

Definition retention_mt (f : Maintenance -> Maintenance) (r : RetentionJob) : RetentionJob := {|
  rt_mt := f (rt_mt r); rt_interval := rt_interval r; rt_retention := rt_retention r; rt_idemTTL := rt_idemTTL r;
  rt_singleton := rt_singleton r |}.
Definition WithIdempotencyTTL (r : RetentionJob) (ttl : Z) : RetentionJob := {|
  rt_mt := rt_mt r; rt_interval := rt_interval r; rt_retention := rt_retention r; rt_idemTTL := ttl; rt_singleton := rt_singleton r |}.
Definition retention_WithClusterSingleton (r : RetentionJob) (holder : string) : RetentionJob := {|
  rt_mt := rt_mt r; rt_interval := rt_interval r; rt_retention := rt_retention r; rt_idemTTL := rt_idemTTL r;
  rt_singleton := Enable (rt_singleton r) holder |}.
Definition retention_WithChunkCleaner (r : RetentionJob) (c : ChunkCleaner) : RetentionJob := retention_mt (with_cleaner c) r.
Definition retention_WithResourceBoundary (r : RetentionJob) (reader : option (nat -> BindingReader)) : RetentionJob :=
  retention_mt (with_scope reader) r.
Definition retention_ValidateResourceBoundary (r : option RetentionJob) : option error := validate_job "retention" (rt_mt <$> r).

Section Retention.
Context {B : Type} `{Storage B} `{UUIDLib} (r : RetentionJob) (w : World).
#[local] Abbreviation mt := (rt_mt r).

Definition purgeOneSoftDeleted (o : Object) : prog (Sweep B) bool :=
  when_admitted (scope_object mt w o "" "") false (fun o =>
  unless_protected (objectKeyDeletionProtected w (scoped_versions mt w o) o)
    (effect mt (hardDeleteKey mt w (scoped_versions mt w o) o))).

Definition purgeSoftDeleted : prog (Sweep B) Z :=
  if_ready mt 0 (
  do! before := before_now w (rt_retention r) in
  or_else (joined mt (on_sys (call w (fun f _ =>
    ListSoftDeletedBefore (mt_dialect mt) f (snd before) (fst before) 200)))) 0 (fun objs =>
  count_visits purgeOneSoftDeleted objs 0)).

(** How many keys went. *)
Definition purgeIdempotency : prog (Sweep B) Z :=
  if_ready mt 0 (
  do! before := before_now w (rt_idemTTL r) in
  or_else (joined mt (on_sys (call w (fun f _ => DeleteIdempotencyKeysBefore f (snd before))))) 0 ret).

(** (objects, idempotency keys) purged. *)
Definition retention_sweep : prog (Sweep B) (Z * Z) :=
  run! resetCounts in
  if_ready mt (0, 0) (
  do! purged := (if 0 <? rt_retention r then purgeSoftDeleted else ret 0) in
  do! keys := (if 0 <? rt_idemTTL r then purgeIdempotency else ret 0) in
  ret (purged, keys)).
End Retention.

(** ** Lifecycle (lifecycle.go) *)

Record LifecycleJob := { lc_mt : Maintenance; lc_interval : Z; lc_singleton : Singleton }.

Definition NewLifecycle (d : dialect) (ctx : option (nat -> option error)) (interval : Z) : LifecycleJob := {|
  lc_mt := new_maintenance d ctx; lc_interval := interval; lc_singleton := NewSingleton leaseLifecycleSweep |}.

Definition lifecycle_mt (f : Maintenance -> Maintenance) (l : LifecycleJob) : LifecycleJob := {|
  lc_mt := f (lc_mt l); lc_interval := lc_interval l; lc_singleton := lc_singleton l |}.
Definition lifecycle_WithClusterSingleton (l : LifecycleJob) (holder : string) : LifecycleJob := {|
  lc_mt := lc_mt l; lc_interval := lc_interval l; lc_singleton := Enable (lc_singleton l) holder |}.
Definition lifecycle_WithChunkCleaner (l : LifecycleJob) (c : ChunkCleaner) : LifecycleJob := lifecycle_mt (with_cleaner c) l.
Definition lifecycle_WithResourceBoundary (l : LifecycleJob) (reader : option (nat -> BindingReader)) : LifecycleJob :=
  lifecycle_mt (with_scope reader) l.
Definition lifecycle_ValidateResourceBoundary (l : option LifecycleJob) : option error := validate_job "lifecycle" (lc_mt <$> l).

Section Lifecycle.
Context {B : Type} `{Storage B} `{UUIDLib} (l : LifecycleJob) (w : World).
#[local] Abbreviation mt := (lc_mt l).

Definition handleExpiredObject (o : Object) (action : string) : prog (Sweep B) bool :=
  when_admitted (scope_object mt w o "" "") false (fun o =>
  if negb (is_live o) then run! faulted in ret false
  else if (action =s "hard_delete")
  then unless_protected (objectKeyDeletionProtected w (scoped_versions mt w o) o) (effect mt (hardDeleteVersion mt w o))
  else effect mt (softDeleteKey mt w o)).

Fixpoint expire_all (objs : list Object) (soft hard : Z) : prog (Sweep B) (Z * Z) :=
  match objs with
  | [] => ret (soft, hard)
  | o :: rest =>
      let action := meta_get (ob_Metadata o) "__expire_action" in
      do! done := handleExpiredObject o action in
      if (action =s "hard_delete") then expire_all rest soft (bump done hard) else expire_all rest (bump done soft) hard
  end.

(** (soft, hard). *)
Definition sweepExpired : prog (Sweep B) (Z * Z) :=
  if_ready mt (0, 0) (
  or_else (joined mt (on_sys (call w (fun f now => ListExpired f now 200)))) (0, 0) (fun objs => expire_all objs 0 0)).

Definition purgeNonCurrentVersion (v : Object) : prog (Sweep B) bool :=
  when_admitted (scope_object mt w v "" "") false (fun v =>
  if negb (ob_VersionTombstone v) || is_live v then run! faulted in ret false
  else unless_protected (objectDeletionProtected w v) (effect mt (hardDeleteVersion mt w v))).

Definition sweepNonCurrentVersions : prog (Sweep B) Z :=
  if_ready mt 0 (
  or_else (joined mt (on_sys (call w (fun f now => ListExpiredNonCurrentVersions f now 200)))) 0 (fun versions =>
  count_visits purgeNonCurrentVersion versions 0)).

Definition transitionObject (o : Object) : prog (Sweep B) bool :=
  let targetClass := meta_get (ob_Metadata o) "__transition_to" in
  when_admitted (scope_object mt w o "" "") false (fun o =>
  if negb (is_live o) then run! faulted in ret false
  else if (targetClass =s "") || (targetClass =s ob_StorageClass o) then ret false
  else effect mt (on_sys (call w (fun f now => on_objects (
         UpdateObjectStorageClass (mt_dialect mt) f now (ob_TenantID o) (ob_Bucket o) (ob_Key o) targetClass))))).

Definition sweepTransitions : prog (Sweep B) Z :=
  if_ready mt 0 (
  or_else (joined mt (on_sys (call w (fun f now => ListTransitionable f now 200)))) 0 (fun objs =>
  count_visits transitionObject objs 0)).

(** (soft, hard, noncurrent, transitions). *)
Definition lifecycle_sweep : prog (Sweep B) (Z * Z * Z * Z) :=
  run! resetCounts in
  if_ready mt (0, 0, 0, 0) (
  do! expired := sweepExpired in
  do! noncurrent := sweepNonCurrentVersions in
  do! transitions := sweepTransitions in
  ret (expired, noncurrent, transitions)).
End Lifecycle.

(** ** Upload garbage (upload_gc.go) *)

Record UploadGCJob := { ug_mt : Maintenance; ug_interval : Z; ug_ttl : Z; ug_singleton : Singleton }.

Definition NewUploadGC (d : dialect) (ctx : option (nat -> option error)) (interval ttl : Z) : UploadGCJob := {|
  ug_mt := new_maintenance d ctx; ug_interval := interval; ug_ttl := ttl; ug_singleton := NewSingleton leaseUploadGC |}.

Definition upload_WithClusterSingleton (g : UploadGCJob) (holder : string) : UploadGCJob := {|
  ug_mt := ug_mt g; ug_interval := ug_interval g; ug_ttl := ug_ttl g; ug_singleton := Enable (ug_singleton g) holder |}.
Definition upload_WithResourceBoundary (g : UploadGCJob) (reader : option (nat -> BindingReader)) : UploadGCJob := {|
  ug_mt := with_scope reader (ug_mt g); ug_interval := ug_interval g; ug_ttl := ug_ttl g; ug_singleton := ug_singleton g |}.
Definition upload_ValidateResourceBoundary (g : option UploadGCJob) : option error := validate_job "upload GC" (ug_mt <$> g).

(** The part counts of an upload are never read from the table. *)
Definition sameUploadObservation (a b : Upload) : bool :=
  sameUploadIdentity a b && (up_CreatedAt a =? up_CreatedAt b) && (up_ContentType a =s up_ContentType b) &&
  (up_StorageClass a =s up_StorageClass b) && bool_decide (up_Metadata a = up_Metadata b) && bool_decide (up_Tags a = up_Tags b).

Definition uploadAlreadyObserved (observed : list Upload) (u : Upload) : bool :=
  existsb (fun prior => sameUploadObservation prior u) observed.

Fixpoint merge_uploads (merged l : list Upload) : list Upload :=
  match l with
  | [] => merged
  | u :: rest =>
      merge_uploads (if uploadAlreadyObserved (List.filter (fun x => up_ID x =s up_ID u) merged) u then merged else merged ++ [u]) rest
  end.
Definition mergeUploadCandidates (groups : list (list Upload)) : list Upload := merge_uploads [] (concat groups).

Section UploadGC.
Context {B : Type} `{Storage B} `{Maintained B} `{UUIDLib} (g : UploadGCJob) (w : World).
#[local] Abbreviation mt := (ug_mt g).

Definition listExpiredUploads (before : time * string) : prog (Sweep B) (list Upload) :=
  if_ready mt [] (or_else (joined mt (on_sys (call w (fun f _ => ListExpiredUploads (mt_dialect mt) f (snd before) (fst before) 200)))) [] ret).
Definition listZombieUploads (before : time * string) : prog (Sweep B) (list Upload) :=
  if_ready mt [] (or_else (joined mt (on_sys (call w (fun f _ => ListZombieUploads (mt_dialect mt) f (snd before) (fst before) 200)))) [] ret).

(** [all] is the batch [l] is a rest of. *)
Fixpoint admit_uploads (all l : list Upload) : prog (Sweep B) (list Upload) :=
  match l with
  | [] => ret []
  | u :: rest =>
      if (1 <? length (List.filter (fun x => up_ID x =s up_ID u) all))%nat then run! faulted in admit_uploads all rest
      else do! out := scope_upload mt w u in
           do! more := admit_uploads all rest in
           ret (match out with scopeAdmitted actual => actual :: more | _ => more end)
  end.

Definition admittedUploads (uploads : list Upload) : prog (Sweep B) (list Upload) :=
  let uploads := mergeUploadCandidates [uploads] in admit_uploads uploads uploads.

Definition cleanup_parts (u : Upload) : prog (Sweep B) unit :=
  joined mt (on_sys (store w (fun _ => st_CleanupParts (up_StorageKey u) (up_BackendUID u)))).

Definition purgeUpload (u : Upload) : prog (Sweep B) bool :=
  when_admitted (scope_upload mt w u) false (fun u =>
  do! r := attempt (cleanup_parts u) in
  if match r with Ok _ => false | Err e => negb (ordinaryMissing e StorageErrNotFound) end then run! faulted in ret false
  else when_admitted (scope_upload mt w u) false (fun _ =>
       or_else (joined mt (on_sys (call w (fun f _ => DeleteUploadCascade f (up_ID u))))) false (fun _ => ret true))).

Definition purgeUploads (uploads : list Upload) : prog (Sweep B) Z :=
  if_ready mt 0 (do! admitted := admittedUploads uploads in count_visits purgeUpload admitted 0).

(** How many were purged, if the job came so far. *)
Definition upload_sweep : prog (Sweep B) (option Z) :=
  run! resetCounts in
  if_ready mt None (
  do! before := before_now w (ug_ttl g) in
  do! expired := listExpiredUploads before in
  do! zombies := listZombieUploads before in
  do! faults := reads (fun s => Ok (sw_faults s)) in
  if 0 <? faults then ret None
  else match mergeUploadCandidates [expired; zombies] with
       | [] => ret None
       | candidates => do! n := purgeUploads candidates in ret (Some n)
       end).
End UploadGC.

(** ** Rounds *)

Section Rounds.
Context {B : Type} `{Storage B} `{Maintained B} `{MD5} `{UUIDLib} (w : World).

(** maybeSweep: a sweep under the job's lease, of two intervals. *)
Definition maybeSweep {A} (ready : prog (Sweep B) bool) (sg : Singleton) (interval : Z) (sweep : prog (Sweep B) A)
    (st : LeaseDB * Sweep B) : (LeaseDB * Sweep B) * option (result A) :=
  match ready (snd st) with
  | (s, Ok true) =>
      let t := sy_tick (sw_sys s) in
      let ticks := on_sys (B := B) (fun y => (set_repo (sy_repo y) (set_repo (sy_repo y) y), Ok tt)) in
      Guard sg (w_fault w t) (w_fault w (S t)) (w_now w t) (wrap64 (2 * interval)) sweep (fst st, fst (ticks s))
  | (s, _) => ((fst st, s), None)
  end.

Fixpoint repeat_rounds {X} (round : X -> X) (n : nat) (st : X) : X :=
  match n with O => st | S n => repeat_rounds round n (round st) end.

(** Run: nothing if the job is off or not ready, else a sweep now and one for each tick of
    the clock before the context ends. *)
Definition Run {A} (on : bool) (ready : prog (Sweep B) bool) (sg : Singleton) (interval : Z) (sweep : prog (Sweep B) A) (ticks : nat)
    (st : LeaseDB * Sweep B) : LeaseDB * Sweep B :=
  if negb on then st
  else match ready (snd st) with
       | (s, Ok true) => repeat_rounds (fun st => fst (maybeSweep ready sg interval sweep st)) (S ticks) (fst st, s)
       | (s, _) => (fst st, s)
       end.

Definition reconcile_Run (rounds : nat) (j : Job) : nat -> LeaseDB * Sweep B -> LeaseDB * Sweep B :=
  Run (0 <? jb_interval j) (job_ready j) (jb_singleton j) (jb_interval j) (sweep rounds j w).
Definition retention_Run (r : RetentionJob) : nat -> LeaseDB * Sweep B -> LeaseDB * Sweep B :=
  Run ((0 <? rt_interval r) && ((0 <? rt_retention r) || (0 <? rt_idemTTL r))) (ready_now (rt_mt r)) (rt_singleton r) (rt_interval r)
    (retention_sweep r w).
Definition lifecycle_Run (l : LifecycleJob) : nat -> LeaseDB * Sweep B -> LeaseDB * Sweep B :=
  Run (0 <? lc_interval l) (ready_now (lc_mt l)) (lc_singleton l) (lc_interval l) (lifecycle_sweep l w).
Definition upload_Run (g : UploadGCJob) : nat -> LeaseDB * Sweep B -> LeaseDB * Sweep B :=
  Run ((0 <? ug_interval g) && (0 <? ug_ttl g)) (ready_now (ug_mt g)) (ug_singleton g) (ug_interval g) (upload_sweep g w).
End Rounds.
