(* ===== verification/ReconcileProps.v ===== *)
(** * What the maintenance sweeps guarantee

    [still]: a program that changes no row and no blob; [closed_still] and its like: triples
    over an assertion that such programs keep.

    However often they run, in any order, the retention and lifecycle jobs leave every object
    under retention or legal hold, its row, its hold and its blob ([sweeps_spare_protected]).  A purge takes
    every version of its key ([purge_takes_every_version]), an object uploaded since
    included ([recreated_object_is_lost]).  The sweep of orphan blobs leaves those it has no
    right to ([orphan_sweep_spares]), over the laws [ListingLaws] of a backend's listing. *)

From Stdlib Require Import Ascii Lia Bool ZArith.
From stdpp Require Import base gmap strings list numbers option pretty sorting.
From S2P Require Import Prelude GoStrings GoTime Base64 GoErrors Sql JsonStruct Spaces Envelope Storage LocalStorage Access AccessStore Outbox OutboxProps Objects ObjectsInvariant ObjectsProps EventLog Repo Service ServiceWrite ServiceDelete ServiceSample ServiceGate ServiceProtection SpacesInvariant Lease Reconcile ReconcileJob.

Open Scope Z_scope.

(** ** Steps that change no object and no blob *)

Section Still.
Context {B : Type} `{Storage B} `{UUIDLib}.

Definition same_store (s s' : Sweep B) : Prop :=
  r_objects (sy_repo (sw_sys s')) = r_objects (sy_repo (sw_sys s)) /\ sy_blobs (sw_sys s') = sy_blobs (sw_sys s).

#[export] Instance same_store_preorder : PreOrder same_store.
Proof. split; [by intros s|]. intros s s' s'' [H1 H2] [H3 H4]. split; congruence. Qed.

Definition still {A} (m : prog (Sweep B) A) : Prop := keeps same_store m.

Lemma still_ret {A} (a : A) : still (ret a).
Proof. apply keeps_ret, _. Qed.
Lemma still_fail {A} e : still (@fail _ A e).
Proof. apply keeps_fail, _. Qed.
Lemma still_reads {A} (f : Sweep B -> result A) : still (reads f).
Proof. apply keeps_reads, _. Qed.
Lemma still_guard f : still (guard f).
Proof. apply keeps_guard, _. Qed.
Lemma still_refuse c e : still (refuse_if c e).
Proof. apply keeps_refuse_if, _. Qed.
Lemma still_bind {A C} (m : prog (Sweep B) A) (k : A -> prog (Sweep B) C) : still m -> (forall a, still (k a)) -> still (bind m k).
Proof. apply keeps_bind, _. Qed.
Lemma still_map_err {A} f (m : prog (Sweep B) A) : still m -> still (map_err f m).
Proof. apply keeps_map_err. Qed.
Lemma still_attempt {A} (m : prog (Sweep B) A) : still m -> still (attempt m).
Proof. intros Hm s. specialize (Hm s). unfold attempt. by destruct (m s). Qed.
Lemma still_counting {A} (m : prog (Sweep B) A) : still m -> still (counting m).
Proof. intros Hm s. specialize (Hm s). unfold counting. by destruct (m s) as [s' [a|e]]. Qed.
Lemma still_on_sys {A} (m : prog (Sys B) A) : quiet m -> still (on_sys m).
Proof. intros Hm s. specialize (Hm (sw_sys s)). unfold on_sys. destruct (m (sw_sys s)) as [y r]. destruct Hm as [Hr Hb]. split; cbn in *; congruence. Qed.
Lemma still_faulted : still faulted.
Proof. by intros s. Qed.
Lemma still_refused : still refused.
Proof. by intros s. Qed.
Lemma still_reset : still resetCounts.
Proof. by intros s. Qed.
Lemma still_tick {A} (f : nat -> A) : still (at_tick f).
Proof. by intros s. Qed.
End Still.

Create HintDb still.
#[export] Hint Resolve still_ret still_fail still_reads still_guard still_refuse still_map_err still_attempt still_counting
  still_faulted still_refused still_reset still_tick : still.

#[export] Hint Extern 1 (still (on_sys (call _ _))) => apply still_on_sys, quiet_call; auto with quiet : still.

(** Reduces [still] of a program to the calls it makes. *)
Ltac still_tac :=
  repeat match goal with
  | |- still (bind _ _) => apply still_bind; [|intros ?]
  | |- still (attempt _) => apply still_attempt
  | |- still (counting _) => apply still_counting
  | |- still (map_err _ _) => apply still_map_err
  | |- still (on_sys (call _ _)) => solve [auto with still]
  | |- still (on_sys (clock _)) => apply still_on_sys, quiet_clock
  | |- still (if ?c then _ else _) => destruct c
  | |- still (match ?x with _ => _ end) => destruct x
  | |- still _ => auto with still
  end.

Section StillSteps.
Context {B : Type} `{Storage B} `{UUIDLib} (mt : Maintenance) (w : World).

Lemma still_observe {A} (o : scopeOutcome A) : still (B := B) (observe o).
Proof. unfold observe. still_tac. Qed.
Lemma still_context : still (B := B) (scopeContext mt).
Proof. unfold scopeContext. still_tac. Qed.
#[local] Hint Resolve still_observe still_context : still.
Lemma still_joined {A} (m : prog (Sweep B) A) : still m -> still (joined mt m).
Proof. intros Hm. unfold joined. still_tac. Qed.
Lemma still_ready : still (B := B) (ready mt).
Proof. unfold ready. still_tac. Qed.
#[local] Hint Resolve still_joined still_ready : still.
Lemma still_check t b : still (B := B) (scope_check mt t b).
Proof. unfold scope_check. still_tac. Qed.
Lemma still_failed e : still (B := B) (failed e).
Proof. unfold failed. still_tac. Qed.
Lemma still_canonical o t b : still (B := B) (canonicalObject mt w o t b).
Proof. unfold canonicalObject. still_tac. Qed.
#[local] Hint Resolve still_check still_canonical : still.
Lemma still_object o t b : still (B := B) (scope_object mt w o t b).
Proof. unfold scope_object, or_fault. still_tac. Qed.
Lemma still_upload u : still (B := B) (scope_upload mt w u).
Proof. unfold scope_upload, or_fault. still_tac. Qed.
Lemma still_repo_versions t b k : still (B := B) (repo_versions mt w t b k).
Proof. unfold repo_versions. still_tac. Qed.
Lemma still_validate_versions anchor t b k seen l : still (B := B) (validate_versions mt w anchor t b k seen l).
Proof. revert seen. induction l as [|v l IH]; intros seen; cbn [validate_versions]; still_tac. Qed.
#[local] Hint Resolve still_repo_versions still_validate_versions : still.
Lemma still_versions anchor t b k : still (B := B) (scoped_versions mt w anchor t b k).
Proof. unfold scoped_versions, validateVersions. still_tac. Qed.
Lemma still_protected o : still (B := B) (objectDeletionProtected w o).
Proof. unfold objectDeletionProtected. still_tac. Qed.
#[local] Hint Resolve still_protected : still.
Lemma still_any l : still (B := B) (any_protected w l).
Proof. induction l as [|v l IH]; cbn [any_protected]; still_tac. Qed.
Lemma still_chunks o : still (B := B) (sweep_chunks mt o).
Proof.
  unfold sweep_chunks, deleteScopedObjectChunks. still_tac. by intros s.
Qed.
Lemma still_add_usage f2 t x y : still (B := B) (on_sys (call w (fun f now => AddTenantUsage f f2 now t x y))).
Proof.
  intros s. unfold on_sys, call, AddTenantUsage, exec, upsert_quota. destruct (w_fault w (sy_tick (sw_sys s))); [done|]. cbn.
  by destruct f2.
Qed.
#[local] Hint Resolve still_add_usage : still.
Lemma still_usage t x y : still (B := B) (adjustUsage w t x y).
Proof. unfold adjustUsage. still_tac. Qed.
Lemma still_ready_now : still (B := B) (ready_now mt).
Proof. unfold ready_now. still_tac. Qed.
End StillSteps.
#[export] Hint Resolve still_observe still_context still_joined still_ready still_check still_failed still_canonical still_object still_upload
  still_repo_versions still_validate_versions still_versions still_protected still_any still_chunks still_usage still_ready_now : still.

(** ** Assertions that steps without effect keep *)

Section Closed.
Context {B : Type} `{Storage B} `{UUIDLib} (I : Sweep B -> Prop) (closed : forall s s', same_store s s' -> I s -> I s').

Lemma closed_still {A} (m : prog (Sweep B) A) Q :
  still m -> (forall s s' a, I s -> m s = (s', Ok a) -> Q a) -> triple I m Q.
Proof.
  intros Hm HQ s Hs. split; [by eapply closed, Hs|]. destruct (m s) as [s' [a|e]] eqn:E; [by eapply HQ|done].
Qed.
Lemma closed_any {A} (m : prog (Sweep B) A) : still m -> triple I m (fun _ => True).
Proof. intros Hm. by apply closed_still. Qed.
Lemma closed_skip {A C} (m : prog (Sweep B) A) (k : A -> prog (Sweep B) C) R :
  still m -> (forall a, triple I (k a) R) -> triple I (bind m k) R.
Proof. intros Hm Hk. eapply triple_bind; [by apply closed_any|]. intros a _. apply Hk. Qed.
Lemma closed_attempt {A} (m : prog (Sweep B) A) Q :
  triple I m Q -> triple I (attempt m) (fun r => match r with Ok a => Q a | Err _ => True end).
Proof. intros Hm s Hs. specialize (Hm s Hs). unfold attempt. by destruct (m s). Qed.
Lemma closed_joined mt {A} (m : prog (Sweep B) A) Q : triple I m Q -> triple I (joined mt m) Q.
Proof.
  intros Hm. unfold joined. eapply triple_bind; [by apply closed_attempt|]. intros r Hr. apply closed_skip; [still_tac|]. intros c.
  destruct (errors_Join _); [apply triple_fail|]. destruct r; [by apply triple_ret|apply triple_fail].
Qed.
End Closed.

(** ** One object's row and blob *)

Section Spare.
Context {B : Type} `{StorageLaws B} `{UUIDLib} (w : World) (p : Object) (reads_as : GetOptions) (content : option string) (had_hold : Prop).

Definition hold_flag (o : Object) : string := meta_get (ob_Metadata o) legal_hold_key.

(** The row is this object: its place, its blob and what protects it. *)
Definition is_this (r : Object) : Prop :=
  ob_TenantID r = ob_TenantID p /\ ob_Bucket r = ob_Bucket p /\ ob_Key r = ob_Key p /\ ob_StorageKey r = ob_StorageKey p /\
  ob_LockedUntil r = ob_LockedUntil p /\ hold_flag r = hold_flag p.

(** A row of the table: this object, or one whose blob is another. *)
Definition known (r : Object) : Prop :=
  (ob_ID r = ob_ID p -> is_this r) /\
  (ob_ID r <> ob_ID p -> isDeleteMarker r = false -> st_apart (ob_StorageKey r) (ob_StorageKey p)).

Definition has_hold (db : ObjectsDB) : Prop := exists h, h ∈ legal_holds db /\ lh_object_id h = ob_ID p.

Definition under_protection (db : ObjectsDB) : Prop :=
  (exists t, ob_LockedUntil p = Some t /\ forall n, w_now w n < t) \/ hold_flag p = "ON"%string \/ has_hold db.

Definition present (db : ObjectsDB) : Prop :=
  (exists r, r ∈ objects db /\ ob_ID r = ob_ID p) /\ (forall r, r ∈ objects db -> known r) /\ under_protection db /\ (had_hold -> has_hold db).

Definition spared (s : Sweep B) : Prop :=
  present (r_objects (sy_repo (sw_sys s))) /\ st_valid (sy_blobs (sw_sys s)) /\
  stored reads_as (ob_StorageKey p) (sy_blobs (sw_sys s)) = content.

(** *** Statements *)

(** An update that leaves what [known] looks at. *)
Definition keeps_known (f : Object -> Object) : Prop :=
  forall r, ob_ID (f r) = ob_ID r /\ ob_TenantID (f r) = ob_TenantID r /\ ob_Bucket (f r) = ob_Bucket r /\ ob_Key (f r) = ob_Key r /\
    ob_StorageKey (f r) = ob_StorageKey r /\ ob_LockedUntil (f r) = ob_LockedUntil r /\ ob_Metadata (f r) = ob_Metadata r.

Lemma known_update f r : keeps_known f -> known r -> known (f r).
Proof.
  intros Hf [Hsame Hother]. destruct (Hf r) as (Hi & Ht & Hb & Hk & Hs & Hl & Hm). unfold known, is_this, hold_flag, isDeleteMarker in *.
  by rewrite Hi, Ht, Hb, Hk, Hs, Hl, Hm.
Qed.

Lemma present_update q f : keeps_known f -> triple present (update_objects q f) (fun _ => True).
Proof.
  intros Hf db ((r & Hr & Hid) & Hk & Hp). split; [|done]. cbn. destruct Hp as [Hp Hh]; split_and!; [| |exact Hp|exact Hh].
  - destruct (q r) eqn:E.
    + exists (f r). split; [apply elem_update_where; left; by exists r|]. by destruct (Hf r) as [-> _].
    + exists r. split; [|done]. apply elem_update_where. by right.
  - intros x [(y & Hy & _ & ->)|[Hx _]]%elem_update_where; [apply known_update; [done|by apply Hk]|by apply Hk].
Qed.

Lemma present_delete q : (forall r, known r -> ob_ID r = ob_ID p -> q r = false) -> triple present (delete_objects q) (fun _ => True).
Proof.
  intros Hq db ((r & Hr & Hid) & Hk & Hp). split; [|done]. refine (conj _ (conj _ _)).
  - exists r. split; [|done]. apply elem_delete_where. split; [done|]. apply Hq; [by apply Hk|done].
  - intros x [Hx _]%elem_delete_where. by apply Hk.
  - assert (has_hold db -> has_hold (fst (delete_objects q db))) as Hh.
    { intros (h & Hh & Hi). exists h. split; [|done]. apply elem_delete_where. split; [done|]. destruct (existsb _ _) eqn:E; [|done].
      apply existsb_elem in E as (x & Hx & [Ex Eq]%andb_true_iff). apply Z.eqb_eq in Ex. rewrite Hq in Eq; [done|by apply Hk|lia]. }
    destruct Hp as [Hp Hkept]. split; [|by intros ?%Hkept%Hh]. destruct Hp as [Hp|[Hp|Hp]]; [by left|by right; left|right; right; by apply Hh].
Qed.

Lemma present_access f : triple present (on_access f) (fun _ => True).
Proof. intros db Hdb. unfold on_access, writes. by cbn. Qed.

Lemma triple_in_tx {A} (m : prog ObjectsDB A) : triple present m (fun _ => True) -> triple present (in_tx m) (fun _ => True).
Proof. intros Hm db Hdb. specialize (Hm db Hdb). unfold in_tx. by destruct (m db) as [db' [a|e]]; destruct Hm. Qed.

Lemma triple_ctx ctx : triple present (with_ctx ctx) (fun _ => True).
Proof. apply triple_guard. Qed.

Lemma present_soft_delete d ctx now t b k : triple present (SoftDeleteObject d ctx now t b k) (fun _ => True).
Proof.
  unfold SoftDeleteObject, soft_delete, drop_access_state. eapply triple_bind; [apply triple_ctx|]. intros _ _. apply triple_in_tx.
  eapply (triple_bind _ _ _ (fun _ => True)); [|intros _ _; apply present_access]. eapply triple_bind; [apply present_update; by intros r|].
  intros n _. eapply triple_weaken; [|apply triple_refuse]. done.
Qed.

Lemma present_class d ctx now t b k cls : triple present (UpdateObjectStorageClass d ctx now t b k cls) (fun _ => True).
Proof.
  unfold UpdateObjectStorageClass. eapply triple_bind; [apply triple_ctx|]. intros _ _.
  eapply triple_bind; [apply present_update; by intros r|]. intros n _. by apply triple_ret.
Qed.

Lemma present_delete_id ctx id : id <> ob_ID p -> triple present (HardDeleteObjectByID ctx id) (fun _ => True).
Proof.
  intros Hid. unfold HardDeleteObjectByID, refuse_held_id, objectVersionCount, drop_access_state.
  eapply triple_bind; [apply triple_ctx|]. intros _ _. apply triple_in_tx.
  eapply (triple_bind _ _ _ (fun _ => True)); [by apply triple_reads|]. intros row _.
  eapply triple_bind; [apply triple_guard|]. intros _ _.
  eapply triple_bind; [apply present_delete; intros r _ Hr; apply Z.eqb_neq; congruence|]. intros n _.
  eapply triple_bind; [apply triple_refuse|]. intros _ _.
  eapply (triple_bind _ _ _ (fun _ => True)); [by apply triple_reads|]. intros m _.
  destruct (m =? 0); [apply present_access|by apply triple_ret].
Qed.

Lemma present_delete_key ctx t b k : at_key (defaultTenant t) b k p = false -> triple present (HardDeleteObject ctx t b k) (fun _ => True).
Proof.
  intros Hk. unfold HardDeleteObject, refuse_held, drop_access_state. eapply triple_bind; [apply triple_ctx|]. intros _ _.
  apply triple_in_tx. eapply triple_bind; [apply triple_guard|]. intros _ _. eapply triple_bind; [apply present_access|]. intros _ _.
  eapply triple_bind; [apply present_delete|intros n _; by apply triple_ret].
  intros r [Hr _] Hid. destruct (Hr Hid) as (Ht & Hb & Hke & _). unfold at_key in *. by rewrite Ht, Hb, Hke.
Qed.

(** *** Steps *)

Lemma spared_still s s' : same_store s s' -> spared s -> spared s'.
Proof. intros [Hr Hb] (Hp & Hv & Hs). unfold spared. by rewrite Hr, Hb. Qed.

Lemma triple_still {A} (m : prog (Sweep B) A) Q :
  still m -> (forall s s' a, spared s -> m s = (s', Ok a) -> Q a) -> triple spared m Q.
Proof. apply closed_still, spared_still. Qed.
Lemma spared_any {A} (m : prog (Sweep B) A) : still m -> triple spared m (fun _ => True).
Proof. apply closed_any, spared_still. Qed.
Lemma spared_skip {A C} (m : prog (Sweep B) A) (k : A -> prog (Sweep B) C) R :
  still m -> (forall a, triple spared (k a) R) -> triple spared (bind m k) R.
Proof. apply closed_skip, spared_still. Qed.

Lemma triple_attempt {A} (m : prog (Sweep B) A) Q :
  triple spared m Q -> triple spared (attempt m) (fun r => match r with Ok a => Q a | Err _ => True end).
Proof. apply closed_attempt. Qed.

(** A call of the object tables that keeps the row. *)
Lemma triple_objects {A} (m : option error -> time -> prog ObjectsDB A) :
  (forall f now, triple present (m f now) (fun _ => True)) ->
  triple spared (on_sys (call w (fun f now => on_objects (m f now)))) (fun _ => True).
Proof.
  intros Hm s (Hp & Hv & Hs). unfold on_sys, call, on_objects.
  specialize (Hm (w_fault w (sy_tick (sw_sys s))) (w_now w (sy_tick (sw_sys s))) _ Hp).
  destruct (m _ _ _) as [db r]. destruct Hm as [Hm _]. split; [|by destruct r]. unfold spared. cbn in *. done.
Qed.

Lemma triple_delete_blob wrap o : known o -> ob_ID o <> ob_ID p -> triple spared (delete_blob w wrap o) (fun _ => True).
Proof.
  intros [_ Ho] Hid. unfold delete_blob. destruct (isDeleteMarker o) eqn:E; [by apply triple_ret|].
  eapply triple_bind; [apply triple_attempt|intros [a|e] _; [by apply triple_ret|]].
  - instantiate (1 := fun _ => True). intros s (Hp & Hv & Hs). split; [|by destruct (snd _)]. unfold on_sys, store.
    pose proof (delete_valid (ob_StorageKey o) (sy_blobs (sw_sys s)) Hv) as Hv'.
    pose proof (delete_frame (ob_StorageKey o) (sy_blobs (sw_sys s)) reads_as (ob_StorageKey p) Hv (Ho Hid eq_refl)) as Hf.
    destruct (st_Delete _ _) as [b r]. split_and!; [done|done|]. cbn in *. congruence.
  - destruct (errors_Is e StorageErrNotFound); [by apply triple_ret|apply triple_fail].
Qed.
Context (mt : Maintenance).

Lemma call_objects_Ok {A} (m : option error -> time -> prog ObjectsDB A) (s s' : Sweep B) a :
  on_sys (call w (fun f now => on_objects (m f now))) s = (s', Ok a) ->
  exists f now, snd (m f now (r_objects (sy_repo (sw_sys s)))) = Ok a.
Proof.
  unfold on_sys, call, on_objects. intros E. exists (w_fault w (sy_tick (sw_sys s))), (w_now w (sy_tick (sw_sys s))).
  by destruct (m _ _ _) as [db r]; injection E as _ ->.
Qed.

(** A check that lets an object pass lets another than this one pass. *)
Lemma triple_protected o : known o -> triple spared (objectDeletionProtected w o) (fun b => b = false -> ob_ID o <> ob_ID p).
Proof.
  intros [Ho _]. apply triple_still; [auto with still|]. intros s s' b ((_ & _ & Hp & _) & _) E -> Hid.
  destruct (Ho Hid) as (_ & _ & _ & _ & Hl & Hf). unfold objectDeletionProtected in E. rewrite Hl in E. fold (hold_flag o) in E.
  apply bind_Ok in E as (s1 & locked & E1 & E).
  assert (r_objects (sy_repo (sw_sys s1)) = r_objects (sy_repo (sw_sys s)) /\
          forall t, ob_LockedUntil p = Some t -> (forall n, w_now w n < t) -> locked = true) as [Hr Hlock].
  { destruct (ob_LockedUntil p) as [t|]; [|apply ret_Ok in E1 as [-> _]; split; [done|by intros]].
    apply bind_Ok in E1 as (s2 & now & E1 & E2). apply ret_Ok in E2 as [-> <-]. unfold on_sys, clock in E1. injection E1 as <- <-.
    split; [done|]. intros t' [= <-] Hn. unfold After. apply Z.ltb_lt, Hn. }
  destruct locked; [by apply ret_Ok in E as [_ ?]|].
  destruct Hp as [(t & Ht & Hn)|[Hon|(h & Hh & Hhid)]]; [by specialize (Hlock t Ht Hn)|by rewrite Hf, Hon in E|].
  destruct (hold_flag o =s "ON"); [by apply ret_Ok in E as [_ ?]|].
  apply (call_objects_Ok (fun f _ => ObjectHasLegalHold f (ob_ID o))) in E as (f & now & E). unfold ObjectHasLegalHold, with_ctx, bind, guard in E. destruct f; [done|].
  cbn in E. injection E as E. rewrite Hr in E. apply Z.ltb_ge in E.
  assert (h ∈ List.filter (fun h => lh_object_id h =? ob_ID o) (legal_holds (r_objects (sy_repo (sw_sys s))))) as Hin.
  { apply elem_filter_b. split; [done|]. apply Z.eqb_eq. congruence. }
  destruct (List.filter _ _); [by apply not_elem_of_nil in Hin|cbn in E; lia].
Qed.

Lemma triple_refuse_protected o : known o -> triple spared (refuse_protected w o) (fun _ => ob_ID o <> ob_ID p).
Proof.
  intros Ho. unfold refuse_protected. eapply triple_bind; [by apply triple_protected|]. intros b Hb. cbn in Hb.
  eapply triple_weaken; [|apply triple_refuse]. intros u Hf. by apply Hb.
Qed.

Lemma triple_counting {A} (m : prog (Sweep B) A) Q : triple spared m Q -> triple spared (counting m) Q.
Proof.
  intros Hm s Hs. specialize (Hm s Hs). unfold counting. destruct (m s) as [s' [a|e]]; [done|]. split; [|done]. by destruct Hm.
Qed.

Lemma triple_or_fault {A C} (m : prog (Sweep B) A) (k : A -> prog (Sweep B) (scopeOutcome C)) Q R :
  triple spared m Q -> (forall a, Q a -> triple spared (k a) R) -> (forall e, R (scopeFault e)) -> triple spared (or_fault m k) R.
Proof.
  intros Hm Hk HR. unfold or_fault. eapply triple_bind; [by apply triple_attempt|]. intros [a|e] Ha; [by apply Hk|by apply triple_ret].
Qed.

Lemma triple_row id : triple spared (on_sys (call w (fun f _ => on_objects (GetObjectByID f id)))) known.
Proof.
  apply triple_still; [still_tac|]. intros s s' a ((_ & Hk & _) & _) E.
  apply (call_objects_Ok (fun f _ => GetObjectByID f id)) in E as (f & now & E).
  unfold GetObjectByID, with_ctx, bind, guard in E. destruct f; [done|]. cbn in E. apply get_row_elem in E as [Hin _]. by apply Hk.
Qed.

Lemma triple_canonical o t b : triple spared (canonicalObject mt w o t b) (fun a => known a /\ ob_ID a = ob_ID o).
Proof.
  unfold canonicalObject. apply spared_skip; [auto with still|]. intros _. apply spared_skip; [auto with still|]. intros _.
  eapply triple_bind; [apply triple_attempt, triple_row|]. intros r Hr. apply spared_skip; [still_tac|]. intros c.
  destruct (errors_Join _) as [e|]; [apply triple_fail|]. destruct r as [a|e]; [|apply triple_fail].
  apply spared_skip; [auto with still|]. intros _. eapply triple_bind; [apply triple_refuse|]. intros u Hs. cbn in Hs.
  apply negb_false_iff in Hs. apply triple_ret. split; [done|]. unfold sameObjectIdentity in Hs.
  repeat apply andb_true_iff in Hs as [Hs _]. apply Z.eqb_eq in Hs. done.
Qed.

Lemma triple_object o t b :
  triple spared (scope_object mt w o t b) (fun out => match out with scopeAdmitted a => known a | _ => True end).
Proof.
  unfold scope_object.
  eapply triple_or_fault; [apply spared_any; auto with still|intros _ _|done].
  eapply triple_or_fault; [apply spared_any; auto with still|intros _ _|done].
  eapply triple_or_fault; [apply triple_counting, triple_canonical|intros a [Ha _]|done].
  apply spared_skip; [auto with still|]. intros out. apply spared_skip; [auto with still|]. intros _. apply triple_ret. by destruct out.
Qed.

(** *** Versions *)

Definition covers (t b k : string) (l : list Object) : Prop :=
  (forall v, v ∈ l -> known v) /\ (at_key (defaultTenant t) b k p = true -> exists v, v ∈ l /\ ob_ID v = ob_ID p).

Lemma triple_repo_versions t b k : triple spared (repo_versions mt w t b k) (covers t b k).
Proof.
  apply triple_still; [auto with still|]. intros s s' l (((r & Hr & Hid) & Hk & _) & _) E. unfold repo_versions in E.
  apply (call_objects_Ok (fun f _ => ListObjectVersions (mt_dialect mt) f t b k)) in E as (f & now & E).
  unfold ListObjectVersions, with_ctx, bind, guard in E. destruct f; [done|]. cbn in E. injection E as <-. split.
  - intros v Hv%elem_sort_by. apply elem_filter_b in Hv as [Hv _]. by apply Hk.
  - intros Hp. exists r. split; [|done]. apply elem_sort_by, elem_filter_b. split; [done|].
    destruct (proj1 (Hk r Hr) Hid) as (Ht & Hb & Hke & _). unfold at_key in *. by rewrite Ht, Hb, Hke.
Qed.

Lemma triple_validate_versions anchor t b k seen l :
  triple spared (validate_versions mt w anchor t b k seen l) (fun l' => map ob_ID l' = map ob_ID l /\ forall v, v ∈ l' -> known v).
Proof.
  revert seen. induction l as [|v l IH]; intros seen; cbn [validate_versions].
  - apply spared_skip; [auto with still|]. intros _. apply triple_ret. split; [done|]. by intros v ?%not_elem_of_nil.
  - apply spared_skip; [auto with still|]. intros _. eapply triple_bind; [apply triple_canonical|]. intros a [Ha Hid].
    apply spared_skip; [auto with still|]. intros _. apply spared_skip; [auto with still|]. intros out.
    apply spared_skip; [still_tac|]. intros _. eapply triple_bind; [apply IH|]. intros l' [Hl Hk]. apply triple_ret.
    split; [cbn; by rewrite Hl, Hid|]. intros x [->|Hx]%elem_of_cons; [done|by apply Hk].
Qed.

Lemma triple_joined {A} (m : prog (Sweep B) A) Q : triple spared m Q -> triple spared (joined mt m) Q.
Proof. apply closed_joined, spared_still. Qed.

Lemma triple_versions anchor t b k : triple spared (scoped_versions mt w anchor t b k) (covers t b k).
Proof.
  unfold scoped_versions. apply spared_skip; [auto with still|]. intros _.
  eapply triple_bind; [apply triple_map_err, triple_joined, triple_repo_versions|]. intros l [_ Hc]. unfold validateVersions.
  destruct l as [|v l]; [apply triple_fail|]. eapply triple_weaken; [|apply triple_validate_versions].
  intros l' [Hl Hk]. split; [done|]. intros Hp. destruct (Hc Hp) as (x & Hx & Hid).
  assert (ob_ID x ∈ map ob_ID l') as (y & Hy & Hin)%list_elem_of_fmap by (rewrite Hl; by apply list_elem_of_fmap_2).
  exists y. split; [done|congruence].
Qed.

(** *** Deletions *)

Lemma triple_check_versions l :
  (forall v, v ∈ l -> known v) -> triple spared (checkDeleteVersionsProtection w l) (fun _ => forall v, v ∈ l -> ob_ID v <> ob_ID p).
Proof.
  induction l as [|v l IH]; intros Hl; cbn [checkDeleteVersionsProtection].
  - apply triple_ret. by intros v ?%not_elem_of_nil.
  - eapply triple_bind; [apply triple_refuse_protected, Hl; by left|]. intros u Hv.
    eapply triple_weaken; [|apply IH; intros x Hx; apply Hl; by right]. intros u0 Hr x [->|Hx]%elem_of_cons; [done|by apply Hr].
Qed.

Lemma triple_delete_blobs l :
  (forall v, v ∈ l -> known v) -> triple spared (deleteVersionBlobs mt w l) (fun _ => True).
Proof.
  induction l as [|v l IH]; intros Hl; cbn [deleteVersionBlobs]; [by apply triple_ret|].
  assert (known v) as Hv by (apply Hl; by left).
  eapply triple_bind; [by apply triple_refuse_protected|]. intros u Hid. apply spared_skip; [auto with still|]. intros _.
  eapply triple_bind; [by apply triple_delete_blob|]. intros _ _. apply IH. intros x Hx. apply Hl. by right.
Qed.

Lemma triple_release t l : triple spared (release_rows w t l) (fun _ => True).
Proof. apply spared_any. unfold release_rows. destruct (deletionUsage l). auto with still. Qed.

Lemma triple_hard_delete_key (vs : Versions) o :
  known o -> triple spared (vs (ob_TenantID o) (ob_Bucket o) (ob_Key o)) (covers (ob_TenantID o) (ob_Bucket o) (ob_Key o)) ->
  triple spared (hardDeleteKey mt w vs o) (fun _ => True).
Proof.
  intros Ho Hvs. unfold hardDeleteKey. eapply triple_bind; [exact Hvs|]. intros l [Hk Hc].
  set (l' := match l with [] => [o] | _ => l end).
  assert (forall v, v ∈ l' -> known v) as Hk'.
  { destruct l; [by intros v ->%list_elem_of_singleton|done]. }
  eapply triple_bind; [by apply triple_check_versions|]. intros u Hn. eapply triple_bind; [by apply triple_delete_blobs|]. intros _ _.
  eapply triple_bind; [apply (triple_objects (fun f _ => HardDeleteObject f (ob_TenantID o) (ob_Bucket o) (ob_Key o)))|intros _ _; apply triple_release].
  intros f _. apply present_delete_key. destruct (at_key _ _ _ p) eqn:E; [|done]. destruct (Hc eq_refl) as (v & Hv & Hid).
  destruct (Hn v); [|done]. destruct l; [by apply not_elem_of_nil in Hv|done].
Qed.

Lemma triple_hard_delete_version o : known o -> triple spared (hardDeleteVersion mt w o) (fun _ => True).
Proof.
  intros Ho. unfold hardDeleteVersion. eapply triple_bind; [by apply triple_refuse_protected|]. intros u Hid.
  apply spared_skip; [auto with still|]. intros _. eapply triple_bind; [by apply triple_delete_blob|]. intros _ _.
  eapply triple_bind; [apply (triple_objects (fun f _ => HardDeleteObjectByID f (ob_ID o)))|intros _ _; apply triple_release].
  intros f _. by apply present_delete_id.
Qed.

Lemma triple_soft_delete o : triple spared (softDeleteKey mt w o) (fun _ => True).
Proof.
  unfold softDeleteKey. apply spared_skip; [auto with still|]. intros _.
  eapply triple_bind; [apply (triple_objects (fun f now => SoftDeleteObject (mt_dialect mt) f now (ob_TenantID o) (ob_Bucket o) (ob_Key o)))|].
  - intros f now. apply present_soft_delete.
  - intros _ _. apply spared_any. auto with still.
Qed.
(** *** Sweeps *)

Definition safe {A} (m : prog (Sweep B) A) : Prop := triple spared m (fun _ => True).

Lemma safe_still {A} (m : prog (Sweep B) A) : still m -> safe m.
Proof. apply spared_any. Qed.
Lemma safe_bind {A C} (m : prog (Sweep B) A) (k : A -> prog (Sweep B) C) : safe m -> (forall a, safe (k a)) -> safe (bind m k).
Proof. intros Hm Hk. eapply triple_bind; [exact Hm|]. intros a _. apply Hk. Qed.
Lemma safe_attempt {A} (m : prog (Sweep B) A) : safe m -> safe (attempt m).
Proof. intros Hm. eapply triple_weaken; [|by apply triple_attempt]. done. Qed.
Lemma safe_effect m : safe m -> safe (effect mt m).
Proof. intros Hm. unfold effect. apply safe_bind; [by apply safe_attempt|]. intros [a|e]; apply safe_still; still_tac. Qed.
Lemma safe_unless m k : safe m -> safe k -> safe (unless_protected m k).
Proof. intros Hm Hk. unfold unless_protected. apply safe_bind; [by apply safe_attempt|]. intros [[]|e]; [by apply triple_ret|done|apply safe_still; still_tac]. Qed.
Lemma safe_if_ready {A} (out : A) k : safe k -> safe (if_ready mt out k).
Proof. intros Hk. unfold if_ready. apply safe_bind; [apply safe_still; still_tac|]. intros [a|e]; [done|by apply triple_ret]. Qed.
Lemma safe_or_else {A C} (m : prog (Sweep B) A) (out : C) k : safe m -> (forall a, safe (k a)) -> safe (or_else m out k).
Proof. intros Hm Hk. unfold or_else. apply safe_bind; [by apply safe_attempt|]. intros [a|e]; [done|apply safe_still; still_tac]. Qed.
Lemma safe_count {X} (visit : X -> prog (Sweep B) bool) l n : (forall x, safe (visit x)) -> safe (count_visits visit l n).
Proof. intros Hv. revert n. induction l as [|x l IH]; intros n; cbn [count_visits]; [by apply triple_ret|]. by apply safe_bind. Qed.
Lemma safe_admitted {A} o t b (out : A) k : (forall a, known a -> safe (k a)) -> safe (when_admitted (scope_object mt w o t b) out k).
Proof.
  intros Hk. unfold when_admitted. eapply triple_bind; [apply triple_object|]. intros [a|e|e] Ha; [by apply Hk|by apply triple_ret..].
Qed.

Lemma safe_any l : safe (any_protected w l).
Proof. apply safe_still. auto with still. Qed.
Lemma safe_key_protected vs o : safe (vs (ob_TenantID o) (ob_Bucket o) (ob_Key o)) -> safe (objectKeyDeletionProtected w vs o).
Proof. intros Hv. unfold objectKeyDeletionProtected. apply safe_bind; [done|]. intros [|v l]; apply safe_still; auto with still. Qed.
Lemma safe_query {A} (m : option error -> time -> prog RepoDB A) : reader_op m -> safe (joined mt (on_sys (call w m))).
Proof. intros Hm. apply safe_still, still_joined, still_on_sys, quiet_call, Hm. Qed.
Lemma safe_before ttl : safe (before_now w ttl).
Proof. apply safe_still. unfold before_now. still_tac. Qed.
End Spare.

Create HintDb safe.
#[export] Hint Resolve safe_effect safe_unless safe_if_ready safe_count safe_before safe_any : safe.

Section Sweeps.
Context {B : Type} `{StorageLaws B} `{UUIDLib} (w : World) (p : Object) (reads_as : GetOptions) (content : option string) (had_hold : Prop).
#[local] Abbreviation safe := (safe w p reads_as content had_hold).

Lemma safe_purge_soft r o : safe (purgeOneSoftDeleted r w o).
Proof.
  apply safe_admitted. intros a Ha. apply safe_unless.
  - apply safe_key_protected, safe_still. auto with still.
  - apply safe_effect, triple_hard_delete_key; [done|apply triple_versions].
Qed.

Lemma read_soft_deleted d before t n : reader_op (fun f _ => ListSoftDeletedBefore d f before t n).
Proof. intros f now. unfold ListSoftDeletedBefore. apply eq_bind; [apply eq_ctx|]. intros. apply eq_reads. Qed.
Lemma read_lifecycle limit q scan : reader_op (fun f now => lifecycle_scan f limit (q now) (scan now)).
Proof. intros f now. unfold lifecycle_scan. apply eq_bind; [apply eq_ctx|]. intros. apply eq_reads. Qed.

Lemma safe_idempotency before : safe (on_sys (call w (fun f _ => DeleteIdempotencyKeysBefore f before))).
Proof.
  apply safe_still. intros s. unfold on_sys, call, DeleteIdempotencyKeysBefore, with_ctx, bind, guard.
  by destruct (w_fault w (sy_tick (sw_sys s))).
Qed.

Lemma safe_retention r : safe (retention_sweep r w).
Proof.
  unfold retention_sweep. apply safe_bind; [apply safe_still; auto with still|]. intros _. apply safe_if_ready.
  apply safe_bind; [|intros n; apply safe_bind; [|intros; by apply triple_ret]].
  - destruct (0 <? rt_retention r); [|by apply triple_ret]. unfold purgeSoftDeleted. apply safe_if_ready, safe_bind; [apply safe_before|].
    intros [t before]. apply safe_or_else; [apply safe_query, read_soft_deleted|]. intros l. apply safe_count, safe_purge_soft.
  - destruct (0 <? rt_idemTTL r); [|by apply triple_ret]. unfold purgeIdempotency. apply safe_if_ready, safe_bind; [apply safe_before|].
    intros [t before]. apply safe_or_else; [apply triple_joined, safe_idempotency|]. intros m. by apply triple_ret.
Qed.

Lemma safe_expired l o action : safe (handleExpiredObject l w o action).
Proof.
  apply safe_admitted. intros a Ha. destruct (negb (is_live a)); [apply safe_still; still_tac|].
  destruct (action =s "hard_delete"); [apply safe_unless|].
  - apply safe_key_protected, safe_still. auto with still.
  - by apply safe_effect, triple_hard_delete_version.
  - apply safe_effect, triple_soft_delete.
Qed.

Lemma safe_expire_all l objs soft hard : safe (expire_all l w objs soft hard).
Proof.
  revert soft hard. induction objs as [|o objs IH]; intros soft hard; cbn [expire_all]; [by apply triple_ret|].
  apply safe_bind; [apply safe_expired|]. intros d. by destruct (_ =s _).
Qed.

Lemma safe_noncurrent l v : safe (purgeNonCurrentVersion l w v).
Proof.
  apply safe_admitted. intros a Ha. destruct (_ || _); [apply safe_still; still_tac|].
  apply safe_unless; [apply safe_still; auto with still|]. by apply safe_effect, triple_hard_delete_version.
Qed.

Lemma safe_transition l o : safe (transitionObject l w o).
Proof.
  apply safe_admitted. intros a Ha. destruct (negb (is_live a)); [apply safe_still; still_tac|]. destruct (_ || _); [by apply triple_ret|].
  apply safe_effect. set (cls := meta_get _ _).
  apply (triple_objects w p reads_as content had_hold (fun f now => UpdateObjectStorageClass (mt_dialect (lc_mt l)) f now (ob_TenantID a) (ob_Bucket a) (ob_Key a) cls)).
  intros f now. apply present_class.
Qed.

Lemma safe_lifecycle l : safe (lifecycle_sweep l w).
Proof.
  unfold lifecycle_sweep. apply safe_bind; [apply safe_still; auto with still|]. intros _. apply safe_if_ready.
  apply safe_bind; [|intros e; apply safe_bind; [|intros v; apply safe_bind; [|intros t; by apply triple_ret]]].
  - unfold sweepExpired. apply safe_if_ready, safe_or_else; [|intros objs; apply safe_expire_all].
    apply safe_query. apply (read_lifecycle _ (fun _ _ o b => is_live o && (0 <? bc_ExpireAfterDays b))).
  - unfold sweepNonCurrentVersions. apply safe_if_ready, safe_or_else; [|intros objs; apply safe_count, safe_noncurrent].
    apply safe_query. unfold ListExpiredNonCurrentVersions. apply (read_lifecycle _ (fun _ => _)).
  - unfold sweepTransitions. apply safe_if_ready, safe_or_else; [|intros objs; apply safe_count, safe_transition].
    apply safe_query. apply (read_lifecycle _ (fun _ => _)).
Qed.

(** *** Rounds of a job *)

Lemma round_keeps {A} (I : Sweep B -> Prop) (ready : prog (Sweep B) bool) sg interval (m : prog (Sweep B) A) st :
  (forall s s', same_store s s' -> I s -> I s') -> still ready -> (forall s, I s -> I (fst (m s))) ->
  I (snd st) -> I (snd (fst (maybeSweep w ready sg interval m st))).
Proof.
  intros Hc Hr Hm Hs. unfold maybeSweep. pose proof (Hr (snd st)) as Hs1. destruct (ready (snd st)) as [s [[]|e]]; cbn [fst snd] in *; try by eapply Hc.
  set (s2 := fst (on_sys _ s)). assert (I s2) as Hs2 by (apply (Hc s); [by split|by apply (Hc (snd st))]).
  unfold Guard. destruct (sg_enabled sg); [destruct (AcquireLease _ _ _ _ _ _ _) as [db [[]|e]]|]; cbn [fst snd];
    try exact Hs2; specialize (Hm s2 Hs2); cbn [fst snd]; by destruct (m s2).
Qed.

Lemma rounds_keep {A} (I : Sweep B -> Prop) on ready sg interval (m : prog (Sweep B) A) n st :
  (forall s s', same_store s s' -> I s -> I s') -> still ready -> (forall s, I s -> I (fst (m s))) ->
  I (snd st) -> I (snd (Run w on ready sg interval m n st)).
Proof.
  intros Hc Hr Hm Hs. unfold Run. destruct (negb on); [done|]. pose proof (Hr (snd st)) as Hs1.
  destruct (ready (snd st)) as [s [[]|e]]; cbn [fst snd] in Hs1; try by eapply Hc.
  set (st1 := (fst st, s)). assert (I (snd st1)) as Hst by (by eapply Hc). clearbody st1. clear -Hst Hc Hr Hm. revert st1 Hst.
  generalize (S n) as k. induction k as [|k IH]; intros st1 Hst; [done|]. cbn [repeat_rounds]. by apply IH, round_keeps.
Qed.

(** The jobs that destroy rows and blobs of users. *)
Inductive destroys : (nat -> LeaseDB * Sweep B -> LeaseDB * Sweep B) -> Prop :=
| ds_retention r : destroys (retention_Run w r)
| ds_lifecycle l : destroys (lifecycle_Run w l).

Lemma safe_destroys run n st : destroys run -> spared w p reads_as content had_hold (snd st) -> spared w p reads_as content had_hold (snd (run n st)).
Proof.
  intros [] Hs; unfold retention_Run, lifecycle_Run; (apply rounds_keep; [apply spared_still|auto with still| |done]); intros s1 Hs1;
    [by apply safe_retention|by apply safe_lifecycle].
Qed.

(** Jobs that run one after the other, each for its own number of rounds. *)
Definition run_jobs (runs : list ((nat -> LeaseDB * Sweep B -> LeaseDB * Sweep B) * nat)) (st : LeaseDB * Sweep B) : LeaseDB * Sweep B :=
  fold_left (fun st job => fst job (snd job) st) runs st.

Lemma safe_jobs runs st :
  Forall (fun job => destroys (fst job)) runs -> spared w p reads_as content had_hold (snd st) ->
  spared w p reads_as content had_hold (snd (run_jobs runs st)).
Proof.
  intros Hr. revert st. induction Hr as [|[run n] runs Hd _ IH]; intros st Hs; [done|]. cbn. by apply IH, safe_destroys.
Qed.
End Sweeps.

(** C9: run the retention and lifecycle jobs one after the other, each any number of rounds, in
    any order and as often as you like, whoever holds their leases: an object that is under
    retention at the times they read, or under legal hold, is left whole.  Its row is there with
    the same place, blob, retention date and hold flag, the row of its legal hold is there if
    it had one, and its blob has the content it had, in every world, failures and refusals
    included.  The ids of the rows are distinct, and no other row has the object's blob. *)
Theorem sweeps_spare_protected {B : Type} `{StorageLaws B} `{UUIDLib} w p o runs leases (s : Sweep B) :
  Forall (fun job => destroys w (fst job)) runs ->
  let db := r_objects (sy_repo (sw_sys s)) in let blobs := sy_blobs (sw_sys s) in
  p ∈ objects db -> NoDup (map ob_ID (objects db)) -> under_protection w p db -> st_valid blobs ->
  (forall r, r ∈ objects db -> r <> p -> isDeleteMarker r = false -> st_apart (ob_StorageKey r) (ob_StorageKey p)) ->
  let s' := sw_sys (snd (run_jobs runs (leases, s))) in
  (exists r, r ∈ objects (r_objects (sy_repo s')) /\ ob_ID r = ob_ID p /\ is_this p r) /\
  (has_hold p db -> has_hold p (r_objects (sy_repo s'))) /\
  st_valid (sy_blobs s') /\ stored o (ob_StorageKey p) (sy_blobs s') = stored o (ob_StorageKey p) blobs.
Proof.
  intros Hm db blobs Hin Hids Hp Hv Ha s'.
  assert (spared w p o (stored o (ob_StorageKey p) blobs) (has_hold p db) s) as Hs.
  { split; [|done]. split_and!; [by exists p| |exact Hp|done]. intros r Hr. split.
    - intros Hid. rewrite (NoDup_map_inj ob_ID _ r p Hids Hr Hin Hid). done.
    - intros Hid Hd. apply Ha; [done|congruence|done]. }
  destruct (safe_jobs w p o _ _ runs (leases, s) Hm Hs) as (((r & Hr & Hid) & Hk & _ & Hh) & Hv' & Hst).
  split; [|done]. exists r. split_and!; [done..|]. by apply Hk.
Qed.

(** ** A purged key is gone whole *)

Section Purge.
Context {B : Type} `{Storage B} `{UUIDLib} (w : World).

Definition key_gone (t b k : string) (s : Sweep B) : Prop :=
  forall x, x ∈ objects (r_objects (sy_repo (sw_sys s))) -> at_key (defaultTenant t) b k x = false.

Lemma gone_still {A} t b k (m : prog (Sweep B) A) s : still m -> key_gone t b k s -> key_gone t b k (fst (m s)).
Proof. intros Hm Hg. destruct (Hm s) as [Hr _]. unfold key_gone. by rewrite Hr. Qed.

Lemma attempt_Ok {A} (m : prog (Sweep B) A) s s' r : attempt m s = (s', Ok r) -> m s = (s', r).
Proof. unfold attempt. destruct (m s). by intros [= -> ->]. Qed.

Lemma HardDeleteObject_gone f t b k db db' :
  HardDeleteObject f t b k db = (db', Ok tt) -> forall x, x ∈ objects db' -> at_key (defaultTenant t) b k x = false.
Proof.
  unfold HardDeleteObject, with_ctx, refuse_held, drop_access_state. intros E x Hx. prog_inv. apply in_tx_Ok in E. prog_inv.
  match goal with H : on_access _ _ = _ |- _ => apply access_Ok in H as -> end. unfold delete_objects in *. repeat match goal with H : (_, _) = (_, _) |- _ => injection H as <- end.
  cbn in Hx. by apply elem_delete_where in Hx as [_ ?].
Qed.

Lemma hardDeleteKey_gone mt vs o s s' u :
  hardDeleteKey mt w vs o s = (s', Ok u) -> key_gone (ob_TenantID o) (ob_Bucket o) (ob_Key o) s'.
Proof.
  unfold hardDeleteKey. intros E. apply bind_Ok in E as (s1 & l & _ & E). apply bind_Ok in E as (s2 & [] & _ & E).
  apply bind_Ok in E as (s3 & [] & _ & E). apply bind_Ok in E as (s4 & [] & E4 & E).
  assert (key_gone (ob_TenantID o) (ob_Bucket o) (ob_Key o) s4) as Hg.
  { unfold on_sys, call, on_objects in E4. destruct (HardDeleteObject _ _ _ _ _) as [db r] eqn:Ed. injection E4 as <- ->.
    intros x Hx. cbn in Hx. by eapply HardDeleteObject_gone. }
  set (l' := match l with [] => [o] | _ => l end) in E.
  assert (still (release_rows w (ob_TenantID o) l' : prog (Sweep B) unit)) as Hs by (unfold release_rows; destruct (deletionUsage l'); auto with still).
  pose proof (gone_still _ _ _ _ s4 Hs Hg) as Hg'. by rewrite E in Hg'.
Qed.

Lemma scope_object_identity mt o t b (s s' : Sweep B) a :
  scope_object mt w o t b s = (s', Ok (scopeAdmitted a)) -> sameObjectIdentity o a = true.
Proof.
  unfold scope_object, or_fault. intros E. apply bind_Ok in E as (s1 & [v1|e] & _ & E); [|by apply ret_Ok in E as [_ ?]].
  apply bind_Ok in E as (s2 & [v2|e] & _ & E); [|by apply ret_Ok in E as [_ ?]].
  apply bind_Ok in E as (s3 & [actual|e] & E3 & E); [|by apply ret_Ok in E as [_ ?]].
  apply bind_Ok in E as (s4 & out & _ & E). apply bind_Ok in E as (s5 & [] & _ & E). apply ret_Ok in E as [_ E].
  assert (actual = a) as -> by (destruct out; cbn in E; congruence). clear E. apply attempt_Ok in E3. unfold counting in E3.
  destruct (canonicalObject _ _ _ _ _ _) as [s6 [x|e]] eqn:Ec; [|done]. injection E3 as _ ->. unfold canonicalObject in Ec. prog_inv.
  destruct (errors_Join _); [done|]. destruct v3; [|done]. prog_inv. by match goal with H : negb _ = false |- _ => apply negb_false_iff in H end; subst.
Qed.

End Purge.

(** C31: a soft-deleted row that is purged takes every row of its key with it, whatever their
    age: older versions, and the object that has been uploaded under the key since. *)
Theorem purge_takes_every_version {B : Type} `{Storage B} `{UUIDLib} (r : RetentionJob) w o (s s' : Sweep B) :
  purgeOneSoftDeleted r w o s = (s', Ok true) ->
  forall x, x ∈ objects (r_objects (sy_repo (sw_sys s'))) -> at_key (defaultTenant (ob_TenantID o)) (ob_Bucket o) (ob_Key o) x = false.
Proof.
  unfold purgeOneSoftDeleted, when_admitted, unless_protected, effect. intros E.
  apply bind_Ok in E as (s1 & [a|e|e] & E1 & E); [|by apply ret_Ok in E as [_ ?]..]. apply scope_object_identity in E1.
  apply bind_Ok in E as (s2 & [[]|e] & _ & E); [by apply ret_Ok in E as [_ ?]| |by apply bind_Ok in E as (? & ? & _ & [_ ?]%ret_Ok)].
  apply bind_Ok in E as (s3 & [u|e] & E3 & E); [|by apply bind_Ok in E as (? & ? & _ & [_ ?]%ret_Ok)].
  apply attempt_Ok, hardDeleteKey_gone in E3. pose proof (gone_still _ _ _ (ready_now (rt_mt r)) s3 ltac:(auto with still) E3) as Hg.
  rewrite E in Hg. unfold sameObjectIdentity in E1. repeat apply andb_true_iff in E1 as [E1 ?].
  repeat match goal with H : (_ =s _) = true |- _ => apply streqb_true in H end. intros x Hx.
  replace (ob_TenantID o) with (ob_TenantID a) by done. replace (ob_Bucket o) with (ob_Bucket a) by done. replace (ob_Key o) with (ob_Key a) by done.
  by apply Hg.
Qed.

(** ** Orphan blobs *)

(** What the jobs rely on of a backend's listing: it changes nothing, and a listed object is
    not part of another one. *)
Class ListingLaws (B : Type) `{StorageLaws B} `{Maintained B} := {
  st_object : string -> Prop;
  list_reads prefix marker n b : fst (st_List prefix marker n b) = b;
  listed_apart prefix marker n b page i key :
    snd (st_List prefix marker n b) = Ok page -> i ∈ lr_Objects page -> st_object key -> oi_Key i <> key -> st_apart (oi_Key i) key
}.

Section Orphans.
Context {B : Type} `{ListingLaws B} `{UUIDLib} (rounds : nat) (j : Job) (w : World).
Context (key : string) (reads_as : GetOptions) (start : Sweep B).
#[local] Abbreviation mt := (jb_mt j).

Definition from_start (s : Sweep B) : Prop := same_store start s.
Definition blob_stays (s : Sweep B) : Prop :=
  st_valid (sy_blobs (sw_sys s)) /\ stored reads_as key (sy_blobs (sw_sys s)) = stored reads_as key (sy_blobs (sw_sys start)).

(** The backend lists this as it is at the start. *)
Definition listed (i : ObjectInfo) : Prop :=
  exists prefix marker n page, snd (st_List prefix marker n (sy_blobs (sw_sys start))) = Ok page /\ i ∈ lr_Objects page.

(** Younger than the grace period, whenever the world looks. *)
Definition always_young (t : time) : Prop := 0 < jb_gracePeriod j /\ forall n, Since (w_now w n) t <= jb_gracePeriod j.

Lemma from_closed s s' : same_store s s' -> from_start s -> from_start s'.
Proof. intros Hs Hf. unfold from_start. by transitivity s. Qed.
Lemma stays_closed s s' : same_store s s' -> blob_stays s -> blob_stays s'.
Proof. intros [_ Hb] Hs. unfold blob_stays. by rewrite Hb. Qed.


Lemma still_job_ready : still (B := B) (job_ready j).
Proof. unfold job_ready. still_tac. Qed.

Lemma blob_list prefix marker n :
  triple from_start (on_sys (store w (fun _ => st_List prefix marker n))) (fun page => forall i, i ∈ lr_Objects page -> listed i).
Proof.
  intros s [Hr Hb]. unfold on_sys, store. pose proof (list_reads prefix marker n (sy_blobs (sw_sys s))) as Hl.
  destruct (st_List prefix marker n (sy_blobs (sw_sys s))) as [b r] eqn:E. cbn in Hl. subst b. split; [by split|]. cbn.
  destruct r as [page|e]; [|done]. intros i Hi. exists prefix, marker, n, page. by rewrite <- Hb, E.
Qed.

Lemma storage_rows_prefix prefix previous l last :
  storage_rows prefix previous l = Ok last -> forall i, i ∈ l -> HasPrefix (oi_Key i) prefix = true.
Proof.
  revert previous. induction l as [|x l IH]; intros previous; cbn [storage_rows]; [by intros _ i ?%not_elem_of_nil|].
  destruct (negb (HasPrefix (oi_Key x) prefix)) eqn:Ep; cbn [orb]; [done|]. apply negb_false_iff in Ep.
  destruct (_ || _); [done|]. intros E i [->|Hi]%elem_of_cons; [done|by eapply IH].
Qed.

Lemma blob_pages fuel prefix marker previous markers all :
  (forall i, i ∈ all -> listed i /\ HasPrefix (oi_Key i) prefix = true) ->
  triple from_start (storage_pages j w fuel prefix marker previous markers all)
    (fun r => forall l, r = Some l -> forall i, i ∈ l -> listed i /\ HasPrefix (oi_Key i) prefix = true).
Proof.
  revert marker previous markers all. induction fuel as [|fuel IH]; intros marker previous markers all Hall; cbn [storage_pages];
    [apply triple_fail|].
  eapply (triple_bind _ _ _ (fun r => forall page last, r = Ok (page, last) ->
            forall i, i ∈ lr_Objects page -> listed i /\ HasPrefix (oi_Key i) prefix = true)).
  - eapply triple_weaken; [|apply (closed_attempt from_start _ (fun x => forall i, i ∈ lr_Objects (fst x) -> listed i /\ HasPrefix (oi_Key i) prefix = true))].
    + intros r Hr page last ->. exact Hr.
    + apply closed_skip; [exact from_closed|auto with still|]. intros _. eapply triple_bind; [apply closed_joined; [exact from_closed|apply blob_list]|]. intros page Hp.
      eapply (triple_bind _ _ _ (fun _ => forall i, i ∈ lr_Objects page -> HasPrefix (oi_Key i) prefix = true)).
      * apply triple_reads. intros s last _ E. unfold validateStoragePage in E. apply res_bind_Ok in E as (x & E & _).
        by eapply storage_rows_prefix.
      * intros last Hx. apply triple_ret. intros i Hi. by split; [apply Hp|apply Hx].
  - intros [[page last]|e] Hp; [|by apply triple_ret]. specialize (Hp page last eq_refl).
    assert (forall i, i ∈ all ++ lr_Objects page -> listed i /\ HasPrefix (oi_Key i) prefix = true) as Hall'.
    { intros i [Hi|Hi]%elem_of_app; [by apply Hall|by apply Hp]. }
    destruct (negb _); [apply triple_ret; by intros l [= <-]|]. destruct (contains _ _); [by apply triple_ret|]. by apply IH.
Qed.

Lemma fold_ages (l : list ObjectInfo) (m : gmap string time) k t :
  fold_left (fun m i => <[oi_Key i := oi_LastModified i]> m) l m !! k = Some t ->
  m !! k = Some t \/ exists i, i ∈ l /\ oi_Key i = k /\ oi_LastModified i = t.
Proof.
  revert m. induction l as [|x l IH]; intros m; cbn [fold_left]; [by left|]. intros [Hm|(i & Hi & Hk & Ht)]%IH.
  - apply lookup_insert_Some in Hm as [[Hk Ht]|[_ Hm]]; [right; exists x; by split; [left|]|by left].
  - right. exists i. by split; [right|].
Qed.

Lemma fold_ages_has (l : list ObjectInfo) (m : gmap string time) i :
  i ∈ l -> is_Some (fold_left (fun m i => <[oi_Key i := oi_LastModified i]> m) l m !! oi_Key i).
Proof.
  intros Hi. assert (forall m : gmap string time, is_Some (m !! oi_Key i) -> is_Some (fold_left (fun m i => <[oi_Key i := oi_LastModified i]> m) l m !! oi_Key i)) as Hk.
  { clear Hi. induction l as [|x l IH]; intros m' Hm; [done|]. cbn [fold_left]. apply IH.
    destruct (decide (oi_Key x = oi_Key i)) as [->|Hn]; [by rewrite lookup_insert_eq|by rewrite lookup_insert_ne]. }
  clear Hk. revert m. induction l as [|x l IH]; intros m; [by apply not_elem_of_nil in Hi|]. cbn [fold_left].
  apply elem_of_cons in Hi as [->|Hi]; [|by apply IH]. clear IH. assert (is_Some (<[oi_Key x := oi_LastModified x]> m !! oi_Key x)) as Hm by (by rewrite lookup_insert_eq).
  revert Hm. generalize (<[oi_Key x := oi_LastModified x]> m) as m'. induction l as [|y l IH]; intros m' Hm; [done|]. cbn [fold_left]. apply IH.
  destruct (decide (oi_Key y = oi_Key x)) as [->|Hn]; [by rewrite lookup_insert_eq|by rewrite lookup_insert_ne].
Qed.
(** From the start, [m] leaves the blob. *)
Definition leads {A} (m : prog (Sweep B) A) : Prop := forall s, from_start s -> blob_stays (fst (m s)).

Context (valid : st_valid (sy_blobs (sw_sys start))).

Lemma start_stays s : from_start s -> blob_stays s.
Proof. intros [_ Hb]. unfold blob_stays. by rewrite Hb. Qed.
Lemma leads_ret {A} (a : A) : leads (ret a).
Proof. intros s. apply start_stays. Qed.
Lemma leads_triple {A} (m : prog (Sweep B) A) Q : triple blob_stays m Q -> leads m.
Proof. intros Hm s Hs. apply Hm, start_stays, Hs. Qed.
Lemma leads_bind {A C} (m : prog (Sweep B) A) (k : A -> prog (Sweep B) C) Q :
  triple from_start m Q -> (forall a, Q a -> leads (k a)) -> leads (bind m k).
Proof.
  intros Hm Hk s Hs. destruct (Hm s Hs) as [Hf HQ]. unfold bind. destruct (m s) as [s' [a|e]]; [by apply Hk|by apply start_stays].
Qed.
Lemma leads_skip {A C} (m : prog (Sweep B) A) (k : A -> prog (Sweep B) C) : still m -> (forall a, leads (k a)) -> leads (bind m k).
Proof. intros Hm Hk. eapply leads_bind; [by apply (closed_any _ from_closed)|]. intros a _. apply Hk. Qed.
Lemma leads_ready {A} (out : A) k : (validateOrphanConfiguration j false = None -> leads k) -> leads (when_ready j out k).
Proof.
  intros Hk. unfold when_ready. eapply (leads_bind _ _ (fun b : bool => b = true -> validateOrphanConfiguration j false = None)).
  - apply closed_still; [exact from_closed|apply still_job_ready|]. intros s s' b _ E ->. unfold job_ready in E.
    apply bind_Ok in E as (s1 & [u|e] & _ & E); [|by apply ret_Ok in E as [_ ?]].
    destruct (validateOrphanConfiguration j false); [|done]. apply bind_Ok in E as (? & ? & _ & E). by apply ret_Ok in E as [_ ?].
  - intros [] Hb; [by apply Hk, Hb|apply leads_ret].
Qed.
Lemma leads_or_else {A C} (m : prog (Sweep B) A) (out : C) k Q :
  triple from_start m Q -> (forall a, Q a -> leads (k a)) -> leads (or_else m out k).
Proof.
  intros Hm Hk. unfold or_else. eapply leads_bind; [by apply closed_attempt|]. intros [a|e] Ha; [by apply Hk|].
  apply leads_skip; [apply still_faulted|]. intros _. apply leads_ret.
Qed.

(** *** The steps of the sweep *)

Definition rows_at_start : list Object := objects (r_objects (sy_repo (sw_sys start))).

Lemma read_storage_keys : reader_op (fun f _ => ListStorageKeys f).
Proof. intros f now. unfold ListStorageKeys. apply eq_bind; [apply eq_ctx|]. intros. apply eq_reads. Qed.
#[local] Hint Resolve read_storage_keys : quiet.

Lemma blob_referenced :
  triple from_start (collectReferencedKeys j w)
    (fun keys => forall o, o ∈ rows_at_start -> ob_StorageKey o <> "" -> contains keys (ob_StorageKey o) = true).
Proof.
  unfold collectReferencedKeys. apply closed_skip; [exact from_closed|auto with still|]. intros _.
  eapply (triple_bind _ _ _ (fun keys => forall o, o ∈ rows_at_start -> ob_StorageKey o <> "" -> contains keys (ob_StorageKey o) = true)).
  - apply closed_joined; [exact from_closed|]. apply closed_still; [exact from_closed|still_tac|].
    intros s s' keys [Hr _] E o Ho Hne. unfold on_sys, call, ListStorageKeys in E.
    assert (snd (bind (with_ctx (w_fault w (sy_tick (sw_sys s)))) (fun _ => reads (fun db => Ok (list.remove_dups
      (List.filter (fun k => k <>s "") (map ob_StorageKey (objects (r_objects db))))))) (sy_repo (sw_sys s))) = Ok keys) as Ek.
    { destruct (bind _ _ _) as [db r]. by injection E as _ ->. }
    unfold with_ctx, bind, guard in Ek. destruct (w_fault w _); [done|]. cbn in Ek. injection Ek as <-.
    apply contains_spec, elem_of_remove_dups, elem_filter_b. rewrite Hr. fold rows_at_start. split.
    + apply list_elem_of_fmap. by exists o.
    + by apply negb_true_iff, streqb_false.
  - intros keys Hk. apply closed_skip; [exact from_closed|auto with still|]. intros _. by apply triple_ret.
Qed.

Lemma blob_listing prefix :
  triple from_start (listStorageObjects rounds j w prefix)
    (fun r => forall keys ages, r = Some (keys, ages) -> forall k, k ∈ keys ->
       HasPrefix k prefix = true /\ exists i, listed i /\ oi_Key i = k /\ ages !! k = Some (oi_LastModified i)).
Proof.
  unfold listStorageObjects. eapply triple_bind; [apply blob_pages; by intros i ?%not_elem_of_nil|].
  intros r Hr. apply triple_ret. intros keys ages Ek k Hk. destruct r as [l|]; [|done]. injection Ek as <- <-.
  apply list_elem_of_fmap in Hk as (i & -> & Hi). destruct (fold_ages_has l ∅ i Hi) as [t Ht].
  split; [by eapply Hr|]. apply fold_ages in Ht as Ht'. destruct Ht' as [Ht'|(x & Hx & Hxk & <-)]; [by rewrite lookup_empty in Ht'|].
  exists x. split_and!; [by eapply Hr|done|done].
Qed.

Lemma in_grace_young ages k t (s s' : Sweep B) b :
  ages !! k = Some t -> always_young t -> in_grace j w ages k s = (s', Ok b) -> b = true.
Proof.
  intros Ht [Hg Hy] E. unfold in_grace in E. rewrite (proj2 (Z.ltb_lt _ _) Hg) in E. apply bind_Ok in E as (s1 & now & E1 & [_ <-]%ret_Ok).
  unfold on_sys, clock in E1. injection E1 as _ <-. apply Z.leb_le. eapply Z.le_trans; [|apply (Hy (sy_tick (sw_sys s)))]. apply Z.eq_le_incl. f_equal. exact (f_equal (default 0) Ht).
Qed.

Lemma still_grace ages k : still (B := B) (in_grace j w ages k).
Proof. unfold in_grace. still_tac. Qed.

Lemma blob_delete k : st_apart k key -> triple blob_stays (on_sys (store w (fun _ => st_Delete k))) (fun _ => True).
Proof.
  intros Ha s [Hv Hs]. unfold on_sys, store. pose proof (delete_valid k _ Hv) as Hv'. pose proof (delete_frame k _ reads_as key Hv Ha) as Hf.
  destruct (st_Delete k _) as [b r]. cbn in *. split; [|by destruct r]. split; [done|]. cbn. congruence.
Qed.

Lemma blob_orphans ages stale o d :
  (forall k, k ∈ stale -> k <> key -> st_apart k key) ->
  (key ∈ stale -> jb_deleteOrphanBlobs j = true -> exists t, ages !! key = Some t /\ always_young t) ->
  triple blob_stays (orphan_blobs j w ages stale o d) (fun _ => True).
Proof.
  revert o d. induction stale as [|k stale IH]; intros o d Ha Hy; cbn [orphan_blobs]; [by apply triple_ret|].
  specialize (fun o d => IH o d (fun x Hx => Ha x (list_elem_of_further _ _ _ Hx)) (fun Hx => Hy (list_elem_of_further _ _ _ Hx))).
  apply closed_skip; [exact stays_closed|auto with still|]. intros ok. destruct (negb ok); [by apply triple_ret|].
  eapply (triple_bind _ _ _ (fun young => jb_deleteOrphanBlobs j = true -> young = false -> st_apart k key)).
  - apply closed_still; [exact stays_closed|apply still_grace|]. intros s s' young _ E Hd ->.
    destruct (decide (k = key)) as [->|Hne]; [|by apply Ha; [left|]]. destruct (Hy ltac:(left) Hd) as (t & Ht & Hyt).
    by pose proof (in_grace_young _ _ _ _ _ _ Ht Hyt E).
  - intros young Hk. destruct (young || negb (jb_deleteOrphanBlobs j)) eqn:E; [apply IH|].
    apply orb_false_iff in E as [-> E]. apply negb_false_iff in E. specialize (Hk E eq_refl).
    eapply triple_bind; [apply closed_attempt, closed_joined; [exact stays_closed|apply blob_delete, Hk]|]. intros [u|e] _; [apply IH|].
    apply closed_skip; [exact stays_closed|auto with still|]. intros _. apply IH.
Qed.

(** Why the sweep of a tenant does not take the blob. *)
Inductive unswept (tenant : string) : Prop :=
| us_foreign : HasPrefix key (tenant ++ "/") = false -> unswept tenant
| us_referenced o : o ∈ rows_at_start -> ob_StorageKey o = key -> key <> "" -> unswept tenant
| us_report : jb_deleteOrphanBlobs j = false -> unswept tenant
| us_bound : boundary_configured j = true -> unswept tenant
| us_covered : jb_coverageConfigured j = true -> unswept tenant
| us_young : (forall i, listed i -> oi_Key i = key -> always_young (oi_LastModified i)) -> unswept tenant.

Lemma leads_blobs tenant : st_object key -> unswept tenant -> leads (sweepOrphanBlobs rounds j w tenant).
Proof.
  intros Hobj Hun. unfold sweepOrphanBlobs. apply leads_ready. intros Hconf. assert (forall c, still (B := B) (checkOrphanCoverage j c)) as Hcov.
  { intros c. unfold checkOrphanCoverage. still_tac. }
  destruct (ValidateTenant tenant); [apply leads_skip; [apply still_faulted|intros _; apply leads_ret]|].
  apply leads_skip; [apply Hcov|]. intros covered. destruct (negb covered); [apply leads_ret|].
  eapply leads_or_else; [apply blob_referenced|]. intros referenced Hrefs. eapply leads_bind; [apply blob_listing|].
  intros [[keys ages]|] Hl; [|apply leads_skip; [apply still_faulted|intros _; apply leads_ret]]. specialize (Hl _ _ eq_refl).
  apply leads_skip; [apply Hcov|]. intros again. destruct (negb again); [apply leads_ret|].
  unfold handleOrphanBlobs. apply leads_ready. intros _. eapply leads_triple, blob_orphans.
  - intros k [Hk _]%elem_filter_b Hne. destruct (Hl k Hk) as (_ & i & (prefix & marker & n & page & E & Hi) & <- & _). by eapply listed_apart.
  - intros [Hk Hr]%elem_filter_b Hd. destruct (Hl key Hk) as (Hpre & i & Hi & Hik & Hage). exists (oi_LastModified i). split; [done|].
    apply negb_true_iff in Hr. unfold validateOrphanConfiguration in Hconf. rewrite Hd in Hconf.
    destruct Hun as [Hf|o Ho <- Hne|Hf|Hb|Hb|Hy]; [congruence|by rewrite Hrefs in Hr|congruence| | |by apply Hy].
    + by rewrite Hb in Hconf.
    + by rewrite Hb, orb_true_r in Hconf.
Qed.
End Orphans.

(** The sweep of orphan blobs leaves a blob that another tenant's prefix holds, that a
    row refers to when the sweep starts, that is younger than the grace period, or that is
    there for a sweep that only reports or has a resource boundary or a coverage reader.  Over the laws of the
    listing, which a local backend breaks for a key that ends like another's sidecar. *)
Theorem orphan_sweep_spares {B : Type} `{ListingLaws B} `{UUIDLib} rounds j w tenant key o (s : Sweep B) :
  st_valid (sy_blobs (sw_sys s)) -> st_object key -> unswept j w key s tenant ->
  stored o key (sy_blobs (sw_sys (fst (sweepOrphanBlobs rounds j w tenant s)))) = stored o key (sy_blobs (sw_sys s)).
Proof. intros Hv Ho Hu. apply (leads_blobs rounds j w key o s Hv tenant Ho Hu s). by unfold from_start. Qed.

(** ** Samples *)

(** The keys with the prefix after the marker, in order, all in one page. *)
Definition mem_list (prefix marker : string) : prog (gmap string string) ListResult := reads (fun b => Ok {|
  lr_Objects := sort_by (fun x y => text_le (oi_Key x) (oi_Key y))
                  (omap (fun '(k, d) => if HasPrefix k prefix && String.ltb marker k then Some (mem_info k d) else None) (map_to_list b));
  lr_NextMarker := ""; lr_HasMore := false |}).

#[export] Instance mem_maintained : Maintained (gmap string string) := {|
  st_List := fun prefix marker _ => mem_list prefix marker; st_CleanupParts := fun _ _ => ret tt |}.

(** An hour after the sample service did its work. *)
Definition an_hour_later : World := {|
  w_fault := fun _ => None; w_now := fun _ => at_sec 3610; w_fresh := fun n => ("id" ++ pretty n)%string;
  w_entropy := w_entropy calm |}.

Definition background : option (nat -> option error) := Some (fun _ => None).
Definition hourly_retention : RetentionJob := NewRetention dialectSQLite background Minute Minute.
Definition swept {A} (m : prog (Sweep (gmap string string)) A) (s : Sys (gmap string string)) : Sys (gmap string string) :=
  sw_sys (fst (m (Build_Sweep s 0 0))).

Definition no_uuids : UUIDLib := SpacesInvariant.SpacesExample.uuids.
#[local] Existing Instance no_uuids.

Definition soft_delete_k : prog (Sys (gmap string string)) unit := Delete open_service calm ann "acme" "b" "k" false.

(** "k" was deleted, and is there again. *)
Definition recreated : Sys (gmap string string) := run_on (run_on one_object soft_delete_k) (put_text "k" "two").

Definition no_object : Object := marker_object "" "" "" ∅.

(** "k" under legal hold, and deleted. *)
Definition held_deleted : Sys (gmap string string) := run_on held_object soft_delete_k.

(** A job that runs alone, with an hourly lease. *)
Definition guarded_retention : RetentionJob := retention_WithClusterSingleton hourly_retention "node".

Definition hourly_lifecycle : LifecycleJob := NewLifecycle dialectSQLite background Hour.

(** Both jobs in turn: the retention twice, with the lifecycle between. *)
Definition in_turn : list ((nat -> LeaseDB * Sweep (gmap string string) -> LeaseDB * Sweep (gmap string string)) * nat) :=
  [(retention_Run an_hour_later guarded_retention, 2%nat); (lifecycle_Run an_hour_later hourly_lifecycle, 1%nat);
   (retention_Run an_hour_later guarded_retention, 1%nat)].

Lemma sweeps_spare_protected_witness :
  let p := List.hd no_object (objects (r_objects (sy_repo held_deleted))) in
  let s' := sw_sys (snd (run_jobs in_turn ([], Build_Sweep held_deleted 0 0))) in
  (exists r, r ∈ objects (r_objects (sy_repo s')) /\ ob_ID r = ob_ID p /\ is_this p r) /\
  (has_hold p (r_objects (sy_repo held_deleted)) -> has_hold p (r_objects (sy_repo s'))) /\
  True /\ stored noGetOptions (ob_StorageKey p) (sy_blobs s') = stored noGetOptions (ob_StorageKey p) (sy_blobs held_deleted).
Proof.
  intros p. refine (sweeps_spare_protected an_hour_later p noGetOptions in_turn [] (Build_Sweep held_deleted 0 0) _ _ _ _ _ _).
  - repeat constructor.
  - vm_compute. left.
  - vm_compute. apply list.NoDup_cons. split; [apply not_elem_of_nil|apply list.NoDup_nil; done].
  - right. right. eexists. split; [vm_compute; left|by vm_compute].
  - done.
  - assert (objects (r_objects (sy_repo held_deleted)) = [p]) as E by (vm_compute; reflexivity).
    intros r Hr Hne. change (r ∈ objects (r_objects (sy_repo held_deleted))) in Hr. rewrite E in Hr.
    destruct Hne. apply list_elem_of_singleton in Hr. exact Hr.
Defined.

Lemma purge_takes_every_version_witness :
  let o := List.hd no_object (objects (r_objects (sy_repo recreated))) in
  let run := purgeOneSoftDeleted hourly_retention an_hour_later o (Build_Sweep recreated 0 0) in
  snd run = Ok true /\
  forall x, x ∈ objects (r_objects (sy_repo (sw_sys (fst run)))) -> at_key (defaultTenant (ob_TenantID o)) (ob_Bucket o) (ob_Key o) x = false.
Proof.
  intros o run. assert (snd run = Ok true) as Hok by (vm_compute; reflexivity). split; [exact Hok|].
  apply (purge_takes_every_version hourly_retention an_hour_later o (Build_Sweep recreated 0 0) (fst run)).
  rewrite <- Hok. change (run = (fst run, snd run)). apply surjective_pairing.
Defined.

(** The object under "k" is live and its blob is there; a retention of a minute leaves
    neither, an hour after "k" was deleted for the first time. *)
Example recreated_object_is_lost :
  let s' := swept (retention_sweep hourly_retention an_hour_later) recreated in
  map ob_DeletedAt (List.filter is_live (objects (r_objects (sy_repo recreated)))) = [None] /\
  sy_blobs recreated !! "acme/b/k"%string = Some "two"%string /\
  objects (r_objects (sy_repo s')) = [] /\ sy_blobs s' !! "acme/b/k"%string = None.
Proof. by vm_compute. Qed.

#[export] Program Instance mem_listing_laws : ListingLaws (gmap string string) := {| st_object := fun _ => True |}.
Next Obligation. done. Qed.
Next Obligation. done. Qed.

(** Two blobs of "acme", and the row of the first. *)
Definition stray : Sys (gmap string string) :=
  let s := recreated in
  Build_Sys (sy_tick s) (sy_repo s) (<["acme/b/stray"%string := "data"%string]> (sy_blobs s)) (sy_events s) (sy_cleaned s) (sy_observed s).

(** A reconciler that deletes the orphans older than the grace period. *)
Definition deleting (grace : Z) : Job := New dialectSQLite background Hour true grace ["acme"%string].

Lemma orphan_sweep_spares_witness :
  let sweep := sweepOrphanBlobs 5 (deleting (2 * Hour)) an_hour_later "acme" in
  snd (sweep (Build_Sweep stray 0 0)) = Ok (1, 0) /\
  stored noGetOptions "acme/b/stray" (sy_blobs (sw_sys (fst (sweep (Build_Sweep stray 0 0))))) =
  stored noGetOptions "acme/b/stray" (sy_blobs stray).
Proof.
  intros sweep. split; [vm_compute; reflexivity|].
  apply (orphan_sweep_spares 5 (deleting (2 * Hour)) an_hour_later "acme" "acme/b/stray" noGetOptions (Build_Sweep stray 0 0)).
  - exact I.
  - exact I.
  - apply us_young. intros i (prefix & marker & n & page & E & Hi) _. assert (oi_LastModified i = at_sec 5) as ->.
    { cbn in E. unfold mem_list, reads in E. cbn in E. injection E as <-. cbn in Hi. apply elem_sort_by in Hi.
      apply list_elem_of_omap in Hi as ([k d] & _ & Hi). destruct (_ && _); [|discriminate Hi]. injection Hi as <-. reflexivity. }
    split; [reflexivity|]. intros m. vm_compute. discriminate.
Defined.

(** With a grace period of a minute it is deleted, and the referenced blob is left. *)
Example stray_blob_is_deleted :
  let s' := swept (sweepOrphanBlobs 5 (deleting Minute) an_hour_later "acme") stray in
  sy_blobs stray !! "acme/b/stray"%string = Some "data"%string /\ sy_blobs s' !! "acme/b/stray"%string = None /\
  sy_blobs s' !! "acme/b/k"%string = Some "two"%string.
Proof. by vm_compute. Qed.
