(* ===== verification/EventBoundary.v ===== *)
(** * Admission of events (src/internal/events/resource_boundary.go, event_authority.go,
      event_outbox_boundary.go)

    The events package's view of the resource boundary: it observes a tenant's bucket
    through [Access.CheckBucket] and answers unbound, bound or a fault.  The authority
    rereads a persisted event by its id.  A nil boundary or authority is [None], a nil
    context too; a context is [Ctx]. *)

From Stdlib Require Import Lia Bool ZArith.
From stdpp Require Import base gmap strings list numbers option.
From S2P Require Import Prelude GoStrings GoTime GoErrors Sql JsonStruct Spaces Access AccessStore Outbox Objects EventLog EventPayload.

Open Scope Z_scope.

Definition ErrResourceBoundaryUnavailable : string := "events.ErrResourceBoundaryUnavailable".
Definition ErrEventAuthorityUnavailable : string := "events.ErrEventAuthorityUnavailable".
Definition errOutboxBoundaryFault : string := "events.errOutboxBoundaryFault".
Definition errOutboxPolicyDenied : string := "events.errOutboxPolicyDenied".

Definition BoundaryUnknown : string := "".
Definition BoundaryUnbound : string := "unbound".
Definition BoundaryBound : string := "bound".

(** The class of eventResourceBoundaryFault is the access package's. *)
Definition newResourceBoundaryFault (cause : error) : error := ClassFault ErrResourceBoundaryFault cause.

(** ** Predicates *)

Definition event_IsResourceBoundaryFault (err : option error) : bool :=
  IsResourceBoundaryFault err || Is err ErrResourceBoundaryUnavailable.
Definition event_IsResourceBoundaryDenied (err : option error) : bool :=
  negb (event_IsResourceBoundaryFault err) && Is err ErrDenied.
Definition IsEventAuthorityFault (err : option error) : bool :=
  Is err ErrEventAuthorityFault || Is err ErrEventAuthorityUnavailable.

(** ** The boundary *)

(** [late] is the context's error when it is read once more after the observation. *)
Section Boundary.
Context `{UUIDLib}.

Definition Classify (b : option ResourceBoundary) (ctx : option Ctx) (late : option error) (tenant bucket : string)
    : string * option error :=
  match ctx with
  | None => (BoundaryUnknown, Some (newResourceBoundaryFault (NewError "missing boundary context")))
  | Some c =>
      match ctx_Err c, b with
      | Some err, _ => (BoundaryUnknown, Some (newResourceBoundaryFault err))
      | None, None => (BoundaryUnknown, Some (newResourceBoundaryFault (NewError "missing access boundary")))
      | None, Some core =>
          match CheckBucket (Some core) ctx tenant bucket with
          | None => match late with
                    | Some err => (BoundaryUnknown, Some (newResourceBoundaryFault err))
                    | None => (BoundaryUnbound, None)
                    end
          | Some err =>
              if IsResourceBoundaryFault (Some err) then (BoundaryUnknown, Some (newResourceBoundaryFault err))
              else if IsResourceBoundaryDenied (Some err) then
                if Is (Some err) ErrSpaceBound then (BoundaryBound, None)
                else (BoundaryUnbound, errors_Join [Some (Sentinel ErrDenied); Some err])
              else (BoundaryUnknown, Some (newResourceBoundaryFault err))
          end
      end
  end.

Definition events_CheckBucket (b : option ResourceBoundary) (ctx : option Ctx) (late : option error)
    (tenant bucket : string) : option error :=
  let '(outcome, err) := Classify b ctx late tenant bucket in
  match err with
  | Some err => Some err
  | None =>
      if (outcome =s BoundaryBound) then errors_Join [Some (Sentinel ErrDenied); Some (Sentinel ErrSpaceBound)]
      else if (outcome <>s BoundaryUnbound) then Some (newResourceBoundaryFault (NewError "invalid boundary outcome"))
      else None
  end.

(** bus.go *)
Definition admitEventBucket (boundary : option (option ResourceBoundary)) (ctx : option Ctx) (late : option error)
    (tenant bucket : string) : option error :=
  match boundary with
  | None => Some (newResourceBoundaryFault (NewError "missing resource boundary"))
  | Some b => events_CheckBucket b ctx late tenant bucket
  end.

(** The relay's bridge: a fault stays a fault, a refusal is a policy refusal. *)
Definition newOutboxBoundaryFault (cause : error) : error := ClassFault errOutboxBoundaryFault cause.
Definition outboxPolicyDenied (cause : error) : error := Wrap "" [Sentinel errOutboxPolicyDenied; cause].
Definition isOutboxPolicyDenied (err : error) : bool := errors_Is err errOutboxPolicyDenied.

(** outboxBoundary.check; a missing boundary is [None]. *)
Definition outbox_check (boundary : option (option ResourceBoundary)) (ctx : option Ctx) (late : option error)
    (tenant bucket : string) : option error :=
  match boundary with
  | None => Some (newOutboxBoundaryFault (NewError "missing binding reader"))
  | Some b =>
      match events_CheckBucket b ctx late tenant bucket with
      | None => None
      | Some err =>
          Some (if event_IsResourceBoundaryFault (Some err) then newOutboxBoundaryFault err
                else if event_IsResourceBoundaryDenied (Some err) then outboxPolicyDenied err
                else newOutboxBoundaryFault err)
      end
  end.
End Boundary.

(** ** The authority (event_authority.go) *)

Definition sameEventPayload (a b : kv) : bool := bool_decide (a = b).

Definition sameEventIdentity (got want : Event) : bool :=
  (ev_Type got =s ev_Type want) && (ev_TenantID got =s ev_TenantID want) && (ev_Bucket got =s ev_Bucket want) &&
  (ev_Key got =s ev_Key want) && bool_decide (ev_ObjectID got = ev_ObjectID want) &&
  sameEventPayload (ev_Payload got) (ev_Payload want).

Definition validateEventAuthorityInput (ctx : option Ctx) (want : Event) : option error :=
  match ctx with
  | None => Some (NewError "missing event authority context")
  | Some c =>
      match ctx_Err c with
      | Some err => Some err
      | None => if ev_ID want <=? 0 then Some (NewError "event identity requires a positive persisted ID")
                else if (ev_TenantID want =s "") then Some (NewError "event identity requires a non-empty tenant")
                else None
      end
  end.

(** The reader of persisted events, [ListEventsAfter] of a repository. *)
Definition event_reader : Type := option Ctx -> string -> Z -> Z -> result (list Event).

Definition Reread (repo : option event_reader) (ctx : option Ctx) (want : Event) : result Event :=
  match validateEventAuthorityInput ctx want with
  | Some err => Err (newEventAuthorityFault err)
  | None =>
      match repo with
      | None => Err (newEventAuthorityFault (NewError "missing event persistence"))
      | Some list_after =>
          let rows := list_after ctx (ev_TenantID want) (ev_ID want - 1) 1 in
          let err := match rows with Err e => Some e | Ok _ => None end in
          match errors_Join [err; errAfter ctx], rows with
          | Some err, _ => Err (newEventAuthorityFault err)
          | None, Ok (got :: _) =>
              if negb (ev_ID got =? ev_ID want) then Err (newEventAuthorityFault (NewError "event gap"))
              else if negb (sameEventIdentity got want)
              then Err (newEventAuthorityFault (NewError "event does not match its persisted fact"))
              else Ok got
          | None, _ => Err (newEventAuthorityFault (NewError "event is not persisted"))
          end
      end
  end.

(** The reader a database gives. *)
Definition db_reader (db : EventDB) : event_reader := fun ctx tenant afterID limit =>
  snd (ListEventsAfter (ctx ≫= ctx_Err) tenant afterID limit db).
