(* ===== verification/EventRelay.v ===== *)
(** * The outbox relay (src/internal/events/event_outbox_relay.go, notifier.go)

    A relay claims facts and hands each one on: a deleted fact to the audit sink, a
    notification to the targets of the bucket's rules.  What it meets outside, the
    clock, the boundary, the rules, the targets and the sink, is an environment on a
    world that moves on between two observations.  Delivering a fact leaves a trace of
    what was observed and sent, and ends with exactly one call on the outbox: a
    completion or a retry.  Error texts and random numbers are the environment's. *)

From Stdlib Require Import Ascii Lia Bool ZArith.
From stdpp Require Import base strings list numbers option.
From S2P Require Import Prelude GoStrings GoTime Backoff GoErrors Sql JsonStruct Spaces Access AccessStore Outbox OutboxProps Objects EventPayload EventLog EventBoundary.

Open Scope Z_scope.

(** ** Rules (notifier.go) *)

Record NotificationRule := {
  ru_ID : string; ru_Events : list string; ru_FilterKey : string; ru_QueueARN : string; ru_TopicARN : string;
  ru_LambdaARN : string; ru_EndpointURL : string
}.

Definition matchEvent (pattern eventName : string) : bool :=
  if (pattern =s eventName) then true
  else if HasSuffix pattern ":*" then HasPrefix eventName (TrimSuffix pattern ":*" ++ ":")
  else false.

Definition ruleMatches (rule : NotificationRule) (eventName key : string) : bool :=
  match ru_Events rule with
  | [] => false
  | events =>
      if negb (existsb (fun re => matchEvent re eventName) events) then false
      else if (ru_FilterKey rule <>s "") && negb (HasPrefix key (ru_FilterKey rule)) then false
      else true
  end.

(** resource[strings.LastIndex(resource, ":")+1:] *)
Definition after_last_colon (s : string) : string :=
  match reverse (Split s ":") with
  | last :: _ => last
  | [] => s
  end.

Definition arnToHTTP (arn service : string) : string :=
  match SplitN arn ":" 6 with
  | [_; _; _; region; account; resource] =>
      if (service =s "sns") then ("http://sns." ++ region ++ ".amazonaws.com/?Action=Publish&TopicArn=" ++ arn)%string
      else if (service =s "sqs") then
        ("http://sqs." ++ region ++ ".amazonaws.com/" ++ account ++ "/" ++ after_last_colon resource)%string
      else if (service =s "lambda") then
        ("http://lambda." ++ region ++ ".amazonaws.com/2015-03-31/functions/" ++ resource ++ "/invocations")%string
      else arn
  | _ => arn
  end.

Definition resolveTargets (rule : NotificationRule) : list string :=
  (if (ru_EndpointURL rule <>s "") then [ru_EndpointURL rule] else []) ++
  (if (ru_TopicARN rule <>s "") then [arnToHTTP (ru_TopicARN rule) "sns"] else []) ++
  (if (ru_QueueARN rule <>s "") then [arnToHTTP (ru_QueueARN rule) "sqs"] else []) ++
  (if (ru_LambdaARN rule <>s "") then [arnToHTTP (ru_LambdaARN rule) "lambda"] else []).

(** ** Configuration *)

Record EventOutboxRelay := {
  re_owner : string; re_pollEvery : Z; re_batchSize : Z; re_claimTTL : Z; re_httpTimeout : Z; re_maxAttempts : Z;
  re_deliveredRetain : Z; re_failedRetain : Z
}.

Record EventOutboxRelayOptions := {
  op_PollInterval : Z; op_BatchSize : Z; op_ClaimTTL : Z; op_HTTPTimeout : Z; op_MaxAttempts : Z;
  op_DeliveredRetain : Z; op_FailedRetain : Z
}.

Definition or_default (value default : Z) : Z := if value <=? 0 then default else value.

(** [hostname] is os.Hostname's answer, "unknown" when it fails. *)
Definition NewEventOutboxRelay (hostname : string) (opts : EventOutboxRelayOptions) : EventOutboxRelay := {|
  re_owner := "event-outbox:" ++ hostname;
  re_pollEvery := or_default (op_PollInterval opts) Second;
  re_batchSize := or_default (op_BatchSize opts) 32;
  re_claimTTL := or_default (op_ClaimTTL opts) (30 * Second);
  re_httpTimeout := or_default (op_HTTPTimeout opts) (5 * Second);
  re_maxAttempts := or_default (op_MaxAttempts opts) 10;
  re_deliveredRetain := or_default (op_DeliveredRetain opts) (24 * Hour);
  re_failedRetain := or_default (op_FailedRetain opts) (7 * 24 * Hour) |}.

Definition eventOutboxPruneEveryRounds : Z := 60.

(** ** Errors of the sink (audit_sink.go) *)

Definition ErrSinkNotBound : string := "events.ErrSinkNotBound".
Definition ErrSinkUnauthorized : string := "events.ErrSinkUnauthorized".
Definition ErrSinkUnauthorized_text : string := "audit sink: L2 rejected credentials".

Definition eventOutboxNotifyPolicyReason : string := "notify policy refused: Space-bound resource".
Definition eventOutboxTenantPolicyReason : string := "notify policy refused: tenant unavailable".

(** ** The environment *)

Record environment (W : Type) := {
  en_tick : W -> W;
  en_now : W -> time;
  en_rand : W -> option Z;
  en_text : error -> string;
  en_ctx : W -> Ctx;
  en_late : W -> option error;
  en_call_ctx : W -> option error;
  en_boundary : W -> option (option ResourceBoundary);
  en_rules : W -> string -> string -> result (list NotificationRule);
  en_post : W -> string -> string -> option error;
  en_sink : option (W -> string -> Z -> string -> option error)
}.
Arguments en_tick {W}. Arguments en_now {W}. Arguments en_rand {W}. Arguments en_text {W}. Arguments en_ctx {W}.
Arguments en_late {W}. Arguments en_call_ctx {W}. Arguments en_boundary {W}. Arguments en_rules {W}.
Arguments en_post {W}. Arguments en_sink {W}.

(** What a delivery did, in order. *)
Inductive action :=
| Observed (tenant bucket : string) (verdict : option error)
| LookedUpRules (tenant bucket : string)
| Posted (url body : string) (answer : option error)
| Sank (tenant : string) (id : Z) (payload : string) (answer : option error).

Section Relay.
Context `{UUIDLib} {W : Type} (env : environment W) (r : EventOutboxRelay).

(** The last call of a delivery. *)
Definition complete (w : W) (fact : EventOutboxRow) : outbox_call :=
  CallComplete (en_call_ctx env w) (eo_ID fact) (eo_ClaimOwner fact) (eo_ClaimToken fact).

Definition retry (w : W) (fact : EventOutboxRow) (cause : error) : outbox_call :=
  CallRetry (en_call_ctx env w) (eo_ID fact) (eo_ClaimOwner fact) (eo_ClaimToken fact) (en_text env cause)
    (en_now env w + eventOutboxBackoff (eo_Attempts fact) (en_rand env w)) (re_maxAttempts r).

(** A retry with the attempts as their own limit, which makes the fact fail. *)
Definition fail_with (w : W) (fact : EventOutboxRow) (reason : string) : outbox_call :=
  CallRetry (en_call_ctx env w) (eo_ID fact) (eo_ClaimOwner fact) (eo_ClaimToken fact) reason
    (en_now env w) (eo_Attempts fact).

Definition failImmediately (w : W) (fact : EventOutboxRow) : outbox_call := fail_with w fact ErrSinkUnauthorized_text.

Definition failNotifyPolicy (w : W) (fact : EventOutboxRow) (cause : error) : outbox_call :=
  fail_with w fact (if errors_Is cause ErrTenantUnavailable then eventOutboxTenantPolicyReason
                    else eventOutboxNotifyPolicyReason).

Definition handleNotifyAdmissionFailure (w : W) (fact : EventOutboxRow) (err : error) : outbox_call :=
  if isOutboxPolicyDenied err then failNotifyPolicy w fact err else retry w fact err.

(** One observation of the boundary. *)
Definition admitNotify (w : W) (meta : notifyPayloadMeta) : option error :=
  outbox_check (en_boundary env w) (Some (en_ctx env w)) (en_late env w) (nm_Tenant meta) (nm_Bucket meta).

(** The inner loop over the targets of a rule: the world, the trace, the first error. *)
Fixpoint post_targets (w : W) (meta : notifyPayloadMeta) (body : string) (targets : list string)
    : W * list action * option error :=
  match targets with
  | [] => (w, [], None)
  | target :: rest =>
      let verdict := admitNotify w meta in
      let seen := Observed (nm_Tenant meta) (nm_Bucket meta) verdict in
      let w1 := en_tick env w in
      match verdict with
      | Some err => (w1, [seen], Some err)
      | None =>
          let answer := en_post env w1 target body in
          let w2 := en_tick env w1 in
          match answer with
          | Some err => (w2, [seen; Posted target body answer], Some (Wrap "deliver notification" [err]))
          | None =>
              let '(w', more, err) := post_targets w2 meta body rest in
              (w', seen :: Posted target body answer :: more, err)
          end
      end
  end.

Fixpoint deliverNotifyTargets (w : W) (rules : list NotificationRule) (meta : notifyPayloadMeta) (body : string)
    : W * list action * option error :=
  match rules with
  | [] => (w, [], None)
  | rule :: rest =>
      if negb (ruleMatches rule eventOutboxRemoveEventName (nm_Key meta)) then deliverNotifyTargets w rest meta body
      else
        let '(w1, sent, err) := post_targets w meta body (resolveTargets rule) in
        match err with
        | Some err => (w1, sent, Some err)
        | None => let '(w', more, err) := deliverNotifyTargets w1 rest meta body in (w', sent ++ more, err)
        end
  end.

(** The trace and the last call, made in the world it names. *)
Definition outcome : Type := list action * W * outbox_call.

Definition deliverNotify (w : W) (fact : EventOutboxRow) : outcome :=
  match validateOutboxNotifyFact fact with
  | Err err => ([], w, retry w fact err)
  | Ok meta =>
      let verdict := admitNotify w meta in
      let seen := Observed (nm_Tenant meta) (nm_Bucket meta) verdict in
      let w1 := en_tick env w in
      match verdict with
      | Some err => ([seen], w1, handleNotifyAdmissionFailure w1 fact err)
      | None =>
          let w2 := en_tick env w1 in
          let looked := LookedUpRules (nm_Tenant meta) (nm_Bucket meta) in
          match en_rules env w1 (nm_Tenant meta) (nm_Bucket meta) with
          | Err err => ([seen; looked], w2, retry w2 fact err)
          | Ok rules =>
              let '(w3, sent, err) := deliverNotifyTargets w2 rules meta (eo_Payload fact) in
              match err with
              | Some err => (seen :: looked :: sent, w3, handleNotifyAdmissionFailure w3 fact err)
              | None => (seen :: looked :: sent, w3, complete w3 fact)
              end
          end
      end
  end.

Definition deliverDeleted (w : W) (fact : EventOutboxRow) : outcome :=
  match validateOutboxDeletedFact fact with
  | Some err => ([], w, retry w fact err)
  | None =>
      match en_sink env with
      | None => ([], w, complete w fact)
      | Some sink =>
          let answer := sink w (eo_TenantID fact) (eo_ID fact) (eo_Payload fact) in
          let w1 := en_tick env w in
          ([Sank (eo_TenantID fact) (eo_ID fact) (eo_Payload fact) answer], w1,
           match answer with
           | None => complete w1 fact
           | Some err => if errors_Is err ErrSinkNotBound then complete w1 fact
                         else if errors_Is err ErrSinkUnauthorized then failImmediately w1 fact
                         else retry w1 fact err
           end)
      end
  end.

Definition deliverFact (w : W) (fact : EventOutboxRow) : outcome :=
  if (eo_EventType fact =s EventTypeFileDeleted11) then deliverDeleted w fact
  else if (eo_EventType fact =s EventTypeFileNotify11) then deliverNotify w fact
  else ([], w, retry w fact (NewError "unknown event outbox fact type")).

(** The claim of a batch, and the prune of every sixtieth round. *)
Definition claim_batch (w : W) (locked : Z -> bool) (now1 : time) (token : string) : outbox_call :=
  CallClaim (en_call_ctx env w) locked now1 (re_owner r) token (re_batchSize r) (re_claimTTL r).

Definition prune (w : W) : outbox_call :=
  CallPrune (en_call_ctx env w) (en_now env w - re_deliveredRetain r) (en_now env w - re_failedRetain r).

Definition prunes_after (rounds : Z) : bool := rounds mod eventOutboxPruneEveryRounds =? 0.
End Relay.
