(* ===== verification/EventRelayProps.v ===== *)
(** * What the relay guarantees

    Every POST directly follows an observation that admitted the fact's own tenant and
    bucket, and carries the stored payload verbatim ([posts_are_admitted]); with healthy
    targets every target of every matching rule is reached once and the fact completes
    ([healthy_delivery]); a Space-bound bucket is never notified and its fact fails for
    good ([bound_bucket_is_refused]); a delivery that still holds its claim releases it
    ([delivery_releases_claim]). *)

From Stdlib Require Import Ascii Lia Bool ZArith.
From stdpp Require Import base strings list numbers option relations.
From S2P Require Import Prelude GoStrings Json GoTime Backoff GoErrors Sql JsonStruct Spaces Access AccessProps AccessStore Outbox OutboxProps Objects EventPayload EventPayloadProps EventLog EventBoundary EventRelay.

Open Scope Z_scope.

(** ** The boundary, seen by the relay *)

Section Boundary.
Context `{UUIDLib}.

(** A refusal of the boundary is a policy refusal, everything else a fault. *)
Lemma outbox_check_denied b ctx late tenant bucket err :
  ctx_Err ctx = None -> CheckBucket (Some b) (Some ctx) tenant bucket = Some err ->
  IsResourceBoundaryDenied (Some err) = true ->
  exists cause, outbox_check (Some (Some b)) (Some ctx) late tenant bucket = Some (outboxPolicyDenied cause) /\
    (errors_Is cause ErrTenantUnavailable = errors_Is err ErrTenantUnavailable).
Proof.
  intros Hc He Hd. unfold outbox_check, events_CheckBucket, Classify. rewrite Hc, He.
  apply CheckBucket_Some in He as [[cause ->]|[->| ->]]; [done| |]; eexists; split; reflexivity.
Qed.

Lemma outbox_check_admits b ctx late tenant bucket :
  outbox_check b (Some ctx) late tenant bucket = None <->
  exists core, b = Some (Some core) /\ ctx_Err ctx = None /\ CheckBucket (Some core) (Some ctx) tenant bucket = None /\ late = None.
Proof.
  unfold outbox_check, events_CheckBucket, Classify. split.
  - destruct b as [[core|]|]; [| |done]; destruct (ctx_Err ctx) eqn:Hc; cbn; try done.
    destruct (CheckBucket (Some core) (Some ctx) tenant bucket) as [err|] eqn:He.
    + apply CheckBucket_Some in He as [[cause ->]|[->| ->]]; done.
    + destruct late; [done|]. intros _. by exists core.
  - intros (core & -> & -> & -> & ->). done.
Qed.
End Boundary.

(** ** Traces *)

(** Every POST directly follows an admission of the scope, and carries the body. *)
Inductive admitted_posts (tenant bucket body : string) : list action -> Prop :=
| ap_nil : admitted_posts tenant bucket body []
| ap_seen verdict l : admitted_posts tenant bucket body l -> admitted_posts tenant bucket body (Observed tenant bucket verdict :: l)
| ap_rules l : admitted_posts tenant bucket body l -> admitted_posts tenant bucket body (LookedUpRules tenant bucket :: l)
| ap_post url answer l :
    admitted_posts tenant bucket body l ->
    admitted_posts tenant bucket body (Observed tenant bucket None :: Posted url body answer :: l).

Lemma admitted_app t b body l k : admitted_posts t b body l -> admitted_posts t b body k -> admitted_posts t b body (l ++ k).
Proof. intros Hl Hk. induction Hl; [done|by constructor|by constructor|by apply ap_post]. Qed.

Definition posts (l : list action) : list (string * string) :=
  omap (fun a => match a with Posted url body _ => Some (url, body) | _ => None end) l.

Section Relay.
Context `{UUIDLib} {W : Type} (env : environment W) (r : EventOutboxRelay).

Lemma post_targets_admitted w meta body targets :
  admitted_posts (nm_Tenant meta) (nm_Bucket meta) body (snd (fst (post_targets env w meta body targets))).
Proof.
  revert w. induction targets as [|t ts IH]; intros w; [constructor|]. cbn.
  destruct (admitNotify env w meta) as [err|]; [cbn; repeat constructor|].
  destruct (en_post env _ t body); [cbn; apply ap_post; constructor|].
  specialize (IH (en_tick env (en_tick env w))). destruct (post_targets env _ meta body ts) as [[w' more] err].
  by apply ap_post.
Qed.

Lemma deliver_targets_admitted w rules meta body :
  admitted_posts (nm_Tenant meta) (nm_Bucket meta) body (snd (fst (deliverNotifyTargets env w rules meta body))).
Proof.
  revert w. induction rules as [|rule rules IH]; intros w; [constructor|]. cbn.
  destruct (ruleMatches rule _ _); cbn; [|apply IH].
  pose proof (post_targets_admitted w meta body (resolveTargets rule)) as Hp.
  destruct (post_targets env w meta body _) as [[w1 sent] [err|]]; [done|].
  specialize (IH w1). destruct (deliverNotifyTargets env w1 rules meta body) as [[w' more] err]. by apply admitted_app.
Qed.

(** The bucket the payload of a fact is about: it is the payload's own field, and the bucket of
    every record in it, with the row's tenant. *)
Definition payload_bucket (fact : EventOutboxRow) (bucket : string) : Prop :=
  exists payload key, (Unmarshal_struct (eo_Payload fact) ≫= notifyFact_decode) = Some payload /\
    nf_Bucket payload = bucket /\ nf_Records payload <> [] /\
    Forall (record_about (eo_TenantID fact) bucket key) (nf_Records payload).

(** C17: whatever happens between two observations, a POST of the relay directly follows
    an observation that admitted exactly the row's tenant and the bucket of the payload,
    both well-formed, and its body is the stored payload. *)
Theorem posts_are_admitted w fact pre url body answer post :
  fst (fst (deliverFact env r w fact)) = pre ++ Posted url body answer :: post ->
  body = eo_Payload fact /\
  exists pre' bucket, pre = pre' ++ [Observed (eo_TenantID fact) bucket None] /\
    payload_bucket fact bucket /\ ValidateBindingInput (eo_TenantID fact) bucket = None.
Proof.
  intros Ht. assert (exists bucket, admitted_posts (eo_TenantID fact) bucket (eo_Payload fact) (fst (fst (deliverFact env r w fact))) /\
            payload_bucket fact bucket /\ ValidateBindingInput (eo_TenantID fact) bucket = None) as (bucket & Ha & Hv).
  { unfold deliverFact in *. destruct (eo_EventType fact =s EventTypeFileDeleted11) eqn:E1.
    { exfalso. unfold deliverDeleted in Ht. destruct (validateOutboxDeletedFact fact); [by destruct pre|].
      destruct (en_sink env); [|by destruct pre]. cbn in Ht. destruct pre as [|? [|]]; discriminate Ht. }
    destruct (eo_EventType fact =s EventTypeFileNotify11) eqn:E2; [|by destruct pre]. apply streqb_true in E2.
    unfold deliverNotify in *. destruct (validateOutboxNotifyFact fact) as [meta|err] eqn:Em; [|by destruct pre].
    destruct (accepted_scope fact meta E2 Em) as (payload & Hp & Htn & Hne & Hall & Hb & Hpb). exists (nm_Bucket meta).
    split; [|split; [by exists payload, (nm_Key meta)|done]].
    rewrite <- Htn. destruct (admitNotify env w meta); [cbn; repeat constructor|].
    destruct (en_rules env _ _ _) as [rules|]; [|cbn; repeat constructor].
    pose proof (deliver_targets_admitted (en_tick env (en_tick env w)) rules meta (eo_Payload fact)) as Hd.
    destruct (deliverNotifyTargets env _ rules meta _) as [[w3 sent] [err|]]; cbn; by repeat constructor. }
  clear -Ha Hv Ht. revert pre Ht. induction Ha as [|v l Ha IH|l Ha IH|u a l Ha IH]; intros pre Ht.
  - by destruct pre.
  - destruct pre as [|x pre]; [done|]. injection Ht as <- Ht.
    destruct (IH pre Ht) as (-> & pre' & b & -> & Hb). split; [done|]. by exists (Observed (eo_TenantID fact) bucket v :: pre'), b.
  - destruct pre as [|x pre]; [done|]. injection Ht as <- Ht.
    destruct (IH pre Ht) as (-> & pre' & b & -> & Hb). split; [done|]. by exists (LookedUpRules (eo_TenantID fact) bucket :: pre'), b.
  - destruct pre as [|x [|y pre]]; [done| |].
    + injection Ht as <- -> <- -> ->. split; [done|]. by exists [], bucket.
    + injection Ht as <- <- Ht. destruct (IH pre Ht) as (-> & pre' & b & -> & Hb). split; [done|].
      by exists (Observed (eo_TenantID fact) bucket None :: Posted u (eo_Payload fact) a :: pre'), b.
Qed.

(** ** Healthy targets *)

(** The targets of the rules that match a key, in order. *)
Definition targets_of (rules : list NotificationRule) (key : string) : list string :=
  concat (map resolveTargets (List.filter (fun rule => ruleMatches rule eventOutboxRemoveEventName key) rules)).

Lemma posts_app l k : posts (l ++ k) = posts l ++ posts k.
Proof. apply omap_app. Qed.

Section Healthy.
Context (meta : notifyPayloadMeta) (body : string).
Context (Hadmit : forall w, admitNotify env w meta = None) (Hpost : forall w url, en_post env w url body = None).

Lemma post_targets_healthy w targets :
  let '(_, trace, err) := post_targets env w meta body targets in
  posts trace = map (fun url => (url, body)) targets /\ err = None.
Proof.
  revert w. induction targets as [|t ts IH]; intros w; [done|]. cbn. rewrite Hadmit, Hpost.
  specialize (IH (en_tick env (en_tick env w))). destruct (post_targets env _ meta body ts) as [[w' more] err].
  destruct IH as [IH ->]. cbn. by rewrite <- IH.
Qed.

Lemma deliver_targets_healthy w rules :
  let '(_, trace, err) := deliverNotifyTargets env w rules meta body in
  posts trace = map (fun url => (url, body)) (targets_of rules (nm_Key meta)) /\ err = None.
Proof.
  revert w. induction rules as [|rule rules IH]; intros w; [done|]. cbn [deliverNotifyTargets].
  unfold targets_of. cbn [List.filter]. destruct (ruleMatches rule _ _) eqn:Em; cbn [negb]; [|apply IH].
  pose proof (post_targets_healthy w (resolveTargets rule)) as Hp.
  destruct (post_targets env w meta body _) as [[w1 sent] err]. destruct Hp as [Hp ->].
  specialize (IH w1). destruct (deliverNotifyTargets env w1 rules meta body) as [[w' more] err].
  destruct IH as [IH ->]. split; [|done]. cbn [map concat]. by rewrite posts_app, Hp, IH, map_app.
Qed.
End Healthy.

(** When the bucket stays admitted and every target answers, an accepted
    notification is POSTed to every target of every matching rule, each once and in the
    order of the rules, and the fact is completed. *)
Theorem healthy_delivery w fact meta rules :
  eo_EventType fact = EventTypeFileNotify11 -> validateOutboxNotifyFact fact = Ok meta ->
  (forall w, admitNotify env w meta = None) -> (forall w url, en_post env w url (eo_Payload fact) = None) ->
  en_rules env (en_tick env w) (nm_Tenant meta) (nm_Bucket meta) = Ok rules ->
  let '(trace, w', call) := deliverFact env r w fact in
  posts trace = map (fun url => (url, eo_Payload fact)) (targets_of rules (nm_Key meta)) /\ call = complete env w' fact.
Proof.
  intros Ht Hv Ha Hp Hr. unfold deliverFact. rewrite Ht.
  change (EventTypeFileNotify11 =s EventTypeFileDeleted11) with false. rewrite streqb_refl.
  unfold deliverNotify. rewrite Hv, Ha, Hr.
  pose proof (deliver_targets_healthy meta (eo_Payload fact) Ha Hp (en_tick env (en_tick env w)) rules) as Hd.
  destruct (deliverNotifyTargets env _ rules meta _) as [[w3 sent] err]. destruct Hd as [Hd ->]. done.
Qed.

(** ** Refusals *)

(** A claimed row has been claimed at least once. *)
Lemma claimed_attempts db row now :
  outbox_inv db -> row ∈ event_outbox db ->
  holds_claim (ob_id row) (ob_claim_owner row) (ob_claim_token row) now row = true -> 1 <= ob_attempts row.
Proof.
  intros Hr Hin Hh. destruct (inv_rows _ Hr row Hin) as [_ [_ Hclaim]]. pose proof Hh as (_ & Hst & _)%holds_claim_row.
  destruct Hclaim as [(_ & _ & _ & ?)|(Hst' & _)]; [done|]. rewrite Hst in Hst'.
  repeat (apply elem_of_cons in Hst' as [|Hst']; [done|]). by apply elem_of_nil in Hst'.
Qed.

(** A failing call makes the row failed for good, with the reason it gives. *)
Lemma fail_settles d now db row w reason :
  outbox_inv db -> row ∈ event_outbox db -> pg_bad_text d (retry_text reason) = false ->
  holds_claim (ob_id row) (ob_claim_owner row) (ob_claim_token row) (UnixNano now) row = true ->
  en_call_ctx env w = None ->
  exists row', row' ∈ event_outbox (run_call d now (fail_with env w (scanEventOutboxRow row) reason) db) /\
    ob_id row' = ob_id row /\ ob_status row' = "failed"%string /\ ob_last_error row' = retry_text reason.
Proof.
  intros Hr Hin Ht Hh Hc. pose proof (claimed_attempts _ _ _ Hr Hin Hh) as Hat. unfold fail_with. rewrite Hc.
  eexists. split; [by apply retry_settles|]. split; [done|]. cbn [retry_row ob_status ob_last_error scanEventOutboxRow eo_Attempts].
  rewrite (proj2 (Z.leb_gt (ob_attempts row) 0)) by lia. by rewrite Z.leb_refl.
Qed.

Lemma policy_reason_text d :
  pg_bad_text d (retry_text eventOutboxNotifyPolicyReason) = false /\
  retry_text eventOutboxNotifyPolicyReason = eventOutboxNotifyPolicyReason.
Proof. by destruct d. Qed.

Lemma notify_is_not_deleted : (EventTypeFileNotify11 =s EventTypeFileDeleted11) = false.
Proof. done. Qed.

Lemma policy_denied cause : isOutboxPolicyDenied (outboxPolicyDenied cause) = true.
Proof. done. Qed.

Lemma denied_tenant cause : errors_Is (outboxPolicyDenied cause) ErrTenantUnavailable = errors_Is cause ErrTenantUnavailable.
Proof. cbn. by destruct (errors_Is cause _). Qed.

(** A notification of a bucket that is bound to a space is not POSTed anywhere, and
    while its claim lasts the fact becomes failed with the policy as its reason, which
    is final. *)
Theorem bound_bucket_is_refused d now db row meta err core w :
  outbox_reachable d db -> row ∈ event_outbox db ->
  holds_claim (ob_id row) (ob_claim_owner row) (ob_claim_token row) (UnixNano now) row = true ->
  eo_EventType (scanEventOutboxRow row) = EventTypeFileNotify11 ->
  validateOutboxNotifyFact (scanEventOutboxRow row) = Ok meta ->
  en_boundary env w = Some (Some core) -> ctx_Err (en_ctx env w) = None ->
  CheckBucket (Some core) (Some (en_ctx env w)) (nm_Tenant meta) (nm_Bucket meta) = Some err ->
  errors_Is err ErrSpaceBound = true -> IsResourceBoundaryDenied (Some err) = true ->
  en_call_ctx env (en_tick env w) = None ->
  let '(trace, w', call) := deliverFact env r w (scanEventOutboxRow row) in
  posts trace = [] /\
  exists row', row' ∈ event_outbox (run_call d now call db) /\ ob_id row' = ob_id row /\
    ob_status row' = "failed"%string /\ ob_last_error row' = eventOutboxNotifyPolicyReason.
Proof.
  intros Hr%outbox_reach_inv Hin Hh Ht Hv Hb Hc Hchk Hsb Hden Hctx. unfold deliverFact.
  rewrite Ht, notify_is_not_deleted, streqb_refl. unfold deliverNotify. rewrite Hv. unfold admitNotify. rewrite Hb.
  destruct (outbox_check_denied core (en_ctx env w) (en_late env w) _ _ _ Hc Hchk Hden) as (cause & -> & Htn).
  split; [done|]. unfold handleNotifyAdmissionFailure, failNotifyPolicy. rewrite policy_denied, denied_tenant, Htn.
  assert (errors_Is err ErrTenantUnavailable = false) as ->.
  { apply CheckBucket_Some in Hchk as [[c ->]|[->| ->]]; [done|done|discriminate Hsb]. }
  destruct (policy_reason_text d) as [Hp Hq].
  destruct (fail_settles d now db row (en_tick env w) eventOutboxNotifyPolicyReason Hr Hin Hp Hh Hctx)
    as (row' & Hrow & Hid & Hst & Hle). exists row'. by rewrite Hle.
Qed.

(** ** The claim is released *)

(** The status of the row after the last call of a delivery. *)
Definition settled (row row' : OutboxRow) : Prop :=
  ob_id row' = ob_id row /\ row_fact row' = row_fact row /\ ob_claim_token row' = ""%string /\
  (ob_status row' = "delivered" \/ ob_status row' = "failed" \/
   (ob_status row' = "pending" /\ ob_attempts row < re_maxAttempts r))%string.

Lemma settled_complete d now db row w :
  outbox_inv db -> row ∈ event_outbox db ->
  holds_claim (ob_id row) (ob_claim_owner row) (ob_claim_token row) (UnixNano now) row = true ->
  en_call_ctx env w = None ->
  exists row', row' ∈ event_outbox (run_call d now (complete env w (scanEventOutboxRow row)) db) /\ settled row row'.
Proof.
  intros Hr Hin Hh Hc. unfold complete. rewrite Hc. eexists. split; [by apply complete_settles|].
  split_and!; try done. by left.
Qed.

Lemma settled_retry d now db row w lastErr next maxAttempts :
  row ∈ event_outbox db -> pg_bad_text d (retry_text lastErr) = false ->
  holds_claim (ob_id row) (ob_claim_owner row) (ob_claim_token row) (UnixNano now) row = true ->
  maxAttempts = re_maxAttempts r \/ maxAttempts <= ob_attempts row -> 0 < re_maxAttempts r -> 1 <= ob_attempts row ->
  en_call_ctx env w = None ->
  exists row', row' ∈ event_outbox (run_call d now (CallRetry (en_call_ctx env w) (ob_id row) (ob_claim_owner row)
                 (ob_claim_token row) lastErr next maxAttempts) db) /\ settled row row'.
Proof.
  intros Hin Ht Hh Hm Hpos Hat Hc. rewrite Hc. eexists. split; [by apply retry_settles|]. split_and!; try done. cbn.
  destruct (Z.leb_spec maxAttempts 0); [rewrite (proj2 (Z.leb_le _ _)) by lia; by right; left|].
  destruct (Z.leb_spec maxAttempts (ob_attempts row)); [by right; left|]. right; right. split; [done|]. lia.
Qed.

(** The database does not run the call: its context is over, or PostgreSQL does not take the
    text it would record. *)
Definition call_refused (d : dialect) (c : outbox_call) : bool :=
  match c with
  | CallComplete (Some _) _ _ _ | CallRetry (Some _) _ _ _ _ _ _ => true
  | CallRetry None _ _ _ lastErr _ _ => pg_bad_text d (retry_text lastErr)
  | _ => false
  end.

Definition released (d : dialect) (now : time) (db : OutboxDB) (row : OutboxRow) (call : outbox_call) : Prop :=
  if call_refused d call then run_call d now call db = db
  else exists row', row' ∈ event_outbox (run_call d now call db) /\ settled row row'.

Lemma released_complete d now db row w :
  outbox_inv db -> row ∈ event_outbox db ->
  holds_claim (ob_id row) (ob_claim_owner row) (ob_claim_token row) (UnixNano now) row = true ->
  released d now db row (complete env w (scanEventOutboxRow row)).
Proof.
  intros Hr Hin Hh. unfold released. pose proof (settled_complete d now db row w Hr Hin Hh) as Hs. unfold complete in *. cbn [call_refused].
  destruct (en_call_ctx env w) eqn:Ec; [done|]. by apply Hs.
Qed.

Lemma released_retry d now db row w lastErr next maxAttempts :
  row ∈ event_outbox db -> holds_claim (ob_id row) (ob_claim_owner row) (ob_claim_token row) (UnixNano now) row = true ->
  maxAttempts = re_maxAttempts r \/ maxAttempts <= ob_attempts row -> 0 < re_maxAttempts r -> 1 <= ob_attempts row ->
  released d now db row (CallRetry (en_call_ctx env w) (ob_id row) (ob_claim_owner row) (ob_claim_token row) lastErr next maxAttempts).
Proof.
  intros Hin Hh Hm Hpos Hat. unfold released. cbn [call_refused]. destruct (en_call_ctx env w) eqn:Ec; [done|].
  destruct (pg_bad_text d (retry_text lastErr)) eqn:Et.
  - cbn [run_call]. unfold RetryEventOutbox, with_ctx. rewrite run_guard, run_refuse. fold (retry_text lastErr). by rewrite Et.
  - rewrite <- Ec. by apply settled_retry.
Qed.

(** C21: a delivery that still holds its claim when it makes its last call releases it,
    whatever the environment answered: the fact is delivered, failed, or pending again
    with attempts left.  The one exception is a call the database does not run, as its
    context is over or the text of the error is one PostgreSQL refuses (a NUL, or bytes that
    are not UTF-8): it changes nothing, and the claim ends with its lease. *)
Theorem delivery_releases_claim d now db row w :
  0 < re_maxAttempts r -> outbox_reachable d db -> row ∈ event_outbox db ->
  holds_claim (ob_id row) (ob_claim_owner row) (ob_claim_token row) (UnixNano now) row = true ->
  released d now db row (snd (deliverFact env r w (scanEventOutboxRow row))).
Proof.
  intros Hpos Hr%outbox_reach_inv Hin Hh. set (fact := scanEventOutboxRow row).
  pose proof (claimed_attempts _ _ _ Hr Hin Hh) as Hat.
  assert (forall w, released d now db row (complete env w fact)) as Hcomplete by (intros; by apply released_complete).
  assert (forall w err, released d now db row (retry env r w fact err)) as Hretry.
  { intros w' err. apply released_retry; try done. by left. }
  assert (forall w reason, released d now db row (fail_with env w fact reason)) as Hfail.
  { intros w' reason. apply released_retry; try done. by right. }
  assert (forall w err, released d now db row (handleNotifyAdmissionFailure env r w fact err)) as Hadm.
  { intros w' err. unfold handleNotifyAdmissionFailure, failNotifyPolicy. by destruct (isOutboxPolicyDenied err). }
  unfold deliverFact, deliverDeleted, deliverNotify, failImmediately.
  repeat case_match; simplify_eq; cbn [snd]; auto.
Qed.
End Relay.

(** ** On a sample *)

Module RelaySample.
(** An environment whose world counts the steps: [bound] binds every bucket. *)
Definition observation (bound : bool) (tenant bucket : string) : BindingResult := {|
  br_TenantID := tenant; br_Bucket := bucket; br_TenantKnown := true; br_TenantStatus := "active";
  br_State := if bound then BindingBound else BindingUnbound;
  br_SpaceID := if bound then "0b7c2f3e-0000-4000-8000-000000000001" else "";
  br_Revision := if bound then 1 else 0 |}.

#[export] Instance uuids : UUIDLib := {|
  UUID := string; uuid_eqb := String.eqb; uuid_Parse := Some; uuid_Nil := "00000000-0000-0000-0000-000000000000"%string;
  uuid_String u := u |}.

Definition boundary (bound : bool) : ResourceBoundary := {|
  rb_binding := Some (fun t b => (observation bound t b, None)); rb_coverage := None |}.

Definition rule : NotificationRule := {|
  ru_ID := "r"; ru_Events := ["s3:ObjectRemoved:*"%string]; ru_FilterKey := "a"; ru_QueueARN := ""; ru_TopicARN := "";
  ru_LambdaARN := ""; ru_EndpointURL := "http://hook" |}.

Definition env (bound : bool) : environment nat := {|
  en_tick := S; en_now _ := sample_now; en_rand _ := None; en_text _ := ""%string;
  en_ctx _ := FixedStore.ctx; en_late _ := None; en_call_ctx _ := None;
  en_boundary _ := Some (Some (boundary bound)); en_rules _ _ _ := Ok [rule]; en_post _ _ _ := None; en_sink := None |}.

Definition relay : EventOutboxRelay := NewEventOutboxRelay "host" {|
  op_PollInterval := 0; op_BatchSize := 0; op_ClaimTTL := 0; op_HTTPTimeout := 0; op_MaxAttempts := 0;
  op_DeliveredRetain := 0; op_FailedRetain := 0 |}.

Definition meta : notifyPayloadMeta := {| nm_Tenant := "acme"; nm_Bucket := "docs"; nm_Key := "a.txt" |}.

(** The notification in the outbox, under the claim of a relay. *)
Definition fact : OutboxFact := {|
  of_EventType := EventTypeFileNotify11; of_OriginID := 7; of_TenantID := "acme"; of_Payload := eo_Payload sample_notify_row |}.
Definition claimed (d : dialect) : OutboxDB :=
  run_call d sample_now sample_claim (run_call d sample_now (CallInsert [fact]) empty_outbox).

Lemma claimed_reach d : outbox_reachable d (claimed d).
Proof. do 2 apply outbox_run_reachable. apply rtc_refl. Qed.
End RelaySample.
Import RelaySample.

Lemma posts_are_admitted_witness :
  exists pre' bucket, [Observed "acme" "docs" None; LookedUpRules "acme" "docs"; Observed "acme" "docs" None] =
    pre' ++ [Observed "acme" bucket None] /\ payload_bucket sample_notify_row bucket.
Proof.
  destruct (posts_are_admitted (env false) relay 0%nat sample_notify_row
    [Observed "acme" "docs" None; LookedUpRules "acme" "docs"; Observed "acme" "docs" None]
    "http://hook" (eo_Payload sample_notify_row) None []) as (_ & pre & b & E & Hb & _); [by vm_compute|].
  exists pre, b. exact (conj E Hb).
Defined.

Lemma healthy_delivery_witness :
  posts (fst (fst (deliverFact (env false) relay 0%nat sample_notify_row))) =
    [("http://hook"%string, eo_Payload sample_notify_row)].
Proof.
  pose proof (healthy_delivery (env false) relay 0%nat sample_notify_row meta [rule] eq_refl ltac:(by vm_compute)
    ltac:(by vm_compute) ltac:(done) eq_refl) as Hd.
  destruct (deliverFact (env false) relay 0%nat sample_notify_row) as [[trace w'] call].
  destruct Hd as [Hd _]. cbn [fst]. rewrite Hd. by vm_compute.
Defined.

Lemma bound_bucket_is_refused_witness :
  exists row', row' ∈ event_outbox (run_call dialectPostgres sample_now
                 (snd (deliverFact (env true) relay 0%nat (scanEventOutboxRow (first_row (claimed dialectPostgres)))))
                 (claimed dialectPostgres)) /\ ob_status row' = "failed"%string.
Proof.
  pose proof (bound_bucket_is_refused (env true) relay dialectPostgres sample_now (claimed dialectPostgres)
    (first_row (claimed dialectPostgres)) meta (Wrap "" [Sentinel ErrDenied; Sentinel ErrSpaceBound]) (boundary true) 0%nat
    (claimed_reach _) ltac:(by vm_compute; left) ltac:(by vm_compute) ltac:(by vm_compute) ltac:(by vm_compute) eq_refl eq_refl
    ltac:(by vm_compute) eq_refl eq_refl eq_refl) as Hd.
  destruct (deliverFact _ relay _ _) as [[trace w'] call]. destruct Hd as (_ & row' & Hin & _ & Hst & _).
  exists row'. exact (conj Hin Hst).
Defined.

Lemma delivery_releases_claim_witness :
  exists row', row' ∈ event_outbox (run_call dialectSQLite sample_now
                 (snd (deliverFact (env false) relay 0%nat (scanEventOutboxRow (first_row (claimed dialectSQLite)))))
                 (claimed dialectSQLite)) /\ ob_claim_token row' = ""%string.
Proof.
  pose proof (delivery_releases_claim (env false) relay dialectSQLite sample_now (claimed dialectSQLite)
    (first_row (claimed dialectSQLite)) 0%nat ltac:(by vm_compute) (claimed_reach _) ltac:(by vm_compute; left)
    ltac:(by vm_compute)) as Hd.
  unfold released in Hd. assert (call_refused dialectSQLite
    (snd (deliverFact (env false) relay 0%nat (scanEventOutboxRow (first_row (claimed dialectSQLite))))) = false) as Ec by (vm_compute; reflexivity).
  rewrite Ec in Hd. destruct Hd as (row' & Hin & _ & _ & Ht & _). exists row'. exact (conj Hin Ht).
Defined.

(** The text of an error is cut after 512 bytes, in the middle of a character if it comes to
    that, and PostgreSQL refuses what is left: the retry is not recorded. *)
Example cut_text_is_refused :
  let long := (text (repeat "a"%char 511) ++ "é")%string in
  call_refused dialectPostgres (CallRetry None 1 "host" "token" long 0 10) = true /\
  call_refused dialectSQLite (CallRetry None 1 "host" "token" long 0 10) = false /\
  utf8_ValidString long = true.
Proof. by vm_compute. Qed.
