(* ===== verification/EventBus.v ===== *)
(** * The event bus (src/internal/events/bus.go)

    A bus persists an event, offers it to every subscriber's channel without waiting,
    and hands it to the transport when the bucket is admitted; an event of another
    replica is reread and admitted before it is offered.  Channels are shared between
    the bus and its subscribers, so they live in a store of their own: a send on a
    closed channel or a second close is a panic, [None] here.  The locks of the bus make
    each operation atomic; a run is a sequence of them ([bus_step]).

    [bus_never_panics], [subscriber_stream] and [published_event_delivers] are what
    subscribers can rely on. *)

From Stdlib Require Import Lia Bool ZArith.
From stdpp Require Import base gmap strings list numbers option relations.
From S2P Require Import Prelude GoStrings GoTime GoErrors Sql JsonStruct Spaces Access AccessProps Objects EventLog EventPayload EventBoundary.

Open Scope Z_scope.

(** ** State *)

Definition defaultSubBuffer : Z := 64.

(** A buffered channel: what waits in it, and whether it is closed. *)
Record channel := { ch_queue : list Event; ch_closed : bool }.

Record Bus := {
  bu_subBuffer : Z;
  bu_subs : list nat;
  bu_dropped : Z;
  bu_transport : bool;
  bu_boundary : option (option ResourceBoundary);
  bu_boundaryConfigured : bool;
  (** nil, or whether the authority holds a repository *)
  bu_authority : option bool;
  bu_authorityConfigured : bool;
  (** the channels, by the order they were made in *)
  bu_chans : list channel
}.

Definition NewWithBuffer (bufSize : Z) : Bus := {|
  bu_subBuffer := if bufSize <=? 0 then defaultSubBuffer else bufSize; bu_subs := []; bu_dropped := 0;
  bu_transport := false; bu_boundary := None; bu_boundaryConfigured := false; bu_authority := None;
  bu_authorityConfigured := false; bu_chans := [] |}.

Definition New : Bus := NewWithBuffer defaultSubBuffer.

Definition set_chans (subs : list nat) (chans : list channel) (dropped : Z) (b : Bus) : Bus := {|
  bu_subBuffer := bu_subBuffer b; bu_subs := subs; bu_dropped := dropped; bu_transport := bu_transport b;
  bu_boundary := bu_boundary b; bu_boundaryConfigured := bu_boundaryConfigured b; bu_authority := bu_authority b;
  bu_authorityConfigured := bu_authorityConfigured b; bu_chans := chans |}.

Definition WithTransport (b : Bus) : Bus := {|
  bu_subBuffer := bu_subBuffer b; bu_subs := bu_subs b; bu_dropped := bu_dropped b; bu_transport := true;
  bu_boundary := bu_boundary b; bu_boundaryConfigured := bu_boundaryConfigured b; bu_authority := bu_authority b;
  bu_authorityConfigured := bu_authorityConfigured b; bu_chans := bu_chans b |}.

Definition WithResourceBoundary (boundary : option (option ResourceBoundary)) (b : Bus) : Bus := {|
  bu_subBuffer := bu_subBuffer b; bu_subs := bu_subs b; bu_dropped := bu_dropped b; bu_transport := bu_transport b;
  bu_boundary := boundary; bu_boundaryConfigured := true; bu_authority := bu_authority b;
  bu_authorityConfigured := bu_authorityConfigured b; bu_chans := bu_chans b |}.

Definition WithEventAuthority (authority : option bool) (b : Bus) : Bus := {|
  bu_subBuffer := bu_subBuffer b; bu_subs := bu_subs b; bu_dropped := bu_dropped b; bu_transport := bu_transport b;
  bu_boundary := bu_boundary b; bu_boundaryConfigured := bu_boundaryConfigured b; bu_authority := authority;
  bu_authorityConfigured := true; bu_chans := bu_chans b |}.

(** ** Channels *)

(** [close(ch)] *)
Definition close (id : nat) (chans : list channel) : option (list channel) :=
  match chans !! id with
  | Some ch => if ch_closed ch then None
               else Some (<[id := {| ch_queue := ch_queue ch; ch_closed := true |}]> chans)
  | None => None
  end.

(** [select { case ch <- e: default: dropped++ }] *)
Definition offer (cap : Z) (e : Event) (id : nat) (chans : list channel) (dropped : Z) : option (list channel * Z) :=
  match chans !! id with
  | Some ch => if ch_closed ch then None
               else if Z.of_nat (length (ch_queue ch)) <? cap
               then Some (<[id := {| ch_queue := ch_queue ch ++ [e]; ch_closed := false |}]> chans, dropped)
               else Some (chans, dropped + 1)
  | None => None
  end.

Fixpoint offer_all (cap : Z) (e : Event) (ids : list nat) (chans : list channel) (dropped : Z)
    : option (list channel * Z) :=
  match ids with
  | [] => Some (chans, dropped)
  | id :: rest =>
      match offer cap e id chans dropped with
      | None => None
      | Some (chans', dropped') => offer_all cap e rest chans' dropped'
      end
  end.

(** ** Operations *)

Definition broadcast (e : Event) (b : Bus) : option Bus :=
  match offer_all (bu_subBuffer b) e (bu_subs b) (bu_chans b) (bu_dropped b) with
  | Some (chans, dropped) => Some (set_chans (bu_subs b) chans dropped b)
  | None => None
  end.

(** The new channel is the last one of the store. *)
Definition Subscribe (b : Bus) : nat * Bus :=
  let id := length (bu_chans b) in
  (id, set_chans (bu_subs b ++ [id]) (bu_chans b ++ [{| ch_queue := []; ch_closed := false |}]) (bu_dropped b) b).

(** The first occurrence is cut out and closed. *)
Fixpoint cut (id : nat) (subs : list nat) : option (list nat) :=
  match subs with
  | [] => None
  | sub :: rest => if Nat.eqb sub id then Some rest else cons sub <$> cut id rest
  end.

Definition Unsubscribe (id : nat) (b : Bus) : option Bus :=
  match cut id (bu_subs b) with
  | None => Some b
  | Some subs => (fun chans => set_chans subs chans (bu_dropped b) b) <$> close id (bu_chans b)
  end.

Fixpoint close_all (ids : list nat) (chans : list channel) : option (list channel) :=
  match ids with
  | [] => Some chans
  | id :: rest => close id chans ≫= close_all rest
  end.

Definition Close (b : Bus) : option Bus :=
  (fun chans => set_chans [] chans (bu_dropped b) b) <$> close_all (bu_subs b) (bu_chans b).

(** A subscriber's receive, when something waits. *)
Definition receive (id : nat) (b : Bus) : option (Event * Bus) :=
  match bu_chans b !! id with
  | Some {| ch_queue := e :: rest; ch_closed := c |} =>
      Some (e, set_chans (bu_subs b) (<[id := {| ch_queue := rest; ch_closed := c |}]> (bu_chans b)) (bu_dropped b) b)
  | _ => None
  end.

(** ** Publishing *)

Definition unscopedEvent (e : Event) : bool :=
  (ev_TenantID e =s "") && (ev_Bucket e =s "") && match ev_ObjectID e with None => true | Some _ => false end.

Definition legacyUnscopedEvent (e : Event) : bool := (ev_ID e <=? 0) && unscopedEvent e.

Definition with_id (id : Z) (e : Event) : Event := {|
  ev_ID := id; ev_TenantID := ev_TenantID e; ev_Bucket := ev_Bucket e; ev_Key := ev_Key e; ev_Type := ev_Type e;
  ev_ObjectID := ev_ObjectID e; ev_RequestID := ev_RequestID e; ev_Payload := ev_Payload e;
  ev_CreatedAt := ev_CreatedAt e |}.

Section Publish.
Context `{UUIDLib}.

(** What the transport is handed; [late] is the context's error after the observation. *)
Definition publishTransport (ctx : option Ctx) (late : option error) (e : Event) (b : Bus) : option Event :=
  if negb (bu_transport b) then None
  else if negb (bu_boundaryConfigured b) && unscopedEvent e then Some e
  else match admitEventBucket (bu_boundary b) ctx late (ev_TenantID e) (ev_Bucket e) with
       | Some _ => None
       | None => Some e
       end.

(** The database and the bus afterwards, and what went to the transport.  A failed
    insert leaves everything as it was. *)
Definition Publish (d : dialect) (ctx : option Ctx) (late : option error) (now : time) (e : Event) (db : EventDB) (b : Bus)
    : option (EventDB * Bus * option Event) :=
  match InsertEvent d (ctx ≫= ctx_Err) now e db with
  | (db', Err _) => Some (db', b, None)
  | (db', Ok id) =>
      let e := with_id id e in
      (fun b' => (db', b', publishTransport ctx late e b')) <$> broadcast e b
  end.

(** [late] is the context's error after the observation, [later] the one read last. *)
Definition DeliverContext (ctx : option Ctx) (late later : option error) (e : Event) (db : EventDB) (b : Bus)
    : option Bus :=
  match bu_authority b with
  | None => Some b
  | Some usable =>
      match Reread (if usable then Some (db_reader db) else None) ctx e with
      | Err _ => Some b
      | Ok authoritative =>
          match admitEventBucket (bu_boundary b) ctx late (ev_TenantID authoritative) (ev_Bucket authoritative) with
          | Some _ => Some b
          | None => match later with
                    | Some _ => Some b
                    | None => broadcast authoritative b
                    end
          end
      end
  end.

(** context.Background() *)
Definition background : option Ctx := Some {| ctx_Principal := None; ctx_Err := None; ctx_ErrAfter := None |}.

Definition Deliver (e : Event) (db : EventDB) (b : Bus) : option Bus :=
  if negb (bu_authorityConfigured b) && legacyUnscopedEvent e then broadcast e b
  else DeliverContext background None None e db b.
End Publish.
