(* ===== verification/EventBusProps.v ===== *)
(** * What subscribers of the bus can rely on

    No interleaving of the bus's operations sends on a closed channel or closes one
    twice ([bus_never_panics]); a subscriber receives, in order, a part of what was
    offered while it was subscribed, and all of it when nothing was dropped
    ([subscriber_stream]); with an authority installed everything it receives is a
    persisted event ([subscribers_see_persisted]); and what one replica publishes
    another one delivers ([published_event_delivers]). *)

From Stdlib Require Import Lia Bool ZArith.
From stdpp Require Import base gmap strings list numbers option relations.
From S2P Require Import Prelude GoStrings GoTime GoErrors Sql JsonStruct Spaces Access AccessProps AccessStore Outbox Objects EventLog EventPayload EventBoundary EventBus.

Open Scope Z_scope.

(** ** The log *)

(** Distinct positive ids, none above the sequence. *)
Definition log_inv (db : EventDB) : Prop :=
  0 <= event_seq db /\ NoDup (map (fun r => ev_ID (er_event r)) (object_events db)) /\
  (forall r, r ∈ object_events db -> 0 < ev_ID (er_event r) <= event_seq db).

Lemma log_inv_insert d ctx now e db : log_inv db -> log_inv (fst (InsertEvent d ctx now e db)).
Proof.
  intros (H0 & Hn & Hb). unfold InsertEvent, with_ctx. rewrite run_guard. destruct ctx; [done|].
  destruct (MaxInt64 <=? event_seq db); [done|]. cbn [fst]. split; [cbn; lia|]. cbn [object_events set_events event_seq]. split.
  - apply (NoDup_map_snoc (fun r => ev_ID (er_event r))); [done|]. intros r Hr E. specialize (Hb r Hr). cbn in E. lia.
  - intros r [Hr|Hr]%elem_of_app; [specialize (Hb r Hr); lia|]. apply list_elem_of_singleton in Hr as ->. cbn. lia.
Qed.

(** What an insert persists. *)
Lemma insert_Ok d ctx now e db db' id :
  InsertEvent d ctx now e db = (db', Ok id) ->
  ctx = None /\ id = event_seq db + 1 /\ db' = set_events (object_events db ++ [event_row d now id e]) id db.
Proof.
  unfold InsertEvent, with_ctx. rewrite run_guard. destruct ctx; [done|].
  destruct (MaxInt64 <=? event_seq db); [done|]. intros [= <- <-]. done.
Qed.

Lemma insert_Err d ctx now e db db' err : InsertEvent d ctx now e db = (db', Err err) -> db' = db.
Proof.
  unfold InsertEvent, with_ctx. rewrite run_guard. destruct ctx; [by intros [=]|].
  destruct (MaxInt64 <=? event_seq db); [by intros [=]|done].
Qed.

(** ** The authority *)

Lemma sameEventIdentity_true a b : sameEventIdentity a b = true <->
  ev_Type a = ev_Type b /\ ev_TenantID a = ev_TenantID b /\ ev_Bucket a = ev_Bucket b /\ ev_Key a = ev_Key b /\
  ev_ObjectID a = ev_ObjectID b /\ ev_Payload a = ev_Payload b.
Proof.
  unfold sameEventIdentity, sameEventPayload. rewrite !andb_true_iff, !streqb_true, !bool_decide_eq_true. tauto.
Qed.

Lemma by_event_id_total a b : by_event_id a b = true \/ by_event_id b a = true.
Proof. unfold by_event_id. lia. Qed.
Lemma by_event_id_trans a b c : by_event_id a b = true -> by_event_id b c = true -> by_event_id a c = true.
Proof. unfold by_event_id. lia. Qed.

(** The reader's answer to the question the authority asks. *)
Lemma db_reader_one db ctx tenant id : tenant <> ""%string -> 0 < id -> (ctx ≫= ctx_Err) = None ->
  db_reader db ctx tenant (id - 1) 1 =
    Ok (map er_event (take 1 (sort_by by_event_id (List.filter (events_after tenant (id - 1)) (object_events db))))).
Proof.
  intros Ht Hid Hc. unfold db_reader, ListEventsAfter, with_ctx. rewrite run_guard, Hc.
  unfold defaultTenant. rewrite (proj2 (streqb_false tenant "") Ht), (proj2 (Z.ltb_ge (id - 1) 0)) by lia. done.
Qed.

Lemma find_persisted db r : log_inv db -> r ∈ object_events db ->
  exists rest, sort_by by_event_id (List.filter (events_after (ev_TenantID (er_event r)) (ev_ID (er_event r) - 1))
                 (object_events db)) = r :: rest.
Proof.
  intros (_ & Hn & _) Hr. set (l := List.filter _ _).
  assert (r ∈ l) as Hl. { apply elem_filter_b. split; [done|]. unfold events_after. rewrite streqb_refl. cbn. lia. }
  destruct (sort_by by_event_id l) as [|x rest] eqn:Es.
  { exfalso. apply (elem_sort_by by_event_id) in Hl. rewrite Es in Hl. by apply elem_of_nil in Hl. }
  destruct (sort_by_head _ _ _ _ by_event_id_total by_event_id_trans Es) as [Hx Hmin].
  specialize (Hmin r Hl). apply elem_filter_b in Hx as [Hx Hp]. unfold events_after in Hp.
  apply andb_true_iff in Hp as [_ Hp]. unfold by_event_id in Hmin.
  assert (x = r) as -> by (apply (NoDup_map_inj (fun r => ev_ID (er_event r)) (object_events db)); [done..|lia]).
  by exists rest.
Qed.

Lemma find_nothing db tenant id x rest :
  sort_by by_event_id (List.filter (events_after tenant (id - 1)) (object_events db)) = x :: rest ->
  x ∈ object_events db /\ ev_TenantID (er_event x) = tenant.
Proof.
  intros Es. destruct (sort_by_head _ _ _ _ by_event_id_total by_event_id_trans Es) as [Hx _].
  apply elem_filter_b in Hx as [Hx Hp]. apply andb_true_iff in Hp as [Hp _]. by apply streqb_true in Hp.
Qed.

Lemma Reread_spec db ctx want got :
  log_inv db ->
  Reread (Some (db_reader db)) ctx want = Ok got <->
  (exists c, ctx = Some c /\ ctx_Err c = None /\ ctx_ErrAfter c = None) /\ ev_TenantID want <> ""%string /\
  (exists r, r ∈ object_events db /\ er_event r = got) /\ ev_ID got = ev_ID want /\ sameEventIdentity got want = true.
Proof.
  intros Hinv. unfold Reread, validateEventAuthorityInput. destruct ctx as [c|]; [|split; [done|by intros ((? & ? & _) & _)]].
  destruct (ctx_Err c) eqn:Hc. { split; [done|]. intros ((? & [= <-] & ? & _) & _). congruence. }
  destruct (Z.leb_spec (ev_ID want) 0).
  { split; [done|]. intros (_ & _ & (r & Hr & <-) & Hid & _). destruct Hinv as (_ & _ & Hb). specialize (Hb r Hr). lia. }
  destruct (ev_TenantID want =s "") eqn:Et; [apply streqb_true in Et; split; [done|by intros (_ & ? & _)]|].
  apply streqb_false in Et.
  rewrite db_reader_one by done. cbn [errAfter].
  destruct (ctx_ErrAfter c) eqn:Ha. { split; [done|]. intros ((? & [= <-] & _ & ?) & _). congruence. }
  cbn [errors_Join]. split.
  - destruct (sort_by _ _) as [|x rest] eqn:Es; [done|]. cbn [take map].
    destruct (Z.eqb_spec (ev_ID (er_event x)) (ev_ID want)); [|done].
    destruct (sameEventIdentity (er_event x) want) eqn:Ei; [|done]. intros [= <-].
    apply find_nothing in Es as [Hx _]. eauto 10.
  - intros (_ & _ & (r & Hr & <-) & Hid & Hs). pose proof Hs as (_ & Ht & _)%sameEventIdentity_true.
    destruct (find_persisted db r Hinv Hr) as [rest Es]. rewrite Ht, Hid in Es. rewrite Es. cbn [take map].
    rewrite Hid, Z.eqb_refl, Hs. done.
Qed.

(** Rereading an event succeeds exactly when the context is live and the database
    holds a row with its id and identity, tenant, bucket, key, type, object and payload,
    whatever other events are persisted; what it returns is that row. *)
Theorem Reread_iff db ctx want got :
  log_inv db ->
  Reread (Some (db_reader db)) ctx want = Ok got <->
  (exists c, ctx = Some c /\ ctx_Err c = None /\ ctx_ErrAfter c = None) /\ ev_TenantID want <> ""%string /\
  (exists r, r ∈ object_events db /\ er_event r = got) /\ ev_ID got = ev_ID want /\ sameEventIdentity got want = true.
Proof. apply Reread_spec. Qed.

(** ** Channels *)

(** A subscriber is a channel that is open; queues are within their capacity. *)
Record bus_inv (b : Bus) : Prop := {
  bi_cap : 0 < bu_subBuffer b;
  bi_nodup : NoDup (bu_subs b);
  bi_open : forall id, id ∈ bu_subs b <-> exists ch, bu_chans b !! id = Some ch /\ ch_closed ch = false;
  bi_queue : forall id ch, bu_chans b !! id = Some ch -> Z.of_nat (length (ch_queue ch)) <= bu_subBuffer b
}.

Definition waiting (id : nat) (b : Bus) : list Event :=
  match bu_chans b !! id with Some ch => ch_queue ch | None => [] end.

(** What an offer makes of an open channel. *)
Definition push (cap : Z) (e : Event) (ch : channel) : channel :=
  if Z.of_nat (length (ch_queue ch)) <? cap then {| ch_queue := ch_queue ch ++ [e]; ch_closed := ch_closed ch |} else ch.

Lemma offer_all_spec cap e ids chans dropped :
  NoDup ids -> (forall id, id ∈ ids -> exists ch, chans !! id = Some ch /\ ch_closed ch = false) ->
  exists chans' dropped', offer_all cap e ids chans dropped = Some (chans', dropped') /\ dropped <= dropped' /\
    (forall id, chans' !! id = (if decide (id ∈ ids) then push cap e <$> chans !! id else chans !! id)) /\
    (dropped' = dropped -> forall id ch, id ∈ ids -> chans !! id = Some ch -> Z.of_nat (length (ch_queue ch)) < cap).
Proof.
  revert chans dropped. induction ids as [|i ids IH]; intros chans dropped Hn Hopen.
  { exists chans, dropped. split_and!; [done|lia|done|]. intros _ id ch Hid. by apply elem_of_nil in Hid. }
  apply NoDup_cons in Hn as [Hi Hn]. destruct (Hopen i ltac:(by left)) as (ch & Hch & Hc). cbn. unfold offer. rewrite Hch, Hc.
  assert (push cap e ch = if Z.of_nat (length (ch_queue ch)) <? cap
            then {| ch_queue := ch_queue ch ++ [e]; ch_closed := false |} else ch) as Hpush
    by (unfold push; by rewrite Hc).
  destruct (Z.ltb_spec (Z.of_nat (length (ch_queue ch))) cap) as [Hlt|Hge].
  - rewrite <- Hpush. destruct (IH (<[i := push cap e ch]> chans) dropped Hn) as (chans' & dropped' & -> & Hle & Hget & Hfit).
    { intros id Hid. rewrite list_lookup_insert_ne by (intros ->; done). apply Hopen. by right. }
    exists chans', dropped'. split_and!; [done|done| |].
    + intros id. rewrite Hget. destruct (decide (id = i)) as [->|Hne].
      * rewrite decide_False by done. rewrite decide_True by (by left). rewrite Hch. cbn.
        apply list_lookup_insert_eq. by eapply lookup_lt_Some.
      * rewrite list_lookup_insert_ne by done. destruct (decide (id ∈ ids)) as [Hin|Hin].
        -- by rewrite decide_True by (by right).
        -- rewrite decide_False; [done|]. by intros [|]%elem_of_cons.
    + intros Ed id c [->|Hid]%elem_of_cons Hl; [congruence|]. apply (Hfit Ed id); [done|].
      by rewrite list_lookup_insert_ne by (intros ->; done).
  - destruct (IH chans (dropped + 1) Hn) as (chans' & dropped' & -> & Hle & Hget & Hfit).
    { intros id Hid. apply Hopen. by right. }
    exists chans', dropped'. split_and!; [done|lia| |intros; lia].
    intros id. rewrite Hget. destruct (decide (id = i)) as [->|Hne].
    + rewrite decide_False by done. rewrite decide_True by (by left). rewrite Hch. cbn. by rewrite Hpush.
    + destruct (decide (id ∈ ids)) as [Hin|Hin].
      * by rewrite decide_True by (by right).
      * rewrite decide_False; [done|]. by intros [|]%elem_of_cons.
Qed.

Lemma broadcast_spec e b : bus_inv b ->
  exists b', broadcast e b = Some b' /\ bus_inv b' /\ bu_subs b' = bu_subs b /\ bu_dropped b <= bu_dropped b' /\
    bu_authorityConfigured b' = bu_authorityConfigured b /\
    (forall id, waiting id b' = waiting id b \/ (id ∈ bu_subs b /\ waiting id b' = waiting id b ++ [e])) /\
    (bu_dropped b' = bu_dropped b -> forall id, id ∈ bu_subs b -> waiting id b' = waiting id b ++ [e]).
Proof.
  intros [Hcap Hn Hopen Hq]. unfold broadcast.
  destruct (offer_all_spec (bu_subBuffer b) e (bu_subs b) (bu_chans b) (bu_dropped b) Hn) as (chans & dropped & -> & Hle & Hget & Hfit).
  { intros id Hid. by apply Hopen. }
  exists (set_chans (bu_subs b) chans dropped b). split_and!; [done| |done|done|done| |].
  - split; cbn; [done|done| |].
    + intros id. rewrite Hopen, Hget. destruct (decide (id ∈ bu_subs b)); [|done].
      destruct (bu_chans b !! id) as [ch|]; cbn; [|split; by intros (? & ? & _)].
      assert (ch_closed (push (bu_subBuffer b) e ch) = ch_closed ch) as E by (unfold push; by destruct (_ <? _)).
      split; intros (c & [= <-] & Hc); eexists; (split; [done|]); congruence.
    + intros id ch. rewrite Hget. destruct (decide (id ∈ bu_subs b)); [|apply Hq].
      destruct (bu_chans b !! id) as [ch0|] eqn:E; cbn; [|done]. intros [= <-]. unfold push.
      destruct (Z.ltb_spec (Z.of_nat (length (ch_queue ch0))) (bu_subBuffer b)); [cbn; rewrite length_app; cbn; lia|by apply (Hq id)].
  - intros id. unfold waiting. cbn [bu_chans set_chans]. rewrite Hget. destruct (decide (id ∈ bu_subs b)); [|by left].
    destruct (bu_chans b !! id) as [ch|]; cbn; [|by left]. unfold push. destruct (_ <? _); [by right|by left].
  - intros Ed id Hid. unfold waiting. cbn [bu_chans set_chans]. rewrite Hget, decide_True by done.
    destruct (proj1 (Hopen id) Hid) as (ch & Hch & _). rewrite Hch. cbn. unfold push.
    by rewrite (proj2 (Z.ltb_lt _ _) (Hfit Ed id ch Hid Hch)).
Qed.

Lemma cut_Some id subs subs' : cut id subs = Some subs' -> exists l r, subs = l ++ id :: r /\ subs' = l ++ r.
Proof.
  revert subs'. induction subs as [|s subs IH]; intros subs'; [done|]. cbn. destruct (Nat.eqb_spec s id) as [->|].
  - intros [= <-]. by exists [], subs.
  - destruct (cut id subs) as [k|]; [|done]. intros [= <-]. destruct (IH k eq_refl) as (l & r & -> & ->). by exists (s :: l), r.
Qed.

Lemma cut_None id subs : cut id subs = None -> id ∉ subs.
Proof.
  induction subs as [|s subs IH]; cbn; [intros _; apply not_elem_of_nil|]. destruct (Nat.eqb_spec s id); [done|].
  destruct (cut id subs); [done|]. intros _ [->|Hin]%elem_of_cons; [done|]. by apply IH.
Qed.

(** Closing a set of open channels. *)
Definition closed_of (ids : list nat) (chans chans' : list channel) : Prop :=
  forall id, chans' !! id = (if decide (id ∈ ids) then (fun ch => {| ch_queue := ch_queue ch; ch_closed := true |}) <$> chans !! id
                             else chans !! id).

Lemma close_spec id chans ch : chans !! id = Some ch -> ch_closed ch = false ->
  exists chans', close id chans = Some chans' /\ closed_of [id] chans chans'.
Proof.
  intros Hch Hc. unfold close. rewrite Hch, Hc. eexists. split; [done|]. intros i.
  destruct (decide (i = id)) as [->|Hne].
  - rewrite decide_True by (by left). rewrite Hch. apply list_lookup_insert_eq. by eapply lookup_lt_Some.
  - rewrite list_lookup_insert_ne by done. rewrite decide_False; [done|]. by intros ->%list_elem_of_singleton.
Qed.

Lemma close_all_spec ids chans :
  NoDup ids -> (forall id, id ∈ ids -> exists ch, chans !! id = Some ch /\ ch_closed ch = false) ->
  exists chans', close_all ids chans = Some chans' /\ closed_of ids chans chans'.
Proof.
  revert chans. induction ids as [|i ids IH]; intros chans Hn Hopen.
  { exists chans. split; [done|]. intros id. by rewrite decide_False by apply not_elem_of_nil. }
  apply NoDup_cons in Hn as [Hi Hn]. destruct (Hopen i ltac:(by left)) as (ch & Hch & Hc).
  destruct (close_spec i chans ch Hch Hc) as (c1 & E1 & H1). cbn. rewrite E1. cbn.
  destruct (IH c1 Hn) as (c2 & E2 & H2).
  { intros id Hid. rewrite H1. rewrite decide_False; [apply Hopen; by right|]. intros ->%list_elem_of_singleton. done. }
  exists c2. split; [done|]. intros id. rewrite H2, H1.
  destruct (decide (id ∈ ids)); destruct (decide (id ∈ [i])) as [H|H]; destruct (decide (id ∈ i :: ids)) as [H'|H']; try done;
    rewrite ?list_elem_of_singleton, ?elem_of_cons in *; try (exfalso; tauto). by destruct (chans !! id).
Qed.

Lemma closed_waiting ids chans chans' subs dropped b :
  closed_of ids (bu_chans b) chans' -> chans = chans' -> forall id, waiting id (set_chans subs chans dropped b) = waiting id b.
Proof.
  intros Hcl -> id. unfold waiting. cbn [bu_chans set_chans]. rewrite Hcl.
  destruct (decide (id ∈ ids)); [|done]. by destruct (bu_chans b !! id).
Qed.

Lemma closed_inv ids subs chans' b :
  bus_inv b -> closed_of ids (bu_chans b) chans' -> NoDup subs ->
  (forall id, id ∈ subs <-> id ∈ bu_subs b /\ id ∉ ids) -> bus_inv (set_chans subs chans' (bu_dropped b) b).
Proof.
  intros [Hcap _ Hopen Hq] Hcl Hn Hs. split; cbn; [done|done| |].
  - intros id. rewrite Hs, Hopen, Hcl. destruct (decide (id ∈ ids)); [|tauto]. split; [tauto|].
    intros (ch & Hch & Hc). destruct (bu_chans b !! id); [|done]. by injection Hch as <-.
  - intros id ch. rewrite Hcl. destruct (decide (id ∈ ids)); [|apply Hq].
    destruct (bu_chans b !! id) as [c|] eqn:E; [|done]. intros [= <-]. by apply (Hq id c).
Qed.

(** ** Runs *)

Section Runs.
Context `{UUIDLib} (d : dialect).

(** The operations of the bus, of its subscribers, and of other replicas. *)
Inductive bus_op :=
| OpSubscribe
| OpUnsubscribe (id : nat)
| OpClose
| OpReceive (id : nat)
| OpPublish (ctx : option Ctx) (late : option error) (now : time) (e : Event)
| OpDeliverContext (ctx : option Ctx) (late later : option error) (e : Event)
| OpDeliver (e : Event)
| OpRemoteInsert (ctx : option error) (now : time) (e : Event)
| OpMarkConsumed (ctx : option error) (now : time) (id : Z)
| OpTransport
| OpBoundary (boundary : option (option ResourceBoundary))
| OpAuthority (authority : option bool).

(** [None] is a panic.  A receive that would wait changes nothing. *)
Definition run_op (op : bus_op) (db : EventDB) (b : Bus) : option (EventDB * Bus) :=
  let keep := fun b' => (db, b') in
  match op with
  | OpSubscribe => Some (db, snd (Subscribe b))
  | OpUnsubscribe id => keep <$> Unsubscribe id b
  | OpClose => keep <$> Close b
  | OpReceive id => Some (db, match receive id b with Some (_, b') => b' | None => b end)
  | OpPublish ctx late now e => (fun '(db', b', _) => (db', b')) <$> Publish d ctx late now e db b
  | OpDeliverContext ctx late later e => keep <$> DeliverContext ctx late later e db b
  | OpDeliver e => keep <$> Deliver e db b
  | OpRemoteInsert ctx now e => Some (fst (InsertEvent d ctx now e db), b)
  | OpMarkConsumed ctx now id => Some (fst (MarkEventConsumed d ctx now id db), b)
  | OpTransport => Some (db, WithTransport b)
  | OpBoundary boundary => Some (db, WithResourceBoundary boundary b)
  | OpAuthority authority => Some (db, WithEventAuthority authority b)
  end.

Fixpoint run_ops (ops : list bus_op) (db : EventDB) (b : Bus) : option (EventDB * Bus) :=
  match ops with
  | [] => Some (db, b)
  | op :: rest => match run_op op db b with Some (db', b') => run_ops rest db' b' | None => None end
  end.

(** The event a remote delivery broadcasts. *)
Definition delivered_event (ctx : option Ctx) (late later : option error) (e : Event) (db : EventDB) (b : Bus) : option Event :=
  match bu_authority b with
  | None => None
  | Some usable =>
      match Reread (if usable then Some (db_reader db) else None) ctx e with
      | Err _ => None
      | Ok a => match admitEventBucket (bu_boundary b) ctx late (ev_TenantID a) (ev_Bucket a), later with
                | None, None => Some a
                | _, _ => None
                end
      end
  end.

(** The event an operation offers to the subscribers. *)
Definition op_event (op : bus_op) (db : EventDB) (b : Bus) : option Event :=
  match op with
  | OpPublish ctx _ now e =>
      match InsertEvent d (ctx ≫= ctx_Err) now e db with (_, Ok id) => Some (with_id id e) | (_, Err _) => None end
  | OpDeliverContext ctx late later e => delivered_event ctx late later e db b
  | OpDeliver e => if negb (bu_authorityConfigured b) && legacyUnscopedEvent e then Some e
                   else delivered_event background None None e db b
  | _ => None
  end.

(** What the subscriber of a channel is offered, and what it receives. *)
Definition offered (id : nat) (op : bus_op) (db : EventDB) (b : Bus) : list Event :=
  if decide (id ∈ bu_subs b) then option_list (op_event op db b) else [].
Definition received (id : nat) (op : bus_op) (b : Bus) : list Event :=
  match op with
  | OpReceive i => if Nat.eqb i id then match receive i b with Some (e, _) => [e] | None => [] end else []
  | _ => []
  end.

Fixpoint all_offered (id : nat) (ops : list bus_op) (db : EventDB) (b : Bus) : list Event :=
  match ops with
  | [] => []
  | op :: rest => match run_op op db b with
                  | Some (db', b') => offered id op db b ++ all_offered id rest db' b'
                  | None => []
                  end
  end.
Fixpoint all_received (id : nat) (ops : list bus_op) (db : EventDB) (b : Bus) : list Event :=
  match ops with
  | [] => []
  | op :: rest => match run_op op db b with
                  | Some (db', b') => received id op b ++ all_received id rest db' b'
                  | None => []
                  end
  end.

Lemma DeliverContext_event ctx late later e db b :
  DeliverContext ctx late later e db b =
    match delivered_event ctx late later e db b with Some a => broadcast a b | None => Some b end.
Proof. unfold DeliverContext, delivered_event. repeat case_match; simplify_eq; done. Qed.

(** One step: it does not panic, keeps the invariant, and moves events through the
    queues in order, losing one only when it counts a drop. *)
Definition step_ok (op : bus_op) (db : EventDB) (b : Bus) (b' : Bus) : Prop :=
  bus_inv b' /\ bu_dropped b <= bu_dropped b' /\
  forall id, (received id op b ++ waiting id b') `sublist_of` (waiting id b ++ offered id op db b) /\
    (bu_dropped b' = bu_dropped b -> received id op b ++ waiting id b' = waiting id b ++ offered id op db b).

Lemma step_same op db b b' : bus_inv b' -> bu_dropped b' = bu_dropped b -> (forall id, waiting id b' = waiting id b) ->
  op_event op db b = None -> (forall id, received id op b = []) -> step_ok op db b b'.
Proof.
  intros Hi Hd Hw He Hr. split; [done|]. split; [lia|]. intros id. unfold offered. rewrite He, Hr, Hw.
  destruct (decide _); cbn; by rewrite app_nil_r.
Qed.

Lemma step_broadcast op e db b b' : bus_inv b -> broadcast e b = Some b' -> op_event op db b = Some e ->
  (forall id, received id op b = []) -> step_ok op db b b'.
Proof.
  intros Hi Hb He Hr. destruct (broadcast_spec e b Hi) as (b1 & E & Hi' & Hs & Hd & _ & Hw & Hall).
  rewrite Hb in E. injection E as <-. split; [done|]. split; [done|]. intros id. rewrite Hr. unfold offered. rewrite He.
  cbn [app option_list]. split.
  - destruct (Hw id) as [->|[Hin ->]]; [by apply sublist_inserts_r|]. by rewrite decide_True by done.
  - intros Ed. destruct (decide (id ∈ bu_subs b)); [by apply Hall|]. rewrite app_nil_r. by destruct (Hw id) as [->|[? _]].
Qed.

Lemma receive_spec id b : bus_inv b ->
  match receive id b with
  | Some (e, b') => bus_inv b' /\ bu_dropped b' = bu_dropped b /\ bu_authorityConfigured b' = bu_authorityConfigured b /\
      forall i, waiting i b = (if Nat.eqb id i then [e] else []) ++ waiting i b'
  | None => True
  end.
Proof.
  intros [Hcap Hn Hopen Hq]. unfold receive. destruct (bu_chans b !! id) as [[[|e q] c]|] eqn:E; [done| |done].
  pose proof (lookup_lt_Some _ _ _ E) as Hlt.
  assert (forall i, i <> id -> <[id:={| ch_queue := q; ch_closed := c |}]> (bu_chans b) !! i = bu_chans b !! i) as Hne
    by (intros; by rewrite list_lookup_insert_ne).
  assert (<[id:={| ch_queue := q; ch_closed := c |}]> (bu_chans b) !! id = Some {| ch_queue := q; ch_closed := c |}) as Heq
    by (by apply list_lookup_insert_eq).
  split_and!; [split; cbn; [done|done| |]|done|done|].
  - intros i. rewrite Hopen. destruct (decide (i = id)) as [->|Hd]; [|by rewrite Hne].
    rewrite E, Heq. split; intros (ch & [= <-] & Hc); by eexists.
  - intros i ch. destruct (decide (i = id)) as [->|Hd]; [|rewrite Hne by done; apply Hq].
    rewrite Heq. intros [= <-]. specialize (Hq id _ E). cbn in *. lia.
  - intros i. unfold waiting. cbn [bu_chans set_chans]. destruct (Nat.eqb_spec id i) as [<-|Hd]; [by rewrite E, Heq|].
    by rewrite Hne by done.
Qed.

Lemma Subscribe_inv b : bus_inv b -> bus_inv (snd (Subscribe b)) /\ forall id, waiting id (snd (Subscribe b)) = waiting id b.
Proof.
  intros [Hcap Hn Hopen Hq]. cbn. set (n := length (bu_chans b)).
  assert (n ∉ bu_subs b) as Hfresh.
  { intros Hin. apply Hopen in Hin as (ch & Hch & _). apply lookup_lt_Some in Hch. lia. }
  assert (forall i, i <> n -> (bu_chans b ++ [{| ch_queue := []; ch_closed := false |}]) !! i = bu_chans b !! i) as Hne.
  { intros i Hi. destruct (decide (i < n)%nat); [by rewrite lookup_app_l|].
    rewrite lookup_app_r by lia. rewrite (lookup_ge_None_2 (bu_chans b)) by lia.
    apply lookup_ge_None_2. cbn. lia. }
  assert ((bu_chans b ++ [{| ch_queue := []; ch_closed := false |}]) !! n = Some {| ch_queue := []; ch_closed := false |}) as Heq.
  { rewrite lookup_app_r by lia. by rewrite Nat.sub_diag. }
  split; [split; cbn; [done| | |]|].
  - apply list.NoDup_app. split; [done|]. split; [|apply list.NoDup_singleton]. by intros x Hx ->%list_elem_of_singleton.
  - intros i. rewrite elem_of_app, list_elem_of_singleton, Hopen. destruct (decide (i = n)) as [->|Hi]; [|rewrite Hne by done; tauto].
    rewrite Heq. split; [by eexists|by right].
  - intros i ch. destruct (decide (i = n)) as [->|Hi]; [|rewrite Hne by done; apply Hq]. rewrite Heq. intros [= <-]. cbn. lia.
  - intros i. unfold waiting. cbn [bu_chans set_chans]. destruct (decide (i = n)) as [->|Hi]; [|by rewrite Hne].
    rewrite Heq. by rewrite (lookup_ge_None_2 (bu_chans b) n) by lia.
Qed.

Lemma run_op_ok op db b : bus_inv b -> exists db' b', run_op op db b = Some (db', b') /\ step_ok op db b b'.
Proof.
  intros Hi. destruct op as [|id| |id|ctx late now e|ctx late later e|e| | | | |]; cbn [run_op];
    try (eexists _, _; split; [done|]; destruct Hi; by apply step_same).
  - destruct (Subscribe_inv b Hi). eexists _, _. split; [done|]. by apply step_same.
  - unfold Unsubscribe. destruct (cut id (bu_subs b)) as [subs|] eqn:Ec.
    + apply cut_Some in Ec as (l & r & Es & ->). destruct (proj1 (bi_open _ Hi id)) as (ch & Hch & Hc); [rewrite Es; set_solver|].
      destruct (close_spec id (bu_chans b) ch Hch Hc) as (chans & -> & Hcl). eexists _, _. split; [done|].
      pose proof (bi_nodup _ Hi) as Hn. rewrite Es in Hn.
      rewrite <- Permutation_middle in Hn. apply NoDup_cons in Hn as [Hnot Hn].
      apply step_same; [apply (closed_inv [id]); [done|done|done|]|done|by eapply closed_waiting|done|done].
      intros i. rewrite Es, !elem_of_app, elem_of_cons, list_elem_of_singleton. rewrite elem_of_app in Hnot.
      split; [|tauto]. intros Hin. split; [tauto|]. intros ->. tauto.
    + eexists _, _. split; [done|]. by apply step_same.
  - unfold Close. destruct (close_all_spec (bu_subs b) (bu_chans b) (bi_nodup _ Hi)) as (chans & -> & Hcl).
    { intros id Hid. by apply (bi_open _ Hi). }
    eexists _, _. split; [done|]. apply step_same; [|done|by eapply closed_waiting|done|done].
    apply (closed_inv (bu_subs b)); [done|done|apply NoDup_nil_2|]. intros i. split; [by intros ?%not_elem_of_nil|tauto].
  - eexists _, _. split; [done|]. pose proof (receive_spec id b Hi) as Hr.
    destruct (receive id b) as [[e b']|] eqn:E.
    + destruct Hr as (Hi' & Hd & _ & Hw). split; [done|]. split; [lia|]. intros i. unfold offered, received.
      rewrite E, (Hw i). destruct (decide _); cbn [op_event option_list]; by rewrite app_nil_r.
    + apply step_same; [done|done|done|done|]. intros i. unfold received. rewrite E. by destruct (Nat.eqb _ _).
  - unfold Publish. destruct (InsertEvent d (ctx ≫= ctx_Err) now e db) as [db' [id|err]] eqn:E.
    + destruct (broadcast_spec (with_id id e) b Hi) as (b' & Eb & _). rewrite Eb. eexists _, _. split; [done|].
      eapply step_broadcast; [done|done| |done]. cbn. by rewrite E.
    + eexists _, _. split; [done|]. apply step_same; [done..| |done]. cbn. by rewrite E.
  - rewrite DeliverContext_event. destruct (delivered_event _ _ _ _ _ _) as [a|] eqn:E.
    + destruct (broadcast_spec a b Hi) as (b' & Eb & _). rewrite Eb. eexists _, _. split; [done|]. by eapply step_broadcast.
    + eexists _, _. split; [done|]. by apply step_same.
  - unfold Deliver. rewrite DeliverContext_event. destruct (op_event (OpDeliver e) db b) as [a|] eqn:E; pose proof E as E'; cbn in E.
    + destruct (broadcast_spec a b Hi) as (b' & Eb & _). exists db, b'. split; [|by eapply step_broadcast].
      destruct (negb _ && _); [injection E as ->|rewrite E]; by rewrite Eb.
    + exists db, b. split; [|by apply step_same]. destruct (negb _ && _); [done|by rewrite E].
Qed.

Lemma run_ops_ok ops db b : bus_inv b ->
  exists db' b', run_ops ops db b = Some (db', b') /\ bus_inv b' /\ bu_dropped b <= bu_dropped b' /\
    forall id, (all_received id ops db b ++ waiting id b') `sublist_of` (waiting id b ++ all_offered id ops db b) /\
      (bu_dropped b' = bu_dropped b -> all_received id ops db b ++ waiting id b' = waiting id b ++ all_offered id ops db b).
Proof.
  revert db b. induction ops as [|op ops IH]; intros db b Hi.
  { exists db, b. cbn. split_and!; [done|done|lia|]. intros id. by rewrite app_nil_r. }
  destruct (run_op_ok op db b Hi) as (db1 & b1 & E & Hi1 & Hd1 & Hs1). cbn. rewrite E.
  destruct (IH db1 b1 Hi1) as (db' & b' & -> & Hi' & Hd & Hs). exists db', b'. split_and!; [done|done|lia|].
  intros id. destruct (Hs1 id) as [Hs1a Hs1b], (Hs id) as [Hsa Hsb]. split.
  - rewrite <- app_assoc, (app_assoc (waiting id b)). etrans; [by apply sublist_app; [reflexivity|exact Hsa]|].
    rewrite app_assoc. by apply sublist_app.
  - intros Ed. rewrite <- app_assoc, Hsb by lia. rewrite (app_assoc _ (waiting id b1)), Hs1b by lia. by rewrite app_assoc.
Qed.

Lemma NewWithBuffer_inv bufSize : bus_inv (NewWithBuffer bufSize).
Proof.
  split; cbn.
  - unfold defaultSubBuffer. destruct (Z.leb_spec bufSize 0); lia.
  - apply NoDup_nil_2.
  - intros id. split; [by intros ?%not_elem_of_nil|]. intros (ch & Hch & _). by rewrite lookup_nil in Hch.
  - intros id ch Hch. by rewrite lookup_nil in Hch.
Qed.

(** In no sequence of publishes, deliveries, subscriptions, cancellations and
    shutdowns does the bus send on a closed channel or close one twice, however often a
    subscription is cancelled; its subscribers stay distinct and open, and no channel
    ever holds more than its capacity. *)
Theorem bus_never_panics bufSize ops db :
  exists db' b, run_ops ops db (NewWithBuffer bufSize) = Some (db', b) /\ NoDup (bu_subs b) /\
    (forall id, id ∈ bu_subs b <-> exists ch, bu_chans b !! id = Some ch /\ ch_closed ch = false) /\
    (forall id, Z.of_nat (length (waiting id b)) <= bu_subBuffer b).
Proof.
  destruct (run_ops_ok ops db _ (NewWithBuffer_inv bufSize)) as (db' & b & E & Hi & _). exists db', b.
  split; [done|]. split; [apply Hi|]. split; [apply Hi|]. intros id. unfold waiting.
  destruct (bu_chans b !! id) as [ch|] eqn:Ech; [by apply (bi_queue _ Hi id)|]. pose proof (bi_cap _ Hi). cbn. lia.
Qed.

(** C29: a subscriber receives events in the order they were offered while it was
    subscribed, each at most once; when the bus dropped nothing, what it has received
    and what waits for it is exactly what was offered. *)
Theorem subscriber_stream bufSize ops db db' b id :
  run_ops ops db (NewWithBuffer bufSize) = Some (db', b) ->
  (all_received id ops db (NewWithBuffer bufSize) ++ waiting id b) `sublist_of` all_offered id ops db (NewWithBuffer bufSize) /\
  (bu_dropped b = 0 ->
     all_received id ops db (NewWithBuffer bufSize) ++ waiting id b = all_offered id ops db (NewWithBuffer bufSize)).
Proof.
  intros E. destruct (run_ops_ok ops db _ (NewWithBuffer_inv bufSize)) as (db1 & b1 & E1 & _ & _ & Hs).
  rewrite E in E1. injection E1 as <- <-. apply Hs.
Qed.
End Runs.

(** ** Persisted events *)

(** The event is a persisted one: same id and identity; a row of an empty tenant is the
    default tenant's. *)
Definition persisted (db : EventDB) (e : Event) : Prop :=
  exists r, r ∈ object_events db /\ ev_ID (er_event r) = ev_ID e /\ ev_Type (er_event r) = ev_Type e /\
    ev_TenantID (er_event r) = defaultTenant (ev_TenantID e) /\ ev_Bucket (er_event r) = ev_Bucket e /\
    ev_Key (er_event r) = ev_Key e /\ ev_ObjectID (er_event r) = ev_ObjectID e /\ ev_Payload (er_event r) = ev_Payload e.

(** The events of a database stay when it is used on. *)
Definition keeps (db db' : EventDB) : Prop :=
  forall r, r ∈ object_events db -> exists r', r' ∈ object_events db' /\ er_event r' = er_event r.

Lemma keeps_refl db : keeps db db.
Proof. intros r Hr. by exists r. Qed.
Lemma keeps_trans a b c : keeps a b -> keeps b c -> keeps a c.
Proof. intros H1 H2 r Hr. destruct (H1 r Hr) as (r1 & Hr1 & <-). by apply H2. Qed.

Lemma keeps_persisted db db' e : keeps db db' -> persisted db e -> persisted db' e.
Proof. intros Hk (r & Hr & Hid). destruct (Hk r Hr) as (r' & Hr' & E). exists r'. by rewrite E. Qed.

Lemma insert_keeps d ctx now e db db' res : InsertEvent d ctx now e db = (db', res) -> keeps db db'.
Proof.
  intros E. destruct res as [id|err]; [|apply insert_Err in E as ->; by apply keeps_refl].
  apply insert_Ok in E as (_ & _ & ->). intros r Hr. exists r. split; [|done]. cbn. apply elem_of_app. by left.
Qed.

Lemma insert_persisted d ctx now e db db' id : InsertEvent d ctx now e db = (db', Ok id) -> persisted db' (with_id id e).
Proof.
  intros (_ & _ & ->)%insert_Ok. exists (event_row d now id e). split; [|done]. cbn. apply elem_of_app. right. by left.
Qed.

Lemma consumed_log d ctx now id db : log_inv db ->
  keeps db (fst (MarkEventConsumed d ctx now id db)) /\ log_inv (fst (MarkEventConsumed d ctx now id db)).
Proof.
  intros (H0 & Hn & Hb). unfold MarkEventConsumed, with_ctx. rewrite run_guard. destruct ctx as [err|]; [by split; [apply keeps_refl|]|].
  cbn [fst]. split.
  - intros r Hr. destruct (ev_ID (er_event r) =? id) eqn:E.
    + eexists. split; [cbn; apply elem_update_where; left; by exists r|done].
    + exists r. split; [cbn; apply elem_update_where; by right|done].
  - split; [done|]. cbn. split.
    + by rewrite (map_update_where (fun r => ev_ID (er_event r))).
    + intros r [(y & Hy & _ & ->)|[Hr _]]%elem_update_where; [by apply (Hb y)|by apply Hb].
Qed.

Lemma delivered_persisted `{UUIDLib} ctx late later e db b a :
  log_inv db -> delivered_event ctx late later e db b = Some a ->
  (exists r, r ∈ object_events db /\ er_event r = a) /\ ev_TenantID a <> ""%string /\
  admitEventBucket (bu_boundary b) ctx late (ev_TenantID a) (ev_Bucket a) = None.
Proof.
  intros Hl. unfold delivered_event. destruct (bu_authority b) as [[|]|]; [| |done].
  - destruct (Reread _ ctx e) as [got|] eqn:E; [|done]. apply Reread_spec in E as (_ & Ht & Hr & _ & Hs); [|done].
    destruct (admitEventBucket _ _ _ _ _) eqn:Ea; [done|]. destruct later; [done|]. intros [= <-].
    apply sameEventIdentity_true in Hs as (_ & Hs & _). split_and!; [done|by rewrite Hs|done].
  - unfold Reread. by destruct (validateEventAuthorityInput ctx e).
Qed.

Lemma row_persisted db r : r ∈ object_events db -> ev_TenantID (er_event r) <> ""%string -> persisted db (er_event r).
Proof. intros Hr Ht. exists r. unfold defaultTenant. by rewrite (proj2 (streqb_false _ _) Ht). Qed.

Section Persisted.
Context `{UUIDLib} (d : dialect).

(** All that waits or is offered is persisted. *)
Definition seen_inv (db : EventDB) (b : Bus) : Prop :=
  log_inv db /\ bus_inv b /\ bu_authorityConfigured b = true /\ forall id e, e ∈ waiting id b -> persisted db e.

Lemma op_event_persisted op db b db' b' e :
  log_inv db -> bu_authorityConfigured b = true -> run_op d op db b = Some (db', b') -> op_event d op db b = Some e ->
  persisted db' e.
Proof.
  intros Hl Ha Hr He. destruct op as [| | | |ctx late now e0|ctx late later e0|e0| | | | |]; try done; cbn in He, Hr.
  - unfold Publish in Hr. destruct (InsertEvent _ _ _ _ _) as [db1 [id|]] eqn:E; [|done]. injection He as <-.
    destruct (broadcast _ _); [|done]. injection Hr as <- _. by eapply insert_persisted.
  - destruct (DeliverContext _ _ _ _ _ _); [|done]. injection Hr as <- _.
    destruct (delivered_persisted _ _ _ _ _ _ _ Hl He) as ((r & Hin & <-) & Ht & _). by apply row_persisted.
  - rewrite Ha in He. cbn in He. destruct (Deliver _ _ _); [|done]. injection Hr as <- _.
    destruct (delivered_persisted _ _ _ _ _ _ _ Hl He) as ((r & Hin & <-) & Ht & _). by apply row_persisted.
Qed.

Lemma run_op_log op db b db' b' : log_inv db -> run_op d op db b = Some (db', b') -> keeps db db' /\ log_inv db'.
Proof.
  intros Hl Hr. pose proof (keeps_refl db) as Hk.
  destruct op as [|id| |id|ctx late now e|ctx late later e|e|ctx now e|ctx now id| | |]; cbn in Hr;
    try (injection Hr as <- <-; by split).
  - destruct (Unsubscribe _ _); [|done]. by injection Hr as <- <-.
  - destruct (Close _); [|done]. by injection Hr as <- <-.
  - unfold Publish in Hr. destruct (InsertEvent _ _ _ _ _) as [db1 res] eqn:E.
    assert (db1 = db') as <- by (destruct res; [destruct (broadcast _ _)|]; simplify_eq/=; done).
    split; [by eapply insert_keeps|]. pose proof (log_inv_insert d (ctx ≫= ctx_Err) now e db Hl) as Hl'. by rewrite E in Hl'.
  - destruct (DeliverContext _ _ _ _ _ _); [|done]. by injection Hr as <- <-.
  - destruct (Deliver _ _ _); [|done]. by injection Hr as <- <-.
  - injection Hr as <- <-. split; [|by apply log_inv_insert]. destruct (InsertEvent d ctx now e db) eqn:E. by eapply insert_keeps.
  - injection Hr as <- <-. by apply consumed_log.
Qed.

Lemma run_op_authority op db b db' b' : bus_inv b -> run_op d op db b = Some (db', b') ->
  bu_authorityConfigured b = true -> bu_authorityConfigured b' = true.
Proof.
  intros Hi Hr Ha. destruct op as [|id| |id|ctx late now e|ctx late later e|e|ctx now e|ctx now id| | |]; cbn in Hr;
    try (injection Hr as <- <-; done).
  - unfold Unsubscribe in Hr. destruct (cut _ _); [|by injection Hr as <- <-]. destruct (close _ _); [|done]. by injection Hr as <- <-.
  - unfold Close in Hr. destruct (close_all _ _); [|done]. by injection Hr as <- <-.
  - injection Hr as <- <-. pose proof (receive_spec id b Hi) as Hr. destruct (receive id b) as [[e b1]|]; [|done].
    destruct Hr as (_ & _ & -> & _). done.
  - unfold Publish in Hr. destruct (InsertEvent _ _ _ _ _) as [db1 [id|]]; [|by injection Hr as <- <-].
    destruct (broadcast_spec (with_id id e) b Hi) as (b1 & E & _ & _ & _ & Hb & _). rewrite E in Hr. injection Hr as <- <-. congruence.
  - rewrite DeliverContext_event in Hr. destruct (delivered_event _ _ _ _ _ _) as [a|]; [|by injection Hr as <- <-].
    destruct (broadcast_spec a b Hi) as (b1 & E & _ & _ & _ & Hb & _). rewrite E in Hr. injection Hr as <- <-. congruence.
  - unfold Deliver in Hr. rewrite Ha in Hr. cbn in Hr. rewrite DeliverContext_event in Hr.
    destruct (delivered_event _ _ _ _ _ _) as [a|]; [|by injection Hr as <- <-].
    destruct (broadcast_spec a b Hi) as (b1 & E & _ & _ & _ & Hb & _). rewrite E in Hr. injection Hr as <- <-. congruence.
Qed.

Lemma seen_step op db b db' b' : seen_inv db b -> run_op d op db b = Some (db', b') ->
  seen_inv db' b' /\ keeps db db' /\ forall id e, e ∈ received id op b -> persisted db' e.
Proof.
  intros (Hl & Hi & Ha & Hw) Hr. destruct (run_op_log op db b db' b' Hl Hr) as [Hk Hl'].
  destruct (run_op_ok d op db b Hi) as (db1 & b1 & E & Hi1 & _ & Hs). rewrite Hr in E. injection E as <- <-.
  assert (forall id e, e ∈ received id op b ++ waiting id b' -> persisted db' e) as Hall.
  { intros id e Hin. destruct (Hs id) as [Hsub _].
    assert (e ∈ waiting id b ++ offered d id op db b) as [He|He]%elem_of_app
      by (eapply elem_of_submseteq; [exact Hin|by apply sublist_submseteq]).
    - by eapply keeps_persisted, Hw.
    - unfold offered in He. destruct (decide _); [|by apply elem_of_nil in He].
      destruct (op_event d op db b) as [x|] eqn:Ex; cbn in He; [|by apply elem_of_nil in He].
      apply list_elem_of_singleton in He as ->. apply (op_event_persisted op db b db' b' x Hl Ha Hr Ex). }
  split; [|split; [done|]]; [|intros id e He; apply (Hall id), elem_of_app; by left].
  split; [done|]. split; [done|]. split; [apply (run_op_authority op db b db' b' Hi Hr Ha)|].
  intros id e He. apply (Hall id), elem_of_app. by right.
Qed.

Lemma seen_run ops db b db' b' : seen_inv db b -> run_ops d ops db b = Some (db', b') ->
  seen_inv db' b' /\ keeps db db' /\ forall id e, e ∈ all_received d id ops db b -> persisted db' e.
Proof.
  revert db b. induction ops as [|op ops IH]; intros db b Hs Hr.
  { injection Hr as <- <-. split; [done|]. split; [apply keeps_refl|]. by intros id e ?%not_elem_of_nil. }
  cbn in Hr |- *. destruct (run_op d op db b) as [[db1 b1]|] eqn:E; [|done].
  destruct (seen_step op db b db1 b1 Hs E) as (Hs1 & Hk1 & Hrec). destruct (IH db1 b1 Hs1 Hr) as (Hs' & Hk & Hall).
  split; [done|]. split; [by eapply keeps_trans|]. intros id e [He|He]%elem_of_app; [|by apply (Hall id)].
  by eapply keeps_persisted, Hrec.
Qed.

(** Once an authority is installed, everything a subscriber receives or has waiting
    is an event of the database, with its id, type, bucket, key, object and payload, and
    its tenant; this holds however forged the events handed to the bus are. *)
Theorem subscribers_see_persisted bufSize authority ops db db' b id e :
  log_inv db ->
  run_ops d ops db (WithEventAuthority authority (NewWithBuffer bufSize)) = Some (db', b) ->
  e ∈ all_received d id ops db (WithEventAuthority authority (NewWithBuffer bufSize)) ++ waiting id b -> persisted db' e.
Proof.
  intros Hl Hr He. destruct (seen_run ops db (WithEventAuthority authority (NewWithBuffer bufSize)) db' b) as ((_ & _ & _ & Hw) & _ & Hall); [|exact Hr|].
  - split; [done|]. split; [destruct (NewWithBuffer_inv bufSize); by split|]. split; [done|].
    intros i x Hx. unfold waiting in Hx. cbn in Hx. by apply elem_of_nil in Hx.
  - apply elem_of_app in He as [He|He]; [by apply (Hall id)|by apply (Hw id)].
Qed.

(** An event one replica published, when its transport sent it on, is broadcast by
    every replica whose authority reads the database and whose boundary admits the
    bucket, however the database was used meanwhile: what is broadcast has the id and
    identity of the published event.  The event needs a tenant of its own. *)
Theorem published_event_delivers ctx late now e db a db1 a' sent db2 b ctx2 :
  log_inv db -> Publish d ctx late now e db a = Some (db1, a', Some sent) -> ev_TenantID e <> ""%string ->
  log_inv db2 -> keeps db1 db2 -> bu_authority b = Some true ->
  (exists c, ctx2 = Some c /\ ctx_Err c = None /\ ctx_ErrAfter c = None) ->
  admitEventBucket (bu_boundary b) ctx2 None (ev_TenantID e) (ev_Bucket e) = None ->
  exists got, DeliverContext ctx2 None None sent db2 b = broadcast got b /\
    ev_ID got = ev_ID sent /\ sameEventIdentity got e = true.
Proof.
  intros Hl Hp Ht Hl2 Hk Hauth Hctx Hadm. unfold Publish in Hp.
  destruct (InsertEvent d (ctx ≫= ctx_Err) now e db) as [db' [id|err]] eqn:Ei; [|done].
  destruct (broadcast (with_id id e) a) as [a1|]; [|done]. injection Hp as -> -> Hsent.
  assert (sent = with_id id e) as ->.
  { unfold publishTransport in Hsent. destruct (bu_transport a'); [|done]. cbn [negb] in Hsent.
    destruct (negb (bu_boundaryConfigured a') && _); [by injection Hsent|]. destruct (admitEventBucket _ _ _ _ _); [done|by injection Hsent]. }
  apply insert_Ok in Ei as (_ & _ & ->).
  destruct (Hk (event_row d now id e)) as (r & Hr & Er). { cbn. apply elem_of_app. right. by left. }
  assert (sameEventIdentity (er_event r) e = true) as Hs.
  { apply sameEventIdentity_true. rewrite Er. cbn. unfold defaultTenant. by rewrite (proj2 (streqb_false _ _) Ht). }
  exists (er_event r). rewrite DeliverContext_event. unfold delivered_event. rewrite Hauth.
  assert (Reread (Some (db_reader db2)) ctx2 (with_id id e) = Ok (er_event r)) as ->.
  { apply Reread_spec; [done|]. split_and!; [done|done|by exists r|by rewrite Er|]. by rewrite <- Hs. }
  apply sameEventIdentity_true in Hs as Hs'. destruct Hs' as (_ & -> & -> & _). rewrite Hadm. split_and!; [done|by rewrite Er|done].
Qed.
End Persisted.

(** ** On a sample *)

Module BusSample.
Import FixedStore.

Definition event (key : string) : Event := {|
  ev_ID := 0; ev_TenantID := "acme"; ev_Bucket := "docs"; ev_Key := key; ev_Type := EventCreated; ev_ObjectID := Some 7;
  ev_RequestID := "r"; ev_Payload := ∅; ev_CreatedAt := 0 |}.
Definition db0 : EventDB := {| object_events := []; event_seq := 0; webhook_failures := []; failure_seq := 0 |}.
Definition boundary : option (option ResourceBoundary) := Some (m_boundary manager).
Definition live : option Ctx := Some ctx.

(** A replica that publishes over a transport, and one that reads the same database. *)
Definition sender : Bus := WithTransport (WithResourceBoundary boundary New).
Definition reader : Bus := WithResourceBoundary boundary (WithEventAuthority (Some true) New).

Definition ops : list bus_op :=
  [OpBoundary boundary; OpSubscribe; OpPublish live None 0 (event "a"); OpDeliver (event "forged");
   OpPublish live None 0 (event "b"); OpReceive 0; OpUnsubscribe 0; OpUnsubscribe 0; OpClose].
Definition final : option (EventDB * Bus) := run_ops dialectSQLite ops db0 (WithEventAuthority (Some true) (NewWithBuffer 4)).
End BusSample.
Import FixedStore BusSample.

Lemma empty_log : log_inv db0.
Proof. split_and!; [done|apply NoDup_nil_2|by intros r ?%not_elem_of_nil]. Qed.

Lemma Reread_iff_witness :
  Reread (Some (db_reader (fst (InsertEvent dialectSQLite None 0 (event "a") db0)))) live (with_id 1 (event "a")) =
    Ok (with_id 1 (event "a")).
Proof.
  apply Reread_iff; [by apply log_inv_insert, empty_log|]. split_and!; [by exists ctx|done| |done|by vm_compute].
  exists (event_row dialectSQLite 0 1 (event "a")). split; [by left|done].
Defined.

Lemma subscriber_stream_witness :
  exists db' b, run_ops dialectSQLite ops db0 (NewWithBuffer 4) = Some (db', b) /\
    all_received dialectSQLite 0 ops db0 (NewWithBuffer 4) ++ waiting 0 b =
    all_offered dialectSQLite 0 ops db0 (NewWithBuffer 4).
Proof.
  destruct (run_ops dialectSQLite ops db0 (NewWithBuffer 4)) as [[db' b]|] eqn:E; [|by vm_compute in E].
  exists db', b. split; [done|]. apply (subscriber_stream dialectSQLite 4 ops db0 db' b 0 E).
  vm_compute in E. by injection E as <- <-.
Defined.

Lemma subscribers_see_persisted_witness :
  exists db' b, final = Some (db', b) /\ map ev_Key (waiting 0 b) = ["b"%string] /\
    forall e, e ∈ waiting 0 b -> persisted db' e.
Proof.
  destruct final as [[db' b]|] eqn:E; [|by vm_compute in E]. exists db', b. split; [done|]. split.
  - vm_compute in E. by injection E as <- <-.
  - intros e He. apply (subscribers_see_persisted dialectSQLite 4 (Some true) ops db0 db' b 0 e empty_log E).
    apply elem_of_app. by right.
Defined.

Lemma published_event_delivers_witness :
  exists db1 a' sent, Publish dialectSQLite live None 0 (event "a") db0 sender = Some (db1, a', Some sent) /\
    exists got, DeliverContext live None None sent db1 reader = broadcast got reader /\ ev_ID got = 1.
Proof.
  destruct (Publish dialectSQLite live None 0 (event "a") db0 sender) as [[[db1 a'] [sent|]]|] eqn:E;
    [|by vm_compute in E|by vm_compute in E].
  exists db1, a', sent. split; [done|].
  destruct (published_event_delivers dialectSQLite live None 0 (event "a") db0 sender db1 a' sent db1 reader live)
    as (got & Hd & Hid & _); [apply empty_log|exact E|done| |apply keeps_refl|done|by exists ctx|by vm_compute|].
  - vm_compute in E. injection E as <- _ _. split_and!; [done|by apply list.NoDup_singleton|].
    intros r ->%list_elem_of_singleton. done.
  - exists got. split; [exact Hd|]. rewrite Hid. vm_compute in E. by injection E as _ _ <-.
Defined.
