(* ===== verification/EventWebhook.v ===== *)
(** * Webhooks (src/internal/events/webhook.go, decodeWebhookEventEnvelope of
      event_authority.go)

    A webhook posts each persisted event to its URLs, records a failed attempt with the
    exact body it sent, and retries it from the record.  As for the relay, the outside is
    an environment on a world that moves on: clock, random numbers, contexts, boundary,
    authority, HTTP answers and the HMAC.  A delivery is a trace of what was sent and the
    calls it made on the failure store.

    A created_at is read as if its JSON text had no escapes. *)

From Stdlib Require Import Ascii Lia Bool ZArith.
From stdpp Require Import base gmap strings list numbers option pretty.
From S2P Require Import Prelude GoStrings Json GoTime Backoff GoErrors Sql JsonStruct Keyset Spaces Access AccessStore Outbox Objects EventPayload EventLog EventBoundary.

Open Scope Z_scope.

(** ** Decimal texts *)

Definition fmtInt (n : Z) : string := signed_text n.

(** ** The envelope *)

(** The body of a delivery: the keys of the map in their order. *)
Definition envelope_json (e : Event) : jvalue := JObject
  [str "bucket" (ev_Bucket e); str "created_at" (FormatRFC3339Nano (ev_CreatedAt e)); int "id" (ev_ID e);
   str "key" (ev_Key e);
   ("object_id"%string, match ev_ObjectID e with Some n => JInt n | None => JNull end);
   ("payload"%string, kv_json (ev_Payload e)); str "request_id" (ev_RequestID e); str "tenant" (ev_TenantID e);
   str "type" (ev_Type e)].

Definition envelope_names : list string :=
  ["id"; "tenant"; "bucket"; "key"; "type"; "object_id"; "request_id"; "payload"; "created_at"]%string.

(** webhookEventEnvelope, whose fields are an event's. *)
Definition webhookEventEnvelope (o : list (string * jvalue)) : option Event :=
  let at_ := assigned envelope_names o in
  let s := fun name => string_field (at_ name) "" in
  id ← int64_field (at_ "id"%string) 0; tenant ← s "tenant"%string; bucket ← s "bucket"%string; key ← s "key"%string;
  type ← s "type"%string; object ← pointer_field (at_ "object_id"%string) None; request ← s "request_id"%string;
  payload ← kv_field (at_ "payload"%string) ∅; created ← time_field (at_ "created_at"%string) 0;
  Some {| ev_ID := id; ev_TenantID := tenant; ev_Bucket := bucket; ev_Key := key; ev_Type := type; ev_ObjectID := object;
          ev_RequestID := request; ev_Payload := payload; ev_CreatedAt := created |}.

Definition decodeWebhookEventEnvelope (body : string) : result Event :=
  if (body =s "") then Err (NewError "empty webhook event envelope")
  else match Unmarshal_struct body ≫= webhookEventEnvelope with
       | None => Err (Wrap "decode webhook event envelope" [])
       | Some e => if IsZero (ev_CreatedAt e) then Err (NewError "webhook event envelope has no created_at") else Ok e
       end.

Definition decodeWebhookRetryEvent (f : WebhookFailure) : result Event :=
  match decodeWebhookEventEnvelope (wf_Payload f) with
  | Err err => Err err
  | Ok e =>
      if (wf_EventID f <=? 0) || negb (ev_ID e =? wf_EventID f)
      then Err (NewError "webhook row and envelope event IDs differ")
      else if (ev_TenantID e =s "") || (ev_Bucket e =s "") || (ev_Key e =s "") || (ev_Type e =s "")
      then Err (NewError "incomplete webhook event envelope")
      else Ok e
  end.

(** ** The webhook *)

Record Webhook := { wh_urls : list string; wh_secret : string; wh_repo : bool }.

(** strings.Split, trimmed, without the empty parts. *)
Definition NewWebhook (urls : string) : Webhook := {|
  wh_urls := List.filter (fun p => p <>s "") (map TrimSpace (Split urls ","%char)); wh_secret := ""; wh_repo := false |}.
Definition WithSecret (secret : string) (w : Webhook) : Webhook :=
  {| wh_urls := wh_urls w; wh_secret := secret; wh_repo := wh_repo w |}.
Definition WithRetryStore (usable : bool) (w : Webhook) : Webhook :=
  {| wh_urls := wh_urls w; wh_secret := wh_secret w; wh_repo := usable |}.

(** What came back from a POST: no request for the URL, no answer, or a status. *)
Inductive http_result :=
| BadURL (text : string)
| NoAnswer (text : string)
| Status (code : Z).

Record webhook_env (W : Type) := {
  we_tick : W -> W;
  we_now : W -> time;
  we_rand : W -> option Z;
  we_ctx : W -> Ctx;
  we_late : W -> option error;
  we_later : W -> option error;
  we_call_ctx : W -> option error;
  we_boundary : W -> option (option ResourceBoundary);
  we_authority : W -> option event_reader;
  we_post : W -> string -> string -> list (string * string) -> http_result;
  we_hmac : string -> string -> string
}.
Arguments we_tick {W}. Arguments we_now {W}. Arguments we_rand {W}. Arguments we_ctx {W}. Arguments we_late {W}.
Arguments we_later {W}. Arguments we_call_ctx {W}. Arguments we_boundary {W}. Arguments we_authority {W}.
Arguments we_post {W}. Arguments we_hmac {W}.

(** A call on the failure store, and what it does. *)
Inductive failure_call :=
| CallRecordFailure (ctx : option error) (f : WebhookFailure)
| CallSucceeded (ctx : option error) (id : Z)
| CallDeadLetter (ctx : option error) (id : Z) (message : string) (status attempts : Z)
| CallUpdate (ctx : option error) (id : Z) (lastErr : string) (status : Z) (next : time) (attempts : Z).

Definition run_failure_call (d : dialect) (now : time) (c : failure_call) (db : EventDB) : EventDB :=
  match c with
  | CallRecordFailure ctx f => fst (RecordWebhookFailure d ctx now f db)
  | CallSucceeded ctx id => fst (MarkWebhookSucceeded ctx id db)
  | CallDeadLetter ctx id message status attempts => fst (MarkWebhookDeadLettered d ctx now id message status attempts db)
  | CallUpdate ctx id lastErr status next attempts => fst (UpdateWebhookFailure d ctx id lastErr status next attempts db)
  end.

(** What was observed and sent. *)
Inductive webhook_action :=
| WAdmitted (e : Event) (verdict : result Event)
| WPosted (url body : string) (headers : list (string * string)) (answer : http_result).

Section Webhook.
Context `{UUIDLib} {W : Type} (env : webhook_env W) (wh : Webhook).

Definition signature (body : string) : string :=
  if (wh_secret wh =s "") then ""%string else ("sha256=" ++ we_hmac env (wh_secret wh) body)%string.

Definition admitEvent (w : W) (e : Event) : result Event :=
  match Reread (we_authority env w) (Some (we_ctx env w)) e with
  | Err err => Err err
  | Ok e =>
      match admitEventBucket (we_boundary env w) (Some (we_ctx env w)) (we_late env w) (ev_TenantID e) (ev_Bucket e) with
      | Some err => Err err
      | None => match we_later env w with
                | Some err => Err (newResourceBoundaryFault err)
                | None => Ok e
                end
      end
  end.

(** The delay before the next try, after [attempt] tries. *)
Definition persistFailure (w : W) (eventID : Z) (url body lastErr : string) (status attempt : Z) : list failure_call :=
  if negb (wh_repo wh) then []
  else [CallRecordFailure (we_call_ctx env w) {|
    wf_ID := 0; wf_EventID := eventID; wf_URL := url; wf_Payload := body; wf_Attempts := attempt; wf_LastError := lastErr;
    wf_LastStatus := status; wf_NextRetryAt := we_now env w + webhookBackoff attempt (we_rand env w); wf_Succeeded := false;
    wf_DeadLettered := false; wf_CreatedAt := 0 |}].

Definition headers (eventID : Z) (sig : string) (retry : option Z) : list (string * string) :=
  ("Content-Type"%string, "application/json"%string) ::
  if (sig =s "") then []
  else [("X-Aero-Signature"%string, sig); ("X-Aero-Event-Id"%string, fmtInt eventID)] ++
       match retry with Some n => [("X-Aero-Retry-Attempt"%string, fmtInt n)] | None => [] end.

Definition postOne (w : W) (eventID : Z) (url body sig : string) (attempt : Z)
    : webhook_action * list failure_call :=
  let hs := headers eventID sig None in
  let answer := we_post env w url body hs in
  (WPosted url body hs answer,
   match answer with
   | BadURL text | NoAnswer text => persistFailure w eventID url body text 0 attempt
   | Status code => if 300 <=? code then persistFailure w eventID url body "non-2xx" code attempt else []
   end).

Fixpoint deliver_urls (w : W) (e : Event) (body sig : string) (urls : list string)
    : list webhook_action * list failure_call :=
  match urls with
  | [] => ([], [])
  | u :: rest =>
      let verdict := admitEvent w e in
      let w1 := we_tick env w in
      match verdict with
      | Err _ => let '(acts, calls) := deliver_urls w1 e body sig rest in (WAdmitted e verdict :: acts, calls)
      | Ok _ =>
          let '(sent, calls) := postOne w1 (ev_ID e) u body sig 1 in
          let '(acts, more) := deliver_urls (we_tick env w1) e body sig rest in
          (WAdmitted e verdict :: sent :: acts, calls ++ more)
      end
  end.

Definition deliver (w : W) (e : Event) : list webhook_action * list failure_call :=
  match Reread (we_authority env w) (Some (we_ctx env w)) e with
  | Err _ => ([], [])
  | Ok e => let body := marshal (envelope_json e) in
            deliver_urls (we_tick env w) e body (signature body) (wh_urls wh)
  end.

(** ** Retries *)

Definition deadLetterRetry (w : W) (failure : WebhookFailure) (message : string) (status attempts : Z) : list failure_call :=
  if negb (wh_repo wh) then []
  else [CallDeadLetter (we_call_ctx env w) (wf_ID failure) message status attempts].

Definition handleRetryFailure (w : W) (failure : WebhookFailure) (lastErr : string) (lastStatus : Z) : list failure_call :=
  if negb (wh_repo wh) then []
  else
    let attempts := wf_Attempts failure + 1 in
    if 10 <=? attempts
    then deadLetterRetry w failure ("dead-lettered after " ++ fmtInt attempts ++ " attempts: " ++ lastErr) lastStatus attempts
    else [CallUpdate (we_call_ctx env w) (wf_ID failure) lastErr lastStatus
            (we_now env w + webhookBackoff attempts (we_rand env w)) attempts].

Definition sendRetry (w : W) (f : WebhookFailure) : list webhook_action * list failure_call :=
  let body := wf_Payload f in
  let hs := headers (wf_EventID f) (signature body) (Some (wf_Attempts f + 1)) in
  let answer := we_post env w (wf_URL f) body hs in
  ([WPosted (wf_URL f) body hs answer],
   match answer with
   | BadURL text => handleRetryFailure w f ("bad url: " ++ text) 0
   | NoAnswer text => handleRetryFailure w f text 0
   | Status code =>
       if code <? 300 then if wh_repo wh then [CallSucceeded (we_call_ctx env w) (wf_ID f)] else []
       else handleRetryFailure w f ("non-2xx: " ++ pretty code) code
   end).

Definition retryOne (w : W) (f : WebhookFailure) : list webhook_action * list failure_call :=
  match decodeWebhookRetryEvent f with
  | Err _ => ([], deadLetterRetry w f "invalid webhook event envelope" 0 (wf_Attempts f + 1))
  | Ok e =>
      let verdict := admitEvent w e in
      let w1 := we_tick env w in
      match verdict with
      | Err err =>
          ([WAdmitted e verdict],
           if negb (IsEventAuthorityFault (Some err)) && event_IsResourceBoundaryDenied (Some err)
           then deadLetterRetry w1 f "webhook admission denied" 0 (wf_Attempts f + 1)
           else handleRetryFailure w1 f "webhook admission fault" 0)
      | Ok _ => let '(acts, calls) := sendRetry w1 f in (WAdmitted e verdict :: acts, calls)
      end
  end.

(** One turn of the retry loop: the rows that are due, twenty-five at most, one after
    the other. *)
Fixpoint retry_all (w : W) (pending : list WebhookFailure) : list (list webhook_action * list failure_call) :=
  match pending with
  | [] => []
  | f :: rest => retryOne w f :: retry_all (we_tick env (we_tick env w)) rest
  end.

Definition retry_round (d : dialect) (w : W) (db : EventDB) : list (list webhook_action * list failure_call) :=
  match NextPendingFailures d (we_call_ctx env w) (we_now env w) 25 db with
  | (_, Ok pending) => retry_all (we_tick env w) pending
  | (_, Err _) => []
  end.
End Webhook.
