(* ===== verification/EventWebhookProps.v ===== *)
(** * What webhooks guarantee

    The decimal texts of headers ([fmtInt_decimal]); the body of a delivery reads back as
    the persisted event ([envelope_round_trip]), so that a retry of a recorded failure is
    admitted as that event and repeats the exact bytes and signature ([retry_repeats]);
    and every failure is settled after a bounded number of retries, as long as the calls that
    count them succeed ([retries_end]). *)

From Stdlib Require Import Ascii Lia Bool ZArith.
From stdpp Require Import base gmap strings list numbers option pretty sorting.
From S2P Require Import Prelude GoStrings Json JsonProps GoTime Backoff GoErrors Sql JsonStruct Keyset Spaces Access AccessProps AccessStore Outbox Objects ObjectsInvariant EventPayload EventPayloadProps EventLog EventBoundary EventBus EventBusProps EventWebhook.

Open Scope Z_scope.

(** ** Decimal texts *)

(** The decimal text the headers carry is the number's, for every int64 but the
    least one, whose negation overflows: that one is written as a bare minus sign. *)
Theorem fmtInt_decimal n :
  int64 n -> fmtInt n = if n =? MinInt64 then "-"%string else pretty n.
Proof. apply signed_text_decimal. Qed.

(** ** The envelope *)

(** An event that fits its texts. *)
Record mailable (e : Event) : Prop := {
  ml_id : int64 (ev_ID e); ml_pos : 0 < ev_ID e;
  ml_text : all_utf8 [ev_TenantID e; ev_Bucket e; ev_Key e; ev_Type e; ev_RequestID e];
  ml_object : match ev_ObjectID e with Some n => int64 n | None => True end;
  ml_payload : forall k v, ev_Payload e !! k = Some v -> utf8_ValidString k = true /\ utf8_ValidString v = true;
  ml_year : 0 <= Year (ev_CreatedAt e) <= 9999; ml_created : ev_CreatedAt e <> 0;
  ml_full : ev_TenantID e <> ""%string /\ ev_Bucket e <> ""%string /\ ev_Key e <> ""%string /\ ev_Type e <> ""%string
}.

Lemma sound_envelope e : mailable e -> sound 0 (envelope_json e).
Proof.
  intros [Hid Hpos Htext Hobj Hpay Hy Hc _]. unfold all_utf8 in Htext. rewrite !list.Forall_cons in Htext. destruct_and! Htext.
  apply sound_object; [done|]. repeat (apply Forall_cons_2; [|]); try (by apply ok_str); try (by apply ok_int); [..|constructor].
  - apply ok_str; [done|]. apply ascii_valid, ascii_time.
  - split; [done|]. cbn [snd]. destruct (ev_ObjectID e) as [n|]; [by apply (ok_int _ "n")|done].
  - split; [done|]. by apply sound_kv.
Qed.

Lemma envelope_back e : mailable e -> webhookEventEnvelope (members (envelope_json e)) = Some e.
Proof.
  intros [Hid Hpos Htext Hobj Hpay Hy Hc _]. destruct e as [id tn bk ky ty ob rq pl cr]. cbn in Hid, Hobj, Hy.
  unfold webhookEventEnvelope, envelope_json, members.
  cbn -[JInt int64_field kv_field kv_json time_field pointer_field FormatRFC3339Nano].
  rewrite int64_JInt by done. cbn [mbind option_bind].
  rewrite kv_back. destruct ob as [n|]; cbn -[JInt kv_json FormatRFC3339Nano ParseRFC3339].
  - unfold JInt. rewrite ParseInt64_pretty by done. cbn -[FormatRFC3339Nano ParseRFC3339]. by rewrite ParseRFC3339_Format.
  - by rewrite ParseRFC3339_Format.
Qed.

Lemma envelope_decodes e : mailable e -> decodeWebhookEventEnvelope (marshal (envelope_json e)) = Ok e.
Proof.
  intros He. pose proof (sound_envelope e He) as Hs. unfold decodeWebhookEventEnvelope.
  change (envelope_json e) with (JObject (members (envelope_json e))) in *.
  destruct (Unmarshal_object _ Hs) as [-> _]. cbn [mbind option_bind].
  rewrite envelope_back by done. unfold IsZero. rewrite (proj2 (Z.eqb_neq _ _)) by apply He. done.
Qed.

(** The body of a webhook delivery reads back as the event it was built from, down
    to the nanosecond of its time, for every event of the years 0 to 9999 whose texts
    are UTF-8. *)
Theorem envelope_round_trip e : mailable e -> decodeWebhookEventEnvelope (marshal (envelope_json e)) = Ok e.
Proof. apply envelope_decodes. Qed.

(** ** Retries *)

Section Retries.
Context `{UUIDLib} {W : Type} (env : webhook_env W) (wh : Webhook).

Lemma deliver_urls_record w e body sig urls ctx f :
  CallRecordFailure ctx f ∈ snd (deliver_urls env wh w e body sig urls) ->
  wf_EventID f = ev_ID e /\ wf_Payload f = body /\ wf_Attempts f = 1 /\ wf_URL f ∈ urls /\
  exists answer, WPosted (wf_URL f) body (headers (ev_ID e) sig None) answer ∈ fst (deliver_urls env wh w e body sig urls).
Proof.
  revert w. induction urls as [|u urls IH]; intros w Hin; [by apply not_elem_of_nil in Hin|]. cbn in Hin |- *.
  destruct (admitEvent env w e) as [got|err]; cbn in Hin |- *.
  2: { specialize (IH (we_tick env w)). destruct (deliver_urls _ _ _ _ _ _ _) as [acts calls].
       destruct (IH Hin) as (? & ? & ? & ? & a & ?). split_and!; [done..|by right|]. exists a. by right. }
  set (w1 := we_tick env w) in *. set (answer := we_post env w1 u body _) in *.
  specialize (IH (we_tick env w1)). destruct (deliver_urls _ _ _ _ _ _ _) as [acts calls].
  apply elem_of_app in Hin as [Hin|Hin].
  - assert (forall text st, CallRecordFailure ctx f ∈ persistFailure env wh w1 (ev_ID e) u body text st 1 ->
      wf_EventID f = ev_ID e /\ wf_Payload f = body /\ wf_Attempts f = 1 /\ wf_URL f = u) as Hp.
    { intros text st Hc. unfold persistFailure in Hc. destruct (negb _); [by apply not_elem_of_nil in Hc|].
      apply list_elem_of_singleton in Hc. by injection Hc as -> ->. }
    assert (wf_EventID f = ev_ID e /\ wf_Payload f = body /\ wf_Attempts f = 1 /\ wf_URL f = u) as (-> & -> & -> & ->).
    { destruct answer as [t|t|code]; [by eapply Hp|by eapply Hp|]. destruct (300 <=? code); [by eapply Hp|by apply not_elem_of_nil in Hin]. }
    split_and!; [done..|by left|]. exists answer. right. by left.
  - destruct (IH Hin) as (? & ? & ? & ? & a & ?). split_and!; [done..|by right|]. exists a. right. by right.
Qed.

(** A failure that a delivery records is a retry of the same delivery: its row
    decodes to the persisted event, and every POST of the retry has the URL, the exact
    body and the signature of the first one, and the retry's number. *)
Theorem retry_repeats d now id w e got ctx f w' :
  Reread (we_authority env w) (Some (we_ctx env w)) e = Ok got -> mailable got ->
  CallRecordFailure ctx f ∈ snd (deliver env wh w e) ->
  let row := failure_row d now id f in
  let body := marshal (envelope_json got) in
  decodeWebhookRetryEvent row = Ok got /\ wf_URL f ∈ wh_urls wh /\
  (exists answer, WPosted (wf_URL f) body (headers (ev_ID got) (signature env wh body) None) answer ∈ fst (deliver env wh w e)) /\
  (forall url sent hs answer, WPosted url sent hs answer ∈ fst (retryOne env wh w' row) ->
     url = wf_URL f /\ sent = body /\ hs = headers (ev_ID got) (signature env wh body) (Some 2)).
Proof.
  intros Hr Hm Hin row body. unfold deliver in Hin |- *. rewrite Hr in Hin |- *.
  destruct (deliver_urls_record _ _ _ _ _ _ _ Hin) as (Hid & Hp & Ha & Hu & Hpost).
  assert (decodeWebhookRetryEvent row = Ok got) as Hd.
  { unfold decodeWebhookRetryEvent. cbn [row failure_row wf_Payload wf_EventID]. rewrite Hp, Hid, (envelope_decodes got Hm).
    destruct Hm as [_ Hpos _ _ _ _ _ (Ht & Hb & Hk & Hty)]. rewrite Z.eqb_refl, (proj2 (Z.leb_gt _ _)) by lia. cbn [orb negb].
    by rewrite !(proj2 (streqb_false _ _)) by done. }
  split_and!; [done|done|done|]. intros url sent hs answer Hin'. unfold retryOne in Hin'. rewrite Hd in Hin'.
  destruct (admitEvent env w' got).
  - cbn in Hin'. apply elem_of_cons in Hin' as [?|Hin']; [done|]. apply list_elem_of_singleton in Hin'. injection Hin' as -> -> -> _.
    by rewrite Hp, Hid, Ha.
  - cbn in Hin'. by apply list_elem_of_singleton in Hin'.
Qed.

(** ** Retries end *)

(** The calls of a retry, run at one time. *)
Definition retried (d : dialect) (now : time) (w : W) (f : WebhookFailure) (db : EventDB) : EventDB :=
  foldl (fun db c => run_failure_call d now c db) db (snd (retryOne env wh w f)).

Definition settled_failure (f : WebhookFailure) : bool := wf_Succeeded f || wf_DeadLettered f.

Definition failure_at (id : Z) (db : EventDB) : option WebhookFailure :=
  List.find (fun f => wf_ID f =? id) (webhook_failures db).

(** A row through turns of the loop, each in a world and at a time of its own; a settled
    row has no more turns. *)
Fixpoint retry_turns (d : dialect) (turns : list (W * time)) (id : Z) (db : EventDB) : EventDB :=
  match turns with
  | [] => db
  | (w, now) :: rest =>
      match failure_at id db with
      | Some f => if settled_failure f then db else retry_turns d rest id (retried d now w f db)
      | None => db
      end
  end.

Definition same_delivery (a b : WebhookFailure) : Prop :=
  wf_ID a = wf_ID b /\ wf_EventID a = wf_EventID b /\ wf_URL a = wf_URL b /\ wf_Payload a = wf_Payload b.

Lemma failure_update id g db : (forall f, wf_ID (g f) = wf_ID f) ->
  failure_at id (fst (update_failures id g db)) = g <$> failure_at id db.
Proof.
  intros Hg. unfold failure_at, update_failures, update_where. cbn. induction (webhook_failures db) as [|x l IH]; [done|]. cbn.
  destruct (wf_ID x =? id) eqn:E; cbn; [by rewrite Hg, E|]. by rewrite E.
Qed.

(** A retry counts: the row is settled, or it has one more attempt and stays below ten. *)
Lemma retry_counts d now w f db :
  wh_repo wh = true -> (forall w, we_call_ctx env w = None) -> failure_at (wf_ID f) db = Some f -> settled_failure f = false ->
  exists f', failure_at (wf_ID f) (retried d now w f db) = Some f' /\ same_delivery f' f /\
    ((settled_failure f' = true /\ wf_Attempts f' <= wf_Attempts f + 1) \/
     (settled_failure f' = false /\ wf_Attempts f' = wf_Attempts f + 1 /\ wf_Attempts f' < 10)).
Proof.
  intros Hrepo Hctx Hf Hs. unfold retried.
  assert (forall w msg st, exists f', failure_at (wf_ID f)
            (foldl (fun db c => run_failure_call d now c db) db (deadLetterRetry env wh w f msg st (wf_Attempts f + 1))) = Some f' /\
            same_delivery f' f /\ settled_failure f' = true /\ wf_Attempts f' <= wf_Attempts f + 1) as Hdead.
  { intros w' msg st. unfold deadLetterRetry. rewrite Hrepo, Hctx. cbn [negb foldl run_failure_call].
    unfold MarkWebhookDeadLettered, with_ctx. rewrite run_guard, failure_update, Hf by done. eexists. split; [done|].
    split; [done|]. split; [unfold settled_failure; cbn; by destruct (wf_Succeeded f)|]. cbn. lia. }
  assert (forall w text st, exists f', failure_at (wf_ID f)
            (foldl (fun db c => run_failure_call d now c db) db (handleRetryFailure env wh w f text st)) = Some f' /\
            same_delivery f' f /\ ((settled_failure f' = true /\ wf_Attempts f' <= wf_Attempts f + 1) \/
              (settled_failure f' = false /\ wf_Attempts f' = wf_Attempts f + 1 /\ wf_Attempts f' < 10))) as Hfail.
  { intros w' text st. unfold handleRetryFailure. rewrite Hrepo. cbn [negb].
    destruct (Z.leb_spec 10 (wf_Attempts f + 1)).
    - destruct (Hdead w' ("dead-lettered after " ++ fmtInt (wf_Attempts f + 1) ++ " attempts: " ++ text)%string st)
        as (f' & ? & ? & ?). exists f'. eauto.
    - rewrite Hctx. cbn [foldl run_failure_call]. unfold UpdateWebhookFailure, with_ctx.
      rewrite run_guard, failure_update, Hf by done. eexists. split; [done|]. split; [done|]. right. split; [exact Hs|]. cbn. lia. }
  unfold retryOne. destruct (decodeWebhookRetryEvent f) as [e|]; [|destruct (Hdead w "invalid webhook event envelope" 0) as (f' & ? & ? & ?); eauto].
  destruct (admitEvent env w e) as [got|err].
  - cbn [fst snd]. unfold sendRetry. destruct (we_post _ _ _ _ _) as [t|t|code]; cbn [snd]; [apply Hfail|apply Hfail|].
    destruct (code <? 300); [|apply Hfail]. rewrite Hrepo, Hctx. cbn [foldl run_failure_call].
    unfold MarkWebhookSucceeded, with_ctx. rewrite run_guard, failure_update, Hf by done. eexists. split; [done|]. split; [done|].
    left. split; [done|]. cbn. lia.
  - cbn [snd]. destruct (negb _ && _); [|apply Hfail].
    destruct (Hdead (we_tick env w) "webhook admission denied" 0) as (f' & ? & ? & ?); eauto.
Qed.

(** C30: however the targets, the boundary and the authority answer, a failed delivery is
    settled, succeeded or dead-lettered, after at most ten attempts in all; its event,
    URL and body never change.  This is as long as the database does not fail: the webhook
    has its table of failures, and its calls on that table succeed.  An update that is lost
    leaves the count as it was, and the delivery is attempted again. *)
Theorem retries_end d turns id db f :
  wh_repo wh = true -> (forall w, we_call_ctx env w = None) -> failure_at id db = Some f -> 1 <= wf_Attempts f < 10 ->
  10 - wf_Attempts f <= Z.of_nat (length turns) ->
  exists f', failure_at id (retry_turns d turns id db) = Some f' /\ settled_failure f' = true /\ same_delivery f' f /\
    (settled_failure f = false -> wf_Attempts f' <= 10).
Proof.
  intros Hrepo Hctx. revert db f. induction turns as [|[w now] turns IH]; intros db f Hf Ha Hl; [cbn in Hl; lia|].
  cbn [retry_turns length] in *. rewrite Hf. destruct (settled_failure f) eqn:Es; [exists f; by split_and!|].
  assert (id = wf_ID f) as -> by (apply List.find_some in Hf as [_ E%Z.eqb_eq]; done).
  destruct (retry_counts d now w f db Hrepo Hctx Hf Es) as (f1 & Hf1 & Hsame & [[Hd1 Hle]|(Hs1 & Ha1 & Hlt)]).
  - assert (retry_turns d turns (wf_ID f) (retried d now w f db) = retried d now w f db) as ->.
    { destruct turns as [|[w1 now1] turns]; [done|]. cbn. by rewrite Hf1, Hd1. }
    exists f1. split_and!; [done|done|done|lia].
  - destruct (IH _ f1 Hf1 ltac:(lia) ltac:(lia)) as (f' & Hf' & Hd' & Hsame' & Hle). exists f'. split_and!; [done|done| |auto].
    destruct Hsame as (? & ? & ? & ?), Hsame' as (? & ? & ? & ?). split_and!; congruence.
Qed.
End Retries.

(** ** On a sample *)

Module WebhookSample.
Import FixedStore BusSample.

(** An event that is persisted, and targets that answer [code]. *)
Definition now : time := instant 738944 43200 500000000.
Definition log : EventDB := fst (InsertEvent dialectSQLite None now (event "a") db0).
Definition persisted_event : Event := er_event (event_row dialectSQLite now 1 (event "a")).

Definition env (code : Z) : webhook_env nat := {|
  we_tick := S; we_now _ := now; we_rand _ := None; we_ctx _ := ctx; we_late _ := None; we_later _ := None;
  we_call_ctx _ := None; we_boundary _ := boundary; we_authority _ := Some (db_reader log);
  we_post _ _ _ _ := Status code; we_hmac key body := body |}.

Definition hook : Webhook := WithRetryStore true (WithSecret "s" (NewWebhook "http://a, http://b")).
Definition recorded (code : Z) : option WebhookFailure :=
  match snd (deliver (env code) hook 0%nat persisted_event) with CallRecordFailure _ f :: _ => Some f | _ => None end.
Definition failed : WebhookFailure := failure_row dialectSQLite now 1 (default {|
  wf_ID := 0; wf_EventID := 0; wf_URL := ""; wf_Payload := ""; wf_Attempts := 0; wf_LastError := ""; wf_LastStatus := 0;
  wf_NextRetryAt := 0; wf_Succeeded := false; wf_DeadLettered := false; wf_CreatedAt := 0 |} (recorded 500)).
Definition store : EventDB := set_failures [failed] 1 log.

Lemma mailable_event : mailable persisted_event.
Proof.
  split; [by vm_compute|done|by repeat constructor|by vm_compute| |by vm_compute|done|done].
  intros k v Hk. change (ev_Payload persisted_event) with (∅ : kv) in Hk. by rewrite lookup_empty in Hk.
Qed.
End WebhookSample.
Import FixedStore BusSample WebhookSample.

Lemma fmtInt_decimal_witness : fmtInt (-1750000000) = "-1750000000"%string /\ fmtInt MinInt64 = "-"%string.
Proof.
  split.
  - rewrite (fmtInt_decimal (-1750000000)) by (by vm_compute). reflexivity.
  - rewrite (fmtInt_decimal MinInt64) by (by vm_compute). reflexivity.
Defined.

Lemma envelope_round_trip_witness : decodeWebhookEventEnvelope (marshal (envelope_json persisted_event)) = Ok persisted_event.
Proof. apply envelope_round_trip. exact mailable_event. Defined.

Lemma retry_repeats_witness : exists f, recorded 500 = Some f /\
  decodeWebhookRetryEvent (failure_row dialectSQLite now 1 f) = Ok persisted_event /\ wf_URL f ∈ wh_urls hook.
Proof.
  destruct (recorded 500) as [f|] eqn:E; [|by vm_compute in E]. exists f. split; [done|].
  destruct (retry_repeats (env 500) hook dialectSQLite now 1 0%nat persisted_event persisted_event None f 7%nat)
    as (Hd & Hu & _); [by vm_compute|exact mailable_event| |by split].
  unfold recorded in E. destruct (snd (deliver (env 500) hook 0%nat persisted_event)) as [|[c g| | |] rest] eqn:Ec; try done.
  injection E as <-. assert (c = None) as -> by (vm_compute in Ec; congruence). by left.
Defined.

Lemma retries_end_witness :
  exists f', failure_at 1 (retry_turns (env 500) hook dialectSQLite (repeat (0%nat, now) 9) 1 store) = Some f' /\
    wf_DeadLettered f' = true /\ wf_Attempts f' = 10.
Proof.
  destruct (retries_end (env 500) hook dialectSQLite (repeat (0%nat, now) 9) 1 store failed)
    as (f' & Hf & _ & _ & _); [done|done|by vm_compute|by vm_compute|by vm_compute|].
  exists f'. split; [exact Hf|]. vm_compute in Hf. by injection Hf as <-.
Defined.
