(* ===== verification/EventNotifier.v ===== *)
(** * Bucket notifications from the bus (src/internal/events/notifier.go)

    The notifier rereads and admits each event of the bus, then POSTs its S3 form to the
    targets of the matching rules, unless the outbox owns the delete.  The outside is the
    relay's environment with the notifier's own authority and its question to the
    outbox.  A delivery is a trace.

    [notifier_posts] says what it sends; [restored_delete_is_dropped] is a notification
    it drops. *)

From Stdlib Require Import Ascii Lia Bool ZArith.
From stdpp Require Import base gmap strings list numbers option pretty.
From S2P Require Import Prelude GoStrings Json GoTime Backoff GoErrors Sql JsonStruct Spaces Access AccessProps AccessStore Outbox OutboxProps Objects EventPayload EventLog EventBoundary EventRelay EventBus EventBusProps.

Open Scope Z_scope.

(** ** The S3 form of an event *)

Definition s3EventName (et : string) : string :=
  if (et =s EventCreated) then "s3:ObjectCreated:Put"
  else if (et =s EventDeleted) then "s3:ObjectRemoved:Delete"
  else "".

(** fmt's %020d: a sign counts. *)
Definition pad20 (n : Z) : string :=
  if n <? 0 then ("-" ++ pad 19 (- n))%string else pad 20 n.

(** buildS3Event and its JSON text; size and eTag are empty and omitted. *)
Definition buildS3Event (e : Event) (eventName : string) : jvalue := JObject [("Records"%string, JArray [JObject
  [str "eventVersion" "2.1"; str "eventSource" "aws:s3"; str "awsRegion" "us-east-1"; str "eventName" eventName;
   ("userIdentity"%string, JObject [str "principalId" (ev_TenantID e)]);
   ("requestParameters"%string, JObject [str "sourceIPAddress" "127.0.0.1"]);
   ("responseElements"%string, JObject [str "x-amz-request-id" (pretty (ev_ID e))]);
   ("s3"%string, JObject
     [str "s3SchemaVersion" "1.0";
      ("bucket"%string, JObject [str "name" (ev_Bucket e); str "arn" ("arn:aws:s3:::" ++ ev_Bucket e)]);
      ("object"%string, JObject [str "key" (ev_Key e); str "sequencer" (pad20 (ev_ID e))])])]])].

(** ** Delivery *)

Record notifier_env (W : Type) := {
  ne_env : environment W;
  ne_repo : bool;
  ne_authority : W -> option (option event_reader);
  ne_has_fact : W -> Z -> string -> result bool
}.
Arguments ne_env {W}. Arguments ne_repo {W}. Arguments ne_authority {W}. Arguments ne_has_fact {W}.

Section Notifier.
Context `{UUIDLib} {W : Type} (n : notifier_env W).
Abbreviation env := (ne_env n).

Definition authoritativeEvent (w : W) (e : Event) : result Event :=
  match ne_authority n w with
  | None => Err (newEventAuthorityFault (NewError "missing event authority"))
  | Some repo => Reread repo (Some (en_ctx env w)) e
  end.

Definition admitBucket (w : W) (e : Event) : option error :=
  admitEventBucket (en_boundary env w) (Some (en_ctx env w)) (en_late env w) (ev_TenantID e) (ev_Bucket e).

Definition outboxOwnsDelete (w : W) (e : Event) : bool :=
  match ev_ObjectID e with
  | Some id => if (ev_Type e <>s EventDeleted) then false
               else match ne_has_fact n w id EventTypeFileNotify11 with Ok has => has | Err _ => true end
  | None => false
  end.

(** All targets are tried, whatever they answer. *)
Fixpoint dispatch (w : W) (body : string) (targets : list string) : W * list action :=
  match targets with
  | [] => (w, [])
  | target :: rest =>
      let answer := en_post env w target body in
      let '(w', more) := dispatch (en_tick env w) body rest in
      (w', Posted target body answer :: more)
  end.

Definition dispatchToTargets (w : W) (e : Event) (rule : NotificationRule) (eventName : string) : W * list action :=
  dispatch w (marshal (buildS3Event e eventName)) (resolveTargets rule).

Fixpoint dispatch_rules (w : W) (e : Event) (eventName : string) (rules : list NotificationRule) : W * list action :=
  match rules with
  | [] => (w, [])
  | rule :: rest =>
      if negb (ruleMatches rule eventName (ev_Key e)) then dispatch_rules w e eventName rest
      else let '(w1, sent) := dispatchToTargets w e rule eventName in
           let '(w', more) := dispatch_rules w1 e eventName rest in (w', sent ++ more)
  end.

Definition notifier_deliver (w : W) (e : Event) : list action :=
  if negb (ne_repo n) then []
  else match authoritativeEvent w e with
  | Err _ => []
  | Ok a =>
      let w1 := en_tick env w in
      let verdict := admitBucket w1 a in
      let seen := Observed (ev_TenantID a) (ev_Bucket a) verdict in
      match verdict with
      | Some _ => [seen]
      | None =>
          let eventName := s3EventName (ev_Type a) in
          if (eventName =s "") then [seen]
          else
            let w2 := en_tick env w1 in
            let looked := LookedUpRules (ev_TenantID a) (ev_Bucket a) in
            match en_rules env w2 (ev_TenantID a) (ev_Bucket a) with
            | Err _ | Ok [] => [seen; looked]
            | Ok rules =>
                if outboxOwnsDelete (en_tick env w2) a then [seen; looked]
                else seen :: looked :: snd (dispatch_rules (en_tick env (en_tick env w2)) a eventName rules)
            end
      end
  end.

(** ** What is sent *)

Definition action_posts (l : list action) : list (string * string) :=
  omap (fun a => match a with Posted url body _ => Some (url, body) | _ => None end) l.

Lemma dispatch_posts w body targets : action_posts (snd (dispatch w body targets)) = map (fun t => (t, body)) targets.
Proof.
  revert w. induction targets as [|t ts IH]; intros w; [done|]. cbn. specialize (IH (en_tick env w)).
  destruct (dispatch _ body ts) as [w' more]. cbn. by rewrite <- IH.
Qed.

Lemma dispatch_rules_posts w e name rules :
  action_posts (snd (dispatch_rules w e name rules)) =
  map (fun t => (t, marshal (buildS3Event e name)))
    (concat (map resolveTargets (List.filter (fun rule => ruleMatches rule name (ev_Key e)) rules))).
Proof.
  revert w. induction rules as [|rule rules IH]; intros w; [done|]. cbn [dispatch_rules List.filter].
  destruct (ruleMatches rule name (ev_Key e)); cbn [negb]; [|apply IH].
  unfold dispatchToTargets. pose proof (dispatch_posts w (marshal (buildS3Event e name)) (resolveTargets rule)) as Hd.
  destruct (dispatch w _ _) as [w1 sent]. specialize (IH w1). destruct (dispatch_rules w1 _ _ _) as [w' more].
  cbn [snd map concat] in *. unfold action_posts in *. rewrite omap_app, Hd, IH. by rewrite map_app.
Qed.

(** Whatever the notifier POSTs is the S3 form of a persisted event that was read
    back with its id and whose bucket was admitted; the targets are exactly those of the
    matching rules of that tenant and bucket, each once and in order, and a delete is
    sent only when the outbox has no notification for its object. *)
Theorem notifier_posts w e :
  action_posts (notifier_deliver w e) <> [] ->
  exists a rules, authoritativeEvent w e = Ok a /\ admitBucket (en_tick env w) a = None /\
    (ev_Type a = EventCreated \/ ev_Type a = EventDeleted) /\
    en_rules env (en_tick env (en_tick env w)) (ev_TenantID a) (ev_Bucket a) = Ok rules /\
    (ev_Type a = EventDeleted -> forall id, ev_ObjectID a = Some id ->
       ne_has_fact n (en_tick env (en_tick env (en_tick env w))) id EventTypeFileNotify11 = Ok false) /\
    action_posts (notifier_deliver w e) =
      map (fun t => (t, marshal (buildS3Event a (s3EventName (ev_Type a)))))
        (concat (map resolveTargets (List.filter (fun rule => ruleMatches rule (s3EventName (ev_Type a)) (ev_Key a)) rules))).
Proof.
  unfold notifier_deliver. cbv zeta. destruct (ne_repo n); cbn [negb]; [|by intros []].
  destruct (authoritativeEvent w e) as [a|]; [|by intros []]. destruct (admitBucket (en_tick env w) a) eqn:Ea; [by intros []|].
  destruct (s3EventName (ev_Type a) =s "") eqn:En; [by intros []|].
  destruct (en_rules env _ _ _) as [[|r rs]|] eqn:Er; [by intros []| |by intros []].
  destruct (outboxOwnsDelete _ a) eqn:Eo; [by intros []|]. intros _. exists a, (r :: rs). split_and!; [done|done| |done| |].
  - unfold s3EventName in En. destruct (ev_Type a =s EventCreated) eqn:E1; [left; by apply streqb_true|].
    destruct (ev_Type a =s EventDeleted) eqn:E2; [right; by apply streqb_true|discriminate En].
  - intros Ht id Hid. unfold outboxOwnsDelete in Eo. rewrite Hid, Ht, streqb_refl in Eo. cbn in Eo.
    destruct (ne_has_fact n _ _ _) as [[|]|]; done.
  - unfold action_posts. cbn [omap list_omap]. apply dispatch_rules_posts.
Qed.

(** The outbox is asked by object id only, and an object that was deleted through it,
    restored and then deleted by another path, a version delete or a quarantine, keeps
    its id: while the row of the first delete is kept, delivered or not, the notification
    of the second delete goes neither through the outbox nor through the bus. *)
Theorem restored_delete_is_dropped w e a id odb row :
  row ∈ event_outbox odb -> ob_origin_id row = id -> ob_event_type row = EventTypeFileNotify11 ->
  (forall w, ne_has_fact n w id EventTypeFileNotify11 = Ok (HasEventOutboxFact id EventTypeFileNotify11 odb)) ->
  authoritativeEvent w e = Ok a -> ev_Type a = EventDeleted -> ev_ObjectID a = Some id ->
  action_posts (notifier_deliver w e) = [].
Proof.
  intros Hr Hid Ht Hask Ha Hty Hob.
  assert (HasEventOutboxFact id EventTypeFileNotify11 odb = true) as Hhas.
  { unfold HasEventOutboxFact. apply existsb_elem. exists row. split; [done|]. by rewrite Hid, Ht, Z.eqb_refl, streqb_refl. }
  unfold notifier_deliver. cbv zeta. destruct (ne_repo n); [|done]. cbn [negb]. rewrite Ha.
  destruct (admitBucket _ a); [done|]. destruct (_ =s _); [done|]. destruct (en_rules env _ _ _) as [[|r rs]|]; [done| |done].
  unfold outboxOwnsDelete. rewrite Hob, Hty, streqb_refl, Hask, Hhas. done.
Qed.
End Notifier.

(** ** On a sample *)

Module NotifierSample.
Import FixedStore BusSample.

Definition created : Event := er_event (event_row dialectSQLite 0 1 (event "a.txt")).
Definition deleted : Event := {|
  ev_ID := 1; ev_TenantID := "acme"; ev_Bucket := "docs"; ev_Key := "a.txt"; ev_Type := EventDeleted; ev_ObjectID := Some 7;
  ev_RequestID := ""; ev_Payload := ∅; ev_CreatedAt := 0 |}.
Definition log_of (e : Event) : EventDB :=
  {| object_events := [{| er_event := e; er_consumed_at := None |}]; event_seq := 1; webhook_failures := []; failure_seq := 0 |}.

Definition rule : NotificationRule := {|
  ru_ID := "r"; ru_Events := ["s3:ObjectCreated:*"%string; "s3:ObjectRemoved:*"%string]; ru_FilterKey := ""; ru_QueueARN := "";
  ru_TopicARN := ""; ru_LambdaARN := ""; ru_EndpointURL := "http://hook" |}.

(** The outbox after a delivered delete of object 7. *)
Definition notified : OutboxFact :=
  {| of_EventType := EventTypeFileNotify11; of_OriginID := 7; of_TenantID := "acme"; of_Payload := of_Payload sample_fact |}.
Definition outbox : OutboxDB :=
  run_call dialectSQLite sample_now (CallComplete None 1 "r1" "t1")
    (run_call dialectSQLite sample_now sample_claim (run_call dialectSQLite sample_now (CallInsert [notified]) empty_outbox)).

Definition notifier (e : Event) : notifier_env nat := {|
  ne_env := {| en_tick := S; en_now _ := sample_now; en_rand _ := None; en_text _ := ""%string; en_ctx _ := ctx;
               en_late _ := None; en_call_ctx _ := None; en_boundary _ := boundary; en_rules _ _ _ := Ok [rule];
               en_post _ _ _ := None; en_sink := None |};
  ne_repo := true; ne_authority _ := Some (Some (db_reader (log_of e)));
  ne_has_fact _ id t := Ok (HasEventOutboxFact id t outbox) |}.
End NotifierSample.
Import FixedStore NotifierSample.

Lemma notifier_posts_witness :
  exists a, authoritativeEvent (notifier created) 0%nat created = Ok a /\ ev_Key a = "a.txt"%string.
Proof.
  destruct (notifier_posts (notifier created) 0%nat created) as (a & rules & Ha & _); [by vm_compute|].
  exists a. split; [exact Ha|]. vm_compute in Ha. by injection Ha as <-.
Defined.

Lemma restored_delete_is_dropped_witness : action_posts (notifier_deliver (notifier deleted) 0%nat deleted) = [].
Proof.
  apply (restored_delete_is_dropped (notifier deleted) 0%nat deleted deleted 7 outbox (first_row outbox));
    [by vm_compute; left|by vm_compute|by vm_compute|done|by vm_compute|done|done].
Defined.
