(* ===== verification/EventTransport.v ===== *)
(** * The L2 audit sink and the transport between replicas

    DeliverDeleted (src/internal/events/audit_sink_l2.go), then postgres_transport.go.

    A deleted fact is POSTed verbatim to the endpoint with the tenant's token; it counts
    as delivered when the answer is a 2xx that echoes the fact's id.  The HTTP exchange
    is a parameter.  [sink_accepts_iff] is its contract. *)
From Stdlib Require Import Ascii Lia Bool ZArith.
From stdpp Require Import base gmap strings list numbers option pretty.
From S2P Require Import Prelude GoStrings Json JsonProps GoTime Backoff GoErrors Sql JsonStruct Keyset Spaces Access AccessProps AccessStore Outbox OutboxProps Objects ObjectsInvariant EventPayload EventPayloadProps EventLog EventBoundary EventRelay EventRelayProps EventBus EventBusProps EventWebhook EventWebhookProps.

Open Scope Z_scope.

Definition auditSinkL2MaxPayloadBytes : Z := 1048576.

(** The answer: the request could not be built, no answer, or a status and the header
    X-Audit-Fact-Id. *)
Inductive sink_answer :=
| NotBuilt
| NotAnswered
| Answered (status : Z) (factHeader : string).

Definition DeliverDeleted (bindings : gmap string string) (post : string -> Z -> string -> sink_answer)
    (tenant : string) (factID : Z) (payload : string) : option error :=
  match bindings !! tenant with
  | None => Some (Sentinel ErrSinkNotBound)
  | Some token =>
      if (payload_len payload =? 0) || (auditSinkL2MaxPayloadBytes <? payload_len payload)
      then Some (NewError "audit sink: L2 payload size out of range")
      else match post token factID payload with
           | NotBuilt => Some (NewError "audit sink: L2 request could not be built")
           | NotAnswered => Some (NewError "audit sink: L2 delivery failed")
           | Answered status header =>
               if (status =? 401) || (status =? 403) then Some (Sentinel ErrSinkUnauthorized)
               else if (status <? 200) || (299 <? status) then Some (NewError "audit sink: L2 returned HTTP status")
               else if (TrimSpace header <>s pretty factID)
               then Some (NewError "audit sink: L2 response did not echo X-Audit-Fact-Id")
               else None
           end
  end.

Lemma DeliverDeleted_None bindings post tenant factID payload :
  DeliverDeleted bindings post tenant factID payload = None <->
  exists token status header, bindings !! tenant = Some token /\ 0 < payload_len payload <= auditSinkL2MaxPayloadBytes /\
    post token factID payload = Answered status header /\ 200 <= status <= 299 /\ TrimSpace header = pretty factID.
Proof.
  assert (0 <= payload_len payload) as Hl by (unfold payload_len; lia).
  unfold DeliverDeleted. destruct (bindings !! tenant) as [token|]; [|split; [done|by intros (? & ? & ? & ? & _)]].
  destruct (Z.eqb_spec (payload_len payload) 0); cbn [orb]; [split; [done|intros (? & ? & ? & _ & ? & _); lia]|].
  destruct (Z.ltb_spec auditSinkL2MaxPayloadBytes (payload_len payload)); [split; [done|intros (? & ? & ? & _ & ? & _); lia]|].
  destruct (post token factID payload) as [| |status header] eqn:Ep;
    try (split; [done|]; intros (? & ? & ? & [= <-] & _ & E & _); by rewrite Ep in E).
  destruct ((status =? 401) || (status =? 403)) eqn:E1.
  { split; [done|]. intros (? & ? & ? & [= <-] & _ & E & Hs & _). rewrite Ep in E. injection E as <- <-.
    rewrite orb_true_iff, !Z.eqb_eq in E1. lia. }
  destruct ((status <? 200) || (299 <? status)) eqn:E2.
  { split; [done|]. intros (? & ? & ? & [= <-] & _ & E & Hs & _). rewrite Ep in E. injection E as <- <-.
    rewrite orb_true_iff, !Z.ltb_lt in E2. lia. }
  rewrite orb_false_iff, !Z.ltb_ge in E2. destruct (TrimSpace header =s pretty factID) eqn:E3; cbn [negb].
  - split; [|done]. intros _. exists token, status, header. apply streqb_true in E3. split_and!; try done; lia.
  - split; [done|]. intros (? & ? & ? & [= <-] & _ & E & _ & Ht). rewrite Ep in E. injection E as <- <-.
    apply streqb_false in E3. done.
Qed.

(** The sink reports a fact as delivered exactly when the tenant has a token, the
    payload has between one byte and a mebibyte, and the endpoint answered 2xx with the
    fact's own id echoed. *)
Theorem sink_accepts_iff bindings post tenant factID payload :
  DeliverDeleted bindings post tenant factID payload = None <->
  exists token status header, bindings !! tenant = Some token /\ 0 < payload_len payload <= auditSinkL2MaxPayloadBytes /\
    post token factID payload = Answered status header /\ 200 <= status <= 299 /\ TrimSpace header = pretty factID.
Proof. apply DeliverDeleted_None. Qed.

(** ** Events between replicas (src/internal/events/postgres_transport.go)

    The wire form of an event on a PostgreSQL channel, its admission before it leaves,
    and the reconnection delay.  Connections and notifications are the server's: it
    refuses a payload of 8000 bytes or more.

    [transport_round_trip]: what one replica encodes another one decodes. *)
Open Scope Z_scope.

Definition DefaultChannel : string := "aero_vault_events".

Record PostgresTransport := { pt_dsn : string; pt_channel : string; pt_boundary : option (option ResourceBoundary) }.

Definition NewPostgresTransport (dsn channel : string) : PostgresTransport :=
  {| pt_dsn := dsn; pt_channel := if (channel =s "") then DefaultChannel else channel; pt_boundary := None |}.

(** ** The wire form *)

(** The fields of repository.Event, which has no tags; a nil map is null. *)
Definition event_json (nil_map : bool) (e : Event) : jvalue := JObject
  [int "ID" (ev_ID e); str "TenantID" (ev_TenantID e); str "Bucket" (ev_Bucket e); str "Key" (ev_Key e);
   str "Type" (ev_Type e); ("ObjectID"%string, match ev_ObjectID e with Some n => JInt n | None => JNull end);
   str "RequestID" (ev_RequestID e);
   ("Payload"%string, if nil_map && bool_decide (ev_Payload e = ∅) then JNull else kv_json (ev_Payload e));
   str "CreatedAt" (FormatRFC3339Nano (ev_CreatedAt e))].

(** Time.MarshalJSON refuses years above 9999. *)
Definition encodeEvent (nil_map : bool) (e : Event) : result string :=
  if (Year (ev_CreatedAt e) <? 0) || (9999 <? Year (ev_CreatedAt e)) then Err (NewError "Time.MarshalJSON: year outside of range [0,9999]")
  else Ok (marshal (event_json nil_map e)).

Definition event_names : list string :=
  ["ID"; "TenantID"; "Bucket"; "Key"; "Type"; "ObjectID"; "RequestID"; "Payload"; "CreatedAt"]%string.

Definition event_decode (o : list (string * jvalue)) : option Event :=
  let at_ := assigned event_names o in
  let s := fun name => string_field (at_ name) "" in
  id ← int64_field (at_ "ID"%string) 0; tenant ← s "TenantID"%string; bucket ← s "Bucket"%string; key ← s "Key"%string;
  type ← s "Type"%string; object ← pointer_field (at_ "ObjectID"%string) None; request ← s "RequestID"%string;
  payload ← kv_field (at_ "Payload"%string) ∅; created ← time_field (at_ "CreatedAt"%string) 0;
  Some {| ev_ID := id; ev_TenantID := tenant; ev_Bucket := bucket; ev_Key := key; ev_Type := type; ev_ObjectID := object;
          ev_RequestID := request; ev_Payload := payload; ev_CreatedAt := created |}.

Definition decodeEvent (b : string) : result Event :=
  if (b =s "") then Err (NewError "empty event payload")
  else match Unmarshal_struct b ≫= event_decode with
       | Some e => Ok e
       | None => Err (NewError "json")
       end.

(** ** Publishing *)

(** The server: whether it is reached, and whether it takes a notification. *)
Record pg_server := { pg_connect : option error; pg_notify : string -> string -> option error }.

Section Publish.
Context `{UUIDLib}.

(** What is notified, and the error; a nil transport is [None]. *)
Definition pt_Publish (t : option PostgresTransport) (server : pg_server) (ctx : option Ctx) (late : option error)
    (nil_map : bool) (e : Event) : option (string * string) * option error :=
  match t with
  | None => (None, Some (Wrap "postgres transport admission"
                           [newResourceBoundaryFault (NewError "missing postgres transport")]))
  | Some t =>
      match admitEventBucket (pt_boundary t) ctx late (ev_TenantID e) (ev_Bucket e) with
      | Some err => (None, Some (Wrap "postgres transport admission" [err]))
      | None =>
          match encodeEvent nil_map e with
          | Err err => (None, Some (Wrap "encode event" [err]))
          | Ok payload =>
              match pg_connect server with
              | Some err => (None, Some (Wrap "postgres transport connect" [err]))
              | None => match pg_notify server (pt_channel t) payload with
                        | Some err => (None, Some (Wrap "postgres transport notify" [err]))
                        | None => (Some (pt_channel t, payload), None)
                        end
              end
          end
      end
  end.

(** A received payload that does not decode is skipped. *)
Definition receive_payload (deliver : Event -> Bus -> option Bus) (payload : string) (b : Bus) : option Bus :=
  match decodeEvent payload with Ok e => deliver e b | Err _ => Some b end.
End Publish.

Definition minBackoff : Z := 250000000.
Definition maxBackoff : Z := 30 * Second.

(** The delay after a failed connection. *)
Definition next_backoff (backoff : Z) : Z :=
  let doubled := wrap64 (backoff * 2) in if maxBackoff <? doubled then maxBackoff else doubled.

(** ** Round trip *)

Record transportable (e : Event) : Prop := {
  tr_id : int64 (ev_ID e);
  tr_text : all_utf8 [ev_TenantID e; ev_Bucket e; ev_Key e; ev_Type e; ev_RequestID e];
  tr_object : match ev_ObjectID e with Some n => int64 n | None => True end;
  tr_payload : forall k v, ev_Payload e !! k = Some v -> utf8_ValidString k = true /\ utf8_ValidString v = true;
  tr_year : 0 <= Year (ev_CreatedAt e) <= 9999
}.

Lemma sound_event nil_map e : transportable e -> sound 0 (event_json nil_map e).
Proof.
  intros [Hid Htext Hobj Hpay Hy]. unfold all_utf8 in Htext. rewrite !list.Forall_cons in Htext. destruct_and! Htext.
  apply sound_object; [done|]. repeat (apply Forall_cons_2; [|]); try (by apply ok_str); try (by apply ok_int); [..|constructor].
  - split; [done|]. cbn [snd]. destruct (ev_ObjectID e) as [n|]; [by apply (ok_int _ "n")|done].
  - split; [done|]. cbn [snd]. destruct (nil_map && _); [done|]. by apply sound_kv.
  - apply ok_str; [done|]. apply ascii_valid, ascii_time.
Qed.

Lemma event_back nil_map e : transportable e -> event_decode (members (event_json nil_map e)) = Some e.
Proof.
  intros [Hid Htext Hobj Hpay Hy]. destruct e as [id tn bk ky ty ob rq pl cr]. cbn in Hid, Hobj, Hy.
  unfold event_decode, event_json, members. cbn [ev_Payload].
  assert (kv_field [if nil_map && bool_decide (pl = ∅) then JNull else kv_json pl] ∅ = Some pl) as Hkv.
  { destruct (nil_map && bool_decide (pl = ∅)) eqn:E; [|apply kv_back]. apply andb_true_iff in E as [_ ->%bool_decide_eq_true]. done. }
  cbn -[JInt int64_field kv_field kv_json time_field pointer_field FormatRFC3339Nano bool_decide andb].
  rewrite int64_JInt by done. cbn [mbind option_bind].
  rewrite Hkv. destruct ob as [n|]; cbn -[JInt kv_json FormatRFC3339Nano ParseRFC3339].
  - unfold JInt. rewrite ParseInt64_pretty by done. cbn -[FormatRFC3339Nano ParseRFC3339]. by rewrite ParseRFC3339_Format.
  - by rewrite ParseRFC3339_Format.
Qed.

(** An event of the years 0 to 9999 whose texts are UTF-8 survives the channel: what
    is encoded decodes to the same event, its nanoseconds, missing object and empty
    payload included. *)
Theorem transport_round_trip nil_map e :
  transportable e -> exists payload, encodeEvent nil_map e = Ok payload /\ decodeEvent payload = Ok e.
Proof.
  intros He. exists (marshal (event_json nil_map e)). unfold encodeEvent, decodeEvent. pose proof (tr_year _ He).
  rewrite !(proj2 (Z.ltb_ge _ _)) by lia. split; [done|]. pose proof (sound_event nil_map e He) as Hs.
  change (event_json nil_map e) with (JObject (members (event_json nil_map e))) in *.
  destruct (Unmarshal_object _ Hs) as [-> _]. cbn [mbind option_bind]. by rewrite event_back.
Qed.

(** The delay between connections starts at a quarter second and never leaves the
    range from there to thirty seconds. *)
Theorem backoff_in_range n : minBackoff <= Nat.iter n next_backoff minBackoff <= maxBackoff.
Proof.
  induction n as [|n IH]; [by vm_compute|]. change (Nat.iter (S n) next_backoff minBackoff)
    with (next_backoff (Nat.iter n next_backoff minBackoff)). generalize dependent (Nat.iter n next_backoff minBackoff).
  intros b Hb. unfold next_backoff, maxBackoff, minBackoff, Second in *.
  rewrite wrap64_id by (unfold int64, MinInt64, MaxInt64; lia). destruct (Z.ltb_spec (30 * 1000000000) (b * 2)); lia.
Qed.

Lemma transport_round_trip_witness : exists payload,
  encodeEvent true (BusSample.event "a") = Ok payload /\ decodeEvent payload = Ok (BusSample.event "a").
Proof.
  apply transport_round_trip. split; [by vm_compute|by repeat constructor|by vm_compute| |by vm_compute].
  intros k v Hk. change (ev_Payload (BusSample.event "a")) with (∅ : kv) in Hk. by rewrite lookup_empty in Hk.
Defined.
