(* ===== verification/CircuitBreaker.v ===== *)
(** * The storage circuit breaker (src/internal/storage/circuitbreaker.go)

    The breaker's state under its mutex, its critical sections ([tryTransition],
    [beforeRequest], [recordOutcome], [Stats]) and the decorated storage methods.
    Every clock reading is an argument.  A request runs [beforeRequest], the backend
    call outside the mutex and [recordOutcome], so concurrent requests interleave at
    these sections: [cb_step] is that transition system, with the number of backend
    calls in flight. *)

From Stdlib Require Import Lia Bool ZArith.
From stdpp Require Import base gmap strings list numbers relations.
From S2P Require Import Prelude GoTime GoErrors.

Open Scope Z_scope.

Definition ErrBackendUnavailable : string := "storage.ErrBackendUnavailable".
Definition StorageErrNotFound : string := "storage.ErrNotFound".
Definition ErrAlreadyExists : string := "storage.ErrAlreadyExists".
Definition ErrInvalidKey : string := "storage.ErrInvalidKey".
Definition ErrUnsupported : string := "storage.ErrUnsupported".
Definition ErrGenerationMismatch : string := "storage.ErrGenerationMismatch".
Definition ErrSSECustomerKeyRequired : string := "storage.ErrSSECustomerKeyRequired".
Definition ErrInvalidSSECustomerKey : string := "storage.ErrInvalidSSECustomerKey".

Inductive CBState := CBClosed | CBOpen | CBHalfOpen.
#[export] Instance CBState_eq_dec : EqDecision CBState.
Proof. solve_decision. Defined.

Definition CBState_String (s : CBState) : string :=
  match s with
  | CBClosed => "closed"
  | CBOpen => "open"
  | CBHalfOpen => "half-open"
  end.

Record CBConfig := {
  FailureThreshold : Z;
  RecoveryTimeout : Z;
  HalfOpenMaxRequests : Z;
  cb_Enabled : bool
}.

Definition DefaultCBConfig : CBConfig := {|
  FailureThreshold := 5; RecoveryTimeout := 30 * Second; HalfOpenMaxRequests := 1;
  cb_Enabled := false |}.

Record countBucket := { b_failures : Z; b_total : Z }.

Record circuitBreaker := {
  cb_cfg : CBConfig;
  state : CBState;
  lastFailure : time;
  failures : Z;
  halfAllowed : Z;
  stateChanged : time;
  window : gmap Z countBucket
}.

(** [if x <= 0 { x = default }]. *)
Definition positive (x d : Z) : Z := if x <=? 0 then d else x.

(** [NewCircuitBreaker]; a disabled breaker is the bare backend ([None]). *)
Definition NewCircuitBreaker (cfg : CBConfig) : option circuitBreaker :=
  if negb (cb_Enabled cfg) then None
  else
    Some {|
      cb_cfg := {|
        FailureThreshold := positive (FailureThreshold cfg) (FailureThreshold DefaultCBConfig);
        RecoveryTimeout := positive (RecoveryTimeout cfg) (RecoveryTimeout DefaultCBConfig);
        HalfOpenMaxRequests := positive (HalfOpenMaxRequests cfg) (HalfOpenMaxRequests DefaultCBConfig);
        cb_Enabled := true |};
      state := CBClosed; lastFailure := 0; failures := 0; halfAllowed := 0; stateChanged := 0;
      window := ∅ |}.

(** Field updates. *)
Definition cb_set (cb : circuitBreaker) (st : CBState) (lf : time) (f h : Z) (sc : time) : circuitBreaker := {|
  cb_cfg := cb_cfg cb; state := st; lastFailure := lf; failures := f; halfAllowed := h;
  stateChanged := sc; window := window cb |}.

Definition cb_window (cb : circuitBreaker) (w : gmap Z countBucket) : circuitBreaker := {|
  cb_cfg := cb_cfg cb; state := state cb; lastFailure := lastFailure cb; failures := failures cb;
  halfAllowed := halfAllowed cb; stateChanged := stateChanged cb; window := w |}.

Definition tryTransition (cb : circuitBreaker) (now : time) : circuitBreaker :=
  match state cb with
  | CBClosed => cb
  | CBOpen =>
      if RecoveryTimeout (cb_cfg cb) <=? now - lastFailure cb
      then cb_set cb CBHalfOpen (lastFailure cb) (failures cb) (HalfOpenMaxRequests (cb_cfg cb)) now
      else cb
  | CBHalfOpen =>
      if (halfAllowed cb =? HalfOpenMaxRequests (cb_cfg cb)) &&
         (RecoveryTimeout (cb_cfg cb) <? now - stateChanged cb)
      then cb_set cb CBOpen now (failures cb) (halfAllowed cb) (stateChanged cb)
      else cb
  end.

(** [State]: the observable state, after a possible transition. *)
Definition State (cb : circuitBreaker) (now : time) : circuitBreaker * CBState :=
  let cb := tryTransition cb now in (cb, state cb).

(** [Stats]: drops the seconds older than a minute and sums the rest. *)
Definition Stats (cb : circuitBreaker) (now : time) : circuitBreaker * (CBState * Z * Z) :=
  let sec := now / Second in
  let w := filter (fun kv => ~ (60 < sec - kv.1)) (window cb) in
  (cb_window cb w,
   (state cb, map_fold (fun _ b acc => acc + b_failures b) 0 w,
              map_fold (fun _ b acc => acc + b_total b) 0 w)).

Definition beforeRequest (cb : circuitBreaker) (now : time) : circuitBreaker * option error :=
  let cb := tryTransition cb now in
  match state cb with
  | CBOpen => (cb, Some (Sentinel ErrBackendUnavailable))
  | CBHalfOpen =>
      if halfAllowed cb <=? 0 then (cb, Some (Sentinel ErrBackendUnavailable))
      else (cb_set cb CBHalfOpen (lastFailure cb) (failures cb) (halfAllowed cb - 1) (stateChanged cb), None)
  | CBClosed => (cb, None)
  end.

Definition isBackendFailure (err : option error) : bool :=
  match err with
  | None => false
  | Some _ =>
      negb (Is err StorageErrNotFound || Is err ErrAlreadyExists || Is err ErrInvalidKey ||
            Is err ErrUnsupported || Is err ErrGenerationMismatch || Is err ErrSSECustomerKeyRequired ||
            Is err ErrInvalidSSECustomerKey || Is err ErrBackendUnavailable || Is err context_Canceled)
  end.

(** The window's bucket of the current second, one more outcome counted. *)
Definition count (cb : circuitBreaker) (now : time) (failed : bool) : circuitBreaker :=
  let sec := now / Second in
  let b := default {| b_failures := 0; b_total := 0 |} (window cb !! sec) in
  cb_window cb (<[sec := {| b_failures := b_failures b + (if failed then 1 else 0);
                            b_total := b_total b + 1 |}]> (window cb)).

Definition recordOutcome (cb : circuitBreaker) (now : time) (err : option error) : circuitBreaker :=
  let cb := count cb now (isBackendFailure err) in
  match err with
  | None =>
      match state cb with
      | CBHalfOpen => cb_set cb CBClosed (lastFailure cb) 0 (halfAllowed cb) now
      | CBClosed => cb_set cb CBClosed (lastFailure cb) 0 (halfAllowed cb) (stateChanged cb)
      | CBOpen => cb
      end
  | Some _ =>
      if negb (isBackendFailure err) then
        if bool_decide (state cb = CBHalfOpen) && (halfAllowed cb <? HalfOpenMaxRequests (cb_cfg cb))
        then cb_set cb (state cb) (lastFailure cb) (failures cb) (halfAllowed cb + 1) (stateChanged cb)
        else cb
      else
        let n := failures cb + 1 in
        match state cb with
        | CBClosed =>
            if FailureThreshold (cb_cfg cb) <=? n then cb_set cb CBOpen now n (halfAllowed cb) now
            else cb_set cb CBClosed (lastFailure cb) n (halfAllowed cb) (stateChanged cb)
        | CBHalfOpen => cb_set cb CBOpen now n (halfAllowed cb) now
        | CBOpen => cb_set cb CBOpen (lastFailure cb) n (halfAllowed cb) (stateChanged cb)
        end
  end.

(** ** The decorated methods *)

Inductive method :=
| Put | Get | GetGenerationBound | Stat | GetWithOptions | StatWithOptions
| UploadPartWithOptions | CompleteMultipartWithOptions | Delete | List_ | PresignGet | PresignPut
| InitMultipart | UploadPart | CompleteMultipart | AbortMultipart | CleanupParts | UploadPartCopy.

(** What the wrapped backend implements beyond [Storage]. *)
Record backend := { generation_bound : bool; supports_ssec : bool }.

(** The methods that type-assert the backend after [beforeRequest]. *)
Definition available (b : backend) (m : method) : bool :=
  match m with
  | GetGenerationBound => generation_bound b
  | GetWithOptions | StatWithOptions | UploadPartWithOptions | CompleteMultipartWithOptions =>
      supports_ssec b
  | _ => true
  end.

(** A method up to its backend call: [inl] its early return, [inr] the call starts. *)
Definition begin_call (b : backend) (cb : circuitBreaker) (m : method) (now : time)
    : circuitBreaker * option error :=
  match beforeRequest cb now with
  | (cb, Some err) => (cb, Some err)
  | (cb, None) => (cb, if available b m then None else Some (Sentinel ErrUnsupported))
  end.

(** A whole method call whose backend call answers [inner]. *)
Definition call (b : backend) (cb : circuitBreaker) (m : method) (before after : time)
    (inner : option error) : circuitBreaker * option error :=
  match begin_call b cb m before with
  | (cb, Some err) => (cb, Some err)
  | (cb, None) => (recordOutcome cb after inner, inner)
  end.

(** ** Interleavings *)

(** The breaker and its backend calls in flight. *)
Definition system : Type := circuitBreaker * nat.

Inductive event :=
| EBegin (m : method) (now : time)
| EEnd (now : time) (err : option error)
| EState (now : time)
| EStats (now : time).

Definition event_time (e : event) : time :=
  match e with EBegin _ now | EEnd now _ | EState now | EStats now => now end.

(** One critical section; [EEnd] needs a call in flight. *)
Definition exec (b : backend) (s : system) (e : event) : system :=
  let '(cb, n) := s in
  match e with
  | EBegin m now =>
      match begin_call b cb m now with
      | (cb, Some _) => (cb, n)
      | (cb, None) => (cb, S n)
      end
  | EEnd now err => match n with S n => (recordOutcome cb now err, n) | O => s end
  | EState now => (fst (State cb now), n)
  | EStats now => (fst (Stats cb now), n)
  end.

Definition execs (b : backend) (s : system) (es : list event) : system := fold_left (exec b) es s.

(** ** Properties *)

(** The counters stay in range and the closed state is below its threshold. *)
Record cb_ok (cb : circuitBreaker) : Prop := {
  cb_threshold : 0 < FailureThreshold (cb_cfg cb);
  cb_recovery : 0 < RecoveryTimeout (cb_cfg cb);
  cb_max : 0 < HalfOpenMaxRequests (cb_cfg cb);
  cb_slots : 0 <= halfAllowed cb <= HalfOpenMaxRequests (cb_cfg cb);
  cb_failures : 0 <= failures cb;
  cb_closed : state cb = CBClosed -> failures cb < FailureThreshold (cb_cfg cb)
}.

Ltac cb_solve := split; cbn in *; (lia || done || discriminate || (intros; lia) || auto).

Lemma NewCircuitBreaker_ok cfg cb : NewCircuitBreaker cfg = Some cb -> cb_ok cb /\ state cb = CBClosed.
Proof.
  unfold NewCircuitBreaker. destruct (cb_Enabled cfg); [|done]. cbn [negb]. intros [= <-].
  assert (forall x d, 0 < d -> 0 < positive x d) as Hpos.
  { intros x d Hd. unfold positive. destruct (Z.leb_spec x 0); lia. }
  pose proof (Hpos (FailureThreshold cfg) 5 eq_refl).
  pose proof (Hpos (RecoveryTimeout cfg) (30 * Second) eq_refl).
  pose proof (Hpos (HalfOpenMaxRequests cfg) 1 eq_refl).
  split; [|done]. split; cbn -[positive Second]; intros; lia.
Qed.

Lemma tryTransition_ok cb now : cb_ok cb -> cb_ok (tryTransition cb now).
Proof.
  intros [Ht Hr Hm Hs Hf Hc]. unfold tryTransition. destruct (state cb) eqn:E; [by split; rewrite ?E; auto| |].
  - destruct (_ <=? _); [cb_solve|by split; rewrite ?E].
  - destruct (_ && _); [cb_solve|by split; rewrite ?E].
Qed.

Lemma beforeRequest_ok cb now : cb_ok cb -> cb_ok (fst (beforeRequest cb now)).
Proof.
  intros Hok. unfold beforeRequest. pose proof (tryTransition_ok cb now Hok) as Hok'.
  destruct (state (tryTransition cb now)) eqn:E; [done..|].
  destruct (_ <=? _) eqn:Hh; [done|]. destruct Hok' as [Ht Hr Hm Hs Hf Hc]. cb_solve.
Qed.

Lemma count_ok cb now f : cb_ok cb -> cb_ok (count cb now f).
Proof. intros [Ht Hr Hm Hs Hf Hc]. by split. Qed.

Lemma recordOutcome_ok cb now err : cb_ok cb -> cb_ok (recordOutcome cb now err).
Proof.
  intros Hok. unfold recordOutcome.
  pose proof (count_ok cb now (isBackendFailure err) Hok) as Hok'.
  generalize dependent (count cb now (isBackendFailure err)). intros cb' [Ht Hr Hm Hs Hf Hc]. clear Hok. destruct err as [e|].
  - destruct (negb _).
    + destruct (bool_decide (state cb' = CBHalfOpen)) eqn:E; cbn [andb].
      * apply bool_decide_eq_true in E. destruct (_ <? _) eqn:Hl; [|by split].
        split; cbn; rewrite ?E; try done; lia.
      * by split.
    + destruct (state cb') eqn:E; [destruct (_ <=? _) eqn:Hl|..]; split; cbn; try done; lia.
  - destruct (state cb') eqn:E; [| |]; split; cbn; try done; try lia; by rewrite E.
Qed.

Lemma begin_call_fst b cb m now : fst (begin_call b cb m now) = fst (beforeRequest cb now).
Proof. unfold begin_call. by destruct (beforeRequest cb now) as [cb' [e|]]. Qed.

Lemma exec_ok b s e : cb_ok (fst s) -> cb_ok (fst (exec b s e)).
Proof.
  destruct s as [cb n], e as [m now|now err|now|now]; cbn; intros Hok.
  - pose proof (begin_call_fst b cb m now) as Hf.
    destruct (begin_call b cb m now) as [cb' [err|]]; cbn in *; subst; by apply beforeRequest_ok.
  - destruct n; [done|]. by apply recordOutcome_ok.
  - by apply tryTransition_ok.
  - destruct Hok. by split.
Qed.

Lemma execs_inv b (P : system -> Prop) :
  (forall s e, P s -> P (exec b s e)) -> forall es s, P s -> P (execs b s es).
Proof. intros Hp es. induction es as [|e es IH]; intros s Hs; [done|]. by apply IH, Hp. Qed.

(** Whatever the interleaving of requests, their outcomes and observations, a breaker
    built by [NewCircuitBreaker] keeps its probe slots between 0 and the configured
    maximum and is closed only below the failure threshold. *)
Theorem breaker_invariant b cfg cb es :
  NewCircuitBreaker cfg = Some cb -> cb_ok (fst (execs b (cb, 0%nat) es)).
Proof.
  intros [Hok _]%NewCircuitBreaker_ok.
  apply (execs_inv b (fun s => cb_ok (fst s))); [intros s e; apply exec_ok|done].
Qed.

Definition test_cfg : CBConfig := {|
  FailureThreshold := 2; RecoveryTimeout := 0; HalfOpenMaxRequests := 0; cb_Enabled := true |}.

Definition test_cb : circuitBreaker := default
  {| cb_cfg := test_cfg; state := CBOpen; lastFailure := 0; failures := 0; halfAllowed := 0;
     stateChanged := 0; window := ∅ |} (NewCircuitBreaker test_cfg).

Lemma breaker_invariant_witness :
  cb_ok (fst (execs {| generation_bound := false; supports_ssec := false |} (test_cb, 0%nat)
    [EBegin Get 1; EBegin Put 2; EEnd 3 (Some (NewError "io")); EEnd 4 (Some (NewError "io"))])).
Proof. by apply (breaker_invariant _ test_cfg). Defined.

(** *** Opening *)

Definition outcomes (cb : circuitBreaker) (l : list (time * option error)) : circuitBreaker :=
  fold_left (fun cb o => recordOutcome cb (fst o) (snd o)) l cb.

(** The breaker opens exactly at the threshold: a closed breaker that sees only backend
    failures is closed as long as their number, with those already counted, is below the
    threshold, and open from then on. *)
Theorem opens_at_threshold l cb :
  cb_ok cb -> state cb = CBClosed ->
  (forall o, o ∈ l -> isBackendFailure (snd o) = true) ->
  state (outcomes cb l) =
    if failures cb + Z.of_nat (length l) <? FailureThreshold (cb_cfg cb) then CBClosed else CBOpen.
Proof.
  revert cb. induction l as [|[now err] l IH]; intros cb Hok Hst Hall.
  - pose proof (cb_closed _ Hok Hst).
    replace (_ <? _) with true; [done|symmetry; apply Z.ltb_lt; cbn [length]; lia].
  - assert (isBackendFailure err = true) as He by (apply (Hall (now, err)); by left).
    assert (forall o, o ∈ l -> isBackendFailure (snd o) = true) as Hall' by (intros o Ho; apply Hall; by right).
    cbn [outcomes fold_left fst snd]. fold (outcomes (recordOutcome cb now err) l).
    pose proof (recordOutcome_ok cb now err Hok) as Hok'.
    assert (failures (recordOutcome cb now err) = failures cb + 1 /\
            cb_cfg (recordOutcome cb now err) = cb_cfg cb /\
            state (recordOutcome cb now err) =
              if FailureThreshold (cb_cfg cb) <=? failures cb + 1 then CBOpen else CBClosed) as (Hf & Hc & Hs).
    { unfold recordOutcome. rewrite He. destruct err as [err|]; [|discriminate He]. cbn. rewrite Hst. by destruct (_ <=? _). }
    destruct (Z.leb_spec (FailureThreshold (cb_cfg cb)) (failures cb + 1)) as [Hle|Hlt].
    + replace (_ <? _) with false by (symmetry; apply Z.ltb_ge; cbn [length]; lia).
      clear Hok' Hf Hc Hok Hst. revert Hs Hall'. generalize (recordOutcome cb now err).
      clear. induction l as [|[now err] l IH]; intros cb Hs Hall; [done|]. cbn.
      apply IH; [|intros o Ho; apply Hall; by right].
      assert (isBackendFailure err = true) as He by (apply (Hall (now, err)); by left).
      unfold recordOutcome. rewrite He. destruct err as [err|]; [|discriminate He]. cbn. by rewrite Hs.
    + rewrite IH, Hf, Hc by done.
      replace (failures cb + Z.of_nat (length ((now, err) :: l)))
        with (failures cb + 1 + Z.of_nat (length l)) by (cbn [length]; lia). done.
Qed.

Lemma opens_at_threshold_witness :
  state (outcomes test_cb [(1, Some (NewError "io")); (2, Some (NewError "io"))]) = CBOpen.
Proof.
  rewrite (opens_at_threshold [(1, Some (NewError "io")); (2, Some (NewError "io"))] test_cb).
  - reflexivity.
  - by apply (NewCircuitBreaker_ok test_cfg).
  - reflexivity.
  - intros o Ho. rewrite !elem_of_cons in Ho. by destruct Ho as [->|[->|Ho%not_elem_of_nil]].
Defined.

(** Client and object-state errors cannot open the breaker: a closed breaker stays
    closed through any outcomes that are successes or expected storage errors, and
    failures counted before a success are forgotten by it. *)
Theorem client_errors_never_open l cb :
  state cb = CBClosed -> (forall o, o ∈ l -> isBackendFailure (snd o) = false) ->
  state (outcomes cb l) = CBClosed /\
  failures (outcomes cb l) = if existsb (fun o => negb (bool_decide (is_Some (snd o)))) l
                             then 0 else failures cb.
Proof.
  revert cb. induction l as [|[now err] l IH]; intros cb Hst Hall; [done|].
  assert (isBackendFailure err = false) as He by (apply (Hall (now, err)); by left).
  cbn [outcomes fold_left fst snd]. fold (outcomes (recordOutcome cb now err) l).
  destruct (IH (recordOutcome cb now err)) as [Hs Hf].
  - unfold recordOutcome. rewrite He. destruct err; cbn; by rewrite Hst.
  - intros o Ho. apply Hall. by right.
  - split; [done|]. rewrite Hf. cbn. unfold recordOutcome. rewrite He.
    destruct err; cbn; rewrite Hst; cbn; by destruct (existsb _ l).
Qed.

Lemma client_errors_never_open_witness :
  state (outcomes test_cb [(1, Some (Sentinel StorageErrNotFound)); (2, None)]) = CBClosed /\
  failures (outcomes test_cb [(1, Some (Sentinel StorageErrNotFound)); (2, None)]) = 0.
Proof.
  apply (client_errors_never_open [(1, Some (Sentinel StorageErrNotFound)); (2, None)] test_cb).
  - reflexivity.
  - intros o Ho. rewrite !elem_of_cons in Ho. by destruct Ho as [->|[->|Ho%not_elem_of_nil]].
Defined.

(** *** Open and half-open *)

(** While open, the breaker fails fast: until the recovery time has passed since it
    opened, no interleaving of requests starts a backend call or changes the state,
    late outcomes of earlier calls included. *)
Theorem open_fails_fast b cb n es :
  state cb = CBOpen ->
  (forall e, e ∈ es -> event_time e - lastFailure cb < RecoveryTimeout (cb_cfg cb)) ->
  let s := execs b (cb, n) es in
  state (fst s) = CBOpen /\ lastFailure (fst s) = lastFailure cb /\ (snd s <= n)%nat /\
  (forall m now, now - lastFailure cb < RecoveryTimeout (cb_cfg cb) ->
     snd (begin_call b (fst s) m now) = Some (Sentinel ErrBackendUnavailable)).
Proof.
  intros Hst Hes.
  assert (forall cb' t, state cb' = CBOpen -> lastFailure cb' = lastFailure cb -> cb_cfg cb' = cb_cfg cb ->
    t - lastFailure cb < RecoveryTimeout (cb_cfg cb) -> tryTransition cb' t = cb') as Htry.
  { intros cb' t Hs Hl Hc Ht. unfold tryTransition. rewrite Hs, Hl, Hc.
    by destruct (Z.leb_spec (RecoveryTimeout (cb_cfg cb)) (t - lastFailure cb)); [lia|]. }
  assert (forall es cb' n', state cb' = CBOpen -> lastFailure cb' = lastFailure cb ->
    cb_cfg cb' = cb_cfg cb -> (n' <= n)%nat ->
    (forall e, e ∈ es -> event_time e - lastFailure cb < RecoveryTimeout (cb_cfg cb)) ->
    let s := execs b (cb', n') es in
    state (fst s) = CBOpen /\ lastFailure (fst s) = lastFailure cb /\ cb_cfg (fst s) = cb_cfg cb /\
    (snd s <= n)%nat) as Hrun.
  { clear es Hes. induction es as [|e es IH]; intros cb' n' Hs Hl Hc Hn Hes; [done|].
    assert (event_time e - lastFailure cb < RecoveryTimeout (cb_cfg cb)) as He by (apply Hes; by left).
    assert (forall e, e ∈ es -> event_time e - lastFailure cb < RecoveryTimeout (cb_cfg cb)) as Hes'
      by (intros e' He'; apply Hes; by right).
    destruct e as [m t|t err|t|t]; cbn in He; cbn -[tryTransition begin_call recordOutcome].
    - unfold begin_call, beforeRequest. rewrite (Htry cb' t), Hs by done. by apply IH.
    - destruct n' as [|n']; [by apply IH|].
      apply IH; try done; try lia; unfold recordOutcome; destruct err; cbn -[isBackendFailure];
        rewrite ?Hs; try done; destruct (negb _); cbn; rewrite ?Hs; done.
    - rewrite (Htry cb' t) by done. by apply IH.
    - by apply IH. }
  cbv zeta. destruct (Hrun es cb n Hst eq_refl eq_refl (le_n n) Hes) as (Hs & Hl & Hc & Hn).
  split; [done|]. split; [done|]. split; [done|]. intros m now Hnow.
  unfold begin_call, beforeRequest. by rewrite (Htry _ now), Hs.
Qed.

Definition open_cb : circuitBreaker :=
  outcomes test_cb [(1, Some (NewError "io")); (2, Some (NewError "io"))].

Lemma open_fails_fast_witness :
  let s := execs {| generation_bound := true; supports_ssec := true |} (open_cb, 1%nat)
             [EBegin Get 3; EEnd 4 None; EState 5] in
  state (fst s) = CBOpen /\ lastFailure (fst s) = lastFailure open_cb /\ (snd s <= 1)%nat /\
  (forall m now, now - lastFailure open_cb < RecoveryTimeout (cb_cfg open_cb) ->
     snd (begin_call {| generation_bound := true; supports_ssec := true |} (fst s) m now) =
       Some (Sentinel ErrBackendUnavailable)).
Proof.
  apply (open_fails_fast {| generation_bound := true; supports_ssec := true |} open_cb 1
           [EBegin Get 3; EEnd 4 None; EState 5]).
  - by vm_compute.
  - assert (lastFailure open_cb = 2) as -> by (vm_compute; reflexivity).
    assert (RecoveryTimeout (cb_cfg open_cb) = 30000000000) as -> by (vm_compute; reflexivity).
    intros e He. rewrite !elem_of_cons in He.
    destruct He as [->|[->|[->|He]]]; cbn; [lia..|by apply not_elem_of_nil in He].
Defined.

(** Recovery: once the recovery time has passed, an open breaker lets a request
    through as a probe; its success closes the breaker and clears the count, its failure
    opens it again from that moment, and an expected storage error decides nothing and
    gives the probe slot back. *)
Theorem probe_decides b cb m before after inner :
  cb_ok cb -> state cb = CBOpen ->
  RecoveryTimeout (cb_cfg cb) <= before - lastFailure cb -> available b m = true ->
  let '(cb', err) := call b cb m before after inner in
  err = inner /\
  match inner with
  | None => state cb' = CBClosed /\ failures cb' = 0
  | Some _ =>
      if isBackendFailure inner then state cb' = CBOpen /\ lastFailure cb' = after
      else state cb' = CBHalfOpen /\ halfAllowed cb' = HalfOpenMaxRequests (cb_cfg cb)
  end.
Proof.
  intros Hok Hst Hrec Hav. pose proof (cb_max _ Hok) as Hmax.
  unfold call, begin_call, beforeRequest, tryTransition. rewrite Hst.
  replace (_ <=? before - lastFailure cb) with true by (symmetry; apply Z.leb_le; lia).
  cbn [state cb_set halfAllowed].
  replace (HalfOpenMaxRequests (cb_cfg cb) <=? 0) with false by (symmetry; apply Z.leb_gt; lia).
  rewrite Hav. split; [done|]. unfold recordOutcome. destruct inner as [e|]; [|done].
  destruct (isBackendFailure (Some e)); cbn; [done|].
  replace (HalfOpenMaxRequests (cb_cfg cb) - 1 <? HalfOpenMaxRequests (cb_cfg cb)) with true
    by (symmetry; apply Z.ltb_lt; lia).
  rewrite bool_decide_eq_true_2 by done. split; [done|]. cbn -[Z.add Z.sub]. lia.
Qed.

Lemma open_cb_ok : cb_ok open_cb.
Proof.
  apply recordOutcome_ok, recordOutcome_ok. by apply (NewCircuitBreaker_ok test_cfg).
Qed.

Lemma probe_decides_witness :
  let '(cb', err) := call {| generation_bound := true; supports_ssec := true |} open_cb Get
                       (60 * Second) (61 * Second) None in
  err = None /\ state cb' = CBClosed /\ failures cb' = 0.
Proof.
  apply (probe_decides {| generation_bound := true; supports_ssec := true |} open_cb Get
           (60 * Second) (61 * Second) None open_cb_ok).
  - by vm_compute.
  - by vm_compute.
  - reflexivity.
Defined.

(** All probe slots taken and nothing in flight. *)
Definition wedged (s : system) : Prop :=
  state (fst s) = CBHalfOpen /\ halfAllowed (fst s) = 0 /\ 0 < HalfOpenMaxRequests (cb_cfg (fst s)) /\
  snd s = 0%nat.

Lemma wedged_try cb t : wedged (cb, 0%nat) -> tryTransition cb t = cb.
Proof.
  intros (Hs & Hh & Hm & _). cbn in *. unfold tryTransition. rewrite Hs, Hh.
  by replace (0 =? _) with false by (symmetry; apply Z.eqb_neq; lia).
Qed.

Lemma wedged_begin b cb m t : wedged (cb, 0%nat) ->
  begin_call b cb m t = (cb, Some (Sentinel ErrBackendUnavailable)).
Proof.
  intros Hw. unfold begin_call, beforeRequest. rewrite wedged_try by done.
  destruct Hw as (Hs & Hh & _). cbn in *. by rewrite Hs, Hh.
Qed.

Lemma wedged_exec b s e : wedged s -> wedged (exec b s e).
Proof.
  destruct s as [cb n]. intros Hw. assert (n = 0%nat) as -> by apply Hw.
  destruct e as [m t|t err|t|t]; cbn.
  - by rewrite wedged_begin.
  - done.
  - by rewrite wedged_try.
  - exact Hw.
Qed.

(** A probe slot taken by a request the backend does not support is never given back:
    after two failures and the recovery time, one [GetWithOptions] on a backend without
    SSE-C leaves the breaker half-open with no slot, and from there it refuses every
    request at every later time, whatever happens. *)
Theorem unsupported_probe_wedges :
  let b := {| generation_bound := false; supports_ssec := false |} in
  let s := execs b (test_cb, 0%nat)
    [EBegin Get 1; EEnd 1 (Some (NewError "io")); EBegin Get 2; EEnd 2 (Some (NewError "io"));
     EBegin GetWithOptions (60 * Second)] in
  wedged s /\
  forall es m now, snd (begin_call b (fst (execs b s es)) m now) = Some (Sentinel ErrBackendUnavailable).
Proof.
  intros b s. assert (wedged s) as Hw by (vm_compute; repeat split).
  split; [done|]. intros es m now.
  pose proof (execs_inv b wedged (wedged_exec b) es s Hw) as Hw'.
  destruct (execs b s es) as [cb n]. assert (n = 0%nat) as -> by apply Hw'.
  cbn [fst]. by rewrite (wedged_begin b cb m now Hw').
Qed.
