(* ===== verification/ByteRange.v ===== *)
(** * HTTP byte ranges (src/internal/service/range.go)

    Parsing of a Range header against an object size in int64 arithmetic, and slicing
    of the object's byte stream.  [serve] is the range semantics over unbounded
    numbers that the parser is proved to implement. *)

From Stdlib Require Import Lia Bool ZArith Ascii.
From stdpp Require Import base strings list numbers.
From S2P Require Import Prelude GoStrings GoErrors.

Open Scope Z_scope.

(** ** The code *)

Definition isDigit (a : ascii) : bool := (48 <=? byte_val a) && (byte_val a <=? 57).

(** The loop of [parseRangeDecimal]; int64 division truncates. *)
Fixpoint rangeDigits (value : string) (number : Z) : result Z :=
  match value with
  | EmptyString => Ok number
  | String a rest =>
      if negb (isDigit a) then Err (NewError "invalid range number")
      else
        let digit := byte_val a - 48 in
        rangeDigits rest (if Z.quot (MaxInt64 - digit) 10 <? number then MaxInt64
                          else wrap64 (number * 10 + digit))
  end.

Definition parseRangeDecimal (value : string) : result Z :=
  if (value =s "") then Err (NewError "empty range number") else rangeDigits value 0.

Definition parseRangeSpec (spec : string) : result (Z * Z) :=
  match IndexByte spec "-"%char with
  | None => Err (NewError "no dash in range")
  | Some dash =>
      let startStr := TrimSpace (slice spec 0 dash) in
      let endStr := TrimSpace (from spec (dash + 1)) in
      if (startStr =s "") then
        match parseRangeDecimal endStr with
        | Ok n => if n <=? 0 then Err (NewError "invalid suffix range") else Ok (- n, 0)
        | Err _ => Err (NewError "invalid suffix range")
        end
      else match parseRangeDecimal startStr with
      | Err _ => Err (NewError "invalid start")
      | Ok start =>
          if start <? 0 then Err (NewError "invalid start")
          else if (endStr =s "") then Ok (start, -1)
          else match parseRangeDecimal endStr with
          | Err _ => Err (NewError "invalid end")
          | Ok end_ => Ok (start, end_)
          end
      end
  end.

(** [None] is [errUnsatisfiable]. *)
Definition clampRange (start end_ size : Z) : option (Z * Z) :=
  if start <? 0 then
    let n := - start in
    if size =? 0 then None
    else let n := if size <? n then size else n in Some (size - n, n)
  else if size <=? start then None
  else if end_ <? 0 then Some (start, size - start)
  else
    let end_ := if size <=? end_ then size - 1 else end_ in
    if end_ <? start then None else Some (start, wrap64 (end_ - start + 1)).

(** The three answers of [ParseByteRange]. *)
Inductive range_answer :=
| Full                                (* serve the whole object (200) *)
| Unsatisfiable                       (* reply 416 *)
| Partial (offset length : Z).        (* serve the slice (206) *)

Definition ParseByteRange (header : string) (size : Z) : range_answer :=
  if (size <? 0) || negb (HasPrefix header "bytes=") then Full
  else
    let spec := TrimSpace (from header 6) in
    let spec := match IndexByte spec ","%char with
                | Some i => TrimSpace (slice spec 0 i)
                | None => spec
                end in
    match parseRangeSpec spec with
    | Err _ => Full
    | Ok (start, end_) =>
        match clampRange start end_ size with
        | None => Unsatisfiable
        | Some (offset, length) => Partial offset length
        end
    end.

(** A stream and its end: [io.CopyN] to discard fails with EOF on a short stream. *)
Definition sliceReadCloser {A} (stream : list A) (offset length : Z) : result (list A) :=
  let skipped :=
    if 0 <? offset then
      if Z.of_nat (List.length stream) <? offset then Err (NewError "EOF")
      else Ok (drop (Z.to_nat offset) stream)
    else Ok stream in
  let! rest := skipped in
  if length <? 0 then Ok rest else Ok (take (Z.to_nat length) rest).

(** ** Semantics over unbounded numbers *)

Inductive byte_range :=
| From (first : Z)
| FromTo (first last : Z)
| Suffix (n : Z).

Definition serve (r : byte_range) (size : Z) : range_answer :=
  match r with
  | From a => if a <? size then Partial a (size - a) else Unsatisfiable
  | FromTo a b => if (a <? size) && (a <=? b) then Partial a (Z.min b (size - 1) - a + 1) else Unsatisfiable
  | Suffix n => if n <=? 0 then Full
                else if size =? 0 then Unsatisfiable
                else Partial (size - Z.min n size) (Z.min n size)
  end.

Fixpoint decimal (s : string) (acc : Z) : Z :=
  match s with
  | EmptyString => acc
  | String a rest => decimal rest (acc * 10 + (byte_val a - 48))
  end.

Definition number (s : string) : Prop := s <> ""%string /\ all_bytes isDigit s = true.

(** ** Decimal numbers saturate *)

Lemma decimal_mono s acc : 0 <= acc -> all_bytes isDigit s = true -> acc <= decimal s acc.
Proof.
  revert acc. induction s as [|a s IH]; intros acc Hacc Hd; cbn; [lia|].
  cbn in Hd. apply andb_true_iff in Hd as [Ha Hs]. unfold isDigit in Ha.
  assert (acc <= acc * 10 + (byte_val a - 48)) by lia.
  specialize (IH (acc * 10 + (byte_val a - 48)) ltac:(lia) Hs). lia.
Qed.

Lemma decimal_mono_acc s a b : a <= b -> decimal s a <= decimal s b.
Proof. revert a b. induction s as [|c s IH]; intros a b Hab; cbn; [lia|]. apply IH. lia. Qed.

Lemma rangeDigits_spec s acc :
  0 <= acc <= MaxInt64 -> all_bytes isDigit s = true ->
  rangeDigits s acc = Ok (Z.min (decimal s acc) MaxInt64).
Proof.
  revert acc. induction s as [|a s IH]; intros acc Hacc Hd; cbn; [by rewrite Z.min_l by lia|].
  cbn in Hd. apply andb_true_iff in Hd as [Ha Hs]. rewrite Ha. cbn [negb].
  unfold isDigit in Ha. set (d := byte_val a - 48). assert (0 <= d <= 9) as Hdig by (unfold d; lia).
  rewrite Z.quot_div_nonneg by (unfold MaxInt64; lia).
  assert (forall x, (MaxInt64 - d) / 10 < x <-> MaxInt64 < x * 10 + d) as Hdiv.
  { intros x. pose proof (Z.div_mod (MaxInt64 - d) 10). pose proof (Z.mod_pos_bound (MaxInt64 - d) 10).
    split; lia. }
  destruct (Z.ltb_spec ((MaxInt64 - d) / 10) acc) as [Hov|Hok].
  - apply Hdiv in Hov. rewrite IH by (done || unfold MaxInt64; lia).
    pose proof (decimal_mono s MaxInt64 ltac:(unfold MaxInt64; lia) Hs).
    pose proof (decimal_mono_acc s MaxInt64 (acc * 10 + d)). f_equal. lia.
  - assert (acc * 10 + d <= MaxInt64).
    { destruct (Z.le_gt_cases (acc * 10 + d) MaxInt64) as [|Hgt]; [done|].
      apply Z.lt_gt, Z.gt_lt, Hdiv in Hgt. lia. }
    rewrite wrap64_id by (unfold int64, MinInt64; lia). apply IH; [lia|done].
Qed.

Lemma parseRangeDecimal_spec s : number s ->
  parseRangeDecimal s = Ok (Z.min (decimal s 0) MaxInt64) /\ 0 <= decimal s 0.
Proof.
  intros [Hne Hd]. unfold parseRangeDecimal. apply streqb_false in Hne. rewrite Hne.
  split; [apply rangeDigits_spec; [unfold MaxInt64; lia|done]|]. by apply decimal_mono.
Qed.

Lemma rangeDigits_digits s acc n : rangeDigits s acc = Ok n -> all_bytes isDigit s = true.
Proof.
  revert acc. induction s as [|a s IH]; intros acc; cbn; [done|].
  destruct (isDigit a); cbn; [apply IH|done].
Qed.

Lemma parseRangeDecimal_bounds s n : parseRangeDecimal s = Ok n -> 0 <= n <= MaxInt64.
Proof.
  unfold parseRangeDecimal. destruct (s =s ""); [done|]. intros Hr.
  pose proof (rangeDigits_digits _ _ _ Hr) as Hd.
  rewrite rangeDigits_spec in Hr by (done || unfold MaxInt64; lia). injection Hr as <-.
  pose proof (decimal_mono s 0 ltac:(lia) Hd). unfold MaxInt64 in *. lia.
Qed.

Lemma parseRangeSpec_bounds spec start end_ : parseRangeSpec spec = Ok (start, end_) ->
  (- MaxInt64 <= start < 0 /\ end_ = 0) \/ (0 <= start <= MaxInt64 /\ -1 <= end_ <= MaxInt64).
Proof.
  unfold parseRangeSpec. destruct (IndexByte spec _) as [dash|]; [|done].
  destruct (TrimSpace _ =s "").
  - destruct (parseRangeDecimal _) as [n|] eqn:Hn; [|done]. apply parseRangeDecimal_bounds in Hn.
    destruct (Z.leb_spec n 0); [done|]. intros [= <- <-]. left. lia.
  - destruct (parseRangeDecimal (TrimSpace (slice _ _ _))) as [n|] eqn:Hn; [|done].
    apply parseRangeDecimal_bounds in Hn. destruct (Z.ltb_spec n 0); [done|].
    destruct (TrimSpace _ =s ""); [intros [= <- <-]; right; unfold MaxInt64 in *; lia|].
    destruct (parseRangeDecimal _) as [e|] eqn:He; [|done]. apply parseRangeDecimal_bounds in He.
    intros [= <- <-]. right. lia.
Qed.

Lemma clampRange_bounds start end_ size offset length :
  0 <= size <= MaxInt64 ->
  (- MaxInt64 <= start < 0 /\ end_ = 0) \/ (0 <= start <= MaxInt64 /\ -1 <= end_ <= MaxInt64) ->
  clampRange start end_ size = Some (offset, length) ->
  0 <= offset /\ 0 < length /\ offset + length <= size.
Proof.
  intros Hsize Hb. unfold clampRange. destruct (Z.ltb_spec start 0).
  - destruct (Z.eqb_spec size 0); [done|]. destruct (Z.ltb_spec size (- start)); intros [= <- <-]; lia.
  - destruct (Z.leb_spec size start); [done|]. destruct (Z.ltb_spec end_ 0); [intros [= <- <-]; lia|].
    destruct (Z.leb_spec size end_).
    + destruct (Z.ltb_spec (size - 1) start); [done|]. intros [= <- <-].
      rewrite wrap64_id by (unfold int64, MinInt64, MaxInt64 in *; lia). lia.
    + destruct (Z.ltb_spec end_ start); [done|]. intros [= <- <-].
      rewrite wrap64_id by (unfold int64, MinInt64, MaxInt64 in *; lia). lia.
Qed.

(** Whatever the header, a range answered with 206 lies inside the object: it starts at
    a valid offset, is not empty and ends within the size, with no int64 overflow. *)
Theorem ParseByteRange_in_bounds header size offset length :
  size <= MaxInt64 -> ParseByteRange header size = Partial offset length ->
  0 <= offset /\ 0 < length /\ offset + length <= size.
Proof.
  intros Hmax. unfold ParseByteRange. destruct (Z.ltb_spec size 0); cbn [orb]; [done|].
  destruct (negb _); [done|]. destruct (parseRangeSpec _) as [[start end_]|] eqn:Hs; [|done].
  apply parseRangeSpec_bounds in Hs. destruct (clampRange _ _ _) as [[o l]|] eqn:Hc; [|done].
  intros [= <- <-]. eapply clampRange_bounds; [|exact Hs|exact Hc]. lia.
Qed.

Lemma ParseByteRange_in_bounds_witness :
  0 <= 2 /\ 0 < 3 /\ 2 + 3 <= 5.
Proof.
  apply (ParseByteRange_in_bounds "bytes= 2-99999999999999999999" 5); [unfold MaxInt64; lia|by vm_compute].
Defined.

(** ** The parser implements the range semantics *)

Lemma digit_plain s : all_bytes isDigit s = true -> all_bytes plain s = true.
Proof.
  induction s as [|a s IH]; [done|]. cbn. intros [Ha Hs]%andb_true_iff. rewrite IH by done.
  rewrite andb_true_r. unfold isDigit in Ha. unfold plain, space1. apply andb_true_iff. lia.
Qed.

Lemma digit_no_byte s c : all_bytes isDigit s = true -> isDigit c = false -> IndexByte s c = None.
Proof.
  intros Hd Hc. induction s as [|a s IH]; [done|]. cbn in *. apply andb_true_iff in Hd as [Ha Hs].
  destruct (Ascii.eqb_spec a c) as [->|]; [congruence|]. by rewrite IH.
Qed.

Lemma parseRangeSpec_split a b :
  all_bytes isDigit a = true -> all_bytes isDigit b = true ->
  parseRangeSpec (a ++ String "-" b)%string =
    if (a =s "") then
      match parseRangeDecimal b with
      | Ok n => if n <=? 0 then Err (NewError "invalid suffix range") else Ok (- n, 0)
      | Err _ => Err (NewError "invalid suffix range")
      end
    else match parseRangeDecimal a with
    | Err _ => Err (NewError "invalid start")
    | Ok start =>
        if start <? 0 then Err (NewError "invalid start")
        else if (b =s "") then Ok (start, -1)
        else match parseRangeDecimal b with
        | Err _ => Err (NewError "invalid end")
        | Ok end_ => Ok (start, end_)
        end
    end.
Proof.
  intros Ha Hb. unfold parseRangeSpec.
  rewrite IndexByte_app by by apply IndexByte_None, digit_no_byte.
  by rewrite slice_app, from_app_sep, !TrimSpace_plain by by apply digit_plain.
Qed.

Lemma ParseByteRange_spec a b size :
  0 <= size -> all_bytes isDigit a = true -> all_bytes isDigit b = true ->
  ParseByteRange ("bytes=" ++ a ++ "-" ++ b) size =
    match parseRangeSpec (a ++ String "-" b) with
    | Err _ => Full
    | Ok (start, end_) =>
        match clampRange start end_ size with
        | None => Unsatisfiable
        | Some (offset, length) => Partial offset length
        end
    end.
Proof.
  intros Hsize Ha Hb. unfold ParseByteRange. rewrite HasPrefix_app.
  destruct (Z.ltb_spec size 0); [lia|]. cbn [orb negb].
  rewrite (from_app "bytes="). change ("-" ++ b)%string with (String "-" b).
  assert (all_bytes plain (a ++ String "-" b)%string = true) as Hp.
  { rewrite all_bytes_app. cbn. by rewrite !digit_plain. }
  rewrite TrimSpace_plain by done.
  assert (IndexByte (a ++ String "-" b)%string ","%char = None) as ->; [|done].
  apply IndexByte_None. rewrite <- (string_app_nil a) in *.
  intros Hin. clear Hp. rewrite string_app_nil in *.
  assert (forall x, x ∈ String.list_ascii_of_string (a ++ String "-" b)%string ->
    isDigit x = true \/ x = "-"%char) as Hx.
  { clear Hin. intros x. induction a as [|c a IH]; cbn.
    - rewrite elem_of_cons. intros [->|Hx]; [by right|left]. rewrite all_bytes_list, forallb_forall in Hb.
      apply Hb. by apply list_elem_of_In.
    - cbn in Ha. apply andb_true_iff in Ha as [Hc Ha]. rewrite elem_of_cons.
      intros [->|Hx]; [by left|by apply IH]. }
  by destruct (Hx _ Hin).
Qed.

(** On every well-formed header the parser implements the range semantics over
    unbounded numbers: [first-], [first-last] and [-suffix] with any number of digits are
    answered as [serve] says, saturation at the int64 maximum notwithstanding. *)
Theorem ParseByteRange_serves a b size :
  0 <= size <= MaxInt64 -> number a -> number b ->
  ParseByteRange ("bytes=" ++ a ++ "-") size = serve (From (decimal a 0)) size /\
  ParseByteRange ("bytes=" ++ a ++ "-" ++ b) size = serve (FromTo (decimal a 0) (decimal b 0)) size /\
  ParseByteRange ("bytes=-" ++ b) size = serve (Suffix (decimal b 0)) size.
Proof.
  intros Hsize Ha Hb.
  destruct (parseRangeDecimal_spec a Ha) as [Hpa Hda], (parseRangeDecimal_spec b Hb) as [Hpb Hdb].
  destruct Ha as [Hna Ha], Hb as [Hnb Hb]. apply streqb_false in Hna, Hnb.
  split; [|split].
  - change ("bytes=" ++ a ++ "-")%string with ("bytes=" ++ a ++ "-" ++ "")%string.
    rewrite ParseByteRange_spec, parseRangeSpec_split, Hna, Hpa by (done || lia).
    destruct (Z.ltb_spec (Z.min (decimal a 0) MaxInt64) 0); [lia|]. cbn -[MaxInt64 Z.min].
    unfold clampRange. destruct (Z.ltb_spec (Z.min (decimal a 0) MaxInt64) 0); [lia|].
    destruct (Z.leb_spec size (Z.min (decimal a 0) MaxInt64)), (Z.ltb_spec (decimal a 0) size);
      try lia; [done|]. cbn -[MaxInt64 Z.min Z.sub]. rewrite Z.min_l by lia. done.
  - rewrite ParseByteRange_spec, parseRangeSpec_split, Hna, Hnb, Hpa, Hpb by (done || lia).
    destruct (Z.ltb_spec (Z.min (decimal a 0) MaxInt64) 0); [lia|]. unfold clampRange, serve.
    destruct (Z.ltb_spec (Z.min (decimal a 0) MaxInt64) 0); [lia|].
    destruct (Z.leb_spec size (Z.min (decimal a 0) MaxInt64)), (Z.ltb_spec (decimal a 0) size);
      try lia; [done|]. cbn [andb].
    destruct (Z.ltb_spec (Z.min (decimal b 0) MaxInt64) 0); [lia|].
    destruct (Z.leb_spec size (Z.min (decimal b 0) MaxInt64)).
    + destruct (Z.ltb_spec (size - 1) (Z.min (decimal a 0) MaxInt64)), (Z.leb_spec (decimal a 0) (decimal b 0));
        try lia. rewrite wrap64_id by (unfold int64, MinInt64, MaxInt64 in *; lia). f_equal; lia.
    + destruct (Z.ltb_spec (Z.min (decimal b 0) MaxInt64) (Z.min (decimal a 0) MaxInt64)),
        (Z.leb_spec (decimal a 0) (decimal b 0)); try lia; [done|].
      rewrite wrap64_id by (unfold int64, MinInt64, MaxInt64 in *; lia). f_equal; lia.
  - change ("bytes=-" ++ b)%string with ("bytes=" ++ "" ++ "-" ++ b)%string.
    rewrite ParseByteRange_spec, parseRangeSpec_split, Hpb by (done || lia). cbn [String.eqb serve].
    destruct (Z.leb_spec (Z.min (decimal b 0) MaxInt64) 0), (Z.leb_spec (decimal b 0) 0);
      try (unfold MaxInt64 in *; lia); [done|].
    unfold clampRange. destruct (Z.ltb_spec (- Z.min (decimal b 0) MaxInt64) 0); [|lia].
    destruct (Z.eqb_spec size 0); [done|].
    destruct (Z.ltb_spec size (- - Z.min (decimal b 0) MaxInt64)); f_equal; lia.
Qed.

Lemma ParseByteRange_serves_witness :
  ParseByteRange "bytes=7-" 10 = serve (From 7) 10 /\
  ParseByteRange "bytes=7-18446744073709551616" 10 = serve (FromTo 7 18446744073709551616) 10 /\
  ParseByteRange "bytes=-18446744073709551616" 10 = serve (Suffix 18446744073709551616) 10.
Proof.
  refine (ParseByteRange_serves "7" "18446744073709551616" 10 _ _ _);
    [unfold MaxInt64; lia|by split|by split].
Defined.

(** ** Slicing *)

(** What a range request streams is the requested slice: when the parser answers a
    range for the object's size, slicing the object's stream succeeds and yields exactly
    [length] bytes, the ones at [offset] and after. *)
Theorem range_streams_slice {A} header (content : list A) offset length :
  Z.of_nat (List.length content) <= MaxInt64 ->
  ParseByteRange header (Z.of_nat (List.length content)) = Partial offset length ->
  exists out, sliceReadCloser content offset length = Ok out /\
    Z.of_nat (List.length out) = length /\
    forall i, (i < Z.to_nat length)%nat -> out !! i = content !! (Z.to_nat offset + i)%nat.
Proof.
  intros Hmax Hp.
  assert (0 <= offset /\ 0 < length /\ offset + length <= Z.of_nat (List.length content)) as (Ho & Hl & Hs).
  { revert Hp. unfold ParseByteRange. destruct (_ || _); [done|].
    destruct (parseRangeSpec _) as [[start end_]|] eqn:Hspec; [|done].
    apply parseRangeSpec_bounds in Hspec. destruct (clampRange _ _ _) as [[o l]|] eqn:Hc; [|done].
    intros [= <- <-]. eapply clampRange_bounds; [|exact Hspec|exact Hc]. lia. }
  exists (take (Z.to_nat length) (drop (Z.to_nat offset) content)). unfold sliceReadCloser.
  assert ((if 0 <? offset then
      if Z.of_nat (List.length content) <? offset then Err (NewError "EOF")
      else Ok (drop (Z.to_nat offset) content)
    else Ok content) = @Ok error _ (drop (Z.to_nat offset) content)) as ->.
  { destruct (Z.ltb_spec 0 offset).
    - by destruct (Z.ltb_spec (Z.of_nat (List.length content)) offset); [lia|].
    - by replace (Z.to_nat offset) with 0%nat by lia. }
  cbn [res_bind]. destruct (Z.ltb_spec length 0); [lia|]. split; [done|]. split.
  - rewrite length_take, length_drop. lia.
  - intros i Hi. by rewrite lookup_take_lt, lookup_drop.
Qed.

Lemma range_streams_slice_witness :
  exists out, sliceReadCloser [10; 11; 12; 13; 14] 1 3 = Ok out /\
    Z.of_nat (List.length out) = 3 /\
    forall i, (i < Z.to_nat 3)%nat -> out !! i = [10; 11; 12; 13; 14] !! (Z.to_nat 1 + i)%nat.
Proof.
  apply (range_streams_slice "bytes=1-3, 4-"); [unfold MaxInt64; cbn; lia|by vm_compute].
Defined.
