(* ===== verification/Jobs.v ===== *)
(** * The background job queue (src/internal/jobs/jobs.go, src/internal/repository/jobs.go)

    The jobs table with its statements (the SQLite dialect), the queue's depth cap, the
    worker's [runOne] split at the handler's execution, the reaper and the backoff.
    [pool_step] interleaves workers, crashes, the reaper and administrators. *)

From Stdlib Require Import Lia Bool ZArith.
From stdpp Require Import base strings list numbers relations.
From S2P Require Import Prelude GoStrings GoTime GoErrors Sql Backoff.

Open Scope Z_scope.

Definition JobPending : string := "pending".
Definition JobRunning : string := "running".
Definition JobSucceeded : string := "succeeded".
Definition JobFailed : string := "failed".

Definition ErrQueueFull : error := Sentinel "jobs.ErrQueueFull".

(** A NULL time is 0, a NULL dedupe key is empty. *)
Record Job := {
  j_ID : Z; j_TenantID : string; j_Type : string; j_Payload : string; j_Status : string;
  j_Priority : Z; j_Attempts : Z; j_MaxAttempts : Z; j_RunAfter : time; j_LastError : string;
  j_Worker : string; j_Result : string; j_DedupeKey : string; j_CreatedAt : time;
  j_UpdatedAt : time; j_StartedAt : time; j_FinishedAt : time
}.

(** The table and its AUTOINCREMENT counter. *)
Record JobDB := { jobs : list Job; next_id : Z }.

Definition set_jobs (db : JobDB) (l : list Job) : JobDB := {| jobs := l; next_id := next_id db |}.

(** The columns UPDATE statements touch. *)
Definition job_set (j : Job) (status : string) (attempts : Z) (run_after : time)
    (last_error worker result : string) (updated started finished : time) : Job := {|
  j_ID := j_ID j; j_TenantID := j_TenantID j; j_Type := j_Type j; j_Payload := j_Payload j;
  j_Status := status; j_Priority := j_Priority j; j_Attempts := attempts;
  j_MaxAttempts := j_MaxAttempts j; j_RunAfter := run_after; j_LastError := last_error;
  j_Worker := worker; j_Result := result; j_DedupeKey := j_DedupeKey j; j_CreatedAt := j_CreatedAt j;
  j_UpdatedAt := updated; j_StartedAt := started; j_FinishedAt := finished |}.

Definition live (j : Job) : bool := (j_Status j =s JobPending) || (j_Status j =s JobRunning).

(** ** Statements (repository/jobs.go) *)

Definition EnqueueJob (db : JobDB) (now : time) (j : Job) : JobDB * result (Z * bool) :=
  let dup := if (j_DedupeKey j <>s "")
             then List.find (fun x => (j_DedupeKey x =s j_DedupeKey j) && live x) (jobs db)
             else None in
  match dup with
  | Some x => (db, Ok (j_ID x, true))
  | None =>
      let row := {|
        j_ID := next_id db; j_TenantID := defaultTenant (j_TenantID j); j_Type := j_Type j;
        j_Payload := if (j_Payload j =s "") then "{}" else j_Payload j; j_Status := JobPending;
        j_Priority := j_Priority j; j_Attempts := 0;
        j_MaxAttempts := if j_MaxAttempts j <=? 0 then 5 else j_MaxAttempts j;
        j_RunAfter := if IsZero (j_RunAfter j) then now else j_RunAfter j; j_LastError := "";
        j_Worker := ""; j_Result := ""; j_DedupeKey := j_DedupeKey j; j_CreatedAt := now;
        j_UpdatedAt := now; j_StartedAt := 0; j_FinishedAt := 0 |} in
      ({| jobs := jobs db ++ [row]; next_id := next_id db + 1 |}, Ok (next_id db, false))
  end.

(** [status='pending' AND run_after <= now], on texts. *)
Definition runnable (now : time) (j : Job) : bool :=
  (j_Status j =s JobPending) && text_le (FormatRFC3339Nano (j_RunAfter j)) (FormatRFC3339Nano now).

(** [ORDER BY priority DESC, id ASC]. *)
Definition claim_le (a b : Job) : bool :=
  then_by (j_Priority b <? j_Priority a) (j_Priority a <? j_Priority b) (j_ID a <=? j_ID b).

Definition ClaimJob (db : JobDB) (now : time) (worker : string) : JobDB * option Job :=
  match sort_by claim_le (List.filter (runnable now) (jobs db)) with
  | [] => (db, None)
  | x :: _ =>
      let p y := (j_ID y =? j_ID x) && (j_Status y =s JobPending) in
      let db' := set_jobs db (update_where p (fun y =>
        job_set y JobRunning (j_Attempts y + 1) (j_RunAfter y) (j_LastError y) worker (j_Result y)
          now now (j_FinishedAt y)) (jobs db)) in
      (db', if existsb p (jobs db) then List.find (fun y => j_ID y =? j_ID x) (jobs db') else None)
  end.

Definition running_id (id : Z) (j : Job) : bool := (j_ID j =? id) && (j_Status j =s JobRunning).

Definition CompleteJob (db : JobDB) (now : time) (id : Z) (res : string) : JobDB :=
  set_jobs db (update_where (running_id id) (fun y =>
    job_set y JobSucceeded (j_Attempts y) (j_RunAfter y) "" (j_Worker y) res now (j_StartedAt y) now)
    (jobs db)).

(** Requeuing a failed job may clash with a live job of its dedupe key. *)
Definition retryable (id : Z) (j : Job) : bool :=
  (j_ID j =? id) && ((j_Status j =s JobRunning) || (j_Status j =s JobFailed)).

Definition dedupe_clash (l : list Job) (j : Job) : bool :=
  (j_DedupeKey j <>s "") &&
  existsb (fun x => negb (j_ID x =? j_ID j) && (j_DedupeKey x =s j_DedupeKey j) && live x) l.

Definition RetryJob (db : JobDB) (now : time) (id : Z) (lastErr : string) (runAfter : time)
    : JobDB * option error :=
  if existsb (fun j => retryable id j && dedupe_clash (jobs db) j) (jobs db)
  then (db, Some unique_violation)
  else (set_jobs db (update_where (retryable id) (fun y =>
          job_set y JobPending (if (j_Status y =s JobFailed) then 0 else j_Attempts y) runAfter lastErr ""
            (j_Result y) now 0 0) (jobs db)), None).

Definition FailJob (db : JobDB) (now : time) (id : Z) (lastErr : string) : JobDB :=
  set_jobs db (update_where (running_id id) (fun y =>
    job_set y JobFailed (j_Attempts y) (j_RunAfter y) lastErr (j_Worker y) (j_Result y) now
      (j_StartedAt y) now) (jobs db)).

Definition CountJobsByStatus (db : JobDB) (status : string) : Z :=
  Z.of_nat (length (List.filter (fun j => j_Status j =s status) (jobs db))).

Definition ListJobs (db : JobDB) (status jobType : string) (limit : Z) : list Job :=
  let limit := if (limit <=? 0) || (500 <? limit) then 100 else limit in
  take (Z.to_nat limit) (sort_by (fun a b => j_ID b <=? j_ID a)
    (List.filter (fun j => ((status =s "") || (j_Status j =s status)) &&
                           ((jobType =s "") || (j_Type j =s jobType))) (jobs db))).

(** [status='running' AND started_at <= cutoff]; NULL compares to nothing. *)
Definition stuck (cutoff : time) (j : Job) : bool :=
  (j_Status j =s JobRunning) && negb (IsZero (j_StartedAt j)) &&
  text_le (FormatRFC3339Nano (j_StartedAt j)) (FormatRFC3339Nano cutoff).

Definition ReapStuckJobs (db : JobDB) (now : time) (maxAge : Z) : JobDB * Z :=
  let cutoff := now - maxAge in
  let failed := update_where (fun j => stuck cutoff j && (j_MaxAttempts j <=? j_Attempts j)) (fun y =>
    job_set y JobFailed (j_Attempts y) (j_RunAfter y) "worker lease expired after maximum attempts" ""
      (j_Result y) now (j_StartedAt y) now) (jobs db) in
  let p j := stuck cutoff j && (j_Attempts j <? j_MaxAttempts j) in
  (set_jobs db (update_where p (fun y =>
     job_set y JobPending (j_Attempts y) (j_RunAfter y) (j_LastError y) "" (j_Result y) now
       (j_StartedAt y) (j_FinishedAt y)) failed),
   Z.of_nat (length (List.filter p failed))).

(** ** Queue and pool (jobs/jobs.go) *)

Definition Enqueue (maxDepth : Z) (db : JobDB) (now : time) (j : Job) : JobDB * result (Z * bool) :=
  if (0 <? maxDepth) && (maxDepth <=? CountJobsByStatus db JobPending) then (db, Err ErrQueueFull)
  else EnqueueJob db now j.

Record Pool := { baseBackoff : Z; maxBackoff : Z; reapAfter : Z }.

Definition NewPool : Pool := {|
  baseBackoff := Second; maxBackoff := 5 * Minute; reapAfter := 10 * Minute |}.

Definition backoff_base (p : Pool) (attempt : Z) : Z :=
  let attempt := if attempt <? 1 then 1 else attempt in
  let d := double (maxBackoff p) (Z.to_nat (attempt - 1)) (baseBackoff p) in
  if maxBackoff p <? d then maxBackoff p else d.

(** [rand] is the answer of [rand.Int63n(d/2 + 1)]. *)
Definition backoff (p : Pool) (attempt rand : Z) : Z :=
  let d := backoff_base p attempt in d + (rand - d / 4).

(** [runOne] after the claim: the claimed job, whether its type has a handler and what
    the handler returned (a recovered panic is an error). *)
Definition finishJob (p : Pool) (db : JobDB) (now : time) (rand : Z) (job : Job) (registered : bool)
    (runErr : option string) : JobDB :=
  if negb registered then
    FailJob db now (j_ID job) ("no handler registered for type " ++ j_Type job)
  else match runErr with
  | None => CompleteJob db now (j_ID job) ""
  | Some err =>
      if j_MaxAttempts job <=? j_Attempts job then FailJob db now (j_ID job) err
      else fst (RetryJob db now (j_ID job) err (now + backoff p (j_Attempts job) rand))
  end.

(** One worker alone: claim, execute, record. *)
Definition runOne (p : Pool) (db : JobDB) (claimed finished : time) (worker : string) (rand : Z)
    (registered : string -> bool) (handler : Job -> option string) : JobDB * bool :=
  match ClaimJob db claimed worker with
  | (db, None) => (db, false)
  | (db, Some job) => (finishJob p db finished rand job (registered (j_Type job)) (handler job), true)
  end.
