(* ===== verification/JobsProps.v ===== *)
(** * Correctness of the job queue

    The claim order, uniqueness of live jobs per dedupe key, the attempt budget and
    exclusive execution while leases are respected, and the backoff's range. *)

From Stdlib Require Import Lia Bool ZArith.
From stdpp Require Import base strings list numbers relations sorting.
From S2P Require Import Prelude GoStrings GoTime GoErrors Sql Backoff Jobs.

Open Scope Z_scope.

(** ** Backoff *)

Lemma backoff_base_spec p attempt :
  0 < baseBackoff p <= maxBackoff p -> 2 * maxBackoff p <= MaxInt64 -> 1 <= attempt ->
  backoff_base p attempt = Z.min (baseBackoff p * 2 ^ (attempt - 1)) (maxBackoff p).
Proof.
  intros Hb Hov Ha. unfold backoff_base. destruct (Z.ltb_spec attempt 1); [lia|].
  destruct (double_bound (maxBackoff p) (Z.to_nat (attempt - 1)) (baseBackoff p))
    as (H1 & _ & H3 & H4); try lia.
  rewrite Z2Nat.id in H3, H4 by lia.
  pose proof (Z.pow_pos_nonneg 2 (attempt - 1) ltac:(lia) ltac:(lia)) as Hp.
  assert (baseBackoff p <= baseBackoff p * 2 ^ (attempt - 1)) by nia.
  destruct (Z.ltb_spec (maxBackoff p) (double (maxBackoff p) (Z.to_nat (attempt - 1)) (baseBackoff p))); lia.
Qed.

(** The delay before a retry is the exponential one, capped, with a quarter of
    jitter either way: with [d = min (base * 2^(attempt-1)) max] it lies between
    [d - d/4] and [d - d/4 + d/2], and both ends are attained, so that at the cap the delay
    exceeds [maxBackoff] by up to a quarter. *)
Theorem backoff_range p attempt rand :
  0 < baseBackoff p <= maxBackoff p -> 2 * maxBackoff p <= MaxInt64 -> 1 <= attempt ->
  let d := Z.min (baseBackoff p * 2 ^ (attempt - 1)) (maxBackoff p) in
  0 <= rand <= d / 2 ->
  d - d / 4 <= backoff p attempt rand <= d - d / 4 + d / 2 /\
  backoff p attempt 0 = d - d / 4 /\ backoff p attempt (d / 2) = d - d / 4 + d / 2.
Proof.
  intros Hb Hov Ha d Hr. unfold backoff. rewrite backoff_base_spec by done. fold d. lia.
Qed.

Lemma backoff_range_witness :
  let d := Z.min (Second * 2 ^ (10 - 1)) (5 * Minute) in
  (d - d / 4 <= backoff NewPool 10 7 <= d - d / 4 + d / 2 /\
   backoff NewPool 10 0 = d - d / 4 /\ backoff NewPool 10 (d / 2) = d - d / 4 + d / 2) /\
  maxBackoff NewPool < d - d / 4 + d / 2.
Proof. split; [apply (backoff_range NewPool 10 7); by vm_compute|by vm_compute]. Defined.

(** ** Claiming *)

Lemma claim_le_total a b : claim_le a b = true \/ claim_le b a = true.
Proof. unfold claim_le, then_by. destruct (j_Priority b <? j_Priority a) eqn:?,
  (j_Priority a <? j_Priority b) eqn:?; try lia; auto. Qed.

Lemma claim_le_true a b : claim_le a b = true <->
  j_Priority b < j_Priority a \/ j_Priority a = j_Priority b /\ j_ID a <= j_ID b.
Proof. unfold claim_le, then_by. destruct (j_Priority b <? j_Priority a) eqn:?,
  (j_Priority a <? j_Priority b) eqn:?; split; intros; try lia; try done. Qed.

Lemma claim_le_trans a b c : claim_le a b = true -> claim_le b c = true -> claim_le a c = true.
Proof. rewrite !claim_le_true. lia. Qed.

Definition claimed (now : time) (worker : string) (x : Job) : Job :=
  job_set x JobRunning (j_Attempts x + 1) (j_RunAfter x) (j_LastError x) worker (j_Result x) now now
    (j_FinishedAt x).

Lemma runnable_pending now x : runnable now x = true -> j_Status x = JobPending.
Proof. unfold runnable. rewrite andb_true_iff, streqb_true. tauto. Qed.

Lemma ClaimJob_spec db now worker :
  NoDup (map j_ID (jobs db)) ->
  (ClaimJob db now worker = (db, None) /\ forall y, y ∈ jobs db -> runnable now y = false) \/
  exists x, x ∈ jobs db /\ runnable now x = true /\
    (forall y, y ∈ jobs db -> runnable now y = true -> claim_le x y = true) /\
    ClaimJob db now worker =
      (set_jobs db (update_where (fun y => j_ID y =? j_ID x) (claimed now worker) (jobs db)),
       Some (claimed now worker x)).
Proof.
  intros Hnd. unfold ClaimJob. destruct (sort_by _ _) as [|x rest] eqn:Hs.
  - left. split; [done|]. intros y Hy. apply not_true_is_false. intros Hr.
    assert (y ∈ sort_by claim_le (List.filter (runnable now) (jobs db))) as Hin.
    { apply elem_sort_by. by apply elem_filter_b. }
    rewrite Hs in Hin. by apply not_elem_of_nil in Hin.
  - right. destruct (sort_by_head _ _ _ _ claim_le_total claim_le_trans Hs) as [Hx Hmin].
    apply elem_filter_b in Hx as [Hx Hr]. exists x. split; [done|]. split; [done|]. split.
    { intros y Hy Hry. apply Hmin. by apply elem_filter_b. }
    assert (forall y, y ∈ jobs db -> (j_ID y =? j_ID x) && (j_Status y =s JobPending) = (j_ID y =? j_ID x)) as Hp.
    { intros y Hy. destruct (Z.eqb_spec (j_ID y) (j_ID x)) as [Hid|]; [|done].
      rewrite (NoDup_map_inj j_ID (jobs db) y x) by done. by rewrite (runnable_pending _ _ Hr). }
    assert (update_where (fun y => (j_ID y =? j_ID x) && (j_Status y =s JobPending)) (claimed now worker)
      (jobs db) = update_where (fun y => j_ID y =? j_ID x) (claimed now worker) (jobs db)) as Hu.
    { apply map_ext_in. intros y Hy%list_elem_of_In. by rewrite Hp. }
    unfold claimed in Hu. rewrite Hu. fold (claimed now worker). f_equal.
    rewrite (proj2 (existsb_elem _ _)); [|exists x; by rewrite Hp, Z.eqb_refl]. cbn [jobs set_jobs].
    destruct (List.find _ _) as [z|] eqn:Hf.
    + apply find_some in Hf as [Hz Hid]. apply list_elem_of_In, elem_update_where in Hz.
      apply Z.eqb_eq in Hid. destruct Hz as [(w & Hw & Hwid & ->)|[Hz Hne]]; [|lia].
      apply Z.eqb_eq in Hwid. by rewrite (NoDup_map_inj j_ID (jobs db) w x).
    + assert (claimed now worker x ∈ update_where (fun y => j_ID y =? j_ID x) (claimed now worker) (jobs db)) as Hin.
      { apply elem_update_where. left. exists x. by rewrite Z.eqb_refl. }
      apply list_elem_of_In in Hin. pose proof (find_none _ _ Hf _ Hin) as Hne. cbn in Hne. lia.
Qed.

(** [ClaimJob] takes the right job and only that one: when a runnable job exists it
    claims one of the highest priority, the oldest among those, marks exactly that row as
    running with one more attempt, and answers the row; otherwise it leaves the table
    alone. *)
Theorem ClaimJob_takes_best db now worker :
  NoDup (map j_ID (jobs db)) ->
  (ClaimJob db now worker = (db, None) /\ forall y, y ∈ jobs db -> runnable now y = false) \/
  exists x, x ∈ jobs db /\ runnable now x = true /\
    (forall y, y ∈ jobs db -> runnable now y = true ->
       j_Priority y < j_Priority x \/ j_Priority x = j_Priority y /\ j_ID x <= j_ID y) /\
    ClaimJob db now worker =
      (set_jobs db (update_where (fun y => j_ID y =? j_ID x) (claimed now worker) (jobs db)),
       Some (claimed now worker x)).
Proof.
  intros Hnd. destruct (ClaimJob_spec db now worker Hnd) as [|(x & Hx & Hr & Hb & Hc)]; [by left|right].
  exists x. split; [done|]. split; [done|]. split; [|done].
  intros y Hy Hry. by apply claim_le_true, Hb.
Qed.

Definition new_job (dedupe : string) (max : Z) : Job := {|
  j_ID := 0; j_TenantID := ""; j_Type := "scan"; j_Payload := ""; j_Status := ""; j_Priority := 0;
  j_Attempts := 0; j_MaxAttempts := max; j_RunAfter := 0; j_LastError := ""; j_Worker := "";
  j_Result := ""; j_DedupeKey := dedupe; j_CreatedAt := 0; j_UpdatedAt := 0; j_StartedAt := 0;
  j_FinishedAt := 0 |}.

Definition no_jobs : JobDB := {| jobs := []; next_id := 1 |}.

(** One pending job with two attempts. *)
Definition one_job : JobDB := fst (EnqueueJob no_jobs Day (new_job "k" 2)).

Lemma ClaimJob_takes_best_witness :
  (ClaimJob one_job (2 * Day) "w0" = (one_job, None) /\
   forall y, y ∈ jobs one_job -> runnable (2 * Day) y = false) \/
  exists x, x ∈ jobs one_job /\ runnable (2 * Day) x = true /\
    (forall y, y ∈ jobs one_job -> runnable (2 * Day) y = true ->
       j_Priority y < j_Priority x \/ j_Priority x = j_Priority y /\ j_ID x <= j_ID y) /\
    ClaimJob one_job (2 * Day) "w0" =
      (set_jobs one_job (update_where (fun y => j_ID y =? j_ID x) (claimed (2 * Day) "w0") (jobs one_job)),
       Some (claimed (2 * Day) "w0" x)).
Proof. apply ClaimJob_takes_best. cbn. apply list.NoDup_singleton. Defined.

(** ** The table's invariant *)

Record job_row_ok (j : Job) : Prop := {
  row_status : j_Status j ∈ [JobPending; JobRunning; JobSucceeded; JobFailed];
  row_attempts : 0 <= j_Attempts j <= j_MaxAttempts j;
  row_max : 0 < j_MaxAttempts j;
  row_pending : j_Status j = JobPending -> j_Attempts j < j_MaxAttempts j
}.

Record jobs_ok (db : JobDB) : Prop := {
  jobs_ids : NoDup (map j_ID (jobs db));
  jobs_next : forall j, j ∈ jobs db -> j_ID j < next_id db;
  jobs_dedupe : forall x y, x ∈ jobs db -> y ∈ jobs db -> live x = true -> live y = true ->
    j_DedupeKey x = j_DedupeKey y -> j_DedupeKey x <> ""%string -> j_ID x = j_ID y;
  jobs_rows : forall j, j ∈ jobs db -> job_row_ok j
}.

(** An update keeps the invariant when it keeps rows well formed and makes no row live
    that clashes with a live one. *)
Lemma jobs_ok_update db p f :
  (forall x, j_ID (f x) = j_ID x /\ j_DedupeKey (f x) = j_DedupeKey x) ->
  (forall x, x ∈ jobs db -> p x = true -> job_row_ok x -> job_row_ok (f x)) ->
  (forall x, x ∈ jobs db -> p x = true -> live (f x) = true ->
     live x = true \/ dedupe_clash (jobs db) x = false) ->
  (forall x y, x ∈ jobs db -> y ∈ jobs db -> p x = true -> p y = true -> live x = false ->
     live (f x) = true -> j_ID x = j_ID y) ->
  jobs_ok db -> jobs_ok (set_jobs db (update_where p f (jobs db))).
Proof.
  intros Hf Hrow Hlive Hone [Hi Hn Hd Hr]. split; cbn.
  - rewrite map_update_where; [done|]. intros x. apply Hf.
  - intros j [(x & Hx & _ & ->)|[Hj _]]%elem_update_where; [rewrite (proj1 (Hf x))|]; auto.
  - assert (forall x y, x ∈ jobs db -> y ∈ jobs db -> dedupe_clash (jobs db) x = false ->
      live y = true -> j_DedupeKey x = j_DedupeKey y -> j_DedupeKey x <> ""%string -> j_ID x = j_ID y) as Hcl.
    { intros x y Hx Hy Hc Hly Hk Hne. unfold dedupe_clash in Hc. apply streqb_false in Hne.
      rewrite Hne in Hc. cbn in Hc. rewrite existsb_none in Hc. specialize (Hc y Hy). cbn in Hc.
      rewrite Hk, streqb_refl, Hly in Hc. lia. }
    intros x y Hx Hy Hlx Hly Hk Hne.
    apply elem_update_where in Hx as [(x0 & Hx & Hpx & ->)|[Hx Hpx]];
      apply elem_update_where in Hy as [(y0 & Hy & Hpy & ->)|[Hy Hpy]];
      rewrite ?(proj1 (Hf _)), ?(proj2 (Hf _)) in *.
    + destruct (live x0) eqn:Lx.
      * destruct (Hlive y0 Hy Hpy Hly) as [Ly|Cy]; [by apply Hd|]. symmetry. apply Hcl; try done; congruence.
      * by apply Hone.
    + destruct (Hlive x0 Hx Hpx Hlx) as [Lx|Cx]; [by apply Hd|by apply Hcl].
    + destruct (Hlive y0 Hy Hpy Hly) as [Ly|Cy]; [by apply Hd|].
      symmetry. apply Hcl; try done; congruence.
    + by apply Hd.
  - intros j [(x & Hx & Hp & ->)|[Hj _]]%elem_update_where; auto.
Qed.

Lemma live_iff j : live j = true <-> j_Status j = JobPending \/ j_Status j = JobRunning.
Proof. unfold live. by rewrite orb_true_iff, !streqb_true. Qed.

Lemma EnqueueJob_ok db now j : jobs_ok db -> jobs_ok (fst (EnqueueJob db now j)).
Proof.
  intros [Hi Hn Hd Hr]. unfold EnqueueJob. cbv zeta.
  match goal with |- context [match ?d with Some _ => _ | None => _ end] => destruct d as [x|] eqn:Hdup end;
    cbn; [by split|].
  assert (forall y, y ∈ jobs db -> live y = true -> j_DedupeKey y = j_DedupeKey j ->
    j_DedupeKey j = ""%string) as Hfree.
  { intros y Hy Hly Hk. destruct (String.eqb_spec (j_DedupeKey j) "") as [|Hne]; [done|].
    cbn in Hdup. apply list_elem_of_In in Hy. pose proof (find_none _ _ Hdup _ Hy) as Hc. cbn in Hc.
    by rewrite Hk, streqb_refl, Hly in Hc. }
  split; cbn.
  - apply NoDup_map_snoc; [done|]. intros y Hy. cbn. specialize (Hn y Hy). lia.
  - intros y [Hy| ->%list_elem_of_singleton]%elem_of_app; [specialize (Hn y Hy)|cbn]; lia.
  - intros x y [Hx| ->%list_elem_of_singleton]%elem_of_app [Hy| ->%list_elem_of_singleton]%elem_of_app
      Hlx Hly Hk Hne; cbn in *; [by apply Hd| | |done].
    + destruct Hne. rewrite Hk. by apply (Hfree x).
    + destruct Hne. by apply (Hfree y).
  - intros y [Hy| ->%list_elem_of_singleton]%elem_of_app; [by apply Hr|].
    split; cbn; [by left|..]; destruct (Z.leb_spec (j_MaxAttempts j) 0); lia.
Qed.

Lemma ClaimJob_ok db now worker : jobs_ok db -> jobs_ok (fst (ClaimJob db now worker)).
Proof.
  intros Hok. destruct (ClaimJob_spec db now worker (jobs_ids _ Hok)) as [[-> _]|(x & Hx & Hr & _ & ->)];
    [done|]. cbn. apply runnable_pending in Hr.
  assert (forall y, y ∈ jobs db -> (j_ID y =? j_ID x) = true -> y = x) as Hy.
  { intros y Hy Hid. apply (NoDup_map_inj j_ID (jobs db)); try done; [apply Hok|lia]. }
  apply jobs_ok_update; [done|..|done].
  - intros y Hin Hid Hrow. rewrite (Hy y Hin Hid) in *. destruct Hrow as [Hs Ha Hm Hp].
    specialize (Hp Hr). split; cbn; [by right; left|lia|done|discriminate].
  - intros y Hin Hid _. left. rewrite (Hy y Hin Hid). apply live_iff. by left.
  - intros y z _ _ Hy1 Hz1. lia.
Qed.

Lemma running_update_ok db id status (attempts : Job -> Z) (run_after : Job -> time)
    (err worker res : Job -> string) upd (start : Job -> time) fin :
  status = JobSucceeded \/ status = JobFailed ->
  (forall y, attempts y = j_Attempts y) -> jobs_ok db ->
  jobs_ok (set_jobs db (update_where (running_id id) (fun y =>
    job_set y status (attempts y) (run_after y) (err y) (worker y) (res y) upd (start y) fin) (jobs db))).
Proof.
  intros Hst Hat Hok. apply jobs_ok_update; [done|..|done].
  - intros y _ _ [Hs Ha Hm Hp]. split; cbn; rewrite ?Hat; try done.
    + destruct Hst as [->| ->]; [by right; right; left|by right; right; right; left].
    + by destruct Hst as [->| ->].
  - intros y _ _ Hl. apply live_iff in Hl. cbn in Hl. by destruct Hst as [->| ->], Hl.
  - intros y z _ _ _ _ _ Hl. apply live_iff in Hl. cbn in Hl. by destruct Hst as [->| ->], Hl.
Qed.

(** Retries keep the invariant when the row retried has attempts left. *)
Lemma RetryJob_ok db now id err after :
  (forall j, j ∈ jobs db -> j_ID j = id -> j_Status j = JobRunning -> j_Attempts j < j_MaxAttempts j) ->
  jobs_ok db -> jobs_ok (fst (RetryJob db now id err after)).
Proof.
  intros Hbudget Hok. unfold RetryJob. destruct (existsb _ _) eqn:Hc; [done|]. rewrite existsb_none in Hc.
  apply jobs_ok_update; [done|..|done].
  - intros y Hy Hp [Hs Ha Hm Hpe]. unfold retryable in Hp.
    rewrite andb_true_iff, orb_true_iff, !streqb_true, Z.eqb_eq in Hp. destruct Hp as [Hid Hst].
    split; cbn; [by left|..|intros _]; destruct (String.eqb_spec (j_Status y) JobFailed); try lia.
    destruct Hst as [Hst|Hst]; [by apply Hbudget|done].
  - intros y Hy Hp _. right. specialize (Hc y Hy). cbn in Hc. by rewrite Hp in Hc.
  - intros y z _ _ Hy Hz _ _. unfold retryable in Hy, Hz. lia.
Qed.

Lemma ReapStuckJobs_ok db now age : jobs_ok db -> jobs_ok (fst (ReapStuckJobs db now age)).
Proof.
  intros Hok. unfold ReapStuckJobs. cbn.
  set (p1 := fun j => stuck (now - age) j && (j_MaxAttempts j <=? j_Attempts j)).
  set (f1 := fun y => job_set y JobFailed _ _ _ _ _ _ _ _).
  assert (forall c j, stuck c j = true -> j_Status j = JobRunning) as Hstuck.
  { intros c j. unfold stuck. rewrite !andb_true_iff, streqb_true. tauto. }
  assert (jobs_ok (set_jobs db (update_where p1 f1 (jobs db)))) as Hok1.
  { apply jobs_ok_update; [done|..|done].
    - intros y _ _ [Hs Ha Hm Hp]. split; cbn; try done. by right; right; right; left.
    - intros y _ _ Hl. by apply live_iff in Hl as [|].
    - intros y z _ _ _ _ _ Hl. by apply live_iff in Hl as [|]. }
  apply (jobs_ok_update (set_jobs db (update_where p1 f1 (jobs db)))); [done|..|exact Hok1].
  - intros y _ Hp [Hs Ha Hm _]. apply andb_true_iff in Hp as [_ Hp].
    split; cbn; [by left|done|done|lia].
  - intros y _ Hp _. left. apply andb_true_iff in Hp as [Hp _]. apply live_iff. right. eauto.
  - intros y z _ _ Hp _ Hl _. apply andb_true_iff in Hp as [Hp _]. apply Hstuck in Hp.
    assert (live y = true) by (apply live_iff; by right). congruence.
Qed.

(** ** Workers, crashes and the reaper *)

(** The table and the jobs workers are executing, as they claimed them. *)
Record pool_state := { p_db : JobDB; busy : list (string * Job) }.

(** Steps of a pool whose leases are respected: the reaper finds no job of a live worker
    stuck, and administrators retry failed jobs only. *)
Inductive pool_step (p : Pool) : pool_state -> pool_state -> Prop :=
| pool_enqueue depth now j s :
    pool_step p s {| p_db := fst (Enqueue depth (p_db s) now j); busy := busy s |}
| pool_claim now w job s :
    snd (ClaimJob (p_db s) now w) = Some job ->
    pool_step p s {| p_db := fst (ClaimJob (p_db s) now w); busy := (w, job) :: busy s |}
| pool_finish now rand registered runErr w job b1 b2 db :
    pool_step p {| p_db := db; busy := b1 ++ (w, job) :: b2 |}
      {| p_db := finishJob p db now rand job registered runErr; busy := b1 ++ b2 |}
| pool_crash x b1 b2 db :
    pool_step p {| p_db := db; busy := b1 ++ x :: b2 |} {| p_db := db; busy := b1 ++ b2 |}
| pool_reap now s :
    (forall w job row, (w, job) ∈ busy s -> row ∈ jobs (p_db s) -> j_ID row = j_ID job ->
       stuck (now - reapAfter p) row = false) ->
    pool_step p s {| p_db := fst (ReapStuckJobs (p_db s) now (reapAfter p)); busy := busy s |}
| pool_retry now id s :
    (forall row, row ∈ jobs (p_db s) -> j_ID row = id -> j_Status row = JobFailed) ->
    pool_step p s {| p_db := fst (RetryJob (p_db s) now id "manual retry" now); busy := busy s |}.

(** [job] is what its row says: running, with the same budget. *)
Definition holds (db : JobDB) (job : Job) : Prop :=
  exists row, row ∈ jobs db /\ j_ID row = j_ID job /\ j_Status row = JobRunning /\
    j_Attempts row = j_Attempts job /\ j_MaxAttempts row = j_MaxAttempts job.

Record pool_ok (s : pool_state) : Prop := {
  pool_jobs : jobs_ok (p_db s);
  pool_exclusive : NoDup (map (fun b => j_ID (snd b)) (busy s));
  pool_holds : forall w job, (w, job) ∈ busy s -> holds (p_db s) job
}.

(** Updates of other rows do not affect a held job. *)
Lemma holds_update db p f job :
  (forall row, row ∈ jobs db -> j_ID row = j_ID job -> j_Status row = JobRunning -> p row = false) ->
  holds db job -> holds (set_jobs db (update_where p f (jobs db))) job.
Proof.
  intros Hp (row & Hin & Hid & Hst & Hr). exists row. split; [|done]. cbn. apply elem_update_where.
  right. split; [done|]. by apply Hp.
Qed.

Lemma NoDup_remove {A B} (k : A -> B) (l1 l2 : list A) x :
  NoDup (map k (l1 ++ x :: l2)) ->
  NoDup (map k (l1 ++ l2)) /\ forall y, y ∈ l1 ++ l2 -> k y <> k x.
Proof.
  intros Hn. assert (NoDup (map k (x :: l1 ++ l2))) as Hn'.
  { cbn. rewrite map_app in *. cbn in Hn. by rewrite Permutation_middle. }
  cbn in Hn'. apply list.NoDup_cons in Hn' as [Hx Hn']. split; [done|].
  intros y Hy Hk. apply Hx. rewrite <- Hk. by apply list_elem_of_fmap_2.
Qed.

Lemma elem_middle {A} (x y : A) l1 l2 : y ∈ l1 ++ l2 -> y ∈ l1 ++ x :: l2.
Proof. rewrite !elem_of_app, elem_of_cons. tauto. Qed.

Lemma EnqueueJob_holds db now j job : holds db job -> holds (fst (EnqueueJob db now j)) job.
Proof.
  intros (row & Hin & Hr). unfold EnqueueJob. cbv zeta.
  match goal with |- context [match ?d with Some _ => _ | None => _ end] => destruct d end; cbn.
  - by exists row.
  - exists row. cbn. split; [apply elem_of_app; by left|done].
Qed.

Lemma finishJob_ok p db now rand job registered runErr :
  holds db job -> jobs_ok db -> jobs_ok (finishJob p db now rand job registered runErr).
Proof.
  intros (row & Hin & Hid & Hst & Ha & Hm) Hok. unfold finishJob, FailJob, CompleteJob.
  destruct registered; cbn [negb]; [|by apply (running_update_ok db (j_ID job) JobFailed); [right|..]].
  destruct runErr as [err|]; [|by apply (running_update_ok db (j_ID job) JobSucceeded); [left|..]].
  destruct (Z.leb_spec (j_MaxAttempts job) (j_Attempts job)).
  - by apply (running_update_ok db (j_ID job) JobFailed); [right|..].
  - apply RetryJob_ok; [|done]. intros j Hj Hji _.
    rewrite (NoDup_map_inj j_ID (jobs db) j row); [lia|apply Hok|done|done|congruence].
Qed.

Lemma finishJob_holds p db now rand job registered runErr other :
  j_ID other <> j_ID job -> holds db other ->
  holds (finishJob p db now rand job registered runErr) other.
Proof.
  intros Hne Hh. unfold finishJob, FailJob, CompleteJob, RetryJob.
  assert (forall row, j_ID row = j_ID other -> (j_ID row =? j_ID job) = false) as Hf.
  { intros row Hr. apply Z.eqb_neq. congruence. }
  destruct (negb registered); [|destruct runErr as [err|]; [destruct (_ <=? _); [|destruct (existsb _ _); [done|]]|]];
    cbn; apply holds_update; try done; intros row _ Hr _; unfold running_id, retryable; by rewrite Hf.
Qed.

Lemma ReapStuckJobs_holds db now age job :
  (forall row, row ∈ jobs db -> j_ID row = j_ID job -> stuck (now - age) row = false) ->
  holds db job -> holds (fst (ReapStuckJobs db now age)) job.
Proof.
  intros Hs Hh. unfold ReapStuckJobs. cbn.
  set (l := update_where _ _ (jobs db)). set (p := fun j => stuck _ j && (j_Attempts j <? j_MaxAttempts j)).
  assert (holds (set_jobs db l) job) as Hl.
  { apply holds_update; [|done]. intros row Hin Hid _. by rewrite Hs. }
  apply (holds_update (set_jobs db l) p); [|done]. intros row Hin Hid Hst. unfold p.
  cbn in Hin. apply elem_update_where in Hin as [(y & _ & _ & ->)|[Hin _]]; [done|].
  by rewrite Hs.
Qed.

Lemma pool_step_ok p s s' : pool_step p s s' -> pool_ok s -> pool_ok s'.
Proof.
  intros Hstep [Hok Hex Hh]. destruct Hstep; cbn in *.
  - unfold Enqueue. destruct (_ && _); cbn; [by split|].
    split; cbn; [by apply EnqueueJob_ok|done|]. intros w job Hin. by eapply EnqueueJob_holds, Hh.
  - destruct (ClaimJob_spec (p_db s) now w (jobs_ids _ Hok)) as [[Hc _]|(x & Hx & Hr & _ & Hc)];
      rewrite Hc in *; [done|]. cbn in *. injection H as <-. apply runnable_pending in Hr.
    assert (forall w' job, (w', job) ∈ busy s -> j_ID job <> j_ID x) as Hfree.
    { intros w' job Hin Hid. destruct (Hh w' job Hin) as (row & Hrow & Hrid & Hst & _).
      rewrite (NoDup_map_inj j_ID (jobs (p_db s)) row x) in Hst; try done; [by rewrite Hr in Hst|apply Hok|congruence]. }
    split; cbn.
    + pose proof (ClaimJob_ok (p_db s) now w Hok) as Hok'. by rewrite Hc in Hok'.
    + apply list.NoDup_cons. split; [|done]. intros ([w' job] & Hid & Hin)%list_elem_of_fmap.
      by apply (Hfree w' job).
    + intros w' job [[= -> ->]|Hin]%elem_of_cons.
      * exists (claimed now w x). split; [|done]. cbn. apply elem_update_where. left. exists x.
        by rewrite Z.eqb_refl.
      * apply holds_update; [|by eapply Hh]. intros row _ Hid _. apply Z.eqb_neq. rewrite Hid.
        by eapply Hfree.
  - apply NoDup_remove in Hex as [Hex Hne]. split; cbn; [apply finishJob_ok; [|done]|done|].
    + apply (Hh w). apply elem_of_app. right. by left.
    + intros w' job' Hin. apply finishJob_holds; [by apply (Hne _ Hin)|].
      eapply Hh. by apply elem_middle.
  - apply NoDup_remove in Hex as [Hex _]. split; cbn; [done|done|].
    intros w job Hin. eapply Hh. by apply elem_middle.
  - split; cbn; [by apply ReapStuckJobs_ok|done|]. intros w job Hin.
    apply ReapStuckJobs_holds; [|by eapply Hh]. intros row Hrow Hid. by eapply H.
  - split; cbn; [apply RetryJob_ok; [|done]|done|].
    + intros j Hj Hid Hst. specialize (H j Hj Hid). by rewrite H in Hst.
    + intros w job Hin. unfold RetryJob. destruct (existsb _ _); [by eapply Hh|]. cbn.
      apply holds_update; [|by eapply Hh]. intros row Hrow Hid Hst. unfold retryable.
      destruct (Z.eqb_spec (j_ID row) id) as [Hri|]; [|done]. specialize (H row Hrow Hri).
      by rewrite H in Hst.
Qed.

Definition idle_pool : pool_state := {| p_db := no_jobs; busy := [] |}.

Lemma idle_pool_ok : pool_ok idle_pool.
Proof.
  split; cbn; [split; cbn|apply base.NoDup_nil_2|by intros ? ? ?%not_elem_of_nil];
    try apply base.NoDup_nil_2; try (by intros ? ?%not_elem_of_nil).
  by intros ? ? ?%not_elem_of_nil.
Qed.

Lemma pool_reach_ok p s : rtc (pool_step p) idle_pool s -> pool_ok s.
Proof.
  intros Hr. assert (forall s0, rtc (pool_step p) s0 s -> pool_ok s0 -> pool_ok s) as Hp.
  { intros s0 Hr0. induction Hr0 as [|x y z Hxy _ IH]; [done|]. intros Hx. by eapply IH, pool_step_ok. }
  by apply (Hp _ Hr), idle_pool_ok.
Qed.

(** C20: with leases respected, in every reachable state of the pool at most one worker
    executes a job, its row is running, no job has used more than its attempts, pending
    jobs have attempts left, and there is at most one live job per dedupe key.  Leases are
    respected when the reaper finds no job stuck that a live worker executes, and when
    administrators requeue failed jobs only: the endpoint and the statement requeue running
    jobs as well, and then neither exclusion nor the budget holds ([retry_of_running_job]). *)
Theorem pool_invariant p s :
  rtc (pool_step p) idle_pool s ->
  NoDup (map (fun b => j_ID (snd b)) (busy s)) /\
  (forall w job, (w, job) ∈ busy s -> holds (p_db s) job) /\
  (forall j, j ∈ jobs (p_db s) -> 0 <= j_Attempts j <= j_MaxAttempts j /\
     (j_Status j = JobPending -> j_Attempts j < j_MaxAttempts j)) /\
  (forall x y, x ∈ jobs (p_db s) -> y ∈ jobs (p_db s) -> live x = true -> live y = true ->
     j_DedupeKey x = j_DedupeKey y -> j_DedupeKey x <> ""%string -> x = y).
Proof.
  intros Hr%pool_reach_ok. destruct Hr as [Hok Hex Hh]. split; [done|]. split; [done|]. split.
  - intros j Hj. destruct (jobs_rows _ Hok j Hj) as [_ Ha _ Hp]. done.
  - intros x y Hx Hy Hlx Hly Hk Hne. apply (NoDup_map_inj j_ID (jobs (p_db s))); try done; [apply Hok|].
    by apply (jobs_dedupe _ Hok).
Qed.

(** A worker runs the one job. *)
Definition claimed_job : Job :=
  default (new_job "" 1) (snd (ClaimJob one_job (2 * Day) "w0")).
Definition working_pool : pool_state :=
  {| p_db := fst (ClaimJob one_job (2 * Day) "w0"); busy := [("w0"%string, claimed_job)] |}.

Lemma pool_invariant_witness :
  length (busy working_pool) = 1%nat /\
  forall j, j ∈ jobs (p_db working_pool) -> 0 <= j_Attempts j <= j_MaxAttempts j /\
     (j_Status j = JobPending -> j_Attempts j < j_MaxAttempts j).
Proof.
  split; [reflexivity|]. apply (pool_invariant NewPool working_pool). eapply rtc_l.
  - apply (pool_enqueue NewPool 0 Day (new_job "k" 2)).
  - apply rtc_once.
    refine (pool_claim NewPool (2 * Day) "w0" claimed_job {| p_db := one_job; busy := [] |} _).
    vm_compute. reflexivity.
Defined.

(** Results are not fenced: a worker whose lease the reaper took back still records
    its outcome. The first run's late failure requeues a job a second worker is running,
    and the third claim exceeds the job's two attempts while both workers run it. *)
Theorem stale_worker_breaks_budget :
  let t0 := 2 * Day in
  let '(db1, a) := ClaimJob one_job t0 "A" in
  let db2 := fst (ReapStuckJobs db1 (t0 + 11 * Minute) (reapAfter NewPool)) in
  let '(db3, b) := ClaimJob db2 (t0 + 11 * Minute) "B" in
  match a, b with
  | Some a, Some b =>
      let db4 := finishJob NewPool db3 (t0 + 12 * Minute) 0 a true (Some "timeout"%string) in
      match snd (ClaimJob db4 (t0 + 13 * Minute) "C") with
      | Some c => j_ID c = j_ID b /\ j_MaxAttempts c = 2 /\ j_Attempts c = 3
      | None => False
      end
  | _, _ => False
  end.
Proof. by vm_compute. Qed.

(** An administrator requeues a job while a worker executes it: a second worker gets it, and
    a third run, beyond the two attempts of the job, is claimed while both are at it. *)
Example retry_of_running_job :
  let t0 := 2 * Day in
  let '(db1, a) := ClaimJob one_job t0 "A" in
  let db2 := fst (RetryJob db1 t0 1 "manual retry" t0) in
  let '(db3, b) := ClaimJob db2 t0 "B" in
  let db4 := fst (RetryJob db3 t0 1 "manual retry" t0) in
  let c := snd (ClaimJob db4 t0 "C") in
  option_map j_ID a = Some 1 /\ option_map j_ID b = Some 1 /\ option_map j_MaxAttempts c = Some 2 /\ option_map j_Attempts c = Some 3.
Proof. by vm_compute. Qed.
