(* ===== verification/Cors.v ===== *)
(** * Cross-origin requests (src/internal/middleware: cors.go, cors_bucket.go)

    The decision of the CORS middleware on a request as what it writes and whether the
    next handler runs, the headers of a bucket's own rules, and the provider of those rules
    with its cache.  Case folding outside ASCII is Unicode's table, the class [FoldTables].

    [CORS_allows]: only preflights are answered without the next handler, and only an origin
    that the settings allow is named in the answer.  [GetCORSRules_spec]: an answer is the
    repository's or that of an entry that has not expired. *)

From Stdlib Require Import Ascii Lia Bool ZArith.
From stdpp Require Import base gmap strings list numbers option.
From S2P Require Import Prelude GoStrings Json GoTime GoErrors Sql Outbox Http Repo.

Open Scope Z_scope.

(** ** Equality up to case *)

(** [fold_orbit c]: the least rune that unicode.SimpleFold reaches from [c]. *)
Class FoldTables := { fold_orbit : Z -> Z }.

(** [strings.EqualFold]. *)
Definition fold_equal `{FoldTables} (s t : string) : bool :=
  bool_decide (map fold_orbit (runes_of s) = map fold_orbit (runes_of t)).

(** ** The settings of the server (cors.go) *)

Record CORSConfig := {
  co_AllowedOrigins : list string; co_AllowedMethods : list string; co_AllowedHeaders : list string;
  co_ExposeHeaders : list string; co_MaxAgeSeconds : Z; co_AllowCreds : bool
}.

Definition unless_empty {A} (l d : list A) : list A := match l with [] => d | _ => l end.

Definition cors_defaults (cfg : CORSConfig) : CORSConfig := {|
  co_AllowedOrigins := co_AllowedOrigins cfg;
  co_AllowedMethods := unless_empty (co_AllowedMethods cfg) ["GET"; "POST"; "PUT"; "DELETE"; "HEAD"; "OPTIONS"]%string;
  co_AllowedHeaders := unless_empty (co_AllowedHeaders cfg)
    ["Authorization"; "Content-Type"; "Idempotency-Key"; "X-Aero-Tenant"; "X-Api-Key"; "X-Request-ID"; "Range"]%string;
  co_ExposeHeaders := co_ExposeHeaders cfg;
  co_MaxAgeSeconds := if co_MaxAgeSeconds cfg =? 0 then 600 else co_MaxAgeSeconds cfg;
  co_AllowCreds := co_AllowCreds cfg |}.

Definition strFromInt (n : Z) : string := signed_text n.

(** A header that is only written when the list has something. *)
Definition list_header (name : string) (l : list string) : list output :=
  match l with [] => [] | _ => [SetHeader name (Join l ", ")] end.

Section Cors.
Context `{FoldTables}.

Definition matchOrigin (origin : string) (allowed : list string) : bool :=
  existsb (fun a => (a =s "*") || fold_equal origin a) allowed.

Definition writeCORSHeaders (cfg : CORSConfig) (origin : string) : list output :=
  [SetHeader "Access-Control-Allow-Origin" origin; SetHeader "Vary" "Origin";
   SetHeader "Access-Control-Allow-Methods" (Join (co_AllowedMethods cfg) ", ");
   SetHeader "Access-Control-Allow-Headers" (Join (co_AllowedHeaders cfg) ", ")] ++
  list_header "Access-Control-Expose-Headers" (co_ExposeHeaders cfg) ++
  (if co_AllowCreds cfg then [SetHeader "Access-Control-Allow-Credentials" "true"] else []) ++
  [SetHeader "Access-Control-Max-Age" (strFromInt (co_MaxAgeSeconds cfg))].

(** What the middleware writes, and whether the next handler then runs. *)
Definition CORS (cfg : CORSConfig) (r : Http) : list output * bool :=
  match co_AllowedOrigins cfg with
  | [] => ([], true)
  | _ =>
      let cfg := cors_defaults cfg in
      let allowAll := existsb (fun o => o =s "*") (co_AllowedOrigins cfg) in
      let origin := Get r "Origin" in
      let isPreflight := rq_Method r =s "OPTIONS" in
      if (origin =s "") then if isPreflight then ([WriteHeader 204], false) else ([], true)
      else if negb allowAll && negb (matchOrigin origin (co_AllowedOrigins cfg))
      then if isPreflight then (http_Error "origin not allowed" 403, false) else ([], true)
      else if isPreflight then (writeCORSHeaders cfg origin ++ [WriteHeader 204], false)
      else (writeCORSHeaders cfg origin, true)
  end.

(** ** The rules of a bucket (cors_bucket.go) *)

Definition originAllowed (origin : string) (allowed : list string) : bool :=
  existsb (fun a => (a =s "*") || fold_equal origin a) allowed.

Definition slash : ascii := char 47.

Definition bucketFromPath (r : Http) : string :=
  match Split (TrimPrefix (rq_Path r) "/") slash with
  | a :: b :: rest =>
      if (a =s "v1") then
        match rest with
        | c :: _ => if (b =s "buckets") then c else if (b =s "files") then "default" else ""
        | [] => if (b =s "files") then "default" else ""
        end
      else if (a =s "s3") then b else ""
  | _ => ""
  end.

Definition rule_headers (origin : string) (rule : CORSRule) : list output :=
  [SetHeader "Access-Control-Allow-Origin" origin; SetHeader "Vary" "Origin"] ++
  list_header "Access-Control-Allow-Methods" (cr_AllowedMethods rule) ++
  list_header "Access-Control-Allow-Headers" (cr_AllowedHeaders rule) ++
  list_header "Access-Control-Expose-Headers" (cr_ExposeHeaders rule) ++
  (if 0 <? cr_MaxAgeSeconds rule then [SetHeader "Access-Control-Max-Age" (strFromInt (cr_MaxAgeSeconds rule))] else []).

(** The headers of the first rule that allows the origin. *)
Definition first_rule (origin : string) (rules : list CORSRule) : list output :=
  match List.find (fun rule => originAllowed origin (cr_AllowedOrigins rule)) rules with
  | Some rule => rule_headers origin rule
  | None => []
  end.
End Cors.

Record cacheEntry := { cce_rules : list CORSRule; cce_expiresAt : time }.
Record bucketCORSProvider := { bp_entries : gmap (string * string) cacheEntry; bp_ttl : Z }.

Definition NewBucketCORSProvider (ttl : Z) : bucketCORSProvider := {| bp_entries := ∅; bp_ttl := ttl |}.

Definition with_rules (p : bucketCORSProvider) (m : gmap (string * string) cacheEntry) : bucketCORSProvider :=
  {| bp_entries := m; bp_ttl := bp_ttl p |}.

(** The clock is read at [now] for the cache and at [later] for a new entry. *)
Definition GetCORSRules (ctx : option error) (now later : time) (tenant bucket : string)
    (p : bucketCORSProvider) (db : RepoDB) : bucketCORSProvider * RepoDB * result (list CORSRule) :=
  let fetch :=
    match GetBucketCORS ctx tenant bucket db with
    | (db, Err e) => (p, db, Err e)
    | (db, Ok rules) =>
        (with_rules p (<[(tenant, bucket) := {| cce_rules := rules; cce_expiresAt := later + bp_ttl p |}]> (bp_entries p)), db, Ok rules)
    end in
  match bp_entries p !! (tenant, bucket) with
  | Some entry => if Before now (cce_expiresAt entry) then (p, db, Ok (cce_rules entry)) else fetch
  | None => fetch
  end.

Definition InvalidateBucket (p : bucketCORSProvider) (tenant bucket : string) : bucketCORSProvider :=
  with_rules p (delete (tenant, bucket) (bp_entries p)).

Definition evictExpired (p : bucketCORSProvider) (now : time) : bucketCORSProvider :=
  with_rules p (filter (fun e => After now (cce_expiresAt e.2) = false) (bp_entries p)).

(** ** Theorems *)

(** No output of a concrete list is this one. *)
Ltac no_output Hv := repeat (apply elem_of_cons in Hv as [Hv|Hv]; [done|]); by apply not_elem_of_nil in Hv.

Section Props.
Context `{FoldTables}.

Lemma match_of_all origin l : existsb (fun o => o =s "*") l = true \/ matchOrigin origin l = true -> matchOrigin origin l = true.
Proof.
  intros [E|E]; [|done]. apply existsb_exists in E as (a & Ha & E). apply existsb_exists. exists a. split; [done|]. by rewrite E.
Qed.

Lemma cors_headers_origin cfg origin v :
  SetHeader "Access-Control-Allow-Origin" v ∈ writeCORSHeaders cfg origin -> v = origin.
Proof.
  unfold writeCORSHeaders. cbn [app]. intros [Hv|Hv]%elem_of_cons; [by injection Hv|exfalso]. do 3 (apply elem_of_cons in Hv as [Hv|Hv]; [done|]).
  unfold list_header in Hv. destruct (co_ExposeHeaders _), (co_AllowCreds _); cbn [app] in Hv; no_output Hv.
Qed.

(** Only a preflight is answered without the next handler; the origin that is answered is
    the request's, and the settings allow it. *)
Theorem CORS_allows cfg r :
  ((CORS cfg r).2 = false -> rq_Method r = "OPTIONS"%string) /\ (forall origin, SetHeader "Access-Control-Allow-Origin" origin ∈ (CORS cfg r).1 ->
     origin = Get r "Origin" /\ matchOrigin origin (co_AllowedOrigins cfg) = true).
Proof.
  unfold CORS. destruct (co_AllowedOrigins cfg) as [|o l] eqn:Eo; [split; [done|by intros ? ?%not_elem_of_nil]|].
  change (co_AllowedOrigins (cors_defaults cfg)) with (co_AllowedOrigins cfg). rewrite Eo. set (origins := o :: l).
  set (pre := rq_Method r =s "OPTIONS"). assert (pre = true -> rq_Method r = "OPTIONS"%string) as Hpre by apply String.eqb_eq.
  destruct (_ =s ""); [destruct pre; (split; [by auto|]); intros v Hv; cbn in Hv; no_output Hv|].
  destruct (_ && _) eqn:En.
  - destruct pre; (split; [by auto|]); intros v Hv; cbn in Hv; no_output Hv.
  - assert (matchOrigin (Get r "Origin") origins = true) as Hm.
    { apply match_of_all. apply andb_false_iff in En as [E|E]; apply negb_false_iff in E; [by left|by right]. }
    destruct pre; (split; [by auto|]); intros v Hv; cbn [fst] in Hv.
    + apply elem_of_app in Hv as [->%cors_headers_origin|Hv]; [done|exfalso; no_output Hv].
    + by apply cors_headers_origin in Hv as ->.
Qed.

(** An answer is an entry that has not expired, or what the repository says now; then it is
    kept for the time to live. *)
Theorem GetCORSRules_spec ctx now later tenant bucket p db p' db' rules :
  GetCORSRules ctx now later tenant bucket p db = (p', db', Ok rules) ->
  (exists e, bp_entries p !! (tenant, bucket) = Some e /\ now < cce_expiresAt e /\ rules = cce_rules e /\ p' = p /\ db' = db) \/
  (GetBucketCORS ctx tenant bucket db = (db', Ok rules) /\  bp_entries p' !! (tenant, bucket) = Some {| cce_rules := rules; cce_expiresAt := later + bp_ttl p |}).
Proof.
  unfold GetCORSRules. set (fetch := match GetBucketCORS ctx tenant bucket db with (_, _) => _ end).
  assert (fetch = (p', db', Ok rules) -> GetBucketCORS ctx tenant bucket db = (db', Ok rules) /\   bp_entries p' !! (tenant, bucket) = Some {| cce_rules := rules; cce_expiresAt := later + bp_ttl p |}) as Hf.
  { unfold fetch. destruct (GetBucketCORS _ _ _ _) as [d [l|e]]; [|done]. intros [= <- <- <-]. split; [done|]. cbn. by rewrite lookup_insert_eq. }
  destruct (bp_entries p !! _) as [e|] eqn:E; [|by right; apply Hf]. destruct (Before _ _) eqn:Eb; [|by right; apply Hf].
  intros [= <- <- <-]. left. exists e. apply Z.ltb_lt in Eb. done.
Qed.

(** Reading the rules leaves the tenants as they are. *)
Lemma GetCORSRules_tenants ctx now later tenant bucket p db :
  r_tenants (GetCORSRules ctx now later tenant bucket p db).1.2 = r_tenants db.
Proof.
  assert (r_tenants (GetBucketCORS ctx tenant bucket db).1 = r_tenants db) as Hg.
  { unfold GetBucketCORS, read_bucket, CreateBucket, exec, insert_bucket, bind, with_ctx, guard, writes, reads, ret, fail.
    destruct ctx; [done|]. cbn. by destruct (existsb _ _). }
  unfold GetCORSRules. assert (forall o, r_tenants (match o : RepoDB * result (list CORSRule) with
    | (d, Err e) => (p, d, @Err error (list CORSRule) e) | (d, Ok l) => (with_rules p (<[(tenant, bucket) := {| cce_rules := l; cce_expiresAt := later + bp_ttl p |}]> (bp_entries p)), d, Ok l) end).1.2
    = r_tenants o.1) as Ho by (by intros [d []]).
  destruct (bp_entries p !! _) as [e|]; [destruct (Before _ _); [done|]|]; by rewrite Ho.
Qed.
End Props.
