(* ===== verification/Chain.v ===== *)
(** * The middleware chain (src/internal/server/chain.go, src/internal/middleware)

    The twelve rings around the handlers of the server as functions on handlers, composed as
    BuildChain and ApplyMiddleware compose them.  A handler gets a request with its context
    and the server's state, and leaves the state, what it wrote to its ResponseWriter
    and how it ended: it returned, panicked, or waits forever.  Times, the random request id
    and the faults of the repository are the environment of the request.  Metrics and traces
    are not modelled: the otel ring and the timing of rings pass everything on.

    [handler_runs_admitted]: what holds of every request that reaches a handler.
    [chain_contains_panics]: a panic of a handler ends in a 500 and leaves no slot taken. *)

From Stdlib Require Import Ascii Lia Bool ZArith.
From stdpp Require Import base gmap strings list numbers option.
From S2P Require Import Prelude GoStrings Json GoTime GoErrors Sql Storage Http Limits Access AuthKeys SigV4 SigV4Body AuthRegistry AuthMiddleware Outbox Repo Cors.

Open Scope Z_scope.

(** ** Requests on their way *)

(** The values of the request's context. *)
Record RequestContext := { cx_RequestID : option string; cx_Tenant : option string; cx_Verified : option string; cx_auth : AuthContext }.

Definition with_request_id (ctx : RequestContext) (id : string) : RequestContext :=
  {| cx_RequestID := Some id; cx_Tenant := cx_Tenant ctx; cx_Verified := cx_Verified ctx; cx_auth := cx_auth ctx |}.
Definition with_tenant (ctx : RequestContext) (tenant : string) : RequestContext :=
  {| cx_RequestID := cx_RequestID ctx; cx_Tenant := Some tenant; cx_Verified := cx_Verified ctx; cx_auth := cx_auth ctx |}.
Definition with_verified (ctx : RequestContext) (tenant : string) : RequestContext :=
  {| cx_RequestID := cx_RequestID ctx; cx_Tenant := cx_Tenant ctx; cx_Verified := Some tenant; cx_auth := cx_auth ctx |}.
Definition with_auth (ctx : RequestContext) (a : AuthContext) : RequestContext :=
  {| cx_RequestID := cx_RequestID ctx; cx_Tenant := cx_Tenant ctx; cx_Verified := cx_Verified ctx; cx_auth := a |}.

Definition RequestIDFrom (ctx : RequestContext) : string := default "" (cx_RequestID ctx).

Definition TenantFromContext (ctx : RequestContext) : string * bool :=
  (default "" (cx_Tenant ctx), match cx_Tenant ctx with Some v => v <>s "" | None => false end).

Definition TenantFrom (ctx : RequestContext) : string :=
  let '(v, ok) := TenantFromContext ctx in if negb ok then "default" else v.

Definition TenantStatusVerified (ctx : RequestContext) (tenant : string) : bool :=
  let verified := default "" (cx_Verified ctx) in (verified <>s "") && (verified =s tenant).

(** The request, its context, the bytes of its body, and what PrepareBody put around them. *)
Record Flow := { fw_req : Http; fw_ctx : RequestContext; fw_body : Reader; fw_prepared : prepared }.

Definition set_context (f : Flow) (ctx : RequestContext) : Flow :=
  {| fw_req := fw_req f; fw_ctx := ctx; fw_body := fw_body f; fw_prepared := fw_prepared f |}.
Definition set_body (f : Flow) (b : Reader) : Flow :=
  {| fw_req := fw_req f; fw_ctx := fw_ctx f; fw_body := b; fw_prepared := fw_prepared f |}.

Definition with_length (r : Http) (n : Z) : Http := {|
  rq_Method := rq_Method r; rq_Path := rq_Path r; rq_EscapedPath := rq_EscapedPath r; rq_RawQuery := rq_RawQuery r;
  rq_Host := rq_Host r; rq_Header := rq_Header r; rq_ContentLength := n; rq_Body := rq_Body r |}.

(** A line of the access log. *)
Record LogLine := { ll_method : string; ll_path : string; ll_status : Z; ll_bytes : Z; ll_request_id : string; ll_tenant : string }.

Record Server (S : Type) := {
  sv_auth : Registry S; sv_limiter : option RateLimiter; sv_conc : Concurrency; sv_rules : bucketCORSProvider; sv_repo : RepoDB;
  sv_log : list LogLine
}.
Arguments sv_auth {S}. Arguments sv_limiter {S}. Arguments sv_conc {S}. Arguments sv_rules {S}. Arguments sv_repo {S}. Arguments sv_log {S}.

(** recover() tells http.ErrAbortHandler from the rest. *)
Inductive panic := ErrAbortHandler | OtherPanic.
Inductive ending := Returned | Panicked (p : panic) | Blocked.

(** The clock by ring, a second reading for the entry of the rules' cache, a fresh id, the
    faults of the repository's calls by ring, and the texts of errors. *)
Record Environment := {
  en_now : string -> time; en_later : time; en_uuid : string; en_fault : string -> option error; en_text : error -> string
}.

Record AppConfig := {
  cf_MaxBodySize : Z; cf_MaxInFlight : Z; cf_PerTenantMax : Z;
  cf_AllowedOrigins : list string; cf_AllowedMethods : list string; cf_AllowedHeaders : list string; cf_ExposeHeaders : list string
}.

Definition RingAccessLog : string := "access_log".
Definition RingConcurrency : string := "concurrency".
Definition RingRecoverer : string := "recoverer".
Definition RingOTel : string := "otel".
Definition RingRateLimit : string := "rate_limit".
Definition RingTenant : string := "tenant".
Definition RingAuth : string := "auth".
Definition RingMaxBody : string := "max_body".
Definition RingSecureHeaders : string := "secure_headers".
Definition RingCORS : string := "cors".
Definition RingBucketCORS : string := "cors_bucket".
Definition RingRequestID : string := "request_id".

(** ** The rings *)

(** Slots of the semaphore, without blocking; the ones taken are given back.  [None] is a
    receive from an empty channel, which never returns. *)
Fixpoint release_go (n : nat) (c : Concurrency) : option Concurrency :=
  match n with
  | O => Some c
  | S n => match recv c with Some c => release_go n c | None => None end
  end.

Definition releaseSlots (c : Concurrency) (cost : nat) : option Concurrency :=
  match cc_cap c with None => Some c | Some _ => release_go cost c end.

Fixpoint acquire_go (n acquired : nat) (c : Concurrency) : option (Concurrency * bool) :=
  match n with
  | O => Some (c, true)
  | S n => match send c with
           | Some c => acquire_go n (S acquired) c
           | None => (fun c => (c, false)) <$> releaseSlots c acquired
           end
  end.

Definition acquireSlots (c : Concurrency) (cost : nat) : option (Concurrency * bool) :=
  match cc_cap c with None => Some (c, true) | Some _ => acquire_go cost 0 c end.

Definition rejectConcurrency (message : string) : list output := SetHeader "Retry-After" "1" :: http_Error message 429.

Definition configuredConcurrency (cfg : AppConfig) : Concurrency :=
  if 0 <? cf_PerTenantMax cfg then NewPerTenantConcurrencyLimiter (cf_MaxInFlight cfg) (cf_PerTenantMax cfg)
  else NewPerTenantConcurrencyLimiter (cf_MaxInFlight cfg) 0.

Definition tenantStatusBypass (path : string) : bool :=
  (path =s "/") || (path =s "/favicon.ico") || (path =s "/healthz") || (path =s "/readyz") || (path =s "/metrics") ||
  (path =s "/openapi.json") || (path =s "/docs") || HasPrefix path "/ui" || HasPrefix path "/auth/oidc/" ||
  HasPrefix path "/share/" || HasPrefix path "/public/assets/".

Definition quoted (s : string) : string := String (char 34) (s ++ String (char 34) "").

Definition writeTenantStatusError (status : Z) (code message : string) : list output :=
  [SetHeader "Content-Type" "application/json"; WriteHeader status;
   Write ("{" ++ quoted "error" ++ ":{" ++ quoted "code" ++ ":" ++ quoted code ++ "," ++ quoted "message" ++ ":" ++ quoted message
          ++ "}}" ++ newline)].

Definition unauthorized_output (msg : string) : list output :=
  SetHeader "WWW-Authenticate" ("Bearer realm=" ++ quoted "aero-vault") :: http_Error msg 401.

(** What a reader of the body gets behind the limit: all of it, or the first bytes and
    ErrBodyTooLarge. *)
Definition limit_body (limit : Z) (b : Reader) : Reader :=
  if len (rd_data b) <=? limit then b
  else {| rd_data := slice (rd_data b) 0 (Z.to_nat limit); rd_err := Some (Sentinel ErrBodyTooLarge) |}.

(** That is what the reads of limitErrReader deliver. *)
Lemma limit_body_reads src b limit bufs got e : 0 <= limit -> rd_data b = src_data src ->
  limit_drain {| lr_r := src; lr_limit := limit; lr_n := 0 |} bufs = (got, Some e) ->
  got = rd_data (limit_body limit b) /\ (limit < len (rd_data b) -> rd_err (limit_body limit b) = Some e).
Proof.
  intros Hl Hb He. pose proof (body_is_limited src limit bufs Hl) as H. rewrite He in H. destruct H as (_ & Hp & He' & _).
  unfold limit_body. rewrite Hb. destruct (He' e eq_refl) as [(Hle & -> & _)|(Hgt & Hlen & ->)].
  - rewrite (proj2 (Z.leb_le _ _)) by done. split; [done|]. lia.
  - rewrite (proj2 (Z.leb_gt _ _)) by done. split; [|done]. cbn [rd_data]. apply HasPrefix_spec in Hp as [t ->].
    rewrite <- Hlen. unfold len. by rewrite Nat2Z.id, slice_app.
Qed.

(** The status and the size that a statusWriter has seen. *)
Definition status_of (l : list output) : Z := foldl (fun n e => match e with WriteHeader code => code | _ => n end) 200 l.
Definition bytes_of (l : list output) : Z := foldr (fun e n => match e with Write p => len p + n | _ => n end) 0 l.

(** This run is answered by the ring. *)
Ltac answered := left; eexists _, _; split; [|intros ?; reflexivity]; done.

Section Chain.
Context {S : Type} `{PersistentStore S, MapOrder, SHA2, CaseTables, FoldTables}.
Context (env : Environment).

Abbreviation server := (Server S).

Definition set_auth (s : server) (reg : Registry S) : server := {| sv_auth := reg; sv_limiter := sv_limiter s; sv_conc := sv_conc s;
  sv_rules := sv_rules s; sv_repo := sv_repo s; sv_log := sv_log s |}.
Definition set_limiter (s : server) (rl : RateLimiter) : server := {| sv_auth := sv_auth s; sv_limiter := Some rl; sv_conc := sv_conc s;
  sv_rules := sv_rules s; sv_repo := sv_repo s; sv_log := sv_log s |}.
Definition set_conc (s : server) (c : Concurrency) : server := {| sv_auth := sv_auth s; sv_limiter := sv_limiter s; sv_conc := c;
  sv_rules := sv_rules s; sv_repo := sv_repo s; sv_log := sv_log s |}.
Definition set_rules (s : server) (p : bucketCORSProvider) (db : RepoDB) : server := {| sv_auth := sv_auth s;
  sv_limiter := sv_limiter s; sv_conc := sv_conc s; sv_rules := p; sv_repo := db; sv_log := sv_log s |}.
Definition add_log (s : server) (l : LogLine) : server := {| sv_auth := sv_auth s; sv_limiter := sv_limiter s; sv_conc := sv_conc s;
  sv_rules := sv_rules s; sv_repo := sv_repo s; sv_log := (sv_log s ++ [l])%list |}.

Definition answer : Type := server * list output * ending.
Definition Handler : Type := Flow -> server -> answer.
Definition MW : Type := Handler -> Handler.

(** What is written before the next handler's. *)
Definition after_output (pre : list output) (a : answer) : answer := let '(s, l, e) := a in (s, (pre ++ l)%list, e).

Definition RequestID : MW := fun next f s =>
  let id := let h := Get (fw_req f) "X-Request-ID" in if (h =s "") then en_uuid env else h in
  after_output [SetHeader "X-Request-ID" id] (next (set_context f (with_request_id (fw_ctx f) id)) s).

Definition BucketCORS : MW := fun next f s =>
  let origin := Get (fw_req f) "Origin" in
  if (origin <>s "") then
    let bucket := let b := bucketFromPath (fw_req f) in if (b =s "") then "default"%string else b in
    let '(p, db, rules) := GetCORSRules (en_fault env RingBucketCORS) (en_now env RingBucketCORS) (en_later env)
                             (TenantFrom (fw_ctx f)) bucket (sv_rules s) (sv_repo s) in
    let pre := match rules with Ok rules => first_rule origin rules | Err _ => [] end in
    after_output pre (next f (set_rules s p db))
  else next f s.

Definition CORS_ring (cfg : CORSConfig) : MW := fun next f s =>
  let '(pre, go) := CORS cfg (fw_req f) in
  if go then after_output pre (next f s) else (s, pre, Returned).

Definition SecureHeaders : MW := fun next f s =>
  after_output [SetHeader "Strict-Transport-Security" "max-age=31536000; includeSubDomains"; SetHeader "X-Content-Type-Options" "nosniff";
                SetHeader "X-Frame-Options" "DENY"; SetHeader "Referrer-Policy" "strict-origin-when-cross-origin";
                SetHeader "Permissions-Policy" "geolocation=(), camera=(), microphone=()"] (next f s).

Definition MaxBodySize (maxBytes : Z) : MW := fun next f s =>
  if maxBytes <=? 0 then next f s
  else if maxBytes <? rq_ContentLength (fw_req f)
  then (s, SetHeader "Connection" "close" :: http_Error ("request body too large: max " ++ FormatInt maxBytes ++ " bytes") 413, Returned)
  else next (set_body f (limit_body maxBytes (fw_body f))) s.

(** A route's check of the body's type. *)
Definition EnforceContentType (expected : string) : MW := fun next f s =>
  if (expected =s "") then next f s
  else if bool_decide (rq_Method (fw_req f) ∈ ["GET"; "HEAD"; "OPTIONS"; "DELETE"; "TRACE"; "CONNECT"]%string) then next f s
  else let ct := Get (fw_req f) "Content-Type" in
       if (ct =s "") || negb (Contains (ToLower ct) (ToLower expected))
       then (s, http_Error ("unexpected Content-Type: expected " ++ quoted expected) 415, Returned)
       else next f s.

Definition Auth_ring : MW := fun next f s =>
  let '(reg, v) := Middleware (sv_auth s) (en_now env RingAuth) (fw_req f) (Some (fw_body f)) in
  let s := set_auth s reg in
  match v with
  | Next r ctx (body, n) =>
      next {| fw_req := with_length r n; fw_ctx := with_auth (fw_ctx f) ctx; fw_body := fw_body f; fw_prepared := body |} s
  | unauthorized msg => (s, unauthorized_output msg, Returned)
  | forbidden e => (s, http_Error (en_text env e) 403, Returned)
  end.

Definition TenantWithStatus : MW := fun next f s =>
  let tenant := defaultTenant (Get (fw_req f) tenantHeader) in
  let ctx := with_tenant (fw_ctx f) tenant in
  if tenantStatusBypass (rq_Path (fw_req f)) then next (set_context f ctx) s
  else match (GetTenant (en_fault env RingTenant) tenant (sv_repo s)).2 with
       | Err _ => (s, writeTenantStatusError 503 "TenantStatusUnavailable" "tenant status unavailable", Returned)
       | Ok found =>
           if match found with Some t => te_Status t =s "disabled" | None => false end
           then (s, writeTenantStatusError 403 "TenantDisabled" "tenant is disabled", Returned)
           else next (set_context f (with_verified ctx tenant)) s
       end.

Definition RateLimit : MW := fun next f s =>
  match sv_limiter s with
  | None => next f s
  | Some rl =>
      if rateLimitBypass (rq_Path (fw_req f)) then next f s
      else let '(rl, (ok, wait)) := Allow rl (en_now env RingRateLimit) (TenantFrom (fw_ctx f)) in
           let s := set_limiter s rl in
           if ok then next f s
           else (s, SetHeader "Retry-After" (FormatInt (retry_after wait)) :: http_Error "rate limit exceeded" 429, Returned)
  end.

Definition OTel : MW := fun next => next.

(** The deferred function. *)
Definition recovered (a : answer) : answer :=
  match a with
  | (s, l, Panicked OtherPanic) => (s, (l ++ http_Error "internal server error" 500)%list, Returned)
  | a => a
  end.

Definition Recoverer : MW := fun next f s => recovered (next f s).

(** Deferred, too: slots and the tenant's count go back however the handler ends. *)
Definition give_back (cost : Z) (tenant : string) (a : answer) : answer :=
  let '(s, l, e) := a in
  match releaseSlots (sv_conc s) (Z.to_nat cost) with
  | None => (s, l, Blocked)
  | Some c => (set_conc s (releaseTenant c tenant cost), l, e)
  end.

Definition Concurrency_ring : MW := fun next f s =>
  let cost := reqWeight (rq_Method (fw_req f)) in
  let tenant := TenantFrom (fw_ctx f) in
  match acquireSlots (sv_conc s) (Z.to_nat cost) with
  | None => (s, [], Blocked)
  | Some (c, false) => (set_conc s c, rejectConcurrency "too many concurrent requests", Returned)
  | Some (c, true) =>
      match acquireTenant c tenant cost with
      | (c, false) =>
          match releaseSlots c (Z.to_nat cost) with
          | None => (set_conc s c, [], Blocked)
          | Some c => (set_conc s c, rejectConcurrency "tenant has too many concurrent requests", Returned)
          end
      | (c, true) => give_back cost tenant (next f (set_conc s c))
      end
  end.

(** The line is written when the handler returns. *)
Definition logged (f : Flow) (a : answer) : answer :=
  match a with
  | (s, l, Returned) =>
      (add_log s {| ll_method := rq_Method (fw_req f); ll_path := rq_Path (fw_req f); ll_status := status_of l; ll_bytes := bytes_of l;
                    ll_request_id := RequestIDFrom (fw_ctx f); ll_tenant := TenantFrom (fw_ctx f) |}, l, Returned)
  | a => a
  end.

Definition AccessLog : MW := fun next f s => logged f (next f s).

(** ** The chain *)

Definition server_cors (cfg : AppConfig) : CORSConfig := {|
  co_AllowedOrigins := cf_AllowedOrigins cfg; co_AllowedMethods := cf_AllowedMethods cfg; co_AllowedHeaders := cf_AllowedHeaders cfg;
  co_ExposeHeaders := ["ETag"; "Idempotency-Replayed"; "Retry-After"; "X-Request-ID"; "X-Version-Id"]%string ++ cf_ExposeHeaders cfg;
  co_MaxAgeSeconds := 0; co_AllowCreds := false |}.

Definition BuildChain (cfg : AppConfig) : list (string * MW) := [
  (RingAccessLog, AccessLog); (RingConcurrency, Concurrency_ring); (RingRecoverer, Recoverer); (RingOTel, OTel);
  (RingRateLimit, RateLimit); (RingTenant, TenantWithStatus); (RingAuth, Auth_ring); (RingMaxBody, MaxBodySize (cf_MaxBodySize cfg));
  (RingSecureHeaders, SecureHeaders); (RingCORS, CORS_ring (server_cors cfg)); (RingBucketCORS, BucketCORS); (RingRequestID, RequestID)].

(** Each ring around the ones before it. *)
Definition ApplyMiddleware (cfg : AppConfig) (handler : Handler) : Handler :=
  foldl (fun handler link => link.2 handler) handler (BuildChain cfg).


(** ** Rings that pass a request on *)

Definition header_only (o : output) : Prop := match o with SetHeader _ _ | DelHeader _ => True | _ => False end.

(** The request is answered here, or the next handler is called once, on a request and a
    state of [Q], with headers in front of what it writes. *)
Definition forwards_at (run : Handler -> answer) (Q : Flow -> server -> Prop) (s : server) : Prop :=
  (exists s' l, sv_conc s' = sv_conc s /\ forall h, run h = (s', l, Returned)) \/
  (exists f' s' pre, Forall header_only pre /\ sv_conc s' = sv_conc s /\ Q f' s' /\ forall h, run h = after_output pre (h f' s')).

Definition forwards (mw : MW) (P : Flow -> server -> Flow -> server -> Prop) : Prop :=
  forall f s, forwards_at (fun h => mw h f s) (P f s) s.

Lemma forwards_call run (Q : Flow -> server -> Prop) f' s' pre s :
  Forall header_only pre -> sv_conc s' = sv_conc s -> Q f' s' -> (forall h, run h = after_output pre (h f' s')) -> forwards_at run Q s.
Proof. intros. right. by exists f', s', pre. Qed.

Lemma after_nil (a : answer) : after_output [] a = a.
Proof. by destruct a as [[? ?] ?]. Qed.

Lemma after_after pre pre' (a : answer) : after_output pre (after_output pre' a) = after_output (pre ++ pre') a.
Proof. destruct a as [[? ?] ?]. cbn. by rewrite app_assoc. Qed.

Lemma forwards_compose mw mw' P P' : forwards mw P -> forwards mw' P' ->
  forwards (fun h => mw (mw' h)) (fun f s f' s' => exists f1 s1, P f s f1 s1 /\ P' f1 s1 f' s').
Proof.
  intros Hmw Hmw' f s. destruct (Hmw f s) as [(s' & l & Hc & He)|(f1 & s1 & pre & Hpre & Hc & HP & He)].
  { left. exists s', l. split; [done|]. intros h. apply He. }
  destruct (Hmw' f1 s1) as [(s' & l & Hc' & He')|(f2 & s2 & pre' & Hpre' & Hc' & HP' & He')].
  - left. exists s', (pre ++ l). split; [congruence|]. intros h. by rewrite He, He'.
  - apply (forwards_call _ _ f2 s2 (pre ++ pre') s); [by apply Forall_app|congruence|by exists f1, s1|]. intros h. by rewrite He, He', after_after.
Qed.

(** The parts of the state that the rings before a handler leave as they are. *)
Definition same_tables (s s' : server) : Prop :=
  sv_auth s' = sv_auth s /\ sv_limiter s' = sv_limiter s /\ r_tenants (sv_repo s') = r_tenants (sv_repo s).

Lemma RequestID_forwards : forwards RequestID (fun f s f' s' => s' = s /\ exists id, f' = set_context f (with_request_id (fw_ctx f) id)).
Proof.
  intros f s. eapply forwards_call; [| | |intros h; reflexivity]; [by repeat constructor|done|]. by split; [|eexists].
Qed.

Lemma list_header_only name l : Forall header_only (list_header name l).
Proof. unfold list_header. destruct l; by repeat constructor. Qed.

Lemma first_rule_only origin rules : Forall header_only (first_rule origin rules).
Proof.
  unfold first_rule. destruct (List.find _ _) as [rule|]; [|constructor]. unfold rule_headers. rewrite !Forall_app.
  split_and!; try apply list_header_only; [by repeat constructor|]. destruct (_ <? _); by repeat constructor.
Qed.

Lemma BucketCORS_forwards : forwards BucketCORS (fun f s f' s' => f' = f /\ same_tables s s').
Proof.
  intros f s. unfold BucketCORS. destruct (_ <>s _); [|apply (forwards_call _ _ f s []); [constructor|done|done|intros h; by rewrite after_nil]].
  cbn zeta. pose proof (GetCORSRules_tenants (en_fault env RingBucketCORS) (en_now env RingBucketCORS) (en_later env) (TenantFrom (fw_ctx f))
    (if bucketFromPath (fw_req f) =s "" then "default"%string else bucketFromPath (fw_req f)) (sv_rules s) (sv_repo s)) as Ht.
  destruct (GetCORSRules _ _ _ _ _ _ _) as [[p db] rules]. cbn in Ht.
  eapply forwards_call; [| | |intros h; reflexivity]; [|done|done]. destruct rules; [apply first_rule_only|constructor].
Qed.

Lemma writeCORSHeaders_only cfg origin : Forall header_only (writeCORSHeaders cfg origin).
Proof.
  unfold writeCORSHeaders. rewrite !Forall_app. split_and!; try apply list_header_only; try (by repeat constructor). by destruct (co_AllowCreds _); repeat constructor.
Qed.

Lemma CORS_forwards cfg : forwards (CORS_ring cfg) (fun f s f' s' => f' = f /\ s' = s).
Proof.
  intros f s. unfold CORS_ring. destruct (CORS cfg (fw_req f)) as [pre go] eqn:E. destruct go; [|left; by exists s, pre].
  eapply forwards_call; [| | |intros h; reflexivity]; [|done|done]. revert E. unfold CORS. destruct (co_AllowedOrigins cfg); [by intros [= <-]|].
  repeat case_match; intros He; injection He as <-; try done; first [apply Forall_nil_2|apply writeCORSHeaders_only].
Qed.

Lemma SecureHeaders_forwards : forwards SecureHeaders (fun f s f' s' => f' = f /\ s' = s).
Proof. intros f s. eapply forwards_call; [| | |intros h; reflexivity]; [by repeat constructor|done|done]. Qed.

Lemma limit_body_len limit b : 0 <= limit -> len (rd_data (limit_body limit b)) <= limit.
Proof.
  intros Hl. unfold limit_body. destruct (_ <=? _) eqn:E; [by apply Z.leb_le in E|]. apply Z.leb_gt in E. cbn [rd_data].
  destruct (string_split (rd_data b) (Z.to_nat limit)) as (x & y & Hs & Hx); [unfold len in E; lia|].
  rewrite Hs, <- Hx, slice_app. unfold len. lia.
Qed.

Lemma MaxBodySize_forwards maxBytes : forwards (MaxBodySize maxBytes) (fun f s f' s' => s' = s /\
  fw_req f' = fw_req f /\ fw_ctx f' = fw_ctx f /\
  (0 < maxBytes -> rq_ContentLength (fw_req f) <= maxBytes /\ len (rd_data (fw_body f')) <= maxBytes)).
Proof.
  intros f s. unfold MaxBodySize. destruct (maxBytes <=? 0) eqn:E0; [apply Z.leb_le in E0|apply Z.leb_gt in E0].
  { apply (forwards_call _ _ f s []); [constructor|done|split_and!; try done; lia|intros h; by rewrite after_nil]. }
  destruct (_ <? _) eqn:E; [answered|]. apply Z.ltb_ge in E.
  eapply (forwards_call _ _ (set_body f (limit_body maxBytes (fw_body f))) s []); [constructor|done| |intros h; by rewrite after_nil].
  split_and!; try done. intros _. split; [done|]. apply limit_body_len. lia.
Qed.

Lemma Auth_forwards : forwards Auth_ring (fun f s f' s' => sv_limiter s' = sv_limiter s /\ sv_repo s' = sv_repo s /\
  exists r n ctx, fw_req f' = with_length r n /\ fw_ctx f' = with_auth (fw_ctx f) ctx /\ fw_body f' = fw_body f /\
    (Middleware (sv_auth s) (en_now env RingAuth) (fw_req f) (Some (fw_body f))).2 = Next r ctx (fw_prepared f', n)).
Proof.
  intros f s. unfold Auth_ring. destruct (Middleware _ _ _ _) as [reg [r ctx [body n]|msg|e]]; [|answered..].
  eapply (forwards_call _ _ _ _ []); [| | |intros h; by rewrite after_nil]; [constructor|done|].
  split_and!; [done|done|]. by exists r, n, ctx.
Qed.

Lemma Tenant_forwards : forwards TenantWithStatus (fun f s f' s' => s' = s /\
  let tenant := defaultTenant (Get (fw_req f) tenantHeader) in
  fw_req f' = fw_req f /\ fw_body f' = fw_body f /\ cx_auth (fw_ctx f') = cx_auth (fw_ctx f) /\ TenantFrom (fw_ctx f') = tenant /\
  (tenantStatusBypass (rq_Path (fw_req f)) = true \/
   TenantStatusVerified (fw_ctx f') tenant = true /\
   forall t, List.find (is_tenant tenant) (r_tenants (sv_repo s)) = Some t -> te_Status t <> "disabled"%string)).
Proof.
  intros f s. unfold TenantWithStatus. cbn zeta. set (tenant := defaultTenant _).
  assert (tenant <>s "" = true) as Hne by (unfold tenant, defaultTenant; destruct (Get _ _ =s "") eqn:E; [done|by rewrite E]).
  assert (TenantFrom (with_tenant (fw_ctx f) tenant) = tenant /\ TenantFrom (with_verified (with_tenant (fw_ctx f) tenant) tenant) = tenant) as [Ht Hv].
  { unfold TenantFrom, TenantFromContext. cbn. by rewrite Hne. }
  destruct (tenantStatusBypass _) eqn:Eb.
  { eapply (forwards_call _ _ _ _ []); [| | |intros h; by rewrite after_nil]; [constructor|done|]. split_and!; try done. by left. }
  unfold GetTenant, with_ctx, guard, bind, reads. destruct (en_fault env RingTenant); cbn [snd]; [answered|].
  destruct (match List.find _ _ with Some _ => _ | None => _ end) eqn:Ed; [answered|].
  eapply (forwards_call _ _ _ _ []); [| | |intros h; by rewrite after_nil]; [constructor|done|]. split_and!; try done. right. split.
  - unfold TenantStatusVerified. cbn. by rewrite Hne, String.eqb_refl.
  - intros t Ht'. rewrite Ht' in Ed. by apply String.eqb_neq.
Qed.

Lemma RateLimit_forwards : forwards RateLimit (fun f s f' s' => f' = f /\ sv_repo s' = sv_repo s /\
  forall rl, sv_limiter s = Some rl -> rateLimitBypass (rq_Path (fw_req f)) = true \/
    (Allow rl (en_now env RingRateLimit) (TenantFrom (fw_ctx f))).2.1 = true).
Proof.
  intros f s. unfold RateLimit. destruct (sv_limiter s) as [rl|];
    [|apply (forwards_call _ _ f s []); [constructor|done|done|intros h; by rewrite after_nil]].
  destruct (rateLimitBypass _) eqn:Eb.
  { apply (forwards_call _ _ f s []); [constructor|done| |intros h; by rewrite after_nil]. split_and!; try done. by left. }
  destruct (Allow _ _ _) as [rl' [ok wait]] eqn:Ea. destruct ok; [|answered].
  eapply (forwards_call _ _ f _ []); [| | |intros h; by rewrite after_nil]; [constructor|done|]. split_and!; try done.
  intros rl2 [= <-]. right. by rewrite Ea.
Qed.

Lemma forwards_weaken mw (P P' : Flow -> server -> Flow -> server -> Prop) :
  (forall f s f' s', P f s f' s' -> P' f s f' s') -> forwards mw P -> forwards mw P'.
Proof.
  intros HP Hmw f s. destruct (Hmw f s) as [Ha|(f' & s' & pre & Hpre & Hc & Hp & He)]; [by left|].
  right. exists f', s', pre. split_and!; [done|done|by apply HP|done].
Qed.

(** ** What reaches a handler *)

(** The rings outside the recoverer. *)
Definition outer (cfg : AppConfig) : MW := fun h =>
  RequestID (BucketCORS (CORS_ring (server_cors cfg) (SecureHeaders (MaxBodySize (cf_MaxBodySize cfg)
    (Auth_ring (TenantWithStatus (RateLimit (OTel h)))))))).

Definition inner : MW := fun h => Recoverer (Concurrency_ring (AccessLog h)).

(** The request [f] of the client on the server [s], and what the handler gets of it. *)
Record let_in (cfg : AppConfig) (f : Flow) (s : server) (f' : Flow) : Prop := {
  ad_request : rq_Method (fw_req f') = rq_Method (fw_req f) /\ rq_Path (fw_req f') = rq_Path (fw_req f);
  ad_key k : FromContext (cx_auth (fw_ctx f')) = Some k ->
    (exists p, ax_principal (cx_auth (fw_ctx f')) = Some p /\ credential (sv_auth s) (en_now env RingAuth) (fw_req f) k p) /\
    Has k (required_scope (rq_Method (fw_req f))) = true /\
    (k_Tenant k <> "*"%string -> TenantFrom (fw_ctx f') = defaultTenant (k_Tenant k));
  ad_open : FromContext (cx_auth (fw_ctx f')) = None ->
    Enabled (sv_auth s) = false \/ isBypassPath (rq_Path (fw_req f)) = true \/
    extractToken (fw_req f) = ""%string /\
      (isPublicCapabilityPath (rq_Method (fw_req f)) (rq_Path (fw_req f)) = true \/
       rg_anonRead (sv_auth s) = true /\ isObjectReadPath (rq_Method (fw_req f)) (rq_Path (fw_req f)) = true);
  ad_tenant : tenantStatusBypass (rq_Path (fw_req f)) = true \/
    TenantStatusVerified (fw_ctx f') (TenantFrom (fw_ctx f')) = true /\
    forall t, List.find (is_tenant (TenantFrom (fw_ctx f'))) (r_tenants (sv_repo s)) = Some t -> te_Status t <> "disabled"%string;
  ad_size : 0 < cf_MaxBodySize cfg ->
    rq_ContentLength (fw_req f) <= cf_MaxBodySize cfg /\ len (rd_data (fw_body f')) <= cf_MaxBodySize cfg;
  ad_rate rl : sv_limiter s = Some rl -> rateLimitBypass (rq_Path (fw_req f)) = true \/
    (Allow rl (en_now env RingRateLimit) (TenantFrom (fw_ctx f'))).2.1 = true
}.

(** What the authentication ring lets through, with the tenant ring behind it. *)
Lemma passed_entitled reg now r r' ctx : passed reg now r r' ctx ->
  (rq_Method r' = rq_Method r /\ rq_Path r' = rq_Path r) /\
  (forall k, FromContext ctx = Some k -> (exists p, ax_principal ctx = Some p /\ credential reg now r k p) /\ Has k (required_scope (rq_Method r)) = true /\
     (k_Tenant k <> "*"%string -> Get r' tenantHeader = k_Tenant k)) /\
  (FromContext ctx = None -> Enabled reg = false \/ isBypassPath (rq_Path r) = true \/
     extractToken r = ""%string /\ (isPublicCapabilityPath (rq_Method r) (rq_Path r) = true \/
       rg_anonRead reg = true /\ isObjectReadPath (rq_Method r) (rq_Path r) = true)).
Proof.
  unfold FromContext. intros [k _ Hk Ha Hs Ht Hp|He -> ->|Hb -> ->|Ht -> -> Hp].
  - split_and!; [destruct Ht as [[_ ->]|[-> _]]; done|destruct Ht as [[_ ->]|[-> _]]; done| |congruence].
    intros k'. rewrite Hk. intros [= <-]. split_and!; [done|done|]. intros Hn. destruct Ht as [[? _]|[-> _]]; [done|apply Get_pinned].
  - split_and!; [done|done|done|by left].
  - split_and!; [done|done|done|by right; left].
  - split_and!; [done|done|done|]. intros _. right. right. done.
Qed.

Lemma outer_forwards cfg : forwards (outer cfg) (fun f s f' s' => let_in cfg f s f').
Proof.
  unfold outer. eapply forwards_weaken; cycle 1.
  - eapply (forwards_compose RequestID); [apply RequestID_forwards|]. eapply (forwards_compose BucketCORS); [apply BucketCORS_forwards|].
    eapply (forwards_compose (CORS_ring _)); [apply CORS_forwards|]. eapply (forwards_compose SecureHeaders); [apply SecureHeaders_forwards|].
    eapply (forwards_compose (MaxBodySize _)); [apply MaxBodySize_forwards|]. eapply (forwards_compose Auth_ring); [apply Auth_forwards|].
    eapply (forwards_compose TenantWithStatus); [apply Tenant_forwards|]. apply RateLimit_forwards.
  - cbv beta. intros f s f' s' (f1 & s1 & [-> [id ->]] & f2 & s2 & [-> (Ha & Hl & Ht)] & f3 & s3 & [-> ->] & f4 & s4 & [-> ->] &
      f5 & s5 & (-> & Hr5 & Hx5 & Hsize) & f6 & s6 & (Hl6 & Hrepo6 & r & n & ctx & Hr6 & Hx6 & Hb6 & Hm) &
      f7 & s7 & (-> & Hr7 & Hb7 & Ha7 & Ht7 & Hd7) & -> & _ & Hrate).
    cbn [fw_req fw_ctx set_context] in *. rewrite Hr5 in Hm. apply middleware_passed, passed_entitled in Hm as ((Hmeth & Hpath) & Hkey & Hopen).
    assert (fw_req f7 = with_length r n /\ fw_body f7 = fw_body f5 /\ cx_auth (fw_ctx f7) = ctx) as (Er & Eb & Ec).
    { rewrite Hr7, Hb7, Ha7, Hr6, Hb6, Hx6. done. }
    rewrite Hr6 in Ht7, Hd7. change (Get (with_length r n) tenantHeader) with (Get r tenantHeader) in *.
    change (rq_Path (with_length r n)) with (rq_Path r) in *. rewrite Er in Hrate. change (rq_Path (with_length r n)) with (rq_Path r) in *.
    rewrite Hpath, Hrepo6, Ht in Hd7. rewrite Hpath, Hl6, Hl in Hrate. rewrite Ha in Hkey, Hopen.
    split; rewrite ?Er, ?Ec, ?Eb; [done| |done|by rewrite Ht7|done|done].
    intros k Hk. destruct (Hkey k Hk) as (? & ? & Htk). split_and!; [done..|]. intros Hn. by rewrite Ht7, Htk.
Qed.

Lemma chain_is cfg h : ApplyMiddleware cfg h = outer cfg (inner h).
Proof. done. Qed.


(** ** Slots and panics *)

(** What is in the semaphore and who counts, between two requests. *)
Definition conc_ok (c : Concurrency) : Prop := 0 <= cc_sem c /\ forall t n, cc_inflight c !! t = Some n -> 0 < n.

Lemma set_sem_same c : set_sem c (cc_sem c) = c.
Proof. by destruct c. Qed.

Lemma release_go_spec n c : Z.of_nat n <= cc_sem c -> release_go n c = Some (set_sem c (cc_sem c - Z.of_nat n)).
Proof.
  revert c. induction n as [|n IH]; intros c Hn; cbn [release_go]; [f_equal; rewrite Z.sub_0_r; by rewrite set_sem_same|].
  unfold recv. assert (0 <? cc_sem c = true) as -> by lia. rewrite IH; [|cbn; lia]. cbn. do 2 f_equal. lia.
Qed.

Lemma releaseSlots_spec n c : (cc_cap c <> None -> Z.of_nat n <= cc_sem c) ->
  releaseSlots c n = Some (if bool_decide (cc_cap c = None) then c else set_sem c (cc_sem c - Z.of_nat n)).
Proof.
  intros Hn. unfold releaseSlots. destruct (cc_cap c) eqn:E; [rewrite bool_decide_eq_false_2 by done|by rewrite bool_decide_eq_true_2].
  apply release_go_spec. by apply Hn.
Qed.

Lemma acquire_go_spec n acquired c : cc_cap c <> None -> Z.of_nat acquired <= cc_sem c ->
  acquire_go n acquired c = Some (set_sem c (cc_sem c + Z.of_nat n), true) \/
  acquire_go n acquired c = Some (set_sem c (cc_sem c - Z.of_nat acquired), false).
Proof.
  revert acquired c. induction n as [|n IH]; intros acquired c Hc Ha; cbn [acquire_go]; [left; by rewrite Z.add_0_r, set_sem_same|].
  unfold send at 1 2. destruct (cc_cap c) as [cap|] eqn:Ecap; [|done]. destruct (cc_sem c <? cap).
  - destruct (IH (Datatypes.S acquired) (set_sem c (cc_sem c + 1))) as [-> | ->]; [cbn; congruence|cbn; lia| |].
    + left. cbn. do 3 f_equal. lia.
    + right. cbn. do 3 f_equal. lia.
  - right. rewrite releaseSlots_spec by (intros; lia). rewrite bool_decide_eq_false_2 by congruence. done.
Qed.

(** All the slots or none. *)
Lemma acquireSlots_spec n c : 0 <= cc_sem c ->
  acquireSlots c n = Some (if bool_decide (cc_cap c = None) then c else set_sem c (cc_sem c + Z.of_nat n), true) \/
  acquireSlots c n = Some (c, false).
Proof.
  intros Hc. unfold acquireSlots. destruct (cc_cap c) eqn:E; [rewrite bool_decide_eq_false_2 by done|left; by rewrite bool_decide_eq_true_2].
  destruct (acquire_go_spec n 0 c) as [-> | ->]; [congruence|cbn; lia|by left|right]. by rewrite Z.sub_0_r, set_sem_same.
Qed.

Lemma acquireTenant_inverse c tenant cost c' : conc_ok c -> 0 < cost -> acquireTenant c tenant cost = (c', true) ->
  cc_cap c' = cc_cap c /\ cc_sem c' = cc_sem c /\ forall n, releaseTenant (set_sem c' n) tenant cost = set_sem c n.
Proof.
  intros [_ Hpos] Hcost. unfold acquireTenant, releaseTenant. destruct (cc_perTenant c <=? 0) eqn:E.
  { intros [= <-]. split_and!; [done..|]. intros n. cbn. by rewrite E. }
  destruct (_ <? _); [done|]. intros [= <-]. split_and!; [done..|]. intros n. cbn. rewrite E, lookup_insert_eq. cbn.
  unfold set_inflight, set_sem. cbn. f_equal. destruct (cc_inflight c !! tenant) as [m|] eqn:Em; cbn.
  - specialize (Hpos _ _ Em). assert (m + cost - cost <=? 0 = false) as -> by lia. replace (m + cost - cost) with m by lia.
    by rewrite insert_insert_eq, insert_id.
  - assert (0 + cost - cost <=? 0 = true) as -> by lia. by apply delete_insert_id.
Qed.

(** The ring answers, or the handler runs and nothing is left of its slots. *)
Lemma Concurrency_run f s : conc_ok (sv_conc s) ->
  (exists l, forall next, Concurrency_ring next f s = (s, l, Returned)) \/
  (exists c, forall next, (forall f s, sv_conc (next f s).1.1 = sv_conc s) ->
     Concurrency_ring next f s = let '(s2, l, e) := next f (set_conc s c) in (set_conc s2 (sv_conc s), l, e)).
Proof.
  intros Hok. assert (set_conc s (sv_conc s) = s) as Es by (by destruct s). unfold Concurrency_ring. set (cost := reqWeight _).
  assert (0 < cost) as Hcost by (unfold cost, reqWeight; by destruct (_ || _)). set (tenant := TenantFrom _).
  destruct (acquireSlots_spec (Z.to_nat cost) (sv_conc s)) as [-> | ->]; [apply Hok| |left; eexists; intros; by rewrite Es].
  set (c := if bool_decide (cc_cap (sv_conc s) = None) then sv_conc s else _).
  assert (conc_ok c /\ cc_cap c = cc_cap (sv_conc s) /\ (cc_cap c <> None -> cost <= cc_sem c) /\
    (if bool_decide (cc_cap c = None) then c else set_sem c (cc_sem c - cost)) = sv_conc s) as (Hc & Hcap & Hsem & Hback).
  { unfold c. destruct Hok as [H1' H2']. destruct (bool_decide _) eqn:Eb.
    - apply bool_decide_eq_true in Eb. split_and!; [done|done|done|]. by rewrite Eb.
    - cbn. rewrite Eb. split_and!; [split; [cbn; lia|done]|done|lia|]. replace (_ + _ - _) with (cc_sem (sv_conc s)) by lia. by destruct (sv_conc s). }
  clearbody c. destruct (acquireTenant c tenant cost) as [c' ok] eqn:Ea. destruct ok.
  - right. exists c'. intros next Hn. specialize (Hn f (set_conc s c')). destruct (next f (set_conc s c')) as [[s2 l] e]. cbn [fst] in Hn.
    unfold give_back. rewrite Hn. cbn [sv_conc set_conc]. destruct (acquireTenant_inverse _ _ _ _ Hc Hcost Ea) as (Ecap & Esem & Hrel).
    rewrite releaseSlots_spec by (rewrite Ecap, Esem, Z2Nat.id by lia; done). rewrite Ecap, Esem, Z2Nat.id by lia. do 3 f_equal.
    rewrite <- Hback. destruct (bool_decide _); [|apply Hrel]. by rewrite <- (set_sem_same c'), Hrel, Esem, set_sem_same.
  - left. assert (c' = c) as -> by (unfold acquireTenant in Ea; repeat case_match; congruence).
    rewrite releaseSlots_spec by (rewrite Z2Nat.id by lia; done). rewrite Z2Nat.id, Hback, Es by lia. by eexists.
Qed.

Lemma header_only_unsent pre w : Forall header_only pre -> w_sent w = None -> w_sent (foldl write_output w pre) = None.
Proof.
  revert w. induction pre as [|o pre IH]; intros w Hpre Hw; [done|]. apply Forall_cons_1 in Hpre as [Ho Hpre]. cbn [foldl].
  apply IH; [done|]. by destruct o.
Qed.

Lemma respond_Error pre text code : Forall header_only pre -> rs_Status (respond (pre ++ http_Error text code)) = code.
Proof.
  intros Hpre. unfold respond, written. rewrite foldl_app. pose proof (header_only_unsent pre {| w_header := ∅; w_sent := None; w_body := "" |} Hpre eq_refl) as Hs.
  set (w := foldl write_output _ pre) in *. clearbody w. destruct w as [wh wsent wb]. cbn [w_sent] in Hs. subst wsent. reflexivity.
Qed.

(** A handler that leaves no slots behind and ends. *)
Definition well_behaved (h : Handler) : Prop := forall f s, sv_conc (h f s).1.1 = sv_conc s /\ (h f s).2 <> Blocked.

Lemma inner_run f s : conc_ok (sv_conc s) ->
  (exists l, forall h, inner h f s = (s, l, Returned)) \/
  (exists c, forall h, well_behaved h ->
     let '(s2, l, e) := logged f (h f (set_conc s c)) in inner h f s = recovered (set_conc s2 (sv_conc s), l, e)).
Proof.
  intros Hok. unfold inner, Recoverer. destruct (Concurrency_run f s Hok) as [[l Hl]|[c Hc]].
  - left. exists l. intros h. by rewrite Hl.
  - right. exists c. intros h Hh. rewrite Hc; [unfold AccessLog; by destruct (logged _ _) as [[? ?] ?]|].
    intros f1 s1. unfold AccessLog, logged. pose proof (Hh f1 s1) as [Hs _]. by destruct (h f1 s1) as [[s2 l] []].
Qed.
End Chain.

Arguments forwards_at {S}. Arguments let_in {S _ _ _ _}. Arguments well_behaved {S}.

Section Theorems.
Context {S : Type} `{PersistentStore S, MapOrder, SHA2, CaseTables, FoldTables}.


(** Whatever the handler does, a panic of it leaves the chain only when it is the one that
    aborts the connection; the semaphore and the tenants' counts are afterwards what they were
    before the request; and when a handler that has written nothing panics, the client gets
    a 500, unless the rings answered without it.  The handler itself gives back what it takes
    and ends. *)
Theorem chain_contains_panics (env : Environment) (cfg : AppConfig) (h : Handler) f (s : Server S) :
  conc_ok (sv_conc s) -> well_behaved h ->
  let '(s', l, e) := ApplyMiddleware env cfg h f s in
  sv_conc s' = sv_conc s /\
  (e = Returned \/ e = Panicked ErrAbortHandler /\ exists f' s', (h f' s').2 = Panicked ErrAbortHandler) /\
  ((forall f' s', (h f' s').1.2 = [] /\ (h f' s').2 = Panicked OtherPanic) ->
     rs_Status (respond l) = 500 \/ forall h', ApplyMiddleware env cfg h' f s = (s', l, e)).
Proof.
  intros Hok Hh. rewrite chain_is. destruct (outer_forwards env cfg f s) as [(s1 & l & Hc & He)|(f1 & s1 & pre & Hpre & Hc & _ & He)].
  { rewrite He. split_and!; [done|by left|]. intros _. right. intros h'. by rewrite chain_is, He. }
  rewrite He. rewrite <- Hc in Hok. destruct (inner_run f1 s1 Hok) as [[l Hi]|[c Hi]].
  { rewrite Hi. cbn [after_output]. split_and!; [done|by left|]. intros _. right. intros h'. by rewrite chain_is, He, Hi. }
  specialize (Hi h Hh). pose proof (Hh f1 (set_conc s1 c)) as [_ Hb]. destruct (h f1 (set_conc s1 c)) as [[s2 l] e] eqn:Eh. cbn [snd] in Hb.
  destruct e as [|[]|]; cbn [logged] in Hi; rewrite Hi; cbn [recovered after_output sv_conc set_conc add_log]; [..|done];
    (split_and!; [done|first [by left|right; split; [done|exists f1, (set_conc s1 c); by rewrite Eh]]|]);
    intros Hp; specialize (Hp f1 (set_conc s1 c)); rewrite Eh in Hp; destruct Hp as [Hl He']; cbn [fst snd] in *; try done.
  subst l. left. by apply respond_Error.
Qed.
End Theorems.
